(* ===== verification/_CoqProject ===== *)
-Q . S2P
Prelude.v
Bytes.v
BackRef.v
Smb2Const.v
Chan.v
Utils.v
Text.v
Locks.v
Header.v
Request.v
Messages.v
Fields.v
Credits.v
ChannelSeq.v
Ciphers.v
Session.v
Lz77.v
Lznt1.v
HuffBits.v
HuffCode.v
Huffman.v
CompressFrame.v
Wildcard.v
Paths.v
Listing.v
FileInfo.v
Responses.v
Negotiate.v
Durable.v
Dispatch.v
DispatchSteps.v
ServerState.v
OpenIndex.v
Sharing.v
Lease.v
Oplock.v
Caching.v
CachingSteps.v
Upload.v
UploadSteps.v
FileState.v
Files.v
ReadCache.v
Rpc.v
Ntlm.v
Shares.v
JsonStore.v
Tags.v
Carve.v
Setup.v
