(* ===== verification/Prelude.v ===== *)
(** * A verification of the sombrero SMB server

    sombrero is an SMB2/SMB3 file server in Go that keeps its files in object
    stores.  This library models the parts of it that decide, as executable Rocq
    definitions translated from the sources under src/, and proves what makes them
    correct.

    ** The program

    A message arrives on a connection (tcp.go, conn.go).  If it is encrypted or
    compressed it is taken apart first (session.go, compress.go, compress/); then it
    is split into the requests chained in it (smb2/request.go over smb2/header.go),
    each is held against the credits of the client, and a dispatcher hands them to
    the handlers of their commands and queues the answers (conn.go, sendqueue.go).
    A client negotiates (smb2/negotiate.go), authenticates (ntlm/), sets sessions up
    and binds further connections to them (session.go, channel.go), and connects to
    shares (tree.go, share.go) whose accounts and rights a store keeps (stores/).  A
    create weighs the access the account has on the share and the path (open.go,
    stores/policy.go), the sharing modes of the opens already on the file
    (sharing.go), and the caching other clients have been promised: oplocks
    (oplock.go) and leases (lease.go), which it may have to break and wait for.  Who
    has a file open is looked up in an index over the open table (openindex.go); an
    open may outlive its connection (durable.go).  Writes come in any order and are
    put together into the parts of an upload, reads are answered from chunks that are
    downloaded ahead (open.go).  Byte ranges are locked through the open (lock.go).
    Named pipes carry remote calls (rpc/).

    ** The files

    Shared by all
    - Prelude: operators on machine words, the outcome of a Go function (a value, an
      error, a panic, or fuel run out), slices with their bounds checks, tactics,
      list lemmas, reachability.  Bytes: little-endian fields of a slice.
      BackRef: back references, shared by the dictionary codecs.  Smb2Const: the
      constants of the package smb2.  Chan: channels that are made and closed once.
      Utils, Text: utils/utils.go, utils/filetime.go, utils/utf16le.go.

    Messages
    - Header: smb2/header.go, every accessor of the three header layouts.
    - Request: smb2/request.go and smb2/lock.go, parsing a chain of requests, making
      and appending responses.  The relation [chain] is the specification both the
      parser and the appender are proved against.
    - Messages: the validation and the accessors of every request of smb2/.
      Responses: the building of every response.  Fields: structures laid out in a
      buffer.  Listing: directory listings.  FileInfo: the information classes.
    - Negotiate: the negotiate contexts and the two negotiate handlers.
    - Lz77, Lznt1, HuffBits, HuffCode, Huffman: the codecs of compress/.
      CompressFrame: compress.go, compress/compress.go, compress/patternv1.go.  The
      class [Codec] is the interface of an algorithm and [CodecOk] its laws; the
      frame is proved against the interface, the three codecs are instances.
    - Rpc: rpc/ and the handlers of conn.go that drive a pipe.

    Connections and sessions
    - Credits: the window of message IDs.  ChannelSeq: channel sequences.
      Dispatch, DispatchSteps: the queue of requests, chains, asynchronous work,
      cancels and the send queue, as operations and as a step relation.
    - Ciphers: internal/cmac and internal/ccm.  Session: which key a message is
      signed, verified or encrypted with, and the channels of a session.
    - Ntlm: the NTLMv2 server of ntlm/.
    - Setup: the handlers of session setup, logoff, tree connect and tree disconnect
      and the loss of a connection, as threads of instructions that interleave.

    Shares and files
    - Shares: share.go and the tree connect.  JsonStore: stores/jsonstore.go and what
      its changes do to the running shares.
    - Paths: validPath of conn.go, utils/utils.go.  Wildcard: utils/wildcard.go.
    - ServerState: the opens, the leases, the indexes and the channels as one store
      of objects named by identity, the monad [M] code on it is written in, and its
      weakest preconditions.  OpenIndex: openindex.go.  Sharing: sharing.go and the
      access decisions of open.go.  Lease: lease.go.  Oplock: oplock.go and the
      grants of lease.go.  Caching: the invariant of oplocks and leases and that each
      operation keeps it.  CachingSteps: the operations as a transition system.
    - Locks: lock.go, and the SMB2_LOCK handler of conn.go, with waiting requests as
      a step relation.
    - Durable: durable.go, as operations and as a step relation.
    - FileState: the state all handles on a file share.  Files: createFile and the
      handlers of close, write and set-info.  Upload: the reassembly of writes.
      UploadSteps: an upload with its parts on their way.  ReadCache: the chunks read
      ahead.

    Rescue of an account
    - Tags: client/objecttag.go, what the objects of the store say about the files in
      them.  Carve: client/carve.go, files found by their structure where an object
      says nothing.

    ** What the theorems show

    - Caching: the tables are well formed, a create misses no holder, a grant weighs
      every other open and every channel somebody waits on is closed, however the
      critical sections interleave; a single writer or any number of readers in the
      runs that keep to [undisturbed], where renames move a file as a whole and a
      lease is used for one file.
    - Locks: mutual exclusion on every byte but the one at the largest offset, and no
      lost wake-up, in every reachable state; what a request does on each of its
      branches; replay.
    - Files: the object the backend puts together is the file the client wrote,
      whatever order writes and parts come in, as long as the events are [orderly];
      a read gets those bytes or none, until a cut; the state of a file counts its
      handles in every run, and all handles on a name share it in the tidy ones; a
      create refines the table of dispositions where the store answers; reads get the
      file as it is where it is not written in the middle of their sections; every
      download ends and every read is answered, with no such condition.
    - Sessions: nobody is served who has not come to the session, nor, but to log
      off, close or lock, who has not authenticated; the count of uses of a share is
      the number of its tree connects; a teardown leaves nothing of the session.  An
      authentication that succeeds is of the holder of the hash, and a holder of the
      hash succeeds.  Durable opens are attached, reclaimed once or swept.
    - Shares: a tree connect succeeds exactly for whom the policy entitles; the
      tables of a running share follow the rights set; the store stays in order
      however its calls overlap, through failed saves and restarts, and where they do
      not overlap the running server gives each account exactly what the store says.
    - Wire: header fields round-trip; a message is split exactly into its chain and
      an appended response makes a chain; every request that reaches a handler is
      validated without a panic; responses, listings and information read back and
      fit what the client gave; a negotiate tells what the connection recorded; each
      request is answered exactly once, unless a cancel drops it that was sent with
      the async flag, and the send queue drains; a client within its credits is
      accepted.
    - Protection: a response is signed with the code and the key MS-SMB2 calls for, an
      encrypted message opens, a request is accepted exactly as it should be; CCM and CMAC are those of SP 800-38.
    - Compression: the three codecs give back what they were given; the decoders
      return on any input; a compressed message comes apart into the message it was
      made from, and nothing expands past what the connection allows.
    - Rescue: a tag within the bounds of its reader reads back as the pieces it was
      made of, as many as fit, and any
      bytes are read without a panic; the pieces of a tag are where it says; carving
      finds the files whose structure can be walked to the end, and no byte more; a
      PNG is its chunks.
    - Names: the wildcard table computes the wildcards; a valid path stays inside
      its share.

    Theorems that show the code departing from what it means to do have the
    behaviour spelled out on a concrete run in their comments; among them are
    [disconnect_calls_off_anothers_upload], [read_races_the_first_write],
    [ackOplock_loses_deeper_break], [lease_spans_shares], [rename_meets_a_grant],
    [flagged_request_is_dropped], [binding_outlives_logoff],
    [tree_connect_outlives_session], [share_removed_in_use],
    [rollback_undoes_another], [validation_never_passes] and
    [agreed_hmac_signs_with_cmac].

    ** Modelling choices

    A [w]-bit word is a [Z] and its wrap-around is written out; Go's [int] is wide
    enough for every length here.  Each slice access panics out of range, so that
    "returns" includes that no access was.  A critical section is one step; where a
    function uses two, it is two definitions and other steps may fall between
    ([ackOplockCheck] and [ackOplockFinish], the moves of a rename, the sections of a
    read, the calls of the JSON store).  Exceptions: the handlers of Files run whole
    but for the lookup of a create, and a tree connect is weighed against its share in
    one step of Setup.  A transition system has no guard the code does not
    have; where a theorem needs one it is over a system of its own ([tidy_step],
    [orderly], a calm [read_step]) and its comment says what is asked.  Pointers are
    keys of a store.  Random
    numbers, times, the delivery of a notification, and the answer of a store are
    arguments.  Third-party code is an argument with its documented laws: the
    primitives of cryptography, the LZ4 library, the NDR and ASN.1 libraries, the
    storage clients.  Fuel: every loop is given one turn more than the bytes, or the
    logarithm, it can use, and the theorems that a routine returns show that it is
    enough; a thread of Setup is run with any fuel, and [handlers_end] shows that
    enough exists.

    ** What is not modelled

    - conn.go: the handlers of read, directory queries, ioctl and change notify as
      wholes (what they call is modelled), the create contexts of a create, the
      reading loop over the socket.
    - server.go, main.go, interfaces.go: listeners, timers, configuration and signal
      handling; what closing a connection does is in Setup.
    - stores/ but for the JSON store: the decisions are SQL run by the database.
    - client/ but for object tags and carving, transfer/, files/, backup/, api/: HTTP
      clients and handlers, goroutines that move data between services, and a web
      page.
    - Third-party and generated code: the LZ4 library, spnego's ASN.1, the NDR
      marshalling of the LSA calls. *)

From stdpp Require Export base decidable option list list_numbers numbers gmap sets strings.
From Stdlib Require Export ZArith Lia.

#[export] Set Default Proof Using "Type".
#[export] Set Default Goal Selector "!".

(** ** Operators of Go on machine words

    A [w]-bit word is a [Z]; the wrap-around is written where the source can
    meet it.  Go's [&^] is [Z.ldiff]. *)
Declare Scope go_scope.
Delimit Scope go_scope with go.
Notation "a .& b" := (Z.land a b) (at level 40, left associativity) : go_scope.
Notation "a .| b" := (Z.lor a b) (at level 50, left associativity) : go_scope.
Notation "a .^ b" := (Z.lxor a b) (at level 50, left associativity) : go_scope.
Notation "a &^ b" := (Z.ldiff a b) (at level 40, left associativity) : go_scope.
Notation "a << n" := (Z.shiftl a n) (at level 40, left associativity) : go_scope.
Notation "a >> n" := (Z.shiftr a n) (at level 40, left associativity) : go_scope.
#[export] Set Warnings "-notation-overridden".
Open Scope go_scope.
Open Scope Z_scope.

Definition u8 (z : Z) : Z := z mod 2 ^ 8.
Definition u16 (z : Z) : Z := z mod 2 ^ 16.
Definition u32 (z : Z) : Z := z mod 2 ^ 32.
Definition u64 (z : Z) : Z := z mod 2 ^ 64.
Definition maxU64 : Z := 2 ^ 64 - 1.

Definition is_u8 (z : Z) : Prop := 0 <= z < 2 ^ 8.
Definition is_u16 (z : Z) : Prop := 0 <= z < 2 ^ 16.
Definition is_u32 (z : Z) : Prop := 0 <= z < 2 ^ 32.
Definition is_u64 (z : Z) : Prop := 0 <= z < 2 ^ 64.

#[export] Instance is_u8_dec z : Decision (is_u8 z).
Proof. unfold is_u8. apply _. Defined.
#[export] Instance is_u16_dec z : Decision (is_u16 z).
Proof. unfold is_u16. apply _. Defined.
#[export] Instance is_u32_dec z : Decision (is_u32 z).
Proof. unfold is_u32. apply _. Defined.
#[export] Instance is_u64_dec z : Decision (is_u64 z).
Proof. unfold is_u64. apply _. Defined.

(** A mask test [a & m != 0], the shape of nearly every flag check. *)
Definition has (a m : Z) : bool := negb (Z.land a m =? 0).

(** ** Outcomes

    What a Go function comes to: a value, an error value of its own, or a
    run-time panic (an index out of range, a second [close] of a channel).
    [Stuck] is the model running out of fuel; the theorems that a routine
    returns exclude it. *)
Inductive outcome (E A : Type) : Type :=
| Ok (a : A)
| Err (e : E)
| Panic
| Stuck.
Arguments Ok {E A} a.
Arguments Err {E A} e.
Arguments Panic {E A}.
Arguments Stuck {E A}.

#[export] Instance outcome_ret {E} : MRet (outcome E) := fun A a => Ok a.
#[export] Instance outcome_bind {E} : MBind (outcome E) :=
  fun A B f m => match m with
                 | Ok a => f a
                 | Err e => Err e
                 | Panic => Panic
                 | Stuck => Stuck
                 end.
#[export] Instance outcome_fmap {E} : FMap (outcome E) :=
  fun A B f m => match m with
                 | Ok a => Ok (f a)
                 | Err e => Err e
                 | Panic => Panic
                 | Stuck => Stuck
                 end.
#[export] Instance outcome_eq_dec {E A} `{EqDecision E, EqDecision A} :
  EqDecision (outcome E A).
Proof. solve_decision. Defined.

(** The value a Go program can be left holding: never a panic, and the model
    had fuel enough to say so. *)
Definition settled {E A} (m : outcome E A) : Prop :=
  match m with Ok _ | Err _ => True | Panic | Stuck => False end.

Lemma bind_ret {E A B} (a : A) (f : A -> outcome E B) : (Ok a ≫= f) = f a.
Proof. done. Qed.
Lemma bind_mret {E A B} (a : A) (f : A -> outcome E B) : (mret a ≫= f) = f a.
Proof. done. Qed.
Lemma bind_Ok {E A B} (m : outcome E A) (f : A -> outcome E B) b :
  (m ≫= f) = Ok b <-> exists a, m = Ok a /\ f a = Ok b.
Proof. destruct m; simpl; naive_solver. Qed.

Lemma settled_bind {E A B} (m : outcome E A) (f : A -> outcome E B) :
  settled m -> (forall a, m = Ok a -> settled (f a)) -> settled (m ≫= f).
Proof. destruct m; simpl; auto. Qed.
(** [Q] of whatever it comes to, which is a value or an error of its own. *)
Definition meets {E A} (Q : A -> Prop) (m : outcome E A) : Prop :=
  match m with Ok a => Q a | Err _ => True | Panic | Stuck => False end.
Lemma meets_bind {E A B} (P : A -> Prop) (Q : B -> Prop) (m : outcome E A) (f : A -> outcome E B) :
  meets P m -> (forall a, P a -> meets Q (f a)) -> meets Q (m ≫= f).
Proof. destruct m; simpl; auto. Qed.
Lemma meets_weaken {E A} (P Q : A -> Prop) (m : outcome E A) : meets P m -> (forall a, P a -> Q a) -> meets Q m.
Proof. destruct m; simpl; auto. Qed.

(** ** Slices

    Go's [int] is 64 bits wide and every length here is far below [2^63], so
    positions are plain [Z]. *)
Definition zlen {A} (l : list A) : Z := Z.of_nat (length l).

Definition index {E A} (l : list A) (i : Z) : outcome E A :=
  if (0 <=? i) then
    match l !! Z.to_nat i with Some a => Ok a | None => Panic end
  else Panic.

Definition store {E A} (l : list A) (i : Z) (a : A) : outcome E (list A) :=
  if (0 <=? i) && (i <? zlen l) then Ok (<[Z.to_nat i := a]> l) else Panic.

(** [l[i:j]]. *)
Definition slice {E A} (l : list A) (i j : Z) : outcome E (list A) :=
  if (0 <=? i) && (i <=? j) && (j <=? zlen l)
  then Ok (take (Z.to_nat (j - i)) (drop (Z.to_nat i) l)) else Panic.

(** [l[i:j]] where the bounds are already known to hold. *)
Definition sub {A} (l : list A) (i j : Z) : list A :=
  take (Z.to_nat (j - i)) (drop (Z.to_nat i) l).

(** ** Automation *)
Create HintDb smb.
Create Rewrite HintDb zlen.

Ltac bdestr1 :=
  match goal with
  | |- context [?a =? ?b] => destruct (Z.eqb_spec a b)
  | |- context [?a <? ?b] => destruct (Z.ltb_spec a b)
  | |- context [?a <=? ?b] => destruct (Z.leb_spec a b)
  | |- context [?a >? ?b] => rewrite (Z.gtb_ltb a b); destruct (Z.ltb_spec b a)
  | |- context [?a >=? ?b] => rewrite (Z.geb_leb a b); destruct (Z.leb_spec b a)
  | H : context [?a =? ?b] |- _ => destruct (Z.eqb_spec a b)
  | H : context [?a <? ?b] |- _ => destruct (Z.ltb_spec a b)
  | H : context [?a <=? ?b] |- _ => destruct (Z.leb_spec a b)
  end.
(** Case analysis on every integer comparison in sight. *)
Ltac bdestr := repeat (bdestr1; simpl in *; try lia).

(** Turn a successful monadic computation in the context into its steps. *)
Ltac inv_bind :=
  repeat match goal with
  | H : (_ ≫= _) = Ok _ |- _ =>
      apply bind_Ok in H; destruct H as (? & ? & H); simpl in H
  | H : Ok _ = Ok _ |- _ => injection H as H; try subst
  | H : Err _ = Ok _ |- _ => discriminate H
  | H : Panic = Ok _ |- _ => discriminate H
  | H : Stuck = Ok _ |- _ => discriminate H
  end.

(** Take a step whose outcome is known, and reduce nothing else. *)
Ltac run_bind := rewrite bind_ret; cbv beta.

(** ** Generic lemmas *)
Section lists.
Context {A : Type}.
Implicit Types l k : list A.

Lemma zlen_nil : zlen (@nil A) = 0.
Proof. reflexivity. Qed.
Lemma zlen_cons x l : zlen (x :: l) = 1 + zlen l.
Proof. unfold zlen. simpl. lia. Qed.
Lemma zlen_app l k : zlen (l ++ k) = zlen l + zlen k.
Proof. unfold zlen. rewrite length_app. lia. Qed.
Lemma zlen_nonneg l : 0 <= zlen l.
Proof. unfold zlen. lia. Qed.
Lemma zlen_replicate n (x : A) : zlen (replicate n x) = Z.of_nat n.
Proof. unfold zlen. by rewrite length_replicate. Qed.
Lemma zlen_insert (l : list A) (i : nat) (x : A) : zlen (<[i:=x]> l) = zlen l.
Proof. unfold zlen. by rewrite length_insert. Qed.
Lemma zlen_map {B} (f : A -> B) l : zlen (map f l) = zlen l.
Proof. unfold zlen. by rewrite length_map. Qed.

Lemma index_Ok {E} l i (x : A) :
  @index E A l i = Ok x <-> 0 <= i /\ l !! Z.to_nat i = Some x.
Proof.
  unfold index. destruct (Z.leb_spec 0 i).
  - destruct (l !! Z.to_nat i) eqn:Hl; naive_solver.
  - naive_solver lia.
Qed.
Lemma index_in_range {E} l i :
  0 <= i < zlen l -> exists x, @index E A l i = Ok x /\ l !! Z.to_nat i = Some x.
Proof.
  intros Hi. unfold zlen in Hi.
  destruct (lookup_lt_is_Some_2 l (Z.to_nat i)) as [x Hx]; [lia|].
  exists x. split; [|done]. apply index_Ok. split; [lia|done].
Qed.

Lemma store_ok {E} l i (x : A) :
  0 <= i < zlen l -> @store E A l i x = Ok (<[Z.to_nat i := x]> l).
Proof. intros. unfold store. bdestr. done. Qed.

Lemma index_app_l {E} l k i : i < zlen l -> @index E A (l ++ k) i = index l i.
Proof.
  intros Hi. unfold index, zlen in *. destruct (Z.leb_spec 0 i); [|done].
  rewrite lookup_app_l; [done|lia].
Qed.
Lemma index_app_r {E} l k i :
  zlen l <= i -> @index E A (l ++ k) i = index k (i - zlen l).
Proof.
  intros Hi. unfold index, zlen in *. destruct (Z.leb_spec 0 i); [|lia].
  destruct (Z.leb_spec 0 (i - Z.of_nat (length l))); [|lia].
  rewrite lookup_app_r by lia.
  replace (Z.to_nat i - length l)%nat with (Z.to_nat (i - Z.of_nat (length l))) by lia.
  done.
Qed.

Lemma slice_Ok {E} l i j :
  0 <= i -> i <= j -> j <= zlen l -> @slice E A l i j = Ok (sub l i j).
Proof. intros. unfold slice. bdestr. done. Qed.

Lemma sub_full l : sub l 0 (zlen l) = l.
Proof.
  unfold sub, zlen. rewrite Z.sub_0_r, Nat2Z.id. simpl. by rewrite drop_0, firstn_all.
Qed.
Lemma sub_empty l i : sub l i i = [].
Proof. unfold sub. rewrite Z.sub_diag. done. Qed.
Lemma zlen_sub l i j :
  0 <= i -> i <= j -> j <= zlen l -> zlen (sub l i j) = j - i.
Proof.
  intros. unfold sub, zlen in *. rewrite length_take, length_drop. lia.
Qed.
Lemma sub_app l (i j k : Z) :
  0 <= i -> i <= j -> j <= k -> sub l i j ++ sub l j k = sub l i k.
Proof.
  intros. unfold sub.
  replace (Z.to_nat (k - i)) with (Z.to_nat (j - i) + Z.to_nat (k - j))%nat by lia.
  rewrite <- take_take_drop, drop_drop.
  replace (Z.to_nat i + Z.to_nat (j - i))%nat with (Z.to_nat j) by lia. done.
Qed.
Lemma sub_snoc l i j x :
  0 <= i -> i <= j -> l !! Z.to_nat j = Some x -> sub l i (j + 1) = sub l i j ++ [x].
Proof.
  intros Hi Hj Hx. rewrite <- (sub_app l i j (j + 1)) by lia. f_equal.
  unfold sub. replace (j + 1 - j) with 1 by lia.
  rewrite (drop_S l x (Z.to_nat j)) by done. done.
Qed.
Lemma lookup_sub l i j n :
  0 <= i -> (n < Z.to_nat (j - i))%nat -> sub l i j !! n = l !! (Z.to_nat i + n)%nat.
Proof. intros. unfold sub. rewrite lookup_take_lt by lia. by rewrite lookup_drop. Qed.

Lemma app_snoc_assoc l x k : l ++ x :: k = (l ++ [x]) ++ k.
Proof. by rewrite <- app_assoc. Qed.
End lists.

#[export] Hint Rewrite @zlen_nil @zlen_cons @zlen_app @zlen_replicate @zlen_insert @zlen_map
  : zlen.
Ltac zlen_simpl := autorewrite with zlen in *.

Lemma has_spec a m : has a m = true <-> Z.land a m <> 0.
Proof. unfold has. destruct (Z.eqb_spec (Z.land a m) 0); simpl; naive_solver. Qed.
Lemma has_false a m : has a m = false <-> Z.land a m = 0.
Proof. unfold has. destruct (Z.eqb_spec (Z.land a m) 0); simpl; naive_solver. Qed.

(** ** Reachability

    The states a step relation can lead to, and the rule every invariant of
    the development is proved by. *)
Section reach.
Context {S : Type} (init : S -> Prop) (step : S -> S -> Prop).

Inductive reachable : S -> Prop :=
| reach_init s : init s -> reachable s
| reach_step s s' : reachable s -> step s s' -> reachable s'.

Lemma invariant_reachable (I : S -> Prop) :
  (forall s, init s -> I s) ->
  (forall s s', reachable s -> I s -> step s s' -> I s') ->
  forall s, reachable s -> I s.
Proof. intros Hi Hs s. induction 1; eauto. Qed.
End reach.
