(* ===== verification/Bytes.v ===== *)
(** Integers in byte slices, little-endian unless said: Go's [encoding/binary] as the SMB2
    codecs use it, with the checksum of [hash/crc32].  A byte is a [Z] in [0, 256); a field is read out of a slice
    with [get_le] and written over with [put_le], both of which panic where the
    Go slice expression would. *)
From S2P Require Import Prelude.

Definition bytes (l : list Z) : Prop := Forall is_u8 l.
#[export] Instance bytes_dec l : Decision (bytes l).
Proof. unfold bytes. apply _. Defined.
Lemma bytes_sub (l : list Z) i j : bytes l -> bytes (sub l i j).
Proof. intros. by apply Forall_take, Forall_drop. Qed.

Fixpoint le_enc (n : nat) (v : Z) : list Z :=
  match n with
  | O => []
  | S n => Z.land v 255 :: le_enc n (Z.shiftr v 8)
  end.

Fixpoint le_dec (bs : list Z) : Z :=
  match bs with
  | [] => 0
  | b :: bs => Z.lor b (Z.shiftl (le_dec bs) 8)
  end.

(** Big-endian, the most significant byte first. *)
Definition be_enc (n : nat) (v : Z) : list Z := rev (le_enc n v).
Definition be_dec (bs : list Z) : Z := le_dec (rev bs).
Definition get_be {E} (l : list Z) (off n : Z) : outcome E Z := s ← slice l off (off + n); mret (be_dec s).

(** [crc32.ChecksumIEEE] of [hash/crc32]. *)
Fixpoint crcBits (n : nat) (c : Z) : Z :=
  match n with O => c | S n => crcBits n (if Z.odd c then (c >> 1) .^ 0xedb88320 else c >> 1) end.
Definition ChecksumIEEE (l : list Z) : Z := foldl (fun c b => crcBits 8 (c .^ b)) 0xffffffff l .^ 0xffffffff.

(** [binary.LittleEndian.UintN(l[off:off+n])]. *)
Definition get_le {E} (l : list Z) (off n : Z) : outcome E Z :=
  s ← slice l off (off + n); mret (le_dec s).

(** [binary.LittleEndian.PutUintN(l[off:off+n], v)]. *)
Definition put_le {E} (l : list Z) (off n v : Z) : outcome E (list Z) :=
  if (0 <=? off) && (0 <=? n) && (off + n <=? zlen l)
  then Ok (take (Z.to_nat off) l ++ le_enc (Z.to_nat n) v ++ drop (Z.to_nat (off + n)) l)
  else Panic.

(** [copy(l[off:off+len src], src)] with both ends inside [l]. *)
Definition splice {E} (l : list Z) (off : Z) (src : list Z) : outcome E (list Z) :=
  if (0 <=? off) && (off + zlen src <=? zlen l)
  then Ok (take (Z.to_nat off) l ++ src ++ drop (Z.to_nat (off + zlen src)) l)
  else Panic.

(** ** Bits and digits *)
Lemma land_255 v : Z.land v 255 = v mod 256.
Proof. apply (Z.land_ones v 8). lia. Qed.
Lemma land_ones_mod v n : 0 <= n -> Z.land v (Z.ones n) = v mod 2 ^ n.
Proof. apply Z.land_ones. Qed.
Lemma shiftr_8 v : Z.shiftr v 8 = v / 256.
Proof. by rewrite Z.shiftr_div_pow2. Qed.

(** A value below [2^n] and one shifted past it do not share a bit. *)
Lemma lor_shiftl_add a b n : 0 <= n -> 0 <= a < 2 ^ n -> Z.lor a (Z.shiftl b n) = a + b * 2 ^ n.
Proof.
  intros Hn Ha. rewrite Z.shiftl_mul_pow2 by done.
  rewrite <- Z.lxor_lor, <- Z.add_nocarry_lxor; [done| |];
  apply Z.bits_inj'; intros i Hi; rewrite Z.land_spec, Z.bits_0;
  (destruct (Z.lt_ge_cases i n) as [Hlt|Hge];
   [rewrite Z.mul_pow2_bits_low, andb_false_r; [done|lia]
   |rewrite <- (Z.mod_small a (2 ^ n)) by done; rewrite Z.mod_pow2_bits_high; [done|lia]]).
Qed.

Lemma lxor_bound a b n : 0 <= n -> 0 <= a < 2 ^ n -> 0 <= b < 2 ^ n -> 0 <= Z.lxor a b < 2 ^ n.
Proof.
  intros Hn Ha Hb. assert (Z.lxor a b = Z.lxor a b mod 2 ^ n) as ->; [|apply Z.mod_pos_bound; lia].
  apply Z.bits_inj'. intros i Hi. destruct (Z.lt_ge_cases i n); [by rewrite Z.mod_pow2_bits_low by lia|].
  rewrite Z.mod_pow2_bits_high by lia. rewrite Z.lxor_spec, <- (Z.mod_small a (2 ^ n)), <- (Z.mod_small b (2 ^ n)) by done.
  by rewrite !Z.mod_pow2_bits_high by lia.
Qed.

Lemma le_dec_cons b bs : is_u8 b -> le_dec (b :: bs) = b + 256 * le_dec bs.
Proof. intros. simpl le_dec. rewrite lor_shiftl_add; unfold is_u8 in *; lia. Qed.
Lemma le_enc_S n v : le_enc (S n) v = v mod 256 :: le_enc n (v / 256).
Proof. simpl. by rewrite land_255, shiftr_8. Qed.

Lemma length_le_enc n v : length (le_enc n v) = n.
Proof. revert v. induction n; simpl; auto. Qed.
Lemma zlen_le_enc n v : zlen (le_enc n v) = Z.of_nat n.
Proof. unfold zlen. by rewrite length_le_enc. Qed.
#[export] Hint Rewrite zlen_le_enc : zlen.

Lemma bytes_le_enc n v : bytes (le_enc n v).
Proof.
  revert v. induction n; intros; [constructor|]. rewrite le_enc_S.
  constructor; [|apply IHn]. unfold is_u8. pose proof (Z.mod_pos_bound v 256). lia.
Qed.
#[export] Hint Resolve bytes_le_enc : smb.

Lemma le_dec_enc n v : le_dec (le_enc n v) = v mod 2 ^ (8 * Z.of_nat n).
Proof.
  revert v. induction n; intros v.
  - rewrite Z.mod_1_r. done.
  - rewrite le_enc_S, le_dec_cons, IHn.
    + replace (8 * Z.of_nat (S n)) with (8 + 8 * Z.of_nat n) by lia.
      rewrite Z.pow_add_r by lia. change (2 ^ 8) with 256.
      rewrite (Z.rem_mul_r v 256) by lia. lia.
    + unfold is_u8. pose proof (Z.mod_pos_bound v 256). lia.
Qed.
Lemma le_dec_enc_small n v : 0 <= v < 2 ^ (8 * Z.of_nat n) -> le_dec (le_enc n v) = v.
Proof. intros. by rewrite le_dec_enc, Z.mod_small. Qed.

Lemma le_dec_bound bs : bytes bs -> 0 <= le_dec bs < 2 ^ (8 * zlen bs).
Proof.
  induction 1 as [|b bs Hb _ IH]; [simpl; unfold zlen; simpl; lia|].
  rewrite le_dec_cons by done. rewrite zlen_cons.
  replace (8 * (1 + zlen bs)) with (8 + 8 * zlen bs) by lia.
  rewrite Z.pow_add_r by (pose proof (zlen_nonneg bs); lia).
  unfold is_u8 in Hb. change (2 ^ 8) with 256 in *. lia.
Qed.
Lemma le_enc_dec bs : bytes bs -> le_enc (length bs) (le_dec bs) = bs.
Proof.
  induction 1 as [|b bs Hb _ IH]; [done|].
  simpl length. rewrite le_enc_S, le_dec_cons by done. unfold is_u8 in Hb.
  rewrite (Z.mul_comm 256), Z.mod_add, Z.div_add, Z.mod_small, Z.div_small by lia.
  by rewrite Z.add_0_l, IH.
Qed.
Lemma le_dec_inj l k : bytes l -> bytes k -> length l = length k -> le_dec l = le_dec k -> l = k.
Proof.
  intros Hl Hk Hlen Heq. rewrite <- (le_enc_dec l), <- (le_enc_dec k) by done.
  by rewrite Hlen, Heq.
Qed.

(** ** Fields of a slice *)
Section fields.
Context {E : Type}.
Implicit Types l : list Z.

Lemma get_le_Ok l off n :
  0 <= off -> 0 <= n -> off + n <= zlen l ->
  @get_le E l off n = Ok (le_dec (sub l off (off + n))).
Proof. intros. unfold get_le. rewrite slice_Ok by lia. done. Qed.

Lemma get_le_bytes l i n :
  bytes l -> 0 <= i -> 0 <= n -> i + n <= zlen l -> exists v, @get_le E l i n = Ok v /\ 0 <= v < 2 ^ (8 * n).
Proof.
  intros Hb Hi Hn Hl. rewrite get_le_Ok by lia. eexists. split; [done|].
  assert (bytes (sub l i (i + n))) as Hbs by (by apply Forall_take, Forall_drop). apply le_dec_bound in Hbs.
  rewrite zlen_sub in Hbs by lia. by replace (i + n - i) with n in Hbs by lia.
Qed.

Lemma get_le_app_l l k off n :
  0 <= off -> 0 <= n -> off + n <= zlen l -> @get_le E (l ++ k) off n = get_le l off n.
Proof.
  intros. pose proof (zlen_nonneg k). rewrite !get_le_Ok by (rewrite ?zlen_app; lia). do 2 f_equal. unfold sub.
  rewrite drop_app_le by (unfold zlen in *; lia). rewrite take_app_le; [done|]. rewrite length_drop. unfold zlen in *. lia.
Qed.

Lemma zlen_put_le l off n v l' : @put_le E l off n v = Ok l' -> zlen l' = zlen l.
Proof.
  unfold put_le. destruct (_ && _) eqn:Hb; [|discriminate].
  apply andb_prop in Hb as [[H1%Z.leb_le H2%Z.leb_le]%andb_prop H3%Z.leb_le].
  intros [= <-]. unfold zlen in *.
  rewrite !length_app, length_take, length_le_enc, length_drop. lia.
Qed.

Lemma bytes_put_le l off n v l' : bytes l -> @put_le E l off n v = Ok l' -> bytes l'.
Proof.
  intros Hl. unfold put_le. destruct (_ && _); [|discriminate]. intros [= <-]. unfold bytes in *.
  repeat apply Forall_app_2; [by apply Forall_take|apply bytes_le_enc|by apply Forall_drop].
Qed.

Lemma put_le_Ok l off n v :
  0 <= off -> 0 <= n -> off + n <= zlen l -> exists l', @put_le E l off n v = Ok l'.
Proof. intros. unfold put_le. bdestr. eauto. Qed.

Lemma sub_put_same l off n v l' :
  @put_le E l off n v = Ok l' -> sub l' off (off + n) = le_enc (Z.to_nat n) v.
Proof.
  unfold put_le. destruct (_ && _) eqn:Hb; [|discriminate].
  apply andb_prop in Hb as [[H1%Z.leb_le H2%Z.leb_le]%andb_prop H3%Z.leb_le].
  intros [= <-]. unfold sub, zlen in *.
  rewrite drop_app_length' by (rewrite length_take; lia).
  rewrite take_app_length' by (rewrite length_le_enc; lia). done.
Qed.

(** Reading a field back after it was written: the value, wrapped to the
    width of the field. *)
Lemma get_put_same l off n v l' :
  @put_le E l off n v = Ok l' -> @get_le E l' off n = Ok (v mod 2 ^ (8 * n)).
Proof.
  intros Hp. pose proof Hp as Hp'. unfold put_le in Hp'.
  destruct (_ && _) eqn:Hb; [|discriminate].
  apply andb_prop in Hb as [[H1%Z.leb_le H2%Z.leb_le]%andb_prop H3%Z.leb_le].
  pose proof (zlen_put_le _ _ _ _ _ Hp).
  rewrite get_le_Ok by lia. rewrite (sub_put_same _ _ _ _ _ Hp), le_dec_enc.
  by rewrite Z2Nat.id.
Qed.

(** A write leaves every field that does not overlap it as it was. *)
Lemma sub_put_other l off n v l' i j :
  @put_le E l off n v = Ok l' -> 0 <= i -> i <= j ->
  j <= off \/ off + n <= i -> sub l' i j = sub l i j.
Proof.
  unfold put_le. destruct (_ && _) eqn:Hb; [|discriminate].
  apply andb_prop in Hb as [[H1%Z.leb_le H2%Z.leb_le]%andb_prop H3%Z.leb_le].
  intros [= <-] Hi Hj Hd. unfold sub, zlen in *. destruct Hd.
  - apply list_eq. intros k. destruct (decide (k < Z.to_nat (j - i))%nat).
    + rewrite !lookup_take_lt, !lookup_drop by lia.
      rewrite lookup_app_l, lookup_take_lt; [done|lia|rewrite length_take; lia].
    + by rewrite !lookup_take_ge by lia.
  - rewrite app_assoc, drop_app_ge
      by (rewrite length_app, length_take, length_le_enc; lia).
    rewrite length_app, length_take, length_le_enc, drop_drop.
    do 2 f_equal. lia.
Qed.

Lemma lookup_put_other l off n v l' (p : nat) :
  @put_le E l off n v = Ok l' -> Z.of_nat p < off \/ off + n <= Z.of_nat p -> l' !! p = l !! p.
Proof.
  unfold put_le. destruct (_ && _) eqn:Hb; [|discriminate].
  apply andb_prop in Hb as [[H1%Z.leb_le H2%Z.leb_le]%andb_prop H3%Z.leb_le].
  intros [= <-] Hp. unfold zlen in *. destruct Hp.
  - rewrite lookup_app_l by (rewrite length_take; lia). by rewrite lookup_take_lt by lia.
  - rewrite lookup_app_r by (rewrite length_take; lia). rewrite length_take.
    rewrite lookup_app_r by (rewrite length_le_enc; lia). rewrite length_le_enc, lookup_drop. f_equal. lia.
Qed.

Lemma get_put_other l off n v l' i m :
  @put_le E l off n v = Ok l' -> 0 <= i -> 0 <= m ->
  i + m <= off \/ off + n <= i -> @get_le E l' i m = get_le l i m.
Proof.
  intros Hp Hi Hm Hd. unfold get_le, slice.
  rewrite (zlen_put_le _ _ _ _ _ Hp).
  destruct (_ && _); [|done]. simpl.
  pose proof (sub_put_other _ _ _ _ _ i (i + m) Hp). unfold sub in *.
  by rewrite H by lia.
Qed.
End fields.

Lemma be_enc_dec l : bytes l -> be_enc (length l) (be_dec l) = l.
Proof.
  intros Hb. unfold be_enc, be_dec. rewrite <- (length_rev l), le_enc_dec; [apply rev_involutive|]. by apply Forall_rev.
Qed.
Lemma be_dec_enc n v : 0 <= v < 2 ^ (8 * Z.of_nat n) -> be_dec (be_enc n v) = v.
Proof. intros Hv. unfold be_dec, be_enc. rewrite rev_involutive. by apply le_dec_enc_small. Qed.
Lemma crcBits_bound n c : 0 <= c < 2 ^ 32 -> 0 <= crcBits n c < 2 ^ 32.
Proof.
  revert c. induction n as [|n IH]; intros c Hc; [done|]. simpl. apply IH. assert (0 <= c >> 1 < 2 ^ 32) by (rewrite Z.shiftr_div_pow2 by lia; split; [apply Z.div_pos; lia|apply Z.div_lt_upper_bound; lia]).
  destruct (Z.odd c); [apply lxor_bound; lia|done].
Qed.
Lemma crc_bound l : bytes l -> 0 <= ChecksumIEEE l < 2 ^ 32.
Proof.
  intros Hb. assert (forall c, 0 <= c < 2 ^ 32 -> 0 <= foldl (fun c b => crcBits 8 (c .^ b)) c l < 2 ^ 32) as H.
  - induction Hb as [|b l Hx _ IH]; intros c Hc; [done|]. cbn [foldl]. apply IH, crcBits_bound, lxor_bound; [lia|done|]. unfold is_u8 in Hx. lia.
  - unfold ChecksumIEEE. apply lxor_bound; [lia|apply H; lia|lia].
Qed.

(** ** Reads that stay inside *)
Lemma meets_index {E} (l : list Z) i : bytes l -> 0 <= i < zlen l -> meets is_u8 (@index E Z l i).
Proof. intros Hb Hi. destruct (@index_in_range Z E l i Hi) as (x & -> & Hx). by apply (proj1 (Forall_lookup _ _) Hb _ _ Hx). Qed.
Lemma meets_get_le {E} (l : list Z) off n : bytes l -> 0 <= off -> 0 <= n -> off + n <= zlen l -> meets (fun v => 0 <= v < 2 ^ (8 * n)) (@get_le E l off n).
Proof.
  intros Hb Ho Hn Hl. unfold get_le. rewrite slice_Ok by lia. rewrite bind_ret. cbn. pose proof (le_dec_bound _ (bytes_sub l off (off + n) Hb)) as H. rewrite zlen_sub in H by lia. by replace (off + n - off) with n in H by lia.
Qed.
Lemma meets_get_be {E} (l : list Z) off n : bytes l -> 0 <= off -> 0 <= n -> off + n <= zlen l -> meets (fun v => 0 <= v < 2 ^ (8 * n)) (@get_be E l off n).
Proof.
  intros Hb Ho Hn Hl. unfold get_be. rewrite slice_Ok by lia. rewrite bind_ret. cbn. unfold be_dec. pose proof (le_dec_bound _ (Forall_rev (bytes_sub l off (off + n) Hb))) as H. unfold zlen in H. rewrite length_rev in H.
  fold (zlen (sub l off (off + n))) in H. rewrite zlen_sub in H by lia. by replace (off + n - off) with n in H by lia.
Qed.
