(* ===== verification/BackRef.v ===== *)
(** Back references, which both dictionary codecs share: a run of bytes that
    repeats what stands some way back, and the byte-at-a-time copy that plays it,
    overlapping itself where the run is longer than the way back. *)
From S2P Require Import Prelude.

Section back_references.
Context {E : Type}.

(** [for k := range n { dst = append(dst, dst[srcPos+k]) }]. *)
Fixpoint copyMatch (n : nat) (srcPos : Z) (dst : list Z) : outcome E (list Z) :=
  match n with
  | O => mret dst
  | S n => b ← index dst srcPos; copyMatch n (srcPos + 1) (dst ++ [b])
  end.

(** The [len] bytes at [pos] are the ones [off] back. *)
Definition repeats (src : list Z) (pos off len : Z) : Prop :=
  forall j, 0 <= j < len -> src !! Z.to_nat (pos - off + j) = src !! Z.to_nat (pos + j).

(** Playing a reference that tells the truth appends the bytes it stands for. *)
Lemma copyMatch_repeats src pos off len :
  1 <= off <= pos -> 0 <= len -> pos + len <= zlen src -> repeats src pos off len ->
  copyMatch (Z.to_nat len) (pos - off) (sub src 0 pos) = Ok (sub src 0 (pos + len)).
Proof using.
  intros Hop Hlen Hend Hrep.
  assert (forall n j, 0 <= j -> j + Z.of_nat n = len ->
    copyMatch n (pos - off + j) (sub src 0 (pos + j)) = Ok (sub src 0 (pos + len))) as H.
  { induction n as [|n IH]; intros j Hj Hn; simpl; [by replace (pos + j) with (pos + len) by lia|].
    destruct (lookup_lt_is_Some_2 src (Z.to_nat (pos + j))) as [b Hb]; [unfold zlen in *; lia|].
    assert (@index E Z (sub src 0 (pos + j)) (pos - off + j) = Ok b) as ->.
    { apply index_Ok. split; [lia|]. rewrite lookup_sub by lia. simpl. by rewrite Hrep by lia. }
    simpl. rewrite <- (sub_snoc src 0 (pos + j) b) by (done || lia).
    rewrite <- (IH (j + 1)) by lia. f_equal; [lia|f_equal; lia]. }
  rewrite <- (H (Z.to_nat len) 0) by lia. by rewrite !Z.add_0_r.
Qed.

(** Any reference that points inside the output can be played. *)
Lemma copyMatch_total n p dst :
  0 <= p < zlen dst -> exists dst', copyMatch n p dst = Ok dst' /\ zlen dst' = zlen dst + Z.of_nat n.
Proof using.
  revert p dst. induction n as [|n IH]; intros p dst Hp; simpl; [exists dst; split; [done|lia]|].
  destruct (@index_in_range _ E dst p) as (b & -> & _); [done|]. simpl.
  destruct (IH (p + 1) (dst ++ [b])) as (dst' & -> & Hl); [rewrite zlen_app; change (zlen [b]) with 1; lia|].
  exists dst'. split; [done|]. rewrite Hl, zlen_app. change (zlen [b]) with 1. lia.
Qed.

(** A reference one back is a run of the last byte. *)
Lemma copyMatch_run n dst b : dst !! (length dst - 1)%nat = Some b ->
  copyMatch n (zlen dst - 1) dst = Ok (dst ++ replicate n b).
Proof using.
  revert dst. induction n as [|n IH]; intros dst Hb; simpl; [by rewrite app_nil_r|].
  assert (length dst <> O) by (apply lookup_lt_Some in Hb; lia).
  assert (@index E Z dst (zlen dst - 1) = Ok b) as ->.
  { apply index_Ok. unfold zlen. split; [lia|]. rewrite <- Hb. f_equal. lia. }
  simpl. replace (zlen dst - 1 + 1) with (zlen (dst ++ [b]) - 1) by (rewrite zlen_app; change (zlen [b]) with 1; lia).
  rewrite IH.
  - by rewrite <- app_assoc.
  - rewrite length_app, lookup_app_r by (simpl; lia). simpl. by replace (length dst + 1 - 1 - length dst)%nat with O by lia.
Qed.
End back_references.
