(* ===== verification/Smb2Const.v ===== *)
(** Constants of the [smb2] package, under the names the source gives them. *)
From S2P Require Import Prelude.

(** ** NT status codes ([smb2/error.go]) *)
Definition STATUS_OK : Z := 0x0.
Definition STATUS_PENDING : Z := 0x103.
Definition STATUS_UNSUCCESSFUL : Z := 0xc0000001.
Definition STATUS_INVALID_HANDLE : Z := 0xc0000008.
Definition STATUS_INVALID_PARAMETER : Z := 0xc000000d.
Definition STATUS_ACCESS_DENIED : Z := 0xc0000022.
Definition STATUS_OBJECT_NAME_NOT_FOUND : Z := 0xc0000034.
Definition STATUS_OBJECT_NAME_COLLISION : Z := 0xc0000035.
Definition STATUS_SHARING_VIOLATION : Z := 0xc0000043.
Definition STATUS_LOCK_NOT_GRANTED : Z := 0xc0000055.
Definition STATUS_RANGE_NOT_LOCKED : Z := 0xc000007e.
Definition STATUS_NOT_SUPPORTED : Z := 0xc00000bb.
Definition STATUS_REQUEST_NOT_ACCEPTED : Z := 0xc00000d0.
Definition STATUS_INVALID_OPLOCK_PROTOCOL : Z := 0xc00000e3.
Definition STATUS_CANCELLED : Z := 0xc0000120.
Definition STATUS_FILE_CLOSED : Z := 0xc0000128.
Definition STATUS_INVALID_DEVICE_STATE : Z := 0xc0000184.
Definition STATUS_USER_SESSION_DELETED : Z := 0xc0000203.
Definition STATUS_DUPLICATE_OBJECTID : Z := 0xc000022a.
Definition STATUS_NETWORK_SESSION_EXPIRED : Z := 0xc000035c.
Definition STATUS_FILE_NOT_AVAILABLE : Z := 0xc0000467.

(** ** Lock flags ([smb2/lock.go]) *)
Definition LOCKFLAG_SHARED_LOCK : Z := 0x1.
Definition LOCKFLAG_EXCLUSIVE_LOCK : Z := 0x2.
Definition LOCKFLAG_UNLOCK : Z := 0x4.
Definition LOCKFLAG_FAIL_IMMEDIATELY : Z := 0x10.

(** ** Oplock levels, share modes, dispositions and create options ([smb2/create.go]) *)
Definition OPLOCK_LEVEL_NONE : Z := 0x0.
Definition OPLOCK_LEVEL_II : Z := 0x1.
Definition OPLOCK_LEVEL_EXCLUSIVE : Z := 0x8.
Definition OPLOCK_LEVEL_BATCH : Z := 0x9.
Definition OPLOCK_LEVEL_LEASE : Z := 0xff.
Definition FILE_SHARE_READ : Z := 0x1.
Definition FILE_SHARE_WRITE : Z := 0x2.
Definition FILE_SHARE_DELETE : Z := 0x4.
Definition FILE_SUPERSEDE : Z := 0x0.
Definition FILE_OPEN : Z := 0x1.
Definition FILE_CREATE : Z := 0x2.
Definition FILE_OPEN_IF : Z := 0x3.
Definition FILE_OVERWRITE : Z := 0x4.
Definition FILE_OVERWRITE_IF : Z := 0x5.
Definition FILE_DIRECTORY_FILE : Z := 0x1.
Definition FILE_WRITE_THROUGH : Z := 0x2.
Definition FILE_DELETE_ON_CLOSE : Z := 0x1000.

(** ** Lease states ([smb2/lease.go]) *)
Definition SMB2_LEASE_NONE : Z := 0x0.
Definition SMB2_LEASE_READ_CACHING : Z := 0x1.
Definition SMB2_LEASE_HANDLE_CACHING : Z := 0x2.
Definition SMB2_LEASE_WRITE_CACHING : Z := 0x4.

(** ** Access rights ([smb2/tree.go]) *)
Definition FILE_READ_DATA : Z := 0x1.
Definition FILE_WRITE_DATA : Z := 0x2.
Definition FILE_APPEND_DATA : Z := 0x4.
Definition FILE_READ_EA : Z := 0x8.
Definition FILE_WRITE_EA : Z := 0x10.
Definition FILE_EXECUTE : Z := 0x20.
Definition FILE_DELETE_CHILD : Z := 0x40.
Definition FILE_READ_ATTRIBUTES : Z := 0x80.
Definition FILE_WRITE_ATTRIBUTES : Z := 0x100.
Definition DELETE : Z := 0x10000.
Definition READ_CONTROL : Z := 0x20000.
Definition WRITE_DAC : Z := 0x40000.
Definition WRITE_OWNER : Z := 0x80000.
Definition SYNCHRONIZE : Z := 0x100000.
Definition MAXIMUM_ALLOWED : Z := 0x2000000.
Definition GENERIC_ALL : Z := 0x10000000.
Definition GENERIC_EXECUTE : Z := 0x20000000.
Definition GENERIC_WRITE : Z := 0x40000000.
Definition GENERIC_READ : Z := 0x80000000.

(** ** Protocol identifiers, commands, header flags and sizes ([smb2/header.go]) *)
Definition PROTOCOL_SMB : Z := 0x424d53ff.
Definition PROTOCOL_SMB2 : Z := 0x424d53fe.
Definition PROTOCOL_SMB2_ENCRYPTED : Z := 0x424d53fd.
Definition PROTOCOL_SMB2_COMPRESSED : Z := 0x424d53fc.
Definition SMB_COM_NEGOTIATE : Z := 0x72.
Definition SMB2_NEGOTIATE : Z := 0x0.
Definition SMB2_SESSION_SETUP : Z := 0x1.
Definition SMB2_LOGOFF : Z := 0x2.
Definition SMB2_TREE_CONNECT : Z := 0x3.
Definition SMB2_TREE_DISCONNECT : Z := 0x4.
Definition SMB2_CREATE : Z := 0x5.
Definition SMB2_CLOSE : Z := 0x6.
Definition SMB2_FLUSH : Z := 0x7.
Definition SMB2_READ : Z := 0x8.
Definition SMB2_WRITE : Z := 0x9.
Definition SMB2_LOCK : Z := 0xa.
Definition SMB2_IOCTL : Z := 0xb.
Definition SMB2_CANCEL : Z := 0xc.
Definition SMB2_ECHO : Z := 0xd.
Definition SMB2_QUERY_DIRECTORY : Z := 0xe.
Definition SMB2_CHANGE_NOTIFY : Z := 0xf.
Definition SMB2_QUERY_INFO : Z := 0x10.
Definition SMB2_SET_INFO : Z := 0x11.
Definition SMB2_OPLOCK_BREAK : Z := 0x12.
Definition FLAGS_SERVER_TO_REDIR : Z := 0x1.
Definition FLAGS_ASYNC_COMMAND : Z := 0x2.
Definition FLAGS_RELATED_OPERATIONS : Z := 0x4.
Definition FLAGS_SIGNED : Z := 0x8.
Definition FLAGS_PRIORITY_MASK : Z := 0x70.
Definition FLAGS_DFS_OPERATIONS : Z := 0x10000000.
Definition FLAGS_REPLAY_OPERATION : Z := 0x20000000.
Definition SMBHeaderSize : Z := 32.
Definition SMB2HeaderSize : Z := 64.
Definition SMB2TransformHeaderSize : Z := 52.
Definition SMB2CompressionTransformHeaderSize : Z := 16.
Definition SMB2CompressionPayloadHeaderOffset : Z := 8.
Definition SMB2CompressionPayloadHeaderSize : Z := 8.
Definition SMB2HeaderStructureSize : Z := 64.

(** ** Dialects, compression algorithms and capabilities ([smb2/negotiate.go]) *)
Definition SMB_DIALECT_202 : Z := 0x202.
Definition SMB_DIALECT_21 : Z := 0x210.
Definition SMB_DIALECT_30 : Z := 0x300.
Definition SMB_DIALECT_302 : Z := 0x302.
Definition SMB_DIALECT_311 : Z := 0x311.
Definition SMB_DIALECT_MULTICREDIT : Z := 0x2ff.
Definition SMB_DIALECT_UNKNOWN : Z := 0xffff.
Definition GLOBAL_CAP_LEASING : Z := 0x2.
Definition GLOBAL_CAP_MULTI_CHANNEL : Z := 0x8.
Definition COMPRESSION_CAPABILITIES_FLAG_CHAINED : Z := 0x1.
Definition COMPRESSION_NONE : Z := 0x0.
Definition COMPRESSION_LZNT1 : Z := 0x1.
Definition COMPRESSION_LZ77 : Z := 0x2.
Definition COMPRESSION_LZ77_HUFFMAN : Z := 0x3.
Definition COMPRESSION_PATTERN_V1 : Z := 0x4.
Definition COMPRESSION_LZ4 : Z := 0x5.

(** ** Read response ([smb2/read.go]) *)
Definition SMB2ReadResponseMinSize : Z := 16.

(** ** Lock request ([smb2/lock.go]) *)
Definition SMB2LockRequestMinSize : Z := 24.
Definition SMB2LockRequestStructureSize : Z := 48.
Definition SMB2LockResponseMinSize : Z := 4.
Definition SMB2LockResponseStructureSize : Z := 4.

(** ** Create request, attributes and create contexts ([smb2/create.go]) *)
Definition SMB2CreateRequestMinSize : Z := 57.
Definition SMB2CreateRequestStructureSize : Z := 57.
Definition SMB2CreateResponseMinSize : Z := 88.
Definition SMB2CreateResponseStructureSize : Z := 89.
Definition FILE_OPEN_BY_FILE_ID : Z := 0x2000.
Definition FILE_RESERVE_OPFILTER : Z := 0x100000.
Definition FILE_ATTRIBUTE_READONLY : Z := 0x1.
Definition FILE_ATTRIBUTE_HIDDEN : Z := 0x2.
Definition FILE_ATTRIBUTE_SYSTEM : Z := 0x4.
Definition FILE_ATTRIBUTE_DIRECTORY : Z := 0x10.
Definition FILE_ATTRIBUTE_ARCHIVE : Z := 0x20.
Definition FILE_ATTRIBUTE_NORMAL : Z := 0x80.
Definition FILE_ATTRIBUTE_TEMPORARY : Z := 0x100.
Definition FILE_ATTRIBUTE_NOT_CONTENT_INDEXED : Z := 0x2000.
Definition CREATE_EA_BUFFER : Z := 0x45787441.
Definition CREATE_SD_BUFFER : Z := 0x53656344.
Definition CREATE_DURABLE_HANDLE_REQUEST : Z := 0x44486e51.
Definition CREATE_DURABLE_HANDLE_RECONNECT : Z := 0x44486e43.
Definition CREATE_ALLOCATION_SIZE : Z := 0x416c5369.
Definition CREATE_QUERY_MAXIMAL_ACCESS_REQUEST : Z := 0x4d784163.
Definition CREATE_TIMEWAROP_TOKEN : Z := 0x54577270.
Definition CREATE_QUERY_ON_DISK_ID : Z := 0x51466964.
Definition CREATE_REQUEST_LEASE : Z := 0x52714c73.
Definition SMB2_CREATE_DURABLE_HANDLE_REQUEST_V2 : Z := 0x44483251.
Definition SMB2_CREATE_DURABLE_HANDLE_RECONNECT_V2 : Z := 0x44483243.
Definition FILE_SUPERSEDED : Z := 0x0.
Definition FILE_OPENED : Z := 0x1.
Definition FILE_CREATED : Z := 0x2.
Definition FILE_OVERWRITTEN : Z := 0x3.

(** ** Negotiate request, capabilities and contexts ([smb2/negotiate.go]) *)
Definition SMBNegotiateRequestMinSize : Z := 5.
Definition SMB2NegotiateRequestMinSize : Z := 36.
Definition SMB2NegotiateRequestStructureSize : Z := 36.
Definition SMB2NegotiateResponseMinSize : Z := 64.
Definition SMB2NegotiateResponseStructureSize : Z := 65.
Definition NEGOTIATE_SIGNING_ENABLED : Z := 0x1.
Definition NEGOTIATE_SIGNING_REQUIRED : Z := 0x2.
Definition GLOBAL_CAP_DFS : Z := 0x1.
Definition GLOBAL_CAP_LARGE_MTU : Z := 0x4.
Definition GLOBAL_CAP_PERSISTENT_HANDLES : Z := 0x10.
Definition GLOBAL_CAP_DIRECTORY_LEASING : Z := 0x20.
Definition GLOBAL_CAP_ENCRYPTION : Z := 0x40.
Definition GLOBAL_CAP_NOTIFICATIONS : Z := 0x80.
Definition PREAUTH_INTEGRITY_CAPABILITIES : Z := 0x1.
Definition ENCRYPTION_CAPABILITIES : Z := 0x2.
Definition COMPRESSION_CAPABILITIES : Z := 0x3.
Definition NETNAME_NEGOTIATE_CONTEXT_ID : Z := 0x5.
Definition TRANSPORT_CAPABILITIES : Z := 0x6.
Definition RDMA_TRANSFORM_CAPABILITIES : Z := 0x7.
Definition SIGNING_CAPABILITIES : Z := 0x8.
Definition SHA_512 : Z := 0x1.

(** ** Read request ([smb2/read.go]) *)
Definition SMB2ReadRequestMinSize : Z := 48.
Definition SMB2ReadRequestStructureSize : Z := 49.
Definition SMB2ReadResponseStructureSize : Z := 17.
Definition READFLAG_READ_UNBUFFERED : Z := 0x1.
Definition READFLAG_REQUEST_COMPRESSED : Z := 0x2.
Definition SMB2_CHANNEL_NONE : Z := 0x0.

(** ** Write request ([smb2/write.go]) *)
Definition SMB2WriteRequestMinSize : Z := 48.
Definition SMB2WriteRequestStructureSize : Z := 49.
Definition SMB2WriteResponseMinSize : Z := 16.
Definition SMB2WriteResponseStructureSize : Z := 17.
Definition WRITEFLAG_WRITE_THROUGH : Z := 0x1.
Definition WRITEFLAG_WRITE_UNBUFFERED : Z := 0x2.

(** ** Close request ([smb2/close.go]) *)
Definition SMB2CloseRequestMinSize : Z := 24.
Definition SMB2CloseRequestStructureSize : Z := 24.
Definition SMB2CloseResponseMinSize : Z := 60.
Definition SMB2CloseResponseStructureSize : Z := 60.
Definition CLOSE_FLAG_POSTQUERY_ATTRIB : Z := 0x1.

(** ** Flush request ([smb2/flush.go]) *)
Definition SMB2FlushRequestMinSize : Z := 24.
Definition SMB2FlushRequestStructureSize : Z := 24.
Definition SMB2FlushResponseMinSize : Z := 4.
Definition SMB2FlushResponseStructureSize : Z := 4.

(** ** Logoff request ([smb2/logoff.go]) *)
Definition SMB2LogoffRequestMinSize : Z := 4.
Definition SMB2LogoffRequestStructureSize : Z := 4.
Definition SMB2LogoffResponseMinSize : Z := 4.
Definition SMB2LogoffResponseStructureSize : Z := 4.

(** ** Session setup request ([smb2/session.go]) *)
Definition SMB2SessionSetupRequestMinSize : Z := 24.
Definition SMB2SessionSetupRequestStructureSize : Z := 25.
Definition SMB2SessionSetupResponseMinSize : Z := 8.
Definition SMB2SessionSetupResponseStructureSize : Z := 9.

(** ** Tree connect and disconnect ([smb2/tree.go]) *)
Definition SMB2TreeConnectRequestMinSize : Z := 8.
Definition SMB2TreeConnectRequestStructureSize : Z := 9.
Definition SMB2TreeConnectResponseMinSize : Z := 16.
Definition SMB2TreeConnectResponseStructureSize : Z := 16.
Definition SMB2TreeDisconnectRequestMinSize : Z := 4.
Definition SMB2TreeDisconnectRequestStructureSize : Z := 4.
Definition SMB2TreeDisconnectResponseMinSize : Z := 4.
Definition SMB2TreeDisconnectResponseStructureSize : Z := 4.
Definition SHAREFLAG_ENCRYPT_DATA : Z := 0x8000.
Definition SHAREFLAG_COMPRESS_DATA : Z := 0x100000.

(** ** Ioctl request ([smb2/ioctl.go]) *)
Definition SMB2IoctlRequestMinSize : Z := 56.
Definition SMB2IoctlRequestStructureSize : Z := 57.
Definition SMB2IoctlResponseMinSize : Z := 48.
Definition SMB2IoctlResponseStructureSize : Z := 49.

(** ** Set info request ([smb2/info.go]) *)
Definition SMB2SetInfoRequestMinSize : Z := 32.
Definition SMB2SetInfoRequestStructureSize : Z := 33.
Definition SMB2SetInfoResponseMinSize : Z := 2.
Definition SMB2SetInfoResponseStructureSize : Z := 2.

(** ** Query requests ([smb2/query.go]) *)
Definition SMB2QueryDirectoryRequestMinSize : Z := 32.
Definition SMB2QueryDirectoryRequestStructureSize : Z := 33.
Definition SMB2QueryDirectoryResponseMinSize : Z := 8.
Definition SMB2QueryDirectoryResponseStructureSize : Z := 9.
Definition SMB2QueryInfoRequestMinSize : Z := 40.
Definition SMB2QueryInfoRequestStructureSize : Z := 41.
Definition SMB2QueryInfoResponseMinSize : Z := 8.
Definition SMB2QueryInfoResponseStructureSize : Z := 9.

(** ** Change notify request ([smb2/notify.go]) *)
Definition SMB2ChangeNotifyRequestMinSize : Z := 32.
Definition SMB2ChangeNotifyRequestStructureSize : Z := 32.
Definition SMB2ChangeNotifyResponseMinSize : Z := 8.
Definition SMB2ChangeNotifyResponseStructureSize : Z := 9.

(** ** Oplock break ([smb2/oplock.go]) *)
Definition SMB2OplockBreakRequestMinSize : Z := 24.
Definition SMB2OplockBreakRequestStructureSize : Z := 24.
Definition SMB2OplockBreakResponseMinSize : Z := 24.
Definition SMB2OplockBreakResponseStructureSize : Z := 24.
Definition SMB2OplockBreakNotificationSize : Z := 24.
Definition SMB2OplockBreakNotificationStructureSize : Z := 24.

(** ** Lease break and the lease context ([smb2/lease.go]) *)
Definition SMB2_NOTIFY_BREAK_LEASE_FLAG_ACK_REQUIRED : Z := 0x1.
Definition leaseRequestV1Size : Z := 32.
Definition leaseRequestV2Size : Z := 52.
Definition SMB2LeaseBreakNotificationSize : Z := 44.
Definition SMB2LeaseBreakNotificationStructureSize : Z := 44.
Definition SMB2LeaseBreakRequestMinSize : Z := 36.
Definition SMB2LeaseBreakRequestStructureSize : Z := 36.
Definition SMB2LeaseBreakResponseMinSize : Z := 36.
Definition SMB2LeaseBreakResponseStructureSize : Z := 36.

(** ** Durable handle contexts ([smb2/durable.go]) *)
Definition durableHandleRequestV2Size : Z := 32.
Definition durableHandleReconnectV2Size : Z := 36.

(** ** Error response and further status codes ([smb2/error.go]) *)
Definition SMB2ErrorResponseMinSize : Z := 8.
Definition SMB2ErrorResponseStructureSize : Z := 9.
Definition STATUS_BUFFER_OVERFLOW : Z := 0x80000005.
Definition STATUS_MORE_PROCESSING_REQUIRED : Z := 0xc0000016.
Definition STATUS_DATA_ERROR : Z := 0xc000003e.
Definition STATUS_DELETE_PENDING : Z := 0xc0000056.
Definition STATUS_NONE_MAPPED : Z := 0xc0000073.
Definition STATUS_DISK_FULL : Z := 0xc000007f.

(** ** Ciphers and signing algorithms ([smb2/negotiate.go]) *)
Definition AES_128_CCM : Z := 0x1.
Definition AES_128_GCM : Z := 0x2.
Definition AES_256_CCM : Z := 0x3.
Definition AES_256_GCM : Z := 0x4.
Definition COMPRESSION_CAPABILITIES_FLAG_NONE : Z := 0x0.
Definition ACCEPT_TRANSPORT_LEVEL_SECURITY : Z := 0x1.
Definition HMAC_SHA256 : Z := 0x0.
Definition AES_CMAC : Z := 0x1.
Definition AES_GMAC : Z := 0x2.

(** ** Session flags ([smb2/session.go]) *)
Definition SESSION_FLAG_IS_GUEST : Z := 0x1.
Definition SESSION_FLAG_IS_NULL : Z := 0x2.
Definition SESSION_FLAG_ENCRYPT_DATA : Z := 0x4.
Definition SESSION_FLAG_BINDING : Z := 0x1.

(** ** The other status codes ([smb2/error.go]) *)
Definition STATUS_NOTIFY_CLEANUP : Z := 0x10b.
Definition STATUS_NOTIFY_ENUM_DIR : Z := 0x10c.
Definition STATUS_NO_MORE_FILES : Z := 0x80000006.
Definition STATUS_INFO_LENGTH_MISMATCH : Z := 0xc0000004.
Definition STATUS_NO_SUCH_FILE : Z := 0xc000000f.
Definition STATUS_INVALID_DEVICE_REQUEST : Z := 0xc0000010.
Definition STATUS_END_OF_FILE : Z := 0xc0000011.
Definition STATUS_BUFFER_TOO_SMALL : Z := 0xc0000023.
Definition STATUS_OBJECT_NAME_INVALID : Z := 0xc0000033.
Definition STATUS_EAS_NOT_SUPPORTED : Z := 0xc000004f.
Definition STATUS_NO_SUCH_USER : Z := 0xc0000064.
Definition STATUS_INSUFFICIENT_RESOURCES : Z := 0xc000009a.
Definition STATUS_IO_TIMEOUT : Z := 0xc00000b5.
Definition STATUS_UNEXPECTED_NETWORK_ERROR : Z := 0xc00000c4.
Definition STATUS_NETWORK_NAME_DELETED : Z := 0xc00000c9.
Definition STATUS_NETWORK_ACCESS_DENIED : Z := 0xc00000ca.
Definition STATUS_BAD_NETWORK_NAME : Z := 0xc00000cc.
Definition STATUS_DIRECTORY_NOT_EMPTY : Z := 0xc0000101.
Definition STATUS_NOT_FOUND : Z := 0xc0000225.
Definition STATUS_SHARE_UNAVAILABLE : Z := 0xc0000480.
Definition STATUS_SMB_NO_PREAUTH_INTEGRITY_HASH_OVERLAP : Z := 0xc05d0000.

(** ** More of them ([smb2/query.go]) *)
Definition FILE_DIRECTORY_INFORMATION : Z := 0x1.
Definition FILE_FULL_DIRECTORY_INFORMATION : Z := 0x2.
Definition FILE_ID_FULL_DIRECTORY_INFORMATION : Z := 0x26.
Definition FILE_BOTH_DIRECTORY_INFORMATION : Z := 0x3.
Definition FILE_ID_BOTH_DIRECTORY_INFORMATION : Z := 0x25.
Definition FILE_ID_EXTD_DIRECTORY_INFORMATION : Z := 0x3c.
Definition FILE_ID_64_EXTD_DIRECTORY_INFORMATION : Z := 0x4e.
Definition FILE_ID_64_EXTD_BOTH_DIRECTORY_INFORMATION : Z := 0x4f.
Definition FILE_ID_ALL_EXTD_DIRECTORY_INFORMATION : Z := 0x50.
Definition FILE_ID_ALL_EXTD_BOTH_DIRECTORY_INFORMATION : Z := 0x51.
Definition INFO_FILE : Z := 0x1.
Definition INFO_FILESYSTEM : Z := 0x2.
Definition INFO_SECURITY : Z := 0x3.
Definition FileAllInformation : Z := 0x12.
Definition FileAttributeTagInformation : Z := 0x23.
Definition FileBasicInformation : Z := 0x4.
Definition FileEaInformation : Z := 0x7.
Definition FileNetworkOpenInformation : Z := 0x22.
Definition FileNormalizedNameInformation : Z := 0x30.
Definition FileStandardInformation : Z := 0x5.
Definition FileStreamInformation : Z := 0x16.
Definition FileFsAttributeInformation : Z := 0x5.
Definition FileFsDeviceInformation : Z := 0x4.
Definition FileFsFullSizeInformation : Z := 0x7.
Definition FileFsObjectIdInformation : Z := 0x8.
Definition FileFsSizeInformation : Z := 0x3.
Definition FileFsVolumeInformation : Z := 0x1.
Definition OWNER_SECURITY_INFORMATION : Z := 0x1.
Definition GROUP_SECURITY_INFORMATION : Z := 0x2.
Definition DACL_SECURITY_INFORMATION : Z := 0x4.
Definition SACL_SECURITY_INFORMATION : Z := 0x8.

(** ** More of them ([smb2/ioctl.go]) *)
Definition FSCTL_PIPE_TRANSCEIVE : Z := 0x11c017.
Definition FSCTL_VALIDATE_NEGOTIATE_INFO : Z := 0x140204.

(** ** More of them ([smb2/tree.go]) *)
Definition SHARE_TYPE_DISK : Z := 0x1.
Definition SHARE_TYPE_PIPE : Z := 0x2.

(** ** More of them ([smb2/create.go]) *)
Definition BytesPerSector : Z := 4194304.

(** ** More of them ([smb2/negotiate.go]) *)
Definition MaxTransactSize : Z := 8388608.
Definition MaxWriteSize : Z := 8388608.
Definition MaxReadSize : Z := 1048576.

(** ** More of them ([smb2/info.go]) *)

(** ** More of them ([smb2/notify.go]) *)

(** ** More of them ([smb2/oplock.go]) *)

(** ** More of them ([smb2/lease.go]) *)

(** ** More of them ([smb2/session.go]) *)

(** ** More of them ([smb2/read.go]) *)

(** ** More of them ([smb2/write.go]) *)

(** ** More of them ([smb2/close.go]) *)

(** ** More of them ([smb2/request.go]) *)
Definition SMB2CancelRequestMinSize : Z := 4.
Definition SMB2CancelRequestStructureSize : Z := 4.
Definition SMB2EchoRequestMinSize : Z := 4.
Definition SMB2EchoRequestStructureSize : Z := 4.
Definition SMB2EchoResponseMinSize : Z := 4.
Definition SMB2EchoResponseStructureSize : Z := 4.

(** ** More of them ([smb2/header.go]) *)

(** ** More of them ([smb2/durable.go]) *)

(** ** More of them ([smb2/error.go]) *)

(** ** Cancel and echo requests ([smb2/request.go]) *)

(** [smb2.Is3X]: the dialect belongs to the 3.x family. *)
Definition Is3X (dialect : Z) : bool :=
  negb (dialect =? SMB_DIALECT_UNKNOWN) && (dialect >=? SMB_DIALECT_30).
