(* ===== verification/Chan.v ===== *)
(** Go channels used as broadcast events: made open, closed once, waited on.
    Closing a nil channel or one already closed is a run-time panic, which is
    what the components that race to close a channel have to rule out. *)
From S2P Require Import Prelude.

Abbreviation chan := nat.

Record chans := Chans {
  next_chan : chan;          (* the next channel [make] hands out *)
  closed_chans : gset chan;
}.

Definition no_chans : chans := Chans 0 ∅.

Definition make_chan (s : chans) : chan * chans :=
  (next_chan s, Chans (S (next_chan s)) (closed_chans s)).

Definition close_chan {E} (c : option chan) (s : chans) : outcome E chans :=
  match c with
  | None => Panic
  | Some c =>
      if decide (c ∈ closed_chans s) then Panic
      else Ok (Chans (next_chan s) ({[c]} ∪ closed_chans s))
  end.

(** A channel that has been made and not closed. *)
Definition chan_open (s : chans) (c : chan) : Prop :=
  (c < next_chan s)%nat /\ c ∉ closed_chans s.

Definition chans_wf (s : chans) : Prop :=
  forall c, c ∈ closed_chans s -> (c < next_chan s)%nat.

#[export] Instance chan_open_dec s c : Decision (chan_open s c).
Proof. unfold chan_open. apply _. Defined.

Section chan.
Context (s : chans).

Lemma make_chan_open : chans_wf s -> chan_open (make_chan s).2 (make_chan s).1.
Proof.
  intros Hwf. split; simpl; [lia|]. intros Hin%Hwf. lia.
Qed.
Lemma make_chan_wf : chans_wf s -> chans_wf (make_chan s).2.
Proof. intros Hwf c Hc%Hwf. simpl. lia. Qed.
Lemma make_chan_mono c : chan_open s c -> chan_open (make_chan s).2 c.
Proof. intros [??]. split; simpl; [lia|done]. Qed.
Lemma make_chan_fresh c : chan_open s c -> c <> (make_chan s).1.
Proof. intros [? _]. simpl. lia. Qed.

Lemma close_chan_Ok {E} c :
  chan_open s c ->
  @close_chan E (Some c) s = Ok (Chans (next_chan s) ({[c]} ∪ closed_chans s)).
Proof. intros [_ ?]. simpl. by rewrite decide_False. Qed.
Lemma close_chan_inv {E} c s' :
  @close_chan E c s = Ok s' ->
  exists x, c = Some x /\ (x ∉ closed_chans s) /\
            s' = Chans (next_chan s) ({[x]} ∪ closed_chans s).
Proof. destruct c; simpl; [|done]. case_decide; naive_solver. Qed.
Lemma close_chan_wf {E} c s' :
  chans_wf s -> chan_open s c -> @close_chan E (Some c) s = Ok s' -> chans_wf s'.
Proof.
  intros Hwf [Hlt ?] (x & [= <-] & ? & ->)%close_chan_inv d.
  simpl. rewrite elem_of_union, elem_of_singleton. intros [->|?%Hwf]; lia.
Qed.
Lemma close_chan_other {E} c d s' :
  @close_chan E (Some c) s = Ok s' -> d <> c -> chan_open s d -> chan_open s' d.
Proof.
  intros (x & [= <-] & ? & ->)%close_chan_inv ? [??]. split; simpl; set_solver.
Qed.
Lemma close_chan_closed {E} c s' :
  @close_chan E (Some c) s = Ok s' -> c ∈ closed_chans s'.
Proof. intros (x & [= <-] & ? & ->)%close_chan_inv. simpl. set_solver. Qed.
Lemma close_chan_closed_mono {E} c d s' :
  @close_chan E c s = Ok s' -> d ∈ closed_chans s -> d ∈ closed_chans s'.
Proof. intros (x & -> & ? & ->)%close_chan_inv ?. simpl. set_solver. Qed.
End chan.
