(* ===== verification/Utils.v ===== *)
(** [utils/utils.go] and [utils/filetime.go]: the keys at the ends of a map, slices
    weighed as sets, and times.

    A Go map is walked in an order of its own, so what is shown of a walk holds for
    every order: [map_fold] is only reasoned about by the rule that fixes none.  A
    map used as a set, [set[v] = struct{}{}] for each [v] of a slice, is membership
    of that slice. *)
From S2P Require Import Prelude.

Module Utils.

Definition isSome {A} (o : option A) : bool := match o with Some _ => true | None => false end.

(** ** The least and the greatest key *)
Section keys.
Context {T : Type}.
Implicit Types m : gmap Z T.

(** The variables of the loop: [key], [value] and [found]. *)
Definition FindMinKey (m : gmap Z T) : Z * option T :=
  map_fold (fun k v r => if negb (isSome r.2) || (k <? r.1) then (k, Some v) else r) (maxU64, None) m.
Definition FindMaxKey (m : gmap Z T) : Z * option T :=
  map_fold (fun k v r => if negb (isSome r.2) || (r.1 <? k) then (k, Some v) else r) (0, None) m.

(** What the walk has found of the part of the map it has seen. *)
Definition extreme (R : Z -> Z -> Prop) (k0 : Z) (r : Z * option T) (m : gmap Z T) : Prop :=
  (m = ∅ /\ r = (k0, None)) \/ (exists v, r.2 = Some v /\ m !! r.1 = Some v /\ forall k, is_Some (m !! k) -> R r.1 k).

Lemma extreme_step (R : Z -> Z -> Prop) (b : Z -> Z -> bool) k0 k v r m :
  (forall x, R x x) -> (forall x y z, R x y -> R y z -> R x z) ->
  (forall x y, b x y = true -> R x y) -> (forall x y, b x y = false -> R y x) ->
  m !! k = None -> extreme R k0 r m ->
  extreme R k0 (if negb (isSome r.2) || b k r.1 then (k, Some v) else r) (<[k := v]> m).
Proof.
  intros Hr Ht Hb Hn Hk [[-> ->]|(w & Hw & Hl & Hle)]; right.
  - exists v. simpl. rewrite lookup_insert_eq. split; [done|]. split; [done|].
    intros k' [x Hx]. rewrite lookup_insert, lookup_empty in Hx. case_decide; [by subst|done].
  - rewrite Hw. simpl. destruct (b k r.1) eqn:E.
    + exists v. simpl. rewrite lookup_insert_eq. split; [done|]. split; [done|].
      intros k' [x Hx]. rewrite lookup_insert in Hx. case_decide; [by subst|]. eapply Ht; [by apply Hb|]. apply Hle. eauto.
    + exists w. split; [done|]. assert (r.1 <> k) by (intros <-; congruence). rewrite lookup_insert_ne by done. split; [done|].
      intros k' [x Hx]. rewrite lookup_insert in Hx. case_decide; [subst; by apply Hn|]. apply Hle. eauto.
Qed.

Lemma FindMaxKey_extreme m : extreme (fun x y => y <= x) 0 (FindMaxKey m) m.
Proof.
  unfold FindMaxKey. apply (map_fold_weak_ind (fun r m => extreme (fun x y => y <= x) 0 r m)); [by left|].
  intros k v m' r Hk IH. apply (extreme_step (fun x y => y <= x) (fun k r => r <? k)); try done; intros; lia.
Qed.
Lemma FindMinKey_extreme m : extreme (fun x y => x <= y) maxU64 (FindMinKey m) m.
Proof.
  unfold FindMinKey. apply (map_fold_weak_ind (fun r m => extreme (fun x y => x <= y) maxU64 r m)); [by left|].
  intros k v m' r Hk IH. apply (extreme_step (fun x y => x <= y) (fun k r => k <? r)); try done; intros; lia.
Qed.

Lemma FindMaxKey_empty : FindMaxKey (∅ : gmap Z T) = (0, None).
Proof. done. Qed.
Lemma FindMaxKey_some m k : is_Some (m !! k) -> is_Some (m !! (FindMaxKey m).1) /\ k <= (FindMaxKey m).1.
Proof.
  intros Hk. destruct (FindMaxKey_extreme m) as [[-> _]|(v & _ & Hl & Hle)]; [by destruct Hk|]. split; [by eexists|by apply Hle].
Qed.
Lemma FindMaxKey_unique m x : is_Some (m !! x) -> (forall k, is_Some (m !! k) -> k <= x) -> (FindMaxKey m).1 = x.
Proof.
  intros Hx Hle. destruct (FindMaxKey_some m x Hx) as [H1 H2]. specialize (Hle _ H1). lia.
Qed.
Lemma FindMinKey_some m k : is_Some (m !! k) ->
  (FindMinKey m).2 = m !! (FindMinKey m).1 /\ is_Some (m !! (FindMinKey m).1) /\ (FindMinKey m).1 <= k.
Proof.
  intros Hk. destruct (FindMinKey_extreme m) as [[-> _]|(v & Hv & Hl & Hle)]; [by destruct Hk|].
  rewrite Hl. split; [done|]. split; [by eexists|by apply Hle].
Qed.
End keys.

(** ** Slices as sets

    Each routine turns one slice into a set and walks the other.  [len] is the
    length test that decides which. *)
Section slices.
Context {T : Type} `{EqDecision T}.
Implicit Types a b : list T.

Definition memb (x : T) (l : list T) : bool := bool_decide (x ∈ l).
Definition IsOverlapped a b : bool :=
  if (zlen a =? 0) || (zlen b =? 0) then false
  else let '(a, b) := if zlen a >? zlen b then (b, a) else (a, b) in existsb (fun v => memb v a) b.
Definition Subset a b : list T :=
  if (zlen a =? 0) || (zlen b =? 0) then []
  else let '(a, b) := if zlen a >? zlen b then (b, a) else (a, b) in List.filter (fun v => memb v a) b.
Definition FirstMatch (zero : T) a b : T :=
  if (zlen a =? 0) || (zlen b =? 0) then zero
  else match List.find (fun v => memb v b) a with Some v => v | None => zero end.
Definition Equal a b : bool :=
  if (zlen a =? 0) && (zlen b =? 0) then true
  else if (zlen a =? 0) || (zlen b =? 0) then false
  else let '(a, b) := if zlen a >? zlen b then (b, a) else (a, b) in forallb (fun v => memb v a) b.

Lemma zlen_zero a : (zlen a =? 0) = true <-> a = [].
Proof. rewrite Z.eqb_eq. destruct a; [done|]. rewrite zlen_cons. pose proof (zlen_nonneg a). split; [lia|done]. Qed.

Lemma IsOverlapped_spec a b : IsOverlapped a b = true <-> exists x, x ∈ a /\ x ∈ b.
Proof.
  unfold IsOverlapped. destruct (zlen a =? 0) eqn:Ea; [apply zlen_zero in Ea as ->|].
  { simpl. split; [done|]. by intros (x & ?%not_elem_of_nil & _). }
  destruct (zlen b =? 0) eqn:Eb; [apply zlen_zero in Eb as ->|].
  { simpl. split; [done|]. by intros (x & _ & ?%not_elem_of_nil). }
  simpl. destruct (zlen a >? zlen b); rewrite existsb_exists; unfold memb; setoid_rewrite bool_decide_eq_true; setoid_rewrite <- list_elem_of_In; naive_solver.
Qed.
Lemma Subset_spec a b x : x ∈ Subset a b <-> x ∈ a /\ x ∈ b.
Proof.
  unfold Subset. destruct (zlen a =? 0) eqn:Ea; [apply zlen_zero in Ea as ->; set_solver|].
  destruct (zlen b =? 0) eqn:Eb; [apply zlen_zero in Eb as ->; set_solver|].
  simpl. destruct (zlen a >? zlen b); rewrite list_elem_of_In, filter_In, <- list_elem_of_In; unfold memb; rewrite bool_decide_eq_true; naive_solver.
Qed.
Lemma FirstMatch_spec zero a b :
  (FirstMatch zero a b = zero /\ forall x, x ∈ a -> x ∉ b) \/
  (exists pre post, a = pre ++ FirstMatch zero a b :: post /\ FirstMatch zero a b ∈ b /\ forall x, x ∈ pre -> x ∉ b).
Proof.
  unfold FirstMatch. destruct (zlen a =? 0) eqn:Ea; [apply zlen_zero in Ea as ->; left; set_solver|].
  destruct (zlen b =? 0) eqn:Eb; [apply zlen_zero in Eb as ->; left; set_solver|]. simpl. clear Ea Eb.
  induction a as [|y a IH]; simpl; [left; set_solver|]. destruct (memb y b) eqn:E; unfold memb in E.
  - apply bool_decide_eq_true in E. right. exists [], a. set_solver.
  - apply bool_decide_eq_false in E. destruct IH as [[H1 H2]|(pre & post & H1 & H2 & H3)]; [left; set_solver|].
    right. exists (y :: pre), post. simpl. rewrite <- H1. split; [done|]. set_solver.
Qed.
(** Equal sets are found equal; the other way round only the longer slice is held
    against the shorter. *)
Lemma Equal_complete a b : (forall x, x ∈ a <-> x ∈ b) -> Equal a b = true.
Proof.
  intros H. unfold Equal. destruct a as [|x a], b as [|y b]; [done| | |].
  - exfalso. by apply (not_elem_of_nil y), H, list_elem_of_here.
  - exfalso. by apply (not_elem_of_nil x), H, list_elem_of_here.
  - assert (forall l (z : T), (zlen (z :: l) =? 0) = false) as E0 by (intros l z; rewrite zlen_cons; pose proof (zlen_nonneg l); lia).
    rewrite !E0. simpl andb. simpl orb. cbv iota.
    destruct (zlen _ >? zlen _); apply forallb_forall; intros z Hz%list_elem_of_In; unfold memb; apply bool_decide_eq_true; by apply H.
Qed.
Lemma Equal_longer a b : zlen a <= zlen b -> Equal a b = true -> forall x, x ∈ b -> x ∈ a.
Proof.
  unfold Equal. intros Hl. destruct (zlen b =? 0) eqn:Eb; [apply zlen_zero in Eb as ->; set_solver|].
  destruct (zlen a =? 0); [done|]. simpl. destruct (Z.gtb_spec (zlen a) (zlen b)); [lia|].
  rewrite forallb_forall. intros He x Hx. apply list_elem_of_In, He in Hx. by apply bool_decide_eq_true in Hx.
Qed.
Lemma Subset_shorter a b : NoDup b -> zlen (Subset a b) <= zlen a.
Proof.
  intros Hb. unfold Subset. destruct (_ || _); [apply zlen_nonneg|]. destruct (zlen a >? zlen b); unfold zlen.
  - pose proof (filter_length_le (fun v => memb v b) a). lia.
  - assert (length (List.filter (fun v => memb v a) b) <= length a)%nat; [|lia]. apply List.NoDup_incl_length.
    + apply List.NoDup_filter. by apply NoDup_ListNoDup.
    + intros x Hx%filter_In. destruct Hx as [_ Hx]. unfold memb in Hx. apply bool_decide_eq_true in Hx. by apply list_elem_of_In.
Qed.
(** [Equal(Subset(a, b), a)], the way a list is checked to be supported in full. *)
Lemma Equal_Subset a b : NoDup b -> Equal (Subset a b) a = true <-> forall x, x ∈ a -> x ∈ b.
Proof.
  intros Hb. split.
  - intros H x Hx. apply (Equal_longer (Subset a b) a) in Hx; [|by apply Subset_shorter|done]. apply Subset_spec in Hx as []; done.
  - intros H. apply Equal_complete. intros x. rewrite Subset_spec. naive_solver.
Qed.
End slices.

(** Two slices that are not the same set and are found equal. *)
Theorem Equal_ignores_the_missing : Equal [1; 2] [1; 1] = true /\ ~ (forall x : Z, x ∈ [1; 2] <-> x ∈ [1; 1]).
Proof. split; [done|]. intros H. specialize (H 2). set_solver. Qed.

Definition MaxCommon (a b : list Z) : Z :=
  if (zlen a =? 0) || (zlen b =? 0) then 0
  else let '(a, b) := if zlen a >? zlen b then (b, a) else (a, b) in
       fold_left (fun c v => if memb v a && (c <? v) then v else c) b 0.

(** ** Times

    A [time.Time] is its seconds since 1970: no more of it is used. *)
Definition filetimeOffset : Z := 11644473600.
Definition UnixToFiletime (t : Z) : Z :=
  let secs := t + filetimeOffset in
  if secs <=? 0 then 0 else u64 (u64 secs * 10000000).
(** [int64(ft)] and Go's division, which rounds towards nought. *)
Definition int64 (z : Z) : Z := let w := u64 z in if w <? 2 ^ 63 then w else w - 2 ^ 64.
Definition FiletimeToUnix (ft : Z) : Z := Z.quot (int64 ft) 10000000 - filetimeOffset.

Lemma Filetime_roundtrip t : - filetimeOffset < t < 900000000000 -> FiletimeToUnix (UnixToFiletime t) = t.
Proof.
  unfold filetimeOffset, FiletimeToUnix, UnixToFiletime, filetimeOffset. intros Ht. cbv zeta.
  destruct (Z.leb_spec (t + 11644473600) 0); [lia|]. unfold int64, u64. cbv zeta.
  rewrite (Z.mod_small (t + 11644473600)) by lia. rewrite !(Z.mod_small ((t + 11644473600) * 10000000)) by lia.
  destruct (Z.ltb_spec ((t + 11644473600) * 10000000) (2 ^ 63)); [|lia]. rewrite Z.quot_mul by lia. lia.
Qed.
End Utils.
