(* ===== verification/Text.v ===== *)
(** Text on the wire: [utils/utf16le.go], and the part of [unicode/utf16] it is
    built on.

    A Go string here is the list of its runes.  A rune outside the range of
    Unicode scalar values is what Go's conversions make of bad input: the
    replacement character. *)
From S2P Require Import Prelude Bytes.

Module Text.

(** ** Go's strings

    The bytes of a string, and the runes they decode to: what is not UTF-8 gives the
    replacement character, one for each byte that starts nothing. *)
Definition bytesOf (s : string) : list Z := map (fun a => Z.of_N (Ascii.N_of_ascii a)) (String.list_ascii_of_string s).

Definition within (lo hi b : Z) : bool := (lo <=? b) && (b <=? hi).
(** How many bytes follow the first one, and the range the first of them is in. *)
Definition leads (b : Z) : option (nat * Z * Z) :=
  if within 0xc2 0xdf b then Some (1%nat, 0x80, 0xbf)
  else if b =? 0xe0 then Some (2%nat, 0xa0, 0xbf)
  else if b =? 0xed then Some (2%nat, 0x80, 0x9f)
  else if within 0xe1 0xef b then Some (2%nat, 0x80, 0xbf)
  else if b =? 0xf0 then Some (3%nat, 0x90, 0xbf)
  else if b =? 0xf4 then Some (3%nat, 0x80, 0x8f)
  else if within 0xf1 0xf3 b then Some (3%nat, 0x80, 0xbf)
  else None.
Definition decodeRune (b : Z) (bs : list Z) : Z * nat :=
  if b <? 0x80 then (b, 1%nat)
  else
    match leads b, bs with
    | Some (1%nat, lo, hi), b1 :: _ => if within lo hi b1 then (((b .& 0x1f) << 6) .| (b1 .& 0x3f), 2%nat) else (0xfffd, 1%nat)
    | Some (2%nat, lo, hi), b1 :: b2 :: _ =>
        if within lo hi b1 && within 0x80 0xbf b2 then (((b .& 0xf) << 12) .| ((b1 .& 0x3f) << 6) .| (b2 .& 0x3f), 3%nat) else (0xfffd, 1%nat)
    | Some (3%nat, lo, hi), b1 :: b2 :: b3 :: _ =>
        if within lo hi b1 && within 0x80 0xbf b2 && within 0x80 0xbf b3
        then (((b .& 0x7) << 18) .| ((b1 .& 0x3f) << 12) .| ((b2 .& 0x3f) << 6) .| (b3 .& 0x3f), 4%nat) else (0xfffd, 1%nat)
    | _, _ => (0xfffd, 1%nat)
    end.
Fixpoint runes_loop (fuel : nat) (bs : list Z) : list Z :=
  match fuel, bs with
  | S fuel, b :: bs => let '(r, n) := decodeRune b bs in r :: runes_loop fuel (drop (n - 1) bs)
  | _, _ => []
  end.
Definition runesOf (s : string) : list Z := let bs := bytesOf s in runes_loop (length bs) bs.

(** The UTF-8 of a string of runes. *)
Definition utf8Rune (r : Z) : list Z :=
  if (r <? 0) || (0x10ffff <? r) || (0xd800 <=? r) && (r <=? 0xdfff) then [0xef; 0xbf; 0xbd]
  else if r <? 0x80 then [r]
  else if r <? 0x800 then [0xc0 .| (r >> 6); 0x80 .| (r .& 0x3f)]
  else if r <? 0x10000 then [0xe0 .| (r >> 12); 0x80 .| ((r >> 6) .& 0x3f); 0x80 .| (r .& 0x3f)]
  else [0xf0 .| (r >> 18); 0x80 .| ((r >> 12) .& 0x3f); 0x80 .| ((r >> 6) .& 0x3f); 0x80 .| (r .& 0x3f)].
Definition ofRunes (rs : list Z) : string :=
  String.string_of_list_ascii (map (fun b => Ascii.ascii_of_N (Z.to_N b)) (concat (map utf8Rune rs))).

(** ** [unicode/utf16] *)
Definition surr1 : Z := 0xd800.
Definition surr2 : Z := 0xdc00.
Definition surr3 : Z := 0xe000.
Definition surrSelf : Z := 0x10000.
Definition maxRune : Z := 0x10ffff.
Definition replacementChar : Z := 0xfffd.

Definition isScalar (r : Z) : Prop := 0 <= r <= maxRune /\ ~ (surr1 <= r < surr3).
#[export] Instance isScalar_dec r : Decision (isScalar r).
Proof. unfold isScalar. apply _. Defined.

Definition encodeRune (r : Z) : list Z :=
  if (0 <=? r) && (r <? surr1) || (surr3 <=? r) && (r <? surrSelf) then [r]
  else if (surrSelf <=? r) && (r <=? maxRune)
  then [surr1 + ((r - surrSelf) >> 10) .& 0x3ff; surr2 + (r - surrSelf) .& 0x3ff]
  else [replacementChar].
Definition utf16Encode (s : list Z) : list Z := concat (map encodeRune s).

Fixpoint utf16Decode (ws : list Z) : list Z :=
  match ws with
  | [] => []
  | w :: ws' =>
      if (w <? surr1) || (surr3 <=? w) then w :: utf16Decode ws'
      else
        match ws' with
        | w2 :: ws'' =>
            if (surr1 <=? w) && (w <? surr2) && (surr2 <=? w2) && (w2 <? surr3)
            then (((w - surr1) << 10) .| (w2 - surr2)) + surrSelf :: utf16Decode ws''
            else replacementChar :: utf16Decode ws'
        | [] => [replacementChar]
        end
  end.

(** ** [utils/utf16le.go] *)
Definition EncodedStringLen (s : list Z) : Z :=
  foldr (fun r l => (if (0x10000 <=? r) && (r <=? 0x10ffff) then 4 else 2) + l) 0 s.

Definition EncodeStringToBytes (s : list Z) : list Z := concat (map (le_enc 2) (utf16Encode s)).

Fixpoint units (n : nat) (bs : list Z) : list Z :=
  match n with
  | O => []
  | S n => le_dec (take 2 bs) :: units n (drop 2 bs)
  end.
Definition DecodeToString (bs : list Z) : list Z :=
  let ws := units (length bs / 2) bs in
  let ws := match last ws with Some 0 => take (length ws - 1) ws | _ => ws end in
  utf16Decode ws.

(** [NullTerminatedToStrings], on bytes; every turn steps over one at least. *)
Fixpoint indexByte0 (b : list Z) : option nat :=
  match b with
  | [] => None
  | x :: b => if x =? 0 then Some O else S <$> indexByte0 b
  end.
Fixpoint nullTerminated_loop {E} (fuel : nat) (b : list Z) : outcome E (list (list Z)) :=
  match b with
  | [] => Ok []
  | x :: b' =>
      match fuel with
      | O => Stuck
      | S fuel =>
          if x <? 32 then nullTerminated_loop fuel b'
          else
            match indexByte0 b with
            | None => Ok [b]
            | Some i => rest ← nullTerminated_loop fuel (drop (S i) b); Ok (take i b :: rest)
            end
      end
  end.
Definition NullTerminatedToStrings {E} (b : list Z) : outcome E (list (list Z)) := nullTerminated_loop (length b) b.

(** A byte of UTF-8 never becomes more than two bytes of UTF-16, whatever the bytes. *)
Lemma encodeRune_length r : (1 <= length (encodeRune r) <= 2)%nat.
Proof. unfold encodeRune. destruct (_ || _); [simpl; lia|]. destruct (_ && _); simpl; lia. Qed.
Lemma encodeRune_short r : r < surrSelf -> length (encodeRune r) = 1%nat.
Proof.
  intros Hr. unfold encodeRune. destruct (_ || _); [done|]. unfold surrSelf in *. destruct (Z.leb_spec 0x10000 r); [lia|]. done.
Qed.
Lemma decodeRune_size b bs : bytes (b :: bs) -> let '(r, n) := decodeRune b bs in (1 <= n)%nat /\ (length (encodeRune r) <= n)%nat /\ (n <= S (length bs))%nat.
Proof.
  intros Hb. unfold decodeRune. destruct (Z.ltb_spec b 0x80); [split; [lia|]; split; [rewrite encodeRune_short by (unfold surrSelf; lia); lia|lia]|].
  assert (length (encodeRune 0xfffd) <= 1)%nat as Hbad by done.
  destruct (leads b) as [[[[|[|[|[|n]]]] lo] hi]|]; [by split; [lia|]; split; [|lia]| | | |by split; [lia|]; split; [|lia]|by split; [lia|]; split; [|lia]].
  - destruct bs as [|b1 bs]; [by split; [lia|]; split; [|simpl; lia]|]. destruct (within lo hi b1); (split; [lia|]); (split; [|simpl; lia]); [|done].
    pose proof (encodeRune_length (((b .& 0x1f) << 6) .| (b1 .& 0x3f))). lia.
  - destruct bs as [|b1 [|b2 bs]]; [by split; [lia|]; split; [|simpl; lia]..|]. destruct (_ && _); (split; [lia|]); (split; [|simpl; lia]); [|done].
    pose proof (encodeRune_length (((b .& 0xf) << 12) .| ((b1 .& 0x3f) << 6) .| (b2 .& 0x3f))). lia.
  - destruct bs as [|b1 [|b2 [|b3 bs]]]; [by split; [lia|]; split; [|simpl; lia]..|]. destruct (_ && _); (split; [lia|]); (split; [|simpl; lia]); [|done].
    pose proof (encodeRune_length (((b .& 0x7) << 18) .| ((b1 .& 0x3f) << 12) .| ((b2 .& 0x3f) << 6) .| (b3 .& 0x3f))). lia.
Qed.
Lemma bytes_bytesOf s : bytes (bytesOf s).
Proof.
  unfold bytesOf, bytes. apply Forall_forall. intros x (a & -> & _)%list_elem_of_fmap. unfold is_u8.
  pose proof (Ascii.N_ascii_bounded a). lia.
Qed.
Lemma length_bytesOf s : length (bytesOf s) = String.length s.
Proof. unfold bytesOf. rewrite length_map. induction s as [|a s IH]; [done|]. simpl. by rewrite IH. Qed.
Lemma runes_loop_size fuel bs : bytes bs -> (length (utf16Encode (runes_loop fuel bs)) <= length bs)%nat.
Proof.
  revert bs. induction fuel as [|fuel IH]; intros bs Hb; [simpl; lia|]. destruct bs as [|b bs]; [simpl; lia|]. cbn [runes_loop].
  pose proof (decodeRune_size b bs Hb) as Hs. destruct (decodeRune b bs) as [r n]. destruct Hs as (H1 & H2 & H3).
  change (utf16Encode (r :: ?x)) with (encodeRune r ++ utf16Encode x). rewrite length_app.
  apply Forall_cons in Hb as [_ Hb]. specialize (IH (drop (n - 1) bs) (Forall_drop _ _ _ Hb)). rewrite length_drop in IH. simpl. lia.
Qed.

(** ** Round trips *)
Lemma encodeRune_units r : isScalar r -> Forall is_u16 (encodeRune r).
Proof.
  unfold isScalar, encodeRune, surr1, surr2, surr3, surrSelf, maxRune. intros [H1 H2].
  assert (forall x, 0 <= x .& 0x3ff < 1024) as Hl by (intros x; change 0x3ff with (Z.ones 10); rewrite Z.land_ones by lia; apply Z.mod_pos_bound; lia).
  destruct (_ || _) eqn:E; [|clear E; destruct (_ && _)].
  - constructor; [|done]. unfold is_u16. apply orb_true_iff in E as [E|E]; apply andb_prop in E as [E1 E2]; lia.
  - constructor; [|constructor; [|constructor]]; unfold is_u16; match goal with |- context [?a .& 0x3ff] => pose proof (Hl a) end; lia.
  - constructor; [|constructor]. unfold is_u16, replacementChar. lia.
Qed.

Lemma utf16Decode_rune r ws : isScalar r -> utf16Decode (encodeRune r ++ ws) = r :: utf16Decode ws.
Proof.
  unfold isScalar. intros [H1 H2]. unfold encodeRune.
  destruct ((0 <=? r) && (r <? surr1) || _) eqn:E.
  - simpl. assert ((r <? surr1) || (surr3 <=? r) = true) as ->; [|done].
    apply orb_true_iff in E as [E|E]; apply andb_prop in E as [E1 E2]; [by rewrite E2|by rewrite E1, orb_true_r].
  - apply orb_false_iff in E as [E1 E2]. apply andb_false_iff in E1, E2. unfold surr1, surr2, surr3, surrSelf, maxRune in *.
    assert (0x10000 <= r <= 0x10ffff) as Hr by (destruct E1, E2; lia). clear E1 E2 H1 H2.
    destruct (Z.leb_spec 0x10000 r), (Z.leb_spec r 0x10ffff); try lia. simpl andb. cbv iota.
    set (x := r - 0x10000). assert (0 <= x < 2 ^ 20) as Hx by (subst x; lia).
    change 0x3ff with (Z.ones 10). rewrite (Z.land_ones (x >> 10) 10), (Z.land_ones x 10), Z.shiftr_div_pow2 by lia.
    change (2 ^ 10) with 1024. assert (0 <= x / 1024 < 1024) by (split; [apply Z.div_pos|apply Z.div_lt_upper_bound]; lia).
    rewrite (Z.mod_small (x / 1024)) by lia. pose proof (Z.mod_pos_bound x 1024 ltac:(lia)).
    cbn [app utf16Decode]. unfold surr1, surr2, surr3, surrSelf. destruct (Z.ltb_spec (0xd800 + x / 1024) 0xd800), (Z.leb_spec 0xe000 (0xd800 + x / 1024)); try lia. simpl orb. cbv iota.
    destruct (Z.leb_spec 0xd800 (0xd800 + x / 1024)), (Z.ltb_spec (0xd800 + x / 1024) 0xdc00),
      (Z.leb_spec 0xdc00 (0xdc00 + x mod 1024)), (Z.ltb_spec (0xdc00 + x mod 1024) 0xe000); try lia. simpl andb. cbv iota. f_equal.
    replace (0xd800 + x / 1024 - 0xd800) with (x / 1024) by lia. replace (0xdc00 + x mod 1024 - 0xdc00) with (x mod 1024) by lia.
    rewrite Z.lor_comm, lor_shiftl_add by lia. pose proof (Z.div_mod x 1024 ltac:(lia)). change (2 ^ 10) with 1024. subst x. lia.
Qed.

Lemma utf16Decode_Encode s : Forall isScalar s -> utf16Decode (utf16Encode s) = s.
Proof.
  induction 1 as [|r s Hr _ IH]; [done|]. change (utf16Encode (r :: s)) with (encodeRune r ++ utf16Encode s).
  by rewrite utf16Decode_rune, IH.
Qed.

Lemma length_units ws : length (concat (map (le_enc 2) ws)) = (2 * length ws)%nat.
Proof.
  induction ws as [|w ws IH]; [done|]. cbn [map concat length]. rewrite length_app. change (length (le_enc 2 w)) with 2%nat. lia.
Qed.
Lemma units_encoded ws : Forall is_u16 ws -> units (length ws) (concat (map (le_enc 2) ws)) = ws.
Proof.
  induction 1 as [|w ws Hw _ IH]; [done|]. cbn [map concat length units].
  assert (length (le_enc 2 w) = 2%nat) as Hl by done.
  rewrite take_app_length', drop_app_length' by done. rewrite IH, le_dec_enc. f_equal. by apply Z.mod_small.
Qed.
Lemma utf16Encode_units s : Forall isScalar s -> Forall is_u16 (utf16Encode s).
Proof.
  induction 1 as [|r s Hr _ IH]; [constructor|]. change (utf16Encode (r :: s)) with (encodeRune r ++ utf16Encode s).
  apply Forall_app. split; [by apply encodeRune_units|done].
Qed.
Lemma encodeRune_last r : isScalar r -> r <> 0 -> exists w, last (encodeRune r) = Some w /\ w <> 0.
Proof.
  intros [H1 H2] H0. unfold encodeRune. destruct (_ || _); [by exists r|]. destruct (_ && _); [|by exists replacementChar].
  eexists. split; [done|]. pose proof (Z.land_nonneg (r - surrSelf) 0x3ff). unfold surr2 in *. lia.
Qed.
Lemma utf16Encode_last s r : Forall isScalar s -> last s = Some r -> r <> 0 ->
  exists w, last (utf16Encode s) = Some w /\ w <> 0.
Proof.
  intros Hs Hl H0. apply last_Some in Hl as [s' ->]. apply Forall_app in Hs as [_ Hr]. apply Forall_cons in Hr as [Hr _].
  unfold utf16Encode. rewrite map_app, concat_app. simpl. rewrite app_nil_r.
  destruct (encodeRune_last r Hr H0) as (w & Hw & Hw0). exists w. split; [|done]. by rewrite last_app, Hw.
Qed.

Lemma encoded_name_size s : zlen (EncodeStringToBytes (runesOf s)) <= 2 * Z.of_nat (String.length s).
Proof.
  unfold EncodeStringToBytes, zlen. rewrite length_units. pose proof (runes_loop_size (length (bytesOf s)) (bytesOf s) (bytes_bytesOf s)) as H.
  rewrite length_bytesOf in H. unfold runesOf. rewrite length_bytesOf. lia.
Qed.

(** A name sent by the server and read back is the same name: for every text
    of Unicode scalar values that does not end in a NUL, decoding its UTF-16LE
    bytes gives it back, and the length counted for it beforehand is the length
    of those bytes. *)
Theorem utf16_roundtrip (s : list Z) :
  Forall isScalar s -> last s <> Some 0 ->
  DecodeToString (EncodeStringToBytes s) = s /\ zlen (EncodeStringToBytes s) = EncodedStringLen s.
Proof.
  intros Hs Hl. split.
  - unfold DecodeToString, EncodeStringToBytes. rewrite length_units.
    replace (2 * length (utf16Encode s) / 2)%nat with (length (utf16Encode s)) by (rewrite Nat.mul_comm, Nat.div_mul; done).
    rewrite units_encoded by (by apply utf16Encode_units).
    assert (match last (utf16Encode s) with Some 0 => take (length (utf16Encode s) - 1) (utf16Encode s) | _ => utf16Encode s end = utf16Encode s) as ->.
    { destruct (last s) as [r|] eqn:Hr.
      - destruct (utf16Encode_last s r Hs Hr) as (w & -> & Hw); [congruence|]. by destruct w.
      - by apply last_None in Hr as ->. }
    by apply utf16Decode_Encode.
  - unfold EncodeStringToBytes. unfold zlen. rewrite length_units. induction Hs as [|r s Hr Hs IH]; [done|].
    change (utf16Encode (r :: s)) with (encodeRune r ++ utf16Encode s). rewrite length_app. cbn [EncodedStringLen foldr].
    change (foldr _ 0 s) with (EncodedStringLen s). rewrite <- IH.
    2:{ destruct s; [done|]. by rewrite last_cons_cons in Hl. }
    destruct Hr as [H1 H2]. unfold encodeRune, surr1, surr3, surrSelf, maxRune in *.
    destruct (Z.leb_spec 0 r), (Z.ltb_spec r 0xd800), (Z.leb_spec 0xe000 r), (Z.ltb_spec r 0x10000), (Z.leb_spec 0x10000 r), (Z.leb_spec r 0x10ffff); simpl; lia.
Qed.
Lemma utf16_roundtrip_witness : DecodeToString (EncodeStringToBytes [0x66; 0xe9; 0x1f600]) = [0x66; 0xe9; 0x1f600].
Proof. apply (utf16_roundtrip [0x66; 0xe9; 0x1f600]); [by apply (bool_decide_eq_true_1 _); vm_compute|done]. Defined.

(** The walk over the dialects of an SMB1 negotiate ends. *)
Lemma nullTerminated_total {E} fuel b : (length b <= fuel)%nat -> exists l, @nullTerminated_loop E fuel b = Ok l.
Proof.
  revert b. induction fuel as [|fuel IH]; intros [|x b] Hl; simpl in Hl; [by exists []|lia|by exists []|].
  cbn [nullTerminated_loop]. destruct (x <? 32); [apply IH; lia|]. destruct (indexByte0 (x :: b)) as [i|]; [|eauto].
  destruct (IH (drop (S i) (x :: b))) as [l ->]; [rewrite length_drop; simpl; lia|]. simpl. eauto.
Qed.
Lemma NullTerminatedToStrings_total {E} b : exists l, @NullTerminatedToStrings E b = Ok l.
Proof. by apply nullTerminated_total. Qed.
End Text.
