(* ===== verification/Locks.v ===== *)
(** Byte-range locks: [lock.go], and the SMB2_LOCK handler of [conn.go] that
    drives it.

    A [lockTable] is the part of a [fileState] the locks live in: the ranges
    held, in the order they were taken, and the channel a waiting request
    listens on.  An open is its identity, the pointer [*open] of the source.
    Every function of [lock.go] runs with [fs.mu] held from its first access to
    its last, so each is one atomic step; [awaitLock] lets the lock go while it
    sleeps and is split there. *)
From S2P Require Import Prelude Smb2Const Chan.

Abbreviation openId := nat.

(** ** Data *)

Record byteRange := ByteRange { r_offset : Z; r_length : Z }.
#[export] Instance byteRange_eq_dec : EqDecision byteRange.
Proof. solve_decision. Defined.

(** [byteRange.end]: the first offset past the range, saturated. *)
Definition end_ (r : byteRange) : Z :=
  if u64 (r_offset r + r_length r) <? r_offset r then maxU64 else u64 (r_offset r + r_length r).

Definition overlaps (r other : byteRange) : bool :=
  if (r_length r =? 0) && (r_length other =? 0) then false
  else if r_length r =? 0 then (r_offset other <? r_offset r) && (end_ other >? r_offset r)
  else if r_length other =? 0 then (r_offset r <? r_offset other) && (end_ r >? r_offset other)
  else (r_offset r <? end_ other) && (r_offset other <? end_ r).

Record byteRangeLock := ByteRangeLock {
  held_range : byteRange;
  held_open : openId;
  held_exclusive : bool;
}.
#[export] Instance byteRangeLock_eq_dec : EqDecision byteRangeLock.
Proof. solve_decision. Defined.

(** [smb2.Lock], an element of a lock request. *)
Record Lock := MkLock { l_Offset : Z; l_Length : Z; l_Flags : Z }.
Definition lock_range (l : Lock) : byteRange := ByteRange (l_Offset l) (l_Length l).
Definition lock_exclusive (l : Lock) : bool := has (l_Flags l) LOCKFLAG_EXCLUSIVE_LOCK.

Record lockTable := LockTable {
  fs_locks : list byteRangeLock;
  fs_lockWait : option chan;
  fs_chans : chans;
}.

(** ** Lock sequences *)

Definition lockSequenceEntries : Z := 64.

Record lockSequenceEntry := SeqEntry { seq_number : Z; seq_valid : bool }.

Definition newLockSequence : list lockSequenceEntry :=
  replicate (Z.to_nat lockSequenceEntries) (SeqEntry 0 false).

Definition replayedLock (idx number : Z) (sq : list lockSequenceEntry)
  : outcome Empty_set (bool * list lockSequenceEntry) :=
  if (idx =? 0) || (idx >? lockSequenceEntries) then Ok (false, sq)
  else
    entry ← index sq (idx - 1);
    if negb (seq_valid entry) then Ok (false, sq)
    else if seq_number entry =? number then Ok (true, sq)
    else sq' ← store sq (idx - 1) (SeqEntry (seq_number entry) false);
         Ok (false, sq').

Definition rememberLock (idx number : Z) (sq : list lockSequenceEntry)
  : outcome Empty_set (list lockSequenceEntry) :=
  if (idx =? 0) || (idx >? lockSequenceEntries) then Ok sq
  else store sq (idx - 1) (SeqEntry number true).

(** ** Operations on the table *)

Definition validLockFlags (flags : Z) : bool :=
  let f := flags &^ LOCKFLAG_FAIL_IMMEDIATELY in
  (f =? LOCKFLAG_SHARED_LOCK) || (f =? LOCKFLAG_EXCLUSIVE_LOCK).

Fixpoint lockConflict (locks : list byteRangeLock) (op : openId) (r : byteRange)
    (exclusive : bool) : bool :=
  match locks with
  | [] => false
  | held :: rest =>
      if negb (overlaps (held_range held) r) then lockConflict rest op r exclusive
      else if held_exclusive held then
        if negb (bool_decide (held_open held = op)) then true
        else lockConflict rest op r exclusive
      else if exclusive then true
      else lockConflict rest op r exclusive
  end.

Definition lockWaiter (fs : lockTable) : chan * lockTable :=
  match fs_lockWait fs with
  | Some c => (c, fs)
  | None => let '(c, s) := make_chan (fs_chans fs) in
            (c, LockTable (fs_locks fs) (Some c) s)
  end.

Definition lockChanged (fs : lockTable) : outcome Empty_set lockTable :=
  match fs_lockWait fs with
  | None => Ok fs
  | Some c => s ← close_chan (Some c) (fs_chans fs);
              Ok (LockTable (fs_locks fs) None s)
  end.

Definition set_locks (ls : list byteRangeLock) (fs : lockTable) : lockTable :=
  LockTable ls (fs_lockWait fs) (fs_chans fs).

(** The loop of [lockRanges]; [taken] counts what this request took so far. *)
Fixpoint lockRanges_loop (op : openId) (locks : list Lock) (taken : nat) (fs : lockTable)
  : outcome Empty_set (Z * bool * lockTable) :=
  match locks with
  | [] => Ok (STATUS_OK, false, fs)
  | l :: rest =>
      if negb (validLockFlags (l_Flags l)) then Ok (STATUS_INVALID_PARAMETER, false, fs)
      else
        let r := lock_range l in
        let exclusive := lock_exclusive l in
        if lockConflict (fs_locks fs) op r exclusive then
          if negb (has (l_Flags l) LOCKFLAG_FAIL_IMMEDIATELY) then Ok (STATUS_OK, true, fs)
          else if (0 <? taken)%nat then
            fs' ← lockChanged
                    (set_locks (take (length (fs_locks fs) - taken) (fs_locks fs)) fs);
            Ok (STATUS_LOCK_NOT_GRANTED, false, fs')
          else Ok (STATUS_LOCK_NOT_GRANTED, false, fs)
        else
          lockRanges_loop op rest (S taken)
            (set_locks (fs_locks fs ++ [ByteRangeLock r op exclusive]) fs)
  end.

Definition lockRanges (op : openId) (locks : list Lock) (fs : lockTable)
  : outcome Empty_set (Z * bool * lockTable) :=
  if (1 <? zlen locks) &&
     existsb (fun l => negb (has (l_Flags l) LOCKFLAG_FAIL_IMMEDIATELY)) locks
  then Ok (STATUS_INVALID_PARAMETER, false, fs)
  else lockRanges_loop op locks 0 fs.

(** One turn of the loop of [awaitLock], up to where it lets [fs.mu] go: it is
    over with a status, or it sleeps on a channel.  [signal] is what the first
    [select] found: nothing, the stop channel, or the context of the handle. *)
Inductive wait_signal := SigNone | SigStop | SigGone.

Definition awaitLock_turn (op : openId) (l : Lock) (signal : wait_signal) (fs : lockTable)
  : (Z + chan) * lockTable :=
  match signal with
  | SigStop => (inl STATUS_CANCELLED, fs)
  | SigGone => (inl STATUS_FILE_CLOSED, fs)
  | SigNone =>
      let r := lock_range l in
      let exclusive := lock_exclusive l in
      if negb (lockConflict (fs_locks fs) op r exclusive) then
        (inl STATUS_OK, set_locks (fs_locks fs ++ [ByteRangeLock r op exclusive]) fs)
      else let '(c, fs') := lockWaiter fs in (inr c, fs')
  end.

(** The position of the last element equal to [want]: the loop of [dropLock],
    which walks down from the end. *)
Fixpoint lastEqual (locks : list byteRangeLock) (want : byteRangeLock) (n : nat) : option nat :=
  match n with
  | O => None
  | S i => match locks !! i with
           | Some h => if decide (h = want) then Some i else lastEqual locks want i
           | None => lastEqual locks want i
           end
  end.

Definition dropLock (op : openId) (l : Lock) (fs : lockTable) : outcome Empty_set lockTable :=
  let want := ByteRangeLock (lock_range l) op (lock_exclusive l) in
  match lastEqual (fs_locks fs) want (length (fs_locks fs)) with
  | Some i => lockChanged (set_locks (delete i (fs_locks fs)) fs)
  | None => Ok fs
  end.

(** Which lock an unlock gives back: the first exclusive one the open holds on
    exactly that range, or the first shared one. *)
Fixpoint findUnlock (op : openId) (r : byteRange) (locks : list byteRangeLock)
    (i : nat) (found : option nat) : option nat :=
  match locks with
  | [] => found
  | held :: rest =>
      if negb (bool_decide (held_open held = op) && bool_decide (held_range held = r))
      then findUnlock op r rest (S i) found
      else if held_exclusive held then Some i
      else findUnlock op r rest (S i) (match found with None => Some i | Some _ => found end)
  end.

(** The loop of [unlockRanges]: the status, whether anything was given back,
    and the locks left. *)
Fixpoint unlockRanges_loop (op : openId) (locks : list Lock) (given : bool)
    (held : list byteRangeLock) : Z * bool * list byteRangeLock :=
  match locks with
  | [] => (STATUS_OK, given, held)
  | l :: rest =>
      if has (l_Flags l) (LOCKFLAG_SHARED_LOCK .| LOCKFLAG_EXCLUSIVE_LOCK)
      then (STATUS_INVALID_PARAMETER, given, held)
      else match findUnlock op (lock_range l) held 0 None with
           | None => (STATUS_RANGE_NOT_LOCKED, given, held)
           | Some i => unlockRanges_loop op rest true (delete i held)
           end
  end.

Definition unlockRanges (op : openId) (locks : list Lock) (fs : lockTable)
  : outcome Empty_set (Z * lockTable) :=
  let '(st, given, held) := unlockRanges_loop op locks false (fs_locks fs) in
  let fs := set_locks held fs in
  if given then fs' ← lockChanged fs; Ok (st, fs') else Ok (st, fs).

Definition releaseLocks (op : openId) (fs : lockTable) : outcome Empty_set lockTable :=
  let kept := filter (fun h => held_open h <> op) (fs_locks fs) in
  if (length kept <? length (fs_locks fs))%nat
  then fs' ← lockChanged fs; Ok (set_locks kept fs')
  else Ok (set_locks kept fs).

(** ** The SMB2_LOCK handler

    The part of the handler that decides: [sequenced] is whether the connection
    and the open number their locks, [idx] and [number] the sequence the request
    carries.  The reply is a status, or the request is taken on asynchronously
    and waits for its one range. *)
Inductive lock_reply := Replied (status : Z) | Pending (l : Lock).

Definition smb2_lock (sequenced : bool) (idx number : Z) (op : openId) (locks : list Lock)
    (sq : list lockSequenceEntry) (fs : lockTable)
  : outcome Empty_set (lock_reply * list lockSequenceEntry * lockTable) :=
  '(replayed, sq) ← (if sequenced then replayedLock idx number sq else Ok (false, sq));
  if (replayed : bool) then Ok (Replied STATUS_OK, sq, fs)
  else
    first ← index locks 0;
    '(status, wait, fs) ←
      (if has (l_Flags first) LOCKFLAG_UNLOCK
       then '(st, fs) ← unlockRanges op locks fs; Ok (st, false, fs)
       else lockRanges op locks fs);
    if (wait : bool) then Ok (Pending first, sq, fs)
    else if negb (status =? STATUS_OK) then Ok (Replied status, sq, fs)
    else if sequenced then sq ← rememberLock idx number sq; Ok (Replied STATUS_OK, sq, fs)
    else Ok (Replied STATUS_OK, sq, fs).

(** What the goroutine behind a waiting lock does once [awaitLock] is over.
    [claimed] is the answer of [claimAnswer]: whether the client is still owed a
    response, or a cancel has answered it already. *)
Definition smb2_lock_finish (waited : Z) (claimed sequenced : bool) (idx number : Z)
    (op : openId) (l : Lock) (sq : list lockSequenceEntry) (fs : lockTable)
  : outcome Empty_set (option Z * list lockSequenceEntry * lockTable) :=
  sq ← (if (waited =? STATUS_OK) && sequenced then rememberLock idx number sq else Ok sq);
  if negb claimed then
    fs ← (if waited =? STATUS_OK then dropLock op l fs else Ok fs);
    Ok (None, sq, fs)
  else Ok (Some waited, sq, fs).

(** ** A file with requests waiting on it

    [awaitLock] runs on a goroutine per waiting request.  A waiter is about to
    look at the locks ([WTry]), asleep on a channel, or done. *)
Inductive wait_phase := WTry | WSleep (c : chan) | WDone (status : Z).
Record waiter := Waiter { w_open : openId; w_lock : Lock; w_phase : wait_phase }.
Record lockSys := LockSys { sys_fs : lockTable; sys_waiters : gmap nat waiter }.

Definition lock_init (s : lockSys) : Prop := s = LockSys (LockTable [] None no_chans) ∅.

Definition turn_phase (r : Z + chan) : wait_phase :=
  match r with inl st => WDone st | inr c => WSleep c end.

Inductive lock_step : lockSys -> lockSys -> Prop :=
| step_lock op ls st fs fs' ws :
    lockRanges op ls fs = Ok (st, false, fs') ->
    lock_step (LockSys fs ws) (LockSys fs' ws)
| step_queue op l st fs fs' ws i :
    lockRanges op [l] fs = Ok (st, true, fs') -> ws !! i = None ->
    lock_step (LockSys fs ws) (LockSys fs' (<[i := Waiter op l WTry]> ws))
| step_unlock op ls st fs fs' ws :
    unlockRanges op ls fs = Ok (st, fs') ->
    lock_step (LockSys fs ws) (LockSys fs' ws)
| step_drop op l fs fs' ws :
    dropLock op l fs = Ok fs' -> lock_step (LockSys fs ws) (LockSys fs' ws)
| step_release op fs fs' ws :
    releaseLocks op fs = Ok fs' -> lock_step (LockSys fs ws) (LockSys fs' ws)
| step_turn i op l sig r fs fs' ws :
    ws !! i = Some (Waiter op l WTry) ->
    awaitLock_turn op l sig fs = (r, fs') ->
    lock_step (LockSys fs ws) (LockSys fs' (<[i := Waiter op l (turn_phase r)]> ws))
| step_wake i op l c fs ws :
    ws !! i = Some (Waiter op l (WSleep c)) -> c ∈ closed_chans (fs_chans fs) ->
    lock_step (LockSys fs ws) (LockSys fs (<[i := Waiter op l WTry]> ws))
| step_interrupt i op l c st fs ws :
    ws !! i = Some (Waiter op l (WSleep c)) ->
    st = STATUS_CANCELLED \/ st = STATUS_FILE_CLOSED ->
    lock_step (LockSys fs ws) (LockSys fs (<[i := Waiter op l (WDone st)]> ws)).

(** ** Ranges as sets of bytes *)

(** The bytes a range covers, the end saturated as the code saturates it. *)
Definition covers (r : byteRange) (b : Z) : Prop := r_offset r <= b < end_ r.
(** A range as a request carries it: two 64-bit numbers. *)
Definition range_ok (r : byteRange) : Prop := is_u64 (r_offset r) /\ is_u64 (r_length r).

Lemma end_no_wrap r : range_ok r -> r_offset r + r_length r < 2 ^ 64 ->
  end_ r = r_offset r + r_length r.
Proof.
  unfold range_ok, is_u64, end_, u64. intros [? ?] ?. rewrite Z.mod_small by lia. bdestr.
Qed.
Lemma end_wrap r : range_ok r -> 2 ^ 64 <= r_offset r + r_length r -> end_ r = maxU64.
Proof.
  unfold range_ok, is_u64, end_, u64. intros [? ?] ?.
  replace ((r_offset r + r_length r) mod 2 ^ 64) with (r_offset r + r_length r - 2 ^ 64).
  - bdestr.
  - apply Z.mod_unique with 1; lia.
Qed.
(** A range that covers something begins below its end, unless it begins at the
    very last offset there is. *)
Lemma end_above r : range_ok r -> r_length r <> 0 -> r_offset r <> maxU64 ->
  r_offset r < end_ r.
Proof.
  intros Hr Hl Ho. destruct (Z.lt_ge_cases (r_offset r + r_length r) (2 ^ 64)).
  - rewrite end_no_wrap by done. destruct Hr as [_ []]. lia.
  - rewrite end_wrap by done. destruct Hr as [[] _]. unfold maxU64 in *. lia.
Qed.

Lemma overlaps_sym r s : overlaps r s = overlaps s r.
Proof.
  unfold overlaps.
  destruct (Z.eqb_spec (r_length r) 0), (Z.eqb_spec (r_length s) 0); simpl; try done.
  apply andb_comm.
Qed.

Lemma overlaps_bytes r s :
  range_ok r -> range_ok s -> r_length r <> 0 -> r_length s <> 0 ->
  r_offset r <> maxU64 -> r_offset s <> maxU64 ->
  (overlaps r s = true <-> exists b, covers r b /\ covers s b).
Proof.
  intros Hr Hs Hlr Hls Hor Hos.
  pose proof (end_above r Hr Hlr Hor). pose proof (end_above s Hs Hls Hos).
  unfold overlaps, covers.
  destruct (Z.eqb_spec (r_length r) 0), (Z.eqb_spec (r_length s) 0); try done; simpl.
  rewrite andb_true_iff, !Z.ltb_lt. split.
  - intros [? ?]. exists (Z.max (r_offset r) (r_offset s)). lia.
  - intros (b & ? & ?). lia.
Qed.

(** ** Conflicts *)

(** A lock taken while [a] stood: what the rules of [lockConflict] let through. *)
Definition compat (a b : byteRangeLock) : Prop :=
  overlaps (held_range a) (held_range b) = true ->
  if held_exclusive a then held_open a = held_open b else held_exclusive b = false.

Lemma lockConflict_false locks op r ex :
  lockConflict locks op r ex = false <-> Forall (fun h => compat h (ByteRangeLock r op ex)) locks.
Proof.
  induction locks as [|h locks IH]; simpl; [by split; constructor|].
  rewrite Forall_cons, <- IH. unfold compat. simpl.
  destruct (overlaps (held_range h) r), (held_exclusive h), ex; simpl;
    try case_bool_decide; simpl; intuition congruence.
Qed.

Lemma lockConflict_app locks k op r ex :
  lockConflict locks op r ex = true -> lockConflict (locks ++ k) op r ex = true.
Proof.
  intros H. destruct (lockConflict (locks ++ k) op r ex) eqn:He; [done|].
  apply lockConflict_false, Forall_app in He as [He _].
  apply lockConflict_false in He. congruence.
Qed.

(** ** The exclusion invariant *)

Fixpoint pairwise (ls : list byteRangeLock) : Prop :=
  match ls with
  | [] => True
  | h :: t => Forall (compat h) t /\ pairwise t
  end.

Lemma pairwise_app ls ks :
  pairwise (ls ++ ks) <-> pairwise ls /\ pairwise ks /\ Forall (fun h => Forall (compat h) ks) ls.
Proof.
  induction ls as [|h ls IH]; simpl.
  - split; [intros; repeat split; auto; constructor|tauto].
  - rewrite IH, Forall_app, Forall_cons. tauto.
Qed.
Lemma pairwise_snoc ls b : pairwise (ls ++ [b]) <-> pairwise ls /\ Forall (fun h => compat h b) ls.
Proof.
  rewrite pairwise_app. simpl.
  assert (Forall (fun h => Forall (compat h) [b]) ls <-> Forall (fun h => compat h b) ls) as ->.
  { apply Forall_iff. intros h. apply Forall_singleton. }
  rewrite Forall_nil. tauto.
Qed.
Lemma pairwise_sublist ls ks : sublist ls ks -> pairwise ks -> pairwise ls.
Proof.
  induction 1 as [|x l k Hs IH|x l k Hs IH]; simpl; [done| |tauto].
  intros [Hf Hp]. split; [|auto].
  apply Forall_forall. intros y Hy. rewrite Forall_forall in Hf.
  apply Hf. by eapply elem_of_sublist.
Qed.

(** ** What each operation does to the locks *)

Definition unlocked_wf (fs : lockTable) : Prop :=
  chans_wf (fs_chans fs) /\ forall c, fs_lockWait fs = Some c -> chan_open (fs_chans fs) c.

Lemma lockChanged_spec fs :
  unlocked_wf fs ->
  exists fs', lockChanged fs = Ok fs' /\ fs_locks fs' = fs_locks fs /\
    fs_lockWait fs' = None /\ unlocked_wf fs' /\
    (forall c, fs_lockWait fs = Some c -> c ∈ closed_chans (fs_chans fs')) /\
    (forall c, c ∈ closed_chans (fs_chans fs) -> c ∈ closed_chans (fs_chans fs')) /\
    next_chan (fs_chans fs') = next_chan (fs_chans fs).
Proof.
  intros [Hwf Hw]. unfold lockChanged. destruct (fs_lockWait fs) as [c|] eqn:Hc.
  - specialize (Hw c eq_refl). rewrite (close_chan_Ok _ _ Hw). simpl.
    eexists. split; [done|]. simpl. split_and!; try done.
    + split; [|done]. simpl.
      by eapply (close_chan_wf (E:=Empty_set) _ _ _ Hwf Hw), close_chan_Ok.
    + intros ? [= <-]. set_solver.
    + set_solver.
  - exists fs. split_and!; try done. split; [done|]. intros c Hc'. congruence.
Qed.

(** What an atomic operation on a sound table may do: the table stays sound, the
    exclusion between locks is kept, no closed channel opens again, and whoever
    listens for a change either is told of one or missed nothing, the locks
    having only grown. *)
Definition grant (op : openId) (l : Lock) : byteRangeLock :=
  ByteRangeLock (lock_range l) op (lock_exclusive l).

Record table_step (fs fs' : lockTable) : Prop := {
  ts_wf : unlocked_wf fs';
  ts_pairwise : pairwise (fs_locks fs) -> pairwise (fs_locks fs');
  ts_closed : closed_chans (fs_chans fs) ⊆ closed_chans (fs_chans fs');
  ts_signal : forall c, fs_lockWait fs = Some c ->
    c ∈ closed_chans (fs_chans fs') \/
    (fs_lockWait fs' = Some c /\ exists k, fs_locks fs' = fs_locks fs ++ k);
}.

Lemma table_step_refl fs : unlocked_wf fs -> table_step fs fs.
Proof. split; auto. intros c ->. right. split; [done|]. exists []. by rewrite app_nil_r. Qed.

Lemma table_step_trans fs1 fs2 fs3 :
  table_step fs1 fs2 -> table_step fs2 fs3 -> table_step fs1 fs3.
Proof.
  intros [? ? ? Hs1] [? ? ? Hs2]. split; [done|auto|set_solver|].
  intros c Hc. destruct (Hs1 c Hc) as [?|[Hc2 [k Hk]]]; [left; set_solver|].
  destruct (Hs2 c Hc2) as [?|[Hc3 [k' Hk']]]; [by left|right].
  split; [done|]. exists (k ++ k'). by rewrite Hk', Hk, app_assoc.
Qed.

(** A claim that nothing stands in the way of joins the list at its end. *)
Lemma table_step_grant fs op l :
  unlocked_wf fs -> lockConflict (fs_locks fs) op (lock_range l) (lock_exclusive l) = false ->
  table_step fs (set_locks (fs_locks fs ++ [grant op l]) fs).
Proof.
  intros [??] Hc%lockConflict_false. split; simpl.
  - by split.
  - intros. by apply pairwise_snoc.
  - done.
  - intros c ->. right. eauto.
Qed.

(** Locks are only ever removed along with a signal. *)
Lemma table_step_remove fs ls :
  unlocked_wf fs -> sublist ls (fs_locks fs) ->
  exists fs', lockChanged (set_locks ls fs) = Ok fs' /\ fs_locks fs' = ls /\ table_step fs fs'.
Proof.
  intros Hwf Hsub. destruct (lockChanged_spec (set_locks ls fs)) as
    (fs' & He & Hl & Hw & Hwf' & Hc & Hm & _); [destruct Hwf; by split|].
  exists fs'. split_and!; [done|done|]. split.
  - done.
  - rewrite Hl. simpl. by apply pairwise_sublist.
  - intros c. apply Hm.
  - intros c ?. left. by apply Hc.
Qed.

Lemma lockRanges_loop_step op ls : forall taken fs,
  unlocked_wf fs ->
  exists st w fs', lockRanges_loop op ls taken fs = Ok (st, w, fs') /\ table_step fs fs'.
Proof.
  induction ls as [|l ls IH]; intros taken fs Hwf; simpl.
  { eauto 10 using table_step_refl. }
  destruct (negb (validLockFlags _)); [eauto 10 using table_step_refl|].
  destruct (lockConflict _ _ _ _) eqn:Hc.
  - destruct (negb (has _ _)); [eauto 10 using table_step_refl|].
    destruct (0 <? taken)%nat; [|eauto 10 using table_step_refl].
    destruct (table_step_remove fs (take (length (fs_locks fs) - taken) (fs_locks fs)) Hwf)
      as (fs' & -> & _ & Hs); [apply sublist_take|]. simpl. eauto.
  - pose proof (table_step_grant fs op l Hwf Hc) as Hg.
    destruct (IH (S taken) _ (ts_wf _ _ Hg)) as (st & w & fs' & He & Hs).
    exists st, w, fs'. split; [exact He|]. by eapply table_step_trans.
Qed.

Lemma lockRanges_step op ls fs :
  unlocked_wf fs ->
  exists st w fs', lockRanges op ls fs = Ok (st, w, fs') /\ table_step fs fs'.
Proof.
  intros. unfold lockRanges. destruct (_ && _); [eauto 10 using table_step_refl|].
  by apply lockRanges_loop_step.
Qed.

Lemma unlockRanges_loop_sublist op ls : forall given held,
  let '(_, given', held') := unlockRanges_loop op ls given held in
  sublist held' held /\ (given' = false -> held' = held) /\ (given = true -> given' = true).
Proof.
  induction ls as [|l ls IH]; intros given held; simpl; [done|].
  destruct (has _ _); [done|]. destruct (findUnlock _ _ _ _ _) as [i|]; [|done].
  specialize (IH true (delete i held)).
  destruct (unlockRanges_loop op ls true (delete i held)) as [[st g] h].
  destruct IH as (H1 & H2 & H3). split_and!; [|by rewrite (H3 eq_refl)|auto].
  etrans; [exact H1|]. apply sublist_delete.
Qed.

Lemma unlockRanges_step op ls fs :
  unlocked_wf fs -> exists st fs', unlockRanges op ls fs = Ok (st, fs') /\ table_step fs fs'.
Proof.
  intros Hwf. unfold unlockRanges.
  pose proof (unlockRanges_loop_sublist op ls false (fs_locks fs)) as Hs.
  destruct (unlockRanges_loop _ _ _ _) as [[st g] h]. destruct Hs as (Hsub & Hsame & _).
  destruct g.
  - destruct (table_step_remove fs h Hwf Hsub) as (fs' & -> & _ & ?). simpl. eauto.
  - rewrite Hsame by done. exists st, (set_locks (fs_locks fs) fs). split; [done|].
    destruct fs. by apply table_step_refl.
Qed.

Lemma dropLock_step op l fs :
  unlocked_wf fs -> exists fs', dropLock op l fs = Ok fs' /\ table_step fs fs'.
Proof.
  intros Hwf. unfold dropLock. destruct (lastEqual _ _ _) as [i|].
  - destruct (table_step_remove fs (delete i (fs_locks fs)) Hwf) as (fs' & -> & _ & ?);
      [apply sublist_delete|eauto].
  - eauto 10 using table_step_refl.
Qed.

Lemma filter_length_eq {A} (P : A -> Prop) `{forall x, Decision (P x)} (l : list A) :
  (length (filter P l) <? length l)%nat = false -> filter P l = l.
Proof.
  intros Hl%Nat.ltb_ge.
  induction l as [|x l IH]; simpl in *; [done|].
  rewrite !filter_cons in *. pose proof (length_filter P l).
  destruct (decide (P x)); simpl in *; [rewrite IH by lia; done|lia].
Qed.

Lemma releaseLocks_step op fs :
  unlocked_wf fs ->
  exists fs', releaseLocks op fs = Ok fs' /\ table_step fs fs' /\
    fs_locks fs' = filter (fun h => held_open h <> op) (fs_locks fs).
Proof.
  intros Hwf. unfold releaseLocks. destruct (_ <? _)%nat eqn:Hlt.
  - destruct (lockChanged_spec fs Hwf) as (fs' & -> & Hl & Hw & [? ?] & Hc & Hm & _). simpl.
    eexists. split_and!; [done| |done]. split; simpl.
    + split; [done|]. simpl. congruence.
    + apply pairwise_sublist, sublist_filter.
    + intros c. apply Hm.
    + intros c ?. left. by apply Hc.
  - apply filter_length_eq in Hlt. rewrite Hlt. eexists. split_and!; [done| |done].
    destruct fs. by apply table_step_refl.
Qed.

Lemma awaitLock_turn_step op l sig fs r fs' :
  unlocked_wf fs -> awaitLock_turn op l sig fs = (r, fs') -> table_step fs fs' /\
  forall c, r = inr c -> fs_lockWait fs' = Some c /\
    lockConflict (fs_locks fs') op (lock_range l) (lock_exclusive l) = true.
Proof.
  intros Hwf. destruct sig; simpl; 
    try (intros [= <- <-]; split; [by apply table_step_refl|done]; fail).
  destruct (lockConflict _ _ _ _) eqn:Hc; simpl.
  - unfold lockWaiter. destruct (fs_lockWait fs) as [c0|] eqn:Hw.
    + intros [= <- <-]. split; [by apply table_step_refl|]. intros c [= ->]. done.
    + intros [= <- <-]. destruct Hwf as [Hwf _]. split.
      * split; simpl; [|done|done|congruence].
        split; [by apply make_chan_wf|]. intros c [= <-]. by apply make_chan_open.
      * intros c [= <-]. done.
  - intros [= <- <-]. split; [by apply table_step_grant|done].
Qed.

(** ** The invariant of a file with waiters *)

Definition asleep_ok (fs : lockTable) (w : waiter) : Prop :=
  match w_phase w with
  | WSleep c =>
      c ∈ closed_chans (fs_chans fs) \/
      (fs_lockWait fs = Some c /\
       lockConflict (fs_locks fs) (w_open w) (lock_range (w_lock w))
         (lock_exclusive (w_lock w)) = true)
  | _ => True
  end.

Record sys_ok (s : lockSys) : Prop := {
  so_wf : unlocked_wf (sys_fs s);
  so_pairwise : pairwise (fs_locks (sys_fs s));
  so_asleep : map_Forall (fun _ w => asleep_ok (sys_fs s) w) (sys_waiters s);
}.

Lemma asleep_ok_step fs fs' w : table_step fs fs' -> asleep_ok fs w -> asleep_ok fs' w.
Proof.
  intros Hs. unfold asleep_ok. destruct (w_phase w) as [|c|]; try done.
  intros [Hc|[Hw Hconf]]; [left; by apply (ts_closed _ _ Hs)|].
  destruct (ts_signal _ _ Hs c Hw) as [?|[? [k ->]]]; [by left|right].
  eauto using lockConflict_app.
Qed.

Lemma sys_ok_table fs fs' ws :
  table_step fs fs' -> sys_ok (LockSys fs ws) -> sys_ok (LockSys fs' ws).
Proof.
  intros Hs [? ? Ha]. split; simpl.
  - apply (ts_wf _ _ Hs).
  - by apply (ts_pairwise _ _ Hs).
  - intros i w Hw. eapply asleep_ok_step; [exact Hs|]. by apply (Ha i).
Qed.
Lemma sys_ok_waiter fs ws i w :
  sys_ok (LockSys fs ws) -> asleep_ok fs w -> sys_ok (LockSys fs (<[i:=w]> ws)).
Proof. intros [? ? ?] ?. split; [done..|]. by apply map_Forall_insert_2. Qed.

Lemma lock_step_ok s s' : sys_ok s -> lock_step s s' -> sys_ok s'.
Proof.
  intros Hok Hst. pose proof (so_wf _ Hok) as Hwf. destruct Hst; simpl in Hwf.
  - destruct (lockRanges_step op ls fs Hwf) as (? & ? & ? & He & Hs). rewrite He in *. simplify_eq.
    by apply (sys_ok_table _ _ _ Hs).
  - destruct (lockRanges_step op [l] fs Hwf) as (? & ? & ? & He & Hs). rewrite He in *. simplify_eq.
    apply sys_ok_waiter; [by apply (sys_ok_table _ _ _ Hs)|done].
  - destruct (unlockRanges_step op ls fs Hwf) as (? & ? & He & Hs). rewrite He in *. simplify_eq.
    by apply (sys_ok_table _ _ _ Hs).
  - destruct (dropLock_step op l fs Hwf) as (? & He & Hs). rewrite He in *. simplify_eq.
    by apply (sys_ok_table _ _ _ Hs).
  - destruct (releaseLocks_step op fs Hwf) as (? & He & Hs & _). rewrite He in *. simplify_eq.
    by apply (sys_ok_table _ _ _ Hs).
  - destruct (awaitLock_turn_step _ _ _ _ _ _ Hwf H0) as [Hs Hc].
    apply sys_ok_waiter; [by apply (sys_ok_table _ _ _ Hs)|].
    destruct r as [st|c]; [done|]. right. by apply Hc.
  - by apply sys_ok_waiter.
  - by apply sys_ok_waiter.
Qed.

Lemma lock_reachable_ok s : reachable lock_init lock_step s -> sys_ok s.
Proof.
  apply invariant_reachable.
  - intros ? ->. split; simpl; [|done|apply map_Forall_empty].
    split; [|done]. intros c. simpl. set_solver.
  - intros ? ? _. apply lock_step_ok.
Qed.

Lemma pairwise_lookup ls i j a b :
  pairwise ls -> (i < j)%nat -> ls !! i = Some a -> ls !! j = Some b -> compat a b.
Proof.
  revert i j. induction ls as [|h ls IH]; intros i j; [done|].
  intros [Hf Hp] Hij Hi Hj. destruct j as [|j]; [lia|]. simpl in Hj. destruct i as [|i].
  - injection Hi as <-. rewrite Forall_lookup in Hf. eauto.
  - eapply IH; [done| |exact Hi|exact Hj]. lia.
Qed.

(** ** Properties *)

(** The bytes a range covers, as the protocol has them, and when two ranges of a file are
    in each other's way: they cover a byte in common, or one of them covers none and sits
    strictly inside the other.  The byte at the largest offset is left out, since [end_]
    saturates there ([last_byte_not_excluded]). *)
Definition lies (r : byteRange) (b : Z) : Prop := r_offset r <= b < r_offset r + r_length r.
Definition inside_of (r s : byteRange) : Prop :=
  r_length r = 0 /\ r_offset s < r_offset r < r_offset s + r_length s /\ r_offset r < maxU64.
Definition in_the_way (r s : byteRange) : Prop :=
  (exists b, b < maxU64 /\ lies r b /\ lies s b) \/ inside_of r s \/ inside_of s r.
Lemma end_min r : range_ok r -> end_ r = Z.min (r_offset r + r_length r) maxU64.
Proof.
  intros Hr. destruct (Z.lt_ge_cases (r_offset r + r_length r) (2 ^ 64)).
  - rewrite end_no_wrap by done. unfold maxU64. lia.
  - rewrite end_wrap by done. unfold maxU64. lia.
Qed.
Lemma in_the_way_overlaps r s : range_ok r -> range_ok s -> in_the_way r s -> overlaps r s = true.
Proof.
  intros Hr Hs H. unfold overlaps. rewrite (end_min r), (end_min s) by done. unfold in_the_way, inside_of, lies in H.
  destruct H as [(b & Hb & H1 & H2)|[(E & H1 & H2)|(E & H1 & H2)]]; bdestr.
Qed.

(** C3: Mutual exclusion.  However lock, unlock, drop and release requests and
    the turns of waiting requests interleave, two different opens never hold
    ranges of one file that share a byte, or of which one is empty and sits inside
    the other, unless both locks are shared.  A byte is any but the one at the
    largest offset a 64-bit number names. *)
Theorem locks_mutual_exclusion s i j a b :
  reachable lock_init lock_step s -> i <> j ->
  fs_locks (sys_fs s) !! i = Some a -> fs_locks (sys_fs s) !! j = Some b ->
  range_ok (held_range a) -> range_ok (held_range b) ->
  in_the_way (held_range a) (held_range b) -> held_open a <> held_open b ->
  held_exclusive a = false /\ held_exclusive b = false.
Proof.
  intros Hr%lock_reachable_ok Hij Ha Hb Ra Rb Ho%in_the_way_overlaps Hne; [|done..]. destruct Hr as [_ Hp _].
  assert (i < j \/ j < i)%nat as [Hlt|Hlt] by lia.
  - pose proof (pairwise_lookup _ _ _ _ _ Hp Hlt Ha Hb Ho) as Hc.
    destruct (held_exclusive a); naive_solver.
  - rewrite overlaps_sym in Ho. pose proof (pairwise_lookup _ _ _ _ _ Hp Hlt Hb Ha Ho) as Hc.
    destruct (held_exclusive b); naive_solver.
Qed.

(** No wake-up is lost.  A waiting lock request that sleeps on a channel
    nobody has closed yet sleeps for a reason: what it asks for still conflicts
    with a range somebody holds, and the channel it sleeps on is the one the
    next change of the locks closes. *)
Theorem locks_no_lost_wakeup s i op l c :
  reachable lock_init lock_step s ->
  sys_waiters s !! i = Some (Waiter op l (WSleep c)) ->
  c ∉ closed_chans (fs_chans (sys_fs s)) ->
  fs_lockWait (sys_fs s) = Some c /\
  lockConflict (fs_locks (sys_fs s)) op (lock_range l) (lock_exclusive l) = true.
Proof.
  intros Hr%lock_reachable_ok Hw Hc. destruct Hr as [_ _ Ha].
  specialize (Ha i _ Hw). unfold asleep_ok in Ha. simpl in Ha. tauto.
Qed.

(** No operation on the locks of a file panics.  In every reachable state a
    lock, an unlock, a drop and a release all return: the wait channel is never
    closed twice. *)
Theorem locks_never_panic s op ls l :
  reachable lock_init lock_step s ->
  settled (lockRanges op ls (sys_fs s)) /\ settled (unlockRanges op ls (sys_fs s)) /\
  settled (dropLock op l (sys_fs s)) /\ settled (releaseLocks op (sys_fs s)).
Proof.
  intros Hr%lock_reachable_ok. destruct Hr as [Hwf _ _].
  destruct (lockRanges_step op ls _ Hwf) as (? & ? & ? & -> & _).
  destruct (unlockRanges_step op ls _ Hwf) as (? & ? & -> & _).
  destruct (dropLock_step op l _ Hwf) as (? & -> & _).
  destruct (releaseLocks_step op _ Hwf) as (? & -> & _). done.
Qed.

Lemma lockChanged_locks fs fs' : lockChanged fs = Ok fs' -> fs_locks fs' = fs_locks fs.
Proof.
  unfold lockChanged. destruct (fs_lockWait fs); [|by intros [= <-]].
  by intros (s & _ & [= <-])%bind_Ok.
Qed.

(** How a pass over the elements of a lock request ends, counting from the locks
    [base] that were there before it and those it took itself. *)
Lemma lockRanges_loop_ends op ls : forall base mine fs st w fs',
  fs_locks fs = base ++ mine ->
  lockRanges_loop op ls (length mine) fs = Ok (st, w, fs') ->
  (st = STATUS_OK /\ w = false /\ fs_locks fs' = base ++ mine ++ map (grant op) ls) \/
  (st = STATUS_LOCK_NOT_GRANTED /\ w = false /\ fs_locks fs' = base) \/
  (exists k l, ls !! k = Some l /\
     fs_locks fs' = base ++ mine ++ map (grant op) (take k ls) /\
     ((st = STATUS_INVALID_PARAMETER /\ w = false /\ validLockFlags (l_Flags l) = false) \/
      (st = STATUS_OK /\ w = true /\ has (l_Flags l) LOCKFLAG_FAIL_IMMEDIATELY = false /\
       lockConflict (fs_locks fs') op (lock_range l) (lock_exclusive l) = true))).
Proof.
  induction ls as [|l ls IH]; intros base mine fs st w fs' Hl; simpl.
  { intros [= <- <- <-]. left. by rewrite app_nil_r. }
  destruct (validLockFlags (l_Flags l)) eqn:Hv; simpl.
  2:{ intros [= <- <- <-]. right; right. exists 0%nat, l. simpl. rewrite app_nil_r.
      split_and!; [done|done|]. auto. }
  destruct (lockConflict (fs_locks fs) op _ _) eqn:Hc.
  - destruct (has (l_Flags l) LOCKFLAG_FAIL_IMMEDIATELY) eqn:Hf; simpl.
    + destruct mine as [|m mine]; simpl.
      * intros [= <- <- <-]. right; left. by rewrite Hl, app_nil_r.
      * intros (fs1 & Hch & H)%bind_Ok. injection H as <- <- <-.
        right; left. split_and!; [done..|]. rewrite (lockChanged_locks _ _ Hch). simpl.
        rewrite Hl, length_app. simpl. by rewrite Nat.add_sub, take_app_length.
    + intros [= <- <- <-]. right; right. exists 0%nat, l. simpl. rewrite app_nil_r.
      split_and!; [done|done|]. right. auto.
  - intros H. assert (S (length mine) = length (mine ++ [grant op l])) as Hlen.
    { rewrite length_app. simpl. lia. }
    rewrite Hlen in H.
    apply (IH base) in H; [|simpl; by rewrite Hl, app_assoc].
    destruct H as [(-> & -> & ->)|[?|(k & l' & Hk & -> & Hrest)]].
    + left. split_and!; [done..|]. by rewrite <- (app_assoc mine).
    + auto.
    + right; right. exists (S k), l'. simpl. rewrite <- (app_assoc mine).
      rewrite <- (app_assoc mine) in Hrest. auto.
Qed.

(** A lock request is all or nothing.  If it is granted, every range it names
    is held and nothing else changed; if a range cannot be had, the locks are
    exactly those held before; if it is to be waited on, it names the one range,
    which conflicts with one held, and nothing was taken; and if an element is
    malformed, what came before it in the request stays taken. *)
Theorem lockRanges_all_or_nothing op ls fs st w fs' :
  lockRanges op ls fs = Ok (st, w, fs') ->
  (st = STATUS_OK /\ w = false /\ fs_locks fs' = fs_locks fs ++ map (grant op) ls) \/
  (st = STATUS_LOCK_NOT_GRANTED /\ w = false /\ fs_locks fs' = fs_locks fs) \/
  (st = STATUS_OK /\ w = true /\ fs_locks fs' = fs_locks fs /\
     exists l, ls = [l] /\
       lockConflict (fs_locks fs) op (lock_range l) (lock_exclusive l) = true) \/
  (st = STATUS_INVALID_PARAMETER /\ w = false /\
     exists k, fs_locks fs' = fs_locks fs ++ map (grant op) (take k ls)).
Proof.
  unfold lockRanges. destruct (_ && _) eqn:Hg.
  { intros [= <- <- <-]. do 3 right. split_and!; [done..|]. exists 0%nat. by rewrite app_nil_r. }
  intros H. apply (lockRanges_loop_ends op ls (fs_locks fs) []) in H; [|by rewrite app_nil_r].
  destruct H as [?|[?|(k & l & Hk & Hl & [(-> & -> & _)|(-> & -> & Hf & Hc)])]]; [auto..| |].
  - do 3 right. eauto.
  - right; right; left. destruct ls as [|l0 [|l1 ls]]; [done| |].
    + destruct k as [|k]; [|done]. simpl in *. injection Hk as ->.
      rewrite app_nil_r in Hl. rewrite Hl in Hc. eauto 6.
    + exfalso. apply andb_false_iff in Hg as [Hg|Hg].
      { apply Z.ltb_ge in Hg. revert Hg. rewrite !zlen_cons. pose proof (zlen_nonneg ls). lia. }
      assert (existsb (fun l => negb (has (l_Flags l) LOCKFLAG_FAIL_IMMEDIATELY))
                (l0 :: l1 :: ls) = true) as Ht; [|congruence].
      apply existsb_exists. exists l. rewrite Hf. split; [|done].
      apply list_elem_of_In. by eapply list_elem_of_lookup_2.
Qed.

(** ** Giving ranges back *)

Lemma findUnlock_none op r locks i found :
  Forall (fun h => ~ (held_open h = op /\ held_range h = r)) locks ->
  findUnlock op r locks i found = found.
Proof.
  intros Hf. revert i found. induction Hf as [|h locks Hh _ IH]; intros; simpl; [done|].
  destruct (decide (held_open h = op)), (decide (held_range h = r)); try tauto;
    rewrite ?(bool_decide_eq_true_2 (held_open h = op)) by done;
    rewrite ?(bool_decide_eq_false_2 (held_open h = op)) by done;
    rewrite ?(bool_decide_eq_false_2 (held_range h = r)) by done; simpl; apply IH.
Qed.
Lemma findUnlock_app op r locks b i :
  Forall (fun h => ~ (held_open h = op /\ held_range h = r)) locks ->
  held_open b = op -> held_range b = r ->
  findUnlock op r (locks ++ [b]) i None = Some (i + length locks)%nat.
Proof.
  intros Hf Ho Hr. revert i. induction Hf as [|h locks Hh _ IH]; intros i; simpl.
  - rewrite (bool_decide_eq_true_2 _ Ho), (bool_decide_eq_true_2 _ Hr). simpl.
    rewrite Nat.add_0_r. by destruct (held_exclusive b).
  - destruct (negb _) eqn:Hn.
    + rewrite IH. f_equal. lia.
    + exfalso. apply Hh. apply negb_false_iff, andb_prop in Hn as [H1 H2].
      split; by eapply bool_decide_eq_true_1.
Qed.

(** Locking and unlocking cancel out.  An unlock naming exactly the range of a
    lock just granted succeeds and leaves the locks as they were before the
    lock, where the open held no lock on that very range already. *)
Theorem lock_unlock_roundtrip op l u fs fs1 :
  lockRanges op [l] fs = Ok (STATUS_OK, false, fs1) -> unlocked_wf fs ->
  Forall (fun h => ~ (held_open h = op /\ held_range h = lock_range l)) (fs_locks fs) ->
  lock_range u = lock_range l -> l_Flags u = LOCKFLAG_UNLOCK ->
  exists fs2, unlockRanges op [u] fs1 = Ok (STATUS_OK, fs2) /\ fs_locks fs2 = fs_locks fs.
Proof.
  intros Hlock Hwf Hnone Hr Hflags.
  destruct (lockRanges_step op [l] fs Hwf) as (? & ? & ? & He & Hts). rewrite He in Hlock.
  injection Hlock as -> -> ->. pose proof (ts_wf _ _ Hts) as Hwf1.
  unfold lockRanges in He. simpl in He.
  destruct (validLockFlags (l_Flags l)); simpl in He; [|discriminate].
  destruct (lockConflict _ _ _ _) eqn:Hc; [destruct (negb _); simpl in He; discriminate|].
  injection He as <-. unfold unlockRanges. simpl. rewrite Hflags.
  change (has LOCKFLAG_UNLOCK _) with false. simpl.
  rewrite Hr, findUnlock_app by done. simpl.
  destruct (table_step_remove _ (fs_locks fs) Hwf1) as (fs2 & Hch & Hl & _).
  { apply sublist_inserts_r. done. }
  exists fs2. split; [|done].
  rewrite delete_middle.
  rewrite app_nil_r. rewrite Hch. done.
Qed.

(** A handle that ends leaves no lock behind and takes nobody else's: what is
    held after [releaseLocks] is what the other opens held, in the same order. *)
Theorem releaseLocks_exact op fs :
  unlocked_wf fs ->
  exists fs', releaseLocks op fs = Ok fs' /\
    fs_locks fs' = filter (fun h => held_open h <> op) (fs_locks fs).
Proof. intros Hwf. destruct (releaseLocks_step op fs Hwf) as (fs' & ? & _ & ?). eauto. Qed.

(** ** Sequenced requests *)

Lemma store_lookup {E A} (l : list A) i x l' :
  @store E A l i x = Ok l' -> index (E:=E) l' i = Ok x.
Proof.
  unfold store. destruct (_ && _) eqn:Hb; [|discriminate]. intros [= <-].
  apply andb_prop in Hb as [H1%Z.leb_le H2%Z.ltb_lt]. apply index_Ok. split; [done|].
  apply list_lookup_insert_eq. unfold zlen in H2. lia.
Qed.

Lemma rememberLock_replayed idx number sq sq' :
  1 <= idx <= lockSequenceEntries -> rememberLock idx number sq = Ok sq' ->
  replayedLock idx number sq' = Ok (true, sq').
Proof.
  unfold rememberLock, replayedLock, lockSequenceEntries. intros Hi.
  destruct (_ || _) eqn:Hb; [apply orb_prop in Hb as [H%Z.eqb_eq|H%Z.gtb_lt]; lia|].
  intros Hs%store_lookup. rewrite Hs. simpl. by rewrite Z.eqb_refl.
Qed.

(** A lock request carried out once is not carried out twice.  Where locks are
    numbered and the request names one of the 64 entries, sending it again after
    it was answered with success is answered with success again and changes
    neither the locks nor what is remembered. *)
Theorem smb2_lock_replay_idempotent idx number op ls sq fs sq1 fs1 fs2 :
  1 <= idx <= lockSequenceEntries ->
  smb2_lock true idx number op ls sq fs = Ok (Replied STATUS_OK, sq1, fs1) ->
  smb2_lock true idx number op ls sq1 fs2 = Ok (Replied STATUS_OK, sq1, fs2).
Proof.
  intros Hi H. enough (replayedLock idx number sq1 = Ok (true, sq1)) as Hr.
  { unfold smb2_lock. simpl. by rewrite Hr. }
  unfold smb2_lock in H.
  apply bind_Ok in H as ([[] sq0] & Hr & H).
  { injection H as -> ->. enough (sq = sq1) as -> by done. revert Hr. unfold replayedLock.
    destruct (_ || _); [discriminate|]. intros (e & _ & H)%bind_Ok.
    destruct (seq_valid e); simpl in *; [|discriminate].
    destruct (seq_number e =? number); [congruence|]. by apply bind_Ok in H as (? & _ & ?). }
  apply bind_Ok in H as (first & _ & H). apply bind_Ok in H as ([[st w] fs'] & _ & H).
  destruct w; [discriminate|]. destruct (Z.eqb_spec st STATUS_OK); simpl in H; [|congruence].
  apply bind_Ok in H as (sq' & Hm & H). injection H as -> ->.
  by eapply rememberLock_replayed.
Qed.

(** A blocking lock granted in the same moment as it is cancelled is given back
    but stays remembered: the sequence entry written before the claim is lost is
    not withdrawn, so the same numbered request sent again is answered with
    success while the open holds no lock. *)
Theorem cancelled_lock_still_remembered idx number op l sq sq1 fs fs1 :
  1 <= idx <= lockSequenceEntries ->
  smb2_lock_finish STATUS_OK false true idx number op l sq fs = Ok (None, sq1, fs1) ->
  smb2_lock true idx number op [l] sq1 fs1 = Ok (Replied STATUS_OK, sq1, fs1).
Proof.
  intros Hi. unfold smb2_lock_finish. simpl.
  intros (sq' & Hm & (fs' & _ & [= -> ->])%bind_Ok)%bind_Ok.
  unfold smb2_lock. simpl. by rewrite (rememberLock_replayed _ _ _ _ Hi Hm).
Qed.

(** Two ranges conflict exactly where they share a byte.  For ranges that cover
    something and do not begin at the last offset there is, [overlaps] holds if
    and only if some byte lies in both. *)
Theorem overlaps_iff_common_byte r s :
  range_ok r -> range_ok s -> r_length r <> 0 -> r_length s <> 0 ->
  r_offset r <> maxU64 -> r_offset s <> maxU64 ->
  (overlaps r s = true <-> exists b, covers r b /\ covers s b).
Proof. apply overlaps_bytes. Qed.

(** The last byte of the offset space cannot be locked exclusively.  A one-byte
    range at the largest offset has its end saturated to that offset, overlaps
    nothing, itself included, and so two opens are both granted it exclusively. *)
Theorem last_byte_not_excluded op1 op2 :
  let l := MkLock maxU64 1 (LOCKFLAG_EXCLUSIVE_LOCK .| LOCKFLAG_FAIL_IMMEDIATELY) in
  exists fs1 fs2,
    lockRanges op1 [l] (LockTable [] None no_chans) = Ok (STATUS_OK, false, fs1) /\
    lockRanges op2 [l] fs1 = Ok (STATUS_OK, false, fs2) /\
    fs_locks fs2 = [grant op1 l; grant op2 l].
Proof. simpl. do 2 eexists. split_and!; reflexivity. Qed.

(** ** Witnesses *)

Section witnesses.
Let x10 := MkLock 10 5 (LOCKFLAG_EXCLUSIVE_LOCK .| LOCKFLAG_FAIL_IMMEDIATELY).
Let s10 := MkLock 10 5 (LOCKFLAG_SHARED_LOCK .| LOCKFLAG_FAIL_IMMEDIATELY).
Let wait10 := MkLock 12 1 LOCKFLAG_EXCLUSIVE_LOCK.
Let fs0 := LockTable [] None no_chans.

Lemma reach2 ls1 ls2 fs1 fs2 op1 op2 :
  lockRanges op1 ls1 fs0 = Ok (STATUS_OK, false, fs1) ->
  lockRanges op2 ls2 fs1 = Ok (STATUS_OK, false, fs2) ->
  reachable lock_init lock_step (LockSys fs2 ∅).
Proof.
  intros H1 H2. eapply reach_step; [|by eapply step_lock].
  eapply reach_step; [by apply reach_init|by eapply step_lock].
Qed.

Lemma locks_mutual_exclusion_witness :
  held_exclusive (grant 1%nat s10) = false /\ held_exclusive (grant 2%nat s10) = false.
Proof.
  apply (locks_mutual_exclusion
           (LockSys (LockTable [grant 1%nat s10; grant 2%nat s10] None no_chans) ∅) 0 1);
    [|done|reflexivity|reflexivity|split; vm_compute; by split|split; vm_compute; by split| |done].
  2: { left. exists 12. unfold lies, maxU64. simpl. lia. }
  eapply (reach2 [s10] [s10] (LockTable [grant 1%nat s10] None no_chans)); reflexivity.
Defined.

Lemma locks_no_lost_wakeup_witness :
  lockConflict [grant 1%nat x10] 2%nat (lock_range wait10) (lock_exclusive wait10) = true.
Proof.
  apply (locks_no_lost_wakeup
           (LockSys (LockTable [grant 1%nat x10] (Some 0%nat) (Chans 1 ∅))
              (<[0%nat := Waiter 2 wait10 (WSleep 0)]> (<[0%nat := Waiter 2 wait10 WTry]> ∅)))
           0 2 wait10 0); [|done|simpl; set_solver].
  eapply reach_step.
  2:{ eapply (step_turn 0 2 wait10 SigNone (inr 0%nat)
                (LockTable [grant 1%nat x10] None no_chans)); [done|reflexivity]. }
  eapply reach_step.
  2:{ apply (step_queue 2 wait10 STATUS_OK (LockTable [grant 1%nat x10] None no_chans));
        reflexivity. }
  eapply reach_step; [by apply reach_init|].
  apply (step_lock 1 [x10] STATUS_OK); reflexivity.
Defined.

Lemma locks_never_panic_witness : settled (unlockRanges 1 [x10] fs0).
Proof.
  apply (locks_never_panic (LockSys fs0 ∅) 1 [x10] x10). by apply reach_init.
Defined.

Lemma lockRanges_all_or_nothing_witness :
  (STATUS_LOCK_NOT_GRANTED = STATUS_OK /\ false = false /\
     [grant 1%nat x10] = [grant 1%nat x10] ++ map (grant 2%nat) [s10; x10]) \/
  (STATUS_LOCK_NOT_GRANTED = STATUS_LOCK_NOT_GRANTED /\ false = false /\
     [grant 1%nat x10] = [grant 1%nat x10]) \/
  (STATUS_LOCK_NOT_GRANTED = STATUS_OK /\ false = true /\ [grant 1%nat x10] = [grant 1%nat x10] /\
     exists l, [s10; x10] = [l] /\
       lockConflict [grant 1%nat x10] 2%nat (lock_range l) (lock_exclusive l) = true) \/
  (STATUS_LOCK_NOT_GRANTED = STATUS_INVALID_PARAMETER /\ false = false /\
     exists k, [grant 1%nat x10] = [grant 1%nat x10] ++ map (grant 2%nat) (take k [s10; x10])).
Proof.
  apply (lockRanges_all_or_nothing 2 [s10; x10] (LockTable [grant 1%nat x10] None no_chans)
           STATUS_LOCK_NOT_GRANTED false (LockTable [grant 1%nat x10] None no_chans)).
  reflexivity.
Defined.

Lemma lock_unlock_roundtrip_witness :
  exists fs2, unlockRanges 1 [MkLock 10 5 LOCKFLAG_UNLOCK]
                (LockTable [grant 1%nat x10] None no_chans) = Ok (STATUS_OK, fs2) /\
              fs_locks fs2 = [].
Proof.
  apply (lock_unlock_roundtrip 1 x10 (MkLock 10 5 LOCKFLAG_UNLOCK) fs0);
    [reflexivity| |constructor|reflexivity|reflexivity].
  split; [|done]. intros c. simpl. set_solver.
Defined.

Lemma releaseLocks_exact_witness :
  exists fs', releaseLocks 1 (LockTable [grant 1%nat x10; grant 2%nat s10] None no_chans) = Ok fs' /\
              fs_locks fs' = [grant 2%nat s10].
Proof.
  apply (releaseLocks_exact 1 (LockTable [grant 1%nat x10; grant 2%nat s10] None no_chans)).
  split; [|done]. intros c. simpl. set_solver.
Defined.

Lemma smb2_lock_replay_idempotent_witness :
  smb2_lock true 3 7 1 [x10] (<[2%nat := SeqEntry 7 true]> newLockSequence) fs0
  = Ok (Replied STATUS_OK, <[2%nat := SeqEntry 7 true]> newLockSequence, fs0).
Proof.
  apply (smb2_lock_replay_idempotent 3 7 1 [x10] newLockSequence fs0 _
           (LockTable [grant 1%nat x10] None no_chans));
    [unfold lockSequenceEntries; lia|reflexivity].
Defined.

Lemma cancelled_lock_still_remembered_witness :
  smb2_lock true 3 7 1 [wait10] (<[2%nat := SeqEntry 7 true]> newLockSequence) fs0
  = Ok (Replied STATUS_OK, <[2%nat := SeqEntry 7 true]> newLockSequence, fs0).
Proof.
  apply (cancelled_lock_still_remembered 3 7 1 wait10 newLockSequence _
           (LockTable [grant 1%nat wait10] None no_chans));
    [unfold lockSequenceEntries; lia|reflexivity].
Defined.

Lemma overlaps_iff_common_byte_witness :
  overlaps (ByteRange 10 5) (ByteRange 12 1) = true <->
  exists b, covers (ByteRange 10 5) b /\ covers (ByteRange 12 1) b.
Proof.
  apply overlaps_iff_common_byte; unfold range_ok, is_u64, maxU64; simpl; lia.
Defined.
End witnesses.
