(* ===== verification/Header.v ===== *)
(** [smb2/header.go]: the SMB2 header as a view of a byte slice.

    A [Header] is the bytes of the whole message; every field is read and written
    in place, little-endian, at a fixed offset.  A Go slice can be re-sliced up to
    its capacity; here a field has to lie inside the slice, which is the stricter
    reading, so that what is shown never to panic here does not panic there. *)
From S2P Require Import Prelude Bytes Smb2Const.

(** The errors of the package [smb2] that the wire code answers with. *)
Inductive smbErr :=
  | ErrEncryptedMessage | ErrCompressedMessage | ErrWrongLength | ErrWrongFormat | ErrWrongProtocol
  | ErrInvalidParameter | ErrNotSupported | ErrDialectNotSupported | ErrRelatedRequests | ErrMixedRequests | ErrUnalignedRequests
  | ErrDecompression.
#[export] Instance smbErr_eq_dec : EqDecision smbErr.
Proof. solve_decision. Defined.

Module Header.
Abbreviation out := (outcome smbErr).
Abbreviation header := (list Z).

(** ** Fields of the SMB2 header *)
Definition ProtocolID (h : header) : out Z := get_le h 0 4.
Definition SetProtocolID (id : Z) (h : header) : out header := put_le h 0 4 id.
Definition structure (h : header) : out Z := get_le h 4 2.
Definition LegacyCommand (h : header) : out Z := index h 4.
Definition CreditCharge (h : header) : out Z := get_le h 6 2.
Definition SetCreditCharge (cc : Z) (h : header) : out header := put_le h 6 2 cc.
Definition Status (h : header) : out Z := get_le h 8 4.
Definition SetStatus (status : Z) (h : header) : out header := put_le h 8 4 status.
Definition ChannelSequence (h : header) : out Z := get_le h 8 2.
Definition Command (h : header) : out Z := get_le h 12 2.
Definition SetCommand (command : Z) (h : header) : out header := put_le h 12 2 command.
Definition CreditRequest (h : header) : out Z := get_le h 14 2.
Definition SetCreditResponse (cr : Z) (h : header) : out header := put_le h 14 2 cr.
Definition Flags (h : header) : out Z := get_le h 16 4.
Definition SetFlags (flags : Z) (h : header) : out header := put_le h 16 4 flags.
Definition NextCommand (h : header) : out Z := get_le h 20 4.
Definition SetNextCommand (nc : Z) (h : header) : out header := put_le h 20 4 nc.
Definition MessageID (h : header) : out Z := get_le h 24 8.
Definition SetMessageID (mid : Z) (h : header) : out header := put_le h 24 8 mid.
Definition AsyncID (h : header) : out Z := get_le h 32 8.
Definition SetAsyncID (aid : Z) (h : header) : out header := put_le h 32 8 aid.
Definition TreeID (h : header) : out Z := get_le h 36 4.
Definition SetTreeID (tid : Z) (h : header) : out header := put_le h 36 4 tid.
Definition SessionID (h : header) : out Z := get_le h 40 8.
Definition SetSessionID (sid : Z) (h : header) : out header := put_le h 40 8 sid.

(** ** Fields of the SMB2 TRANSFORM_HEADER *)
Definition OriginalMessageSize (h : header) : out Z := get_le h 36 4.
Definition SetOriginalMessageSize (size : Z) (h : header) : out header := put_le h 36 4 size.
Definition EncryptionFlags (h : header) : out Z := get_le h 42 2.
Definition SetEncryptionFlags (flags : Z) (h : header) : out header := put_le h 42 2 flags.
Definition TransformSessionID (h : header) : out Z := get_le h 44 8.
Definition SetTransformSessionID (sid : Z) (h : header) : out header := put_le h 44 8 sid.

(** ** Fields of the SMB2_COMPRESSION_TRANSFORM_HEADER *)
Definition OriginalCompressedSegmentSize (h : header) : out Z := get_le h 4 4.
Definition SetOriginalCompressedSegmentSize (size : Z) (h : header) : out header := put_le h 4 4 size.
Definition CompressionAlgorithm (h : header) : out Z := get_le h 8 2.
Definition SetCompressionAlgorithm (algo : Z) (h : header) : out header := put_le h 8 2 algo.
Definition CompressionFlags (h : header) : out Z := get_le h 10 2.
Definition SetCompressionFlags (flags : Z) (h : header) : out header := put_le h 10 2 flags.
Definition Offset (h : header) : out Z := get_le h 12 4.
Definition SetOffset (off : Z) (h : header) : out header := put_le h 12 4 off.

(** ** The sixteen-byte fields *)

(** [copy(h[i:j], b)]: as many bytes as both sides have. *)
Definition copy_at (h : header) (i j : Z) (b : list Z) : out header :=
  _ ← slice h i j;
  let n := Z.min (j - i) (zlen b) in
  splice h i (take (Z.to_nat n) b).

Definition Signature (h : header) : out (list Z) := slice h 48 64.
Definition SetSignature (signature : list Z) (h : header) : out header := copy_at h 48 64 signature.
Definition WipeSignature (h : header) : out header := SetSignature (replicate 16 0) h.
Definition EncryptionSignature (h : header) : out (list Z) := slice h 4 20.
Definition SetEncryptionSignature (signature : list Z) (h : header) : out header := copy_at h 4 20 signature.
Definition WipeEncryptionSignature (h : header) : out header := SetEncryptionSignature (replicate 16 0) h.
Definition Nonce (h : header) : out (list Z) := slice h 20 36.
(** The nonce is first copied into sixteen zero bytes: a shorter one is padded. *)
Definition SetNonce (nonce : list Z) (h : header) : out header :=
  let n := take 16 nonce ++ replicate (16 - length nonce) 0 in copy_at h 20 36 n.
Definition AssociatedData (h : header) : out (list Z) := slice h 20 52.

(** ** Flags *)
Definition IsFlagSet (flag : Z) (h : header) : out bool :=
  f ← Flags h; mret (f .& flag >? 0).
Definition SetFlag (flag : Z) (h : header) : out header :=
  f ← Flags h; SetFlags (f .| flag) h.
Definition ClearFlag (flag : Z) (h : header) : out header :=
  f ← Flags h; SetFlags (f &^ flag) h.

(** ** The header as a whole *)
Definition NewHeader (data : list Z) : out header :=
  data ← put_le data 0 4 PROTOCOL_SMB2; put_le data 4 2 SMB2HeaderStructureSize.

Definition CopyFrom (src h : header) : out header :=
  s ← slice src 0 SMB2HeaderSize; copy_at h 0 SMB2HeaderSize s.

Definition IsSmb (h : header) : out bool := id ← ProtocolID h; mret (id =? PROTOCOL_SMB).
Definition IsSmb2 (h : header) : out bool :=
  id ← ProtocolID h;
  mret ((id =? PROTOCOL_SMB2) || (id =? PROTOCOL_SMB2_ENCRYPTED) || (id =? PROTOCOL_SMB2_COMPRESSED)).

Definition Validate (h : header) : out unit :=
  if zlen h <? 4 then Err ErrWrongLength
  else
    smb ← IsSmb h;
    if (smb : bool) then
      if zlen h <? SMBHeaderSize then Err ErrWrongLength
      else
        cmd ← LegacyCommand h;
        if negb (cmd =? SMB_COM_NEGOTIATE) then Err ErrWrongProtocol else mret tt
    else
      smb2 ← IsSmb2 h;
      if (smb2 : bool) then
        if zlen h <? SMB2HeaderSize then Err ErrWrongLength
        else
          id ← ProtocolID h;
          if id =? PROTOCOL_SMB2_ENCRYPTED then Err ErrEncryptedMessage
          else if id =? PROTOCOL_SMB2_COMPRESSED then Err ErrCompressedMessage
          else
            st ← structure h;
            if negb (st =? SMB2HeaderStructureSize) then Err ErrWrongFormat else mret tt
      else Err ErrWrongProtocol.

(** ** The payload header of a chained message *)
Definition PayloadAlgorithm (ph : list Z) : out Z := get_le ph 0 2.
Definition SetPayloadAlgorithm (algo : Z) (ph : list Z) : out (list Z) := put_le ph 0 2 algo.
Definition PayloadFlags (ph : list Z) : out Z := get_le ph 2 2.
Definition SetPayloadFlags (flags : Z) (ph : list Z) : out (list Z) := put_le ph 2 2 flags.
Definition PayloadLength (ph : list Z) : out Z := get_le ph 4 4.
Definition SetPayloadLength (n : Z) (ph : list Z) : out (list Z) := put_le ph 4 4 n.

Record PatternV1 := MkPatternV1 { Pattern : Z; Repetitions : Z }.
Definition MarshalPattern (p : PatternV1) : out (list Z) :=
  b ← store (replicate 8 0) 0 (Pattern p); put_le b 4 4 (Repetitions p).
Definition UnmarshalPattern (b : list Z) : out PatternV1 :=
  if zlen b <? 8 then Err ErrWrongLength
  else p ← index b 0; r ← get_le b 4 4; mret (MkPatternV1 p r).
(** ** The fields do not get in each other's way *)
Inductive field :=
  | FProtocolID | FCreditCharge | FStatus | FCommand | FCredit | FFlags | FNextCommand | FMessageID
  | FAsyncID | FTreeID | FSessionID | FOriginalMessageSize | FEncryptionFlags | FTransformSessionID
  | FSegmentSize | FAlgorithm | FCompressionFlags | FOffset.
(** Where a field lies and how wide it is, by the layouts of the three headers. *)
Definition off (f : field) : Z :=
  match f with
  | FProtocolID => 0 | FCreditCharge => 6 | FStatus => 8 | FCommand => 12 | FCredit => 14 | FFlags
  => 16 | FNextCommand => 20 | FMessageID => 24 | FAsyncID => 32 | FTreeID => 36 | FSessionID => 40
  | FOriginalMessageSize => 36 | FEncryptionFlags => 42 | FTransformSessionID => 44 | FSegmentSize
  => 4 | FAlgorithm => 8 | FCompressionFlags => 10 | FOffset => 12
  end.
Definition wid (f : field) : Z :=
  match f with
  | FProtocolID => 4 | FCreditCharge => 2 | FStatus => 4 | FCommand => 2 | FCredit => 2 | FFlags =>
  4 | FNextCommand => 4 | FMessageID => 8 | FAsyncID => 8 | FTreeID => 4 | FSessionID => 8 |
  FOriginalMessageSize => 4 | FEncryptionFlags => 2 | FTransformSessionID => 8 | FSegmentSize => 4 |
  FAlgorithm => 2 | FCompressionFlags => 2 | FOffset => 4
  end.
Definition getField (f : field) : header -> out Z :=
  match f with
  | FProtocolID => ProtocolID | FCreditCharge => CreditCharge | FStatus => Status | FCommand =>
  Command | FCredit => CreditRequest | FFlags => Flags | FNextCommand => NextCommand | FMessageID =>
  MessageID | FAsyncID => AsyncID | FTreeID => TreeID | FSessionID => SessionID |
  FOriginalMessageSize => OriginalMessageSize | FEncryptionFlags => EncryptionFlags |
  FTransformSessionID => TransformSessionID | FSegmentSize => OriginalCompressedSegmentSize |
  FAlgorithm => CompressionAlgorithm | FCompressionFlags => CompressionFlags | FOffset => Offset
  end.
Definition setField (f : field) : Z -> header -> out header :=
  match f with
  | FProtocolID => SetProtocolID | FCreditCharge => SetCreditCharge | FStatus => SetStatus |
  FCommand => SetCommand | FCredit => SetCreditResponse | FFlags => SetFlags | FNextCommand =>
  SetNextCommand | FMessageID => SetMessageID | FAsyncID => SetAsyncID | FTreeID => SetTreeID |
  FSessionID => SetSessionID | FOriginalMessageSize => SetOriginalMessageSize | FEncryptionFlags =>
  SetEncryptionFlags | FTransformSessionID => SetTransformSessionID | FSegmentSize =>
  SetOriginalCompressedSegmentSize | FAlgorithm => SetCompressionAlgorithm | FCompressionFlags =>
  SetCompressionFlags | FOffset => SetOffset
  end.

Lemma getField_le f h : getField f h = get_le h (off f) (wid f).
Proof. by destruct f. Qed.
Lemma setField_le f v h : setField f v h = put_le h (off f) (wid f) v.
Proof. by destruct f. Qed.
Lemma field_place f : 0 <= off f /\ 2 <= wid f <= 8 /\ off f + wid f <= 52.
Proof. destruct f; simpl; lia. Qed.

Definition apart (f g : field) : Prop := off f + wid f <= off g \/ off g + wid g <= off f.

(** The fields of the header of a synchronous message. *)
Definition syncFields : list field :=
  [FProtocolID; FCreditCharge; FStatus; FCommand; FCredit; FFlags; FNextCommand; FMessageID; FTreeID; FSessionID].
Lemma syncFields_apart : forall i j f g, syncFields !! i = Some f -> syncFields !! j = Some g -> i <> j -> apart f g.
Proof.
  intros i j f g Hi Hj Hne.
  do 10 (destruct i as [|i]; [simpl in Hi; injection Hi as <-;
    do 10 (destruct j as [|j]; [simpl in Hj; injection Hj as <-; (done || (left; done) || (right; done))|]); done|]); done.
Qed.

Lemma field_write f v h : off f + wid f <= zlen h ->
  exists h', setField f v h = Ok h' /\ zlen h' = zlen h /\ getField f h' = Ok (v mod 2 ^ (8 * wid f)) /\
    (forall g, apart f g -> getField g h' = getField g h).
Proof.
  intros Hl. pose proof (field_place f). rewrite setField_le.
  destruct (@put_le_Ok smbErr h (off f) (wid f) v) as [h' Hp]; [lia..|]. exists h'.
  split_and!; [done|by eapply zlen_put_le|rewrite getField_le; by eapply get_put_same|].
  intros g Hg. pose proof (field_place g). rewrite !getField_le. eapply get_put_other; [done|lia|lia|]. unfold apart in Hg. lia.
Qed.

(** The header accessors are faithful.  Any field of the SMB2 header, of the
    transform header or of the compression header can be written in a message that
    reaches its end; reading it back gives the value, cut to the field's width; and
    every field that does not share bytes with it, the length of the message and, among
    the fields of a synchronous header, all the others, are as they were. *)
Theorem header_fields (f : field) (v : Z) (h : header) :
  off f + wid f <= zlen h ->
  exists h', setField f v h = Ok h' /\ zlen h' = zlen h /\
    getField f h' = Ok (v mod 2 ^ (8 * wid f)) /\
    (forall g, apart f g -> getField g h' = getField g h) /\
    (forall i j g, syncFields !! i = Some f -> syncFields !! j = Some g -> i <> j -> getField g h' = getField g h).
Proof.
  intros Hl. destruct (field_write f v h Hl) as (h' & H1 & H2 & H3 & H4). exists h'. split_and!; try done.
  intros i j g Hi Hj Hne. apply H4. by eapply syncFields_apart.
Qed.

(** ** Flags *)
Lemma Flags_bound h f : bytes h -> Flags h = Ok f -> 0 <= f < 2 ^ 32.
Proof.
  intros Hb. unfold Flags, get_le. destruct (slice h 16 (16 + 4)) as [s| | |] eqn:Hs; try done. simpl. intros [= <-].
  unfold slice in Hs. destruct (_ && _) eqn:Hc; [|done]. injection Hs as <-.
  apply andb_prop in Hc as [_ Hc%Z.leb_le].
  change 32 with (8 * 4). replace 4 with (zlen (take (Z.to_nat (16 + 4 - 16)) (drop (Z.to_nat 16) h))) at 3.
  - apply le_dec_bound. by apply Forall_take, Forall_drop.
  - unfold zlen in *. rewrite length_take, length_drop. lia.
Qed.

Lemma lor_u32 a b : 0 <= a < 2 ^ 32 -> 0 <= b < 2 ^ 32 -> 0 <= a .| b < 2 ^ 32.
Proof.
  intros Ha Hb. rewrite <- (Z.mod_small a (2 ^ 32)), <- (Z.mod_small b (2 ^ 32)), <- !Z.land_ones by lia.
  rewrite <- Z.land_lor_distr_l, Z.land_ones by lia. by apply Z.mod_pos_bound.
Qed.
Lemma ldiff_u32 a b : 0 <= a < 2 ^ 32 -> 0 <= a &^ b < 2 ^ 32.
Proof.
  intros Ha. assert (a &^ b = (a &^ b) .& Z.ones 32) as ->.
  { rewrite <- (Z.mod_small a (2 ^ 32)), <- Z.land_ones by lia.
    apply Z.bits_inj'. intros i Hi. rewrite !Z.land_spec, !Z.ldiff_spec, !Z.land_spec.
    by destruct (Z.testbit a i), (Z.testbit (Z.ones 32) i), (Z.testbit b i). }
  rewrite Z.land_ones by lia. by apply Z.mod_pos_bound.
Qed.

Lemma SetFlags_write v h : 20 <= zlen h -> 0 <= v < 2 ^ 32 ->
  exists h', SetFlags v h = Ok h' /\ zlen h' = zlen h /\ Flags h' = Ok v /\
    (forall g, apart FFlags g -> getField g h' = getField g h).
Proof.
  intros Hl Hv. destruct (field_write FFlags v h) as (h' & H1 & H2 & H3 & H4); [simpl; lia|]. exists h'.
  simpl in H3. change (8 * 4) with 32 in H3. rewrite Z.mod_small in H3 by done. done.
Qed.
Lemma SetFlag_write flag h : bytes h -> 20 <= zlen h -> 0 < flag < 2 ^ 32 ->
  exists f h', Flags h = Ok f /\ SetFlag flag h = Ok h' /\ zlen h' = zlen h /\ Flags h' = Ok (f .| flag) /\
    IsFlagSet flag h' = Ok true /\ (forall g, apart FFlags g -> getField g h' = getField g h).
Proof.
  intros Hb Hl Hf. unfold SetFlag, IsFlagSet.
  assert (exists f, Flags h = Ok f) as (f & HF) by (unfold Flags; rewrite get_le_Ok by lia; eauto).
  pose proof (Flags_bound h f Hb HF) as Hfb. rewrite HF. simpl.
  destruct (SetFlags_write (f .| flag) h Hl) as (h' & H1 & H2 & H3 & H4); [apply lor_u32; lia|].
  exists f, h'. rewrite H3. split_and!; try done. simpl. unfold mret, outcome_ret. f_equal. apply Z.gtb_lt.
  assert ((f .| flag) .& flag = flag) as ->; [|lia].
  apply Z.bits_inj'. intros i Hi. rewrite Z.land_spec, Z.lor_spec. by destruct (Z.testbit f i), (Z.testbit flag i).
Qed.
Lemma ClearFlag_write flag h : bytes h -> 20 <= zlen h ->
  exists f h', Flags h = Ok f /\ ClearFlag flag h = Ok h' /\ zlen h' = zlen h /\ Flags h' = Ok (f &^ flag) /\
    IsFlagSet flag h' = Ok false /\ (forall g, apart FFlags g -> getField g h' = getField g h).
Proof.
  intros Hb Hl. unfold ClearFlag, IsFlagSet.
  assert (exists f, Flags h = Ok f) as (f & HF) by (unfold Flags; rewrite get_le_Ok by lia; eauto).
  pose proof (Flags_bound h f Hb HF) as Hfb. rewrite HF. simpl.
  destruct (SetFlags_write (f &^ flag) h Hl) as (h' & H1 & H2 & H3 & H4); [apply ldiff_u32; lia|].
  exists f, h'. rewrite H3. split_and!; try done. simpl.
  assert ((f &^ flag) .& flag = 0) as ->; [|done].
  apply Z.bits_inj'. intros i Hi. rewrite Z.land_spec, Z.ldiff_spec, Z.bits_0. by destruct (Z.testbit f i), (Z.testbit flag i).
Qed.

(** Raising and lowering a flag touches that flag alone.  On a header, [SetFlag] and
    [ClearFlag] leave every bit of the flags word outside the mask, and every field
    outside the flags word, as they were, and [IsFlagSet] then tells what was done. *)
Theorem header_flags (h : header) (flag : Z) :
  bytes h -> 20 <= zlen h -> 0 < flag < 2 ^ 32 ->
  exists f hs hc, Flags h = Ok f /\ SetFlag flag h = Ok hs /\ ClearFlag flag h = Ok hc /\
    Flags hs = Ok (f .| flag) /\ Flags hc = Ok (f &^ flag) /\
    IsFlagSet flag hs = Ok true /\ IsFlagSet flag hc = Ok false /\
    (forall g, apart FFlags g -> getField g hs = getField g h /\ getField g hc = getField g h).
Proof.
  intros Hb Hl Hf. destruct (SetFlag_write flag h Hb Hl Hf) as (f & hs & HF & S1 & _ & S2 & S3 & S4).
  destruct (ClearFlag_write flag h Hb Hl) as (f' & hc & HF' & C1 & _ & C2 & C3 & C4).
  rewrite HF in HF'. injection HF' as <-. exists f, hs, hc. split_and!; try done.
  intros g Hg. split; [by apply S4|by apply C4].
Qed.

(** ** Validation *)
Lemma Validate_settled h : settled (Validate h).
Proof.
  unfold Validate. destruct (Z.ltb_spec (zlen h) 4); [done|].
  unfold IsSmb, IsSmb2, ProtocolID. rewrite !get_le_Ok by lia. simpl. set (id := le_dec _).
  destruct (id =? PROTOCOL_SMB).
  - unfold SMBHeaderSize, LegacyCommand. destruct (Z.ltb_spec (zlen h) 32); [done|].
    destruct (@index_in_range _ smbErr h 4) as (c & -> & _); [lia|]. simpl. by destruct (negb _).
  - destruct (_ || _ || _); simpl; [|done]. unfold SMB2HeaderSize. destruct (Z.ltb_spec (zlen h) 64); [done|].
    destruct (id =? _); [done|]. destruct (id =? _); [done|]. unfold structure. rewrite get_le_Ok by lia. simpl.
    by destruct (negb _).
Qed.

(** What [Validate] lets through: exactly an SMB message of at least 32 bytes that is
    a negotiate, or an SMB2 message of at least 64 bytes whose structure size is 64.
    On anything else, however short, it answers with an error and does not panic. *)
Theorem Validate_spec (h : header) :
  settled (Validate h) /\
  (Validate h = Ok tt <->
     (32 <= zlen h /\ ProtocolID h = Ok PROTOCOL_SMB /\ LegacyCommand h = Ok SMB_COM_NEGOTIATE) \/
     (64 <= zlen h /\ ProtocolID h = Ok PROTOCOL_SMB2 /\ structure h = Ok SMB2HeaderStructureSize)).
Proof.
  unfold Validate. destruct (Z.ltb_spec (zlen h) 4); [split; [done|split; [done|lia]]|].
  unfold IsSmb, IsSmb2. assert (exists id, ProtocolID h = Ok id) as (id & Hid).
  { unfold ProtocolID. rewrite get_le_Ok by lia. eauto. }
  rewrite !Hid. simpl. destruct (Z.eqb_spec id PROTOCOL_SMB) as [->|Hsmb].
  - unfold SMBHeaderSize. destruct (Z.ltb_spec (zlen h) 32).
    { split; [done|]. split; [done|]. intros [(? & _)|(_ & [=] & _)]; lia. }
    unfold LegacyCommand. destruct (@index_in_range _ smbErr h 4) as (c & -> & _); [lia|]. simpl.
    destruct (Z.eqb_spec c SMB_COM_NEGOTIATE) as [->|]; simpl; (split; [done|]); split; try done.
    + intros _. left. done.
    + intros [(_ & _ & [= ->])|(_ & [=] & _)]. done.
  - destruct (Z.eqb_spec id PROTOCOL_SMB2) as [->|H2]; simpl.
    + unfold SMB2HeaderSize. destruct (Z.ltb_spec (zlen h) 64).
      { split; [done|]. split; [done|]. intros [(_ & [=] & _)|(? & _)]; lia. }
      unfold structure. rewrite get_le_Ok by lia. simpl. set (st := le_dec _).
      destruct (Z.eqb_spec st SMB2HeaderStructureSize) as [->|]; simpl; (split; [done|]); split; try done.
      * intros _. right. done.
      * intros [(_ & [=] & _)|(_ & _ & [=])]. done.
    + assert (forall P Q R S : Prop, (P /\ Ok (E := smbErr) id = Ok PROTOCOL_SMB /\ Q) \/ (R /\ Ok (E := smbErr) id = Ok PROTOCOL_SMB2 /\ S) -> False) as Hno.
      { intros ? ? ? ? [(_ & [=] & _)|(_ & [=] & _)]; done. }
      destruct (id =? PROTOCOL_SMB2_ENCRYPTED), (id =? PROTOCOL_SMB2_COMPRESSED); simpl;
        try (destruct (zlen h <? SMB2HeaderSize); simpl); (split; [done|]); split; try done; by intros ?%Hno.
Qed.

(** ** The pattern payload *)

(** A pattern payload says what it was made from: marshalling a run and unmarshalling
    the eight bytes gives the run back, for every byte and every 32-bit count, also when
    more bytes follow. *)
Theorem PatternV1_roundtrip (p : PatternV1) (rest : list Z) :
  is_u8 (Pattern p) -> is_u32 (Repetitions p) ->
  exists b, MarshalPattern p = Ok b /\ zlen b = 8 /\ UnmarshalPattern (b ++ rest) = Ok p.
Proof.
  intros Hp Hr. unfold MarshalPattern. rewrite store_ok by done. simpl.
  eexists. split; [reflexivity|]. split; [done|]. unfold UnmarshalPattern.
  rewrite zlen_app. pose proof (zlen_nonneg rest). change (zlen _) with 8 at 1.
  destruct (Z.ltb_spec (8 + zlen rest) 8); [lia|]. simpl. rewrite get_le_Ok by (rewrite ?zlen_cons; lia).
  simpl. unfold mret, outcome_ret. f_equal. destruct p as [b r]. simpl. f_equal.
  exact (le_dec_enc_small 4 r Hr).
Qed.

(** ** Witnesses *)
Lemma header_fields_witness :
  exists h', SetStatus 0xc0000022 (replicate 64 0) = Ok h' /\ Status h' = Ok 0xc0000022 /\ MessageID h' = Ok 0.
Proof.
  destruct (header_fields FStatus 0xc0000022 (replicate 64 0)) as (h' & H1 & _ & H2 & H3 & _); [vm_compute; discriminate|].
  exists h'. split; [exact H1|]. split; [exact H2|].
  transitivity (getField FMessageID (replicate 64 0)); [apply (H3 FMessageID); left; vm_compute; discriminate|reflexivity].
Defined.

Lemma header_flags_witness :
  exists h', SetFlag FLAGS_SERVER_TO_REDIR (replicate 64 0) = Ok h' /\ IsFlagSet FLAGS_SERVER_TO_REDIR h' = Ok true.
Proof.
  destruct (header_flags (replicate 64 0) FLAGS_SERVER_TO_REDIR) as (f & hs & hc & _ & H1 & _ & _ & _ & H2 & _).
  - apply (bool_decide_unpack _). vm_compute. exact I.
  - vm_compute. discriminate.
  - vm_compute. split; reflexivity.
  - exists hs. split; [exact H1|exact H2].
Defined.

Lemma PatternV1_roundtrip_witness :
  exists b, MarshalPattern (MkPatternV1 7 70000) = Ok b /\ UnmarshalPattern b = Ok (MkPatternV1 7 70000).
Proof.
  destruct (PatternV1_roundtrip (MkPatternV1 7 70000) []) as (b & H1 & _ & H2).
  - split; vm_compute; [discriminate|reflexivity].
  - split; vm_compute; [discriminate|reflexivity].
  - exists b. split; [exact H1|]. rewrite app_nil_r in H2. exact H2.
Defined.
End Header.
