(* ===== verification/Request.v ===== *)
(** [smb2/request.go], with the lock request of [smb2/lock.go]: how a message is
    taken apart into the requests chained in it, and how responses are put
    together into one.

    The random numbers of [frand] are arguments: [rnd k] is the cancel ID drawn for
    request [k] of a message, [gid] the group ID.  A request's [data] is a part of
    the message, by value.  Fuel: a turn of the parsing loop moves at least eight
    bytes on. *)
From S2P Require Import Prelude Bytes Smb2Const Locks Header.
Import Header.

Module Request.

(** ** Requests *)
Record request := Request {
  cancelRequestID : Z; groupID : Z; data : list Z; openID : list Z;
  isEncrypted : bool; transformSessionID : Z; compressReply : bool;
}.

Definition with_data (d : list Z) (r : request) : request :=
  Request (cancelRequestID r) (groupID r) d (openID r) (isEncrypted r) (transformSessionID r) (compressReply r).
Definition with_group (g : Z) (r : request) : request :=
  Request (cancelRequestID r) g (data r) (openID r) (isEncrypted r) (transformSessionID r) (compressReply r).

(** [req.openID = make([]byte, 16); copy(req.openID, id)]. *)
Definition openIDOf (id : list Z) : list Z := take 16 id ++ replicate (16 - length id) 0.
Definition SetOpenID (id : list Z) (r : request) : request :=
  Request (cancelRequestID r) (groupID r) (data r) (openIDOf id) (isEncrypted r) (transformSessionID r) (compressReply r).

Definition structureSize (d : list Z) : out Z :=
  smb ← IsSmb d;
  if (smb : bool) then mret 0 else get_le d SMB2HeaderSize 2.

Definition fits (off length size : Z) : bool := u64 (off + length) <=? size.

Definition newRequest (cid : Z) (d : list Z) (tsid : Z) (compressed : bool) : request :=
  Request cid 0 d [] (negb (tsid =? 0)) tsid compressed.

(** The body of the parsing loop: [next] and [off] are 32-bit words of the wire. *)
Fixpoint GetRequests_loop (fuel : nat) (rnd : nat -> Z) (msg : list Z) (tsid : Z) (compressed : bool)
    (req : request) (next off : Z) (related : bool) (reqs : list request) : out (list request * bool) :=
  match fuel with
  | O => Stuck
  | S fuel =>
      if next .& 7 >? 0 then Err ErrUnalignedRequests else
      flag ← IsFlagSet FLAGS_RELATED_OPERATIONS (data req);
      if (off =? 0) && flag then Err ErrRelatedRequests else
      if (1 <? zlen reqs) && ((negb related && flag) || (related && negb flag)) then Err ErrMixedRequests else
      let related := related || flag in
      req ← (if 0 <? next then
               if off + next >? zlen msg then Err ErrWrongLength
               else part ← slice msg off (u32 (off + next)); mret (with_data part req)
             else mret req);
      let reqs := reqs ++ [req] in
      if next =? 0 then mret (reqs, related)
      else
        let off := u32 (off + next) in
        rest ← slice msg off (zlen msg);
        let req := newRequest (rnd (length reqs)) rest tsid compressed in
        _ ← Validate (data req);
        next ← NextCommand (data req);
        GetRequests_loop fuel rnd msg tsid compressed req next off related reqs
  end.

Definition GetRequests (rnd : nat -> Z) (gid : Z) (msg : list Z) (tsid : Z) (compressed : bool) : out (list request) :=
  let req := newRequest (rnd 0%nat) msg tsid compressed in
  _ ← Validate (data req);
  next ← NextCommand (data req);
  if next =? 0 then mret [req]
  else
    r ← GetRequests_loop (S (length msg)) rnd msg tsid compressed req next 0 false [];
    let '(reqs, related) := r in
    mret (if (related : bool) then map (with_group gid) reqs else reqs).

(** ** Responses *)
Record response := Response {
  r_data : list Z; r_groupID : Z; r_sessionID : Z; r_treeID : Z; r_openID : list Z;
  r_shouldEncrypt : bool; r_mayCompress : bool;
}.
Definition noResponse : response := Response [] 0 0 0 [] false false.

Definition FromRequest (req : request) (resp : response) : out response :=
  h ← CopyFrom (data req) (replicate (Z.to_nat SMB2HeaderSize) 0);
  h ← SetStatus STATUS_OK h;
  h ← SetFlag FLAGS_SERVER_TO_REDIR h;
  h ← (if groupID req =? 0 then ClearFlag FLAGS_RELATED_OPERATIONS h else mret h);
  mret (Response h (groupID req) (r_sessionID resp) (r_treeID resp) (r_openID resp)
          (isEncrypted req) (compressReply req)).

Definition Roundup (x bound : Z) : Z := (x + (bound - 1)) &^ (bound - 1).

(** The walk to the last response of the chain. *)
Fixpoint lastResponse (fuel : nat) (d : list Z) (off : Z) : out Z :=
  match fuel with
  | O => Stuck
  | S fuel =>
      next ← get_le d (u32 (off + 20)) 4;
      if next =? 0 then mret off else lastResponse fuel d (u32 (off + next))
  end.

(** [Append]: the data of both responses, since the flag is raised in the new one. *)
Definition Append (d new : list Z) : out (list Z * list Z) :=
  off ← lastResponse (S (length d)) d 0;
  let newLen := Roundup (zlen d) 8 in
  let d := if newLen >? zlen d then d ++ replicate (Z.to_nat (newLen - zlen d)) 0 else d in
  d ← put_le d (u32 (off + 20)) 4 (u32 (u32 newLen - off));
  new ← SetFlag FLAGS_RELATED_OPERATIONS new;
  mret (d ++ new, new).

(** ** Cancel, echo and lock *)
Definition validateSized (minSize structSize : Z) (d : list Z) : out unit :=
  _ ← Validate d;
  if zlen d <? SMB2HeaderSize + minSize then Err ErrWrongLength
  else
    st ← structureSize d;
    if negb (st =? structSize) then Err ErrWrongFormat else mret tt.

Definition ValidateCancel (d : list Z) : out unit :=
  validateSized SMB2CancelRequestMinSize SMB2CancelRequestStructureSize d.
Definition ValidateEcho (d : list Z) : out unit :=
  validateSized SMB2EchoRequestMinSize SMB2EchoRequestStructureSize d.

(** The empty body both the echo and the lock response carry. *)
Definition emptyBody (structSize minSize : Z) (req : request) (resp : response) : out response :=
  resp ← FromRequest req resp;
  d ← put_le (r_data resp ++ replicate (Z.to_nat minSize) 0) SMB2HeaderSize 2 structSize;
  d ← SetNextCommand 0 d;
  d ← SetStatus STATUS_OK d;
  async ← IsFlagSet FLAGS_ASYNC_COMMAND d;
  d ← (if (async : bool) then SetCreditResponse 0 d else mret d);
  mret (Response d (r_groupID resp) (r_sessionID resp) (r_treeID resp) (r_openID resp)
          (r_shouldEncrypt resp) (r_mayCompress resp)).
Definition EchoFromRequest : request -> response -> out response :=
  emptyBody SMB2EchoResponseStructureSize SMB2EchoResponseMinSize.
Definition LockFromRequest : request -> response -> out response :=
  emptyBody SMB2LockResponseStructureSize SMB2LockResponseMinSize.

Definition ValidateLock (supportsMultiCredit : bool) (d : list Z) : out unit :=
  _ ← validateSized SMB2LockRequestMinSize SMB2LockRequestStructureSize d;
  lockCount ← get_le d (SMB2HeaderSize + 2) 2;
  if lockCount =? 0 then Err ErrInvalidParameter
  else if negb (zlen d =? SMB2HeaderSize + SMB2LockRequestMinSize + 24 * lockCount) then Err ErrWrongLength
  else if supportsMultiCredit then
    let sps := u32 (zlen d - SMB2HeaderSize - SMB2LockRequestMinSize) in
    cc ← CreditCharge d;
    if cc =? 0 then (if sps >? 65536 then Err ErrInvalidParameter else mret tt)
    else if cc <? u16 (u16 (u32 (sps - 1) / 65536) + 1) then Err ErrInvalidParameter
    else mret tt
  else mret tt.

Definition LockSequenceNumber (d : list Z) : out Z :=
  b ← index d (SMB2HeaderSize + 4); mret (b .& 0x0f).
Definition LockSequenceIndex (d : list Z) : out Z :=
  w ← get_le d (SMB2HeaderSize + 4) 4; mret (w >> 4).
Definition LockFileID (d : list Z) : out (list Z) := slice d (SMB2HeaderSize + 8) (SMB2HeaderSize + 24).

Fixpoint Locks_loop (n : nat) (d : list Z) (off : Z) : out (list Lock) :=
  match n with
  | O => mret []
  | S n =>
      o ← get_le d off 8; l ← get_le d (off + 8) 8; f ← get_le d (off + 16) 4;
      ls ← Locks_loop n d (off + 24);
      mret (MkLock o l f :: ls)
  end.
Definition LocksOf (d : list Z) : out (list Lock) :=
  lockCount ← get_le d (SMB2HeaderSize + 2) 2;
  Locks_loop (Z.to_nat lockCount) d (SMB2HeaderSize + SMB2LockRequestMinSize).

(** ** What a chain is

    A message is a chain of parts when each part begins with a valid header, says
    in [NextCommand] how long it is, a multiple of eight and at least [m], and the
    last says zero and takes the rest.  Beside each part stands its related flag. *)
Inductive chain (m : Z) : list Z -> list (list Z * bool) -> Prop :=
| chain_last d flag : Validate d = Ok tt -> NextCommand d = Ok 0 ->
    IsFlagSet FLAGS_RELATED_OPERATIONS d = Ok flag -> chain m d [(d, flag)]
| chain_next d n flag parts : Validate d = Ok tt -> NextCommand d = Ok n ->
    IsFlagSet FLAGS_RELATED_OPERATIONS d = Ok flag -> m <= n -> 0 < n -> n .& 7 = 0 -> n <= zlen d ->
    chain m (drop (Z.to_nat n) d) parts ->
    chain m d ((take (Z.to_nat n) d, flag) :: parts).

(** Which flags may stand in a chain: of several requests the first is not related,
    and the others all are or none is. *)
Definition related_ok (flags : list bool) : Prop :=
  match flags with
  | f :: g :: fs => f = false /\ Forall (eq g) fs
  | _ => True
  end.

Lemma chain_concat m d parts : chain m d parts -> concat (map fst parts) = d.
Proof.
  induction 1 as [d|d n flag parts _ _ _ _ _ _ _ _ IH]; simpl; [by rewrite app_nil_r|].
  rewrite IH. apply take_drop.
Qed.
Lemma chain_mono m m' d parts : m' <= m -> chain m d parts -> chain m' d parts.
Proof.
  intros Hm. induction 1 as [d flag H1 H2 H3|d n flag parts H1 H2 H3 H4 H5 H6 H7 _ IH]; [by apply chain_last|].
  eapply chain_next; eauto. lia.
Qed.

(** The loop's own account of the flags, [k] requests in. *)
Fixpoint flags_ok (k : nat) (related : bool) (fs : list bool) : Prop :=
  match fs with
  | [] => True
  | f :: fs => (k = O -> f = false) /\ ((1 < k)%nat -> f = related) /\ flags_ok (S k) (related || f) fs
  end.

Lemma flags_ok_tail k g fs : (1 < k)%nat -> flags_ok k g fs <-> Forall (eq g) fs.
Proof.
  revert k. induction fs as [|f fs IH]; intros k Hk; simpl; [split; [constructor|done]|]. rewrite Forall_cons. split.
  - intros (_ & H1 & H2). specialize (H1 Hk) as ->. rewrite orb_diag in H2. split; [done|]. by apply (IH (S k)); [lia|].
  - intros [-> H]. split_and!; [lia|done|]. rewrite orb_diag. apply IH; [lia|done].
Qed.
Lemma flags_ok_related f g fs : flags_ok 0 false (f :: g :: fs) <-> related_ok (f :: g :: fs).
Proof.
  simpl. split.
  - intros (H1 & _ & _ & _ & H2). rewrite (H1 eq_refl) in H2 |- *. split; [done|]. by apply (flags_ok_tail 2); [lia|].
  - intros [-> H]. split_and!; try done; try lia. simpl. by apply flags_ok_tail; [lia|].
Qed.

(** The requests built for the parts of a chain. *)
Definition build (rnd : nat -> Z) (tsid : Z) (compressed : bool) (k : nat) (parts : list (list Z * bool)) : list request :=
  imap (fun i p => newRequest (rnd (k + i)%nat) p.1 tsid compressed) parts.
Lemma build_cons rnd tsid c k p parts :
  build rnd tsid c k (p :: parts) = newRequest (rnd k) p.1 tsid c :: build rnd tsid c (S k) parts.
Proof.
  unfold build. simpl. rewrite Nat.add_0_r. f_equal. apply imap_ext. intros i x _. simpl. do 2 f_equal. lia.
Qed.
Lemma build_data rnd tsid c k parts : map data (build rnd tsid c k parts) = map fst parts.
Proof. revert k. induction parts as [|p parts IH]; intros k; [done|]. rewrite build_cons. simpl. by rewrite IH. Qed.

(** A valid header holds every field the parser reads. *)
Lemma Validate_len d : Validate d = Ok tt -> 32 <= zlen d.
Proof.
  unfold Validate. destruct (_ <? 4); [done|]. intros H. apply bind_Ok in H as (smb & _ & H). destruct smb.
  - unfold SMBHeaderSize in H. destruct (Z.ltb_spec (zlen d) 32); [done|]. done.
  - apply bind_Ok in H as (smb2 & _ & H). destruct smb2; [|done].
    unfold SMB2HeaderSize in H. destruct (Z.ltb_spec (zlen d) 64); [done|]. lia.
Qed.
Lemma Validate_reads d : Validate d = Ok tt ->
  exists n f, NextCommand d = Ok n /\ IsFlagSet FLAGS_RELATED_OPERATIONS d = Ok f.
Proof.
  intros H%Validate_len. unfold NextCommand, IsFlagSet, Flags. rewrite !get_le_Ok by lia. simpl. eauto.
Qed.

Lemma chain_inv m d parts n flag :
  NextCommand d = Ok n -> IsFlagSet FLAGS_RELATED_OPERATIONS d = Ok flag -> chain m d parts ->
  (n = 0 /\ parts = [(d, flag)]) \/
  (m <= n /\ 0 < n /\ n .& 7 = 0 /\ n <= zlen d /\
   exists parts', parts = (take (Z.to_nat n) d, flag) :: parts' /\ chain m (drop (Z.to_nat n) d) parts').
Proof.
  intros Hn Hf Hc. inversion Hc as [? f ? Hn' Hf'|? n' f parts' ? Hn' Hf']; subst;
    rewrite Hn in Hn'; injection Hn' as ->; rewrite Hf in Hf'; injection Hf' as ->; [by left|].
  right. split_and!; try done. eauto.
Qed.

(** ** Parsing a chain *)
Section parse.
Context (rnd : nat -> Z) (msg : list Z) (tsid : Z) (compressed : bool).
Hypothesis msg_bytes : bytes msg.
Hypothesis msg_short : zlen msg < 2 ^ 32.

Abbreviation at_ off := (drop (Z.to_nat off) msg).

Lemma next_bound off n : NextCommand (at_ off) = Ok n -> 0 <= n < 2 ^ 32.
Proof using msg_bytes.
  unfold NextCommand, get_le. destruct (slice _ 20 (20 + 4)) as [s| | |] eqn:Hs; try done. simpl. intros [= <-].
  unfold slice in Hs. destruct (_ && _) eqn:Hc; [|done]. injection Hs as <-.
  apply andb_prop in Hc as [_ Hc%Z.leb_le].
  assert (bytes (take (Z.to_nat (20 + 4 - 20)) (drop (Z.to_nat 20) (at_ off)))) as Hb
    by (by apply Forall_take, Forall_drop, Forall_drop).
  apply le_dec_bound in Hb. unfold zlen in Hb at 1. rewrite length_take in Hb.
  assert ((Z.to_nat (20 + 4 - 20) `min` length (drop (Z.to_nat 20) (at_ off)))%nat = 4%nat) as He.
  { rewrite length_drop. unfold zlen in Hc. lia. }
  rewrite He in Hb. exact Hb.
Qed.

(** The loop agrees with the relation: what it accepts is a chain, and what it turns
    away is none, or one whose flags are wrong. *)
Definition parsed (off : Z) (related : bool) (reqs : list request) (r : out (list request * bool)) : Prop :=
  match r with
  | Ok (reqs', rel) => exists parts, chain 1 (at_ off) parts /\ flags_ok (length reqs) related (map snd parts) /\
      reqs' = reqs ++ build rnd tsid compressed (length reqs) parts /\ rel = related || existsb id (map snd parts)
  | Err _ => forall parts, chain 1 (at_ off) parts -> ~ flags_ok (length reqs) related (map snd parts)
  | _ => False
  end.

Lemma at_next off next : 0 <= off -> 0 < next -> off + next <= zlen msg ->
  @slice smbErr Z msg off (u32 (off + next)) = Ok (take (Z.to_nat next) (at_ off)) /\
  u32 (off + next) = off + next /\ @slice smbErr Z msg (off + next) (zlen msg) = Ok (at_ (off + next)) /\
  drop (Z.to_nat next) (at_ off) = at_ (off + next).
Proof using msg_short.
  intros Ho Hn Hl. assert (u32 (off + next) = off + next) as -> by (unfold u32; apply Z.mod_small; lia).
  rewrite !slice_Ok by lia. unfold sub. split_and!; [|done| |].
  - by rewrite Z.add_simpl_l.
  - rewrite take_ge; [done|]. rewrite length_drop. unfold zlen. lia.
  - rewrite drop_drop. f_equal. lia.
Qed.

Lemma GetRequests_loop_spec fuel off related reqs next :
  0 <= off <= zlen msg -> (off = 0 <-> reqs = []) ->
  Validate (at_ off) = Ok tt -> NextCommand (at_ off) = Ok next -> (Z.to_nat (zlen msg - off) < fuel)%nat ->
  parsed off related reqs
    (GetRequests_loop fuel rnd msg tsid compressed (newRequest (rnd (length reqs)) (at_ off) tsid compressed)
       next off related reqs).
Proof using msg_bytes msg_short.
  revert off related reqs next. induction fuel as [|fuel IH]; intros off related reqs next Ho Ho0 Hv Hn Hf; [lia|].
  cbn [GetRequests_loop data newRequest]. pose proof (next_bound off next Hn) as Hnb.
  destruct (Validate_reads _ Hv) as (n' & flag & Hn' & Hfl). rewrite Hn in Hn'. injection Hn' as <-.
  assert (0 <= next .& 7) as H7 by (apply Z.land_nonneg; lia).
  assert (zlen (at_ off) = zlen msg - off) as Hla by (unfold zlen in *; rewrite length_drop; lia).
  pose proof (fun parts => chain_inv 1 (at_ off) parts next flag Hn Hfl) as Hinv.
  assert (forall parts, chain 1 (at_ off) parts -> exists p parts', parts = (p, flag) :: parts') as Hhd.
  { intros parts [[_ ->]|(_ & _ & _ & _ & ? & -> & _)]%Hinv; eauto. }
  rewrite Z.gtb_ltb. destruct (Z.ltb_spec 0 (next .& 7)) as [Hal|Hal].
  { intros parts [[-> _]|(_ & _ & Hx & _)]%Hinv; [done|lia]. }
  rewrite Hfl. simpl mbind. cbv beta.
  destruct ((off =? 0) && flag) eqn:Hc2.
  { apply andb_prop in Hc2 as [Hc2%Z.eqb_eq ->]. intros parts (p & parts' & ->)%Hhd. simpl. intros [Hx _].
    rewrite (proj1 Ho0 Hc2) in Hx. specialize (Hx eq_refl). done. }
  destruct ((1 <? zlen reqs) && _) eqn:Hc3.
  { apply andb_prop in Hc3 as [Hc3%Z.ltb_lt Hc4]. intros parts (p & parts' & ->)%Hhd. simpl. intros (_ & Hx & _).
    rewrite Hx in Hc4 by (unfold zlen in Hc3; lia). by destruct related. }
  assert ((length reqs = O -> flag = false) /\ ((1 < length reqs)%nat -> flag = related)) as [Hk0 Hk1].
  { split.
    - intros Hk. destruct reqs; [|done]. rewrite (proj2 Ho0 eq_refl) in Hc2. exact Hc2.
    - intros Hk. apply andb_false_iff in Hc3 as [Hc3%Z.ltb_ge|Hc3]; [unfold zlen in Hc3; lia|]. by destruct related, flag. }
  destruct (Z.ltb_spec 0 next) as [Hpos|Hz].
  - rewrite Z.gtb_ltb. destruct (Z.ltb_spec (zlen msg) (off + next)) as [Hout|Hin].
    { intros parts [[-> _]|(_ & _ & _ & Hx & _)]%Hinv; lia. }
    destruct (at_next off next) as (E1 & E2 & E3 & E4); [lia..|]. rewrite E1, E2. simpl mbind. cbv beta.
    destruct (Z.eqb_spec next 0); [lia|]. rewrite E3. simpl mbind. cbv beta.
    rewrite length_app. simpl length. rewrite Nat.add_1_r. cbn [data newRequest].
    destruct (Validate (at_ (off + next))) as [[]|e| |] eqn:Hv2; simpl mbind.
    2:{ intros parts [[-> _]|(_ & _ & _ & _ & parts' & -> & Hc)]%Hinv; [lia|]. rewrite E4 in Hc. inversion Hc; congruence. }
    2-3: pose proof (Validate_settled (at_ (off + next))) as Hs; by rewrite Hv2 in Hs.
    destruct (Validate_reads _ Hv2) as (n2 & f2 & Hn2 & _). rewrite Hn2. simpl mbind. cbv beta.
    set (req := with_data (take (Z.to_nat next) (at_ off)) _).
    specialize (IH (off + next) (related || flag) (reqs ++ [req]) n2).
    rewrite length_app in IH. simpl length in IH. rewrite Nat.add_1_r in IH.
    unfold newRequest in IH at 1 |- *.
    specialize (IH ltac:(lia)). specialize (IH ltac:(split; [lia|by intros ?%app_eq_nil; naive_solver])).
    specialize (IH Hv2 Hn2 ltac:(lia)). unfold parsed in IH |- *.
    match type of IH with match ?x with _ => _ end => destruct x as [[reqs' rel]|e| |] end; try done.
    + destruct IH as (parts & Hc & Hfo & -> & ->). exists ((take (Z.to_nat next) (at_ off), flag) :: parts). split_and!.
      * eapply chain_next; eauto; [lia..|by rewrite E4].
      * simpl. rewrite length_app in Hfo. simpl in Hfo. rewrite Nat.add_1_r in Hfo. by split_and!.
      * rewrite build_cons, length_app, <- app_assoc. simpl. by rewrite Nat.add_1_r.
      * simpl. by rewrite orb_assoc.
    + intros parts [[-> _]|(_ & _ & _ & _ & parts' & -> & Hc)]%Hinv; [lia|]. rewrite E4 in Hc. simpl.
      intros (_ & _ & Hx). apply (IH parts' Hc). rewrite length_app. simpl. by rewrite Nat.add_1_r.
  - assert (next = 0) as -> by lia. simpl. exists [(at_ off, flag)]. split_and!; try done.
    + by apply chain_last.
    + rewrite build_cons. done.
    + simpl. by rewrite orb_false_r.
Qed.
#[local] Arguments GetRequests_loop : simpl never.

(** A message is split into requests exactly where its chain says.  On any message
    shorter than four gigabytes the parser returns; what it returns are the parts of a
    chain, in order and whole, so that together they are the message; of several, the
    first is not related and the others all are or none is, and if they are, all carry
    the group ID; and what it turns away is no chain, or one whose related flags break
    that rule. *)
Theorem GetRequests_spec (gid : Z) :
  match GetRequests rnd gid msg tsid compressed with
  | Ok reqs => exists parts, chain 1 msg parts /\ related_ok (map snd parts) /\
      map data reqs = map fst parts /\ concat (map data reqs) = msg /\
      Forall (fun r => groupID r = (if existsb id (tail (map snd parts)) then gid else 0) /\
                       isEncrypted r = negb (tsid =? 0) /\ compressReply r = compressed) reqs
  | Err _ => forall parts, chain 1 msg parts -> ~ related_ok (map snd parts)
  | _ => False
  end.
Proof using msg_bytes msg_short.
  unfold GetRequests. cbn [data newRequest]. pose proof (Validate_settled msg) as Hset.
  destruct (Validate msg) as [[]|e| |] eqn:Hv; simpl mbind; try done.
  2:{ intros parts Hc. inversion Hc; congruence. }
  destruct (Validate_reads _ Hv) as (next & flag & Hn & Hfl). rewrite Hn. simpl mbind. cbv beta.
  pose proof (Validate_len _ Hv) as Hlen.
  assert (forall rel parts, Forall (fun r => groupID r = (if rel : bool then gid else 0) /\
      isEncrypted r = negb (tsid =? 0) /\ compressReply r = compressed)
      (if rel then map (with_group gid) (build rnd tsid compressed 0 parts) else build rnd tsid compressed 0 parts)) as Hgr.
  { intros rel parts. generalize 0%nat. induction parts as [|p parts IH]; intros k; [by destruct rel; constructor|].
    rewrite build_cons. destruct rel; simpl; (constructor; [done|apply IH]). }
  destruct (Z.eqb_spec next 0) as [->|Hnz].
  - exists [(msg, flag)]. split; [by apply chain_last|]. split; [done|]. split; [done|]. split; [apply app_nil_r|].
    exact (Hgr false [(msg, flag)]).
  - pose proof (GetRequests_loop_spec (S (length msg)) 0 false [] next) as Hl. simpl drop in Hl. rewrite drop_0 in Hl.
    specialize (Hl ltac:(lia) ltac:(done) Hv Hn ltac:(unfold zlen; lia)). simpl length in Hl.
    unfold parsed in Hl. rewrite drop_0 in Hl.
    assert (forall parts, chain 1 msg parts -> exists f g fs, map snd parts = f :: g :: fs) as Htwo.
    { intros parts [[-> _]|(_ & _ & _ & _ & parts' & -> & Hc)]%(chain_inv 1 msg parts next flag Hn Hfl); [done|].
      inversion Hc; subst; simpl; eauto. }
    destruct (GetRequests_loop _ _ _ _ _ _ _ _ _ _) as [[reqs rel]|e| |]; try done.
    + destruct Hl as (parts & Hc & Hfo & -> & ->). simpl mbind. exists parts. destruct (Htwo parts Hc) as (f & g & fs & Hm).
      rewrite Hm in Hfo |- *. apply flags_ok_related in Hfo as Hro. split; [done|]. split; [done|].
      assert (existsb id (f :: g :: fs) = existsb id (g :: fs)) as -> by (destruct Hro as [-> _]; done).
      simpl tail. cbv beta match. simpl app. simpl orb. set (rel := existsb id (g :: fs)).
      assert (map data (if rel then map (with_group gid) (build rnd tsid compressed 0 parts)
        else build rnd tsid compressed 0 parts) = map fst parts) as Hd.
      { rewrite <- (build_data rnd tsid compressed 0 parts). destruct rel; [|done]. rewrite map_map. done. }
      split; [exact Hd|]. split; [|exact (Hgr rel parts)]. etrans; [|by eapply chain_concat]. f_equal. exact Hd.
    + simpl mbind. intros parts Hc. specialize (Hl parts Hc). destruct (Htwo parts Hc) as (f & g & fs & Hm).
      rewrite Hm in *. by rewrite <- flags_ok_related.
Qed.
End parse.

(** ** Putting responses together *)

(** A field inside the first [k] bytes is read off them. *)
Lemma get_le_take k d i n : 0 <= i -> 0 <= n -> i + n <= k -> k <= zlen d ->
  @get_le smbErr (take (Z.to_nat k) d) i n = get_le d i n.
Proof.
  intros Hi Hn Hk Hl. assert (zlen (take (Z.to_nat k) d) = k) as Hz by (unfold zlen in *; rewrite length_take; lia).
  rewrite !get_le_Ok by lia. do 2 f_equal. unfold sub. apply list_eq. intros j.
  destruct (decide (j < Z.to_nat (i + n - i))%nat).
  - rewrite !lookup_take_lt, !lookup_drop by lia. by rewrite lookup_take_lt by lia.
  - rewrite !lookup_take_ge by lia. done.
Qed.

Lemma get_le_prefix k d e i n : 0 <= i -> 0 <= n -> i + n <= k -> k <= zlen d -> k <= zlen e ->
  take (Z.to_nat k) d = take (Z.to_nat k) e -> @get_le smbErr d i n = get_le e i n.
Proof. intros. rewrite <- (get_le_take k d), <- (get_le_take k e) by lia. congruence. Qed.

(** What validation looks at lies in the first eight bytes, the length apart. *)
Lemma Validate_prefix d e : 64 <= zlen d -> 64 <= zlen e -> take (Z.to_nat 8) d = take (Z.to_nat 8) e -> Validate d = Validate e.
Proof.
  intros Hd He Ht. assert (@index smbErr Z d 4 = index e 4) as Hi4.
  { unfold index. simpl. rewrite <- (lookup_take_lt d (Z.to_nat 8)), <- (lookup_take_lt e (Z.to_nat 8)) by lia. by rewrite Ht. }
  unfold Validate, IsSmb, IsSmb2, ProtocolID, LegacyCommand, structure.
  rewrite !(get_le_prefix 8 d e 0 4), !(get_le_prefix 8 d e 4 2), Hi4 by (done || lia).
  unfold SMBHeaderSize, SMB2HeaderSize.
  rewrite !(proj2 (Z.ltb_ge (zlen d) _)), !(proj2 (Z.ltb_ge (zlen e) _)) by lia. done.
Qed.
Lemma IsFlagSet_prefix d e flag : 64 <= zlen d -> 64 <= zlen e -> take (Z.to_nat 20) d = take (Z.to_nat 20) e ->
  IsFlagSet flag d = IsFlagSet flag e.
Proof. intros. unfold IsFlagSet, Flags. by rewrite (get_le_prefix 20 d e) by (done || lia). Qed.

Lemma take_shorter (d e : list Z) j k : j <= k -> take (Z.to_nat k) d = take (Z.to_nat k) e -> take (Z.to_nat j) d = take (Z.to_nat j) e.
Proof. intros Hj Ht. replace (Z.to_nat j) with (Z.to_nat j `min` Z.to_nat k)%nat by lia. by rewrite <- !take_take, Ht. Qed.

Lemma chain_head_eq m d e n flag parts :
  64 <= m -> n <= zlen e -> take (Z.to_nat n) d = take (Z.to_nat n) e ->
  Validate d = Ok tt -> NextCommand d = Ok n -> IsFlagSet FLAGS_RELATED_OPERATIONS d = Ok flag ->
  m <= n -> n .& 7 = 0 -> n <= zlen d -> chain m (drop (Z.to_nat n) e) parts ->
  chain m e ((take (Z.to_nat n) d, flag) :: parts).
Proof.
  intros Hm Hne Ht Hv Hn Hf Hmn Hal Hnd Hc. rewrite Ht.
  apply chain_next; try done; [| | |lia].
  - rewrite <- Hv. symmetry. apply Validate_prefix; [lia|lia|]. by apply (take_shorter _ _ _ n); [lia|].
  - rewrite <- Hn. symmetry. apply (get_le_prefix n); [lia..|done].
  - rewrite <- Hf. symmetry. apply IsFlagSet_prefix; [lia|lia|]. by apply (take_shorter _ _ _ n); [lia|].
Qed.

Lemma land_7 n : n .& 7 = n mod 8.
Proof. apply (Z.land_ones n 3). lia. Qed.

(** The walk ends at the last response, and what follows it can be put in its place. *)
Lemma lastResponse_spec fuel m d off parts :
  64 <= m -> zlen d < 2 ^ 32 -> 0 <= off -> off .& 7 = 0 -> chain m (drop (Z.to_nat off) d) parts ->
  (Z.to_nat (zlen d - off) < fuel)%nat ->
  exists off' front flag, lastResponse fuel d off = Ok off' /\ off <= off' /\ off' .& 7 = 0 /\ off' + 32 <= zlen d /\
    parts = front ++ [(drop (Z.to_nat off') d, flag)] /\
    chain m (drop (Z.to_nat off') d) [(drop (Z.to_nat off') d, flag)] /\
    forall e parts', chain m e parts' ->
      chain m (drop (Z.to_nat off) (take (Z.to_nat off') d ++ e)) (front ++ parts').
Proof.
  intros Hm Hd. revert off parts. induction fuel as [|fuel IH]; intros off parts Ho Hal Hc Hf; [lia|]. cbn [lastResponse].
  assert (Validate (drop (Z.to_nat off) d) = Ok tt) as Hv by (by inversion Hc).
  pose proof (Validate_len _ Hv) as Hlen. assert (zlen (drop (Z.to_nat off) d) = zlen d - off) as Hz.
  { unfold zlen in *. rewrite length_drop in *. lia. }
  destruct (Validate_reads _ Hv) as (n & flag & Hn & Hfl).
  assert (u32 (off + 20) = off + 20) as -> by (unfold u32; apply Z.mod_small; lia).
  assert (@get_le smbErr d (off + 20) 4 = Ok n) as ->.
  { rewrite <- Hn. unfold NextCommand. rewrite !get_le_Ok by lia. do 2 f_equal. unfold sub. rewrite drop_drop.
    f_equal; [lia|f_equal; lia]. }
  simpl. destruct (chain_inv _ _ _ _ _ Hn Hfl Hc) as [[-> ->]|(Hmn & Hpos & Hal2 & Hnl & parts' & -> & Hc')].
  - simpl. exists off, [], flag. split_and!; [done|lia|done|lia|done|done|]. intros e parts' He. simpl.
    rewrite drop_app_length'; [done|]. rewrite length_take. unfold zlen in *. lia.
  - destruct (Z.eqb_spec n 0); [lia|]. rewrite drop_drop in Hc'.
    assert (u32 (off + n) = off + n) as -> by (unfold u32; apply Z.mod_small; lia).
    replace (Z.to_nat off + Z.to_nat n)%nat with (Z.to_nat (off + n)) in Hc' by lia.
    destruct (IH (off + n) parts') as (off' & front & fl & H1 & H2 & H3 & H4 & -> & H5 & H6); [lia| |done|lia|].
    { rewrite land_7 in *. rewrite Zplus_mod, Hal, Hal2. done. }
    exists off', ((take (Z.to_nat n) (drop (Z.to_nat off) d), flag) :: front), fl.
    split_and!; [done|lia|done|done|done|done|]. intros e parts2 He. specialize (H6 e parts2 He).
    assert (drop (Z.to_nat off) (take (Z.to_nat off') d ++ e)
      = take (Z.to_nat (off' - off)) (drop (Z.to_nat off) d) ++ e) as Hdr.
    { rewrite drop_app_le by (rewrite length_take; unfold zlen in *; lia). f_equal.
      rewrite take_drop_commute. do 2 f_equal. lia. }
    rewrite Hdr. simpl app. pose proof (zlen_nonneg e).
    apply (chain_head_eq m (drop (Z.to_nat off) d)); try done.
    + rewrite zlen_app. unfold zlen in *. rewrite length_take, length_drop in *. lia.
    + rewrite take_app_le by (rewrite length_take; unfold zlen in *; lia). rewrite take_take. f_equal. lia.
    + replace (Z.to_nat (off + n)) with (Z.to_nat off + Z.to_nat n)%nat in H6 by lia.
      rewrite <- drop_drop, Hdr in H6. exact H6.
Qed.

Lemma Roundup_8 x : 0 <= x -> x <= Roundup x 8 < x + 8 /\ Roundup x 8 .& 7 = 0.
Proof.
  intros Hx. unfold Roundup. change (8 - 1) with (Z.ones 3). rewrite Z.ldiff_ones_r by lia.
  rewrite Z.shiftl_mul_pow2, Z.shiftr_div_pow2 by lia. change (2 ^ 3) with 8. change (Z.ones 3) with 7.
  pose proof (Z.div_mod (x + 7) 8 ltac:(lia)). pose proof (Z.mod_pos_bound (x + 7) 8 ltac:(lia)). split; [lia|].
  rewrite land_7. apply Z.mod_mul. lia.
Qed.

Lemma put_le_app (a l : list Z) i n v l' : 0 <= i -> @put_le smbErr l i n v = Ok l' ->
  @put_le smbErr (a ++ l) (zlen a + i) n v = Ok (a ++ l').
Proof.
  intros Hi. unfold put_le. pose proof (zlen_nonneg a). destruct (_ && _) eqn:Hb; [|discriminate].
  apply andb_prop in Hb as [[H1%Z.leb_le H2%Z.leb_le]%andb_prop H3%Z.leb_le]. intros [= <-].
  rewrite zlen_app, !(proj2 (Z.leb_le _ _)) by lia. simpl. f_equal.
  replace (Z.to_nat (zlen a + i)) with (length a + Z.to_nat i)%nat by (unfold zlen; lia).
  replace (Z.to_nat (zlen a + i + n)) with (length a + Z.to_nat (i + n))%nat by (unfold zlen; lia).
  by rewrite take_app_add, drop_app_add, <- app_assoc.
Qed.
Lemma take_put_le l i n v l' : 0 <= i -> @put_le smbErr l i n v = Ok l' -> take (Z.to_nat i) l' = take (Z.to_nat i) l.
Proof.
  intros Hi Hp. pose proof (sub_put_other _ _ _ _ _ 0 i Hp ltac:(lia) Hi (or_introl (Z.le_refl i))) as H.
  unfold sub in H. by rewrite !drop_0, !Z.sub_0_r in H.
Qed.

(** A response that stands alone: a message with no other behind it. *)
Definition single (d : list Z) : Prop := bytes d /\ 64 <= zlen d /\ Validate d = Ok tt /\ NextCommand d = Ok 0.

(** The last response, padded and pointed at the next one. *)
Lemma chain_extend m last flag new new' k last' v :
  64 <= m -> m <= v -> 64 <= zlen last -> chain m last [(last, flag)] -> v = zlen last + Z.of_nat k -> v < 2 ^ 32 -> v .& 7 = 0 ->
  single new -> SetFlag FLAGS_RELATED_OPERATIONS new = Ok new' ->
  @put_le smbErr (last ++ replicate k 0) 20 4 v = Ok last' ->
  chain m (last' ++ new') [(last', flag); (new', true)].
Proof.
  intros Hm Hv Hl Hc Ev Hv32 Hal (Hb & Hn64 & Hnv & Hnn) Hsf Hput.
  destruct (SetFlag_write FLAGS_RELATED_OPERATIONS new Hb ltac:(lia) ltac:(done)) as (f & h' & _ & Hs & Hlen & _ & Hset & Hg).
  rewrite Hsf in Hs. injection Hs as <-.
  assert (Validate last = Ok tt /\ IsFlagSet FLAGS_RELATED_OPERATIONS last = Ok flag) as [Hlv Hlf].
  { inversion Hc as [? ? H1 H2 H3|? ? ? ? ? ? ? ? ? ? ? Hx]; subst; [done|]. inversion Hx. }
  pose proof (zlen_put_le _ _ _ _ _ Hput) as Hz. rewrite zlen_app, zlen_replicate in Hz.
  assert (take (Z.to_nat 20) (last' ++ new') = take (Z.to_nat 20) last) as H20.
  { rewrite take_app_le by (unfold zlen in *; lia). rewrite (take_put_le (last ++ replicate k 0) 20 4 v last' ltac:(lia) Hput).
    rewrite take_app_le by (unfold zlen in *; lia). done. }
  assert (64 <= zlen (last' ++ new')) as H64 by (rewrite zlen_app; lia).
  assert (take (Z.to_nat v) (last' ++ new') = last') as Htk by (apply take_app_length'; unfold zlen in *; lia).
  rewrite <- Htk at 2. apply chain_next; try lia.
  - rewrite <- Hlv. apply Validate_prefix; [lia|lia|]. by apply (take_shorter _ _ _ 20); [lia|].
  - unfold NextCommand. rewrite <- (get_le_take v) by (rewrite ?zlen_app; lia). rewrite Htk.
    rewrite (get_put_same _ _ _ _ _ Hput). f_equal. apply Z.mod_small. change (8 * 4) with 32. lia.
  - rewrite <- Hlf. by apply IsFlagSet_prefix; [lia|lia|].
  - rewrite zlen_app. lia.
  - rewrite drop_app_length' by (unfold zlen in *; lia). apply chain_last; [| |done].
    + rewrite <- Hnv. apply Validate_prefix; [lia|lia|]. unfold SetFlag in Hsf. apply bind_Ok in Hsf as (x & _ & Hsf).
      apply (take_shorter _ _ _ 16); [lia|]. by apply (take_put_le new 16 4 _ _ ltac:(lia)) in Hsf.
    + rewrite <- Hnn. apply (Hg FNextCommand). left. simpl. lia.
Qed.

(** A response appended to a chain makes a longer chain.  To a message that is a
    chain of responses, each at least a header long, [Append] adds one more: the
    responses before are left as they were, the last is padded to eight bytes and
    pointed at the new one, and the new one follows it whole, with the related flag
    raised. *)
Theorem Append_chain (d new : list Z) (parts : list (list Z * bool)) :
  chain 64 d parts -> Forall (fun p => 64 <= zlen p.1) parts -> single new -> zlen d + zlen new < 2 ^ 32 - 8 ->
  exists front last flag last' new', parts = front ++ [(last, flag)] /\
    Append d new = Ok (concat (map fst front) ++ last' ++ new', new') /\
    chain 64 (concat (map fst front) ++ last' ++ new') (front ++ [(last', flag); (new', true)]) /\
    SetFlag FLAGS_RELATED_OPERATIONS new = Ok new' /\
    @put_le smbErr (last ++ replicate (Z.to_nat (Roundup (zlen d) 8 - zlen d)) 0) 20 4 (zlen last') = Ok last'.
Proof.
  intros Hc Hall Hnew Hsz. pose proof (zlen_nonneg new) as Hnn. pose proof (zlen_nonneg d) as Hnd.
  destruct (lastResponse_spec (S (length d)) 64 d 0 parts) as (off & front & flag & Hlast & Ho & Hal & Hol & Hp & Hcl & Hrep);
    [lia|lia|lia|done|done|unfold zlen; lia|].
  set (last := drop (Z.to_nat off) d) in *.
  assert (d = take (Z.to_nat off) d ++ last) as Hd by (symmetry; apply take_drop).
  assert (concat (map fst front) = take (Z.to_nat off) d) as Hfr.
  { pose proof (chain_concat _ _ _ Hc) as Hcc. rewrite Hp, map_app, concat_app in Hcc. simpl in Hcc. rewrite app_nil_r in Hcc.
    rewrite Hd in Hcc at 1. by apply app_inv_tail in Hcc. }
  assert (zlen (take (Z.to_nat off) d) = off) as Hzo by (unfold zlen in *; rewrite length_take; lia).
  assert (zlen last = zlen d - off) as Hzl by (unfold last, zlen in *; rewrite length_drop; lia).
  assert (64 <= zlen last) as Hl64.
  { rewrite Hp in Hall. apply Forall_app in Hall as [_ Hall]. by inversion Hall. }
  destruct (Roundup_8 (zlen d)) as [Hr Hr7]; [lia|]. set (newLen := Roundup (zlen d) 8) in *.
  set (k := Z.to_nat (newLen - zlen d)). set (v := newLen - off).
  destruct (@put_le_Ok smbErr (last ++ replicate k 0) 20 4 v) as [last' Hput];
    [lia|lia|rewrite zlen_app, zlen_replicate; unfold k; lia|].
  destruct Hnew as (Hb & Hn64 & Hnv & Hnx).
  destruct (SetFlag_write FLAGS_RELATED_OPERATIONS new Hb ltac:(lia) ltac:(done)) as (f & new' & _ & Hs & Hlen & _).
  pose proof (zlen_put_le _ _ _ _ _ Hput) as Hz. rewrite zlen_app, zlen_replicate in Hz.
  assert (v .& 7 = 0) as Hv7 by (rewrite land_7 in *; unfold v; rewrite Zminus_mod, Hr7, Hal; done).
  exists front, last, flag, last', new'. rewrite Hfr. split_and!; [done| | |done|].
  - unfold Append. rewrite Hlast. simpl mbind. cbv zeta. fold newLen.
    assert ((if newLen >? zlen d then d ++ replicate (Z.to_nat (newLen - zlen d)) 0 else d)
      = take (Z.to_nat off) d ++ last ++ replicate k 0) as ->.
    { rewrite Z.gtb_ltb. unfold k. destruct (Z.ltb_spec (zlen d) newLen).
      - by rewrite Hd at 1; rewrite <- app_assoc.
      - replace (newLen - zlen d) with 0 by lia. simpl. by rewrite app_nil_r. }
    assert (u32 (u32 newLen - off) = v) as -> by (unfold u32; rewrite (Z.mod_small newLen), Z.mod_small by lia; done).
    assert (u32 (off + 20) = zlen (take (Z.to_nat off) d) + 20) as -> by (unfold u32; rewrite Z.mod_small; lia).
    rewrite (put_le_app _ _ 20 4 v last') by (done || lia). simpl mbind. rewrite Hs. simpl. by rewrite <- app_assoc.
  - apply Hrep. apply (chain_extend 64 last flag new new' k last' v); try done; try lia; unfold v, k; lia.
  - fold k. replace (zlen last') with v; [done|]. unfold k, v in *. lia.
Qed.

(** ** The header of a response *)
Lemma CopyFrom_take src : 64 <= zlen src ->
  CopyFrom src (replicate (Z.to_nat SMB2HeaderSize) 0) = Ok (take (Z.to_nat 64) src).
Proof.
  intros Hl. unfold CopyFrom, SMB2HeaderSize. rewrite slice_Ok by lia. simpl mbind. unfold sub. rewrite drop_0.
  change (64 - 0) with 64. set (s := take (Z.to_nat 64) src).
  assert (zlen s = 64) as Hs by (unfold s, zlen in *; rewrite length_take; lia).
  unfold copy_at. rewrite slice_Ok by done. simpl mbind. rewrite Hs. change (Z.min (64 - 0) 64) with 64.
  rewrite take_ge by (unfold zlen in Hs; lia). unfold splice. rewrite Hs. simpl. by rewrite app_nil_r.
Qed.

(** The fields of a header that a response takes over from its request. *)
Definition echoed : list field :=
  [FProtocolID; FCreditCharge; FCommand; FCredit; FNextCommand; FMessageID; FAsyncID; FTreeID; FSessionID].

(** A response answers the request it is made from: its header carries the request's
    command, message, session and tree (or async) IDs, and credit fields; its status is
    OK; its flags are the request's with the server flag raised and, outside a group, the
    related flag lowered; and the group, the encryption and the leave to compress are
    taken over. *)
Theorem FromRequest_echoes (req : request) (resp : response) :
  bytes (data req) -> 64 <= zlen (data req) ->
  exists f r, Flags (data req) = Ok f /\ FromRequest req resp = Ok r /\ zlen (r_data r) = 64 /\
    Status (r_data r) = Ok STATUS_OK /\
    Flags (r_data r) = Ok (if groupID req =? 0 then (f .| FLAGS_SERVER_TO_REDIR) &^ FLAGS_RELATED_OPERATIONS
                           else f .| FLAGS_SERVER_TO_REDIR) /\
    Forall (fun g => getField g (r_data r) = getField g (data req)) echoed /\
    r_groupID r = groupID req /\ r_shouldEncrypt r = isEncrypted req /\ r_mayCompress r = compressReply req.
Proof.
  intros Hb Hl. unfold FromRequest. rewrite CopyFrom_take by done. simpl mbind. set (h := take (Z.to_nat 64) (data req)).
  assert (zlen h = 64) as Hh by (unfold h, zlen in *; rewrite length_take; lia).
  assert (bytes h) as Hbh by (by apply Forall_take).
  assert (forall g, getField g h = getField g (data req)) as Hcopy.
  { intros g. rewrite !getField_le. pose proof (field_place g). by apply get_le_take; lia. }
  destruct (field_write FStatus STATUS_OK h) as (h1 & E1 & L1 & G1 & K1); [simpl; lia|]. simpl in E1, G1. rewrite E1. simpl mbind.
  assert (bytes h1) as Hb1 by (by eapply bytes_put_le; [exact Hbh|exact E1]).
  destruct (SetFlag_write FLAGS_SERVER_TO_REDIR h1 Hb1 ltac:(lia) ltac:(done)) as (f & h2 & F1 & E2 & L2 & G2 & _ & K2).
  rewrite E2. simpl mbind.
  assert (bytes h2) as Hb2.
  { unfold SetFlag in E2. apply bind_Ok in E2 as (x & _ & E2). eapply bytes_put_le; [exact Hb1|exact E2]. }
  assert (Flags (data req) = Ok f) as HF.
  { change (getField FFlags (data req) = Ok f). rewrite <- (Hcopy FFlags), <- (K1 FFlags) by (left; simpl; lia). done. }
  destruct (ClearFlag_write FLAGS_RELATED_OPERATIONS h2 Hb2 ltac:(lia)) as (f' & h3 & F2 & E3 & L3 & G3 & _ & K3).
  rewrite G2 in F2. injection F2 as <-. exists f.
  destruct (Z.eqb_spec (groupID req) 0); [rewrite E3|]; simpl mbind; eexists; (split; [exact HF|]); (split; [reflexivity|]);
    cbn [r_data r_groupID r_shouldEncrypt r_mayCompress]; (split; [lia|]).
  - split; [change (getField FStatus h3 = Ok STATUS_OK); rewrite K3, K2 by (right; simpl; lia); done|]. split; [done|]. split; [|done].
    repeat constructor; rewrite K3, K2, K1 by ((left; simpl; lia) || (right; simpl; lia)); apply Hcopy.
  - split; [change (getField FStatus h2 = Ok STATUS_OK); rewrite K2 by (right; simpl; lia); done|]. split; [done|]. split; [|done].
    repeat constructor; rewrite K2, K1 by ((left; simpl; lia) || (right; simpl; lia)); apply Hcopy.
Qed.

(** ** The lock request *)
Lemma Locks_loop_ok n d off : bytes d -> 0 <= off -> off + 24 * Z.of_nat n <= zlen d ->
  exists ls, Locks_loop n d off = Ok ls /\ length ls = n /\ Forall (fun l => range_ok (lock_range l) /\ is_u32 (l_Flags l)) ls.
Proof.
  revert off. induction n as [|n IH]; intros off Hb Ho Hl; [exists []; split_and!; done|]. cbn [Locks_loop].
  destruct (get_le_bytes (E:=smbErr) d off 8) as (o & -> & Ho8); [done|lia..|]. simpl mbind.
  destruct (get_le_bytes (E:=smbErr) d (off + 8) 8) as (l & -> & Hl8); [done|lia..|]. simpl mbind.
  destruct (get_le_bytes (E:=smbErr) d (off + 16) 4) as (f & -> & Hf4); [done|lia..|]. simpl mbind.
  destruct (IH (off + 24)) as (ls & -> & Hlen & Hall); [done|lia|lia|]. simpl.
  eexists. split; [done|]. split; [simpl; lia|]. constructor; [|done]. done.
Qed.

(** A lock request that validates can be read.  Every field of it lies inside the
    message, so that no reader panics; the locks are as many as it counts and at least
    one, their offsets, lengths and flags machine words; the sequence number is below 16
    and the index below [2^28]; the file ID has sixteen bytes. *)
Theorem lock_request_sound (multiCredit : bool) (d : list Z) :
  bytes d -> ValidateLock multiCredit d = Ok tt ->
  exists ls count number idx fid, LocksOf d = Ok ls /\ @get_le smbErr d 66 2 = Ok count /\ zlen ls = count /\ 1 <= count /\
    Forall (fun l => range_ok (lock_range l) /\ is_u32 (l_Flags l)) ls /\
    LockSequenceNumber d = Ok number /\ 0 <= number < 16 /\ LockSequenceIndex d = Ok idx /\ 0 <= idx < 2 ^ 28 /\
    LockFileID d = Ok fid /\ zlen fid = 16.
Proof.
  intros Hb Hv. unfold ValidateLock, validateSized in Hv. apply bind_Ok in Hv as ([] & Hsz & Hv).
  apply bind_Ok in Hsz as ([] & _ & Hsz). unfold SMB2HeaderSize, SMB2LockRequestMinSize in *.
  destruct (Z.ltb_spec (zlen d) (64 + 24)); [done|]. clear Hsz.
  unfold LocksOf, SMB2HeaderSize, SMB2LockRequestMinSize. change (64 + 2) with 66 in *.
  destruct (get_le_bytes (E:=smbErr) d 66 2) as (count & Hcnt & Hc); [done|lia..|]. rewrite Hcnt in Hv |- *. simpl mbind in Hv |- *.
  destruct (Z.eqb_spec count 0); [done|]. destruct (Z.eqb_spec (zlen d) (64 + 24 + 24 * count)) as [Hlen|]; [|done]. clear Hv.
  destruct (Locks_loop_ok (Z.to_nat count) d (64 + 24)) as (ls & -> & Hls & Hall); [done|lia|lia|].
  unfold LockSequenceNumber, LockSequenceIndex, LockFileID, SMB2HeaderSize.
  destruct (@index_in_range _ smbErr d (64 + 4)) as (b & -> & Hbk); [lia|].
  destruct (get_le_bytes (E:=smbErr) d (64 + 4) 4) as (w & -> & Hw); [done|lia..|]. rewrite slice_Ok by lia. simpl mbind.
  do 5 eexists. split; [done|]. split; [done|]. split; [unfold zlen; lia|]. split; [lia|]. split; [done|].
  split; [done|]. split; [|split; [done|split; [|split; [done|rewrite zlen_sub; lia]]]].
  - change 0x0f with (Z.ones 4). rewrite Z.land_ones by lia. by apply Z.mod_pos_bound.
  - rewrite Z.shiftr_div_pow2 by lia. split; [apply Z.div_pos; lia|]. apply Z.div_lt_upper_bound; lia.
Qed.

(** ** Witnesses *)

(** An SMB2 message of 64 bytes with the given [NextCommand] and flags. *)
Definition sample (next flags : Z) : list Z :=
  le_enc 4 PROTOCOL_SMB2 ++ le_enc 2 64 ++ replicate 10 0 ++ le_enc 4 flags ++ le_enc 4 next ++ replicate 40 0.

Lemma sample_single : single (sample 0 0).
Proof.
  split; [apply (bool_decide_unpack _); vm_compute; exact I|].
  split; [vm_compute; discriminate|]. split; vm_compute; reflexivity.
Defined.

Lemma GetRequests_spec_witness :
  match GetRequests (fun k => Z.of_nat k) 7 (sample 64 0 ++ sample 0 4) 0 false with
  | Ok reqs => map data reqs = [sample 64 0; sample 0 4] /\ Forall (fun r => groupID r = 7) reqs
  | _ => False
  end.
Proof.
  pose proof (GetRequests_spec (fun k => Z.of_nat k) (sample 64 0 ++ sample 0 4) 0 false) as H.
  specialize (H ltac:(apply (bool_decide_unpack _); vm_compute; exact I) ltac:(vm_compute; reflexivity) 7).
  vm_compute in H |- *. destruct H as (parts & _ & _ & _). split; [reflexivity|]. repeat constructor.
Defined.

Lemma Append_chain_witness :
  exists d' new', Append (sample 0 0) (sample 0 0) = Ok (d', new') /\ zlen d' = 128.
Proof.
  destruct (Append_chain (sample 0 0) (sample 0 0) [(sample 0 0, false)]) as (fr & l & fl & l' & n' & _ & H & _).
  - apply chain_last; vm_compute; reflexivity.
  - constructor; [vm_compute; discriminate|constructor].
  - exact sample_single.
  - vm_compute. reflexivity.
  - revert H. generalize (concat (map fst fr) ++ l' ++ n'). intros d' H. exists d', n'. split; [exact H|].
    vm_compute in H. injection H as <- _. reflexivity.
Defined.

Lemma FromRequest_echoes_witness :
  exists r, FromRequest (newRequest 1 (sample 0 4) 0 true) noResponse = Ok r /\ Flags (r_data r) = Ok 1 /\ r_mayCompress r = true.
Proof.
  destruct (FromRequest_echoes (newRequest 1 (sample 0 4) 0 true) noResponse) as (f & r & Hf & H & _ & _ & HF & _ & _ & _ & Hc).
  - apply (bool_decide_unpack _). vm_compute. exact I.
  - vm_compute. discriminate.
  - exists r. split; [exact H|]. split; [|exact Hc]. vm_compute in Hf. injection Hf as <-. exact HF.
Defined.

(** A lock request for one range. *)
Definition sampleLock : list Z :=
  le_enc 4 PROTOCOL_SMB2 ++ le_enc 2 64 ++ replicate 58 0 ++ le_enc 2 48 ++ le_enc 2 1 ++ le_enc 4 0x25 ++ replicate 16 9 ++
  le_enc 8 100 ++ le_enc 8 10 ++ le_enc 4 2 ++ replicate 4 0.

Lemma lock_request_sound_witness :
  exists ls, LocksOf sampleLock = Ok ls /\ ls = [MkLock 100 10 2] /\ LockSequenceIndex sampleLock = Ok 2.
Proof.
  destruct (lock_request_sound true sampleLock) as (ls & count & number & idx & fid & H & _ & _ & _ & _ & _ & _ & Hi & _).
  - apply (bool_decide_unpack _). vm_compute. exact I.
  - vm_compute. reflexivity.
  - exists ls. split; [exact H|]. vm_compute in H. injection H as <-. split; reflexivity.
Defined.

End Request.
