(* ===== verification/Messages.v ===== *)
(** The requests of the [smb2] package: what each [Validate] lets through, and
    the accessors that are read once it has.

    A request is the bytes of its message, header included.  Every accessor is
    the slice expression of the source, which panics where it would; the
    theorems are that a request let through is read in full without one, and
    that [Validate] itself stands any bytes at all. *)
From S2P Require Import Prelude Bytes Smb2Const Header Request Text.
Import Header Request Text.

Module Messages.
Abbreviation out := (outcome smbErr).

(** ** Shared pieces *)
Definition HS : Z := SMB2HeaderSize.

(** The check of CreditCharge every request that may be long ends with. *)
Definition chargeCovers (d : list Z) (sps ers : Z) : out unit :=
  cc ← CreditCharge d;
  if cc =? 0 then (if (sps >? 65536) || (ers >? 65536) then Err ErrInvalidParameter else mret tt)
  else if cc <? u16 (u16 (u32 (Z.max sps ers - 1) / 65536) + 1) then Err ErrInvalidParameter
  else mret tt.
Definition sentPayload (minSize : Z) (d : list Z) : Z := u32 (zlen d - HS - minSize).

(** A buffer named by an offset and a length: nil where it does not fit. *)
Definition bufferAt (d : list Z) (off length : Z) : out (list Z) :=
  if fits off length (zlen d) then slice d off (u32 (off + length)) else mret [].

(** ** SMB2_READ and SMB2_WRITE *)
Definition ReadRequest_Length (d : list Z) : out Z := get_le d (HS + 4) 4.
Definition ReadRequest_Validate (multi : bool) (d : list Z) : out unit :=
  _ ← validateSized SMB2ReadRequestMinSize SMB2ReadRequestStructureSize d;
  if multi then ers ← ReadRequest_Length d; chargeCovers d (sentPayload SMB2ReadRequestMinSize d) ers else mret tt.
Definition ReadRequest_Padding (d : list Z) : out Z := index d (HS + 2).
Definition ReadRequest_Flags (d : list Z) : out Z := index d (HS + 3).
Definition ReadRequest_Offset (d : list Z) : out Z := get_le d (HS + 8) 8.
Definition ReadRequest_FileID (d : list Z) : out (list Z) := slice d (HS + 16) (HS + 32).
Definition ReadRequest_MinimumCount (d : list Z) : out Z := get_le d (HS + 32) 4.
Definition ReadRequest_Channel (d : list Z) : out Z := get_le d (HS + 36) 4.

Definition WriteRequest_DataOffset (d : list Z) : out Z := get_le d (HS + 2) 2.
Definition WriteRequest_Validate (multi : bool) (d : list Z) : out unit :=
  _ ← validateSized SMB2WriteRequestMinSize SMB2WriteRequestStructureSize d;
  length ← get_le d (HS + 4) 4; off ← WriteRequest_DataOffset d;
  if negb (fits off length (zlen d)) then Err ErrInvalidParameter
  else if multi then chargeCovers d (sentPayload SMB2WriteRequestMinSize d) 0 else mret tt.
Definition WriteRequest_Offset (d : list Z) : out Z := get_le d (HS + 8) 8.
Definition WriteRequest_FileID (d : list Z) : out (list Z) := slice d (HS + 16) (HS + 32).
Definition WriteRequest_Channel (d : list Z) : out Z := get_le d (HS + 32) 4.
Definition WriteRequest_Flags (d : list Z) : out Z := get_le d (HS + 44) 4.
Definition WriteRequest_Buffer (d : list Z) : out (list Z) :=
  off ← WriteRequest_DataOffset d; length ← get_le d (HS + 4) 4; bufferAt d off length.

(** ** SMB2_CLOSE, SMB2_FLUSH, SMB2_LOGOFF, SMB2_TREE_DISCONNECT *)
Definition CloseRequest_Validate (d : list Z) : out unit := validateSized SMB2CloseRequestMinSize SMB2CloseRequestStructureSize d.
Definition CloseRequest_Flags (d : list Z) : out Z := get_le d (HS + 2) 2.
Definition CloseRequest_FileID (d : list Z) : out (list Z) := slice d (HS + 8) (HS + 24).
Definition FlushRequest_Validate (d : list Z) : out unit := validateSized SMB2FlushRequestMinSize SMB2FlushRequestStructureSize d.
Definition FlushRequest_FileID (d : list Z) : out (list Z) := slice d (HS + 8) (HS + 24).
Definition LogoffRequest_Validate (d : list Z) : out unit := validateSized SMB2LogoffRequestMinSize SMB2LogoffRequestStructureSize d.
Definition TreeDisconnectRequest_Validate (d : list Z) : out unit :=
  validateSized SMB2TreeDisconnectRequestMinSize SMB2TreeDisconnectRequestStructureSize d.

(** ** SMB2_SESSION_SETUP and SMB2_TREE_CONNECT *)
Definition SessionSetupRequest_Validate (multi : bool) (d : list Z) : out unit :=
  _ ← validateSized SMB2SessionSetupRequestMinSize SMB2SessionSetupRequestStructureSize d;
  if multi then chargeCovers d (sentPayload SMB2SessionSetupRequestMinSize d) 207 else mret tt.
Definition SessionSetupRequest_Flags (d : list Z) : out Z :=
  if zlen d <? HS + SMB2SessionSetupRequestMinSize then mret 0 else index d (HS + 2).
Definition SessionSetupRequest_SecurityMode (d : list Z) : out Z := index d (HS + 3).
Definition SessionSetupRequest_Capabilities (d : list Z) : out Z := get_le d (HS + 4) 4.
Definition SessionSetupRequest_PreviousSessionID (d : list Z) : out Z := get_le d (HS + 16) 8.
Definition SessionSetupRequest_SecurityBuffer (d : list Z) : out (list Z) :=
  off ← get_le d (HS + 12) 2; length ← get_le d (HS + 14) 2; bufferAt d off length.

Definition TreeConnectRequest_Validate (multi : bool) (d : list Z) : out unit :=
  _ ← validateSized SMB2TreeConnectRequestMinSize SMB2TreeConnectRequestStructureSize d;
  if multi then chargeCovers d (sentPayload SMB2TreeConnectRequestMinSize d) 0 else mret tt.
Definition TreeConnectRequest_PathName (d : list Z) : out (list Z) :=
  off ← get_le d (HS + 4) 2; length ← get_le d (HS + 6) 2; b ← bufferAt d off length; mret (DecodeToString b).

(** ** SMB2_IOCTL *)
Definition IoctlRequest_MaxInputResponse (d : list Z) : out Z := get_le d (HS + 32) 4.
Definition IoctlRequest_MaxOutputResponse (d : list Z) : out Z := get_le d (HS + 44) 4.
Definition IoctlRequest_Validate (multi : bool) (d : list Z) : out unit :=
  _ ← validateSized SMB2IoctlRequestMinSize SMB2IoctlRequestStructureSize d;
  off ← get_le d (HS + 24) 4; length ← get_le d (HS + 28) 4;
  if (0 <? length) && ((0 <? off) && (off <? HS + SMB2IoctlRequestMinSize) || (0 <? off mod 8) || negb (fits off length (zlen d)))
  then Err ErrInvalidParameter
  else if multi then
    i ← IoctlRequest_MaxInputResponse d; o ← IoctlRequest_MaxOutputResponse d;
    chargeCovers d (sentPayload SMB2IoctlRequestMinSize d) (u32 (i + o))
  else mret tt.
Definition IoctlRequest_CtlCode (d : list Z) : out Z := get_le d (HS + 4) 4.
Definition IoctlRequest_FileID (d : list Z) : out (list Z) := slice d (HS + 8) (HS + 24).
Definition IoctlRequest_InputBuffer (d : list Z) : out (list Z) :=
  off ← get_le d (HS + 24) 4; length ← get_le d (HS + 28) 4; bufferAt d off length.
Definition IoctlRequest_Flags (d : list Z) : out Z := get_le d (HS + 48) 4.

(** [n] 16-bit values from offset [o] on. *)
Fixpoint words (n : nat) (d : list Z) (o : Z) : out (list Z) :=
  match n with
  | O => mret []
  | S n => w ← get_le d o 2; ws ← words n d (o + 2); mret (w :: ws)
  end.

Record negotiateInfo := NegotiateInfo { vni_caps : Z; vni_guid : list Z; vni_sm : Z; vni_dialects : list Z }.
Definition IoctlRequest_ValidateNegotiateInfo (d : list Z) : out negotiateInfo :=
  b ← IoctlRequest_InputBuffer d;
  if zlen b <? 24 then Err ErrWrongLength
  else
    caps ← get_le b 0 4; guid ← slice b 4 20; sm ← get_le b 20 2; count ← get_le b 22 2;
    if zlen b <? 24 + count * 2 then Err ErrInvalidParameter
    else ds ← words (Z.to_nat count) b 24; mret (NegotiateInfo caps guid sm ds).

(** ** SMB2_SET_INFO *)
Definition SetInfoRequest_Validate (multi : bool) (d : list Z) : out unit :=
  _ ← validateSized SMB2SetInfoRequestMinSize SMB2SetInfoRequestStructureSize d;
  off ← get_le d (HS + 8) 2; length ← get_le d (HS + 4) 4;
  if negb (fits off length (zlen d)) then Err ErrInvalidParameter
  else if multi then chargeCovers d (sentPayload SMB2SetInfoRequestMinSize d) 0 else mret tt.
Definition SetInfoRequest_InfoType (d : list Z) : out Z := index d (HS + 2).
Definition SetInfoRequest_FileInfoClass (d : list Z) : out Z := index d (HS + 3).
Definition SetInfoRequest_AdditionalInformation (d : list Z) : out Z := get_le d (HS + 12) 4.
Definition SetInfoRequest_FileID (d : list Z) : out (list Z) := slice d (HS + 16) (HS + 32).
Definition SetInfoRequest_Buffer (d : list Z) : out (list Z) :=
  off ← get_le d (HS + 8) 2; length ← get_le d (HS + 4) 4; bufferAt d off length.

Record FileRenameInfo := MkFileRenameInfo { ReplaceIfExists : bool; RootDirectory : Z; RenameFileName : list Z }.
Definition FileRenameInfo_Decode (b : list Z) : out FileRenameInfo :=
  if zlen b <? 20 then Err ErrInvalidParameter
  else
    r ← index b 0; root ← get_le b 8 8; length ← get_le b 16 4;
    if zlen b <? 20 + length then Err ErrInvalidParameter
    else
      name ← slice b 20 (u32 (20 + length));
      mret (MkFileRenameInfo (0 <? r) root (map (fun c => if c =? 0x5c then 0x2f else c) (DecodeToString name))).

(** ** SMB2_QUERY_DIRECTORY, SMB2_QUERY_INFO, SMB2_CHANGE_NOTIFY *)
Definition QueryDirectoryRequest_OutputBufferLength (d : list Z) : out Z := get_le d (HS + 28) 4.
Definition QueryDirectoryRequest_Validate (multi : bool) (d : list Z) : out unit :=
  _ ← validateSized SMB2QueryDirectoryRequestMinSize SMB2QueryDirectoryRequestStructureSize d;
  off ← get_le d (HS + 24) 2; length ← get_le d (HS + 26) 2;
  if negb (fits off length (zlen d)) then Err ErrInvalidParameter
  else if multi then
    ers ← QueryDirectoryRequest_OutputBufferLength d; chargeCovers d (sentPayload SMB2QueryDirectoryRequestMinSize d) ers
  else mret tt.
Definition QueryDirectoryRequest_FileInformationClass (d : list Z) : out Z := index d (HS + 2).
Definition QueryDirectoryRequest_Flags (d : list Z) : out Z := index d (HS + 3).
Definition QueryDirectoryRequest_FileIndex (d : list Z) : out Z := get_le d (HS + 4) 4.
Definition QueryDirectoryRequest_FileID (d : list Z) : out (list Z) := slice d (HS + 8) (HS + 24).
Definition QueryDirectoryRequest_FileName (d : list Z) : out (list Z) :=
  off ← get_le d (HS + 24) 2; length ← get_le d (HS + 26) 2; b ← bufferAt d off length; mret (DecodeToString b).

Definition QueryInfoRequest_OutputBufferLength (d : list Z) : out Z := get_le d (HS + 4) 4.
Definition QueryInfoRequest_Validate (multi : bool) (d : list Z) : out unit :=
  _ ← validateSized SMB2QueryInfoRequestMinSize SMB2QueryInfoRequestStructureSize d;
  off ← get_le d (HS + 8) 2; length ← get_le d (HS + 12) 4;
  if negb (fits off length (zlen d)) then Err ErrInvalidParameter
  else if multi then
    ers ← QueryInfoRequest_OutputBufferLength d; chargeCovers d (sentPayload SMB2QueryInfoRequestMinSize d) ers
  else mret tt.
Definition QueryInfoRequest_InfoType (d : list Z) : out Z := index d (HS + 2).
Definition QueryInfoRequest_FileInfoClass (d : list Z) : out Z := index d (HS + 3).
Definition QueryInfoRequest_InputBuffer (d : list Z) : out (list Z) :=
  off ← get_le d (HS + 8) 2; length ← get_le d (HS + 12) 4; bufferAt d off length.
Definition QueryInfoRequest_AdditionalInformation (d : list Z) : out Z := get_le d (HS + 16) 4.
Definition QueryInfoRequest_Flags (d : list Z) : out Z := get_le d (HS + 20) 4.
Definition QueryInfoRequest_FileID (d : list Z) : out (list Z) := slice d (HS + 24) (HS + 40).

Definition ChangeNotifyRequest_OutputBufferLength (d : list Z) : out Z := get_le d (HS + 4) 4.
Definition ChangeNotifyRequest_Validate (multi : bool) (d : list Z) : out unit :=
  _ ← validateSized SMB2ChangeNotifyRequestMinSize SMB2ChangeNotifyRequestStructureSize d;
  if multi then ers ← ChangeNotifyRequest_OutputBufferLength d; chargeCovers d 0 ers else mret tt.
Definition ChangeNotifyRequest_Flags (d : list Z) : out Z := get_le d (HS + 2) 2.
Definition ChangeNotifyRequest_FileID (d : list Z) : out (list Z) := slice d (HS + 8) (HS + 24).
Definition ChangeNotifyRequest_CompletionFilter (d : list Z) : out Z := get_le d (HS + 24) 4.

(** ** SMB2_OPLOCK_BREAK, of an oplock and of a lease *)
Definition OplockBreakRequest_Validate (d : list Z) : out unit :=
  validateSized SMB2OplockBreakRequestMinSize SMB2OplockBreakRequestStructureSize d.
Definition OplockBreakRequest_OplockLevel (d : list Z) : out Z := index d (HS + 2).
Definition OplockBreakRequest_FileID (d : list Z) : out (list Z) := slice d (HS + 8) (HS + 24).
Definition LeaseBreakRequest_Validate (d : list Z) : out unit :=
  validateSized SMB2LeaseBreakRequestMinSize SMB2LeaseBreakRequestStructureSize d.
Definition LeaseBreakRequest_LeaseKey (d : list Z) : out (list Z) := slice d (HS + 8) (HS + 24).
Definition LeaseBreakRequest_LeaseState (d : list Z) : out Z := get_le d (HS + 24) 4.

(** ** SMB2_CREATE *)

(** One context of the chain at [pos]: what it adds, and where the next one is. *)
Definition createContext (d : list Z) (pos : Z) (contexts : gmap Z (list Z)) : out (gmap Z (list Z) * Z) :=
  let size := zlen d in
  if negb (fits pos 16 size) then Err ErrInvalidParameter
  else
    next ← get_le d pos 4;
    if negb (next =? 0) && (next <? 16) then Err ErrInvalidParameter
    else
      nameOff ← get_le d (pos + 4) 2; nameLen ← get_le d (pos + 6) 2;
      if 4 <? nameLen then mret (contexts, next)
      else if nameLen <? 4 then Err ErrInvalidParameter
      else if negb (fits (pos + nameOff) 4 size) then Err ErrInvalidParameter
      else
        name ← get_be d (pos + nameOff) 4;
        dataOff ← get_le d (pos + 10) 2; dataLen ← get_le d (pos + 12) 4;
        if negb (fits (pos + dataOff) dataLen size) then Err ErrInvalidParameter
        else
          data ← slice d (pos + dataOff) (pos + dataOff + dataLen);
          mret (<[name := data]> contexts, next).
Fixpoint CreateContexts_loop (fuel : nat) (d : list Z) (pos : Z) (contexts : gmap Z (list Z)) : out (gmap Z (list Z)) :=
  if pos <? zlen d then
    match fuel with
    | O => Stuck
    | S fuel =>
        r ← createContext d pos contexts;
        if r.2 =? 0 then mret r.1 else CreateContexts_loop fuel d (pos + r.2) r.1
    end
  else mret contexts.
Definition CreateRequest_CreateContexts (d : list Z) : out (gmap Z (list Z)) :=
  off ← get_le d (HS + 48) 4; length ← get_le d (HS + 52) 4;
  if length <? 4 then mret ∅
  else if negb (fits off length (zlen d)) then Err ErrInvalidParameter
  else CreateContexts_loop (List.length d) d off ∅.

Definition contextReply (name : Z) : Z :=
  if (name =? CREATE_DURABLE_HANDLE_REQUEST) || (name =? CREATE_DURABLE_HANDLE_RECONNECT)
     || (name =? SMB2_CREATE_DURABLE_HANDLE_REQUEST_V2) || (name =? CREATE_QUERY_MAXIMAL_ACCESS_REQUEST) then 8
  else if (name =? CREATE_QUERY_ON_DISK_ID) || (name =? CREATE_REQUEST_LEASE) then 32
  else 0.
Definition CreateRequest_CreateDisposition (d : list Z) : out Z := get_le d (HS + 36) 4.
Definition CreateRequest_CreateOptions (d : list Z) : out Z := get_le d (HS + 40) 4.
Definition CreateRequest_Validate (multi : bool) (d : list Z) : out unit :=
  _ ← validateSized SMB2CreateRequestMinSize SMB2CreateRequestStructureSize d;
  cd ← CreateRequest_CreateDisposition d; co ← CreateRequest_CreateOptions d;
  if has co FILE_DIRECTORY_FILE && negb (cd =? FILE_CREATE) && negb (cd =? FILE_OPEN) && negb (cd =? FILE_OPEN_IF)
  then Err ErrInvalidParameter
  else if has co FILE_DIRECTORY_FILE && (has co FILE_OPEN_BY_FILE_ID || has co FILE_RESERVE_OPFILTER) then Err ErrNotSupported
  else
    off ← get_le d (HS + 44) 2; length ← get_le d (HS + 46) 2;
    if (0 <? off mod 8) || (0 <? length mod 2) || negb (fits off length (zlen d)) then Err ErrInvalidParameter
    else
      cOff ← get_le d (HS + 48) 4; cLength ← get_le d (HS + 52) 4;
      if negb (fits cOff cLength (zlen d)) then Err ErrInvalidParameter
      else if multi then
        match CreateRequest_CreateContexts d with
        | Ok contexts =>
            chargeCovers d (sentPayload SMB2CreateRequestMinSize d)
              (map_fold (fun name _ ers => u32 (ers + contextReply name)) 0 contexts)
        | Err _ => Err ErrInvalidParameter
        | Panic => Panic
        | Stuck => Stuck
        end
      else mret tt.
Definition CreateRequest_RequestedOplockLevel (d : list Z) : out Z := index d (HS + 3).
Definition CreateRequest_ImpersonationLevel (d : list Z) : out Z := get_le d (HS + 4) 4.
Definition CreateRequest_DesiredAccess (d : list Z) : out Z := get_le d (HS + 24) 4.
Definition CreateRequest_SetDesiredAccess (da : Z) (d : list Z) : out (list Z) := put_le d (HS + 24) 4 da.
Definition CreateRequest_FileAttributes (d : list Z) : out Z := get_le d (HS + 28) 4.
Definition CreateRequest_ShareAccess (d : list Z) : out Z := get_le d (HS + 32) 4.
Definition CreateRequest_SetCreateOptions (options : Z) (d : list Z) : out (list Z) := put_le d (HS + 40) 4 options.
Definition CreateRequest_CreateOptionSelected (option : Z) (d : list Z) : out bool :=
  co ← CreateRequest_CreateOptions d; mret (has co option).
Definition CreateRequest_Filename (d : list Z) : out (list Z) :=
  off ← get_le d (HS + 44) 2; length ← get_le d (HS + 46) 2; b ← bufferAt d off length; mret (DecodeToString b).

(** ** SMB2_NEGOTIATE and SMB_COM_NEGOTIATE *)
Definition MinSupportedDialect : Z := SMB_DIALECT_202.
Definition MaxSupportedDialect : Z := SMB_DIALECT_311.
(** ["SMB 2.002"] and ["SMB 2.???"]. *)
Definition SMB_DIALECT_2 : list Z := [83; 77; 66; 32; 50; 46; 48; 48; 50].
Definition SMB_DIALECT_MULTI : list Z := [83; 77; 66; 32; 50; 46; 63; 63; 63].

Definition supportedDialect (dialect : Z) : bool := (MinSupportedDialect <=? dialect) && (dialect <=? MaxSupportedDialect).
Definition NegotiateRequest_at (d : list Z) (i : Z) : out Z := get_le d (HS + SMB2NegotiateRequestMinSize + i * 2) 2.
Fixpoint anySupported (n : nat) (d : list Z) (i : Z) : out bool :=
  match n with
  | O => mret false
  | S n => dialect ← NegotiateRequest_at d i; if supportedDialect dialect then mret true else anySupported n d (i + 1)
  end.
Definition smb1Dialects (d : list Z) : out (list (list Z)) :=
  rest ← slice d (SMBHeaderSize + 4) (zlen d); NullTerminatedToStrings rest.
Definition NegotiateRequest_Validate (multi : bool) (d : list Z) : out unit :=
  _ ← Validate d;
  smb ← IsSmb d;
  if (smb : bool) then
    if zlen d <? SMBHeaderSize + SMBNegotiateRequestMinSize then Err ErrWrongLength
    else
      wc ← index d SMBHeaderSize;
      if negb (wc =? 0) then Err ErrWrongFormat
      else
        bc ← get_le d (SMBHeaderSize + 1) 2;
        if bc <? 2 then Err ErrWrongFormat
        else
          ds ← smb1Dialects d;
          if zlen ds =? 0 then Err ErrInvalidParameter
          else if existsb (fun s => bool_decide (s = SMB_DIALECT_2) || bool_decide (s = SMB_DIALECT_MULTI)) ds then mret tt
          else Err ErrDialectNotSupported
  else
    if zlen d <? HS + SMB2NegotiateRequestMinSize then Err ErrWrongLength
    else
      st ← structureSize d;
      if negb (st =? SMB2NegotiateRequestStructureSize) then Err ErrWrongFormat
      else
        signed ← IsFlagSet FLAGS_SIGNED d;
        if (signed : bool) then Err ErrInvalidParameter
        else
          dialectCount ← get_le d (HS + 2) 2;
          if dialectCount =? 0 then Err ErrInvalidParameter
          else if zlen d <? HS + SMB2NegotiateRequestMinSize + 2 * dialectCount then Err ErrWrongLength
          else
            supported ← anySupported (Z.to_nat dialectCount) d 0;
            if negb supported then Err ErrDialectNotSupported
            else if multi then chargeCovers d (sentPayload SMB2NegotiateRequestMinSize d) 74 else mret tt.
Definition NegotiateRequest_SecurityMode (d : list Z) : out Z := get_le d (HS + 4) 2.
Definition NegotiateRequest_Capabilities (d : list Z) : out Z := get_le d (HS + 8) 4.
Definition NegotiateRequest_ClientGuid (d : list Z) : out (list Z) := slice d (HS + 12) (HS + 28).

Definition commonSmb1 (mx : Z) (s : list Z) : Z :=
  if bool_decide (s = SMB_DIALECT_2) then (if mx <? SMB_DIALECT_202 then SMB_DIALECT_202 else mx)
  else if bool_decide (s = SMB_DIALECT_MULTI) then (if mx <? SMB_DIALECT_MULTICREDIT then SMB_DIALECT_MULTICREDIT else mx)
  else mx.
Fixpoint maxDialect (n : nat) (d : list Z) (i mx : Z) : out Z :=
  match n with
  | O => mret mx
  | S n =>
      dialect ← NegotiateRequest_at d i;
      maxDialect n d (i + 1) (if (mx <? dialect) && supportedDialect dialect then dialect else mx)
  end.
Definition NegotiateRequest_MaxCommonDialect (d : list Z) : out Z :=
  smb ← IsSmb d;
  if (smb : bool) then ds ← smb1Dialects d; mret (fold_left commonSmb1 ds 0)
  else dialectCount ← get_le d (HS + 2) 2; maxDialect (Z.to_nat dialectCount) d 0 0.

(** [Dialects] counts with the 16-bit [dialectCount], so its offsets are 16 bits
    wide too. *)
Fixpoint dialects16 (n : nat) (d : list Z) (i : Z) : out (list Z) :=
  match n with
  | O => mret []
  | S n =>
      let lo := u16 (HS + SMB2NegotiateRequestMinSize + i * 2) in
      s ← slice d lo (u16 (lo + 2));
      ws ← dialects16 n d (i + 1); mret (le_dec s :: ws)
  end.
Definition NegotiateRequest_Dialects (d : list Z) : out (list Z) :=
  dialectCount ← get_le d (HS + 2) 2; dialects16 (Z.to_nat dialectCount) d 0.

(** ** Every request by its kind *)
Inductive kind :=
| KRead | KWrite | KClose | KFlush | KLogoff | KTreeDisconnect | KSessionSetup | KTreeConnect | KIoctl | KSetInfo
| KQueryDirectory | KQueryInfo | KChangeNotify | KOplockBreak | KLeaseBreak | KCreate | KNegotiate.
#[export] Instance kind_eq_dec : EqDecision kind.
Proof. solve_decision. Defined.

Definition validate (k : kind) (multi : bool) (d : list Z) : out unit :=
  match k with
  | KRead => ReadRequest_Validate multi d | KWrite => WriteRequest_Validate multi d
  | KClose => CloseRequest_Validate d | KFlush => FlushRequest_Validate d | KLogoff => LogoffRequest_Validate d
  | KTreeDisconnect => TreeDisconnectRequest_Validate d | KSessionSetup => SessionSetupRequest_Validate multi d
  | KTreeConnect => TreeConnectRequest_Validate multi d | KIoctl => IoctlRequest_Validate multi d
  | KSetInfo => SetInfoRequest_Validate multi d | KQueryDirectory => QueryDirectoryRequest_Validate multi d
  | KQueryInfo => QueryInfoRequest_Validate multi d | KChangeNotify => ChangeNotifyRequest_Validate multi d
  | KOplockBreak => OplockBreakRequest_Validate d | KLeaseBreak => LeaseBreakRequest_Validate d
  | KCreate => CreateRequest_Validate multi d | KNegotiate => NegotiateRequest_Validate multi d
  end.

Definition ignore {A} (m : out A) : out unit := _ ← m; mret tt.
(** The accessors of a kind, each run on the message. *)
Definition accessors (k : kind) (d : list Z) : list (out unit) :=
  match k with
  | KRead => [ignore (ReadRequest_Padding d); ignore (ReadRequest_Flags d); ignore (ReadRequest_Length d);
              ignore (ReadRequest_Offset d); ignore (ReadRequest_FileID d); ignore (ReadRequest_MinimumCount d);
              ignore (ReadRequest_Channel d)]
  | KWrite => [ignore (WriteRequest_DataOffset d); ignore (WriteRequest_Offset d); ignore (WriteRequest_FileID d);
               ignore (WriteRequest_Channel d); ignore (WriteRequest_Flags d); ignore (WriteRequest_Buffer d)]
  | KClose => [ignore (CloseRequest_Flags d); ignore (CloseRequest_FileID d)]
  | KFlush => [ignore (FlushRequest_FileID d)]
  | KLogoff | KTreeDisconnect => []
  | KSessionSetup => [ignore (SessionSetupRequest_Flags d); ignore (SessionSetupRequest_SecurityMode d);
                      ignore (SessionSetupRequest_Capabilities d); ignore (SessionSetupRequest_PreviousSessionID d);
                      ignore (SessionSetupRequest_SecurityBuffer d)]
  | KTreeConnect => [ignore (TreeConnectRequest_PathName d)]
  | KIoctl => [ignore (IoctlRequest_MaxInputResponse d); ignore (IoctlRequest_MaxOutputResponse d);
               ignore (IoctlRequest_CtlCode d); ignore (IoctlRequest_FileID d); ignore (IoctlRequest_InputBuffer d);
               ignore (IoctlRequest_Flags d)]
  | KSetInfo => [ignore (SetInfoRequest_InfoType d); ignore (SetInfoRequest_FileInfoClass d);
                 ignore (SetInfoRequest_AdditionalInformation d); ignore (SetInfoRequest_FileID d);
                 ignore (SetInfoRequest_Buffer d)]
  | KQueryDirectory => [ignore (QueryDirectoryRequest_OutputBufferLength d);
                        ignore (QueryDirectoryRequest_FileInformationClass d); ignore (QueryDirectoryRequest_Flags d);
                        ignore (QueryDirectoryRequest_FileIndex d); ignore (QueryDirectoryRequest_FileID d);
                        ignore (QueryDirectoryRequest_FileName d)]
  | KQueryInfo => [ignore (QueryInfoRequest_OutputBufferLength d); ignore (QueryInfoRequest_InfoType d);
                   ignore (QueryInfoRequest_FileInfoClass d); ignore (QueryInfoRequest_InputBuffer d);
                   ignore (QueryInfoRequest_AdditionalInformation d); ignore (QueryInfoRequest_Flags d);
                   ignore (QueryInfoRequest_FileID d)]
  | KChangeNotify => [ignore (ChangeNotifyRequest_OutputBufferLength d); ignore (ChangeNotifyRequest_Flags d);
                      ignore (ChangeNotifyRequest_FileID d); ignore (ChangeNotifyRequest_CompletionFilter d)]
  | KOplockBreak => [ignore (OplockBreakRequest_OplockLevel d); ignore (OplockBreakRequest_FileID d)]
  | KLeaseBreak => [ignore (LeaseBreakRequest_LeaseKey d); ignore (LeaseBreakRequest_LeaseState d)]
  | KCreate => [ignore (CreateRequest_CreateDisposition d); ignore (CreateRequest_CreateOptions d);
                ignore (CreateRequest_RequestedOplockLevel d); ignore (CreateRequest_ImpersonationLevel d);
                ignore (CreateRequest_DesiredAccess d); ignore (CreateRequest_FileAttributes d);
                ignore (CreateRequest_ShareAccess d); ignore (CreateRequest_Filename d);
                ignore (CreateRequest_SetDesiredAccess 0 d); ignore (CreateRequest_SetCreateOptions 0 d)]
  | KNegotiate => [ignore (NegotiateRequest_MaxCommonDialect d)]
  end.
(** The accessors that parse further and have errors of their own. *)
Definition parsers (k : kind) (d : list Z) : list (out unit) :=
  match k with
  | KIoctl => [ignore (IoctlRequest_ValidateNegotiateInfo d)]
  | KSetInfo => [ignore (b ← SetInfoRequest_Buffer d; FileRenameInfo_Decode b)]
  | KCreate => [ignore (CreateRequest_CreateContexts d)]
  | _ => []
  end.

(** ** Reading inside the message *)
Definition returns {A} (m : out A) : Prop := exists a, m = Ok a.
Lemma returns_settled {A} (m : out A) : returns m -> settled m.
Proof. by intros [a ->]. Qed.
Lemma returns_ignore {A} (m : out A) : returns m -> ignore m = Ok tt.
Proof. by intros [a ->]. Qed.
Lemma settled_ignore {A} (m : out A) : settled m -> settled (ignore m).
Proof. by destruct m. Qed.
Lemma returns_bind {A B} (m : out A) (f : A -> out B) : returns m -> (forall a, m = Ok a -> returns (f a)) -> returns (m ≫= f).
Proof. intros [a ->] Hf. by apply Hf. Qed.
Lemma returns_get_le d off n : 0 <= off -> 0 <= n -> off + n <= zlen d -> returns (get_le d off n).
Proof. intros. rewrite get_le_Ok by lia. by eexists. Qed.
Lemma returns_put_le d off n v : 0 <= off -> 0 <= n -> off + n <= zlen d -> returns (put_le d off n v).
Proof. intros. by apply put_le_Ok. Qed.
Lemma returns_index (d : list Z) i : 0 <= i < zlen d -> returns (index d i).
Proof. intros (x & Hx & _)%(@index_in_range Z smbErr). by exists x. Qed.
Lemma returns_slice (d : list Z) i j : 0 <= i -> i <= j -> j <= zlen d -> returns (slice d i j).
Proof. intros. rewrite slice_Ok by lia. by eexists. Qed.

Lemma get_le_range d off n v : bytes d -> 0 <= off -> 0 <= n -> @get_le smbErr d off n = Ok v -> 0 <= v < 2 ^ (8 * n).
Proof.
  intros Hb Ho Hn Hg. assert (off + n <= zlen d) as Hl by (unfold get_le in Hg; apply bind_Ok in Hg as (s & Hs & _); unfold slice in Hs;
    destruct (_ && _) eqn:Hc; [|discriminate]; apply andb_prop in Hc as [_ Hc%Z.leb_le]; lia).
  destruct (get_le_bytes (E:=smbErr) d off n Hb Ho Hn Hl) as (w & Hw & ?). congruence.
Qed.

Lemma fits_spec off length size :
  0 <= off < 2 ^ 62 -> 0 <= length < 2 ^ 62 -> fits off length size = true <-> off + length <= size.
Proof. intros. unfold fits, u64. rewrite Z.mod_small by lia. apply Z.leb_le. Qed.

Lemma returns_bufferAt d off length :
  zlen d < 2 ^ 32 -> 0 <= off < 2 ^ 32 -> 0 <= length < 2 ^ 32 -> returns (bufferAt d off length).
Proof.
  intros Hd Ho Hl. unfold bufferAt. destruct (fits off length (zlen d)) eqn:E; [|by eexists].
  apply fits_spec in E; [|lia|lia]. unfold u32. rewrite Z.mod_small by lia. apply returns_slice; lia.
Qed.

Lemma returns_structureSize d : 66 <= zlen d -> returns (structureSize d).
Proof.
  intros. unfold structureSize, IsSmb, ProtocolID. rewrite (get_le_Ok d 0 4) by lia. simpl. destruct (_ =? _); [by eexists|].
  apply returns_get_le; unfold SMB2HeaderSize; lia.
Qed.
Lemma validateSized_settled minSize st d : 2 <= minSize -> settled (validateSized minSize st d).
Proof.
  intros Hm. unfold validateSized. apply settled_bind; [apply Validate_settled|]. intros [] _.
  change SMB2HeaderSize with 64. bdestr1; [done|].
  apply settled_bind; [apply returns_settled, returns_structureSize; lia|]. intros a _. by destruct (negb _).
Qed.
Lemma validateSized_len minSize st d : validateSized minSize st d = Ok tt -> HS + minSize <= zlen d.
Proof.
  unfold validateSized, HS. intros H. inv_bind. destruct (Z.ltb_spec (zlen d) (SMB2HeaderSize + minSize)); [discriminate|lia].
Qed.
Lemma chargeCovers_settled d sps ers : 8 <= zlen d -> settled (chargeCovers d sps ers).
Proof.
  intros. unfold chargeCovers, CreditCharge. rewrite get_le_Ok by lia. run_bind.
  destruct (_ =? 0); [by destruct (_ || _)|by destruct (_ <? _)].
Qed.

Ltac sizes :=
  unfold HS, SMB2HeaderSize, SMBHeaderSize, SMB2ReadRequestMinSize, SMB2WriteRequestMinSize, SMB2CloseRequestMinSize, SMB2FlushRequestMinSize,
    SMB2LogoffRequestMinSize, SMB2TreeDisconnectRequestMinSize, SMB2SessionSetupRequestMinSize, SMB2TreeConnectRequestMinSize,
    SMB2IoctlRequestMinSize, SMB2SetInfoRequestMinSize, SMB2QueryDirectoryRequestMinSize, SMB2QueryInfoRequestMinSize,
    SMB2ChangeNotifyRequestMinSize, SMB2OplockBreakRequestMinSize, SMB2LeaseBreakRequestMinSize, SMB2CreateRequestMinSize,
    SMB2NegotiateRequestMinSize, SMBNegotiateRequestMinSize in *.
(** Walk through a routine, discharging each access by the lengths in the context. *)
Ltac walk1 :=
  match goal with
  | H : validateSized _ _ _ = Ok ?u |- _ => destruct u; apply validateSized_len in H; sizes
  | |- settled (validateSized _ _ _) => apply validateSized_settled; by sizes
  | |- settled (_ ≫= _) => apply settled_bind; [|intros ? ?]
  | |- returns (_ ≫= _) => apply returns_bind; [|intros ? ?]
  | |- settled (Err _) => exact I
  | |- settled (mret _) => exact I
  | |- returns (mret _) => by eexists
  | |- settled (chargeCovers _ _ _) => apply chargeCovers_settled; lia
  | |- settled (if ?b then _ else _) => destruct b eqn:?
  | |- settled (ignore _) => apply settled_ignore
  | |- ignore _ = Ok tt => apply returns_ignore
  | |- returns (get_le _ _ _) => apply returns_get_le; lia
  | |- returns (put_le _ _ _ _) => apply returns_put_le; lia
  | |- returns (index _ _) => apply returns_index; lia
  | |- returns (slice _ _ _) => apply returns_slice; lia
  | |- settled (get_le _ _ _) => apply returns_settled
  | |- settled (slice _ _ _) => apply returns_settled
  | |- settled (index _ _) => apply returns_settled
  end.
Ltac walk := repeat walk1.

(** ** The contexts of a create *)
Lemma createContext_settled d pos contexts : bytes d -> zlen d < 2 ^ 32 -> 0 <= pos < 2 ^ 32 -> settled (createContext d pos contexts).
Proof.
  intros Hb Hd Hp. unfold createContext. cbv zeta.
  destruct (fits pos 16 (zlen d)) eqn:E; [|done]. apply fits_spec in E; [|lia|lia]. simpl negb. cbv iota. walk.
  - apply (get_le_range d (pos + 4) 2) in H0; [|done|lia|lia]. apply negb_false_iff, fits_spec in Heqb2; [|lia|lia].
    unfold get_be. walk.
  - apply (get_le_range d (pos + 10) 2) in H3; [|done|lia|lia]. apply (get_le_range d (pos + 12) 4) in H4; [|done|lia|lia].
    apply negb_false_iff, fits_spec in Heqb3; [|lia|lia]. walk.
Qed.
(** A context that is not the last moves the walk on by 16 bytes at least. *)
Lemma createContext_advances d pos contexts contexts' next :
  bytes d -> 0 <= pos -> createContext d pos contexts = Ok (contexts', next) -> next = 0 \/ 16 <= next.
Proof.
  intros Hb Hp. unfold createContext. cbv zeta. destruct (fits pos 16 (zlen d)); [simpl negb; cbv iota|done].
  intros H. apply bind_Ok in H as (n & Hn & H).
  apply (get_le_range d pos 4) in Hn; [|done|lia|lia]. destruct (negb (n =? 0) && (n <? 16)) eqn:E; [done|].
  assert (next = n) as ->; [|destruct (Z.eqb_spec n 0), (Z.ltb_spec n 16); simpl in E; auto; discriminate].
  repeat match goal with
  | H : (_ ≫= _) = Ok _ |- _ => apply bind_Ok in H as (? & _ & H)
  | H : (if ?b then _ else _) = Ok _ |- _ => destruct b
  end; unfold mret, outcome_ret in H; congruence.
Qed.
Lemma CreateContexts_loop_settled fuel d pos contexts :
  bytes d -> zlen d < 2 ^ 32 -> 0 <= pos -> zlen d - pos <= Z.of_nat fuel -> settled (CreateContexts_loop fuel d pos contexts).
Proof.
  intros Hb Hd. revert pos contexts. induction fuel as [|fuel IH]; intros pos contexts Hp Hf; simpl;
    (destruct (Z.ltb_spec pos (zlen d)); [|done]); [lia|].
  apply settled_bind; [apply createContext_settled; [done|done|lia]|]. intros [c next] Hc. simpl.
  apply createContext_advances in Hc; [|done|done]. bdestr1; [done|]. apply IH; lia.
Qed.
Lemma CreateContexts_settled d : bytes d -> zlen d < 2 ^ 32 -> 120 <= zlen d -> settled (CreateRequest_CreateContexts d).
Proof.
  intros Hb Hd Hl. unfold CreateRequest_CreateContexts, HS, SMB2HeaderSize. walk.
  apply CreateContexts_loop_settled; [done|done| |].
  all: apply (get_le_range d (64 + 48) 4) in H; [|done|lia|lia]; unfold zlen in *; lia.
Qed.

(** ** The dialects of a negotiate *)
Lemma anySupported_returns n d i : 0 <= i -> 100 + 2 * (i + Z.of_nat n) <= zlen d -> returns (anySupported n d i).
Proof.
  revert i. induction n as [|n IH]; intros i Hi Hl; simpl; [by eexists|]. unfold NegotiateRequest_at. sizes. walk.
  destruct (supportedDialect a); [by eexists|]. apply IH; lia.
Qed.
Lemma maxDialect_returns n d i mx : 0 <= i -> 100 + 2 * (i + Z.of_nat n) <= zlen d -> returns (maxDialect n d i mx).
Proof.
  revert i mx. induction n as [|n IH]; intros i mx Hi Hl; simpl; [by eexists|]. unfold NegotiateRequest_at. sizes. walk.
  apply IH; lia.
Qed.
Lemma words_returns n d o : 0 <= o -> o + 2 * Z.of_nat n <= zlen d -> returns (words n d o).
Proof. revert o. induction n as [|n IH]; intros o Ho Hl; simpl; [by eexists|]. walk. apply IH; lia. Qed.
Lemma smb1Dialects_returns d : 36 <= zlen d -> returns (smb1Dialects d).
Proof. intros. unfold smb1Dialects. sizes. walk. apply NullTerminatedToStrings_total. Qed.

(** ** Validation stands any bytes *)
Lemma CreateRequest_Validate_settled multi d : bytes d -> zlen d < 2 ^ 32 -> settled (CreateRequest_Validate multi d).
Proof.
  intros Hb Hd. unfold CreateRequest_Validate, CreateRequest_CreateDisposition, CreateRequest_CreateOptions. walk.
  pose proof (CreateContexts_settled d Hb Hd ltac:(lia)) as Hs.
  destruct (CreateRequest_CreateContexts d); [apply chargeCovers_settled; lia|done..].
Qed.
Lemma NegotiateRequest_Validate_settled multi d : bytes d -> settled (NegotiateRequest_Validate multi d).
Proof.
  intros Hb. unfold NegotiateRequest_Validate. apply settled_bind; [apply Validate_settled|]. intros [] Hv%Validate_len.
  unfold IsSmb, ProtocolID. sizes. walk.
  all: repeat match goal with H : (_ <? _) = false |- _ => apply Z.ltb_ge in H end.
  all: walk.
  - apply returns_settled, smb1Dialects_returns. lia.
  - apply returns_settled, returns_structureSize. lia.
  - unfold IsFlagSet, Flags. walk.
  - apply (get_le_range d (64 + 2) 2) in H2; [|done|lia|lia]. apply returns_settled, anySupported_returns; lia.
Qed.

(** Validation stands any bytes: whatever arrives, for each of the seventeen kinds of request
    and with or without multi-credit operation, [Validate] ends in a verdict - no slice access
    is out of range and no loop fails to end, the walk through a create's context chain
    included. *)
Theorem requests_validate_totally (k : kind) (multi : bool) (d : list Z) :
  bytes d -> zlen d < 2 ^ 32 -> settled (validate k multi d).
Proof.
  intros Hb Hd. destruct k; simpl.
  16: by apply CreateRequest_Validate_settled.
  16: by apply NegotiateRequest_Validate_settled.
  all: unfold ReadRequest_Validate, WriteRequest_Validate, CloseRequest_Validate, FlushRequest_Validate, LogoffRequest_Validate,
    TreeDisconnectRequest_Validate, SessionSetupRequest_Validate, TreeConnectRequest_Validate, IoctlRequest_Validate, SetInfoRequest_Validate,
    QueryDirectoryRequest_Validate, QueryInfoRequest_Validate, ChangeNotifyRequest_Validate, OplockBreakRequest_Validate, LeaseBreakRequest_Validate,
    ReadRequest_Length, WriteRequest_DataOffset, IoctlRequest_MaxInputResponse, IoctlRequest_MaxOutputResponse,
    QueryDirectoryRequest_OutputBufferLength, QueryInfoRequest_OutputBufferLength, ChangeNotifyRequest_OutputBufferLength; walk.
Qed.

(** ** A validated request is read *)
Definition minSize (k : kind) : Z :=
  match k with
  | KRead => SMB2ReadRequestMinSize | KWrite => SMB2WriteRequestMinSize | KClose => SMB2CloseRequestMinSize
  | KFlush => SMB2FlushRequestMinSize | KLogoff => SMB2LogoffRequestMinSize | KTreeDisconnect => SMB2TreeDisconnectRequestMinSize
  | KSessionSetup => SMB2SessionSetupRequestMinSize | KTreeConnect => SMB2TreeConnectRequestMinSize | KIoctl => SMB2IoctlRequestMinSize
  | KSetInfo => SMB2SetInfoRequestMinSize | KQueryDirectory => SMB2QueryDirectoryRequestMinSize | KQueryInfo => SMB2QueryInfoRequestMinSize
  | KChangeNotify => SMB2ChangeNotifyRequestMinSize | KOplockBreak => SMB2OplockBreakRequestMinSize
  | KLeaseBreak => SMB2LeaseBreakRequestMinSize | KCreate => SMB2CreateRequestMinSize | KNegotiate => SMB2NegotiateRequestMinSize
  end.
Lemma validate_len k multi d : k <> KNegotiate -> validate k multi d = Ok tt -> HS + minSize k <= zlen d.
Proof.
  intros Hk. destruct k; try done; simpl;
    unfold ReadRequest_Validate, WriteRequest_Validate, CloseRequest_Validate, FlushRequest_Validate, LogoffRequest_Validate,
    TreeDisconnectRequest_Validate, SessionSetupRequest_Validate, TreeConnectRequest_Validate, IoctlRequest_Validate, SetInfoRequest_Validate,
    QueryDirectoryRequest_Validate, QueryInfoRequest_Validate, ChangeNotifyRequest_Validate, OplockBreakRequest_Validate,
    LeaseBreakRequest_Validate, CreateRequest_Validate; intros H.
  all: first [by apply validateSized_len in H|apply bind_Ok in H as ([] & H & _); by apply validateSized_len in H].
Qed.
(** A buffer whose offset and length are two fields of the message. *)
Lemma fields_buffer d o1 n1 o2 n2 :
  bytes d -> zlen d < 2 ^ 32 -> 0 <= o1 -> 0 <= n1 <= 4 -> o1 + n1 <= zlen d -> 0 <= o2 -> 0 <= n2 <= 4 -> o2 + n2 <= zlen d ->
  returns (off ← get_le d o1 n1; length ← get_le d o2 n2; bufferAt d off length).
Proof.
  intros Hb Hd H1 Hn1 Hl1 H2 Hn2 Hl2. walk. apply (get_le_range d o1 n1) in H; [|done|lia|lia].
  apply (get_le_range d o2 n2) in H0; [|done|lia|lia].
  assert (forall n, 0 <= n <= 4 -> 2 ^ (8 * n) <= 2 ^ 32) as Hp by (intros; apply Z.pow_le_mono_r; lia).
  pose proof (Hp n1 Hn1). pose proof (Hp n2 Hn2). apply returns_bufferAt; lia.
Qed.
Lemma fields_text d o1 o2 :
  bytes d -> zlen d < 2 ^ 32 -> 0 <= o1 -> o1 + 2 <= zlen d -> 0 <= o2 -> o2 + 2 <= zlen d ->
  returns (off ← get_le d o1 2; length ← get_le d o2 2; b ← bufferAt d off length; mret (DecodeToString b)).
Proof.
  intros Hb Hd H1 Hl1 H2 Hl2. destruct (fields_buffer d o1 2 o2 2) as [b H]; [done|done|lia..|].
  apply bind_Ok in H as (x & -> & H). apply bind_Ok in H as (y & Hy & H). rewrite bind_ret, Hy. run_bind. rewrite H. by eexists.
Qed.

Lemma buffer_bytes d o1 n1 o2 n2 b :
  bytes d -> (off ← get_le d o1 n1; length ← get_le d o2 n2; bufferAt d off length) = Ok b -> bytes b /\ zlen b <= zlen d.
Proof.
  intros Hb H. apply bind_Ok in H as (x & _ & H). apply bind_Ok in H as (y & _ & H). unfold bufferAt in H.
  destruct (fits _ _ _); [|injection H as <-; split; [constructor|apply zlen_nonneg]].
  unfold slice in H. destruct (_ && _); [|done]. injection H as <-. split; [by apply Forall_take, Forall_drop|].
  unfold zlen. rewrite length_take, length_drop. lia.
Qed.
Ltac walk_fields :=
  first [apply fields_buffer; [done|done|lia..] | apply fields_text; [done|done|lia..] | walk].
Lemma accessors_read k d : k <> KNegotiate -> bytes d -> zlen d < 2 ^ 32 -> HS + minSize k <= zlen d -> Forall (eq (Ok tt)) (accessors k d).
Proof.
  intros Hk Hb Hd Hl. destruct k; try done; simpl in *; sizes.
  all: repeat (constructor; [symmetry; apply returns_ignore|]); try constructor.
  all: unfold WriteRequest_Buffer, WriteRequest_DataOffset.
  all: try match goal with |- returns (?f _) => unfold f | |- returns (?f _ _) => unfold f end; sizes.
  all: try walk_fields.
  destruct (_ <? _); [by eexists|walk].
Qed.

(** *** The dialects *)
Definition better (m x : Z) : Z := if (m <? x) && supportedDialect x then x else m.
Lemma maxDialect_words n d i mx ws :
  words n d (100 + 2 * i) = Ok ws -> maxDialect n d i mx = Ok (fold_left better ws mx).
Proof.
  revert i mx ws. induction n as [|n IH]; intros i mx ws H; simpl in *; [by injection H as <-|].
  unfold NegotiateRequest_at. sizes. replace (64 + 36 + i * 2) with (100 + 2 * i) by lia.
  apply bind_Ok in H as (w & -> & H). apply bind_Ok in H as (ws' & Hw & [= <-]). run_bind. simpl.
  apply IH. by replace (100 + 2 * (i + 1)) with (100 + 2 * i + 2) by lia.
Qed.
Lemma anySupported_words n d i ws : words n d (100 + 2 * i) = Ok ws -> anySupported n d i = Ok (existsb supportedDialect ws).
Proof.
  revert i ws. induction n as [|n IH]; intros i ws H; simpl in *; [by injection H as <-|].
  unfold NegotiateRequest_at. sizes. replace (64 + 36 + i * 2) with (100 + 2 * i) by lia.
  apply bind_Ok in H as (w & -> & H). apply bind_Ok in H as (ws' & Hw & [= <-]). run_bind. simpl.
  destruct (supportedDialect w); [done|]. apply IH. by replace (100 + 2 * (i + 1)) with (100 + 2 * i + 2) by lia.
Qed.
Lemma better_max ws mx :
  mx <= fold_left better ws mx /\
  (fold_left better ws mx = mx \/ In (fold_left better ws mx) ws /\ supportedDialect (fold_left better ws mx) = true) /\
  (forall x, In x ws -> supportedDialect x = true -> x <= fold_left better ws mx).
Proof.
  revert mx. induction ws as [|w ws IH]; intros mx; simpl; [split; [lia|split; [by left|done]]|].
  destruct (IH (better mx w)) as (H1 & H2 & H3).
  assert (mx <= better mx w /\ (better mx w = mx \/ better mx w = w /\ supportedDialect w = true) /\
          (supportedDialect w = true -> w <= better mx w)) as (B1 & B2 & B3).
  { unfold better. destruct (Z.ltb_spec mx w), (supportedDialect w) eqn:E; simpl; repeat split; auto; lia. }
  split; [lia|]. split; [|intros x [->|Hx] Hs; [specialize (B3 Hs); lia|by apply H3]].
  destruct H2 as [->|[? ?]]; [|by auto]. destruct B2 as [->|[-> ?]]; auto.
Qed.

(** What a validated SMB2 negotiate holds. *)
Lemma negotiate_holds multi d : bytes d -> NegotiateRequest_Validate multi d = Ok tt -> IsSmb d = Ok false ->
  exists count ws, get_le (E:=smbErr) d 66 2 = Ok count /\ 0 < count < 2 ^ 16 /\ 100 + 2 * count <= zlen d /\
    words (Z.to_nat count) d 100 = Ok ws /\ existsb supportedDialect ws = true.
Proof.
  intros Hb H Hs. unfold NegotiateRequest_Validate in H. apply bind_Ok in H as ([] & _ & H). rewrite Hs in H. rewrite bind_ret in H. cbv beta iota in H.
  sizes. destruct (Z.ltb_spec (zlen d) (64 + 36)); [done|]. apply bind_Ok in H as (st & _ & H). destruct (negb _); [done|].
  apply bind_Ok in H as (sg & _ & H). destruct sg; [done|]. apply bind_Ok in H as (count & Hc & H).
  pose proof (get_le_range d (64 + 2) 2 count Hb ltac:(lia) ltac:(lia) Hc).
  destruct (Z.eqb_spec count 0); [done|]. destruct (Z.ltb_spec (zlen d) (64 + 36 + 2 * count)); [done|].
  destruct (words_returns (Z.to_nat count) d 100) as [ws Hw]; [lia|lia|].
  apply bind_Ok in H as (sup & Ha & H). rewrite (anySupported_words _ d 0 ws) in Ha by done. injection Ha as <-.
  exists count, ws. repeat split; try done; try lia. by destruct (existsb _ _).
Qed.
(** What a validated SMB_COM_NEGOTIATE holds. *)
Lemma smb1_negotiate_holds multi d : NegotiateRequest_Validate multi d = Ok tt -> IsSmb d = Ok true ->
  exists ds, smb1Dialects d = Ok ds /\ (SMB_DIALECT_2 ∈ ds \/ SMB_DIALECT_MULTI ∈ ds).
Proof.
  intros H Hs. unfold NegotiateRequest_Validate in H. apply bind_Ok in H as ([] & _ & H). rewrite Hs in H. rewrite bind_ret in H. cbv beta iota in H.
  destruct (_ <? _); [done|]. apply bind_Ok in H as (wc & _ & H). destruct (negb _); [done|]. apply bind_Ok in H as (bc & _ & H).
  destruct (_ <? _); [done|]. apply bind_Ok in H as (ds & Hds & H). exists ds. split; [done|].
  destruct (_ =? 0); [done|]. destruct (existsb _ _) eqn:E; [|done].
  apply existsb_exists in E as (s & Hin & [E%bool_decide_eq_true|E%bool_decide_eq_true]%orb_prop); subst; apply list_elem_of_In in Hin; auto.
Qed.
Lemma commonSmb1_spec ds mx : mx = 0 \/ mx = SMB_DIALECT_202 \/ mx = SMB_DIALECT_MULTICREDIT ->
  fold_left commonSmb1 ds mx =
    if bool_decide (SMB_DIALECT_MULTI ∈ ds \/ mx = SMB_DIALECT_MULTICREDIT) then SMB_DIALECT_MULTICREDIT
    else if bool_decide (SMB_DIALECT_2 ∈ ds \/ mx = SMB_DIALECT_202) then SMB_DIALECT_202 else 0.
Proof.
  revert mx. induction ds as [|s ds IH]; intros mx Hmx; simpl.
  { destruct Hmx as [->|[->| ->]]; done. }
  rewrite IH.
  - assert (SMB_DIALECT_2 <> SMB_DIALECT_MULTI) by done. unfold commonSmb1.
    destruct (decide (s = SMB_DIALECT_2)) as [->|N2]; [rewrite (bool_decide_true (SMB_DIALECT_2 = _)) by done|rewrite (bool_decide_false (s = _)) by done;
      destruct (decide (s = SMB_DIALECT_MULTI)) as [->|Nm]; [rewrite (bool_decide_true (SMB_DIALECT_MULTI = _)) by done|rewrite (bool_decide_false (s = _)) by done]].
    all: destruct Hmx as [->|[->| ->]]; simpl; repeat case_bool_decide; set_solver.
  - unfold commonSmb1. destruct (bool_decide _); [|destruct (bool_decide _)]; destruct Hmx as [->|[->| ->]]; simpl; auto.
Qed.

Lemma ValidateNegotiateInfo_settled d : bytes d -> zlen d < 2 ^ 32 -> HS + minSize KIoctl <= zlen d -> settled (IoctlRequest_ValidateNegotiateInfo d).
Proof.
  intros Hb Hd Hl. simpl in Hl. sizes. unfold IoctlRequest_ValidateNegotiateInfo, IoctlRequest_InputBuffer. sizes.
  apply settled_bind; [apply returns_settled; walk_fields|]. intros b Hbuf.
  assert (bytes b) by (by apply (buffer_bytes d _ _ _ _ _ Hb Hbuf)).
  destruct (Z.ltb_spec (zlen b) 24); [done|]. walk.
  apply Z.ltb_ge in Heqb0. apply (get_le_range b 22 2) in H4; [|done|lia|lia]. apply returns_settled, words_returns; lia.
Qed.
Lemma rename_settled d : bytes d -> zlen d < 2 ^ 32 -> HS + minSize KSetInfo <= zlen d ->
  settled (b ← SetInfoRequest_Buffer d; FileRenameInfo_Decode b).
Proof.
  intros Hb Hd Hl. simpl in Hl. sizes. unfold SetInfoRequest_Buffer. sizes.
  apply settled_bind; [apply returns_settled; walk_fields|]. intros b Hbuf.
  destruct (buffer_bytes d _ _ _ _ _ Hb Hbuf) as [Hbb Hbl]. unfold FileRenameInfo_Decode.
  destruct (Z.ltb_spec (zlen b) 20); [done|]. walk. apply Z.ltb_ge in Heqb0.
  apply (get_le_range b 16 4) in H2; [|done|lia|lia]. apply returns_slice; unfold u32; rewrite ?Z.mod_small; lia.
Qed.

(** A request that passes [Validate] is read without a panic: every accessor of its kind
    returns a value, and the parsers built on them (the create contexts, the rename
    information, the negotiation repeated in an ioctl) end in a value or an error. *)
Theorem validated_requests_read (k : kind) (multi : bool) (d : list Z) :
  bytes d -> zlen d < 2 ^ 32 -> validate k multi d = Ok tt ->
  Forall (eq (Ok tt)) (accessors k d) /\ Forall settled (parsers k d).
Proof.
  intros Hb Hd H. destruct (decide (k = KNegotiate)) as [->|Hk].
  { simpl in *. split; [|done]. constructor; [|done]. symmetry. apply returns_ignore. unfold NegotiateRequest_MaxCommonDialect.
    assert (exists smb, IsSmb d = Ok smb) as [smb Hs].
    { unfold NegotiateRequest_Validate in H. apply bind_Ok in H as (_ & _ & H). apply bind_Ok in H as (smb & Hs & _). eauto. }
    rewrite Hs. run_bind. destruct smb.
    - destruct (smb1_negotiate_holds multi d H Hs) as (ds & -> & _). by eexists.
    - destruct (negotiate_holds multi d Hb H Hs) as (c & ws & Hc & _ & _ & Hw & _). change (HS + 2) with 66.
      rewrite Hc. run_bind. eexists. by apply (maxDialect_words _ d 0). }
  apply validate_len in H; [|done]. split; [by apply accessors_read|].
  destruct k; simpl in *; try (by constructor); (constructor; [apply settled_ignore|done]).
  - by apply ValidateNegotiateInfo_settled.
  - by apply rename_settled.
  - apply CreateContexts_settled; [done|done|sizes; lia].
Qed.

(** The dialect that is answered with is the best both sides know: the negotiate passed
    [Validate], so one that is supported was offered, and the one chosen was offered, is
    supported, and no other of that sort is newer. *)
Theorem best_dialect_chosen (multi : bool) (d : list Z) :
  bytes d -> NegotiateRequest_Validate multi d = Ok tt -> IsSmb d = Ok false ->
  exists count offered r, get_le (E:=smbErr) d (HS + 2) 2 = Ok count /\ words (Z.to_nat count) d (HS + SMB2NegotiateRequestMinSize) = Ok offered /\
    NegotiateRequest_MaxCommonDialect d = Ok r /\ In r offered /\ supportedDialect r = true /\
    (forall x, In x offered -> supportedDialect x = true -> x <= r).
Proof.
  intros Hb H Hs. destruct (negotiate_holds multi d Hb H Hs) as (c & ws & Hc & _ & _ & Hw & He).
  exists c, ws, (fold_left better ws 0). split; [done|]. split; [done|].
  unfold NegotiateRequest_MaxCommonDialect. rewrite Hs. run_bind. cbv iota. change (HS + 2) with 66. rewrite Hc. run_bind.
  split; [by apply (maxDialect_words _ d 0)|]. destruct (better_max ws 0) as (H1 & H2 & H3).
  apply existsb_exists in He as (x & Hx & Hsx). specialize (H3 x Hx Hsx) as Hle.
  destruct H2 as [H2|[H2 H4]]; [|by repeat split].
  rewrite H2 in Hle. unfold supportedDialect, MinSupportedDialect, SMB_DIALECT_202 in Hsx. apply andb_prop in Hsx as [Hsx%Z.leb_le _]. lia.
Qed.

(** A message that passes the credit check is paid for: neither what it carries nor what
    its answer may hold is more than 64 KiB for each credit charged (a charge of nought
    counts as one), for sizes whose own charge a 16-bit field can hold. *)
Theorem charge_is_covered (d : list Z) (sps ers cc : Z) :
  0 <= sps < 65535 * 65536 -> 0 <= ers < 65535 * 65536 ->
  CreditCharge d = Ok cc -> 0 <= cc -> chargeCovers d sps ers = Ok tt -> Z.max sps ers <= 65536 * Z.max 1 cc.
Proof.
  intros Hs He Hc Hcc. unfold chargeCovers. rewrite Hc. run_bind. destruct (Z.eqb_spec cc 0) as [->|].
  - destruct (Z.gtb_spec sps 65536), (Z.gtb_spec ers 65536); simpl; try discriminate. lia.
  - destruct (Z.ltb_spec cc (u16 (u16 (u32 (Z.max sps ers - 1) / 65536) + 1))) as [|Hle]; [done|]. intros _.
    destruct (Z.eq_dec (Z.max sps ers) 0); [lia|]. unfold u32, u16 in Hle. rewrite (Z.mod_small (Z.max sps ers - 1)) in Hle by lia.
    assert (0 <= (Z.max sps ers - 1) / 65536 < 65535) by (split; [apply Z.div_pos; lia|apply Z.div_lt_upper_bound; lia]).
    rewrite (Z.mod_small ((Z.max sps ers - 1) / 65536)) in Hle by lia.
    rewrite Z.mod_small in Hle by lia. pose proof (Z.mod_pos_bound (Z.max sps ers - 1) 65536).
    pose proof (Z.div_mod (Z.max sps ers - 1) 65536). lia.
Qed.

(** ** Dialects counted in 16 bits *)
Lemma dialects16_words n d i ws : 0 <= i -> i + Z.of_nat n < 32718 -> words n d (100 + 2 * i) = Ok ws -> dialects16 n d i = Ok ws.
Proof.
  revert i ws. induction n as [|n IH]; intros i ws Hi Hn H; simpl in *; [done|]. sizes.
  unfold u16. rewrite (Z.mod_small (64 + 36 + i * 2)), Z.mod_small by lia.
  replace (64 + 36 + i * 2) with (100 + 2 * i) by lia. unfold get_le in H.
  apply bind_Ok in H as (w & Hw & H). apply bind_Ok in Hw as (s & -> & [= <-]).
  apply bind_Ok in H as (ws' & Hws & [= <-]). run_bind. rewrite (IH _ ws'); [done|lia|lia|].
  by replace (100 + 2 * (i + 1)) with (100 + 2 * i + 2) by lia.
Qed.
Lemma dialects16_wraps n d i : 0 <= i <= 32717 -> 32718 <= i + Z.of_nat n -> 65536 <= zlen d -> dialects16 n d i = Panic.
Proof.
  revert i. induction n as [|n IH]; intros i Hi Hn Hl; [simpl in Hn; lia|]. simpl. sizes. unfold u16.
  destruct (Z.eq_dec i 32717) as [->|].
  - change ((64 + 36 + 32717 * 2) mod 2 ^ 16) with 65534. change ((65534 + 2) mod 2 ^ 16) with 0. done.
  - rewrite (Z.mod_small (64 + 36 + i * 2)), Z.mod_small by lia. rewrite slice_Ok by lia. run_bind. rewrite IH by lia. done.
Qed.

(** [Dialects], which is read once a negotiate has passed [Validate], returns the list that
    was offered as long as it is shorter than 32718, and past that panics: it counts with
    the 16-bit field, so the offset of the last entry wraps. *)
Theorem Dialects_limit (multi : bool) (d : list Z) (count : Z) :
  bytes d -> NegotiateRequest_Validate multi d = Ok tt -> IsSmb d = Ok false -> get_le (E:=smbErr) d (HS + 2) 2 = Ok count ->
  NegotiateRequest_Dialects d =
    if count <? 32718 then words (Z.to_nat count) d (HS + SMB2NegotiateRequestMinSize) else Panic.
Proof.
  intros Hb H Hs Hc. destruct (negotiate_holds multi d Hb H Hs) as (c & ws & Hc' & Hr & Hl & Hw & _).
  change (HS + 2) with 66 in Hc. rewrite Hc in Hc'. injection Hc' as ->.
  unfold NegotiateRequest_Dialects. change (HS + 2) with 66. rewrite Hc. run_bind.
  destruct (Z.ltb_spec c 32718).
  - change (HS + SMB2NegotiateRequestMinSize) with 100. rewrite Hw. apply dialects16_words; [lia|lia|done].
  - apply dialects16_wraps; lia.
Qed.

(** Any number between the oldest and the newest dialect counts as supported, whether
    or not it is a dialect: offered 3.0 and 0x0303, the server settles on the latter. *)
Theorem unlisted_dialect_chosen :
  let d := le_enc 4 PROTOCOL_SMB2 ++ le_enc 2 SMB2HeaderStructureSize ++ replicate 58 0 ++
           le_enc 2 SMB2NegotiateRequestStructureSize ++ le_enc 2 2 ++ replicate 32 0 ++ le_enc 2 SMB_DIALECT_30 ++ le_enc 2 0x0303 in
  NegotiateRequest_Validate false d = Ok tt /\ NegotiateRequest_MaxCommonDialect d = Ok 0x0303.
Proof. split; vm_compute; reflexivity. Qed.

(** ** Witnesses *)
Definition sampleHeader (cc : Z) : list Z :=
  le_enc 4 PROTOCOL_SMB2 ++ le_enc 2 SMB2HeaderStructureSize ++ le_enc 2 cc ++ replicate 56 0.
(** A negotiate that offers 2.1 [n] times. *)
Definition sampleNegotiate (n : nat) : list Z :=
  sampleHeader 1 ++ le_enc 2 SMB2NegotiateRequestStructureSize ++ le_enc 2 (Z.of_nat n) ++ replicate 32 0 ++
  concat (replicate n [0x10; 0x02]).
(** A create of the file "a" with one context, which has no data. *)
Definition sampleCreate : list Z :=
  sampleHeader 1 ++ le_enc 2 SMB2CreateRequestStructureSize ++ replicate 34 0 ++ le_enc 4 FILE_OPEN ++ le_enc 4 0 ++
  le_enc 2 120 ++ le_enc 2 2 ++ le_enc 4 128 ++ le_enc 4 20 ++
  [0x61; 0; 0; 0; 0; 0; 0; 0] ++ le_enc 4 0 ++ le_enc 2 16 ++ le_enc 2 4 ++ le_enc 2 0 ++ le_enc 2 20 ++ le_enc 4 0 ++ [0x4d; 0x78; 0x41; 0x63].

Lemma requests_validate_totally_witness : settled (validate KCreate true (take 130 sampleCreate)).
Proof. apply requests_validate_totally; [apply (bool_decide_eq_true_1 _); vm_compute; reflexivity|reflexivity]. Defined.
Lemma validated_requests_read_witness :
  CreateRequest_Filename sampleCreate = Ok [0x61] /\
  Forall (eq (Ok tt)) (accessors KCreate sampleCreate) /\ Forall settled (parsers KCreate sampleCreate).
Proof.
  split; [vm_compute; reflexivity|].
  apply (validated_requests_read KCreate true sampleCreate); [apply (bool_decide_eq_true_1 _); vm_compute; reflexivity|reflexivity|vm_compute; reflexivity].
Defined.
Lemma best_dialect_chosen_witness : exists count offered r, get_le (E:=smbErr) (sampleNegotiate 3) (HS + 2) 2 = Ok count /\
  words (Z.to_nat count) (sampleNegotiate 3) (HS + SMB2NegotiateRequestMinSize) = Ok offered /\
  NegotiateRequest_MaxCommonDialect (sampleNegotiate 3) = Ok r /\ In r offered /\ supportedDialect r = true /\
  (forall x, In x offered -> supportedDialect x = true -> x <= r).
Proof.
  apply (best_dialect_chosen true); [apply (bool_decide_eq_true_1 _); vm_compute; reflexivity|vm_compute; reflexivity|vm_compute; reflexivity].
Defined.
Lemma charge_is_covered_witness : Z.max 100000 0 <= 65536 * Z.max 1 2.
Proof. apply (charge_is_covered (sampleHeader 2)); [lia|lia|vm_compute; reflexivity|lia|vm_compute; reflexivity]. Defined.
Lemma Dialects_limit_witness : NegotiateRequest_Dialects (sampleNegotiate (Z.to_nat 32718)) = Panic.
Proof.
  apply (Dialects_limit false (sampleNegotiate (Z.to_nat 32718)) 32718);
    [apply (bool_decide_eq_true_1 _); vm_compute; reflexivity|vm_compute; reflexivity|vm_compute; reflexivity|vm_compute; reflexivity].
Defined.
End Messages.
