(* ===== verification/Fields.v ===== *)
(** Structures laid out in a buffer: a list of fields, each an offset and the bytes put
    there.  Fields that keep clear of each other each read back, which is what the
    encoders of [Listing], [FileInfo] and [Responses] are proved through. *)
From S2P Require Import Prelude Bytes Header.
Import Header.

Definition slot : Type := Z * list Z.
Fixpoint layOut (ws : list slot) (l : list Z) : out (list Z) :=
  match ws with
  | [] => mret l
  | (o, b) :: ws => l ← splice l o b; layOut ws l
  end.

Definition clear (w w' : slot) : Prop := w.1 + zlen w.2 <= w'.1 \/ w'.1 + zlen w'.2 <= w.1.
Definition fitsIn (n : Z) (w : slot) : Prop := 0 <= w.1 /\ w.1 + zlen w.2 <= n.

(** ** One field *)
Lemma splice_Ok l o b : fitsIn (zlen l) (o, b) ->
  @splice smbErr l o b = Ok (take (Z.to_nat o) l ++ b ++ drop (Z.to_nat (o + zlen b)) l).
Proof.
  intros [Ho Hb]. simpl in *. unfold splice. destruct (Z.leb_spec 0 o), (Z.leb_spec (o + zlen b) (zlen l)); try lia. done.
Qed.
Lemma splice_inv l o b l' : @splice smbErr l o b = Ok l' ->
  fitsIn (zlen l) (o, b) /\ l' = take (Z.to_nat o) l ++ b ++ drop (Z.to_nat (o + zlen b)) l.
Proof.
  unfold splice, fitsIn. simpl. destruct (Z.leb_spec 0 o), (Z.leb_spec (o + zlen b) (zlen l)); try done. simpl. by intros [= <-].
Qed.
Lemma zlen_splice l o b l' : @splice smbErr l o b = Ok l' -> zlen l' = zlen l.
Proof. intros [[Ho Hb] ->]%splice_inv. unfold zlen in *. simpl in *. rewrite !length_app, length_take, length_drop. lia. Qed.
Lemma lookup_splice_in l o b l' i : @splice smbErr l o b = Ok l' -> o <= Z.of_nat i < o + zlen b -> l' !! i = b !! (i - Z.to_nat o)%nat.
Proof.
  intros [[Ho Hb] ->]%splice_inv Hi. simpl in *. unfold zlen in *. rewrite lookup_app_r by (rewrite length_take; lia).
  rewrite length_take_le by lia. apply lookup_app_l. lia.
Qed.
Lemma lookup_splice_out l o b l' i : @splice smbErr l o b = Ok l' -> Z.of_nat i < o \/ o + zlen b <= Z.of_nat i -> l' !! i = l !! i.
Proof.
  intros [[Ho Hb] ->]%splice_inv Hi. simpl in *. unfold zlen in *. destruct Hi as [Hi|Hi].
  - rewrite lookup_app_l by (rewrite length_take; lia). apply lookup_take_lt. lia.
  - rewrite lookup_app_r by (rewrite length_take; lia). rewrite length_take_le by lia. rewrite lookup_app_r by lia.
    rewrite lookup_drop. f_equal. lia.
Qed.
Lemma sub_lookup (l : list Z) i j (k : nat) : 0 <= i -> Z.of_nat k < j - i -> sub l i j !! k = l !! (Z.to_nat i + k)%nat.
Proof. intros Hi Hk. unfold sub. rewrite lookup_take_lt by lia. by rewrite lookup_drop. Qed.
Lemma length_sub (l : list Z) i j : 0 <= i -> i <= j -> j <= zlen l -> length (sub l i j) = Z.to_nat (j - i).
Proof. intros. unfold sub, zlen in *. rewrite length_take, length_drop. lia. Qed.

(** ** All of them *)
Lemma zlen_layOut ws : forall l l', layOut ws l = Ok l' -> zlen l' = zlen l.
Proof.
  induction ws as [|[o b] ws IH]; intros l l' H; simpl in H; [by injection H as ->|]. apply bind_Ok in H as (l1 & H1 & H).
  rewrite (IH _ _ H). by eapply zlen_splice.
Qed.
Lemma layOut_Ok ws : forall l, Forall (fitsIn (zlen l)) ws -> exists l', layOut ws l = Ok l' /\ zlen l' = zlen l.
Proof.
  induction ws as [|[o b] ws IH]; intros l H; simpl; [by exists l|]. apply Forall_cons in H as [Hw H].
  rewrite splice_Ok by done. run_bind. set (l1 := take _ l ++ _). assert (zlen l1 = zlen l) as L1 by (apply (zlen_splice l o b); by apply splice_Ok).
  rewrite <- L1 in H. destruct (IH l1 H) as (l' & -> & L'). exists l'. split; [done|lia].
Qed.
Lemma layOut_keeps ws : forall l l' i, layOut ws l = Ok l' -> Forall (fun w => Z.of_nat i < w.1 \/ w.1 + zlen w.2 <= Z.of_nat i) ws -> l' !! i = l !! i.
Proof.
  induction ws as [|[o b] ws IH]; intros l l' i H Hc; simpl in H; [by injection H as ->|]. apply bind_Ok in H as (l1 & H1 & H).
  apply Forall_cons in Hc as [Hw Hc]. rewrite (IH _ _ _ H Hc). by apply (lookup_splice_out l o b).
Qed.
Lemma layOut_keeps_sub ws l l' i j : layOut ws l = Ok l' -> 0 <= i -> i <= j -> Forall (fun w => j <= w.1 \/ w.1 + zlen w.2 <= i) ws -> sub l' i j = sub l i j.
Proof.
  intros H Hi Hij Hc. apply list_eq. intros k. destruct (Z.lt_ge_cases (Z.of_nat k) (j - i)) as [Hk|Hk].
  - rewrite !sub_lookup by lia. apply (layOut_keeps ws _ _ _ H). eapply Forall_impl; [exact Hc|]. intros w [?|?]; [left|right]; lia.
  - unfold sub. rewrite !lookup_take_ge by lia. done.
Qed.
Lemma layOut_reads ws : forall l l' o b, layOut ws l = Ok l' -> ForallOrdPairs clear ws -> In (o, b) ws -> sub l' o (o + zlen b) = b.
Proof.
  induction ws as [|[o' b'] ws IH]; intros l l' o b H Hc Hin; [done|]. simpl in H. apply bind_Ok in H as (l1 & H1 & H).
  inversion Hc as [|? ? Hd Hc']; subst. destruct Hin as [[= -> ->]|Hin]; [|by apply (IH l1 l')].
  pose proof (splice_inv _ _ _ _ H1) as [[Ho Hb] _]. simpl in *. pose proof (zlen_nonneg b).
  rewrite (layOut_keeps_sub ws l1 l' o (o + zlen b) H) by (done || lia || exact Hd).
  apply list_eq. intros k. destruct (Z.lt_ge_cases (Z.of_nat k) (zlen b)) as [Hk|Hk].
  - rewrite sub_lookup by lia. rewrite (lookup_splice_in l o b l1) by (done || lia). f_equal. lia.
  - unfold sub. rewrite lookup_take_ge by lia. symmetry. apply lookup_ge_None. unfold zlen in *. lia.
Qed.
Lemma layOut_get ws l l' o n v : layOut ws l = Ok l' -> ForallOrdPairs clear ws -> Forall (fitsIn (zlen l)) ws -> In (o, le_enc n v) ws ->
  @get_le smbErr l' o (Z.of_nat n) = Ok (v mod 2 ^ (8 * Z.of_nat n)).
Proof.
  intros H Hc Hf Hin. pose proof (proj1 (List.Forall_forall _ _) Hf _ Hin) as [Ho Hb]. simpl in *. rewrite zlen_le_enc in Hb.
  pose proof (layOut_reads ws l l' _ _ H Hc Hin) as Hr. rewrite zlen_le_enc in Hr.
  rewrite get_le_Ok by (rewrite ?(zlen_layOut _ _ _ H); lia). by rewrite Hr, le_dec_enc.
Qed.

(** A field written and not written over afterwards. *)
Fixpoint written (w : slot) (ws : list slot) : Prop :=
  match ws with [] => False | w' :: ws => w' = w /\ Forall (clear w) ws \/ written w ws end.
Lemma written_fits w ws n : written w ws -> Forall (fitsIn n) ws -> fitsIn n w.
Proof. induction ws as [|w' ws IH]; intros Hw Hf; [done|]. apply Forall_cons in Hf as [Hf Hfs]. destruct Hw as [[-> _]|Hw]; [done|auto]. Qed.
Lemma written_reads ws : forall l l' o b, layOut ws l = Ok l' -> written (o, b) ws -> sub l' o (o + zlen b) = b.
Proof.
  induction ws as [|[o' b'] ws IH]; intros l l' o b H Hw; [done|]. simpl in H. apply bind_Ok in H as (l1 & H1 & H).
  destruct Hw as [[[= -> ->] Hc]|Hw]; [|by apply (IH l1 l')].
  pose proof (splice_inv _ _ _ _ H1) as [[Ho Hb] _]. simpl in *. pose proof (zlen_nonneg b).
  rewrite (layOut_keeps_sub ws l1 l' o (o + zlen b) H) by (done || lia || exact Hc).
  apply (layOut_reads [(o, b)] l l1); [cbn [layOut]; by rewrite H1|repeat constructor|by left].
Qed.

(** ** What the code writes with, as fields *)
Lemma put_le_splice l o n v : 0 <= n -> @put_le smbErr l o n v = splice l o (le_enc (Z.to_nat n) v).
Proof.
  intros Hn. unfold put_le, splice. rewrite zlen_le_enc, Z2Nat.id by lia. destruct (Z.leb_spec 0 n); [|lia]. by rewrite andb_true_r.
Qed.
Lemma store_splice l o v : @store smbErr Z l o v = splice l o [v].
Proof.
  unfold store, splice. change (zlen [v]) with 1. destruct (Z.leb_spec 0 o) as [Ho|]; [|done]. simpl.
  destruct (Z.ltb_spec o (zlen l)), (Z.leb_spec (o + 1) (zlen l)); try lia; [|done]. f_equal.
  rewrite insert_take_drop by (unfold zlen in *; lia). simpl. do 2 f_equal. f_equal. lia.
Qed.
Lemma copy_at_splice l i j b : 0 <= i -> i <= j -> j <= zlen l -> copy_at l i j b = splice l i (take (Z.to_nat (j - i)) b).
Proof.
  intros. unfold copy_at. rewrite slice_Ok by lia. run_bind. cbv zeta. f_equal. unfold zlen.
  destruct (Z.le_ge_cases (j - i) (Z.of_nat (length b))); [by rewrite Z.min_l by lia|].
  rewrite Z.min_r by lia. rewrite !take_ge; [done|lia|lia].
Qed.

Lemma layOut_splice l o b k ws : (forall l', zlen l' = zlen l -> k l' = layOut ws l') -> (splice l o b ≫= k) = layOut ((o, b) :: ws) l.
Proof. intros Hk. simpl. destruct (splice l o b) as [l1| | |] eqn:E; [|done..]. run_bind. apply Hk. by eapply zlen_splice. Qed.
Lemma layOut_put l o n v k ws : 0 <= n -> (forall l', zlen l' = zlen l -> k l' = layOut ws l') ->
  (put_le l o n v ≫= k) = layOut ((o, le_enc (Z.to_nat n) v) :: ws) l.
Proof. intros Hn Hk. rewrite put_le_splice by done. by apply layOut_splice. Qed.
Lemma layOut_store l o v k ws : (forall l', zlen l' = zlen l -> k l' = layOut ws l') -> (store l o v ≫= k) = layOut ((o, [v]) :: ws) l.
Proof. intros Hk. rewrite store_splice. by apply layOut_splice. Qed.
Lemma layOut_copy l i j b k ws : 0 <= i -> i <= j -> j <= zlen l -> (forall l', zlen l' = zlen l -> k l' = layOut ws l') ->
  (copy_at l i j b ≫= k) = layOut ((i, take (Z.to_nat (j - i)) b) :: ws) l.
Proof. intros ??? Hk. rewrite copy_at_splice by done. by apply layOut_splice. Qed.

Lemma layOut_done l : mret l = layOut [] l.
Proof. done. Qed.
Lemma bind_bind {A B C} (m : out A) (f : A -> out B) (g : B -> out C) : ((m ≫= f) ≫= g) = (m ≫= (fun x => f x ≫= g)).
Proof. by destruct m. Qed.

(** [lay_out] turns the writes of an encoder into the fields they lay out, collecting them
    in a variable of the goal. *)
Ltac lay_out :=
  lazymatch goal with
  | |- ((_ ≫= _) ≫= _) = _ => rewrite bind_bind; cbv beta; lay_out
  | |- (mret _ ≫= _) = _ => rewrite bind_mret; cbv beta; lay_out
  | |- (put_le _ _ _ _ ≫= _) = _ => refine (layOut_put _ _ _ _ _ _ _ _); [lia|intros ? ?; lay_out]
  | |- (store _ _ _ ≫= _) = _ => refine (layOut_store _ _ _ _ _ _); intros ? ?; lay_out
  | |- (copy_at _ _ _ _ ≫= _) = _ => refine (layOut_copy _ _ _ _ _ _ _ _ _ _); [lia|lia|lia|intros ? ?; lay_out]
  | |- mret _ = _ => exact (layOut_done _)
  end.

(** ** Reading a flat structure *)
Lemma slice_skip (a l : list Z) i j : zlen a <= i -> @slice smbErr _ (a ++ l) i j = slice l (i - zlen a) (j - zlen a).
Proof.
  intros Hi. pose proof (zlen_nonneg a). unfold slice. rewrite zlen_app.
  destruct (Z.leb_spec 0 i), (Z.leb_spec 0 (i - zlen a)); try lia.
  destruct (Z.leb_spec i j), (Z.leb_spec (i - zlen a) (j - zlen a)); try lia; simpl; [|done].
  destruct (Z.leb_spec j (zlen a + zlen l)), (Z.leb_spec (j - zlen a) (zlen l)); try lia; [|done]. f_equal. f_equal; [lia|].
  unfold zlen in *. rewrite drop_app_ge by lia. f_equal. lia.
Qed.
Lemma get_skip (a l : list Z) o n : zlen a <= o -> @get_le smbErr (a ++ l) o n = get_le l (o - zlen a) n.
Proof. intros Ho. unfold get_le. rewrite slice_skip by done. do 2 f_equal. lia. Qed.
Lemma slice_here (a l : list Z) : @slice smbErr _ (a ++ l) 0 (zlen a) = Ok a.
Proof.
  pose proof (zlen_nonneg a). pose proof (zlen_nonneg l). rewrite slice_Ok by (rewrite ?zlen_app; lia). f_equal. unfold sub. rewrite Z.sub_0_r. unfold zlen. rewrite Nat2Z.id.
  apply take_app_length.
Qed.
Lemma get_here n v l : @get_le smbErr (le_enc n v ++ l) 0 (Z.of_nat n) = Ok (v mod 2 ^ (8 * Z.of_nat n)).
Proof. unfold get_le. pose proof (slice_here (le_enc n v) l) as H. rewrite zlen_le_enc in H. rewrite Z.add_0_l, H. run_bind. unfold mret, outcome_ret. by rewrite le_dec_enc. Qed.
Lemma get_4 v l : 0 <= v < 2 ^ 32 -> @get_le smbErr (le_enc 4 v ++ l) 0 4 = Ok v.
Proof. intros. rewrite (get_here 4 v l : get_le _ 0 4 = _). by rewrite Z.mod_small. Qed.
Lemma get_8 v l : 0 <= v < 2 ^ 64 -> @get_le smbErr (le_enc 8 v ++ l) 0 8 = Ok v.
Proof. intros. rewrite (get_here 8 v l : get_le _ 0 8 = _). by rewrite Z.mod_small. Qed.
Lemma get_2 v l : 0 <= v < 2 ^ 16 -> @get_le smbErr (le_enc 2 v ++ l) 0 2 = Ok v.
Proof. intros. rewrite (get_here 2 v l : get_le _ 0 2 = _). by rewrite Z.mod_small. Qed.
(** [peel] steps over the front of a structure until the read is at its front. *)
Ltac peel := repeat (rewrite get_skip by (rewrite ?zlen_le_enc; lia); rewrite zlen_le_enc; match goal with |- context [get_le _ (?a - ?b) _] => let c := eval vm_compute in (a - b) in change (a - b) with c end).
