(* ===== verification/Credits.v ===== *)
(** The command sequence window of a connection and the credits handed out against
    it: [grantCredits], [retireMessageID] and [creditsToGrant] of [conn.go],
    [grantOnResponse] of [server.go], and the part of [acceptRequest] that weighs a
    message ID.

    A credit is a message ID the client may send under.  Two things can go wrong: the
    server holds more IDs open than it means to, and the client is told of credits
    no ID stands behind, so that a request it is entitled to send is turned away.
    The steps below are a client and a connection exchanging requests and credits,
    with responses in flight between them. *)
From S2P Require Import Prelude Smb2Const Utils.
Import Utils.

Module Credits.

(** The fields of [connection] the credits live in. *)
Record conn := Conn {
  commandSequenceWindow : gmap Z unit;
  creditsGranted : gmap Z Z;
  negotiateDialect : Z;
  supportsMultiCredit : bool;
}.
Definition set_window (w : gmap Z unit) (c : conn) : conn :=
  Conn w (creditsGranted c) (negotiateDialect c) (supportsMultiCredit c).
Definition set_granted (g : gmap Z Z) (c : conn) : conn :=
  Conn (commandSequenceWindow c) g (negotiateDialect c) (supportsMultiCredit c).

Inductive connErr := errRequestNotWithinWindow | errCommandSecuenceWindowExceeded.
Abbreviation out := (outcome connErr).

Definition maxSequenceWindow : Z := 65536.

(** ** Granting *)
Fixpoint openIDs (n : nat) (first : Z) (w : gmap Z unit) : gmap Z unit :=
  match n with
  | O => w
  | S n => openIDs n (first + 1) (<[first := tt]> w)
  end.
(** The window may have been opened or not: the error leaves it as it was, and the
    count returned is then nought. *)
Definition grantCredits (mid numCredits charge : Z) (w : gmap Z unit) : gmap Z unit * Z * option connErr :=
  let charge := if charge =? 0 then 1 else charge in
  let room := maxSequenceWindow - Z.of_nat (size w) in
  let numCredits := if room <? numCredits then u16 (Z.max room 0) else numCredits in
  let numCredits := if numCredits <? charge then charge else numCredits in
  let max := (FindMaxKey w).1 in
  let max := if max =? 0 then mid else max in
  if maxU64 - max <? numCredits then (w, 0, Some errCommandSecuenceWindowExceeded)
  else (openIDs (Z.to_nat numCredits) (max + 1) w, numCredits, None).

(** ** Retiring *)
Fixpoint retire_loop (fuel : nat) (i m count charge : Z) (w : gmap Z unit) : out (gmap Z unit) :=
  if (i <=? m) && (count <? charge) then
    match fuel with
    | O => Stuck
    | S fuel =>
        match w !! i with
        | Some _ => retire_loop fuel (u64 (i + 1)) m (count + 1) charge (delete i w)
        | None => retire_loop fuel (u64 (i + 1)) m count charge w
        end
    end
  else Ok w.
Definition retireMessageID (mid charge : Z) (c : conn) : out conn :=
  if (negotiateDialect c =? SMB_DIALECT_202) || negb (supportsMultiCredit c)
  then Ok (set_window (delete mid (commandSequenceWindow c)) c)
  else
    let charge := Z.max charge 1 in
    let m := (FindMaxKey (commandSequenceWindow c)).1 in
    w ← retire_loop (Z.to_nat (m - mid + 1)) mid m 0 charge (commandSequenceWindow c);
    Ok (set_window w c).

(** ** Weighing a message ID

    What [acceptRequest] does of this for a request that is neither SMB nor a cancel:
    [charge] and [request] are its CreditCharge and CreditRequest.  Between the two
    halves the signature of the request is checked. *)
Definition weighCredits (mid charge request : Z) (c : conn) : out conn :=
  let credits := Z.max charge request in
  let credits := if credits =? 0 then 1 else credits in
  let '(w, granted, _) := grantCredits mid credits charge (commandSequenceWindow c) in
  let c := set_granted (<[mid := granted]> (creditsGranted c)) (set_window w c) in
  match commandSequenceWindow c !! mid with
  | None => Err errRequestNotWithinWindow
  | Some _ => if mid =? maxU64 then Err errCommandSecuenceWindowExceeded else Ok c
  end.
Definition accept (mid charge request : Z) (c : conn) : out conn :=
  c ← weighCredits mid charge request c; retireMessageID mid charge c.

(** ** Answering

    [carried] is what the response already meant to grant; the result is what it
    goes out with.  A break notification is left alone. *)
Definition grantOnResponse (isBreak : bool) (mid carried : Z) (c : conn) : conn * Z :=
  if isBreak then (c, carried)
  else
    match creditsGranted c !! mid with
    | None => (c, carried)
    | Some granted =>
        (set_granted (delete mid (creditsGranted c)) c, if carried <? granted then carried else granted)
    end.

Definition creditsToGrant (charge request waiting capacity : Z) : Z :=
  let spent := Z.max charge 1 in
  if capacity =? 0 then Z.max spent request
  else if capacity / 2 <=? waiting then spent
  else Z.max spent request.

(** ** The window as it is opened *)
Definition inWindow (w : gmap Z unit) (i : Z) : Prop := is_Some (w !! i).

Lemma openIDs_lookup n first w i : inWindow (openIDs n first w) i <-> first <= i < first + Z.of_nat n \/ inWindow w i.
Proof.
  revert first w. induction n as [|n IH]; intros first w; simpl; [unfold inWindow; naive_solver lia|].
  rewrite IH. unfold inWindow. rewrite lookup_insert_is_Some. destruct (Z.eq_dec first i); naive_solver lia.
Qed.
Lemma openIDs_size n first w : (forall i, inWindow w i -> i < first) -> size (openIDs n first w) = (n + size w)%nat.
Proof.
  revert first w. induction n as [|n IH]; intros first w Hw; simpl; [done|]. rewrite IH.
  - rewrite map_size_insert_None; [lia|]. destruct (w !! first) as [[]|] eqn:E; [|done].
    assert (first < first); [|lia]. apply Hw. by eexists.
  - intros i Hi. unfold inWindow in Hi. rewrite lookup_insert_is_Some in Hi. destruct Hi as [->|[_ Hi]]; [lia|]. specialize (Hw i Hi). lia.
Qed.

(** The highest message ID given out. *)
Definition top (w : gmap Z unit) : Z := (FindMaxKey w).1.
Lemma top_le w i : inWindow w i -> i <= top w.
Proof. intros H. by apply FindMaxKey_some. Qed.
Lemma top_in w i : inWindow w i -> inWindow w (top w).
Proof. intros H. by apply FindMaxKey_some in H as []. Qed.

(** What granting does when the request it is for names an ID of the window. *)
Record opened (w w' : gmap Z unit) (g : Z) : Prop := Opened {
  opened_ids : forall i, inWindow w' i <-> top w < i <= top w + g \/ inWindow w i;
  opened_size : Z.of_nat (size w') = Z.of_nat (size w) + g;
  opened_top : top w' = top w + g;
  opened_nonneg : 0 <= g;
}.

Lemma grantCredits_opens mid n charge w w' g e :
  0 <= n < 2 ^ 16 -> 0 <= charge < 2 ^ 16 -> 0 <= mid -> inWindow w mid -> grantCredits mid n charge w = (w', g, e) ->
  opened w w' g /\ (top w + 65535 <= maxU64 -> e = None) /\ (e = None -> Z.max charge 1 <= g) /\
  (g = 0 \/ g = Z.max charge 1 \/ g <= n /\ g <= maxSequenceWindow - Z.of_nat (size w)).
Proof.
  intros Hn Hc Hm Hin Hg. unfold grantCredits in Hg. fold (top w) in Hg.
  pose proof (top_le w mid Hin) as Hle. pose proof (top_in w mid Hin) as Htop.
  set (max := if top w =? 0 then mid else top w) in Hg. assert (max = top w) as Hmax.
  { subst max. destruct (Z.eqb_spec (top w) 0); lia. }
  clearbody max. subst max. cbv zeta in Hg.
  assert ((if charge =? 0 then 1 else charge) = Z.max charge 1) as Ec by (destruct (Z.eqb_spec charge 0); lia).
  rewrite Ec in Hg. clear Ec. set (room := maxSequenceWindow - _) in *.
  set (n1 := if room <? n then u16 (Z.max room 0) else n) in Hg.
  assert (0 <= n1 <= n /\ n1 <= Z.max room 0) as [Hn1 Hr].
  { subst n1. destruct (Z.ltb_spec room n); [|lia]. unfold u16. rewrite Z.mod_small by lia. lia. }
  clearbody n1. set (n2 := if n1 <? Z.max charge 1 then Z.max charge 1 else n1) in Hg.
  assert (Z.max charge 1 <= n2 /\ (n2 = Z.max charge 1 \/ n2 <= n /\ n2 <= room)) as [Hn2 Hn2'].
  { subst n2. destruct (Z.ltb_spec n1 (Z.max charge 1)); [lia|]. split; [lia|]. right. lia. }
  clearbody n2. destruct (Z.ltb_spec (maxU64 - top w) n2).
  - injection Hg as <- <- <-. split; [|split; [intros; lia|split; [done|by left]]].
    split; [intros i; split; [by right|intros [?|?]; [lia|done]]|lia|lia|lia].
  - injection Hg as <- <- <-. split; [|split; [done|split; [done|tauto]]].
    assert (forall i, inWindow (openIDs (Z.to_nat n2) (top w + 1) w) i <-> top w < i <= top w + n2 \/ inWindow w i) as Hids.
    { intros i. rewrite openIDs_lookup. split; intros [?|?]; auto; left; lia. }
    split; [done| | |lia].
    + rewrite openIDs_size by (intros i Hi%top_le; lia). lia.
    + apply FindMaxKey_unique; [apply Hids; left; lia|]. intros k [?|Hk]%Hids; [lia|]. apply top_le in Hk. lia.
Qed.

(** ** The window as it is closed

    The loop takes the [r] lowest IDs from [i] on: everything from [i] to some [t]. *)
Record closed (w w' : gmap Z unit) (i t r : Z) : Prop := Closed {
  closed_ids : forall j, inWindow w' j <-> inWindow w j /\ (j < i \/ t <= j);
  closed_size : Z.of_nat (size w') = Z.of_nat (size w) - r;
  closed_from : i <= t;
  closed_first : 0 < r -> inWindow w i -> i < t;
}.
Lemma closed_nothing w i : closed w w i i 0.
Proof. split; [intros j; split; [|naive_solver]|lia|lia|lia]. intros; split; [done|lia]. Qed.

Lemma inWindow_dec w i : inWindow w i \/ w !! i = None.
Proof. unfold inWindow. destruct (w !! i); eauto. Qed.
Lemma inWindow_delete w i j : inWindow (delete i w) j <-> i <> j /\ inWindow w j.
Proof. apply lookup_delete_is_Some. Qed.

(** Enough IDs at the top of the window for the charge to be met before the loop
    runs past it: it ends, and has then taken as many as were charged for. *)
Lemma retire_loop_closes fuel i m count charge w :
  0 <= i -> m < 2 ^ 64 -> count <= charge -> i <= m - (charge - count) + 1 ->
  (forall j, m - (charge - count) < j <= m -> inWindow w j) -> m - i + 1 <= Z.of_nat fuel ->
  exists w' t, retire_loop fuel i m count charge w = Ok w' /\ closed w w' i t (charge - count) /\ t <= m + 1.
Proof.
  revert i count w. induction fuel as [|fuel IH]; intros i count w Hi Hm Hc Hr Hw Hf.
  { simpl. destruct (Z.leb_spec i m), (Z.ltb_spec count charge); simpl; try lia. exists w, i.
    replace (charge - count) with 0 by lia. split; [done|]. split; [apply closed_nothing|lia]. }
  simpl. destruct (Z.ltb_spec count charge); [|rewrite andb_false_r; exists w, i; replace (charge - count) with 0 by lia;
    split; [done|split; [apply closed_nothing|lia]]].
  destruct (Z.leb_spec i m); [simpl|lia]. destruct (inWindow_dec w i) as [Hin|Hnone].
  - destruct (w !! i) as [[]|] eqn:E; [|by destruct Hin as [? ?]; congruence].
    destruct (Z.eq_dec (count + 1) charge) as [<-|].
    + exists (delete i w), (i + 1). split.
      { destruct fuel; simpl; destruct (Z.ltb_spec (count + 1) (count + 1)); try lia; by rewrite andb_false_r. }
      split; [|lia]. split; [|rewrite map_size_delete_Some by done; pose proof (map_size_ne_0_lookup_2 w i Hin); lia|lia|lia].
      intros j. rewrite inWindow_delete. split; intros [? ?]; (split; [|done || lia]); lia || done.
    + unfold u64. rewrite Z.mod_small by lia.
      destruct (IH (i + 1) (count + 1) (delete i w)) as (w' & t & -> & Hcl & Ht); [lia|lia|lia|lia| |lia|].
      { intros j Hj. apply inWindow_delete. split; [lia|]. apply Hw. lia. }
      exists w', t. split; [done|]. split; [|done]. destruct Hcl as [K1 K2 K3 K4].
      rewrite map_size_delete_Some in K2 by done. pose proof (map_size_ne_0_lookup_2 w i Hin).
      split; [|lia|lia|lia]. intros j. rewrite K1, inWindow_delete. split; [intros [[? ?] ?]|intros [? ?]]; (split; [done|]) || split; try lia.
      split; [lia|done].
  - rewrite Hnone. assert (i <> m - (charge - count) + 1).
    { intros ->. destruct (Hw (m - (charge - count) + 1)) as [? ?]; [lia|congruence]. }
    unfold u64. rewrite Z.mod_small by lia.
    destruct (IH (i + 1) count w) as (w' & t & -> & Hcl & Ht); [lia|lia|lia|lia|done|lia|].
    exists w', t. split; [done|]. split; [|done]. destruct Hcl as [K1 K2 K3 K4]. split; [|lia|lia|intros _ [? ?]; congruence].
    intros j. rewrite K1. split; intros [Hj ?]; (split; [done|]); try lia. destruct (Z.eq_dec j i); [|lia].
    subst j. destruct Hj. congruence.
Qed.

(** ** A request that names an ID of the window *)
Definition usesOne (c : conn) : bool := (negotiateDialect c =? SMB_DIALECT_202) || negb (supportsMultiCredit c).
(** How many IDs a request takes. *)
Definition spent (charge : Z) : Z := Z.max charge 1.

Lemma accept_window mid charge request c :
  0 <= charge < 2 ^ 16 -> 0 <= request < 2 ^ 16 -> 0 <= mid -> inWindow (commandSequenceWindow c) mid ->
  top (commandSequenceWindow c) + 65535 <= maxU64 ->
  exists c' w1 g t, accept mid charge request c = Ok c' /\
    opened (commandSequenceWindow c) w1 g /\
    closed w1 (commandSequenceWindow c') mid t (if usesOne c then 1 else spent charge) /\
    spent charge <= g /\ (g = spent charge \/ g <= maxSequenceWindow - Z.of_nat (size (commandSequenceWindow c))) /\
    creditsGranted c' = <[mid := g]> (creditsGranted c) /\
    negotiateDialect c' = negotiateDialect c /\ supportsMultiCredit c' = supportsMultiCredit c /\
    g <= 65535 /\ (usesOne c = true -> t = mid + 1).
Proof.
  intros Hc Hr Hm Hin Htop. unfold accept, weighCredits. set (w := commandSequenceWindow c) in *.
  set (n := if Z.max charge request =? 0 then 1 else Z.max charge request). assert (0 <= n < 2 ^ 16) as Hn.
  { subst n. destruct (Z.eqb_spec (Z.max charge request) 0); lia. }
  destruct (grantCredits mid n charge w) as [[w1 g] e] eqn:Hg. clearbody n.
  pose proof (grantCredits_opens mid n charge w w1 g e Hn Hc Hm Hin Hg) as (Ho & Hex & He & Hb).
  specialize (Hex Htop) as ->.
  specialize (He eq_refl). fold (spent charge) in He, Hb.
  assert (inWindow w1 mid) as Hin1 by (apply Ho; by right). simpl.
  destruct (w1 !! mid) as [[]|] eqn:E1; [|by destruct Hin1; congruence].
  pose proof (top_le w mid Hin). destruct (Z.eqb_spec mid maxU64); [unfold maxU64 in *; lia|]. run_bind.
  unfold retireMessageID, usesOne. simpl. assert (1 <= spent charge) by (unfold spent; lia).
  destruct ((negotiateDialect c =? SMB_DIALECT_202) || negb (supportsMultiCredit c)).
  - eexists _, w1, g, (mid + 1). split; [done|]. simpl. split; [done|]. split; [|split; [lia|split; [unfold spent in *; lia|]]]; [|repeat (split; [done|]); split; [unfold spent in *; lia|done]].
    split; [|rewrite map_size_delete_Some by done; pose proof (map_size_ne_0_lookup_2 w1 mid Hin1); lia|lia|lia].
    intros j. rewrite inWindow_delete. split; intros [? ?]; (split; [|done || lia]); lia || done.
  - fold (top w1). fold (spent charge). destruct Ho as [O1 O2 O3 O4].
    destruct (retire_loop_closes (Z.to_nat (top w1 - mid + 1)) mid (top w1) 0 (spent charge) w1) as (w' & t & Hw' & Hcl & Ht).
    all: unfold maxU64, spent in *; try (rewrite ?O3; lia).
    { intros j Hj. apply O1. rewrite O3 in Hj. lia. }
    rewrite Hw'. rewrite Z.sub_0_r in Hcl. eexists _, w1, g, t. split; [done|]. simpl. split; [done|]. split; [done|].
    split; [lia|]. split; [lia|]. repeat (split; [done|]). split; [lia|done].
Qed.

(** ** A client and its connection

    [next] is the message ID the client sends under next, [held] the credits it
    counts itself to have, [wire] the credits of the responses still on their way to
    it.  A client that keeps to its credits sends consecutive IDs and never spends
    more than it holds; where the connection has no multi-credit operation it charges
    one at most.  The server answers in any order.  A response whose grant was taken
    by an earlier one is the final one of an asynchronous command and carries none. *)
Record exchange := Exchange { server_ : conn; next : Z; held : Z; wire : list Z }.

Definition start : conn := Conn {[0 := tt]} ∅ SMB_DIALECT_UNKNOWN false.
Definition init (s : exchange) : Prop := s = Exchange start 0 1 [].

Inductive step : exchange -> exchange -> Prop :=
| step_send c n h ws charge request c' :
    0 <= charge < 2 ^ 16 -> 0 <= request < 2 ^ 16 -> spent charge <= h -> (usesOne c = true -> charge <= 1) ->
    n + 2 ^ 17 <= maxU64 ->
    accept n charge request c = Ok c' -> step (Exchange c n h ws) (Exchange c' (n + spent charge) (h - spent charge) ws)
| step_answer c n h ws mid carried c' told :
    0 <= carried -> (creditsGranted c !! mid = None -> carried = 0) ->
    grantOnResponse false mid carried c = (c', told) -> step (Exchange c n h ws) (Exchange c' n h (ws ++ [told]))
| step_receive c n h ws told : step (Exchange c n h (told :: ws)) (Exchange c n (h + told) ws)
| step_negotiate w g d multi n h ws d' multi' :
    step (Exchange (Conn w g d multi) n h ws) (Exchange (Conn w g d' multi') n h ws).

Definition total (g : gmap Z Z) : Z := map_fold (fun _ v s => v + s) 0 g.
Definition sum (l : list Z) : Z := foldr Z.add 0 l.

(** The window is the IDs from [next] on, and behind every credit the client has, or
    is about to be told of, there is one of them. *)
Record backed (s : exchange) : Prop := Backed {
  b_window : forall i, inWindow (commandSequenceWindow (server_ s)) i <->
               next s <= i < next s + Z.of_nat (size (commandSequenceWindow (server_ s)));
  b_size : 1 <= Z.of_nat (size (commandSequenceWindow (server_ s))) <= maxSequenceWindow;
  b_credits : held s + sum (wire s) + total (creditsGranted (server_ s)) <= Z.of_nat (size (commandSequenceWindow (server_ s)));
  b_next : 0 <= next s;
  b_granted : map_Forall (fun mid g => mid < next s /\ 0 <= g) (creditsGranted (server_ s));
  b_wire : Forall (Z.le 0) (wire s);
  b_held : 0 <= held s;
}.

Lemma total_insert g mid v : g !! mid = None -> total (<[mid := v]> g) = v + total g.
Proof. intros H. unfold total. apply map_fold_insert_L; [intros; lia|done]. Qed.
Lemma total_delete g mid v : g !! mid = Some v -> total g = v + total (delete mid g).
Proof. intros H. unfold total. apply (map_fold_delete_L (fun _ v s => v + s)); [intros; lia|done]. Qed.
Lemma sum_app l k : sum (l ++ k) = sum l + sum k.
Proof. unfold sum. induction l; simpl; lia. Qed.
Lemma sum_nonneg l : Forall (Z.le 0) l -> 0 <= sum l.
Proof. unfold sum. induction 1; simpl; lia. Qed.
Lemma total_nonneg n g : map_Forall (fun mid v => mid < n /\ 0 <= v) g -> 0 <= total g.
Proof.
  intros H. unfold total. revert H. apply (map_fold_weak_ind (fun s g => map_Forall (fun mid v => mid < n /\ 0 <= v) g -> 0 <= s)); [done|].
  intros k v m r Hk IH Hf. apply map_Forall_insert in Hf as [[_ Hv] Hf]; [|done]. specialize (IH Hf). lia.
Qed.

Lemma interval_size w a b : a <= b -> (forall i, inWindow w i <-> a <= i < b) -> Z.of_nat (size w) = b - a.
Proof.
  intros Hab Hw. assert (w = openIDs (Z.to_nat (b - a)) a ∅) as ->.
  { apply map_eq. intros i. assert (inWindow w i <-> inWindow (openIDs (Z.to_nat (b - a)) a ∅) i) as Hiff.
    { rewrite Hw, openIDs_lookup. unfold inWindow. rewrite lookup_empty. split; [lia|]. intros [?|[? [=]]]. lia. }
    unfold inWindow in Hiff. destruct (w !! i) as [[]|], (openIDs _ _ _ !! i) as [[]|]; try done.
    - destruct Hiff as [[? [=]] _]. by eexists.
    - destruct Hiff as [_ [? [=]]]. by eexists. }
  rewrite openIDs_size; [rewrite map_size_empty; lia|]. intros i [? [=]].
Qed.
Lemma backed_top s : backed s ->
  top (commandSequenceWindow (server_ s)) = next s + Z.of_nat (size (commandSequenceWindow (server_ s))) - 1 /\
  inWindow (commandSequenceWindow (server_ s)) (next s).
Proof.
  intros [H1 H2 _ _ _ _ _]. split; [|apply H1; lia]. apply FindMaxKey_unique; [apply H1; lia|]. intros k Hk%H1. lia.
Qed.

(** The request of a client that keeps to its credits is accepted, and leaves every
    credit backed. *)
Lemma backed_accept c n h ws charge request :
  backed (Exchange c n h ws) -> 0 <= charge < 2 ^ 16 -> 0 <= request < 2 ^ 16 -> spent charge <= h ->
  (usesOne c = true -> charge <= 1) -> n + 2 ^ 17 <= maxU64 ->
  exists c', accept n charge request c = Ok c' /\ backed (Exchange c' (n + spent charge) (h - spent charge) ws).
Proof.
  intros Hb Hc Hr Hh Hone Hn. destruct (backed_top _ Hb) as [Htop Hin]. destruct Hb as [B1 B2 B3 B4 B5 B6 B7]. simpl in *.
  unfold maxSequenceWindow in *.
  destruct (accept_window n charge request c) as (c' & w1 & g & t & Ha & Ho & Hcl & Hg & Hgb & Hgr & _); [done|done|done|done|lia|].
  exists c'. split; [done|]. set (w := commandSequenceWindow c) in *.
  assert ((if usesOne c then 1 else spent charge) = spent charge) as Hs.
  { destruct (usesOne c); [|done]. specialize (Hone eq_refl). unfold spent. lia. }
  rewrite Hs in Hcl. destruct Ho as [O1 O2 O3 O4], Hcl as [C1 C2 C3 C4].
  assert (forall i, inWindow (commandSequenceWindow c') i <-> t <= i < n + Z.of_nat (size w) + g) as Hids.
  { intros i. rewrite C1, O1, B1, Htop. lia. }
  assert (t <= n + Z.of_nat (size w) + g) as Ht.
  { destruct (Z.le_gt_cases t (n + Z.of_nat (size w) + g)); [done|]. exfalso.
    assert (commandSequenceWindow c' = ∅) as Hem.
    { apply map_eq. intros i. rewrite lookup_empty. destruct (inWindow_dec (commandSequenceWindow c') i) as [Hi%Hids|]; [lia|done]. }
    rewrite Hem, map_size_empty in C2. unfold spent in *. lia. }
  pose proof (interval_size _ _ _ Ht Hids) as Hsz. assert (t = n + spent charge) as -> by lia.
  assert (creditsGranted c !! n = None) as Hnone.
  { destruct (creditsGranted c !! n) eqn:E; [|done]. apply (map_Forall_lookup_1 _ _ _ _ B5) in E. lia. }
  assert (1 <= spent charge) by (unfold spent; lia).
  split; simpl; [|unfold maxSequenceWindow in *; lia| |lia| |done|lia].
  - intros i. rewrite Hids. lia.
  - rewrite Hgr, total_insert by done. lia.
  - rewrite Hgr. apply map_Forall_insert; [done|]. split; [lia|]. eapply map_Forall_impl; [exact B5|]. simpl. intros; lia.
Qed.

Lemma backed_reachable s : reachable init step s -> backed s.
Proof.
  apply invariant_reachable.
  - intros ? ->. split; simpl; try done; try lia. intros i. unfold inWindow. rewrite lookup_singleton_is_Some, map_size_singleton. lia.
  - intros s0 s1 _ Hb Hst. destruct Hst as [c n h ws charge request c' H1 H2 H3 H4 H5 H6|c n h ws mid carried c' told H1 H2 H3|c n h ws told|w g d multi n h ws d' multi'].
    + destruct (backed_accept c n h ws charge request Hb H1 H2 H3 H4 H5) as (c'' & Ha & Hb'). congruence.
    + unfold grantOnResponse in H3. destruct Hb as [B1 B2 B3 B4 B5 B6 B7]. simpl in *.
      destruct (creditsGranted c !! mid) as [g|] eqn:E.
      * injection H3 as <- <-. pose proof (map_Forall_lookup_1 _ _ _ _ B5 E) as [_ Hg]. pose proof (total_delete _ _ _ E).
        split; simpl; try done.
        -- rewrite sum_app. simpl. destruct (Z.ltb_spec carried g); lia.
        -- by apply map_Forall_delete.
        -- apply Forall_app. split; [done|]. constructor; [destruct (Z.ltb_spec carried g); lia|done].
      * injection H3 as <- <-. rewrite (H2 eq_refl). split; simpl; try done; [rewrite sum_app; simpl; lia|].
        apply Forall_app. split; [done|]. constructor; [lia|done].
    + destruct Hb as [B1 B2 B3 B4 B5 B6 B7]. simpl in *. apply Forall_cons in B6 as [? B6]. split; simpl; try done; lia.
    + destruct Hb as [B1 B2 B3 B4 B5 B6 B7]. by split.
Qed.

(** C39: A client that keeps to the credits it was told of is never turned away: in every
    state the two can reach, whatever order the server answers in and whatever is still in
    flight, a request that spends no more than the client holds names only IDs of the
    window, and is accepted. *)
Theorem credited_requests_accepted (s : exchange) (charge request : Z) :
  reachable init step s -> 0 <= charge < 2 ^ 16 -> 0 <= request < 2 ^ 16 ->
  spent charge <= held s -> (usesOne (server_ s) = true -> charge <= 1) -> next s + 2 ^ 17 <= maxU64 ->
  (forall i, next s <= i < next s + spent charge -> inWindow (commandSequenceWindow (server_ s)) i) /\
  exists c', accept (next s) charge request (server_ s) = Ok c'.
Proof.
  intros Hr Hc Hq Hh Hone Hn. apply backed_reachable in Hr. split.
  - intros i Hi. apply (b_window _ Hr). pose proof (b_credits _ Hr). pose proof (total_nonneg _ _ (b_granted _ Hr)).
    pose proof (sum_nonneg _ (b_wire _ Hr)). lia.
  - destruct s as [c n h ws]. destruct (backed_accept c n h ws charge request) as (c' & Ha & _); eauto.
Qed.

(** The server never tells a client of more credits than it has opened message IDs for, and
    the window it holds open stays between one ID and [maxSequenceWindow] of them. *)
Theorem credits_backed_by_window (s : exchange) :
  reachable init step s ->
  let w := commandSequenceWindow (server_ s) in
  held s + sum (wire s) + total (creditsGranted (server_ s)) <= Z.of_nat (size w) /\
  1 <= Z.of_nat (size w) <= maxSequenceWindow.
Proof. intros [? ? ? ? ? ? ?]%backed_reachable. done. Qed.

(** ** A client that keeps to no credits

    It may charge and ask for anything and send its IDs in any order.  As long as the
    connection takes back what a request charges for and the ID was one of the window
    already, the limit holds all the same. *)
Inductive hostile : conn -> conn -> Prop :=
| hostile_send c mid charge request c' :
    0 <= mid -> 0 <= charge < 2 ^ 16 -> 0 <= request < 2 ^ 16 -> top (commandSequenceWindow c) + 65535 <= maxU64 ->
    usesOne c = false -> inWindow (commandSequenceWindow c) mid -> accept mid charge request c = Ok c' -> hostile c c'
| hostile_answer c isBreak mid carried c' told : grantOnResponse isBreak mid carried c = (c', told) -> hostile c c'.

Definition bounded (c : conn) : Prop := 1 <= Z.of_nat (size (commandSequenceWindow c)) <= maxSequenceWindow.

Theorem window_bounded (c0 c : conn) : bounded c0 -> reachable (eq c0) hostile c -> bounded c.
Proof.
  intros H0. apply invariant_reachable; [by intros ? <-|]. intros s s' _ Hb Hst.
  destruct Hst as [d mid charge request d' H1 H2 H3 H4 H5 H6 H7|d isBreak mid carried d' told H1].
  - destruct (accept_window mid charge request d) as (d'' & w1 & g & t & Ha & Ho & Hcl & Hg & Hgb & _); [done..|].
    rewrite Ha in H7. injection H7 as ->. unfold bounded in *. rewrite H5 in Hcl.
    destruct Ho as [O1 O2 O3 O4], Hcl as [C1 C2 C3 C4]. unfold maxSequenceWindow, spent in *. lia.
  - unfold grantOnResponse in H1. destruct isBreak; [by injection H1 as <- <-|].
    destruct (creditsGranted d !! mid); by injection H1 as <- <-.
Qed.

(** Without multi-credit operation the charge is granted and only one ID taken back:
    each request a client charges 65535 for leaves 65534 more IDs open than there
    were, for as long as it keeps sending them. *)
Theorem single_credit_window_unbounded (n : nat) :
  Z.of_nat n < 2 ^ 40 ->
  exists c, reachable (eq start) (fun c c' => exists mid, inWindow (commandSequenceWindow c) mid /\ accept mid 65535 0 c = Ok c') c /\
    Z.of_nat (size (commandSequenceWindow c)) = 1 + 65534 * Z.of_nat n.
Proof.
  intros Hn. set (R := fun c c' => exists mid, _).
  assert (exists c, reachable (eq start) R c /\ Z.of_nat (size (commandSequenceWindow c)) = 1 + 65534 * Z.of_nat n /\
    inWindow (commandSequenceWindow c) (65535 * Z.of_nat n) /\ top (commandSequenceWindow c) = 65535 * Z.of_nat n /\ usesOne c = true) as H.
  2: { destruct H as (c & ? & ? & _). eauto. }
  induction n as [|n IH].
  { exists start. split; [by apply reach_init|]. split; [simpl; rewrite map_size_singleton; lia|].
    assert (inWindow (commandSequenceWindow start) (65535 * Z.of_nat 0)) by (by eexists).
    split; [done|]. split; [|done]. apply FindMaxKey_unique; [done|]. intros k Hk. simpl in Hk. apply lookup_singleton_is_Some in Hk. lia. }
  destruct IH as (c & Hr & Hs & Hin & Ht & Hu); [lia|].
  destruct (accept_window (65535 * Z.of_nat n) 65535 0 c) as (c' & w1 & g & t & Ha & [O1 O2 O3 O4] & [C1 C2 C3 C4] & Hg & Hgb & _ & Hd & Hm & Hg2 & Ht1);
    [lia|lia|lia|done|unfold maxU64; lia|].
  rewrite Hu in C2. specialize (Ht1 Hu) as ->. assert (g = 65535) as -> by (unfold spent in Hg; lia).
  exists c'. split; [eapply reach_step; [exact Hr|by exists (65535 * Z.of_nat n)]|]. split; [lia|].
  assert (inWindow (commandSequenceWindow c') (65535 * Z.of_nat (S n))) as Hin'.
  { apply C1. split; [apply O1; lia|]. right. lia. }
  split; [done|]. split; [|unfold usesOne in *; by rewrite Hd, Hm].
  apply FindMaxKey_unique; [done|]. intros k [Hk%O1 _]%C1. destruct Hk as [|Hk%top_le]; lia.
Qed.

(** The window is opened for a request before the request is held against it, so that
    an ID the client was never given passes, on the strength of what the request
    itself asks for; and of what it charges only the IDs from its own on are taken
    back, so that the window grows with multi-credit operation too. *)
Theorem ungranted_id_accepted :
  let c := Conn {[5 := tt]} ∅ SMB_DIALECT_311 true in
  ~ inWindow (commandSequenceWindow c) 25 /\
  exists c', accept 25 20 0 c = Ok c' /\ Z.of_nat (size (commandSequenceWindow c')) = 20.
Proof.
  split; [by intros [? [=]]|]. eexists. split; [vm_compute; reflexivity|]. vm_compute. reflexivity.
Qed.

(** ** Witnesses *)
(** A negotiate at 3.1.1, answered with 30 credits, which arrive. *)
Definition talk0 : exchange := Exchange start 0 1 [].
Definition talk1 : exchange := Exchange (Conn (openIDs 31 1 ∅) {[0 := 31]} SMB_DIALECT_UNKNOWN false) 1 0 [].
Definition talk2 : exchange := Exchange (Conn (openIDs 31 1 ∅) {[0 := 31]} SMB_DIALECT_311 true) 1 0 [].
Definition talk3 : exchange := Exchange (Conn (openIDs 31 1 ∅) ∅ SMB_DIALECT_311 true) 1 0 [30].
Definition talk4 : exchange := Exchange (Conn (openIDs 31 1 ∅) ∅ SMB_DIALECT_311 true) 1 30 [].
Lemma talk_reachable : reachable init step talk4.
Proof.
  apply (reach_step _ _ talk3); [|apply (step_receive _ _ 0)].
  apply (reach_step _ _ talk2); [|apply (step_answer _ _ _ [] 0 30); [lia|done|vm_compute; reflexivity]].
  apply (reach_step _ _ talk1); [|constructor].
  apply (reach_step _ _ talk0); [by apply reach_init|].
  apply (step_send start 0 1 [] 0 31); [lia|lia|done|done|done|vm_compute; reflexivity].
Qed.
Lemma credited_requests_accepted_witness :
  (forall i, 1 <= i < 1 + spent 16 -> inWindow (openIDs 31 1 ∅) i) /\
  exists c', accept 1 16 20 (Conn (openIDs 31 1 ∅) ∅ SMB_DIALECT_311 true) = Ok c'.
Proof. apply (credited_requests_accepted talk4 16 20); [apply talk_reachable|lia|lia|done|done|done]. Defined.
Lemma credits_backed_by_window_witness :
  30 + sum [] + total ∅ <= Z.of_nat (size (openIDs 31 1 ∅)) /\ 1 <= Z.of_nat (size (openIDs 31 1 ∅)) <= maxSequenceWindow.
Proof. apply (credits_backed_by_window talk4). apply talk_reachable. Defined.
End Credits.
