(* ===== verification/ChannelSeq.v ===== *)
(** [verifyChannelSequence] and [releaseOpen] of [conn.go]: telling the requests a
    client sent before it lost a channel from those it sent after.

    Every open counts the requests outstanding on it in two counters, those sent
    under its current channel sequence and those sent under an earlier one.  The
    connections remember which open each request was counted on, so that the answer
    takes it off again.  A request is named by its connection and its message ID, and
    carries its sequence; an open is named by its identity.  The counters are the
    state; that they are exact in every interleaving of requests and answers is the
    theorem, and with it what a replayed request is held back by. *)
From S2P Require Import Prelude Smb2Const.

Module ChannelSeq.

Record counters := Counters {
  channelSequence : Z;
  outstandingRequestCount : Z;
  outstandingPreviousRequestCount : Z;
}.
Abbreviation openId := Z.
Abbreviation requestId := (Z * Z)%type.   (* the connection, the message ID *)
Record req := Req { req_sequence : Z; req_replay : bool; req_command : Z }.
Record table := Table { opens : gmap openId counters; requestOpens : gmap requestId openId }.

(** The counters a request leaves behind, and whether it was counted. *)
Definition count_ (r : req) (c : counters) : counters * bool :=
  let diff := u16 (req_sequence r - channelSequence c) in
  if diff =? 0 then
    if negb (req_replay r) || (outstandingPreviousRequestCount c =? 0)
    then (Counters (channelSequence c) (u32 (outstandingRequestCount c + 1)) (outstandingPreviousRequestCount c), true)
    else (c, false)
  else if diff <=? 0x7fff then
    let previous := u32 (outstandingPreviousRequestCount c + outstandingRequestCount c) in
    if negb (req_replay r) || (previous =? 0)
    then (Counters (req_sequence r) 1 previous, true)
    else (Counters (req_sequence r) 0 previous, false)
  else (c, false).
Definition modifies (command : Z) : bool := (command =? SMB2_WRITE) || (command =? SMB2_SET_INFO) || (command =? SMB2_IOCTL).
(** [None] is an open that does not exist. *)
Definition verifyChannelSequence (dialect : Z) (id : requestId) (r : req) (op : openId) (t : table) : option (table * Z) :=
  if negb (Is3X dialect) then Some (t, STATUS_OK)
  else
    c ← opens t !! op;
    let '(c', counted) := count_ r c in
    let opens := <[op := c']> (opens t) in
    if (counted : bool) then Some (Table opens (<[id := op]> (requestOpens t)), STATUS_OK)
    else Some (Table opens (requestOpens t), if modifies (req_command r) then STATUS_FILE_NOT_AVAILABLE else STATUS_OK).
Definition release_ (is3x : bool) (sequence : Z) (c : counters) : counters :=
  if is3x && (sequence =? channelSequence c) then
    if 0 <? outstandingRequestCount c
    then Counters (channelSequence c) (outstandingRequestCount c - 1) (outstandingPreviousRequestCount c) else c
  else if 0 <? outstandingPreviousRequestCount c
  then Counters (channelSequence c) (outstandingRequestCount c) (outstandingPreviousRequestCount c - 1) else c.
Definition releaseOpen (dialect : Z) (id : requestId) (r : req) (t : table) : option table :=
  let requestOpens' := delete id (requestOpens t) in
  match requestOpens t !! id with
  | None => Some (Table (opens t) requestOpens')
  | Some op =>
      c ← opens t !! op;
      Some (Table (<[op := release_ (Is3X dialect) (req_sequence r) c]> (opens t)) requestOpens')
  end.

(** ** Counting the entries of a map *)
Section count.
Context {K A : Type} `{Countable K}.
Definition tally (p : K -> A -> bool) (m : gmap K A) : Z := map_fold (fun k v n => if p k v then n + 1 else n) 0 m.

Lemma tally_insert p m k v : m !! k = None -> tally p (<[k := v]> m) = (if p k v then 1 else 0) + tally p m.
Proof.
  intros Hk. unfold tally. rewrite map_fold_insert_L; [destruct (p k v); lia| |done].
  intros. destruct (p j1 z1), (p j2 z2); lia.
Qed.
Lemma tally_delete p m k v : m !! k = Some v -> tally p m = (if p k v then 1 else 0) + tally p (delete k m).
Proof.
  intros Hk. rewrite <- (insert_delete_id m k v) at 1 by done. apply tally_insert. apply lookup_delete_eq.
Qed.
Lemma tally_ext p q m : (forall k v, m !! k = Some v -> p k v = q k v) -> tally p m = tally q m.
Proof.
  induction m as [|k v m Hk IH] using map_ind; intros Hpq; [done|]. rewrite !tally_insert by done.
  rewrite (Hpq k v) by apply lookup_insert_eq. rewrite IH; [done|]. intros k' v' Hk'. apply Hpq.
  rewrite lookup_insert_ne; [done|]. intros ->. congruence.
Qed.
Lemma tally_split p q m : tally p m = tally (fun k v => p k v && q k v) m + tally (fun k v => p k v && negb (q k v)) m.
Proof.
  induction m as [|k v m Hk IH] using map_ind; [done|]. rewrite !tally_insert by done. destruct (p k v), (q k v); simpl; lia.
Qed.
Lemma tally_bounds p m : 0 <= tally p m <= Z.of_nat (size m).
Proof.
  induction m as [|k v m Hk IH] using map_ind; [done|]. rewrite tally_insert, map_size_insert_None by done.
  destruct (p k v); lia.
Qed.
Lemma tally_zero p m : tally p m = 0 <-> forall k v, m !! k = Some v -> p k v = false.
Proof.
  induction m as [|k v m Hk IH] using map_ind; [done|]. rewrite tally_insert by done. pose proof (tally_bounds p m). split.
  - intros Ht k' v' [[<- <-]|[? ?]]%lookup_insert_Some; [by destruct (p k v); [lia|]|].
    apply IH; [destruct (p k v); lia|done].
  - intros Hf. rewrite (Hf k v) by apply lookup_insert_eq. enough (tally p m = 0) by lia. apply IH.
    intros k' v' Hk'. apply Hf. rewrite lookup_insert_ne; [done|]. intros ->. congruence.
Qed.
End count.

(** ** Requests and answers

    [sent] is what each request that is counted carried.  A request is verified once,
    a message ID being used once; the sequence a client moves on to is one no request
    still outstanding on the open was sent under, which is so until the sixteen bits
    of it have gone all the way round. *)
Record system := System { tbl : table; sent : gmap requestId req }.

Definition onOpen (op : openId) (o : openId) : bool := o =? op.
Definition under (sequence : Z) (sent : gmap requestId req) (id : requestId) : bool :=
  match sent !! id with Some r => req_sequence r =? sequence | None => false end.
Definition current (s : system) (op : openId) (sequence : Z) : Z :=
  tally (fun id o => onOpen op o && under sequence (sent s) id) (requestOpens (tbl s)).
Definition earlier (s : system) (op : openId) (sequence : Z) : Z :=
  tally (fun id o => onOpen op o && negb (under sequence (sent s) id)) (requestOpens (tbl s)).
Definition remember (id : requestId) (r : req) (s : system) (t' : table) : system :=
  System t' (match requestOpens t' !! id with Some _ => <[id := r]> (sent s) | None => sent s end).

Inductive step : system -> system -> Prop :=
| step_verify s dialect id r op t' status :
    Is3X dialect = true -> is_u16 (req_sequence r) -> requestOpens (tbl s) !! id = None ->
    Z.of_nat (size (requestOpens (tbl s))) < 2 ^ 32 - 1 ->
    (forall c, opens (tbl s) !! op = Some c -> req_sequence r <> channelSequence c -> current s op (req_sequence r) = 0) ->
    verifyChannelSequence dialect id r op (tbl s) = Some (t', status) -> step s (remember id r s t')
| step_release s dialect id r t' :
    Is3X dialect = true -> (forall o, requestOpens (tbl s) !! id = Some o -> sent s !! id = Some r) ->
    releaseOpen dialect id r (tbl s) = Some t' -> step s (System t' (sent s))
| step_create s op sequence :
    is_u16 sequence -> opens (tbl s) !! op = None ->
    step s (System (Table (<[op := Counters sequence 0 0]> (opens (tbl s))) (requestOpens (tbl s))) (sent s)).

Record exact (s : system) : Prop := Exact {
  e_counts : forall op c, opens (tbl s) !! op = Some c ->
    is_u16 (channelSequence c) /\
    outstandingRequestCount c = current s op (channelSequence c) /\
    outstandingPreviousRequestCount c = earlier s op (channelSequence c);
  e_opens : forall id op, requestOpens (tbl s) !! id = Some op -> is_Some (opens (tbl s) !! op);
  e_size : Z.of_nat (size (requestOpens (tbl s))) < 2 ^ 32;
}.

Lemma diff_zero a b : is_u16 a -> is_u16 b -> u16 (a - b) = 0 <-> a = b.
Proof.
  unfold is_u16, u16. intros Ha Hb. split; [|intros ->; by rewrite Z.sub_diag]. intros H.
  apply Z.mod_divide in H; [|lia]. destruct H as [k Hk]. lia.
Qed.

Section counts.
Context (s : system) (id : requestId) (r : req).
Hypothesis id_fresh : requestOpens (tbl s) !! id = None.

(** The counts of an open once [id] is counted on [op]. *)
Lemma current_more opens' op o sequence :
  current (System (Table opens' (<[id := op]> (requestOpens (tbl s)))) (<[id := r]> (sent s))) o sequence =
    (if onOpen o op && (req_sequence r =? sequence) then 1 else 0) + current s o sequence.
Proof using id_fresh.
  unfold current. simpl. rewrite tally_insert by done. f_equal.
  - unfold under. by rewrite lookup_insert_eq.
  - apply tally_ext. intros k v Hk. unfold under. rewrite lookup_insert_ne; [done|]. intros ->. congruence.
Qed.
Lemma earlier_more opens' op o sequence :
  earlier (System (Table opens' (<[id := op]> (requestOpens (tbl s)))) (<[id := r]> (sent s))) o sequence =
    (if onOpen o op && negb (req_sequence r =? sequence) then 1 else 0) + earlier s o sequence.
Proof using id_fresh.
  unfold earlier. simpl. rewrite tally_insert by done. f_equal.
  - unfold under. by rewrite lookup_insert_eq.
  - apply tally_ext. intros k v Hk. unfold under. rewrite lookup_insert_ne; [done|]. intros ->. congruence.
Qed.
End counts.

Lemma current_opens s opens' op sequence : current (System (Table opens' (requestOpens (tbl s))) (sent s)) op sequence = current s op sequence.
Proof. done. Qed.
Lemma current_earlier s op sequence :
  tally (fun _ o => onOpen op o) (requestOpens (tbl s)) = current s op sequence + earlier s op sequence.
Proof. apply (tally_split (fun _ o => onOpen op o)). Qed.
Lemma counts_bounds s op sequence : exact s -> 0 <= current s op sequence /\ 0 <= earlier s op sequence /\ current s op sequence + earlier s op sequence < 2 ^ 32.
Proof.
  intros He. pose proof (e_size _ He). rewrite <- current_earlier. unfold current, earlier.
  pose proof (tally_bounds (fun _ o => onOpen op o) (requestOpens (tbl s))).
  pose proof (tally_bounds (fun id o => onOpen op o && under sequence (sent s) id) (requestOpens (tbl s))).
  pose proof (tally_bounds (fun id o => onOpen op o && negb (under sequence (sent s) id)) (requestOpens (tbl s))). lia.
Qed.

(** The counters a request leaves: the one it is counted in holds one more than is
    remembered so far, and everything sent under another sequence is in the other. *)
Lemma count_exact s r op c c' counted :
  exact s -> opens (tbl s) !! op = Some c -> is_u16 (req_sequence r) ->
  Z.of_nat (size (requestOpens (tbl s))) < 2 ^ 32 - 1 ->
  (req_sequence r <> channelSequence c -> current s op (req_sequence r) = 0) -> count_ r c = (c', counted) ->
  is_u16 (channelSequence c') /\
  outstandingRequestCount c' = (if counted then 1 else 0) + current s op (channelSequence c') /\
  outstandingPreviousRequestCount c' = earlier s op (channelSequence c') /\
  (counted = true -> req_sequence r = channelSequence c').
Proof.
  intros He Hc Hr Hsz Hf Hcount. destruct (e_counts _ He op c Hc) as (H16 & Hcur & Hear).
  pose proof (counts_bounds s op (channelSequence c) He) as (Hb1 & Hb2 & Hb3).
  pose proof (current_earlier s op (channelSequence c)) as Hsum.
  pose proof (tally_bounds (fun _ o => onOpen op o) (requestOpens (tbl s))).
  unfold count_ in Hcount. cbv zeta in Hcount.
  destruct (Z.eqb_spec (u16 (req_sequence r - channelSequence c)) 0) as [E|E].
  { rewrite diff_zero in E by done. destruct (_ || _); injection Hcount as <- <-; simpl; [|(split; [done|split; [lia|split; [lia|done]]])].
    split; [done|]. split; [unfold u32; rewrite Z.mod_small by lia; lia|]. split; [lia|done]. }
  rewrite diff_zero in E by done. specialize (Hf E). pose proof (current_earlier s op (req_sequence r)) as Hsum'.
  destruct (_ <=? _); [|injection Hcount as <- <-; (split; [done|split; [lia|split; [lia|done]]])].
  assert (u32 (outstandingPreviousRequestCount c + outstandingRequestCount c) = earlier s op (req_sequence r)) as Hprev.
  { unfold u32. rewrite Z.mod_small; lia. }
  rewrite Hprev in Hcount. destruct (_ || _); injection Hcount as <- <-; simpl; (split; [done|split; [lia|split; [lia|done]]]).
Qed.

Lemma exact_verify s dialect id r op t' status :
  exact s -> Is3X dialect = true -> is_u16 (req_sequence r) -> requestOpens (tbl s) !! id = None ->
  Z.of_nat (size (requestOpens (tbl s))) < 2 ^ 32 - 1 ->
  (forall c, opens (tbl s) !! op = Some c -> req_sequence r <> channelSequence c -> current s op (req_sequence r) = 0) ->
  verifyChannelSequence dialect id r op (tbl s) = Some (t', status) -> exact (remember id r s t').
Proof.
  intros He H3 Hr Hid Hsz Hf Hv. unfold verifyChannelSequence in Hv. rewrite H3 in Hv. simpl negb in Hv. cbv iota in Hv.
  apply bind_Some in Hv as (c & Hc & Hv). destruct (count_ r c) as [c' counted] eqn:Hcount.
  destruct (count_exact s r op c c' counted He Hc Hr Hsz (Hf c Hc) Hcount) as (K1 & K2 & K3 & K4).
  assert (forall o d, <[op := c']> (opens (tbl s)) !! o = Some d -> o = op /\ d = c' \/ o <> op /\ opens (tbl s) !! o = Some d) as Hlook.
  { intros o d [[-> ->]|[? ?]]%lookup_insert_Some; auto. }
  destruct counted; injection Hv as <- <-; unfold remember; simpl.
  - rewrite lookup_insert_eq. specialize (K4 eq_refl). split; simpl.
    + intros o d Ho. rewrite current_more, earlier_more by done. destruct (Hlook o d Ho) as [[-> ->]|[Hne Hod]].
      * unfold onOpen. rewrite Z.eqb_refl, K4, Z.eqb_refl. simpl. split; [done|]. lia.
      * unfold onOpen. destruct (Z.eqb_spec op o); [congruence|]. simpl. by apply (e_counts _ He).
    + intros i o [[_ <-]|[_ Hio]]%lookup_insert_Some; [rewrite lookup_insert_eq; by eexists|].
      apply lookup_insert_is_Some'. right. by apply (e_opens _ He i).
    + rewrite map_size_insert_None by done. lia.
  - rewrite Hid. split; simpl; [|intros i o Hio; apply lookup_insert_is_Some'; right; by apply (e_opens _ He i)|apply He].
    intros o d Ho. destruct (Hlook o d Ho) as [[-> ->]|[Hne Hod]]; [split; [done|]; unfold current, earlier in *; simpl; lia|].
    by apply (e_counts _ He).
Qed.

Lemma exact_release s dialect id r t' :
  exact s -> Is3X dialect = true -> (forall o, requestOpens (tbl s) !! id = Some o -> sent s !! id = Some r) ->
  releaseOpen dialect id r (tbl s) = Some t' -> exact (System t' (sent s)).
Proof.
  intros He H3 Hs Hrel. unfold releaseOpen in Hrel. cbv zeta in Hrel. destruct (requestOpens (tbl s) !! id) as [op|] eqn:Hid.
  2: { injection Hrel as <-. rewrite delete_id by done. by destruct s as [[? ?] ?]. }
  apply bind_Some in Hrel as (c & Hc & Hrel). injection Hrel as <-. specialize (Hs op eq_refl). rewrite H3.
  destruct (e_counts _ He op c Hc) as (K1 & K2 & K3).
  split; simpl.
  - intros o d Hd. unfold current, earlier. simpl.
    pose proof (fun p => tally_delete p _ _ _ Hid) as Htd.
    apply lookup_insert_Some in Hd as [[<- <-]|[Hne Hod]].
    + assert (channelSequence (release_ true (req_sequence r) c) = channelSequence c) as Hseq.
      { unfold release_. repeat (destruct (_ && _) || destruct (_ <? _)); done. }
      rewrite Hseq. split; [done|]. unfold current, earlier in K2, K3. rewrite Htd in K2. rewrite Htd in K3.
      unfold onOpen, under in *. rewrite Hs, Z.eqb_refl in K2, K3. simpl in K2, K3. unfold release_. simpl.
      pose proof (tally_bounds (fun (i : requestId) o => (o =? op) && match sent s !! i with Some r0 => req_sequence r0 =? channelSequence c | None => false end) (delete id (requestOpens (tbl s)))).
      pose proof (tally_bounds (fun (i : requestId) o => (o =? op) && negb (match sent s !! i with Some r0 => req_sequence r0 =? channelSequence c | None => false end)) (delete id (requestOpens (tbl s)))).
      destruct (req_sequence r =? channelSequence c); simpl in *; bdestr1; simpl; lia.
    + destruct (e_counts _ He o d Hod) as (L1 & L2 & L3). unfold current, earlier in L2, L3. rewrite Htd in L2. rewrite Htd in L3.
      unfold onOpen at 1 in L2. unfold onOpen at 1 in L3. destruct (Z.eqb_spec op o); [congruence|]. simpl in L2, L3. done.
  - intros i o [_ Hio]%lookup_delete_Some. apply lookup_insert_is_Some'. right. by apply (e_opens _ He i).
  - pose proof (e_size _ He). rewrite map_size_delete_Some by (by eexists). lia.
Qed.

Definition init (s : system) : Prop := s = System (Table ∅ ∅) ∅.
Lemma exact_reachable s : reachable init step s -> exact s.
Proof.
  apply invariant_reachable.
  - intros ? ->. split; [intros ? ? [=]|intros ? ? [=]|done].
  - intros s0 s1 _ He Hst. destruct Hst as [s2 dialect id r op t' status H1 H2 H3 H4 H5 H6|s2 dialect id r t' H1 H2 H3|s2 op sequence H16 Hno];
      [exact (exact_verify s2 dialect id r op t' status He H1 H2 H3 H4 H5 H6)|exact (exact_release s2 dialect id r t' He H1 H2 H3)|].
    split; simpl; [|intros id o Hid; apply lookup_insert_is_Some'; right; by apply (e_opens _ He id)|apply He].
    intros o c [[<- <-]|[_ Hc]]%lookup_insert_Some; [|by apply (e_counts _ He)]. simpl. split; [done|].
    unfold current, earlier. simpl. split; symmetry; apply tally_zero; intros id o Ho; unfold onOpen;
      (destruct (Z.eqb_spec o op) as [->|]; [|done]); apply (e_opens _ He) in Ho as [? ?]; congruence.
Qed.

(** The counters of an open are exact in every state: one holds the requests outstanding on
    it that were sent under its current channel sequence, the other those sent under an
    earlier one.  So a request that modifies the file is processed exactly when its
    sequence is not behind that of the open and, if it is a replay, nothing sent under an
    earlier one is still outstanding; otherwise it is failed and the client resends it. *)
Theorem channel_sequence_counts (s : system) (dialect : Z) (id : requestId) (r : req) (op : openId) (c : counters) :
  reachable init step s -> opens (tbl s) !! op = Some c ->
  outstandingRequestCount c = current s op (channelSequence c) /\
  outstandingPreviousRequestCount c = earlier s op (channelSequence c) /\
  (Is3X dialect = true -> is_u16 (req_sequence r) -> Z.of_nat (size (requestOpens (tbl s))) < 2 ^ 32 - 1 ->
   modifies (req_command r) = true ->
   (req_sequence r <> channelSequence c -> current s op (req_sequence r) = 0) ->
   exists t' status, verifyChannelSequence dialect id r op (tbl s) = Some (t', status) /\
     (status = STATUS_OK <->
        u16 (req_sequence r - channelSequence c) <= 0x7fff /\ (req_replay r = true -> earlier s op (req_sequence r) = 0))).
Proof.
  intros Hr Hc. apply exact_reachable in Hr as He. destruct (e_counts _ He op c Hc) as (H16 & Hcur & Hear).
  split; [done|]. split; [done|]. intros H3 Hs Hsz Hm Hf. unfold verifyChannelSequence. rewrite H3, Hc. simpl.
  pose proof (counts_bounds s op (channelSequence c) He) as (Hb1 & Hb2 & Hb3).
  pose proof (current_earlier s op (channelSequence c)) as Hsum. pose proof (current_earlier s op (req_sequence r)) as Hsum'.
  unfold count_. cbv zeta. assert (0 <= u16 (req_sequence r - channelSequence c)) as Hd by (unfold u16; apply Z.mod_pos_bound; lia).
  destruct (Z.eqb_spec (u16 (req_sequence r - channelSequence c)) 0) as [E|E].
  - rewrite E. rewrite diff_zero in E by done. rewrite E, Hear.
    destruct (req_replay r); simpl; [destruct (Z.eqb_spec (earlier s op (channelSequence c)) 0)|]; rewrite ?Hm;
      eexists _, _; (split; [done|]); split; intros; try done; try (split; [lia|done]); destruct_and?; exfalso; auto.
  - destruct (Z.leb_spec (u16 (req_sequence r - channelSequence c)) 0x7fff).
    + rewrite diff_zero in E by done. specialize (Hf E).
      assert (u32 (outstandingPreviousRequestCount c + outstandingRequestCount c) = earlier s op (req_sequence r)) as ->.
      { unfold u32. rewrite Z.mod_small; lia. }
      destruct (req_replay r); simpl; [destruct (Z.eqb_spec (earlier s op (req_sequence r)) 0)|]; rewrite ?Hm;
        eexists _, _; (split; [done|]); split; intros; try done; try (split; [lia|done]); destruct_and?; exfalso; auto.
    + rewrite Hm. eexists _, _. split; [done|]. split; [done|]. intros []. lia.
Qed.

(** ** Witness: a write outstanding under sequence 1 holds back a write replayed under 2 *)
Definition replayed : req := Req 2 true SMB2_WRITE.
Definition seen0 : system := System (Table ∅ ∅) ∅.
Definition seen1 : system := System (Table {[7 := Counters 1 0 0]} ∅) ∅.
Definition seen2 : system := System (Table {[7 := Counters 1 1 0]} {[(0, 10) := 7]}) {[(0, 10) := Req 1 false SMB2_WRITE]}.
Lemma seen_reachable : reachable init step seen2.
Proof.
  apply (reach_step _ _ seen1).
  - apply (reach_step _ _ seen0); [by apply reach_init|]. apply (step_create seen0 7 1); [done|done].
  - refine (step_verify seen1 SMB_DIALECT_311 (0, 10) (Req 1 false SMB2_WRITE) 7 _ _ _ _ _ _ _ _); [done|done|done|done| |vm_compute; reflexivity].
    intros c Hc. by injection Hc as <-.
Qed.
Lemma channel_sequence_counts_witness :
  let c := Counters 1 1 0 in
  outstandingRequestCount c = current seen2 7 1 /\ outstandingPreviousRequestCount c = earlier seen2 7 1 /\
  exists t' status, verifyChannelSequence SMB_DIALECT_311 (1, 3) replayed 7 (tbl seen2) = Some (t', status) /\
    (status = STATUS_OK <-> u16 (2 - 1) <= 0x7fff /\ (true = true -> earlier seen2 7 2 = 0)).
Proof.
  destruct (channel_sequence_counts seen2 SMB_DIALECT_311 (1, 3) replayed 7 (Counters 1 1 0) seen_reachable eq_refl) as (H1 & H2 & H3).
  split; [exact H1|]. split; [exact H2|]. apply H3; [reflexivity|split; reflexivity || discriminate|reflexivity|reflexivity|reflexivity].
Defined.
End ChannelSeq.
