(* ===== verification/Ciphers.v ===== *)
(** The message authentication codes and the cipher mode of [internal/cmac] and
    [internal/ccm], over a block cipher that is an argument.

    Both packages take their input byte by byte into a block that is encrypted when the
    next byte finds it full.  That is the state here; what it computes is proved to be
    the chaining over whole blocks that NIST SP 800-38B and SP 800-38C are written in.
    AES itself, and the counter mode of [crypto/cipher], are of the standard library:
    AES is the argument [E], of which only the length of a block is used, and counter
    mode is written out. *)
From S2P Require Import Prelude Bytes.

(** ** Bytes side by side *)
(** [a] with the bytes of [b] added to its first ones; what is left of either is
    dropped for [b] and kept for [a]. *)
Fixpoint xorOver (a b : list Z) : list Z :=
  match a, b with
  | x :: a, y :: b => Z.lxor x y :: xorOver a b
  | a, _ => a
  end.
Definition zeros (n : nat) : list Z := replicate n 0.

Lemma length_xorOver a b : length (xorOver a b) = length a.
Proof. revert b. induction a as [|x a IH]; intros [|y b]; simpl; auto. Qed.
Lemma xorOver_nil a : xorOver a [] = a.
Proof. by destruct a. Qed.
Lemma xorOver_involutive a b : xorOver (xorOver a b) b = a.
Proof.
  revert b. induction a as [|x a IH]; intros [|y b]; simpl; try done. by rewrite IH, Z.lxor_assoc, Z.lxor_nilpotent, Z.lxor_0_r.
Qed.
Lemma xorOver_comm a b : length a = length b -> xorOver a b = xorOver b a.
Proof.
  revert b. induction a as [|x a IH]; intros [|y b]; simpl; try done. intros [= H]. by rewrite IH, Z.lxor_comm.
Qed.
Lemma xorOver_snoc a b y x : a !! length b = Some x -> xorOver a (b ++ [y]) = <[length b := Z.lxor x y]> (xorOver a b).
Proof.
  revert b. induction a as [|z a IH]; intros [|w b] H; simpl in *; try done.
  - injection H as ->. by destruct a.
  - by rewrite IH.
Qed.
Lemma lookup_xorOver_ge a b i : (length b <= i)%nat -> xorOver a b !! i = a !! i.
Proof.
  revert b i. induction a as [|z a IH]; intros [|w b] i Hi; simpl in *; try done. destruct i; [lia|]. apply IH. lia.
Qed.
Lemma lookup_xorOver a b i x y : a !! i = Some x -> b !! i = Some y -> xorOver a b !! i = Some (Z.lxor x y).
Proof.
  revert b i. induction a as [|z a IH]; intros [|w b] [|i] Ha Hb; simpl in *; try done; [congruence|]. by apply IH.
Qed.
Lemma xorOver_insert a b i x y z : a !! i = Some x -> b !! i = Some y ->
  xorOver (<[i := Z.lxor x z]> a) b = <[i := Z.lxor (Z.lxor x y) z]> (xorOver a b).
Proof.
  revert b i. induction a as [|v a IH]; intros [|w b] [|i] Ha Hb; simpl in *; try done; [|by rewrite IH].
  injection Ha as ->. injection Hb as ->. by rewrite Z.lxor_assoc, (Z.lxor_comm z), <- Z.lxor_assoc.
Qed.
Lemma xorOver_app a b c d : length a = length b -> xorOver (a ++ c) (b ++ d) = xorOver a b ++ xorOver c d.
Proof. revert b. induction a as [|x a IH]; intros [|y b]; simpl; try done. intros [= H]. by rewrite IH. Qed.
Lemma take_xorOver n a b : take n (xorOver a b) = xorOver (take n a) (take n b).
Proof.
  revert a b. induction n as [|n IH]; intros [|x a] [|y b]; simpl; try done. by rewrite IH.
Qed.

(** ** Chaining *)
Section cbc.
Context (E : list Z -> list Z).

(** The state both packages keep: [ci] and the position in it. *)
Record chaining := Chaining { ci : list Z; pos : Z }.

(** One turn of the loop of [Write]: [ci[p] ^= c]. *)
Definition write1 {Er} (st : chaining) (c : Z) : outcome Er chaining :=
  let st := if pos st >=? zlen (ci st) then Chaining (E (ci st)) 0 else st in
  x ← index (ci st) (pos st);
  l ← store (ci st) (pos st) (Z.lxor x c);
  mret (Chaining l (pos st + 1)).
Fixpoint chainWrite {Er} (p : list Z) (st : chaining) : outcome Er chaining :=
  match p with
  | [] => mret st
  | c :: p => st ← write1 st c; chainWrite p st
  end.

(** The same over whole blocks: [m] is absorbed into [x] sixteen bytes at a time, and
    what is left in the end, one to sixteen of them, waits. *)
Fixpoint absorb (fuel : nat) (x m : list Z) : chaining :=
  match fuel with
  | O => Chaining x 0
  | S fuel =>
      if (length m <=? 16)%nat then Chaining (xorOver x m) (zlen m)
      else absorb fuel (E (xorOver x (take 16 m))) (drop 16 m)
  end.

Context (E_block : forall b, length (E b) = 16%nat).
Context {Er : Type}.

Lemma Write_app p q st : @chainWrite Er (p ++ q) st = (st ← chainWrite p st; chainWrite q st).
Proof.
  revert st. induction p as [|c p IH]; intros st; simpl; [done|]. destruct (write1 st c); simpl; [apply IH|done..].
Qed.
(** Writing within a block. *)
Lemma Write_block x m : length x = 16%nat -> (length m <= 16)%nat -> @chainWrite Er m (Chaining x 0) = Ok (Chaining (xorOver x m) (zlen m)).
Proof.
  intros Hx. induction m as [|c m IH] using rev_ind; intros Hm; [by rewrite xorOver_nil|].
  rewrite length_app in Hm. simpl in Hm. rewrite Write_app, IH by lia. rewrite bind_ret. simpl. unfold write1. simpl.
  destruct (Z.geb_spec (zlen m) (zlen (xorOver x m))) as [Hge|Hlt].
  { unfold zlen in Hge. rewrite length_xorOver in Hge. lia. }
  simpl. destruct (lookup_lt_is_Some_2 x (length m)) as [y Hy]; [lia|].
  assert (index (E:=Er) (xorOver x m) (zlen m) = Ok y) as ->.
  { apply index_Ok. split; [apply zlen_nonneg|]. unfold zlen. rewrite Nat2Z.id, lookup_xorOver_ge by lia. done. }
  run_bind. rewrite store_ok by (pose proof (zlen_nonneg m); lia). run_bind.
  rewrite (xorOver_snoc x m c y Hy), zlen_app. unfold zlen at 1. rewrite Nat2Z.id. done.
Qed.
(** The byte after a full block starts the next. *)
Lemma Write_full x m : length x = 16%nat -> m <> [] -> @chainWrite Er m (Chaining x 16) = chainWrite m (Chaining (E x) 0).
Proof using E_block.
  intros Hx Hm. destruct m as [|c m]; [done|]. simpl. unfold write1. simpl. unfold zlen. rewrite E_block, Hx. done.
Qed.
Lemma Write_absorb fuel x m : length x = 16%nat -> (length m < fuel)%nat -> @chainWrite Er m (Chaining x 0) = Ok (absorb fuel x m).
Proof using E_block.
  revert x m. induction fuel as [|fuel IH]; intros x m Hx Hf; [lia|]. simpl.
  destruct (Nat.leb_spec (length m) 16); [by apply Write_block|].
  rewrite <- (take_drop 16 m) at 1. rewrite Write_app, Write_block by (rewrite ?length_take; lia). rewrite bind_ret.
  replace (zlen (take 16 m)) with 16 by (unfold zlen; rewrite length_take; lia).
  rewrite Write_full; [|by rewrite length_xorOver|intros Hd; apply (f_equal length) in Hd; rewrite length_drop in Hd; simpl in Hd; lia].
  apply IH; [apply E_block|rewrite length_drop; lia].
Qed.
End cbc.

(** ** CMAC, [internal/cmac] *)
Module Cmac.
Section cmac.
Context (E : list Z -> list Z).
Context {Er : Type}.

Definition r128 : Z := 0x87.

(** From the last byte to the first, the top bit of each carried into the next. *)
Definition shift1 (src : list Z) : list Z * Z :=
  foldr (fun s r => ((u8 (Z.shiftl s 1) .| r.2) :: r.1, Z.shiftr s 7)) ([], 0) src.
Definition double (src : list Z) : outcome Er (list Z) :=
  let (dst, b) := shift1 src in
  if b =? 0 then mret dst
  else x ← index dst (zlen dst - 1); store dst (zlen dst - 1) (Z.lxor x r128).

Record cmac := CMAC { k1 : list Z; k2 : list Z; state : chaining }.
(** [New], for a block of sixteen bytes. *)
Definition New : outcome Er cmac :=
  k1 ← double (E (zeros 16)); k2 ← double k1; mret (CMAC k1 k2 (Chaining (zeros 16) 0)).
Definition Reset (d : cmac) : cmac := CMAC (k1 d) (k2 d) (Chaining (zeros (length (ci (state d)))) 0).
Definition Write (p : list Z) (d : cmac) : outcome Er cmac := st ← chainWrite E p (state d); mret (CMAC (k1 d) (k2 d) st).
Definition Sum (d : cmac) : outcome Er (list Z) :=
  let st := state d in
  let k := if pos st <? 16 then k2 d else k1 d in
  let digest := xorOver (ci st) k in
  digest ← (if pos st <? 16 then x ← index digest (pos st); store digest (pos st) (Z.lxor x 0x80) else mret digest);
  mret (E digest).

(** The code over a message that arrives in pieces. *)
Fixpoint writeAll (ps : list (list Z)) (d : cmac) : outcome Er cmac :=
  match ps with
  | [] => mret d
  | p :: ps => d ← Write p d; writeAll ps d
  end.
Definition digestOf (ps : list (list Z)) : outcome Er (list Z) := d ← New; d ← writeAll ps (Reset d); Sum d.

(** *** SP 800-38B

    A subkey is the double of a block in the field of 2^128 elements; the last block
    of the message takes the first subkey if it is whole, else it is closed with a one
    and zeros and takes the second. *)
Definition fieldDouble (v : Z) : Z := if v <? 2 ^ 127 then 2 * v else Z.lxor (2 * v - 2 ^ 128) 0x87.
Definition K1 : list Z := be_enc 16 (fieldDouble (be_dec (E (zeros 16)))).
Definition K2 : list Z := be_enc 16 (fieldDouble (fieldDouble (be_dec (E (zeros 16))))).
Fixpoint mac (fuel : nat) (x m : list Z) : list Z :=
  match fuel with
  | O => []
  | S fuel =>
      if (16 <? length m)%nat then mac fuel (E (xorOver x (take 16 m))) (drop 16 m)
      else if (length m =? 16)%nat then E (xorOver (xorOver x m) K1)
      else E (xorOver (xorOver x (m ++ [0x80])) K2)
  end.
Definition reference (m : list Z) : list Z := mac (S (length m)) (zeros 16) m.

Context (E_block : forall b, length (E b) = 16%nat) (E_bytes : forall b, bytes (E b)).

(** *** Doubling a block *)
Lemma be_dec_cons x l : bytes (x :: l) -> be_dec (x :: l) = x * 256 ^ zlen l + be_dec l.
Proof.
  intros Hb. unfold be_dec. simpl. apply Forall_cons in Hb as [Hx Hl].
  assert (bytes (rev l)) as Hr by (unfold bytes in *; by apply Forall_rev). clear Hl.
  replace (zlen l) with (zlen (rev l)) by (unfold zlen; by rewrite length_rev).
  induction Hr as [|y r Hy Hr IH]; simpl app.
  - rewrite le_dec_cons by done. simpl. change (zlen []) with 0. lia.
  - rewrite !le_dec_cons by done. rewrite IH, zlen_cons, Z.pow_add_r by (lia || apply zlen_nonneg). lia.
Qed.
Lemma be_dec_bound l : bytes l -> 0 <= be_dec l < 256 ^ zlen l.
Proof.
  intros Hb. unfold be_dec. apply Forall_rev, le_dec_bound in Hb. unfold zlen in *. rewrite length_rev in Hb.
  rewrite Z.pow_mul_r in Hb by lia. done.
Qed.

Lemma shift1_spec l : bytes l ->
  bytes (shift1 l).1 /\ length (shift1 l).1 = length l /\ 0 <= (shift1 l).2 <= 1 /\
  be_dec (shift1 l).1 + (shift1 l).2 * 256 ^ zlen l = 2 * be_dec l.
Proof.
  induction 1 as [|s l Hs Hl IH]; [split; [constructor|split; [done|split; [simpl; lia|done]]]|]. destruct IH as (H1 & H2 & H3 & H4). simpl.
  destruct (shift1 l) as [d b]. simpl in *. unfold is_u8 in Hs.
  rewrite Z.shiftl_mul_pow2, Z.shiftr_div_pow2 by lia. change (2 ^ 1) with 2. change (2 ^ 7) with 128.
  assert (u8 (s * 2) .| b = u8 (s * 2) + b) as Hor.
  { unfold u8. replace (s * 2) with (Z.shiftl s 1) by (rewrite Z.shiftl_mul_pow2 by lia; lia). change (2 ^ 8) with (2 ^ 1 * 2 ^ 7).
    rewrite Z.shiftl_mul_pow2 by lia. rewrite Z.mul_comm, Z.mul_mod_distr_l by lia.
    rewrite Z.lor_comm, (Z.mul_comm (2 ^ 1)), <- Z.shiftl_mul_pow2 by lia. rewrite lor_shiftl_add by lia.
    rewrite Z.shiftl_mul_pow2 by lia. lia. }
  rewrite Hor. assert (0 <= u8 (s * 2) <= 254 /\ s * 2 = u8 (s * 2) + 256 * (s / 128)) as [Hu Hd].
  { unfold u8. change (2 ^ 8) with 256. pose proof (Z.div_mod s 128). pose proof (Z.mod_pos_bound s 128).
    replace (s * 2) with (s mod 128 * 2 + s / 128 * 256) by lia. rewrite Z.mod_add, Z.mod_small by lia. lia. }
  assert (bytes (u8 (s * 2) + b :: d)) as Hb by (constructor; [unfold is_u8; lia|done]).
  split; [done|]. split; [by rewrite H2|]. split; [split; [apply Z.div_pos; lia|enough (s / 128 < 2) by lia; apply Z.div_lt_upper_bound; lia]|].
  rewrite (be_dec_cons s l) by (by constructor). rewrite be_dec_cons by done. rewrite zlen_cons, Z.pow_add_r by (lia || apply zlen_nonneg).
  assert (zlen d = zlen l) as -> by (unfold zlen; by rewrite H2). lia.
Qed.

(** The low byte of a block is the last. *)
Lemma xor_low l v : (0 < length l)%nat -> bytes l -> 0 <= v < 256 ->
  exists x, l !! (length l - 1)%nat = Some x /\ be_enc (length l) (Z.lxor (be_dec l) v) = <[(length l - 1)%nat := Z.lxor x v]> l.
Proof.
  intros Hl Hb Hv. destruct (List.exists_last (l:=l)) as (l' & x & ->); [by destruct l; [simpl in Hl; lia|]|].
  rewrite length_app in *. simpl length in *. replace (length l' + 1 - 1)%nat with (length l') by lia.
  exists x. rewrite lookup_app_r, Nat.sub_diag by lia. split; [done|]. rewrite insert_app_r_alt, Nat.sub_diag by lia. simpl.
  apply Forall_app in Hb as [Hb1 Hb2]. apply Forall_cons in Hb2 as [Hx _].
  unfold be_enc, be_dec. rewrite rev_app_distr. simpl rev. simpl app. rewrite Nat.add_comm. simpl le_enc. simpl rev.
  assert (bytes (rev l')) as Hr by (by apply Forall_rev). pose proof (le_dec_bound _ Hr) as Hbound.
  set (d := le_dec (rev l')) in *. f_equal.
  - rewrite Z.shiftr_lxor, Z.shiftr_lor, Z.shiftr_shiftl_r by lia. rewrite Z.sub_diag.
    fold d. unfold is_u8 in Hx.
    assert (forall y, 0 <= y < 256 -> Z.shiftr y 8 = 0) as Hs by (intros; rewrite Z.shiftr_div_pow2 by lia; apply Z.div_small; lia).
    rewrite !Hs by lia. simpl Z.lor. rewrite Z.lxor_0_r, Z.shiftr_0_r. subst d. rewrite <- (length_rev l'), le_enc_dec by done. apply rev_involutive.
  - f_equal. change 255 with (Z.ones 8). apply Z.bits_inj'. intros i Hi.
    rewrite Z.land_spec, !Z.lxor_spec, Z.lor_spec. rewrite Z.testbit_ones_nonneg by lia.
    destruct (Z.ltb_spec i 8).
    + rewrite Z.shiftl_spec_low by lia. by rewrite orb_false_r, andb_true_r.
    + rewrite andb_false_r. symmetry. unfold is_u8 in Hx.
      rewrite <- (Z.mod_small x (2 ^ 8)), <- (Z.mod_small v (2 ^ 8)) by lia. rewrite !Z.mod_pow2_bits_high by lia. done.
Qed.
Lemma double_spec l : bytes l -> length l = 16%nat ->
  exists l', double l = Ok l' /\ bytes l' /\ length l' = 16%nat /\ l' = be_enc 16 (fieldDouble (be_dec l)) /\ be_dec l' = fieldDouble (be_dec l).
Proof.
  intros Hb Hl. destruct (shift1_spec l Hb) as (H1 & H2 & H3 & H4). unfold double.
  destruct (shift1 l) as [d b]. simpl in *. pose proof (be_dec_bound l Hb) as Hbl. pose proof (be_dec_bound d H1) as Hbd.
  unfold zlen in *. rewrite H2, Hl in *. change (256 ^ Z.of_nat 16) with (2 ^ 128) in *.
  assert (be_enc 16 (be_dec d) = d) as Hd by (rewrite <- (be_enc_dec d) at 2 by done; by rewrite H2).
  unfold fieldDouble. destruct (Z.eqb_spec b 0) as [->|Hb0].
  - exists d. destruct (Z.ltb_spec (be_dec l) (2 ^ 127)); [|lia]. replace (2 * be_dec l) with (be_dec d) by lia. by rewrite Hd.
  - destruct (Z.ltb_spec (be_dec l) (2 ^ 127)); [lia|]. replace (2 * be_dec l - 2 ^ 128) with (be_dec d) by lia.
    destruct (xor_low d 0x87) as (x & Hx & He); [lia|done|lia|]. rewrite H2 in *.
    assert (index (E:=Er) d (Z.of_nat 16 - 1) = Ok x) as -> by (by apply index_Ok). run_bind.
    rewrite store_ok by (unfold zlen; lia). change (Z.to_nat (Z.of_nat 16 - 1)) with (16 - 1)%nat.
    eexists. split; [done|]. unfold r128. rewrite <- He. unfold be_enc. split; [by apply Forall_rev, bytes_le_enc|].
    split; [by rewrite length_rev, length_le_enc|]. split; [done|]. unfold be_dec at 1. rewrite rev_involutive, le_dec_enc_small; [done|].
    change (2 ^ (8 * Z.of_nat 16)) with (2 ^ 128). apply lxor_bound; lia.
Qed.

(** *** The last block *)
Lemma New_spec : exists d, New = Ok d /\ k1 d = K1 /\ k2 d = K2 /\ length (k1 d) = 16%nat /\ length (k2 d) = 16%nat /\ state d = Chaining (zeros 16) 0.
Proof using E_block E_bytes.
  unfold New. destruct (double_spec (E (zeros 16))) as (l1 & -> & B1 & L1 & V1 & D1); [done|done|]. run_bind.
  destruct (double_spec l1) as (l2 & -> & B2 & L2 & V2 & D2); [done|done|]. run_bind.
  eexists. split; [done|]. simpl. unfold K1, K2. by rewrite <- V1, <- D1, <- V2.
Qed.

Lemma Sum_absorb fuel x m d : length x = 16%nat -> (length m < fuel)%nat -> k1 d = K1 -> k2 d = K2 ->
  length (k1 d) = 16%nat -> length (k2 d) = 16%nat ->
  Sum (CMAC (k1 d) (k2 d) (absorb E fuel x m)) = Ok (mac fuel x m).
Proof using E_block.
  intros Hx Hf E1 E2 L1 L2. revert x m Hx Hf. induction fuel as [|fuel IH]; intros x m Hx Hf; [lia|]. simpl absorb. simpl mac.
  destruct (Nat.leb_spec (length m) 16).
  2: { rewrite IH; [|apply E_block|rewrite length_drop; lia]. by destruct (Nat.ltb_spec 16 (length m)); [|lia]. }
  destruct (Nat.ltb_spec 16 (length m)); [lia|]. unfold Sum. simpl. destruct (Nat.eqb_spec (length m) 16) as [E16|E16].
  - replace (zlen m) with 16 by (unfold zlen; lia). simpl. by rewrite E1.
  - destruct (Z.ltb_spec (zlen m) 16); [|unfold zlen in *; lia].
    destruct (lookup_lt_is_Some_2 x (length m)) as [y Hy]; [lia|].
    destruct (lookup_lt_is_Some_2 (k2 d) (length m)) as [k Hk]; [lia|].
    assert (xorOver (xorOver x m) (k2 d) !! length m = Some (Z.lxor y k)) as Hyk.
    { apply lookup_xorOver; [by rewrite lookup_xorOver_ge|done]. }
    assert (index (E:=Er) (xorOver (xorOver x m) (k2 d)) (zlen m) = Ok (Z.lxor y k)) as ->.
    { apply index_Ok. split; [apply zlen_nonneg|]. unfold zlen. by rewrite Nat2Z.id. }
    run_bind. rewrite store_ok by (unfold zlen in *; rewrite !length_xorOver; lia). unfold zlen at 1. rewrite Nat2Z.id. simpl.
    rewrite <- E2, (xorOver_snoc x m 0x80 y Hy). do 2 f_equal. symmetry. apply xorOver_insert; [by rewrite lookup_xorOver_ge|done].
Qed.

Lemma writeAll_concat ps d : writeAll ps d = Write (concat ps) d.
Proof.
  revert d. induction ps as [|p ps IH]; intros d; simpl; [unfold Write; by destruct d|]. unfold Write at 2. rewrite Write_app.
  unfold Write at 1. destruct (chainWrite E p (state d)); simpl; [by rewrite IH|done..].
Qed.
Lemma digestOf_is ps : digestOf ps = Ok (reference (concat ps)).
Proof using E_block E_bytes.
  unfold digestOf. destruct New_spec as (d & -> & D1 & D2 & D3 & D4 & D5). run_bind.
  rewrite writeAll_concat. unfold Reset, Write. simpl. rewrite D5. simpl.
  rewrite (Write_absorb E E_block (S (length (concat ps)))) by (done || lia). run_bind.
  apply Sum_absorb; done || lia.
Qed.
Lemma length_reference m : length (reference m) = 16%nat.
Proof using E_block.
  unfold reference. assert (length m < S (length m))%nat as Hf by lia. revert Hf. generalize (S (length m)) (zeros 16). intros f x.
  revert x m. induction f as [|f IH]; intros x m Hf; [lia|]. simpl. destruct (Nat.ltb_spec 16 (length m)); [apply IH; rewrite length_drop; lia|].
  destruct (_ =? _)%nat; apply E_block.
Qed.
Lemma digest_is ps : exists d, digestOf ps = Ok d /\ length d = 16%nat.
Proof using E_block E_bytes. rewrite digestOf_is. eexists. split; [done|apply length_reference]. Qed.
End cmac.

(** The code computes the CMAC of SP 800-38B: whatever pieces a message is written in, the
    digest is the one the standard defines of the whole of it, over the subkeys it defines
    - for every block cipher on sixteen bytes. *)
Theorem cmac_is_sp800_38b (E : list Z -> list Z) (ps : list (list Z)) :
  (forall b, length (E b) = 16%nat) -> (forall b, bytes (E b)) -> digestOf (Er:=unit) E ps = Ok (reference E (concat ps)).
Proof. intros HE HB. by apply digestOf_is. Qed.
(** A cipher that rotates its block, to run the code with. *)
Definition toy (b : list Z) : list Z := take 16 (map u8 (drop 1 b ++ take 1 b) ++ zeros 16).
Lemma toy_block b : length (toy b) = 16%nat.
Proof. unfold toy, zeros. rewrite length_take, length_app, length_replicate. lia. Qed.
Lemma toy_bytes b : bytes (toy b).
Proof.
  apply Forall_take, Forall_app. split; [|apply Forall_replicate; done].
  apply Forall_forall. intros x (y & -> & _)%list_elem_of_fmap. unfold is_u8, u8. apply Z.mod_pos_bound. lia.
Qed.
Lemma cmac_is_sp800_38b_witness : digestOf (Er:=unit) toy [[1; 2]; [3]; replicate 30 7] = Ok (reference toy (concat [[1; 2]; [3]; replicate 30 7])).
Proof. apply cmac_is_sp800_38b; [apply toy_block|apply toy_bytes]. Defined.
End Cmac.

(** ** Counter with CBC-MAC, [internal/ccm] *)
Module Ccm.
Inductive ccmErr := tooShort | tooLong | authenticationFailed.
Abbreviation out := (outcome ccmErr).

(** *** The counter mode of [crypto/cipher]: blocks of key stream from a counter that
    counts up as one big-endian number. *)
Fixpoint incrLE (l : list Z) : list Z :=
  match l with
  | [] => []
  | x :: l => let y := u8 (x + 1) in if y =? 0 then y :: incrLE l else y :: l
  end.
Definition incr (l : list Z) : list Z := rev (incrLE (rev l)).
Fixpoint keyStream (E : list Z -> list Z) (n : nat) (ctr : list Z) : list Z :=
  match n with
  | O => []
  | S n => E ctr ++ keyStream E n (incr ctr)
  end.
Definition blocksOf (n : nat) : nat := (n + 15) / 16.
Definition XORKeyStream (E : list Z -> list Z) (ctr src : list Z) : list Z := xorOver src (keyStream E (blocksOf (length src)) ctr).

Section ccm.
Context (E : list Z -> list Z) (nonceSize tagSize : Z).

Definition maxUvarint (n : Z) : Z := u64 (u64 (2 ^ (n * 8)) - 1).
(** The size checks of [NewCCMWithNonceAndTagSizes]. *)
Definition validSizes : bool :=
  (7 <=? nonceSize) && (nonceSize <=? 13) && (4 <=? tagSize) && (tagSize <=? 16) && (tagSize .& 1 =? 0).

Definition PadZero (st : chaining) : chaining := if pos st =? 0 then st else Chaining (E (ci st)) 0.

(** [putUvarint] over [l] from [i] on. *)
Definition putUvarint (l : list Z) (i u : Z) : list Z :=
  take (Z.to_nat i) l ++ be_enc (length l - Z.to_nat i) u.
Definition orFirst (l : list Z) (v : Z) : out (list Z) := x ← index l 0; store l 0 (x .| v).
Definition encodedLength (n : Z) : list Z :=
  if n <? 2 ^ 15 - 2 ^ 7 then be_enc 2 n
  else if n <=? 2 ^ 31 - 1 then [0xff; 0xfe] ++ be_enc 4 n
  else [0xff; 0xff] ++ be_enc 8 n.
Definition getTag (Ctr data plaintext : list Z) : out (list Z) :=
  let st := Chaining (zeros 16) 0 in
  B ← orFirst Ctr (u8 (Z.shiftl (Z.quot (tagSize - 2) 2) 3));
  let B := putUvarint B (1 + nonceSize) (zlen plaintext) in
  st ← (if 0 <? zlen data then
          B ← orFirst B (Z.shiftl 1 6);
          st ← chainWrite E B st; st ← chainWrite E (encodedLength (zlen data)) st; st ← chainWrite E data st;
          mret (PadZero st)
        else chainWrite E B st);
  st ← chainWrite E plaintext st;
  mret (ci (PadZero st)).

(** The first counter block: the flags, the nonce, and zeros. *)
Definition counterBlock (nonce : list Z) : list Z := take 16 (u8 (15 - nonceSize - 1) :: nonce ++ zeros 16).
Definition Seal (dst nonce plaintext data : list Z) : out (option (list Z)) :=
  if negb (zlen nonce =? nonceSize) then Panic
  else if maxUvarint (15 - nonceSize) <? zlen plaintext then mret None
  else
    let Ctr := counterBlock nonce in
    let S0 := E Ctr in
    Ctr ← store Ctr 15 1;
    let ciphertext := XORKeyStream E Ctr plaintext in
    T ← getTag Ctr data plaintext;
    ret ← slice (dst ++ ciphertext ++ xorOver S0 T) 0 (zlen dst + zlen plaintext + tagSize);
    mret (Some ret).
Definition Open (dst nonce ciphertext data : list Z) : out (list Z) :=
  if negb (zlen nonce =? nonceSize) then Panic
  else if zlen ciphertext <? tagSize then Err tooShort
  else if maxUvarint (15 - nonceSize) <? zlen ciphertext - tagSize then Err tooLong
  else
    let n := zlen ciphertext - tagSize in
    let Ctr := counterBlock nonce in
    let S0 := E Ctr in
    Ctr ← store Ctr 15 1;
    head ← slice ciphertext 0 n;
    let plaintext := XORKeyStream E Ctr head in
    T ← getTag Ctr data plaintext;
    tag ← slice (xorOver T S0) 0 tagSize;
    tail ← slice ciphertext n (zlen ciphertext);
    if bool_decide (tag = tail) then mret (dst ++ plaintext) else Err authenticationFailed.

Context (E_block : forall b, length (E b) = 16%nat) (sizes_ok : validSizes = true).

Lemma sizes_range : 7 <= nonceSize <= 13 /\ 4 <= tagSize <= 16 /\ exists k, tagSize = 2 * k.
Proof using sizes_ok.
  unfold validSizes in sizes_ok. repeat match goal with H : _ && _ = true |- _ => apply andb_prop in H as [H ?] end.
  split; [lia|]. split; [lia|]. exists (tagSize / 2). apply Z.eqb_eq in H. change 1 with (Z.ones 1) in H. rewrite Z.land_ones in H by lia.
  pose proof (Z.div_mod tagSize 2). change (2 ^ 1) with 2 in H. lia.
Qed.

(** *** The tag, over whole blocks *)
Fixpoint chain (fuel : nat) (x m : list Z) : list Z :=
  match fuel with
  | O => x
  | S fuel =>
      if (length m =? 0)%nat then x
      else if (length m <=? 16)%nat then E (xorOver x m)
      else chain fuel (E (xorOver x (take 16 m))) (drop 16 m)
  end.
Lemma chain_S f x m : chain (S f) x m =
  if (length m =? 0)%nat then x else if (length m <=? 16)%nat then E (xorOver x m) else chain f (E (xorOver x (take 16 m))) (drop 16 m).
Proof. done. Qed.
(** CBC-MAC of a message filled up with zeros. *)
Definition cbcMac (x m : list Z) : list Z := chain (S (length m)) x m.

Lemma chain_fuel f1 f2 x m : (length m < f1)%nat -> (length m < f2)%nat -> chain f1 x m = chain f2 x m.
Proof.
  revert f2 x m. induction f1 as [|f1 IH]; intros f2 x m H1 H2; [lia|]. destruct f2 as [|f2]; [lia|]. simpl.
  destruct (length m =? 0)%nat eqn:E0; [done|]. destruct (Nat.leb_spec (length m) 16); [done|]. apply IH; rewrite length_drop; lia.
Qed.
Lemma PadZero_absorb fuel x m : length x = 16%nat -> (length m < fuel)%nat -> PadZero (absorb E fuel x m) = Chaining (chain fuel x m) 0.
Proof using E_block.
  revert x m. induction fuel as [|fuel IH]; intros x m Hx Hf; [lia|]. simpl.
  destruct (Nat.eqb_spec (length m) 0) as [E0|E0].
  - apply nil_length_inv in E0 as ->. simpl. by rewrite xorOver_nil.
  - destruct (Nat.leb_spec (length m) 16); [|apply IH; [apply E_block|rewrite length_drop; lia]].
    unfold PadZero. simpl. destruct (Z.eqb_spec (zlen m) 0); [unfold zlen in *; lia|done].
Qed.
Lemma Write_PadZero {A} x m (f : chaining -> out A) : length x = 16%nat ->
  (st ← chainWrite E m (Chaining x 0); f (PadZero st)) = f (Chaining (cbcMac x m) 0).
Proof using E_block.
  intros Hx. rewrite (Write_absorb E E_block (S (length m))) by (done || lia). run_bind. by rewrite PadZero_absorb by (done || lia).
Qed.
Lemma length_cbcMac x m : length x = 16%nat -> length (cbcMac x m) = 16%nat.
Proof using E_block.
  unfold cbcMac. generalize (S (length m)). intros f. revert x m. induction f as [|f IH]; intros x m Hx; simpl; [done|].
  destruct (length m =? 0)%nat; [done|]. destruct (length m <=? 16)%nat; [apply E_block|]. apply IH, E_block.
Qed.
Lemma cbcMac_block x b m : length x = 16%nat -> length b = 16%nat -> cbcMac x (b ++ m) = cbcMac (E (xorOver x b)) m.
Proof using E_block.
  intros Hx Hb. unfold cbcMac at 1. rewrite chain_S, length_app, Hb. destruct (Nat.eqb_spec (16 + length m) 0); [lia|].
  destruct m as [|c m]; [by rewrite app_nil_r|]. simpl length.
  destruct (Nat.leb_spec (16 + S (length m)) 16); [lia|]. rewrite take_app_length', drop_app_length' by done.
  unfold cbcMac. apply chain_fuel; simpl; lia.
Qed.

(** *** SP 800-38C

    The first block [B0]: the flags, the nonce and the length of the message in the
    bytes left; then the associated data after its length; then the message, each filled
    up with zeros to a whole number of blocks. *)
Definition q : Z := 15 - nonceSize.
Definition firstBlock (nonce : list Z) (a p : Z) : list Z :=
  ((if 0 <? a then 64 else 0) + 8 * ((tagSize - 2) / 2) + (q - 1)) :: nonce ++ be_enc (Z.to_nat q) p.
Definition associated (data : list Z) : list Z := if 0 <? zlen data then encodedLength (zlen data) ++ data else [].
Definition tagOf (nonce data plaintext : list Z) : list Z :=
  cbcMac (cbcMac (zeros 16) (firstBlock nonce (zlen data) (zlen plaintext) ++ associated data)) plaintext.
(** The counter blocks. *)
Definition counter (nonce : list Z) (i : Z) : list Z := (q - 1) :: nonce ++ be_enc (Z.to_nat q) i.

Lemma length_be_enc n v : length (be_enc n v) = n.
Proof. unfold be_enc. by rewrite length_rev, length_le_enc. Qed.
Lemma be_enc_S n v : be_enc (S n) v = be_enc n (v / 256) ++ [v mod 256].
Proof. unfold be_enc. rewrite le_enc_S. done. Qed.
Lemma be_enc_0 n : be_enc n 0 = zeros n.
Proof. induction n as [|n IH]; [done|]. rewrite be_enc_S. change (0 / 256) with 0. rewrite IH. unfold zeros.
  replace (S n) with (n + 1)%nat by lia. by rewrite replicate_add. Qed.
Lemma be_enc_1 n : be_enc (S n) 1 = zeros n ++ [1].
Proof. rewrite be_enc_S. change (1 / 256) with 0. by rewrite be_enc_0. Qed.

Lemma counterBlock_is nonce : zlen nonce = nonceSize -> counterBlock nonce = counter nonce 0 /\ store (E:=ccmErr) (counter nonce 0) 15 1 = Ok (counter nonce 1).
Proof using sizes_ok.
  intros Hn. destruct sizes_range as (Hr & _). unfold counterBlock, counter, q in *. set (k := Z.to_nat (15 - nonceSize)).
  assert (length nonce + k = 15)%nat as Hk by (unfold zlen in Hn; lia). split.
  - rewrite be_enc_0. unfold u8. rewrite Z.mod_small by lia. simpl. f_equal. unfold zeros.
    replace 16%nat with (k + (16 - k))%nat by lia. rewrite replicate_add, app_assoc, take_app_length'; [done|].
    rewrite length_app, length_replicate. lia.
  - rewrite store_ok by (unfold zlen; simpl; rewrite length_app, length_be_enc; lia). do 2 f_equal. rewrite be_enc_0.
    destruct k as [|k'] eqn:Ek; [lia|]. rewrite be_enc_1. change (Z.to_nat 15) with 15%nat. simpl. f_equal. unfold zeros.
    replace (S k') with (k' + 1)%nat by lia. rewrite replicate_add, !app_assoc.
    rewrite insert_app_r_alt by (rewrite length_app, length_replicate; lia). rewrite length_app, length_replicate.
    by replace (14 - (length nonce + k'))%nat with 0%nat by lia.
Qed.

Lemma flags_is : u8 (15 - nonceSize - 1) .| u8 (Z.shiftl (Z.quot (tagSize - 2) 2) 3) = 8 * ((tagSize - 2) / 2) + (q - 1) /\
  (8 * ((tagSize - 2) / 2) + (q - 1)) .| Z.shiftl 1 6 = 64 + 8 * ((tagSize - 2) / 2) + (q - 1) /\ u8 (15 - nonceSize - 1) = q - 1.
Proof using sizes_ok.
  destruct sizes_range as (Hn & Ht & k & Hk). unfold q.
  set (P := fun n k : Z => (u8 (15 - n - 1) .| u8 (Z.shiftl (Z.quot (2 * k - 2) 2) 3) =? 8 * ((2 * k - 2) / 2) + (15 - n - 1)) &&
    ((8 * ((2 * k - 2) / 2) + (15 - n - 1)) .| Z.shiftl 1 6 =? 64 + 8 * ((2 * k - 2) / 2) + (15 - n - 1)) && (u8 (15 - n - 1) =? 15 - n - 1)).
  assert (forallb (fun n => forallb (P n) (seqZ 2 7)) (seqZ 7 7) = true) as Hall by (vm_compute; reflexivity).
  assert (P nonceSize k = true) as HP.
  { rewrite forallb_forall in Hall. specialize (Hall nonceSize). rewrite <- list_elem_of_In, elem_of_seqZ in Hall.
    rewrite forallb_forall in Hall. apply Hall; [lia|]. apply list_elem_of_In, elem_of_seqZ. lia. }
  rewrite Hk. unfold P in HP. apply andb_prop in HP as [[H1%Z.eqb_eq H2%Z.eqb_eq]%andb_prop H3%Z.eqb_eq]. done.
Qed.

(** A message written in three pieces and filled up. *)
Lemma written3 a b c x : length x = 16%nat -> exists s1 s2 s3, chainWrite (Er:=ccmErr) E a (Chaining x 0) = Ok s1 /\
  chainWrite (Er:=ccmErr) E b s1 = Ok s2 /\ chainWrite (Er:=ccmErr) E c s2 = Ok s3 /\ PadZero s3 = Chaining (cbcMac x (a ++ b ++ c)) 0.
Proof using E_block.
  intros Hx. pose proof (Write_absorb E E_block (Er:=ccmErr) (S (length (a ++ b ++ c))) x (a ++ b ++ c) Hx ltac:(lia)) as W.
  rewrite Write_app in W. apply bind_Ok in W as (s1 & W1 & W). rewrite Write_app in W. apply bind_Ok in W as (s2 & W2 & W).
  eexists s1, s2, _. split; [done|]. split; [done|]. split; [done|]. apply PadZero_absorb; [done|lia].
Qed.
Lemma orFirst_cons x l v : orFirst (x :: l) v = Ok ((x .| v) :: l).
Proof. unfold orFirst. simpl. rewrite store_ok; [done|]. rewrite zlen_cons. pose proof (zlen_nonneg l). lia. Qed.
Lemma getTag_spec nonce data plaintext : zlen nonce = nonceSize -> getTag (counter nonce 1) data plaintext = Ok (tagOf nonce data plaintext).
Proof using E_block sizes_ok.
  intros Hn. destruct sizes_range as (Hr & _). destruct flags_is as (F1 & F2 & F3). unfold getTag, counter. cbv zeta.
  rewrite orFirst_cons. rewrite <- F3, F1. run_bind.
  assert (length nonce + Z.to_nat q = 15)%nat as Hlen by (unfold zlen, q in *; lia).
  assert (putUvarint ((8 * ((tagSize - 2) / 2) + (q - 1)) :: nonce ++ be_enc (Z.to_nat q) 1) (1 + nonceSize) (zlen plaintext) =
    (8 * ((tagSize - 2) / 2) + (q - 1)) :: nonce ++ be_enc (Z.to_nat q) (zlen plaintext)) as ->.
  { unfold putUvarint. replace (Z.to_nat (1 + nonceSize)) with (S (length nonce)) by (unfold zlen in *; lia). simpl. f_equal.
    rewrite take_app_length, length_app, length_be_enc. f_equal. f_equal. lia. }
  unfold tagOf, associated, firstBlock. set (rest := nonce ++ be_enc _ (zlen plaintext)).
  assert (length rest = 15%nat) as Hrest by (subst rest; rewrite length_app, length_be_enc; lia).
  destruct (Z.ltb_spec 0 (zlen data)).
  - rewrite orFirst_cons, F2. run_bind. set (B := _ :: rest). assert (length B = 16%nat) by (subst B; simpl; lia).
    destruct (written3 B (encodedLength (zlen data)) data (zeros 16)) as (s1 & s2 & s3 & -> & W2 & W3 & W4); [done|].
    run_bind. rewrite W2. run_bind. rewrite W3. run_bind. rewrite W4. rewrite bind_mret.
    rewrite (Write_PadZero (cbcMac (zeros 16) (B ++ encodedLength (zlen data) ++ data)) plaintext (fun st => mret (ci st))); [done|by apply length_cbcMac].
  - set (B := _ :: rest). assert (length B = 16%nat) by (subst B; simpl; lia). rewrite app_nil_r.
    destruct (written3 B plaintext [] (zeros 16)) as (s1 & s2 & s3 & -> & W2 & W3 & W4); [done|]. run_bind. rewrite W2. run_bind.
    simpl in W3. injection W3 as ->. rewrite W4. rewrite app_nil_r, cbcMac_block by done.
    replace (cbcMac (zeros 16) B) with (E (xorOver (zeros 16) B)); [done|].
    rewrite <- (app_nil_r B) at 2. by rewrite cbcMac_block.
Qed.

(** *** The key stream *)
Lemma incrLE_enc n i rest : 0 <= i -> i + 1 < 256 ^ Z.of_nat n -> incrLE (le_enc n i ++ rest) = le_enc n (i + 1) ++ rest.
Proof.
  revert i. induction n as [|n IH]; intros i Hi Hn; [simpl in Hn; lia|]. rewrite !le_enc_S. simpl. unfold u8. change (2 ^ 8) with 256.
  rewrite Z.add_mod_idemp_l by lia. pose proof (Z.div_mod i 256 ltac:(lia)). pose proof (Z.mod_pos_bound i 256 ltac:(lia)).
  destruct (Z.eq_dec (i mod 256) 255) as [E255|N].
  - assert (i + 1 = (i / 256 + 1) * 256) as Hs by lia. rewrite Hs, Z.mod_mul, Z.div_mul by lia. simpl. f_equal. apply IH; [lia|].
    rewrite Nat2Z.inj_succ, Z.pow_succ_r in Hn by lia. lia.
  - assert (i + 1 = (i mod 256 + 1) + i / 256 * 256) as -> by lia. set (r := i mod 256) in *. set (d := i / 256) in *. clearbody r d.
    rewrite Z.mod_add, Z.div_add, Z.mod_small, Z.div_small by lia. destruct (Z.eqb_spec (r + 1) 0); [lia|]. by rewrite Z.add_0_l.
Qed.
Lemma incr_counter nonce i : 0 <= i -> i + 1 < 256 ^ q -> incr (counter nonce i) = counter nonce (i + 1).
Proof using sizes_ok.
  intros Hi Hq. destruct sizes_range as (Hr & _). unfold incr, counter, be_enc. simpl. rewrite rev_app_distr, rev_involutive, <- app_assoc.
  rewrite incrLE_enc; [|done|unfold q in *; by rewrite Z2Nat.id by lia]. rewrite !rev_app_distr. simpl. by rewrite rev_involutive.
Qed.
Definition streamOf (nonce : list Z) (n : nat) : list Z := concat (map (fun i => E (counter nonce i)) (seqZ 1 (Z.of_nat n))).
Lemma keyStream_from nonce n i : 0 <= i -> i + Z.of_nat n <= 256 ^ q ->
  keyStream E n (counter nonce i) = concat (map (fun i => E (counter nonce i)) (seqZ i (Z.of_nat n))).
Proof using sizes_ok.
  revert i. induction n as [|n IH]; intros i Hi Hn; [done|]. rewrite seqZ_cons by lia. simpl. f_equal.
  replace (Z.pred (Z.of_nat (S n))) with (Z.of_nat n) by lia. destruct n as [|n]; [done|].
  rewrite incr_counter by lia. rewrite IH by lia. by rewrite Z.add_1_r.
Qed.
Lemma max_is : maxUvarint (15 - nonceSize) = 256 ^ q - 1 /\ 256 ^ 2 <= 256 ^ q.
Proof using sizes_ok.
  destruct sizes_range as (Hr & _). unfold maxUvarint, q. split; [|apply Z.pow_le_mono_r; lia].
  set (P := fun n : Z => u64 (u64 (2 ^ ((15 - n) * 8)) - 1) =? 256 ^ (15 - n) - 1).
  assert (forallb P (seqZ 7 7) = true) as Hall by (vm_compute; reflexivity). apply Z.eqb_eq.
  rewrite forallb_forall in Hall. apply Hall, list_elem_of_In, elem_of_seqZ. lia.
Qed.
Lemma XORKeyStream_is nonce src : zlen src <= 256 ^ q - 1 -> XORKeyStream E (counter nonce 1) src = xorOver src (streamOf nonce (blocksOf (length src))).
Proof using sizes_ok.
  intros Hs. unfold XORKeyStream, streamOf. destruct max_is as [_ Hq]. f_equal. apply keyStream_from; [lia|]. unfold blocksOf.
  rewrite Nat2Z.inj_div. unfold zlen in Hs. pose proof (Z.div_le_upper_bound (Z.of_nat (length src + 15)) 16 (256 ^ q - 1) ltac:(lia)). lia.
Qed.

Definition sealed (nonce plaintext data : list Z) : list Z :=
  xorOver plaintext (streamOf nonce (blocksOf (length plaintext))) ++
  take (Z.to_nat tagSize) (xorOver (E (counter nonce 0)) (tagOf nonce data plaintext)).
Lemma length_tagOf nonce data plaintext : length (tagOf nonce data plaintext) = 16%nat.
Proof using E_block. unfold tagOf. apply length_cbcMac, length_cbcMac. done. Qed.

Lemma Seal_is dst nonce plaintext data : zlen nonce = nonceSize ->
  Seal dst nonce plaintext data = Ok (if 256 ^ q - 1 <? zlen plaintext then None else Some (dst ++ sealed nonce plaintext data)).
Proof using E_block sizes_ok.
  intros Hn. destruct sizes_range as (Hr & Ht & _). destruct (counterBlock_is nonce Hn) as [Hc Hs]. destruct max_is as [Hm _].
  unfold Seal. rewrite Hn, Z.eqb_refl, Hm. simpl negb. cbv iota. destruct (Z.ltb_spec (256 ^ q - 1) (zlen plaintext)); [done|].
  rewrite Hc. cbv zeta. rewrite Hs. run_bind. rewrite getTag_spec by done. run_bind. rewrite XORKeyStream_is by done.
  pose proof (zlen_nonneg dst). pose proof (zlen_nonneg plaintext).
  assert (forall a b c : list Z, zlen (c ++ xorOver plaintext a ++ xorOver (E (counter nonce 0)) b) = zlen c + zlen plaintext + 16) as Hl.
  { intros a b c. unfold zlen. rewrite !length_app, !length_xorOver, E_block. lia. }
  rewrite slice_Ok by (rewrite ?Hl; lia). run_bind. unfold sealed, sub. rewrite Z.sub_0_r. simpl. do 2 f_equal.
  replace (Z.to_nat (zlen dst + zlen plaintext + tagSize)) with (length dst + (length plaintext + Z.to_nat tagSize))%nat by (unfold zlen; lia).
  change (Z.to_nat 0) with 0%nat. rewrite drop_0, take_app_add. f_equal. rewrite <- (length_xorOver plaintext (streamOf nonce (blocksOf (length plaintext)))) at 1. by rewrite take_app_add.
Qed.
Lemma Open_is dst nonce c data : zlen nonce = nonceSize ->
  let n := zlen c - tagSize in
  Open dst nonce c data =
    if zlen c <? tagSize then Err tooShort
    else if 256 ^ q - 1 <? n then Err tooLong
    else
      let plaintext := xorOver (take (Z.to_nat n) c) (streamOf nonce (blocksOf (Z.to_nat n))) in
      if bool_decide (take (Z.to_nat tagSize) (xorOver (tagOf nonce data plaintext) (E (counter nonce 0))) = drop (Z.to_nat n) c)
      then Ok (dst ++ plaintext) else Err authenticationFailed.
Proof using E_block sizes_ok.
  intros Hn n. destruct sizes_range as (Hr & Ht & _). destruct (counterBlock_is nonce Hn) as [Hc Hs]. destruct max_is as [Hm _].
  unfold Open. rewrite Hn, Z.eqb_refl, Hm. simpl negb. cbv iota. destruct (Z.ltb_spec (zlen c) tagSize); [done|].
  fold n. destruct (Z.ltb_spec (256 ^ q - 1) n); [done|]. rewrite Hc. cbv zeta. rewrite Hs. run_bind.
  rewrite (slice_Ok c 0 n) by lia. run_bind. unfold sub. rewrite Z.sub_0_r. change (drop (Z.to_nat 0) c) with c.
  assert (0 <= n) by (unfold n; lia).
  assert (length (take (Z.to_nat n) c) = Z.to_nat n) as Hlen by (rewrite length_take; unfold n, zlen in *; lia).
  rewrite XORKeyStream_is by (unfold zlen; rewrite Hlen; lia). rewrite Hlen, getTag_spec by done. run_bind. set (p := xorOver (take (Z.to_nat n) c) _).
  rewrite (slice_Ok (xorOver (tagOf nonce data p) (E (counter nonce 0))) 0 tagSize) by (unfold zlen; rewrite ?length_xorOver, ?length_tagOf; lia).
  run_bind. rewrite (slice_Ok c n (zlen c)) by (unfold n; lia). run_bind.
  unfold sub. rewrite Z.sub_0_r. change (Z.to_nat 0) with 0%nat. rewrite drop_0.
  rewrite (take_ge (drop (Z.to_nat n) c)) by (rewrite length_drop; unfold n, zlen; lia). done.
Qed.

(** *** What the standard writes *)
Definition standardLength (n : Z) : list Z :=
  if n <? 2 ^ 16 - 2 ^ 8 then be_enc 2 n
  else if n <? 2 ^ 32 then [0xff; 0xfe] ++ be_enc 4 n
  else [0xff; 0xff] ++ be_enc 8 n.
Definition standardTag (nonce data plaintext : list Z) : list Z :=
  cbcMac (cbcMac (zeros 16) (firstBlock nonce (zlen data) (zlen plaintext) ++
    (if 0 <? zlen data then standardLength (zlen data) ++ data else []))) plaintext.
Definition standardSeal (nonce plaintext data : list Z) : list Z :=
  xorOver plaintext (streamOf nonce (blocksOf (length plaintext))) ++
  take (Z.to_nat tagSize) (xorOver (E (counter nonce 0)) (standardTag nonce data plaintext)).
Lemma standard_short nonce plaintext data : zlen data < 2 ^ 15 - 2 ^ 7 -> sealed nonce plaintext data = standardSeal nonce plaintext data.
Proof.
  intros Hd. unfold sealed, standardSeal, tagOf, standardTag, associated, encodedLength, standardLength.
  destruct (Z.ltb_spec (zlen data) (2 ^ 15 - 2 ^ 7)); [|lia]. by destruct (Z.ltb_spec (zlen data) (2 ^ 16 - 2 ^ 8)); [|lia].
Qed.
Lemma length_sealed nonce p data : zlen (sealed nonce p data) = zlen p + tagSize.
Proof using E_block sizes_ok.
  destruct sizes_range as (_ & Ht & _). unfold sealed, zlen. rewrite length_app, length_xorOver, length_take, length_xorOver, E_block. lia.
Qed.

Lemma Open_sealed dst nonce c data p : zlen nonce = nonceSize ->
  Open dst nonce c data = Ok (dst ++ p) <-> zlen p <= 256 ^ q - 1 /\ c = sealed nonce p data.
Proof using E_block sizes_ok.
  intros Hn. destruct sizes_range as (_ & Ht & _). rewrite Open_is by done. cbv zeta. split.
  - destruct (Z.ltb_spec (zlen c) tagSize); [done|]. destruct (Z.ltb_spec (256 ^ q - 1) (zlen c - tagSize)); [done|].
    set (n := Z.to_nat (zlen c - tagSize)). set (p' := xorOver (take n c) _).
    destruct (bool_decide _) eqn:Hb; [|done]. apply bool_decide_eq_true in Hb. intros [= Hp%app_inv_head]. subst p.
    assert (length p' = n) as Hlen by (subst p' n; rewrite length_xorOver, length_take; unfold zlen; lia).
    split; [unfold zlen; lia|]. rewrite <- (take_drop n c) at 1. unfold sealed. rewrite Hlen, <- Hb.
    f_equal; [symmetry; apply xorOver_involutive|]. by rewrite xorOver_comm by (by rewrite E_block, length_tagOf).
  - intros [Hp ->]. rewrite length_sealed. replace (zlen p + tagSize - tagSize) with (zlen p) by lia. pose proof (zlen_nonneg p).
    destruct (Z.ltb_spec (zlen p + tagSize) tagSize); [lia|]. destruct (Z.ltb_spec (256 ^ q - 1) (zlen p)); [lia|].
    replace (Z.to_nat (zlen p)) with (length p) by (unfold zlen; lia).
    set (s := streamOf nonce (blocksOf (length p))). set (t := take (Z.to_nat tagSize) (xorOver (E (counter nonce 0)) (tagOf nonce data p))).
    assert (take (length p) (sealed nonce p data) = xorOver p s) as -> by (apply take_app_length'; by rewrite length_xorOver).
    assert (drop (length p) (sealed nonce p data) = t) as -> by (apply drop_app_length'; by rewrite length_xorOver).
    rewrite xorOver_involutive. unfold t.
    rewrite xorOver_comm by (by rewrite E_block, length_tagOf). by rewrite bool_decide_true.
Qed.
End ccm.

(** C40: Sealing is the authenticated encryption of SP 800-38C: the message under the key stream
    of its counter blocks, and the first bytes of the CBC-MAC of the nonce, the lengths,
    the associated data and the message, under the block of counter nought - for every
    block cipher, size of nonce and size of tag the package admits, and associated data
    shorter than 32640 bytes. *)
Theorem ccm_is_sp800_38c (E : list Z -> list Z) (nonceSize tagSize : Z) (dst nonce plaintext data : list Z) :
  (forall b, length (E b) = 16%nat) -> validSizes nonceSize tagSize = true -> zlen nonce = nonceSize ->
  zlen plaintext < 256 ^ (15 - nonceSize) -> zlen data < 2 ^ 15 - 2 ^ 7 ->
  Seal E nonceSize tagSize dst nonce plaintext data = Ok (Some (dst ++ standardSeal E nonceSize tagSize nonce plaintext data)).
Proof.
  intros HE Hv Hn Hp Hd. rewrite Seal_is by done. unfold q. destruct (Z.ltb_spec (256 ^ (15 - nonceSize) - 1) (zlen plaintext)); [lia|].
  by rewrite standard_short.
Qed.

(** Opening undoes sealing and nothing else: a message opens, to a plaintext, exactly when it
    is what sealing that plaintext under the same nonce and associated data gives; and on
    anything else, however short, it is an error and never a panic. *)
Theorem ccm_open_iff_sealed (E : list Z -> list Z) (nonceSize tagSize : Z) (nonce ciphertext data : list Z) :
  (forall b, length (E b) = 16%nat) -> validSizes nonceSize tagSize = true -> zlen nonce = nonceSize ->
  settled (Open E nonceSize tagSize [] nonce ciphertext data) /\
  (forall p, Open E nonceSize tagSize [] nonce ciphertext data = Ok p <-> Seal E nonceSize tagSize [] nonce p data = Ok (Some ciphertext)).
Proof.
  intros HE Hv Hn. split.
  - rewrite Open_is by done. cbv zeta. destruct (_ <? _); [done|]. destruct (_ <? _); [done|]. by destruct (bool_decide _).
  - intros p. rewrite (Open_sealed E nonceSize tagSize HE Hv [] nonce ciphertext data p Hn), Seal_is by done. simpl.
    destruct (Z.ltb_spec (256 ^ q nonceSize - 1) (zlen p)); split.
    + intros [? ?]. lia.
    + done.
    + by intros [_ ->].
    + intros [= <-]. done.
Qed.

(** Between 32640 and 65279 bytes of associated data the length is written in six
    bytes where the standard has two. *)
Theorem long_associated_data_differs (n : Z) : 2 ^ 15 - 2 ^ 7 <= n < 2 ^ 16 - 2 ^ 8 ->
  length (encodedLength n) = 6%nat /\ length (standardLength n) = 2%nat.
Proof.
  intros Hn. unfold encodedLength, standardLength. destruct (Z.ltb_spec n (2 ^ 15 - 2 ^ 7)); [lia|].
  destruct (Z.leb_spec n (2 ^ 31 - 1)); [|lia]. by destruct (Z.ltb_spec n (2 ^ 16 - 2 ^ 8)); [|lia].
Qed.

Lemma ccm_is_sp800_38c_witness :
  Seal Cmac.toy 11 16 [9] (zeros 11) [1; 2; 3] [4] = Ok (Some ([9] ++ standardSeal Cmac.toy 11 16 (zeros 11) [1; 2; 3] [4])).
Proof. apply ccm_is_sp800_38c; [apply Cmac.toy_block|reflexivity|reflexivity|reflexivity|reflexivity]. Defined.
Lemma ccm_open_iff_sealed_witness :
  let c := standardSeal Cmac.toy 11 16 (zeros 11) [1; 2; 3] [4] in
  settled (Open Cmac.toy 11 16 [] (zeros 11) c [4]) /\
  (forall p, Open Cmac.toy 11 16 [] (zeros 11) c [4] = Ok p <-> Seal Cmac.toy 11 16 [] (zeros 11) p [4] = Ok (Some c)).
Proof. apply ccm_open_iff_sealed; [apply Cmac.toy_block|reflexivity|reflexivity]. Defined.
End Ccm.
