(* ===== verification/Session.v ===== *)
(** [session.go], [channel.go], [kdf/kdf.go], [internal/gmac] and the protection of
    responses in [server.go]: which key a message is signed with, how a chain of
    responses is signed, how a request is held to its signature, encryption, and the
    channels of a session.

    The primitives of the Go library are the record [crypto]: HMAC-SHA256, SHA-512, AES
    as a block cipher and GCM.  CMAC and CCM are the repository's own, in [Ciphers].
    [CryptoOk] states what is relied on.  A slice [buf[off:]] that is written through is
    the end of the message, put back after the edit. *)
From S2P Require Import Prelude Bytes Smb2Const Header Request Messages Ciphers.
Import Header Request Messages.

Module Session.

Record crypto := Crypto {
  hmac_sha256 : list Z -> list Z -> list Z;
  sha512 : list Z -> list Z;
  newAES : list Z -> option (list Z -> list Z);   (* [aes.NewCipher]: a key of a wrong length is an error *)
  gcmSeal : list Z -> list Z -> list Z -> list Z -> list Z;
  gcmOpen : list Z -> list Z -> list Z -> list Z -> option (list Z);
}.
Class CryptoOk (lib : crypto) : Prop := {
  hmac_length : forall k m, length (hmac_sha256 lib k m) = 32%nat;
  aes_keys : forall k, length k = 16%nat -> is_Some (newAES lib k);
  aes_block : forall k E, newAES lib k = Some E -> forall b, length (E b) = 16%nat;
  aes_bytes : forall k E, newAES lib k = Some E -> forall b, bytes (E b);
  gcm_length : forall k n p a, length (gcmSeal lib k n p a) = (length p + 16)%nat;
  gcm_open_seal : forall k n p a, gcmOpen lib k n (gcmSeal lib k n p a) a = Some p;
}.

(** ** State

    A connection is named by its identity; [clientName] is the address it came from,
    which a later connection may have again. *)
Abbreviation connId := nat.
Record connection := Connection {
  cid : connId; clientName : string; negotiateDialect : Z; signingAlgorithmID : Z; cipherID : Z;
  clientGuid : list Z; preauthIntegrityHashID : Z; preauthIntegrityHashValue : list Z;
  preauthSessionTable : gmap Z (list Z);
}.
Inductive sessionState := sessionInProgress | sessionValid | sessionExpired.
#[export] Instance sessionState_eq_dec : EqDecision sessionState.
Proof. solve_decision. Defined.
Record channel := Channel { ch_signingKey : list Z; ch_connection : connId }.
Record session := MkSession {
  sessionID : Z; state : sessionState; isAnonymous : bool; isGuest : bool; sessionKey : list Z; signingRequired : bool;
  userName : string; encryptData : bool; signingKey : list Z; encryptionKey : list Z; decryptionKey : list Z;
  ss_preauthHash : list Z; channelList : gmap string channel;
}.
Definition set_channels (l : gmap string channel) (ss : session) : session :=
  MkSession (sessionID ss) (state ss) (isAnonymous ss) (isGuest ss) (sessionKey ss) (signingRequired ss) (userName ss)
    (encryptData ss) (signingKey ss) (encryptionKey ss) (decryptionKey ss) (ss_preauthHash ss) l.
Definition set_keys (s e d : list Z) (ss : session) : session :=
  MkSession (sessionID ss) (state ss) (isAnonymous ss) (isGuest ss) (sessionKey ss) (signingRequired ss) (userName ss)
    (encryptData ss) s e d (ss_preauthHash ss) (channelList ss).
Definition set_preauth (t : gmap Z (list Z)) (c : connection) : connection :=
  Connection (cid c) (clientName c) (negotiateDialect c) (signingAlgorithmID c) (cipherID c) (clientGuid c)
    (preauthIntegrityHashID c) (preauthIntegrityHashValue c) t.

(** ** Channels *)
Definition isChannel (ss : session) (c : connection) : bool :=
  match channelList ss !! clientName c with Some ch => bool_decide (ch_connection ch = cid c) | None => false end.
Definition channelOf (ss : session) (c : connection) : option channel :=
  match channelList ss !! clientName c with
  | Some ch => if bool_decide (ch_connection ch = cid c) then Some ch else None
  | None => None
  end.
Definition bindChannel (c : connection) (key : list Z) (ss : session) : session :=
  set_channels (<[clientName c := Channel key (cid c)]> (channelList ss)) ss.
Definition addChannel (c : connection) (ss : session) : session :=
  if isChannel ss c then ss else set_channels (<[clientName c := Channel [] (cid c)]> (channelList ss)) ss.
Definition unbindChannel (c : connection) (ss : session) : session :=
  if isChannel ss c then set_channels (delete (clientName c) (channelList ss)) ss else ss.

(** ** Keys *)
Section keys.
Context (lib : crypto).

Definition Kdf (ki label context : list Z) : list Z :=
  take 16 (hmac_sha256 lib ki ([0; 0; 0; 1] ++ label ++ [0] ++ context ++ [0; 0; 0; 0x80])).
(** The labels, with the nought that ends each. *)
Definition text (s : string) : list Z := map (fun a => Z.of_N (Ascii.N_of_ascii a)) (String.list_ascii_of_string s) ++ [0].
Definition deriveKeys (dialect : Z) (ss : session) : session :=
  if (dialect =? SMB_DIALECT_30) || (dialect =? SMB_DIALECT_302) then
    set_keys (Kdf (sessionKey ss) (text "SMB2AESCMAC") (text "SmbSign")) (Kdf (sessionKey ss) (text "SMB2AESCCM") (text "ServerOut"))
      (Kdf (sessionKey ss) (text "SMB2AESCCM") (text "ServerIn ")) ss
  else if dialect =? SMB_DIALECT_311 then
    set_keys (Kdf (sessionKey ss) (text "SMBSigningKey") (ss_preauthHash ss)) (Kdf (sessionKey ss) (text "SMBS2CCipherKey") (ss_preauthHash ss))
      (Kdf (sessionKey ss) (text "SMBC2SCipherKey") (ss_preauthHash ss)) ss
  else ss.

Definition signingKeyFor (ss : session) (c : connection) (command status : Z) : list Z :=
  if negb (Is3X (negotiateDialect c)) then signingKey ss
  else if (command =? SMB2_SESSION_SETUP) && negb (status =? STATUS_OK) then signingKey ss
  else match channelOf ss c with
       | Some ch => if zlen (ch_signingKey ch) =? 0 then signingKey ss else ch_signingKey ch
       | None => signingKey ss
       end.

(** ** Message authentication codes

    [New] of [internal/gmac], a write and a sum: GCM over nothing, with the message as
    what is authenticated. *)
Definition gmac (key nonce m : list Z) : option (list Z) :=
  match newAES lib key with
  | None => None
  | Some _ => if negb (length nonce =? 12)%nat then None else Some (gcmSeal lib key nonce [] m)
  end.
Definition cmacOf (key m : list Z) : out (option (list Z)) :=
  match newAES lib key with
  | None => mret None
  | Some E => match Cmac.digestOf (Er:=smbErr) E [m] with Ok s => mret (Some s) | Err e => Err e | Panic => Panic | Stuck => Stuck end
  end.
(** [None] is a key no cipher takes.  A dialect that is none of the five leaves no signer
    at all, which is a nil pointer. *)
Definition macOf (c : connection) (key : list Z) (mark mid command : Z) (m : list Z) : out (option (list Z)) :=
  let d := negotiateDialect c in
  if (d =? SMB_DIALECT_202) || (d =? SMB_DIALECT_21) then mret (Some (hmac_sha256 lib key m))
  else if (d =? SMB_DIALECT_30) || (d =? SMB_DIALECT_302) then cmacOf key m
  else if d =? SMB_DIALECT_311 then
    if signingAlgorithmID c =? AES_CMAC then cmacOf key m
    else if signingAlgorithmID c =? AES_GMAC then
      mret (gmac key (le_enc 8 mid ++ [mark .| (if command =? SMB2_CANCEL then 2 else 0)] ++ [0; 0; 0]) m)
    else cmacOf key m
  else Panic.

(** ** Walking the headers of a message

    [edit next rest] works on the end of the message from one header on. *)
Fixpoint eachHeader (fuel : nat) (edit : Z -> list Z -> out (list Z * bool)) (buf : list Z) (off : Z) : out (list Z) :=
  match fuel with
  | O => Stuck
  | S fuel =>
      rest ← slice buf off (zlen buf);
      next ← NextCommand rest;
      r ← edit next rest;
      let buf := take (Z.to_nat off) buf ++ r.1 in
      if (r.2 : bool) || (next =? 0) then mret buf else eachHeader fuel edit buf (u32 (off + next))
  end.

(** ** Signing *)
Definition signOne (ss : session) (c : connection) (next : Z) (rest : list Z) : out (list Z * bool) :=
  flags ← Flags rest;
  rest ← SetFlags (flags .| FLAGS_SIGNED) rest;
  rest ← WipeSignature rest;
  command ← Command rest; status ← Status rest; mid ← MessageID rest;
  let key := if (negotiateDialect c =? SMB_DIALECT_202) || (negotiateDialect c =? SMB_DIALECT_21) then sessionKey ss
             else signingKeyFor ss c command status in
  m ← (if next =? 0 then mret rest else slice rest 0 next);
  sum ← macOf c key 1 mid command m;
  match sum with
  | None => mret (rest, true)
  | Some sum => rest ← SetSignature sum rest; mret (rest, false)
  end.
Definition sign (ss : session) (c : connection) (buf : list Z) : out (list Z) := eachHeader (S (length buf)) (signOne ss c) buf 0.
Definition wipeOne (next : Z) (rest : list Z) : out (list Z * bool) :=
  rest ← SetSignature (replicate 16 0) rest; rest ← ClearFlag FLAGS_SIGNED rest; mret (rest, false).
Definition wipeSignatures (buf : list Z) : out (list Z) := eachHeader (S (length buf)) wipeOne buf 0.

Fixpoint stampSessionID_loop (fuel : nat) (sid : Z) (msg : list Z) (off : Z) : out (list Z) :=
  match fuel with
  | O => Stuck
  | S fuel =>
      if off + SMB2HeaderSize >? zlen msg then mret msg
      else
        h ← slice msg off (zlen msg);
        s ← SessionID h;
        h ← (if s =? 0 then SetSessionID sid h else mret h);
        next ← NextCommand h;
        let msg := take (Z.to_nat off) msg ++ h in
        if next =? 0 then mret msg else stampSessionID_loop fuel sid msg (u32 (off + next))
  end.
Definition stampSessionID (msg : list Z) (sid : Z) : out (list Z) := stampSessionID_loop (S (length msg)) sid msg 0.

(** ** Holding a request to its signature *)
Inductive verdict := accepted | errNoSigningKey | errUnsignedRequest | errInvalidSignature.
#[export] Instance verdict_eq_dec : EqDecision verdict.
Proof. solve_decision. Defined.

Definition isSetupCommand (command : Z) : bool := (command =? SMB2_NEGOTIATE) || (command =? SMB2_SESSION_SETUP).
Definition isSessionBinding (d : list Z) : out bool :=
  command ← Command d;
  if negb (command =? SMB2_SESSION_SETUP) then mret false
  else flags ← SessionSetupRequest_Flags d; mret (flags .& SESSION_FLAG_BINDING >? 0).
Definition verificationKeyFor (ss : session) (c : connection) (d : list Z) : out (list Z) :=
  if negb (Is3X (negotiateDialect c)) then mret (sessionKey ss)
  else
    binding ← isSessionBinding d;
    if (binding : bool) then mret (signingKey ss)
    else mret (match channelOf ss c with Some ch => ch_signingKey ch | None => [] end).
(** The request's data goes on with its signature wiped. *)
Definition validateRequest (ss : session) (c : connection) (isEncrypted : bool) (d : list Z) : out (verdict * list Z) :=
  if isEncrypted then mret (accepted, d)
  else
    signed ← IsFlagSet FLAGS_SIGNED d;
    command ← Command d;
    if negb signed then
      mret (if signingRequired ss && negb (isSetupCommand command) then errUnsignedRequest else accepted, d)
    else
      key ← verificationKeyFor ss c d;
      if zlen key =? 0 then mret (errNoSigningKey, d)
      else
        signature ← Signature d;
        d ← WipeSignature d;
        mid ← MessageID d;
        sum ← macOf c key 0 mid command d;
        match sum with
        | None => mret (errInvalidSignature, d)
        | Some sum =>
            sum ← slice sum 0 16;
            mret (if bool_decide (signature = sum) then accepted else errInvalidSignature, d)
        end.

(** ** Encryption

    The cipher of the connection under a key of the session. *)
Record aead := Aead {
  nonceSize : Z;
  Seal : list Z -> list Z -> list Z -> out (option (list Z));
  Open : list Z -> list Z -> list Z -> out (option (list Z));
}.
Definition lift {A B} (m : Ccm.out A) (f : A -> B) (failed : B) : out B :=
  match m with Ok a => Ok (f a) | Err _ => Ok failed | Panic => Panic | Stuck => Stuck end.
Definition aeadOf (key : list Z) (c : connection) : option aead :=
  match newAES lib key with
  | None => None
  | Some E =>
      if cipherID c =? AES_128_CCM then
        if Ccm.validSizes 11 16 then
          Some (Aead 11 (fun n p a => lift (Ccm.Seal E 11 16 [] n p a) id None)
                        (fun n ct a => lift (Ccm.Open E 11 16 [] n ct a) Some None))
        else None
      else if cipherID c =? AES_128_GCM then
        Some (Aead 12 (fun n p a => mret (Some (gcmSeal lib key n p a))) (fun n ct a => mret (gcmOpen lib key n ct a)))
      else None
  end.
(** [nonce] is what the random generator gives, of the length the cipher asks for.
    Sealing writes behind the header, into room that was zero before; a message too
    long for the mode is left unsealed. *)
Definition encrypt (ss : session) (c : connection) (nonce buf : list Z) : out (option (list Z)) :=
  match aeadOf (encryptionKey ss) c with
  | None => mret None
  | Some e =>
      let output := replicate (Z.to_nat SMB2TransformHeaderSize) 0 in
      output ← SetProtocolID PROTOCOL_SMB2_ENCRYPTED output;
      output ← SetNonce nonce output;
      output ← SetOriginalMessageSize (u32 (zlen buf)) output;
      output ← SetEncryptionFlags 1 output;
      output ← SetTransformSessionID (sessionID ss) output;
      ad ← AssociatedData output;
      r ← Seal e nonce buf ad;
      let output := output ++ (match r with Some s => s | None => replicate (length buf + 16) 0 end) in
      tag ← slice output (zlen output - 16) (zlen output);
      output ← SetEncryptionSignature tag output;
      output ← slice output 0 (zlen output - 16);
      mret (Some output)
  end.
Definition decrypt (ss : session) (c : connection) (buf : list Z) : out (option (list Z)) :=
  body ← slice buf SMB2TransformHeaderSize (zlen buf);
  tag ← EncryptionSignature buf;
  match aeadOf (decryptionKey ss) c with
  | None => mret None
  | Some d =>
      nonce ← Nonce buf;
      nonce ← slice nonce 0 (nonceSize d);
      ad ← AssociatedData buf;
      Open d nonce (body ++ tag) ad
  end.

(** ** What goes out

    [encodeResponse] with [c.compress] as an argument: [None] stands for no session. *)
Definition protect (compress : list Z -> list Z) (nonce : list Z) (ss : option session) (c : connection) (resp : response) : out (option (list Z)) :=
  let buf := r_data resp in
  match ss with
  | None => mret (Some buf)
  | Some ss =>
      if negb (bool_decide (state ss = sessionValid)) then mret (Some buf)
      else
        command ← Command buf;
        signed ← IsFlagSet FLAGS_SIGNED buf;
        if r_shouldEncrypt resp || (negb (command =? SMB2_SESSION_SETUP) && encryptData ss) then
          buf ← wipeSignatures buf;
          buf ← stampSessionID buf (sessionID ss);
          encrypt ss c nonce (if r_mayCompress resp then compress buf else buf)
        else if (command =? SMB2_SESSION_SETUP) || signed then
          buf ← sign ss c buf; mret (Some buf)
        else buf ← wipeSignatures buf; mret (Some buf)
  end.
End keys.

(** ** Sixteen bytes copied into a message *)
Lemma copy_at_is h i j b : 0 <= i -> zlen b = j - i -> j <= zlen h ->
  copy_at h i j b = Ok (take (Z.to_nat i) h ++ b ++ drop (Z.to_nat j) h).
Proof.
  intros Hi Hb Hj. pose proof (zlen_nonneg b). unfold copy_at. rewrite slice_Ok by lia. run_bind. cbv zeta.
  rewrite <- Hb, Z.min_id. unfold zlen at 1. rewrite Nat2Z.id, take_ge by lia. unfold splice.
  destruct (Z.leb_spec 0 i), (Z.leb_spec (i + zlen b) (zlen h)); try lia. simpl. by replace (i + zlen b) with j by lia.
Qed.
Lemma sub_copied (h b : list Z) i j : 0 <= i -> zlen b = j - i -> j <= zlen h -> sub (take (Z.to_nat i) h ++ b ++ drop (Z.to_nat j) h) i j = b.
Proof.
  intros Hi Hb Hj. unfold sub, zlen in *. rewrite drop_app_length' by (rewrite length_take; lia). apply take_app_length'. lia.
Qed.
Lemma zlen_copied (h b : list Z) i j : 0 <= i -> zlen b = j - i -> j <= zlen h -> zlen (take (Z.to_nat i) h ++ b ++ drop (Z.to_nat j) h) = zlen h.
Proof. intros Hi Hb Hj. unfold zlen in *. rewrite !length_app, length_take, length_drop. lia. Qed.

(** *** Encryption and back *)
Section encryption.
Context (lib : crypto) {lib_ok : CryptoOk lib}.

(** What is relied on of a cipher, for messages a length field can count. *)
Record aeadOk (e e' : aead) : Prop := AeadOk {
  nonce_small : 0 <= nonceSize e <= 16 /\ nonceSize e' = nonceSize e;
  seal_opens : forall n p a, zlen n = nonceSize e -> zlen p < 2 ^ 32 ->
    exists s, Seal e n p a = Ok (Some s) /\ length s = (length p + 16)%nat /\ Open e' n s a = Ok (Some p);
}.
Lemma aeadOf_ok key c : length key = 16%nat -> cipherID c = AES_128_CCM \/ cipherID c = AES_128_GCM ->
  exists e, aeadOf lib key c = Some e /\ aeadOk e e.
Proof using lib_ok.
  intros Hk Hc. unfold aeadOf. destruct (aes_keys key Hk) as [E HE]. rewrite HE. pose proof (aes_block key E HE) as Hb.
  destruct Hc as [-> | ->]; simpl; (eexists; split; [done|]); split; simpl; try done; intros n p a Hn Hp.
  - assert (Ccm.validSizes 11 16 = true) as Hv by done. rewrite (Ccm.Seal_is E 11 16 Hb Hv) by done. change (256 ^ Ccm.q 11 - 1) with (2 ^ 32 - 1).
    destruct (Z.ltb_spec (2 ^ 32 - 1) (zlen p)); [lia|]. simpl. eexists. split; [done|]. split.
    + pose proof (Ccm.length_sealed E 11 16 Hb Hv n p a) as Hl. unfold zlen in Hl. lia.
    + pose proof (proj2 (Ccm.Open_sealed E 11 16 Hb Hv [] n (Ccm.sealed E 11 16 n p a) a p Hn)) as Ho. simpl app in Ho.
      rewrite Ho; [done|]. split; [change (256 ^ Ccm.q 11 - 1) with (2 ^ 32 - 1); lia|done].
  - eexists. split; [done|]. split; [apply gcm_length|]. by rewrite gcm_open_seal.
Qed.

Lemma transform_header nonce sid n : zlen nonce <= 16 ->
  exists h, (output ← SetProtocolID PROTOCOL_SMB2_ENCRYPTED (replicate (Z.to_nat SMB2TransformHeaderSize) 0); output ← SetNonce nonce output;
    output ← SetOriginalMessageSize n output; output ← SetEncryptionFlags 1 output; SetTransformSessionID sid output) = Ok h /\
    zlen h = 52 /\ sub h 20 36 = nonce ++ replicate (16 - length nonce) 0.
Proof.
  intros Hn. unfold SetProtocolID. destruct (put_le_Ok (E:=smbErr) (replicate (Z.to_nat SMB2TransformHeaderSize) 0) 0 4 PROTOCOL_SMB2_ENCRYPTED) as [h0 Hh0]; [lia|lia|done|].
  rewrite Hh0. run_bind. assert (zlen h0 = 52) as L0 by (by rewrite (zlen_put_le _ _ _ _ _ Hh0)).
  unfold SetNonce. assert (take 16 nonce ++ replicate (16 - length nonce) 0 = nonce ++ replicate (16 - length nonce) 0) as -> by (rewrite take_ge; [done|unfold zlen in Hn; lia]).
  set (n16 := nonce ++ _). assert (zlen n16 = 36 - 20) as L16 by (subst n16; unfold zlen in *; rewrite length_app, length_replicate; lia).
  rewrite copy_at_is by (done || lia). run_bind. set (h1 := take _ h0 ++ _).
  assert (zlen h1 = 52) as L1 by (subst h1; rewrite zlen_copied; done || lia).
  unfold SetOriginalMessageSize, SetEncryptionFlags, SetTransformSessionID.
  destruct (put_le_Ok (E:=smbErr) h1 36 4 n) as [h2 H2]; [lia..|]. rewrite H2. run_bind. pose proof (zlen_put_le _ _ _ _ _ H2).
  destruct (put_le_Ok (E:=smbErr) h2 42 2 1) as [h3 H3]; [lia..|]. rewrite H3. run_bind. pose proof (zlen_put_le _ _ _ _ _ H3).
  destruct (put_le_Ok (E:=smbErr) h3 44 8 sid) as [h4 H4]; [lia..|]. rewrite H4. pose proof (zlen_put_le _ _ _ _ _ H4).
  exists h4. split; [done|]. split; [lia|].
  rewrite (sub_put_other _ _ _ _ _ 20 36 H4), (sub_put_other _ _ _ _ _ 20 36 H3), (sub_put_other _ _ _ _ _ 20 36 H2) by lia.
  apply sub_copied; lia.
Qed.

Definition nonceFor (c : connection) : Z := if cipherID c =? AES_128_CCM then 11 else 12.
Lemma aeadOf_nonce key c e : aeadOf lib key c = Some e -> nonceSize e = nonceFor c.
Proof.
  unfold aeadOf, nonceFor. destruct (newAES lib key); [|done]. destruct (cipherID c =? AES_128_CCM); simpl; [by intros [= <-]|].
  destruct (cipherID c =? AES_128_GCM); [by intros [= <-]|done].
Qed.
(** The message as it goes out: the header with the tag in its place, and the sealed
    message without it. *)
Definition transformed (h s : list Z) (n : nat) : list Z := take 4 h ++ drop n s ++ drop 20 h ++ take n s.

Lemma encrypt_is ss c nonce buf e s ad h n :
  aeadOf lib (encryptionKey ss) c = Some e -> n = length buf ->
  (output ← SetProtocolID PROTOCOL_SMB2_ENCRYPTED (replicate (Z.to_nat SMB2TransformHeaderSize) 0); output ← SetNonce nonce output;
    output ← SetOriginalMessageSize (u32 (zlen buf)) output; output ← SetEncryptionFlags 1 output; SetTransformSessionID (sessionID ss) output) = Ok h ->
  zlen h = 52 -> AssociatedData h = Ok ad -> Seal e nonce buf ad = Ok (Some s) -> length s = (n + 16)%nat ->
  encrypt lib ss c nonce buf = Ok (Some (transformed h s n)).
Proof.
  intros He Hn Hh Hl Had Hs Hsl. unfold encrypt. rewrite He. cbv zeta.
  repeat (apply bind_Ok in Hh as (? & -> & Hh); run_bind). rewrite Hh. run_bind. rewrite Had. run_bind. rewrite Hs. run_bind. cbv zeta.
  assert (zlen (h ++ s) = 68 + Z.of_nat n) as Hz by (unfold zlen in *; rewrite length_app; lia).
  rewrite slice_Ok by lia. run_bind. assert (sub (h ++ s) (zlen (h ++ s) - 16) (zlen (h ++ s)) = drop n s) as ->.
  { unfold sub. rewrite Hz. replace (Z.to_nat (68 + Z.of_nat n - 16)) with (length h + n)%nat by (unfold zlen in Hl; lia).
    rewrite drop_app_add. apply take_ge. rewrite length_drop. lia. }
  assert (zlen (drop n s) = 20 - 4) as Hd by (unfold zlen; rewrite length_drop; lia).
  unfold SetEncryptionSignature. rewrite copy_at_is by lia. run_bind.
  rewrite slice_Ok by (rewrite ?zlen_copied by lia; lia). run_bind.
  rewrite zlen_copied, Hz by lia. unfold mret, outcome_ret. do 2 f_equal. unfold sub, transformed.
  rewrite Z.sub_0_r. change (Z.to_nat 0) with 0%nat. change (Z.to_nat 4) with 4%nat. change (Z.to_nat 20) with 20%nat. rewrite drop_0.
  unfold zlen in *. rewrite (take_app_le h s 4), (drop_app_le h s 20) by lia.
  replace (Z.to_nat (68 + Z.of_nat n - 16)) with (length (take 4 h) + (length (drop n s) + (length (drop 20 h) + n)))%nat by (rewrite length_take, !length_drop; lia).
  by rewrite !take_app_add.
Qed.
Lemma decrypt_is peer c h s n e nonce p ad :
  aeadOf lib (decryptionKey peer) c = Some e -> 0 <= nonceSize e <= 16 -> zlen nonce = nonceSize e ->
  zlen h = 52 -> length s = (n + 16)%nat -> sub h 20 36 = nonce ++ replicate (16 - length nonce) 0 -> AssociatedData h = Ok ad ->
  Open e nonce s ad = Ok p -> decrypt lib peer c (transformed h s n) = Ok p.
Proof.
  intros He Hns Hn Hl Hs Hsub Had Ho. unfold decrypt, EncryptionSignature, Nonce, AssociatedData in *. change SMB2TransformHeaderSize with 52.
  assert (length (take 4 h ++ drop n s ++ drop 20 h) = 52%nat) as Hpre by (rewrite !length_app, length_take, !length_drop; unfold zlen in Hl; lia).
  set (m := transformed h s n). assert (zlen m = 52 + Z.of_nat n) as Hm.
  { subst m. unfold zlen, transformed in *. rewrite !length_app, length_take, !length_drop, length_take. lia. }
  rewrite !slice_Ok by lia. run_bind. run_bind. rewrite He. run_bind.
  assert (sub m 52 (zlen m) = take n s) as ->.
  { subst m. unfold sub, transformed in *. rewrite !app_assoc in *. rewrite drop_app_length' by done. apply take_ge. rewrite length_take. lia. }
  assert (sub m 4 20 = drop n s) as ->.
  { subst m. unfold sub, transformed. rewrite drop_app_length' by (rewrite length_take; unfold zlen in *; lia). apply take_app_length'. rewrite length_drop. lia. }
  assert (forall j, 20 <= j <= 52 -> sub m 20 j = sub h 20 j) as Hkeep.
  { intros j Hj. subst m. unfold sub, transformed. rewrite app_assoc, drop_app_length' by (rewrite length_app, length_take, length_drop; unfold zlen in *; lia).
    rewrite take_app_le; [done|]. rewrite length_drop. unfold zlen in *. lia. }
  rewrite !Hkeep, Hsub by lia. rewrite slice_Ok by (unfold zlen in *; rewrite ?length_app, ?length_replicate; lia). run_bind.
  rewrite slice_Ok in Had by lia. injection Had as Had. run_bind. rewrite Had, take_drop.
  replace (sub (nonce ++ replicate (16 - length nonce) 0) 0 (nonceSize e)) with nonce; [done|].
  unfold sub. rewrite <- Hn, Z.sub_0_r. unfold zlen. rewrite Nat2Z.id. change (Z.to_nat 0) with 0%nat. by rewrite drop_0, take_app_length.
Qed.
End encryption.

(** C27: An encrypted message comes back: whatever one end encrypts, under either cipher, the end
    that decrypts with the same key and cipher reads exactly that, and the header in front
    of it names the session and the length. *)
Theorem encrypted_messages_open (lib : crypto) (ss peer : session) (c c' : connection) (nonce buf : list Z) :
  CryptoOk lib -> length (encryptionKey ss) = 16%nat -> decryptionKey peer = encryptionKey ss ->
  cipherID c = AES_128_CCM \/ cipherID c = AES_128_GCM -> cipherID c' = cipherID c ->
  zlen nonce = nonceFor c -> zlen buf < 2 ^ 32 ->
  exists msg, encrypt lib ss c nonce buf = Ok (Some msg) /\ zlen msg = 52 + zlen buf /\ decrypt lib peer c' msg = Ok (Some buf).
Proof.
  intros Hok Hk Hd Hc Hc' Hn Hb. destruct (aeadOf_ok lib (encryptionKey ss) c Hk Hc) as (e & He & [[Hns _] Hseal]).
  pose proof (aeadOf_nonce lib _ _ _ He) as Hne. rewrite <- Hne in Hn.
  destruct (transform_header nonce (sessionID ss) (u32 (zlen buf))) as (h & Hh & Hl & Hsub); [lia|].
  assert (exists ad, AssociatedData h = Ok ad) as [ad Had] by (unfold AssociatedData; rewrite slice_Ok by lia; eauto).
  destruct (Hseal nonce buf ad Hn Hb) as (s & Hs & Hsl & Ho).
  exists (transformed h s (length buf)). split; [by eapply encrypt_is|]. split.
  - unfold transformed, zlen in *. rewrite !length_app, length_take, !length_drop, length_take. lia.
  - assert (aeadOf lib (decryptionKey peer) c' = Some e) as He' by (rewrite Hd, <- He; unfold aeadOf; by rewrite Hc').
    by eapply decrypt_is.
Qed.

(** ** Edits of a header leave what follows it alone *)
Section local.
Context (l k : list Z).
Hypothesis l_header : 64 <= zlen l.

Lemma get_app i n : 0 <= i -> 0 <= n -> i + n <= 64 -> @get_le smbErr (l ++ k) i n = get_le l i n.
Proof using l_header. intros. apply get_le_app_l; lia. Qed.
Lemma put_app i n v : 0 <= i -> 0 <= n -> i + n <= 64 ->
  exists l', @put_le smbErr l i n v = Ok l' /\ @put_le smbErr (l ++ k) i n v = Ok (l' ++ k) /\ zlen l' = zlen l.
Proof using l_header.
  intros Hi Hn Hin. destruct (put_le_Ok (E:=smbErr) l i n v) as [l' Hl']; [lia..|]. exists l'. split; [done|].
  split; [|by apply (zlen_put_le _ _ _ _ _ Hl')]. unfold put_le in *. rewrite zlen_app. pose proof (zlen_nonneg k).
  destruct (Z.leb_spec 0 i), (Z.leb_spec 0 n), (Z.leb_spec (i + n) (zlen l)), (Z.leb_spec (i + n) (zlen l + zlen k)); try lia. simpl in *.
  injection Hl' as <-. unfold zlen in *. rewrite take_app_le, drop_app_le by lia. by rewrite <- !app_assoc.
Qed.
Lemma copy_app i j b : 0 <= i -> zlen b = j - i -> j <= 64 ->
  exists l', copy_at l i j b = Ok l' /\ copy_at (l ++ k) i j b = Ok (l' ++ k) /\ zlen l' = zlen l.
Proof using l_header.
  intros Hi Hb Hj. pose proof (zlen_nonneg b). pose proof (zlen_nonneg k). rewrite !copy_at_is by (rewrite ?zlen_app; lia).
  eexists. split; [done|]. split; [|apply zlen_copied; lia]. unfold zlen in *. rewrite take_app_le, drop_app_le by lia. by rewrite <- !app_assoc.
Qed.
Lemma slice_app i j : 0 <= i -> i <= j -> j <= zlen l -> @slice smbErr _ (l ++ k) i j = slice l i j.
Proof using l_header.
  intros. pose proof (zlen_nonneg k). rewrite !slice_Ok by (rewrite ?zlen_app; lia). f_equal. unfold sub, zlen in *.
  rewrite drop_app_le by lia. apply take_app_le. rewrite length_drop. lia.
Qed.
End local.

(** ** Walking a chain *)
Section walk.
Context (edit : Z -> list Z -> out (list Z * bool)) (g : list Z -> list Z).
Hypothesis edit_part : forall part tail next, 64 <= zlen part -> next = 0 /\ tail = [] \/ next = zlen part ->
  edit next (part ++ tail) = Ok (g part ++ tail, false).
Hypothesis g_len : forall part, 64 <= zlen part -> zlen (g part) = zlen part.

Lemma eachHeader_chain fuel m d parts pre :
  chain m d parts -> Forall (fun p => 64 <= zlen p.1) parts -> zlen pre + zlen d < 2 ^ 32 -> (length parts <= fuel)%nat ->
  eachHeader fuel edit (pre ++ d) (zlen pre) = Ok (pre ++ concat (map (fun p => g p.1) parts)).
Proof using edit_part g_len.
  intros Hch. revert pre fuel. induction Hch as [d flag Hv Hn Hf|d n flag parts Hv Hn Hf Hm Hpos Ha Hnl Hch IH]; intros pre fuel Hp Hlt Hfuel.
  - destruct fuel as [|fuel]; [simpl in Hfuel; lia|]. apply Forall_cons in Hp as [Hd _]. simpl in Hd. simpl eachHeader. pose proof (zlen_nonneg pre).
    rewrite slice_Ok by (rewrite ?zlen_app; lia). run_bind.
    assert (sub (pre ++ d) (zlen pre) (zlen (pre ++ d)) = d) as ->.
    { unfold sub, zlen. rewrite Nat2Z.id, drop_app_length. apply take_ge. rewrite length_app. lia. }
    rewrite Hn. run_bind. rewrite <- (app_nil_r d) at 1. rewrite edit_part by (done || by left). run_bind. simpl.
    unfold zlen. rewrite Nat2Z.id, take_app_length, !app_nil_r. done.
  - destruct fuel as [|fuel]; [simpl in Hfuel; lia|]. apply Forall_cons in Hp as [Hd Hp]. simpl in Hd. simpl eachHeader. pose proof (zlen_nonneg pre).
    rewrite slice_Ok by (rewrite ?zlen_app; lia). run_bind.
    assert (sub (pre ++ d) (zlen pre) (zlen (pre ++ d)) = d) as ->.
    { unfold sub, zlen. rewrite Nat2Z.id, drop_app_length. apply take_ge. rewrite length_app. lia. }
    rewrite Hn. run_bind. set (part := take (Z.to_nat n) d) in *. set (tail := drop (Z.to_nat n) d) in *.
    assert (d = part ++ tail) as Ed by (symmetry; apply take_drop).
    assert (zlen part = n) as Hpl by (subst part; unfold zlen in *; rewrite length_take; lia).
    rewrite Ed at 1. rewrite edit_part by (done || by right). run_bind. simpl.
    destruct (Z.eqb_spec n 0); [lia|]. unfold zlen at 1. rewrite Nat2Z.id, take_app_length. unfold u32. rewrite Z.mod_small by lia.
    rewrite app_assoc. replace (zlen pre + n) with (zlen (pre ++ g part)) by (rewrite zlen_app, g_len; lia).
    rewrite IH; [by rewrite <- app_assoc|done| |simpl in Hfuel; lia].
    rewrite Ed, zlen_app in Hlt. rewrite zlen_app, g_len by done. lia.
Qed.
End walk.

(** ** Signing a chain *)
Section signing.
Context (lib : crypto) {lib_ok : CryptoOk lib}.

(** A connection whose dialect is one of the five, and a session with the keys its
    dialect signs with. *)
Definition canSign (ss : session) (c : connection) : Prop :=
  In (negotiateDialect c) [SMB_DIALECT_202; SMB_DIALECT_21; SMB_DIALECT_30; SMB_DIALECT_302; SMB_DIALECT_311] /\
  (Is3X (negotiateDialect c) = true -> length (signingKey ss) = 16%nat) /\
  (forall ch, channelOf ss c = Some ch -> zlen (ch_signingKey ch) = 0 \/ length (ch_signingKey ch) = 16%nat).
Definition keyOf (ss : session) (c : connection) (command status : Z) : list Z :=
  if (negotiateDialect c =? SMB_DIALECT_202) || (negotiateDialect c =? SMB_DIALECT_21) then sessionKey ss
  else signingKeyFor ss c command status.

Lemma cmacOf_total key m : length key = 16%nat -> exists sum, cmacOf lib key m = Ok (Some sum) /\ length sum = 16%nat.
Proof using lib_ok.
  intros Hk. unfold cmacOf. destruct (aes_keys key Hk) as [E HE]. rewrite HE. pose proof (aes_block key E HE) as Hb. pose proof (aes_bytes key E HE) as Hy.
  destruct (Cmac.digest_is E (Er:=smbErr) Hb Hy [m]) as (d & -> & Hd). by eexists.
Qed.
Lemma macOf_any c key mark mid command m :
  In (negotiateDialect c) [SMB_DIALECT_202; SMB_DIALECT_21; SMB_DIALECT_30; SMB_DIALECT_302; SMB_DIALECT_311] ->
  (Is3X (negotiateDialect c) = true -> length key = 16%nat) ->
  exists sum, macOf lib c key mark mid command m = Ok (Some sum) /\ (16 <= length sum)%nat.
Proof using lib_ok.
  intros Hd Hk. unfold macOf. simpl in Hd.
  destruct Hd as [Hd|[Hd|[Hd|[Hd|[Hd|[]]]]]]; rewrite <- Hd in Hk |- *; simpl.
  1, 2: eexists; split; [done|]; rewrite hmac_length; lia.
  all: specialize (Hk eq_refl); destruct (cmacOf_total _ m Hk) as (sum & Hs & Hsl).
  1, 2: rewrite Hs; eexists; split; [done|lia].
  destruct (_ =? AES_CMAC); [rewrite Hs; eexists; split; [done|lia]|]. destruct (_ =? AES_GMAC); [|rewrite Hs; eexists; split; [done|lia]].
  unfold gmac. destruct (aes_keys _ Hk) as [E ->]. simpl. eexists. split; [done|]. rewrite gcm_length. simpl. lia.
Qed.
Lemma macOf_total ss c mark mid command status m : canSign ss c ->
  exists sum, macOf lib c (keyOf ss c command status) mark mid command m = Ok (Some sum) /\ (16 <= length sum)%nat.
Proof using lib_ok.
  intros (Hd & Hk & Hch). apply macOf_any; [done|]. intros H3. unfold keyOf.
  destruct (_ || _) eqn:E2.
  { apply orb_true_iff in E2 as [E2|E2]; apply Z.eqb_eq in E2; rewrite E2 in H3; done. }
  unfold signingKeyFor. rewrite H3. simpl. destruct (_ && _); [auto|]. destruct (channelOf ss c) as [ch|]; [|auto].
  destruct (Z.eqb_spec (zlen (ch_signingKey ch)) 0); [auto|]. by destruct (Hch ch eq_refl).
Qed.

(** What the other end does: the signature is held against the code of the message with
    the signature taken out. *)
Definition verifies (c : connection) (key : list Z) (mark : Z) (d : list Z) : Prop :=
  exists signature wiped command mid sum,
    Signature d = Ok signature /\ WipeSignature d = Ok wiped /\ Command d = Ok command /\ MessageID d = Ok mid /\
    macOf lib c key mark mid command wiped = Ok (Some sum) /\ signature = take 16 sum.

Lemma WipeSignature_is d : 64 <= zlen d -> WipeSignature d = Ok (take 48 d ++ replicate 16 0 ++ drop 64 d).
Proof. intros. unfold WipeSignature, SetSignature. by rewrite copy_at_is. Qed.
Lemma SetSignature_is d sum : 64 <= zlen d -> (16 <= length sum)%nat -> SetSignature sum d = Ok (take 48 d ++ take 16 sum ++ drop 64 d).
Proof.
  intros Hd Hs. unfold SetSignature, copy_at. rewrite slice_Ok by lia. run_bind. cbv zeta.
  replace (Z.min (64 - 48) (zlen sum)) with 16 by (unfold zlen; lia). unfold splice. change (Z.to_nat 16) with 16%nat.
  assert (zlen (take 16 sum) = 16) as -> by (unfold zlen; rewrite length_take; lia).
  destruct (Z.leb_spec (48 + 16) (zlen d)); [done|lia].
Qed.
Lemma get_signed d sg i n : 64 <= zlen d -> length sg = 16%nat -> 0 <= i -> 0 <= n -> i + n <= 48 ->
  @get_le smbErr (take 48 d ++ sg ++ drop 64 d) i n = get_le d i n.
Proof.
  intros Hd Hs Hi Hn Hin. rewrite get_le_app_l by (unfold zlen in *; rewrite ?length_take; lia).
  rewrite <- (take_drop 48 d) at 2. symmetry. apply get_le_app_l; [done|done|unfold zlen in *; rewrite length_take; lia].
Qed.

Lemma resigned (d sg : list Z) : 64 <= zlen d -> length sg = 16%nat ->
  take 48 (take 48 d ++ sg ++ drop 64 d) = take 48 d /\ drop 64 (take 48 d ++ sg ++ drop 64 d) = drop 64 d.
Proof.
  intros Hd Hs. unfold zlen in Hd. split; [by rewrite take_app_length' by (rewrite length_take; lia)|].
  by rewrite app_assoc, drop_app_length' by (rewrite length_app, length_take; lia).
Qed.

(** The part as it is signed: the flag raised, the signature taken out. *)
Lemma signOne_prepares part : 64 <= zlen part -> exists f p1 p2, Flags part = Ok f /\ SetFlags (f .| FLAGS_SIGNED) part = Ok p1 /\
  WipeSignature p1 = Ok p2 /\ zlen p1 = zlen part /\ zlen p2 = zlen part.
Proof.
  intros Hp. unfold Flags. rewrite get_le_Ok by lia. set (f := le_dec _).
  destruct (put_le_Ok (E:=smbErr) part 16 4 (f .| FLAGS_SIGNED)) as [p1 H1]; [lia..|]. pose proof (zlen_put_le _ _ _ _ _ H1) as L1.
  eexists f, p1, _. split; [done|]. split; [done|]. split; [apply WipeSignature_is; lia|]. split; [done|].
  unfold zlen in *. rewrite !length_app, length_take, length_drop, length_replicate. lia.
Qed.

Ltac run_binds := rewrite !bind_ret; cbv beta; repeat (rewrite !bind_ret; cbv beta).
Lemma signOne_local ss c part tail next : 64 <= zlen part -> next = 0 /\ tail = [] \/ next = zlen part ->
  signOne lib ss c next (part ++ tail) = (r ← signOne lib ss c 0 part; mret (r.1 ++ tail, r.2)).
Proof.
  intros Hp Hn. destruct (signOne_prepares part Hp) as (f & p1 & p2 & Hf & H1 & H2 & L1 & L2). unfold signOne.
  unfold Flags in *. rewrite (get_app part tail) by lia. rewrite Hf. run_binds.
  destruct (put_app part tail Hp 16 4 (f .| FLAGS_SIGNED)) as (p1' & H1' & H1'' & _); [lia..|]. unfold SetFlags in *.
  rewrite H1 in H1'. injection H1' as <-. rewrite H1, H1''. run_binds.
  unfold WipeSignature, SetSignature in *. destruct (copy_app p1 tail ltac:(lia) 48 64 (replicate 16 0)) as (p2' & H2' & H2'' & _); [lia|done|lia|].
  rewrite H2 in H2'. injection H2' as <-. rewrite H2, H2''. run_binds.
  unfold Command, Status, MessageID. rewrite !(get_app p2 tail) by lia. rewrite !get_le_Ok by lia. run_binds.
  set (cmd := le_dec (sub p2 12 _)). set (mid := le_dec (sub p2 24 _)). cbv zeta.
  assert ((if next =? 0 then mret (p2 ++ tail) else slice (E:=smbErr) (p2 ++ tail) 0 next) = Ok p2) as ->.
  { destruct Hn as [[-> ->]| ->]; [by rewrite app_nil_r|]. destruct (Z.eqb_spec (zlen part) 0); [lia|].
    rewrite slice_app by lia. rewrite <- L2, slice_Ok by (pose proof (zlen_nonneg p2); lia). by rewrite sub_full. }
  run_binds. simpl (0 =? 0). cbv iota. rewrite bind_mret. cbv beta. destruct (macOf lib c _ 1 mid cmd p2) as [[sum|]| | |]; try done.
  rewrite !bind_ret. unfold SetSignature, copy_at. rewrite slice_app by lia. rewrite slice_Ok by lia. rewrite !bind_ret. cbv zeta.
  unfold splice. rewrite zlen_app. pose proof (zlen_nonneg tail).
  set (b := take _ sum). assert (zlen b <= 16) by (subst b; unfold zlen; rewrite length_take; lia). pose proof (zlen_nonneg b).
  destruct (Z.leb_spec 0 48), (Z.leb_spec (48 + zlen b) (zlen p2)), (Z.leb_spec (48 + zlen b) (zlen p2 + zlen tail)); try lia. simpl.
  unfold zlen in *. rewrite take_app_le, drop_app_le by lia. by rewrite <- !app_assoc.
Qed.

(** All that signing changes: the flags word and the signature. *)
Definition onlySigned (d d' : list Z) : Prop :=
  zlen d' = zlen d /\ sub d' 0 16 = sub d 0 16 /\ sub d' 20 48 = sub d 20 48 /\ drop 64 d' = drop 64 d /\
  exists f, Flags d = Ok f /\ Flags d' = Ok (u32 (f .| FLAGS_SIGNED)).
Lemma sub_before (d sg : list Z) i j : 64 <= zlen d -> 0 <= i -> i <= j -> j <= 48 -> sub (take 48 d ++ sg) i j = sub d i j.
Proof.
  intros Hd Hi Hij Hj. unfold sub, zlen in *. rewrite <- (take_drop 48 d) at 2. rewrite !drop_app_le by (rewrite length_take; lia).
  rewrite !take_app_le; [done|rewrite length_drop, length_take; lia..].
Qed.
Lemma onlySigned_is part f p1 sg sg' : 64 <= zlen part -> Flags part = Ok f -> SetFlags (f .| FLAGS_SIGNED) part = Ok p1 -> zlen p1 = zlen part ->
  length sg = 16%nat -> length sg' = 16%nat -> let p2 := take 48 p1 ++ sg ++ drop 64 p1 in onlySigned part (take 48 p2 ++ sg' ++ drop 64 p2).
Proof.
  intros Hp Hf H1 L1 Hs Hs' p2. subst p2. destruct (resigned p1 sg) as [-> ->]; [lia|done|]. unfold onlySigned. unfold SetFlags in H1.
  split; [unfold zlen in *; rewrite !length_app, Hs', length_take, length_drop; lia|].
  rewrite !sub_before by lia. rewrite (sub_put_other _ _ _ _ _ 0 16 H1), (sub_put_other _ _ _ _ _ 20 48 H1) by lia.
  destruct (resigned p1 sg') as [_ ->]; [lia|done|]. do 2 (split; [done|]). split.
  - apply list_eq. intros i. rewrite !lookup_drop. apply (lookup_put_other _ _ _ _ _ (64 + i)%nat H1). lia.
  - exists f. split; [done|]. unfold Flags. rewrite get_signed by (done || lia). by rewrite (get_put_same _ _ _ _ _ H1).
Qed.

Lemma signOne_signs ss c part : canSign ss c -> 64 <= zlen part ->
  exists p' command status, signOne lib ss c 0 part = Ok (p', false) /\ onlySigned part p' /\
    Command part = Ok command /\ Status part = Ok status /\ verifies c (keyOf ss c command status) 1 p'.
Proof using lib_ok.
  intros Hc Hp. destruct (signOne_prepares part Hp) as (f & p1 & p2 & Hf & H1 & H2 & L1 & L2).
  assert (take 48 p1 ++ replicate 16 0 ++ drop 64 p1 = p2) as H2' by (rewrite WipeSignature_is in H2 by lia; congruence).
  assert (forall i n, 0 <= i -> 0 <= n -> i + n <= 16 \/ 20 <= i /\ i + n <= 48 -> get_le (E:=smbErr) p2 i n = get_le part i n) as Hsame.
  { intros i n Hi Hn Hd. rewrite <- H2', get_signed by (rewrite ?length_replicate; lia). unfold SetFlags in H1. apply (get_put_other _ _ _ _ _ i n H1); lia. }
  assert (exists command status mid, Command part = Ok command /\ Status part = Ok status /\ MessageID part = Ok mid) as (command & status & mid & Hcmd & Hst & Hmid).
  { unfold Command, Status, MessageID. rewrite !get_le_Ok by lia. eauto 10. }
  destruct (macOf_total ss c 1 mid command status p2 Hc) as (sum & Hs & Hsl).
  exists (take 48 p2 ++ take 16 sum ++ drop 64 p2), command, status.
  assert (length (take 16 sum) = 16%nat) as Ht by (rewrite length_take; lia).
  assert (zlen (take 48 p2 ++ take 16 sum ++ drop 64 p2) = zlen part) as L3.
  { unfold zlen in *. rewrite !length_app, Ht, length_take, length_drop. lia. }
  split.
  { unfold signOne. rewrite Hf. run_bind. rewrite H1. run_bind. rewrite H2. run_bind. unfold Command, Status, MessageID in *.
    rewrite !Hsame, Hcmd by lia. run_bind. rewrite Hst. run_bind. rewrite Hmid. run_bind. simpl (0 =? 0). cbv iota. rewrite bind_mret.
    fold (keyOf ss c command status). rewrite Hs. run_bind. rewrite SetSignature_is by (done || lia). done. }
  split.
  { pose proof (onlySigned_is part f p1 (replicate 16 0) (take 16 sum) Hp Hf H1 L1 ltac:(done) Ht) as Ho. cbv zeta in Ho. by rewrite H2' in Ho. }
  split; [done|]. split; [done|]. exists (take 16 sum), p2, command, mid, sum.
  unfold Command, MessageID in *. rewrite !get_signed, !Hsame by lia. split; [|split; [|done]].
  - unfold Signature. rewrite slice_Ok by lia. f_equal. apply (sub_copied p2 (take 16 sum) 48 64); unfold zlen in *; lia.
  - rewrite WipeSignature_is by lia. f_equal. destruct (resigned p2 (take 16 sum)) as [-> ->]; [lia|done|].
    rewrite <- H2'. by destruct (resigned p1 (replicate 16 0)) as [-> ->]; [lia| |].
Qed.

Definition signedPart (ss : session) (c : connection) (part : list Z) : list Z :=
  match signOne lib ss c 0 part with Ok (p, _) => p | _ => part end.
Lemma sign_chain ss c m d parts : canSign ss c -> chain m d parts -> Forall (fun p => 64 <= zlen p.1) parts -> zlen d < 2 ^ 32 ->
  sign lib ss c d = Ok (concat (map (fun p => signedPart ss c p.1) parts)).
Proof using lib_ok.
  intros Hc Hch Hp Hd. unfold sign. apply (eachHeader_chain _ (signedPart ss c)) with (m := m) (pre := []); try done.
  - intros part tail next H64 Hn. rewrite signOne_local by done. unfold signedPart.
    destruct (signOne_signs ss c part Hc H64) as (p' & _ & _ & -> & _). done.
  - intros part H64. unfold signedPart. by destruct (signOne_signs ss c part Hc H64) as (p' & _ & _ & -> & (? & _) & _).
  - apply chain_concat in Hch as <-. clear Hd. induction Hp as [|p parts Hpl _ IH]; simpl; [lia|]. rewrite length_app. unfold zlen in Hpl. lia.
Qed.

(** ** Holding requests to their signatures *)
Lemma verificationKeyFor_ok ss c d : canSign ss c -> 64 <= zlen d ->
  exists key, verificationKeyFor ss c d = Ok key /\ (zlen key <> 0 -> Is3X (negotiateDialect c) = true -> length key = 16%nat).
Proof.
  intros (_ & Hk & Hch) Hd. unfold verificationKeyFor. destruct (Is3X (negotiateDialect c)) eqn:H3; simpl; [|by eexists].
  unfold isSessionBinding, Command. rewrite get_le_Ok by lia. run_bind.
  destruct (negb _); [rewrite bind_mret|].
  - destruct (channelOf ss c) as [ch|]; eexists; (split; [done|]); intros Hz _; [by destruct (Hch ch eq_refl)|done].
  - unfold SessionSetupRequest_Flags.
    assert (exists fl, (if zlen d <? HS + SMB2SessionSetupRequestMinSize then mret 0 else index (E:=smbErr) d (HS + 2)) = Ok fl) as [fl ->].
    { destruct (Z.ltb_spec (zlen d) (HS + SMB2SessionSetupRequestMinSize)) as [|Hl]; [by eexists|]. change (HS + SMB2SessionSetupRequestMinSize) with 88 in Hl.
      destruct (lookup_lt_is_Some_2 d 66) as [x Hx]; [unfold zlen in Hl; lia|]. exists x. by apply index_Ok. }
    run_bind. rewrite bind_mret. destruct (_ >? 0); [by eexists; split; [done|]; auto|].
    destruct (channelOf ss c) as [ch|]; eexists; (split; [done|]); intros Hz _; [by destruct (Hch ch eq_refl)|done].
Qed.
(** What a request must be to go on. *)
Definition admissible (ss : session) (c : connection) (isEncrypted : bool) (d : list Z) : Prop :=
  isEncrypted = true \/
  (IsFlagSet FLAGS_SIGNED d = Ok false /\ (signingRequired ss = true -> exists command, Command d = Ok command /\ isSetupCommand command = true)) \/
  (IsFlagSet FLAGS_SIGNED d = Ok true /\ exists key, verificationKeyFor ss c d = Ok key /\ zlen key <> 0 /\ verifies c key 0 d).
Lemma validateRequest_admits ss c isEncrypted d : canSign ss c -> 64 <= zlen d ->
  exists v d', validateRequest lib ss c isEncrypted d = Ok (v, d') /\ (v = accepted <-> admissible ss c isEncrypted d).
Proof using lib_ok.
  intros Hc Hd. unfold validateRequest, admissible. destruct isEncrypted; [by eexists _, _; split; [done|]; naive_solver|].
  unfold IsFlagSet, Flags, Command. rewrite !get_le_Ok by lia. run_binds. rewrite !bind_mret. set (b := _ >? 0). set (cmd := le_dec (sub d 12 _)).
  destruct b; simpl.
  - destruct (verificationKeyFor_ok ss c d Hc Hd) as (key & Hkey & Hlen). rewrite Hkey. run_bind.
    destruct (Z.eqb_spec (zlen key) 0) as [Hz|Hz]; [eexists _, _; split; [done|]; naive_solver|].
    unfold Signature. rewrite slice_Ok by lia. run_bind. rewrite WipeSignature_is by lia. run_bind. unfold MessageID.
    rewrite (get_signed d (replicate 16 0)) by (done || lia). rewrite get_le_Ok by lia. run_bind. set (w := take 48 d ++ _). set (mid := le_dec _).
    destruct (macOf_any c key 0 mid cmd w) as (sum & Hs & Hsl); [apply Hc|auto|]. rewrite Hs. run_bind.
    rewrite slice_Ok by (unfold zlen; lia). run_bind. change (sub sum 0 16) with (take 16 sum).
    assert (verifies c key 0 d <-> sub d 48 64 = take 16 sum) as Hv.
    { unfold verifies, Signature, Command, MessageID. rewrite !get_le_Ok, slice_Ok, WipeSignature_is by lia. fold cmd mid w. split; [|by intros; eexists _, _, _, _, _].
      intros (sg & w' & cmd' & mid' & sum' & [= <-] & Ew & Ec & Em & Hs' & ->). injection Ec as <-. injection Em as <-.
      assert (w' = w) as -> by congruence. rewrite Hs in Hs'. by injection Hs' as <-. }
    case_bool_decide as Hsum; (eexists _, _; split; [done|]); (split; [intros ?|]).
    + right. right. split; [done|]. exists key. split; [done|]. split; [done|]. by apply Hv.
    + done.
    + done.
    + intros [?|[[? _]|(_ & key' & [= <-] & _ & ?)]]; [done..|]. by destruct Hsum; apply Hv.
  - destruct (signingRequired ss) eqn:Es; simpl; [destruct (isSetupCommand cmd) eqn:Ei; simpl|]; (eexists _, _; split; [done|]).
    + split; [|done]. intros _. right. left. split; [done|]. intros _. by exists cmd.
    + split; [done|]. intros [?|[[_ Hs]|[? _]]]; [done| |done]. destruct (Hs eq_refl) as (? & [= <-] & ?). congruence.
    + split; [|done]. intros _. right. left. by split.
Qed.
End signing.

(** ** What the protocol calls for

    The key a response is signed with ([MS-SMB2] 3.3.4.1.1): before 3.0 the session key;
    from 3.0 on the key of the channel the response goes out over, but for a session setup
    that is not over, which is signed with the key of the session.  A channel without a key
    of its own has that of the session. *)
Inductive signsWith (ss : session) (c : connection) (command status : Z) : list Z -> Prop :=
| signs_old : negotiateDialect c = SMB_DIALECT_202 \/ negotiateDialect c = SMB_DIALECT_21 -> signsWith ss c command status (sessionKey ss)
| signs_setup : In (negotiateDialect c) [SMB_DIALECT_30; SMB_DIALECT_302; SMB_DIALECT_311] -> command = SMB2_SESSION_SETUP -> status <> STATUS_OK ->
    signsWith ss c command status (signingKey ss)
| signs_channel ch : In (negotiateDialect c) [SMB_DIALECT_30; SMB_DIALECT_302; SMB_DIALECT_311] -> command <> SMB2_SESSION_SETUP \/ status = STATUS_OK ->
    channelList ss !! clientName c = Some ch -> ch_connection ch = cid c -> ch_signingKey ch <> [] -> signsWith ss c command status (ch_signingKey ch)
| signs_session : In (negotiateDialect c) [SMB_DIALECT_30; SMB_DIALECT_302; SMB_DIALECT_311] -> command <> SMB2_SESSION_SETUP \/ status = STATUS_OK ->
    (forall ch, channelList ss !! clientName c = Some ch -> ch_connection ch = cid c -> ch_signingKey ch = []) -> signsWith ss c command status (signingKey ss).
(** The code a message is signed with ([MS-SMB2] 3.1.4.1): HMAC-SHA256 before 3.0, the CMAC
    of SP 800-38B in 3.0 and 3.0.2, and in 3.1.1 what was agreed on.  The nonce of GMAC is the
    message ID, a bit that the server is the sender and one for a cancel. *)
Definition cmacCode (lib : crypto) (key m : list Z) : list Z := match newAES lib key with Some E => Cmac.reference E m | None => [] end.
Definition gmacCode (lib : crypto) (key : list Z) (mid command : Z) (m : list Z) : list Z :=
  gcmSeal lib key (le_enc 8 mid ++ [if command =? SMB2_CANCEL then 3 else 1; 0; 0; 0]) [] m.
Inductive signedBy (lib : crypto) (c : connection) (key : list Z) (mid command : Z) (m : list Z) : list Z -> Prop :=
| by_hmac : negotiateDialect c = SMB_DIALECT_202 \/ negotiateDialect c = SMB_DIALECT_21 -> signedBy lib c key mid command m (hmac_sha256 lib key m)
| by_cmac : negotiateDialect c = SMB_DIALECT_30 \/ negotiateDialect c = SMB_DIALECT_302 -> signedBy lib c key mid command m (cmacCode lib key m)
| by_agreed_cmac : negotiateDialect c = SMB_DIALECT_311 -> signingAlgorithmID c = AES_CMAC -> signedBy lib c key mid command m (cmacCode lib key m)
| by_agreed_gmac : negotiateDialect c = SMB_DIALECT_311 -> signingAlgorithmID c = AES_GMAC -> signedBy lib c key mid command m (gmacCode lib key mid command m).
(** The algorithm agreed on is one of the two ciphers: under the third, HMAC-SHA256, the code
    signs with CMAC, see [agreed_hmac_signs_with_cmac]. *)
Definition cipherAgreed (c : connection) : Prop := negotiateDialect c = SMB_DIALECT_311 -> signingAlgorithmID c = AES_CMAC \/ signingAlgorithmID c = AES_GMAC.
Lemma keyOf_signsWith (ss : session) (c : connection) (command status : Z) : canSign ss c -> signsWith ss c command status (keyOf ss c command status).
Proof.
  intros (Hd & _ & _). unfold keyOf. destruct (_ || _) eqn:E2.
  { apply signs_old. apply orb_true_iff in E2 as [E2%Z.eqb_eq|E2%Z.eqb_eq]; auto. }
  apply orb_false_iff in E2 as [N1%Z.eqb_neq N2%Z.eqb_neq].
  assert (In (negotiateDialect c) [SMB_DIALECT_30; SMB_DIALECT_302; SMB_DIALECT_311]) as H3 by (simpl in *; intuition congruence).
  unfold signingKeyFor. replace (Is3X (negotiateDialect c)) with true by (simpl in H3; by destruct H3 as [<-|[<-|[<-|[]]]]). cbn [negb].
  destruct (_ && _) eqn:Es.
  { apply andb_true_iff in Es as [Ec%Z.eqb_eq Es%negb_true_iff%Z.eqb_neq]. by apply signs_setup. }
  assert (command <> SMB2_SESSION_SETUP \/ status = STATUS_OK) as Hs.
  { apply andb_false_iff in Es as [Ec%Z.eqb_neq|Es%negb_false_iff%Z.eqb_eq]; auto. }
  unfold channelOf. destruct (channelList ss !! clientName c) as [ch|] eqn:Ech; [|apply signs_session; [done..|]; intros ch; by rewrite Ech].
  case_bool_decide as Ei; [|apply signs_session; [done..|]; intros ch'; rewrite Ech; by intros [= <-]].
  destruct (Z.eqb_spec (zlen (ch_signingKey ch)) 0) as [Hz|Hz].
  - apply signs_session; [done..|]. intros ch'. rewrite Ech. intros [= <-] _. by apply length_zero_iff_nil, Nat2Z.inj.
  - eapply signs_channel; try done. intros E. by rewrite E in Hz.
Qed.
Lemma cmacOf_code (lib : crypto) (key m sum : list Z) : CryptoOk lib -> cmacOf lib key m = Ok (Some sum) -> sum = cmacCode lib key m.
Proof.
  intros Hok. unfold cmacOf, cmacCode. destruct (newAES lib key) as [E|] eqn:HE; [|done]. rewrite Cmac.digestOf_is by (by eapply aes_block || by eapply aes_bytes). cbn. rewrite app_nil_r. by intros [= <-].
Qed.
Lemma macOf_signedBy (lib : crypto) (c : connection) (key : list Z) (mid command : Z) (m sum : list Z) : CryptoOk lib -> cipherAgreed c ->
  macOf lib c key 1 mid command m = Ok (Some sum) -> signedBy lib c key mid command m sum.
Proof.
  intros Hok Ha. unfold macOf. destruct ((_ =? SMB_DIALECT_202) || _) eqn:E.
  { intros [= <-]. apply by_hmac. apply orb_true_iff in E as [E%Z.eqb_eq|E%Z.eqb_eq]; auto. }
  destruct ((_ =? SMB_DIALECT_30) || _) eqn:E'.
  { intros ->%cmacOf_code; [|done]. apply by_cmac. apply orb_true_iff in E' as [E'%Z.eqb_eq|E'%Z.eqb_eq]; auto. }
  destruct (Z.eqb_spec (negotiateDialect c) SMB_DIALECT_311) as [E3|]; [|done]. destruct (Z.eqb_spec (signingAlgorithmID c) AES_CMAC) as [Ec|Nc].
  { intros ->%cmacOf_code; [|done]. by apply by_agreed_cmac. }
  destruct (Ha E3) as [?|Eg]; [done|]. rewrite Eg, Z.eqb_refl. unfold gmac. destruct (newAES lib key); [|done]. destruct (negb _); [done|]. intros [= <-].
  pose proof (by_agreed_gmac lib c key mid command m E3 Eg) as Hg. unfold gmacCode in Hg. destruct (command =? SMB2_CANCEL); exact Hg.
Qed.
Lemma onlySigned_command (d d' : list Z) : onlySigned d d' -> 64 <= zlen d -> Command d' = Command d.
Proof.
  intros (Hl & H & _) Hd. unfold Command. rewrite !get_le_Ok by lia. do 2 f_equal.
  assert (forall l : list Z, sub l 12 (12 + 2) = take 2 (drop 12 (sub l 0 16))) as E; [|by rewrite (E d), (E d'), H].
  intros l. unfold sub. change (Z.to_nat (16 - 0)) with 16%nat. change (Z.to_nat 0) with 0%nat. by rewrite drop_0, skipn_firstn_comm, take_take.
Qed.
(** A response as it is to go out: signed with the code of the whole of it, the signature at
    nought, under the key that is called for. *)
Definition properlySigned (lib : crypto) (ss : session) (c : connection) (d s : list Z) : Prop :=
  exists command status mid key wiped code, Command d = Ok command /\ Status d = Ok status /\ MessageID s = Ok mid /\ WipeSignature s = Ok wiped /\
    signsWith ss c command status key /\ signedBy lib c key mid command wiped code /\ Signature s = Ok (take 16 code).
(** C25: Every response of a chain goes out signed, and as it was: each part keeps its bytes but for
    the flag and the signature, and the signature is the code the protocol has for the
    dialect, over that part with the signature at nought, under the key the protocol calls
    for.  The dialect is one of the five, the keys were derived, and where 3.1.1 is spoken
    the signing algorithm agreed on is CMAC or GMAC. *)
Theorem signed_responses_verify (lib : crypto) (ss : session) (c : connection) (m : Z) (d : list Z) (parts : list (list Z * bool)) :
  CryptoOk lib -> canSign ss c -> cipherAgreed c -> chain m d parts -> Forall (fun p => 64 <= zlen p.1) parts -> zlen d < 2 ^ 32 ->
  exists signed, sign lib ss c d = Ok (concat signed) /\ Forall2 (fun p s => onlySigned p.1 s /\ properlySigned lib ss c p.1 s) parts signed.
Proof.
  intros Hok Hc Ha Hch Hp Hd. eexists. split; [by eapply sign_chain|]. clear Hch Hd. induction Hp as [|p parts Hp _ IH]; [done|]. simpl. constructor; [|done].
  unfold signedPart. destruct (signOne_signs lib ss c p.1 Hc Hp) as (p' & command & status & -> & Ho & H1 & H2 & sg & wiped & command' & mid & sum & V1 & V2 & V3 & V4 & V5 & ->).
  split; [done|]. assert (command' = command) as -> by (rewrite (onlySigned_command _ _ Ho Hp) in V3; congruence). exists command, status, mid, (keyOf ss c command status), wiped, sum.
  split_and!; try done; [by apply keyOf_signsWith|by apply macOf_signedBy].
Qed.

(** C26: A request is held to its signature and to nothing less: on a connection that can sign, a
    request of any content is decided, and it goes on exactly if it came encrypted, or
    unsigned where that is allowed, or with the very signature its key gives. *)
Theorem requests_accepted_iff_admissible (lib : crypto) (ss : session) (c : connection) (isEncrypted : bool) (d : list Z) :
  CryptoOk lib -> canSign ss c -> 64 <= zlen d ->
  exists v d', validateRequest lib ss c isEncrypted d = Ok (v, d') /\ (v = accepted <-> admissible lib ss c isEncrypted d).
Proof. intros Hok. by apply validateRequest_admits. Qed.

(** A session whose keys were derived can sign: the keys are sixteen bytes long. *)
Lemma length_Kdf lib ki label context : CryptoOk lib -> length (Kdf lib ki label context) = 16%nat.
Proof. intros Hok. unfold Kdf. rewrite length_take, hmac_length. lia. Qed.
Lemma deriveKeys_canSign lib ss c : CryptoOk lib ->
  In (negotiateDialect c) [SMB_DIALECT_202; SMB_DIALECT_21; SMB_DIALECT_30; SMB_DIALECT_302; SMB_DIALECT_311] ->
  (forall ch, channelOf ss c = Some ch -> zlen (ch_signingKey ch) = 0 \/ length (ch_signingKey ch) = 16%nat) ->
  canSign (deriveKeys lib (negotiateDialect c) ss) c.
Proof.
  intros Hok Hd Hch. split; [done|]. unfold deriveKeys. simpl in Hd.
  destruct Hd as [Hd|[Hd|[Hd|[Hd|[Hd|[]]]]]]; rewrite <- Hd; simpl; (split; [intros; try done; apply length_Kdf, Hok|exact Hch]).
Qed.

(** Under 3.1.1 HMAC-SHA256 can be agreed on, which is its number nought, but what signs is CMAC. *)
Theorem agreed_hmac_signs_with_cmac (lib : crypto) (c : connection) (key m : list Z) (mark mid command : Z) :
  negotiateDialect c = SMB_DIALECT_311 -> signingAlgorithmID c = HMAC_SHA256 -> macOf lib c key mark mid command m = cmacOf lib key m.
Proof. intros Hd Hs. unfold macOf. by rewrite Hd, Hs. Qed.

(** ** A library the statements can be tried on *)
Definition toyLib : crypto :=
  Crypto (fun k m => take 32 (Cmac.reference Cmac.toy (k ++ m) ++ zeros 32)) id (fun _ => Some Cmac.toy)
    (fun k n p a => p ++ Cmac.toy (k ++ n ++ a)) (fun k n s a => Some (take (length s - 16) s)).
Lemma toyLib_ok : CryptoOk toyLib.
Proof.
  split; simpl.
  - intros. unfold zeros. rewrite length_take, length_app, length_replicate. lia.
  - done.
  - intros _ E [= <-]. apply Cmac.toy_block.
  - intros _ E [= <-]. apply Cmac.toy_bytes.
  - intros. by rewrite length_app, Cmac.toy_block.
  - intros. rewrite length_app, Cmac.toy_block. f_equal. apply take_app_length'. lia.
Qed.
Definition toyConn (dialect cipher : Z) : connection := Connection 1 "a" dialect AES_GMAC cipher (zeros 16) 1 [] ∅.
Definition toySession : session :=
  MkSession 7 sessionValid false false (replicate 16 3) true "u" true (replicate 16 4) (replicate 16 5) (replicate 16 5) [] {["a" := Channel (replicate 16 6) 1]}.
Lemma toySession_canSign dialect cipher :
  In dialect [SMB_DIALECT_202; SMB_DIALECT_21; SMB_DIALECT_30; SMB_DIALECT_302; SMB_DIALECT_311] -> canSign toySession (toyConn dialect cipher).
Proof. intros Hd. split; [done|]. split; [done|]. intros ch [= <-]. by right. Qed.

Lemma encrypted_messages_open_witness :
  exists msg, encrypt toyLib toySession (toyConn SMB_DIALECT_311 AES_128_CCM) (replicate 11 1) [1; 2; 3] = Ok (Some msg) /\ zlen msg = 52 + zlen [1; 2; 3] /\
    decrypt toyLib toySession (toyConn SMB_DIALECT_311 AES_128_CCM) msg = Ok (Some [1; 2; 3]).
Proof. apply encrypted_messages_open; [exact toyLib_ok|reflexivity|reflexivity|left; reflexivity|reflexivity|reflexivity|reflexivity]. Defined.

(** An echo and another behind it. *)
Definition echo (next flags : Z) : list Z :=
  le_enc 4 PROTOCOL_SMB2 ++ le_enc 2 64 ++ zeros 6 ++ le_enc 2 SMB2_ECHO ++ zeros 2 ++ le_enc 4 flags ++ le_enc 4 next ++ zeros 40 ++ [4; 0; 0; 0].
Definition echoes : list Z := echo 72 0 ++ zeros 4 ++ echo 0 FLAGS_RELATED_OPERATIONS.
Lemma echoes_chain : chain 64 echoes [(echo 72 0 ++ zeros 4, false); (echo 0 FLAGS_RELATED_OPERATIONS, true)].
Proof. apply (chain_next 64 echoes 72 false); [done..|]. apply (chain_last 64 (drop (Z.to_nat 72) echoes) true); done. Qed.
Lemma signed_responses_verify_witness :
  let c := toyConn SMB_DIALECT_311 AES_128_GCM in
  exists signed, sign toyLib toySession c echoes = Ok (concat signed) /\
    Forall2 (fun p s => onlySigned p.1 s /\ properlySigned toyLib toySession c p.1 s)
      [(echo 72 0 ++ zeros 4, false); (echo 0 FLAGS_RELATED_OPERATIONS, true)] signed.
Proof.
  apply (signed_responses_verify toyLib toySession (toyConn SMB_DIALECT_311 AES_128_GCM) 64).
  - exact toyLib_ok.
  - apply toySession_canSign. simpl. tauto.
  - right. reflexivity.
  - exact echoes_chain.
  - repeat constructor; vm_compute; discriminate.
  - reflexivity.
Defined.
Lemma requests_accepted_iff_admissible_witness :
  exists v d', validateRequest toyLib toySession (toyConn SMB_DIALECT_302 AES_128_CCM) false (echo 0 FLAGS_SIGNED) = Ok (v, d') /\
    (v = accepted <-> admissible toyLib toySession (toyConn SMB_DIALECT_302 AES_128_CCM) false (echo 0 FLAGS_SIGNED)).
Proof. apply requests_accepted_iff_admissible; [exact toyLib_ok|apply toySession_canSign; simpl; tauto|discriminate]. Defined.
(** The same, refused: its signature is nought. *)
Example forged_echo_refused : (v ← validateRequest toyLib toySession (toyConn SMB_DIALECT_302 AES_128_CCM) false (echo 0 FLAGS_SIGNED); mret v.1) = Ok errInvalidSignature.
Proof. vm_compute. reflexivity. Qed.
End Session.
