(* ===== verification/Lz77.v ===== *)
(** [compress/lz77/lz77.go]: the plain LZ77 codec of [MS-XCA].

    Every slice access of the source goes through [index], [store], [slice] or
    [put_le], which panic out of range, so that "returns [Ok]" says that no
    access of the encoder or the decoder is out of range.  The state the Go
    closures share is a record passed along.  Fuel: the encoder's loop advances
    by at least one input byte a turn and is given one turn more than there are
    bytes; the decoder's consumes at least one input byte a turn; both are shown
    never to run out. *)
From S2P Require Import Prelude Bytes BackRef.

Inductive lzErr := ErrInvalidFormat | ErrUnexpectedEOF | ErrInvalidOffset.
#[export] Instance lzErr_eq_dec : EqDecision lzErr.
Proof. solve_decision. Defined.

Module Lz77.

Definition windowSize : Z := 8192.
Definition minMatch : Z := 3.
Definition hashBits : Z := 15.
Definition hashSize : Z := 2 ^ 15.
Definition maxChain : nat := 32.

(** ** The encoder *)

Record enc := Enc {
  e_head : list Z; e_next : list Z;        (* the hash chains *)
  e_dst : list Z;
  e_flagPos : Z; e_flags : Z; e_flagCount : Z;
  e_pending : Z;                           (* pendingNibblePos *)
  e_i : Z;
}.

Abbreviation out := (outcome lzErr).

Definition hash3 (src : list Z) (i : Z) : out Z :=
  a ← index src i; b ← index src (i + 1); c ← index src (i + 2);
  let h := (a << 16) .^ (b << 8) .^ c in
  let h := h .^ (h >> 7) in
  let h := u32 (h * 0x9e3779b1) in
  mret ((h >> (32 - hashBits)) .& (hashSize - 1)).

Definition update (src : list Z) (i : Z) (e : enc) : out enc :=
  if i + 2 >=? zlen src then mret e
  else
    h ← hash3 src i;
    nx ← index (e_head e) h;
    next ← store (e_next e) i nx;
    hd ← store (e_head e) h i;
    mret (Enc hd next (e_dst e) (e_flagPos e) (e_flags e) (e_flagCount e) (e_pending e) (e_i e)).

Definition flushFlags (final : bool) (e : enc) : out enc :=
  if (e_flagCount e =? 0) && negb final then mret e
  else
    let flags :=
      if final && (0 <? e_flagCount e) then
        let shift := 32 - e_flagCount e in
        u32 (e_flags e << shift) .| (u32 (1 << shift) - 1)
      else e_flags e in
    dst ← put_le (e_dst e) (e_flagPos e) 4 flags;
    mret (if final
          then Enc (e_head e) (e_next e) dst (e_flagPos e) 0 0 (e_pending e) (e_i e)
          else Enc (e_head e) (e_next e) (dst ++ [0; 0; 0; 0]) (zlen dst) 0 0 (e_pending e) (e_i e)).

(** The bytes after the nibble of a long match. *)
Definition longLength (extra length : Z) : list Z :=
  if extra <? 255 then [u8 extra]
  else
    let total := u32 (length - minMatch) in
    0xff :: (if total <? 2 ^ 16 then le_enc 2 (u16 total) else 0 :: 0 :: le_enc 4 total).

Definition writeMatch (offset length : Z) (e : enc) : out enc :=
  let ml := length - minMatch in
  let tokLen := if ml >? 7 then 7 else ml in
  let tok := u16 (((offset - 1) << 3) .| tokLen) in
  let dst := e_dst e ++ [u8 tok; u8 (tok >> 8)] in
  let with_dst dst pending :=
    Enc (e_head e) (e_next e) dst (e_flagPos e) (e_flags e) (e_flagCount e) pending (e_i e) in
  if ml <? 7 then mret (with_dst dst (e_pending e))
  else
    let extra := ml - 7 in
    let nib := if extra >? 15 then 15 else extra in
    r ← (if e_pending e <? 0 then mret (dst ++ [u8 nib], zlen dst)
         else b ← index dst (e_pending e);
              d ← store dst (e_pending e) (b .| u8 (nib << 4));
              mret (d, -1));
    if extra <? 15 then mret (with_dst r.1 r.2)
    else mret (with_dst (r.1 ++ longLength (extra - 15) length) r.2).

Fixpoint extend (fuel : nat) (src : list Z) (c pos l max : Z) : out Z :=
  match fuel with
  | O => Stuck
  | S fuel =>
      if l <? max then
        a ← index src (c + l); b ← index src (pos + l);
        if a =? b then extend fuel src c pos (l + 1) max else mret l
      else mret l
  end.

(** [src[c] != src[pos] || src[c+1] != src[pos+1] || src[c+2] != src[pos+2]],
    left to right and no further than it has to. *)
Fixpoint fastReject (n : nat) (src : list Z) (c pos : Z) : out bool :=
  match n with
  | O => mret false
  | S n =>
      a ← index src c; b ← index src pos;
      if negb (a =? b) then mret true else fastReject n src (c + 1) (pos + 1)
  end.

(** The fuel is what is left of [maxChain]. *)
Fixpoint findBest_loop (depth : nat) (src next : list Z) (pos c bestOff bestLen : Z) : out (Z * Z) :=
  match depth with
  | O => mret (bestOff, bestLen)
  | S depth =>
      if c <? 0 then mret (bestOff, bestLen) else
      let dist := pos - c in
      if dist <=? 0 then mret (bestOff, bestLen) else
      if dist >? windowSize then mret (bestOff, bestLen) else
      rej ← fastReject 3 src c pos;
      if (rej : bool) then
        c' ← index next c;
        findBest_loop depth src next pos c' bestOff bestLen
      else
        let max := zlen src - pos in
        let max := if max >? 2 ^ 16 + minMatch then 2 ^ 16 + minMatch else max in
        l ← extend (length src) src c pos 3 max;
        if l >? bestLen then
          if l >=? 258 then mret (dist, l)
          else c' ← index next c; findBest_loop depth src next pos c' dist l
        else c' ← index next c; findBest_loop depth src next pos c' bestOff bestLen
  end.

Definition findBest (src : list Z) (e : enc) (pos : Z) : out (Z * Z) :=
  if pos + 2 >=? zlen src then mret (0, 0)
  else
    h ← hash3 src pos;
    c ← index (e_head e) h;
    findBest_loop maxChain src (e_next e) pos c 0 0.

Definition with_i (i : Z) (e : enc) : enc :=
  Enc (e_head e) (e_next e) (e_dst e) (e_flagPos e) (e_flags e) (e_flagCount e) (e_pending e) i.
Definition with_flag (bit : Z) (e : enc) : enc :=
  Enc (e_head e) (e_next e) (e_dst e) (e_flagPos e) (u32 (e_flags e << 1) .| bit) (e_flagCount e + 1)
    (e_pending e) (e_i e).
Definition with_lit (b : Z) (e : enc) : enc :=
  Enc (e_head e) (e_next e) (e_dst e ++ [b]) (e_flagPos e) (e_flags e) (e_flagCount e)
    (e_pending e) (e_i e).

(** [for k := 0; k < bestLen; k++ { update(i); i++; if i >= len(src) { break } }]. *)
Fixpoint consume (k : nat) (src : list Z) (e : enc) : out enc :=
  match k with
  | O => mret e
  | S k =>
      e ← update src (e_i e) e;
      let e := with_i (e_i e + 1) e in
      if e_i e >=? zlen src then mret e else consume k src e
  end.

(** One turn of the main loop: make room for a flag, then a match or a literal. *)
Definition compress_item (src : list Z) (e : enc) : out enc :=
  best ← findBest src e (e_i e);
  let '(bestOff, bestLen) := best in
  if bestLen >=? minMatch then
    e ← writeMatch bestOff bestLen (with_flag 1 e);
    consume (Z.to_nat bestLen) src e
  else
    let e := with_flag 0 e in
    b ← index src (e_i e);
    e ← update src (e_i e) (with_lit b e);
    mret (with_i (e_i e + 1) e).

Definition compress_turn (src : list Z) (e : enc) : out enc :=
  e ← (if e_flagCount e =? 32 then flushFlags false e else mret e);
  compress_item src e.

Fixpoint compress_loop (fuel : nat) (src : list Z) (e : enc) : out (list Z) :=
  match fuel with
  | O => Stuck
  | S fuel =>
      if e_i e <? zlen src then e ← compress_turn src e; compress_loop fuel src e
      else e ← flushFlags true e; mret (e_dst e)
  end.

Definition enc_init (n : nat) : enc :=
  Enc (replicate (Z.to_nat hashSize) (-1)) (replicate n (-1)) [0; 0; 0; 0] 0 0 0 (-1) 0.

Definition Compress (src : list Z) : out (list Z) :=
  if zlen src =? 0 then mret []
  else compress_loop (S (length src)) src (enc_init (length src)).

(** ** The decoder *)

Record dec := Dec {
  d_in : Z; d_flags : Z; d_flagCount : Z;
  d_have : bool;                           (* haveHighNible *)
  d_saved : Z;                             (* savedNibbleByte *)
  d_dst : list Z;
}.

Definition readU8 (src : list Z) (i : Z) : out (Z * Z) :=
  if i >=? zlen src then Err ErrUnexpectedEOF else b ← index src i; mret (b, i + 1).
Definition readU16 (src : list Z) (i : Z) : out (Z * Z) :=
  if i + 2 >? zlen src then Err ErrUnexpectedEOF else v ← get_le src i 2; mret (v, i + 2).
Definition readU32 (src : list Z) (i : Z) : out (Z * Z) :=
  if i + 4 >? zlen src then Err ErrUnexpectedEOF else v ← get_le src i 4; mret (v, i + 4).

(** The length of a match whose token says 7, after its nibble: the length and
    where the input stands. *)
Definition readLength (src : list Z) (nib i : Z) : out (Z * Z) :=
  if nib <? 15 then mret (nib + 7 + minMatch, i)
  else
    r ← readU8 src i;
    let '(b, i) := r in
    if b <? 255 then mret (b + 15 + 7 + minMatch, i)
    else
      r ← readU16 src i;
      let '(v16, i) := r in
      r ← (if negb (v16 =? 0) then mret (v16, i) else readU32 src i);
      let '(m, i) := r in
      if m <? 15 + 7 then Err ErrInvalidFormat else mret (m + minMatch, i).

(** Decode the length of a match: the length, where the input stands, and the
    nibble state. *)
Definition readMatch (src : list Z) (baseLen i : Z) (have : bool) (saved : Z) : out (Z * Z * bool * Z) :=
  if baseLen <? 7 then mret (baseLen + minMatch, i, have, saved)
  else
    r ← (if negb have then
           r ← readU8 src i;
           let '(b, i) := r in mret (b .& 15, i, true, b)
         else mret (saved >> 4, i, false, saved));
    let '(nib, i, have, saved) := r in
    r ← readLength src nib i;
    let '(len, i) := r in mret (len, i, have, saved).

(** One turn of the loop after the flags are in hand: [inl] is the next state,
    [inr] the result. *)
Definition decompress_item (src : list Z) (limit : Z) (d : dec) : out (dec + list Z) :=
  let flagCount := d_flagCount d - 1 in
  let isMatch := negb ((d_flags d >> flagCount) .& 1 =? 0) in
  if negb isMatch then
    r ← readU8 src (d_in d);
    let '(b, i) := r in
    let dst := d_dst d ++ [b] in
    if (0 <? limit) && (zlen dst >? limit) then Err ErrInvalidFormat
    else mret (inl (Dec i (d_flags d) flagCount (d_have d) (d_saved d) dst))
  else if d_in d =? zlen src then mret (inr (d_dst d))
  else
    r ← readU16 src (d_in d);
    let '(tok, i) := r in
    let baseLen := tok .& 7 in
    let offset := (tok >> 3) + 1 in
    if (offset <? 1) || (offset >? windowSize) || (offset >? zlen (d_dst d)) then Err ErrInvalidOffset
    else
      r ← readMatch src baseLen i (d_have d) (d_saved d);
      let '(len, i, have, saved) := r in
      if (0 <? limit) && (zlen (d_dst d) + len >? limit) then Err ErrInvalidFormat
      else
        dst ← copyMatch (Z.to_nat len) (zlen (d_dst d) - offset) (d_dst d);
        mret (inl (Dec i (d_flags d) flagCount have saved dst)).

Definition decompress_turn (src : list Z) (limit : Z) (d : dec) : out (dec + list Z) :=
  if d_flagCount d =? 0 then
    if d_in d >=? zlen src then mret (inr (d_dst d))
    else if d_in d + 4 >? zlen src then Err ErrUnexpectedEOF
    else
      flags ← get_le src (d_in d) 4;
      decompress_item src limit (Dec (d_in d + 4) flags 32 (d_have d) (d_saved d) (d_dst d))
  else decompress_item src limit d.

Fixpoint decompress_loop (fuel : nat) (src : list Z) (limit : Z) (d : dec) : out (list Z) :=
  match fuel with
  | O => Stuck
  | S fuel =>
      r ← decompress_turn src limit d;
      match r with
      | inl d => decompress_loop fuel src limit d
      | inr dst => mret dst
      end
  end.

Definition Decompress (src : list Z) (limit : Z) : out (list Z) :=
  decompress_loop (S (length src)) src limit (Dec 0 0 0 false 0 []).

(** ** The hash chains

    All the correctness of the codec asks of the chains is that they name
    positions inside the input: whatever they propose is compared byte by byte. *)
Section encoder.
Context (src : list Z).

Definition chain_entry (x : Z) : Prop := x = -1 \/ (0 <= x /\ x + 2 < zlen src).
Definition chain_ok (hd next : list Z) : Prop :=
  zlen hd = hashSize /\ zlen next = zlen src /\ Forall chain_entry hd /\ Forall chain_entry next.

Lemma hash3_ok i : 0 <= i -> i + 2 < zlen src ->
  exists h, hash3 src i = Ok h /\ 0 <= h < hashSize.
Proof using.
  intros H1 H2. unfold hash3.
  destruct (@index_in_range _ lzErr src i) as (a & -> & _); [lia|].
  destruct (@index_in_range _ lzErr src (i + 1)) as (b & -> & _); [lia|].
  destruct (@index_in_range _ lzErr src (i + 2)) as (c & -> & _); [lia|].
  eexists. split; [reflexivity|]. change (hashSize - 1) with (Z.ones 15).
  rewrite Z.land_ones by lia. apply Z.mod_pos_bound. reflexivity.
Qed.

(** [e'] differs from [e] in its chains alone. *)
Definition same_output (e e' : enc) : Prop :=
  e_dst e' = e_dst e /\ e_flagPos e' = e_flagPos e /\ e_flags e' = e_flags e /\
  e_flagCount e' = e_flagCount e /\ e_pending e' = e_pending e /\ e_i e' = e_i e.

Lemma update_ok i e : 0 <= i -> chain_ok (e_head e) (e_next e) ->
  exists e', update src i e = Ok e' /\ chain_ok (e_head e') (e_next e') /\ same_output e e'.
Proof using.
  intros Hi (H1 & H2 & H3 & H4). unfold update. rewrite Z.geb_leb.
  destruct (Z.leb_spec (zlen src) (i + 2)); [by exists e|].
  destruct (hash3_ok i) as (h & -> & Hh); [lia..|]. simpl.
  destruct (@index_in_range _ lzErr (e_head e) h) as (nx & -> & Hnx); [lia|]. simpl.
  rewrite (store_ok (e_next e)) by lia. simpl. rewrite (store_ok (e_head e)) by lia. simpl.
  eexists. split; [reflexivity|]. split; [|done]. split_and!; simpl; rewrite ?zlen_insert; [done|done|..].
  - apply Forall_insert; [done|]. right. lia.
  - apply Forall_insert; [done|]. by eapply Forall_lookup_1 in Hnx.
Qed.

(** ** Finding a match *)

Definition match_at (pos off len : Z) : Prop :=
  1 <= off <= windowSize /\ off <= pos /\ minMatch <= len <= 2 ^ 16 + minMatch /\
  pos + len <= zlen src /\ repeats src pos off len.

Lemma extend_ok fuel c pos l max :
  0 <= c < pos -> 0 <= l <= max -> pos + max <= zlen src -> (Z.to_nat (max - l) < fuel)%nat ->
  repeats src pos (pos - c) l ->
  exists l', extend fuel src c pos l max = Ok l' /\ l <= l' <= max /\ repeats src pos (pos - c) l'.
Proof using.
  revert l. induction fuel as [|fuel IH]; intros l Hc Hl Hm Hf Hr; [lia|]. simpl.
  destruct (Z.ltb_spec l max) as [Hlt|Hge]; [|exists l; split_and!; [done|lia|lia|done]].
  destruct (@index_in_range _ lzErr src (c + l)) as (a & -> & Ha); [lia|]. simpl.
  destruct (@index_in_range _ lzErr src (pos + l)) as (b & -> & Hb); [lia|]. simpl.
  destruct (Z.eqb_spec a b) as [->|Hne]; [|exists l; split_and!; [done|lia|lia|done]].
  destruct (IH (l + 1)) as (l' & H1 & H2 & H3); [lia..| |].
  - intros j Hj. destruct (decide (j = l)) as [->|]; [|apply Hr; lia].
    replace (pos - (pos - c) + l) with (c + l) by lia. by rewrite Ha, Hb.
  - exists l'. split_and!; [done|lia|lia|done].
Qed.

Lemma fastReject_ok n c pos :
  0 <= c -> c < pos -> pos + Z.of_nat n <= zlen src ->
  exists rej, fastReject n src c pos = Ok rej /\
    (rej = false -> forall j, 0 <= j < Z.of_nat n ->
       src !! Z.to_nat (c + j) = src !! Z.to_nat (pos + j)).
Proof using.
  revert c pos. induction n as [|n IH]; intros c pos Hc Hp Hl; cbn [fastReject].
  - exists false. split; [done|lia].
  - destruct (@index_in_range _ lzErr src c) as (a & -> & Ha); [lia|]. simpl.
    destruct (@index_in_range _ lzErr src pos) as (b & -> & Hb); [lia|]. simpl.
    destruct (Z.eqb_spec a b) as [->|Hne]; simpl; [|by exists true].
    destruct (IH (c + 1) (pos + 1)) as (rej & -> & H); [lia..|].
    exists rej. split; [done|]. intros Hr j Hj. destruct (decide (j = 0)) as [->|].
    + rewrite !Z.add_0_r. by rewrite Ha, Hb.
    + specialize (H Hr (j - 1) ltac:(lia)).
      replace (c + 1 + (j - 1)) with (c + j) in H by lia.
      by replace (pos + 1 + (j - 1)) with (pos + j) in H by lia.
Qed.

Lemma findBest_loop_ok depth next pos c bestOff bestLen :
  0 <= pos -> pos + 2 < zlen src -> zlen next = zlen src -> Forall chain_entry next -> chain_entry c ->
  (bestLen < minMatch \/ match_at pos bestOff bestLen) ->
  exists off len, findBest_loop depth src next pos c bestOff bestLen = Ok (off, len) /\
    (len < minMatch \/ match_at pos off len).
Proof using.
  intros Hp0 Hp Hn Hf. revert c bestOff bestLen.
  induction depth as [|depth IH]; intros c bo bl Hc Hb; cbn [findBest_loop]; [eauto|].
  destruct (Z.ltb_spec c 0); [eauto|]. destruct Hc as [->|[Hc0 Hc2]]; [lia|].
  destruct (Z.leb_spec (pos - c) 0); [eauto|].
  rewrite Z.gtb_ltb. destruct (Z.ltb_spec windowSize (pos - c)); [eauto|].
  assert (exists c', @index lzErr Z next c = Ok c' /\ chain_entry c') as (c' & Hc' & Hce).
  { destruct (@index_in_range _ lzErr next c) as (c' & Hx1 & Hx2); [lia|]. exists c'. split; [done|].
    by eapply Forall_lookup_1 in Hx2. }
  destruct (fastReject_ok 3 c pos) as (rej & -> & Hrej); [lia..|]. simpl.
  destruct rej; [rewrite Hc'; simpl; by apply IH|]. specialize (Hrej eq_refl).
  set (max := if zlen src - pos >? 2 ^ 16 + minMatch then 2 ^ 16 + minMatch else zlen src - pos).
  assert (3 <= max <= 2 ^ 16 + minMatch /\ pos + max <= zlen src) as (Hm1 & Hm2).
  { unfold max, minMatch. rewrite Z.gtb_ltb. destruct (Z.ltb_spec (2 ^ 16 + 3) (zlen src - pos)); lia. }
  destruct (extend_ok (length src) c pos 3 max) as (l & -> & Hl & Hr); [lia..| | |].
  { unfold zlen in *. lia. }
  { intros j Hj. replace (pos - (pos - c) + j) with (c + j) by lia. apply Hrej. lia. }
  assert (match_at pos (pos - c) l) as Hma.
  { unfold match_at, minMatch in *. split_and!; [lia..|done]. }
  simpl. rewrite Hc'. rewrite Z.gtb_ltb. destruct (Z.ltb_spec bl l).
  - destruct (l >=? 258); [eauto|]. simpl. apply IH; [done|by right].
  - simpl. by apply IH.
Qed.

#[local] Arguments findBest_loop : simpl never.

Lemma findBest_ok e pos :
  0 <= pos -> chain_ok (e_head e) (e_next e) ->
  exists off len, findBest src e pos = Ok (off, len) /\ (len < minMatch \/ match_at pos off len).
Proof using.
  intros Hp (H1 & H2 & H3 & H4). unfold findBest. rewrite Z.geb_leb.
  destruct (Z.leb_spec (zlen src) (pos + 2)); [exists 0, 0; split; [done|by left]|].
  destruct (hash3_ok pos) as (h & -> & Hh); [lia..|]. simpl.
  destruct (@index_in_range _ lzErr (e_head e) h) as (c & -> & Hc); [lia|]. simpl.
  apply findBest_loop_ok; try done.
  - by eapply Forall_lookup_1 in Hc.
  - by left.
Qed.

Lemma consume_ok k e :
  0 <= e_i e -> e_i e + Z.of_nat k <= zlen src -> chain_ok (e_head e) (e_next e) ->
  exists e', consume k src e = Ok e' /\ chain_ok (e_head e') (e_next e') /\
    same_output (with_i (e_i e + Z.of_nat k) e) e'.
Proof using.
  revert e. induction k as [|k IH]; intros e Hi Hk Hc; simpl.
  - exists e. split_and!; [done|done|]. rewrite Z.add_0_r. by destruct e.
  - destruct (update_ok (e_i e) e) as (e1 & -> & Hc1 & H1 & H2 & H3 & H4 & H5 & H6); [lia|done|]. simpl.
    rewrite H6, Z.geb_leb. destruct (Z.leb_spec (zlen src) (e_i e + 1)).
    + eexists. split; [reflexivity|]. split; [done|]. unfold same_output. simpl.
      split_and!; [done..|]. lia.
    + destruct (IH (with_i (e_i e + 1) e1)) as (e' & -> & Hc' & G1 & G2 & G3 & G4 & G5 & G6); [simpl; lia..|done|].
      simpl in *. eexists. split; [reflexivity|]. split; [done|]. unfold same_output. simpl. split_and!; [congruence..|lia].
Qed.
End encoder.

(** ** What the encoder has written so far

    The encoder writes two things late: the flag word of the group it is in, and
    the high half of the last nibble byte.  [written e F] says that the buffer
    [F] is one that the encoder in state [e] can still come to: it agrees with
    what has been written, in the flag word as far as the flags have been
    decided, and in a half-filled nibble byte in its low half. *)
Definition flagWord (F : list Z) (p : Z) : Z := le_dec (sub F p (p + 4)).

Definition settled_at (e : enc) (p : Z) : Prop :=
  0 <= p < zlen (e_dst e) /\ ~ (e_flagPos e <= p < e_flagPos e + 4) /\ p <> e_pending e.

Record written (e : enc) (F : list Z) : Prop := Written {
  wr_len : zlen (e_dst e) <= zlen F;
  wr_same : forall p, settled_at e p -> F !! Z.to_nat p = e_dst e !! Z.to_nat p;
  wr_nibble : 0 <= e_pending e -> exists b nib, F !! Z.to_nat (e_pending e) = Some b /\
    e_dst e !! Z.to_nat (e_pending e) = Some nib /\ Z.land b 15 = nib;
  wr_flags : Z.shiftr (flagWord F (e_flagPos e)) (32 - e_flagCount e) = e_flags e;
}.

Record enc_ok (e : enc) : Prop := EncOk {
  eo_flagPos : 0 <= e_flagPos e /\ e_flagPos e + 4 <= zlen (e_dst e);
  eo_count : 0 <= e_flagCount e <= 32;
  eo_flags : 0 <= e_flags e < 2 ^ e_flagCount e;
  eo_pending : e_pending e = -1 \/
    (0 <= e_pending e < zlen (e_dst e) /\ ~ (e_flagPos e <= e_pending e < e_flagPos e + 4) /\
     exists nib, e_dst e !! Z.to_nat (e_pending e) = Some nib /\ 0 <= nib < 16);
}.

(** A stretch of settled bytes. *)
Lemma written_sub e F p q :
  written e F -> 0 <= p -> p <= q -> (forall i, p <= i < q -> settled_at e i) -> sub F p q = sub (e_dst e) p q.
Proof.
  intros Hw Hp Hq Hs. apply list_eq. intros n. destruct (decide (n < Z.to_nat (q - p))%nat) as [Hn|Hn].
  - rewrite !lookup_sub by lia. replace (Z.to_nat p + n)%nat with (Z.to_nat (p + Z.of_nat n)) by lia.
    apply wr_same; [done|]. apply Hs. lia.
  - rewrite !lookup_ge_None_2; [done| |]; unfold sub; rewrite length_take; lia.
Qed.

Lemma land_1 v : Z.land v 1 = v mod 2.
Proof. apply (Z.land_ones v 1). lia. Qed.

(** The bit the encoder shifted in last. *)
Lemma shiftr_push W n f b :
  0 <= n -> 0 <= b <= 1 -> Z.shiftr W n = 2 * f + b ->
  Z.shiftr W (n + 1) = f /\ Z.land (Z.shiftr W n) 1 = b.
Proof.
  intros Hn Hb H. split.
  - rewrite <- Z.shiftr_shiftr by lia. rewrite H, Z.shiftr_div_pow2 by lia. change (2 ^ 1) with 2.
    symmetry. apply (Z.div_unique _ 2 f b); lia.
  - rewrite H, land_1.
    rewrite Z.add_comm, Z.mul_comm, Z.mod_add by lia. apply Z.mod_small. lia.
Qed.

Lemma push_flag e bit : 0 <= e_flags e < 2 ^ e_flagCount e -> 0 <= e_flagCount e < 32 -> 0 <= bit <= 1 ->
  Z.lor (u32 (Z.shiftl (e_flags e) 1)) bit = 2 * e_flags e + bit.
Proof.
  intros Hf Hc Hb. unfold u32. rewrite Z.shiftl_mul_pow2 by lia. change (2 ^ 1) with 2.
  assert (2 ^ e_flagCount e <= 2 ^ 31) by (apply Z.pow_le_mono_r; lia).
  rewrite Z.mod_small by (change (2 ^ 32) with (2 * 2 ^ 31); lia).
  rewrite Z.lor_comm. replace (e_flags e * 2) with (Z.shiftl (e_flags e) 1) by (by rewrite Z.shiftl_mul_pow2).
  rewrite lor_shiftl_add by lia. change (2 ^ 1) with 2. lia.
Qed.

Lemma flag_ok e bit : enc_ok e -> e_flagCount e < 32 -> 0 <= bit <= 1 ->
  enc_ok (with_flag bit e) /\ e_flags (with_flag bit e) = 2 * e_flags e + bit.
Proof.
  intros [H1 H2 H3 H4] Hc Hb. assert (e_flags (with_flag bit e) = 2 * e_flags e + bit) as Hf by (apply push_flag; lia).
  split; [|done]. constructor; [done|simpl; lia| |done]. rewrite Hf. simpl. rewrite Z.pow_add_r by lia. lia.
Qed.

(** ** The decoder in step *)

(** The decoder has read exactly what the encoder had written, and holds the flag
    word of the group, with as many flags left as the encoder has to fill. *)
Record in_step (e : enc) (F : list Z) (d : dec) : Prop := InStep {
  is_in : d_in d = zlen (e_dst e);
  is_count : d_flagCount d = 32 - e_flagCount e;
  is_flags : d_flags d = flagWord F (e_flagPos e);
  is_nibble : if d_have d then 0 <= e_pending e /\ F !! Z.to_nat (e_pending e) = Some (d_saved d)
              else e_pending e < 0;
}.

Lemma written_flag e F bit : enc_ok e -> e_flagCount e < 32 -> 0 <= bit <= 1 ->
  Z.shiftr (flagWord F (e_flagPos e)) (32 - (e_flagCount e + 1)) = e_flags (with_flag bit e) ->
  Z.shiftr (flagWord F (e_flagPos e)) (32 - e_flagCount e) = e_flags e /\
  Z.land (Z.shiftr (flagWord F (e_flagPos e)) (32 - e_flagCount e - 1)) 1 = bit.
Proof.
  intros Hok Hc Hb H. destruct (flag_ok e bit Hok Hc Hb) as [_ Hf]. rewrite Hf in H.
  replace (32 - (e_flagCount e + 1)) with (32 - e_flagCount e - 1) in H by lia.
  pose proof (eo_count _ Hok). apply shiftr_push in H as [H1 H2]; [|lia..]. split; [|done].
  rewrite <- H1. f_equal. lia.
Qed.

(** *** A literal *)
Lemma literal_step e F b limit :
  enc_ok e -> e_flagCount e < 32 ->
  written (with_lit b (with_flag 0 e)) F ->
  written e F /\
  forall d, in_step e F d -> (limit = 0 \/ zlen (d_dst d) < limit) ->
    exists d', decompress_item F limit d = Ok (inl d') /\
      in_step (with_lit b (with_flag 0 e)) F d' /\ d_dst d' = d_dst d ++ [b].
Proof.
  intros Hok Hc [W1 W2 W3 W4]. simpl in *. destruct (written_flag e F 0 Hok Hc ltac:(lia) W4) as [Hf Hbit].
  pose proof Hok as [[E1 E2] E3 E4 E5]. rewrite zlen_app in W1. change (zlen [b]) with 1 in W1.
  assert (F !! Z.to_nat (zlen (e_dst e)) = Some b) as Hb.
  { rewrite W2.
    - simpl. unfold zlen. rewrite Nat2Z.id, lookup_app_r, Nat.sub_diag by lia. done.
    - unfold settled_at. simpl. rewrite zlen_app. change (zlen [b]) with 1. pose proof (zlen_nonneg (e_dst e)).
      split_and!; [lia..|]. destruct E5 as [->|[? _]]; lia. }
  split.
  - constructor; [lia| | |done].
    + intros p (H1 & H2 & H3). rewrite W2.
      * simpl. unfold zlen in H1. by rewrite lookup_app_l by lia.
      * unfold settled_at. simpl. rewrite zlen_app. change (zlen [b]) with 1. split_and!; [lia|lia|done|done].
    + intros Hp. destruct (W3 Hp) as (x & y & G1 & G2 & G3). exists x, y. split_and!; [done| |done].
      destruct E5 as [?|(H5 & _)]; [lia|]. unfold zlen in H5. by rewrite lookup_app_l in G2 by lia.
  - intros d [D1 D2 D3 D4] Hlim. unfold decompress_item. rewrite D2, D3, Hbit. simpl.
    unfold readU8. rewrite D1, Z.geb_leb. destruct (Z.leb_spec (zlen F) (zlen (e_dst e))); [lia|].
    assert (@index lzErr Z F (zlen (e_dst e)) = Ok b) as -> by (apply index_Ok; split; [apply zlen_nonneg|done]).
    simpl. rewrite zlen_app. change (zlen [b]) with 1.
    assert ((0 <? limit) && (zlen (d_dst d) + 1 >? limit) = false) as ->.
    { destruct Hlim as [->|Hl]; [done|]. rewrite Z.gtb_ltb. apply andb_false_iff. right. apply Z.ltb_ge. lia. }
    eexists. split; [reflexivity|]. split; [|done]. constructor; simpl; [rewrite zlen_app; done|lia|done|done].
Qed.

(** *** The flag word *)
Lemma flush_step e :
  enc_ok e -> e_flagCount e = 32 ->
  exists e', flushFlags false e = Ok e' /\ enc_ok e' /\ e_flagCount e' = 0 /\
    e_head e' = e_head e /\ e_next e' = e_next e /\ e_i e' = e_i e /\ zlen (e_dst e) < zlen (e_dst e') /\
    forall F limit, written e' F ->
      written e F /\
      forall d, in_step e F d -> exists d1,
        decompress_turn F limit d = decompress_item F limit d1 /\ in_step e' F d1 /\ d_dst d1 = d_dst d.
Proof.
  intros Hok Hc. pose proof Hok as [[E1 E2] E3 E4 E5].
  unfold flushFlags. rewrite Hc. simpl.
  destruct (@put_le_Ok lzErr (e_dst e) (e_flagPos e) 4 (e_flags e)) as [dst Hput]; [lia..|].
  rewrite Hput. simpl. pose proof (zlen_put_le _ _ _ _ _ Hput) as Hlen.
  pose proof (zlen_nonneg (e_dst e)) as Hnn.
  eexists. split; [reflexivity|]. split_and!; [|done..|simpl; rewrite zlen_app; change (zlen [0; 0; 0; 0]) with 4; lia|].
  { constructor; simpl; [rewrite zlen_app; change (zlen [0; 0; 0; 0]) with 4; lia|lia|lia|].
    destruct E5 as [->|(H1 & H2 & nib & H3 & H4)]; [by left|right].
    rewrite zlen_app. change (zlen [0; 0; 0; 0]) with 4. split_and!; [lia|lia|lia|].
    exists nib. split; [|done]. rewrite lookup_app_l by (unfold zlen in *; lia).
    rewrite (lookup_put_other _ _ _ _ _ _ Hput) by lia. done. }
  intros F limit [W1 W2 W3 W4]. simpl in *.
  rewrite zlen_app in W1. change (zlen [0; 0; 0; 0]) with 4 in W1. split.
  - constructor; [lia| | |].
    + intros p (H1 & H2 & H3). rewrite W2.
      * simpl. rewrite lookup_app_l by (unfold zlen in *; lia). by rewrite (lookup_put_other _ _ _ _ _ _ Hput) by lia.
      * unfold settled_at. simpl. rewrite zlen_app. change (zlen [0; 0; 0; 0]) with 4. split_and!; [lia..|done].
    + intros Hp. destruct (W3 Hp) as (x & y & G1 & G2 & G3). exists x, y. split_and!; [done| |done].
      destruct E5 as [?|(H5 & H6 & _)]; [lia|]. rewrite lookup_app_l in G2 by (unfold zlen in *; lia).
      by rewrite (lookup_put_other _ _ _ _ _ _ Hput) in G2 by lia.
    + rewrite Hc, Z.sub_diag, Z.shiftr_0_r. unfold flagWord.
      replace (sub F (e_flagPos e) (e_flagPos e + 4)) with (le_enc 4 (e_flags e)).
      { apply le_dec_enc_small. rewrite Hc in E4. done. }
      change (le_enc 4 (e_flags e)) with (le_enc (Z.to_nat 4) (e_flags e)).
      rewrite <- (sub_put_same _ _ _ _ _ Hput). symmetry. apply list_eq. intros n.
      destruct (decide (n < 4)%nat) as [Hn|Hn].
      * rewrite !lookup_sub by lia.
        replace (Z.to_nat (e_flagPos e) + n)%nat with (Z.to_nat (e_flagPos e + Z.of_nat n)) by lia.
        rewrite W2; [by rewrite lookup_app_l by (unfold zlen in *; lia)|].
        unfold settled_at. simpl. rewrite zlen_app. change (zlen [0; 0; 0; 0]) with 4. split_and!; [lia..|].
        destruct E5 as [->|(? & ? & _)]; lia.
      * rewrite !lookup_ge_None_2; [done| |]; unfold sub; rewrite length_take; lia.
  - intros d [D1 D2 D3 D4]. unfold decompress_turn. rewrite D2, Hc. simpl.
    rewrite D1, Z.geb_leb, Z.gtb_ltb.
    destruct (Z.leb_spec (zlen F) (zlen (e_dst e))); [lia|].
    destruct (Z.ltb_spec (zlen F) (zlen (e_dst e) + 4)); [lia|].
    rewrite get_le_Ok by lia. simpl. eexists. split; [reflexivity|]. split; [|done].
    constructor; simpl; [rewrite zlen_app; change (zlen [0; 0; 0; 0]) with 4; lia|lia|by rewrite <- Hlen|done].
Qed.

Lemma final_step e :
  enc_ok e -> 1 <= e_flagCount e ->
  exists e', flushFlags true e = Ok e' /\ zlen (e_dst e') = zlen (e_dst e) /\
    written e (e_dst e') /\
    forall limit d, in_step e (e_dst e') d -> decompress_turn (e_dst e') limit d = Ok (inr (d_dst d)).
Proof.
  intros Hok Hc. pose proof Hok as [[E1 E2] E3 E4 E5].
  unfold flushFlags. simpl. rewrite andb_false_r. destruct (Z.ltb_spec 0 (e_flagCount e)); [|lia].
  set (sh := 32 - e_flagCount e). set (fl := u32 (e_flags e << sh) .| (u32 (1 << sh) - 1)).
  assert (0 <= sh <= 31) as Hsh by (unfold sh; lia).
  assert (fl = 2 ^ sh - 1 + e_flags e * 2 ^ sh) as Hfl.
  { unfold fl, u32. assert (e_flags e * 2 ^ sh < 2 ^ 32) as Hlt.
    { replace (2 ^ 32) with (2 ^ e_flagCount e * 2 ^ sh); [apply Z.mul_lt_mono_pos_r; lia|].
      rewrite <- Z.pow_add_r by lia. f_equal. unfold sh. lia. }
    assert (2 ^ sh < 2 ^ 32) by (apply Z.pow_lt_mono_r; lia).
    rewrite !Z.shiftl_mul_pow2, Z.mul_1_l, (Z.mod_small (2 ^ sh)) by lia.
    rewrite Z.mod_small by nia. rewrite Z.lor_comm.
    replace (e_flags e * 2 ^ sh) with (Z.shiftl (e_flags e) sh) by (by rewrite Z.shiftl_mul_pow2 by lia).
    rewrite lor_shiftl_add by lia. by rewrite Z.shiftl_mul_pow2 by lia. }
  assert (0 <= fl < 2 ^ 32) as Hfl32.
  { rewrite Hfl. assert (2 ^ e_flagCount e * 2 ^ sh = 2 ^ 32) by
      (rewrite <- Z.pow_add_r by lia; f_equal; unfold sh; lia). nia. }
  destruct (@put_le_Ok lzErr (e_dst e) (e_flagPos e) 4 fl) as [dst Hput]; [lia..|].
  rewrite Hput. simpl. eexists. split; [reflexivity|]. simpl.
  pose proof (zlen_put_le _ _ _ _ _ Hput) as Hlen.
  assert (flagWord dst (e_flagPos e) = fl) as HW.
  { unfold flagWord. rewrite (sub_put_same _ _ _ _ _ Hput). by apply le_dec_enc_small. }
  split_and!; [done| |].
  - constructor; [lia| | |].
    + intros p (H1 & H2 & H3). by rewrite (lookup_put_other _ _ _ _ _ _ Hput) by lia.
    + intros Hp. destruct E5 as [?|(H1 & H2 & nib & H3 & H4)]; [lia|]. exists nib, nib.
      rewrite (lookup_put_other _ _ _ _ _ _ Hput) by lia. split_and!; [done..|].
      change 15 with (Z.ones 4). rewrite Z.land_ones by lia. apply Z.mod_small. lia.
    + rewrite HW, Hfl. fold sh. rewrite Z.shiftr_div_pow2 by lia. symmetry.
      apply (Z.div_unique _ _ _ (2 ^ sh - 1)); lia.
  - intros limit d [D1 D2 D3 D4]. unfold decompress_turn. rewrite D1, D2.
    destruct (Z.eqb_spec (32 - e_flagCount e) 0).
    + rewrite Z.geb_leb. destruct (Z.leb_spec (zlen dst) (zlen (e_dst e))); [done|lia].
    + unfold decompress_item. rewrite D1, D2, D3, HW. fold sh.
      assert (Z.land (Z.shiftr fl (sh - 1)) 1 = 1) as ->.
      { rewrite Hfl, Z.shiftr_div_pow2 by lia.
        replace (2 ^ sh - 1 + e_flags e * 2 ^ sh) with ((2 ^ (sh - 1) - 1) + (1 + 2 * e_flags e) * 2 ^ (sh - 1)).
        - rewrite Z.div_add, Z.div_small by lia. rewrite land_1.
          rewrite Z.add_0_l, (Z.mul_comm 2), Z.mod_add by lia. done.
        - assert (2 ^ sh = 2 * 2 ^ (sh - 1)) as -> by (rewrite <- Z.pow_succ_r by lia; f_equal; lia). ring. }
      simpl. rewrite Hlen, Z.eqb_refl. done.
Qed.

(** *** A match *)

#[local] Arguments le_enc : simpl never.

Lemma token_spec off tl : 1 <= off <= windowSize -> 0 <= tl <= 7 ->
  let tok := u16 (((off - 1) << 3) .| tl) in
  [u8 tok; u8 (tok >> 8)] = le_enc 2 tok /\ 0 <= tok < 2 ^ 16 /\ tok .& 7 = tl /\ (tok >> 3) + 1 = off.
Proof.
  intros Ho Ht tok. unfold windowSize in Ho.
  assert (tok = tl + (off - 1) * 8) as ->.
  { unfold tok, u16. rewrite Z.lor_comm, lor_shiftl_add by lia. rewrite Z.mod_small; lia. }
  split_and!.
  - unfold u8, le_enc. by rewrite !land_255.
  - lia.
  - lia.
  - change 7 with (Z.ones 3). rewrite Z.land_ones by lia. change (2 ^ 3) with 8.
    rewrite Z.mod_add by lia. apply Z.mod_small. lia.
  - rewrite Z.shiftr_div_pow2 by lia. change (2 ^ 3) with 8. rewrite Z.div_add, Z.div_small by lia. lia.
Qed.

Lemma zlen_longLength extra len : 1 <= zlen (longLength extra len).
Proof.
  unfold longLength. destruct (_ <? 255); [done|]. rewrite zlen_cons.
  match goal with |- 1 <= 1 + ?z => assert (0 <= z) by apply zlen_nonneg; lia end.
Qed.

Lemma get_le_sub src i n (l : list Z) :
  0 <= i -> 0 <= n -> i + n <= zlen src -> sub src i (i + n) = l ->
  @get_le lzErr src i n = Ok (le_dec l).
Proof. intros. rewrite get_le_Ok by lia. by f_equal; f_equal. Qed.

(** A stretch of the buffer read from its front. *)
Lemma sub_cons_inv (F : list Z) i x l :
  0 <= i -> sub F i (i + zlen (x :: l)) = x :: l ->
  F !! Z.to_nat i = Some x /\ sub F (i + 1) (i + 1 + zlen l) = l.
Proof.
  intros Hi. rewrite zlen_cons. pose proof (zlen_nonneg l).
  rewrite <- (sub_app F i (i + 1)) by lia. intros He.
  assert (sub F i (i + 1) = [x] /\ sub F (i + 1) (i + (1 + zlen l)) = l) as [H1 H2].
  { destruct (sub F i (i + 1)) as [|y [|z r]] eqn:Hs.
    - exfalso. simpl in He. assert (length (sub F (i + 1) (i + (1 + zlen l))) <= length l)%nat as Hl.
      { unfold sub, zlen. rewrite length_take. lia. }
      rewrite He in Hl. simpl in Hl. lia.
    - simpl in He. by injection He as -> ->.
    - exfalso. assert (length (sub F i (i + 1)) <= 1)%nat as Hl by (unfold sub; rewrite length_take; lia).
      rewrite Hs in Hl. simpl in Hl. lia. }
  split; [|by replace (i + 1 + zlen l) with (i + (1 + zlen l)) by lia].
  apply (f_equal (fun k => k !! 0%nat)) in H1. rewrite lookup_sub in H1 by lia.
  by rewrite Nat.add_0_r in H1.
Qed.

Lemma readLength_ok F i len :
  0 <= i -> 25 <= len <= 2 ^ 16 + minMatch ->
  let tail := longLength (len - minMatch - 7 - 15) len in
  i + zlen tail <= zlen F -> sub F i (i + zlen tail) = tail ->
  readLength F 15 i = Ok (len, i + zlen tail).
Proof.
  intros Hi Hlen tail Hl Hs. unfold readLength. simpl.
  unfold tail, longLength, minMatch in *. clear tail.
  destruct (Z.ltb_spec (len - 3 - 7 - 15) 255) as [Hlt|Hge].
  - apply sub_cons_inv in Hs as [Hb _]; [|done]. change (zlen [u8 (len - 3 - 7 - 15)]) with 1 in *.
    unfold readU8. rewrite Z.geb_leb. destruct (Z.leb_spec (zlen F) i); [lia|].
    assert (@index lzErr Z F i = Ok (u8 (len - 3 - 7 - 15))) as -> by (by apply index_Ok). simpl.
    unfold u8. rewrite Z.mod_small by lia. destruct (Z.ltb_spec (len - 3 - 7 - 15) 255); [|lia].
    unfold mret, outcome_ret. do 2 f_equal. lia.
  - assert (u32 (len - 3) = len - 3) as Hu by (unfold u32; rewrite Z.mod_small; lia). rewrite Hu in *.
    apply sub_cons_inv in Hs as [Hb Hs]; [|done]. rewrite zlen_cons in Hl |- *.
    unfold readU8. rewrite Z.geb_leb.
    destruct (Z.leb_spec (zlen F) i) as [Hx|_].
    { exfalso. match type of Hl with _ + (1 + ?z) <= _ => assert (0 <= z) by apply zlen_nonneg end. lia. }
    assert (@index lzErr Z F i = Ok 255) as -> by (by apply index_Ok). simpl.
    destruct (Z.ltb_spec (len - 3) (2 ^ 16)) as [Hlt|Hge2].
    + assert (u16 (len - 3) = len - 3) as Hu6 by (unfold u16; rewrite Z.mod_small; lia). rewrite Hu6 in *.
      rewrite !zlen_le_enc in *.
      unfold readU16. rewrite Z.gtb_ltb. destruct (Z.ltb_spec (zlen F) (i + 1 + 2)); [lia|].
      rewrite (get_le_sub F (i + 1) 2 (le_enc 2 (len - 3))) by (done || lia). rewrite le_dec_enc_small by (simpl; lia). simpl.
      destruct (Z.eqb_spec (len - 3) 0); [lia|]. simpl. destruct (Z.ltb_spec (len - 3) (15 + 7)); [lia|].
      unfold mret, outcome_ret. do 2 f_equal; lia.
    + change (0 :: 0 :: le_enc 4 (len - 3)) with (le_enc 2 0 ++ le_enc 4 (len - 3)) in *.
      rewrite !zlen_app, !zlen_le_enc in *.
      rewrite <- (sub_app F (i + 1) (i + 1 + 2)) in Hs by lia.
      assert (zlen (sub F (i + 1) (i + 1 + 2)) = 2) as Hz by (rewrite zlen_sub; lia).
      apply app_inj_1 in Hs as [Hs1 Hs2]; [|rewrite length_le_enc; unfold zlen in Hz; lia].
      unfold readU16. rewrite Z.gtb_ltb. destruct (Z.ltb_spec (zlen F) (i + 1 + 2)); [lia|].
      rewrite (get_le_sub F (i + 1) 2 (le_enc 2 0)) by (done || lia). simpl.
      unfold readU32. rewrite Z.gtb_ltb. destruct (Z.ltb_spec (zlen F) (i + 1 + 2 + 4)); [lia|].
      replace (i + 1 + (Z.of_nat 2 + Z.of_nat 4)) with (i + 1 + 2 + 4) in Hs2 by lia.
      rewrite (get_le_sub F (i + 1 + 2) 4 (le_enc 4 (len - 3))) by (done || lia). rewrite le_dec_enc_small by (simpl; lia). simpl.
      destruct (Z.ltb_spec (len - 3) (15 + 7)); [lia|]. unfold mret, outcome_ret. do 2 f_equal; lia.
Qed.

(** The encoder moved on by one flag and some bytes, keeping what it had settled. *)
Lemma written_back e e' F bit :
  enc_ok e -> e_flagCount e < 32 -> 0 <= bit <= 1 ->
  e_flagPos e' = e_flagPos e -> e_flagCount e' = e_flagCount e + 1 -> e_flags e' = e_flags (with_flag bit e) ->
  zlen (e_dst e) <= zlen (e_dst e') ->
  (forall p, settled_at e p -> settled_at e' p /\ e_dst e' !! Z.to_nat p = e_dst e !! Z.to_nat p) ->
  (0 <= e_pending e ->
    (e_pending e' = e_pending e /\
     e_dst e' !! Z.to_nat (e_pending e) = e_dst e !! Z.to_nat (e_pending e)) \/
    (settled_at e' (e_pending e) /\ exists v nib, e_dst e' !! Z.to_nat (e_pending e) = Some v /\
     e_dst e !! Z.to_nat (e_pending e) = Some nib /\ v .& 15 = nib)) ->
  written e' F ->
  written e F /\ Z.land (Z.shiftr (flagWord F (e_flagPos e)) (32 - e_flagCount e - 1)) 1 = bit.
Proof.
  intros Hok Hc Hb Hp Hcnt Hf Hlen Hs Hn [W1 W2 W3 W4]. rewrite Hp, Hcnt, Hf in W4.
  destruct (written_flag e F bit Hok Hc Hb W4) as [H1 H2]. split; [|done]. constructor; [lia| | |done].
  - intros p Hset. destruct (Hs p Hset) as [H3 <-]. by apply W2.
  - intros Hpe. destruct (Hn Hpe) as [[G1 G2]|(G1 & v & nib & G2 & G3 & G4)].
    + rewrite <- G2, <- G1. apply W3. lia.
    + exists v, nib. rewrite (W2 _ G1). done.
Qed.

(** What [writeMatch] leaves, in its three shapes: [tk] is the token, [tl] what
    follows the nibble. *)
Section shapes.
Context (e : enc) (tk tl : list Z).
Hypothesis Hok : enc_ok e.
Hypothesis Hc : e_flagCount e < 32.
Let base (dst : list Z) (pending : Z) : enc :=
  Enc (e_head e) (e_next e) dst (e_flagPos e) (e_flags (with_flag 1 e)) (e_flagCount e + 1) pending (e_i e).

Lemma base_ok dst pending :
  zlen (e_dst e) <= zlen dst ->
  (pending = -1 \/ (0 <= pending < zlen dst /\ ~ (e_flagPos e <= pending < e_flagPos e + 4) /\
     exists nib, dst !! Z.to_nat pending = Some nib /\ 0 <= nib < 16)) ->
  enc_ok (base dst pending).
Proof using Hok Hc.
  intros Hl Hp. destruct (flag_ok e 1 Hok Hc ltac:(lia)) as [[H1 H2 H3 _] _].
  constructor; simpl in *; [lia|lia|done|done].
Qed.

(** No nibble. *)
Lemma shape_short F : let e' := base (e_dst e ++ tk) (e_pending e) in
  enc_ok e' /\
  (written e' F -> (written e F /\ Z.land (Z.shiftr (flagWord F (e_flagPos e)) (32 - e_flagCount e - 1)) 1 = 1) /\
   sub F (zlen (e_dst e)) (zlen (e_dst e) + zlen tk) = tk).
Proof using Hok Hc.
  intros e'. pose proof Hok as [E1 E2 E3 E4]. pose proof (zlen_nonneg tk). pose proof (zlen_nonneg (e_dst e)).
  assert (zlen (e_dst e') = zlen (e_dst e) + zlen tk) as Hl by apply zlen_app.
  assert (enc_ok e') as Hok'.
  { apply base_ok; rewrite zlen_app; [lia|]. destruct E4 as [->|(G1 & G2 & nib & G3 & G4)]; [by left|right].
    split_and!; [lia|lia|done|]. exists nib. split; [|done].
    rewrite lookup_app_l by (unfold zlen in *; lia). done. }
  split; [done|]. intros Hw. split.
  - apply (written_back e e' F 1); try done; try lia.
    + intros p (G1 & G2 & G3). split; [unfold settled_at; rewrite Hl; split_and!; [lia..|done|done]|].
      simpl. by rewrite lookup_app_l by (unfold zlen in *; lia).
    + intros Hp. left. split; [done|]. destruct E4 as [?|[G1 _]]; [lia|].
      simpl. by rewrite lookup_app_l by (unfold zlen in *; lia).
  - rewrite (written_sub e' F) by (first [done | lia | intros i Hi; unfold settled_at; rewrite Hl;
      change (e_flagPos e') with (e_flagPos e); change (e_pending e') with (e_pending e);
      split_and!; [lia..|destruct E4 as [->|[? _]]; lia]]).
    simpl. unfold sub, zlen. rewrite drop_app_length' by lia. apply take_ge. lia.
Qed.

(** A nibble in a byte of its own, its high half free. *)
Lemma shape_low nib F : e_pending e < 0 -> 0 <= nib <= 15 ->
  let e' := base ((e_dst e ++ tk ++ [u8 nib]) ++ tl) (zlen (e_dst e ++ tk)) in
  enc_ok e' /\
  (written e' F -> (written e F /\ Z.land (Z.shiftr (flagWord F (e_flagPos e)) (32 - e_flagCount e - 1)) 1 = 1) /\
   sub F (zlen (e_dst e)) (zlen (e_dst e) + zlen tk) = tk /\
   (exists b, F !! Z.to_nat (zlen (e_dst e) + zlen tk) = Some b /\ b .& 15 = nib) /\
   sub F (zlen (e_dst e) + zlen tk + 1) (zlen (e_dst e) + zlen tk + 1 + zlen tl) = tl).
Proof using Hok Hc.
  intros Hpe Hnib e'. pose proof Hok as [E1 E2 E3 E4]. pose proof (zlen_nonneg tk). pose proof (zlen_nonneg (e_dst e)).
  pose proof (zlen_nonneg tl).
  assert (u8 nib = nib) as Hu by (unfold u8; rewrite Z.mod_small; lia). unfold e'. rewrite Hu. clear e'.
  set (e' := base _ _).
  assert (zlen (e_dst e') = zlen (e_dst e) + zlen tk + 1 + zlen tl) as Hl.
  { simpl. rewrite !zlen_app. change (zlen [nib]) with 1. lia. }
  assert (e_pending e' = zlen (e_dst e) + zlen tk) as Hp' by apply zlen_app.
  assert (e_dst e' !! Z.to_nat (zlen (e_dst e) + zlen tk) = Some nib) as Hat.
  { simpl. unfold zlen. rewrite <- app_assoc, <- app_assoc, app_assoc.
    rewrite lookup_app_r by (rewrite length_app; lia).
    replace (_ - _)%nat with 0%nat by (rewrite length_app; lia). done. }
  assert (enc_ok e') as Hok'.
  { apply base_ok; [rewrite <- app_assoc, zlen_app; pose proof (zlen_nonneg ((tk ++ [nib]) ++ tl)); lia|]. right.
    change (0 <= e_pending e' < zlen (e_dst e') /\ ~ (e_flagPos e <= e_pending e' < e_flagPos e + 4) /\
      exists nib, e_dst e' !! Z.to_nat (e_pending e') = Some nib /\ 0 <= nib < 16).
    rewrite Hp', Hl. split_and!; [lia|lia|lia|]. exists nib. split; [done|lia]. }
  split; [done|]. intros Hw. split; [|split; [|split]].
  - apply (written_back e e' F 1); try done; try lia.
    intros p (G1 & G2 & G3). split.
    + unfold settled_at. rewrite Hl, Hp'. split_and!; [lia..|done|lia].
    + simpl. rewrite <- !app_assoc. by rewrite lookup_app_l by (unfold zlen in *; lia).
  - rewrite (written_sub e' F) by (first [done | lia | intros i Hi; unfold settled_at; rewrite Hl, Hp';
      change (e_flagPos e') with (e_flagPos e); split_and!; lia]).
    simpl. rewrite <- !app_assoc. unfold sub, zlen. rewrite drop_app_length' by lia. rewrite take_app_length' by lia. done.
  - destruct (wr_nibble _ _ Hw) as (b & n & G1 & G2 & G3); [rewrite Hp'; lia|].
    rewrite Hp' in G1, G2. rewrite Hat in G2. injection G2 as <-. eauto.
  - rewrite (written_sub e' F) by (first [done | lia | intros i Hi; unfold settled_at; rewrite Hl, Hp';
      change (e_flagPos e') with (e_flagPos e); split_and!; lia]).
    simpl. unfold sub, zlen. rewrite drop_app_length' by (rewrite !length_app; simpl; lia). apply take_ge. lia.
Qed.

(** A nibble in the high half of a byte already there. *)
Lemma shape_high nib old F : 0 <= e_pending e -> 0 <= nib <= 15 ->
  e_dst e !! Z.to_nat (e_pending e) = Some old ->
  let v := old .| u8 (nib << 4) in
  let e' := base (<[Z.to_nat (e_pending e) := v]> (e_dst e ++ tk) ++ tl) (-1) in
  enc_ok e' /\
  (written e' F -> (written e F /\ Z.land (Z.shiftr (flagWord F (e_flagPos e)) (32 - e_flagCount e - 1)) 1 = 1) /\
   sub F (zlen (e_dst e)) (zlen (e_dst e) + zlen tk) = tk /\
   (exists b, F !! Z.to_nat (e_pending e) = Some b /\ b >> 4 = nib) /\
   sub F (zlen (e_dst e) + zlen tk) (zlen (e_dst e) + zlen tk + zlen tl) = tl).
Proof using Hok Hc.
  intros Hpe Hnib Hold v. pose proof Hok as [E1 E2 E3 E4]. pose proof (zlen_nonneg tk). pose proof (zlen_nonneg (e_dst e)).
  pose proof (zlen_nonneg tl).
  destruct E4 as [?|(G1 & G2 & n & G3 & G4)]; [lia|]. rewrite Hold in G3. injection G3 as <-.
  assert (v = old + nib * 2 ^ 4) as Hv.
  { unfold v, u8. rewrite Z.shiftl_mul_pow2 by lia. rewrite Z.mod_small by lia.
    replace (Z.lor old (nib * 2 ^ 4)) with (Z.lor old (Z.shiftl nib 4)) by (by rewrite Z.shiftl_mul_pow2).
    apply lor_shiftl_add; lia. }
  clearbody v. set (e' := base _ _). cbv zeta.
  assert (zlen (e_dst e') = zlen (e_dst e) + zlen tk + zlen tl) as Hl.
  { simpl. rewrite zlen_app, zlen_insert, zlen_app. lia. }
  assert (e_dst e' !! Z.to_nat (e_pending e) = Some v) as Hat.
  { simpl. rewrite lookup_app_l by (rewrite length_insert, length_app; unfold zlen in *; lia).
    apply list_lookup_insert_eq. rewrite length_app. unfold zlen in *. lia. }
  assert (enc_ok e') as Hok'.
  { apply base_ok; [|by left]. change (zlen (e_dst e) <= zlen (e_dst e')). lia. }
  assert (forall i, zlen (e_dst e) <= i < zlen (e_dst e') -> settled_at e' i) as Hset.
  { intros i Hi. unfold settled_at. change (e_flagPos e') with (e_flagPos e). change (e_pending e') with (-1). split_and!; lia. }
  split; [done|]. intros Hw. split; [|split; [|split]].
  - apply (written_back e e' F 1); try done; try lia.
    + intros p (P1 & P2 & P3). split; [unfold settled_at; change (e_pending e') with (-1); split_and!; [lia..|done|lia]|].
      simpl. rewrite lookup_app_l by (rewrite length_insert, length_app; unfold zlen in *; lia).
      rewrite list_lookup_insert_ne by lia. by rewrite lookup_app_l by (unfold zlen in *; lia).
    + intros _. right. split; [unfold settled_at; change (e_pending e') with (-1); split_and!; [lia..|done|lia]|].
      exists v, old. split_and!; [done|done|]. rewrite Hv. change 15 with (Z.ones 4). rewrite Z.land_ones by lia.
      rewrite Z.mod_add by lia. apply Z.mod_small. lia.
  - rewrite (written_sub e' F) by (first [done | lia | intros i Hi; apply Hset; lia]).
    simpl. unfold sub, zlen. rewrite insert_app_l by (unfold zlen in *; lia). rewrite <- app_assoc.
    rewrite drop_app_length' by (rewrite length_insert; lia). rewrite take_app_length' by lia. done.
  - exists v. split.
    + rewrite (wr_same _ _ Hw); [done|]. unfold settled_at. change (e_pending e') with (-1); split_and!; [lia..|done|lia].
    + rewrite Hv, Z.shiftr_div_pow2, Z.div_add, Z.div_small by lia. lia.
  - rewrite (written_sub e' F) by (first [done | lia | intros i Hi; apply Hset; lia]).
    simpl. unfold sub, zlen. rewrite drop_app_length' by (rewrite length_insert, length_app; lia). apply take_ge. lia.
Qed.
End shapes.

Lemma item_match F limit d tok off len i have saved dst' :
  Z.land (Z.shiftr (d_flags d) (d_flagCount d - 1)) 1 = 1 ->
  0 <= d_in d -> d_in d + 2 <= zlen F -> sub F (d_in d) (d_in d + 2) = le_enc 2 tok -> 0 <= tok < 2 ^ 16 ->
  (tok >> 3) + 1 = off -> 1 <= off <= windowSize -> off <= zlen (d_dst d) ->
  readMatch F (tok .& 7) (d_in d + 2) (d_have d) (d_saved d) = Ok (len, i, have, saved) ->
  (limit = 0 \/ zlen (d_dst d) + len <= limit) ->
  copyMatch (E := lzErr) (Z.to_nat len) (zlen (d_dst d) - off) (d_dst d) = Ok dst' ->
  decompress_item F limit d = Ok (inl (Dec i (d_flags d) (d_flagCount d - 1) have saved dst')).
Proof.
  intros Hbit H0 Hin Hsub Htok Hoff Ho1 Ho2 Hrm Hlim Hcp. unfold decompress_item. rewrite Hbit. simpl.
  destruct (Z.eqb_spec (d_in d) (zlen F)); [lia|].
  unfold readU16. rewrite Z.gtb_ltb. destruct (Z.ltb_spec (zlen F) (d_in d + 2)); [lia|].
  rewrite (get_le_sub F (d_in d) 2 (le_enc 2 tok)) by (done || lia). rewrite le_dec_enc_small by done. simpl.
  rewrite Hoff. rewrite !Z.gtb_ltb.
  destruct (Z.ltb_spec off 1); [lia|]. destruct (Z.ltb_spec windowSize off); [lia|].
  destruct (Z.ltb_spec (zlen (d_dst d)) off); [lia|]. simpl. rewrite Hrm. simpl.
  rewrite Z.gtb_ltb. assert ((0 <? limit) && (limit <? zlen (d_dst d) + len) = false) as ->.
  { destruct Hlim as [->|Hl]; [done|]. apply andb_false_iff. right. apply Z.ltb_ge. lia. }
  by rewrite Hcp.
Qed.

(** What follows the nibble: nothing when the nibble says it all. *)
Definition tail_of (len : Z) : list Z :=
  if len - minMatch - 7 <? 15 then [] else longLength (len - minMatch - 7 - 15) len.
Definition nib_of (len : Z) : Z := if len - minMatch - 7 >? 15 then 15 else len - minMatch - 7.

Lemma readTail_ok F i len :
  0 <= i -> 10 <= len <= 2 ^ 16 + minMatch -> i + zlen (tail_of len) <= zlen F ->
  sub F i (i + zlen (tail_of len)) = tail_of len ->
  readLength F (nib_of len) i = Ok (len, i + zlen (tail_of len)).
Proof.
  intros Hi Hlen Hl Hs. unfold tail_of, nib_of, minMatch in *. rewrite Z.gtb_ltb.
  destruct (Z.ltb_spec (len - 3 - 7) 15) as [Hlt|Hge].
  - destruct (Z.ltb_spec 15 (len - 3 - 7)); [lia|]. unfold readLength.
    destruct (Z.ltb_spec (len - 3 - 7) 15); [|lia]. unfold mret, outcome_ret, minMatch. do 2 f_equal; [lia|].
    rewrite zlen_nil. lia.
  - assert ((if 15 <? len - 3 - 7 then 15 else len - 3 - 7) = 15) as -> by (bdestr).
    apply (readLength_ok F i len); unfold minMatch; done || lia.
Qed.

Lemma match_step e off len :
  enc_ok e -> e_flagCount e < 32 -> 1 <= off <= windowSize -> minMatch <= len <= 2 ^ 16 + minMatch ->
  exists e', writeMatch off len (with_flag 1 e) = Ok e' /\ enc_ok e' /\ e_flagCount e' = e_flagCount e + 1 /\
    e_head e' = e_head e /\ e_next e' = e_next e /\ e_i e' = e_i e /\ zlen (e_dst e) < zlen (e_dst e') /\
    forall F limit, written e' F -> written e F /\
      forall d dst', in_step e F d -> off <= zlen (d_dst d) ->
        (limit = 0 \/ zlen (d_dst d) + len <= limit) ->
        copyMatch (E := lzErr) (Z.to_nat len) (zlen (d_dst d) - off) (d_dst d) = Ok dst' ->
        exists d', decompress_item F limit d = Ok (inl d') /\ in_step e' F d' /\ d_dst d' = dst'.
Proof.
  intros Hok Hc Hoff Hlen. unfold minMatch in Hlen. pose proof (zlen_nonneg (e_dst e)) as Hnn.
  set (tl := if len - minMatch >? 7 then 7 else len - minMatch).
  assert (0 <= tl <= 7) as Htl by (unfold tl, minMatch; rewrite Z.gtb_ltb; bdestr).
  destruct (token_spec off tl Hoff Htl) as (Htk & Htok & Ht7 & Ht3). cbv zeta in *.
  set (tok := u16 (((off - 1) << 3) .| tl)) in *.
  assert (zlen (le_enc 2 tok) = 2) as Hz2 by apply zlen_le_enc.
  unfold writeMatch. fold tl. fold tok. rewrite Htk. change (e_dst (with_flag 1 e)) with (e_dst e).
  change (e_pending (with_flag 1 e)) with (e_pending e).
  destruct (Z.ltb_spec (len - minMatch) 7) as [Hs|Hs]; unfold minMatch in Hs.
  - (* short *)
    assert (tl = len - 3) as Htl' by (unfold tl, minMatch; rewrite Z.gtb_ltb; bdestr).
    eexists. split; [reflexivity|].
    split_and!; [by apply (shape_short e (le_enc 2 tok) Hok Hc [])|done..|simpl; rewrite zlen_app; lia|].
    intros F limit Hw. pose proof (wr_len _ _ Hw) as HF. simpl in HF. rewrite zlen_app in HF.
    apply (shape_short e (le_enc 2 tok) Hok Hc F) in Hw as [[Hwe Hbit] Hsub]. split; [done|].
    intros d dst' [D1 D2 D3 D4] Hod Hlim Hcp. rewrite Hz2 in *.
    eexists. split; [eapply (item_match F limit d tok off len); try done|].
    + rewrite D2, D3. exact Hbit.
    + lia.
    + lia.
    + by rewrite D1.
    + unfold readMatch. rewrite Ht7, Htl'. destruct (Z.ltb_spec (len - 3) 7); [|lia].
      unfold minMatch. by replace (len - 3 + 3) with len by lia.
    + split; [|done]. constructor; simpl; [rewrite zlen_app; lia|lia|done|done].
  - assert (tl = 7) as Htl' by (unfold tl, minMatch; rewrite Z.gtb_ltb; bdestr).
    change (if len - minMatch - 7 >? 15 then 15 else len - minMatch - 7) with (nib_of len).
    assert (0 <= nib_of len <= 15) as Hnib by (unfold nib_of, minMatch; rewrite Z.gtb_ltb; bdestr).
    destruct (Z.ltb_spec (e_pending e) 0) as [Hpe|Hpe].
    + (* the low half of a new byte *)
      set (e' := Enc (e_head e) (e_next e) ((e_dst e ++ le_enc 2 tok ++ [u8 (nib_of len)]) ++ tail_of len)
        (e_flagPos e) (e_flags (with_flag 1 e)) (e_flagCount e + 1) (zlen (e_dst e ++ le_enc 2 tok)) (e_i e)).
      exists e'. split.
      { unfold tail_of in e'. simpl. unfold e'. rewrite <- app_assoc.
        destruct (len - minMatch - 7 <? 15); [by rewrite app_nil_r|done]. }
      assert (zlen (e_dst e') = zlen (e_dst e) + 2 + 1 + zlen (tail_of len)) as Hle.
      { unfold e'. cbn [e_dst]. rewrite !zlen_app, Hz2. change (zlen [u8 (nib_of len)]) with 1. lia. }
      pose proof (zlen_nonneg (tail_of len)) as Hnt.
      split_and!; [by apply (shape_low e (le_enc 2 tok) (tail_of len) Hok Hc (nib_of len) [])|done..|lia|].
      intros F limit Hw. pose proof (wr_len _ _ Hw) as HF. rewrite Hle in HF. pose proof Hw as Hw'.
      apply (shape_low e (le_enc 2 tok) (tail_of len) Hok Hc (nib_of len) F Hpe Hnib) in Hw'
        as [[Hwe Hbit] (Hsub & (b & Hb & Hb15) & Hst)]. split; [done|]. rewrite Hz2 in *.
      intros d dst' [D1 D2 D3 D4] Hod Hlim Hcp.
      assert (d_have d = false) as Hh by (destruct (d_have d); [lia|done]).
      exists (Dec (zlen (e_dst e) + 2 + 1 + zlen (tail_of len)) (d_flags d) (d_flagCount d - 1) true b dst').
      split; [eapply (item_match F limit d tok off len); try done|].
      * rewrite D2, D3. exact Hbit.
      * lia.
      * lia.
      * by rewrite D1.
      * unfold readMatch. rewrite Ht7, Htl', Hh. simpl. unfold readU8. rewrite D1, Z.geb_leb.
        destruct (Z.leb_spec (zlen F) (zlen (e_dst e) + 2)); [lia|].
        assert (@index lzErr Z F (zlen (e_dst e) + 2) = Ok b) as -> by (apply index_Ok; split; [lia|done]). simpl.
        rewrite Hb15, (readTail_ok F (zlen (e_dst e) + 2 + 1) len) by (unfold minMatch; done || lia). done.
      * split; [|done]. constructor; cbn [d_in d_flagCount d_flags d_have d_saved]; [lia| |done|].
        -- change (e_flagCount e') with (e_flagCount e + 1). lia.
        -- change (e_pending e') with (zlen (e_dst e ++ le_enc 2 tok)). rewrite zlen_app, Hz2. split; [lia|done].
    + (* the high half of the byte already there *)
      destruct (eo_pending _ Hok) as [?|(G1 & G2 & old & Hold & G4)]; [lia|].
      set (e' := Enc (e_head e) (e_next e)
        (<[Z.to_nat (e_pending e) := old .| u8 (nib_of len << 4)]> (e_dst e ++ le_enc 2 tok) ++ tail_of len)
        (e_flagPos e) (e_flags (with_flag 1 e)) (e_flagCount e + 1) (-1) (e_i e)).
      exists e'. split.
      { assert (@index lzErr Z (e_dst e ++ le_enc 2 tok) (e_pending e) = Ok old) as ->.
        { apply index_Ok. split; [lia|]. rewrite lookup_app_l by (unfold zlen in *; lia). done. }
        simpl. rewrite store_ok by (rewrite zlen_app; lia). simpl. unfold e', tail_of.
        destruct (len - minMatch - 7 <? 15); [by rewrite app_nil_r|done]. }
      assert (zlen (e_dst e') = zlen (e_dst e) + 2 + zlen (tail_of len)) as Hle.
      { unfold e'. cbn [e_dst]. rewrite zlen_app, zlen_insert, zlen_app, Hz2. lia. }
      pose proof (zlen_nonneg (tail_of len)) as Hnt.
      split_and!; [by apply (shape_high e (le_enc 2 tok) (tail_of len) Hok Hc (nib_of len) old [])|done..|lia|].
      intros F limit Hw. pose proof (wr_len _ _ Hw) as HF. rewrite Hle in HF.
      apply (shape_high e (le_enc 2 tok) (tail_of len) Hok Hc (nib_of len) old F Hpe Hnib Hold) in Hw
        as [[Hwe Hbit] (Hsub & (b & Hb & Hb4) & Hst)]. split; [done|]. rewrite Hz2 in *.
      intros d dst' [D1 D2 D3 D4] Hod Hlim Hcp.
      assert (d_have d = true /\ d_saved d = b) as [Hh Hsv].
      { destruct (d_have d); [|lia]. split; [done|]. destruct D4 as [_ D4]. rewrite Hb in D4. by injection D4. }
      exists (Dec (zlen (e_dst e) + 2 + zlen (tail_of len)) (d_flags d) (d_flagCount d - 1) false b dst').
      split; [eapply (item_match F limit d tok off len); try done|].
      * rewrite D2, D3. exact Hbit.
      * lia.
      * lia.
      * by rewrite D1.
      * unfold readMatch. rewrite Ht7, Htl', Hh. simpl. rewrite Hsv, Hb4, D1.
        rewrite (readTail_ok F (zlen (e_dst e) + 2) len) by (unfold minMatch; done || lia). done.
      * split; [|done]. constructor; cbn [d_in d_flagCount d_flags d_have d_saved]; [lia| |done|done].
        change (e_flagCount e') with (e_flagCount e + 1). lia.
Qed.

(** ** The loops in step *)

Record loop_ok (src : list Z) (e : enc) : Prop := LoopOk {
  lo_chain : chain_ok src (e_head e) (e_next e);
  lo_enc : enc_ok e;
  lo_i : 0 <= e_i e <= zlen src;
  lo_first : e_i e = 0 \/ 1 <= e_flagCount e;
}.

(** The decoder is about to take the turn that matches the encoder's next one:
    where the encoder has room in its group, its next item is read under the
    flag word the decoder holds, or is about to load. *)
Definition ready (e : enc) (F : list Z) (limit : Z) (d : dec) : Prop :=
  if e_flagCount e =? 32 then in_step e F d
  else exists d1, in_step e F d1 /\ d_dst d1 = d_dst d /\
                  decompress_turn F limit d = decompress_item F limit d1.

Lemma in_step_ready e F limit d : 1 <= e_flagCount e -> in_step e F d -> ready e F limit d.
Proof.
  intros Hc Hs. unfold ready. destruct (Z.eqb_spec (e_flagCount e) 32); [done|].
  exists d. split_and!; [done|done|]. unfold decompress_turn. rewrite (is_count _ _ _ Hs).
  destruct (Z.eqb_spec (32 - e_flagCount e) 0); [lia|done].
Qed.

Lemma same_output_written e e' F : same_output e e' -> written e' F -> written e F.
Proof.
  intros (H1 & H2 & H3 & H4 & H5 & _) [W1 W2 W3 W4]. unfold settled_at in *.
  rewrite H1, H2, H3, H4, H5 in *. by constructor.
Qed.
Lemma same_output_in_step e e' F d : same_output e e' -> in_step e F d -> in_step e' F d.
Proof.
  intros (H1 & H2 & H3 & H4 & H5 & _) [D1 D2 D3 D4]. constructor; rewrite ?H1, ?H2, ?H4, ?H5; done.
Qed.
Lemma same_output_enc_ok e e' : same_output e e' -> enc_ok e -> enc_ok e'.
Proof.
  intros (H1 & H2 & H3 & H4 & H5 & _) [E1 E2 E3 E4]. constructor; rewrite ?H1, ?H2, ?H3, ?H4, ?H5; done.
Qed.

(** The item written with room in the group: a literal or a match. *)
Lemma item_ok src e :
  chain_ok src (e_head e) (e_next e) -> enc_ok e -> 0 <= e_i e < zlen src -> e_flagCount e < 32 ->
  exists e', compress_item src e = Ok e' /\
    loop_ok src e' /\ e_i e < e_i e' /\ 1 <= e_flagCount e' /\ zlen (e_dst e) < zlen (e_dst e') /\
    forall F limit, (limit = 0 \/ zlen src <= limit) -> written e' F -> written e F /\
      forall d, in_step e F d -> d_dst d = sub src 0 (e_i e) ->
        exists d', decompress_item F limit d = Ok (inl d') /\ in_step e' F d' /\ d_dst d' = sub src 0 (e_i e').
Proof.
  intros Hch Hok Hi Hc. unfold compress_item.
  destruct (findBest_ok src e (e_i e)) as (off & len & -> & Hbest); [lia|done|]. simpl.
  rewrite Z.geb_leb. destruct (Z.leb_spec minMatch len) as [Hlen|Hlen].
  - destruct Hbest as [?|Hm]; [lia|]. pose proof Hm as (M1 & M2 & M3 & M4 & M5).
    destruct (match_step e off len Hok Hc M1 M3) as (e1 & -> & Hok1 & Hc1 & Hh1 & Hn1 & Hi1 & Hl1 & Hsim). simpl.
    unfold minMatch in *.
    destruct (consume_ok src (Z.to_nat len) e1) as (e2 & -> & Hch2 & Hs2); [lia|lia|by rewrite Hh1, Hn1|].
    assert (same_output e1 (with_i (e_i e1) e2)) as Hs by (destruct Hs2 as (?&?&?&?&?&?); by split_and!).
    assert (e_i e2 = e_i e + len) as Hi2 by (destruct Hs2 as (_&_&_&_&_&->); simpl; lia).
    pose proof (same_output_enc_ok _ _ Hs Hok1) as Hok2.
    assert (e_flagCount e2 = e_flagCount e + 1) as Hc2 by (destruct Hs as (_&_&_&Hx&_); simpl in Hx; lia).
    assert (e_dst e2 = e_dst e1) as Hd2 by (destruct Hs as (Hx&_); exact Hx). destruct (eo_count _ Hok).
    exists e2. split_and!; [done|constructor; [done|by destruct Hok2; constructor|lia|lia]|lia|lia|by rewrite Hd2|].
    intros F limit Hlim Hw. destruct (Hsim F limit) as [Hwe Hstep].
    { apply (same_output_written _ _ _ Hs). by destruct Hw; constructor. }
    split; [done|]. intros d Hd Hdst.
    assert (zlen (d_dst d) = e_i e) as Hz by (rewrite Hdst, zlen_sub; lia).
    destruct (Hstep d (sub src 0 (e_i e + len))) as (d' & H1 & H2 & H3); [done|lia|destruct Hlim; lia| |].
    { rewrite Hz, Hdst. destruct Hm as (? & ? & ? & ? & ?). apply copyMatch_repeats; unfold minMatch in *; done || lia. }
    exists d'. rewrite Hi2. split_and!; [done| |done].
    pose proof (same_output_in_step _ _ _ _ Hs H2) as [D1 D2 D3 D4]. by constructor.
  - destruct (@index_in_range _ lzErr src (e_i e)) as (b & -> & Hb); [lia|]. simpl.
    destruct (update_ok src (e_i e) (with_lit b (with_flag 0 e))) as (e2 & -> & Hch2 & Hs); [lia|done|].
    simpl. eexists. split; [reflexivity|].
    assert (e_i e2 = e_i e) as Hi2 by (destruct Hs as (_&_&_&_&_&Hx); exact Hx).
    assert (enc_ok (with_lit b (with_flag 0 e))) as Hokl.
    { destruct (flag_ok e 0 Hok Hc ltac:(lia)) as [[E1 E2 E3 E4] _]. constructor; [|done|done|].
      - simpl in *. rewrite zlen_app. change (zlen [b]) with 1. lia.
      - simpl in *. rewrite zlen_app. change (zlen [b]) with 1. destruct E4 as [->|(G1 & G2 & n & G3 & G4)]; [by left|right].
        split_and!; [lia|lia|done|]. exists n. split; [|done]. by rewrite lookup_app_l by (unfold zlen in *; lia). }
    pose proof (same_output_enc_ok _ _ Hs Hokl) as Hok2.
    assert (e_flagCount e2 = e_flagCount e + 1) as Hc2 by (destruct Hs as (_&_&_&Hx&_); exact Hx).
    assert (zlen (e_dst e2) = zlen (e_dst e) + 1) as Hd2 by (destruct Hs as (Hx&_); rewrite Hx; simpl; by rewrite zlen_app).
    destruct (eo_count _ Hok).
    split_and!; [constructor; simpl; [done|by destruct Hok2; constructor|lia|lia]|simpl; lia|simpl; lia|simpl; lia|].
    intros F limit Hlim Hw. destruct (literal_step e F b limit Hok Hc) as [Hwe Hstep].
    { apply (same_output_written _ e2); [done|]. by destruct Hw; constructor. }
    split; [done|]. intros d Hd Hdst.
    destruct (Hstep d Hd) as (d' & H1 & H2 & H3).
    { rewrite Hdst, zlen_sub by lia. destruct Hlim; lia. }
    exists d'. split_and!; [done| |].
    + pose proof (same_output_in_step _ _ _ _ Hs H2) as [D1 D2 D3 D4]. by constructor.
    + simpl. rewrite H3, Hdst, Hi2. symmetry. by apply sub_snoc; [lia..|].
Qed.

Lemma compress_turn_ok src e :
  loop_ok src e -> e_i e < zlen src ->
  exists e', compress_turn src e = Ok e' /\ loop_ok src e' /\ e_i e < e_i e' /\ 1 <= e_flagCount e' /\
    zlen (e_dst e) < zlen (e_dst e') /\
    forall F limit, (limit = 0 \/ zlen src <= limit) -> written e' F -> written e F /\
      forall d, ready e F limit d -> d_dst d = sub src 0 (e_i e) ->
        exists d', decompress_turn F limit d = Ok (inl d') /\ in_step e' F d' /\ d_dst d' = sub src 0 (e_i e').
Proof.
  intros [L1 L2 L3 L4] Hi. unfold compress_turn, ready. destruct (Z.eqb_spec (e_flagCount e) 32) as [Hc|Hc].
  - destruct (flush_step e L2 Hc) as (e1 & -> & Hok1 & Hc1 & Hh1 & Hn1 & Hi1 & Hl1 & Hsim). simpl.
    destruct (item_ok src e1) as (e2 & -> & Hlo & Hi2 & Hc2 & Hl2 & Hstep); [by rewrite Hh1, Hn1|done|lia|lia|].
    exists e2. split_and!; [done|done|lia|lia|lia|].
    intros F limit Hlim Hw. destruct (Hstep F limit Hlim Hw) as [Hw1 Hst]. destruct (Hsim F limit Hw1) as [Hwe Htn].
    split; [done|]. intros d Hd Hdst. destruct (Htn d Hd) as (d1 & -> & Hs1 & Hd1). apply Hst; [done|]. congruence.
  - simpl. destruct (item_ok src e) as (e2 & -> & Hlo & Hi2 & Hc2 & Hl2 & Hstep); [done|done|lia|destruct (eo_count _ L2); lia|].
    exists e2. split_and!; [done|done|lia|lia|lia|].
    intros F limit Hlim Hw. destruct (Hstep F limit Hlim Hw) as [Hwe Hst]. split; [done|].
    intros d (d1 & Hs1 & Hd1 & ->) Hdst. apply Hst; [done|]. congruence.
Qed.

Lemma compress_loop_ok fuel src e :
  loop_ok src e -> (Z.to_nat (zlen src - e_i e) < fuel)%nat -> 0 < zlen src ->
  exists F, compress_loop fuel src e = Ok F /\ zlen (e_dst e) <= zlen F /\ written e F /\
    forall limit d n, (limit = 0 \/ zlen src <= limit) -> ready e F limit d -> d_dst d = sub src 0 (e_i e) ->
      (Z.to_nat (zlen F - zlen (e_dst e)) < n)%nat -> decompress_loop n F limit d = Ok src.
Proof.
  revert e. induction fuel as [|fuel IH]; intros e Hlo Hf Hpos; [lia|]. cbn [compress_loop].
  destruct (Z.ltb_spec (e_i e) (zlen src)) as [Hlt|Hge].
  - destruct (compress_turn_ok src e Hlo Hlt) as (e1 & -> & Hlo1 & Hi1 & Hc1 & Hl1 & Hsim). simpl.
    destruct (IH e1 Hlo1) as (F & HF & HlF & Hw1 & Hdec); [lia|lia|]. exists F. split_and!; [done|lia| |].
    + by destruct (Hsim F 0 (or_introl eq_refl) Hw1).
    + intros limit d n Hlim Hr Hdst Hn. destruct (Hsim F limit Hlim Hw1) as [_ Hst].
      destruct (Hst d Hr Hdst) as (d' & Ht & Hs' & Hd'). destruct n as [|n]; [lia|]. simpl. rewrite Ht. simpl.
      apply Hdec; [done|by apply in_step_ready|done|lia].
  - pose proof Hlo as [L1 L2 L3 L4]. destruct (final_step e L2) as (e1 & -> & Hl1 & Hw1 & Ht); [lia|]. simpl.
    exists (e_dst e1). split_and!; [done|lia|done|]. intros limit d n Hlim Hr Hdst Hn.
    destruct n as [|n]; [lia|]. simpl.
    assert (decompress_turn (e_dst e1) limit d = Ok (inr (d_dst d))) as ->.
    { unfold ready in Hr. destruct (Z.eqb_spec (e_flagCount e) 32) as [Hc|Hc]; [by apply Ht|].
      destruct Hr as (d1 & Hs1 & Hd1 & ->). rewrite <- Hd1. rewrite <- (Ht limit d1 Hs1).
      unfold decompress_turn. rewrite (is_count _ _ _ Hs1). destruct (Z.eqb_spec (32 - e_flagCount e) 0); [lia|done]. }
    simpl. rewrite Hdst. replace (e_i e) with (zlen src) by lia. by rewrite sub_full.
Qed.

Lemma enc_init_ok src : loop_ok src (enc_init (length src)).
Proof.
  constructor; cbn [enc_init e_head e_next e_i e_flagCount].
  - split_and!.
    + rewrite zlen_replicate. apply Z2Nat.id. unfold hashSize. lia.
    + by rewrite zlen_replicate.
    + apply Forall_replicate. by left.
    + apply Forall_replicate. by left.
  - constructor; cbn [enc_init e_dst e_flagPos e_flagCount e_flags e_pending];
      [change (zlen [0; 0; 0; 0]) with 4; lia|lia|lia|by left].
  - pose proof (zlen_nonneg src). lia.
  - by left.
Qed.

Lemma Decompress_Compress (src : list Z) (limit : Z) :
  limit = 0 \/ zlen src <= limit ->
  exists c, Compress src = Ok c /\ Decompress c limit = Ok src.
Proof.
  intros Hlim. unfold Compress. destruct (Z.eqb_spec (zlen src) 0) as [Hz|Hz].
  - exists []. split; [done|]. destruct src; [done|]. rewrite zlen_cons in Hz. pose proof (zlen_nonneg src). lia.
  - pose proof (zlen_nonneg src).
    destruct (compress_loop_ok (S (length src)) src (enc_init (length src)) (enc_init_ok src))
      as (F & -> & HlF & Hw & Hdec); [simpl; unfold zlen; lia|lia|].
    exists F. split; [done|]. cbn [enc_init e_dst] in HlF. change (zlen [0; 0; 0; 0]) with 4 in HlF.
    apply Hdec; [done| |done|].
    + unfold ready. cbn [enc_init e_flagCount]. simpl.
      exists (Dec 4 (flagWord F 0) 32 false 0 []). split_and!; [by constructor|done|].
      unfold decompress_turn. simpl. rewrite Z.geb_leb, Z.gtb_ltb.
      destruct (Z.leb_spec (zlen F) 0); [lia|]. destruct (Z.ltb_spec (zlen F) (0 + 4)); [lia|].
      rewrite get_le_Ok by lia. done.
    + cbn [enc_init e_dst]. change (zlen [0; 0; 0; 0]) with 4. unfold zlen. lia.
Qed.

(** C35: What the LZ77 encoder writes, the LZ77 decoder reads back: for every input, of
    any length, the encoder returns, without an access out of range in its hash chains,
    its window or its output, and decoding what it returned gives the input again, under
    no limit or under any limit the input fits in. *)
Theorem lz77_roundtrip (src : list Z) (limit : Z) :
  limit = 0 \/ zlen src <= limit ->
  exists c, Compress src = Ok c /\ Decompress c limit = Ok src.
Proof. apply Decompress_Compress. Qed.

(** ** The decoder on anything *)

(** A read either fails or moves the input on, inside the slice. *)
Definition reads_on (m : out (Z * Z)) (F : list Z) (i : Z) : Prop :=
  match m with Ok (_, j) => i <= j <= zlen F | Err _ => True | _ => False end.

Lemma readU8_on F i : 0 <= i -> i <= zlen F ->
  match readU8 F i with Ok (_, j) => j = i + 1 /\ j <= zlen F | Err _ => True | _ => False end.
Proof.
  intros. unfold readU8. rewrite Z.geb_leb. destruct (Z.leb_spec (zlen F) i); [done|].
  destruct (@index_in_range _ lzErr F i) as (b & -> & _); [lia|]. simpl. lia.
Qed.
Lemma readU16_on F i : 0 <= i ->
  match readU16 F i with Ok (_, j) => j = i + 2 /\ j <= zlen F | Err _ => True | _ => False end.
Proof.
  intros. unfold readU16. rewrite Z.gtb_ltb. destruct (Z.ltb_spec (zlen F) (i + 2)); [done|].
  rewrite get_le_Ok by lia. simpl. lia.
Qed.
Lemma readU32_on F i : 0 <= i ->
  match readU32 F i with Ok (_, j) => j = i + 4 /\ j <= zlen F | Err _ => True | _ => False end.
Proof.
  intros. unfold readU32. rewrite Z.gtb_ltb. destruct (Z.ltb_spec (zlen F) (i + 4)); [done|].
  rewrite get_le_Ok by lia. simpl. lia.
Qed.

Lemma readLength_on F nib i : 0 <= i -> i <= zlen F -> reads_on (readLength F nib i) F i.
Proof.
  intros Hi Hl. unfold readLength, reads_on. destruct (nib <? 15); [simpl; lia|].
  pose proof (readU8_on F i Hi Hl) as H8. destruct (readU8 F i) as [[b j]| | |]; simpl; try done.
  destruct (b <? 255); [simpl; lia|].
  pose proof (readU16_on F j ltac:(lia)) as H16. destruct (readU16 F j) as [[v k]| | |]; simpl; try done.
  destruct (negb (v =? 0)); simpl.
  - destruct (v <? 15 + 7); simpl; [done|lia].
  - pose proof (readU32_on F k ltac:(lia)) as H32. destruct (readU32 F k) as [[m q]| | |]; simpl; try done.
    destruct (m <? 15 + 7); simpl; [done|lia].
Qed.
Lemma readMatch_on F bl i have saved : 0 <= i -> i <= zlen F ->
  match readMatch F bl i have saved with Ok (_, j, _, _) => i <= j <= zlen F | Err _ => True | _ => False end.
Proof.
  intros Hi Hl. unfold readMatch. destruct (bl <? 7); [simpl; lia|]. destruct have; simpl.
  - pose proof (readLength_on F (saved >> 4) i Hi Hl) as H. unfold reads_on in H.
    destruct (readLength F _ i) as [[len j]| | |]; simpl; done.
  - pose proof (readU8_on F i Hi Hl) as H8. destruct (readU8 F i) as [[b j]| | |]; simpl; try done.
    pose proof (readLength_on F (b .& 15) j ltac:(lia) ltac:(lia)) as H. unfold reads_on in H.
    destruct (readLength F _ j) as [[len k]| | |]; simpl; try done. lia.
Qed.

Definition dec_ok (F : list Z) (limit : Z) (d : dec) : Prop :=
  0 <= d_in d <= zlen F /\ 0 <= d_flagCount d /\ (0 < limit -> zlen (d_dst d) <= limit).

Lemma decompress_item_on F limit d : dec_ok F limit d -> 1 <= d_flagCount d ->
  match decompress_item F limit d with
  | Ok (inl d') => dec_ok F limit d' /\ d_in d < d_in d'
  | Ok (inr dst) => 0 < limit -> zlen dst <= limit
  | Err _ => True
  | _ => False
  end.
Proof.
  intros (D1 & D2 & D3) Hc. unfold decompress_item. destruct (negb (negb _)).
  - pose proof (readU8_on F (d_in d) ltac:(lia) ltac:(lia)) as H8.
    destruct (readU8 F (d_in d)) as [[b j]| | |]; simpl; try done.
    rewrite Z.gtb_ltb. destruct (Z.ltb_spec 0 limit), (Z.ltb_spec limit (zlen (d_dst d ++ [b]))); simpl; try done;
      unfold dec_ok; simpl; lia.
  - destruct (Z.eqb_spec (d_in d) (zlen F)); [simpl; done|].
    pose proof (readU16_on F (d_in d) ltac:(lia)) as H16.
    destruct (readU16 F (d_in d)) as [[tok j]| | |]; simpl; try done.
    set (off := (tok >> 3) + 1).
    destruct (_ || _ || _) eqn:Hoff; [done|].
    apply orb_false_iff in Hoff as [[Ho1%Z.ltb_ge Ho2]%orb_false_iff Ho3].
    rewrite Z.gtb_ltb in Ho3. apply Z.ltb_ge in Ho3.
    pose proof (readMatch_on F (tok .& 7) j (d_have d) (d_saved d) ltac:(lia) ltac:(lia)) as Hm.
    destruct (readMatch F _ j _ _) as [[[[len k] have] saved]| | |]; simpl; try done.
    rewrite Z.gtb_ltb. destruct (Z.ltb_spec 0 limit), (Z.ltb_spec limit (zlen (d_dst d) + len)); simpl; try done;
      destruct (copyMatch_total (E := lzErr) (Z.to_nat len) (zlen (d_dst d) - off) (d_dst d)) as (dst' & -> & Hl);
      try lia; simpl; unfold dec_ok; simpl; lia.
Qed.

Lemma decompress_loop_on n F limit d : dec_ok F limit d -> (Z.to_nat (zlen F - d_in d) < n)%nat ->
  match decompress_loop n F limit d with
  | Ok dst => 0 < limit -> zlen dst <= limit
  | Err _ => True
  | _ => False
  end.
Proof.
  revert d. induction n as [|n IH]; intros d Hd Hn; [lia|]. simpl.
  assert (match decompress_turn F limit d with
    | Ok (inl d') => dec_ok F limit d' /\ d_in d < d_in d'
    | Ok (inr dst) => 0 < limit -> zlen dst <= limit
    | Err _ => True
    | _ => False end) as Ht.
  { unfold decompress_turn. pose proof Hd as (D1 & D2 & D3). destruct (Z.eqb_spec (d_flagCount d) 0).
    - rewrite Z.geb_leb, Z.gtb_ltb. destruct (Z.leb_spec (zlen F) (d_in d)); [done|].
      destruct (Z.ltb_spec (zlen F) (d_in d + 4)); [done|]. rewrite get_le_Ok by lia.
      set (d1 := Dec (d_in d + 4) (le_dec (sub F (d_in d) (d_in d + 4))) 32 (d_have d) (d_saved d) (d_dst d)).
      change (match decompress_item F limit d1 with
        | Ok (inl d') => dec_ok F limit d' /\ d_in d < d_in d'
        | Ok (inr dst) => 0 < limit -> zlen dst <= limit
        | Err _ => True
        | _ => False end).
      assert (dec_ok F limit d1) as Hd1 by (unfold dec_ok; cbn [d1 d_in d_flagCount d_dst]; lia).
      pose proof (decompress_item_on F limit d1 Hd1 ltac:(cbn [d1 d_flagCount]; lia)) as Hi.
      destruct (decompress_item F limit d1) as [[d'|dst]| | |]; try done.
      destruct Hi as [Hi1 Hi2]. split; [done|]. cbn [d1 d_in] in Hi2. lia.
    - apply decompress_item_on; [done|lia]. }
  destruct (decompress_turn F limit d) as [[d'|dst]| | |]; simpl; try done.
  destruct Ht as [Hd' Hlt]. apply IH; [done|]. destruct Hd' as [? _]. lia.
Qed.

Lemma Decompress_total (src : list Z) (limit : Z) :
  settled (Decompress src limit) /\
  (forall dst, Decompress src limit = Ok dst -> 0 < limit -> zlen dst <= limit).
Proof.
  pose proof (zlen_nonneg src).
  assert (dec_ok src limit (Dec 0 0 0 false 0 [])) as Hd.
  { unfold dec_ok. cbn [d_in d_flagCount d_dst]. split_and!; [lia..|]. intros. change (0 <= limit). lia. }
  pose proof (decompress_loop_on (S (length src)) src limit _ Hd) as H'. cbn [d_in] in H'.
  specialize (H' ltac:(unfold zlen; lia)).
  unfold Decompress. destruct (decompress_loop _ _ _ _) as [dst| | |]; try done.
  split; [done|]. intros dst' [= <-]. exact H'.
Qed.

(** The LZ77 decoder is total: on any bytes whatever, hostile ones included, it
    returns, with data or with an error, never an access out of range and never a loop
    that does not end; and what it returns under a limit is no longer than the limit. *)
Theorem lz77_decoder_total (src : list Z) (limit : Z) :
  settled (Decompress src limit) /\
  (forall dst, Decompress src limit = Ok dst -> 0 < limit -> zlen dst <= limit).
Proof. apply Decompress_total. Qed.

(** ** Witness *)
Lemma lz77_roundtrip_witness :
  exists c, Compress [97; 98; 99; 97; 98; 99; 97; 98; 99] = Ok c /\
    Decompress c 9 = Ok [97; 98; 99; 97; 98; 99; 97; 98; 99].
Proof. apply (lz77_roundtrip [97; 98; 99; 97; 98; 99; 97; 98; 99] 9). right. reflexivity || (vm_compute; discriminate). Defined.

End Lz77.
