(* ===== verification/Lznt1.v ===== *)
(** [compress/lznt1/lznt1.go]: the LZNT1 codec of [MS-XCA].

    The input is cut into chunks of 4096 bytes, each behind a header of its own; a
    compressed chunk is a row of groups of up to eight items, literals or tuples,
    and how a tuple splits its sixteen bits between offset and length moves as the
    chunk fills.  As in [Lz77] every access goes through [index], [store] or
    [slice].  Fuel: the encoder's loops advance by at least one byte a turn; the
    decoder consumes at least one input byte a group and two a chunk; the adaptive
    loop doubles its threshold, so that a logarithm of the length bounds it. *)
From S2P Require Import Prelude Bytes BackRef.

Module Lznt1.

Inductive ntErr := ErrUnexpectedEOF | ErrInvalidHeader | ErrInvalidOffset | ErrInputTooShort | ErrOutputTooLong.
#[export] Instance ntErr_eq_dec : EqDecision ntErr.
Proof. solve_decision. Defined.

Abbreviation out := (outcome ntErr).

Definition chunkSize : Z := 4096.
Definition minMatch : Z := 3.
Definition maxMatch : Z := 4098.
Definition maxSearchDepth : nat := 16.
Definition hashMask : Z := 0xfff.
Definition emptyEntry : Z := 0xffff.
Definition headerCompressed : Z := 0xb000.
Definition headerRaw : Z := 0x3000.
Definition headerCompressedFlag : Z := 0x8000.
Definition tagGroupSize : Z := 8.
Definition initialSplit : Z := 12.
Definition initialThreshold : Z := 16.

(** ** The tag groups *)
Record tagAccumulator := Tag {
  tagByte : Z; itemCount : Z; buffer : list Z; bufferLength : Z;
}.
Definition tag_init : tagAccumulator := Tag 0 0 (replicate 16 0) 0.

Definition flush (ta : tagAccumulator) (output : list Z) : out (tagAccumulator * list Z) :=
  if 0 <? itemCount ta then
    items ← slice (buffer ta) 0 (bufferLength ta);
    mret (Tag 0 0 (buffer ta) 0, (output ++ [tagByte ta]) ++ items)
  else mret (ta, output).

Definition commitItem (ta : tagAccumulator) (output : list Z) : out (tagAccumulator * list Z) :=
  let ta := Tag (tagByte ta) (itemCount ta + 1) (buffer ta) (bufferLength ta) in
  if itemCount ta =? 8 then flush ta output else mret (ta, output).

Definition pushLiteral (b : Z) (ta : tagAccumulator) (output : list Z) : out (tagAccumulator * list Z) :=
  buf ← store (buffer ta) (bufferLength ta) b;
  commitItem (Tag (tagByte ta) (itemCount ta) buf (bufferLength ta + 1)) output.

Definition pushTuple (tuple : Z) (ta : tagAccumulator) (output : list Z) : out (tagAccumulator * list Z) :=
  let tag := tagByte ta .| u8 (1 << itemCount ta) in
  buf ← store (buffer ta) (bufferLength ta) (u8 tuple);
  buf ← store buf (bufferLength ta + 1) (u8 (tuple >> 8));
  commitItem (Tag tag (itemCount ta) buf (bufferLength ta + 2)) output.

(** ** The hash chains *)
Record context := Ctx { c_head : list Z; c_next : list Z }.

Definition newContext : context :=
  Ctx (replicate (Z.to_nat chunkSize) emptyEntry) (replicate (Z.to_nat chunkSize) emptyEntry).
Definition reset (c : context) : context :=
  Ctx (replicate (length (c_head c)) emptyEntry) (c_next c).

Definition hash3 (b : list Z) : out Z :=
  b0 ← index b 0; b1 ← index b 1; b2 ← index b 2;
  mret (((b0 << 6) .^ (b1 << 3) .^ b2) .& hashMask).

Definition update (input : list Z) (idx : Z) (c : context) : out context :=
  if idx + minMatch <=? zlen input then
    b ← slice input idx (idx + 3);
    h ← hash3 b;
    hd ← index (c_head c) h;
    next ← store (c_next c) idx hd;
    head ← store (c_head c) h (u16 idx);
    mret (Ctx head next)
  else mret c.

(** ** Matching *)

(** [for i < limit && a[i] == b[i] { i++ }]. *)
Fixpoint commonPrefix_loop (fuel : nat) (a b : list Z) (i limit : Z) : out Z :=
  match fuel with
  | O => Stuck
  | S fuel =>
      if i <? limit then
        x ← index a i; y ← index b i;
        if x =? y then commonPrefix_loop fuel a b (i + 1) limit else mret i
      else mret i
  end.
Definition commonPrefixLen (a b : list Z) (max : Z) : out Z :=
  let limit := Z.min (Z.min (zlen a) (zlen b)) max in
  commonPrefix_loop (S (Z.to_nat limit)) a b 0 limit.

(** The search along a hash chain; the fuel is what is left of [maxSearchDepth]. *)
Fixpoint search (depth : nat) (chunk next : list Z) (inIdx maxOffset candidate bestLen bestOff : Z) : out (Z * Z) :=
  match depth with
  | O => mret (bestLen, bestOff)
  | S depth =>
      if candidate =? emptyEntry then mret (bestLen, bestOff) else
      if candidate >=? inIdx then mret (bestLen, bestOff) else
      let dist := inIdx - candidate in
      if dist >=? maxOffset then mret (bestLen, bestOff) else
      same ← (if inIdx + bestLen <? zlen chunk then
                x ← index chunk (candidate + bestLen); y ← index chunk (inIdx + bestLen); mret (x =? y)
              else mret false);
      if (same : bool) then
        a ← slice chunk inIdx (zlen chunk);
        b ← slice chunk candidate (zlen chunk);
        matchLen ← commonPrefixLen a b maxMatch;
        if (matchLen >=? minMatch) && (matchLen >? bestLen) then
          if matchLen >=? maxMatch then mret (maxMatch, dist)
          else c' ← index next candidate; search depth chunk next inIdx maxOffset c' matchLen dist
        else c' ← index next candidate; search depth chunk next inIdx maxOffset c' bestLen bestOff
      else c' ← index next candidate; search depth chunk next inIdx maxOffset c' bestLen bestOff
  end.

Definition findBest (chunk : list Z) (c : context) (inIdx maxOffset : Z) : out (Z * Z) :=
  if inIdx + minMatch <=? zlen chunk then
    b ← slice chunk inIdx (inIdx + 3);
    hash ← hash3 b;
    candidate ← index (c_head c) hash;
    search maxSearchDepth chunk (c_next c) inIdx maxOffset candidate 0 0
  else mret (0, 0).

(** ** The adaptive split *)

(** [for cur > threshold { if split > 0 { split-- }; threshold <<= 1 }]: the
    encoder's own loop, on its split and threshold. *)
Fixpoint adapt_loop (fuel : nat) (cur split threshold : Z) : out (Z * Z) :=
  match fuel with
  | O => Stuck
  | S fuel =>
      if cur >? threshold then
        adapt_loop fuel cur (if 0 <? split then split - 1 else split) (threshold << 1)
      else mret (split, threshold)
  end.
Definition adaptFuel (cur : Z) : nat := S (S (Z.to_nat (Z.log2 cur))).

(** The decoder's, which keeps the mask beside them. *)
Fixpoint updateAdaptiveState_loop (fuel : nat) (cur threshold split mask : Z) : out (Z * Z * Z) :=
  match fuel with
  | O => Stuck
  | S fuel =>
      if cur >? threshold then
        let '(split, mask) := if 0 <? split then (split - 1, (1 << (split - 1)) - 1) else (split, mask) in
        updateAdaptiveState_loop fuel cur (threshold << 1) split mask
      else mret (threshold, split, mask)
  end.
Definition updateAdaptiveState (cur threshold split mask : Z) : out (Z * Z * Z) :=
  updateAdaptiveState_loop (adaptFuel cur) cur threshold split mask.

(** ** The encoder *)
Record enc := Enc {
  e_ctx : context; e_ta : tagAccumulator; e_out : list Z;
  e_blob : Z; e_split : Z; e_threshold : Z;   (* blobOutLen and the adaptive state *)
  e_in : Z;
}.

(** [for i := 0; i < bestLen; i++ { ctx.update(chunk, inIdx); inIdx++ }]. *)
Fixpoint consume (k : nat) (chunk : list Z) (inIdx : Z) (c : context) : out (context * Z) :=
  match k with
  | O => mret (c, inIdx)
  | S k => c ← update chunk inIdx c; consume k chunk (inIdx + 1) c
  end.

(** Step 2 of a turn: a match or a literal, and how many bytes of input it stands
    for. *)
Definition encodeItem (chunk : list Z) (bestLen bestOff : Z) (e : enc) : out (context * tagAccumulator * list Z * Z * Z) :=
  if bestLen >=? minMatch then
    let maxLenEncodable := (1 << e_split e) + 2 in
    let bestLen := if bestLen >? maxLenEncodable then maxLenEncodable else bestLen in
    let tuple := u16 (((bestOff - 1) << e_split e) .| (bestLen - 3)) in
    r ← pushTuple tuple (e_ta e) (e_out e);
    ci ← consume (Z.to_nat bestLen) chunk (e_in e) (e_ctx e);
    mret (ci.1, r.1, r.2, ci.2, e_blob e + bestLen)
  else
    b ← index chunk (e_in e);
    r ← pushLiteral b (e_ta e) (e_out e);
    c ← update chunk (e_in e) (e_ctx e);
    mret (c, r.1, r.2, e_in e + 1, e_blob e + 1).

Definition compress_turn (chunk : list Z) (e : enc) : out enc :=
  let maxOffset := 1 << (16 - e_split e) in
  best ← findBest chunk (e_ctx e) (e_in e) maxOffset;
  r ← encodeItem chunk best.1 best.2 e;
  let '(c, ta, output, inIdx, blob) := r in
  st ← adapt_loop (adaptFuel blob) blob (e_split e) (e_threshold e);
  mret (Enc c ta output blob st.1 st.2 inIdx).

Fixpoint compressChunk_loop (fuel : nat) (chunk : list Z) (e : enc) : out (list Z * context) :=
  match fuel with
  | O => Stuck
  | S fuel =>
      if e_in e <? zlen chunk then e ← compress_turn chunk e; compressChunk_loop fuel chunk e
      else r ← flush (e_ta e) (e_out e); mret (r.2, e_ctx e)
  end.

(** The context is shared by the chunks of a stream: what [reset] leaves of it
    goes from one to the next. *)
Definition compressChunk (chunk output : list Z) (c : context) : out (list Z * context) :=
  compressChunk_loop (S (length chunk)) chunk (Enc (reset c) tag_init output 0 12 16 0).

Definition encodeHeader (flag size : Z) : Z := flag .| (u16 (size - 1) .& hashMask).

(** One chunk of the stream, behind its header. *)
Definition compress_step (src : list Z) (srcPos : Z) (dst : list Z) (c : context) : out (Z * list Z * context) :=
  let chunkLen := Z.min (zlen src - srcPos) chunkSize in
  chunk ← slice src srcPos (srcPos + chunkLen);
  let startOut := zlen dst in
  r ← compressChunk chunk (dst ++ [0; 0]) c;
  let '(dst', c) := r in
  let compressedLen := zlen dst' - startOut - 2 in
  if compressedLen <? zlen chunk then
    let header := encodeHeader headerCompressed compressedLen in
    d ← store dst' startOut (u8 header);
    d ← store d (startOut + 1) (u8 (header >> 8));
    mret (srcPos + chunkLen, d, c)
  else
    d ← slice dst' 0 startOut;
    let header := encodeHeader headerRaw (zlen chunk) in
    mret (srcPos + chunkLen, (d ++ [u8 header; u8 (header >> 8)]) ++ chunk, c).

Fixpoint compress_loop (fuel : nat) (src : list Z) (srcPos : Z) (dst : list Z) (c : context) : out (list Z) :=
  match fuel with
  | O => Stuck
  | S fuel =>
      if srcPos <? zlen src then
        r ← compress_step src srcPos dst c;
        let '(srcPos, dst, c) := r in compress_loop fuel src srcPos dst c
      else mret dst
  end.

Definition Compress (src : list Z) : out (list Z) :=
  compress_loop (S (length src)) src 0 [] newContext.

(** ** The decoder *)
Definition applyMatch (dst : list Z) (len offset : Z) : out (list Z) :=
  if offset >? zlen dst then Err ErrInvalidOffset
  else if offset =? 1 then
    lastByte ← index dst (zlen dst - 1);
    mret (dst ++ replicate (Z.to_nat len) lastByte)
  else copyMatch (Z.to_nat len) (zlen dst - offset) dst.

Record dec := Dec { d_in : Z; d_dst : list Z; d_threshold : Z; d_split : Z; d_mask : Z }.

(** The adaptive update of a decoder that now stands at [i] with [dst]. *)
Definition advance (startOutLen i : Z) (dst : list Z) (d : dec) : out dec :=
  r ← updateAdaptiveState (zlen dst - startOutLen) (d_threshold d) (d_split d) (d_mask d);
  let '(t, s, m) := r in mret (Dec i dst t s m).

(** One item of a group: [inr] is the early return. *)
Definition decodeItem (src : list Z) (limit startOutLen tag i : Z) (d : dec) : out (dec + list Z) :=
  let inIdx := d_in d in
  r ← (if negb ((tag >> i) .& 1 =? 0) then
         if inIdx + 2 >? zlen src then Err ErrUnexpectedEOF else
         tuple ← get_le src inIdx 2;
         let len := (tuple .& d_mask d) + 3 in
         let offset := (tuple >> d_split d) + 1 in
         dst ← applyMatch (d_dst d) len offset;
         if (0 <? limit) && (zlen dst >? limit) then Err ErrOutputTooLong
         else mret (inl (inIdx + 2, dst))
       else if inIdx >=? zlen src then mret (inr (d_dst d))
       else b ← index src inIdx; mret (inl (inIdx + 1, d_dst d ++ [b])));
  match r with
  | inr dst => mret (inr dst)
  | inl (inIdx, dst) =>
      d ← advance startOutLen inIdx dst d;
      if d_in d >=? zlen src then mret (inr (d_dst d)) else mret (inl d)
  end.

(** The items [i], ..., [i + n - 1] of a group. *)
Fixpoint decodeGroup (n : nat) (src : list Z) (limit startOutLen tag i : Z) (d : dec) : out (dec + list Z) :=
  match n with
  | O => mret (inl d)
  | S n =>
      r ← decodeItem src limit startOutLen tag i d;
      match r with
      | inr dst => mret (inr dst)
      | inl d => decodeGroup n src limit startOutLen tag (i + 1) d
      end
  end.

(** A turn of the loop of a block: a group, by the fast path of eight literals or
    an item at a time. *)
Definition decodeTurn (src : list Z) (limit startOutLen : Z) (d : dec) : out (dec + list Z) :=
  tag ← index src (d_in d);
  let inIdx := d_in d + 1 in
  if (tag =? 0) && (inIdx + tagGroupSize <=? zlen src) then
    lits ← slice src inIdx (inIdx + tagGroupSize);
    d ← advance startOutLen (inIdx + tagGroupSize) (d_dst d ++ lits) d;
    mret (inl d)
  else decodeGroup 8 src limit startOutLen tag 0 (Dec inIdx (d_dst d) (d_threshold d) (d_split d) (d_mask d)).

Fixpoint decompressBlock_loop (fuel : nat) (src : list Z) (limit startOutLen : Z) (d : dec) : out (list Z) :=
  match fuel with
  | O => Stuck
  | S fuel =>
      if d_in d <? zlen src then
        r ← decodeTurn src limit startOutLen d;
        match r with
        | inr dst => mret dst
        | inl d => decompressBlock_loop fuel src limit startOutLen d
        end
      else mret (d_dst d)
  end.

Definition decompressBlock (src dst : list Z) (limit : Z) : out (list Z) :=
  decompressBlock_loop (S (length src)) src limit (zlen dst)
    (Dec 0 dst initialThreshold initialSplit ((1 << initialSplit) - 1)).

(** One chunk of the stream: [inr] ends it. *)
Definition decompress_step (src : list Z) (limit inPos : Z) (dst : list Z) : out (Z * list Z + list Z) :=
  last ← (if inPos + 1 =? zlen src then b ← index src inPos; mret (b =? 0) else mret false);
  if (last : bool) then mret (inr dst)
  else if inPos + 2 >? zlen src then Err ErrUnexpectedEOF
  else
    header ← get_le src inPos 2;
    let inPos := inPos + 2 in
    if header =? 0 then mret (inr dst)
    else
      let size := u16 ((header .& hashMask) + 1) in
      let isCompressed := negb (header .& headerCompressedFlag =? 0) in
      if inPos + size >? zlen src then Err ErrInputTooShort
      else
        block ← slice src inPos (inPos + size);
        dst ← (if isCompressed then decompressBlock block dst limit else mret (dst ++ block));
        if (0 <? limit) && (zlen dst >? limit) then Err ErrOutputTooLong
        else mret (inl (inPos + size, dst)).

Fixpoint decompress_loop (fuel : nat) (src : list Z) (limit inPos : Z) (dst : list Z) : out (list Z) :=
  match fuel with
  | O => Stuck
  | S fuel =>
      if inPos <? zlen src then
        r ← decompress_step src limit inPos dst;
        match r with
        | inr dst => mret dst
        | inl (inPos, dst) => decompress_loop fuel src limit inPos dst
        end
      else mret dst
  end.

Definition Decompress (src : list Z) (limit : Z) : out (list Z) :=
  decompress_loop (S (length src)) src limit 0 [].

#[local] Arguments Z.mul : simpl never.
#[local] Arguments Z.add : simpl never.
#[local] Arguments Z.sub : simpl never.
#[local] Arguments Z.shiftl : simpl never.
#[local] Arguments Z.pow : simpl never.

(** ** The adaptive split in closed form

    After [pos] bytes of a chunk the offset of a tuple has [width pos] bits. *)
Definition width (pos : Z) : Z := Z.max 4 (Z.log2_up pos).
Definition splitOf (w : Z) : Z := Z.max 0 (16 - w).

Lemma width_mono p q : p <= q -> Z.max (width p) (Z.log2_up q) = width q.
Proof. intros H. unfold width. pose proof (Z.log2_up_le_mono p q H). lia. Qed.
Lemma width_bound p : p <= 4096 -> 4 <= width p <= 12.
Proof. intros H. unfold width. pose proof (Z.log2_up_le_mono p 4096 H) as Hm. change (Z.log2_up 4096) with 12 in Hm. lia. Qed.
Lemma width_le p : 0 <= p -> p <= 2 ^ width p.
Proof.
  intros Hp. destruct (Z.le_gt_cases p 1) as [H|H].
  - assert (2 ^ 4 <= 2 ^ width p) by (apply Z.pow_le_mono_r; unfold width; lia). lia.
  - pose proof (Z.log2_up_spec p H). assert (2 ^ Z.log2_up p <= 2 ^ width p) by (apply Z.pow_le_mono_r; unfold width; lia). lia.
Qed.
Lemma splitOf_step w : 4 <= w -> (if 0 <? splitOf w then splitOf w - 1 else splitOf w) = splitOf (w + 1).
Proof. intros Hw. unfold splitOf. destruct (Z.ltb_spec 0 (Z.max 0 (16 - w))); lia. Qed.
Lemma pow2_double w : 0 <= w -> (2 ^ w) << 1 = 2 ^ (w + 1).
Proof. intros. rewrite Z.shiftl_mul_pow2, <- Z.pow_add_r by lia. done. Qed.

Lemma le_pow2_log2_up cur w : 0 <= cur -> 0 <= w -> cur <= 2 ^ w <-> Z.log2_up cur <= w.
Proof.
  intros Hc Hw. destruct (Z.le_gt_cases cur 0) as [H0|H0].
  - rewrite Z.log2_up_eqn0 by lia. assert (0 < 2 ^ w) by lia. lia.
  - by rewrite Z.log2_up_le_pow2 by lia.
Qed.

(** The loop stops at the first power of two the length does not pass, and the
    fuel carries it there. *)
Lemma updateAdaptiveState_loop_spec fuel cur w :
  0 <= cur -> 4 <= w -> Z.log2_up cur - w < Z.of_nat fuel -> (1 <= fuel)%nat ->
  let w' := Z.max w (Z.log2_up cur) in
  updateAdaptiveState_loop fuel cur (2 ^ w) (splitOf w) (2 ^ splitOf w - 1)
    = Ok (2 ^ w', splitOf w', 2 ^ splitOf w' - 1) /\
  adapt_loop fuel cur (splitOf w) (2 ^ w) = Ok (splitOf w', 2 ^ w').
Proof.
  revert w. induction fuel as [|fuel IH]; intros w Hc Hw Hf H1; [lia|]. simpl.
  rewrite Z.gtb_ltb. pose proof (le_pow2_log2_up cur w Hc ltac:(lia)) as Hle.
  destruct (Z.ltb_spec (2 ^ w) cur) as [Hlt|Hge].
  - assert (w < Z.log2_up cur) by lia.
    destruct (IH (w + 1)) as [IH1 IH2]; [lia..|].
    replace (Z.max w (Z.log2_up cur)) with (Z.max (w + 1) (Z.log2_up cur)) by lia.
    rewrite pow2_double, splitOf_step by lia. split; [|done]. rewrite <- IH1.
    unfold splitOf. destruct (Z.ltb_spec 0 (Z.max 0 (16 - w))).
    + rewrite Z.shiftl_mul_pow2 by lia. rewrite Z.mul_1_l. do 2 f_equal; [lia|]. f_equal. f_equal. lia.
    + by replace (Z.max 0 (16 - (w + 1))) with (Z.max 0 (16 - w)) by lia.
  - replace (Z.max w (Z.log2_up cur)) with w by lia. done.
Qed.

Lemma adaptFuel_enough cur w : 0 <= cur -> 4 <= w -> Z.log2_up cur - w < Z.of_nat (adaptFuel cur).
Proof.
  intros Hc Hw. unfold adaptFuel. pose proof (Z.le_log2_up_succ_log2 cur). pose proof (Z.log2_nonneg cur). lia.
Qed.

Lemma updateAdaptiveState_spec cur w :
  0 <= cur -> 4 <= w -> let w' := Z.max w (Z.log2_up cur) in
  updateAdaptiveState cur (2 ^ w) (splitOf w) (2 ^ splitOf w - 1) = Ok (2 ^ w', splitOf w', 2 ^ splitOf w' - 1).
Proof.
  intros Hc Hw. unfold updateAdaptiveState.
  apply updateAdaptiveState_loop_spec; [done|done|by apply adaptFuel_enough|unfold adaptFuel; lia].
Qed.
Lemma adapt_spec p cur : 0 <= p <= cur ->
  adapt_loop (adaptFuel cur) cur (splitOf (width p)) (2 ^ width p) = Ok (splitOf (width cur), 2 ^ width cur).
Proof.
  intros H. assert (4 <= width p) by (unfold width; lia).
  destruct (updateAdaptiveState_loop_spec (adaptFuel cur) cur (width p)) as [_ ->];
    [lia|done|by apply adaptFuel_enough; lia|unfold adaptFuel; lia|]. by rewrite width_mono by lia.
Qed.

#[local] Arguments adapt_loop : simpl never.

(** Take a step whose outcome is known, and nothing else. *)
#[local] Ltac step_bind := cbv beta match delta [mbind outcome_bind mret outcome_ret].

(** ** Items

    The language between the two sides: a literal, or a tuple as it is written. *)
Inductive item := Lit (b : Z) | Tup (t : Z).

Definition itemBytes (it : item) : list Z :=
  match it with Lit b => [b] | Tup t => [u8 t; u8 (t >> 8)] end.
Definition itemBit (it : item) : Z := match it with Lit _ => 0 | Tup _ => 1 end.
Fixpoint tagOf (its : list item) : Z :=
  match its with [] => 0 | it :: its => itemBit it + 2 * tagOf its end.
Definition itemsBytes (its : list item) : list Z := its ≫= itemBytes.
Definition groupBytes (its : list item) : list Z := tagOf its :: itemsBytes its.

(** What items mean at a place of a chunk: the literals are its bytes there, the
    tuples the bytes they refer back to, written with the split of the place. *)
Inductive plays (chunk : list Z) : Z -> list item -> Z -> Prop :=
| plays_nil p : plays chunk p [] p
| plays_lit p b its q : chunk !! Z.to_nat p = Some b -> plays chunk (p + 1) its q ->
    plays chunk p (Lit b :: its) q
| plays_tup p off len its q : 1 <= off <= p -> off - 1 < 2 ^ width p -> 3 <= len < 3 + 2 ^ splitOf (width p) ->
    p + len <= zlen chunk -> repeats chunk p off len -> plays chunk (p + len) its q ->
    plays chunk p (Tup (len - 3 + (off - 1) * 2 ^ splitOf (width p)) :: its) q.

Lemma plays_app chunk p its q its' r : plays chunk p its q -> plays chunk q its' r -> plays chunk p (its ++ its') r.
Proof. induction 1; simpl; intros; [done|econstructor; eauto..]. Qed.
Lemma plays_app_inv chunk p its its' r :
  plays chunk p (its ++ its') r -> exists q, plays chunk p its q /\ plays chunk q its' r.
Proof.
  revert p. induction its as [|it its IH]; intros p H; simpl in *; [exists p; split; [constructor|done]|].
  inversion H as [|? ? ? ? Hb Hp|? off len ? ? ? ? ? ? ? Hp]; subst; destruct (IH _ Hp) as (z & G1 & G2); exists z.
  - split; [by apply plays_lit|done].
  - split; [by apply plays_tup|done].
Qed.
Lemma plays_mono chunk p its q : plays chunk p its q -> p <= q.
Proof. induction 1; lia. Qed.

Lemma itemBytes_len it : 1 <= zlen (itemBytes it) <= 2.
Proof. destruct it; simpl; by vm_compute. Qed.
Lemma itemsBytes_cons it its : itemsBytes (it :: its) = itemBytes it ++ itemsBytes its.
Proof. done. Qed.
Lemma itemsBytes_app a b : itemsBytes (a ++ b) = itemsBytes a ++ itemsBytes b.
Proof. apply bind_app. Qed.
Lemma itemsBytes_len its : zlen its <= zlen (itemsBytes its) <= 2 * zlen its.
Proof.
  induction its as [|it its IH]; [done|]. rewrite itemsBytes_cons, zlen_app, zlen_cons.
  pose proof (itemBytes_len it). lia.
Qed.

Lemma tagOf_bound its : 0 <= tagOf its < 2 ^ zlen its.
Proof.
  induction its as [|it its IH]; [done|]. rewrite zlen_cons, Z.pow_add_r by (pose proof (zlen_nonneg its); lia).
  simpl. change (2 ^ 1) with 2. destruct it; simpl; lia.
Qed.
Lemma tagOf_app a b : tagOf (a ++ b) = tagOf a + tagOf b * 2 ^ zlen a.
Proof.
  induction a as [|it a IH]; [change (tagOf b = 0 + tagOf b * 1); lia|simpl].
  rewrite IH, zlen_cons, Z.pow_add_r by (pose proof (zlen_nonneg a); lia). change (2 ^ 1) with 2. ring.
Qed.
(** The bit of an item, read where the decoder reads it. *)
Lemma tagOf_bit prev it rest : (tagOf (prev ++ it :: rest) >> zlen prev) .& 1 = itemBit it.
Proof.
  rewrite tagOf_app, Z.shiftr_div_pow2 by apply zlen_nonneg. pose proof (tagOf_bound prev).
  rewrite Z.div_add, Z.div_small by lia. rewrite (Z.land_ones _ 1) by lia. change (2 ^ 1) with 2. simpl.
  rewrite Z.add_0_l, (Z.mul_comm 2), Z.mod_add by lia. destruct it; done.
Qed.
Lemma tagOf_lits its : tagOf its = 0 -> Forall (fun it => exists b, it = Lit b) its.
Proof.
  induction its as [|it its IH]; [constructor|]. simpl. intros H. pose proof (tagOf_bound its).
  constructor; [|apply IH; destruct it; simpl in H; lia]. destruct it as [b|t]; [by exists b|simpl in H; lia].
Qed.

(** ** The accumulator holds the items of the group begun *)
Record holds (ta : tagAccumulator) (its : list item) : Prop := Holds {
  h_tag : tagByte ta = tagOf its;
  h_count : itemCount ta = zlen its;
  h_buffer : zlen (buffer ta) = 16;
  h_length : bufferLength ta = zlen (itemsBytes its);
  h_bytes : sub (buffer ta) 0 (bufferLength ta) = itemsBytes its;
}.

Lemma holds_init : holds tag_init [].
Proof. constructor; done. Qed.

Lemma flush_spec ta its o : holds ta its -> zlen its <= 8 ->
  exists ta', flush ta o = Ok (ta', o ++ match its with [] => [] | _ => groupBytes its end) /\ holds ta' [].
Proof.
  intros [H1 H2 H3 H4 H5] Hn. unfold flush. rewrite H2. pose proof (itemsBytes_len its).
  destruct its as [|it its]; [exists ta; simpl; rewrite app_nil_r; done|].
  rewrite zlen_cons in *. pose proof (zlen_nonneg its). destruct (Z.ltb_spec 0 (1 + zlen its)); [|lia].
  rewrite slice_Ok, H5, H1 by lia. simpl. eexists. split; [by rewrite <- app_assoc|]. by constructor.
Qed.

(** What pushing an item onto a group comes to. *)
Definition pushed (its : list item) (o : list Z) (r : out (tagAccumulator * list Z)) : Prop :=
  exists ta', (if decide (zlen its = 8) then r = Ok (ta', o ++ groupBytes its) /\ holds ta' []
               else r = Ok (ta', o) /\ holds ta' its).

Lemma commitItem_spec ta its o : holds (Tag (tagByte ta) (itemCount ta + 1) (buffer ta) (bufferLength ta)) its ->
  zlen its <= 8 -> pushed its o (commitItem ta o).
Proof.
  intros H Hn. unfold commitItem, pushed. simpl. pose proof (h_count _ _ H) as Hc. simpl in Hc.
  destruct (decide (zlen its = 8)) as [He|He], (Z.eqb_spec (itemCount ta + 1) 8); try lia; [|eauto].
  destruct (flush_spec _ _ o H Hn) as (ta' & -> & Ht). exists ta'. destruct its; done.
Qed.

Lemma sub_insert_snoc (l : list Z) n x : 0 <= n < zlen l -> sub (<[Z.to_nat n := x]> l) 0 (n + 1) = sub l 0 n ++ [x].
Proof.
  intros Hn. unfold sub. rewrite !drop_0, !Z.sub_0_r. replace (Z.to_nat (n + 1)) with (S (Z.to_nat n)) by lia.
  rewrite (take_S_r _ _ x).
  - by rewrite take_insert_ge by lia.
  - apply list_lookup_insert_eq. unfold zlen in Hn. lia.
Qed.

Lemma pushLiteral_spec b ta its o : holds ta its -> zlen its < 8 ->
  pushed (its ++ [Lit b]) o (pushLiteral b ta o).
Proof.
  intros [H1 H2 H3 H4 H5] Hn. pose proof (itemsBytes_len its). pose proof (zlen_nonneg its).
  unfold pushLiteral. rewrite store_ok by lia. simpl. apply commitItem_spec; [|rewrite zlen_app; simpl; change (zlen [Lit b]) with 1; lia].
  constructor; simpl.
  - rewrite tagOf_app, H1. simpl. lia.
  - by rewrite zlen_app, H2.
  - by rewrite zlen_insert.
  - by rewrite itemsBytes_app, zlen_app, H4.
  - rewrite sub_insert_snoc by lia. by rewrite H5, itemsBytes_app.
Qed.

Lemma pushTuple_spec t ta its o : holds ta its -> zlen its < 8 ->
  pushed (its ++ [Tup t]) o (pushTuple t ta o).
Proof.
  intros [H1 H2 H3 H4 H5] Hn. pose proof (itemsBytes_len its). pose proof (zlen_nonneg its).
  unfold pushTuple. rewrite store_ok by lia. simpl. rewrite store_ok by (rewrite zlen_insert; lia). simpl.
  apply commitItem_spec; [|rewrite zlen_app; change (zlen [Tup t]) with 1; lia].
  constructor; simpl.
  - rewrite tagOf_app, H1, H2. simpl. pose proof (tagOf_bound its).
    assert (u8 (1 << zlen its) = 1 << zlen its) as ->.
    { unfold u8. rewrite Z.shiftl_mul_pow2, Z.mul_1_l by lia. apply Z.mod_small.
      assert (2 ^ zlen its <= 2 ^ 7) by (apply Z.pow_le_mono_r; lia). lia. }
    rewrite lor_shiftl_add by lia. lia.
  - by rewrite zlen_app, H2.
  - by rewrite !zlen_insert.
  - by rewrite itemsBytes_app, zlen_app, H4.
  - replace (bufferLength ta + 2) with (bufferLength ta + 1 + 1) by lia.
    rewrite sub_insert_snoc by (rewrite zlen_insert; lia). rewrite sub_insert_snoc by lia.
    by rewrite H5, itemsBytes_app, <- app_assoc.
Qed.

(** ** Reading back *)
Lemma get_le16 pre v rest : 0 <= v < 2 ^ 16 ->
  @get_le ntErr (pre ++ [u8 v; u8 (v >> 8)] ++ rest) (zlen pre) 2 = Ok v.
Proof.
  intros Hv. pose proof (zlen_nonneg pre). pose proof (zlen_nonneg rest).
  rewrite get_le_Ok by (rewrite ?zlen_app; change (zlen [u8 v; u8 (v >> 8)]) with 2; lia).
  unfold sub. rewrite Z.add_simpl_l. unfold zlen. rewrite Nat2Z.id, drop_app_length.
  rewrite take_app_length'; [|done].
  rewrite <- (le_dec_enc_small 2 v) at 3 by done.
  rewrite !le_enc_S, shiftr_8. done.
Qed.

Lemma sub_app_prefix (d l : list Z) p : 0 <= p -> sub (d ++ l) 0 (zlen d + p) = d ++ sub l 0 p.
Proof.
  intros Hp. unfold sub. rewrite !drop_0, !Z.sub_0_r. unfold zlen.
  replace (Z.to_nat (Z.of_nat (length d) + p)) with (length d + Z.to_nat p)%nat by lia. by rewrite take_app_add.
Qed.
Lemma repeats_app (d l : list Z) p off len : 0 <= off <= p -> repeats l p off len -> repeats (d ++ l) (zlen d + p) off len.
Proof.
  intros Ho H j Hj. unfold zlen. rewrite !lookup_app_r by lia.
  replace (Z.to_nat (Z.of_nat (length d) + p - off + j) - length d)%nat with (Z.to_nat (p - off + j)) by lia.
  replace (Z.to_nat (Z.of_nat (length d) + p + j) - length d)%nat with (Z.to_nat (p + j)) by lia. by apply H.
Qed.

(** The shortcut for runs changes nothing. *)
Lemma applyMatch_eq dst len off : 1 <= off ->
  applyMatch dst len off = if off >? zlen dst then Err ErrInvalidOffset else copyMatch (Z.to_nat len) (zlen dst - off) dst.
Proof.
  intros Ho. unfold applyMatch. rewrite Z.gtb_ltb. destruct (Z.ltb_spec (zlen dst) off); [done|].
  destruct (Z.eqb_spec off 1) as [->|]; [|done].
  destruct (@index_in_range _ ntErr dst (zlen dst - 1)) as (b & -> & Hb); [lia|]. simpl. symmetry.
  apply copyMatch_run. rewrite <- Hb. f_equal. unfold zlen in *. lia.
Qed.

Lemma applyMatch_repeats d chunk p off len :
  1 <= off <= p -> 0 <= len -> p + len <= zlen chunk -> repeats chunk p off len ->
  applyMatch (d ++ sub chunk 0 p) len off = Ok (d ++ sub chunk 0 (p + len)).
Proof.
  intros Ho Hl Hp Hr. pose proof (zlen_nonneg d). rewrite applyMatch_eq by lia.
  assert (zlen (d ++ sub chunk 0 p) = zlen d + p) as Hz by (rewrite zlen_app, zlen_sub; lia).
  rewrite Hz, Z.gtb_ltb. destruct (Z.ltb_spec (zlen d + p) off); [lia|].
  rewrite <- !sub_app_prefix by lia. rewrite Z.add_assoc.
  apply copyMatch_repeats; [lia|lia|rewrite zlen_app; lia|]. apply repeats_app; [lia|done].
Qed.

(** The decoder at [i] with the first [p] bytes of the chunk behind it. *)
Definition dec_at (d chunk : list Z) (p i : Z) : dec :=
  Dec i (d ++ sub chunk 0 p) (2 ^ width p) (splitOf (width p)) (2 ^ splitOf (width p) - 1).

Lemma advance_spec d chunk p q i j : 0 <= p <= q -> q <= zlen chunk ->
  advance (zlen d) i (d ++ sub chunk 0 q) (dec_at d chunk p j) = Ok (dec_at d chunk q i).
Proof.
  intros Hp Hq. unfold advance. simpl.
  replace (zlen (d ++ sub chunk 0 q) - zlen d) with q by (rewrite zlen_app, zlen_sub; lia).
  rewrite updateAdaptiveState_spec by (unfold width; lia). simpl. by rewrite width_mono by lia.
Qed.

Lemma tuple_spec p off len : p <= 4096 -> 1 <= off -> off - 1 < 2 ^ width p -> 3 <= len < 3 + 2 ^ splitOf (width p) ->
  let t := len - 3 + (off - 1) * 2 ^ splitOf (width p) in
  0 <= t < 2 ^ 16 /\ t .& (2 ^ splitOf (width p) - 1) = len - 3 /\ t >> splitOf (width p) = off - 1.
Proof.
  intros Hp Ho1 Ho2 Hl t. pose proof (width_bound p Hp) as Hw. set (s := splitOf (width p)) in *.
  assert (0 <= s /\ width p = 16 - s) as [Hs Hws] by (unfold s, splitOf; lia).
  assert (2 ^ 16 = 2 ^ width p * 2 ^ s) as He by (rewrite <- Z.pow_add_r by lia; f_equal; lia).
  unfold t. split_and!; [nia|nia| |].
  - replace (2 ^ s - 1) with (Z.ones s) by (rewrite Z.ones_equiv; lia). rewrite Z.land_ones by lia.
    rewrite Z.mod_add, Z.mod_small by lia. done.
  - rewrite Z.shiftr_div_pow2 by lia. rewrite Z.div_add, Z.div_small by lia. lia.
Qed.

Lemma plays_end chunk p its q : 0 <= p <= zlen chunk -> plays chunk p its q -> q <= zlen chunk.
Proof.
  intros Hp H. induction H as [|p b its q Hb _ IH|p off len its q Ho Ho2 Hl He Hr _ IH]; [lia| |apply IH; lia].
  apply lookup_lt_Some in Hb. apply IH. unfold zlen in *. lia.
Qed.

Section block.
Context (limit : Z) (d0 chunk : list Z).
Hypothesis chunk_small : zlen chunk <= 4096.
Hypothesis limit_fits : limit <= 0 \/ zlen d0 + zlen chunk <= limit.

Lemma in_limit p : 0 <= p <= zlen chunk -> (0 <? limit) && (zlen (d0 ++ sub chunk 0 p) >? limit) = false.
Proof using limit_fits.
  intros Hp. rewrite zlen_app, zlen_sub by lia. rewrite Z.gtb_ltb.
  apply andb_false_iff. destruct limit_fits; [left|right]; apply Z.ltb_ge; lia.
Qed.

(** What an item or a group leads to: the rest of the block, or its end. *)
Definition goes_on (rest : list Z) (q i : Z) (r : out (dec + list Z)) : Prop :=
  r = match rest with [] => Ok (inr (d0 ++ sub chunk 0 q)) | _ => Ok (inl (dec_at d0 chunk q i)) end.

Lemma decodeItem_spec tag i pre it rest p q :
  0 <= p <= zlen chunk -> plays chunk p [it] q -> (tag >> i) .& 1 = itemBit it ->
  goes_on rest q (zlen (pre ++ itemBytes it))
    (decodeItem (pre ++ itemBytes it ++ rest) limit (zlen d0) tag i (dec_at d0 chunk p (zlen pre))).
Proof using chunk_small limit_fits.
  intros Hp Hpl Hbit. unfold goes_on, decodeItem. rewrite Hbit. cbn [dec_at d_in d_dst d_mask d_split].
  pose proof (zlen_nonneg pre) as Hnp. pose proof (zlen_nonneg rest) as Hnr.
  assert (forall i', zlen (pre ++ itemBytes it) = i' ->
    (d ← advance (zlen d0) i' (d0 ++ sub chunk 0 q) (dec_at d0 chunk p (zlen pre));
     if d_in d >=? zlen (pre ++ itemBytes it ++ rest) then mret (inr (d_dst d)) else mret (inl d)) =
    match rest with [] => Ok (inr (d0 ++ sub chunk 0 q)) | _ => Ok (inl (dec_at d0 chunk q i')) end) as Hgo.
  { intros i' <-. pose proof (plays_mono _ _ _ _ Hpl). pose proof (plays_end _ _ _ _ Hp Hpl).
    rewrite advance_spec by lia. simpl. rewrite !zlen_app, Z.geb_leb.
    destruct rest as [|x rest]; [rewrite zlen_nil|rewrite zlen_cons; pose proof (zlen_nonneg rest)];
      match goal with |- context [?a <=? ?b] => destruct (Z.leb_spec a b) end; lia || done. }
  inversion Hpl as [|? b ? ? Hb Hn|? off len ? ? Ho Ho2 Hl He Hr Hn]; subst; inversion Hn; subst; simpl.
  - assert (@index ntErr Z (pre ++ b :: rest) (zlen pre) = Ok b) as ->.
    { rewrite index_app_r by lia. by rewrite Z.sub_diag. }
    rewrite zlen_app, zlen_cons, Z.geb_leb. destruct (Z.leb_spec (zlen pre + (1 + zlen rest)) (zlen pre)); [lia|].
    simpl. rewrite <- app_assoc, <- sub_snoc by (done || lia). rewrite <- Hgo by reflexivity.
    simpl. by rewrite !zlen_app, !zlen_cons.
  - destruct (tuple_spec p off len) as (Ht & Hlen & Hoff); [lia..|].
    set (t := len - 3 + (off - 1) * 2 ^ splitOf (width p)) in *.
    rewrite zlen_app, !zlen_cons, Z.gtb_ltb. destruct (Z.ltb_spec (zlen pre + (1 + (1 + zlen rest))) (zlen pre + 2)); [lia|].
    pose proof (get_le16 pre t rest Ht) as Hg. simpl in Hg. rewrite Hg. simpl. rewrite Hlen, Hoff.
    replace (len - 3 + 3) with len by lia. replace (off - 1 + 1) with off by lia.
    rewrite applyMatch_repeats by (done || lia). simpl. rewrite in_limit by lia. simpl.
    rewrite <- Hgo by reflexivity. simpl. by rewrite !zlen_app, !zlen_cons.
Qed.

Lemma decodeGroup_spec its n prev pre rest p q :
  0 <= p <= zlen chunk -> plays chunk p its q -> its <> [] -> (length its <= n)%nat -> (rest <> [] -> length its = n) ->
  goes_on rest q (zlen (pre ++ itemsBytes its))
    (decodeGroup n (pre ++ itemsBytes its ++ rest) limit (zlen d0) (tagOf (prev ++ its)) (zlen prev)
       (dec_at d0 chunk p (zlen pre))).
Proof using chunk_small limit_fits.
  revert n prev pre p. induction its as [|it its IH]; intros n prev pre p Hp Hpl Hne Hn Hfull; [done|].
  destruct n as [|n]; [simpl in Hn; lia|]. change (it :: its) with ([it] ++ its) in Hpl.
  apply plays_app_inv in Hpl as (r & Hit & Hpl). pose proof (plays_mono _ _ _ _ Hit). pose proof (plays_end _ _ _ _ Hp Hit).
  rewrite itemsBytes_cons, <- (app_assoc _ _ rest). cbn [decodeGroup].
  pose proof (decodeItem_spec (tagOf (prev ++ it :: its)) (zlen prev) pre it (itemsBytes its ++ rest) p r Hp Hit
    (tagOf_bit _ _ _)) as Hd.
  unfold goes_on in Hd. rewrite Hd. clear Hd. destruct its as [|it' its].
  - inversion Hpl; subst. unfold goes_on. simpl. rewrite app_nil_r. destruct rest as [|x rest]; [done|].
    simpl in Hfull. destruct n; [done|]. specialize (Hfull ltac:(done)). lia.
  - assert (itemsBytes (it' :: its) ++ rest = [] -> False) as Hnn by (destruct it'; done).
    destruct (itemsBytes (it' :: its) ++ rest) as [|x l] eqn:Hl; [done|]. simpl mbind. cbv match.
    specialize (IH n (prev ++ [it]) (pre ++ itemBytes it) r ltac:(lia) Hpl ltac:(done) ltac:(simpl in *; lia)).
    rewrite <- !app_assoc in IH. rewrite (zlen_app prev) in IH.
    apply IH. intros Hr. specialize (Hfull Hr). simpl in *. lia.
Qed.

#[local] Arguments decodeGroup : simpl never.

Lemma lits_spec its p q : 0 <= p -> Forall (fun it => exists b, it = Lit b) its -> plays chunk p its q ->
  q = p + zlen its /\ itemsBytes its = sub chunk p q.
Proof using.
  intros Hp Hl Hpl. revert Hl Hp. induction Hpl as [p|p b its q Hb Hpl IH|p off len its q Ho Ho2 Hlen He Hr Hpl IH];
    intros Hl Hp.
  - rewrite zlen_nil, sub_empty. split; [lia|done].
  - destruct (IH ltac:(by inversion Hl) ltac:(lia)) as [H1 H2]. rewrite zlen_cons. split; [lia|].
    rewrite itemsBytes_cons, H2. pose proof (plays_mono _ _ _ _ Hpl). rewrite <- (sub_app chunk p (p + 1) q) by lia.
    f_equal. rewrite (sub_snoc chunk p p b), sub_empty by (done || lia). done.
  - inversion Hl as [|? ? [b Hb] _]. done.
Qed.

(** A group, by whichever path: the loop goes on after it or, at the end of the
    block, may end there. *)
Lemma decodeTurn_spec g pre rest p q :
  0 <= p <= zlen chunk -> plays chunk p g q -> g <> [] -> (length g <= 8)%nat -> (rest <> [] -> length g = 8%nat) ->
  let r := decodeTurn (pre ++ groupBytes g ++ rest) limit (zlen d0) (dec_at d0 chunk p (zlen pre)) in
  r = Ok (inl (dec_at d0 chunk q (zlen (pre ++ groupBytes g)))) \/ (rest = [] /\ r = Ok (inr (d0 ++ sub chunk 0 q))).
Proof using chunk_small limit_fits.
  intros Hp Hpl Hne Hn Hfull r. unfold r, decodeTurn. cbn [dec_at d_in d_dst d_threshold d_split d_mask].
  pose proof (zlen_nonneg pre). pose proof (zlen_nonneg rest).
  assert (@index ntErr Z (pre ++ groupBytes g ++ rest) (zlen pre) = Ok (tagOf g)) as ->.
  { rewrite index_app_r by lia. by rewrite Z.sub_diag. }
  simpl mbind. destruct ((tagOf g =? 0) && _) eqn:Hfast.
  - apply andb_prop in Hfast as [Ht%Z.eqb_eq Hlen%Z.leb_le]. left.
    destruct (lits_spec g p q) as [Hq Hb]; [lia|by apply tagOf_lits|done|].
    pose proof (plays_end _ _ _ _ Hp Hpl). pose proof (zlen_nonneg g).
    assert (zlen (itemsBytes g) = zlen g) as Hbl by (rewrite Hb, zlen_sub; lia).
    unfold groupBytes in *. rewrite zlen_app, zlen_cons, zlen_app, Hbl in Hlen. unfold tagGroupSize in *.
    assert (zlen g = 8) as Hg.
    { unfold zlen in *. destruct rest as [|x rest]; [simpl in Hlen; lia|rewrite Hfull by done; done]. }
    rewrite slice_Ok by (rewrite ?zlen_app, ?zlen_cons, ?zlen_app, ?Hbl; lia).
    assert (sub (pre ++ tagOf g :: itemsBytes g ++ rest) (zlen pre + 1) (zlen pre + 1 + 8) = itemsBytes g) as ->.
    { unfold sub. replace (Z.to_nat (zlen pre + 1 + 8 - (zlen pre + 1))) with (length (itemsBytes g)) by (unfold zlen in *; lia).
      replace (Z.to_nat (zlen pre + 1)) with (length pre + 1)%nat by (unfold zlen; lia).
      rewrite <- drop_drop, drop_app_length. simpl. rewrite drop_0. by rewrite take_app_length. }
    simpl mbind. rewrite Hb, <- app_assoc, sub_app, (advance_spec d0 chunk p q) by lia.
    simpl. rewrite zlen_app, zlen_cons, zlen_sub by lia. do 3 f_equal. lia.
  - pose proof (decodeGroup_spec g 8 [] (pre ++ [tagOf g]) rest p q Hp Hpl Hne Hn Hfull) as Hg.
    unfold goes_on, groupBytes in *. rewrite <- !app_assoc, zlen_app in Hg. simpl ([] ++ _) in Hg. simpl ([_] ++ _) in Hg.
    change (zlen [tagOf g]) with 1 in Hg. unfold dec_at in Hg at 1. change (zlen []) with 0 in Hg.
    simpl ((tagOf g :: _) ++ _). rewrite Hg. destruct rest; [by right|by left].
Qed.

Definition lastBytes (g : list item) : list Z := match g with [] => [] | _ => groupBytes g end.
Definition groupsBytes (gs : list (list item)) : list Z := gs ≫= groupBytes.

Lemma decompressBlock_loop_spec gs last pre p q fuel :
  Forall (fun g => length g = 8%nat) gs -> (length last <= 8)%nat ->
  0 <= p <= zlen chunk -> plays chunk p (concat gs ++ last) q -> (length gs + length (lastBytes last) < fuel)%nat ->
  decompressBlock_loop fuel (pre ++ groupsBytes gs ++ lastBytes last) limit (zlen d0) (dec_at d0 chunk p (zlen pre))
    = Ok (d0 ++ sub chunk 0 q).
Proof using chunk_small limit_fits.
  intros Hgs Hlast. revert pre p fuel. induction Hgs as [|g gs Hg Hgs IH]; intros pre p fuel Hp Hpl Hf;
    (destruct fuel as [|fuel]; [lia|]); cbn [decompressBlock_loop];
    change (d_in (dec_at d0 chunk p (zlen pre))) with (zlen pre).
  - simpl in Hpl. change (groupsBytes [] ++ lastBytes last) with (lastBytes last). rewrite zlen_app. pose proof (zlen_nonneg pre). destruct last as [|it its].
    + inversion Hpl; subst. change (zlen (lastBytes [])) with 0. destruct (Z.ltb_spec (zlen pre) (zlen pre + 0)); [lia|done].
    + change (lastBytes (it :: its)) with (groupBytes (it :: its)). pose proof (zlen_nonneg (itemsBytes (it :: its))) as Hz.
      destruct (Z.ltb_spec (zlen pre) (zlen pre + zlen (groupBytes (it :: its)))) as [_|Hx];
        [|unfold groupBytes in Hx; rewrite zlen_cons in Hx; lia].
      pose proof (decodeTurn_spec (it :: its) pre [] p q Hp Hpl ltac:(done) Hlast ltac:(done)) as [Hd|[_ Hd]];
        cbv zeta in Hd; rewrite app_nil_r in Hd; rewrite Hd; [|done]. simpl mbind. cbv match.
      destruct fuel as [|fuel]; [simpl in Hf; lia|]. cbn [decompressBlock_loop dec_at d_in]. by rewrite Z.ltb_irrefl.
  - simpl concat in Hpl. rewrite <- app_assoc in Hpl. apply plays_app_inv in Hpl as (r & Hg' & Hpl).
    pose proof (plays_mono _ _ _ _ Hg'). pose proof (plays_end _ _ _ _ Hp Hg').
    change (groupsBytes (g :: gs)) with (groupBytes g ++ groupsBytes gs). rewrite <- (app_assoc (groupBytes g)).
    set (rest := groupsBytes gs ++ lastBytes last) in *.
    assert (zlen pre < zlen (pre ++ groupBytes g ++ rest)) as Hlt.
    { unfold groupBytes. rewrite !zlen_app, zlen_cons. pose proof (zlen_nonneg (itemsBytes g)).
      pose proof (zlen_nonneg rest). lia. }
    rewrite (proj2 (Z.ltb_lt _ _) Hlt).
    destruct (decodeTurn_spec g pre rest p r Hp Hg') as [Hd|[Hr Hd]]; [by destruct g|lia|done| |]; rewrite Hd.
    + cbv beta match delta [mbind outcome_bind]. rewrite (app_assoc pre). apply IH; [lia|done|simpl in Hf; lia].
    + simpl mbind. cbv match. unfold rest in Hr. apply app_eq_nil in Hr as [Hr1 Hr2].
      destruct gs; [|done]. destruct last; [|done]. by inversion Hpl.
Qed.
End block.

(** A block written as groups is read back as the bytes they play. *)
Lemma decompressBlock_spec limit d0 chunk gs last :
  zlen chunk <= 4096 -> limit <= 0 \/ zlen d0 + zlen chunk <= limit ->
  Forall (fun g => length g = 8%nat) gs -> (length last <= 8)%nat -> plays chunk 0 (concat gs ++ last) (zlen chunk) ->
  decompressBlock (groupsBytes gs ++ lastBytes last) d0 limit = Ok (d0 ++ chunk).
Proof.
  intros Hc Hl Hg Hn Hpl. rewrite <- (sub_full chunk). unfold decompressBlock.
  assert (Dec 0 d0 initialThreshold initialSplit ((1 << initialSplit) - 1) = dec_at d0 chunk 0 (@zlen Z [])) as ->.
  { unfold dec_at. rewrite sub_empty, app_nil_r. done. }
  apply (decompressBlock_loop_spec limit d0 chunk Hc Hl gs last [] 0); [done|done|pose proof (zlen_nonneg chunk); lia|done|].
  rewrite length_app. assert (length gs <= length (groupsBytes gs))%nat as Hgl.
  { clear -Hg. induction gs as [|g gs IH]; [done|]. inversion Hg; subst.
    change (groupsBytes (g :: gs)) with (groupBytes g ++ groupsBytes gs). rewrite length_app. specialize (IH ltac:(done)). simpl. lia. }
  lia.
Qed.

(** ** The encoder

    Of the hash chains only this is asked: that they have their size and name no
    negative position.  Whatever they propose is compared byte by byte. *)
Definition ctx_ok (c : context) : Prop :=
  zlen (c_head c) = chunkSize /\ zlen (c_next c) = chunkSize /\
  Forall (Z.le 0) (c_head c) /\ Forall (Z.le 0) (c_next c).

Lemma nt_hash3_ok b : zlen b = 3 -> exists h, hash3 b = Ok h /\ 0 <= h < chunkSize.
Proof.
  intros Hb. unfold hash3.
  destruct (@index_in_range _ ntErr b 0) as (b0 & -> & _); [lia|].
  destruct (@index_in_range _ ntErr b 1) as (b1 & -> & _); [lia|].
  destruct (@index_in_range _ ntErr b 2) as (b2 & -> & _); [lia|].
  eexists. split; [reflexivity|]. change hashMask with (Z.ones 12). rewrite Z.land_ones by lia.
  apply Z.mod_pos_bound. reflexivity.
Qed.

Lemma ctx_init_ok : ctx_ok newContext.
Proof.
  split_and!; cbn [newContext c_head c_next]; try (apply Forall_replicate; done);
    rewrite zlen_replicate; apply Z2Nat.id; done.
Qed.
Lemma reset_ok c : ctx_ok c -> ctx_ok (reset c).
Proof.
  intros (H1 & H2 & _ & H4). split_and!; cbn [reset c_head c_next]; [by rewrite zlen_replicate|done|by apply Forall_replicate|done].
Qed.

Lemma nt_update_ok input i c : 0 <= i -> zlen input <= chunkSize -> ctx_ok c ->
  exists c', update input i c = Ok c' /\ ctx_ok c'.
Proof.
  intros Hi Hn (H1 & H2 & H3 & H4). unfold update, minMatch.
  destruct (Z.leb_spec (i + 3) (zlen input)); [|by exists c].
  rewrite slice_Ok by lia. simpl. destruct (nt_hash3_ok (sub input i (i + 3))) as (h & -> & Hh); [rewrite zlen_sub; lia|].
  simpl. destruct (@index_in_range _ ntErr (c_head c) h) as (x & -> & Hx); [lia|]. simpl.
  rewrite store_ok by lia. simpl. rewrite store_ok by lia. simpl. eexists. split; [reflexivity|].
  split_and!; cbn [c_head c_next]; rewrite ?zlen_insert; [done|done|..].
  - apply Forall_insert; [done|]. unfold u16. pose proof (Z.mod_pos_bound i (2 ^ 16)). lia.
  - apply Forall_insert; [done|]. by eapply Forall_lookup_1 in Hx.
Qed.

Lemma nt_consume_ok k chunk i c : 0 <= i -> zlen chunk <= chunkSize -> ctx_ok c ->
  exists c', consume k chunk i c = Ok (c', i + Z.of_nat k) /\ ctx_ok c'.
Proof.
  revert i c. induction k as [|k IH]; intros i c Hi Hn Hc; simpl; [exists c; by rewrite Z.add_0_r|].
  destruct (nt_update_ok chunk i c Hi Hn Hc) as (c1 & -> & Hc1). simpl.
  destruct (IH (i + 1) c1) as (c2 & -> & Hc2); [lia|done|done|]. exists c2. split; [|done]. do 2 f_equal. lia.
Qed.

Lemma commonPrefix_loop_ok fuel a b i limit :
  0 <= i <= limit -> limit <= zlen a -> limit <= zlen b -> (Z.to_nat (limit - i) < fuel)%nat ->
  (forall j, 0 <= j < i -> a !! Z.to_nat j = b !! Z.to_nat j) ->
  exists n, commonPrefix_loop fuel a b i limit = Ok n /\ i <= n <= limit /\
    forall j, 0 <= j < n -> a !! Z.to_nat j = b !! Z.to_nat j.
Proof.
  revert i. induction fuel as [|fuel IH]; intros i Hi Ha Hb Hf Hs; [lia|]. simpl.
  destruct (Z.ltb_spec i limit); [|exists i; split_and!; [done|lia|lia|done]].
  destruct (@index_in_range _ ntErr a i) as (x & -> & Hx); [lia|]. simpl.
  destruct (@index_in_range _ ntErr b i) as (y & -> & Hy); [lia|]. simpl.
  destruct (Z.eqb_spec x y) as [->|]; [|exists i; split_and!; [done|lia|lia|done]].
  destruct (IH (i + 1)) as (n & H1 & H2 & H3); [lia..| |].
  - intros j Hj. destruct (decide (j = i)) as [->|]; [congruence|apply Hs; lia].
  - exists n. split_and!; [done|lia|lia|done].
Qed.

(** A match the encoder may write at a place. *)
Definition match_at (chunk : list Z) (pos maxOffset off len : Z) : Prop :=
  1 <= off <= pos /\ off < maxOffset /\ minMatch <= len <= maxMatch /\
  pos + len <= zlen chunk /\ repeats chunk pos off len.

Lemma commonPrefixLen_ok chunk pos c : 0 <= c < pos -> pos <= zlen chunk ->
  exists n, commonPrefixLen (sub chunk pos (zlen chunk)) (sub chunk c (zlen chunk)) maxMatch = Ok n /\
    0 <= n <= maxMatch /\ pos + n <= zlen chunk /\ repeats chunk pos (pos - c) n.
Proof.
  intros Hc Hp. unfold commonPrefixLen. rewrite !zlen_sub by lia.
  set (limit := Z.min (Z.min (zlen chunk - pos) (zlen chunk - c)) maxMatch).
  assert (0 <= limit) by (unfold limit, maxMatch; lia).
  destruct (commonPrefix_loop_ok (S (Z.to_nat limit)) (sub chunk pos (zlen chunk)) (sub chunk c (zlen chunk)) 0 limit)
    as (n & -> & Hn & Hs); [lia|rewrite zlen_sub by lia; lia..|lia|lia|].
  exists n. split_and!; [done|lia|lia|lia|]. intros j Hj. specialize (Hs j Hj). rewrite !lookup_sub in Hs by lia.
  replace (Z.to_nat (pos - (pos - c) + j)) with (Z.to_nat c + Z.to_nat j)%nat by lia.
  by replace (Z.to_nat (pos + j)) with (Z.to_nat pos + Z.to_nat j)%nat by lia.
Qed.

Lemma search_ok depth chunk next pos maxOffset c bestLen bestOff :
  0 <= pos < zlen chunk -> zlen chunk <= chunkSize -> zlen next = chunkSize -> Forall (Z.le 0) next -> 0 <= c ->
  bestLen = 0 \/ match_at chunk pos maxOffset bestOff bestLen ->
  exists len off, search depth chunk next pos maxOffset c bestLen bestOff = Ok (len, off) /\
    (len = 0 \/ match_at chunk pos maxOffset off len).
Proof.
  intros Hp Hsz Hn Hf. revert c bestLen bestOff.
  induction depth as [|depth IH]; intros c bl bo Hc Hb; cbn [search]; [eauto|].
  destruct (c =? emptyEntry); [eauto|]. rewrite !Z.geb_leb.
  destruct (Z.leb_spec pos c); [eauto|]. destruct (Z.leb_spec maxOffset (pos - c)); [eauto|].
  assert (exists c', @index ntErr Z next c = Ok c' /\ 0 <= c') as (c' & -> & Hc').
  { destruct (@index_in_range _ ntErr next c) as (c' & Hx1 & Hx2); [lia|]. exists c'. split; [done|].
    by eapply Forall_lookup_1 in Hx2. }
  assert (0 <= bl) by (destruct Hb as [->|(_ & _ & Hb & _)]; unfold minMatch in *; lia).
  assert (exists same : bool, (if pos + bl <? zlen chunk then
      x ← index chunk (c + bl); y ← index chunk (pos + bl); mret (x =? y) else mret false) = @Ok ntErr bool same) as (same & ->).
  { destruct (Z.ltb_spec (pos + bl) (zlen chunk)); [|by exists false].
    destruct (@index_in_range _ ntErr chunk (c + bl)) as (x & -> & _); [lia|]. simpl.
    destruct (@index_in_range _ ntErr chunk (pos + bl)) as (y & -> & _); [lia|]. simpl. by exists (x =? y). }
  simpl. destruct same; [|by apply IH]. rewrite !slice_Ok by lia. simpl.
  destruct (commonPrefixLen_ok chunk pos c) as (n & -> & Hn1 & Hn2 & Hr); [lia..|]. simpl. rewrite Z.geb_leb, Z.gtb_ltb.
  destruct (Z.leb_spec minMatch n), (Z.ltb_spec bl n); simpl; try (by apply IH).
  assert (match_at chunk pos maxOffset (pos - c) n) as Hm by (split_and!; done || lia).
  rewrite Z.geb_leb. destruct (Z.leb_spec maxMatch n); [|by apply IH; [|right]].
  exists maxMatch, (pos - c). split; [done|]. right. by replace maxMatch with n by lia.
Qed.
#[local] Arguments search : simpl never.

Lemma nt_findBest_ok chunk c pos maxOffset :
  0 <= pos < zlen chunk -> zlen chunk <= chunkSize -> ctx_ok c ->
  exists len off, findBest chunk c pos maxOffset = Ok (len, off) /\ (len = 0 \/ match_at chunk pos maxOffset off len).
Proof.
  intros Hp Hsz (H1 & H2 & H3 & H4). unfold findBest, minMatch.
  destruct (Z.leb_spec (pos + 3) (zlen chunk)); [|exists 0, 0; eauto].
  rewrite slice_Ok by lia. simpl. destruct (nt_hash3_ok (sub chunk pos (pos + 3))) as (h & -> & Hh); [rewrite zlen_sub; lia|].
  simpl. destruct (@index_in_range _ ntErr (c_head c) h) as (x & -> & Hx); [lia|]. simpl.
  apply search_ok; try done; [by eapply Forall_lookup_1 in Hx|by left].
Qed.

(** *** A chunk *)
Lemma groupsBytes_snoc gs g : groupsBytes (gs ++ [g]) = groupsBytes gs ++ groupBytes g.
Proof. unfold groupsBytes. rewrite bind_app. simpl. by rewrite app_nil_r. Qed.

(** What stands written in full groups and what the accumulator holds. *)
Record grouped (o : list Z) (ta : tagAccumulator) (dst : list Z) (gs : list (list item)) (pend : list item) : Prop := Grouped {
  gr_full : Forall (fun g => length g = 8%nat) gs;
  gr_pend : (length pend < 8)%nat;
  gr_out : dst = o ++ groupsBytes gs;
  gr_holds : holds ta pend;
}.

Lemma pushed_grouped o ta dst gs pend it r :
  grouped o ta dst gs pend -> pushed (pend ++ [it]) dst r ->
  exists ta' dst' gs' pend', r = Ok (ta', dst') /\ grouped o ta' dst' gs' pend' /\
    concat gs' ++ pend' = (concat gs ++ pend) ++ [it].
Proof.
  intros [H1 H2 -> H4] (ta' & Hr). destruct (decide _) as [He|He]; destruct Hr as [-> Ht].
  - exists ta', ((o ++ groupsBytes gs) ++ groupBytes (pend ++ [it])), (gs ++ [pend ++ [it]]), []. split; [done|]. split.
    + constructor; [|simpl; lia| |done].
      * apply Forall_app. split; [done|]. constructor; [|done]. unfold zlen in He. lia.
      * by rewrite groupsBytes_snoc, app_assoc.
    + rewrite concat_app. simpl. by rewrite !app_nil_r, app_assoc.
  - exists ta', (o ++ groupsBytes gs), gs, (pend ++ [it]). split; [done|]. split; [|by rewrite app_assoc].
    constructor; try done. rewrite length_app in *. unfold zlen in He. rewrite length_app in He. simpl in *. lia.
Qed.

Record enc_ok (chunk o : list Z) (e : enc) (gs : list (list item)) (pend : list item) : Prop := EncOk {
  eo_grouped : grouped o (e_ta e) (e_out e) gs pend;
  eo_plays : plays chunk 0 (concat gs ++ pend) (e_in e);
  eo_blob : e_blob e = e_in e;
  eo_split : e_split e = splitOf (width (e_in e));
  eo_threshold : e_threshold e = 2 ^ width (e_in e);
  eo_ctx : ctx_ok (e_ctx e);
  eo_in : 0 <= e_in e <= zlen chunk;
}.

(** One item written: what it plays, and the bookkeeping around it. *)
Lemma encodeItem_ok chunk o e gs pend len off :
  zlen chunk <= chunkSize -> enc_ok chunk o e gs pend -> e_in e < zlen chunk ->
  len = 0 \/ match_at chunk (e_in e) (2 ^ width (e_in e)) off len ->
  exists c ta dst n it gs' pend', encodeItem chunk len off e = Ok (c, ta, dst, e_in e + n, e_blob e + n) /\
    1 <= n /\ plays chunk (e_in e) [it] (e_in e + n) /\ ctx_ok c /\ grouped o ta dst gs' pend' /\
    concat gs' ++ pend' = (concat gs ++ pend) ++ [it].
Proof.
  intros Hsz [G1 G2 G3 G4 G5 G6 G7] Hlt Hm. unfold encodeItem. rewrite Z.geb_leb.
  assert (zlen pend < 8) as Hp by (pose proof (gr_pend _ _ _ _ _ G1); unfold zlen; lia).
  pose proof (gr_holds _ _ _ _ _ G1) as Hh.
  destruct (Z.leb_spec minMatch len) as [Hlen|Hlen].
  - destruct Hm as [->|(M1 & M2 & M3 & M4 & M5)]; [unfold minMatch in *; lia|]. unfold minMatch in *.
    rewrite G4, Z.shiftl_mul_pow2, Z.mul_1_l by (unfold splitOf; lia). set (s := splitOf (width (e_in e))) in *.
    set (n := if len >? 2 ^ s + 2 then 2 ^ s + 2 else len).
    assert (0 < 2 ^ s) by (apply Z.pow_pos_nonneg; unfold s, splitOf; lia).
    assert (3 <= n <= len /\ n < 3 + 2 ^ s) as [Hn1 Hn2].
    { unfold n. rewrite Z.gtb_ltb. destruct (Z.ltb_spec (2 ^ s + 2) len); lia. }
    destruct (tuple_spec (e_in e) off n) as (Ht & _ & _); [unfold chunkSize in *; lia|lia|lia|fold s; lia|]. fold s in Ht.
    assert (u16 (((off - 1) << s) .| (n - 3)) = n - 3 + (off - 1) * 2 ^ s) as ->.
    { unfold u16. rewrite Z.lor_comm, lor_shiftl_add by (unfold s, splitOf in *; lia). apply Z.mod_small. lia. }
    destruct (pushed_grouped _ _ _ _ _ _ _ G1 (pushTuple_spec (n - 3 + (off - 1) * 2 ^ s) _ _ (e_out e) Hh Hp))
      as (ta & dst & gs' & pend' & -> & Hg & Hc). simpl.
    destruct (nt_consume_ok (Z.to_nat n) chunk (e_in e) (e_ctx e)) as (c & -> & Hctx); [lia|done|done|]. simpl.
    rewrite Z2Nat.id by lia. do 7 eexists. split; [reflexivity|]. split; [lia|].
    split; [|split; [exact Hctx|split; [exact Hg|exact Hc]]].
    apply plays_tup; [lia|lia|fold s; lia|lia| |constructor]. intros j Hj. apply M5. lia.
  - destruct (@index_in_range _ ntErr chunk (e_in e)) as (b & -> & Hb); [lia|]. simpl.
    destruct (pushed_grouped _ _ _ _ _ _ _ G1 (pushLiteral_spec b _ _ (e_out e) Hh Hp))
      as (ta & dst & gs' & pend' & -> & Hg & Hc). simpl.
    destruct (nt_update_ok chunk (e_in e) (e_ctx e)) as (c & -> & Hctx); [lia|done|done|]. simpl.
    do 7 eexists. split; [reflexivity|]. split; [lia|].
    split; [|split; [exact Hctx|split; [exact Hg|exact Hc]]]. apply plays_lit; [done|constructor].
Qed.

Lemma nt_compress_turn_ok chunk o e gs pend :
  zlen chunk <= chunkSize -> enc_ok chunk o e gs pend -> e_in e < zlen chunk ->
  exists e' gs' pend', compress_turn chunk e = Ok e' /\ enc_ok chunk o e' gs' pend' /\ e_in e < e_in e'.
Proof.
  intros Hsz Hok Hlt. pose proof Hok as [G1 G2 G3 G4 G5 G6 G7]. unfold compress_turn.
  pose proof (width_bound (e_in e) ltac:(unfold chunkSize in *; lia)) as Hw.
  assert (1 << (16 - e_split e) = 2 ^ width (e_in e)) as ->.
  { rewrite G4, Z.shiftl_mul_pow2, Z.mul_1_l by (unfold splitOf; lia). f_equal. unfold splitOf. lia. }
  destruct (nt_findBest_ok chunk (e_ctx e) (e_in e) (2 ^ width (e_in e))) as (len & off & -> & Hm); [lia|done|done|]. simpl.
  destruct (encodeItem_ok chunk o e gs pend len off Hsz Hok Hlt Hm)
    as (c & ta & dst & n & it & gs' & pend' & -> & Hn & Hpl & Hctx & Hg & Hc). simpl.
  rewrite G3, G4, G5, adapt_spec by lia. simpl.
  assert (e_in e + n <= zlen chunk) by (apply (plays_end _ _ _ _ (conj (proj1 G7) (proj2 G7)) Hpl)).
  eexists _, gs', pend'. split; [reflexivity|]. split; [|simpl; lia].
  constructor; cbn [e_ta e_out e_in e_blob e_split e_threshold e_ctx]; [exact Hg| |done|done|done|exact Hctx|lia].
  rewrite Hc. by eapply plays_app.
Qed.

Lemma compressChunk_ok chunk o c :
  zlen chunk <= chunkSize -> ctx_ok c ->
  exists gs last c', compressChunk chunk o c = Ok (o ++ groupsBytes gs ++ lastBytes last, c') /\ ctx_ok c' /\
    Forall (fun g => length g = 8%nat) gs /\ (length last <= 8)%nat /\ plays chunk 0 (concat gs ++ last) (zlen chunk).
Proof.
  intros Hsz Hc. unfold compressChunk.
  assert (forall fuel e gs pend, enc_ok chunk o e gs pend -> (Z.to_nat (zlen chunk - e_in e) < fuel)%nat ->
    exists gs last c', compressChunk_loop fuel chunk e = Ok (o ++ groupsBytes gs ++ lastBytes last, c') /\ ctx_ok c' /\
    Forall (fun g => length g = 8%nat) gs /\ (length last <= 8)%nat /\ plays chunk 0 (concat gs ++ last) (zlen chunk)) as H.
  { induction fuel as [|fuel IH]; intros e gs pend Hok Hf; [lia|]. cbn [compressChunk_loop].
    destruct (Z.ltb_spec (e_in e) (zlen chunk)).
    - destruct (nt_compress_turn_ok chunk o e gs pend Hsz Hok) as (e' & gs' & pend' & -> & Hok' & Hlt); [done|].
      simpl. apply (IH e' gs' pend'); [done|lia].
    - destruct Hok as [[F1 F2 F3 F4] G2 G3 G4 G5 G6 G7].
      destruct (flush_spec (e_ta e) pend (e_out e) F4) as (ta & -> & _); [unfold zlen; lia|]. simpl.
      exists gs, pend, (e_ctx e). split_and!; [|done..|lia|].
      + by rewrite F3, <- app_assoc.
      + by replace (zlen chunk) with (e_in e) by lia. }
  apply (H _ _ [] []); [|cbn [e_in]; unfold zlen; lia].
  constructor; cbn [e_ta e_out e_in e_blob e_split e_threshold e_ctx]; try done.
  - constructor; [done|simpl; lia|by rewrite app_nil_r|apply holds_init].
  - constructor.
  - by apply reset_ok.
  - pose proof (zlen_nonneg chunk). lia.
Qed.

(** *** The stream *)
Lemma encodeHeader_spec flag size :
  flag = headerCompressed \/ flag = headerRaw -> 1 <= size <= 4096 ->
  let h := encodeHeader flag size in
  0 <= h < 2 ^ 16 /\ h <> 0 /\ u16 ((h .& hashMask) + 1) = size /\
  negb (h .& headerCompressedFlag =? 0) = bool_decide (flag = headerCompressed).
Proof.
  intros Hf Hs h. unfold h, encodeHeader.
  assert (u16 (size - 1) .& hashMask = size - 1) as ->.
  { unfold u16. rewrite (Z.mod_small (size - 1)) by lia. change hashMask with (Z.ones 12).
    rewrite Z.land_ones by lia. apply Z.mod_small. lia. }
  assert (Z.land (size - 1) hashMask = size - 1 /\ Z.land (size - 1) headerCompressedFlag = 0) as [Hm Hc].
  { assert (size - 1 = Z.land (size - 1) (Z.ones 12)) as He by (rewrite Z.land_ones by lia; symmetry; apply Z.mod_small; lia).
    split; rewrite He, <- Z.land_assoc; [done|]. apply Z.land_0_r. }
  rewrite !Z.land_lor_distr_l, Hm, Hc.
  assert (exists k, flag = k << 12 /\ 3 <= k <= 11) as (k & -> & Hk) by (destruct Hf as [-> | ->]; [exists 11|exists 3]; done).
  rewrite (Z.lor_comm (k << 12) (size - 1)), lor_shiftl_add by lia.
  assert (k << 12 .& hashMask = 0) as -> by (destruct Hf as [-> | ->]; done). rewrite Z.lor_0_l.
  split_and!; [lia|lia|lia| |].
  - unfold u16. rewrite Z.mod_small; lia.
  - rewrite Z.lor_0_r. destruct Hf as [-> | ->]; done.
Qed.

Lemma decompress_step_spec flag body pre rest dst limit :
  flag = headerCompressed \/ flag = headerRaw -> 1 <= zlen body <= 4096 ->
  let h := encodeHeader flag (zlen body) in let hb := [u8 h; u8 (h >> 8)] in
  decompress_step (pre ++ (hb ++ body) ++ rest) limit (zlen pre) dst =
    (dst ← (if bool_decide (flag = headerCompressed) then decompressBlock body dst limit else mret (dst ++ body));
     if (0 <? limit) && (zlen dst >? limit) then Err ErrOutputTooLong
     else mret (inl (zlen (pre ++ hb ++ body), dst))).
Proof.
  intros Hf Hn h hb. destruct (encodeHeader_spec flag (zlen body) Hf Hn) as (Hh & Hh0 & Hsz & Hcf). fold h in Hh, Hh0, Hsz, Hcf.
  pose proof (zlen_nonneg pre). pose proof (zlen_nonneg rest). unfold decompress_step.
  assert (zlen (pre ++ (hb ++ body) ++ rest) = zlen pre + 2 + zlen body + zlen rest) as Hz.
  { rewrite !zlen_app. change (zlen hb) with 2. lia. }
  rewrite Hz. destruct (Z.eqb_spec (zlen pre + 1) (zlen pre + 2 + zlen body + zlen rest)); [lia|].
  step_bind.
  rewrite Z.gtb_ltb. destruct (Z.ltb_spec (zlen pre + 2 + zlen body + zlen rest) (zlen pre + 2)); [lia|].
  rewrite <- (app_assoc hb). unfold hb at 1. rewrite get_le16 by done. step_bind. cbv zeta.
  rewrite (proj2 (Z.eqb_neq _ _) Hh0), Hsz, Hcf, Z.gtb_ltb.
  destruct (Z.ltb_spec (zlen pre + 2 + zlen body + zlen rest) (zlen pre + 2 + zlen body)); [lia|].
  rewrite slice_Ok by (rewrite ?app_assoc, ?zlen_app; change (zlen hb) with 2; lia). step_bind.
  assert (sub (pre ++ hb ++ body ++ rest) (zlen pre + 2) (zlen pre + 2 + zlen body) = body) as ->.
  { unfold sub. replace (Z.to_nat (zlen pre + 2 + zlen body - (zlen pre + 2))) with (length body) by (unfold zlen; lia).
    replace (Z.to_nat (zlen pre + 2)) with (length pre + 2)%nat by (unfold zlen; lia).
    rewrite <- drop_drop, drop_app_length. simpl. rewrite drop_0. by rewrite take_app_length. }
  replace (zlen (pre ++ hb ++ body)) with (zlen pre + 2 + zlen body); [done|].
  rewrite !zlen_app. change (zlen hb) with 2. lia.
Qed.

(** One chunk, written and read back. *)
Lemma compress_step_ok src pos dst c :
  0 <= pos < zlen src -> ctx_ok c -> let n := Z.min (zlen src - pos) chunkSize in
  exists block c', compress_step src pos dst c = Ok (pos + n, dst ++ block, c') /\ ctx_ok c' /\ 1 <= zlen block /\
    forall pre rest d limit, limit <= 0 \/ zlen d + n <= limit ->
      decompress_step (pre ++ block ++ rest) limit (zlen pre) d = Ok (inl (zlen (pre ++ block), d ++ sub src pos (pos + n))).
Proof.
  intros Hp Hc n. assert (1 <= n <= 4096 /\ pos + n <= zlen src) as [Hn1 Hn2] by (unfold n, chunkSize; lia).
  unfold compress_step. fold n. rewrite slice_Ok by lia. simpl mbind. set (chunk := sub src pos (pos + n)).
  assert (zlen chunk = n) as Hch by (unfold chunk; rewrite zlen_sub; lia). pose proof (zlen_nonneg dst).
  destruct (compressChunk_ok chunk (dst ++ [0; 0]) c) as (gs & last & c' & -> & Hc' & Hgs & Hl & Hpl); [unfold chunkSize; lia|done|].
  set (body := groupsBytes gs ++ lastBytes last). simpl mbind. cbv beta match zeta.
  replace (zlen ((dst ++ [0; 0]) ++ body) - zlen dst - 2) with (zlen body) by (rewrite !zlen_app; change (zlen [0; 0]) with 2; lia).
  assert (forall d limit, limit <= 0 \/ zlen d + n <= limit -> (0 <? limit) && (zlen (d ++ chunk) >? limit) = false) as Hlim.
  { intros d limit Hd. rewrite zlen_app, Hch, Z.gtb_ltb. apply andb_false_iff.
    destruct Hd; [left|right]; apply Z.ltb_ge; lia. }
  destruct (Z.ltb_spec (zlen body) (zlen chunk)).
  - assert (1 <= zlen body) as Hb.
    { assert (body <> []) as Hne; [|destruct body; [done|rewrite zlen_cons; pose proof (zlen_nonneg body); lia]].
      unfold body. intros [He1 He2]%app_eq_nil. destruct gs; [|done]. destruct last; [|done].
      simpl in Hpl. inversion Hpl; subst. lia. }
    set (h := encodeHeader headerCompressed (zlen body)).
    exists ([u8 h; u8 (h >> 8)] ++ body), c'.
    rewrite store_ok by (rewrite !zlen_app; change (zlen [0; 0]) with 2; lia). simpl mbind.
    rewrite store_ok by (rewrite zlen_insert, !zlen_app; change (zlen [0; 0]) with 2; lia).
    split; [|split; [done|split; [rewrite zlen_app; change (zlen [u8 h; u8 (h >> 8)]) with 2; lia|]]].
    + simpl. do 3 f_equal. rewrite <- app_assoc.
      replace (Z.to_nat (zlen dst)) with (length dst + 0)%nat by (unfold zlen; lia).
      replace (Z.to_nat (zlen dst + 1)) with (length dst + 1)%nat by (unfold zlen; lia).
      by rewrite !insert_app_r.
    + intros pre rest d limit Hd. rewrite (decompress_step_spec headerCompressed body) by (auto || lia).
      rewrite bool_decide_eq_true_2 by done.
      assert (decompressBlock body d limit = Ok (d ++ chunk)) as -> by (apply decompressBlock_spec; done || lia).
      step_bind. by rewrite Hlim.
  - rewrite slice_Ok by (rewrite ?zlen_app; change (zlen [0; 0]) with 2; pose proof (zlen_nonneg body); lia).
    simpl mbind. set (h := encodeHeader headerRaw (zlen chunk)). exists ([u8 h; u8 (h >> 8)] ++ chunk), c'.
    split; [|split; [done|split; [rewrite zlen_app; change (zlen [u8 h; u8 (h >> 8)]) with 2; lia|]]].
    + do 3 f_equal. rewrite <- !app_assoc. f_equal. unfold sub. rewrite drop_0, Z.sub_0_r. unfold zlen.
      rewrite Nat2Z.id. by rewrite take_app_length.
    + intros pre rest d limit Hd. rewrite (decompress_step_spec headerRaw chunk) by (auto || lia).
      rewrite bool_decide_eq_false_2 by done. simpl mbind. by rewrite Hlim.
Qed.

Lemma nt_compress_loop_ok fuel src pos dst c :
  0 <= pos <= zlen src -> ctx_ok c -> (Z.to_nat (zlen src - pos) < fuel)%nat ->
  exists F, compress_loop fuel src pos dst c = Ok (dst ++ F) /\
    forall pre d limit n, limit <= 0 \/ zlen d + (zlen src - pos) <= limit -> (length F < n)%nat ->
      decompress_loop n (pre ++ F) limit (zlen pre) d = Ok (d ++ sub src pos (zlen src)).
Proof.
  revert pos dst c. induction fuel as [|fuel IH]; intros pos dst c Hp Hc Hf; [lia|]. cbn [compress_loop].
  destruct (Z.ltb_spec pos (zlen src)) as [Hlt|Hge].
  - destruct (compress_step_ok src pos dst c) as (block & c' & -> & Hc' & Hb & Hdec); [lia|done|].
    simpl mbind. cbv beta match. set (k := Z.min (zlen src - pos) chunkSize) in *.
    assert (1 <= k /\ pos + k <= zlen src) as [Hk1 Hk2] by (unfold k, chunkSize; lia).
    destruct (IH (pos + k) (dst ++ block) c') as (F & -> & HF); [lia|done|lia|].
    exists (block ++ F). split; [by rewrite app_assoc|]. intros pre d limit n Hlim Hn.
    destruct n as [|n]; [lia|]. cbn [decompress_loop]. rewrite length_app in Hn.
    assert (zlen pre < zlen (pre ++ block ++ F)) as Hz.
    { rewrite !zlen_app. pose proof (zlen_nonneg F). lia. }
    rewrite (proj2 (Z.ltb_lt _ _) Hz), Hdec by lia. cbv beta match delta [mbind outcome_bind].
    rewrite (app_assoc pre). rewrite HF.
    + by rewrite <- app_assoc, sub_app by lia.
    + rewrite zlen_app, zlen_sub by lia. lia.
    + unfold zlen in Hb. lia.
  - exists []. split; [by rewrite app_nil_r|]. intros pre d limit n _ Hn. destruct n as [|n]; [lia|]. cbn [decompress_loop].
    rewrite app_nil_r, Z.ltb_irrefl. replace pos with (zlen src) by lia. by rewrite sub_empty, app_nil_r.
Qed.

Lemma nt_Decompress_Compress (src : list Z) (limit : Z) :
  limit <= 0 \/ zlen src <= limit ->
  exists c, Compress src = Ok c /\ Decompress c limit = Ok src.
Proof.
  intros Hlim. pose proof (zlen_nonneg src). unfold Compress.
  destruct (nt_compress_loop_ok (S (length src)) src 0 [] newContext) as (F & -> & HF);
    [lia|apply ctx_init_ok|unfold zlen; lia|].
  exists F. split; [done|]. unfold Decompress. rewrite <- (sub_full src).
  apply (HF [] []); [|lia]. change (zlen []) with 0. lia.
Qed.

(** C36: What the LZNT1 encoder writes, the LZNT1 decoder reads back: for every input,
    of any number of chunks, the encoder returns, without an access out of range, and
    decoding what it returned gives the input again, under no limit or under any limit
    the input fits in.  The chunk headers, the tag groups, the moving split of the
    tuples and the decoder's shortcuts for runs and for eight literals are all part
    of it. *)
Theorem lznt1_roundtrip (src : list Z) (limit : Z) :
  limit <= 0 \/ zlen src <= limit ->
  exists c, Compress src = Ok c /\ Decompress c limit = Ok src.
Proof. apply nt_Decompress_Compress. Qed.

(** ** The decoder on anything *)
Section hostile.
Context (src : list Z) (limit start : Z).
Hypothesis src_bytes : bytes src.

(** A decoder whose adaptive state belongs to some length its output has reached. *)
Record dec_ok (w : Z) (d : dec) : Prop := DecOk {
  do_in : 0 <= d_in d <= zlen src;
  do_start : 0 <= start <= zlen (d_dst d);
  do_w : 4 <= w;
  do_threshold : d_threshold d = 2 ^ w;
  do_split : d_split d = splitOf w;
  do_mask : d_mask d = 2 ^ splitOf w - 1;
}.

Lemma advance_ok w d i dst : dec_ok w d -> 0 <= i <= zlen src -> start <= zlen dst ->
  let w' := Z.max w (Z.log2_up (zlen dst - start)) in
  advance start i dst d = Ok (Dec i dst (2 ^ w') (splitOf w') (2 ^ splitOf w' - 1)) /\
  dec_ok w' (Dec i dst (2 ^ w') (splitOf w') (2 ^ splitOf w' - 1)).
Proof using.
  intros [H1 H2 H3 H4 H5 H6] Hi Hs w'. unfold advance. rewrite H4, H5, H6.
  rewrite updateAdaptiveState_spec by lia. fold w'. split; [done|]. constructor; simpl; lia || done.
Qed.

Definition goes (d : dec) (r : out (dec + list Z)) : Prop :=
  match r with
  | Ok (inl d') => (exists w, dec_ok w d') /\ d_in d < d_in d'
  | Ok (inr dst) => start <= zlen dst
  | Err _ => True
  | _ => False
  end.

Lemma applyMatch_total dst len off : 1 <= off -> 0 <= len ->
  match applyMatch dst len off with Ok dst' => zlen dst' = zlen dst + len | Err _ => True | _ => False end.
Proof using.
  intros Ho Hl. rewrite applyMatch_eq by done. rewrite Z.gtb_ltb. destruct (Z.ltb_spec (zlen dst) off); [done|].
  destruct (copyMatch_total (E := ntErr) (Z.to_nat len) (zlen dst - off) dst) as (dst' & -> & ->); lia.
Qed.

Lemma decodeItem_total w tag i d : dec_ok w d -> goes d (decodeItem src limit start tag i d).
Proof using src_bytes.
  intros Hd. pose proof Hd as [H1 H2 H3 H4 H5 H6]. unfold decodeItem.
  assert (forall i' dst, 0 <= i' <= zlen src -> d_in d < i' -> start <= zlen dst ->
    goes d (d ← advance start i' dst d; if d_in d >=? zlen src then mret (inr (d_dst d)) else mret (inl d))) as Hgo.
  { intros i' dst Hi Hlt Hs. destruct (advance_ok w d i' dst Hd Hi Hs) as [-> Hok]. simpl.
    destruct (_ >=? _); simpl; [done|]. split; [eauto|done]. }
  destruct (negb _).
  - rewrite Z.gtb_ltb. destruct (Z.ltb_spec (zlen src) (d_in d + 2)); [done|].
    destruct (get_le_bytes (E:=ntErr) src (d_in d) 2) as (t & -> & [Ht _]); [done|lia..|]. simpl. rewrite H5, H6.
    assert (1 <= (t >> splitOf w) + 1) by (assert (0 <= t >> splitOf w) by (by apply Z.shiftr_nonneg); lia).
    assert (0 <= t .& (2 ^ splitOf w - 1) + 3) by (assert (0 <= t .& (2 ^ splitOf w - 1)) by (apply Z.land_nonneg; lia); lia).
    pose proof (applyMatch_total (d_dst d) (t .& (2 ^ splitOf w - 1) + 3) ((t >> splitOf w) + 1) ltac:(lia) ltac:(lia)) as Ha.
    destruct (applyMatch _ _ _) as [dst'| | |]; simpl; try done. destruct (_ && _); simpl; [done|]. apply Hgo; lia.
  - rewrite Z.geb_leb. destruct (Z.leb_spec (zlen src) (d_in d)); [simpl; lia|].
    destruct (@index_in_range _ ntErr src (d_in d)) as (b & -> & _); [lia|]. simpl. apply Hgo; rewrite ?zlen_app; change (zlen [b]) with 1; lia.
Qed.

Lemma goes_trans d d1 r : d_in d <= d_in d1 -> goes d1 r -> goes d r.
Proof using. intros Hle. unfold goes. destruct r as [[d'|]| | |]; try done. intros [? ?]. split; [done|lia]. Qed.

Lemma decodeGroup_total n w tag i d : dec_ok w d -> (1 <= n)%nat -> goes d (decodeGroup n src limit start tag i d).
Proof using src_bytes.
  revert w i d. induction n as [|n IH]; intros w i d Hd Hn; [lia|]. unfold decodeGroup. fold decodeGroup.
  pose proof (decodeItem_total w tag i d Hd) as Hi.
  destruct (decodeItem src limit start tag i d) as [[d1|dst]| | |]; simpl; try done.
  destruct Hi as [[w1 Hd1] Hlt]. destruct n as [|n].
  - unfold decodeGroup. simpl. split; [eauto|done].
  - apply (goes_trans d d1); [lia|]. apply (IH w1); [done|lia].
Qed.

Lemma decodeTurn_total w d : dec_ok w d -> d_in d < zlen src -> goes d (decodeTurn src limit start d).
Proof using src_bytes.
  intros Hd Hlt. pose proof Hd as [H1 H2 H3 H4 H5 H6]. unfold decodeTurn.
  destruct (@index_in_range _ ntErr src (d_in d)) as (tag & -> & _); [lia|]. simpl.
  destruct (tag =? 0); simpl; [destruct (Z.leb_spec (d_in d + 1 + tagGroupSize) (zlen src))|]; unfold tagGroupSize in *.
  - rewrite slice_Ok by lia. simpl. pose proof (zlen_nonneg (sub src (d_in d + 1) (d_in d + 1 + 8))).
    destruct (advance_ok w d (d_in d + 1 + 8) (d_dst d ++ sub src (d_in d + 1) (d_in d + 1 + 8)) Hd) as [-> Hok];
      [lia|rewrite zlen_app; lia|]. simpl. split; [eauto|simpl; lia].
  - eapply goes_trans; [|apply (decodeGroup_total 8 w); [by constructor; simpl; lia || done|lia]]. simpl. lia.
  - eapply goes_trans; [|apply (decodeGroup_total 8 w); [by constructor; simpl; lia || done|lia]]. simpl. lia.
Qed.

Lemma decompressBlock_loop_total fuel w d : dec_ok w d -> (Z.to_nat (zlen src - d_in d) < fuel)%nat ->
  settled (decompressBlock_loop fuel src limit start d).
Proof using src_bytes.
  revert w d. induction fuel as [|fuel IH]; intros w d Hd Hf; [lia|]. cbn [decompressBlock_loop].
  destruct (Z.ltb_spec (d_in d) (zlen src)); [|done]. pose proof (decodeTurn_total w d Hd ltac:(done)) as Ht.
  destruct (decodeTurn src limit start d) as [[d1|dst]| | |]; simpl; try done.
  destruct Ht as [[w1 Hd1] Hlt]. apply (IH w1); [done|]. pose proof (do_in _ _ Hd1). lia.
Qed.
End hostile.

Lemma decompressBlock_total src dst limit : bytes src -> settled (decompressBlock src dst limit).
Proof.
  intros Hb. unfold decompressBlock. pose proof (zlen_nonneg src). pose proof (zlen_nonneg dst).
  apply (decompressBlock_loop_total src limit (zlen dst) Hb _ 4); [|simpl; unfold zlen; lia].
  constructor; simpl; lia || done.
Qed.

Lemma decompress_step_total src limit i dst : bytes src -> 0 <= i < zlen src ->
  match decompress_step src limit i dst with
  | Ok (inl (i', dst')) => i < i' <= zlen src /\ (0 < limit -> zlen dst' <= limit)
  | Ok (inr dst') => dst' = dst
  | Err _ => True
  | _ => False
  end.
Proof.
  intros Hb Hi. unfold decompress_step.
  assert (exists last : bool, (if i + 1 =? zlen src then b ← index src i; mret (b =? 0) else mret false)
    = @Ok ntErr bool last) as (last & ->).
  { destruct (_ =? _); [|by exists false]. destruct (@index_in_range _ ntErr src i) as (b & -> & _); [lia|]. by exists (b =? 0). }
  simpl. destruct last; [done|]. rewrite Z.gtb_ltb. destruct (Z.ltb_spec (zlen src) (i + 2)); [done|].
  destruct (get_le_bytes (E:=ntErr) src i 2) as (h & -> & [Hh _]); [done|lia..|]. simpl. destruct (h =? 0); [done|]. simpl.
  assert (1 <= u16 ((h .& hashMask) + 1)) as Hs.
  { change hashMask with (Z.ones 12). rewrite Z.land_ones by lia. pose proof (Z.mod_pos_bound h (2 ^ 12)).
    unfold u16. rewrite Z.mod_small; lia. }
  rewrite Z.gtb_ltb. destruct (Z.ltb_spec (zlen src) (i + 2 + u16 ((h .& hashMask) + 1))); [done|].
  rewrite slice_Ok by lia. simpl. set (block := sub src _ _).
  assert (bytes block) as Hbb by (by apply Forall_take, Forall_drop).
  pose proof (decompressBlock_total block dst limit Hbb) as Hset.
  assert (forall dst' : list Z, match (if (0 <? limit) && (zlen dst' >? limit) then @Err ntErr (Z * list Z + list Z) ErrOutputTooLong
      else mret (inl (i + 2 + u16 ((h .& hashMask) + 1), dst'))) with
    | Ok (inl (i', dst')) => i < i' <= zlen src /\ (0 < limit -> zlen dst' <= limit)
    | Ok (inr dst') => dst' = dst | Err _ => True | _ => False end) as Hend.
  { intros dst'. rewrite Z.gtb_ltb. destruct (Z.ltb_spec 0 limit), (Z.ltb_spec limit (zlen dst')); simpl; try done; lia. }
  destruct (negb _); [|apply Hend]. destruct (decompressBlock block dst limit); simpl; try done. apply Hend.
Qed.

Lemma nt_Decompress_total (src : list Z) (limit : Z) :
  bytes src ->
  settled (Decompress src limit) /\
  (forall dst, Decompress src limit = Ok dst -> 0 < limit -> zlen dst <= limit).
Proof.
  intros Hb. unfold Decompress.
  assert (forall n i dst, 0 <= i -> (Z.to_nat (zlen src - i) < n)%nat -> (0 < limit -> zlen dst <= limit) ->
    settled (decompress_loop n src limit i dst) /\
    (forall dst', decompress_loop n src limit i dst = Ok dst' -> 0 < limit -> zlen dst' <= limit)) as H.
  { induction n as [|n IH]; intros i dst Hi Hn Hl; [lia|]. cbn [decompress_loop].
    destruct (Z.ltb_spec i (zlen src)); [|split; [done|by intros ? [= <-]]].
    pose proof (decompress_step_total src limit i dst Hb ltac:(lia)) as Hs.
    destruct (decompress_step src limit i dst) as [[[i' dst']|dst']| | |]; simpl; try done.
    - apply IH; [lia|lia|tauto].
    - subst. split; [done|]. by intros ? [= <-]. }
  apply H; [lia|unfold zlen; lia|]. intros. change (zlen []) with 0. lia.
Qed.

(** The LZNT1 decoder is total: on any bytes, hostile ones included, it returns,
    with data or with an error, never an access out of range and never a loop that does
    not end; and what it returns under a limit is no longer than the limit. *)
Theorem lznt1_decoder_total (src : list Z) (limit : Z) :
  bytes src ->
  settled (Decompress src limit) /\
  (forall dst, Decompress src limit = Ok dst -> 0 < limit -> zlen dst <= limit).
Proof. apply nt_Decompress_total. Qed.

(** ** Witnesses *)
Lemma lznt1_roundtrip_witness :
  exists c, Compress [97; 98; 99; 97; 98; 99; 97; 98; 99] = Ok c /\
    Decompress c 9 = Ok [97; 98; 99; 97; 98; 99; 97; 98; 99].
Proof. apply (lznt1_roundtrip [97; 98; 99; 97; 98; 99; 97; 98; 99] 9). right. vm_compute. discriminate. Defined.

Lemma lznt1_decoder_total_witness :
  Decompress [0x00; 0xb0; 0x01] 5 = Err ErrUnexpectedEOF /\ settled (Decompress [0x00; 0xb0; 0x01] 5).
Proof.
  split; [vm_compute; reflexivity|].
  apply (lznt1_decoder_total [0x00; 0xb0; 0x01] 5). apply (bool_decide_unpack _). vm_compute. exact I.
Defined.

End Lznt1.
