(* ===== verification/HuffBits.v ===== *)
(** [compress/huffman/bits.go]: the bit stream of the LZ77+Huffman codec, sixteen-bit words
    written two slots behind with plain bytes between them.

    The writer is followed to the buffer it ends with: [finishes w F] is what the final
    buffer [F] has of the stream a writer [w] has come to.  A reader that has taken the same
    bits and bytes stands where the writer stood ([sync]), whatever follows the block. *)
From S2P Require Import Prelude Bytes.

Module HuffBits.

(** ** The writer *)
Record writer := Writer { w_buf : list Z; w_pos1 : Z; w_pos2 : Z; w_next : Z; w_freeBits : Z }.
Definition newWriter (buf : list Z) : writer :=
  Writer (buf ++ [0; 0; 0; 0]) (zlen buf) (zlen buf + 2) 0 16.

Section writing.
Context {E : Type}.
Definition putWord (v : Z) (w : writer) : outcome E writer :=
  buf ← put_le (w_buf w) (w_pos1 w) 2 v;
  mret (Writer (buf ++ [0; 0]) (w_pos2 w) (zlen buf) (w_next w) (w_freeBits w)).
Definition writeBits (n v : Z) (w : writer) : outcome E writer :=
  if n =? 0 then mret w
  else if w_freeBits w >=? n then
    mret (Writer (w_buf w) (w_pos1 w) (w_pos2 w) (u32 (w_next w << n) .| v) (w_freeBits w - n))
  else
    let next := u32 (w_next w << w_freeBits w) .| (v >> (n - w_freeBits w)) in
    w ← putWord (u16 next) w;
    mret (Writer (w_buf w) (w_pos1 w) (w_pos2 w) v (w_freeBits w + (16 - n))).
Definition writeRaw (bs : list Z) (w : writer) : writer :=
  Writer (w_buf w ++ bs) (w_pos1 w) (w_pos2 w) (w_next w) (w_freeBits w).
Definition writeByte (b : Z) : writer -> writer := writeRaw [b].
Definition writeUint16 (v : Z) : writer -> writer := writeRaw (le_enc 2 v).
Definition writeUint32 (v : Z) : writer -> writer := writeRaw (le_enc 4 v).
Definition flush (w : writer) : outcome E (list Z) :=
  put_le (w_buf w) (w_pos1 w) 2 (u16 (w_next w << w_freeBits w)).
End writing.

(** ** The reader

    [buf] does not change.  The loop of [refill] turns as often as sixteen more bits are
    needed to have sixteen in hand. *)
Record reader := Reader { r_pos : Z; r_bits : Z; r_count : Z; r_consumed : Z; r_extra : Z }.
Section reading.
Context (buf : list Z).
Definition refill_turn (r : reader) : reader :=
  let word := if r_pos r + 2 <=? zlen buf then le_dec (sub buf (r_pos r) (r_pos r + 2)) else 0 in
  Reader (r_pos r + 2) (r_bits r .| u32 (word << (16 - r_count r))) (r_count r + 16) (r_consumed r) (r_extra r).
Definition refill (r : reader) : reader := Nat.iter (Z.to_nat ((16 - r_count r + 15) / 16)) refill_turn r.
Definition newReader : reader := refill (Reader 0 0 0 0 0).
Definition peek (n : Z) (r : reader) : Z := r_bits r >> (32 - n).
Definition skip (n : Z) (r : reader) : reader :=
  refill (Reader (r_pos r) (u32 (r_bits r << n)) (r_count r - n) (r_consumed r + n) (r_extra r)).
Definition take_ (n : Z) (r : reader) : Z * reader :=
  if n =? 0 then (0, r) else (peek n r, skip n r).
Definition readRaw (n : Z) (r : reader) : option (Z * reader) :=
  if r_pos r + n >? zlen buf then None
  else Some (le_dec (sub buf (r_pos r) (r_pos r + n)), Reader (r_pos r + n) (r_bits r) (r_count r) (r_consumed r) (r_extra r + n)).
Definition readByte (r : reader) : option (Z * reader) :=
  if r_pos r >=? zlen buf then None
  else match buf !! Z.to_nat (r_pos r) with
       | Some b => Some (b, Reader (r_pos r + 1) (r_bits r) (r_count r) (r_consumed r) (r_extra r + 1))
       | None => None
       end.
Definition readUint16 : reader -> option (Z * reader) := readRaw 2.
Definition readUint32 : reader -> option (Z * reader) := readRaw 4.
End reading.

(** ** What becomes of what was written *)
Definition w16 (F : list Z) (p : Z) : Z := le_dec (sub F p (p + 2)).
Record wf (w : writer) : Prop := Wf {
  wf_pos1 : 0 <= w_pos1 w; wf_pos2 : w_pos1 w + 2 <= w_pos2 w; wf_len : w_pos2 w + 2 <= zlen (w_buf w);
  wf_free : 0 <= w_freeBits w <= 16; wf_next : 0 <= w_next w; wf_bytes : bytes (w_buf w);
}.
Definition open_ (w : writer) (p : nat) : Prop :=
  w_pos1 w <= Z.of_nat p < w_pos1 w + 2 \/ w_pos2 w <= Z.of_nat p < w_pos2 w + 2.
Record finishes (w : writer) (F : list Z) : Prop := Finishes {
  f_len : zlen (w_buf w) <= zlen F;
  f_kept : forall p : nat, (p < length (w_buf w))%nat -> ~ open_ w p -> F !! p = w_buf w !! p;
  f_word : w16 F (w_pos1 w) / 2 ^ w_freeBits w = w_next w mod 2 ^ (16 - w_freeBits w);
  f_bytes : bytes F;
}.

Lemma w16_bound F p : bytes F -> 0 <= p -> p + 2 <= zlen F -> 0 <= w16 F p < 2 ^ 16.
Proof.
  intros Hb Hp Hl. unfold w16. assert (bytes (sub F p (p + 2))) as B by (by apply Forall_take, Forall_drop).
  apply le_dec_bound in B. rewrite zlen_sub in B by lia. by replace (8 * (p + 2 - p)) with 16 in B by lia.
Qed.
Lemma sub_ext (F G : list Z) i j : 0 <= i -> (forall p : nat, i <= Z.of_nat p < j -> F !! p = G !! p) -> sub F i j = sub G i j.
Proof.
  intros Hi H. apply list_eq. intros k. unfold sub. destruct (decide (k < Z.to_nat (j - i))%nat).
  - rewrite !lookup_take_lt, !lookup_drop by lia. apply H. lia.
  - by rewrite !lookup_take_ge by lia.
Qed.
Lemma w16_kept w F p : wf w -> finishes w F -> 0 <= p -> p + 2 <= zlen (w_buf w) ->
  p + 2 <= w_pos1 w \/ (w_pos1 w + 2 <= p /\ p + 2 <= w_pos2 w) \/ (w_pos1 w + 2 <= p /\ w_pos2 w + 2 <= p) -> w16 F p = w16 (w_buf w) p.
Proof.
  intros W Fi Hp Hl Hd. pose proof (wf_pos2 _ W). unfold w16. f_equal. apply sub_ext; [lia|]. intros q Hq. apply (f_kept _ _ Fi); [unfold zlen in *; lia|unfold open_; lia].
Qed.

Lemma newWriter_wf buf : bytes buf -> wf (newWriter buf).
Proof. intros Hb. split; simpl; rewrite ?zlen_app; change (zlen [0; 0; 0; 0]) with 4; pose proof (zlen_nonneg buf); try lia. apply Forall_app_2; [done|]. by repeat constructor. Qed.

(** The bits a word takes on, as arithmetic. *)
Lemma lor_low a v n : 0 <= n -> 0 <= v < 2 ^ n -> Z.lor (Z.shiftl a n) v = a * 2 ^ n + v.
Proof. intros Hn Hv. rewrite Z.lor_comm, lor_shiftl_add by lia. lia. Qed.
Lemma u32_shift_mod a n k : 0 <= n -> 0 <= k <= 32 -> u32 (a << n) mod 2 ^ k = (a * 2 ^ n) mod 2 ^ k.
Proof.
  intros Hn Hk. unfold u32. rewrite Z.shiftl_mul_pow2 by lia. apply Z.mod_mod_divide.
  replace 32 with (k + (32 - k)) by lia. rewrite Z.pow_add_r by lia. apply Z.divide_factor_l.
Qed.
Lemma lor_mod a b k : 0 <= k -> Z.lor a b mod 2 ^ k = Z.lor (a mod 2 ^ k) (b mod 2 ^ k).
Proof. intros Hk. rewrite <- !Z.land_ones by lia. apply Z.land_lor_distr_l. Qed.
(** What the register of the writer holds after it took [n] bits more: all that matters of
    it is below its sixteenth bit. *)
Lemma next_mod a v n k : 0 <= n -> n <= k <= 32 -> 0 <= v < 2 ^ n ->
  Z.lor (u32 (a << n)) v mod 2 ^ k = (a * 2 ^ n + v) mod 2 ^ k.
Proof.
  intros Hn Hk Hv. rewrite lor_mod, u32_shift_mod by lia. rewrite <- (lor_low a v n) by lia.
  rewrite <- Z.shiftl_mul_pow2 by lia. by rewrite <- lor_mod by lia.
Qed.
Lemma mod_div_pow a n k : 0 <= n -> 0 <= k -> (a mod 2 ^ (n + k)) / 2 ^ n = (a / 2 ^ n) mod 2 ^ k.
Proof.
  intros Hn Hk. rewrite Z.pow_add_r by lia. rewrite Z.rem_mul_r by lia. rewrite Z.add_comm, Z.mul_comm, Z.div_add_l by lia.
  rewrite (Z.div_small (a mod 2 ^ n)); [lia|]. apply Z.mod_pos_bound. lia.
Qed.
Lemma shift_in_mod a v n k : 0 <= n -> 0 <= k -> 0 <= v < 2 ^ n -> ((a * 2 ^ n + v) mod 2 ^ (n + k)) / 2 ^ n = a mod 2 ^ k.
Proof.
  intros Hn Hk Hv. rewrite mod_div_pow by lia. rewrite Z.div_add_l by lia. rewrite (Z.div_small v) by lia. by rewrite Z.add_0_r.
Qed.

Section writes.
Context {E : Type} (w : writer) (W : wf w).
Abbreviation out := (outcome E).

Lemma flush_finishes : exists F, @flush E w = Ok F /\ finishes w F /\ zlen F = zlen (w_buf w).
Proof using W.
  destruct W as [H1 H2 H3 H4 H5 H6]. unfold flush. destruct (@put_le_Ok E (w_buf w) (w_pos1 w) 2 (u16 (w_next w << w_freeBits w))) as [F HF]; [lia..|].
  exists F. split; [done|]. pose proof (zlen_put_le _ _ _ _ _ HF) as HL. split; [|done]. split; [lia| | |by eapply bytes_put_le].
  - intros p Hp Ho. eapply lookup_put_other; [exact HF|]. unfold open_ in Ho. lia.
  - unfold w16. rewrite (sub_put_same _ _ _ _ _ HF). change (Z.to_nat 2) with 2%nat. rewrite le_dec_enc. change (8 * Z.of_nat 2) with 16.
    unfold u16. rewrite Z.mod_mod by lia. rewrite Z.shiftl_mul_pow2 by lia.
    pose proof (shift_in_mod (w_next w) 0 (w_freeBits w) (16 - w_freeBits w)) as S. rewrite Z.add_0_r in S.
    replace (w_freeBits w + (16 - w_freeBits w)) with 16 in S by lia. apply S; lia.
Qed.

(** Writing bits that the word at hand has room for, and what the final buffer then says. *)
Lemma writeBits_fits n v : 1 <= n <= w_freeBits w -> 0 <= v < 2 ^ n ->
  exists w', @writeBits E n v w = Ok w' /\ wf w' /\
    w_buf w' = w_buf w /\ w_pos1 w' = w_pos1 w /\ w_pos2 w' = w_pos2 w /\ w_freeBits w' = w_freeBits w - n /\
    forall F, finishes w' F -> finishes w F /\ w16 F (w_pos1 w) mod 2 ^ w_freeBits w / 2 ^ (w_freeBits w - n) = v.
Proof using W.
  intros Hn Hv. destruct W as [H1 H2 H3 H4 H5 H6]. unfold writeBits. bdestr.
  eexists. split; [reflexivity|]. split.
  { split; simpl; try done; [lia|]. apply Z.lor_nonneg. split; [|lia]. apply Z.mod_pos_bound. lia. }
  do 4 (split; [done|]). intros F [G1 G2 G3 G4]. simpl in *.
  assert (w16 F (w_pos1 w) / 2 ^ (w_freeBits w - n) = (w_next w * 2 ^ n + v) mod 2 ^ (n + (16 - w_freeBits w))) as Hw.
  { rewrite G3. replace (16 - (w_freeBits w - n)) with (n + (16 - w_freeBits w)) by lia. apply next_mod; lia. }
  assert (w16 F (w_pos1 w) / 2 ^ w_freeBits w = w_next w mod 2 ^ (16 - w_freeBits w)) as Hd.
  { replace (2 ^ w_freeBits w) with (2 ^ (w_freeBits w - n) * 2 ^ n) by (rewrite <- Z.pow_add_r by lia; f_equal; lia).
    rewrite <- Z.div_div by lia. rewrite Hw. apply shift_in_mod; lia. }
  split; [by split|].
  replace (w_freeBits w) with ((w_freeBits w - n) + n) at 1 by lia. rewrite mod_div_pow by lia. rewrite Hw.
  rewrite Z.mod_mod_divide by (rewrite Z.pow_add_r by lia; apply Z.divide_factor_l).
  rewrite Z.add_comm, Z.mod_add by lia. apply Z.mod_small. lia.
Qed.

(** Writing bits that run into the next word: it is put in the older slot and a new slot
    reserved. *)
Lemma writeBits_spills n v : w_freeBits w < n <= 16 -> 0 <= v < 2 ^ n ->
  exists w', @writeBits E n v w = Ok w' /\ wf w' /\
    w_pos1 w' = w_pos2 w /\ w_pos2 w' = zlen (w_buf w) /\ zlen (w_buf w') = zlen (w_buf w) + 2 /\ w_freeBits w' = w_freeBits w + 16 - n /\
    forall F, finishes w' F -> finishes w F /\ w16 F (w_pos1 w) mod 2 ^ w_freeBits w = v / 2 ^ (n - w_freeBits w) /\
      w16 F (w_pos2 w) / 2 ^ (w_freeBits w + 16 - n) = v mod 2 ^ (n - w_freeBits w).
Proof using W.
  intros Hn Hv. destruct W as [H1 H2 H3 H4 H5 H6]. unfold writeBits, putWord. bdestr.
  set (word := u32 (w_next w << w_freeBits w) .| (v >> (n - w_freeBits w))).
  destruct (@put_le_Ok E (w_buf w) (w_pos1 w) 2 (u16 word)) as [B HB]; [lia..|]. rewrite HB. rewrite bind_ret, !bind_mret. cbn.
  pose proof (zlen_put_le _ _ _ _ _ HB) as HL. assert (zlen (B ++ [0; 0]) = zlen (w_buf w) + 2) as HL2 by (rewrite zlen_app, HL; done).
  assert (0 <= v >> (n - w_freeBits w) < 2 ^ w_freeBits w) as Hs.
  { rewrite Z.shiftr_div_pow2 by lia. split; [apply Z.div_pos; lia|]. apply Z.div_lt_upper_bound; [lia|]. rewrite <- Z.pow_add_r by lia. replace (n - w_freeBits w + w_freeBits w) with n by lia. lia. }
  assert (word mod 2 ^ 16 = (w_next w * 2 ^ w_freeBits w + v >> (n - w_freeBits w)) mod 2 ^ 16) as Hw by (apply next_mod; lia).
  eexists. split; [reflexivity|]. split.
  { split; simpl; try lia. apply Forall_app_2; [by eapply bytes_put_le|by repeat constructor]. }
  cbn. split; [done|]. split; [lia|]. split; [done|]. split; [lia|]. intros F [G1 G2 G3 G4]. cbn in *.
  assert (w16 F (w_pos1 w) = word mod 2 ^ 16) as HF.
  { unfold w16. rewrite (sub_ext F B); [|lia|].
    - rewrite (sub_put_same _ _ _ _ _ HB). change (Z.to_nat 2) with 2%nat. rewrite le_dec_enc. change (8 * Z.of_nat 2) with 16. unfold u16. by rewrite Z.mod_mod by lia.
    - intros p Hp. rewrite G2; [|unfold zlen in *; rewrite length_app; lia|unfold open_; cbn; lia]. apply lookup_app_l. unfold zlen in *. lia. }
  split; [split; try done; [lia| |]|].
  - intros p Hp Ho. unfold open_ in Ho. rewrite G2; [|rewrite length_app; unfold zlen in *; lia|unfold open_; cbn; unfold zlen in *; lia].
    rewrite lookup_app_l by (unfold zlen in *; lia). eapply lookup_put_other; [exact HB|]. lia.
  - rewrite HF, Hw. replace 16 with (w_freeBits w + (16 - w_freeBits w)) at 1 by lia. apply shift_in_mod; lia.
  - split.
    + rewrite HF, Hw. rewrite Z.mod_mod_divide by (exists (2 ^ (16 - w_freeBits w)); rewrite <- Z.pow_add_r by lia; f_equal; lia).
      rewrite Z.add_comm, Z.mod_add by lia. rewrite Z.mod_small by lia. by rewrite Z.shiftr_div_pow2 by lia.
    + replace (w_freeBits w + 16 - n) with (w_freeBits w + (16 - n)) by lia. rewrite G3. do 2 f_equal. lia.
Qed.

Lemma writeBits_ok n v : 0 <= n <= 16 -> 0 <= v < 2 ^ n ->
  exists w', @writeBits E n v w = Ok w' /\ wf w' /\ forall F, finishes w' F -> finishes w F.
Proof using W.
  intros Hn Hv. destruct (Z.eq_dec n 0) as [->|H0]; [exists w; unfold writeBits; simpl; eauto|]. destruct (Z.le_gt_cases n (w_freeBits w)).
  - destruct (writeBits_fits n v) as (w' & E1 & W' & _ & _ & _ & _ & K); [lia..|]. exists w'. split; [done|]. split; [done|]. intros F Fi. by apply K.
  - destruct (writeBits_spills n v) as (w' & E1 & W' & _ & _ & _ & _ & K); [lia..|]. exists w'. split; [done|]. split; [done|]. intros F Fi. by apply K.
Qed.
Lemma writeRaw_spec bs : bytes bs ->
  wf (writeRaw bs w) /\ forall F, finishes (writeRaw bs w) F -> finishes w F /\ sub F (zlen (w_buf w)) (zlen (w_buf w) + zlen bs) = bs.
Proof using W.
  intros Hb. destruct W as [H1 H2 H3 H4 H5 H6]. pose proof (zlen_nonneg bs). split.
  { split; simpl; rewrite ?zlen_app; try lia. by apply Forall_app_2. }
  intros F [G1 G2 G3 G4]. cbn in *. rewrite zlen_app in *. split.
  - split; try done; [lia|]. intros p Hp Ho. rewrite G2; [by rewrite lookup_app_l|rewrite length_app; lia|exact Ho].
  - rewrite (sub_ext F (w_buf w ++ bs)); [|lia|].
    + unfold sub, zlen. rewrite drop_app_length' by lia. rewrite take_ge; [done|lia].
    + intros p Hp. apply G2; [rewrite length_app; unfold zlen in *; lia|]. unfold open_. cbn. lia.
Qed.
End writes.

(** ** What a reader has in hand *)
Section reads.
Context (buf : list Z) (Hbuf : bytes buf).
Definition wordAt (p : Z) : Z := if p + 2 <=? zlen buf then le_dec (sub buf p (p + 2)) else 0.
Definition reg (X c : Z) : Z := X * 2 ^ (32 - c).
Record rep (r : reader) (X : Z) : Prop := Rep { rp_pos : 0 <= r_pos r; rp_count : 16 <= r_count r <= 32; rp_value : 0 <= X < 2 ^ r_count r; rp_bits : r_bits r = reg X (r_count r) }.

Lemma wordAt_bound p : 0 <= p -> 0 <= wordAt p < 2 ^ 16.
Proof using Hbuf. intros Hp. unfold wordAt. destruct (Z.leb_spec (p + 2) (zlen buf)); [by apply w16_bound|lia]. Qed.
Lemma peek_rep r X n : rep r X -> 0 <= n <= 16 -> peek n r = X / 2 ^ (r_count r - n).
Proof.
  intros [_ Hc Hv Hb] Hn. unfold peek. rewrite Hb. unfold reg. rewrite Z.shiftr_div_pow2 by lia.
  replace (2 ^ (32 - n)) with (2 ^ (r_count r - n) * 2 ^ (32 - r_count r)) by (rewrite <- Z.pow_add_r by lia; f_equal; lia).
  apply Z.div_mul_cancel_r; lia.
Qed.
(** The bits left in hand and, where they fall short of sixteen, those of the next word. *)
Definition skipped (n : Z) (r : reader) (X : Z) : reader :=
  let c := r_count r - n in
  if 16 <=? c then Reader (r_pos r) (reg (X mod 2 ^ c) c) c (r_consumed r + n) (r_extra r)
  else Reader (r_pos r + 2) (reg (X mod 2 ^ c * 2 ^ 16 + wordAt (r_pos r)) (c + 16)) (c + 16) (r_consumed r + n) (r_extra r).
Definition skippedValue (n : Z) (r : reader) (X : Z) : Z :=
  let c := r_count r - n in if 16 <=? c then X mod 2 ^ c else X mod 2 ^ c * 2 ^ 16 + wordAt (r_pos r).
Lemma skip_rep r X n : rep r X -> 0 <= n <= 16 -> skip buf n r = skipped n r X /\ rep (skipped n r X) (skippedValue n r X).
Proof using Hbuf.
  intros [Hp Hc Hv Hb] Hn. unfold skip, skipped, skippedValue. set (c := r_count r - n). pose proof (wordAt_bound (r_pos r) Hp) as Hw.
  assert (0 <= X mod 2 ^ c < 2 ^ c) as Hx by (apply Z.mod_pos_bound; lia).
  assert (u32 (r_bits r << n) = reg (X mod 2 ^ c) c) as HB.
  { rewrite Hb. unfold reg, u32. rewrite Z.shiftl_mul_pow2, <- Z.mul_assoc, <- Z.pow_add_r by lia.
    replace (32 - r_count r + n) with (32 - c) by lia. replace (2 ^ 32) with (2 ^ c * 2 ^ (32 - c)) by (rewrite <- Z.pow_add_r by lia; f_equal; lia).
    by rewrite Z.mul_mod_distr_r by lia. }
  rewrite HB. unfold refill. cbn [r_count]. destruct (Z.leb_spec 16 c) as [H16|H16].
  - replace (Z.to_nat ((16 - c + 15) / 16)) with O. { cbn. split; [done|]. split; cbn; lia || done. }
    assert ((16 - c + 15) / 16 <= 0) by (apply Z.lt_succ_r, Z.div_lt_upper_bound; lia). lia.
  - assert (Z.to_nat ((16 - c + 15) / 16) = 1%nat) as ->.
    { replace ((16 - c + 15) / 16) with 1; [done|]. apply Z.div_unique with (16 - c + 15 - 16); lia. }
    cbn. unfold refill_turn. cbn. fold (wordAt (r_pos r)).
    assert (reg (X mod 2 ^ c) c .| u32 (wordAt (r_pos r) << (16 - c)) = reg (X mod 2 ^ c * 2 ^ 16 + wordAt (r_pos r)) (c + 16)) as ->.
    { unfold u32, reg. rewrite Z.shiftl_mul_pow2 by lia. rewrite (Z.mod_small (wordAt (r_pos r) * _)).
      - rewrite <- Z.shiftl_mul_pow2 by lia. rewrite lor_low; [|lia|].
        + replace (32 - (c + 16)) with (16 - c) by lia. assert (2 ^ (32 - c) = 2 ^ 16 * 2 ^ (16 - c)) as -> by (rewrite <- Z.pow_add_r by lia; f_equal; lia). ring.
        + split; [apply Z.mul_nonneg_nonneg; lia|]. replace (32 - c) with (16 + (16 - c)) by lia. rewrite Z.pow_add_r by lia. apply Z.mul_lt_mono_pos_r; lia.
      - split; [apply Z.mul_nonneg_nonneg; lia|]. apply Z.lt_le_trans with (2 ^ 16 * 2 ^ (16 - c)); [apply Z.mul_lt_mono_pos_r; lia|].
        rewrite <- Z.pow_add_r by lia. apply Z.pow_le_mono_r; lia. }
    split; [done|]. split; cbn; [lia..| |done]. rewrite Z.pow_add_r by lia. nia.
Qed.

Lemma skipped_ge n r X : 16 <= r_count r - n ->
  skipped n r X = Reader (r_pos r) (reg (X mod 2 ^ (r_count r - n)) (r_count r - n)) (r_count r - n) (r_consumed r + n) (r_extra r)
  /\ skippedValue n r X = X mod 2 ^ (r_count r - n).
Proof. intros H. unfold skipped, skippedValue. by rewrite (proj2 (Z.leb_le _ _)) by lia. Qed.
Lemma skipped_lt n r X : r_count r - n < 16 ->
  skipped n r X = Reader (r_pos r + 2) (reg (X mod 2 ^ (r_count r - n) * 2 ^ 16 + wordAt (r_pos r)) (r_count r - n + 16)) (r_count r - n + 16) (r_consumed r + n) (r_extra r)
  /\ skippedValue n r X = X mod 2 ^ (r_count r - n) * 2 ^ 16 + wordAt (r_pos r).
Proof. intros H. unfold skipped, skippedValue. by rewrite (proj2 (Z.leb_gt _ _)) by lia. Qed.
Lemma mod_mod_pow x a b : 0 <= b <= a -> (x mod 2 ^ a) mod 2 ^ b = x mod 2 ^ b.
Proof. intros H. apply Z.mod_mod_divide. exists (2 ^ (a - b)). rewrite <- Z.pow_add_r by lia. f_equal. lia. Qed.
Lemma shift_mod_pow x y n k : 0 <= n -> 0 <= k -> 0 <= y < 2 ^ n -> (x * 2 ^ n + y) mod 2 ^ (k + n) = x mod 2 ^ k * 2 ^ n + y.
Proof.
  intros Hn Hk Hy. rewrite Z.pow_add_r, (Z.mul_comm (2 ^ k)), Z.rem_mul_r by lia. rewrite Z.add_comm, Z.div_add_l by lia. rewrite (Z.div_small y) by lia.
  rewrite (Z.add_comm _ y), Z.mod_add by lia. rewrite (Z.mod_small y) by lia. rewrite Z.add_0_r. lia.
Qed.

(** Bits taken in two goes are the bits taken in one. *)
Lemma skipped_skipped r X j m : rep r X -> 0 <= j -> 0 <= m -> j + m <= 16 ->
  skipped m (skipped j r X) (skippedValue j r X) = skipped (j + m) r X.
Proof using Hbuf.
  intros R Hj Hm Hjm. destruct R as [Hp Hc Hv Hb]. pose proof (wordAt_bound (r_pos r) Hp) as Hw.
  destruct (Z.le_gt_cases 16 (r_count r - j)) as [H1|H1].
  - destruct (skipped_ge j r X H1) as [-> ->]. destruct (Z.le_gt_cases 16 (r_count r - (j + m))) as [H2|H2].
    + destruct (skipped_ge (j + m) r X H2) as [-> _]. erewrite (proj1 (skipped_ge _ _ _ _)). cbn. rewrite mod_mod_pow by lia.
      replace (r_count r - j - m) with (r_count r - (j + m)) by lia. f_equal. lia.
    + destruct (skipped_lt (j + m) r X H2) as [-> _]. erewrite (proj1 (skipped_lt _ _ _ _)). cbn. rewrite mod_mod_pow by lia.
      replace (r_count r - j - m) with (r_count r - (j + m)) by lia. f_equal. lia.
  - destruct (skipped_lt j r X H1) as [-> ->]. destruct (skipped_lt (j + m) r X) as [-> _]; [lia|]. erewrite (proj1 (skipped_ge _ _ _ _)). cbn.
    replace (r_count r - j + 16 - m) with (r_count r - (j + m) + 16) by lia. rewrite shift_mod_pow by lia. rewrite mod_mod_pow by lia. f_equal. lia.
  Unshelve. all: cbn; lia.
Qed.
Lemma skip_skip r X j m : rep r X -> 0 <= j -> 0 <= m -> j + m <= 16 -> skip buf m (skip buf j r) = skip buf (j + m) r.
Proof using Hbuf.
  intros R Hj Hm Hjm. destruct (skip_rep r X j R) as [-> R1]; [lia|]. destruct (skip_rep _ _ m R1) as [-> _]; [lia|].
  destruct (skip_rep r X (j + m) R) as [-> _]; [lia|]. by apply skipped_skipped.
Qed.
Lemma peek_skip r X j m : rep r X -> 0 <= j -> 0 <= m -> j + m <= 16 -> peek m (skip buf j r) = peek (j + m) r mod 2 ^ m.
Proof using Hbuf.
  intros R Hj Hm Hjm. destruct (skip_rep r X j R) as [-> R1]; [lia|]. rewrite (peek_rep _ _ _ R1), (peek_rep _ _ _ R) by lia.
  destruct R as [Hp Hc Hv Hb]. pose proof (wordAt_bound (r_pos r) Hp) as Hw.
  destruct (Z.le_gt_cases 16 (r_count r - j)) as [H1|H1].
  - destruct (skipped_ge j r X H1) as [-> ->]. cbn. replace (r_count r - j - m) with (r_count r - (j + m)) by lia.
    replace (r_count r - j) with ((r_count r - (j + m)) + m) by lia. by apply mod_div_pow; lia.
  - destruct (skipped_lt j r X H1) as [-> ->]. cbn. set (k := r_count r - (j + m)). replace (r_count r - j + 16 - m) with (16 + k) by lia.
    replace (r_count r - j) with (k + m) by lia. rewrite (Z.pow_add_r 2 16 k), <- Z.div_div by lia. rewrite Z.div_add_l by lia. rewrite (Z.div_small (wordAt _)) by lia.
    rewrite Z.add_0_r. apply mod_div_pow; lia.
Qed.
Lemma skip_0 r X : rep r X -> skip buf 0 r = r.
Proof using Hbuf.
  intros R. destruct (skip_rep r X 0 R) as [-> _]; [lia|]. destruct R as [Hp Hc Hv Hb]. destruct (skipped_ge 0 r X) as [-> _]; [lia|].
  rewrite Z.sub_0_r, Z.add_0_r, Z.mod_small by lia. rewrite <- Hb. by destruct r.
Qed.
Lemma peek_prefix r X j l : rep r X -> 0 <= j <= l -> l <= 16 -> peek j r = peek l r / 2 ^ (l - j).
Proof.
  intros R Hj Hl. rewrite !(peek_rep r X) by (done || lia). destruct R as [Hp Hc Hv Hb]. rewrite Z.div_div by lia. rewrite <- Z.pow_add_r by lia. do 2 f_equal. lia.
Qed.
End reads.

(** ** Reader and writer in step

    [R] is what the reader reads: the block from [base] of the final buffer [F] on, and
    whatever follows it. *)
Section step_by_step.
Context {E : Type} (F R : list Z) (base : Z).
Context (HR : bytes R) (Hbase : 0 <= base) (Hsame : forall p : nat, base <= Z.of_nat p < zlen F -> R !! Z.to_nat (Z.of_nat p - base) = F !! p)
  (Hlen : zlen F - base <= zlen R).

Record sync (w : writer) (r : reader) : Prop := Sync {
  sy_wf : wf w; sy_base : base <= w_pos1 w; sy_free : w_freeBits w <= 15;
  sy_pos : r_pos r = zlen (w_buf w) - base; sy_count : r_count r = w_freeBits w + 16;
  sy_bits : r_bits r = reg (w16 F (w_pos1 w) mod 2 ^ w_freeBits w * 2 ^ 16 + w16 F (w_pos2 w)) (r_count r);
  sy_words : exists k, r_consumed r = 16 * k - w_freeBits w /\ zlen (w_buf w) - base = 2 * (k + 1) + r_extra r;
}.
(** Before the first bit the reader has one word in hand and the writer two reserved. *)
Record starts (w : writer) (r : reader) : Prop := Starts {
  st_wf : wf w; st_pos1 : w_pos1 w = base; st_pos2 : w_pos2 w = base + 2; st_free : w_freeBits w = 16; st_len : zlen (w_buf w) = base + 4;
  st_reader : r = Reader 2 (reg (w16 F base) 16) 16 0 0;
}.

Lemma sub_R i j : base <= i -> i <= j -> j <= zlen F -> sub R (i - base) (j - base) = sub F i j.
Proof using Hsame Hlen Hbase.
  intros Hi Hj HF. apply list_eq. intros k. unfold sub. replace (j - base - (i - base)) with (j - i) by lia. destruct (decide (k < Z.to_nat (j - i))%nat).
  - rewrite !lookup_take_lt, !lookup_drop by lia. rewrite <- (Hsame (Z.to_nat i + k)%nat) by lia. f_equal. lia.
  - by rewrite !lookup_take_ge by lia.
Qed.
Lemma wordAt_R p : base <= p -> p + 2 <= zlen F -> wordAt R (p - base) = w16 F p.
Proof using Hsame Hlen Hbase.
  intros Hp HF. unfold wordAt, w16. rewrite (proj2 (Z.leb_le _ _)) by lia. replace (p - base + 2) with (p + 2 - base) by lia. by rewrite sub_R by lia.
Qed.
Lemma starts_newReader buf : bytes buf -> zlen buf = base -> finishes (newWriter buf) F -> starts (newWriter buf) (newReader R).
Proof using Hsame Hlen Hbase.
  intros Hb Hl Fi. pose proof (f_len _ _ Fi) as HL. cbn in HL. rewrite zlen_app in HL. change (zlen [0; 0; 0; 0]) with 4 in HL.
  split; cbn; try lia; [by apply newWriter_wf|rewrite zlen_app; by rewrite Hl|].
  assert (newReader R = Reader 2 (Z.lor 0 (u32 (wordAt R 0 << 16))) 16 0 0) as -> by reflexivity.
  pose proof (wordAt_R base) as Hw. rewrite Z.sub_diag in Hw. pose proof (w16_bound F base (f_bytes _ _ Fi)).
  rewrite Hw by lia. f_equal. unfold reg, u32. rewrite Z.lor_0_l, Z.shiftl_mul_pow2 by lia. rewrite Z.mod_small by lia. done.
Qed.
Lemma starts_rep w r : bytes F -> starts w r -> finishes w F -> rep r (w16 F base).
Proof using Hbase.
  intros Hb [S1 S2 S3 S4 S5 ->] Fi. pose proof (f_len _ _ Fi). split; cbn; [lia|lia| |done]. apply w16_bound; [done|lia|lia].
Qed.
Lemma sync_rep w r : sync w r -> finishes w F -> rep r (w16 F (w_pos1 w) mod 2 ^ w_freeBits w * 2 ^ 16 + w16 F (w_pos2 w)).
Proof using Hbase.
  intros [[W1 W2 W3 W4 W5 W6] S2 S3 S4 S5 S6 S7] Fi. pose proof (f_len _ _ Fi). pose proof (f_bytes _ _ Fi) as Hb.
  split; [lia|lia| |done]. pose proof (w16_bound F (w_pos2 w) Hb). pose proof (Z.mod_pos_bound (w16 F (w_pos1 w)) (2 ^ w_freeBits w)).
  rewrite S5, Z.pow_add_r by lia. nia.
Qed.
(** The bits the writer wrote are the next ones the reader has, and past them the two are in
    step again. *)
Lemma sync_fits w r n v : sync w r -> 1 <= n <= w_freeBits w -> 0 <= v < 2 ^ n ->
  exists w', @writeBits E n v w = Ok w' /\ wf w' /\
    (finishes w' F -> finishes w F /\ peek n r = v /\ sync w' (skip R n r)).
Proof using HR Hbase.
  intros S Hn Hv. destruct (@writeBits_fits E w (sy_wf _ _ S) n v) as (w' & E1 & W' & B1 & B2 & B3 & B4 & K); [done..|].
  exists w'. split; [done|]. split; [done|]. intros Fi. destruct (K F Fi) as [Fw Hpk]. split; [done|].
  pose proof (sync_rep _ _ S Fw) as Rp. destruct S as [S1 S2 S3 S4 S5 S6 (k & S7 & S8)]. pose proof (wf_free _ S1).
  pose proof (w16_bound F (w_pos2 w) (f_bytes _ _ Fw)). pose proof (wf_pos1 _ S1). pose proof (wf_pos2 _ S1). pose proof (wf_len _ S1). pose proof (f_len _ _ Fw).
  split.
  - rewrite (peek_rep _ _ _ Rp) by lia. rewrite S5. replace (w_freeBits w + 16 - n) with (16 + (w_freeBits w - n)) by lia.
    rewrite (Z.pow_add_r 2 16), <- Z.div_div, Z.div_add_l, (Z.div_small (w16 _ _)), Z.add_0_r by lia. done.
  - destruct (skip_rep R HR _ _ n Rp) as [-> _]; [lia|]. destruct (skipped_ge R n r (w16 F (w_pos1 w) mod 2 ^ w_freeBits w * 2 ^ 16 + w16 F (w_pos2 w))) as [-> _]; [lia|].
    split; cbn [r_pos r_count r_bits r_consumed r_extra]; rewrite ?B1, ?B2, ?B3, ?B4; try done; try lia.
    + rewrite S5. replace (w_freeBits w + 16 - n) with (w_freeBits w - n + 16) by lia. rewrite shift_mod_pow by lia. by rewrite mod_mod_pow by lia.
    + exists k. lia.
Qed.
Lemma sync_spills w r n v : sync w r -> w_freeBits w < n <= 16 -> 0 <= v < 2 ^ n ->
  exists w', @writeBits E n v w = Ok w' /\ wf w' /\
    (finishes w' F -> finishes w F /\ peek n r = v /\ sync w' (skip R n r)).
Proof using HR Hsame Hlen Hbase.
  intros S Hn Hv. destruct (@writeBits_spills E w (sy_wf _ _ S) n v) as (w' & E1 & W' & B1 & B2 & B3 & B4 & K); [done..|].
  exists w'. split; [done|]. split; [done|]. intros Fi. destruct (K F Fi) as [Fw [Hp1 Hp2]]. split; [done|].
  pose proof (sync_rep _ _ S Fw) as Rp. destruct S as [S1 S2 S3 S4 S5 S6 (k & S7 & S8)]. pose proof (wf_free _ S1). pose proof (f_len _ _ Fi).
  pose proof (w16_bound F (w_pos2 w) (f_bytes _ _ Fw)). pose proof (wf_pos1 _ S1). pose proof (wf_pos2 _ S1). pose proof (wf_len _ S1).
  set (f := w_freeBits w) in *. split.
  - rewrite (peek_rep _ _ _ Rp) by lia. rewrite S5, Hp1. replace (2 ^ 16) with (2 ^ (n - f) * 2 ^ (f + 16 - n)) by (rewrite <- Z.pow_add_r by lia; f_equal; lia).
    rewrite Z.mul_assoc, Z.div_add_l, Hp2 by lia. rewrite (Z.mul_comm (v / _)). symmetry. apply Z.div_mod. lia.
  - destruct (skip_rep R HR _ _ n Rp) as [-> _]; [lia|]. destruct (skipped_lt R n r (w16 F (w_pos1 w) mod 2 ^ f * 2 ^ 16 + w16 F (w_pos2 w))) as [-> _]; [lia|].
    split; cbn [r_pos r_count r_bits r_consumed r_extra]; rewrite ?B1, ?B2, ?B3, ?B4; try done; try lia.
    + rewrite S4, wordAt_R, S5 by lia. do 3 f_equal. replace (f + 16 - n) with (0 + (f + 16 - n)) by lia.
      replace (2 ^ 16) with (2 ^ (n - f) * 2 ^ (f + 16 - n)) by (rewrite <- Z.pow_add_r by lia; f_equal; lia).
      rewrite Z.mul_assoc, Z.add_comm, Z.add_0_l, Z.mod_add by lia. done.
    + exists (k + 1). lia.
Qed.
Lemma starts_bits w r n v : starts w r -> 1 <= n <= 16 -> 0 <= v < 2 ^ n ->
  exists w', @writeBits E n v w = Ok w' /\ wf w' /\
    (finishes w' F -> finishes w F /\ rep r (w16 F base) /\ peek n r = v /\ sync w' (skip R n r)).
Proof using HR Hsame Hlen Hbase.
  intros S Hn Hv. pose proof S as [S1 S2 S3 S4 S5 S6]. destruct (@writeBits_fits E w S1 n v) as (w' & E1 & W' & B1 & B2 & B3 & B4 & K); [lia..|].
  exists w'. split; [done|]. split; [done|]. intros Fi. destruct (K F Fi) as [Fw Hpk]. split; [done|]. pose proof (starts_rep _ _ (f_bytes _ _ Fw) S Fw) as Rp. split; [done|].
  pose proof (f_len _ _ Fw). rewrite S4, S2 in Hpk. pose proof (w16_bound F base (f_bytes _ _ Fw)). rewrite (Z.mod_small (w16 F base)) in Hpk by lia. split.
  - rewrite (peek_rep _ _ _ Rp) by lia. by rewrite S6.
  - destruct (skip_rep R HR _ _ n Rp) as [-> _]; [lia|]. destruct (skipped_lt R n r (w16 F base)) as [-> _]; [rewrite S6; cbn; lia|]. subst r. cbn [r_pos r_count r_bits r_consumed r_extra].
    split; cbn [r_pos r_count r_bits r_consumed r_extra]; rewrite ?B1, ?B2, ?B3, ?B4; try done; try lia.
    + rewrite S2, S3, S4. replace 2 with (base + 2 - base) at 3 by lia. by rewrite wordAt_R by lia.
    + exists 1. lia.
Qed.
Lemma sync_bits w r n v : sync w r -> 0 <= n <= 16 -> 0 <= v < 2 ^ n ->
  exists w', @writeBits E n v w = Ok w' /\ wf w' /\
    (finishes w' F -> finishes w F /\ exists r', take_ R n r = (v, r') /\ sync w' r').
Proof using HR Hsame Hlen Hbase.
  intros S Hn Hv. unfold take_. destruct (Z.eqb_spec n 0) as [->|H0].
  { exists w. split; [done|]. split; [apply S|]. intros Fi. split; [done|]. exists r. split; [f_equal; lia|done]. }
  destruct (Z.le_gt_cases n (w_freeBits w)).
  - destruct (sync_fits w r n v S) as (w' & E1 & W' & K); [lia..|]. exists w'. split; [done|]. split; [done|]. intros Fi. destruct (K Fi) as (K1 & -> & K2). eauto.
  - destruct (sync_spills w r n v S) as (w' & E1 & W' & K); [lia..|]. exists w'. split; [done|]. split; [done|]. intros Fi. destruct (K Fi) as (K1 & -> & K2). eauto.
Qed.
Lemma sync_raw w r bs : sync w r -> bytes bs -> finishes (writeRaw bs w) F ->
  finishes w F /\ sync (writeRaw bs w) (Reader (r_pos r + zlen bs) (r_bits r) (r_count r) (r_consumed r) (r_extra r + zlen bs)) /\
  r_pos r + zlen bs <= zlen R /\ sub R (r_pos r) (r_pos r + zlen bs) = bs.
Proof using Hsame Hlen Hbase.
  intros S Hb Fi. destruct (writeRaw_spec w (sy_wf _ _ S) bs Hb) as [W' K]. destruct (K F Fi) as [Fw Hs]. split; [done|].
  destruct S as [S1 S2 S3 S4 S5 S6 (k & S7 & S8)]. pose proof (f_len _ _ Fi) as HL. cbn in HL. rewrite zlen_app in HL. pose proof (zlen_nonneg bs).
  pose proof (wf_pos1 _ S1). pose proof (wf_pos2 _ S1). pose proof (wf_len _ S1).
  split; [|split; [lia|]].
  - split; cbn [r_pos r_count r_bits r_consumed r_extra writeRaw w_buf w_pos1 w_pos2 w_freeBits]; rewrite ?zlen_app; try done; try lia. exists k. lia.
  - etransitivity; [|exact Hs]. rewrite S4. replace (zlen (w_buf w) - base + zlen bs) with (zlen (w_buf w) + zlen bs - base) by lia. apply sub_R; lia.
Qed.
Lemma sync_byte w r b : sync w r -> is_u8 b -> finishes (writeByte b w) F ->
  finishes w F /\ exists r', readByte R r = Some (b, r') /\ sync (writeByte b w) r'.
Proof using Hsame Hlen Hbase.
  intros S Hb Fi. destruct (sync_raw w r [b] S) as (Fw & S' & HL & Hs); [by constructor|done|]. change (zlen [b]) with 1 in *. split; [done|].
  assert (0 <= r_pos r) as Hp by (pose proof (sy_pos _ _ S); pose proof (wf_pos1 _ (sy_wf _ _ S)); pose proof (wf_pos2 _ (sy_wf _ _ S)); pose proof (wf_len _ (sy_wf _ _ S)); pose proof (sy_base _ _ S); lia).
  eexists. split; [|exact S']. unfold readByte. destruct (Z.geb_spec (r_pos r) (zlen R)); [lia|].
  assert (R !! Z.to_nat (r_pos r) = Some b) as ->; [|done]. assert (sub R (r_pos r) (r_pos r + 1) !! O = Some b) as Hl by (by rewrite Hs). rewrite lookup_sub in Hl by lia. by rewrite Nat.add_0_r in Hl.
Qed.
Lemma sync_word w r (n : nat) v : sync w r -> 0 <= v < 2 ^ (8 * Z.of_nat n) -> finishes (writeRaw (le_enc n v) w) F ->
  finishes w F /\ exists r', readRaw R (Z.of_nat n) r = Some (v, r') /\ sync (writeRaw (le_enc n v) w) r'.
Proof using Hsame Hlen Hbase.
  intros S Hv Fi. destruct (sync_raw w r (le_enc n v) S) as (Fw & S' & HL & Hs); [apply bytes_le_enc|done|]. rewrite zlen_le_enc in *. split; [done|].
  eexists. split; [|exact S']. unfold readRaw. destruct (Z.gtb_spec (r_pos r + Z.of_nat n) (zlen R)); [lia|]. rewrite Hs, le_dec_enc_small by done. done.
Qed.
(** Where the block ends. *)
Lemma sync_used w r : sync w r -> 2 * ((r_consumed r + 15) / 16 + 1) + r_extra r = zlen (w_buf w) - base.
Proof.
  intros [W S2 S3 S4 S5 S6 (k & S7 & S8)]. pose proof (wf_free _ W). rewrite S7, S8. replace (16 * k - w_freeBits w + 15) with (15 - w_freeBits w + k * 16) by lia.
  rewrite Z.div_add by lia. rewrite Z.div_small by lia. lia.
Qed.
End step_by_step.
End HuffBits.
