(* ===== verification/HuffCode.v ===== *)
(** [compress/huffman/code.go]: the code lengths of a Huffman tree, the canonical codes they
    stand for, and the table a decoder walks.

    The lengths always satisfy the Kraft inequality and are at most fifteen, whatever the
    frequencies; under it the canonical codes fit their lengths and no code begins another,
    so that the table reads each code back as its symbol.  The flattening of the frequencies
    ends: a tree as deep as sixteen takes a total frequency no flattened block has. *)
From stdpp Require Import sorting.
From S2P Require Import Prelude Bytes HuffBits.
Import HuffBits.

Module HuffCode.

Definition symbolCount : Z := 512.
Definition eofSymbol : Z := 256.
Definition maxCodeLen : Z := 15.

(** ** The tree *)
Inductive node := Leaf (freq symbol : Z) | Join (freq : Z) (left right : node).
Definition nfreq (n : node) : Z := match n with Leaf f _ | Join f _ _ => f end.
(** The order of [sort.Slice]; every node it is asked about is a leaf. *)
Definition nsymbol (n : node) : Z := match n with Leaf _ s => s | Join _ _ _ => -1 end.
Definition nodeLe (a b : node) : Prop := nfreq a < nfreq b \/ (nfreq a = nfreq b /\ nsymbol a <= nsymbol b).
#[export] Instance nodeLe_dec : RelDecision nodeLe.
Proof. intros a b. unfold nodeLe. apply _. Defined.

Section codes.
Context {E : Type}.
Abbreviation out := (outcome E).

Fixpoint leaves (sym : Z) (freq : list Z) : list node :=
  match freq with
  | [] => []
  | f :: rest => if f >? 0 then Leaf f sym :: leaves (sym + 1) rest else leaves (sym + 1) rest
  end.
(** [sort.Search] finds the first entry that is no rarer, the list being in order. *)
Fixpoint insertNode (j : node) (live : list node) : list node :=
  match live with
  | [] => [j]
  | n :: rest => if nfreq n >=? nfreq j then j :: n :: rest else n :: insertNode j rest
  end.
Fixpoint joinAll (fuel : nat) (live : list node) : out node :=
  match fuel with
  | O => Stuck
  | S fuel =>
      match live with
      | a :: b :: rest => joinAll fuel (insertNode (Join (u32 (nfreq a + nfreq b)) a b) rest)
      | [n] => mret n
      | [] => Panic
      end
  end.
Fixpoint depth (n : node) (d : Z) (lengths : list Z) : out (list Z) :=
  match n with
  | Leaf _ s => store lengths s d
  | Join _ l r => lengths ← depth l (u8 (d + 1)) lengths; depth r (u8 (d + 1)) lengths
  end.
Definition huffmanLengths (freq : list Z) : out (list Z) :=
  let live := leaves 0 freq in
  let lengths := replicate (Z.to_nat symbolCount) 0 in
  match live with
  | [] => mret lengths
  | [n] => store lengths (nsymbol n) 1
  | _ => root ← joinAll (length live) (merge_sort nodeLe live); depth root 0 lengths
  end.
Definition flatten (freq : list Z) : list Z := (fun f => if f >? 1 then u32 (f + 1) / 2 else f) <$> freq.
Definition longest (lengths : list Z) : Z := fold_left (fun m l => if l >? m then l else m) lengths 0.
Fixpoint codeLengths (fuel : nat) (freq : list Z) : out (list Z) :=
  match fuel with
  | O => Stuck
  | S fuel =>
      lengths ← huffmanLengths freq;
      if longest lengths <=? maxCodeLen then mret lengths else codeLengths fuel (flatten freq)
  end.

(** ** Codes and tables

    [wrap] is the width of the counters: sixteen bits where codes are given out, an [int]
    where they are read. *)
Fixpoint tally (wrap : Z -> Z) (lengths count : list Z) : out (list Z) :=
  match lengths with
  | [] => mret count
  | l :: rest =>
      if l >? 0 then c ← index count l; count ← store count l (wrap (c + 1)); tally wrap rest count
      else tally wrap rest count
  end.
Fixpoint nextCodes (n : nat) (l code : Z) (count next : list Z) : out (list Z) :=
  match n with
  | O => mret next
  | S n =>
      c ← index count (l - 1);
      let code := u16 ((code + c) << 1) in
      next ← store next l code;
      nextCodes n (l + 1) code count next
  end.
Fixpoint assignCodes (lengths : list Z) (sym : Z) (next codes : list Z) : out (list Z) :=
  match lengths with
  | [] => mret codes
  | l :: rest =>
      if l >? 0 then
        c ← index next l; codes ← store codes sym c; next ← store next l (u16 (c + 1)); assignCodes rest (sym + 1) next codes
      else assignCodes rest (sym + 1) next codes
  end.
Definition noCounts : list Z := replicate (Z.to_nat (maxCodeLen + 1)) 0.
Definition canonicalCodes (lengths : list Z) : out (list Z) :=
  count ← tally u16 lengths noCounts;
  next ← nextCodes (Z.to_nat maxCodeLen) 1 0 count noCounts;
  assignCodes lengths 0 next (replicate (length lengths) 0).

Record decodeTable := DecodeTable { t_count : list Z; t_symbols : list Z }.
Fixpoint offsets (n : nat) (l : Z) (count offset : list Z) : out (list Z) :=
  match n with
  | O => mret offset
  | S n => o ← index offset l; c ← index count l; offset ← store offset (l + 1) (o + c); offsets n (l + 1) count offset
  end.
Fixpoint fillSymbols (lengths : list Z) (sym : Z) (offset symbols : list Z) : out (list Z) :=
  match lengths with
  | [] => mret symbols
  | l :: rest =>
      if l >? 0 then
        o ← index offset l; symbols ← store symbols o (u16 sym); offset ← store offset l (o + 1); fillSymbols rest (sym + 1) offset symbols
      else fillSymbols rest (sym + 1) offset symbols
  end.
Definition newDecodeTable (lengths : list Z) : out decodeTable :=
  count ← tally id lengths noCounts;
  offset ← offsets (Z.to_nat maxCodeLen) 1 count (replicate (Z.to_nat (maxCodeLen + 2)) 0);
  total ← index offset (maxCodeLen + 1);
  symbols ← fillSymbols lengths 0 offset (replicate (Z.to_nat total) 0);
  mret (DecodeTable count symbols).

(** The walk of [symbol], with the lengths still to try. *)
Fixpoint symbol_loop (n : nat) (buf : list Z) (t : decodeTable) (l code first idx : Z) (r : reader) : out (option (Z * reader)) :=
  match n with
  | O => mret None
  | S n =>
      let '(b, r) := take_ buf 1 r in
      let code := code .| b in
      c ← index (t_count t) l;
      if code - first <? c then s ← index (t_symbols t) (idx + code - first); mret (Some (s, r))
      else symbol_loop n buf t (l + 1) (code << 1) ((first + c) << 1) (idx + c) r
  end.
Definition symbol (buf : list Z) (t : decodeTable) (r : reader) : out (option (Z * reader)) :=
  symbol_loop (Z.to_nat maxCodeLen) buf t 1 0 0 0 r.
End codes.

(** ** Arrays as functions *)
Section arrays.
Context {E : Type}.
Definition arr (a : list Z) (n : Z) (f : Z -> Z) : Prop := zlen a = n /\ forall i, 0 <= i < n -> a !! Z.to_nat i = Some (f i).
Lemma arr_index a n f i : arr a n f -> 0 <= i < n -> @index E Z a i = Ok (f i).
Proof. intros [_ Ha] Hi. apply index_Ok. split; [lia|]. by apply Ha. Qed.
Lemma arr_store a n f i v : arr a n f -> 0 <= i < n -> exists a', @store E Z a i v = Ok a' /\ arr a' n (fun j => if j =? i then v else f j).
Proof.
  intros [Hl Ha] Hi. exists (<[Z.to_nat i := v]> a). split; [apply store_ok; lia|]. split; [by rewrite zlen_insert|]. intros j Hj.
  destruct (Z.eqb_spec j i) as [->|]; [apply list_lookup_insert_eq; unfold zlen in *; lia|]. rewrite list_lookup_insert_ne by lia. by apply Ha.
Qed.
Lemma arr_ext a n f g : arr a n f -> (forall i, 0 <= i < n -> f i = g i) -> arr a n g.
Proof. intros [Hl Ha] H. split; [done|]. intros i Hi. rewrite <- H by done. by apply Ha. Qed.
Lemma arr_replicate (n : nat) v : arr (replicate n v) (Z.of_nat n) (fun _ => v).
Proof. split; [apply zlen_replicate|]. intros i Hi. apply lookup_replicate. split; [done|lia]. Qed.
End arrays.

(** ** Counting lengths *)
Definition num (l : Z) (ks : list Z) : Z := Z.of_nat (length (filter (fun x => x = l) ks)).
Lemma num_cons l k ks : num l (k :: ks) = (if k =? l then 1 else 0) + num l ks.
Proof. unfold num. rewrite filter_cons. destruct (Z.eqb_spec k l), (decide (k = l)); try done. simpl. lia. Qed.
Lemma num_app l ks js : num l (ks ++ js) = num l ks + num l js.
Proof. unfold num. rewrite filter_app, length_app. lia. Qed.
Lemma num_nonneg l ks : 0 <= num l ks.
Proof. unfold num. lia. Qed.
Lemma num_le l ks : num l ks <= zlen ks.
Proof. unfold num, zlen. pose proof (length_filter (fun x => x = l) ks). lia. Qed.
Lemma num_take l ks s : ks !! s = Some l -> num l (take s ks) < num l ks.
Proof.
  intros H. rewrite <- (take_drop_middle ks s l H) at 2. rewrite num_app, num_cons, Z.eqb_refl. pose proof (num_nonneg l (drop (S s) ks)). lia.
Qed.
Definition lengthsOk (ls : list Z) : Prop := Forall (fun l => 0 <= l <= maxCodeLen) ls.

Section tallies.
Context {E : Type} (wrap : Z -> Z) (Hwrap : forall x, 0 <= x < 2 ^ 16 -> wrap x = x).
Lemma tally_spec ks : lengthsOk ks -> forall count f, arr count 16 f -> (forall l, 0 <= f l /\ f l + zlen ks < 2 ^ 16) ->
  exists count', @tally E wrap ks count = Ok count' /\ arr count' 16 (fun l => f l + if 0 <? l then num l ks else 0).
Proof using Hwrap.
  intros Hks. induction Hks as [|k ks Hk _ IH]; intros count f Hc Hf; simpl.
  { exists count. split; [done|]. eapply arr_ext; [exact Hc|]. intros i _. cbv beta. change (num i []) with 0. destruct (0 <? i); lia. }
  setoid_rewrite zlen_cons in Hf. pose proof (zlen_nonneg ks). destruct (Z.gtb_spec k 0) as [H0|H0].
  - unfold maxCodeLen in Hk. rewrite (arr_index _ _ _ _ Hc) by lia. run_bind.
    destruct (@arr_store E _ _ _ k (wrap (f k + 1)) Hc) as (c' & -> & Hc'); [lia|]. run_bind.
    destruct (IH c' _ Hc') as (c2 & E2 & H2).
    { intros l. pose proof (Hf l). pose proof (Hf k). rewrite Hwrap by lia. destruct (Z.eqb_spec l k); subst; lia. }
    exists c2. split; [done|]. eapply arr_ext; [exact H2|]. intros i Hi. cbv beta. pose proof (Hf k). rewrite num_cons, Hwrap by lia.
    destruct (Z.eqb_spec i k) as [<-|]; [rewrite Z.eqb_refl; destruct (Z.ltb_spec 0 i); lia|].
    destruct (Z.eqb_spec k i), (Z.ltb_spec 0 i); lia.
  - destruct (IH count f Hc) as (c2 & E2 & H2); [intros l; pose proof (Hf l); lia|]. exists c2. split; [done|]. eapply arr_ext; [exact H2|].
    intros i Hi. cbv beta. rewrite num_cons. destruct (Z.ltb_spec 0 i); [|lia]. destruct (Z.eqb_spec k i); lia.
Qed.
Lemma tally_counts ks : lengthsOk ks -> zlen ks < 2 ^ 16 ->
  exists count, @tally E wrap ks noCounts = Ok count /\ arr count 16 (fun l => if 0 <? l then num l ks else 0).
Proof using Hwrap.
  intros Hk Hl. destruct (tally_spec ks Hk noCounts (fun _ => 0)) as (c & -> & Hc); [apply (arr_replicate 16)|intros; lia|]. eauto.
Qed.
End tallies.

(** ** The codes *)
Section canonical.
Context {E : Type} (ls : list Z) (Hls : lengthsOk ls) (Hlen : zlen ls <= symbolCount).
Definition cnt (n : nat) : Z := match n with O => 0 | S _ => num (Z.of_nat n) ls end.
Fixpoint firstCode (n : nat) : Z := match n with O => 0 | S m => (firstCode m + cnt m) * 2 end.
Fixpoint before (n : nat) : Z := match n with O => 0 | S m => before m + cnt m end.
Definition codeOf (s : nat) (l : Z) : Z := firstCode (Z.to_nat l) + num l (take s ls).

(** The Kraft sum, scaled to the longest code. *)
Definition share (l : Z) : Z := if 0 <? l then 2 ^ (maxCodeLen - l) else 0.
Fixpoint kraft (ks : list Z) : Z := match ks with [] => 0 | k :: ks => share k + kraft ks end.
Fixpoint shares (n : nat) (ks : list Z) : Z := match n with O => 0 | S m => shares m ks + num (Z.of_nat n) ks * 2 ^ (maxCodeLen - Z.of_nat n) end.
Lemma cnt_nonneg n : 0 <= cnt n.
Proof. destruct n; simpl; [lia|]. apply num_nonneg. Qed.
Lemma share_nonneg l : 0 <= share l.
Proof. unfold share. destruct (0 <? l); lia. Qed.
Lemma shares_cons n k ks : shares n (k :: ks) = (if (0 <? k) && (k <=? Z.of_nat n) then share k else 0) + shares n ks.
Proof.
  induction n as [|n IH]; cbn [shares].
  - destruct (Z.ltb_spec 0 k), (Z.leb_spec k (Z.of_nat 0)); simpl; lia.
  - rewrite IH, num_cons. unfold share. destruct (Z.ltb_spec 0 k); cbn [andb].
    + destruct (Z.eqb_spec k (Z.of_nat (S n))) as [->|].
      * rewrite (proj2 (Z.leb_gt _ _)), (proj2 (Z.leb_le _ _)) by lia. lia.
      * destruct (Z.leb_spec k (Z.of_nat n)), (Z.leb_spec k (Z.of_nat (S n))); lia.
    + destruct (Z.eqb_spec k (Z.of_nat (S n))); lia.
Qed.
Lemma shares_le n ks : shares n ks <= kraft ks.
Proof.
  induction ks as [|k ks IH]; [simpl; induction n; simpl; unfold num in *; simpl in *; lia|]. rewrite shares_cons. cbn [kraft]. pose proof (share_nonneg k).
  destruct ((0 <? k) && (k <=? Z.of_nat n)); lia.
Qed.
Lemma firstCode_shares n : (n <= 15)%nat -> (firstCode n + cnt n) * 2 ^ (maxCodeLen - Z.of_nat n) = shares n ls.
Proof.
  unfold maxCodeLen. induction n as [|n IH]; intros Hn; [done|]. cbn [firstCode shares cnt]. rewrite <- IH by lia.
  replace (15 - Z.of_nat n) with (1 + (15 - Z.of_nat (S n))) by lia. rewrite Z.pow_add_r by lia. change maxCodeLen with 15. ring.
Qed.

Context (HK : kraft ls <= 2 ^ maxCodeLen).
Lemma code_bound n : (n <= 15)%nat -> firstCode n + cnt n <= 2 ^ Z.of_nat n.
Proof using HK.
  intros Hn. pose proof (firstCode_shares n Hn) as Hs. pose proof (shares_le n ls). unfold maxCodeLen in *.
  apply Z.mul_le_mono_pos_r with (2 ^ (15 - Z.of_nat n)); [lia|]. rewrite <- Z.pow_add_r by lia. replace (Z.of_nat n + (15 - Z.of_nat n)) with 15 by lia. lia.
Qed.
Lemma firstCode_nonneg n : 0 <= firstCode n.
Proof. induction n as [|n IH]; simpl; [lia|]. pose proof (cnt_nonneg n). lia. Qed.
Lemma before_nonneg n : 0 <= before n.
Proof. induction n as [|n IH]; simpl; [lia|]. pose proof (cnt_nonneg n). lia. Qed.
(** A code is no extension of a shorter one. *)
Lemma firstCode_grows n k : (firstCode n + cnt n) * 2 ^ Z.of_nat (S k) <= firstCode (n + S k).
Proof.
  induction k as [|k IH]; [replace (n + 1)%nat with (S n) by lia; simpl; lia|].
  replace (n + S (S k))%nat with (S (n + S k)) by lia. cbn [firstCode]. pose proof (cnt_nonneg (n + S k)).
  replace (Z.of_nat (S (S k))) with (1 + Z.of_nat (S k)) by lia. rewrite Z.pow_add_r by lia. lia.
Qed.
Lemma cnt_pos l : 1 <= l -> cnt (Z.to_nat l) = num l ls.
Proof. intros Hl. destruct (Z.to_nat l) as [|n] eqn:E'; [lia|]. simpl. f_equal. lia. Qed.
Lemma codeOf_bound s l : ls !! s = Some l -> 1 <= l <= maxCodeLen -> firstCode (Z.to_nat l) <= codeOf s l < firstCode (Z.to_nat l) + cnt (Z.to_nat l).
Proof. intros Hs Hl. unfold codeOf. rewrite cnt_pos by lia. pose proof (num_take l ls s Hs). pose proof (num_nonneg l (take s ls)). lia. Qed.
Lemma codeOf_fits s l : ls !! s = Some l -> 1 <= l <= maxCodeLen -> 0 <= codeOf s l < 2 ^ l.
Proof using HK.
  intros Hs Hl. pose proof (codeOf_bound s l Hs Hl). unfold maxCodeLen in *. pose proof (code_bound (Z.to_nat l)). pose proof (firstCode_nonneg (Z.to_nat l)). rewrite Z2Nat.id in * by lia. lia.
Qed.

Lemma nextCodes_spec n : forall l code count next g,
  1 <= l -> l + Z.of_nat n = 16 -> code = firstCode (Z.to_nat (l - 1)) -> arr count 16 (fun i => if 0 <? i then num i ls else 0) ->
  arr next 16 g -> (forall i, 1 <= i < l -> g i = firstCode (Z.to_nat i)) ->
  exists next', @nextCodes E n l code count next = Ok next' /\ exists g', arr next' 16 g' /\ forall i, 1 <= i < 16 -> g' i = firstCode (Z.to_nat i).
Proof using HK.
  induction n as [|n IH]; intros l code count next g Hl Hn -> Hc Hg Hf; simpl.
  { exists next. split; [done|]. exists g. split; [done|]. intros i Hi. apply Hf. lia. }
  rewrite (arr_index _ _ _ _ Hc) by lia. run_bind.
  assert (u16 ((firstCode (Z.to_nat (l - 1)) + (if 0 <? l - 1 then num (l - 1) ls else 0)) << 1) = firstCode (Z.to_nat l)) as ->.
  { replace (Z.to_nat l) with (S (Z.to_nat (l - 1))) by lia. cbn [firstCode]. rewrite Z.shiftl_mul_pow2 by lia.
    assert ((if 0 <? l - 1 then num (l - 1) ls else 0) = cnt (Z.to_nat (l - 1))) as ->.
    { destruct (Z.ltb_spec 0 (l - 1)); [by rewrite cnt_pos by lia|]. by replace (Z.to_nat (l - 1)) with O by lia. }
    pose proof (code_bound (Z.to_nat (l - 1))). pose proof (firstCode_nonneg (Z.to_nat (l - 1))). pose proof (cnt_nonneg (Z.to_nat (l - 1))). unfold u16. apply Z.mod_small.
    assert (2 ^ Z.of_nat (Z.to_nat (l - 1)) <= 2 ^ 14) by (apply Z.pow_le_mono_r; lia). lia. }
  destruct (@arr_store E _ _ _ l (firstCode (Z.to_nat l)) Hg) as (next1 & -> & Hg1); [lia|]. run_bind.
  eapply IH; [lia|lia| |exact Hc|exact Hg1|].
  - f_equal. lia.
  - intros i Hi. cbv beta. destruct (Z.eqb_spec i l) as [->|]; [done|]. apply Hf. lia.
Qed.
(** The codes handed out so far, [pre] being the symbols gone through. *)
Lemma assignCodes_spec rest : forall pre next codes g h, ls = pre ++ rest ->
  arr next 16 g -> (forall i, 1 <= i < 16 -> g i = firstCode (Z.to_nat i) + num i pre) ->
  arr codes (zlen ls) h -> (forall s l, (s < length pre)%nat -> ls !! s = Some l -> 0 < l -> h (Z.of_nat s) = codeOf s l) ->
  exists codes', @assignCodes E rest (zlen pre) next codes = Ok codes' /\ exists h', arr codes' (zlen ls) h' /\
    forall s l, ls !! s = Some l -> 0 < l -> h' (Z.of_nat s) = codeOf s l.
Proof using HK Hls.
  induction rest as [|l rest IH]; intros pre next codes g h Hp Hg Hgf Hh Hhf; simpl.
  { exists codes. split; [done|]. exists h. split; [done|]. intros s l Hs Hl. apply Hhf; try done. apply lookup_lt_Some in Hs. by rewrite Hp, app_nil_r in Hs. }
  assert (ls !! length pre = Some l) as Hs by (rewrite Hp; by apply list_lookup_middle).
  assert (take (length pre) ls = pre) as Ht by (by rewrite Hp, take_app_length).
  assert (0 <= l <= 15) as Hl by (apply (Forall_lookup_1 _ _ _ _ Hls Hs)).
  assert (zlen pre + 1 = zlen (pre ++ [l])) as Hz by (rewrite zlen_app; done). pose proof (zlen_nonneg pre). pose proof (zlen_nonneg rest).
  assert (zlen ls = zlen pre + 1 + zlen rest) as HL by (rewrite Hp, zlen_app, zlen_cons; lia).
  destruct (Z.gtb_spec l 0) as [Hl0|Hl0].
  - rewrite (arr_index _ _ _ _ Hg) by lia. run_bind. rewrite Hgf by lia.
    destruct (@arr_store E _ _ _ (zlen pre) (firstCode (Z.to_nat l) + num l pre) Hh) as (codes1 & -> & Hh1); [lia|]. run_bind.
    destruct (@arr_store E _ _ _ l (u16 (firstCode (Z.to_nat l) + num l pre + 1)) Hg) as (next1 & -> & Hg1); [lia|]. run_bind.
    rewrite Hz. eapply IH; [by rewrite <- app_assoc|exact Hg1| |exact Hh1|].
    + intros i Hi. cbv beta. rewrite num_app, num_cons. change (num i []) with 0. destruct (Z.eqb_spec i l) as [->|Hn].
      * rewrite Z.eqb_refl. pose proof (codeOf_bound (length pre) l Hs) as B. unfold codeOf in B. rewrite Ht in B. unfold maxCodeLen in B. pose proof (code_bound (Z.to_nat l)).
        assert (2 ^ Z.of_nat (Z.to_nat l) <= 2 ^ 15) by (apply Z.pow_le_mono_r; lia). pose proof (firstCode_nonneg (Z.to_nat l)). pose proof (num_nonneg l pre).
        unfold u16. rewrite Z.mod_small by lia. lia.
      * rewrite Hgf by lia. destruct (Z.eqb_spec l i); [congruence|lia].
    + intros s k Hsk Hk Hk0. cbv beta. rewrite length_app in Hsk. simpl in Hsk. destruct (Z.eqb_spec (Z.of_nat s) (zlen pre)) as [Es|Es].
      * assert (s = length pre) as -> by (unfold zlen in Es; lia). unfold codeOf. rewrite Ht. congruence.
      * apply Hhf; try done. unfold zlen in Es. lia.
  - rewrite Hz. eapply IH; [by rewrite <- app_assoc|exact Hg| |exact Hh|].
    + intros i Hi. rewrite Hgf, num_app, num_cons by lia. change (num i []) with 0. destruct (Z.eqb_spec l i); lia.
    + intros s k Hsk Hk Hk0. rewrite length_app in Hsk. simpl in Hsk. apply Hhf; try done. destruct (decide (s = length pre)) as [->|]; [|lia]. simplify_eq. lia.
Qed.
Lemma canonicalCodes_spec : exists codes, @canonicalCodes E ls = Ok codes /\ zlen codes = zlen ls /\
  forall s l, ls !! s = Some l -> 0 < l -> codes !! s = Some (codeOf s l).
Proof using HK Hls Hlen.
  unfold canonicalCodes. destruct (@tally_counts E u16 (fun x => Z.mod_small x _) ls Hls ltac:(unfold symbolCount in *; lia)) as (count & -> & Hc). run_bind.
  change (Z.to_nat maxCodeLen) with 15%nat. destruct (nextCodes_spec 15 1 0 count noCounts (fun _ => 0)) as (next & -> & g & Hg & Hgf); [lia..|done|done|apply (arr_replicate 16)|intros; lia|]. run_bind.
  destruct (assignCodes_spec ls [] next (replicate (length ls) 0) g (fun _ => 0)) as (codes & E' & h & Hh & Hhf); [done|done| |apply arr_replicate|intros ? ? ?; simpl in *; lia|].
  { intros i Hi. rewrite Hgf by lia. change (num i []) with 0. lia. }
  exists codes. split; [done|]. split; [by apply Hh|]. intros s l Hs Hl. rewrite <- (Hhf s l Hs Hl). destruct Hh as [_ Hh]. rewrite <- (Nat2Z.id s) at 1. apply Hh.
  apply lookup_lt_Some in Hs. unfold zlen. lia.
Qed.

(** The table, whatever the lengths. *)
Definition slot (s : nat) (l : Z) : Z := before (Z.to_nat l) + num l (take s ls).
Lemma before_S n : before (S n) = before n + cnt n.
Proof. done. Qed.
Lemma before_mono n m : (n <= m)%nat -> before n <= before m.
Proof. induction 1 as [|m _ IH]; [lia|]. simpl. pose proof (cnt_nonneg m). lia. Qed.
Lemma slot_bound s l : ls !! s = Some l -> 1 <= l <= maxCodeLen -> before (Z.to_nat l) <= slot s l < before (S (Z.to_nat l)).
Proof. intros Hs Hl. unfold slot. cbn [before]. rewrite cnt_pos by lia. pose proof (num_take l ls s Hs). pose proof (num_nonneg l (take s ls)). lia. Qed.
Lemma slot_inj s s' l l' : (s < s')%nat -> ls !! s = Some l -> ls !! s' = Some l' -> 1 <= l <= maxCodeLen -> 1 <= l' <= maxCodeLen -> slot s l <> slot s' l'.
Proof.
  intros Hss Hs Hs' Hl Hl' E'. pose proof (slot_bound s l Hs Hl). pose proof (slot_bound s' l' Hs' Hl').
  destruct (Z.lt_trichotomy l l') as [Hlt|[->|Hlt]].
  - pose proof (before_mono (S (Z.to_nat l)) (Z.to_nat l')). lia.
  - unfold slot in E'. assert (take s' ls !! s = Some l') as Ht by (by rewrite lookup_take_lt by lia).
    pose proof (num_take l' (take s' ls) s Ht) as Hn. rewrite take_take in Hn. replace (s `min` s')%nat with s in Hn by lia. lia.
  - pose proof (before_mono (S (Z.to_nat l')) (Z.to_nat l)). lia.
Qed.
Lemma offsets_spec n : forall l count offset g, 1 <= l -> l + Z.of_nat n = 16 -> arr count 16 (fun i => if 0 <? i then num i ls else 0) ->
  arr offset 17 g -> (forall i, 1 <= i <= l -> g i = before (Z.to_nat i)) ->
  exists offset', @offsets E n l count offset = Ok offset' /\ exists g', arr offset' 17 g' /\ forall i, 1 <= i <= 16 -> g' i = before (Z.to_nat i).
Proof.
  induction n as [|n IH]; intros l count offset g Hl Hn Hc Hg Hf; simpl.
  { exists offset. split; [done|]. exists g. split; [done|]. intros i Hi. apply Hf. lia. }
  rewrite (arr_index _ _ _ _ Hg) by lia. run_bind. rewrite (arr_index _ _ _ _ Hc) by lia. run_bind.
  destruct (@arr_store E _ _ _ (l + 1) (g l + (if 0 <? l then num l ls else 0)) Hg) as (o1 & -> & Hg1); [lia|]. run_bind.
  eapply IH; [lia|lia|exact Hc|exact Hg1|]. intros i Hi. cbv beta. destruct (Z.eqb_spec i (l + 1)) as [->|]; [|apply Hf; lia].
  rewrite (proj2 (Z.ltb_lt 0 l)), Hf by lia. replace (Z.to_nat (l + 1)) with (S (Z.to_nat l)) by lia. cbn [before]. by rewrite cnt_pos by lia.
Qed.
Lemma fillSymbols_spec rest : forall pre offset symbols g h, ls = pre ++ rest ->
  arr offset 17 g -> (forall i, 1 <= i < 16 -> g i = before (Z.to_nat i) + num i pre) ->
  arr symbols (before 16) h -> (forall s l, (s < length pre)%nat -> ls !! s = Some l -> 0 < l -> h (slot s l) = Z.of_nat s) -> (forall i, 0 <= h i < symbolCount) ->
  exists symbols', @fillSymbols E rest (zlen pre) offset symbols = Ok symbols' /\ exists h', arr symbols' (before 16) h' /\
    (forall s l, ls !! s = Some l -> 0 < l -> h' (slot s l) = Z.of_nat s) /\ forall i, 0 <= h' i < symbolCount.
Proof using Hls Hlen.
  induction rest as [|l rest IH]; intros pre offset symbols g h Hp Hg Hgf Hh Hhf Hr; cbn [fillSymbols].
  { exists symbols. split; [reflexivity|]. exists h. split; [exact Hh|]. split; [|exact Hr]. intros s l Hs Hl. apply Hhf; [|exact Hs|exact Hl]. apply lookup_lt_Some in Hs. by rewrite Hp, app_nil_r in Hs. }
  assert (ls !! length pre = Some l) as Hs by (rewrite Hp; by apply list_lookup_middle).
  assert (take (length pre) ls = pre) as Ht by (by rewrite Hp, take_app_length).
  assert (0 <= l <= 15) as Hl by (apply (Forall_lookup_1 _ _ _ _ Hls Hs)).
  assert (zlen pre + 1 = zlen (pre ++ [l])) as Hz by (rewrite zlen_app; done). pose proof (zlen_nonneg pre) as Hpre. pose proof (zlen_nonneg rest) as Hrest.
  assert (zlen ls = zlen pre + 1 + zlen rest) as HL by (rewrite Hp, zlen_app, zlen_cons; lia).
  destruct (Z.gtb_spec l 0) as [Hl0|Hl0].
  - assert (1 <= l <= maxCodeLen) as Hl1 by (unfold maxCodeLen; lia). rewrite (arr_index _ _ _ _ Hg) by lia. run_bind. rewrite Hgf by lia.
    assert (before (Z.to_nat l) + num l pre = slot (length pre) l) as -> by (unfold slot; by rewrite Ht).
    pose proof (slot_bound (length pre) l Hs Hl1) as B. pose proof (before_mono (S (Z.to_nat l)) 16). pose proof (before_nonneg (Z.to_nat l)).
    destruct (@arr_store E _ _ _ (slot (length pre) l) (u16 (zlen pre)) Hh) as (symbols1 & -> & Hh1); [lia|]. run_bind.
    destruct (@arr_store E _ _ _ l (slot (length pre) l + 1) Hg) as (offset1 & -> & Hg1); [lia|]. run_bind.
    rewrite Hz. eapply IH; [by rewrite <- app_assoc|exact Hg1| |exact Hh1| |].
    + intros i Hi. cbv beta. rewrite num_app, num_cons. change (num i []) with 0. destruct (Z.eqb_spec i l) as [->|Hn].
      * rewrite Z.eqb_refl. unfold slot. rewrite Ht. lia.
      * rewrite Hgf by lia. destruct (Z.eqb_spec l i); [congruence|lia].
    + intros s k Hsk Hk Hk0. cbv beta. rewrite length_app in Hsk. simpl in Hsk. assert (0 <= k <= 15) as Hk1 by (apply (Forall_lookup_1 _ _ _ _ Hls Hk)).
      destruct (decide (s = length pre)) as [->|Hne].
      * rewrite Hs in Hk. injection Hk as ->. rewrite Z.eqb_refl. unfold u16. apply (Z.mod_small (zlen pre)). unfold symbolCount in *. lia.
      * destruct (Z.eqb_spec (slot s k) (slot (length pre) l)) as [Es|]; [exfalso; apply (slot_inj s (length pre) k l); auto; unfold maxCodeLen; lia|]. apply Hhf; [lia|exact Hk|exact Hk0].
    + intros i. cbv beta. unfold symbolCount in *. destruct (i =? _); [|apply Hr]. unfold u16. rewrite Z.mod_small by lia. lia.
  - rewrite Hz. eapply IH; [by rewrite <- app_assoc|exact Hg| |exact Hh| |exact Hr].
    + intros i Hi. rewrite Hgf, num_app, num_cons by lia. change (num i []) with 0. destruct (Z.eqb_spec l i); lia.
    + intros s k Hsk Hk Hk0. rewrite length_app in Hsk. simpl in Hsk. apply Hhf; [|exact Hk|exact Hk0]. destruct (decide (s = length pre)) as [->|]; [|lia]. rewrite Hs in Hk. injection Hk as ->. lia.
Qed.
Record reads (t : decodeTable) : Prop := Reads {
  t_counts : arr (t_count t) 16 (fun l => if 0 <? l then num l ls else 0);
  t_len : zlen (t_symbols t) = before 16;
  t_range : forall i, 0 <= i < before 16 -> exists s, @index E Z (t_symbols t) i = Ok s /\ 0 <= s < symbolCount;
  t_slots : forall s l, ls !! s = Some l -> 0 < l -> @index E Z (t_symbols t) (slot s l) = Ok (Z.of_nat s);
}.
Lemma newDecodeTable_spec : exists t, @newDecodeTable E ls = Ok t /\ reads t.
Proof using Hls Hlen.
  unfold newDecodeTable. destruct (@tally_counts E id (fun x _ => eq_refl) ls Hls ltac:(unfold symbolCount in *; lia)) as (count & -> & Hc). run_bind.
  change (Z.to_nat maxCodeLen) with 15%nat.
  destruct (offsets_spec 15 1 count (replicate (Z.to_nat (maxCodeLen + 2)) 0) (fun _ => 0)) as (offset & -> & g & Hg & Hgf); [lia..|done|apply (arr_replicate 17)| |].
  { intros i Hi. by replace i with 1 by lia. }
  run_bind. rewrite (arr_index _ _ _ _ Hg) by (unfold maxCodeLen; lia). run_bind. rewrite Hgf by (unfold maxCodeLen; lia). change (Z.to_nat (maxCodeLen + 1)) with 16%nat.
  pose proof (before_nonneg 16). pose proof (arr_replicate (Z.to_nat (before 16)) 0) as Ha. rewrite Z2Nat.id in Ha by lia.
  destruct (fillSymbols_spec ls [] offset (replicate (Z.to_nat (before 16)) 0) g (fun _ => 0)) as (symbols & E' & h & Hh & Hhf & Hr); [reflexivity|exact Hg| |exact Ha|intros s l Hs; exfalso; cbn in Hs; lia|unfold symbolCount; lia|].
  { intros i Hi. rewrite Hgf by lia. change (num i []) with 0. lia. }
  change (zlen (@nil Z)) with 0 in E'. rewrite E'. run_bind. eexists. split; [reflexivity|]. split; cbn [t_count t_symbols]; [exact Hc|apply Hh| |].
  { intros i Hi. rewrite (arr_index _ _ _ _ Hh) by lia. eauto. }
  intros s l Hs Hl. pose proof (Forall_lookup_1 _ _ _ _ Hls Hs) as Hl'. cbv beta in Hl'. pose proof (slot_bound s l Hs) as B. pose proof (before_mono (S (Z.to_nat l)) 16). pose proof (before_nonneg (Z.to_nat l)).
  unfold maxCodeLen in *. rewrite (arr_index _ _ _ _ Hh) by lia. by rewrite (Hhf s l).
Qed.

(** The walk finds the symbol a code stands for, and takes no more bits than it has. *)
Lemma symbol_loop_reads buf t r X s l : bytes buf -> reads t -> ls !! s = Some l -> 1 <= l <= maxCodeLen -> rep r X -> peek l r = codeOf s l ->
  forall n j, Z.of_nat n = 16 - j -> 1 <= j <= l ->
  @symbol_loop E n buf t j (codeOf s l / 2 ^ (l - j + 1) * 2) (firstCode (Z.to_nat j)) (before (Z.to_nat j)) (skip buf (j - 1) r) = Ok (Some (Z.of_nat s, skip buf l r)).
Proof using HK.
  intros Hb T Hs Hl R Hpk. set (c := codeOf s l) in *. unfold maxCodeLen in *. pose proof (codeOf_bound s l Hs Hl) as Bc. fold c in Bc. pose proof (codeOf_fits s l Hs Hl) as Fc. fold c in Fc.
  induction n as [|n IH]; intros j Hn Hj; [lia|]. cbn [symbol_loop]. unfold take_. rewrite (proj2 (Z.eqb_neq 1 0)) by lia. cbv beta iota zeta.
  rewrite (peek_skip buf Hb r X) by (done || lia). rewrite (skip_skip buf Hb r X) by (done || lia). replace (j - 1 + 1) with j by lia.
  rewrite (peek_prefix r X j l) by (done || lia). rewrite Hpk. change (2 ^ 1) with 2.
  assert (c / 2 ^ (l - j + 1) * 2 .| c / 2 ^ (l - j) mod 2 = c / 2 ^ (l - j)) as ->.
  { rewrite Z.pow_add_r, <- Z.div_div by lia. change (2 ^ 1) with 2. set (d := c / 2 ^ (l - j)). change 2 with (2 ^ 1) at 2. rewrite <- Z.shiftl_mul_pow2 by lia.
    pose proof (Z.mod_pos_bound d 2 ltac:(lia)). rewrite lor_low by lia. change (2 ^ 1) with 2. rewrite (Z.div_mod d 2) at 3 by lia. lia. }
  rewrite (arr_index _ _ _ _ (t_counts t T)) by lia. run_bind. rewrite (proj2 (Z.ltb_lt 0 j)) by lia. rewrite <- (cnt_pos j) by lia.
  destruct (decide (j = l)) as [->|Hne].
  - rewrite Z.sub_diag, Z.div_1_r. rewrite (proj2 (Z.ltb_lt _ _)) by lia.
    replace (before (Z.to_nat l) + c - firstCode (Z.to_nat l)) with (slot s l) by (unfold c, slot, codeOf; lia). rewrite (t_slots t T s l Hs) by lia. done.
  - assert (firstCode (Z.to_nat j) + cnt (Z.to_nat j) <= c / 2 ^ (l - j)) as Hge.
    { apply Z.div_le_lower_bound; [lia|]. pose proof (firstCode_grows (Z.to_nat j) (Z.to_nat (l - j - 1))) as G.
      replace (Z.to_nat j + S (Z.to_nat (l - j - 1)))%nat with (Z.to_nat l) in G by lia. replace (Z.of_nat (S (Z.to_nat (l - j - 1)))) with (l - j) in G by lia. lia. }
    rewrite (proj2 (Z.ltb_ge _ _)) by lia. specialize (IH (j + 1) ltac:(lia) ltac:(lia)). rewrite <- IH. replace (l - (j + 1) + 1) with (l - j) by lia.
    replace (Z.to_nat (j + 1)) with (S (Z.to_nat j)) by lia. cbn [firstCode before]. rewrite !Z.shiftl_mul_pow2 by lia. replace (j + 1 - 1) with j by lia. done.
Qed.
Lemma symbol_reads buf t r X s l : bytes buf -> reads t -> ls !! s = Some l -> 1 <= l <= maxCodeLen -> rep r X -> peek l r = codeOf s l ->
  @symbol E buf t r = Ok (Some (Z.of_nat s, skip buf l r)).
Proof using HK.
  intros Hb T Hs Hl R Hpk. unfold symbol. pose proof (codeOf_fits s l Hs Hl). rewrite <- (symbol_loop_reads buf t r X s l Hb T Hs Hl R Hpk 15 1) by lia.
  change (Z.to_nat maxCodeLen) with 15%nat. replace (l - 1 + 1) with l by lia. rewrite Z.div_small by lia. change (1 - 1) with 0. by rewrite (skip_0 buf Hb r X R).
Qed.

(** Whatever the bits, the walk stays inside the table. *)
Lemma symbol_loop_total buf t r X : bytes buf -> reads t -> rep r X ->
  forall n j code, Z.of_nat n = 16 - j -> 1 <= j -> firstCode (Z.to_nat j) <= code -> code mod 2 = 0 ->
  exists o, @symbol_loop E n buf t j code (firstCode (Z.to_nat j)) (before (Z.to_nat j)) (skip buf (j - 1) r) = Ok o /\
    forall s r', o = Some (s, r') -> 0 <= s < symbolCount /\ exists l, 1 <= l <= maxCodeLen /\ r' = skip buf l r.
Proof.
  intros Hb T R. induction n as [|n IH]; intros j code Hn Hj Hc Hev; [by exists None|]. cbn [symbol_loop]. unfold take_. rewrite (proj2 (Z.eqb_neq 1 0)) by lia. cbv beta iota zeta.
  rewrite (skip_skip buf Hb r X) by (done || lia). replace (j - 1 + 1) with j by lia.
  rewrite (peek_skip buf Hb r X) by (done || lia). pose proof (Z.mod_pos_bound (peek (j - 1 + 1) r) (2 ^ 1) ltac:(lia)) as Bb. set (b := _ mod 2 ^ 1) in *.
  assert (code .| b = code + b) as ->.
  { assert (code = code / 2 << 1) as Hq by (rewrite Z.shiftl_mul_pow2 by lia; pose proof (Z.div_mod code 2); lia). rewrite Hq, lor_low, Z.shiftl_mul_pow2 by lia. done. }
  rewrite (arr_index _ _ _ _ (t_counts t T)) by lia. run_bind. rewrite (proj2 (Z.ltb_lt 0 j)) by lia. rewrite <- (cnt_pos j) by lia.
  destruct (Z.ltb_spec (code + b - firstCode (Z.to_nat j)) (cnt (Z.to_nat j))) as [Hlt|Hge].
  - pose proof (before_nonneg (Z.to_nat j)). pose proof (before_mono (S (Z.to_nat j)) 16) as M. rewrite before_S in M.
    destruct (t_range t T (before (Z.to_nat j) + (code + b) - firstCode (Z.to_nat j))) as (s & Es & Bs); [lia|]. rewrite Es. run_bind.
    eexists. split; [reflexivity|]. intros s' r' [= <- <-]. split; [done|]. exists j. unfold maxCodeLen. split; [lia|done].
  - destruct (IH (j + 1) ((code + b) << 1)) as (o & Eo & Ho); [lia|lia| | |].
    + replace (Z.to_nat (j + 1)) with (S (Z.to_nat j)) by lia. cbn [firstCode]. rewrite Z.shiftl_mul_pow2 by lia. lia.
    + rewrite Z.shiftl_mul_pow2 by lia. apply Z.mod_mul. lia.
    + exists o. split; [|done]. rewrite <- Eo. replace (Z.to_nat (j + 1)) with (S (Z.to_nat j)) by lia. cbn [firstCode before]. rewrite !Z.shiftl_mul_pow2 by lia. by replace (j + 1 - 1) with j by lia.
Qed.
Lemma symbol_total buf t r X : bytes buf -> reads t -> rep r X ->
  exists o, @symbol E buf t r = Ok o /\ forall s r', o = Some (s, r') -> 0 <= s < symbolCount /\ exists l, 1 <= l <= maxCodeLen /\ r' = skip buf l r.
Proof.
  intros Hb T R. destruct (symbol_loop_total buf t r X Hb T R 15 1 0) as (o & Eo & Ho); [lia|lia|done|done|]. exists o. split; [|done]. rewrite <- Eo.
  unfold symbol. change (Z.to_nat maxCodeLen) with 15%nat. change (1 - 1) with 0. by rewrite (skip_0 buf Hb r X R).
Qed.
End canonical.

(** ** The tree *)
Fixpoint syms (n : node) : list Z := match n with Leaf _ s => [s] | Join _ l r => syms l ++ syms r end.
Fixpoint height (n : node) : Z := match n with Leaf _ _ => 0 | Join _ l r => 1 + Z.max (height l) (height r) end.
Definition children (n : node) : list node := match n with Leaf _ _ => [] | Join _ l r => [l; r] end.
(** Each node was joined when no rarer ones were about. *)
Fixpoint good (n : node) : Prop :=
  match n with
  | Leaf f _ => 0 < f
  | Join f l r => f = nfreq l + nfreq r /\ good l /\ good r /\
      (forall c, c ∈ children l -> nfreq c <= nfreq r) /\ (forall c, c ∈ children r -> nfreq c <= nfreq l)
  end.
Fixpoint fib (n : nat) : Z := match n with O => 1 | S O => 2 | S (S n as m) => fib m + fib n end.
Lemma fib_step n : fib (S (S n)) = fib (S n) + fib n.
Proof. done. Qed.
Lemma fib_pos n : 0 < fib n /\ fib n <= fib (S n).
Proof. induction n as [|n [IH1 IH2]]; [simpl; lia|]. rewrite fib_step. lia. Qed.
Lemma fib_mono n m : (n <= m)%nat -> fib n <= fib m.
Proof. induction 1 as [|m _ IH]; [lia|]. pose proof (fib_pos m). lia. Qed.
Lemma fib_doubles n : 2 ^ Z.of_nat n <= fib (2 * n).
Proof.
  induction n as [|n IH]; [simpl; lia|]. replace (2 * S n)%nat with (S (S (2 * n))) by lia. rewrite fib_step. pose proof (fib_pos (2 * n)).
  rewrite Nat2Z.inj_succ, Z.pow_succ_r by lia. lia.
Qed.
Lemma height_nonneg n : 0 <= height n.
Proof. induction n; simpl; lia. Qed.
Lemma good_fib n : good n -> fib (Z.to_nat (height n)) <= nfreq n /\ forall c, c ∈ children n -> fib (Z.to_nat (height c)) <= nfreq c.
Proof.
  induction n as [f s|f l IHl r IHr]; cbn [good]; [simpl; intros; split; [lia|by intros c ?%elem_of_nil]|].
  intros (Hf & Gl & Gr & Cl & Cr). destruct (IHl Gl) as [Fl Fl'], (IHr Gr) as [Fr Fr']. split; [|intros c; cbn; rewrite !elem_of_cons, elem_of_nil; naive_solver].
  cbn [height nfreq]. pose proof (height_nonneg l). pose proof (height_nonneg r).
  assert (forall a b, good a -> fib (Z.to_nat (height a)) <= nfreq a -> (forall c, c ∈ children a -> fib (Z.to_nat (height c)) <= nfreq c) -> (forall c, c ∈ children a -> nfreq c <= nfreq b) ->
    0 < nfreq b -> height b <= height a -> fib (S (Z.to_nat (height a))) <= nfreq a + nfreq b) as Key.
  { clear. intros [fa sa|fa a1 a2] b Ga Fa Fc Cb Hb Hh; [simpl in *; lia|]. cbn [height] in *. pose proof (height_nonneg a1). pose proof (height_nonneg a2).
    replace (Z.to_nat (1 + Z.max (height a1) (height a2))) with (S (Z.to_nat (Z.max (height a1) (height a2)))) in * by lia. rewrite fib_step.
    enough (fib (Z.to_nat (Z.max (height a1) (height a2))) <= nfreq b) by lia.
    destruct (Z.max_spec (height a1) (height a2)) as [[_ ->]|[_ ->]]; [transitivity (nfreq a2)|transitivity (nfreq a1)]; (apply Fc || apply Cb); set_solver. }
  assert (forall a, good a -> 0 < nfreq a) as Pos. { clear. induction a as [fa sa|fa a1 IH1 a2 IH2]; cbn; [done|]. intros (-> & G1 & G2 & _). specialize (IH1 G1). specialize (IH2 G2). lia. }
  pose proof (Pos l Gl). pose proof (Pos r Gr). rewrite Hf. replace (Z.to_nat (1 + Z.max (height l) (height r))) with (S (Z.to_nat (Z.max (height l) (height r)))) by lia.
  destruct (Z.max_spec (height l) (height r)) as [[? ->]|[? ->]].
  - rewrite Z.add_comm. apply Key; auto; lia.
  - apply Key; auto; lia.
Qed.

(** The list of nodes while it is joined up: in order, and none of them was joined past a
    rarer one. *)
Record forest (live : list node) : Prop := Forest {
  fo_sorted : StronglySorted (fun a b => nfreq a <= nfreq b) live;
  fo_good : Forall good live;
  fo_last : forall c d k, c ∈ live -> d ∈ live -> k ∈ children c -> nfreq k <= nfreq d;
}.
Definition total (live : list node) : Z := foldr (fun n t => nfreq n + t) 0 live.
Lemma good_pos n : good n -> 0 < nfreq n.
Proof. induction n as [f s|f l IHl r IHr]; cbn; [done|]. intros (-> & Gl & Gr & _). specialize (IHl Gl). specialize (IHr Gr). lia. Qed.
Lemma insertNode_perm j live : insertNode j live ≡ₚ j :: live.
Proof. induction live as [|n live IH]; simpl; [done|]. destruct (_ >=? _); [done|]. rewrite IH. constructor. Qed.
Lemma insertNode_sorted j live : StronglySorted (fun a b => nfreq a <= nfreq b) live -> StronglySorted (fun a b => nfreq a <= nfreq b) (insertNode j live).
Proof.
  induction 1 as [|n live Hs IH Hn]; simpl; [by repeat constructor|]. destruct (Z.geb_spec (nfreq n) (nfreq j)).
  - constructor; [by constructor|]. constructor; [done|]. eapply Forall_impl; [exact Hn|]. simpl. lia.
  - constructor; [done|]. rewrite Forall_forall in *. intros x Hx. rewrite insertNode_perm in Hx. apply elem_of_cons in Hx as [->|Hx]; [lia|by apply Hn].
Qed.
Lemma total_perm l k : l ≡ₚ k -> total l = total k.
Proof. induction 1; simpl in *; lia. Qed.
Lemma syms_perm l k : l ≡ₚ k -> mjoin (syms <$> l) ≡ₚ mjoin (syms <$> k).
Proof. intros ->. done. Qed.
Lemma forest_join a b rest : forest (a :: b :: rest) -> forest (insertNode (Join (nfreq a + nfreq b) a b) rest).
Proof.
  intros [Hs Hg Hl]. inversion_clear Hs as [|? ? Hs1 Ha]. inversion_clear Hs1 as [|? ? Hs2 Hb].
  apply Forall_cons in Hg as [Ga Hg]. apply Forall_cons in Hg as [Gb Hg]. apply Forall_cons in Ha as [Hab Ha]. pose proof (good_pos a Ga). pose proof (good_pos b Gb).
  rewrite Forall_forall in Ha, Hb, Hg. split.
  - by apply insertNode_sorted.
  - rewrite Forall_forall. intros x Hx. rewrite insertNode_perm in Hx. apply elem_of_cons in Hx as [->|Hx]; [|by apply Hg].
    cbn. split; [done|]. split; [done|]. split; [done|]. split; intros c Hc; eapply Hl; try exact Hc; set_solver.
  - intros c d k Hc Hd Hk. rewrite insertNode_perm in Hc, Hd. apply elem_of_cons in Hc as [->|Hc], Hd as [->|Hd]; cbn in *.
    + rewrite !elem_of_cons, elem_of_nil in Hk. destruct Hk as [->|[->|[]]]; lia.
    + specialize (Ha d Hd). specialize (Hb d Hd). rewrite !elem_of_cons, elem_of_nil in Hk. destruct Hk as [->|[->|[]]]; lia.
    + assert (nfreq k <= nfreq a) by (eapply (Hl c a); [set_solver..|done]). lia.
    + eapply (Hl c d); [set_solver..|done].
Qed.
Lemma joinAll_spec {E} n : forall live, forest live -> (1 <= length live <= n)%nat -> total live < 2 ^ 32 ->
  exists t, @joinAll E n live = Ok t /\ good t /\ syms t ≡ₚ mjoin (syms <$> live) /\ nfreq t = total live /\ ((2 <= length live)%nat -> 1 <= height t).
Proof.
  induction n as [|n IH]; intros live F Hl Ht; [lia|]. destruct live as [|a [|b rest]]; cbn [joinAll]; [simpl in Hl; lia| |].
  { exists a. split; [done|]. pose proof (fo_good _ F) as G. apply Forall_cons in G as [G _]. split; [done|]. split; [simpl; by rewrite app_nil_r|]. simpl. split; [lia|]. simpl. lia. }
  pose proof (fo_good _ F) as G. apply Forall_cons in G as [Ga G]. apply Forall_cons in G as [Gb G]. pose proof (good_pos a Ga). pose proof (good_pos b Gb).
  assert (0 <= total rest) as Hr. { clear - G. induction G as [|x l Gx _ IH]; simpl; [lia|]. pose proof (good_pos x Gx). lia. }
  cbn [total foldr] in Ht. fold (total rest) in Ht. assert (u32 (nfreq a + nfreq b) = nfreq a + nfreq b) as -> by (apply Z.mod_small; lia).
  set (j := Join (nfreq a + nfreq b) a b). pose proof (insertNode_perm j rest) as P. pose proof (Permutation_length P) as PL. simpl in PL, Hl.
  destruct (IH (insertNode j rest) (forest_join _ _ _ F)) as (t & Et & Gt & St & Ft & Bt); [lia|rewrite (total_perm _ _ P); cbn; fold (total rest); lia|].
  exists t. split; [done|]. split; [done|]. split.
  { rewrite St, (syms_perm _ _ P). simpl. by rewrite <- app_assoc. }
  split; [rewrite Ft, (total_perm _ _ P); cbn; fold (total rest); lia|]. intros _.
  destruct rest as [|x rest]; [|apply Bt; rewrite PL; simpl; lia]. simpl in Et. destruct n; [simpl in Hl; lia|]. cbn in Et. injection Et as <-. cbn. pose proof (height_nonneg a). pose proof (height_nonneg b). lia.
Qed.

(** *** The leaves *)
Definition isLeafOf (base : Z) (freq : list Z) (n : node) : Prop := exists s f, n = Leaf f (base + Z.of_nat s) /\ freq !! s = Some f /\ 0 < f.
Lemma leaves_spec freq : forall base n, n ∈ leaves base freq <-> isLeafOf base freq n.
Proof.
  induction freq as [|f freq IH]; intros base n; cbn [leaves]; [split; [by intros ?%elem_of_nil|intros (s & f & _ & H & _); by rewrite lookup_nil in H]|].
  assert (isLeafOf base (f :: freq) n <-> (n = Leaf f base /\ 0 < f) \/ isLeafOf (base + 1) freq n) as Hs.
  { split.
    - intros ([|s] & f' & -> & H & H0); [left|right]; simpl in H; [simplify_eq; split; [f_equal; lia|done]|]. exists s, f'. split; [f_equal; lia|done].
    - intros [[-> H]|(s & f' & -> & H & H0)]; [exists O, f; split; [f_equal; lia|done]|]. exists (S s), f'. split; [f_equal; lia|done]. }
  rewrite Hs, <- IH. destruct (Z.gtb_spec f 0); [rewrite elem_of_cons|]; intuition lia.
Qed.
Lemma leaves_nodup freq : forall base, NoDup (mjoin (syms <$> leaves base freq)) /\ Forall (fun s => base <= s) (mjoin (syms <$> leaves base freq)).
Proof.
  induction freq as [|f freq IH]; intros base; cbn [leaves]; [by split; constructor|]. destruct (IH (base + 1)) as [N B].
  assert (Forall (fun s => base <= s) (mjoin (syms <$> leaves (base + 1) freq))) as B' by (eapply Forall_impl; [exact B|]; simpl; lia).
  destruct (f >? 0); [|done]. simpl. split; [|by constructor]. constructor; [|done]. intros H. rewrite Forall_forall in B. specialize (B _ H). simpl in B. lia.
Qed.
Lemma leaves_total freq base m : Forall (fun f => 0 <= f <= m) freq -> 0 <= total (leaves base freq) <= m * zlen freq.
Proof.
  intros H. revert base. induction H as [|f freq Hf _ IH]; intros base; cbn [leaves]; [unfold zlen; simpl; lia|]. rewrite zlen_cons. specialize (IH (base + 1)).
  destruct (Z.gtb_spec f 0); [cbn [total foldr nfreq]; fold (total (leaves (base + 1) freq))|]; lia.
Qed.

(** *** The depths *)
Lemma kraft_insert ls i x : ls !! i = Some 0 -> kraft (<[i := x]> ls) = kraft ls + share x.
Proof. revert i. induction ls as [|k ls IH]; intros [|i] H; simpl in *; try done; [simplify_eq; change (share 0) with 0; lia|]. rewrite IH by done. lia. Qed.
Lemma kraft_zero n : kraft (replicate n 0) = 0.
Proof. induction n as [|n IH]; simpl; [done|]. rewrite IH. done. Qed.
Fixpoint tshare (d : Z) (n : node) : Z := match n with Leaf _ _ => share d | Join _ l r => tshare (d + 1) l + tshare (d + 1) r end.
Lemma tshare_full n : forall d, 1 <= d -> d + height n <= maxCodeLen -> tshare d n = 2 ^ (maxCodeLen - d).
Proof.
  induction n as [f s|f l IHl r IHr]; intros d Hd Hh; cbn [tshare height] in *.
  - unfold share. by rewrite (proj2 (Z.ltb_lt 0 d)) by lia.
  - rewrite IHl, IHr by lia. replace (maxCodeLen - d) with (1 + (maxCodeLen - (d + 1))) by lia. rewrite Z.pow_add_r by (pose proof (height_nonneg l); lia). lia.
Qed.
Record placed (n : node) (d : Z) (ls ls' : list Z) : Prop := Placed {
  pl_len : length ls' = length ls;
  pl_kraft : kraft ls' = kraft ls + tshare d n;
  pl_other : forall s : nat, Z.of_nat s ∉ syms n -> ls' !! s = ls !! s;
  pl_depth : forall s, s ∈ syms n -> exists e, ls' !! Z.to_nat s = Some e /\ d <= e <= d + height n /\ (1 <= height n -> d + 1 <= e);
  pl_deep : exists s, s ∈ syms n /\ ls' !! Z.to_nat s = Some (d + height n);
}.
Lemma depth_spec {E} n : forall d ls, 0 <= d -> d + height n <= 255 -> NoDup (syms n) -> (forall s, s ∈ syms n -> 0 <= s /\ ls !! Z.to_nat s = Some 0) ->
  exists ls', @depth E n d ls = Ok ls' /\ placed n d ls ls'.
Proof.
  induction n as [f s|f l IHl r IHr]; intros d ls Hd Hh Hn Hz; cbn [depth height syms] in *.
  - destruct (Hz s) as [H0 Hs]; [set_solver|]. pose proof (lookup_lt_Some _ _ _ Hs). exists (<[Z.to_nat s := d]> ls). split; [apply store_ok; unfold zlen; lia|]. split; cbn.
    + apply length_insert.
    + by apply kraft_insert.
    + intros k Hk. apply list_lookup_insert_ne. intros <-. rewrite Z2Nat.id in Hk by lia. set_solver.
    + intros k Hk%list_elem_of_singleton. subst k. exists d. rewrite list_lookup_insert_eq by lia. split; [done|lia].
    + exists s. rewrite list_lookup_insert_eq by lia. split; [set_solver|]. f_equal. lia.
  - apply NoDup_app in Hn as (Nl & Hd' & Nr). pose proof (height_nonneg l). pose proof (height_nonneg r).
    assert (u8 (d + 1) = d + 1) as -> by (apply Z.mod_small; lia).
    destruct (IHl (d + 1) ls) as (ls1 & -> & [L1 K1 O1 D1 P1]); [lia|lia|done|intros; apply Hz; set_solver|]. run_bind.
    assert (forall s, s ∈ syms r -> 0 <= s /\ ls1 !! Z.to_nat s = Some 0) as Hz1.
    { intros k Hk. destruct (Hz k) as [Hk1 Hk0]; [set_solver|]. split; [done|]. rewrite O1; [done|]. rewrite Z2Nat.id by lia. intros Hl. by apply (Hd' k). }
    destruct (IHr (d + 1) ls1) as (ls2 & -> & [L2 K2 O2 D2 P2]); [lia|lia|done|done|]. exists ls2. split; [done|].
    assert (forall s, s ∈ syms l -> ls2 !! Z.to_nat s = ls1 !! Z.to_nat s) as Keep.
    { intros k Hk. destruct (Hz k) as [Hk1 _]; [set_solver|]. apply O2. rewrite Z2Nat.id by lia. by apply Hd'. }
    split; cbn [tshare height syms].
    + congruence.
    + rewrite K2, K1. lia.
    + intros k Hk. rewrite O2, O1; [done|set_solver..].
    + intros k Hk. apply elem_of_app in Hk as [Hk|Hk].
      * destruct (D1 k Hk) as (e & He & B & _). exists e. rewrite Keep by done. split; [done|lia].
      * destruct (D2 k Hk) as (e & He & B & _). exists e. split; [done|lia].
    + destruct (Z.max_spec (height l) (height r)) as [[? ->]|[? ->]].
      * destruct P2 as (k & Hk & Ek). exists k. split; [set_solver|]. rewrite Ek. f_equal. lia.
      * destruct P1 as (k & Hk & Ek). exists k. split; [set_solver|]. rewrite Keep, Ek by done. f_equal. lia.
Qed.
Lemma longest_ge ls : forall m, m <= fold_left (fun m l => if l >? m then l else m) ls m /\ Forall (fun l => l <= fold_left (fun m l => if l >? m then l else m) ls m) ls.
Proof.
  induction ls as [|l ls IH]; intros m; simpl; [split; [lia|constructor]|]. destruct (IH (if l >? m then l else m)) as [I1 I2]. destruct (Z.gtb_spec l m); (split; [lia|constructor; [lia|done]]).
Qed.
Lemma longest_in ls : forall m, fold_left (fun m l => if l >? m then l else m) ls m = m \/ fold_left (fun m l => if l >? m then l else m) ls m ∈ ls.
Proof.
  induction ls as [|l ls IH]; intros m; simpl; [by left|]. destruct (IH (if l >? m then l else m)) as [E|E]; rewrite ?E; [|right; set_solver].
  destruct (l >? m); [right; set_solver|by left].
Qed.

(** *** The lengths *)
#[export] Instance nodeLe_total : Total nodeLe.
Proof. intros a b. unfold nodeLe. lia. Qed.
#[export] Instance nodeLe_trans : Transitive nodeLe.
Proof. intros a b c. unfold nodeLe. lia. Qed.
Lemma sorted_impl {A} (R S : A -> A -> Prop) l : (forall a b, R a b -> S a b) -> StronglySorted R l -> StronglySorted S l.
Proof. intros H. induction 1; constructor; [done|]. eapply Forall_impl; [done|]. auto. Qed.
Lemma forest_leaves freq : forest (merge_sort nodeLe (leaves 0 freq)).
Proof.
  pose proof (merge_sort_Permutation nodeLe (leaves 0 freq)) as P.
  assert (forall n, n ∈ merge_sort nodeLe (leaves 0 freq) -> isLeafOf 0 freq n) as L by (intros n Hn; rewrite P in Hn; by apply leaves_spec).
  split.
  - eapply sorted_impl; [|apply StronglySorted_merge_sort; apply _]. intros a b. unfold nodeLe. lia.
  - rewrite Forall_forall. intros n Hn. destruct (L n Hn) as (s & f & -> & _ & Hf). done.
  - intros c d k Hc _ Hk. destruct (L c Hc) as (s & f & -> & _). by apply elem_of_nil in Hk.
Qed.
Definition maxFreq : Z := 2 ^ 17.
Record lengthsFor (freq ls : list Z) : Prop := LengthsFor {
  lf_len : zlen ls = symbolCount;
  lf_used : forall s f, freq !! s = Some f -> 0 < f -> exists l, ls !! s = Some l /\ 1 <= l;
  lf_nonneg : Forall (fun l => 0 <= l) ls;
  lf_kraft : longest ls <= maxCodeLen -> kraft ls <= 2 ^ maxCodeLen;
}.
Lemma longest_placed n ls' k : placed n 0 (replicate 512 0) ls' -> Forall (fun s => 0 <= s) (syms n) -> 0 <= k -> (height n <= k -> longest ls' <= k) /\ (longest ls' <= k -> height n <= k).
Proof.
  intros [L K O D (sd & Hsd & Ed)] Hs Hk. split.
  - intros Hh. destruct (longest_in ls' 0) as [E|E]; [unfold longest; lia|]. unfold longest. apply list_elem_of_lookup in E as [i Ei]. set (m := fold_left _ _ _) in *.
    destruct (decide (Z.of_nat i ∈ syms n)) as [Hi|Hi].
    + destruct (D _ Hi) as (e & Ee & B & _). rewrite Nat2Z.id in Ee. rewrite Ei in Ee. injection Ee as ->. lia.
    + rewrite (O i Hi) in Ei. apply lookup_replicate in Ei as [-> _]. lia.
  - intros Hl. unfold longest in Hl. destruct (longest_ge ls' 0) as [_ F]. rewrite Forall_forall in F. apply list_elem_of_lookup_2 in Ed. specialize (F _ Ed). simpl in F. lia.
Qed.
Section lengths.
Context {E : Type} (freq : list Z) (Hl : zlen freq = symbolCount) (Hf : Forall (fun f => 0 <= f <= maxFreq) freq).
Lemma leaf_of s f : freq !! s = Some f -> 0 < f -> Leaf f (Z.of_nat s) ∈ leaves 0 freq.
Proof. intros H1 H2. apply leaves_spec. by exists s, f. Qed.
(** A single symbol gets a code of one bit. *)
Lemma single_length s0 : (s0 < 512)%nat -> (forall s f, freq !! s = Some f -> 0 < f -> s = s0) ->
  lengthsFor freq (<[s0 := 1]> (replicate 512 0)) /\ longest (<[s0 := 1]> (replicate 512 0)) <= maxCodeLen.
Proof using Type.
  intros Hs Only. set (ls := <[s0 := 1]> _).
  assert (longest ls <= maxCodeLen) as HL.
  { unfold longest, maxCodeLen. destruct (longest_in ls 0) as [->|E']; [lia|]. set (m := fold_left _ _ _) in *. apply list_elem_of_lookup in E' as [i Ei].
    apply list_lookup_insert_Some in Ei as [(_ & <- & _)|[_ Ei]]; [lia|]. apply lookup_replicate in Ei as [-> _]. lia. }
  split; [split|done].
  - unfold ls. by rewrite zlen_insert, zlen_replicate.
  - intros s f H1 H2. exists 1. split; [|lia]. rewrite (Only s f H1 H2). apply list_lookup_insert_eq. by rewrite length_replicate.
  - apply Forall_insert; [by apply Forall_replicate|lia].
  - intros _. unfold ls. rewrite kraft_insert, kraft_zero by (apply lookup_replicate; done). by vm_compute.
Qed.
(** The depths in a tree over the symbols that are used. *)
Lemma tree_lengths t : syms t ≡ₚ mjoin (syms <$> leaves 0 freq) -> 1 <= height t <= 255 ->
  exists ls, @depth E t 0 (replicate 512 0) = Ok ls /\ lengthsFor freq ls /\ (height t <= maxCodeLen -> longest ls <= maxCodeLen).
Proof using Hl.
  intros St Ht.
  assert (forall s, s ∈ syms t -> 0 <= s < 512) as Sy.
  { intros s Hs. rewrite St in Hs. apply list_elem_of_join in Hs as (l & Hs & Hl'). apply list_elem_of_fmap in Hl' as (n & -> & Hn). apply leaves_spec in Hn as (k & f & -> & Hk & _).
    apply list_elem_of_singleton in Hs. apply lookup_lt_Some in Hk. unfold zlen, symbolCount in Hl. lia. }
  destruct (@depth_spec E t 0 (replicate 512 0)) as (ls & -> & Pl); [lia|lia|rewrite St; apply leaves_nodup| |].
  { intros s Hs%Sy. split; [lia|]. apply lookup_replicate. split; [done|lia]. }
  assert (Forall (fun s => 0 <= s) (syms t)) as Nn by (rewrite Forall_forall; intros s Hs%Sy; lia).
  exists ls. split; [done|]. split; [split|intros Hh; apply (longest_placed t ls maxCodeLen Pl Nn); [unfold maxCodeLen; lia|done]].
  - unfold zlen. by rewrite (pl_len _ _ _ _ Pl), length_replicate.
  - intros s f H1 H2. destruct (pl_depth _ _ _ _ Pl (Z.of_nat s)) as (e & Ee & B & B1); [|rewrite Nat2Z.id in Ee; exists e; split; [done|lia]].
    rewrite St. apply list_elem_of_join. exists [Z.of_nat s]. split; [by apply list_elem_of_singleton|]. apply list_elem_of_fmap. exists (Leaf f (Z.of_nat s)). split; [done|by apply leaf_of].
  - rewrite Forall_lookup. intros i x Hx. destruct (decide (Z.of_nat i ∈ syms t)) as [Hi|Hi].
    + destruct (pl_depth _ _ _ _ Pl _ Hi) as (e & Ee & B & _). rewrite Nat2Z.id in Ee. rewrite Hx in Ee. injection Ee as ->. lia.
    + rewrite (pl_other _ _ _ _ Pl i Hi) in Hx. apply lookup_replicate in Hx as [-> _]. lia.
  - intros Hlong. rewrite (pl_kraft _ _ _ _ Pl), kraft_zero. apply (longest_placed t ls maxCodeLen Pl Nn) in Hlong; [|unfold maxCodeLen; lia].
    destruct t as [f s|f l r]; [simpl in Ht; lia|]. cbn [tshare height] in *. pose proof (height_nonneg l). pose proof (height_nonneg r). rewrite !tshare_full by lia. by vm_compute.
Qed.
(** A tree this deep is this heavy. *)
Lemma height_bound t k m : good t -> nfreq t <= m -> m < fib (S (Z.to_nat k)) -> 0 <= k -> height t <= k.
Proof.
  intros Gt Hm Hlt Hk. destruct (good_fib t Gt) as [Hfib _]. destruct (Z.le_gt_cases (height t) k); [done|]. pose proof (fib_mono (S (Z.to_nat k)) (Z.to_nat (height t))). lia.
Qed.
Lemma huffmanLengths_spec :
  exists ls, @huffmanLengths E freq = Ok ls /\ lengthsFor freq ls /\ (Forall (fun f => f <= 1) freq -> longest ls <= maxCodeLen).
Proof using Hl Hf.
  unfold huffmanLengths. pose proof (leaves_spec freq 0) as LS. change (Z.to_nat symbolCount) with 512%nat.
  destruct (leaves 0 freq) as [|n0 [|n1 live]] eqn:EL.
  - exists (replicate 512 0). split; [done|]. split; [split|intros _; by vm_compute]; [done| |by apply Forall_replicate|by rewrite kraft_zero].
    intros s f H1 H2. pose proof (leaf_of s f H1 H2) as Hu. rewrite EL in Hu. by apply elem_of_nil in Hu.
  - destruct (proj1 (LS n0)) as (s0 & f0 & -> & Es0 & Hf0); [set_solver|]. cbn [nsymbol]. pose proof (lookup_lt_Some _ _ _ Es0). unfold zlen, symbolCount in Hl.
    rewrite store_ok by (rewrite zlen_replicate; lia). eexists. split; [reflexivity|]. replace (Z.to_nat (0 + Z.of_nat s0)) with s0 by lia.
    destruct (single_length s0) as [F L]; [lia| |by split]. intros s f H1 H2. pose proof (leaf_of s f H1 H2) as Hu. rewrite EL in Hu. apply list_elem_of_singleton in Hu. injection Hu as _ Hu. lia.
  - rewrite <- EL in *. pose proof (merge_sort_Permutation nodeLe (leaves 0 freq)) as P. pose proof (Permutation_length P) as PL.
    pose proof (leaves_total freq 0 maxFreq Hf) as HT. rewrite Hl in HT. unfold maxFreq, symbolCount in HT.
    destruct (@joinAll_spec E (length (leaves 0 freq)) _ (forest_leaves freq)) as (t & -> & Gt & St & Ft & Bt); [rewrite PL, EL; simpl; lia|rewrite (total_perm _ _ P); lia|]. run_bind.
    rewrite (syms_perm _ _ P) in St. rewrite (total_perm _ _ P) in Ft. assert (1 <= height t) as Ht by (apply Bt; rewrite PL, EL; simpl; lia).
    destruct (tree_lengths t St) as (ls & -> & F & L).
    { split; [done|]. eapply (height_bound t 255 (2 ^ 17 * 512)); [done|lia| |lia]. pose proof (fib_doubles 128) as F. change (2 * 128)%nat with (S (Z.to_nat 255)) in F. lia. }
    exists ls. split; [done|]. split; [done|]. intros H1. apply L. apply (height_bound t maxCodeLen 512 Gt); [|by vm_compute|unfold maxCodeLen; lia].
    assert (Forall (fun f => 0 <= f <= 1) freq) as H01 by (rewrite Forall_forall in *; intros x Hx; specialize (H1 x Hx); specialize (Hf x Hx); simpl in *; lia).
    pose proof (leaves_total freq 0 1 H01) as HT1. rewrite Hl in HT1. unfold symbolCount in HT1. lia.
Qed.
End lengths.

(** *** Flattening ends *)
Lemma flatten_lookup freq s f : freq !! s = Some f -> 0 < f <= maxFreq -> exists f', flatten freq !! s = Some f' /\ 0 < f'.
Proof.
  intros H Hf. unfold flatten. rewrite list_lookup_fmap, H. eexists. split; [reflexivity|]. unfold maxFreq in Hf. destruct (Z.gtb_spec f 1); [|lia]. unfold u32. rewrite Z.mod_small by lia. apply Z.div_str_pos. lia.
Qed.
Lemma flatten_bound k freq : 0 <= k < 17 -> Forall (fun f => 0 <= f <= 2 ^ (k + 1)) freq -> Forall (fun f => 0 <= f <= 2 ^ k) (flatten freq).
Proof.
  intros Hk H. unfold flatten. apply Forall_fmap. eapply Forall_impl; [exact H|]. intros f Hf. unfold compose. cbv beta in Hf. assert (2 ^ (k + 1) <= 2 ^ 17) by (apply Z.pow_le_mono_r; lia).
  assert (2 ^ (k + 1) = 2 * 2 ^ k) as H2k by (rewrite Z.pow_add_r by lia; lia). pose proof (Z.pow_pos_nonneg 2 k). destruct (Z.gtb_spec f 1); [|lia]. unfold u32. rewrite Z.mod_small by lia. split; [apply Z.div_pos; lia|]. apply Z.lt_succ_r, Z.div_lt_upper_bound; lia.
Qed.
Definition usable (freq ls : list Z) : Prop :=
  zlen ls = symbolCount /\ lengthsOk ls /\ kraft ls <= 2 ^ maxCodeLen /\ forall s f, freq !! s = Some f -> 0 < f -> exists l, ls !! s = Some l /\ 1 <= l <= maxCodeLen.
Lemma lengths_usable freq ls : lengthsFor freq ls -> longest ls <= maxCodeLen -> usable freq ls.
Proof.
  intros [L1 L2 L3 L4] Hl. destruct (longest_ge ls 0) as [_ F]. fold (longest ls) in F. assert (lengthsOk ls) as Ok'.
  { unfold lengthsOk. rewrite Forall_forall in *. intros x Hx. specialize (L3 x Hx). specialize (F x Hx). simpl in *. lia. }
  split; [done|]. split; [done|]. split; [by apply L4|]. intros s f H1 H2. destruct (L2 s f H1 H2) as (l & El & Hl1). exists l. split; [done|].
  pose proof (Forall_lookup_1 _ _ _ _ Ok' El). simpl in *. lia.
Qed.
(** The frequencies are flattened at most seventeen times. *)
Lemma codeLengths_spec {E} (k : nat) : forall freq, (k <= 17)%nat -> zlen freq = symbolCount -> Forall (fun f => 0 <= f <= 2 ^ Z.of_nat k) freq ->
  exists ls, @codeLengths E (S k) freq = Ok ls /\ usable freq ls.
Proof.
  induction k as [|k IH]; intros freq Hk Hl Hf; cbn [codeLengths].
  - destruct (@huffmanLengths_spec E freq Hl) as (ls & -> & F & L); [eapply Forall_impl; [exact Hf|]; cbn; unfold maxFreq; lia|]. run_bind.
    rewrite (proj2 (Z.leb_le _ _)) by (apply L; eapply Forall_impl; [exact Hf|]; cbn; lia). exists ls. split; [done|]. apply lengths_usable; [done|]. apply L. eapply Forall_impl; [exact Hf|]; cbn; lia.
  - pose proof (Z.pow_le_mono_r 2 (Z.of_nat (S k)) 17) as Hp. assert (Forall (fun f => 0 <= f <= maxFreq) freq) as Hm by (eapply Forall_impl; [exact Hf|]; cbn; unfold maxFreq; lia).
    destruct (@huffmanLengths_spec E freq Hl Hm) as (ls & -> & F & _). run_bind. destruct (Z.leb_spec (longest ls) maxCodeLen); [exists ls; split; [done|by apply lengths_usable]|].
    assert (Forall (fun f => 0 <= f <= 2 ^ Z.of_nat k) (flatten freq)) as Hf' by (apply flatten_bound; [lia|]; by replace (Z.of_nat k + 1) with (Z.of_nat (S k)) by lia).
    destruct (IH (flatten freq)) as (ls' & E' & U1 & U2 & U3 & U4); [lia|unfold flatten, zlen; by rewrite length_fmap|done|]. exists ls'. split; [done|]. do 3 (split; [done|]).
    intros s f H1 H2. destruct (flatten_lookup freq s f H1) as (f' & Ef & Hf0); [|by apply (U4 s f')]. pose proof (Forall_lookup_1 _ _ _ _ Hm H1). simpl in *. lia.
Qed.
End HuffCode.
