(* ===== verification/Huffman.v ===== *)
(** [compress/huffman/huffman.go]: the LZ77+Huffman codec of [MS-XCA].

    Every slice access goes through [index], [store] or [slice], which panic out of range.
    Fuel: the parse and the decoding of a block consume at least one byte of output a turn,
    the outer loops a block a turn, and the frequencies are flattened at most seventeen
    times; none of it runs out.  Positions of the hash chains are [int32]s of a block of at
    most 64 KiB. *)
From S2P Require Import Prelude Bytes BackRef HuffBits HuffCode.
Import HuffBits HuffCode.

Module Huffman.
Inductive huffErr := ErrInvalidFormat | ErrUnexpectedEOF | ErrInvalidOffset.
#[export] Instance huffErr_eq_dec : EqDecision huffErr.
Proof. solve_decision. Defined.
Abbreviation out := (outcome huffErr).

Definition blockSize : Z := 64 * 1024.
Definition tableSize : Z := symbolCount / 2.
Definition minMatch : Z := 3.
Definition maxDistance : Z := 65535.

(** [bits.Len32], less one; a distance is never zero. *)
Definition topBit (distance : Z) : Z := Z.log2 (u32 distance).

(** ** The parse *)
Record item := Item { literal : Z; ilen : Z; distance : Z }.
Definition hashBits : Z := 15.
Definition maxChain : nat := 32.
Definition hash (src : list Z) (i : Z) : out Z :=
  a ← index src i; b ← index src (i + 1); c ← index src (i + 2);
  let h := (a << 16) .^ (b << 8) .^ c in
  let h := h .^ (h >> 7) in
  mret (u32 (h * 0x9e3779b1) >> (32 - hashBits)).

Fixpoint extend (fuel : nat) (src : list Z) (p i l : Z) : out Z :=
  match fuel with
  | O => Stuck
  | S fuel =>
      if i + l <? zlen src then
        a ← index src (p + l); b ← index src (i + l);
        if a =? b then extend fuel src p i (l + 1) else mret l
      else mret l
  end.
(** A candidate that cannot beat what is in hand. *)
Definition hopeless (src : list Z) (p i bestLen : Z) : out bool :=
  if bestLen >? 0 then
    if i + bestLen >=? zlen src then mret true
    else a ← index src (p + bestLen); b ← index src (i + bestLen); mret (negb (a =? b))
  else mret false.
(** The fuel is what is left of [maxChain]. *)
Fixpoint search (n : nat) (src chain : list Z) (i p bestLen bestDist : Z) : out (Z * Z) :=
  match n with
  | O => mret (bestLen, bestDist)
  | S n =>
      if p <? 0 then mret (bestLen, bestDist) else
      let dist := i - p in
      if dist >? maxDistance then mret (bestLen, bestDist) else
      skip ← hopeless src p i bestLen;
      if skip : bool then p' ← index chain p; search n src chain i p' bestLen bestDist
      else
        l ← extend (S (length src)) src p i 0;
        p' ← index chain p;
        if l >? bestLen then search n src chain i p' l dist else search n src chain i p' bestLen bestDist
  end.

Record pstate := PState { p_head : list Z; p_chain : list Z; p_items : list item; p_freq : list Z; p_i : Z }.
Definition remember (src : list Z) (j : Z) (s : pstate) : out pstate :=
  h ← hash src j; c ← index (p_head s) h; chain ← store (p_chain s) j c; head ← store (p_head s) h j;
  mret (PState head chain (p_items s) (p_freq s) (p_i s)).
Definition countSymbol (sym : Z) (freq : list Z) : out (list Z) := f ← index freq sym; store freq sym (u32 (f + 1)).
Definition putLiteral (src : list Z) (s : pstate) : out pstate :=
  b ← index src (p_i s);
  freq ← countSymbol b (p_freq s);
  mret (PState (p_head s) (p_chain s) (p_items s ++ [Item b 0 0]) freq (p_i s + 1)).
(** [for j := i + 1; j < i+bestLen; j++]. *)
Fixpoint rememberRun (n : nat) (src : list Z) (j : Z) (s : pstate) : out pstate :=
  match n with
  | O => mret s
  | S n => s ← (if j + minMatch <=? zlen src then remember src j s else mret s); rememberRun n src (j + 1) s
  end.
Definition matchSymbol (len dist : Z) : Z := eofSymbol + Z.min (len - minMatch) 15 + 16 * topBit dist.
Definition parse_turn (src : list Z) (s : pstate) : out pstate :=
  let i := p_i s in
  if i + minMatch >? zlen src then putLiteral src s
  else
    h ← hash src i; p ← index (p_head s) h;
    best ← search maxChain src (p_chain s) i p 0 0;
    let '(bestLen, bestDist) := best in
    chain ← store (p_chain s) i p; head ← store (p_head s) h i;
    let s := PState head chain (p_items s) (p_freq s) i in
    if (bestLen <? minMatch) || ((bestLen =? minMatch) && (bestDist =? 1)) then putLiteral src s
    else
      freq ← countSymbol (matchSymbol bestLen bestDist) (p_freq s);
      s ← rememberRun (Z.to_nat (bestLen - 1)) src (i + 1) (PState (p_head s) (p_chain s) (p_items s ++ [Item 0 bestLen bestDist]) freq i);
      mret (PState (p_head s) (p_chain s) (p_items s) (p_freq s) (i + bestLen)).
Fixpoint parse_loop (fuel : nat) (src : list Z) (s : pstate) : out pstate :=
  match fuel with
  | O => Stuck
  | S fuel => if p_i s <? zlen src then s ← parse_turn src s; parse_loop fuel src s else mret s
  end.
Definition parse_init (src : list Z) : pstate :=
  PState (replicate (Z.to_nat (2 ^ hashBits)) (-1)) (replicate (length src) 0) [] (replicate (Z.to_nat symbolCount) 0) 0.
Definition parse (src : list Z) (last : bool) : out (list item * list Z) :=
  s ← parse_loop (S (length src)) src (parse_init src);
  freq ← (if last then countSymbol eofSymbol (p_freq s) else mret (p_freq s));
  mret (p_items s, freq).

(** ** The encoder *)
Fixpoint packLengths (lengths : list Z) : list Z :=
  match lengths with a :: b :: rest => (a .| u8 (b << 4)) :: packLengths rest | _ => [] end.
Definition writeSymbol (lengths codes : list Z) (sym : Z) (w : writer) : out writer :=
  l ← index lengths sym; c ← index codes sym; writeBits l c w.
(** The length of a match that its symbol could not hold. *)
Definition writeLength (len : Z) (w : writer) : writer :=
  let n := len - minMatch in
  if n >=? 15 then
    let n := n - 15 in
    if n <? 255 then writeByte (u8 n) w
    else
      let w := writeByte 255 w in
      let n := n + 15 in
      if n <? 65536 then writeUint16 (u16 n) w else writeUint32 (u32 n) (writeUint16 0 w)
  else w.
Definition writeItem (lengths codes : list Z) (it : item) (w : writer) : out writer :=
  if ilen it =? 0 then writeSymbol lengths codes (literal it) w
  else
    let high := topBit (distance it) in
    w ← writeSymbol lengths codes (matchSymbol (ilen it) (distance it)) w;
    writeBits high (u32 (u32 (distance it) - (1 << high))) (writeLength (ilen it) w).
Fixpoint writeItems (lengths codes : list Z) (items : list item) (w : writer) : out writer :=
  match items with
  | [] => mret w
  | it :: rest => w ← writeItem lengths codes it w; writeItems lengths codes rest w
  end.
Definition flattenings : nat := 18.
Definition compressBlock (dst src : list Z) (last : bool) : out (list Z) :=
  pf ← parse src last;
  let '(items, freq) := pf in
  lengths ← codeLengths flattenings freq;
  codes ← canonicalCodes lengths;
  w ← writeItems lengths codes items (newWriter (dst ++ packLengths lengths));
  w ← (if last then writeSymbol lengths codes eofSymbol w else mret w);
  flush w.
Fixpoint compress_loop (fuel : nat) (src : list Z) (start : Z) (dst : list Z) : out (list Z) :=
  match fuel with
  | O => Stuck
  | S fuel =>
      if start <? zlen src then
        let stop := Z.min (start + blockSize) (zlen src) in
        block ← slice src start stop;
        dst ← compressBlock dst block (stop =? zlen src);
        compress_loop fuel src (start + blockSize) dst
      else mret dst
  end.
Definition blocks (n : Z) : nat := Z.to_nat (n / blockSize + 2).
Definition Compress (src : list Z) : out (list Z) :=
  if zlen src =? 0 then mret [] else compress_loop (blocks (zlen src)) src 0 [].

(** ** The decoder *)
Definition orEOF {A} (o : option A) : out A := match o with Some a => mret a | None => Err ErrUnexpectedEOF end.
Definition readLength (src : list Z) (n : Z) (r : reader) : out (Z * reader) :=
  if n =? 15 then
    br ← orEOF (readByte src r);
    let '(b, r) := br in
    if b <? 255 then mret (15 + b, r)
    else
      vr ← orEOF (readUint16 src r);
      let '(v, r) := vr in
      if v =? 0 then orEOF (readUint32 src r) else mret (v, r)
  else mret (n, r).
Record block := Block { b_dst : list Z; b_produced : Z; b_reader : reader }.
Definition decompress_turn (table : decodeTable) (src : list Z) (want : Z) (s : block) : out block :=
  o ← symbol src table (b_reader s);
  match o with
  | None => Err ErrInvalidFormat
  | Some (sym, r) =>
      if sym =? eofSymbol then Err ErrUnexpectedEOF
      else if sym <? eofSymbol then mret (Block (b_dst s ++ [u8 sym]) (b_produced s + 1) r)
      else
        nr ← readLength src ((sym - eofSymbol) .& 15) r;
        let '(n, r) := nr in
        let len := n + minMatch in
        let high := (sym - eofSymbol) >> 4 in
        let '(d, r) := take_ src high r in
        let dist := (1 << high) + d in
        if dist >? zlen (b_dst s) then Err ErrInvalidOffset
        else if b_produced s + len >? want then Err ErrInvalidFormat
        else dst ← copyMatch (Z.to_nat len) (zlen (b_dst s) - dist) (b_dst s); mret (Block dst (b_produced s + len) r)
  end.
Fixpoint decompress_loop (fuel : nat) (table : decodeTable) (src : list Z) (want : Z) (s : block) : out block :=
  match fuel with
  | O => Stuck
  | S fuel => if b_produced s <? want then s ← decompress_turn table src want s; decompress_loop fuel table src want s else mret s
  end.
Definition decompressBlock (table : decodeTable) (src dst : list Z) (want : Z) (last : bool) : out (list Z * Z) :=
  s ← decompress_loop (S (Z.to_nat want)) table src want (Block dst 0 (newReader src));
  r ← (if last then
         o ← symbol src table (b_reader s);
         match o with Some (sym, r) => if sym =? eofSymbol then mret r else Err ErrInvalidFormat | None => Err ErrInvalidFormat end
       else mret (b_reader s));
  let words := (r_consumed r + 15) / 16 + 1 in
  let used := 2 * words + r_extra r in
  if used >? zlen src then Err ErrUnexpectedEOF else mret (b_dst s, used).
Definition unpackLengths (table : list Z) : list Z := mjoin ((fun b => [b .& 0x0f; b >> 4]) <$> table).
Fixpoint Decompress_loop (fuel : nat) (src : list Z) (limit pos : Z) (dst : list Z) : out (list Z) :=
  match fuel with
  | O => Stuck
  | S fuel =>
      if zlen dst <? limit then
        if pos + tableSize >=? zlen src then Err ErrUnexpectedEOF else
        tbl ← slice src pos (pos + tableSize);
        let want := Z.min (limit - zlen dst) blockSize in
        let last := limit - zlen dst <=? blockSize in
        table ← newDecodeTable (unpackLengths tbl);
        rest ← slice src (pos + tableSize) (zlen src);
        ou ← decompressBlock table rest dst want last;
        let '(dst, used) := ou in
        Decompress_loop fuel src limit (pos + tableSize + used) dst
      else mret dst
  end.
Definition Decompress (src : list Z) (limit : Z) : out (list Z) :=
  if zlen src =? 0 then mret []
  else if limit <? 0 then Err ErrInvalidFormat
  else Decompress_loop (blocks limit) src limit 0 [].

(** A run, a repetition and a literal, there and back. *)
Example huffman_sample :
  let src := replicate 300 97 ++ [98; 99; 100; 98; 99; 100; 98; 99; 100; 101] in
  (c ← Compress src; Decompress c (zlen src)) = Ok src.
Proof. vm_compute. reflexivity. Qed.

(** ** What the parse finds *)
Definition itemSymbol (it : item) : Z := if ilen it =? 0 then literal it else matchSymbol (ilen it) (distance it).
(** A back reference the block may use at [i]. *)
Record refers (src : list Z) (i len dist : Z) : Prop := Refers {
  rf_dist : 1 <= dist <= maxDistance; rf_back : dist <= i; rf_len : i + len <= zlen src; rf_same : repeats src i dist len;
}.
(** The items spell the bytes from [i] to [j]. *)
Inductive covers (src : list Z) : Z -> list item -> Z -> Prop :=
| cov_nil i : covers src i [] i
| cov_lit i b rest j : src !! Z.to_nat i = Some b -> covers src (i + 1) rest j -> covers src i (Item b 0 0 :: rest) j
| cov_match i len dist rest j : minMatch <= len -> (len = minMatch -> dist <> 1) -> refers src i len dist ->
    covers src (i + len) rest j -> covers src i (Item 0 len dist :: rest) j.
Lemma covers_app src i xs j ys k : covers src i xs j -> covers src j ys k -> covers src i (xs ++ ys) k.
Proof. induction 1; intros; simpl; [done|by apply cov_lit; auto|by apply cov_match; auto]. Qed.

Section parsing.
Context (src : list Z) (Hsrc : bytes src) (Hlen : zlen src <= blockSize).

Lemma byte_at i : 0 <= i < zlen src -> exists b, @index huffErr Z src i = Ok b /\ src !! Z.to_nat i = Some b /\ is_u8 b.
Proof using Hsrc. intros Hi. destruct (@index_in_range Z huffErr src i Hi) as (b & Hb & Eb). exists b. split; [done|]. split; [done|]. by eapply Forall_lookup_1. Qed.
Lemma hash_Ok i : 0 <= i -> i + minMatch <= zlen src -> exists h, hash src i = Ok h /\ 0 <= h < 2 ^ hashBits.
Proof using Hsrc.
  unfold minMatch, hashBits. intros Hi Hl. unfold hash. destruct (byte_at i) as (a & -> & _); [lia|]. run_bind. destruct (byte_at (i + 1)) as (b & -> & _); [lia|]. run_bind. destruct (byte_at (i + 2)) as (c & -> & _); [lia|]. run_bind.
  eexists. split; [reflexivity|]. unfold u32, hashBits. rewrite Z.shiftr_div_pow2 by lia.
  match goal with |- context [?z mod 2 ^ 32] => pose proof (Z.mod_pos_bound z (2 ^ 32) ltac:(lia)) as B end.
  split; [apply Z.div_pos; lia|]. apply Z.div_lt_upper_bound; lia.
Qed.
Lemma extend_spec fuel p i l : 0 <= p < i -> 0 <= l -> i + l <= zlen src -> repeats src i (i - p) l -> zlen src - (i + l) < Z.of_nat fuel ->
  exists l', extend fuel src p i l = Ok l' /\ l <= l' /\ i + l' <= zlen src /\ repeats src i (i - p) l'.
Proof using Hsrc.
  revert l. induction fuel as [|fuel IH]; intros l Hp Hl Hi Hr Hf; [lia|]. cbn [extend]. destruct (Z.ltb_spec (i + l) (zlen src)); [|exists l; split; [done|]; split; [lia|done]].
  destruct (byte_at (p + l)) as (a & -> & Ea & _); [lia|]. run_bind. destruct (byte_at (i + l)) as (b & -> & Eb & _); [lia|]. run_bind.
  destruct (Z.eqb_spec a b) as [->|]; [|exists l; split; [done|]; split; [lia|done]].
  destruct (IH (l + 1)) as (l' & El & B1 & B2 & B3); [lia|lia|lia| |lia|exists l'; split; [done|]; split; [lia|done]].
  intros j Hj. destruct (decide (j = l)) as [->|]; [|apply Hr; lia]. rewrite Eb. rewrite <- Ea. f_equal. lia.
Qed.
Definition chained (b : Z) (c : Z) : Prop := -1 <= c < Z.max b 1.
Lemma search_spec n chain i : 0 <= i -> i <= zlen chain -> Forall (chained i) chain -> forall p bl bd, -1 <= p < i -> (bl = 0 \/ (0 < bl /\ refers src i bl bd)) -> i <= zlen src ->
  exists l d, search n src chain i p bl bd = Ok (l, d) /\ (l = 0 \/ (0 < l /\ refers src i l d)).
Proof using Hsrc.
  intros Hi Hlc Hc. induction n as [|n IH]; intros p bl bd Hp Hb Hl; cbn [search]; [eauto|]. destruct (Z.ltb_spec p 0); [eauto|]. destruct (Z.gtb_spec (i - p) maxDistance); [eauto|].
  assert (exists h, hopeless src p i bl = Ok h) as [h ->].
  { unfold hopeless. destruct (Z.gtb_spec bl 0); [|eauto]. destruct (Z.geb_spec (i + bl) (zlen src)); [eauto|].
    destruct (byte_at (p + bl)) as (a & -> & _); [lia|]. run_bind. destruct (byte_at (i + bl)) as (b & -> & _); [lia|]. run_bind. eexists. reflexivity. }
  run_bind. destruct (@index_in_range Z huffErr chain p) as (p' & Ep & Lp); [lia|]. pose proof (Forall_lookup_1 _ _ _ _ Hc Lp) as Bp. unfold chained in Bp.
  destruct h; [rewrite Ep; run_bind; apply IH; [lia|done|done]|].
  destruct (extend_spec (S (length src)) p i 0) as (l & -> & B1 & B2 & B3); [lia|lia|lia|intros j Hj; lia|unfold zlen; lia|]. run_bind. rewrite Ep. run_bind.
  destruct (Z.gtb_spec l bl); apply IH; try done; try lia. right. split; [lia|]. split; [lia|lia|done|done].
Qed.

Record pinv (b : Z) (s : pstate) : Prop := PInv {
  pi_head : zlen (p_head s) = 2 ^ hashBits; pi_heads : Forall (fun c => -1 <= c < b) (p_head s);
  pi_chain : zlen (p_chain s) = zlen src; pi_chains : Forall (chained b) (p_chain s);
}.
Lemma remember_spec b j s : pinv b s -> 0 <= j -> b <= j -> j + minMatch <= zlen src ->
  exists s', remember src j s = Ok s' /\ pinv (j + 1) s' /\ p_items s' = p_items s /\ p_freq s' = p_freq s /\ p_i s' = p_i s.
Proof using Hsrc.
  intros [P1 P2 P3 P4] Hj Hb Hl. unfold remember. destruct (hash_Ok j) as (h & -> & Hh); [done..|]. run_bind.
  destruct (@index_in_range Z huffErr (p_head s) h) as (c & -> & Lc); [lia|]. run_bind. pose proof (Forall_lookup_1 _ _ _ _ P2 Lc) as Bc. simpl in Bc. unfold minMatch in Hl.
  rewrite (store_ok (p_chain s)) by lia. run_bind. rewrite (store_ok (p_head s)) by lia. run_bind. eexists. split; [reflexivity|]. split; [|done]. split; cbn; rewrite ?zlen_insert; try done.
  - apply Forall_insert; [|lia]. eapply Forall_impl; [exact P2|]. simpl. lia.
  - apply Forall_insert; [|unfold chained; lia]. eapply Forall_impl; [exact P4|]. unfold chained. lia.
Qed.
Lemma pinv_weaken b b' s : pinv b s -> b <= b' -> pinv b' s.
Proof. intros [P1 P2 P3 P4] H. split; try done; eapply Forall_impl; [exact P2| |exact P4|]; unfold chained; simpl; lia. Qed.
Lemma rememberRun_spec n : forall j s, pinv j s -> 0 <= j -> j + Z.of_nat n <= zlen src ->
  exists s', rememberRun n src j s = Ok s' /\ pinv (j + Z.of_nat n) s' /\ p_items s' = p_items s /\ p_freq s' = p_freq s.
Proof using Hsrc.
  induction n as [|n IH]; intros j s P Hj Hl; cbn [rememberRun]; [exists s; split; [done|]; by rewrite Z.add_0_r|].
  assert (exists s1, (if j + minMatch <=? zlen src then remember src j s else mret s) = Ok s1 /\ pinv (j + 1) s1 /\ p_items s1 = p_items s /\ p_freq s1 = p_freq s) as (s1 & -> & Q1 & Q2 & Q3).
  { destruct (Z.leb_spec (j + minMatch) (zlen src)).
    - destruct (remember_spec j j s P) as (s1 & E1 & R1 & R2 & R3 & _); [lia..|]. eauto.
    - exists s. split; [done|]. split; [|done]. eapply pinv_weaken; [done|lia]. }
  run_bind. destruct (IH (j + 1) s1 Q1) as (s' & -> & R1 & R2 & R3); [lia|lia|]. exists s'. split; [done|]. replace (j + Z.of_nat (S n)) with (j + 1 + Z.of_nat n) by lia. split; [done|]. split; congruence.
Qed.

(** The frequencies of the symbols of the items, none above [k]. *)
Record counted (k : Z) (items : list item) (freq : list Z) : Prop := Counted {
  ct_len : zlen freq = symbolCount; ct_bound : Forall (fun f => 0 <= f <= k) freq;
  ct_used : forall it, it ∈ items -> exists f, freq !! Z.to_nat (itemSymbol it) = Some f /\ 0 < f;
}.
Lemma countSymbol_spec sym k items freq : counted k items freq -> 0 <= sym < symbolCount -> 0 <= k < 2 ^ 31 ->
  exists freq', countSymbol sym freq = Ok freq' /\ counted (k + 1) items freq' /\ exists f, freq' !! Z.to_nat sym = Some f /\ 0 < f.
Proof.
  intros [C1 C2 C3] Hs Hk. unfold countSymbol. destruct (@index_in_range Z huffErr freq sym) as (f & -> & Lf); [lia|]. run_bind. pose proof (Forall_lookup_1 _ _ _ _ C2 Lf) as Bf. simpl in Bf.
  unfold u32. rewrite Z.mod_small by lia. rewrite store_ok by lia. eexists. split; [reflexivity|]. pose proof (lookup_lt_Some _ _ _ Lf). split.
  - split; [by rewrite zlen_insert| |].
    + apply Forall_insert; [|lia]. eapply Forall_impl; [exact C2|]. simpl. lia.
    + intros it Hit. destruct (C3 it Hit) as (g & Eg & Hg). destruct (decide (Z.to_nat sym = Z.to_nat (itemSymbol it))) as [<-|]; [|exists g; by rewrite list_lookup_insert_ne by done].
      rewrite list_lookup_insert_eq by lia. eexists. split; [done|lia].
  - rewrite list_lookup_insert_eq by lia. eexists. split; [done|lia].
Qed.
Lemma counted_app k items freq it f : counted k items freq -> freq !! Z.to_nat (itemSymbol it) = Some f -> 0 < f -> counted k (items ++ [it]) freq.
Proof. intros [C1 C2 C3] Hf Hp. split; [done..|]. intros it' Hit. apply elem_of_app in Hit as [Hit|Hit]; [by apply C3|]. apply list_elem_of_singleton in Hit as ->. eauto. Qed.
Lemma topBit_spec dist : 1 <= dist <= maxDistance -> 0 <= topBit dist <= 15 /\ 2 ^ topBit dist <= dist < 2 ^ (topBit dist + 1).
Proof.
  unfold maxDistance, topBit, u32. intros Hd. rewrite Z.mod_small by lia. pose proof (Z.log2_nonneg dist). pose proof (Z.log2_spec dist). replace (Z.log2 dist + 1) with (Z.succ (Z.log2 dist)) by lia.
  split; [|lia]. split; [done|]. apply Z.lt_succ_r. apply Z.log2_lt_pow2; lia.
Qed.
Lemma matchSymbol_range len dist : minMatch <= len -> 1 <= dist <= maxDistance -> eofSymbol <= matchSymbol len dist < symbolCount.
Proof. intros Hl Hd. destruct (topBit_spec dist Hd) as [? _]. unfold matchSymbol, minMatch, eofSymbol, symbolCount in *. lia. Qed.

Record pfull (s : pstate) : Prop := PFull {
  pf_inv : pinv (p_i s) s; pf_i : 0 <= p_i s <= zlen src; pf_covers : covers src 0 (p_items s) (p_i s); pf_counted : counted (p_i s) (p_items s) (p_freq s);
}.
Lemma putLiteral_spec b s : pinv b s -> b <= p_i s + 1 -> 0 <= p_i s < zlen src -> covers src 0 (p_items s) (p_i s) -> counted (p_i s) (p_items s) (p_freq s) ->
  exists s', putLiteral src s = Ok s' /\ pfull s' /\ p_i s' = p_i s + 1.
Proof using Hsrc Hlen.
  intros P Hb Hi Hc Hf. unfold putLiteral. destruct (byte_at (p_i s) Hi) as (x & -> & Ex & Bx). run_bind. unfold is_u8, blockSize in *.
  destruct (countSymbol_spec x (p_i s) _ _ Hf) as (freq & -> & C & f & Ef & Hf0); [unfold symbolCount; lia|lia|]. run_bind. eexists. split; [reflexivity|]. split; [|done]. split; cbn.
  - apply (pinv_weaken b (p_i s + 1)) in P; [|done]. by destruct P.
  - lia.
  - eapply covers_app; [exact Hc|]. apply cov_lit; [done|]. apply cov_nil.
  - eapply counted_app; [exact C|exact Ef|done].
Qed.
Lemma parse_turn_spec s : pfull s -> p_i s < zlen src -> exists s', parse_turn src s = Ok s' /\ pfull s' /\ p_i s < p_i s'.
Proof using Hsrc Hlen.
  intros [P Hi Hc Hf] Hlt. unfold parse_turn. destruct (Z.gtb_spec (p_i s + minMatch) (zlen src)) as [H3|H3].
  { destruct (putLiteral_spec (p_i s) s P) as (s' & E' & F & Ei); [lia|lia|done|done|]. exists s'. split; [done|]. split; [done|lia]. }
  pose proof P as [P1 P2 P3 P4]. destruct (hash_Ok (p_i s)) as (h & -> & Hh); [lia..|]. run_bind.
  destruct (@index_in_range Z huffErr (p_head s) h) as (p & -> & Lp); [lia|]. run_bind. pose proof (Forall_lookup_1 _ _ _ _ P2 Lp) as Bp. simpl in Bp.
  destruct (search_spec maxChain (p_chain s) (p_i s)) with (p := p) (bl := 0) (bd := 0) as (bl & bd & -> & Hbest); [lia|lia|done|done|by left|lia|]. run_bind.
  unfold minMatch in H3. rewrite (store_ok (p_chain s)) by lia. run_bind. rewrite (store_ok (p_head s)) by lia. run_bind. cbv zeta. set (s1 := PState _ _ _ _ _).
  assert (pinv (p_i s + 1) s1) as Q1.
  { split; cbn; rewrite ?zlen_insert; try done.
    - apply Forall_insert; [|lia]. eapply Forall_impl; [exact P2|]. simpl. lia.
    - apply Forall_insert; [|unfold chained; lia]. eapply Forall_impl; [exact P4|]. unfold chained. lia. }
  destruct (_ || _) eqn:Hlit.
  { destruct (putLiteral_spec (p_i s + 1) s1 Q1) as (s' & E' & F & Ei); [cbn; lia|cbn; lia|done|done|]. exists s'. split; [done|]. split; [done|]. cbn in Ei. lia. }
  apply orb_false_iff in Hlit as [Hl1%Z.ltb_ge Hl2]. destruct Hbest as [->|[_ R]]; [unfold minMatch in Hl1; lia|]. pose proof R as [R1 R2 R3 R4].
  destruct (countSymbol_spec (matchSymbol bl bd) (p_i s) _ _ Hf) as (freq & E' & C & f & Ef & Hf0); [pose proof (matchSymbol_range bl bd Hl1 R1); unfold eofSymbol in *; lia|unfold blockSize in *; lia|].
  change (p_freq s1) with (p_freq s). rewrite E'. run_bind. set (s2 := PState _ _ _ _ _).
  assert (pinv (p_i s + 1) s2) as Q2 by (by destruct Q1). unfold minMatch in Hl1.
  destruct (rememberRun_spec (Z.to_nat (bl - 1)) (p_i s + 1) s2 Q2) as (s3 & -> & Q3 & I3 & F3); [lia|lia|]. run_bind. eexists. split; [reflexivity|]. split; [|cbn; lia]. split; cbn.
  - replace (p_i s + 1 + Z.of_nat (Z.to_nat (bl - 1))) with (p_i s + bl) in Q3 by lia. by destruct Q3.
  - lia.
  - rewrite I3. cbn. eapply covers_app; [exact Hc|]. apply cov_match; [unfold minMatch; lia| |done|apply cov_nil].
    intros ->. apply andb_false_iff in Hl2 as [Hl2|Hl2]; [by rewrite Z.eqb_refl in Hl2|]. by apply Z.eqb_neq in Hl2.
  - rewrite I3, F3. cbn. eapply counted_app; [|unfold itemSymbol; cbn; rewrite (proj2 (Z.eqb_neq bl 0)) by lia; exact Ef|done].
    destruct C as [C1 C2 C3]. split; [done| |done]. eapply Forall_impl; [exact C2|]. simpl. lia.
Qed.
Lemma parse_loop_spec fuel s : pfull s -> zlen src - p_i s < Z.of_nat fuel -> exists s', parse_loop fuel src s = Ok s' /\ pfull s' /\ p_i s' = zlen src.
Proof using Hsrc Hlen.
  revert s. induction fuel as [|fuel IH]; intros s P Hf; cbn [parse_loop]; [pose proof (pf_i _ P); lia|]. destruct (Z.ltb_spec (p_i s) (zlen src)).
  - destruct (parse_turn_spec s P) as (s1 & -> & P1 & Hi); [done|]. run_bind. apply IH; [done|lia].
  - exists s. split; [done|]. split; [done|]. pose proof (pf_i _ P). lia.
Qed.
Lemma parse_init_full : pfull (parse_init src).
Proof.
  split; cbn [parse_init p_i p_items p_freq]; [|pose proof (zlen_nonneg src); lia|apply cov_nil|].
  - split; cbn [parse_init p_head p_chain]; [rewrite zlen_replicate; apply Z2Nat.id; unfold hashBits; lia|apply Forall_replicate; lia|apply zlen_replicate|apply Forall_replicate; unfold chained; lia].
  - split; [rewrite zlen_replicate; apply Z2Nat.id; unfold symbolCount; lia|apply Forall_replicate; lia|]. intros it Hit. by apply elem_of_nil in Hit.
Qed.
(** The parse of a block: items that spell it, and frequencies that give every symbol in use
    a code. *)
Lemma parse_spec last : exists items freq, parse src last = Ok (items, freq) /\ covers src 0 items (zlen src) /\ counted (2 ^ 17) items freq /\
  (last = true -> exists f, freq !! Z.to_nat eofSymbol = Some f /\ 0 < f).
Proof using Hsrc Hlen.
  unfold parse. destruct (parse_loop_spec (S (length src)) _ parse_init_full) as (s & -> & [P Hi Hc C] & Ei); [cbn; unfold zlen; lia|]. run_bind. rewrite Ei in Hc, C. unfold blockSize in Hlen.
  assert (forall k freq, k <= 2 ^ 17 -> counted k (p_items s) freq -> counted (2 ^ 17) (p_items s) freq) as W by (intros k freq Hk [C1 C2 C3]; split; [done| |done]; eapply Forall_impl; [exact C2|]; simpl; lia).
  destruct last.
  - destruct (countSymbol_spec eofSymbol _ _ _ C) as (freq & -> & C' & F); [unfold eofSymbol, symbolCount; lia|pose proof (zlen_nonneg src); lia|]. run_bind.
    eexists _, _. split; [reflexivity|]. split; [done|]. split; [eapply W; [|exact C']; lia|done].
  - run_bind || idtac. eexists _, _. split; [reflexivity|]. split; [done|]. split; [eapply W; [|exact C]; lia|done].
Qed.
End parsing.

(** ** What was written is read back *)
Section behind.
Context (pre blk : list Z).
(** The first [i] bytes of a block, behind what was decoded before it. *)
Definition soFar (i : Z) : list Z := sub (pre ++ blk) 0 (zlen pre + i).
Lemma zlen_soFar i : 0 <= i <= zlen blk -> zlen (soFar i) = zlen pre + i.
Proof. intros Hi. unfold soFar. pose proof (zlen_nonneg pre). rewrite zlen_sub; rewrite ?zlen_app; lia. Qed.
Lemma lookup_blk i : 0 <= i -> (pre ++ blk) !! Z.to_nat (zlen pre + i) = blk !! Z.to_nat i.
Proof. intros Hi. pose proof (zlen_nonneg pre). unfold zlen in *. rewrite lookup_app_r by lia. f_equal. lia. Qed.
Lemma repeats_behind i dist len : refers blk i len dist -> repeats (pre ++ blk) (zlen pre + i) dist len.
Proof.
  intros [[R1 _] R2 R3 R4] j Hj. replace (zlen pre + i - dist + j) with (zlen pre + (i - dist + j)) by lia. replace (zlen pre + i + j) with (zlen pre + (i + j)) by lia.
  rewrite !lookup_blk by lia. by apply R4.
Qed.
End behind.
Lemma matchSymbol_parts len dist : minMatch <= len -> 1 <= dist <= maxDistance ->
  (matchSymbol len dist - eofSymbol) .& 15 = Z.min (len - minMatch) 15 /\ (matchSymbol len dist - eofSymbol) >> 4 = topBit dist.
Proof.
  intros Hl Hd. destruct (topBit_spec dist Hd) as [B _]. unfold matchSymbol, minMatch in *. set (m := Z.min (len - 3) 15). assert (0 <= m <= 15) by lia.
  replace (eofSymbol + m + 16 * topBit dist - eofSymbol) with (m + topBit dist * 2 ^ 4) by lia. change 15 with (Z.ones 4) at 1. rewrite land_ones_mod, Z.shiftr_div_pow2 by lia.
  rewrite Z.mod_add, Z.div_add by lia. rewrite Z.mod_small, Z.div_small by lia. lia.
Qed.

Section coding.
Context (ls codes : list Z) (Hlen : zlen ls = symbolCount) (Hls : lengthsOk ls) (HK : kraft ls <= 2 ^ maxCodeLen)
  (Hcodes : forall s l, ls !! s = Some l -> 0 < l -> codes !! s = Some (codeOf ls s l)).
Definition coded (sym : Z) : Prop := 0 <= sym /\ exists l, ls !! Z.to_nat sym = Some l /\ 1 <= l <= maxCodeLen.
Lemma writeSymbol_bits sym l w : 0 <= sym -> ls !! Z.to_nat sym = Some l -> 1 <= l <= maxCodeLen ->
  writeSymbol ls codes sym w = writeBits l (codeOf ls (Z.to_nat sym) l) w.
Proof using Hcodes.
  intros H0 Hl Hr. unfold writeSymbol. rewrite (proj2 (index_Ok ls sym l)) by done. run_bind. rewrite (proj2 (index_Ok codes sym (codeOf ls (Z.to_nat sym) l))); [done|].
  split; [done|]. apply Hcodes; [done|lia].
Qed.
(** The items a block may be made of. *)
Record sound (it : item) : Prop := Sound {
  so_coded : coded (itemSymbol it);
  so_match : ilen it <> 0 -> minMatch <= ilen it <= blockSize /\ 1 <= distance it <= maxDistance;
}.
Lemma writeLength_ok len w : wf w -> wf (writeLength len w) /\ forall F, finishes (writeLength len w) F -> finishes w F.
Proof.
  intros W. unfold writeLength, writeByte, writeUint16, writeUint32. destruct (_ >=? 15); [|done].
  assert (forall bs, bytes bs -> forall w, wf w -> wf (writeRaw bs w) /\ forall F, finishes (writeRaw bs w) F -> finishes w F) as Raw.
  { clear. intros bs Hb w W. destruct (writeRaw_spec w W bs Hb) as [W' K]. split; [done|]. intros F Fi. by apply K. }
  assert (bytes [255]) as B255 by (by repeat constructor). destruct (_ <? 255).
  { apply Raw; [|done]. constructor; [|constructor]. apply Z.mod_pos_bound. lia. }
  destruct (Raw _ B255 w W) as [W1 K1]. destruct (_ <? 65536).
  - destruct (Raw _ (bytes_le_enc 2 (u16 (len - minMatch - 15 + 15))) _ W1) as [W2 K2]. split; [done|]. eauto.
  - destruct (Raw _ (bytes_le_enc 2 0) _ W1) as [W2 K2]. destruct (Raw _ (bytes_le_enc 4 (u32 (len - minMatch - 15 + 15))) _ W2) as [W3 K3]. split; [done|]. eauto.
Qed.
Lemma writeSymbol_ok sym w : coded sym -> wf w -> exists w', writeSymbol ls codes sym w = Ok w' /\ wf w' /\ forall F, finishes w' F -> finishes w F.
Proof using Hcodes HK.
  intros (H0 & l & Hl & Hr) W. rewrite (writeSymbol_bits sym l w H0 Hl Hr). apply writeBits_ok; [done|unfold maxCodeLen in *; lia|]. by apply codeOf_fits.
Qed.
Lemma distance_bits dist : 1 <= dist <= maxDistance -> 0 <= topBit dist <= 16 /\ u32 (u32 dist - (1 << topBit dist)) = dist - 2 ^ topBit dist /\ 0 <= dist - 2 ^ topBit dist < 2 ^ topBit dist.
Proof.
  intros Hd. destruct (topBit_spec dist Hd) as [B1 B2]. unfold maxDistance in Hd. split; [lia|]. rewrite Z.pow_add_r in B2 by lia. split; [|lia].
  unfold u32. rewrite Z.shiftl_mul_pow2 by lia. rewrite (Z.mod_small dist) by lia. rewrite Z.mod_small; lia.
Qed.
Lemma writeItem_ok it w : sound it -> wf w -> exists w', writeItem ls codes it w = Ok w' /\ wf w' /\ forall F, finishes w' F -> finishes w F.
Proof using Hcodes HK.
  intros [C M] W. unfold writeItem, itemSymbol in *. destruct (Z.eqb_spec (ilen it) 0) as [E0|E0]; [by apply writeSymbol_ok|]. destruct (M E0) as [Ml Md].
  destruct (writeSymbol_ok _ w C W) as (w1 & -> & W1 & K1). run_bind. destruct (writeLength_ok (ilen it) w1 W1) as [W2 K2].
  destruct (distance_bits (distance it) Md) as (B1 & -> & B3). destruct (@writeBits_ok huffErr (writeLength (ilen it) w1) W2 (topBit (distance it)) (distance it - 2 ^ topBit (distance it))) as (w3 & -> & W3 & K3); [done..|].
  exists w3. split; [done|]. split; [done|]. eauto.
Qed.
Lemma writeItems_ok items w : Forall sound items -> wf w -> exists w', writeItems ls codes items w = Ok w' /\ wf w' /\ forall F, finishes w' F -> finishes w F.
Proof using Hcodes HK.
  intros H. revert w. induction H as [|it items Hit _ IH]; intros w W; cbn [writeItems]; [exists w; eauto|].
  destruct (writeItem_ok it w Hit W) as (w1 & -> & W1 & K1). run_bind. destruct (IH w1 W1) as (w2 & -> & W2 & K2). exists w2. split; [done|]. split; [done|]. eauto.
Qed.

(** *** The decoder in step *)
Section stepping.
Context (F R : list Z) (base : Z).
Context (HR : bytes R) (Hbase : 0 <= base) (Hsame : forall p : nat, base <= Z.of_nat p < zlen F -> R !! Z.to_nat (Z.of_nat p - base) = F !! p)
  (HlenR : zlen F - base <= zlen R) (t : decodeTable) (T : reads (E := huffErr) ls t).
Definition anywhere (w : writer) (r : reader) : Prop := starts F base w r \/ sync F base w r.

Lemma symbol_in_step sym w r w' : coded sym -> anywhere w r -> writeSymbol ls codes sym w = Ok w' -> finishes w' F ->
  finishes w F /\ exists r', @symbol huffErr R t r = Ok (Some (sym, r')) /\ sync F base w' r'.
Proof using HR Hbase Hsame HlenR T Hcodes HK.
  intros (H0 & l & Hl & Hr) A Ew Fi. rewrite (writeSymbol_bits sym l w H0 Hl Hr) in Ew. pose proof (codeOf_fits ls HK _ _ Hl Hr) as Bc. unfold maxCodeLen in Hr.
  assert (finishes w F /\ exists X, rep r X /\ peek l r = codeOf ls (Z.to_nat sym) l /\ sync F base w' (skip R l r)) as (Fw & X & Rp & Pk & S).
  { destruct A as [A|A].
    - destruct (@starts_bits huffErr F R base HR Hbase Hsame HlenR w r l (codeOf ls (Z.to_nat sym) l) A) as (w1 & E1 & _ & K); [lia|done|]. rewrite E1 in Ew. injection Ew as ->.
      destruct (K Fi) as (K1 & K2 & K3 & K4). eauto.
    - destruct (@sync_bits huffErr F R base HR Hbase Hsame HlenR w r l (codeOf ls (Z.to_nat sym) l) A) as (w1 & E1 & _ & K); [lia|done|]. rewrite E1 in Ew. injection Ew as ->.
      destruct (K Fi) as (K1 & r' & K2 & K3). split; [done|]. unfold take_ in K2. rewrite (proj2 (Z.eqb_neq l 0)) in K2 by lia. injection K2 as K2 <-. eexists. split; [eapply sync_rep; [exact Hbase|exact A|exact K1]|done]. }
  split; [done|]. exists (skip R l r). split; [|done]. rewrite (symbol_reads ls HK R t r X (Z.to_nat sym) l HR T Hl Hr Rp Pk). by rewrite Z2Nat.id by lia.
Qed.
Lemma length_in_step len w r : minMatch <= len <= blockSize -> sync F base w r -> finishes (writeLength len w) F ->
  finishes w F /\ exists r', readLength R (Z.min (len - minMatch) 15) r = Ok (len - minMatch, r') /\ sync F base (writeLength len w) r'.
Proof using Hbase Hsame HlenR.
  unfold minMatch, blockSize. intros Hl S Fi. unfold writeLength, readLength, minMatch in *. destruct (Z.geb_spec (len - 3) 15) as [H15|H15].
  - replace (Z.min (len - 3) 15) with 15 by lia. cbn [Z.eqb Pos.eqb]. destruct (Z.ltb_spec (len - 3 - 15) 255) as [H255|H255].
    + unfold u8 in *. rewrite Z.mod_small in * by lia. destruct (sync_byte F R base Hbase Hsame HlenR w r (len - 3 - 15) S) as (Fw & r1 & -> & S1); [unfold is_u8; lia|done|].
      split; [done|]. cbn [orEOF]. rewrite bind_mret. cbv beta iota. rewrite (proj2 (Z.ltb_lt _ _)) by lia. exists r1. split; [|done]. unfold mret, outcome_ret. do 2 f_equal. lia.
    + destruct (Z.ltb_spec (len - 3 - 15 + 15) 65536) as [H16|H16]; [|lia]. unfold u16 in *. rewrite Z.mod_small in * by lia.
      destruct (writeRaw_spec (writeByte 255 w)) with (bs := le_enc 2 (len - 3 - 15 + 15)) as [_ K2]; [apply writeRaw_spec; [apply S|by repeat constructor]|apply bytes_le_enc|].
      destruct (K2 F Fi) as [Fi1 _]. destruct (sync_byte F R base Hbase Hsame HlenR w r 255 S) as (Fw & r1 & -> & S1); [by split|done|]. split; [done|].
      cbn [orEOF]. rewrite bind_mret. cbv beta iota. change (255 <? 255) with false. cbv iota.
      destruct (sync_word F R base Hbase Hsame HlenR _ r1 2 (len - 3 - 15 + 15) S1) as (_ & r2 & E2 & S2); [lia|done|]. change (Z.of_nat 2) with 2 in E2. unfold readUint16. rewrite E2.
      cbn [orEOF]. rewrite bind_mret. cbv beta iota. rewrite (proj2 (Z.eqb_neq _ 0)) by lia. exists r2. split; [|done]. unfold mret, outcome_ret. do 2 f_equal. lia.
  - split; [done|]. rewrite (proj2 (Z.eqb_neq _ 15)) by lia. exists r. split; [|done]. unfold mret, outcome_ret. do 2 f_equal. lia.
Qed.

Context (pre blk : list Z) (Hblk : zlen blk <= blockSize) (Hbytes : bytes blk).
Lemma literal_in_step w r w' i b : coded b -> 0 <= b < 256 -> anywhere w r -> writeItem ls codes (Item b 0 0) w = Ok w' -> finishes w' F ->
  0 <= i -> blk !! Z.to_nat i = Some b ->
  finishes w F /\ exists r', decompress_turn t R (zlen blk) (Block (soFar pre blk i) i r) = Ok (Block (soFar pre blk (i + 1)) (i + 1) r') /\ sync F base w' r'.
Proof using HR Hbase Hsame HlenR T Hcodes HK.
  intros C Hb A Ew Fi Hi Eb. destruct (symbol_in_step b w r w' C A Ew Fi) as (Fw & r' & Es & S). split; [done|]. exists r'. split; [|done].
  unfold decompress_turn. cbn [b_reader b_dst b_produced]. rewrite Es. run_bind. unfold eofSymbol. rewrite (proj2 (Z.eqb_neq b 256)), (proj2 (Z.ltb_lt b 256)) by lia. unfold mret, outcome_ret. do 2 f_equal.
  unfold u8. rewrite Z.mod_small by lia. unfold soFar. rewrite Z.add_assoc. rewrite (sub_snoc _ _ _ b); [done|lia|pose proof (zlen_nonneg pre); lia|]. by rewrite lookup_blk by lia.
Qed.
Lemma match_in_step w r w' i len dist : coded (matchSymbol len dist) -> minMatch <= len -> (len = minMatch -> dist <> 1) -> refers blk i len dist ->
  anywhere w r -> writeItem ls codes (Item 0 len dist) w = Ok w' -> finishes w' F ->
  finishes w F /\ exists r', decompress_turn t R (zlen blk) (Block (soFar pre blk i) i r) = Ok (Block (soFar pre blk (i + len)) (i + len) r') /\ sync F base w' r'.
Proof using HR Hbase Hsame HlenR T Hcodes HK Hblk.
  intros C Hl Hne Rf A Ew Fi. pose proof Rf as [Rd Rb Re Rs]. unfold writeItem in Ew. cbn [ilen distance] in Ew. unfold minMatch in Hl. rewrite (proj2 (Z.eqb_neq len 0)) in Ew by lia.
  apply bind_Ok in Ew as (w1 & E1 & Ew). destruct (distance_bits dist Rd) as (B1 & Eb & B3). rewrite Eb in Ew.
  assert (wf w1 /\ (finishes w1 F -> finishes w F /\ exists r', @symbol huffErr R t r = Ok (Some (matchSymbol len dist, r')) /\ sync F base w1 r')) as [W1 K1].
  { split; [|intros; eapply symbol_in_step; eauto]. assert (wf w) as W by (destruct A as [A|A]; apply A). destruct (writeSymbol_ok _ w C W) as (w1' & E1' & W1 & _). rewrite E1' in E1. by injection E1 as <-. }
  destruct (writeLength_ok len w1 W1) as [W2 K2]. destruct (@writeBits_ok huffErr _ W2 (topBit dist) (dist - 2 ^ topBit dist)) as (w3 & E3 & W3 & K3); [done..|]. rewrite E3 in Ew. injection Ew as ->.
  destruct (K1 (K2 F (K3 F Fi))) as (Fw & r1 & Es & S1). split; [done|]. unfold blockSize in *.
  destruct (length_in_step len w1 r1) as (_ & r2 & El & S2); [unfold minMatch, blockSize; lia|done|by apply K3|].
  destruct (@sync_bits huffErr F R base HR Hbase Hsame HlenR _ r2 (topBit dist) (dist - 2 ^ topBit dist) S2) as (w4 & E4 & _ & K4); [done..|]. rewrite E3 in E4. injection E4 as <-.
  destruct (K4 Fi) as (_ & r3 & Et & S3). exists r3. split; [|done].
  unfold decompress_turn. cbn [b_reader b_dst b_produced]. rewrite Es. run_bind. pose proof (matchSymbol_range len dist ltac:(unfold minMatch; lia) Rd) as Mr.
  assert (matchSymbol len dist <> eofSymbol) as Hneof.
  { unfold matchSymbol, minMatch in *. intros E. destruct (Z.eq_dec len 3) as [->|]; [|destruct (topBit_spec dist Rd); lia]. assert (topBit dist = 0) as T0 by (destruct (topBit_spec dist Rd); lia).
    destruct (topBit_spec dist Rd) as [_ Bd]. rewrite T0 in Bd. change (2 ^ (0 + 1)) with 2 in Bd. change (2 ^ 0) with 1 in Bd. apply Hne; [done|lia]. }
  rewrite (proj2 (Z.eqb_neq _ _) Hneof), (proj2 (Z.ltb_ge _ _)) by lia. destruct (matchSymbol_parts len dist) as [-> ->]; [unfold minMatch; lia|done|]. rewrite El. run_bind. rewrite Et. cbv beta iota zeta.
  rewrite Z.shiftl_mul_pow2 by lia. replace (1 * 2 ^ topBit dist + (dist - 2 ^ topBit dist)) with dist by lia. replace (len - minMatch + minMatch) with len by lia.
  rewrite zlen_soFar by lia. pose proof (zlen_nonneg pre). destruct (Z.gtb_spec dist (zlen pre + i)); [lia|]. destruct (Z.gtb_spec (i + len) (zlen blk)); [lia|].
  unfold soFar. rewrite copyMatch_repeats; [|lia|lia|rewrite zlen_app; lia|by apply repeats_behind]. run_bind. unfold mret, outcome_ret. do 3 f_equal. lia.
Qed.

Lemma covers_le i items j : covers blk i items j -> i <= j /\ (items <> [] -> i < j).
Proof using Type. induction 1 as [|i b rest j _ _ [IH _]|i len dist rest j Hl _ _ _ [IH _]]; [split; [lia|done]|split; lia|unfold minMatch in Hl; split; lia]. Qed.
Lemma item_in_step i it rest j w r w' : covers blk i (it :: rest) j -> sound it -> anywhere w r -> writeItem ls codes it w = Ok w' -> finishes w' F -> 0 <= i ->
  exists i', i < i' /\ covers blk i' rest j /\ finishes w F /\
    exists r', decompress_turn t R (zlen blk) (Block (soFar pre blk i) i r) = Ok (Block (soFar pre blk i') i' r') /\ sync F base w' r'.
Proof using HR Hbase Hsame HlenR T Hcodes HK Hblk Hbytes.
  intros Hc [C M] A Ew Fi Hi. inversion Hc as [|? b ? ? Eb Hc'|? len dist ? ? Hl Hne Rf Hc']; subst.
  - exists (i + 1). split; [lia|]. split; [done|]. apply (literal_in_step w r w' i b); try done. by eapply (Forall_lookup_1 _ _ _ _ Hbytes).
  - unfold minMatch in Hl. exists (i + len). split; [lia|]. split; [done|]. unfold itemSymbol in C. cbn in C. rewrite (proj2 (Z.eqb_neq len 0)) in C by lia.
    by apply (match_in_step w r w' i len dist).
Qed.
Lemma items_in_step items : forall i w r w' fuel, covers blk i items (zlen blk) -> Forall sound items -> anywhere w r -> writeItems ls codes items w = Ok w' -> finishes w' F ->
  0 <= i < zlen blk -> zlen blk - i < Z.of_nat fuel ->
  finishes w F /\ exists r', decompress_loop fuel t R (zlen blk) (Block (soFar pre blk i) i r) = Ok (Block (soFar pre blk (zlen blk)) (zlen blk) r') /\ sync F base w' r'.
Proof using HR Hbase Hsame HlenR T Hcodes HK Hblk Hbytes.
  induction items as [|it rest IH]; intros i w r w' fuel Hc Hs A Ew Fi Hi Hf; [inversion Hc; lia|]. apply Forall_cons in Hs as [Hit Hs]. cbn [writeItems] in Ew. apply bind_Ok in Ew as (w1 & E1 & Ew).
  assert (wf w) as W by (destruct A as [A|A]; apply A). destruct (writeItem_ok it w Hit W) as (w1' & E1' & W1 & _). rewrite E1' in E1. injection E1 as ->.
  destruct (writeItems_ok rest w1 Hs W1) as (w2' & E2' & _ & K2). rewrite E2' in Ew. injection Ew as ->. pose proof (K2 F Fi) as F1.
  destruct (item_in_step i it rest (zlen blk) w r w1 Hc Hit A E1' F1) as (i' & Hi' & Hc' & Fw & r1 & Et & S1); [lia|]. split; [done|].
  destruct fuel as [|fuel]; [lia|]. cbn [decompress_loop b_produced]. rewrite (proj2 (Z.ltb_lt i (zlen blk))) by lia. rewrite Et. run_bind.
  destruct (covers_le i' rest (zlen blk) Hc') as [Hle Hlt]. destruct rest as [|it' rest].
  - inversion Hc'; subst. injection E2' as ->. exists r1. split; [|done]. destruct fuel as [|fuel]; [lia|]. cbn [decompress_loop b_produced]. by rewrite Z.ltb_irrefl.
  - destruct (IH i' w1 r1 w' fuel) as (_ & r' & Er & S'); try done; [by right|split; [lia|by apply Hlt]|lia|]. by exists r'.
Qed.
End stepping.
End coding.

(** ** A block *)
Lemma pack_unpack ls : lengthsOk ls -> Nat.Even (length ls) -> unpackLengths (packLengths ls) = ls /\ bytes (packLengths ls) /\ 2 * zlen (packLengths ls) = zlen ls.
Proof.
  intros Hls [n Hn]. revert ls Hls Hn. induction n as [|n IH]; intros [|a [|b ls]] Hls Hn; simpl in Hn; try lia; [split; [done|split; [constructor|done]]|]. apply Forall_cons in Hls as [Ha Hls]. apply Forall_cons in Hls as [Hb Hls]. unfold maxCodeLen in *.
  destruct (IH ls Hls) as (I1 & I2 & I3); [lia|]. cbn [packLengths].
  assert (a .| u8 (b << 4) = a + b * 2 ^ 4) as ->.
  { unfold u8. rewrite Z.mod_small by (rewrite Z.shiftl_mul_pow2 by lia; lia). apply lor_shiftl_add; lia. }
  split; [|split; [constructor; [unfold is_u8; lia|done]|rewrite !zlen_cons; lia]].
  assert (forall c l, unpackLengths (c :: l) = c .& 15 :: c >> 4 :: unpackLengths l) as -> by reflexivity. rewrite I1. change 15 with (Z.ones 4). rewrite land_ones_mod, Z.shiftr_div_pow2 by lia. rewrite Z.mod_add, Z.div_add by lia. by rewrite Z.mod_small, Z.div_small by lia.
Qed.
Lemma covers_bound src i items j : covers src i items j -> bytes src -> zlen src <= blockSize ->
  Forall (fun it => 0 <= itemSymbol it /\ (ilen it <> 0 -> minMatch <= ilen it <= blockSize /\ 1 <= distance it <= maxDistance)) items.
Proof.
  intros Hc Hb Hl. induction Hc as [|i b rest j Eb _ IH|i len dist rest j Hm _ [R1 R2 R3 _] _ IH]; constructor; try done; unfold itemSymbol; cbn.
  - split; [|done]. pose proof (Forall_lookup_1 _ _ _ _ Hb Eb) as B. unfold is_u8 in B. simpl in B. lia.
  - unfold minMatch in *. rewrite (proj2 (Z.eqb_neq len 0)) by lia. pose proof (matchSymbol_range len dist ltac:(unfold minMatch; lia) R1). unfold eofSymbol in *. split; [lia|]. intros _. split; [lia|done].
Qed.
Lemma sound_items ls freq src items j : covers src 0 items j -> bytes src -> zlen src <= blockSize -> counted (2 ^ 17) items freq -> usable freq ls -> Forall (sound ls) items.
Proof.
  intros Hc Hb Hl [C1 C2 C3] (U1 & U2 & U3 & U4). pose proof (covers_bound _ _ _ _ Hc Hb Hl) as B. rewrite Forall_forall in *. intros it Hit. destruct (B it Hit) as [B1 B2]. split; [|done].
  split; [done|]. destruct (C3 it Hit) as (f & Ef & Hf). by destruct (U4 _ _ Ef Hf) as (l & El & Hl'); exists l.
Qed.

(** The final buffer is what the writer began with and the block behind it. *)
Lemma finishes_split head F : finishes (newWriter head) F -> exists body, F = head ++ body /\ 4 <= zlen body.
Proof.
  intros Fi. pose proof (f_len _ _ Fi) as HL. cbn in HL. rewrite zlen_app in HL. change (zlen [0; 0; 0; 0]) with 4 in HL. exists (drop (length head) F). split.
  - rewrite <- (take_drop (length head) F) at 1. f_equal. apply list_eq. intros p. destruct (decide (p < length head)%nat) as [Hp|Hp].
    + rewrite lookup_take_lt by done. rewrite (f_kept _ _ Fi); cbn; [by rewrite lookup_app_l|rewrite length_app; lia|unfold open_; cbn; unfold zlen; lia].
    + rewrite lookup_take_ge by lia. by rewrite lookup_ge_None_2 by lia.
  - unfold zlen in *. rewrite length_drop. lia.
Qed.
Lemma soFar_ends pre blk : soFar pre blk 0 = pre /\ soFar pre blk (zlen blk) = pre ++ blk.
Proof.
  unfold soFar. rewrite Z.add_0_r, <- zlen_app, sub_full. split; [|done]. unfold sub, zlen. rewrite Z.sub_0_r, Nat2Z.id. simpl. by rewrite drop_0, take_app_length.
Qed.
(** What [compressBlock] writes, and the whole of what the decoder needs of it. *)
Record blockOf (ls codes : list Z) (blk : list Z) (last : bool) (head F : list Z) : Prop := BlockOf {
  bo_len : zlen ls = symbolCount; bo_ok : lengthsOk ls; bo_kraft : kraft ls <= 2 ^ maxCodeLen;
  bo_codes : forall s l, ls !! s = Some l -> 0 < l -> codes !! s = Some (codeOf ls s l);
  bo_written : exists items w1 w2, covers blk 0 items (zlen blk) /\ Forall (sound ls) items /\ writeItems ls codes items (newWriter head) = Ok w1 /\
    (if last then coded ls eofSymbol /\ writeSymbol ls codes eofSymbol w1 = Ok w2 else w2 = w1) /\ wf w1 /\ finishes w2 F /\ zlen F = zlen (w_buf w2);
  bo_start : finishes (newWriter head) F;
}.
Lemma compressBlock_writes dst blk last : bytes dst -> bytes blk -> zlen blk <= blockSize ->
  exists ls codes F, compressBlock dst blk last = Ok F /\ bytes F /\ bytes (dst ++ packLengths ls) /\ zlen (packLengths ls) = tableSize /\ unpackLengths (packLengths ls) = ls /\
    blockOf ls codes blk last (dst ++ packLengths ls) F.
Proof.
  intros Hd Hb Hl. unfold compressBlock. destruct (parse_spec blk Hb Hl last) as (items & freq & -> & Hc & Hf & He). rewrite bind_ret. cbv beta iota.
  destruct (@codeLengths_spec huffErr 17 freq) as (ls & El & U); [lia|apply Hf|exact (ct_bound _ _ _ Hf)|]. unfold flattenings. rewrite El. run_bind. pose proof U as (U1 & U2 & U3 & U4).
  destruct (@canonicalCodes_spec huffErr ls U2 ltac:(lia) U3) as (codes & -> & _ & Hcodes). run_bind.
  destruct (pack_unpack ls U2) as (P1 & P2 & P3); [exists 256%nat; unfold zlen, symbolCount in U1; lia|]. rewrite U1 in P3.
  assert (bytes (dst ++ packLengths ls)) as Hh by (by apply Forall_app_2). pose proof (newWriter_wf _ Hh) as W0. pose proof (sound_items ls freq blk items _ Hc Hb Hl Hf U) as Hs.
  destruct (writeItems_ok ls codes U3 Hcodes items _ Hs W0) as (w1 & E1 & W1 & K1). rewrite E1. run_bind.
  assert (exists w2, (if last then writeSymbol ls codes eofSymbol w1 else mret w1) = Ok w2 /\ wf w2 /\ (forall F, finishes w2 F -> finishes w1 F) /\
    (if last then coded ls eofSymbol /\ writeSymbol ls codes eofSymbol w1 = Ok w2 else w2 = w1)) as (w2 & -> & W2 & K2 & HE).
  { destruct last; [|by exists w1; eauto]. destruct (He eq_refl) as (f & Ef & Hf0). assert (coded ls eofSymbol) as C by (split; [unfold eofSymbol; lia|]; destruct (U4 _ _ Ef Hf0) as (l & El' & Hl'); eauto).
    destruct (writeSymbol_ok ls codes U3 Hcodes eofSymbol w1 C W1) as (w2 & E2 & W2 & K2). exists w2. eauto 10. }
  run_bind. destruct (@flush_finishes huffErr w2 W2) as (F & -> & Fi & HF). exists ls, codes, F. split; [done|]. split; [apply Fi|]. split; [done|]. split; [change tableSize with 256; change symbolCount with 512 in P3; lia|]. split; [done|].
  split; try done; [|by apply K1, K2]. exists items, w1, w2. done.
Qed.
Lemma block_decodes ls codes blk last head body pre rest t : bytes head -> bytes blk -> 0 < zlen blk <= blockSize -> bytes (body ++ rest) ->
  blockOf ls codes blk last head (head ++ body) -> reads (E := huffErr) ls t ->
  decompressBlock t (body ++ rest) pre (zlen blk) last = Ok (pre ++ blk, zlen body).
Proof.
  intros Hh Hb Hl HR [B1 B2 B3 B4 (items & w1 & w2 & Hc & Hs & E1 & HE & W1 & F2 & HF) B6] T. set (F := head ++ body) in *. set (R := body ++ rest) in *. set (base := zlen head).
  assert (forall p : nat, base <= Z.of_nat p < zlen F -> R !! Z.to_nat (Z.of_nat p - base) = F !! p) as Hsame.
  { intros p Hp. unfold base, F, R, zlen in *. rewrite length_app in Hp. rewrite (lookup_app_r head) by lia. rewrite lookup_app_l by lia. f_equal. lia. }
  assert (zlen F - base <= zlen R) as HlenR by (unfold F, R, base; rewrite !zlen_app; pose proof (zlen_nonneg rest); lia). pose proof (zlen_nonneg head) as Hbase. fold base in Hbase.
  pose proof (starts_newReader F R base Hbase Hsame HlenR head Hh eq_refl B6) as St. destruct (soFar_ends pre blk) as [S0 Sn].
  assert (finishes w1 F /\ exists w3, writeItems ls codes items (newWriter head) = Ok w3 /\ w3 = w1) as [F1 _].
  { split; [|eauto]. destruct last; [|by subst]. destruct HE as [C E2]. destruct (writeSymbol_ok ls codes B3 B4 eofSymbol w1 C W1) as (w2' & E2' & _ & K). rewrite E2' in E2. injection E2 as ->. by apply K. }
  destruct (items_in_step ls codes B3 B4 F R base HR Hbase Hsame HlenR t T pre blk (proj2 Hl) Hb items 0 (newWriter head) (newReader R) w1 (S (Z.to_nat (zlen blk))))
    as (_ & r1 & Ed & S1); try done; [by left|lia|lia|].
  unfold decompressBlock. rewrite S0 in Ed. rewrite Ed, Sn. run_bind. cbn [b_reader b_dst].
  assert (exists r2, (if last then o ← @symbol huffErr R t r1; match o with Some (sym, r) => if sym =? eofSymbol then mret r else Err ErrInvalidFormat | None => Err ErrInvalidFormat end else mret r1) = Ok r2 /\ sync F base w2 r2) as (r2 & -> & S2).
  { destruct last; [|subst; eauto]. destruct HE as [C E2].
    destruct (symbol_in_step ls codes B3 B4 F R base HR Hbase Hsame HlenR t T eofSymbol w1 r1 w2 C (or_intror S1) E2 F2) as (_ & r2 & -> & S2). run_bind. rewrite Z.eqb_refl. eauto. }
  run_bind. rewrite (sync_used _ _ _ _ S2). rewrite <- HF. unfold F, R, base. rewrite !zlen_app. pose proof (zlen_nonneg rest). destruct (Z.gtb_spec (zlen head + zlen body - zlen head) (zlen body + zlen rest)); [lia|].
  unfold mret, outcome_ret. do 2 f_equal. lia.
Qed.

(** ** The whole stream *)
Section stream.
Context (src : list Z) (Hsrc : bytes src).
Definition enough (fuel : nat) (start : Z) : Prop := zlen src - start < blockSize * Z.of_nat fuel - blockSize /\ (0 < fuel)%nat.
Lemma enough_next fuel start : start < zlen src -> enough (S fuel) start -> enough fuel (start + blockSize).
Proof. unfold enough, blockSize. intros H [H1 _]. split; lia. Qed.
(** A block of a stream decodes, and the rest of the stream after it. *)
Lemma Decompress_block D ls body tail codes start last fuel : let stop := Z.min (start + blockSize) (zlen src) in
  0 <= start < zlen src -> bytes (D ++ packLengths ls) -> bytes (body ++ tail) -> 4 <= zlen body -> zlen (packLengths ls) = tableSize -> unpackLengths (packLengths ls) = ls ->
  last = (stop =? zlen src) -> blockOf ls codes (sub src start stop) last (D ++ packLengths ls) ((D ++ packLengths ls) ++ body) ->
  Decompress_loop (S fuel) (D ++ packLengths ls ++ body ++ tail) (zlen src) (zlen D) (sub src 0 start) =
  Decompress_loop fuel (D ++ packLengths ls ++ body ++ tail) (zlen src) (zlen (D ++ packLengths ls ++ body)) (sub src 0 stop).
Proof using Hsrc.
  intros stop Hs HhB HbB Hb4 Ht Hu -> B. cbn [Decompress_loop]. unfold blockSize in *. rewrite zlen_sub, Z.sub_0_r by lia. rewrite (proj2 (Z.ltb_lt start _)) by lia.
  assert (zlen (sub src start stop) = stop - start) as Hz by (apply zlen_sub; lia). pose proof (zlen_nonneg D). pose proof (zlen_nonneg tail).
  assert (zlen (D ++ packLengths ls ++ body ++ tail) = zlen D + tableSize + zlen body + zlen tail) as HL by (rewrite !zlen_app; lia). change tableSize with 256 in *.
  destruct (Z.geb_spec (zlen D + 256) (zlen (D ++ packLengths ls ++ body ++ tail))); [lia|]. rewrite (slice_Ok _ (zlen D) (zlen D + 256)) by lia. run_bind.
  assert (sub (D ++ packLengths ls ++ body ++ tail) (zlen D) (zlen D + 256) = packLengths ls) as ->.
  { unfold sub. rewrite drop_app_length' by (unfold zlen; lia). apply take_app_length'. unfold zlen in *. lia. }
  rewrite Hu. destruct (@newDecodeTable_spec huffErr ls (bo_ok _ _ _ _ _ _ B) ltac:(rewrite (bo_len _ _ _ _ _ _ B); done)) as (t & -> & T). run_bind. rewrite slice_Ok by lia. run_bind.
  assert (sub (D ++ packLengths ls ++ body ++ tail) (zlen D + 256) (zlen (D ++ packLengths ls ++ body ++ tail)) = body ++ tail) as ->.
  { unfold sub. rewrite (app_assoc D). rewrite drop_app_length' by (rewrite length_app; unfold zlen in *; lia). apply take_ge. rewrite !length_app in *. unfold zlen in *. rewrite !length_app in *. lia. }
  replace (Z.min (zlen src - start) (64 * 1024)) with (zlen (sub src start stop)) by lia.
  replace (zlen src - start <=? 64 * 1024) with (stop =? zlen src) by (destruct (Z.eqb_spec stop (zlen src)), (Z.leb_spec (zlen src - start) (64 * 1024)); lia).
  rewrite (block_decodes ls codes (sub src start stop) (stop =? zlen src) (D ++ packLengths ls) body (sub src 0 start) tail t HhB (bytes_sub _ _ _ Hsrc)); [|unfold blockSize; lia|done|done|done].
  run_bind. rewrite sub_app by lia. f_equal. rewrite !zlen_app. lia.
Qed.
Lemma compress_loop_spec fuel : forall start D, bytes D -> 0 <= start -> enough fuel start ->
  exists tail, compress_loop fuel src start D = Ok (D ++ tail) /\ bytes tail /\
    forall fuel', enough fuel' start -> Decompress_loop fuel' (D ++ tail) (zlen src) (zlen D) (sub src 0 (Z.min start (zlen src))) = Ok src.
Proof using Hsrc.
  induction fuel as [|fuel IH]; intros start D HD Hst Hf; [destruct Hf; lia|]. cbn [compress_loop]. destruct (Z.ltb_spec start (zlen src)) as [Hlt|Hge].
  - set (stop := Z.min (start + blockSize) (zlen src)). unfold blockSize in stop. rewrite slice_Ok by lia. run_bind.
    assert (zlen (sub src start stop) = stop - start) as Hz by (apply zlen_sub; lia).
    destruct (compressBlock_writes D (sub src start stop) (stop =? zlen src) HD (bytes_sub _ _ _ Hsrc)) as (ls & codes & F & -> & BF & Bh & Ht & Hu & B); [unfold blockSize; lia|]. run_bind.
    destruct (finishes_split _ _ (bo_start _ _ _ _ _ _ B)) as (body & -> & Hb4). unfold bytes in BF. apply Forall_app in BF as [_ Bb].
    destruct (IH (start + blockSize) ((D ++ packLengths ls) ++ body)) as (tail & -> & Btail & Hdec); [by apply Forall_app_2|unfold blockSize; lia|by apply enough_next|].
    exists (packLengths ls ++ body ++ tail). split; [by rewrite <- !app_assoc|]. unfold bytes in Bh. apply Forall_app in Bh as [Bh1 Bh2]. split; [by repeat apply Forall_app_2|].
    intros fuel' Hf'. destruct fuel' as [|fuel']; [destruct Hf'; lia|]. rewrite Z.min_l by lia.
    rewrite (Decompress_block D ls body tail codes start (stop =? zlen src) fuel'); try done; [|by apply Forall_app_2|by apply Forall_app_2].
    rewrite <- (Hdec fuel') by (by apply enough_next). by rewrite <- !app_assoc.
  - exists []. rewrite app_nil_r. split; [done|]. split; [constructor|]. intros [|fuel'] [? ?]; [lia|]. cbn [Decompress_loop]. rewrite Z.min_r, sub_full, Z.ltb_irrefl by lia. done.
Qed.
End stream.

(** ** Any bytes at all *)
Section total.
Context (ls src : list Z) (Hls : lengthsOk ls) (Hlen : zlen ls <= symbolCount) (Hsrc : bytes src) (t : decodeTable) (T : reads (E := huffErr) ls t).
Definition readerOk (r : reader) : Prop := (exists X, rep r X) /\ 0 <= r_consumed r /\ 0 <= r_extra r.
Lemma newReader_ok : readerOk (newReader src).
Proof using Hsrc.
  assert (newReader src = Reader 2 (Z.lor 0 (u32 (wordAt src 0 << 16))) 16 0 0) as -> by reflexivity. pose proof (wordAt_bound src Hsrc 0 ltac:(lia)).
  split; [|done]. exists (wordAt src 0). split; cbn [r_pos r_bits r_count]; [lia|lia|lia|]. unfold reg, u32. rewrite Z.lor_0_l, Z.shiftl_mul_pow2 by lia. rewrite Z.mod_small by lia. done.
Qed.
Lemma skip_ok n r : readerOk r -> 0 <= n <= 16 -> readerOk (skip src n r).
Proof using Hsrc.
  intros ([X Rp] & H1 & H2) Hn. destruct (skip_rep src Hsrc r X n Rp Hn) as [-> Rp']. split; [eauto|]. unfold skipped. destruct (_ <=? _); cbn; lia.
Qed.
Lemma symbol_ok r : readerOk r -> exists o, @symbol huffErr src t r = Ok o /\ forall s r', o = Some (s, r') -> 0 <= s < symbolCount /\ readerOk r'.
Proof using Hsrc T.
  intros Rk. pose proof Rk as ([X Rp] & _). destruct (symbol_total ls src t r X Hsrc T Rp) as (o & Eo & Ho). exists o. split; [done|]. intros s r' E. destruct (Ho s r' E) as (B & l & Hl & ->).
  split; [done|]. apply skip_ok; [done|]. unfold maxCodeLen in Hl. lia.
Qed.
Lemma readRaw_ok n r v r' : readerOk r -> 0 <= n -> readRaw src n r = Some (v, r') -> 0 <= v /\ readerOk r'.
Proof using Hsrc.
  intros ([X [Hp Hc Hv Hb]] & H1 & H2) Hn. unfold readRaw. destruct (_ >? _); [done|]. intros [= <- <-]. split.
  - assert (bytes (sub src (r_pos r) (r_pos r + n))) as B by (by apply bytes_sub). apply le_dec_bound in B. lia.
  - split; [exists X; split; cbn; try done; lia|]. cbn. lia.
Qed.
Lemma readByte_ok r v r' : readerOk r -> readByte src r = Some (v, r') -> 0 <= v /\ readerOk r'.
Proof using Hsrc.
  intros ([X [Hp Hc Hv Hb]] & H1 & H2). unfold readByte. destruct (_ >=? _); [done|]. destruct (src !! Z.to_nat (r_pos r)) as [b|] eqn:E; [|done]. intros [= <- <-]. split.
  - pose proof (Forall_lookup_1 _ _ _ _ Hsrc E) as B. unfold is_u8 in B. simpl in B. lia.
  - split; [exists X; split; cbn; try done; lia|]. cbn. lia.
Qed.
Lemma extraLength_ok n r : readerOk r -> 0 <= n -> settled (readLength src n r) /\ forall m r', readLength src n r = Ok (m, r') -> 0 <= m /\ readerOk r'.
Proof using Hsrc.
  intros Rk Hn. unfold readLength. destruct (n =? 15); [|split; [done|]; intros m r' [= <- <-]; done].
  destruct (readByte src r) as [[b r1]|] eqn:E1; [|done]. destruct (readByte_ok r b r1 Rk E1) as [Hb R1]. cbn [orEOF]. rewrite bind_mret. cbv beta iota.
  destruct (b <? 255); [split; [done|]; intros m r' [= <- <-]; split; [lia|done]|].
  destruct (readUint16 src r1) as [[v r2]|] eqn:E2; [|done]. destruct (readRaw_ok 2 r1 v r2 R1 ltac:(lia) E2) as [Hv R2]. cbn [orEOF]. rewrite bind_mret. cbv beta iota.
  destruct (v =? 0); [|split; [done|]; intros m r' [= <- <-]; done]. destruct (readUint32 src r2) as [[u r3]|] eqn:E3; [|done]. destruct (readRaw_ok 4 r2 u r3 R2 ltac:(lia) E3) as [Hu R3].
  split; [done|]. intros m r' [= <- <-]. done.
Qed.
Lemma take_ok n r : readerOk r -> 0 <= n <= 16 -> exists v r', take_ src n r = (v, r') /\ 0 <= v /\ readerOk r'.
Proof using Hsrc.
  intros Rk Hn. unfold take_. destruct (n =? 0); [by exists 0, r|]. eexists _, _. split; [done|]. split; [|by apply skip_ok].
  destruct Rk as ([X Rp] & _). rewrite (peek_rep r X n Rp Hn). apply Z.div_pos; [apply Rp|]. destruct Rp as [_ Hc _ _]. apply Z.pow_pos_nonneg; lia.
Qed.
Definition advances (want : Z) (s s' : block) : Prop :=
  b_produced s < b_produced s' <= want /\ zlen (b_dst s') - zlen (b_dst s) = b_produced s' - b_produced s /\ readerOk (b_reader s').
Lemma decompress_turn_ok want s : readerOk (b_reader s) -> b_produced s < want ->
  settled (decompress_turn t src want s) /\ forall s', decompress_turn t src want s = Ok s' -> advances want s s'.
Proof using Hsrc T.
  intros Rk Hp. unfold decompress_turn. destruct (symbol_ok (b_reader s) Rk) as (o & -> & Ho). run_bind. destruct o as [[sym r]|]; [|done]. destruct (Ho sym r eq_refl) as [Hs R1].
  destruct (Z.eqb_spec sym eofSymbol) as [|_]; [done|]. destruct (Z.ltb_spec sym eofSymbol).
  { split; [done|]. intros s' [= <-]. unfold advances. cbn. rewrite zlen_app. change (zlen [u8 sym]) with 1. split; [lia|]. split; [lia|done]. }
  assert (0 <= (sym - eofSymbol) .& 15) as Hn by (apply Z.land_nonneg; right; lia). unfold eofSymbol, symbolCount in *.
  assert (0 <= (sym - 256) >> 4 <= 15) as Hh by (rewrite Z.shiftr_div_pow2 by lia; change (2 ^ 4) with 16; pose proof (Z.div_lt_upper_bound (sym - 256) 16 16); pose proof (Z.div_pos (sym - 256) 16); lia).
  destruct (extraLength_ok ((sym - 256) .& 15) r R1 Hn) as [Hset Hok]. destruct (readLength src _ r) as [[n r2]| | |]; try done. destruct (Hok n r2 eq_refl) as [Hn2 R2]. rewrite bind_ret. cbv beta iota.
  destruct (take_ok ((sym - 256) >> 4) r2 R2) as (d & r3 & -> & Hd & R3); [lia|]. destruct (Z.gtb_spec ((1 << ((sym - 256) >> 4)) + d) (zlen (b_dst s))); [done|].
  destruct (Z.gtb_spec (b_produced s + (n + minMatch)) want); [done|]. unfold minMatch in *.
  assert (1 <= 1 << ((sym - 256) >> 4)) as Hone by (rewrite Z.shiftl_mul_pow2 by lia; pose proof (Z.pow_pos_nonneg 2 ((sym - 256) >> 4)); lia).
  destruct (@copyMatch_total huffErr (Z.to_nat (n + 3)) (zlen (b_dst s) - ((1 << ((sym - 256) >> 4)) + d)) (b_dst s)) as (dst & -> & HL); [lia|]. run_bind. split; [done|]. intros s' [= <-]. unfold advances. cbn. split; [lia|]. split; [lia|done].
Qed.
Lemma decompress_loop_ok fuel want s : readerOk (b_reader s) -> b_produced s <= want -> want - b_produced s < Z.of_nat fuel ->
  settled (decompress_loop fuel t src want s) /\ forall s', decompress_loop fuel t src want s = Ok s' ->
    b_produced s' = want /\ zlen (b_dst s') - zlen (b_dst s) = want - b_produced s /\ readerOk (b_reader s').
Proof using Hsrc T.
  revert s. induction fuel as [|fuel IH]; intros s Rk Hp Hf; [lia|]. cbn [decompress_loop]. destruct (Z.ltb_spec (b_produced s) want).
  - destruct (decompress_turn_ok want s Rk) as [Hset Hadv]; [done|]. destruct (decompress_turn t src want s) as [s1| | |]; try done. run_bind. destruct (Hadv s1 eq_refl) as (A1 & A2 & A3).
    destruct (IH s1 A3) as [I1 I2]; [lia|lia|]. split; [done|]. intros s' Es. destruct (I2 s' Es) as (J1 & J2 & J3). split; [done|]. split; [lia|done].
  - split; [done|]. intros s' [= <-]. split; [lia|]. split; [lia|done].
Qed.
Lemma decompressBlock_ok dst want last : 0 <= want -> settled (decompressBlock t src dst want last) /\
  forall dst' used, decompressBlock t src dst want last = Ok (dst', used) -> zlen dst' = zlen dst + want /\ 0 <= used.
Proof using Hsrc T.
  intros Hw. unfold decompressBlock. destruct (decompress_loop_ok (S (Z.to_nat want)) want (Block dst 0 (newReader src)) newReader_ok) as [Hset Hok]; [done|cbn; lia|].
  destruct (decompress_loop _ _ _ _ _) as [s| | |]; try done. run_bind. destruct (Hok s eq_refl) as (_ & HL & Rk). cbn in HL.
  assert (forall r, readerOk r -> let m := if 2 * ((r_consumed r + 15) / 16 + 1) + r_extra r >? zlen src then Err ErrUnexpectedEOF else mret (b_dst s, 2 * ((r_consumed r + 15) / 16 + 1) + r_extra r) in
    settled m /\ forall dst' used, m = Ok (dst', used) -> zlen dst' = zlen dst + want /\ 0 <= used) as Fin.
  { intros r (_ & H1 & H2). cbv zeta. destruct (_ >? _); [done|]. split; [done|]. intros dst' used [= <- <-]. pose proof (Z.div_pos (r_consumed r + 15) 16). split; lia. }
  destruct last; [|rewrite bind_mret; by apply Fin]. destruct (symbol_ok (b_reader s) Rk) as (o & -> & Ho). run_bind. destruct o as [[sym r]|]; [|done]. destruct (sym =? eofSymbol); [|done].
  rewrite bind_mret. apply Fin. by apply (Ho sym r).
Qed.
End total.
Lemma unpackLengths_ok tbl : bytes tbl -> lengthsOk (unpackLengths tbl) /\ zlen (unpackLengths tbl) = 2 * zlen tbl.
Proof.
  induction 1 as [|b tbl Hb _ [IH1 IH2]]; [split; [constructor|done]|]. assert (unpackLengths (b :: tbl) = b .& 15 :: b >> 4 :: unpackLengths tbl) as -> by reflexivity. unfold is_u8, maxCodeLen in *.
  rewrite !zlen_cons. split; [|lia]. change 15 with (Z.ones 4) at 1. rewrite land_ones_mod, Z.shiftr_div_pow2 by lia. pose proof (Z.mod_pos_bound b (2 ^ 4)). pose proof (Z.div_lt_upper_bound b (2 ^ 4) 16). pose proof (Z.div_pos b (2 ^ 4)).
  constructor; [unfold maxCodeLen; lia|]. constructor; [unfold maxCodeLen; lia|done].
Qed.
Lemma Decompress_loop_ok fuel src limit : bytes src -> forall pos dst, 0 <= pos -> zlen dst <= limit -> limit - zlen dst <= blockSize * Z.of_nat fuel - blockSize -> (0 < fuel)%nat ->
  settled (Decompress_loop fuel src limit pos dst) /\ forall dst', Decompress_loop fuel src limit pos dst = Ok dst' -> zlen dst' = limit.
Proof.
  intros Hb. induction fuel as [|fuel IH]; intros pos dst Hp Hd Hf H0; [lia|]. cbn [Decompress_loop]. destruct (Z.ltb_spec (zlen dst) limit); [|split; [done|]; intros dst' [= <-]; lia].
  destruct (Z.geb_spec (pos + tableSize) (zlen src)); [done|]. change tableSize with 256 in *. rewrite (slice_Ok src pos) by lia. run_bind.
  pose proof (fun i j => bytes_sub src i j Hb) as Hsub. destruct (unpackLengths_ok (sub src pos (pos + 256)) (Hsub _ _)) as [U1 U2]. rewrite zlen_sub in U2 by lia.
  destruct (@newDecodeTable_spec huffErr (unpackLengths (sub src pos (pos + 256))) U1) as (t & -> & T); [unfold symbolCount; lia|]. run_bind. rewrite slice_Ok by lia. run_bind. unfold blockSize in *.
  destruct (decompressBlock_ok _ (sub src (pos + 256) (zlen src)) (Hsub _ _) t T dst (Z.min (limit - zlen dst) (64 * 1024)) (limit - zlen dst <=? 64 * 1024)) as [Hset Hok]; [lia|].
  destruct (decompressBlock _ _ _ _ _) as [[dst1 used]| | |]; try done. run_bind. destruct (Hok dst1 used eq_refl) as [HL Hu]. apply IH; lia.
Qed.

Lemma Decompress_exact (src : list Z) (limit : Z) : bytes src ->
  settled (Decompress src limit) /\ forall dst, Decompress src limit = Ok dst -> zlen src <> 0 -> zlen dst = limit.
Proof.
  intros Hb. unfold Decompress. destruct (Z.eqb_spec (zlen src) 0); [done|]. destruct (Z.ltb_spec limit 0); [done|].
  destruct (Decompress_loop_ok (blocks limit) src limit Hb 0 []) as [H1 H2]; [done|unfold zlen; simpl; lia| | |by split; auto].
  - change (zlen (@nil Z)) with 0. unfold blocks, blockSize. pose proof (Z.div_mod limit (64 * 1024)). pose proof (Z.mod_pos_bound limit (64 * 1024)). pose proof (Z.div_pos limit (64 * 1024)). lia.
  - unfold blocks, blockSize. pose proof (Z.div_pos limit (64 * 1024)). lia.
Qed.
Lemma Decompress_settled (src : list Z) (limit : Z) : bytes src ->
  settled (Decompress src limit) /\ (0 <= limit -> forall dst, Decompress src limit = Ok dst -> zlen dst <= limit).
Proof.
  intros Hb. destruct (Decompress_exact src limit Hb) as [H1 H2]. split; [done|]. intros Hl dst E.
  destruct (Z.eqb_spec (zlen src) 0) as [H0|H0]; [|rewrite (H2 dst E H0); lia].
  unfold Decompress in E. rewrite H0 in E. injection E as <-. exact Hl.
Qed.

(** On any bytes and any size the LZ77+Huffman decoder returns: it neither panics nor loops,
    whatever the code lengths and the bits say, and what it returns has exactly the size it
    was told to expect. *)
Theorem huffman_decoder_total (src : list Z) (limit : Z) : bytes src ->
  settled (Decompress src limit) /\ forall dst, Decompress src limit = Ok dst -> zlen src <> 0 -> zlen dst = limit.
Proof. apply Decompress_exact. Qed.
Lemma huffman_decoder_total_witness : bytes (replicate 300 17) /\ settled (Decompress (replicate 300 17) 9).
Proof.
  assert (bytes (replicate 300 17)) as Hb by (apply (bool_decide_unpack _); vm_compute; exact I).
  split; [exact Hb|]. exact (proj1 (huffman_decoder_total (replicate 300 17) 9 Hb)).
Defined.

Lemma huff_Decompress_Compress (src : list Z) : bytes src -> exists c, Compress src = Ok c /\ Decompress c (zlen src) = Ok src.
Proof.
  intros Hb. unfold Compress. destruct (Z.eqb_spec (zlen src) 0) as [H0|H0]; [destruct src; [by exists []|rewrite zlen_cons in H0; pose proof (zlen_nonneg src); lia]|].
  pose proof (zlen_nonneg src). assert (enough src (blocks (zlen src)) 0) as Hf.
  { unfold enough, blocks, blockSize. pose proof (Z.div_mod (zlen src) (64 * 1024)). pose proof (Z.mod_pos_bound (zlen src) (64 * 1024)). pose proof (Z.div_pos (zlen src) (64 * 1024)). split; lia. }
  destruct (compress_loop_spec src Hb (blocks (zlen src)) 0 []) as (c & Ec & Bc & Hd); [constructor|lia|done|]. exists c. split; [done|]. specialize (Hd _ Hf). rewrite Z.min_l in Hd by lia.
  unfold Decompress. destruct (Z.eqb_spec (zlen c) 0) as [Hc|Hc].
  - exfalso. destruct c; [|rewrite zlen_cons in Hc; pose proof (zlen_nonneg c); lia]. assert (blocks (zlen src) <> O) by (destruct Hf; lia). destruct (blocks (zlen src)); [done|]. cbn [Decompress_loop app] in Hd.
    change (sub src 0 0) with (@nil Z) in Hd. change (zlen (@nil Z)) with 0 in Hd. rewrite (proj2 (Z.ltb_lt 0 (zlen src))) in Hd by lia. discriminate Hd.
  - destruct (Z.ltb_spec (zlen src) 0); [lia|]. exact Hd.
Qed.

(** C37: The LZ77+Huffman decoder reads back what its encoder wrote: for every input the encoder
    returns, without an access out of range and with code lengths of at most fifteen bits,
    and decompressing the result to the size of the input gives the input, over any number
    of blocks. *)
Theorem huffman_roundtrip (src : list Z) : bytes src -> exists c, Compress src = Ok c /\ Decompress c (zlen src) = Ok src.
Proof. apply huff_Decompress_Compress. Qed.
Lemma huffman_roundtrip_witness :
  bytes [97; 97; 97; 97; 98] /\ exists c, Compress [97; 97; 97; 97; 98] = Ok c /\ Decompress c 5 = Ok [97; 97; 97; 97; 98].
Proof.
  assert (bytes [97; 97; 97; 97; 98]) as Hb by (apply (bool_decide_unpack _); vm_compute; exact I).
  split; [exact Hb|]. exact (huffman_roundtrip [97; 97; 97; 97; 98] Hb).
Defined.
End Huffman.
