(* ===== verification/CompressFrame.v ===== *)
(** [compress.go], [compress/compress.go] and [compress/patternv1.go]: compressed
    messages on the wire.

    The algorithms sit behind one interface, [Codec]: what a client of the package
    [compress] relies on.  The plain LZ77, LZNT1 and LZ77+Huffman codecs are
    instances of it, by the theorems of their own files; the LZ4 library comes in as
    an argument with its laws.  The log line of a failed compression is left
    out; the outcome is that the message goes out as it is. *)
From S2P Require Import Prelude Bytes Smb2Const Header Lz77 Lznt1 Huffman.
Import Header.

Module CompressFrame.

(** ** The interface *)
Class Codec := {
  cCompress : list Z -> out (list Z);
  cDecompress : list Z -> Z -> out (list Z);
}.

(** What a codec promises: what it compresses it gives back, under the size it had;
    and on any bytes it returns, with no more than it was allowed. *)
Class CodecOk (C : Codec) : Prop := {
  codec_roundtrip src : bytes src -> exists c, cCompress src = Ok c /\ cDecompress c (zlen src) = Ok src;
  codec_settled src limit : bytes src -> settled (cDecompress src limit);
  codec_bounded src limit dst : bytes src -> 0 < limit -> cDecompress src limit = Ok dst -> zlen dst <= limit;
}.

(** An error of a codec, as the frame sees it. *)
Definition codecErr {E A} (m : outcome E A) : out A :=
  match m with Ok a => Ok a | Err _ => Err ErrDecompression | Panic => Panic | Stuck => Stuck end.

#[export] Instance lz77_codec : Codec := {|
  cCompress src := codecErr (Lz77.Compress src);
  cDecompress src limit := codecErr (Lz77.Decompress src limit);
|}.
#[export] Instance lznt1_codec : Codec := {|
  cCompress src := codecErr (Lznt1.Compress src);
  cDecompress src limit := codecErr (Lznt1.Decompress src limit);
|}.
#[export] Instance huffman_codec : Codec := {|
  cCompress src := codecErr (Huffman.Compress src);
  cDecompress src limit := codecErr (Huffman.Decompress src limit);
|}.

(** The block functions of the LZ4 library: compressing into a buffer of the bound,
    decompressing into one of the given size; [None] is an error. *)
Record lz4Lib := Lz4Lib {
  CompressBlock : list Z -> option (list Z);
  UncompressBlock : list Z -> Z -> option (list Z);
}.
Record lz4_ok (L : lz4Lib) : Prop := Lz4Ok {
  lz4_roundtrip src : src <> [] -> exists c, CompressBlock L src = Some c /\ c <> [] /\ UncompressBlock L c (zlen src) = Some src;
  lz4_bounded src n dst : UncompressBlock L src n = Some dst -> zlen dst <= n;
}.

Section frame.
Context (lz4 : lz4Lib).

(** ** [Compressor] *)
Definition Compress (algo : Z) (src : list Z) : out (list Z) :=
  if algo =? COMPRESSION_LZ77 then cCompress (Codec := lz77_codec) src
  else if algo =? COMPRESSION_LZ77_HUFFMAN then cCompress (Codec := huffman_codec) src
  else if algo =? COMPRESSION_LZ4 then
    if zlen src =? 0 then mret []
    else match CompressBlock lz4 src with Some dst => mret dst | None => Err ErrDecompression end
  else if algo =? COMPRESSION_LZNT1 then cCompress (Codec := lznt1_codec) src
  else mret [].

Definition Decompress (algo : Z) (src : list Z) (limit : Z) : out (list Z) :=
  if algo =? COMPRESSION_LZ77 then cDecompress (Codec := lz77_codec) src limit
  else if algo =? COMPRESSION_LZ77_HUFFMAN then cDecompress (Codec := huffman_codec) src limit
  else if algo =? COMPRESSION_LZ4 then
    if zlen src =? 0 then mret []
    else if limit <=? 0 then Err ErrDecompression
    else match UncompressBlock lz4 src limit with Some dst => mret dst | None => Err ErrDecompression end
  else if algo =? COMPRESSION_LZNT1 then cDecompress (Codec := lznt1_codec) src limit
  else mret [].

Definition New (algo : Z) : Codec := {| cCompress := Compress algo; cDecompress := Decompress algo |}.

(** ** The connection, as far as compression goes *)
Record conn := Conn {
  compressionSupported : bool; compressionIDs : list Z; supportsChainedCompression : bool;
  maxReadSize : Z; maxWriteSize : Z; maxTransactSize : Z;
}.

Definition minCompressedSegment : Z := 64 * 1024.

Definition contains (ids : list Z) (algo : Z) : bool := existsb (Z.eqb algo) ids.

(** ** Receiving *)

(** A run of equal bytes out of a pattern payload, no longer than the segment. *)
Definition patternRun (ocss : Z) (b : list Z) : out (list Z) :=
  v1 ← UnmarshalPattern b;
  if Repetitions v1 >? ocss then Err ErrInvalidParameter
  else mret (replicate (Z.to_nat (Repetitions v1)) (Pattern v1)).

(** The bytes one payload of a chained message stands for. *)
Definition payload (algo ocss length : Z) (msg ph : list Z) (offset : Z) : out (list Z) :=
  if algo =? COMPRESSION_NONE then
    if (length >? zlen msg - (offset + SMB2CompressionPayloadHeaderSize)) || (length >? ocss) then Err ErrInvalidParameter
    else slice msg (offset + SMB2CompressionPayloadHeaderSize) (offset + SMB2CompressionPayloadHeaderSize + length)
  else if algo =? COMPRESSION_PATTERN_V1 then
    b ← slice ph SMB2CompressionPayloadHeaderSize (SMB2CompressionPayloadHeaderSize + length);
    patternRun ocss b
  else if length <? 4 then Err ErrInvalidParameter
  else
    ops ← get_le ph SMB2CompressionPayloadHeaderSize 4;
    b ← slice ph (SMB2CompressionPayloadHeaderSize + 4) (u32 (SMB2CompressionPayloadHeaderSize + length));
    chunk ← cDecompress (Codec := New algo) b ocss;
    if negb (u32 (zlen chunk) =? ops) then Err ErrWrongLength else mret chunk.

(** The walk over the payloads; the fuel is the length of the message. *)
Fixpoint chained_loop (fuel : nat) (c : conn) (ocss : Z) (msg : list Z) (offset : Z) (output : list Z) : out (list Z) :=
  match fuel with
  | O => Stuck
  | S fuel =>
      if offset =? zlen msg then mret output
      else if offset + SMB2CompressionPayloadHeaderSize >? zlen msg then Err ErrWrongFormat
      else
        ph ← slice msg offset (zlen msg);
        algo ← PayloadAlgorithm ph;
        if negb (algo =? COMPRESSION_NONE) && negb (contains (compressionIDs c) algo) then Err ErrInvalidParameter
        else
          length ← PayloadLength ph;
          if offset + SMB2CompressionPayloadHeaderSize + length >? zlen msg then Err ErrInvalidParameter
          else
            chunk ← payload algo ocss length msg ph offset;
            let output := output ++ chunk in
            if zlen output >? ocss then Err ErrInvalidParameter
            else chained_loop fuel c ocss msg (offset + SMB2CompressionPayloadHeaderSize + length) output
  end.

(** The unchained message: the output and how much of it was not compressed. *)
Definition unchained (c : conn) (ocss : Z) (msg : list Z) : out (list Z * Z) :=
  start ← Offset msg;
  if SMB2CompressionTransformHeaderSize + start >? zlen msg then Err ErrInvalidParameter
  else
    head ← (if 0 <? start then slice msg SMB2CompressionTransformHeaderSize (SMB2CompressionTransformHeaderSize + start)
            else mret []);
    algo ← CompressionAlgorithm msg;
    if negb (contains (compressionIDs c) algo) then Err ErrInvalidParameter
    else
      seg ← slice msg (SMB2CompressionTransformHeaderSize + start) (zlen msg);
      buf ← (if algo =? COMPRESSION_PATTERN_V1 then patternRun ocss seg
             else cDecompress (Codec := New algo) seg ocss);
      mret (head ++ buf, start).

(** What the connection allows a segment to come to. *)
Definition segmentBound (c : conn) : Z :=
  256 + SMB2CompressionTransformHeaderSize + Z.max (Z.max (maxReadSize c) (maxWriteSize c)) (maxTransactSize c).

Definition decompress (c : conn) (msg : list Z) : out (list Z) :=
  if negb (compressionSupported c) || (zlen (compressionIDs c) =? 0) then Err ErrCompressedMessage
  else if zlen msg <? SMB2CompressionTransformHeaderSize then Err ErrWrongLength
  else
    ocss ← OriginalCompressedSegmentSize msg;
    if (ocss =? 0) || (ocss >? segmentBound c) then Err ErrInvalidParameter
    else
      flags ← CompressionFlags msg;
      if negb (flags &^ COMPRESSION_CAPABILITIES_FLAG_CHAINED =? 0) then Err ErrInvalidParameter
      else
        let chained := flags =? COMPRESSION_CAPABILITIES_FLAG_CHAINED in
        if chained && negb (supportsChainedCompression c) then Err ErrInvalidParameter
        else
          r ← (if chained then
                 o ← chained_loop (S (length msg)) c ocss msg SMB2CompressionPayloadHeaderOffset [];
                 mret (o, 0)
               else unchained c ocss msg);
          let '(output, start) := r in
          if negb (u32 (zlen output - start) =? ocss) then Err ErrWrongLength
          else if zlen output <? SMB2HeaderSize then Err ErrWrongLength
          else
            id ← ProtocolID output;
            if negb (id =? PROTOCOL_SMB2) then Err ErrWrongProtocol else mret output.

(** ** Sending *)
Definition compressOffset (msg : list Z) : out Z :=
  if zlen msg <? SMB2HeaderSize + SMB2ReadResponseMinSize then mret 0
  else
    cmd ← Command msg; status ← Status msg; next ← NextCommand msg;
    if negb (cmd =? SMB2_READ) || negb (status =? STATUS_OK) || negb (next =? 0) then mret 0
    else
      off ← index msg (SMB2HeaderSize + 2);
      if (off <? SMB2HeaderSize + SMB2ReadResponseMinSize) || (off >=? zlen msg) then mret 0 else mret off.

Definition sendCompressionPreference : list Z := [COMPRESSION_LZ77_HUFFMAN; COMPRESSION_LZNT1; COMPRESSION_LZ4].
Definition pickCompression (offered : list Z) : Z :=
  match filter (fun want => contains offered want = true) sendCompressionPreference with
  | want :: _ => want
  | [] => COMPRESSION_NONE
  end.

Definition transformHeader (algo size offset : Z) : out (list Z) :=
  h ← SetProtocolID PROTOCOL_SMB2_COMPRESSED (replicate (Z.to_nat SMB2CompressionTransformHeaderSize) 0);
  h ← SetOriginalCompressedSegmentSize (u32 size) h;
  h ← SetCompressionAlgorithm algo h;
  SetOffset (u32 offset) h.

Definition compress (c : conn) (msg : list Z) : out (list Z) :=
  if negb (compressionSupported c) || (zlen (compressionIDs c) =? 0) then mret msg
  else
    let algo := pickCompression (compressionIDs c) in
    if algo =? COMPRESSION_NONE then mret msg
    else
      offset ← compressOffset msg;
      if zlen msg - offset <? minCompressedSegment then mret msg
      else
        seg ← slice msg offset (zlen msg);
        match cCompress (Codec := New algo) seg with
        | Err _ => mret msg
        | Panic => Panic
        | Stuck => Stuck
        | Ok buf =>
            if zlen buf =? 0 then mret msg
            else if SMB2CompressionTransformHeaderSize + offset + zlen buf >=? zlen msg then mret msg
            else
              h ← transformHeader algo (zlen msg - offset) offset;
              head ← slice msg 0 offset;
              mret ((h ++ head) ++ buf)
        end.
End frame.

(** ** [compress/patternv1.go] *)

(** The length of the run of [p] at the front, counted in a 32-bit word. *)
Fixpoint countRun (p : Z) (l : list Z) (n : Z) : Z :=
  match l with
  | b :: l => if p =? b then countRun p l (u32 (n + 1)) else n
  | [] => n
  end.
Definition worthwhile (n : Z) : Z := if n <? 64 then 0 else n.

Definition ScanForDataPatternsV1 (buf : list Z) : option PatternV1 * option PatternV1 :=
  match buf, reverse buf with
  | b :: rest, e :: tser =>
      let forward := worthwhile (countRun b rest 1) in
      if forward =? u32 (zlen buf) then (Some (MkPatternV1 b forward), None)
      else (Some (MkPatternV1 b forward), Some (MkPatternV1 e (worthwhile (countRun e tser 1))))
  | _, _ => (None, None)
  end.
(** ** The codecs keep their promises *)
Lemma codecErr_settled {E A} (m : outcome E A) : settled m -> settled (codecErr m).
Proof. by destruct m. Qed.
Lemma codecErr_Ok {E A} (m : outcome E A) a : codecErr m = Ok a -> m = Ok a.
Proof. destruct m; simpl; congruence. Qed.

#[export] Instance lz77_ok : CodecOk lz77_codec.
Proof.
  constructor; simpl.
  - intros src _. destruct (Lz77.Decompress_Compress src (zlen src)) as (c & -> & H); [right; lia|].
    exists c. split; [done|]. by rewrite H.
  - intros src limit _. apply codecErr_settled, Lz77.Decompress_total.
  - intros src limit dst _ Hl H%codecErr_Ok. by eapply Lz77.Decompress_total.
Qed.
#[export] Instance lznt1_ok : CodecOk lznt1_codec.
Proof.
  constructor; simpl.
  - intros src _. destruct (Lznt1.nt_Decompress_Compress src (zlen src)) as (c & -> & H); [right; lia|].
    exists c. split; [done|]. by rewrite H.
  - intros src limit Hb. by apply codecErr_settled, Lznt1.nt_Decompress_total.
  - intros src limit dst Hb Hl H%codecErr_Ok. by eapply Lznt1.nt_Decompress_total.
Qed.
#[export] Instance huffman_ok : CodecOk huffman_codec.
Proof.
  constructor; simpl.
  - intros src Hb. destruct (Huffman.huff_Decompress_Compress src Hb) as (c & -> & H). exists c. split; [done|]. by rewrite H.
  - intros src limit Hb. by apply codecErr_settled, Huffman.Decompress_settled.
  - intros src limit dst Hb Hl H%codecErr_Ok. eapply Huffman.Decompress_settled; [done|lia|done].
Qed.

Section laws.
Context (lz4 : lz4Lib).
Hypothesis lz4_laws : lz4_ok lz4.

Abbreviation New := (New lz4).
Abbreviation compress := (compress lz4).
Abbreviation decompress := (decompress lz4).

Lemma New_settled algo src limit : bytes src -> settled (cDecompress (Codec := New algo) src limit).
Proof using Type.
  intros Hb. simpl. unfold Decompress.
  destruct (algo =? COMPRESSION_LZ77); [by apply codec_settled|].
  destruct (algo =? COMPRESSION_LZ77_HUFFMAN); [by apply codec_settled|].
  destruct (algo =? COMPRESSION_LZ4).
  - destruct (zlen src =? 0); [done|]. destruct (limit <=? 0); [done|]. by destruct (UncompressBlock lz4 src limit).
  - destruct (algo =? COMPRESSION_LZNT1); [by apply codec_settled|done].
Qed.

Lemma New_bounded algo src limit dst :
  bytes src -> 0 < limit -> cDecompress (Codec := New algo) src limit = Ok dst -> zlen dst <= limit.
Proof using lz4_laws.
  intros Hb Hl. simpl. unfold Decompress.
  destruct (algo =? COMPRESSION_LZ77); [by apply codec_bounded|].
  destruct (algo =? COMPRESSION_LZ77_HUFFMAN); [by apply codec_bounded|].
  destruct (algo =? COMPRESSION_LZ4).
  - destruct (zlen src =? 0); [intros [= <-]; change (0 <= limit); lia|]. destruct (limit <=? 0); [done|].
    destruct (UncompressBlock lz4 src limit) eqn:Hu; [|done]. intros [= <-]. by eapply lz4_bounded.
  - destruct (algo =? COMPRESSION_LZNT1); [by apply codec_bounded|]. intros [= <-]. change (0 <= limit). lia.
Qed.

Lemma New_roundtrip algo src :
  algo ∈ [COMPRESSION_LZ77; COMPRESSION_LZ77_HUFFMAN; COMPRESSION_LZ4; COMPRESSION_LZNT1] -> bytes src ->
  exists c, cCompress (Codec := New algo) src = Ok c /\ cDecompress (Codec := New algo) c (zlen src) = Ok src.
Proof using lz4_laws.
  intros Ha Hb. simpl. unfold Compress, Decompress.
  destruct (algo =? COMPRESSION_LZ77) eqn:H2; [by apply codec_roundtrip|].
  destruct (algo =? COMPRESSION_LZ77_HUFFMAN) eqn:H3; [by apply codec_roundtrip|].
  destruct (algo =? COMPRESSION_LZ4) eqn:H4.
  - destruct src as [|x src]; [exists []; done|]. rewrite zlen_cons. pose proof (zlen_nonneg src).
    destruct (Z.eqb_spec (1 + zlen src) 0); [lia|]. destruct (lz4_roundtrip _ lz4_laws (x :: src)) as (c & -> & Hne & Hu); [done|].
    exists c. split; [done|]. destruct c as [|y c]; [done|]. rewrite zlen_cons. pose proof (zlen_nonneg c).
    destruct (Z.eqb_spec (1 + zlen c) 0); [lia|]. destruct (Z.leb_spec (1 + zlen src) 0); [lia|].
    rewrite zlen_cons in Hu. by rewrite Hu.
  - destruct (algo =? COMPRESSION_LZNT1) eqn:H1; [by apply codec_roundtrip|]. exfalso.
    rewrite !elem_of_cons, elem_of_nil in Ha.
    repeat match goal with H : (_ =? _) = false |- _ => apply Z.eqb_neq in H end.
    destruct Ha as [->|[->|[->|[->|[]]]]]; done.
Qed.

(** ** What is sent can be received *)
Lemma pick_spec ids : let algo := pickCompression ids in
  algo = COMPRESSION_NONE \/
  (contains ids algo = true /\ algo ∈ [COMPRESSION_LZ77; COMPRESSION_LZ77_HUFFMAN; COMPRESSION_LZ4; COMPRESSION_LZNT1] /\
   algo <> COMPRESSION_PATTERN_V1 /\ is_u16 algo).
Proof using.
  unfold pickCompression. destruct (filter _ _) as [|w l] eqn:Hf; [by left|right].
  assert (w ∈ filter (fun want => contains ids want = true) sendCompressionPreference) as Hw by (rewrite Hf; left).
  apply list_elem_of_filter in Hw as [Hc Hw]. split; [done|]. unfold sendCompressionPreference in Hw.
  rewrite !elem_of_cons, elem_of_nil in Hw. split; [|destruct Hw as [->|[->|[->|[]]]]; done].
  rewrite !elem_of_cons. tauto.
Qed.

Lemma compressOffset_spec msg : bytes msg ->
  exists off, compressOffset msg = Ok off /\ 0 <= off < 256 /\ (off = 0 \/ off < zlen msg).
Proof using.
  intros Hb. unfold compressOffset, SMB2HeaderSize, SMB2ReadResponseMinSize.
  destruct (Z.ltb_spec (zlen msg) (64 + 16)); [exists 0; split_and!; [done|lia|lia|by left]|].
  unfold Command, Status, NextCommand. rewrite !get_le_Ok by lia. simpl.
  destruct (_ || _ || _); [exists 0; split_and!; [done|lia|lia|by left]|].
  destruct (@index_in_range _ smbErr msg (64 + 2)) as (o & -> & Ho); [lia|]. simpl.
  assert (is_u8 o) as Hu by (by eapply Forall_lookup_1 in Ho). unfold is_u8 in Hu.
  rewrite Z.geb_leb. destruct (Z.ltb_spec o (64 + 16)), (Z.leb_spec (zlen msg) o); simpl;
    try (exists 0; split_and!; [done|lia|lia|by left]). exists o. split_and!; [done|lia|lia|by right].
Qed.

Lemma transformHeader_spec algo size off :
  is_u16 algo -> is_u32 size -> is_u32 off ->
  exists h, transformHeader algo size off = Ok h /\ zlen h = 16 /\ ProtocolID h = Ok PROTOCOL_SMB2_COMPRESSED /\
    OriginalCompressedSegmentSize h = Ok size /\ CompressionAlgorithm h = Ok algo /\ CompressionFlags h = Ok 0 /\ Offset h = Ok off.
Proof using.
  intros Ha Hs Ho. unfold transformHeader, is_u16, is_u32, u32 in *. rewrite !(Z.mod_small _ (2 ^ 32)) by lia.
  set (z := replicate (Z.to_nat SMB2CompressionTransformHeaderSize) 0).
  destruct (field_write FProtocolID PROTOCOL_SMB2_COMPRESSED z) as (h1 & E1 & L1 & G1 & K1); [vm_compute; discriminate|].
  change (zlen z) with 16 in L1. simpl in E1, G1. rewrite E1. run_bind.
  destruct (field_write FSegmentSize size h1) as (h2 & E2 & L2 & G2 & K2); [simpl; lia|]. simpl in E2, G2. rewrite E2. run_bind.
  destruct (field_write FAlgorithm algo h2) as (h3 & E3 & L3 & G3 & K3); [simpl; lia|]. simpl in E3, G3. rewrite E3. run_bind.
  destruct (field_write FOffset off h3) as (h4 & E4 & L4 & G4 & K4); [simpl; lia|]. simpl in E4, G4.
  change (8 * 4) with 32 in *. change (8 * 2) with 16 in *. rewrite Z.mod_small in G2, G3, G4 by lia.
  exists h4. split; [done|]. split; [lia|].
  pose proof (K4 FProtocolID ltac:(right; simpl; lia)) as P4. rewrite (K3 FProtocolID), (K2 FProtocolID) in P4 by (right; simpl; lia).
  pose proof (K4 FSegmentSize ltac:(right; simpl; lia)) as S4. rewrite (K3 FSegmentSize) in S4 by (right; simpl; lia).
  pose proof (K4 FAlgorithm ltac:(right; simpl; lia)) as A4.
  pose proof (K4 FCompressionFlags ltac:(right; simpl; lia)) as F4. rewrite (K3 FCompressionFlags), (K2 FCompressionFlags), (K1 FCompressionFlags) in F4 by (left; simpl; lia).
  simpl in P4, S4, A4, F4. split_and!; [by rewrite P4, G1|by rewrite S4, G2|by rewrite A4, G3|by rewrite F4|done].
Qed.

Lemma slice_app_mid (a b c : list Z) : @slice smbErr Z (a ++ b ++ c) (zlen a) (zlen a + zlen b) = Ok b.
Proof using.
  pose proof (zlen_nonneg a). pose proof (zlen_nonneg b). pose proof (zlen_nonneg c).
  rewrite slice_Ok by (rewrite ?zlen_app; lia). unfold sub. f_equal.
  replace (Z.to_nat (zlen a)) with (length a) by (unfold zlen; lia). rewrite drop_app_length.
  replace (Z.to_nat (zlen a + zlen b - zlen a)) with (length b) by (unfold zlen; lia). by rewrite take_app_length.
Qed.

(** A framed segment comes apart again. *)
Lemma unchained_framed c algo size off head buf seg h :
  contains (compressionIDs c) algo = true -> algo <> COMPRESSION_PATTERN_V1 -> zlen head = off -> zlen h = 16 ->
  Offset h = Ok off -> CompressionAlgorithm h = Ok algo -> cDecompress (Codec := New algo) buf size = Ok seg ->
  unchained lz4 c size ((h ++ head) ++ buf) = Ok (head ++ seg, off).
Proof using.
  intros Hids Hpat Hoff Hh Ho Ha Hdec. pose proof (zlen_nonneg head). pose proof (zlen_nonneg buf).
  unfold unchained, SMB2CompressionTransformHeaderSize. rewrite <- app_assoc.
  unfold Offset, CompressionAlgorithm in *. rewrite !get_le_app_l by lia. rewrite Ho. run_bind.
  assert (zlen (h ++ head ++ buf) = 16 + off + zlen buf) as Hz by (rewrite !zlen_app; lia). rewrite Hz, Z.gtb_ltb.
  destruct (Z.ltb_spec (16 + off + zlen buf) (16 + off)); [lia|].
  assert ((if 0 <? off then slice (h ++ head ++ buf) 16 (16 + off) else mret []) = @Ok smbErr _ head) as ->.
  { destruct (Z.ltb_spec 0 off).
    - rewrite <- Hh, <- Hoff. apply slice_app_mid.
    - destruct head; [done|]. rewrite zlen_cons in *. pose proof (zlen_nonneg head). lia. }
  run_bind. rewrite Ha. run_bind. rewrite Hids. simpl negb. cbv iota.
  assert (@slice smbErr Z (h ++ head ++ buf) (16 + off) (16 + off + zlen buf) = Ok buf) as ->.
  { pose proof (slice_app_mid (h ++ head) buf []) as Hs. rewrite app_nil_r, <- app_assoc, zlen_app, Hh, Hoff in Hs. exact Hs. }
  run_bind. rewrite (proj2 (Z.eqb_neq _ _) Hpat). rewrite Hdec. done.
Qed.

(** C38: What the server compresses, a peer with the same settings takes apart again.
    Compressing any SMB2 message whose segment the connection allows returns: either the
    message as it is, or a shorter one under the compression protocol ID that
    decompresses to exactly the message.  The codec is whichever the preference picks;
    LZ77 and LZNT1 are this development's own, Huffman and LZ4 are taken by their
    laws. *)
Theorem compress_decompress (c : conn) (msg : list Z) :
  bytes msg -> 64 <= zlen msg < 2 ^ 32 -> ProtocolID msg = Ok PROTOCOL_SMB2 -> zlen msg <= segmentBound c ->
  exists o, compress c msg = Ok o /\
    (o = msg \/ (decompress c o = Ok msg /\ zlen o < zlen msg /\ ProtocolID o = Ok PROTOCOL_SMB2_COMPRESSED)).
Proof using lz4_laws.
  intros Hb Hl Hp Hmax. unfold CompressFrame.compress.
  destruct (negb _ || _) eqn:Hsup; [eauto|].
  destruct (Z.eqb_spec (pickCompression (compressionIDs c)) COMPRESSION_NONE) as [|Hnone]; [eauto|].
  destruct (pick_spec (compressionIDs c)) as [?|(Hids & Halg & Hpat & Hu16)]; [done|].
  set (algo := pickCompression (compressionIDs c)) in *.
  destruct (compressOffset_spec msg Hb) as (off & -> & Ho & Hol). run_bind. unfold minCompressedSegment.
  destruct (Z.ltb_spec (zlen msg - off) (64 * 1024)); [eauto|]. rewrite (slice_Ok msg off) by lia. run_bind.
  set (seg := sub msg off (zlen msg)). assert (bytes seg) as Hbs by (by apply Forall_take, Forall_drop).
  assert (zlen seg = zlen msg - off) as Hzs by (unfold seg; rewrite zlen_sub; lia).
  destruct (New_roundtrip algo seg Halg Hbs) as (buf & Henc & Hdec). rewrite Henc.
  destruct (zlen buf =? 0); [eauto|]. rewrite Z.geb_leb. unfold SMB2CompressionTransformHeaderSize.
  destruct (Z.leb_spec (zlen msg) (16 + off + zlen buf)); [eauto|].
  destruct (transformHeader_spec algo (zlen msg - off) off) as (h & -> & Hh & H1 & H2 & H3 & H4 & H5); [done|unfold is_u32; lia..|].
  run_bind. rewrite slice_Ok by lia. run_bind. set (head := sub msg 0 off).
  assert (zlen head = off) as Hzh by (unfold head; rewrite zlen_sub; lia).
  assert (head ++ seg = msg) as Hmsg by (unfold head, seg; rewrite sub_app by lia; apply sub_full).
  pose proof (zlen_nonneg buf) as Hnb.
  eexists. split; [reflexivity|]. right. split_and!; [|rewrite !zlen_app; lia|].
  - unfold CompressFrame.decompress. rewrite Hsup. unfold SMB2CompressionTransformHeaderSize.
    destruct (Z.ltb_spec (zlen ((h ++ head) ++ buf)) 16) as [Hx|_]; [rewrite !zlen_app in Hx; lia|].
    unfold OriginalCompressedSegmentSize, CompressionFlags in *. rewrite <- !app_assoc, !get_le_app_l by lia.
    rewrite H2. run_bind. destruct (Z.eqb_spec (zlen msg - off) 0); [lia|]. rewrite Z.gtb_ltb.
    destruct (Z.ltb_spec (segmentBound c) (zlen msg - off)); [lia|]. simpl orb. cbv iota. rewrite H4. run_bind. cbv iota.
    rewrite app_assoc, (unchained_framed c algo (zlen msg - off) off head buf seg h) by (done || (rewrite <- Hzs; exact Hdec)).
    change (0 &^ COMPRESSION_CAPABILITIES_FLAG_CHAINED =? 0) with true.
    change (0 =? COMPRESSION_CAPABILITIES_FLAG_CHAINED) with false. cbv beta match delta [negb andb].
    run_bind. rewrite Hmsg. unfold u32. rewrite Z.mod_small, Z.eqb_refl by lia. simpl negb. cbv iota.
    unfold SMB2HeaderSize. destruct (Z.ltb_spec (zlen msg) 64); [lia|]. rewrite Hp. done.
  - unfold ProtocolID in *. by rewrite <- app_assoc, get_le_app_l by lia.
Qed.

(** ** Whatever arrives *)
(** A result that is an error, or data no longer than [n]. *)
Definition within_size (n : Z) (r : out (list Z)) : Prop :=
  match r with Ok o => zlen o <= n | Err _ => True | _ => False end.

Lemma patternRun_ok ocss b : bytes b -> within_size ocss (patternRun ocss b).
Proof using.
  intros Hb. unfold patternRun, UnmarshalPattern. destruct (Z.ltb_spec (zlen b) 8); [done|].
  destruct (@index_in_range _ smbErr b 0) as (p & -> & _); [lia|]. run_bind.
  destruct (get_le_bytes (E:=smbErr) b 4 4) as (r & -> & Hr); [done|lia..|]. simpl.
  rewrite Z.gtb_ltb. destruct (Z.ltb_spec ocss r); [done|]. simpl. rewrite zlen_replicate. lia.
Qed.

Lemma New_within algo src ocss : bytes src -> 0 < ocss -> within_size ocss (cDecompress (Codec := New algo) src ocss).
Proof using lz4_laws.
  intros Hb Ho. pose proof (New_settled algo src ocss Hb) as Hs. pose proof (New_bounded algo src ocss) as Hd.
  destruct (cDecompress src ocss); try done. by apply Hd.
Qed.

Lemma payload_settled algo ocss len msg ph offset :
  bytes msg -> bytes ph -> 0 < ocss -> 0 <= offset -> 0 <= len < 2 ^ 32 - 8 -> 8 + len <= zlen ph -> offset + 8 + len <= zlen msg ->
  settled (payload lz4 algo ocss len msg ph offset).
Proof using lz4_laws.
  intros Hbm Hbp Ho Hoff Hlen Hph Hmsg. unfold payload, SMB2CompressionPayloadHeaderSize.
  destruct (algo =? COMPRESSION_NONE).
  { destruct (_ || _); [done|]. by rewrite slice_Ok by lia. }
  destruct (algo =? COMPRESSION_PATTERN_V1).
  { rewrite slice_Ok by lia. run_bind. pose proof (patternRun_ok ocss _ (bytes_sub ph 8 (8 + len) Hbp)) as H.
    by destruct (patternRun _ _). }
  destruct (Z.ltb_spec len 4); [done|]. destruct (get_le_bytes (E:=smbErr) ph 8 4) as (ops & -> & _); [done|lia..|]. run_bind.
  assert (u32 (8 + len) = 8 + len) as -> by (unfold u32; apply Z.mod_small; lia). rewrite slice_Ok by lia. run_bind.
  pose proof (New_settled algo (sub ph (8 + 4) (8 + len)) ocss (bytes_sub _ _ _ Hbp)) as Hs.
  destruct (cDecompress _ ocss); try done. run_bind. by destruct (negb _).
Qed.

Lemma chained_loop_ok fuel c ocss msg offset output :
  bytes msg -> zlen msg < 2 ^ 32 -> 0 < ocss -> 0 <= offset <= zlen msg -> zlen output <= ocss ->
  (Z.to_nat (zlen msg - offset) < fuel)%nat ->
  within_size ocss (chained_loop lz4 fuel c ocss msg offset output).
Proof using lz4_laws.
  intros Hb Hm Ho. revert offset output. induction fuel as [|fuel IH]; intros offset output Hoff Hout Hf; [lia|].
  cbn [chained_loop]. unfold SMB2CompressionPayloadHeaderSize.
  destruct (Z.eqb_spec offset (zlen msg)); [done|]. rewrite Z.gtb_ltb. destruct (Z.ltb_spec (zlen msg) (offset + 8)); [done|].
  rewrite slice_Ok by lia. run_bind. set (ph := sub msg offset (zlen msg)).
  assert (bytes ph) as Hbp by (by apply bytes_sub). assert (zlen ph = zlen msg - offset) as Hph by (unfold ph; rewrite zlen_sub; lia).
  unfold PayloadAlgorithm, PayloadLength. destruct (get_le_bytes (E:=smbErr) ph 0 2) as (algo & -> & _); [done|lia..|]. run_bind.
  destruct (_ && _); [done|]. destruct (get_le_bytes (E:=smbErr) ph 4 4) as (len & -> & Hlen); [done|lia..|]. run_bind.
  rewrite Z.gtb_ltb. destruct (Z.ltb_spec (zlen msg) (offset + 8 + len)); [done|].
  pose proof (payload_settled algo ocss len msg ph offset) as Hp.
  specialize (Hp Hb Hbp Ho ltac:(lia) ltac:(lia) ltac:(lia) ltac:(lia)).
  destruct (payload _ _ _ _ _ _ _) as [chunk| | |]; try done. run_bind. rewrite Z.gtb_ltb.
  destruct (Z.ltb_spec ocss (zlen (output ++ chunk))); [done|]. apply IH; [lia|lia|lia].
Qed.

Lemma unchained_ok c ocss msg : bytes msg -> 16 <= zlen msg -> 0 < ocss ->
  match unchained lz4 c ocss msg with
  | Ok (o, start) => 0 <= start <= zlen msg /\ zlen o <= start + ocss
  | Err _ => True
  | _ => False
  end.
Proof using lz4_laws.
  intros Hb Hl Ho. unfold unchained, Offset, CompressionAlgorithm, SMB2CompressionTransformHeaderSize.
  destruct (get_le_bytes (E:=smbErr) msg 12 4) as (start & -> & Hs); [done|lia..|]. run_bind. rewrite Z.gtb_ltb.
  destruct (Z.ltb_spec (zlen msg) (16 + start)); [done|].
  assert (exists head, (if 0 <? start then slice msg 16 (16 + start) else mret []) = @Ok smbErr _ head /\ zlen head = start)
    as (head & -> & Hh).
  { destruct (Z.ltb_spec 0 start).
    - rewrite slice_Ok by lia. eexists. split; [done|]. rewrite zlen_sub; lia.
    - exists []. split; [done|]. change (0 = start). lia. }
  run_bind. destruct (get_le_bytes (E:=smbErr) msg 8 2) as (algo & -> & _); [done|lia..|]. run_bind. destruct (negb _); [done|].
  rewrite slice_Ok by lia. run_bind. set (seg := sub msg (16 + start) (zlen msg)).
  assert (within_size ocss (if algo =? COMPRESSION_PATTERN_V1 then patternRun ocss seg else cDecompress (Codec := New algo) seg ocss)) as Hw.
  { destruct (algo =? COMPRESSION_PATTERN_V1); [apply patternRun_ok|apply New_within; [|done]]; by apply bytes_sub. }
  destruct (if algo =? COMPRESSION_PATTERN_V1 then _ else _) as [buf| | |]; try done. rewrite bind_ret. simpl in *.
  rewrite zlen_app. lia.
Qed.

(** A compressed message cannot hurt.  Whatever bytes arrive, decompression returns;
    what it hands on is an SMB2 message, at least a header long, and no longer than what
    arrived and what the connection allows a segment to come to: neither a pattern nor a
    chain nor a back reference builds more than that. *)
Theorem decompress_bounded (c : conn) (msg : list Z) :
  bytes msg -> zlen msg < 2 ^ 32 ->
  settled (decompress c msg) /\
  (forall o, decompress c msg = Ok o ->
     64 <= zlen o <= zlen msg + segmentBound c /\ ProtocolID o = Ok PROTOCOL_SMB2).
Proof using lz4_laws.
  intros Hb Hm. unfold CompressFrame.decompress. destruct (_ || _); [done|].
  unfold SMB2CompressionTransformHeaderSize, OriginalCompressedSegmentSize, CompressionFlags.
  destruct (Z.ltb_spec (zlen msg) 16); [done|]. destruct (get_le_bytes (E:=smbErr) msg 4 4) as (ocss & -> & Ho); [done|lia..|]. run_bind.
  destruct (_ || _) eqn:Hoc; [done|]. apply orb_false_iff in Hoc as [Ho0%Z.eqb_neq Hob].
  rewrite Z.gtb_ltb in Hob. apply Z.ltb_ge in Hob.
  destruct (get_le_bytes (E:=smbErr) msg 10 2) as (flags & -> & _); [done|lia..|]. run_bind.
  destruct (negb (_ =? 0)); [done|]. destruct (_ && _); [done|].
  assert (match (if flags =? COMPRESSION_CAPABILITIES_FLAG_CHAINED
      then o ← chained_loop lz4 (S (length msg)) c ocss msg SMB2CompressionPayloadHeaderOffset []; mret (o, 0)
      else unchained lz4 c ocss msg) with
    | Ok (o, start) => 0 <= start <= zlen msg /\ zlen o <= start + ocss | Err _ => True | _ => False end) as Hbody.
  { destruct (flags =? _); [|apply unchained_ok; [done|lia|lia]].
    pose proof (chained_loop_ok (S (length msg)) c ocss msg SMB2CompressionPayloadHeaderOffset []) as Hc.
    specialize (Hc Hb Hm ltac:(lia) ltac:(unfold SMB2CompressionPayloadHeaderOffset; lia) ltac:(change (zlen []) with 0; lia)
      ltac:(unfold SMB2CompressionPayloadHeaderOffset, zlen in *; lia)).
    destruct (chained_loop _ _ _ _ _ _ _) as [o| | |]; try done. rewrite bind_ret. simpl in *. lia. }
  destruct (if flags =? _ then _ else _) as [[o start]| | |]; try done. run_bind. cbv beta match.
  destruct (negb _); [done|]. unfold SMB2HeaderSize. destruct (Z.ltb_spec (zlen o) 64); [done|].
  unfold ProtocolID. rewrite get_le_Ok by lia. run_bind. set (id := le_dec _).
  destruct (Z.eqb_spec id PROTOCOL_SMB2) as [He|]; [|done]. simpl negb. cbv iota. split; [done|].
  intros o' [= <-]. split; [lia|]. rewrite get_le_Ok by lia. by rewrite <- He.
Qed.

End laws.
(** ** The pattern scan *)

(** [p] says of the front of [l] what the scan should: the whole run of its first byte,
    where the run has 64 bytes or more, and otherwise nothing. *)
Definition run_at (l : list Z) (p : PatternV1) : Prop :=
  l !! 0%nat = Some (Pattern p) /\
  exists n, take n l = replicate n (Pattern p) /\ l !! n <> Some (Pattern p) /\ (n <= length l)%nat /\
    Repetitions p = (if decide (n < 64)%nat then 0 else Z.of_nat n).

Lemma countRun_spec p l k : 0 <= k -> k + zlen l < 2 ^ 32 ->
  exists n, countRun p l k = k + Z.of_nat n /\ take n l = replicate n p /\ l !! n <> Some p /\ (n <= length l)%nat.
Proof.
  revert k. induction l as [|b l IH]; intros k Hk Hl; [exists 0%nat; split_and!; [simpl; lia|done|done|simpl; lia]|].
  rewrite zlen_cons in Hl. pose proof (zlen_nonneg l). cbn [countRun]. destruct (Z.eqb_spec p b) as [->|Hne].
  - unfold u32. rewrite Z.mod_small by lia. destruct (IH (k + 1)) as (n & -> & H1 & H2 & H3); [lia|lia|].
    exists (S n). split_and!; [lia|simpl; by rewrite H1|done|simpl; lia].
  - exists 0%nat. split_and!; [lia|done|simpl; congruence|lia].
Qed.

Lemma run_at_spec b l : zlen (b :: l) < 2 ^ 32 -> run_at (b :: l) (MkPatternV1 b (worthwhile (countRun b l 1))).
Proof.
  intros Hl. rewrite zlen_cons in Hl. split; [done|]. destruct (countRun_spec b l 1) as (n & -> & H1 & H2 & H3); [lia|lia|].
  exists (S n). split_and!; [simpl; by rewrite H1|done|simpl; lia|]. simpl Repetitions. unfold worthwhile.
  destruct (decide (S n < 64)%nat), (Z.ltb_spec (1 + Z.of_nat n) 64); lia.
Qed.

(** The scan for patterns finds exactly the runs worth a payload: at either end of the
    buffer the run of the end's byte, as long as it is and no longer, if it has 64 bytes or
    more; and it looks at the far end only where the buffer is not one run. *)
Theorem ScanForDataPatternsV1_spec (buf : list Z) :
  zlen buf < 2 ^ 32 ->
  match ScanForDataPatternsV1 buf with
  | (None, None) => buf = []
  | (Some f, None) => run_at buf f /\ Repetitions f = zlen buf
  | (Some f, Some b) => run_at buf f /\ Repetitions f <> zlen buf /\ run_at (reverse buf) b
  | (None, Some _) => False
  end.
Proof.
  intros Hl. unfold ScanForDataPatternsV1. destruct buf as [|b l]; [done|].
  destruct (reverse (b :: l)) as [|e r] eqn:Hr.
  { apply (f_equal length) in Hr. rewrite length_reverse in Hr. done. }
  assert (u32 (zlen (b :: l)) = zlen (b :: l)) as -> by (unfold u32; apply Z.mod_small; pose proof (zlen_nonneg (b :: l)); lia).
  assert (zlen (e :: r) < 2 ^ 32) as Hl' by (rewrite <- Hr; unfold zlen; rewrite length_reverse; exact Hl).
  destruct (Z.eqb_spec (worthwhile (countRun b l 1)) (zlen (b :: l))) as [He|He].
  - split; [by apply run_at_spec|done].
  - split_and!; [by apply run_at_spec|done|by apply run_at_spec].
Qed.

(** ** Witnesses *)

(** A stand-in for the library, for the witnesses: a block is the data itself. *)
Definition storedBlocks : lz4Lib :=
  Lz4Lib (fun src => Some src) (fun src n => if zlen src <=? n then Some src else None).
Lemma storedBlocks_ok : lz4_ok storedBlocks.
Proof.
  constructor; simpl.
  - intros src Hne. exists src. split; [done|]. split; [done|]. by rewrite Z.leb_refl.
  - intros src n dst. destruct (Z.leb_spec (zlen src) n); [|done]. by intros [= <-].
Qed.

Definition sampleConn : conn := Conn true [COMPRESSION_LZNT1; COMPRESSION_PATTERN_V1] true 1048576 1048576 1048576.
Definition sampleMessage : list Z := le_enc 4 PROTOCOL_SMB2 ++ le_enc 2 64 ++ replicate (Z.to_nat 66000) 0.

Lemma compress_decompress_witness :
  exists o, compress storedBlocks sampleConn sampleMessage = Ok o /\
    (o = sampleMessage \/
     (decompress storedBlocks sampleConn o = Ok sampleMessage /\ zlen o < zlen sampleMessage /\
      ProtocolID o = Ok PROTOCOL_SMB2_COMPRESSED)).
Proof.
  apply (compress_decompress storedBlocks storedBlocks_ok sampleConn sampleMessage).
  - apply (bool_decide_unpack _). vm_compute. exact I.
  - vm_compute. split; [discriminate|reflexivity].
  - vm_compute. reflexivity.
  - vm_compute. discriminate.
Defined.

(** A chained message of one pattern payload that asks for more than the segment. *)
Definition sampleBomb : list Z :=
  le_enc 4 PROTOCOL_SMB2_COMPRESSED ++ le_enc 4 4096 ++ le_enc 2 COMPRESSION_PATTERN_V1 ++ le_enc 2 1 ++ le_enc 4 8 ++
  [0; 0; 0; 0] ++ le_enc 4 0xffffffff.
Lemma decompress_bounded_witness :
  decompress storedBlocks sampleConn sampleBomb = Err ErrInvalidParameter /\
  settled (decompress storedBlocks sampleConn sampleBomb).
Proof.
  split; [vm_compute; reflexivity|].
  apply (decompress_bounded storedBlocks storedBlocks_ok sampleConn sampleBomb).
  - apply (bool_decide_unpack _). vm_compute. exact I.
  - vm_compute. reflexivity.
Defined.

Lemma ScanForDataPatternsV1_spec_witness :
  exists f b, ScanForDataPatternsV1 (replicate 70 9 ++ replicate 5 1) = (Some f, Some b) /\
    run_at (replicate 70 9 ++ replicate 5 1) f /\ Repetitions f = 70 /\ Repetitions b = 0.
Proof.
  pose proof (ScanForDataPatternsV1_spec (replicate 70 9 ++ replicate 5 1) ltac:(vm_compute; reflexivity)) as H.
  exists (MkPatternV1 9 70), (MkPatternV1 1 0).
  assert (ScanForDataPatternsV1 (replicate 70 9 ++ replicate 5 1) = (Some (MkPatternV1 9 70), Some (MkPatternV1 1 0))) as E
    by (vm_compute; reflexivity).
  rewrite E in H. destruct H as [H _]. split; [exact E|]. split; [exact H|]. split; reflexivity.
Defined.
End CompressFrame.
