(* ===== verification/Wildcard.v ===== *)
(** [utils/wildcard.go]: the search pattern of a directory query, matched by a
    table of one row per pattern character.  The table is shown to compute what
    the five wildcards of [MS-FSA] 2.1.4.4 say, written as a recursion over the
    pattern.  A rune is a [Z]; the conversion of the two strings to runes is the
    language's. *)
From S2P Require Import Prelude.

Definition wildStar : Z := 42.    (* '*' *)
Definition wildQM : Z := 63.      (* '?' *)
Definition wildDOSDot : Z := 34.  (* the double quote *)
Definition wildDOSQM : Z := 62.   (* '>' *)
Definition wildDOSStr : Z := 60.  (* '<' *)
Definition dot : Z := 46.         (* '.' *)

(** ** The table *)

(** [lastDot[j:]], filled in from the end of the name; [n] is [n[j:]]. *)
Fixpoint lastDots (n : list Z) (j : Z) : list Z :=
  match n with
  | [] => [-1]
  | c :: n =>
      let rest := lastDots n (j + 1) in
      let after := default (-1) (head rest) in
      (if 0 <=? after then after else if c =? dot then j else -1) :: rest
  end.

(** One row, filled in from the end of the name: [n], [next] and [lastDot] are
    the slices from [j] on, and so is the row returned. *)
Fixpoint fillRow (p : Z) (n : list Z) (next : list bool) (lastDot : list Z) (j : Z) : list bool :=
  let next_j := default false (next !! 0%nat) in
  let next_j1 := default false (next !! 1%nat) in
  let lastDot_j := default (-1) (head lastDot) in
  match n with
  | [] =>
      (* j = nn *)
      [ if p =? wildStar then next_j
        else if p =? wildDOSStr then next_j
        else if p =? wildQM then false
        else if p =? wildDOSQM then next_j
        else if p =? wildDOSDot then next_j
        else false ]
  | c :: n =>
      let rest := fillRow p n (tail next) (tail lastDot) (j + 1) in
      let cur_j1 := default false (head rest) in
      (if p =? wildStar then next_j || cur_j1
       else if p =? wildDOSStr then next_j || (((lastDot_j <? 0) || (j <? lastDot_j)) && cur_j1)
       else if p =? wildQM then next_j1
       else if p =? wildDOSQM then (if negb (c =? dot) then next_j1 else next_j)
       else if p =? wildDOSDot then (c =? dot) && next_j1
       else (p =? c) && next_j1) :: rest
  end.

(** The rows for [p[i:]], last pattern character first. *)
Fixpoint rows (p n : list Z) (lastDot : list Z) : list bool :=
  match p with
  | [] => replicate (length n) false ++ [true]
  | c :: p => fillRow c n (rows p n lastDot) lastDot 0
  end.

Definition MatchPattern (p n : list Z) : bool :=
  default false (head (rows p n (lastDots n 0))).

(** ** The wildcards *)

(** How many characters a DOS_STAR may take off [n]: it stops short of the last
    period, where there is one. *)
Fixpoint dos_star_reach (n : list Z) : nat :=
  match n with
  | [] => 0
  | c :: n' => if bool_decide (dot ∈ n') then S (dos_star_reach n')
               else if c =? dot then 0 else S (length n')
  end.

Fixpoint matches (p n : list Z) : Prop :=
  match p with
  | [] => n = []
  | c :: p =>
      if c =? wildStar then exists k, (k <= length n)%nat /\ matches p (drop k n)
      else if c =? wildDOSStr then exists k, (k <= dos_star_reach n)%nat /\ matches p (drop k n)
      else if c =? wildQM then exists x n', n = x :: n' /\ matches p n'
      else if c =? wildDOSQM then
        match n with
        | x :: n' => if x =? dot then matches p n else matches p n'
        | [] => matches p []
        end
      else if c =? wildDOSDot then
        match n with
        | x :: n' => x = dot /\ matches p n'
        | [] => matches p []
        end
      else exists n', n = c :: n' /\ matches p n'
  end.

(** ** Lemmas *)

Lemma lastDots_head n j : 0 <= j ->
  let d := default (-1) (head (lastDots n j)) in
  (d < 0 /\ dot ∉ n) \/ (j <= d /\ dot ∈ n /\ dos_star_reach n = Z.to_nat (d - j)).
Proof.
  revert j. induction n as [|c n IH]; intros j Hj; simpl; [left; split; [lia|apply not_elem_of_nil]|].
  specialize (IH (j + 1) ltac:(lia)). simpl in IH.
  set (a := default (-1) (head (lastDots n (j + 1)))) in *.
  destruct IH as [[Ha Hn]|(Ha & Hin & Hr)].
  - destruct (Z.leb_spec 0 a); [lia|]. rewrite bool_decide_eq_false_2 by done.
    destruct (Z.eqb_spec c dot) as [->|Hc].
    + right. split_and!; [lia|left|]. by rewrite Z.sub_diag.
    + left. split; [lia|]. rewrite not_elem_of_cons. by split; [apply not_eq_sym|].
  - destruct (Z.leb_spec 0 a); [|lia]. rewrite bool_decide_eq_true_2 by done.
    right. split_and!; [lia|by right|]. rewrite Hr. lia.
Qed.

Lemma dos_star_reach_nodot n : dot ∉ n -> dos_star_reach n = length n.
Proof.
  induction n as [|c n IH]; simpl; [done|]. rewrite not_elem_of_cons. intros [Hc Hn].
  rewrite bool_decide_eq_false_2 by done. destruct (Z.eqb_spec c dot); [by subst|done].
Qed.
Lemma dos_star_reach_cons c n : dos_star_reach (c :: n) <> 0%nat ->
  dos_star_reach (c :: n) = S (dos_star_reach n).
Proof.
  simpl. case_bool_decide; [done|]. destruct (c =? dot); [done|]. by rewrite dos_star_reach_nodot.
Qed.
(** The condition of the code for a DOS_STAR to take one more character. *)
Lemma dos_star_guard c n j : 0 <= j ->
  let d := default (-1) (head (lastDots (c :: n) j)) in
  ((d <? 0) || (j <? d) = true) <-> dos_star_reach (c :: n) <> 0%nat.
Proof.
  intros Hj d. pose proof (lastDots_head (c :: n) j Hj) as H. cbv zeta in H. fold d in H. clearbody d.
  destruct H as [[Hd Hn]|(Hd & Hin & Hr)].
  - rewrite (dos_star_reach_nodot _ Hn). destruct (Z.ltb_spec d 0); [simpl; by split|lia].
  - rewrite Hr. destruct (Z.ltb_spec d 0); [lia|]. simpl. rewrite Z.ltb_lt. lia.
Qed.

Lemma tail_lastDots c n j : tail (lastDots (c :: n) j) = lastDots n (j + 1).
Proof. done. Qed.

(** A row answers for every suffix of the name. *)
Definition row_for (p n : list Z) (row : list bool) : Prop :=
  length row = S (length n) /\
  forall j, (j <= length n)%nat -> row !! j = Some true <-> matches p (drop j n).

Lemma row_for_tail p c n row : row_for p (c :: n) row -> row_for p n (tail row).
Proof.
  intros [Hl H]. destruct row as [|b row]; [done|]. simpl in *. split; [lia|].
  intros j Hj. apply (H (S j)). lia.
Qed.
Lemma row_for_head p n row : row_for p n row -> default false (row !! 0%nat) = true <-> matches p n.
Proof.
  intros [Hl H]. rewrite <- (H 0%nat) by lia. destruct row as [|b row]; simpl; [done|]. naive_solver.
Qed.

Lemma star_step (P : nat -> Prop) (reach reach' : nat) :
  (reach <> 0%nat -> reach = S reach') ->
  (exists k, (k <= reach)%nat /\ P k) <->
  (P 0%nat \/ (reach <> 0%nat /\ exists k, (k <= reach')%nat /\ P (S k))).
Proof.
  intros Hr. split.
  - intros ([|k] & Hk & HP); [by left|]. right. split; [lia|]. exists k. split; [lia|done].
  - intros [?|(Hn & k & Hk & HP)]; [exists 0%nat; split; [lia|done]|]. exists (S k). split; [lia|done].
Qed.

Lemma fillRow_for c p n row j : 0 <= j ->
  row_for p n row -> row_for (c :: p) n (fillRow c n row (lastDots n j) j).
Proof.
  revert row j. induction n as [|x n IH]; intros row j Hj Hrow.
  - pose proof (row_for_head _ _ _ Hrow) as Hh. simpl. split; [done|]. intros k Hk.
    assert (k = 0%nat) as -> by (simpl in Hk; lia). simpl.
    set (nx := default false (row !! 0%nat)) in *.
    assert (forall b : bool, Some b = Some true <-> b = true) as Hs by (intros []; naive_solver).
    rewrite Hs.
    destruct (c =? wildStar); [|destruct (c =? wildDOSStr)].
    + rewrite Hh. split; [intros; by exists 0%nat|]. intros (k & Hk' & H). assert (k = 0%nat) as -> by lia. done.
    + rewrite Hh. split; [intros; by exists 0%nat|]. intros (k & Hk' & H). assert (k = 0%nat) as -> by lia. done.
    + destruct (c =? wildQM); [split; [done|by intros (? & ? & ? & _)]|].
      destruct (c =? wildDOSQM); [done|]. destruct (c =? wildDOSDot); [done|].
      split; [done|by intros (? & ? & _)].
  - pose proof (row_for_tail _ _ _ _ Hrow) as Ht. pose proof (IH (tail row) (j + 1) ltac:(lia) Ht) as Hrest.
    pose proof (row_for_head _ _ _ Hrow) as Hh. pose proof (row_for_head _ _ _ Ht) as Hh1.
    pose proof (row_for_head _ _ _ Hrest) as Hc1.
    cbn [fillRow]. rewrite tail_lastDots. set (rest := fillRow c n (tail row) (lastDots n (j + 1)) (j + 1)) in *.
    destruct Hrest as [Hlen Hrest]. split; [simpl; lia|]. intros [|k] Hk; [|apply Hrest; simpl in Hk; lia].
    clear Hrest. cbn [lookup list_lookup drop].
    replace (default false (row !! 1%nat)) with (default false (tail row !! 0%nat)) by (by destruct row).
    replace (default false (head rest)) with (default false (rest !! 0%nat)) by (by destruct rest).
    set (nx := default false (row !! 0%nat)) in *. set (nx1 := default false (tail row !! 0%nat)) in *.
    set (cur1 := default false (rest !! 0%nat)) in *.
    assert (forall b : bool, Some b = Some true <-> b = true) as Hs by (intros []; naive_solver). rewrite Hs.
    pose proof (dos_star_guard x n j Hj) as Hg. cbv zeta in Hg.
    cbn [matches] in Hc1 |- *.
    destruct (c =? wildStar); [|destruct (c =? wildDOSStr)].
    + rewrite orb_true_iff, Hh, Hc1.
      rewrite (star_step (fun k => matches p (drop k (x :: n))) (length (x :: n)) (length n)) by done. simpl. naive_solver.
    + rewrite orb_true_iff, andb_true_iff, Hh, Hc1, Hg.
      rewrite (star_step (fun k => matches p (drop k (x :: n))) (dos_star_reach (x :: n)) (dos_star_reach n))
        by apply dos_star_reach_cons. simpl. naive_solver.
    + destruct (c =? wildQM); [rewrite Hh1; naive_solver|].
      destruct (c =? wildDOSQM); [destruct (x =? dot); simpl; tauto|].
      destruct (c =? wildDOSDot); [rewrite andb_true_iff, Z.eqb_eq, Hh1; tauto|].
      rewrite andb_true_iff, Z.eqb_eq, Hh1. naive_solver.
Qed.

Lemma rows_for p n : row_for p n (rows p n (lastDots n 0)).
Proof.
  induction p as [|c p IH]; [|by apply fillRow_for].
  simpl. split; [rewrite length_app, length_replicate; simpl; lia|]. intros j Hj.
  destruct (decide (j = length n)) as [->|Hne].
  - rewrite lookup_app_r, length_replicate, Nat.sub_diag by (rewrite length_replicate; lia).
    simpl. by rewrite drop_all.
  - rewrite lookup_app_l by (rewrite length_replicate; lia).
    rewrite lookup_replicate. split; [by intros [? _]|]. intros H.
    apply (f_equal length) in H. rewrite length_drop in H. simpl in H. lia.
Qed.

(** The table of [MatchPattern] computes the wildcards: the answer is yes exactly
    when the pattern matches the name read as a recursion, with [*] standing for any
    run of characters, [<] for one that stops short of the last period left, [?] for one
    character, [>] for one character or nothing at a period or at the end, the double
    quote for a period or nothing at the end, and every other character for itself. *)
Theorem MatchPattern_spec p n : MatchPattern p n = true <-> matches p n.
Proof.
  unfold MatchPattern. rewrite <- (row_for_head p n _ (rows_for p n)). by destruct (rows p n _).
Qed.
