(* ===== verification/Paths.v ===== *)
(** Paths: [TrimPath], [TrimName] and [ExtractFilename] of [utils/utils.go], and
    [validPath] of [conn.go].  Strings are byte strings, as Go's are; the
    separators are single bytes, so splitting on them needs no decoding. *)
From S2P Require Import Prelude.
From Stdlib Require Import String Ascii.
#[local] Open Scope string_scope.
#[local] Open Scope Z_scope.
#[local] Arguments String.append : simpl nomatch.

Definition slash : ascii := "/"%char.
Definition backslash : ascii := "\"%char.

(** [strings.ReplaceAll(path, "\\", "/")]. *)
Fixpoint normalize (s : string) : string :=
  match s with
  | "" => ""
  | String c s => String (if Ascii.eqb c backslash then slash else c) (normalize s)
  end.

(** [strings.Split(s, "/")]: never empty. *)
Fixpoint split_slash (s : string) : list string :=
  match s with
  | "" => [""]
  | String c s =>
      if Ascii.eqb c slash then "" :: split_slash s
      else match split_slash s with
           | p :: ps => String c p :: ps
           | [] => [String c ""]
           end
  end.

(** [strings.Join(parts, "/")]. *)
Fixpoint join_slash (parts : list string) : string :=
  match parts with
  | [] => ""
  | [p] => p
  | p :: ps => p ++ String slash (join_slash ps)
  end.

Definition TrimPath (path : string) : string :=
  List.last (split_slash (normalize path)) "".

Definition TrimName (path : string) : string :=
  join_slash (removelast (split_slash (normalize path))).

(** [strings.TrimPrefix(path, "/")]. *)
Definition trim_prefix_slash (s : string) : string :=
  match s with
  | String c s' => if Ascii.eqb c slash then s' else s
  | "" => ""
  end.

(** The last byte of a string that has one. *)
Fixpoint last_char (s : string) : option ascii :=
  match s with
  | "" => None
  | String c "" => Some c
  | String _ s => last_char s
  end.

Fixpoint drop_last (s : string) : string :=
  match s with
  | "" => ""
  | String _ "" => ""
  | String c s => String c (drop_last s)
  end.

(** [filepath[strings.LastIndex(filepath, "/")+1:]], or the whole of it. *)
Definition after_last_slash (s : string) : string := List.last (split_slash s) "".

Definition ExtractFilename (path : string) : string * string * bool :=
  if (String.eqb path "" || String.eqb path "/")%bool then ("", "", true)
  else
    let filepath := trim_prefix_slash path in
    let isDir := match last_char path with Some c => Ascii.eqb c slash | None => false end in
    let filepath := if isDir then drop_last filepath else filepath in
    (filepath, after_last_slash filepath, isDir).

Definition validPath (path : string) : bool :=
  if String.eqb path "" then true
  else if match path with String c _ => Ascii.eqb c slash | "" => false end then false
  else forallb (fun part => negb (String.eqb part "" || String.eqb part "." || String.eqb part ".."))
         (split_slash path).

(** [strings.HasPrefix(s, prefix)] and [s[len(prefix):]]. *)
Fixpoint strip_prefix (pre s : string) : option string :=
  match pre, s with
  | "", _ => Some s
  | String a pre, String b s => if Ascii.eqb a b then strip_prefix pre s else None
  | _, _ => None
  end.

(** ** Lemmas *)

Lemma string_app_assoc (a b c : string) : ((a ++ b) ++ c = a ++ (b ++ c))%string.
Proof. induction a as [|x a IH]; [done|]. exact (f_equal (String x) IH). Qed.
Lemma string_app_nil_r (a : string) : (a ++ "" = a)%string.
Proof. induction a as [|x a IH]; [done|]. exact (f_equal (String x) IH). Qed.

Lemma split_slash_nonempty s : split_slash s <> [].
Proof. destruct s as [|c s]; simpl; [done|]. destruct (Ascii.eqb c slash), (split_slash s); done. Qed.

Lemma join_split s : join_slash (split_slash s) = s.
Proof.
  induction s as [|c s IH]; [done|]. simpl.
  pose proof (split_slash_nonempty s) as Hne.
  destruct (Ascii.eqb_spec c slash) as [->|Hc].
  - destruct (split_slash s) as [|p ps]; [done|]. simpl in *. by rewrite <- IH.
  - destruct (split_slash s) as [|p [|q ps]]; [done| |]; simpl in *; by rewrite <- IH.
Qed.

Lemma join_snoc ps p : ps <> [] -> join_slash (ps ++ [p])%list = (join_slash ps ++ String slash p)%string.
Proof.
  induction ps as [|q [|r ps] IH]; intros H; [done|done|].
  change ((q :: r :: ps) ++ [p])%list with (q :: ((r :: ps) ++ [p])%list).
  assert (join_slash (q :: ((r :: ps) ++ [p])%list) = (q ++ String slash (join_slash ((r :: ps) ++ [p])%list))%string)
    as -> by (by destruct ps).
  rewrite IH by done. simpl. by rewrite string_app_assoc.
Qed.

Lemma removelast_last {A} (l : list A) (d : A) : l <> [] -> l = (removelast l ++ [List.last l d])%list.
Proof. apply app_removelast_last. Qed.

(** No part of a split path holds a separator. *)
Fixpoint no_slash (s : string) : bool :=
  match s with "" => true | String c s => negb (Ascii.eqb c slash) && no_slash s end.
Lemma split_no_slash s : Forall (fun p => no_slash p = true) (split_slash s).
Proof.
  induction s as [|c s IH]; simpl; [by repeat constructor|].
  destruct (Ascii.eqb c slash) eqn:Hc; [by constructor|].
  destruct (split_slash s) as [|p ps]; [constructor; [simpl; by rewrite Hc|constructor]|].
  inversion IH; subst. constructor; [simpl; by rewrite Hc|done].
Qed.

(** [TrimName] and [TrimPath] take a path apart without losing any of it: with
    backslashes read as slashes, the path is the one, a separator and the other,
    or the name alone where it has no separator; and the name holds none. *)
Theorem TrimName_TrimPath path :
  no_slash (TrimPath path) = true /\
  (normalize path = (TrimName path ++ String slash (TrimPath path))%string \/
   (normalize path = TrimPath path /\ TrimName path = "")).
Proof.
  unfold TrimPath, TrimName.
  pose proof (split_slash_nonempty (normalize path)) as Hne.
  pose proof (removelast_last _ "" Hne) as Hl. split.
  - pose proof (split_no_slash (normalize path)) as Hf. rewrite Hl in Hf.
    apply Forall_app in Hf as [_ Hf]. by inversion Hf.
  - pose proof (join_split (normalize path)) as Hj. rewrite Hl in Hj.
    destruct (removelast (split_slash (normalize path))) as [|q qs] eqn:Hr.
    + right. split; [by rewrite <- Hj at 1|done].
    + left. rewrite join_snoc in Hj by done. by rewrite Hj.
Qed.

(** A path the server acts on stays inside its share: a valid path is empty, or
    its components joined by slashes, none of them empty, ["."] or [".."]. *)
Theorem validPath_spec path :
  validPath path = true <->
  path = "" \/
  exists parts, path = join_slash parts /\ parts <> [] /\
    Forall (fun p => no_slash p = true /\ p <> "" /\ p <> "." /\ p <> "..") parts.
Proof.
  assert (forall parts, Forall (fun p => no_slash p = true) parts -> parts <> [] ->
    split_slash (join_slash parts) = parts) as Hsplit.
  { intros parts Hf. induction Hf as [|p parts Hp Hf IH]; [done|]. intros _.
    assert (forall t, split_slash (p ++ t) =
      match split_slash t with q :: qs => (p ++ q)%string :: qs | [] => [] end) as Hpre.
    { clear -Hp. induction p as [|c p IH]; intros t; simpl in *.
      - pose proof (split_slash_nonempty t). by destruct (split_slash t).
      - apply andb_prop in Hp as [Hc Hp]. apply negb_true_iff in Hc. rewrite Hc.
        rewrite IH by done. pose proof (split_slash_nonempty t). by destruct (split_slash t). }
    destruct parts as [|q parts].
    - simpl. rewrite <- (string_app_nil_r p) at 1. rewrite Hpre. simpl. by rewrite string_app_nil_r.
    - change (join_slash (p :: q :: parts))
        with (p ++ String slash (join_slash (q :: parts)))%string.
      rewrite Hpre.
      change (split_slash (String slash (join_slash (q :: parts))))
        with ("" :: split_slash (join_slash (q :: parts))).
      rewrite IH by done. by rewrite string_app_nil_r. }
  unfold validPath. destruct (String.eqb_spec path "") as [->|Hne]; [naive_solver|].
  split.
  - destruct (match path with String c _ => _ | "" => false end); [done|].
    intros Hf. right. exists (split_slash path).
    split_and!; [by rewrite join_split|apply split_slash_nonempty|].
    apply Forall_forall. intros p Hp.
    pose proof (split_no_slash path) as Hn. rewrite Forall_forall in Hn.
    rewrite forallb_forall in Hf. specialize (Hf p). rewrite <- list_elem_of_In in Hf.
    specialize (Hf Hp). apply negb_true_iff, orb_false_iff in Hf as [[H1 H2]%orb_false_iff H3].
    split_and!; [by apply Hn|by apply String.eqb_neq..].
  - intros [?|(parts & -> & Hp & Hf)]; [done|].
    assert (Forall (fun p => no_slash p = true) parts) as Hn.
    { eapply Forall_impl; [exact Hf|]. naive_solver. }
    assert (match join_slash parts with String c _ => Ascii.eqb c slash | "" => false end = false) as ->.
    { destruct Hf as [|p ps (H1 & H2 & _) _]; [done|].
      destruct p as [|c p]; [done|]. simpl in H1. apply andb_prop in H1 as [H1%negb_true_iff _].
      by destruct ps. }
    rewrite Hsplit by done. apply forallb_forall. intros p Hin%list_elem_of_In.
    rewrite Forall_forall in Hf. destruct (Hf p Hin) as (_ & H1 & H2 & H3).
    apply negb_true_iff, orb_false_iff. split; [apply orb_false_iff; split|];
      by apply String.eqb_neq.
Qed.

Lemma strip_prefix_Some pre s r : strip_prefix pre s = Some r <-> s = (pre ++ r)%string.
Proof.
  revert s. induction pre as [|a pre IH]; intros s; simpl.
  - split; [by intros [= ->]|by intros ->].
  - destruct s as [|b s]; [split; done|].
    destruct (Ascii.eqb_spec a b) as [->|Hn].
    + rewrite IH. split; [by intros ->|by intros [= ->]].
    + split; [done|]. intros [= ->]. done.
Qed.
