(* ===== verification/Listing.v ===== *)
(** Directory listings: the ten encoders of [smb2/query.go], [QueryDirectoryBuffer], and the
    search of [open.go] that hands its results out piece by piece.

    An encoder fills an entry in place and appends it; [encode] is the loop the ten have
    in common, told where the name goes and how the rest is filled in.  The hash of a key
    and the random file ID are arguments. *)
From Stdlib Require Import Ascii.
From S2P Require Import Prelude Bytes Smb2Const Utils Text Header Request Fields Paths.
Import Utils Text Header Request.

Module Listing.

(** Times are Unix seconds. *)
Record dirInfo := DirInfo {
  FileIndex : Z; CreationTime : Z; LastAccessTime : Z; LastWriteTime : Z; ChangeTime : Z; EndOfFile : Z; AllocationSize : Z;
  FileAttributes : Z; EaSize : Z; ReparsePointTag : Z; ShortName : string; FileID64 : Z; FileID128 : list Z; FileName : string;
}.

Definition encoded (name : string) : list Z := EncodeStringToBytes (runesOf name).

(** ** The encoders *)
Definition filler : Type := dirInfo -> list Z -> list Z -> list Z -> out (list Z).
Fixpoint encode (fixed : Z) (fill : filler) (info : list dirInfo) : out (list Z) :=
  match info with
  | [] => mret []
  | entry :: info =>
      let long := encoded (FileName entry) in
      let length := fixed + zlen long in
      let length := match info with [] => length | _ => Roundup length 8 end in
      let di := replicate (Z.to_nat length) 0 in
      di ← (match info with [] => mret di | _ => put_le di 0 4 length end);
      di ← fill entry (encoded (ShortName entry)) long di;
      rest ← encode fixed fill info;
      mret (di ++ rest)
  end.

(** The lines every encoder begins with. *)
Definition stamps (entry : dirInfo) (di : list Z) : out (list Z) :=
  di ← put_le di 4 4 (FileIndex entry);
  di ← put_le di 8 8 (UnixToFiletime (CreationTime entry));
  di ← put_le di 16 8 (UnixToFiletime (LastAccessTime entry));
  di ← put_le di 24 8 (UnixToFiletime (LastWriteTime entry));
  di ← put_le di 32 8 (UnixToFiletime (ChangeTime entry));
  di ← put_le di 40 8 (EndOfFile entry);
  di ← put_le di 48 8 (AllocationSize entry);
  di ← put_le di 56 4 (FileAttributes entry);
  mret di.

Definition fileDirInfo_fill : filler := fun entry _ long di =>
  di ← stamps entry di;
  di ← put_le di 60 4 (zlen long);
  di ← copy_at di 64 (64 + zlen long) long;
  mret di.
Definition fileBothDirInfo_fill : filler := fun entry short long di =>
  di ← stamps entry di;
  di ← put_le di 64 4 (EaSize entry);
  di ← store di 68 (u8 (zlen short));
  di ← copy_at di 70 94 short;
  di ← put_le di 60 4 (zlen long);
  di ← copy_at di 94 (94 + zlen long) long;
  mret di.
Definition fileIDBothDirInfo_fill : filler := fun entry short long di =>
  di ← stamps entry di;
  di ← put_le di 64 4 (EaSize entry);
  di ← put_le di 96 8 (FileID64 entry);
  di ← store di 68 (u8 (zlen short));
  di ← copy_at di 70 94 short;
  di ← put_le di 60 4 (zlen long);
  di ← copy_at di 104 (104 + zlen long) long;
  mret di.
Definition fileID64ExtdBothDirInfo_fill : filler := fun entry short long di =>
  di ← stamps entry di;
  di ← put_le di 64 4 (EaSize entry);
  di ← put_le di 68 4 (ReparsePointTag entry);
  di ← put_le di 72 8 (FileID64 entry);
  di ← store di 80 (u8 (zlen short));
  di ← copy_at di 82 106 short;
  di ← put_le di 60 4 (zlen long);
  di ← copy_at di 106 (106 + zlen long) long;
  mret di.
Definition fileFullDirInfo_fill : filler := fun entry _ long di =>
  di ← stamps entry di;
  di ← put_le di 60 4 (zlen long);
  di ← put_le di 64 4 (EaSize entry);
  di ← copy_at di 68 (68 + zlen long) long;
  mret di.
Definition fileIDFullDirInfo_fill : filler := fun entry _ name di =>
  di ← stamps entry di;
  di ← put_le di 60 4 (zlen name);
  di ← put_le di 64 4 (EaSize entry);
  di ← put_le di 72 8 (FileID64 entry);
  di ← copy_at di 80 (80 + zlen name) name;
  mret di.
Definition fileIDExtdDirInfo_fill : filler := fun entry _ name di =>
  di ← stamps entry di;
  di ← put_le di 60 4 (zlen name);
  di ← put_le di 64 4 (EaSize entry);
  di ← put_le di 68 4 (ReparsePointTag entry);
  di ← copy_at di 72 88 (FileID128 entry);
  di ← copy_at di 88 (88 + zlen name) name;
  mret di.
Definition fileID64ExtdDirInfo_fill : filler := fun entry _ name di =>
  di ← stamps entry di;
  di ← put_le di 60 4 (zlen name);
  di ← put_le di 64 4 (EaSize entry);
  di ← put_le di 68 4 (ReparsePointTag entry);
  di ← put_le di 72 8 (FileID64 entry);
  di ← copy_at di 80 (80 + zlen name) name;
  mret di.
Definition fileIDAllExtdDirInfo_fill : filler := fun entry _ name di =>
  di ← stamps entry di;
  di ← put_le di 64 4 (EaSize entry);
  di ← put_le di 68 4 (ReparsePointTag entry);
  di ← put_le di 72 8 (FileID64 entry);
  di ← copy_at di 80 96 (FileID128 entry);
  di ← put_le di 60 4 (zlen name);
  di ← copy_at di 96 (96 + zlen name) name;
  mret di.
Definition fileIDAllExtdBothDirInfo_fill : filler := fun entry short long di =>
  di ← stamps entry di;
  di ← put_le di 64 4 (EaSize entry);
  di ← put_le di 68 4 (ReparsePointTag entry);
  di ← put_le di 72 8 (FileID64 entry);
  di ← copy_at di 80 96 (FileID128 entry);
  di ← store di 96 (u8 (zlen short));
  di ← copy_at di 98 122 short;
  di ← put_le di 60 4 (zlen long);
  di ← copy_at di 122 (122 + zlen long) long;
  mret di.

Definition fileDirInfo := encode 64 fileDirInfo_fill.
Definition fileBothDirInfo := encode 94 fileBothDirInfo_fill.
Definition fileIDBothDirInfo := encode 104 fileIDBothDirInfo_fill.
Definition fileID64ExtdBothDirInfo := encode 106 fileID64ExtdBothDirInfo_fill.
Definition fileFullDirInfo := encode 68 fileFullDirInfo_fill.
Definition fileIDFullDirInfo := encode 80 fileIDFullDirInfo_fill.
Definition fileIDExtdDirInfo := encode 88 fileIDExtdDirInfo_fill.
Definition fileID64ExtdDirInfo := encode 80 fileID64ExtdDirInfo_fill.
Definition fileIDAllExtdDirInfo := encode 96 fileIDAllExtdDirInfo_fill.
Definition fileIDAllExtdBothDirInfo := encode 122 fileIDAllExtdBothDirInfo_fill.

(** ** [QueryDirectoryBuffer] *)
Definition dirInfoFixedSize (class : Z) : option Z :=
  if class =? FILE_DIRECTORY_INFORMATION then Some 64
  else if class =? FILE_FULL_DIRECTORY_INFORMATION then Some 68
  else if (class =? FILE_ID_FULL_DIRECTORY_INFORMATION) || (class =? FILE_ID_64_EXTD_DIRECTORY_INFORMATION) then Some 80
  else if class =? FILE_ID_EXTD_DIRECTORY_INFORMATION then Some 88
  else if class =? FILE_BOTH_DIRECTORY_INFORMATION then Some 94
  else if class =? FILE_ID_ALL_EXTD_DIRECTORY_INFORMATION then Some 96
  else if class =? FILE_ID_BOTH_DIRECTORY_INFORMATION then Some 104
  else if class =? FILE_ID_64_EXTD_BOTH_DIRECTORY_INFORMATION then Some 106
  else if class =? FILE_ID_ALL_EXTD_BOTH_DIRECTORY_INFORMATION then Some 122
  else None.
Definition encoder (class : Z) : option (list dirInfo -> out (list Z)) :=
  if class =? FILE_BOTH_DIRECTORY_INFORMATION then Some fileBothDirInfo
  else if class =? FILE_DIRECTORY_INFORMATION then Some fileDirInfo
  else if class =? FILE_ID_64_EXTD_BOTH_DIRECTORY_INFORMATION then Some fileID64ExtdBothDirInfo
  else if class =? FILE_ID_64_EXTD_DIRECTORY_INFORMATION then Some fileID64ExtdDirInfo
  else if class =? FILE_ID_ALL_EXTD_BOTH_DIRECTORY_INFORMATION then Some fileIDAllExtdBothDirInfo
  else if class =? FILE_ID_ALL_EXTD_DIRECTORY_INFORMATION then Some fileIDAllExtdDirInfo
  else if class =? FILE_ID_BOTH_DIRECTORY_INFORMATION then Some fileIDBothDirInfo
  else if class =? FILE_ID_EXTD_DIRECTORY_INFORMATION then Some fileIDExtdDirInfo
  else if class =? FILE_ID_FULL_DIRECTORY_INFORMATION then Some fileIDFullDirInfo
  else if class =? FILE_FULL_DIRECTORY_INFORMATION then Some fileFullDirInfo
  else None.

Record ObjectInfo := Object_ { Key : string; CreatedAt : Z; ModifiedAt : Z; Size : Z }.
Record FileInfo := FileInfo_ { ID64 : Z; ID : list Z; fi_CreatedAt : Z; fi_ModifiedAt : Z }.

Definition entrySize (fixed : Z) (name : string) : Z := u32 (Roundup (fixed + Z.of_nat (String.length name) * 2) 8).
Definition dotEntry (name : string) (dir : FileInfo) : dirInfo :=
  DirInfo 0 (fi_CreatedAt dir) (fi_ModifiedAt dir) (fi_ModifiedAt dir) (fi_ModifiedAt dir) 0 0 FILE_ATTRIBUTE_DIRECTORY 0 0 "" (ID64 dir) (ID dir) name.

Section listing.
(** [blake2b.Sum256] and [frand.Read]. *)
Context (sum256 : list Z -> list Z) (random16 : string -> list Z).

Definition hiddenName (name : string) : bool := match name with String c _ => Ascii.eqb c "."%char | "" => false end.
Definition objectEntry (entry : ObjectInfo) : dirInfo :=
  let '(_, name, isDir) := ExtractFilename (Key entry) in
  let size := if isDir then 0 else Size entry in
  let attributes := if isDir then FILE_ATTRIBUTE_DIRECTORY else FILE_ATTRIBUTE_NORMAL in
  let attributes := if hiddenName name then (attributes .| FILE_ATTRIBUTE_HIDDEN) &^ FILE_ATTRIBUTE_NORMAL else attributes in
  DirInfo 0 (CreatedAt entry) (ModifiedAt entry) (ModifiedAt entry) (ModifiedAt entry) size size attributes 0 0 ""
    (le_dec (take 8 (sum256 (bytesOf (Key entry))))) (random16 (Key entry)) name.
Definition nameOf (entry : ObjectInfo) : string := let '(_, name, _) := ExtractFilename (Key entry) in name.

Fixpoint collect (fixed bufSize : Z) (single : bool) (entries : list ObjectInfo) (size : Z) : list dirInfo :=
  match entries with
  | [] => []
  | entry :: entries =>
      let length := entrySize fixed (nameOf entry) in
      if u32 (size + length) >? bufSize then []
      else objectEntry entry :: (if single then [] else collect fixed bufSize single entries (u32 (size + length)))
  end.
Definition QueryDirectoryBuffer (class : Z) (entries : list ObjectInfo) (bufSize : Z) (single root : bool) (dir parent : FileInfo) : out (list Z * nat) :=
  match dirInfoFixedSize class with
  | None => mret ([], O)
  | Some fixed =>
      let size := if root then u32 (entrySize fixed "." + entrySize fixed "..") else 0 in
      if root && (bufSize <? size) then mret ([], O)
      else
        let dots := if root then [dotEntry "." dir; dotEntry ".." parent] else [] in
        let info := collect fixed bufSize single entries size in
        match encoder class with
        | Some enc => buf ← enc (dots ++ info); mret (buf, length info)
        | None => mret ([], length info)
        end
  end.

(** [takeSearchResults]: the answer, and what the open keeps for the next one. *)
Definition takeSearchResults (class bufSize : Z) (single root : bool) (dir parent : FileInfo) (searchResults : list ObjectInfo) : out (list Z * list ObjectInfo) :=
  r ← QueryDirectoryBuffer class searchResults bufSize single root dir parent;
  rest ← slice searchResults (Z.of_nat r.2) (zlen searchResults);
  mret (r.1, rest).
End listing.

(** ** What a client reads

    Where [MS-FSCC] puts the fields of an entry of each class. *)
Record layout := Layout { nameAt : Z; eaAt : option Z; reparseAt : option Z; id64At : option Z; id128At : option Z; shortAt : option Z }.
Definition layoutOf (class : Z) : option layout :=
  if class =? FILE_DIRECTORY_INFORMATION then Some (Layout 64 None None None None None)
  else if class =? FILE_FULL_DIRECTORY_INFORMATION then Some (Layout 68 (Some 64) None None None None)
  else if class =? FILE_ID_FULL_DIRECTORY_INFORMATION then Some (Layout 80 (Some 64) None (Some 72) None None)
  else if class =? FILE_ID_64_EXTD_DIRECTORY_INFORMATION then Some (Layout 80 (Some 64) (Some 68) (Some 72) None None)
  else if class =? FILE_ID_EXTD_DIRECTORY_INFORMATION then Some (Layout 88 (Some 64) (Some 68) None (Some 72) None)
  else if class =? FILE_BOTH_DIRECTORY_INFORMATION then Some (Layout 94 (Some 64) None None None (Some 68))
  else if class =? FILE_ID_ALL_EXTD_DIRECTORY_INFORMATION then Some (Layout 96 (Some 64) (Some 68) (Some 72) (Some 80) None)
  else if class =? FILE_ID_BOTH_DIRECTORY_INFORMATION then Some (Layout 104 (Some 64) None (Some 96) None (Some 68))
  else if class =? FILE_ID_64_EXTD_BOTH_DIRECTORY_INFORMATION then Some (Layout 106 (Some 64) (Some 68) (Some 72) None (Some 80))
  else if class =? FILE_ID_ALL_EXTD_BOTH_DIRECTORY_INFORMATION then Some (Layout 122 (Some 64) (Some 68) (Some 72) (Some 80) (Some 96))
  else None.

Record listed := Listed {
  l_index : Z; l_created : Z; l_accessed : Z; l_written : Z; l_changed : Z; l_size : Z; l_allocated : Z; l_attributes : Z;
  l_ea : option Z; l_reparse : option Z; l_id64 : option Z; l_id128 : option (list Z); l_short : option Z; l_name : list Z;
}.
Definition optional {A} (read : Z -> out A) (at_ : option Z) : out (option A) :=
  match at_ with None => mret None | Some o => x ← read o; mret (Some x) end.
Definition readEntry (L : layout) (d : list Z) : out listed :=
  index ← get_le d 4 4; created ← get_le d 8 8; accessed ← get_le d 16 8; written ← get_le d 24 8; changed ← get_le d 32 8;
  size ← get_le d 40 8; allocated ← get_le d 48 8; attributes ← get_le d 56 4; length ← get_le d 60 4;
  ea ← optional (fun o => get_le d o 4) (eaAt L);
  reparse ← optional (fun o => get_le d o 4) (reparseAt L);
  id64 ← optional (fun o => get_le d o 8) (id64At L);
  id128 ← optional (fun o => slice d o (o + 16)) (id128At L);
  short ← optional (fun o => get_le d o 1) (shortAt L);
  name ← slice d (nameAt L) (nameAt L + length);
  mret (Listed index created accessed written changed size allocated attributes ea reparse id64 id128 short name).
(** From entry to entry by the offset each begins with. *)
Fixpoint readListing (fuel : nat) (L : layout) (d : list Z) : out (list listed) :=
  match fuel with
  | O => Stuck
  | S fuel =>
      e ← readEntry L d;
      next ← get_le d 0 4;
      if next =? 0 then mret [e]
      else rest ← slice d next (zlen d); es ← readListing fuel L rest; mret (e :: es)
  end.

(** What is to be read of an entry. *)
Definition given {A} (a : A) (at_ : option Z) : option A := (fun _ => a) <$> at_.
Definition seen (L : layout) (e : dirInfo) : listed :=
  Listed (FileIndex e) (UnixToFiletime (CreationTime e)) (UnixToFiletime (LastAccessTime e)) (UnixToFiletime (LastWriteTime e))
    (UnixToFiletime (ChangeTime e)) (EndOfFile e) (AllocationSize e) (FileAttributes e)
    (given (EaSize e) (eaAt L)) (given (ReparsePointTag e) (reparseAt L)) (given (FileID64 e) (id64At L)) (given (FileID128 e) (id128At L))
    (given (zlen (encoded (ShortName e))) (shortAt L)) (encoded (FileName e)).
(** The fields of an entry are words of their widths, and the names are not absurdly long. *)
Record wellTyped (e : dirInfo) : Prop := WellTyped {
  t_index : 0 <= FileIndex e < 2 ^ 32; t_eof : 0 <= EndOfFile e < 2 ^ 64; t_alloc : 0 <= AllocationSize e < 2 ^ 64;
  t_attr : 0 <= FileAttributes e < 2 ^ 32; t_ea : 0 <= EaSize e < 2 ^ 32; t_reparse : 0 <= ReparsePointTag e < 2 ^ 32;
  t_id64 : 0 <= FileID64 e < 2 ^ 64; t_id128 : length (FileID128 e) = 16%nat;
  t_short : (String.length (ShortName e) <= 12)%nat; t_name : Z.of_nat (String.length (FileName e)) < 2 ^ 30;
}.
Lemma Filetime_u64 t : 0 <= UnixToFiletime t < 2 ^ 64.
Proof. unfold UnixToFiletime. cbv zeta. destruct (_ <=? 0); [lia|]. unfold u64. apply Z.mod_pos_bound. lia. Qed.

(** *** The fields an encoder lays out *)
Definition optionField (n : nat) (v : Z) (at_ : option Z) : list slot := match at_ with Some o => [(o, le_enc n v)] | None => [] end.
Definition fieldsOf (L : layout) (e : dirInfo) (short long : list Z) : list slot :=
  [(4, le_enc 4 (FileIndex e)); (8, le_enc 8 (UnixToFiletime (CreationTime e))); (16, le_enc 8 (UnixToFiletime (LastAccessTime e)));
   (24, le_enc 8 (UnixToFiletime (LastWriteTime e))); (32, le_enc 8 (UnixToFiletime (ChangeTime e))); (40, le_enc 8 (EndOfFile e));
   (48, le_enc 8 (AllocationSize e)); (56, le_enc 4 (FileAttributes e)); (60, le_enc 4 (zlen long)); (nameAt L, long)] ++
  optionField 4 (EaSize e) (eaAt L) ++ optionField 4 (ReparsePointTag e) (reparseAt L) ++ optionField 8 (FileID64 e) (id64At L) ++
  (match id128At L with Some o => [(o, FileID128 e)] | None => [] end) ++ (match shortAt L with Some o => [(o, [u8 (zlen short)])] | None => [] end).

Record laidOut (L : layout) (e : dirInfo) (short long : list Z) (n : Z) (ws : list slot) : Prop := LaidOut {
  lo_fields : incl (fieldsOf L e short long) ws; lo_clear : ForallOrdPairs clear ws; lo_fits : Forall (fun w => 4 <= w.1 /\ fitsIn n w) ws;
}.
Definition lays (L : layout) (fill : filler) : Prop :=
  forall e short long di, length (FileID128 e) = 16%nat -> nameAt L + zlen long <= zlen di ->
    exists ws, fill e short long di = layOut ws di /\ laidOut L e short long (zlen di) ws.

Lemma zlen_take_bound (b : list Z) (n : nat) : 0 <= zlen (take n b) <= Z.of_nat n.
Proof. unfold zlen. rewrite length_take. lia. Qed.
Lemma take_name (l : list Z) o : take (Z.to_nat (o + zlen l - o)) l = l.
Proof. apply take_ge. unfold zlen. lia. Qed.
Lemma take_id (l : list Z) i j : length l = Z.to_nat (j - i) -> take (Z.to_nat (j - i)) l = l.
Proof. intros H. apply take_ge. lia. Qed.

Ltac field_bounds :=
  repeat match goal with |- context [zlen (take ?n ?b)] => lazymatch goal with _ : 0 <= zlen (take n b) <= _ |- _ => fail | _ => pose proof (zlen_take_bound b n) end end;
  repeat match goal with |- context [zlen ?b] => lazymatch b with take _ _ => fail | _ => lazymatch goal with _ : 0 <= zlen b |- _ => fail | _ => pose proof (zlen_nonneg b) end end end;
  lia.
Ltac lays_fill fill :=
  intros e short long di Hid Hn; unfold fill, stamps; simpl nameAt in Hn; pose proof (zlen_nonneg long);
  eexists; split; [lay_out|]; rewrite ?take_name, ?(take_id (FileID128 e)) by (rewrite Hid; reflexivity);
  assert (zlen (FileID128 e) = 16) by (unfold zlen; lia);
  split; [intros w Hw; simpl in Hw |- *; tauto| |];
  [repeat (first [apply FOP_cons; [repeat (apply List.Forall_cons; [unfold clear; cbn [fst snd]; rewrite ?zlen_le_enc; change (zlen [?x]) with 1; field_bounds|]); apply List.Forall_nil|] | apply FOP_nil])
  |repeat (apply List.Forall_cons; [unfold fitsIn; cbn [fst snd]; rewrite ?zlen_le_enc; change (zlen [?x]) with 1; field_bounds|]); apply List.Forall_nil].
(** Each encoder lays its entry out as its class has it. *)
Lemma lays_Dir : lays (Layout 64 None None None None None) fileDirInfo_fill.
Proof. lays_fill fileDirInfo_fill. Qed.
Lemma lays_FullDir : lays (Layout 68 (Some 64) None None None None) fileFullDirInfo_fill.
Proof. lays_fill fileFullDirInfo_fill. Qed.
Lemma lays_IDFullDir : lays (Layout 80 (Some 64) None (Some 72) None None) fileIDFullDirInfo_fill.
Proof. lays_fill fileIDFullDirInfo_fill. Qed.
Lemma lays_ID64ExtdDir : lays (Layout 80 (Some 64) (Some 68) (Some 72) None None) fileID64ExtdDirInfo_fill.
Proof. lays_fill fileID64ExtdDirInfo_fill. Qed.
Lemma lays_IDExtdDir : lays (Layout 88 (Some 64) (Some 68) None (Some 72) None) fileIDExtdDirInfo_fill.
Proof. lays_fill fileIDExtdDirInfo_fill. Qed.
Lemma lays_BothDir : lays (Layout 94 (Some 64) None None None (Some 68)) fileBothDirInfo_fill.
Proof. lays_fill fileBothDirInfo_fill. Qed.
Lemma lays_IDAllExtdDir : lays (Layout 96 (Some 64) (Some 68) (Some 72) (Some 80) None) fileIDAllExtdDirInfo_fill.
Proof. lays_fill fileIDAllExtdDirInfo_fill. Qed.
Lemma lays_IDBothDir : lays (Layout 104 (Some 64) None (Some 96) None (Some 68)) fileIDBothDirInfo_fill.
Proof. lays_fill fileIDBothDirInfo_fill. Qed.
Lemma lays_ID64ExtdBothDir : lays (Layout 106 (Some 64) (Some 68) (Some 72) None (Some 80)) fileID64ExtdBothDirInfo_fill.
Proof. lays_fill fileID64ExtdBothDirInfo_fill. Qed.
Lemma lays_IDAllExtdBothDir : lays (Layout 122 (Some 64) (Some 68) (Some 72) (Some 80) (Some 96)) fileIDAllExtdBothDirInfo_fill.
Proof. lays_fill fileIDAllExtdBothDirInfo_fill. Qed.
#[local] Hint Resolve lays_Dir lays_FullDir lays_IDFullDir lays_ID64ExtdDir lays_IDExtdDir lays_BothDir lays_IDAllExtdDir lays_IDBothDir
  lays_ID64ExtdBothDir lays_IDAllExtdBothDir : smb.

(** The three tables agree: a class that has a size has a layout and an encoder to it. *)
Lemma classes_agree class fixed : dirInfoFixedSize class = Some fixed ->
  exists L fill, layoutOf class = Some L /\ nameAt L = fixed /\ 64 <= fixed <= 122 /\ encoder class = Some (encode fixed fill) /\ lays L fill.
Proof.
  unfold dirInfoFixedSize, layoutOf, encoder.
  repeat match goal with |- context [class =? ?k] => destruct (Z.eqb_spec class k) as [->|]; simpl end;
    intros [= <-]; eexists _, _; (split; [reflexivity|]); (split; [reflexivity|]); (split; [lia|]); (split; [reflexivity|]); auto with smb.
Qed.

Lemma layout_sized class L : layoutOf class = Some L -> exists fixed, dirInfoFixedSize class = Some fixed.
Proof.
  unfold layoutOf, dirInfoFixedSize. repeat match goal with |- context [class =? ?k] => destruct (Z.eqb_spec class k) as [->|]; simpl end; eauto; discriminate.
Qed.

(** *** An entry read back *)
Section entry.
Context (ws : list slot) (di0 di rest : list Z).
Hypothesis laid : layOut ws di0 = Ok di.
Hypothesis apart_ : ForallOrdPairs clear ws.
Hypothesis inside : Forall (fun w => 4 <= w.1 /\ fitsIn (zlen di0) w) ws.

Lemma read_bytes o b : In (o, b) ws -> @slice smbErr _ (di ++ rest) o (o + zlen b) = Ok b.
Proof using laid apart_ inside.
  intros Hin. destruct (proj1 (List.Forall_forall _ _) inside _ Hin) as [_ [Ho Hb]]. simpl in *. pose proof (zlen_layOut _ _ _ laid) as Hl. pose proof (zlen_nonneg b).
  pose proof (zlen_nonneg rest). rewrite slice_Ok by (rewrite ?zlen_app; lia). f_equal. rewrite <- (layOut_reads ws di0 di o b laid apart_ Hin) at 2.
  unfold sub, zlen in *. rewrite drop_app_le by lia. apply take_app_le. rewrite length_drop. lia.
Qed.
Lemma read_word o n v : In (o, le_enc n v) ws -> 0 <= v < 2 ^ (8 * Z.of_nat n) -> @get_le smbErr (di ++ rest) o (Z.of_nat n) = Ok v.
Proof using laid apart_ inside.
  intros Hin Hv. unfold get_le. pose proof (read_bytes o _ Hin) as Hr. rewrite zlen_le_enc in Hr. rewrite Hr. run_bind.
  unfold mret, outcome_ret. by rewrite le_dec_enc_small.
Qed.
End entry.

Lemma In_optionField n v o (at_ : option Z) : at_ = Some o -> In (o, le_enc n v) (optionField n v at_).
Proof. intros ->. by left. Qed.
Lemma le_enc_1 v : 0 <= v < 256 -> le_enc 1 v = [v].
Proof. intros. simpl. by rewrite land_255, Z.mod_small. Qed.

Lemma readEntry_seen L e ws di0 di rest : wellTyped e -> layOut ws di0 = Ok di ->
  laidOut L e (encoded (ShortName e)) (encoded (FileName e)) (zlen di0) ws -> readEntry L (di ++ rest) = Ok (seen L e).
Proof.
  intros [T1 T2 T3 T4 T5 T6 T7 T8 T9 T10] Hl [Hf Hc Hi]. pose proof (encoded_name_size (FileName e)) as Hn. fold (encoded (FileName e)) in Hn.
  pose proof (encoded_name_size (ShortName e)) as Hs. fold (encoded (ShortName e)) in Hs. pose proof (zlen_nonneg (encoded (FileName e))). pose proof (zlen_nonneg (encoded (ShortName e))).
  assert (forall o n v, In (o, le_enc n v) (fieldsOf L e (encoded (ShortName e)) (encoded (FileName e))) -> 0 <= v < 2 ^ (8 * Z.of_nat n) ->
    @get_le smbErr (di ++ rest) o (Z.of_nat n) = Ok v) as W.
  { intros o n v Hin Hv. by apply (read_word ws di0 di rest Hl Hc Hi); [apply Hf|]. }
  assert (forall o b, In (o, b) (fieldsOf L e (encoded (ShortName e)) (encoded (FileName e))) -> @slice smbErr _ (di ++ rest) o (o + zlen b) = Ok b) as B.
  { intros o b Hin. apply (read_bytes ws di0 di rest Hl Hc Hi). by apply Hf. }
  set (d := di ++ rest) in *. unfold readEntry.
  rewrite (W 4 4%nat (FileIndex e) ltac:(simpl; tauto) ltac:(lia) : get_le d 4 4 = _). run_bind.
  rewrite (W 8 8%nat _ ltac:(simpl; tauto) ltac:(apply Filetime_u64) : get_le d 8 8 = Ok (UnixToFiletime (CreationTime e))). run_bind.
  rewrite (W 16 8%nat _ ltac:(simpl; tauto) ltac:(apply Filetime_u64) : get_le d 16 8 = Ok (UnixToFiletime (LastAccessTime e))). run_bind.
  rewrite (W 24 8%nat _ ltac:(simpl; tauto) ltac:(apply Filetime_u64) : get_le d 24 8 = Ok (UnixToFiletime (LastWriteTime e))). run_bind.
  rewrite (W 32 8%nat _ ltac:(simpl; tauto) ltac:(apply Filetime_u64) : get_le d 32 8 = Ok (UnixToFiletime (ChangeTime e))). run_bind.
  rewrite (W 40 8%nat (EndOfFile e) ltac:(simpl; tauto) ltac:(lia) : get_le d 40 8 = _). run_bind.
  rewrite (W 48 8%nat (AllocationSize e) ltac:(simpl; tauto) ltac:(lia) : get_le d 48 8 = _). run_bind.
  rewrite (W 56 4%nat (FileAttributes e) ltac:(simpl; tauto) ltac:(lia) : get_le d 56 4 = _). run_bind.
  rewrite (W 60 4%nat (zlen (encoded (FileName e))) ltac:(simpl; tauto) ltac:(lia) : get_le d 60 4 = _). run_bind.
  assert (optional (fun o => get_le d o 4) (eaAt L) = Ok (given (EaSize e) (eaAt L))) as ->.
  { destruct (eaAt L) as [o|] eqn:E; [|done]. simpl. assert (get_le d o 4 = Ok (EaSize e)) as ->; [apply (W o 4%nat); [|lia]|done].
    unfold fieldsOf. rewrite !in_app_iff. right. left. by apply In_optionField. }
  run_bind. assert (optional (fun o => get_le d o 4) (reparseAt L) = Ok (given (ReparsePointTag e) (reparseAt L))) as ->.
  { destruct (reparseAt L) as [o|] eqn:E; [|done]. simpl. assert (get_le d o 4 = Ok (ReparsePointTag e)) as ->; [apply (W o 4%nat); [|lia]|done].
    unfold fieldsOf. rewrite !in_app_iff. do 2 right. left. by apply In_optionField. }
  run_bind. assert (optional (fun o => get_le d o 8) (id64At L) = Ok (given (FileID64 e) (id64At L))) as ->.
  { destruct (id64At L) as [o|] eqn:E; [|done]. simpl. assert (get_le d o 8 = Ok (FileID64 e)) as ->; [apply (W o 8%nat); [|lia]|done].
    unfold fieldsOf. rewrite !in_app_iff. do 3 right. left. by apply In_optionField. }
  run_bind. assert (optional (fun o => slice d o (o + 16)) (id128At L) = Ok (given (FileID128 e) (id128At L))) as ->.
  { destruct (id128At L) as [o|] eqn:E; [|done]. simpl. pose proof (B o (FileID128 e)) as Hb. replace (zlen (FileID128 e)) with 16 in Hb by (unfold zlen; lia).
    rewrite Hb; [done|]. unfold fieldsOf. rewrite E, !in_app_iff. simpl. tauto. }
  run_bind. assert (optional (fun o => get_le d o 1) (shortAt L) = Ok (given (zlen (encoded (ShortName e))) (shortAt L))) as ->.
  { destruct (shortAt L) as [o|] eqn:E; [|done]. simpl. assert (get_le d o 1 = Ok (zlen (encoded (ShortName e)))) as ->; [apply (W o 1%nat); [|lia]|done].
    rewrite le_enc_1 by lia. unfold fieldsOf. rewrite E, !in_app_iff. unfold u8. rewrite Z.mod_small by lia. simpl. tauto. }
  run_bind. rewrite B by (simpl; tauto). done.
Qed.

(** *** A listing read back *)
Lemma Roundup_8_is x : Roundup x 8 = (x + 7) / 8 * 8.
Proof. unfold Roundup. change (8 - 1) with (Z.ones 3). rewrite Z.ldiff_ones_r by lia. rewrite Z.shiftl_mul_pow2, Z.shiftr_div_pow2 by lia. done. Qed.
Lemma Roundup_8_mono x y : x <= y -> Roundup x 8 <= Roundup y 8.
Proof. intros. rewrite !Roundup_8_is. apply Z.mul_le_mono_nonneg_r; [lia|]. apply Z.div_le_mono; lia. Qed.
Lemma offset_kept ws di0 di rest : layOut ws di0 = Ok di -> 4 <= zlen di0 -> Forall (fun w => 4 <= w.1 /\ fitsIn (zlen di0) w) ws ->
  @get_le smbErr (di ++ rest) 0 4 = get_le di0 0 4.
Proof.
  intros Hl H4 Hi. pose proof (zlen_layOut _ _ _ Hl). rewrite get_le_app_l by lia. rewrite !get_le_Ok by lia. do 2 f_equal.
  apply (layOut_keeps_sub ws di0 di 0 (0 + 4) Hl); [lia|lia|]. eapply Forall_impl; [exact Hi|]. intros w [? _]. left. lia.
Qed.
Lemma zlen_replicate_Z (n : Z) (x : Z) : 0 <= n -> zlen (replicate (Z.to_nat n) x) = n.
Proof. intros. unfold zlen. rewrite length_replicate. lia. Qed.
Lemma slice_behind (di rest : list Z) : @slice smbErr _ (di ++ rest) (zlen di) (zlen (di ++ rest)) = Ok rest.
Proof.
  rewrite zlen_app. pose proof (zlen_nonneg di). pose proof (zlen_nonneg rest). rewrite slice_Ok by (rewrite ?zlen_app; lia). f_equal.
  unfold sub, zlen. rewrite Nat2Z.id, drop_app_length. apply take_ge. lia.
Qed.

Definition budget (fixed : Z) (info : list dirInfo) : Z :=
  foldr (fun e n => Roundup (fixed + Z.of_nat (String.length (FileName e)) * 2) 8 + n) 0 info.

Lemma encode_reads L fill info : lays L fill -> 64 <= nameAt L <= 122 -> info <> [] -> Forall wellTyped info ->
  exists buf, encode (nameAt L) fill info = Ok buf /\ zlen buf <= budget (nameAt L) info /\
    forall fuel, (length info <= fuel)%nat -> readListing fuel L buf = Ok (map (seen L) info).
Proof.
  intros HL Hat. induction info as [|e info IH]; intros Hne Ht; [done|]. clear Hne. apply Forall_cons in Ht as [He Ht].
  cbn [encode budget foldr]. fold (budget (nameAt L) info). set (long := encoded (FileName e)). cbv zeta.
  pose proof (encoded_name_size (FileName e)) as Hsz. fold (encoded (FileName e)) in Hsz. fold long in Hsz. pose proof (zlen_nonneg long).
  pose proof (t_name e He) as Hn. destruct (Roundup_8 (nameAt L + zlen long)) as [Hr _]; [lia|].
  pose proof (Roundup_8_mono (nameAt L + zlen long) (nameAt L + Z.of_nat (String.length (FileName e)) * 2) ltac:(lia)) as Hm.
  destruct info as [|e' info].
  - clear IH. rewrite bind_mret. set (di0 := replicate _ 0). assert (zlen di0 = nameAt L + zlen long) as L0 by (apply zlen_replicate_Z; lia).
    destruct (HL e (encoded (ShortName e)) long di0 (t_id128 e He) ltac:(lia)) as (ws & -> & Hlo). destruct (layOut_Ok ws di0) as (di & Hd & Ld).
    { eapply Forall_impl; [exact (lo_fits _ _ _ _ _ _ Hlo)|]. by intros w [_ ?]. }
    rewrite Hd. run_bind. cbn [encode]. rewrite bind_mret, app_nil_r. exists di. split; [done|]. split; [simpl; lia|].
    intros [|fuel] Hf; [simpl in Hf; lia|]. cbn [readListing]. rewrite <- (app_nil_r di). rewrite (readEntry_seen L e ws di0 di [] He Hd Hlo). run_bind.
    rewrite (offset_kept ws di0 di [] Hd) by (lia || exact (lo_fits _ _ _ _ _ _ Hlo)). rewrite get_le_Ok by lia.
    assert (sub di0 0 (0 + 4) = [0; 0; 0; 0]) as ->; [|done]. unfold sub, di0. change (Z.to_nat 0) with 0%nat. change (Z.to_nat (0 + 4 - 0)) with 4%nat. rewrite drop_0, take_replicate.
    by rewrite Nat.min_l by lia.
  - destruct (IH ltac:(done) Ht) as (buf & Hb & Lb & Hread). clear IH. set (len := Roundup (nameAt L + zlen long) 8) in *.
    set (z := replicate _ 0). assert (zlen z = len) as Lz by (apply zlen_replicate_Z; lia).
    destruct (put_le_Ok (E:=smbErr) z 0 4 len) as [di0 H0]; [lia..|]. rewrite H0. run_bind. pose proof (zlen_put_le _ _ _ _ _ H0) as L0.
    destruct (HL e (encoded (ShortName e)) long di0 (t_id128 e He) ltac:(lia)) as (ws & -> & Hlo). destruct (layOut_Ok ws di0) as (di & Hd & Ld).
    { eapply Forall_impl; [exact (lo_fits _ _ _ _ _ _ Hlo)|]. by intros w [_ ?]. }
    rewrite Hd. run_bind. rewrite Hb. run_bind. exists (di ++ buf). split; [done|]. split; [rewrite zlen_app; lia|].
    intros [|fuel] Hf; [simpl in Hf; lia|]. cbn [readListing]. rewrite (readEntry_seen L e ws di0 di buf He Hd Hlo). run_bind.
    rewrite (offset_kept ws di0 di buf Hd) by (lia || exact (lo_fits _ _ _ _ _ _ Hlo)). rewrite (get_put_same _ _ _ _ _ H0). run_bind.
    rewrite Z.mod_small by lia. destruct (Z.eqb_spec len 0); [lia|]. replace len with (zlen di) by lia. rewrite slice_behind. run_bind.
    rewrite Hread by (simpl in *; lia). done.
Qed.

(** ** What a query answers with *)
Section query.
Context (sum256 : list Z -> list Z) (random16 : string -> list Z).
(** The hash gives at least eight bytes, the generator sixteen. *)
Class DigestOk : Prop := { digest_bytes : forall m, bytes (sum256 m); digest_long : forall m, (8 <= length (sum256 m))%nat; random_16 : forall k, length (random16 k) = 16%nat }.
Context {digest_ok : DigestOk}.

Definition sizedObject (o : ObjectInfo) : Prop := 0 <= Size o < 2 ^ 64 /\ Z.of_nat (String.length (nameOf o)) < 2 ^ 28.
Definition sizedFile (f : FileInfo) : Prop := 0 <= ID64 f < 2 ^ 64 /\ length (ID f) = 16%nat.

Lemma name_objectEntry o : FileName (objectEntry sum256 random16 o) = nameOf o.
Proof. unfold objectEntry, nameOf. by destruct (ExtractFilename (Key o)) as [[? ?] ?]. Qed.
Lemma objectEntry_typed o : sizedObject o -> wellTyped (objectEntry sum256 random16 o).
Proof using digest_ok.
  intros [Hs Hn]. pose proof (name_objectEntry o) as Hname. revert Hname. unfold objectEntry. destruct (ExtractFilename (Key o)) as [[? name] isDir].
  intros Hname. simpl in Hname. subst name.
  assert (0 <= le_dec (take 8 (sum256 (bytesOf (Key o)))) < 2 ^ 64) as Hid.
  { pose proof (digest_long (bytesOf (Key o))). pose proof (le_dec_bound (take 8 (sum256 (bytesOf (Key o)))) (Forall_take _ _ _ (digest_bytes (bytesOf (Key o))))) as Hb.
    unfold zlen in Hb. rewrite length_take in Hb. replace (8 `min` length (sum256 (bytesOf (Key o))))%nat with 8%nat in Hb by lia. exact Hb. }
  cbv zeta. set (attributes := if hiddenName (nameOf o) then _ else _). assert (0 <= attributes < 2 ^ 32) as Ha.
  { subst attributes. clear. unfold FILE_ATTRIBUTE_DIRECTORY, FILE_ATTRIBUTE_NORMAL, FILE_ATTRIBUTE_HIDDEN.
    destruct isDir, (hiddenName (nameOf o)); vm_compute; split; congruence. }
  assert (0 <= (if isDir then 0 else Size o) < 2 ^ 64) as Hsz by (destruct isDir; lia). clearbody attributes.
  split; cbn [FileIndex EndOfFile AllocationSize FileAttributes EaSize ReparsePointTag FileID64 FileID128 ShortName FileName]; try done; try lia.
  - apply random_16.
  - simpl. lia.
Qed.
Lemma dotEntry_typed name f : sizedFile f -> Z.of_nat (String.length name) < 2 ^ 28 -> wellTyped (dotEntry name f).
Proof. intros [H1 H2] Hn. unfold FILE_ATTRIBUTE_DIRECTORY. split; simpl; try lia; done. Qed.

Lemma entrySize_is fixed name : 0 <= fixed <= 122 -> Z.of_nat (String.length name) < 2 ^ 28 ->
  entrySize fixed name = Roundup (fixed + Z.of_nat (String.length name) * 2) 8 /\ 0 <= entrySize fixed name < 2 ^ 30.
Proof.
  intros Hf Hn. unfold entrySize, u32. destruct (Roundup_8 (fixed + Z.of_nat (String.length name) * 2)) as [Hr _]; [lia|]. rewrite Z.mod_small by lia. lia.
Qed.
Lemma collect_takes fixed bufSize single entries size : 0 <= fixed <= 122 -> Forall sizedObject entries -> 0 <= size <= bufSize -> bufSize < 2 ^ 31 ->
  exists n, collect sum256 random16 fixed bufSize single entries size = map (objectEntry sum256 random16) (take n entries) /\ (n <= length entries)%nat /\
    size + budget fixed (map (objectEntry sum256 random16) (take n entries)) <= bufSize /\
    (forall o, entries !! n = Some o -> single = false \/ n = O ->
       bufSize < size + budget fixed (map (objectEntry sum256 random16) (take n entries)) + entrySize fixed (nameOf o)).
Proof.
  intros Hf Ho. revert size. induction Ho as [|o entries [_ Hn] Ho IH]; intros size Hs Hb.
  - exists O. simpl. split; [done|]. split; [lia|]. split; [lia|done].
  - cbn [collect]. cbv zeta. destruct (entrySize_is fixed (nameOf o) Hf Hn) as [He Hr]. unfold u32 at 1. rewrite Z.mod_small by lia.
    destruct (Z.gtb_spec (size + entrySize fixed (nameOf o)) bufSize) as [Hgt|Hle].
    + exists O. simpl. split; [done|]. split; [lia|]. split; [lia|]. intros o' [= <-] _. lia.
    + destruct single.
      * exists 1%nat. cbn [take map budget foldr]. rewrite name_objectEntry, <- He. simpl. split; [done|]. split; [lia|]. split; [lia|]. intros o' _ [?|?]; [done|lia].
      * unfold u32. rewrite Z.mod_small by lia. destruct (IH (size + entrySize fixed (nameOf o)) ltac:(lia) Hb) as (n & -> & Hle' & Hsum & Hmax).
        exists (S n). simpl. rewrite name_objectEntry, <- He. split; [done|]. split; [lia|]. split; [lia|].
        intros o' Ho' _. specialize (Hmax o' Ho' (or_introl eq_refl)). lia.
Qed.

(** A buffer that lists the given entries, and nothing else. *)
Definition lists (L : layout) (buf : list Z) (shown : list dirInfo) : Prop :=
  match shown with [] => buf = [] | _ => readListing (length shown) L buf = Ok (map (seen L) shown) end.
Lemma encode_lists L fill info : lays L fill -> 64 <= nameAt L <= 122 -> Forall wellTyped info ->
  exists buf, encode (nameAt L) fill info = Ok buf /\ zlen buf <= budget (nameAt L) info /\ lists L buf info.
Proof.
  intros HL Hat Ht. destruct info as [|e info]; [by exists []|]. destruct (encode_reads L fill (e :: info) HL Hat ltac:(done) Ht) as (buf & Hb & Hl & Hr).
  exists buf. split; [done|]. split; [done|]. by apply Hr.
Qed.
Lemma budget_app fixed a b : budget fixed (a ++ b) = budget fixed a + budget fixed b.
Proof. unfold budget. induction a as [|e a IH]; simpl; lia. Qed.

Definition dotsOf (root : bool) (dir parent : FileInfo) : list dirInfo := if root then [dotEntry "." dir; dotEntry ".." parent] else [].
Lemma QueryDirectoryBuffer_lists class L entries bufSize single root dir parent :
  layoutOf class = Some L -> Forall sizedObject entries -> sizedFile dir -> sizedFile parent -> 0 <= bufSize < 2 ^ 31 ->
  budget (nameAt L) (dotsOf root dir parent) <= bufSize ->
  exists buf num, QueryDirectoryBuffer sum256 random16 class entries bufSize single root dir parent = Ok (buf, num) /\
    (num <= length entries)%nat /\ zlen buf <= bufSize /\
    lists L buf (dotsOf root dir parent ++ map (objectEntry sum256 random16) (take num entries)) /\
    (forall o, entries !! num = Some o -> single = false \/ num = O ->
      bufSize < budget (nameAt L) (dotsOf root dir parent ++ map (objectEntry sum256 random16) (take num entries)) + entrySize (nameAt L) (nameOf o)).
Proof using digest_ok.
  intros HLc Ho Hdir Hpar Hb Hd. destruct (layout_sized class L HLc) as [fixed Hfix].
  destruct (classes_agree class fixed Hfix) as (L' & fill & HL' & Hat & Hr & Henc & HL). rewrite HLc in HL'. injection HL' as <-. subst fixed.
  unfold QueryDirectoryBuffer. rewrite Hfix, Henc. cbv zeta.
  set (size := if root then _ else 0). assert (size = budget (nameAt L) (dotsOf root dir parent)) as Hsize.
  { subst size. destruct root; [|done]. destruct (entrySize_is (nameAt L) ".") as [E1 R1]; [lia|done|]. destruct (entrySize_is (nameAt L) "..") as [E2 R2]; [lia|done|].
    unfold u32. rewrite Z.mod_small by lia. rewrite E1, E2. simpl. lia. }
  assert (root && (bufSize <? size) = false) as -> by (destruct root; [simpl; apply Z.ltb_ge; lia|done]).
  assert (0 <= size) by (subst size; destruct root; [apply Z.mod_pos_bound; lia|lia]).
  destruct (collect_takes (nameAt L) bufSize single entries size ltac:(lia) Ho ltac:(lia) ltac:(lia)) as (num & Hcol & Hnum & Hsum & Hmax).
  rewrite Hcol, length_map, length_take_le by done. fold (dotsOf root dir parent).
  destruct (encode_lists L fill (dotsOf root dir parent ++ map (objectEntry sum256 random16) (take num entries)) HL Hr) as (buf & -> & Hlen & Hlist).
  { apply Forall_app. split; [destruct root; [|done]; repeat constructor; by apply dotEntry_typed|].
    apply List.Forall_map. eapply Forall_impl; [exact (Forall_take _ _ _ Ho)|]. intros o. apply objectEntry_typed. }
  run_bind. rewrite budget_app in Hlen. exists buf, num. split; [done|]. split; [done|]. split; [lia|]. split; [done|].
  intros o Hl Hs. specialize (Hmax o Hl Hs). rewrite budget_app. lia.
Qed.

(** ** The search as a whole

    The handler goes on taking from the results until none are left. *)
Definition noFile : FileInfo := FileInfo_ 0 [] 0 0.
Fixpoint enumerate (fuel : nat) (class bufSize : Z) (single : bool) (searchResults : list ObjectInfo) : out (list (list Z)) :=
  match searchResults with
  | [] => mret []
  | _ =>
      match fuel with
      | O => Stuck
      | S fuel =>
          r ← takeSearchResults sum256 random16 class bufSize single false noFile noFile searchResults;
          more ← enumerate fuel class bufSize single r.2;
          mret (r.1 :: more)
      end
  end.
End query.

(** Nothing of the two files is looked at where they are not listed. *)
Lemma QueryDirectoryBuffer_plain sum256 random16 class entries bufSize single dir parent dir' parent' :
  QueryDirectoryBuffer sum256 random16 class entries bufSize single false dir parent = QueryDirectoryBuffer sum256 random16 class entries bufSize single false dir' parent'.
Proof. done. Qed.

Section search.
Context (sum256 : list Z -> list Z) (random16 : string -> list Z) {digest_ok : DigestOk sum256 random16}.
Lemma takeSearchResults_takes class L bufSize single results :
  layoutOf class = Some L -> Forall sizedObject results -> 0 <= bufSize < 2 ^ 31 -> Forall (fun o => entrySize (nameAt L) (nameOf o) <= bufSize) results -> results <> [] ->
  exists buf n, takeSearchResults sum256 random16 class bufSize single false noFile noFile results = Ok (buf, drop n results) /\ (0 < n <= length results)%nat /\
    zlen buf <= bufSize /\ lists L buf (map (objectEntry sum256 random16) (take n results)).
Proof using digest_ok.
  intros HL Ho Hb Hfit Hne. unfold takeSearchResults. set (f16 := FileInfo_ 0 (replicate 16 0) 0 0). assert (sizedFile f16) as Hf by (split; [simpl; lia|done]).
  rewrite (QueryDirectoryBuffer_plain _ _ _ _ _ _ _ _ f16 f16).
  destruct (QueryDirectoryBuffer_lists sum256 random16 class L results bufSize single false f16 f16 HL Ho Hf Hf Hb ltac:(simpl; lia)) as (buf & n & -> & Hn & Hlen & Hl & Hmax).
  run_bind. cbn [fst snd]. rewrite slice_Ok by (unfold zlen; lia). run_bind. exists buf, n. split.
  { unfold mret, outcome_ret. do 2 f_equal. unfold sub, zlen. rewrite Nat2Z.id. apply take_ge. rewrite length_drop. lia. }
  split; [|done]. split; [|done]. destruct n as [|n]; [|lia]. destruct results as [|o results]; [done|]. exfalso.
  specialize (Hmax o eq_refl (or_intror eq_refl)). simpl in Hmax. apply Forall_cons in Hfit as [Hfit _]. lia.
Qed.
Lemma enumerate_delivers class L bufSize single fuel results :
  layoutOf class = Some L -> Forall sizedObject results -> 0 <= bufSize < 2 ^ 31 -> Forall (fun o => entrySize (nameAt L) (nameOf o) <= bufSize) results -> (length results <= fuel)%nat ->
  exists bufs shown, enumerate sum256 random16 fuel class bufSize single results = Ok bufs /\ concat shown = results /\
    Forall2 (fun buf objs => objs <> [] /\ zlen buf <= bufSize /\ lists L buf (map (objectEntry sum256 random16) objs)) bufs shown.
Proof using digest_ok.
  intros HL Ho Hb. revert results Ho. induction fuel as [|fuel IH]; intros results Ho Hfit Hfuel.
  { destruct results; [|simpl in Hfuel; lia]. by exists [], []. }
  destruct results as [|o results]; [by exists [], []|]. set (rs := o :: results) in *.
  destruct (takeSearchResults_takes class L bufSize single rs HL Ho Hb Hfit ltac:(done)) as (buf & n & Ht & Hn & Hlen & Hl).
  destruct (IH (drop n rs)) as (bufs & shown & He & Hc & Hs); [by apply Forall_drop|by apply Forall_drop|rewrite length_drop; lia|].
  exists (buf :: bufs), (take n rs :: shown). cbn [enumerate]. subst rs. rewrite Ht. run_bind. cbn [fst snd]. rewrite He. run_bind.
  split; [done|]. split; [cbn [concat]; by rewrite Hc, take_drop|]. constructor; [|done]. split; [|done]. destruct n; [lia|done].
Qed.
End search.

(** C33: A listing is what fits of the directory, and reads back: for every information class the
    server knows, the answer is made without a panic, is no longer than the client's buffer,
    and whoever goes through it by its offsets reads the dot entries and the first
    entries of the directory, in order, with their times, sizes, attributes, IDs and names
    where the class puts them; an entry is left out only for want of room. *)
Theorem listing_is_what_fits (sum256 : list Z -> list Z) (random16 : string -> list Z) (class : Z) (L : layout) (entries : list ObjectInfo)
  (bufSize : Z) (single root : bool) (dir parent : FileInfo) :
  DigestOk sum256 random16 -> layoutOf class = Some L -> Forall sizedObject entries -> sizedFile dir -> sizedFile parent -> 0 <= bufSize < 2 ^ 31 ->
  budget (nameAt L) (dotsOf root dir parent) <= bufSize ->
  exists buf num, QueryDirectoryBuffer sum256 random16 class entries bufSize single root dir parent = Ok (buf, num) /\
    (num <= length entries)%nat /\ zlen buf <= bufSize /\
    lists L buf (dotsOf root dir parent ++ map (objectEntry sum256 random16) (take num entries)) /\
    (forall o, entries !! num = Some o -> single = false \/ num = O ->
      bufSize < budget (nameAt L) (dotsOf root dir parent ++ map (objectEntry sum256 random16) (take num entries)) + entrySize (nameAt L) (nameOf o)).
Proof. intros Hok. by apply QueryDirectoryBuffer_lists. Qed.

(** A search delivers everything once: as long as each entry fits the client's buffer by
    itself, asking again and again ends, and the answers list the results of the search
    one after the other, none twice and none left out. *)
Theorem search_delivers_everything (sum256 : list Z -> list Z) (random16 : string -> list Z) (class : Z) (L : layout) (bufSize : Z) (single : bool)
  (results : list ObjectInfo) :
  DigestOk sum256 random16 -> layoutOf class = Some L -> Forall sizedObject results -> 0 <= bufSize < 2 ^ 31 ->
  Forall (fun o => entrySize (nameAt L) (nameOf o) <= bufSize) results ->
  exists bufs shown, enumerate sum256 random16 (length results) class bufSize single results = Ok bufs /\ concat shown = results /\
    Forall2 (fun buf objs => objs <> [] /\ zlen buf <= bufSize /\ lists L buf (map (objectEntry sum256 random16) objs)) bufs shown.
Proof. intros Hok HL Ho Hb Hf. by apply enumerate_delivers. Qed.

(** ** On an example *)
Definition sum0 (m : list Z) : list Z := replicate 32 (u8 (zlen m)).
Definition random0 (k : string) : list Z := replicate 16 9.
Lemma digest0 : DigestOk sum0 random0.
Proof. split; [intros; unfold sum0; apply Forall_replicate; apply Z.mod_pos_bound; lia|intros; unfold sum0; rewrite length_replicate; lia|done]. Qed.
Definition files0 : list ObjectInfo := [Object_ "/a/one.txt" 0 5 10; Object_ "/a/.two/" 0 5 0; Object_ "/a/three" 0 5 7].
Definition dir0 : FileInfo := FileInfo_ 3 (replicate 16 1) 0 0.
Lemma files0_sized : Forall sizedObject files0.
Proof. repeat constructor; vm_compute; congruence. Qed.
Definition both : layout := Layout 94 (Some 64) None None None (Some 68).

Lemma listing_is_what_fits_witness :
  exists buf num, QueryDirectoryBuffer sum0 random0 FILE_BOTH_DIRECTORY_INFORMATION files0 320 false true dir0 dir0 = Ok (buf, num) /\
    (num <= length files0)%nat /\ zlen buf <= 320 /\
    lists both buf (dotsOf true dir0 dir0 ++ map (objectEntry sum0 random0) (take num files0)) /\
    (forall o, files0 !! num = Some o -> false = false \/ num = O ->
      320 < budget (nameAt both) (dotsOf true dir0 dir0 ++ map (objectEntry sum0 random0) (take num files0)) + entrySize (nameAt both) (nameOf o)).
Proof.
  apply (listing_is_what_fits sum0 random0 FILE_BOTH_DIRECTORY_INFORMATION both files0 320 false true dir0 dir0).
  - exact digest0.
  - reflexivity.
  - exact files0_sized.
  - split; [simpl; lia|reflexivity].
  - split; [simpl; lia|reflexivity].
  - lia.
  - vm_compute. congruence.
Defined.
Lemma search_delivers_everything_witness :
  exists bufs shown, enumerate sum0 random0 3 FILE_BOTH_DIRECTORY_INFORMATION 130 false files0 = Ok bufs /\ concat shown = files0 /\
    Forall2 (fun buf objs => objs <> [] /\ zlen buf <= 130 /\ lists both buf (map (objectEntry sum0 random0) objs)) bufs shown.
Proof.
  apply (search_delivers_everything sum0 random0 FILE_BOTH_DIRECTORY_INFORMATION both 130 false files0).
  - exact digest0.
  - reflexivity.
  - exact files0_sized.
  - lia.
  - repeat constructor; vm_compute; congruence.
Defined.

(** A client that asks for a single entry of a whole directory is sent three. *)
Theorem single_entry_is_three :
  exists buf, QueryDirectoryBuffer sum0 random0 FILE_BOTH_DIRECTORY_INFORMATION files0 65536 true true dir0 dir0 = Ok (buf, 1%nat) /\
    exists a b c, readListing 3 both buf = Ok [a; b; c].
Proof. eexists. split; [vm_compute; reflexivity|]. eexists _, _, _. vm_compute. reflexivity. Qed.
(** Where the next entry does not fit the buffer, the answer is empty and the search stays
    where it was: asked again, it answers the same. *)
Theorem small_buffer_stalls (sum256 : list Z -> list Z) (random16 : string -> list Z) (class : Z) (L : layout) (bufSize : Z) (o : ObjectInfo) (results : list ObjectInfo) :
  layoutOf class = Some L -> sizedObject o -> 0 <= bufSize < entrySize (nameAt L) (nameOf o) ->
  takeSearchResults sum256 random16 class bufSize false false noFile noFile (o :: results) = Ok ([], o :: results).
Proof.
  intros HL [_ Hn] Hb. destruct (layout_sized class L HL) as [fixed Hfix].
  destruct (classes_agree class fixed Hfix) as (L' & fill & HL' & Hat & Hr & Henc & _). rewrite HL in HL'. injection HL' as <-. subst fixed.
  destruct (entrySize_is (nameAt L) (nameOf o)) as [_ Hs]; [lia|done|].
  assert (collect sum256 random16 (nameAt L) bufSize false (o :: results) 0 = []) as Hcol.
  { cbn [collect]. cbv zeta. unfold u32 at 1. rewrite Z.mod_small by lia. by destruct (Z.gtb_spec (0 + entrySize (nameAt L) (nameOf o)) bufSize); [|lia]. }
  unfold takeSearchResults, QueryDirectoryBuffer. rewrite Hfix, Henc. cbv zeta. cbn [andb app]. rewrite Hcol. cbn [encode length]. rewrite !bind_mret.
  cbn [fst snd]. rewrite slice_Ok by (unfold zlen; simpl; lia). run_bind. unfold mret, outcome_ret. do 2 f_equal. change (Z.of_nat 0) with 0. apply sub_full.
Qed.
End Listing.
