(* ===== verification/FileInfo.v ===== *)
(** The information classes of [smb2/query.go] beside the listings: what is told of a file
    and of the volume, and security descriptors.  [fileAllInformation] and its like in
    [open.go] fill these in from an open.

    A SID is marshalled by a library; [marshal] stands for it. *)
From S2P Require Import Prelude Bytes Smb2Const Utils Text Header Request Fields Listing.
Import Utils Text Header Request Listing.

Module FileInfo.
Import Listing.

Definition zeros (n : Z) : list Z := replicate (Z.to_nat n) 0.

(** ** The volume *)
Definition FileFsVolumeInfo (createdAt serialNo : Z) (label : string) : out (list Z) :=
  let vl := encoded label in
  let vl := if zlen vl >? 32 then take 32 vl else vl in
  let info := zeros (18 + zlen vl) in
  info ← put_le info 0 8 (UnixToFiletime createdAt);
  info ← put_le info 8 4 serialNo;
  info ← put_le info 12 4 (zlen vl);
  info ← copy_at info 18 (18 + zlen vl) vl;
  mret info.
Definition FileFsAttributeInfo (fsType : string) : out (list Z) :=
  let name := encoded fsType in
  let info := zeros (12 + zlen name) in
  info ← put_le info 0 4 0x01100103;
  info ← put_le info 4 4 255;
  info ← put_le info 8 4 (zlen name);
  info ← copy_at info 12 (12 + zlen name) name;
  mret info.
Record StorageInfo := Storage { RemainingStorage : Z; UsedStorage : Z; MinShards : Z; TotalShards : Z }.
(** Sectors per unit: Go's division of ints, kept to 32 bits. *)
Definition sectorsPerUnit (si : StorageInfo) : Z := if MinShards si =? 0 then 1 else u32 (Z.quot (TotalShards si) (MinShards si)).
(** [/], which panics on nought. *)
Definition div64 (a b : Z) : out Z := if b =? 0 then Panic else mret (a / b).
Definition FileFsSizeInfo (si : StorageInfo) : out (list Z) :=
  let spu := sectorsPerUnit si in
  let info := zeros 24 in
  total ← div64 (u64 (RemainingStorage si + UsedStorage si) / BytesPerSector) spu;
  info ← put_le info 0 8 total;
  free ← div64 (RemainingStorage si / BytesPerSector) spu;
  info ← put_le info 8 8 free;
  info ← put_le info 16 4 spu;
  info ← put_le info 20 4 BytesPerSector;
  mret info.
Definition FileFsFullSizeInfo (si : StorageInfo) : out (list Z) :=
  let spu := sectorsPerUnit si in
  let info := zeros 32 in
  total ← div64 (u64 (RemainingStorage si + UsedStorage si) / BytesPerSector) spu;
  info ← put_le info 0 8 total;
  free ← div64 (RemainingStorage si / BytesPerSector) spu;
  info ← put_le info 8 8 free;
  free ← div64 (RemainingStorage si / BytesPerSector) spu;
  info ← put_le info 16 8 free;
  info ← put_le info 24 4 spu;
  info ← put_le info 28 4 BytesPerSector;
  mret info.
Definition FileFsDeviceInfo : list Z := le_enc 4 0x00000007 ++ le_enc 4 0x00000030.
Definition FileFsObjectIDInfo (volumeID : Z) : out (list Z) := id ← put_le (zeros 64) 0 8 volumeID; mret id.

(** ** A file *)
Record FileBasicInfo := BasicInfo { b_CreationTime : Z; b_LastAccessTime : Z; b_LastWriteTime : Z; b_ChangeTime : Z; b_FileAttributes : Z }.
Definition FileBasicInfo_Encode (fbi : FileBasicInfo) : out (list Z) :=
  buf ← put_le (zeros 40) 0 8 (UnixToFiletime (b_CreationTime fbi));
  buf ← put_le buf 8 8 (UnixToFiletime (b_LastAccessTime fbi));
  buf ← put_le buf 16 8 (UnixToFiletime (b_LastWriteTime fbi));
  buf ← put_le buf 24 8 (UnixToFiletime (b_ChangeTime fbi));
  buf ← put_le buf 32 4 (b_FileAttributes fbi);
  mret buf.
Definition FileBasicInfo_Decode (buf : list Z) : out FileBasicInfo :=
  if zlen buf <? 40 then Err ErrInvalidParameter
  else
    c ← get_le buf 0 8; a ← get_le buf 8 8; w ← get_le buf 16 8; g ← get_le buf 24 8; attributes ← get_le buf 32 4;
    mret (BasicInfo (FiletimeToUnix c) (FiletimeToUnix a) (FiletimeToUnix w) (FiletimeToUnix g) attributes).
Record FileStandardInfo := StandardInfo { s_AllocationSize : Z; s_EndOfFile : Z; NumberOfLinks : Z; DeletePending : bool; Directory : bool }.
Definition FileStandardInfo_Encode (fsi : FileStandardInfo) : out (list Z) :=
  buf ← put_le (zeros 24) 0 8 (s_AllocationSize fsi);
  buf ← put_le buf 8 8 (s_EndOfFile fsi);
  buf ← put_le buf 16 4 (NumberOfLinks fsi);
  buf ← (if DeletePending fsi then store buf 20 1 else mret buf);
  buf ← (if Directory fsi then store buf 21 1 else mret buf);
  mret buf.
Definition FileInternalInfo_Encode (IndexNumber : Z) : out (list Z) := buf ← put_le (zeros 8) 0 8 IndexNumber; mret buf.
Definition FileEaInfo_Encode (EaSize : Z) : out (list Z) := buf ← put_le (zeros 4) 0 4 EaSize; mret buf.
Definition FileAccessInfo_Encode (AccessFlags : Z) : out (list Z) := buf ← put_le (zeros 4) 0 4 AccessFlags; mret buf.
Definition FilePositionInfo_Encode (CurrentByteOffset : Z) : out (list Z) := buf ← put_le (zeros 8) 0 8 CurrentByteOffset; mret buf.
Definition FileModeInfo_Encode (Mode : Z) : out (list Z) := buf ← put_le (zeros 4) 0 4 Mode; mret buf.
Definition FileAlignmentInfo_Encode (AlignmentRequirement : Z) : out (list Z) := buf ← put_le (zeros 4) 0 4 AlignmentRequirement; mret buf.
Definition FileNameInfo_Encode (name : string) : out (list Z) :=
  let name := encoded name in
  let buf := zeros (zlen name + 6) in
  buf ← put_le buf 0 4 (zlen name);
  buf ← copy_at buf 4 (zlen buf) name;
  let padLen := Roundup (zlen buf) 4 in
  mret (buf ++ zeros (padLen - zlen buf)).
Record FileAllInfo := AllInfo {
  a_basic : FileBasicInfo; a_standard : FileStandardInfo; a_internal : Z; a_ea : Z; a_access : Z; a_position : Z; a_mode : Z; a_alignment : Z; a_name : string;
}.
Definition FileAllInfo_Encode (fai : FileAllInfo) : out (list Z) :=
  basic ← FileBasicInfo_Encode (a_basic fai);
  standard ← FileStandardInfo_Encode (a_standard fai);
  internal ← FileInternalInfo_Encode (a_internal fai);
  ea ← FileEaInfo_Encode (a_ea fai);
  access ← FileAccessInfo_Encode (a_access fai);
  position ← FilePositionInfo_Encode (a_position fai);
  mode ← FileModeInfo_Encode (a_mode fai);
  alignment ← FileAlignmentInfo_Encode (a_alignment fai);
  name ← FileNameInfo_Encode (a_name fai);
  mret (((((((((basic ++ standard) ++ internal) ++ ea) ++ access) ++ position) ++ mode) ++ alignment) ++ name)).
Record FileNetworkOpenInfo := NetworkOpenInfo {
  n_CreationTime : Z; n_LastAccessTime : Z; n_LastWriteTime : Z; n_ChangeTime : Z; n_AllocationSize : Z; n_EndOfFile : Z; n_FileAttributes : Z;
}.
Definition FileNetworkOpenInfo_Encode (fnoi : FileNetworkOpenInfo) : out (list Z) :=
  buf ← put_le (zeros 56) 0 8 (UnixToFiletime (n_CreationTime fnoi));
  buf ← put_le buf 8 8 (UnixToFiletime (n_LastAccessTime fnoi));
  buf ← put_le buf 16 8 (UnixToFiletime (n_LastWriteTime fnoi));
  buf ← put_le buf 24 8 (UnixToFiletime (n_ChangeTime fnoi));
  buf ← put_le buf 32 8 (n_AllocationSize fnoi);
  buf ← put_le buf 40 8 (n_EndOfFile fnoi);
  buf ← put_le buf 48 4 (n_FileAttributes fnoi);
  mret buf.
Definition FileNormalizedNameInfo_Encode (filename : string) : out (list Z) :=
  let fn := encoded filename in
  let buf := zeros (zlen fn + 4) in
  buf ← put_le buf 0 4 (zlen fn);
  buf ← copy_at buf 4 (zlen buf) fn;
  mret buf.
Definition FileStreamInfo_Encode (streamName : string) (size allocation : Z) : out (list Z) :=
  let name := encoded streamName in
  buf ← put_le (zeros 24) 4 4 (zlen name);
  buf ← put_le buf 8 8 size;
  buf ← put_le buf 16 8 allocation;
  mret (buf ++ name).

(** What [op.file.stat] tells, with the fields of the open the answers are made of. *)
Record openInfo := OpenInfo {
  oi_size : Z; oi_allocated : Z; oi_modified : Z; oi_attributes : Z;
  oi_fileName : string; oi_pathName : string; oi_createOptions : Z; oi_handle : Z; oi_grantedAccess : Z;
  oi_isPipe : bool;   (* [strings.ToLower(op.fileName) == srvsvc] *)
}.
Definition isDir (op : openInfo) : bool := oi_attributes op .& FILE_ATTRIBUTE_DIRECTORY >? 0.
Definition standardInformation (op : openInfo) : FileStandardInfo :=
  let '(size, alloc, lc, pd) :=
    if oi_isPipe op then (0, 4096, 1, true) else if negb (isDir op) then (oi_size op, oi_allocated op, 0, false) else (0, 0, 0, false) in
  let pd := pd || (oi_createOptions op .& FILE_DELETE_ON_CLOSE >? 0) in
  let lc := if negb pd then 1 else lc in
  StandardInfo alloc size lc pd (isDir op).
Definition fileStandardInformation (op : openInfo) : out (list Z) := FileStandardInfo_Encode (standardInformation op).
Definition fileAllInformation (op : openInfo) : out (list Z) :=
  FileAllInfo_Encode (AllInfo (BasicInfo (oi_modified op) (oi_modified op) (oi_modified op) (oi_modified op) (oi_attributes op))
    (standardInformation op) (oi_handle op) 0 (oi_grantedAccess op) 0 (oi_createOptions op) 0 (oi_fileName op)).
Definition fileNetworkOpenInformation (op : openInfo) : out (list Z) :=
  let '(size, alloc) := if oi_attributes op .& FILE_ATTRIBUTE_DIRECTORY =? 0 then (oi_size op, oi_allocated op) else (0, 0) in
  FileNetworkOpenInfo_Encode (NetworkOpenInfo (oi_modified op) (oi_modified op) (oi_modified op) (oi_modified op) alloc size (oi_attributes op)).
Definition fileNormalizedNameInformation (op : openInfo) : out (list Z) := FileNormalizedNameInfo_Encode (oi_pathName op).
Definition fileEaInformation : out (list Z) := FileEaInfo_Encode 0.
Definition fileStreamInformation (op : openInfo) : out (list Z) := FileStreamInfo_Encode "::$DATA" (oi_size op) (oi_allocated op).

(** ** Security descriptors *)
Section security.
Context {SID : Type} (marshal : SID -> option (list Z)).
(** The control bits of [dtyp]. *)
Record controls := Controls {
  OwnerDefaulted : Z; GroupDefaulted : Z; SACLPresent : Z; SACLProtected : Z; DACLPresent : Z; DACLProtected : Z; SelfRelative : Z;
}.
Context (bits : controls) (noSID : SID).

Record ACE := Ace { ace_Type : Z; ace_Flags : Z; ace_Access : Z; ace_SID : SID }.
Definition ACE_Encode (ace : ACE) : out (option (list Z)) :=
  let buf := [ace_Type ace; ace_Flags ace] ++ le_enc 2 0 ++ le_enc 4 (ace_Access ace) in
  match marshal (ace_SID ace) with
  | None => mret None
  | Some sid =>
      sid ← slice sid 4 (zlen sid);
      let buf := buf ++ sid in
      buf ← put_le buf 2 2 (zlen buf);
      mret (Some buf)
  end.
Record ACL := Acl { acl_Revision : Z; ACEs : list ACE }.
Fixpoint ACEs_Encode (aces : list ACE) : out (list (list Z)) :=
  match aces with
  | [] => mret []
  | ace :: aces => b ← ACE_Encode ace; rest ← ACEs_Encode aces; mret (match b with Some b => b :: rest | None => rest end)
  end.
Definition ACL_Encode (acl : ACL) : out (list Z) :=
  aces ← ACEs_Encode (ACEs acl);
  let aceBuf := concat aces in
  mret (le_enc 2 (acl_Revision acl) ++ le_enc 2 (zlen aceBuf) ++ le_enc 4 (zlen aces) ++ aceBuf).
Record SecInfo := SecInfo_ { sec_Revision : Z; sec_Type : Z; Owner : SID; Group : SID; SACL : ACL; DACL : ACL }.
Definition marshalled (sid : SID) : out (option (list Z)) :=
  match marshal sid with None => mret None | Some b => b ← slice b 4 (zlen b); mret (Some b) end.
(** [None] is a SID that cannot be marshalled. *)
Definition SecInfo_Encode (si : SecInfo) : out (option (list Z)) :=
  let buf := le_enc 2 (sec_Revision si) ++ le_enc 2 (sec_Type si) in
  owner ← (if sec_Type si .& OwnerDefaulted bits =? 0 then marshalled (Owner si) else mret (Some []));
  match owner with
  | None => mret None
  | Some owner =>
      let buf := buf ++ le_enc 4 (if sec_Type si .& OwnerDefaulted bits =? 0 then 20 else 0) in
      group ← (if sec_Type si .& GroupDefaulted bits =? 0 then marshalled (Group si) else mret (Some []));
      match group with
      | None => mret None
      | Some group =>
          let buf := buf ++ le_enc 4 (if sec_Type si .& GroupDefaulted bits =? 0 then u32 (20 + u32 (zlen owner)) else 0) in
          sacl ← (if sec_Type si .& SACLPresent bits >? 0 then ACL_Encode (SACL si) else mret []);
          let buf := buf ++ le_enc 4 (if sec_Type si .& SACLPresent bits >? 0 then u32 (20 + u32 (zlen owner + zlen group)) else 0) in
          dacl ← (if sec_Type si .& DACLPresent bits >? 0 then ACL_Encode (DACL si) else mret []);
          let buf := buf ++ le_enc 4 (if sec_Type si .& DACLPresent bits >? 0 then u32 (20 + u32 (zlen owner + zlen group + zlen sacl)) else 0) in
          mret (Some (buf ++ owner ++ group ++ sacl ++ dacl))
      end
  end.
Record Grantee := Grantee_ { g_SID : SID; g_Access : Z }.
Definition noACL : ACL := Acl 0 [].
Definition NewOwnedSecInfo (info : Z) (owner group : SID) (grantees : list Grantee) : out (option (list Z)) :=
  let t := SelfRelative bits in
  let t := if info .& SACL_SECURITY_INFORMATION >? 0 then t .| (SACLPresent bits .| SACLProtected bits) else t in
  let t := if info .& DACL_SECURITY_INFORMATION >? 0 then t .| (DACLPresent bits .| DACLProtected bits) else t in
  SecInfo_Encode (SecInfo_ 1 t
    (if info .& OWNER_SECURITY_INFORMATION >? 0 then owner else noSID)
    (if info .& GROUP_SECURITY_INFORMATION >? 0 then group else noSID)
    (if info .& SACL_SECURITY_INFORMATION >? 0 then Acl 2 [] else noACL)
    (if info .& DACL_SECURITY_INFORMATION >? 0 then Acl 2 (map (fun g => Ace 0 0 (g_Access g) (g_SID g)) grantees) else noACL)).
End security.

(** ** SMB2_QUERY_INFO

    What the handler answers with once the open is found; [storage] and [security] are the
    answers of the backend. *)
Inductive answer := Info (buf : list Z) | Fails (status : Z) (needs : option Z).
Record volume := Volume { v_createdAt : Z; v_volumeID : Z; v_name : string; v_backend : string; v_storage : option StorageInfo }.
Definition fileInfoOf (dialect : Z) (op : openInfo) (class : Z) : out answer :=
  if ((class =? FileBasicInformation) || (class =? FileAllInformation) || (class =? FileNetworkOpenInformation) || (class =? FileAttributeTagInformation))
     && (oi_grantedAccess op .& (FILE_READ_ATTRIBUTES .| GENERIC_READ) =? 0) then mret (Fails STATUS_ACCESS_DENIED None)
  else if class =? FileAllInformation then b ← fileAllInformation op; mret (Info b)
  else if class =? FileStandardInformation then b ← fileStandardInformation op; mret (Info b)
  else if class =? FileNetworkOpenInformation then b ← fileNetworkOpenInformation op; mret (Info b)
  else if class =? FileNormalizedNameInformation then
    if negb (dialect =? SMB_DIALECT_311) then mret (Fails STATUS_NOT_SUPPORTED None) else b ← fileNormalizedNameInformation op; mret (Info b)
  else if class =? FileEaInformation then b ← fileEaInformation; mret (Info b)
  else if class =? FileStreamInformation then b ← fileStreamInformation op; mret (Info b)
  else mret (Fails STATUS_NOT_SUPPORTED None).
Definition volumeInfoOf (v : volume) (class : Z) : out answer :=
  if class =? FileFsVolumeInformation then b ← FileFsVolumeInfo (v_createdAt v) (u32 (v_volumeID v)) (v_name v); mret (Info b)
  else if class =? FileFsAttributeInformation then b ← FileFsAttributeInfo (v_backend v); mret (Info b)
  else if (class =? FileFsSizeInformation) || (class =? FileFsFullSizeInformation) then
    match v_storage v with
    | None => mret (Fails STATUS_INSUFFICIENT_RESOURCES None)
    | Some si => b ← (if class =? FileFsSizeInformation then FileFsSizeInfo si else FileFsFullSizeInfo si); mret (Info b)
    end
  else if class =? FileFsDeviceInformation then mret (Info FileFsDeviceInfo)
  else if class =? FileFsObjectIdInformation then b ← FileFsObjectIDInfo (v_volumeID v); mret (Info b)
  else mret (Fails STATUS_NOT_SUPPORTED None).
(** The room a client left, against what there is to tell. *)
Definition fitting (outputBufferLength : Z) (status : Z) (tell : bool) (a : answer) : answer :=
  match a with
  | Info b => if outputBufferLength <? u32 (zlen b) then Fails status (if tell then Some (u32 (zlen b)) else None) else a
  | _ => a
  end.
Definition queryInfo (dialect : Z) (op : openInfo) (v : volume) (security : out (list Z)) (infoType class outputBufferLength : Z) : out answer :=
  if infoType =? INFO_FILE then a ← fileInfoOf dialect op class; mret (fitting outputBufferLength STATUS_INFO_LENGTH_MISMATCH false a)
  else if infoType =? INFO_FILESYSTEM then a ← volumeInfoOf v class; mret (fitting outputBufferLength STATUS_INFO_LENGTH_MISMATCH false a)
  else if infoType =? INFO_SECURITY then b ← security; mret (fitting outputBufferLength STATUS_BUFFER_TOO_SMALL true (Info b))
  else mret (Fails STATUS_NOT_SUPPORTED None).

(** ** The encoders as flat structures *)
Lemma word8_small v : 0 <= v < 2 ^ 64 -> v mod 2 ^ (8 * Z.of_nat 8) = v.
Proof. intros. by apply Z.mod_small. Qed.
Lemma copied_name (pre name post : list Z) : copy_at (pre ++ zeros (zlen name) ++ post) (zlen pre) (zlen pre + zlen name) name = Ok (pre ++ name ++ post).
Proof.
  pose proof (zlen_nonneg pre). pose proof (zlen_nonneg name). pose proof (zlen_nonneg post).
  assert (zlen (zeros (zlen name)) = zlen name) as Hz by (by apply zlen_replicate_Z). rewrite copy_at_splice by (rewrite ?zlen_app; lia).
  rewrite take_ge by (unfold zlen; lia). rewrite splice_Ok by (split; simpl; rewrite ?zlen_app; lia). f_equal. unfold zlen in *. rewrite Nat2Z.id, take_app_length. do 2 f_equal.
  rewrite app_assoc. apply drop_app_length'. rewrite length_app. lia.
Qed.
Lemma zeros_split a b : 0 <= a -> 0 <= b -> zeros (a + b) = zeros a ++ zeros b.
Proof. intros. unfold zeros. rewrite Z2Nat.inj_add by lia. apply replicate_add. Qed.

Lemma FileBasicInfo_Encode_is fbi : FileBasicInfo_Encode fbi = Ok (le_enc 8 (UnixToFiletime (b_CreationTime fbi)) ++ le_enc 8 (UnixToFiletime (b_LastAccessTime fbi)) ++
  le_enc 8 (UnixToFiletime (b_LastWriteTime fbi)) ++ le_enc 8 (UnixToFiletime (b_ChangeTime fbi)) ++ le_enc 4 (b_FileAttributes fbi) ++ zeros 4).
Proof. destruct fbi as [c a w g t]. unfold FileBasicInfo_Encode. simpl b_CreationTime. simpl b_LastAccessTime. simpl b_LastWriteTime. simpl b_ChangeTime.
  generalize (UnixToFiletime c), (UnixToFiletime a), (UnixToFiletime w), (UnixToFiletime g). intros. reflexivity. Qed.
Definition boolByte (b : bool) : Z := if b then 1 else 0.
Lemma FileStandardInfo_Encode_is fsi : FileStandardInfo_Encode fsi = Ok (le_enc 8 (s_AllocationSize fsi) ++ le_enc 8 (s_EndOfFile fsi) ++ le_enc 4 (NumberOfLinks fsi) ++
  [boolByte (DeletePending fsi); boolByte (Directory fsi); 0; 0]).
Proof. destruct fsi as [a e n [] []]; reflexivity. Qed.
Lemma FileNetworkOpenInfo_Encode_is fnoi : FileNetworkOpenInfo_Encode fnoi = Ok (le_enc 8 (UnixToFiletime (n_CreationTime fnoi)) ++ le_enc 8 (UnixToFiletime (n_LastAccessTime fnoi)) ++
  le_enc 8 (UnixToFiletime (n_LastWriteTime fnoi)) ++ le_enc 8 (UnixToFiletime (n_ChangeTime fnoi)) ++ le_enc 8 (n_AllocationSize fnoi) ++ le_enc 8 (n_EndOfFile fnoi) ++
  le_enc 4 (n_FileAttributes fnoi) ++ zeros 4).
Proof. destruct fnoi as [c a w g al e t]. unfold FileNetworkOpenInfo_Encode. simpl n_CreationTime. simpl n_LastAccessTime. simpl n_LastWriteTime. simpl n_ChangeTime.
  generalize (UnixToFiletime c), (UnixToFiletime a), (UnixToFiletime w), (UnixToFiletime g). intros. reflexivity. Qed.
(** A length in front of a name. *)
Lemma put_head l n v w : @put_le smbErr (le_enc n v ++ l) 0 (Z.of_nat n) w = Ok (le_enc n w ++ l).
Proof.
  pose proof (zlen_nonneg l). rewrite put_le_splice by lia. rewrite Nat2Z.id. rewrite splice_Ok by (split; simpl; rewrite ?zlen_app, ?zlen_le_enc; lia). f_equal.
  change (Z.to_nat 0) with 0%nat. rewrite take_0, zlen_le_enc. simpl app. f_equal. rewrite Z.add_0_l, Nat2Z.id. rewrite drop_app_length' by (by rewrite length_le_enc). done.
Qed.
Lemma named_is name extra : 0 <= extra ->
  (buf ← put_le (zeros (zlen name + 4 + extra)) 0 4 (zlen name); copy_at buf 4 (zlen buf) name) = Ok (le_enc 4 (zlen name) ++ name ++ zeros extra).
Proof.
  intros He. pose proof (zlen_nonneg name). replace (zlen name + 4 + extra) with (4 + (zlen name + extra)) by lia. rewrite !zeros_split by lia.
  change (zeros 4) with (le_enc 4 0). rewrite (put_head _ 4 0 (zlen name) : put_le _ 0 4 _ = _). run_bind.
  assert (zlen (zeros (zlen name)) = zlen name) as Hz by (by apply zlen_replicate_Z). assert (zlen (zeros extra) = extra) as Hx by (by apply zlen_replicate_Z).
  rewrite <- (copied_name (le_enc 4 (zlen name)) name (zeros extra)). rewrite !copy_at_splice by (rewrite ?zlen_app, ?zlen_le_enc; lia).
  f_equal. rewrite !take_ge; [done|unfold zlen; lia|rewrite !zlen_app, zlen_le_enc, Hz, Hx; unfold zlen; lia].
Qed.
Lemma FileNameInfo_Encode_is name : FileNameInfo_Encode name =
  Ok (le_enc 4 (zlen (encoded name)) ++ encoded name ++ zeros (Roundup (zlen (encoded name) + 6) 4 - zlen (encoded name) - 4)).
Proof.
  unfold FileNameInfo_Encode. cbv zeta. set (n := encoded name). pose proof (zlen_nonneg n). pose proof (named_is n 2 ltac:(lia)) as Hn.
  replace (zlen n + 4 + 2) with (zlen n + 6) in Hn by lia. apply bind_Ok in Hn as (b & -> & Hb). run_bind. rewrite Hb. run_bind.
  unfold mret, outcome_ret. f_equal. rewrite !zlen_app, zlen_le_enc. replace (zlen (zeros 2)) with 2 by done. replace (Z.of_nat 4 + (zlen n + 2)) with (zlen n + 6) by lia.
  assert (zlen n + 6 <= Roundup (zlen n + 6) 4) as Hr.
  { unfold Roundup. change (4 - 1) with (Z.ones 2). rewrite Z.ldiff_ones_r, Z.shiftl_mul_pow2, Z.shiftr_div_pow2 by lia. change (Z.ones 2) with 3. change (2 ^ 2) with 4.
    pose proof (Z.div_mod (zlen n + 6 + 3) 4 ltac:(lia)). pose proof (Z.mod_pos_bound (zlen n + 6 + 3) 4 ltac:(lia)). lia. }
  rewrite <- !app_assoc. do 2 f_equal. rewrite <- zeros_split by lia. f_equal. lia.
Qed.
Lemma FileNormalizedNameInfo_Encode_is name : FileNormalizedNameInfo_Encode name = Ok (le_enc 4 (zlen (encoded name)) ++ encoded name).
Proof.
  unfold FileNormalizedNameInfo_Encode. cbv zeta. set (n := encoded name). pose proof (named_is n 0 ltac:(lia)) as Hn. rewrite Z.add_0_r in Hn.
  apply bind_Ok in Hn as (b & -> & Hb). run_bind. rewrite Hb. run_bind. simpl zeros. by rewrite app_nil_r.
Qed.

Lemma all_information_is_flat_lemma (op : openInfo) :
  let t := le_enc 8 (UnixToFiletime (oi_modified op)) in
  let going := oi_isPipe op || (oi_createOptions op .& FILE_DELETE_ON_CLOSE >? 0) in
  fileAllInformation op = Ok (
    t ++ t ++ t ++ t ++ le_enc 4 (oi_attributes op) ++ zeros 4 ++
    le_enc 8 (if oi_isPipe op then 4096 else if isDir op then 0 else oi_allocated op) ++
    le_enc 8 (if oi_isPipe op || isDir op then 0 else oi_size op) ++
    le_enc 4 (if going && negb (oi_isPipe op) then 0 else 1) ++ [boolByte going; boolByte (isDir op); 0; 0] ++
    le_enc 8 (oi_handle op) ++ le_enc 4 0 ++ le_enc 4 (oi_grantedAccess op) ++ le_enc 8 0 ++ le_enc 4 (oi_createOptions op) ++ le_enc 4 0 ++
    le_enc 4 (zlen (encoded (oi_fileName op))) ++ encoded (oi_fileName op) ++
    zeros (Roundup (zlen (encoded (oi_fileName op)) + 6) 4 - zlen (encoded (oi_fileName op)) - 4)).
Proof.
  cbv zeta. unfold fileAllInformation, FileAllInfo_Encode. cbn [a_basic a_standard a_internal a_ea a_access a_position a_mode a_alignment a_name].
  rewrite FileBasicInfo_Encode_is. run_bind. rewrite FileStandardInfo_Encode_is. run_bind.
  change (FileInternalInfo_Encode (oi_handle op)) with (Ok (E:=smbErr) (le_enc 8 (oi_handle op))). run_bind.
  change (FileEaInfo_Encode 0) with (Ok (E:=smbErr) (le_enc 4 0)). run_bind.
  change (FileAccessInfo_Encode (oi_grantedAccess op)) with (Ok (E:=smbErr) (le_enc 4 (oi_grantedAccess op))). run_bind.
  change (FilePositionInfo_Encode 0) with (Ok (E:=smbErr) (le_enc 8 0)). run_bind.
  change (FileModeInfo_Encode (oi_createOptions op)) with (Ok (E:=smbErr) (le_enc 4 (oi_createOptions op))). run_bind.
  change (FileAlignmentInfo_Encode 0) with (Ok (E:=smbErr) (le_enc 4 0)). run_bind.
  rewrite FileNameInfo_Encode_is. run_bind. rewrite <- !app_assoc. unfold mret, outcome_ret. f_equal.
  unfold standardInformation. destruct (oi_isPipe op), (isDir op); cbn [negb orb andb]; try done; by destruct (oi_createOptions op .& FILE_DELETE_ON_CLOSE >? 0).
Qed.

(** What the server tells of a file is the structure of [MS-FSCC] 2.4.2: the times, the sizes, the
    link count, whether the file is going and whether it is a directory, the ID, the rights
    of the handle, its options and its name, each at its place, without a panic and for
    every open. *)
Theorem all_information_is_flat (op : openInfo) :
  let t := le_enc 8 (UnixToFiletime (oi_modified op)) in
  let going := oi_isPipe op || (oi_createOptions op .& FILE_DELETE_ON_CLOSE >? 0) in
  fileAllInformation op = Ok (
    t ++ t ++ t ++ t ++ le_enc 4 (oi_attributes op) ++ zeros 4 ++
    le_enc 8 (if oi_isPipe op then 4096 else if isDir op then 0 else oi_allocated op) ++
    le_enc 8 (if oi_isPipe op || isDir op then 0 else oi_size op) ++
    le_enc 4 (if going && negb (oi_isPipe op) then 0 else 1) ++ [boolByte going; boolByte (isDir op); 0; 0] ++
    le_enc 8 (oi_handle op) ++ le_enc 4 0 ++ le_enc 4 (oi_grantedAccess op) ++ le_enc 8 0 ++ le_enc 4 (oi_createOptions op) ++ le_enc 4 0 ++
    le_enc 4 (zlen (encoded (oi_fileName op))) ++ encoded (oi_fileName op) ++
    zeros (Roundup (zlen (encoded (oi_fileName op)) + 6) 4 - zlen (encoded (oi_fileName op)) - 4)).
Proof. apply all_information_is_flat_lemma. Qed.

(** *** What the query answers is bounded *)
Definition saneStorage (si : StorageInfo) : Prop :=
  0 <= RemainingStorage si /\ (MinShards si = 0 \/ 0 < MinShards si <= TotalShards si /\ TotalShards si < 2 ^ 32).
Lemma sectorsPerUnit_pos si : saneStorage si -> 0 < sectorsPerUnit si < 2 ^ 32.
Proof.
  intros [_ [H|[H1 H2]]]; unfold sectorsPerUnit.
  - rewrite H. simpl. lia.
  - destruct (Z.eqb_spec (MinShards si) 0); [lia|]. rewrite Z.quot_div_nonneg by lia. unfold u32.
    assert (1 <= TotalShards si / MinShards si) by (apply Z.div_le_lower_bound; lia). pose proof (Z.div_le_upper_bound (TotalShards si) (MinShards si) (TotalShards si) ltac:(lia) ltac:(nia)).
    rewrite Z.mod_small; lia.
Qed.
Lemma FileFsSizeInfo_is si : saneStorage si -> FileFsSizeInfo si =
  Ok (le_enc 8 (u64 (RemainingStorage si + UsedStorage si) / BytesPerSector / sectorsPerUnit si) ++ le_enc 8 (RemainingStorage si / BytesPerSector / sectorsPerUnit si) ++
      le_enc 4 (sectorsPerUnit si) ++ le_enc 4 BytesPerSector).
Proof.
  intros H%sectorsPerUnit_pos. unfold FileFsSizeInfo, div64. cbv zeta. destruct (Z.eqb_spec (sectorsPerUnit si) 0); [lia|]. rewrite !bind_mret.
  generalize (u64 (RemainingStorage si + UsedStorage si) / BytesPerSector / sectorsPerUnit si), (RemainingStorage si / BytesPerSector / sectorsPerUnit si), (sectorsPerUnit si). intros. reflexivity.
Qed.
Lemma FileFsFullSizeInfo_is si : saneStorage si -> FileFsFullSizeInfo si =
  Ok (le_enc 8 (u64 (RemainingStorage si + UsedStorage si) / BytesPerSector / sectorsPerUnit si) ++ le_enc 8 (RemainingStorage si / BytesPerSector / sectorsPerUnit si) ++
      le_enc 8 (RemainingStorage si / BytesPerSector / sectorsPerUnit si) ++ le_enc 4 (sectorsPerUnit si) ++ le_enc 4 BytesPerSector).
Proof.
  intros H%sectorsPerUnit_pos. unfold FileFsFullSizeInfo, div64. cbv zeta. destruct (Z.eqb_spec (sectorsPerUnit si) 0); [lia|]. rewrite !bind_mret.
  generalize (u64 (RemainingStorage si + UsedStorage si) / BytesPerSector / sectorsPerUnit si), (RemainingStorage si / BytesPerSector / sectorsPerUnit si), (sectorsPerUnit si). intros. reflexivity.
Qed.

(** The name of a volume and of a file system, behind fields that are there already. *)
Lemma FileFsVolumeInfo_short c n label : exists b, FileFsVolumeInfo c n label = Ok b /\ zlen b <= 50.
Proof.
  unfold FileFsVolumeInfo. cbv zeta. set (vl := if zlen (encoded label) >? 32 then _ else encoded label). assert (0 <= zlen vl <= 32) as Hv.
  { subst vl. destruct (Z.gtb_spec (zlen (encoded label)) 32); [apply (zlen_take_bound (encoded label) 32)|]. pose proof (zlen_nonneg (encoded label)). lia. }
  set (z := zeros _). assert (zlen z = 18 + zlen vl) as Lz by (apply zlen_replicate_Z; lia).
  assert (exists ws, (info ← put_le z 0 8 (UnixToFiletime c); info ← put_le info 8 4 n; info ← put_le info 12 4 (zlen vl); info ← copy_at info 18 (18 + zlen vl) vl; mret info) = layOut ws z /\
    Forall (fitsIn (zlen z)) ws) as (ws & -> & Hf).
  { eexists. split; [lay_out|]. rewrite take_name. repeat (apply List.Forall_cons; [unfold fitsIn; cbn [fst snd]; rewrite ?zlen_le_enc; lia|]). constructor. }
  destruct (layOut_Ok ws z Hf) as (b & -> & Lb). exists b. split; [done|lia].
Qed.
Lemma FileFsAttributeInfo_len fsType : exists b, FileFsAttributeInfo fsType = Ok b /\ zlen b = 12 + zlen (encoded fsType).
Proof.
  unfold FileFsAttributeInfo. cbv zeta. set (vl := encoded fsType). pose proof (zlen_nonneg vl).
  set (z := zeros _). assert (zlen z = 12 + zlen vl) as Lz by (apply zlen_replicate_Z; lia).
  assert (exists ws, (info ← put_le z 0 4 0x01100103; info ← put_le info 4 4 255; info ← put_le info 8 4 (zlen vl); info ← copy_at info 12 (12 + zlen vl) vl; mret info) = layOut ws z /\
    Forall (fitsIn (zlen z)) ws) as (ws & -> & Hf).
  { eexists. split; [lay_out|]. rewrite take_name. repeat (apply List.Forall_cons; [unfold fitsIn; cbn [fst snd]; rewrite ?zlen_le_enc; lia|]). constructor. }
  destruct (layOut_Ok ws z Hf) as (b & -> & Lb). exists b. split; [done|lia].
Qed.

Definition answersOk (m : out answer) : Prop :=
  exists a, m = Ok a /\ (forall b, a = Info b -> zlen b < 2 ^ 32) /\ (forall st x, a = Fails st x -> st <> STATUS_OK).
Lemma answersOk_info (m : out (list Z)) : (exists b, m = Ok b /\ zlen b < 2 ^ 32) -> answersOk (b ← m; mret (Info b)).
Proof. intros (b & -> & Hb). run_bind. eexists. split; [done|]. split; [by intros ? [= <-]|done]. Qed.
Lemma answersOk_fails st x : st <> STATUS_OK -> answersOk (mret (Fails st x)).
Proof. intros. eexists. split; [done|]. split; [done|by intros ? ? [= <- <-]]. Qed.
Definition shortName (name : string) : Prop := Z.of_nat (String.length name) < 2 ^ 29.
Lemma encoded_short name : shortName name -> 0 <= zlen (encoded name) < 2 ^ 30.
Proof. intros H. pose proof (encoded_name_size name). fold (encoded name) in *. pose proof (zlen_nonneg (encoded name)). unfold shortName in H. lia. Qed.
Lemma Roundup_4 x : 0 <= x -> Roundup x 4 <= x + 3.
Proof.
  intros. unfold Roundup. change (4 - 1) with (Z.ones 2). rewrite Z.ldiff_ones_r, Z.shiftl_mul_pow2, Z.shiftr_div_pow2 by lia. change (Z.ones 2) with 3. change (2 ^ 2) with 4.
  pose proof (Z.div_mod (x + 3) 4 ltac:(lia)). pose proof (Z.mod_pos_bound (x + 3) 4 ltac:(lia)). lia.
Qed.
Lemma zlen_zeros n : 0 <= n -> zlen (zeros n) = n.
Proof. apply zlen_replicate_Z. Qed.
Lemma zlen_zeros_le n : zlen (zeros n) <= Z.max 0 n.
Proof. unfold zlen, zeros. rewrite length_replicate. lia. Qed.

Lemma fileInfoOf_ok dialect op class : shortName (oi_fileName op) -> shortName (oi_pathName op) -> answersOk (fileInfoOf dialect op class).
Proof.
  intros Hf%encoded_short Hp%encoded_short. unfold fileInfoOf. destruct (_ && _); [by apply answersOk_fails|].
  destruct (_ =? FileAllInformation).
  { apply answersOk_info. rewrite all_information_is_flat_lemma. eexists. split; [done|]. cbv zeta. rewrite !zlen_app, !zlen_le_enc. pose proof (Roundup_4 (zlen (encoded (oi_fileName op)) + 6) ltac:(lia)).
    pose proof (zlen_zeros_le (Roundup (zlen (encoded (oi_fileName op)) + 6) 4 - zlen (encoded (oi_fileName op)) - 4)). change (zlen (zeros 4)) with 4.
    match goal with |- context [zlen [?a; ?b; 0; 0]] => change (zlen [a; b; 0; 0]) with 4 end. lia. }
  destruct (_ =? FileStandardInformation).
  { apply answersOk_info. unfold fileStandardInformation. rewrite FileStandardInfo_Encode_is. eexists. split; [done|]. rewrite !zlen_app, !zlen_le_enc.
    match goal with |- context [zlen [?a; ?b; 0; 0]] => change (zlen [a; b; 0; 0]) with 4 end. lia. }
  destruct (_ =? FileNetworkOpenInformation).
  { apply answersOk_info. unfold fileNetworkOpenInformation. destruct (_ =? 0). all: rewrite FileNetworkOpenInfo_Encode_is;
    (eexists; split; [done|]); rewrite !zlen_app, !zlen_le_enc; change (zlen (zeros 4)) with 4; lia. }
  destruct (_ =? FileNormalizedNameInformation).
  { destruct (negb _); [by apply answersOk_fails|]. apply answersOk_info. unfold fileNormalizedNameInformation. rewrite FileNormalizedNameInfo_Encode_is.
    eexists. split; [done|]. rewrite zlen_app, zlen_le_enc. lia. }
  destruct (_ =? FileEaInformation); [apply answersOk_info; by eexists|].
  destruct (_ =? FileStreamInformation); [|by apply answersOk_fails].
  apply answersOk_info. eexists. split; [reflexivity|]. rewrite zlen_app. change (zlen (encoded "::$DATA")) with 14.
  unfold zlen. cbn [length]. vm_compute. reflexivity.
Qed.
Lemma volumeInfoOf_ok v class : shortName (v_backend v) -> (forall si, v_storage v = Some si -> saneStorage si) -> answersOk (volumeInfoOf v class).
Proof.
  intros Hb%encoded_short Hs. unfold volumeInfoOf. destruct (_ =? FileFsVolumeInformation).
  { apply answersOk_info. destruct (FileFsVolumeInfo_short (v_createdAt v) (u32 (v_volumeID v)) (v_name v)) as (b & -> & Hl). exists b. split; [done|lia]. }
  destruct (_ =? FileFsAttributeInformation).
  { apply answersOk_info. destruct (FileFsAttributeInfo_len (v_backend v)) as (b & -> & Hl). exists b. split; [done|lia]. }
  destruct (_ || _).
  { destruct (v_storage v) as [si|]; [|by apply answersOk_fails]. specialize (Hs si eq_refl). apply answersOk_info.
    destruct (_ =? FileFsSizeInformation); [rewrite FileFsSizeInfo_is by done|rewrite FileFsFullSizeInfo_is by done]; (eexists; split; [done|]); rewrite !zlen_app, !zlen_le_enc; lia. }
  destruct (_ =? FileFsDeviceInformation); [eexists; split; [done|]; split; [by intros ? [= <-]|done]|].
  destruct (_ =? FileFsObjectIdInformation); [|by apply answersOk_fails]. apply answersOk_info. by eexists.
Qed.

(** *** What each class calls for

    The encoder of each class of a file and of a volume, and the status a query is refused
    with, by [MS-SMB2] 3.3.5.20: some of the classes of a file take the right to read its
    attributes, a normalized name is for 3.1.1, and the size of a volume is for the backend
    to know. *)
Definition fileTells (op : openInfo) : list (Z * out (list Z)) :=
  [(FileAllInformation, fileAllInformation op); (FileStandardInformation, fileStandardInformation op); (FileNetworkOpenInformation, fileNetworkOpenInformation op);
   (FileNormalizedNameInformation, fileNormalizedNameInformation op); (FileEaInformation, fileEaInformation); (FileStreamInformation, fileStreamInformation op)].
Definition volumeTells (v : volume) : list (Z * out (list Z)) :=
  [(FileFsVolumeInformation, FileFsVolumeInfo (v_createdAt v) (u32 (v_volumeID v)) (v_name v)); (FileFsAttributeInformation, FileFsAttributeInfo (v_backend v));
   (FileFsDeviceInformation, Ok FileFsDeviceInfo); (FileFsObjectIdInformation, FileFsObjectIDInfo (v_volumeID v))] ++
  match v_storage v with Some si => [(FileFsSizeInformation, FileFsSizeInfo si); (FileFsFullSizeInformation, FileFsFullSizeInfo si)] | None => [] end.
Definition fileRefusal (dialect : Z) (op : openInfo) (class : Z) : option Z :=
  if bool_decide (class ∈ [FileBasicInformation; FileAllInformation; FileNetworkOpenInformation; FileAttributeTagInformation]) && (oi_grantedAccess op .& (FILE_READ_ATTRIBUTES .| GENERIC_READ) =? 0)
  then Some STATUS_ACCESS_DENIED
  else if bool_decide (class ∈ [FileAllInformation; FileStandardInformation; FileNetworkOpenInformation; FileEaInformation; FileStreamInformation]) then None
  else if (class =? FileNormalizedNameInformation) && (dialect =? SMB_DIALECT_311) then None else Some STATUS_NOT_SUPPORTED.
Definition volumeRefusal (v : volume) (class : Z) : option Z :=
  if bool_decide (class ∈ [FileFsVolumeInformation; FileFsAttributeInformation; FileFsDeviceInformation; FileFsObjectIdInformation]) then None
  else if bool_decide (class ∈ [FileFsSizeInformation; FileFsFullSizeInformation]) then match v_storage v with Some _ => None | None => Some STATUS_INSUFFICIENT_RESOURCES end
  else Some STATUS_NOT_SUPPORTED.
(** The answer a query is to get: what its class tells if there is room for it, else how it
    is turned down. *)
Inductive answered (room short : Z) (needs : bool) (refusal : option Z) (tells : list (Z * out (list Z))) (class : Z) : answer -> Prop :=
| is_told b : refusal = None -> (class, Ok b) ∈ tells -> zlen b <= room -> answered room short needs refusal tells class (Info b)
| is_short b : refusal = None -> (class, Ok b) ∈ tells -> room < zlen b -> answered room short needs refusal tells class (Fails short (if needs then Some (zlen b) else None))
| is_refused status : refusal = Some status -> answered room short needs refusal tells class (Fails status None).
Definition answeredQuery (dialect : Z) (op : openInfo) (v : volume) (descriptor : list Z) (infoType class room : Z) : answer -> Prop :=
  if infoType =? INFO_FILE then answered room STATUS_INFO_LENGTH_MISMATCH false (fileRefusal dialect op class) (fileTells op) class
  else if infoType =? INFO_FILESYSTEM then answered room STATUS_INFO_LENGTH_MISMATCH false (volumeRefusal v class) (volumeTells v) class
  else if infoType =? INFO_SECURITY then answered room STATUS_BUFFER_TOO_SMALL true None [(class, Ok descriptor)] class
  else eq (Fails STATUS_NOT_SUPPORTED None).
Lemma fitting_answered room short needs refusal tells class a : (forall b, a = Info b -> zlen b < 2 ^ 32) ->
  match refusal with Some status => a = Fails status None | None => exists b, a = Info b /\ (class, Ok b) ∈ tells end ->
  answered room short needs refusal tells class (fitting room short needs a).
Proof.
  intros Hl Ha. destruct refusal as [status|]; [subst a; by apply is_refused|]. destruct Ha as (b & -> & Hb). specialize (Hl b eq_refl). pose proof (zlen_nonneg b). simpl. unfold u32. rewrite Z.mod_small by lia.
  destruct (Z.ltb_spec room (zlen b)); [by apply is_short|by apply is_told].
Qed.
Ltac among := repeat (first [apply list_elem_of_here|apply list_elem_of_further]).
Ltac by_class := repeat (rewrite bool_decide_false by (rewrite !elem_of_cons, elem_of_nil; intuition congruence)); repeat (rewrite bool_decide_true by (subst; among)).
Lemma fileInfoOf_tells dialect op class a : fileInfoOf dialect op class = Ok a ->
  match fileRefusal dialect op class with Some status => a = Fails status None | None => exists b, a = Info b /\ (class, Ok b) ∈ fileTells op end.
Proof.
  unfold fileInfoOf, fileRefusal. set (denied := oi_grantedAccess op .& _ =? 0).
  assert ((class =? FileBasicInformation) || (class =? FileAllInformation) || (class =? FileNetworkOpenInformation) || (class =? FileAttributeTagInformation) =
    bool_decide (class ∈ [FileBasicInformation; FileAllInformation; FileNetworkOpenInformation; FileAttributeTagInformation])) as ->.
  { apply eq_true_iff_eq. rewrite !orb_true_iff, !Z.eqb_eq, bool_decide_eq_true, !elem_of_cons, elem_of_nil. tauto. }
  destruct (bool_decide _ && denied); [by intros [= <-]|]. unfold fileTells.
  destruct (Z.eqb_spec class FileAllInformation) as [->|]; [intros (b & -> & [= <-])%bind_Ok; by_class; eexists; split; [done|among]|].
  destruct (Z.eqb_spec class FileStandardInformation) as [->|]; [intros (b & -> & [= <-])%bind_Ok; by_class; eexists; split; [done|among]|].
  destruct (Z.eqb_spec class FileNetworkOpenInformation) as [->|]; [intros (b & -> & [= <-])%bind_Ok; by_class; eexists; split; [done|among]|].
  destruct (Z.eqb_spec class FileNormalizedNameInformation) as [->|].
  { destruct (Z.eqb_spec dialect SMB_DIALECT_311); cbn [negb andb]; [intros (b & -> & [= <-])%bind_Ok; eexists; split; [done|among]|by intros [= <-]]. }
  destruct (Z.eqb_spec class FileEaInformation) as [->|]; [intros (b & -> & [= <-])%bind_Ok; by_class; eexists; split; [done|among]|].
  destruct (Z.eqb_spec class FileStreamInformation) as [->|]; [intros (b & -> & [= <-])%bind_Ok; by_class; eexists; split; [done|among]|].
  by_class. by intros [= <-].
Qed.
Lemma volumeInfoOf_tells v class a : volumeInfoOf v class = Ok a ->
  match volumeRefusal v class with Some status => a = Fails status None | None => exists b, a = Info b /\ (class, Ok b) ∈ volumeTells v end.
Proof.
  unfold volumeInfoOf, volumeRefusal, volumeTells.
  destruct (Z.eqb_spec class FileFsVolumeInformation) as [->|]; [intros (b & -> & [= <-])%bind_Ok; by_class; eexists; split; [done|apply elem_of_app; left; among]|].
  destruct (Z.eqb_spec class FileFsAttributeInformation) as [->|]; [intros (b & -> & [= <-])%bind_Ok; by_class; eexists; split; [done|apply elem_of_app; left; among]|].
  destruct (Z.eqb_spec class FileFsSizeInformation) as [->|].
  { cbn [orb]. by_class. destruct (v_storage v); [|by intros [= <-]]. intros (b & Hb & [= <-])%bind_Ok. exists b. split; [done|]. rewrite <- Hb. apply elem_of_app. right. among. }
  destruct (Z.eqb_spec class FileFsFullSizeInformation) as [->|].
  { cbn [orb]. by_class. destruct (v_storage v); [|by intros [= <-]]. intros (b & Hb & [= <-])%bind_Ok. exists b. split; [done|]. rewrite <- Hb. apply elem_of_app. right. among. }
  cbn [orb]. destruct (Z.eqb_spec class FileFsDeviceInformation) as [->|]; [intros [= <-]; by_class; eexists; split; [done|apply elem_of_app; left; among]|].
  destruct (Z.eqb_spec class FileFsObjectIdInformation) as [->|]; [intros (b & -> & [= <-])%bind_Ok; by_class; eexists; split; [done|apply elem_of_app; left; among]|].
  by_class. by intros [= <-].
Qed.
(** C34: A query for information is always answered, with what its class tells if the client
    left room for it, and never with more.  Whatever type and class it asks for and however
    little room it leaves, the handler ends, without a panic, in the bytes the encoder of the
    class gives, where they fit, in STATUS_INFO_LENGTH_MISMATCH, or for a descriptor
    STATUS_BUFFER_TOO_SMALL and the room it needs, where they do not, or in the status the
    class is refused with.  This is for a share that keeps data on at least as many hosts as
    it needs to read it (with fewer, the size of the volume divides by nought, see
    [shards_below_minimum_panic]), and for names and a descriptor whose length fits 32 bits. *)
Theorem query_info_fits (dialect : Z) (op : openInfo) (v : volume) (descriptor : list Z) (infoType class outputBufferLength : Z) :
  shortName (oi_fileName op) -> shortName (oi_pathName op) -> shortName (v_backend v) -> (forall si, v_storage v = Some si -> saneStorage si) -> zlen descriptor < 2 ^ 32 ->
  exists a, queryInfo dialect op v (Ok descriptor) infoType class outputBufferLength = Ok a /\ answeredQuery dialect op v descriptor infoType class outputBufferLength a.
Proof.
  intros Hf Hp Hb Hs Hd. unfold queryInfo, answeredQuery. destruct (_ =? INFO_FILE).
  { destruct (fileInfoOf_ok dialect op class Hf Hp) as (a & Ha & H1 & H2). rewrite Ha. run_bind. eexists. split; [done|]. apply fitting_answered; [done|by apply fileInfoOf_tells]. }
  destruct (_ =? INFO_FILESYSTEM).
  { destruct (volumeInfoOf_ok v class Hb Hs) as (a & Ha & H1 & H2). rewrite Ha. run_bind. eexists. split; [done|]. apply fitting_answered; [done|by apply volumeInfoOf_tells]. }
  destruct (_ =? INFO_SECURITY); [|by eexists].
  run_bind. eexists. split; [done|]. apply fitting_answered; [by intros ? [= <-]|]. eexists. split; [done|apply list_elem_of_here].
Qed.
Definition someOpen : openInfo := OpenInfo 100 4096 0 FILE_ATTRIBUTE_NORMAL "a.txt" "d/a.txt" 0 5 FILE_READ_ATTRIBUTES false.
Definition someVolume : volume := Volume 0 9 "share" "indexd" (Some (Storage (2 ^ 40) 5 10 30)).
Lemma query_info_fits_witness :
  queryInfo SMB_DIALECT_311 someOpen someVolume (Ok []) INFO_FILE FileAllInformation 20 = Ok (Fails STATUS_INFO_LENGTH_MISMATCH None) /\
  exists a, queryInfo SMB_DIALECT_311 someOpen someVolume (Ok []) INFO_FILE FileAllInformation 20 = Ok a /\ answeredQuery SMB_DIALECT_311 someOpen someVolume [] INFO_FILE FileAllInformation 20 a.
Proof.
  split; [vm_compute; reflexivity|]. apply query_info_fits; [reflexivity|reflexivity|reflexivity|intros si [= <-]; split; [vm_compute; discriminate|right; simpl; lia]|reflexivity].
Defined.

(** A share whose redundancy is below one divides by nought. *)
Theorem shards_below_minimum_panic (r u : Z) : FileFsSizeInfo (Storage r u 3 2) = Panic.
Proof. reflexivity. Qed.

(** The times and attributes a client sets are the ones it reads: decoding the basic information
    of a file gives back what was encoded, for every time a file can have. *)
Theorem basic_info_roundtrip (fbi : FileBasicInfo) :
  Forall (fun t => - filetimeOffset < t < 900000000000) [b_CreationTime fbi; b_LastAccessTime fbi; b_LastWriteTime fbi; b_ChangeTime fbi] -> 0 <= b_FileAttributes fbi < 2 ^ 32 ->
  exists buf, FileBasicInfo_Encode fbi = Ok buf /\ FileBasicInfo_Decode buf = Ok fbi.
Proof.
  intros Ht Ha. repeat (apply Forall_cons in Ht as [? Ht]). rewrite FileBasicInfo_Encode_is. eexists. split; [done|]. destruct fbi as [c a w g t]. cbn [b_CreationTime b_LastAccessTime b_LastWriteTime b_ChangeTime b_FileAttributes] in *.
  unfold FileBasicInfo_Decode. rewrite !zlen_app, !zlen_le_enc. change (zlen (zeros 4)) with 4. simpl (_ <? 40). cbv iota.
  pose proof (Filetime_u64 c). pose proof (Filetime_u64 a). pose proof (Filetime_u64 w). pose proof (Filetime_u64 g).
  set (buf := le_enc 8 (UnixToFiletime c) ++ _). assert (get_le (E:=smbErr) buf 0 8 = Ok (UnixToFiletime c)) as -> by (subst buf; by apply get_8). run_bind.
  assert (get_le (E:=smbErr) buf 8 8 = Ok (UnixToFiletime a)) as -> by (subst buf; peel; by apply get_8). run_bind.
  assert (get_le (E:=smbErr) buf 16 8 = Ok (UnixToFiletime w)) as -> by (subst buf; peel; by apply get_8). run_bind.
  assert (get_le (E:=smbErr) buf 24 8 = Ok (UnixToFiletime g)) as -> by (subst buf; peel; by apply get_8). run_bind.
  assert (get_le (E:=smbErr) buf 32 4 = Ok t) as -> by (subst buf; peel; by apply get_4).
  run_bind. by rewrite !Filetime_roundtrip.
Qed.
Lemma basic_info_roundtrip_witness : exists buf, FileBasicInfo_Encode (BasicInfo 5 0 1700000000 7 FILE_ATTRIBUTE_HIDDEN) = Ok buf /\ FileBasicInfo_Decode buf = Ok (BasicInfo 5 0 1700000000 7 FILE_ATTRIBUTE_HIDDEN).
Proof. apply basic_info_roundtrip; [repeat constructor|]; vm_compute; split; congruence. Defined.

(** *** Security descriptors *)
Section descriptors.
Context {SID : Type} (marshal : SID -> option (list Z)) (bits : controls).
(** What marshals begins with the four bytes of a count. *)
Hypothesis marshal_long : forall sid b, marshal sid = Some b -> 4 <= zlen b.

Lemma marshalled_total sid : exists b, marshalled marshal sid = Ok b.
Proof using marshal_long.
  unfold marshalled. destruct (marshal sid) as [b|] eqn:E; [|by eexists]. apply marshal_long in E. rewrite slice_Ok by lia. run_bind. by eexists.
Qed.
(** An entry says how long it is. *)
Definition entryOf (ace : ACE) (b : list Z) : Prop := exists sid tail, marshal (ace_SID ace) = Some sid /\
  b = [ace_Type ace; ace_Flags ace] ++ le_enc 2 (zlen b) ++ le_enc 4 (ace_Access ace) ++ tail /\ tail = drop 4 sid.
Lemma ACE_Encode_total ace : exists b, ACE_Encode marshal ace = Ok b /\ (forall e, b = Some e -> entryOf ace e) /\ (b = None <-> marshal (ace_SID ace) = None).
Proof using marshal_long.
  unfold ACE_Encode. destruct (marshal (ace_SID ace)) as [sid|] eqn:E; [|by exists None]. pose proof (marshal_long _ _ E). rewrite slice_Ok by lia. run_bind. cbv zeta.
  assert (sub sid 4 (zlen sid) = drop 4 sid) as ->. { unfold sub. apply take_ge. rewrite length_drop. unfold zlen. lia. }
  set (buf := ([_; _] ++ _) ++ _). assert (buf = [ace_Type ace; ace_Flags ace] ++ le_enc 2 0 ++ le_enc 4 (ace_Access ace) ++ drop 4 sid) as Hbuf by (subst buf; by rewrite <- !app_assoc).
  assert (@put_le smbErr buf 2 2 (zlen buf) = Ok ([ace_Type ace; ace_Flags ace] ++ le_enc 2 (zlen buf) ++ le_enc 4 (ace_Access ace) ++ drop 4 sid)) as ->.
  { clearbody buf. rewrite Hbuf at 1. generalize (zlen buf) as n. intros n. unfold put_le.
    assert ((2 + 2 <=? zlen ([ace_Type ace; ace_Flags ace] ++ le_enc 2 0 ++ le_enc 4 (ace_Access ace) ++ drop 4 sid)) = true) as ->; [|done].
    rewrite !zlen_app, !zlen_le_enc. pose proof (zlen_nonneg (drop 4 sid)). change (zlen [ace_Type ace; ace_Flags ace]) with 2. apply Z.leb_le. lia. }
  run_bind. eexists. split; [done|]. split; [|done]. intros e [= <-]. exists sid, (drop 4 sid). split; [done|]. split; [|done]. by rewrite Hbuf.
Qed.
Lemma ACL_Encode_total acl : exists entries, ACL_Encode marshal acl =
    Ok (le_enc 2 (acl_Revision acl) ++ le_enc 2 (zlen (concat entries)) ++ le_enc 4 (zlen entries) ++ concat entries) /\
  Forall2 entryOf (filter (fun ace => is_Some (marshal (ace_SID ace))) (ACEs acl)) entries.
Proof using marshal_long.
  unfold ACL_Encode. assert (exists entries, ACEs_Encode marshal (ACEs acl) = Ok entries /\ Forall2 entryOf (filter (fun ace => is_Some (marshal (ace_SID ace))) (ACEs acl)) entries) as (es & -> & He).
  { induction (ACEs acl) as [|ace aces (es & IH1 & IH2)]; [by exists []|]. cbn [ACEs_Encode]. destruct (ACE_Encode_total ace) as (b & -> & Hb & Hn). run_bind. rewrite IH1. run_bind.
    rewrite filter_cons. destruct b as [e|].
    - exists (e :: es). split; [done|]. destruct (decide _) as [|Hd]; [constructor; [by apply Hb|done]|]. destruct (Hb e eq_refl) as (sid & _ & E & _). rewrite E in Hd. by destruct Hd.
    - exists es. split; [done|]. destruct (decide _) as [Hd|]; [|done]. rewrite (proj1 Hn eq_refl) in Hd. by destruct Hd. }
  run_bind. exists es. by split.
Qed.

(** A part of a descriptor: nought where it is missing, otherwise where it begins. *)
Definition partAt (buf : list Z) (o : Z) (present : bool) (part : list Z) : Prop :=
  exists off, @get_le smbErr buf o 4 = Ok off /\ (if present then off + zlen part <= zlen buf /\ sub buf off (off + zlen part) = part else off = 0 /\ part = []).
Lemma partAt_present (pre : list Z) o buf before part after : buf = pre ++ before ++ part ++ after -> zlen pre = 20 ->
  @get_le smbErr buf o 4 = Ok (20 + zlen before) -> partAt buf o true part.
Proof.
  intros -> Hp Hg. eexists. split; [exact Hg|]. split; [rewrite !zlen_app; pose proof (zlen_nonneg after); lia|].
  unfold sub. rewrite app_assoc. rewrite drop_app_length' by (rewrite length_app; unfold zlen in *; lia). apply take_app_length'. unfold zlen. lia.
Qed.
Lemma SecInfo_Encode_parts (si : SecInfo) :
  exists r, SecInfo_Encode marshal bits si = Ok r /\
    forall buf, r = Some buf -> zlen buf < 2 ^ 32 ->
      exists owner group sacl dacl,
        partAt buf 4 (sec_Type si .& OwnerDefaulted bits =? 0) owner /\ partAt buf 8 (sec_Type si .& GroupDefaulted bits =? 0) group /\
        partAt buf 12 (sec_Type si .& SACLPresent bits >? 0) sacl /\ partAt buf 16 (sec_Type si .& DACLPresent bits >? 0) dacl /\
        (sec_Type si .& OwnerDefaulted bits = 0 -> marshalled marshal (Owner si) = Ok (Some owner)) /\
        (sec_Type si .& GroupDefaulted bits = 0 -> marshalled marshal (Group si) = Ok (Some group)) /\
        (sec_Type si .& SACLPresent bits > 0 -> ACL_Encode marshal (SACL si) = Ok sacl) /\
        (sec_Type si .& DACLPresent bits > 0 -> ACL_Encode marshal (DACL si) = Ok dacl).
Proof using marshal_long.
  unfold SecInfo_Encode. cbv zeta. set (po := _ =? 0). set (pg := sec_Type si .& GroupDefaulted bits =? 0). set (ps := sec_Type si .& SACLPresent bits >? 0). set (pd := sec_Type si .& DACLPresent bits >? 0).
  assert (exists owner, (if po then marshalled marshal (Owner si) else mret (Some [])) = Ok owner /\ (po = false -> owner = Some []) /\ (po = true -> marshalled marshal (Owner si) = Ok owner)) as (owner & -> & Ho0 & Ho).
  { destruct po; [|by eexists]. destruct (marshalled_total (Owner si)) as [b ->]. by exists b. }
  run_bind. destruct owner as [owner|]; [|by exists None].
  assert (exists group, (if pg then marshalled marshal (Group si) else mret (Some [])) = Ok group /\ (pg = false -> group = Some []) /\ (pg = true -> marshalled marshal (Group si) = Ok group)) as (group & -> & Hg0 & Hg).
  { destruct pg; [|by eexists]. destruct (marshalled_total (Group si)) as [b ->]. by exists b. }
  run_bind. destruct group as [group|]; [|by exists None].
  assert (exists sacl, (if ps then ACL_Encode marshal (SACL si) else mret []) = Ok sacl /\ (ps = false -> sacl = []) /\ (ps = true -> ACL_Encode marshal (SACL si) = Ok sacl)) as (sacl & -> & Hs0 & Hs).
  { destruct ps; [|by eexists]. destruct (ACL_Encode_total (SACL si)) as (es & -> & _). by eexists. }
  run_bind. assert (exists dacl, (if pd then ACL_Encode marshal (DACL si) else mret []) = Ok dacl /\ (pd = false -> dacl = []) /\ (pd = true -> ACL_Encode marshal (DACL si) = Ok dacl)) as (dacl & -> & Hd0 & Hd).
  { destruct pd; [|by eexists]. destruct (ACL_Encode_total (DACL si)) as (es & -> & _). by eexists. }
  run_bind. match goal with |- context [mret (Some ?x)] => set (full := x) end. eexists. split; [done|].
  intros buf Eb Hlen. assert (buf = full) as -> by congruence. clear Eb. exists owner, group, sacl, dacl. unfold full in *. clear full.
  rewrite !zlen_app, !zlen_le_enc in Hlen. rewrite <- !app_assoc.
  pose proof (zlen_nonneg owner). pose proof (zlen_nonneg group). pose proof (zlen_nonneg sacl). pose proof (zlen_nonneg dacl).
  unfold u32. rewrite !(Z.mod_small (zlen owner)), !(Z.mod_small (zlen owner + zlen group)), !(Z.mod_small (zlen owner + zlen group + zlen sacl)) by lia.
  rewrite !(Z.mod_small (20 + zlen owner)), !(Z.mod_small (20 + (zlen owner + zlen group))), !(Z.mod_small (20 + (zlen owner + zlen group + zlen sacl))) by lia.
  set (o1 := if po then _ else _). set (o2 := if pg then _ else _). set (o3 := if ps then _ else _). set (o4 := if pd then _ else _).
  set (head := le_enc 2 (sec_Revision si) ++ le_enc 2 (sec_Type si) ++ le_enc 4 o1 ++ le_enc 4 o2 ++ le_enc 4 o3 ++ le_enc 4 o4).
  match goal with |- partAt ?x _ _ _ /\ _ => set (buf := x) end.
  assert (buf = head ++ owner ++ group ++ sacl ++ dacl) as Hbuf by (subst buf head; by rewrite <- !app_assoc). assert (zlen head = 20) as Lh by (subst head; rewrite !zlen_app, !zlen_le_enc; done).
  assert (@get_le smbErr buf 4 4 = Ok o1) as G1 by (subst buf; peel; apply get_4; subst o1; destruct po; lia).
  assert (@get_le smbErr buf 8 4 = Ok o2) as G2 by (subst buf; peel; apply get_4; subst o2; destruct pg; lia).
  assert (@get_le smbErr buf 12 4 = Ok o3) as G3 by (subst buf; peel; apply get_4; subst o3; destruct ps; lia).
  assert (@get_le smbErr buf 16 4 = Ok o4) as G4 by (subst buf; peel; apply get_4; subst o4; destruct pd; lia).
  clearbody buf head. repeat split.
  - subst o1. destruct po; [apply (partAt_present head 4 buf [] owner (group ++ sacl ++ dacl)); [by rewrite Hbuf|done|]; by rewrite G1|]. eexists. split; [exact G1|]. split; [done|by injection (Ho0 eq_refl)].
  - subst o2. destruct pg; [apply (partAt_present head 8 buf owner group (sacl ++ dacl)); [by rewrite Hbuf|done|]; by rewrite G2|]. eexists. split; [exact G2|]. split; [done|by injection (Hg0 eq_refl)].
  - subst o3. destruct ps; [apply (partAt_present head 12 buf (owner ++ group) sacl dacl); [by rewrite Hbuf, <- !app_assoc|done|]; by rewrite G3, zlen_app|]. eexists. split; [exact G3|]. split; [done|by apply Hs0].
  - subst o4. destruct pd; [apply (partAt_present head 16 buf (owner ++ group ++ sacl) dacl []); [by rewrite Hbuf, app_nil_r, <- !app_assoc|done|]; rewrite G4, !zlen_app; f_equal; lia|]. eexists. split; [exact G4|]. split; [done|by apply Hd0].
  - intros E. apply Ho. by apply Z.eqb_eq.
  - intros E. apply Hg. by apply Z.eqb_eq.
  - intros E. apply Hs. apply Z.gtb_lt. lia.
  - intros E. apply Hd. apply Z.gtb_lt. lia.
Qed.
End descriptors.

(** A security descriptor leads to its parts: the offsets in its head are those of the owner, the
    group and the two access lists behind it, nought for a part that is left out, and what
    stands there is that part whole - whatever the SIDs, the entries and the control bits. *)
Theorem descriptor_leads_to_parts {SID : Type} (marshal : SID -> option (list Z)) (bits : controls) (si : SecInfo) :
  (forall sid b, marshal sid = Some b -> 4 <= zlen b) ->
  exists r, SecInfo_Encode marshal bits si = Ok r /\
    forall buf, r = Some buf -> zlen buf < 2 ^ 32 ->
      exists owner group sacl dacl,
        partAt buf 4 (sec_Type si .& OwnerDefaulted bits =? 0) owner /\ partAt buf 8 (sec_Type si .& GroupDefaulted bits =? 0) group /\
        partAt buf 12 (sec_Type si .& SACLPresent bits >? 0) sacl /\ partAt buf 16 (sec_Type si .& DACLPresent bits >? 0) dacl /\
        (sec_Type si .& OwnerDefaulted bits = 0 -> marshalled marshal (Owner si) = Ok (Some owner)) /\
        (sec_Type si .& GroupDefaulted bits = 0 -> marshalled marshal (Group si) = Ok (Some group)) /\
        (sec_Type si .& SACLPresent bits > 0 -> ACL_Encode marshal (SACL si) = Ok sacl) /\
        (sec_Type si .& DACLPresent bits > 0 -> ACL_Encode marshal (DACL si) = Ok dacl).
Proof. intros Hm. by apply SecInfo_Encode_parts. Qed.
Definition plainSID (sid : list Z) : option (list Z) := Some ([1; 0; 0; 0] ++ sid).
Definition dtypBits : controls := Controls 0x1 0x2 0x10 0x2000 0x4 0x1000 0x8000.
Definition someDescriptor : SecInfo := SecInfo_ 1 0x9004 [1; 5] [1; 6] (Acl 0 []) (Acl 2 [Ace 0 0 0x1f01ff [1; 5]]).
Lemma descriptor_leads_to_parts_witness :
  exists r, SecInfo_Encode plainSID dtypBits someDescriptor = Ok r /\
    forall buf, r = Some buf -> zlen buf < 2 ^ 32 ->
      exists owner group sacl dacl,
        partAt buf 4 (sec_Type someDescriptor .& OwnerDefaulted dtypBits =? 0) owner /\ partAt buf 8 (sec_Type someDescriptor .& GroupDefaulted dtypBits =? 0) group /\
        partAt buf 12 (sec_Type someDescriptor .& SACLPresent dtypBits >? 0) sacl /\ partAt buf 16 (sec_Type someDescriptor .& DACLPresent dtypBits >? 0) dacl /\
        (sec_Type someDescriptor .& OwnerDefaulted dtypBits = 0 -> marshalled plainSID (Owner someDescriptor) = Ok (Some owner)) /\
        (sec_Type someDescriptor .& GroupDefaulted dtypBits = 0 -> marshalled plainSID (Group someDescriptor) = Ok (Some group)) /\
        (sec_Type someDescriptor .& SACLPresent dtypBits > 0 -> ACL_Encode plainSID (SACL someDescriptor) = Ok sacl) /\
        (sec_Type someDescriptor .& DACLPresent dtypBits > 0 -> ACL_Encode plainSID (DACL someDescriptor) = Ok dacl).
Proof. apply (descriptor_leads_to_parts plainSID dtypBits someDescriptor). intros sid b [= <-]. unfold zlen. cbn [length]. lia. Defined.

(** The size an access list gives is that of its entries: the eight bytes of the list itself, which
    [MS-DTYP] 2.4.5 counts in, are left out. *)
Theorem acl_size_leaves_out_its_head {SID : Type} (marshal : SID -> option (list Z)) (acl : ACL) (buf : list Z) :
  (forall sid b, marshal sid = Some b -> 4 <= zlen b) -> ACL_Encode marshal acl = Ok buf -> zlen buf < 2 ^ 16 -> @get_le smbErr buf 2 2 = Ok (zlen buf - 8).
Proof.
  intros Hm Hb Hl. destruct (ACL_Encode_total marshal Hm acl) as (es & He & _). rewrite He in Hb. injection Hb as Hb.
  assert (buf = le_enc 2 (acl_Revision acl) ++ le_enc 2 (zlen (concat es)) ++ le_enc 4 (zlen es) ++ concat es) as -> by (by rewrite <- Hb). clear Hb He.
  rewrite !zlen_app, !zlen_le_enc in *. pose proof (zlen_nonneg (concat es)). peel. rewrite get_2 by lia. f_equal. lia.
Qed.
End FileInfo.
