(* ===== verification/Responses.v ===== *)
(** The responses of the [smb2] package: how each is begun from its request, and how its
    fields are filled in.

    [begin] is what the [FromRequest] methods have in common; they differ in the sizes of
    their bodies and in the credits they answer with.  [Generate] methods work on the data
    of the response. *)
From S2P Require Import Prelude Bytes Smb2Const Utils Text Header Request Messages Fields Listing.
Import Utils Header Request Messages.

Module Responses.

Abbreviation HS := SMB2HeaderSize.
Definition with_rdata (d : list Z) (r : response) : response :=
  Response d (r_groupID r) (r_sessionID r) (r_treeID r) (r_openID r) (r_shouldEncrypt r) (r_mayCompress r).

(** ** Beginning a response *)
Inductive credits := Kept | Larger | Requested | One.
Definition answerCredits (rule : credits) (req : request) (d : list Z) : out (list Z) :=
  async ← IsFlagSet FLAGS_ASYNC_COMMAND d;
  if (async : bool) then SetCreditResponse 0 d
  else
    match rule with
    | Kept => mret d
    | Larger => cc ← CreditCharge (data req); cr ← CreditRequest (data req); SetCreditResponse (Z.max cc cr) d
    | Requested => cr ← CreditRequest (data req); SetCreditResponse cr d
    | One => SetCreditResponse 1 d
    end.
Definition begin (structSize minSize : Z) (setStatus : bool) (rule : credits) (req : request) (resp : response) : out response :=
  resp ← FromRequest req resp;
  d ← put_le (r_data resp ++ replicate (Z.to_nat minSize) 0) HS 2 structSize;
  d ← SetNextCommand 0 d;
  d ← (if setStatus then SetStatus STATUS_OK d else mret d);
  d ← answerCredits rule req d;
  mret (with_rdata d resp).

Definition SessionSetupResponse_FromRequest := begin SMB2SessionSetupResponseStructureSize SMB2SessionSetupResponseMinSize false Requested.
Definition TreeConnectResponse_FromRequest := begin SMB2TreeConnectResponseStructureSize SMB2TreeConnectResponseMinSize false Kept.
Definition TreeDisconnectResponse_FromRequest := begin SMB2TreeDisconnectResponseStructureSize SMB2TreeDisconnectResponseMinSize true Kept.
Definition LogoffResponse_FromRequest := begin SMB2LogoffResponseStructureSize SMB2LogoffResponseMinSize true One.
Definition CreateResponse_FromRequest := begin SMB2CreateResponseStructureSize SMB2CreateResponseMinSize true Kept.
Definition FlushResponse_FromRequest := begin SMB2FlushResponseStructureSize SMB2FlushResponseMinSize true Kept.
Definition ReadResponse_FromRequest := begin SMB2ReadResponseStructureSize SMB2ReadResponseMinSize true Larger.
Definition WriteResponse_FromRequest := begin SMB2WriteResponseStructureSize SMB2WriteResponseMinSize true Larger.
Definition IoctlResponse_FromRequest := begin SMB2IoctlResponseStructureSize SMB2IoctlResponseMinSize true Larger.
Definition QueryDirectoryResponse_FromRequest := begin SMB2QueryDirectoryResponseStructureSize SMB2QueryDirectoryResponseMinSize true Larger.
Definition QueryInfoResponse_FromRequest := begin SMB2QueryInfoResponseStructureSize SMB2QueryInfoResponseMinSize true Larger.
Definition SetInfoResponse_FromRequest := begin SMB2SetInfoResponseStructureSize SMB2SetInfoResponseMinSize true Larger.
Definition ChangeNotifyResponse_FromRequest := begin SMB2ChangeNotifyResponseStructureSize SMB2ChangeNotifyResponseMinSize true Larger.
Definition OplockBreakResponse_FromRequest := begin SMB2OplockBreakResponseStructureSize SMB2OplockBreakResponseMinSize true Kept.
Definition LeaseBreakResponse_FromRequest := begin SMB2LeaseBreakResponseStructureSize SMB2LeaseBreakResponseMinSize true Kept.
Definition CloseResponse_FromRequest (req : request) (resp : response) : out response :=
  resp ← begin SMB2CloseResponseStructureSize SMB2CloseResponseMinSize true Kept req resp;
  flags ← CloseRequest_Flags (data req);
  if negb (flags .& CLOSE_FLAG_POSTQUERY_ATTRIB =? 0) then
    d ← put_le (r_data resp) (HS + 2) 2 CLOSE_FLAG_POSTQUERY_ATTRIB; mret (with_rdata d resp)
  else mret resp.
Definition ErrorResponse_FromRequest (req : request) (resp : response) : out response :=
  resp ← FromRequest req resp;
  d ← SetNextCommand 0 (r_data resp ++ replicate (Z.to_nat SMB2ErrorResponseMinSize) 0);
  d ← answerCredits Kept req d;
  d ← put_le d HS 2 SMB2ErrorResponseStructureSize;
  mret (with_rdata d resp).

(** ** Filling it in *)
(** [data[:64+minSize]] with a buffer behind it. *)
Definition cutAndAppend (minSize : Z) (buf d : list Z) : out (list Z) := d ← slice d 0 (HS + minSize); mret (d ++ buf).

(** A [nil] buffer is [None]. *)
Definition SetErrorData (errorData : option (list Z)) (d : list Z) : out (list Z) :=
  d ← put_le d (HS + 4) 4 (match errorData with Some b => zlen b | None => 0 end);
  cutAndAppend SMB2ErrorResponseMinSize (match errorData with Some b => b | None => [0] end) d.
Definition NewErrorResponse (req : request) (status count : Z) (errorData : option (list Z)) : out response :=
  er ← ErrorResponse_FromRequest req noResponse;
  d ← SetStatus status (r_data er);
  d ← (if status =? STATUS_PENDING then cc ← CreditCharge (data req); cr ← CreditRequest (data req); SetCreditResponse (Z.max cc cr) d else mret d);
  d ← store d (HS + 2) count;
  d ← SetErrorData errorData d;
  mret (with_rdata d er).
Definition NegotiateErrorResponse (status : Z) : out (list Z) :=
  d ← SetStatus status (replicate (Z.to_nat (HS + SMB2ErrorResponseMinSize)) 0);
  SetFlags FLAGS_SERVER_TO_REDIR d.
Definition ErrorContextData (eid : Z) (ecd : list Z) : out (list Z) :=
  d ← put_le (replicate 8 0) 0 4 (zlen ecd);
  d ← put_le d 4 4 eid;
  mret (d ++ ecd).

Definition SessionSetupResponse_Generate (sid flags : Z) (token : list Z) (done_ : bool) (d : list Z) : out (list Z) :=
  d ← SetSessionID sid d;
  d ← SetStatus STATUS_OK d;
  d ← (if negb done_ then SetStatus STATUS_MORE_PROCESSING_REQUIRED d else mret d);
  d ← put_le d (HS + 2) 2 flags;
  d ← put_le d (HS + 4) 2 (HS + SMB2SessionSetupResponseMinSize);
  d ← put_le d (HS + 6) 2 (zlen token);
  cutAndAppend SMB2SessionSetupResponseMinSize token d.
Definition TreeConnectResponse_Generate (tid st access : Z) (encrypt compress : bool) (d : list Z) : out (list Z) :=
  d ← SetStatus STATUS_OK d;
  d ← SetTreeID tid d;
  d ← store d (HS + 2) st;
  d ← put_le d (HS + 12) 4 access;
  let flags := if encrypt then SHAREFLAG_ENCRYPT_DATA else 0 in
  let flags := if compress then flags .| SHAREFLAG_COMPRESS_DATA else flags in
  put_le d (HS + 4) 4 flags.

Definition SetFileTime (creation lastAccess lastWrite change : Z) (d : list Z) : out (list Z) :=
  d ← put_le d (HS + 8) 8 (UnixToFiletime creation);
  d ← put_le d (HS + 16) 8 (UnixToFiletime lastAccess);
  d ← put_le d (HS + 24) 8 (UnixToFiletime lastWrite);
  put_le d (HS + 32) 8 (UnixToFiletime change).
Definition SetFilesize (size allocated : Z) (d : list Z) : out (list Z) :=
  d ← put_le d (HS + 40) 8 size;
  put_le d (HS + 48) 8 allocated.
Definition SetFileAttributes (fa : Z) (d : list Z) : out (list Z) := put_le d (HS + 56) 4 fa.

(** One context, and the list of them; the order a map is walked in is the order of
    [contexts]. *)
Definition contextBlob (last : bool) (id : Z) (ctx : list Z) : out (list Z) :=
  let ctxLen := 24 + zlen ctx in
  let ctxLen := if last then ctxLen else Roundup ctxLen 8 in
  let context := replicate (Z.to_nat ctxLen) 0 in
  context ← (if last then mret context else put_le context 0 4 ctxLen);
  context ← put_le context 4 2 16;
  context ← put_le context 6 2 4;
  context ← copy_at context 16 20 (rev (le_enc 4 id));
  context ← put_le context 10 2 24;
  context ← put_le context 12 4 (zlen ctx);
  copy_at context 24 (24 + zlen ctx) ctx.
Fixpoint contextBlobs (contexts : list (Z * list Z)) : out (list Z) :=
  match contexts with
  | [] => mret []
  | (id, ctx) :: rest =>
      b ← contextBlob (match rest with [] => true | _ => false end) id ctx;
      bs ← contextBlobs rest;
      mret (b ++ bs)
  end.
Definition SetCreateContexts (contexts : list (Z * list Z)) (d : list Z) : out (list Z) :=
  match contexts with
  | [] => mret d
  | _ =>
      buf ← contextBlobs contexts;
      d ← put_le d (HS + 80) 4 (HS + 88);
      d ← put_le d (HS + 84) 4 (zlen buf);
      mret (d ++ buf)
  end.
(** The times a create answers with; an action that is none of the four leaves Go's zero
    time, which no file time can tell. *)
Definition zeroTime : Z := - 62135596800.
Definition createTimes (createAction now modTime : Z) : Z * Z * Z * Z :=
  if (createAction =? FILE_SUPERSEDED) || (createAction =? FILE_CREATED) then (now, now, now, now)
  else if createAction =? FILE_OPENED then (modTime, now, modTime, modTime)
  else if createAction =? FILE_OVERWRITTEN then (modTime, now, now, now)
  else (zeroTime, zeroTime, zeroTime, zeroTime).
Definition CreateResponse_Generate (now oplockLevel createAction size allocated modTime : Z) (isDir : bool) (fileID durableFileID : Z)
    (createContexts : list (Z * list Z)) (d : list Z) : out (list Z) :=
  d ← store d (HS + 2) oplockLevel;
  d ← put_le d (HS + 4) 4 createAction;
  let '(creation, lastAccess, lastWrite, change) := createTimes createAction now modTime in
  d ← SetFileTime creation lastAccess lastWrite change d;
  d ← (if isDir then SetFileAttributes FILE_ATTRIBUTE_DIRECTORY d
       else d ← SetFileAttributes FILE_ATTRIBUTE_NORMAL d; SetFilesize size allocated d);
  d ← copy_at d (HS + 64) (HS + 80) (le_enc 8 durableFileID ++ le_enc 8 fileID);
  SetCreateContexts createContexts d.
Definition CloseResponse_Generate (modTime size allocated fa : Z) (d : list Z) : out (list Z) :=
  flags ← get_le d (HS + 2) 2;
  if negb (flags .& CLOSE_FLAG_POSTQUERY_ATTRIB =? 0) then
    d ← SetFileTime modTime modTime modTime modTime d;
    d ← SetFileAttributes fa d;
    if fa .& FILE_ATTRIBUTE_DIRECTORY =? 0 then SetFilesize size allocated d else mret d
  else mret d.
(** [padding] is a byte; so is what is added. *)
Definition ReadResponse_Generate (buf : list Z) (padding : Z) (d : list Z) : out (list Z) :=
  let padding := if padding =? 0 then HS + SMB2ReadResponseMinSize else padding in
  if padding <? HS + SMB2ReadResponseMinSize then mret d
  else
    d ← store d (HS + 2) padding;
    d ← put_le d (HS + 4) 4 (zlen buf);
    mret (d ++ replicate (Z.to_nat (u8 (padding - HS - SMB2ReadResponseMinSize))) 0 ++ buf).
Definition WriteResponse_Generate (count : Z) (d : list Z) : out (list Z) := put_le d (HS + 4) 4 count.
(** Listings, information and change notifications: the buffer behind the response. *)
Definition SetOutputBuffer (buf d : list Z) : out (list Z) :=
  d ← put_le d (HS + 2) 2 (zlen d);
  d ← put_le d (HS + 4) 4 (zlen buf);
  mret (d ++ buf).
Definition QueryDirectoryResponse_Generate := SetOutputBuffer.
Definition QueryInfoResponse_Generate := SetOutputBuffer.
Definition ChangeNotifyResponse_Generate := SetOutputBuffer.
Definition IoctlResponse_Generate (code : Z) (fid : list Z) (flags : Z) (output d : list Z) : out (list Z) :=
  d ← put_le d (HS + 4) 4 code;
  d ← copy_at d (HS + 8) (HS + 24) fid;
  d ← put_le d (HS + 40) 4 flags;
  d ← put_le d (HS + 24) 4 (HS + SMB2IoctlResponseMinSize);
  d ← put_le d (HS + 28) 4 0;
  d ← put_le d (HS + 32) 4 (if zlen output >? 0 then HS + SMB2IoctlResponseMinSize else 0);
  d ← put_le d (HS + 36) 4 (zlen output);
  cutAndAppend SMB2IoctlResponseMinSize output d.
Definition ValidateNegotiateInfo (caps : Z) (guid : list Z) (sm dialect : Z) : out (list Z) :=
  buf ← put_le (replicate 24 0) 0 4 caps;
  buf ← copy_at buf 4 20 guid;
  buf ← put_le buf 20 2 sm;
  put_le buf 22 2 dialect.
Definition OplockBreakResponse_Generate (oplockLevel : Z) (fid d : list Z) : out (list Z) :=
  d ← store d (HS + 2) oplockLevel;
  copy_at d (HS + 8) (HS + 24) fid.
Definition LeaseBreakResponse_Generate (leaseKey : list Z) (state : Z) (d : list Z) : out (list Z) :=
  d ← copy_at d (HS + 8) (HS + 24) leaseKey;
  put_le d (HS + 24) 4 state.

(** *** Notifications, which answer nothing *)
Definition notification (size : Z) : out (list Z) :=
  h ← NewHeader (replicate (Z.to_nat (HS + size)) 0);
  h ← SetCommand SMB2_OPLOCK_BREAK h;
  h ← SetStatus STATUS_OK h;
  h ← SetFlags FLAGS_SERVER_TO_REDIR h;
  h ← SetMessageID (2 ^ 64 - 1) h;
  h ← SetCreditCharge 0 h;
  SetCreditResponse 0 h.
Definition NewOplockBreakNotification (oplockLevel : Z) (fid : list Z) (sid : Z) : out (list Z) :=
  h ← notification SMB2OplockBreakNotificationSize;
  h ← SetSessionID sid h;
  h ← SetTreeID 0 h;
  h ← put_le h HS 2 SMB2OplockBreakNotificationStructureSize;
  h ← store h (HS + 2) oplockLevel;
  copy_at h (HS + 8) (HS + 24) fid.
Definition NewLeaseBreakNotification (leaseKey : list Z) (current granted epoch : Z) (ackRequired : bool) : out (list Z) :=
  h ← notification SMB2LeaseBreakNotificationSize;
  h ← SetSessionID 0 h;
  h ← SetTreeID 0 h;
  h ← put_le h HS 2 SMB2LeaseBreakNotificationStructureSize;
  h ← put_le h (HS + 2) 2 epoch;
  h ← (if ackRequired then put_le h (HS + 4) 4 SMB2_NOTIFY_BREAK_LEASE_FLAG_ACK_REQUIRED else mret h);
  h ← copy_at h (HS + 8) (HS + 24) leaseKey;
  h ← put_le h (HS + 24) 4 current;
  put_le h (HS + 28) 4 granted.

(** *** Create contexts, asked and answered *)
Record LeaseRequest := LeaseReq { LeaseKey : list Z; LeaseState : Z; LeaseFlags : Z; ParentLeaseKey : list Z; Epoch : Z; Version : Z }.
Definition ParseLeaseRequest (d : list Z) : out (option LeaseRequest) :=
  if zlen d <? leaseRequestV1Size then mret None
  else
    st ← get_le d 16 4; flags ← get_le d 20 4; key ← slice d 0 16;
    if leaseRequestV2Size <=? zlen d then
      parent ← slice d 32 48; epoch ← get_le d 48 2; mret (Some (LeaseReq key st flags parent epoch 2))
    else mret (Some (LeaseReq key st flags (replicate 16 0) 0 1)).
Definition HandleCreateRequestLease (req : LeaseRequest) (granted epoch : Z) : out (list Z) :=
  let size := if Version req =? 2 then leaseRequestV2Size else leaseRequestV1Size in
  resp ← copy_at (replicate (Z.to_nat size) 0) 0 16 (LeaseKey req);
  resp ← put_le resp 16 4 granted;
  if Version req =? 2 then put_le resp 48 2 epoch else mret resp.
Record DurableHandleRequestV2 := DurableReq { Timeout : Z; d_Flags : Z; d_CreateGuid : list Z }.
Definition ParseDurableHandleRequestV2 (d : list Z) : out (option DurableHandleRequestV2) :=
  if zlen d <? durableHandleRequestV2Size then mret None
  else t ← get_le d 0 4; f ← get_le d 4 4; g ← slice d 16 32; mret (Some (DurableReq t f g)).
Record DurableHandleReconnectV2 := Reconnect { rc_FileID : Z; DurableID : Z; rc_CreateGuid : list Z; rc_Flags : Z }.
Definition ParseDurableHandleReconnectV2 (d : list Z) : out (option DurableHandleReconnectV2) :=
  if zlen d <? durableHandleReconnectV2Size then mret None
  else durable ← get_le d 0 8; fid ← get_le d 8 8; flags ← get_le d 32 4; g ← slice d 16 32; mret (Some (Reconnect fid durable g flags)).
Definition HandleCreateDurableHandleRequestV2 (timeout : Z) : out (list Z) := put_le (replicate 8 0) 0 4 timeout.
Definition HandleCreateDurableHandleRequest : list Z := replicate 8 0.
Definition HandleCreateQueryOnDiskID (fid vid : Z) : out (list Z) := resp ← put_le (replicate 32 0) 0 8 fid; put_le resp 8 8 vid.
(** A time that has a fraction of a second ([modNanos]) is told apart from any file time. *)
Definition HandleCreateQueryMaximalAccessRequest (ctx : list Z) (modTime modNanos maxAccess : Z) : out (list Z) :=
  let granted := resp ← put_le (replicate 8 0) 0 4 STATUS_OK; put_le resp 4 4 maxAccess in
  if negb (zlen ctx =? 8) then granted
  else
    ft ← get_le ctx 0 8;
    if (FiletimeToUnix ft =? modTime) && (modNanos =? 0) then put_le (replicate 8 0) 0 4 STATUS_NONE_MAPPED else granted.

(** ** The replies of the handlers *)
Inductive reply :=
| SessionSetup (sid flags : Z) (token : list Z) (done_ : bool)
| TreeConnect (tid st access : Z) (encrypt compress : bool)
| Create (now oplockLevel createAction size allocated modTime : Z) (isDir : bool) (fileID durableFileID : Z)
| Close (asked : bool) (modTime size allocated fa : Z)   (* whether the attributes were asked for *)
| Read (buf : list Z) (padding : Z)
| Write (count : Z)
| Buffer (command : Z) (buf : list Z)   (* a listing, information, a change *)
| Ioctl (code : Z) (fid : list Z) (flags : Z) (output : list Z)
| OplockBreak (oplockLevel : Z) (fid : list Z)
| LeaseBreak (leaseKey : list Z) (state : Z)
| Empty (command : Z).                  (* tree disconnect, logoff, flush, set info *)

Definition bufferBegin (command : Z) : request -> response -> out response :=
  if command =? SMB2_QUERY_DIRECTORY then QueryDirectoryResponse_FromRequest
  else if command =? SMB2_QUERY_INFO then QueryInfoResponse_FromRequest else ChangeNotifyResponse_FromRequest.
Definition emptyBegin (command : Z) : request -> response -> out response :=
  if command =? SMB2_TREE_DISCONNECT then TreeDisconnectResponse_FromRequest
  else if command =? SMB2_LOGOFF then LogoffResponse_FromRequest
  else if command =? SMB2_FLUSH then FlushResponse_FromRequest else SetInfoResponse_FromRequest.
Definition fromRequest (r : reply) : request -> response -> out response :=
  match r with
  | SessionSetup _ _ _ _ => SessionSetupResponse_FromRequest | TreeConnect _ _ _ _ _ => TreeConnectResponse_FromRequest
  | Create _ _ _ _ _ _ _ _ _ => CreateResponse_FromRequest | Close _ _ _ _ _ => CloseResponse_FromRequest
  | Read _ _ => ReadResponse_FromRequest | Write _ => WriteResponse_FromRequest | Buffer command _ => bufferBegin command
  | Ioctl _ _ _ _ => IoctlResponse_FromRequest | OplockBreak _ _ => OplockBreakResponse_FromRequest
  | LeaseBreak _ _ => LeaseBreakResponse_FromRequest | Empty command => emptyBegin command
  end.
Definition generate (r : reply) (d : list Z) : out (list Z) :=
  match r with
  | SessionSetup sid flags token done_ => SessionSetupResponse_Generate sid flags token done_ d
  | TreeConnect tid st access encrypt compress => TreeConnectResponse_Generate tid st access encrypt compress d
  | Create now o a size allocated m dir f df => CreateResponse_Generate now o a size allocated m dir f df [] d
  | Close _ m size allocated fa => CloseResponse_Generate m size allocated fa d
  | Read buf padding => ReadResponse_Generate buf padding d
  | Write count => WriteResponse_Generate count d
  | Buffer _ buf => SetOutputBuffer buf d
  | Ioctl code fid flags output => IoctlResponse_Generate code fid flags output d
  | OplockBreak level fid => OplockBreakResponse_Generate level fid d
  | LeaseBreak key st => LeaseBreakResponse_Generate key st d
  | Empty _ => mret d
  end.
Definition respond (r : reply) (req : request) : out (list Z) := resp ← fromRequest r req noResponse; generate r (r_data resp).

(** *** Where the words and buffers of a response are put *)
Definition word : Type := Z * nat * Z.
Definition times4 (o a b c e : Z) : list word := [(o, 8%nat, UnixToFiletime a); (o + 8, 8%nat, UnixToFiletime b); (o + 16, 8%nat, UnixToFiletime c); (o + 24, 8%nat, UnixToFiletime e)].
Definition placedWords (r : reply) : list word :=
  match r with
  | SessionSetup sid flags token done_ =>
      [(40, 8%nat, sid); (8, 4%nat, if done_ then STATUS_OK else STATUS_MORE_PROCESSING_REQUIRED); (66, 2%nat, flags); (68, 2%nat, 72); (70, 2%nat, zlen token)]
  | TreeConnect tid st access encrypt compress =>
      [(36, 4%nat, tid); (66, 1%nat, st); (76, 4%nat, access);
       (68, 4%nat, (if compress then (if encrypt then SHAREFLAG_ENCRYPT_DATA else 0) .| SHAREFLAG_COMPRESS_DATA else if encrypt then SHAREFLAG_ENCRYPT_DATA else 0))]
  | Create now o a size allocated m dir f df =>
      let '(t1, t2, t3, t4) := createTimes a now m in
      [(66, 1%nat, o); (68, 4%nat, a)] ++ times4 72 t1 t2 t3 t4 ++
      (if dir then [(120, 4%nat, FILE_ATTRIBUTE_DIRECTORY)] else [(120, 4%nat, FILE_ATTRIBUTE_NORMAL); (104, 8%nat, size); (112, 8%nat, allocated)]) ++
      [(128, 8%nat, df); (136, 8%nat, f)]
  | Close asked m size allocated fa =>
      if asked then [(66, 2%nat, CLOSE_FLAG_POSTQUERY_ATTRIB)] ++ times4 72 m m m m ++ [(120, 4%nat, fa)] ++
                    (if fa .& FILE_ATTRIBUTE_DIRECTORY =? 0 then [(104, 8%nat, size); (112, 8%nat, allocated)] else [])
      else [(66, 2%nat, 0)]
  | Read buf padding => if (padding =? 0) || (80 <=? padding) then [(66, 1%nat, if padding =? 0 then 80 else padding); (68, 4%nat, zlen buf)] else [(66, 1%nat, 0); (68, 4%nat, 0)]
  | Write count => [(68, 4%nat, count)]
  | Buffer _ buf => [(66, 2%nat, 72); (68, 4%nat, zlen buf)]
  | Ioctl code _ flags output =>
      [(68, 4%nat, code); (104, 4%nat, flags); (88, 4%nat, 112); (92, 4%nat, 0); (96, 4%nat, if zlen output >? 0 then 112 else 0); (100, 4%nat, zlen output)]
  | OplockBreak level _ => [(66, 1%nat, level)]
  | LeaseBreak _ st => [(88, 4%nat, st)]
  | Empty _ => []
  end.
Definition placedBytes (r : reply) : list (Z * list Z) :=
  match r with
  | SessionSetup _ _ token _ => [(72, token)]
  | Read buf padding => if padding =? 0 then [(80, buf)] else if 80 <=? padding then [(padding, buf)] else []
  | Buffer _ buf => [(72, buf)]
  | Ioctl _ fid _ output => [(72, fid); (112, output)]
  | OplockBreak _ fid => [(72, fid)]
  | LeaseBreak key _ => [(72, key)]
  | _ => []
  end.
Definition inWords (l : list word) : Prop := Forall (fun w => 0 <= w.2 < 2 ^ (8 * Z.of_nat w.1.2)) l.
Definition wellMade (r : reply) : Prop :=
  inWords (placedWords r) /\
  match r with
  | Ioctl _ fid _ output => zlen fid = 16 /\ zlen output < 2 ^ 32
  | OplockBreak _ fid => zlen fid = 16
  | LeaseBreak key _ => zlen key = 16
  | Read _ padding => 0 <= padding < 256
  | _ => True
  end.
(** A reply to the request it answers. *)
Definition answers (r : reply) (req : request) : Prop :=
  match r with
  | Close asked _ _ _ _ => exists flags, CloseRequest_Flags (data req) = Ok flags /\ asked = negb (flags .& CLOSE_FLAG_POSTQUERY_ATTRIB =? 0)
  | _ => True
  end.

(** ** Beginning a response *)
Definition sized (r : reply) : Z * Z :=
  match r with
  | SessionSetup _ _ _ _ => (SMB2SessionSetupResponseStructureSize, SMB2SessionSetupResponseMinSize)
  | TreeConnect _ _ _ _ _ => (SMB2TreeConnectResponseStructureSize, SMB2TreeConnectResponseMinSize)
  | Create _ _ _ _ _ _ _ _ _ => (SMB2CreateResponseStructureSize, SMB2CreateResponseMinSize)
  | Close _ _ _ _ _ => (SMB2CloseResponseStructureSize, SMB2CloseResponseMinSize)
  | Read _ _ => (SMB2ReadResponseStructureSize, SMB2ReadResponseMinSize)
  | Write _ => (SMB2WriteResponseStructureSize, SMB2WriteResponseMinSize)
  | Buffer _ _ => (9, 8)
  | Ioctl _ _ _ _ => (SMB2IoctlResponseStructureSize, SMB2IoctlResponseMinSize)
  | OplockBreak _ _ => (SMB2OplockBreakResponseStructureSize, SMB2OplockBreakResponseMinSize)
  | LeaseBreak _ _ => (SMB2LeaseBreakResponseStructureSize, SMB2LeaseBreakResponseMinSize)
  | Empty command => if (command =? SMB2_TREE_DISCONNECT) || (command =? SMB2_LOGOFF) || (command =? SMB2_FLUSH) then (4, 4) else (2, 2)
  end.

(** *** Fields laid out with something behind them *)
Definition emit (ws : list slot) (tail l : list Z) : out (list Z) := l' ← layOut ws l; mret (l' ++ tail).
Lemma emit_put l o n v k ws tail : 0 <= n -> (forall l', zlen l' = zlen l -> k l' = emit ws tail l') ->
  (put_le l o n v ≫= k) = emit ((o, le_enc (Z.to_nat n) v) :: ws) tail l.
Proof.
  intros Hn Hk. rewrite put_le_splice by done. unfold emit. cbn [layOut]. rewrite bind_bind. destruct (splice l o _) as [l1| | |] eqn:E; [|done..].
  run_bind. rewrite !bind_ret. apply Hk. by eapply zlen_splice.
Qed.
Lemma emit_store l o v k ws tail : (forall l', zlen l' = zlen l -> k l' = emit ws tail l') -> (store l o v ≫= k) = emit ((o, [v]) :: ws) tail l.
Proof.
  intros Hk. rewrite store_splice. unfold emit. cbn [layOut]. rewrite bind_bind. destruct (splice l o _) as [l1| | |] eqn:E; [|done..].
  run_bind. rewrite !bind_ret. apply Hk. by eapply zlen_splice.
Qed.
Lemma emit_copy l i j b k ws tail : 0 <= i -> i <= j -> j <= zlen l -> (forall l', zlen l' = zlen l -> k l' = emit ws tail l') ->
  (copy_at l i j b ≫= k) = emit ((i, take (Z.to_nat (j - i)) b) :: ws) tail l.
Proof.
  intros ??? Hk. rewrite copy_at_splice by done. unfold emit. cbn [layOut]. rewrite bind_bind. destruct (splice l i _) as [l1| | |] eqn:E; [|done..].
  run_bind. rewrite !bind_ret. apply Hk. by eapply zlen_splice.
Qed.
Lemma emit_copy_all l i j b k ws tail : 0 <= i -> zlen b = j - i -> j <= zlen l -> (forall l', zlen l' = zlen l -> k l' = emit ws tail l') ->
  (copy_at l i j b ≫= k) = emit ((i, b) :: ws) tail l.
Proof.
  intros Hi Hb ? Hk. pose proof (zlen_nonneg b). erewrite emit_copy by (done || lia). rewrite <- Hb. unfold zlen. by rewrite Nat2Z.id, take_ge by lia.
Qed.
Lemma emit_tail l tail : mret (l ++ tail) = emit [] tail l.
Proof. done. Qed.
Lemma emit_done l : mret l = emit [] [] l.
Proof. unfold emit. cbn [layOut]. rewrite bind_mret. by rewrite app_nil_r. Qed.
Lemma bind_id {A} (m : out A) : (m ≫= mret) = m.
Proof. by destruct m. Qed.
Lemma cutAndAppend_is minSize buf d : 0 <= HS + minSize -> zlen d = HS + minSize -> cutAndAppend minSize buf d = emit [] buf d.
Proof. intros Hm Hd. unfold cutAndAppend. rewrite <- Hd, slice_Ok by lia. run_bind. by rewrite sub_full. Qed.

(** A word that keeps clear of what a response takes from its request. *)
Definition besides (w : slot) : Prop := 0 <= w.1 /\ w.1 + zlen w.2 <= 12 \/ 14 <= w.1 /\ w.1 + zlen w.2 <= 24 \/ 32 <= w.1 /\ w.1 + zlen w.2 <= 64 \/ 66 <= w.1.
Ltac slot_bounds :=
  unfold fitsIn, besides, clear; cbn [fst snd]; rewrite ?zlen_le_enc, ?zlen_app, ?zlen_le_enc; change SMB2HeaderSize with 64 in *;
  repeat match goal with |- context [zlen [?x]] => change (zlen [x]) with 1 end; try lia.
Ltac emit_out :=
  lazymatch goal with
  | |- ((_ ≫= _) ≫= _) = _ => rewrite bind_bind; cbv beta; emit_out
  | |- (mret _ ≫= _) = _ => rewrite bind_mret; cbv beta; emit_out
  | |- (put_le _ _ _ _ ≫= _) = _ => refine (emit_put _ _ _ _ _ _ _ _ _); [lia|intros ? ?; emit_out]
  | |- (store _ _ _ ≫= _) = _ => refine (emit_store _ _ _ _ _ _ _); intros ? ?; emit_out
  | |- (copy_at _ _ _ _ ≫= _) = _ => refine (emit_copy_all _ _ _ _ _ _ _ _ _ _ _); [done|slot_bounds|slot_bounds|intros ? ?; emit_out]
  | |- put_le _ _ _ _ = _ => refine (eq_trans (eq_sym (bind_id _)) _); emit_out
  | |- copy_at _ _ _ _ = _ => refine (eq_trans (eq_sym (bind_id _)) _); emit_out
  | |- cutAndAppend _ _ _ = _ => apply cutAndAppend_is; [done|match goal with |- _ = ?b => let c := eval vm_compute in b in change b with c end; lia]
  | |- mret (_ ++ _) = _ => exact (emit_tail _ _)
  | |- mret _ = _ => exact (emit_done _)
  end.

(** *** What a response begins as *)
Record begun (req : request) (ss ms : Z) (d : list Z) : Prop := Begun {
  g_len : zlen d = 64 + ms; g_command : Command d = Command (data req); g_message : MessageID d = MessageID (data req);
  g_size : @get_le smbErr d 64 2 = Ok ss; g_zero : sub d 66 (64 + ms) = replicate (Z.to_nat (ms - 2)) 0;
}.
(** A word of the header beside those. *)
Lemma begun_put req ss ms d o n v : begun req ss ms d -> 2 <= ms -> 0 <= n -> 0 <= o /\ o + n <= 12 \/ 14 <= o /\ o + n <= 24 \/ 32 <= o /\ o + n <= 64 ->
  exists d', @put_le smbErr d o n v = Ok d' /\ begun req ss ms d'.
Proof.
  intros [L C M S Z0] Hms Hn Ho. destruct (put_le_Ok (E:=smbErr) d o n v) as [d' Hd]; [lia..|]. exists d'. split; [done|].
  unfold Command, MessageID in *. split.
  - by rewrite (zlen_put_le _ _ _ _ _ Hd).
  - unfold Command. rewrite (get_put_other _ _ _ _ _ 12 2 Hd) by lia. done.
  - unfold MessageID. rewrite (get_put_other _ _ _ _ _ 24 8 Hd) by lia. done.
  - rewrite (get_put_other _ _ _ _ _ 64 2 Hd) by lia. done.
  - rewrite (sub_put_other _ _ _ _ _ 66 (64 + ms) Hd) by lia. done.
Qed.
Lemma begin_begun ss ms st rule req : bytes (data req) -> 64 <= zlen (data req) -> 2 <= ms -> 0 <= ss < 2 ^ 16 ->
  exists r, begin ss ms st rule req noResponse = Ok r /\ begun req ss ms (r_data r).
Proof.
  intros Hb Hl Hms Hss. unfold begin. destruct (FromRequest_echoes req noResponse Hb Hl) as (f & r0 & _ & -> & L0 & _ & _ & He & _). run_bind.
  set (body := r_data r0 ++ _). assert (zlen body = 64 + ms) as Lb by (subst body; rewrite zlen_app, L0, Listing.zlen_replicate_Z by lia; done).
  destruct (put_le_Ok (E:=smbErr) body HS 2 ss) as [d Hd]; [done|lia|change HS with 64; lia|]. rewrite Hd. run_bind.
  assert (begun req ss ms d) as Hg.
  { assert (forall g, In g echoed -> off g + wid g <= 64 -> getField g d = getField g (data req)) as K.
    { intros g Hin Hg. rewrite <- (proj1 (List.Forall_forall _ _) He g Hin). rewrite !getField_le. pose proof (field_place g).
      rewrite (get_put_other _ _ _ _ _ (off g) (wid g) Hd) by (change HS with 64; lia). apply get_le_app_l; lia. }
    split.
    - by rewrite (zlen_put_le _ _ _ _ _ Hd).
    - apply (K FCommand); [simpl; tauto|simpl; lia].
    - apply (K FMessageID); [simpl; tauto|simpl; lia].
    - rewrite (get_put_same _ _ _ _ _ Hd : get_le d 64 2 = _). by rewrite Z.mod_small.
    - rewrite (sub_put_other _ _ _ _ _ 66 (64 + ms) Hd) by (change HS with 64; lia). subst body. unfold sub. rewrite drop_app_ge by (unfold zlen in L0; lia).
      unfold zlen in L0. replace (Z.to_nat 66 - length (r_data r0))%nat with 2%nat by lia. rewrite drop_replicate, take_replicate. f_equal. lia. }
  clear Hd Lb. clearbody body. unfold SetNextCommand. destruct (begun_put req ss ms d 20 4 0 Hg) as (d1 & -> & Hg1); [lia|lia|lia|]. run_bind.
  assert (exists d2, (if st then SetStatus STATUS_OK d1 else mret d1) = Ok d2 /\ begun req ss ms d2) as (d2 & -> & Hg2).
  { destruct st; [|by exists d1]. apply (begun_put req ss ms d1 8 4 STATUS_OK Hg1); lia. }
  run_bind. assert (forall v, exists d3, SetCreditResponse v d2 = Ok d3 /\ begun req ss ms d3) as HC by (intros v; apply (begun_put req ss ms d2 14 2 v Hg2); lia).
  assert (exists d3, answerCredits rule req d2 = Ok d3 /\ begun req ss ms d3) as (d3 & -> & Hg3); [|run_bind; by eexists].
  unfold answerCredits, IsFlagSet, Flags. rewrite get_le_Ok by (pose proof (g_len _ _ _ _ Hg2); lia). run_bind. rewrite bind_mret. destruct (_ >? 0); [apply HC|].
  destruct rule; [by exists d2| | |apply HC]; unfold CreditCharge, CreditRequest; rewrite !get_le_Ok by lia; rewrite ?bind_ret; apply HC.
Qed.

(** *** What is read of it *)
Definition showsWord (d : list Z) (w : word) : Prop := @get_le smbErr d w.1.1 (Z.of_nat w.1.2) = Ok w.2.
Definition showsBytes (d : list Z) (c : Z * list Z) : Prop := @slice smbErr _ d c.1 (c.1 + zlen c.2) = Ok c.2.
Record holds (req : request) (r : reply) (d : list Z) : Prop := Holds {
  h_words : Forall (showsWord d) (placedWords r); h_carried : Forall (showsBytes d) (placedBytes r);
  h_command : Command d = Command (data req); h_message : MessageID d = MessageID (data req); h_size : @get_le smbErr d 64 2 = Ok (sized r).1;
}.

(** A word is where it was laid, by itself or as one half of what was copied. *)
Definition laid (ws : list slot) (w : word) : Prop :=
  let '(o, n, v) := w in
  written (o, le_enc n v) ws \/ (exists b, written (o, le_enc n v ++ b) ws) \/ (exists o' a, o = o' + zlen a /\ written (o', a ++ le_enc n v) ws).

Section emitted.
Context (req : request) (ss ms : Z) (d d' tail : list Z) (ws : list slot).
Hypothesis d_begun : begun req ss ms d.
Hypothesis ms_2 : 2 <= ms.
Hypothesis laid_out : layOut ws d = Ok d'.
Hypothesis ws_fit : Forall (fitsIn (64 + ms)) ws.

Lemma emitted_len : zlen d' = 64 + ms.
Proof using d_begun ms_2 laid_out ws_fit. by rewrite (zlen_layOut _ _ _ laid_out), (g_len _ _ _ _ d_begun). Qed.
Lemma emitted_slice i j : 0 <= i -> i <= j -> j <= 64 + ms -> @slice smbErr _ (d' ++ tail) i j = Ok (sub d' i j).
Proof using d_begun ms_2 laid_out ws_fit.
  intros. pose proof emitted_len. pose proof (zlen_nonneg tail). rewrite slice_Ok by (rewrite ?zlen_app; lia). f_equal. unfold sub, zlen in *.
  rewrite drop_app_le by lia. apply take_app_le. rewrite length_drop. lia.
Qed.
Lemma emitted_bytes o b : written (o, b) ws -> showsBytes (d' ++ tail) (o, b).
Proof using d_begun ms_2 laid_out ws_fit.
  intros Hw. destruct (written_fits _ _ _ Hw ws_fit) as [Ho Hb]. unfold showsBytes. simpl in *. pose proof (zlen_nonneg b). rewrite emitted_slice by lia.
  f_equal. by apply (written_reads ws d d').
Qed.
Lemma emitted_word w : laid ws w -> 0 <= w.2 < 2 ^ (8 * Z.of_nat w.1.2) -> showsWord (d' ++ tail) w.
Proof using d_begun ms_2 laid_out ws_fit.
  destruct w as [[o n] v]. simpl. intros Hl Hv. unfold showsWord, get_le. simpl.
  assert (@slice smbErr _ (d' ++ tail) o (o + Z.of_nat n) = Ok (le_enc n v)) as ->; [|run_bind; unfold mret, outcome_ret; by rewrite le_dec_enc_small].
  pose proof emitted_len as Ld. destruct Hl as [Hw|[[b Hw]|(o' & a & -> & Hw)]].
  - pose proof (emitted_bytes _ _ Hw) as H. unfold showsBytes in H. simpl in H. by rewrite zlen_le_enc in H.
  - destruct (written_fits _ _ _ Hw ws_fit) as [Ho Hb]. simpl in *. rewrite zlen_app, zlen_le_enc in Hb. pose proof (zlen_nonneg b).
    pose proof (written_reads ws d d' _ _ laid_out Hw) as Hr. rewrite emitted_slice by lia. f_equal. rewrite zlen_app, zlen_le_enc in Hr.
    apply (f_equal (take n)) in Hr. rewrite take_app_length' in Hr by (by rewrite length_le_enc). rewrite <- Hr. unfold sub, zlen. rewrite take_take. f_equal. lia.
  - destruct (written_fits _ _ _ Hw ws_fit) as [Ho Hb]. simpl in *. rewrite zlen_app, zlen_le_enc in Hb. pose proof (zlen_nonneg a).
    pose proof (written_reads ws d d' _ _ laid_out Hw) as Hr. rewrite emitted_slice by lia. f_equal. rewrite zlen_app, zlen_le_enc in Hr.
    apply (f_equal (drop (length a))) in Hr. rewrite drop_app_length in Hr. rewrite <- Hr. unfold sub, zlen in *. rewrite skipn_firstn_comm, drop_drop. f_equal; [lia|]. f_equal. lia.
Qed.
Lemma emitted_kept i n : 0 <= i -> 0 <= n -> i + n <= 64 + ms -> Forall (fun w => i + n <= w.1 \/ w.1 + zlen w.2 <= i) ws -> @get_le smbErr (d' ++ tail) i n = get_le d i n.
Proof using d_begun ms_2 laid_out ws_fit.
  intros Hi Hn Hin Hc. pose proof emitted_len. rewrite get_le_app_l by lia. rewrite !get_le_Ok by (rewrite ?(g_len _ _ _ _ d_begun); lia). do 2 f_equal.
  apply (layOut_keeps_sub ws d d' i (i + n) laid_out); [done|lia|exact Hc].
Qed.
Lemma emitted_shows r : Forall besides ws -> sized r = (ss, ms) -> Forall (fun w => laid ws w \/ showsWord (d' ++ tail) w) (placedWords r) -> inWords (placedWords r) ->
  Forall (fun c => written c ws \/ showsBytes (d' ++ tail) c) (placedBytes r) -> holds req r (d' ++ tail).
Proof using d_begun ms_2 laid_out ws_fit.
  intros Hb Hs Hw Hi Hc. split.
  - apply List.Forall_forall. intros w Hin. destruct (proj1 (List.Forall_forall _ _) Hw w Hin) as [Hl|Hl]; [|done]. apply emitted_word; [done|]. by apply (proj1 (List.Forall_forall _ _) Hi w Hin).
  - apply List.Forall_forall. intros [o b] Hin. destruct (proj1 (List.Forall_forall _ _) Hc (o, b) Hin) as [Hl|Hl]; [by apply emitted_bytes|done].
  - unfold Command. rewrite emitted_kept; [exact (g_command _ _ _ _ d_begun)|lia|lia|lia|]. eapply Forall_impl; [exact Hb|]. unfold besides. intros w ?. lia.
  - unfold MessageID. rewrite emitted_kept; [exact (g_message _ _ _ _ d_begun)|lia|lia|lia|]. eapply Forall_impl; [exact Hb|]. unfold besides. intros w ?. lia.
  - rewrite emitted_kept; [by rewrite (g_size _ _ _ _ d_begun), Hs|lia|lia|lia|]. eapply Forall_impl; [exact Hb|]. unfold besides. intros w ?. lia.
Qed.
End emitted.

(** Each reply lays out its words, or leaves a zero where it began. *)
Definition untouched (ms : Z) (ws : list slot) (w : word) : Prop := ws = [] /\ w.2 = 0 /\ 66 <= w.1.1 /\ w.1.1 + Z.of_nat w.1.2 <= 64 + ms.
Definition behind (o : Z) (tail : list Z) (c : slot) : Prop := exists pre, tail = pre ++ c.2 /\ c.1 = o + zlen pre.
Record filled (m : out (list Z)) (r : reply) (ms : Z) (d : list Z) (ws : list slot) (tail : list Z) : Prop := Filled {
  f_emit : m = emit ws tail d; f_fit : Forall (fitsIn (64 + ms)) ws; f_besides : Forall besides ws;
  f_words : Forall (fun w => laid ws w \/ untouched ms ws w) (placedWords r); f_carried : Forall (fun c => written c ws \/ behind (64 + ms) tail c) (placedBytes r);
}.
Lemma le_dec_zeros n : le_dec (replicate n 0) = 0.
Proof. induction n as [|n IH]; [done|]. simpl. rewrite IH. done. Qed.
Lemma begun_zero req ss ms d tail w : begun req ss ms d -> untouched ms [] w -> showsWord (d ++ tail) w.
Proof.
  destruct w as [[o n] v]. intros [L _ _ _ Z0] (_ & H2 & H3 & H4). unfold showsWord. simpl in *. subst v. rewrite get_le_app_l by lia. rewrite get_le_Ok by lia.
  assert (sub d o (o + Z.of_nat n) = replicate n 0) as ->; [|f_equal; apply le_dec_zeros].
  transitivity (sub (sub d 66 (64 + ms)) (o - 66) (o - 66 + Z.of_nat n)).
  - unfold sub. rewrite skipn_firstn_comm, drop_drop, take_take. f_equal; [lia|]. f_equal. lia.
  - rewrite Z0. unfold sub. rewrite drop_replicate, take_replicate. f_equal. lia.
Qed.
Lemma filled_shows m req r ms d ws tail : begun req (sized r).1 ms d -> 2 <= ms -> (sized r).2 = ms -> wellMade r -> filled m r ms d ws tail ->
  exists d', m = Ok d' /\ holds req r d'.
Proof.
  intros Hd Hms Hs [Hi _] [He Hf Hb Hw Hc]. pose proof (g_len _ _ _ _ Hd) as Ld. rewrite <- Ld in Hf. destruct (layOut_Ok ws d Hf) as (d' & Hl & _). rewrite He. unfold emit. rewrite Hl. run_bind.
  eexists. split; [done|]. rewrite Ld in Hf. apply (emitted_shows req (sized r).1 ms d d' tail ws Hd Hms Hl Hf); try done.
  - rewrite <- Hs. by destruct (sized r).
  - eapply Forall_impl; [exact Hw|]. intros w [?|Hu]; [by left|right]. assert (ws = []) as -> by apply Hu. injection Hl as <-. by eapply begun_zero.
  - eapply Forall_impl; [exact Hc|]. intros [o b] [?|(pre & Ht & Ho)]; [by left|right]. simpl in *. subst tail o.
    rewrite app_assoc. unfold showsBytes. simpl.
    pose proof (emitted_len req _ ms d d' ws Hd Hms Hl Hf) as L'. rewrite slice_skip by (rewrite zlen_app; lia). rewrite zlen_app, L'.
    replace (64 + ms + zlen pre - (64 + ms + zlen pre)) with 0 by lia. replace (64 + ms + zlen pre + zlen b - (64 + ms + zlen pre)) with (zlen b) by lia.
    rewrite <- (app_nil_r b) at 1. apply slice_here.
Qed.

Ltac all_slots := repeat (apply List.Forall_cons; [slot_bounds|]); apply List.Forall_nil.
Ltac is_written := solve [repeat first [left; split; [reflexivity|all_slots] | right]].
Ltac word_laid := first [left; is_written | left; rewrite Listing.le_enc_1 by lia; is_written | right; left; eexists; is_written | right; right; eexists _, (le_enc 8 _); split; [|is_written]; reflexivity].
Ltac expose := cbn [generate placedWords placedBytes]; unfold SessionSetupResponse_Generate, TreeConnectResponse_Generate, CreateResponse_Generate, WriteResponse_Generate, SetOutputBuffer, IoctlResponse_Generate,
  OplockBreakResponse_Generate, LeaseBreakResponse_Generate, ReadResponse_Generate, SetFileTime, SetFilesize, SetFileAttributes, SetSessionID, SetStatus, SetTreeID, SetCreateContexts, times4;
  cbv zeta; try match goal with H : createTimes _ _ _ = _ |- _ => rewrite !H end; cbn [negb app].
Ltac fills_rest := first [all_slots | expose; repeat (apply List.Forall_cons; [left; word_laid|]); apply List.Forall_nil |
  expose; repeat (apply List.Forall_cons; [first [right; exists []; split; reflexivity | left; is_written]|]); apply List.Forall_nil].
Ltac fills := eexists _, _; split; [expose; emit_out|fills_rest..].

Lemma SessionSetup_filled sid flags token done_ d : zlen d = 64 + 8 -> exists ws tail, filled (generate (SessionSetup sid flags token done_) d) (SessionSetup sid flags token done_) 8 d ws tail.
Proof. intros Hd. destruct done_; fills. Qed.
Lemma TreeConnect_filled tid st access encrypt compress d : zlen d = 64 + 16 -> 0 <= st < 256 -> exists ws tail, filled (generate (TreeConnect tid st access encrypt compress) d) (TreeConnect tid st access encrypt compress) 16 d ws tail.
Proof. intros Hd Hst. destruct encrypt, compress; fills. Qed.
Lemma Write_filled count d : zlen d = 64 + 16 -> exists ws tail, filled (generate (Write count) d) (Write count) 16 d ws tail.
Proof. intros Hd. fills. Qed.
Lemma Buffer_filled command buf d : zlen d = 64 + 8 -> exists ws tail, filled (generate (Buffer command buf) d) (Buffer command buf) 8 d ws tail.
Proof. intros Hd. assert (generate (Buffer command buf) d = (d ← put_le d (HS + 2) 2 72; d ← put_le d (HS + 4) 4 (zlen buf); mret (d ++ buf))) as He by (expose; by rewrite Hd).
  eexists _, _. split; [rewrite He; emit_out|fills_rest..].
Qed.
Lemma OplockBreak_filled level fid d : zlen d = 64 + 24 -> 0 <= level < 256 -> zlen fid = 16 -> exists ws tail, filled (generate (OplockBreak level fid) d) (OplockBreak level fid) 24 d ws tail.
Proof. intros Hd Hl Hf. fills. Qed.
Lemma LeaseBreak_filled key st d : zlen d = 64 + 36 -> zlen key = 16 -> exists ws tail, filled (generate (LeaseBreak key st) d) (LeaseBreak key st) 36 d ws tail.
Proof. intros Hd Hf. fills. Qed.
Lemma Ioctl_filled code fid flags output d : zlen d = 64 + 48 -> zlen fid = 16 -> exists ws tail, filled (generate (Ioctl code fid flags output) d) (Ioctl code fid flags output) 48 d ws tail.
Proof. intros Hd Hf. fills. Qed.
Lemma Create_filled now o a size allocated m dir f df d : zlen d = 64 + 88 -> 0 <= o < 256 -> exists ws tail, filled (generate (Create now o a size allocated m dir f df) d) (Create now o a size allocated m dir f df) 88 d ws tail.
Proof. intros Hd Ho. destruct (createTimes a now m) as [[[t1 t2] t3] t4] eqn:Et. destruct dir; fills. Qed.
Lemma Empty_filled command ms d : exists ws tail, filled (generate (Empty command) d) (Empty command) ms d ws tail.
Proof. exists [], []. split; [apply emit_done|constructor..]. Qed.
Lemma Read_filled buf padding d : zlen d = 64 + 16 -> 0 <= padding < 256 -> exists ws tail, filled (generate (Read buf padding) d) (Read buf padding) 16 d ws tail.
Proof.
  intros Hd Hp. cbn [generate]. unfold ReadResponse_Generate. change (HS + SMB2ReadResponseMinSize) with 80. cbv zeta.
  set (p := if padding =? 0 then 80 else padding). destruct (Z.ltb_spec p 80) as [Hs|Hs].
  - exists [], []. split; [apply emit_done|all_slots|all_slots|..]; unfold p in *; destruct (Z.eqb_spec padding 0); try lia; cbn [placedWords placedBytes];
      destruct (Z.eqb_spec padding 0), (Z.leb_spec 80 padding); try lia; cbn [orb]; repeat (apply List.Forall_cons; [right; by repeat split|]); apply List.Forall_nil.
  - assert ((padding =? 0) || (80 <=? padding) = true /\ placedBytes (Read buf padding) = [(p, buf)]) as [Ew Ec].
    { cbn [placedBytes]. unfold p in *. destruct (Z.eqb_spec padding 0); [done|]. destruct (Z.leb_spec 80 padding); [done|lia]. }
    assert (0 <= p < 256) as Hr by (unfold p; destruct (padding =? 0); lia). eexists _, _. split; [emit_out|all_slots|all_slots|..].
    + cbn [placedWords]. rewrite Ew. fold p. repeat (apply List.Forall_cons; [left; word_laid|]); apply List.Forall_nil.
    + rewrite Ec. constructor; [|constructor]. right. eexists. split; [reflexivity|]. cbn [fst]. unfold u8. change HS with 64. change SMB2ReadResponseMinSize with 16.
      rewrite Z.mod_small by lia. rewrite Listing.zlen_replicate_Z by lia. lia.
Qed.
Lemma Close_asked m size allocated fa d : zlen d = 64 + 60 ->
  (d ← put_le d (HS + 2) 2 CLOSE_FLAG_POSTQUERY_ATTRIB; CloseResponse_Generate m size allocated fa d) =
  (d ← put_le d (HS + 2) 2 CLOSE_FLAG_POSTQUERY_ATTRIB; d ← SetFileTime m m m m d; d ← SetFileAttributes fa d;
   if fa .& FILE_ATTRIBUTE_DIRECTORY =? 0 then SetFilesize size allocated d else mret d).
Proof.
  intros Hd. destruct (put_le_Ok (E:=smbErr) d (HS + 2) 2 CLOSE_FLAG_POSTQUERY_ATTRIB) as [d1 H1]; [done|lia|change HS with 64; lia|].
  rewrite H1. run_bind. unfold CloseResponse_Generate. by rewrite (get_put_same _ _ _ _ _ H1).
Qed.
Lemma Close_filled (asked : bool) m size allocated fa d : zlen d = 64 + 60 -> @get_le smbErr d 66 2 = Ok 0 ->
  exists ws tail, filled (d ← (if asked then put_le d (HS + 2) 2 CLOSE_FLAG_POSTQUERY_ATTRIB else mret d); CloseResponse_Generate m size allocated fa d)
    (Close asked m size allocated fa) 60 d ws tail.
Proof.
  intros Hd H0. destruct asked.
  - rewrite Close_asked by done. destruct (fa .& FILE_ATTRIBUTE_DIRECTORY =? 0) eqn:Ef; eexists _, _; (split; [expose; emit_out|all_slots|all_slots|..]);
      cbn [placedWords placedBytes]; rewrite ?Ef; expose; repeat (apply List.Forall_cons; [left; word_laid|]); apply List.Forall_nil.
  - exists [], []. rewrite bind_mret. unfold CloseResponse_Generate. change (HS + 2) with 66. rewrite H0. run_bind.
    split; [apply emit_done|all_slots|all_slots|..]; cbn [placedWords placedBytes]; repeat (apply List.Forall_cons; [right; by repeat split|]); apply List.Forall_nil.
Qed.

Lemma fromRequest_begun r req : bytes (data req) -> 64 <= zlen (data req) -> match r with Close _ _ _ _ _ => False | _ => True end ->
  exists resp, fromRequest r req noResponse = Ok resp /\ begun req (sized r).1 (sized r).2 (r_data resp).
Proof.
  intros Hb Hl Hr. destruct r; try done; cbn [fromRequest sized fst snd]; try (apply begin_begun; done).
  - unfold bufferBegin. destruct (_ =? _); [|destruct (_ =? _)]; by apply begin_begun.
  - unfold emptyBegin. destruct (_ =? SMB2_TREE_DISCONNECT); [by apply begin_begun|]. destruct (_ =? SMB2_LOGOFF); [by apply begin_begun|]. destruct (_ =? SMB2_FLUSH); by apply begin_begun.
Qed.
Lemma generate_filled r d : wellMade r -> match r with Close _ _ _ _ _ => False | _ => True end -> zlen d = 64 + (sized r).2 ->
  exists ws tail, filled (generate r d) r (sized r).2 d ws tail.
Proof.
  intros [Hi Hw] Hr Hd. destruct r; try done; cbn [sized snd] in *.
  - exact (SessionSetup_filled _ _ _ _ _ Hd).
  - apply TreeConnect_filled; [exact Hd|]. unfold inWords in Hi. cbn [placedWords] in Hi. rewrite !Forall_cons in Hi. by destruct Hi as (_ & Hi & _).
  - apply Create_filled; [exact Hd|]. unfold inWords in Hi. cbn [placedWords] in Hi. destruct (createTimes _ _ _) as [[[? ?] ?] ?]. cbn [app] in Hi. rewrite !Forall_cons in Hi. by destruct Hi as (Hi & _).
  - exact (Read_filled _ _ _ Hd Hw).
  - exact (Write_filled _ _ Hd).
  - exact (Buffer_filled _ _ _ Hd).
  - exact (Ioctl_filled _ _ _ _ _ Hd (proj1 Hw)).
  - unfold inWords in Hi. cbn [placedWords] in Hi. rewrite !Forall_cons in Hi. apply OplockBreak_filled; [exact Hd| |done]. by destruct Hi as (Hi & _).
  - exact (LeaseBreak_filled _ _ _ Hd Hw).
  - apply Empty_filled.
Qed.

Lemma respond_holds r req : bytes (data req) -> 64 <= zlen (data req) -> wellMade r -> answers r req ->
  exists d, respond r req = Ok d /\ holds req r d.
Proof.
  intros Hb Hl Hw Ha. destruct (decide (match r with Close _ _ _ _ _ => false | _ => true end = true)) as [Hr|Hr].
  - assert (match r with Close _ _ _ _ _ => False | _ => True end) as Hn by (by destruct r).
    destruct (fromRequest_begun r req Hb Hl Hn) as (resp & Hf & Hg). unfold respond. rewrite Hf. run_bind.
    destruct (generate_filled r (r_data resp) Hw Hn (g_len _ _ _ _ Hg)) as (ws & tail & Hfi). eapply filled_shows; try done.
    clear. destruct r; cbn [sized snd]; try done. by destruct (_ || _).
  - destruct r as [| | |asked m size allocated fa| | | | | | |]; try done. destruct Ha as (flags & Hfl & ->). cbn [answers] in *.
    destruct (begin_begun SMB2CloseResponseStructureSize SMB2CloseResponseMinSize true Kept req Hb Hl) as (resp & Hf & Hg); [done|done|].
    set (asked := negb (flags .& CLOSE_FLAG_POSTQUERY_ATTRIB =? 0)) in *.
    destruct (Close_filled asked m size allocated fa (r_data resp) (g_len _ _ _ _ Hg)) as (ws & tail & Hfi).
    { pose proof (begun_zero req _ _ _ [] (66, 2%nat, 0) Hg) as H. rewrite app_nil_r in H. apply H. by repeat split. }
    assert (respond (Close asked m size allocated fa) req = (d ← (if asked then put_le (r_data resp) (HS + 2) 2 CLOSE_FLAG_POSTQUERY_ATTRIB else mret (r_data resp)); CloseResponse_Generate m size allocated fa d)) as ->.
    { unfold respond. cbn [fromRequest]. unfold CloseResponse_FromRequest. rewrite Hf. run_bind. rewrite Hfl. run_bind. fold asked. cbn [generate]. destruct asked.
      - rewrite !bind_bind. f_equal. - by rewrite !bind_mret. }
    eapply filled_shows; done.
Qed.

(** *** What the client is to find, by [MS-SMB2] 2.2

    The words of each response at the places the protocol has for them, and the buffers at
    the offsets the response names.  The two sizes of a file in the responses to a create and
    a close are not among them: each is in the place of the other ([sizes_are_swapped]). *)
Definition wordsOf (r : reply) : list word :=
  match r with
  | SessionSetup sid flags token done_ =>
      [(40, 8%nat, sid); (8, 4%nat, if done_ then STATUS_OK else STATUS_MORE_PROCESSING_REQUIRED); (66, 2%nat, flags); (68, 2%nat, 72); (70, 2%nat, zlen token)]
  | TreeConnect tid st access encrypt compress =>
      [(36, 4%nat, tid); (66, 1%nat, st); (76, 4%nat, access);
       (68, 4%nat, (if encrypt then SHAREFLAG_ENCRYPT_DATA else 0) .| (if compress then SHAREFLAG_COMPRESS_DATA else 0))]
  | Create now o a _ _ m dir f df =>
      let '(t1, t2, t3, t4) := createTimes a now m in
      [(66, 1%nat, o); (68, 4%nat, a)] ++ times4 72 t1 t2 t3 t4 ++ [(120, 4%nat, if dir then FILE_ATTRIBUTE_DIRECTORY else FILE_ATTRIBUTE_NORMAL); (128, 8%nat, df); (136, 8%nat, f)]
  | Close asked m _ _ fa => if asked then [(66, 2%nat, CLOSE_FLAG_POSTQUERY_ATTRIB)] ++ times4 72 m m m m ++ [(120, 4%nat, fa)] else [(66, 2%nat, 0)]
  | Read buf padding => [(66, 1%nat, if padding =? 0 then 80 else padding); (68, 4%nat, zlen buf)]
  | Write count => [(68, 4%nat, count)]
  | Buffer _ buf => [(66, 2%nat, 72); (68, 4%nat, zlen buf)]
  | Ioctl code _ flags output =>
      [(68, 4%nat, code); (104, 4%nat, flags); (88, 4%nat, 112); (92, 4%nat, 0); (96, 4%nat, if zlen output >? 0 then 112 else 0); (100, 4%nat, zlen output)]
  | OplockBreak level _ => [(66, 1%nat, level)]
  | LeaseBreak _ st => [(88, 4%nat, st)]
  | Empty _ => []
  end.
Definition carried (r : reply) : list (Z * list Z) :=
  match r with
  | SessionSetup _ _ token _ => [(72, token)]
  | Read buf padding => [(if padding =? 0 then 80 else padding, buf)]
  | Buffer _ buf => [(72, buf)]
  | Ioctl _ fid _ output => [(72, fid); (112, output)]
  | OplockBreak _ fid => [(72, fid)]
  | LeaseBreak key _ => [(72, key)]
  | _ => []
  end.
(** Data of a read is asked for behind the response, or anywhere. *)
Definition asksBehind (r : reply) : Prop := match r with Read _ padding => padding = 0 \/ 80 <= padding | _ => True end.
Record shows (req : request) (r : reply) (d : list Z) : Prop := Shows {
  s_words : Forall (showsWord d) (wordsOf r); s_carried : Forall (showsBytes d) (carried r);
  s_command : Command d = Command (data req); s_message : MessageID d = MessageID (data req); s_size : @get_le smbErr d 64 2 = Ok (sized r).1;
}.
Lemma holds_shows req r d : asksBehind r -> holds req r d -> shows req r d.
Proof.
  intros Hp [Hw Hc H1 H2 H3]. split; [| |done..].
  - destruct r as [|? ? ? e c|? ? ? ? ? ? dir ? ?|asked ? ? ? ?|? padding| | | | | |]; cbn [placedWords wordsOf asksBehind] in *; try exact Hw.
    + by destruct e, c.
    + destruct (createTimes _ _ _) as [[[t1 t2] t3] t4]. cbn [app times4] in *. rewrite !List.Forall_cons_iff in *. destruct dir; cbn [app] in *; rewrite !List.Forall_cons_iff in *; tauto.
    + destruct asked; [|exact Hw]. cbn [app times4] in *. rewrite !List.Forall_cons_iff in *. pose proof (List.Forall_nil (showsWord d)). tauto.
    + assert ((padding =? 0) || (80 <=? padding) = true) as E by (apply orb_true_iff; destruct Hp; [left; lia|right; lia]). by rewrite E in Hw.
  - destruct r as [| | | |? padding| | | | | |]; cbn [placedBytes carried asksBehind] in *; try exact Hc. destruct (padding =? 0) eqn:E0; [exact Hc|]. destruct (80 <=? padding) eqn:E8; [exact Hc|lia].
Qed.
Definition askClose : request := Request 0 0 (le_enc 4 1112364030 ++ replicate 62 0 ++ [1] ++ replicate 30 0) [] false 0 false.

(** What [SetFilesize] writes under the name of [AllocationSize], the eight bytes at 40 of
    the bodies of [MS-SMB2] 2.2.14 and 2.2.16, is the size of the file, and under
    [EndOfFile], the eight after it, the space allocated for it: a file of 5000 bytes that
    takes up 8192 is told to end at 8192. *)
Theorem sizes_are_swapped : exists d, respond (Close true 1700000000 5000 8192 FILE_ATTRIBUTE_NORMAL) askClose = Ok d /\
  @get_le smbErr d (64 + 40) 8 = Ok 5000 /\ @get_le smbErr d (64 + 48) 8 = Ok 8192.
Proof. eexists. by vm_compute. Qed.
(** A read that asks for its data at an offset before the end of the response gets no data:
    the answer is a success of no bytes. *)
Theorem padded_read_loses_data d buf padding : 0 < padding < 80 -> ReadResponse_Generate buf padding d = Ok d.
Proof.
  intros Hp. unfold ReadResponse_Generate. destruct (Z.eqb_spec padding 0); [lia|]. change (HS + SMB2ReadResponseMinSize) with 80. by destruct (Z.ltb_spec padding 80); [|lia].
Qed.
End Responses.
