(* ===== verification/Negotiate.v ===== *)
(** The negotiate: the contexts of [smb2/negotiate.go], read from a request and built into
    a response, and what [processRequest] of [conn.go] makes of the two negotiate requests,
    with the validation of it that [FSCTL_VALIDATE_NEGOTIATE_INFO] asks for later.

    [sha512], the salt that is drawn, the token [ntlmServer.Negotiate] begins with and the
    time are arguments. *)
From S2P Require Import Prelude Bytes Smb2Const Utils Text Header Request Messages Credits Fields Listing Responses.
Import Utils Header Request Text Messages.

Module Negotiate.
Abbreviation HS := SMB2HeaderSize.

(** ** Contexts, read *)
Record NegotiateContext := Context { ContextType : Z; ctx_Data : list Z }.
Fixpoint contexts_loop (n : nat) (d : list Z) (offset : Z) : out (list NegotiateContext) :=
  match n with
  | O => mret []
  | S n =>
      if zlen d <? offset + 4 then mret []
      else
        t ← slice d offset (u32 (offset + 2));
        l ← slice d (u32 (offset + 2)) (u32 (offset + 4));
        let l := le_dec l in
        if zlen d <? offset + l + 8 then mret []
        else
          b ← slice d (u32 (offset + 8)) (u32 (u32 (offset + l) + 8));
          rest ← contexts_loop n d (u32 (offset + u32 (u32 (Roundup l 8) + 8)));
          mret (Context (le_dec t) b :: rest)
  end.
Definition NegotiateContexts (d : list Z) : out (list NegotiateContext) :=
  offset ← get_le d (HS + 28) 4; count ← get_le d (HS + 32) 2; contexts_loop (Z.to_nat count) d offset.

(** The contexts of one type; a second one is an error, told by the list of the first not
    being empty, which it never is. *)
Fixpoint theContext {A} (t : Z) (parse : list Z -> out A) (ncs : list NegotiateContext) (acc : option A) : out (option A) :=
  match ncs with
  | [] => mret acc
  | nc :: ncs =>
      if ContextType nc =? t then
        match acc with
        | Some _ => Err ErrInvalidParameter
        | None => a ← parse (ctx_Data nc); theContext t parse ncs (Some a)
        end
      else theContext t parse ncs acc
  end.
(** [count] identifiers from [base] on, of at least [least] bytes. *)
Definition algorithms (least base : Z) (b : list Z) : out (list Z) :=
  if zlen b <? least then Err ErrInvalidParameter
  else
    count ← get_le b 0 2;
    if (count =? 0) || (zlen b <? 2 * count + base) then Err ErrInvalidParameter
    else words (Z.to_nat count) b base.
Definition hashAlgorithms (b : list Z) : out (list Z * list Z) :=
  if zlen b <? 6 then Err ErrInvalidParameter
  else
    count ← get_le b 0 2; length ← get_le b 2 2;
    if (count =? 0) || (zlen b <? 2 * count + length + 4) then Err ErrInvalidParameter
    else
      salt ← slice b (4 + 2 * count) (4 + 2 * count + length);
      algos ← words (Z.to_nat count) b 4;
      mret (algos, salt).
Definition flaggedAlgorithms (b : list Z) : out (Z * list Z) :=
  if zlen b <? 8 then Err ErrInvalidParameter
  else
    count ← get_le b 0 2;
    if (count =? 0) || (zlen b <? 2 * count + 8) then Err ErrInvalidParameter
    else flags ← get_le b 4 4; algos ← words (Z.to_nat count) b 8; mret (flags, algos).
(** A list that stays [nil] is the empty one: a context that is present names at least one. *)
Definition GetPreauthIntegrityCapabilities (ncs : list NegotiateContext) : out (list Z * list Z) :=
  r ← theContext PREAUTH_INTEGRITY_CAPABILITIES hashAlgorithms ncs None;
  match r with Some a => mret a | None => Err ErrInvalidParameter end.
Definition GetEncryptionCapabilities (ncs : list NegotiateContext) : out (list Z) :=
  r ← theContext ENCRYPTION_CAPABILITIES (algorithms 4 2) ncs None; mret (default [] r).
Definition GetCompressionCapabilities (ncs : list NegotiateContext) : out (Z * list Z) :=
  r ← theContext COMPRESSION_CAPABILITIES flaggedAlgorithms ncs None; mret (default (0, []) r).
Definition GetSigningCapabilities (ncs : list NegotiateContext) : out (list Z) :=
  r ← theContext SIGNING_CAPABILITIES (algorithms 4 2) ncs None; mret (default [] r).
Definition RDMATransformCapabilities (ncs : list NegotiateContext) : out (list Z) :=
  r ← theContext RDMA_TRANSFORM_CAPABILITIES (algorithms 10 8) ncs None; mret (default [] r).
(** The first of the type settles these two. *)
Definition NetName (ncs : list NegotiateContext) : list Z :=
  match List.find (fun nc => ContextType nc =? NETNAME_NEGOTIATE_CONTEXT_ID) ncs with Some nc => DecodeToString (ctx_Data nc) | None => [] end.
Definition TransportCapabilities (ncs : list NegotiateContext) : out Z :=
  match List.find (fun nc => ContextType nc =? TRANSPORT_CAPABILITIES) ncs with
  | Some nc => if zlen (ctx_Data nc) <? 4 then Err ErrInvalidParameter else get_le (ctx_Data nc) 0 4
  | None => mret 0
  end.

(** ** Contexts, built *)
Definition contextOf (t : Z) (b : list Z) : out (list Z) :=
  ctx ← put_le (replicate 8 0) 0 2 t; ctx ← put_le ctx 2 2 (zlen b); mret (ctx ++ b).
Definition PreauthIntegrityCapabilities (salt : list Z) : out (list Z) :=
  b ← put_le (replicate (Z.to_nat (6 + zlen salt)) 0) 0 2 1;
  b ← put_le b 2 2 (zlen salt);
  b ← put_le b 4 2 SHA_512;
  b ← (if zlen salt >? 0 then copy_at b 6 (zlen b) salt else mret b);
  contextOf PREAUTH_INTEGRITY_CAPABILITIES b.
Definition oneAlgorithm (t algo : Z) : out (list Z) :=
  b ← put_le (replicate 4 0) 0 2 1; b ← put_le b 2 2 algo; contextOf t b.
Definition EncryptionCapabilities (cipher : Z) : out (list Z) := oneAlgorithm ENCRYPTION_CAPABILITIES cipher.
Definition SigningCapabilities (algo : Z) : out (list Z) := oneAlgorithm SIGNING_CAPABILITIES algo.
Fixpoint putWords (ws : list Z) (o : Z) (b : list Z) : out (list Z) :=
  match ws with
  | [] => mret b
  | w :: ws => b ← put_le b o 2 w; putWords ws (o + 2) b
  end.
Definition CompressionCapabilities (flags : Z) (algos : list Z) : out (list Z) :=
  b ← put_le (replicate (Z.to_nat (8 + 2 * zlen algos)) 0) 0 2 (zlen algos);
  b ← put_le b 4 4 flags;
  b ← putWords algos 8 b;
  contextOf COMPRESSION_CAPABILITIES b.
Fixpoint paddedBlobs (blobs : list (list Z)) : list Z :=
  match blobs with
  | [] => []
  | [b] => b
  | b :: rest => b ++ replicate (Z.to_nat (Roundup (zlen b) 8 - zlen b)) 0 ++ paddedBlobs rest
  end.
Definition AddNegotiateContexts (blobs : list (list Z)) (d : list Z) : out (list Z) :=
  let d := d ++ replicate (Z.to_nat (Roundup (zlen d) 8 - zlen d)) 0 in
  d ← put_le d (HS + 6) 2 (zlen blobs);
  d ← put_le d (HS + 60) 4 (zlen d);
  mret (d ++ paddedBlobs blobs).

(** ** The response *)
Definition NegotiateResponse_FromRequest (req : request) : out (list Z) :=
  resp ← FromRequest req noResponse;
  d ← SetNextCommand 0 (r_data resp ++ replicate (Z.to_nat SMB2NegotiateResponseMinSize) 0);
  sm ← NegotiateRequest_SecurityMode (data req);
  if has sm NEGOTIATE_SIGNING_REQUIRED then put_le d (HS + 2) 2 (sm .| NEGOTIATE_SIGNING_REQUIRED) else mret d.
(** What every negotiate response says, [Generate]'s arguments and the token and time it gets for itself. *)
Record offer := Offer {
  serverGuid : list Z; of_dialect : Z; of_capabilities : Z; of_maxTransactSize : Z; of_maxReadSize : Z; of_maxWriteSize : Z; of_now : Z; of_token : list Z;
}.
Definition NegotiateResponse_Generate (o : offer) (d : list Z) : out (list Z) :=
  async ← IsFlagSet FLAGS_ASYNC_COMMAND d;
  d ← SetCreditResponse (if (async : bool) then 0 else 1) d;
  d ← put_le d HS 2 SMB2NegotiateResponseStructureSize;
  d ← put_le d (HS + 4) 2 (of_dialect o);
  d ← put_le d (HS + 2) 2 NEGOTIATE_SIGNING_ENABLED;
  d ← put_le d (HS + 24) 4 (of_capabilities o);
  d ← copy_at d (HS + 8) (HS + 24) (serverGuid o);
  d ← put_le d (HS + 28) 4 (of_maxTransactSize o);
  d ← put_le d (HS + 32) 4 (of_maxReadSize o);
  d ← put_le d (HS + 36) 4 (of_maxWriteSize o);
  d ← put_le d (HS + 40) 8 (UnixToFiletime (of_now o));
  d ← put_le d (HS + 56) 2 (HS + SMB2NegotiateResponseMinSize);
  d ← put_le d (HS + 58) 2 (zlen (of_token o));
  Responses.cutAndAppend SMB2NegotiateResponseMinSize (of_token o) d.
Definition NewNegotiateResponse (o : offer) : out (list Z) :=
  h ← NewHeader (replicate (Z.to_nat (HS + SMB2NegotiateResponseMinSize)) 0);
  h ← SetCommand SMB2_NEGOTIATE h;
  h ← SetStatus STATUS_OK h;
  h ← SetFlags FLAGS_SERVER_TO_REDIR h;
  NegotiateResponse_Generate o h.

Definition DialectCapabilities (dialect : Z) : Z :=
  let caps := GLOBAL_CAP_DFS in
  let caps := if negb (dialect =? SMB_DIALECT_202) then caps .| (GLOBAL_CAP_LEASING .| GLOBAL_CAP_LARGE_MTU) else caps in
  let caps := if Is3X dialect then caps .| (GLOBAL_CAP_MULTI_CHANNEL .| GLOBAL_CAP_PERSISTENT_HANDLES .| GLOBAL_CAP_DIRECTORY_LEASING) else caps in
  if (dialect =? SMB_DIALECT_30) || (dialect =? SMB_DIALECT_302) then caps .| GLOBAL_CAP_ENCRYPTION else caps.

(** ** The connection *)
Definition supportedHashAlgos : list Z := [SHA_512].
Definition supportedEncryptionAlgos : list Z := [AES_128_CCM; AES_128_GCM].
Definition supportedCompressionAlgos : list Z := [COMPRESSION_LZ4; COMPRESSION_LZ77; COMPRESSION_LZ77_HUFFMAN; COMPRESSION_LZNT1; COMPRESSION_PATTERN_V1].
Definition supportedSigningAlgos : list Z := [HMAC_SHA256; AES_CMAC; AES_GMAC].

Record server := Server { sv_guid : list Z; sv_capabilities : Z; sv_chainedCompression : bool; sv_multiChannel : bool }.
(** [applyCapabilities], for the one [MaxSupportedDialect]. *)
Definition applyCapabilities (s : server) : server :=
  let caps := if negb (MaxSupportedDialect =? SMB_DIALECT_202) then sv_capabilities s .| (GLOBAL_CAP_LEASING .| GLOBAL_CAP_LARGE_MTU) else sv_capabilities s in
  let '(caps, multi) := if Is3X MaxSupportedDialect then (caps .| (GLOBAL_CAP_ENCRYPTION .| GLOBAL_CAP_MULTI_CHANNEL), true) else (caps, sv_multiChannel s) in
  let chained := if MaxSupportedDialect =? SMB_DIALECT_311 then true else sv_chainedCompression s in
  Server (sv_guid s) caps chained multi.

(** The fields of [connection] a negotiate settles: first what any dialect has, then what
    the contexts of 3.1.1 agree on. *)
Record agreement := Agreement {
  preauthIntegrityHashID : Z; preauthIntegrityHashValue : list Z; compressionIDs : list Z; supportsChainedCompression : bool; signingAlgorithmID : Z;
}.
Record connection := Connection {
  commandSequenceWindow : gmap Z unit; negotiateDialect : Z; dialect : string; clientDialects : list Z;
  clientCapabilities : Z; clientGuid : list Z; clientSecurityMode : Z; serverCapabilities : Z; serverSecurityMode : Z;
  shouldSign : bool; supportsMultiCredit : bool; maxTransactSize : Z; maxReadSize : Z; maxWriteSize : Z; cipherID : Z; agreed : agreement;
}.
Definition noAgreement : agreement := Agreement 0 [] [] false 0.
Definition newConnectionState : connection :=
  Connection {[ 0 := tt ]} SMB_DIALECT_UNKNOWN "Unknown" [] 0 [] 0 0 NEGOTIATE_SIGNING_ENABLED false false MaxTransactSize MaxReadSize MaxWriteSize 0 noAgreement.
Definition set_cipher (x : Z) (c : connection) : connection :=
  Connection (commandSequenceWindow c) (negotiateDialect c) (dialect c) (clientDialects c) (clientCapabilities c) (clientGuid c) (clientSecurityMode c) (serverCapabilities c)
    (serverSecurityMode c) (shouldSign c) (supportsMultiCredit c) (maxTransactSize c) (maxReadSize c) (maxWriteSize c) x (agreed c).
Definition set_agreed (x : agreement) (c : connection) : connection :=
  Connection (commandSequenceWindow c) (negotiateDialect c) (dialect c) (clientDialects c) (clientCapabilities c) (clientGuid c) (clientSecurityMode c) (serverCapabilities c)
    (serverSecurityMode c) (shouldSign c) (supportsMultiCredit c) (maxTransactSize c) (maxReadSize c) (maxWriteSize c) (cipherID c) x.
Definition dialectName (dialect : Z) : string :=
  if dialect =? SMB_DIALECT_202 then "2.0.2" else if dialect =? SMB_DIALECT_21 then "2.1" else if dialect =? SMB_DIALECT_30 then "3.0"
  else if dialect =? SMB_DIALECT_302 then "3.0.2" else if dialect =? SMB_DIALECT_311 then "3.1.1" else "Unknown".
Definition refusesChannel (c : connection) (channel : Z) : bool := Is3X (negotiateDialect c) && negb (channel =? SMB2_CHANNEL_NONE).

(** What the dispatcher is handed: a response, or an error that ends the connection. *)
Inductive connErr := errAlreadyNegotiated | Invalid (e : smbErr).
Inductive reaction := Answer (d : list Z) | Drop (e : connErr).

Section handlers.
Context (sha512 : list Z -> list Z) (sv : server) (token salt : list Z) (now : Z).

Definition offerOf (dialect : Z) (c : connection) : offer :=
  Offer (sv_guid sv) dialect (serverCapabilities c) (u32 (maxTransactSize c)) (u32 (maxReadSize c)) (u32 (maxWriteSize c)) now token.

(** *** A legacy negotiate *)
Definition legacyNegotiate (d : list Z) (c : connection) : out (reaction * connection) :=
  match NegotiateRequest_Validate (supportsMultiCredit c) d with
  | Err ErrDialectNotSupported => r ← Responses.NegotiateErrorResponse STATUS_NOT_SUPPORTED; mret (Answer r, c)
  | Err ErrInvalidParameter => r ← Responses.NegotiateErrorResponse STATUS_INVALID_PARAMETER; mret (Answer r, c)
  | Err e => mret (Drop (Invalid e), c)
  | Ok _ =>
      dialect' ← NegotiateRequest_MaxCommonDialect d;
      mid ← MessageID d;
      let two := dialect' =? SMB_DIALECT_202 in
      let w := (Credits.grantCredits mid 1 1 (commandSequenceWindow c)).1.1 in
      let c := Connection w (if two then dialect' else negotiateDialect c) (if two then "2.0.2" else dialect c) (clientDialects c) (clientCapabilities c) (clientGuid c)
                 (clientSecurityMode c) (Z.land (sv_capabilities sv) (DialectCapabilities dialect')) (serverSecurityMode c) (shouldSign c)
                 (if dialect' =? SMB_DIALECT_MULTICREDIT then true else supportsMultiCredit c)
                 (if two then 65536 else maxTransactSize c) (if two then 65536 else maxReadSize c) (if two then 65536 else maxWriteSize c) (cipherID c) (agreed c) in
      r ← NewNegotiateResponse (offerOf dialect' c);
      mret (Answer r, c)
  | Panic => Panic
  | Stuck => Stuck
  end.

(** *** The dialect, the capabilities and the sizes *)
Definition settle (d : list Z) (c : connection) : out connection :=
  caps ← NegotiateRequest_Capabilities d;
  guid ← NegotiateRequest_ClientGuid d;
  sm ← NegotiateRequest_SecurityMode d;
  dialect' ← NegotiateRequest_MaxCommonDialect d;
  dialects ← (if dialect' =? SMB_DIALECT_311 then NegotiateRequest_Dialects d else mret (clientDialects c));
  let offered := Z.land (sv_capabilities sv) (DialectCapabilities dialect') in
  let offered := if has caps GLOBAL_CAP_MULTI_CHANNEL then offered else offered &^ GLOBAL_CAP_MULTI_CHANNEL in
  let two := dialect' =? SMB_DIALECT_202 in
  mret (Connection (commandSequenceWindow c) dialect' (dialectName dialect') dialects caps guid sm offered (serverSecurityMode c)
          (if has sm NEGOTIATE_SIGNING_REQUIRED then true else shouldSign c) (if two then supportsMultiCredit c else true)
          (if two then 65536 else maxTransactSize c) (if two then 65536 else maxReadSize c) (if two then 65536 else maxWriteSize c)
          (if has offered GLOBAL_CAP_ENCRYPTION then AES_128_CCM else cipherID c) (agreed c)).

(** *** The contexts of 3.1.1 *)
Definition preauthStart (req : request) : list Z := sha512 (replicate 64 0 ++ data req).
Definition refuse (req : request) (status : Z) (c : connection) : out (reaction * connection) :=
  er ← Responses.NewErrorResponse req status 0 None; mret (Answer (r_data er), c).
(** An error of a context is answered; anything else goes through. *)
Definition orRefuse {A} (req : request) (c : connection) (m : out A) (k : A -> out (reaction * connection)) : out (reaction * connection) :=
  match m with
  | Ok a => k a
  | Err _ => refuse req STATUS_INVALID_PARAMETER c
  | Panic => Panic
  | Stuck => Stuck
  end.
Definition agreeContexts (req : request) (resp : list Z) (c : connection) : out (reaction * connection) :=
  ncs ← NegotiateContexts (data req);
  orRefuse req c (GetPreauthIntegrityCapabilities ncs) (fun '(hashAlgos, _) =>
  if negb (IsOverlapped hashAlgos supportedHashAlgos) then refuse req STATUS_SMB_NO_PREAUTH_INTEGRITY_HASH_OVERLAP c
  else
  let a := agreed c in
  let c := set_agreed (Agreement SHA_512 (preauthStart req) (compressionIDs a) (supportsChainedCompression a) (signingAlgorithmID a)) c in
  orRefuse req c (GetEncryptionCapabilities ncs) (fun ciphers =>
  let c := match ciphers with [] => c | _ => set_cipher (FirstMatch 0 ciphers supportedEncryptionAlgos) c end in
  orRefuse req c (GetCompressionCapabilities ncs) (fun '(flags, compAlgos) =>
  let chained := sv_chainedCompression sv && has flags COMPRESSION_CAPABILITIES_FLAG_CHAINED in
  let ids := if Equal (Subset compAlgos supportedCompressionAlgos) compAlgos then compAlgos else compressionIDs a in
  let c := set_agreed (Agreement SHA_512 (preauthStart req) ids (if chained then true else supportsChainedCompression a) (signingAlgorithmID a)) c in
  let flags := if chained then COMPRESSION_CAPABILITIES_FLAG_CHAINED else COMPRESSION_CAPABILITIES_FLAG_NONE in
  orRefuse req c (GetSigningCapabilities ncs) (fun signingAlgos =>
  let sign := match signingAlgos with [] => signingAlgorithmID a | _ => FirstMatch 0 signingAlgos supportedSigningAlgos end in
  b1 ← PreauthIntegrityCapabilities salt;
  b2 ← match ciphers with [] => mret [] | _ => b ← EncryptionCapabilities (cipherID c); mret [b] end;
  b3 ← match compAlgos with [] => mret [] | _ => b ← CompressionCapabilities flags (match ids with [] => [COMPRESSION_NONE] | _ => ids end); mret [b] end;
  b4 ← match signingAlgos with [] => mret [] | _ => b ← SigningCapabilities sign; mret [b] end;
  resp ← AddNegotiateContexts (b1 :: b2 ++ b3 ++ b4) resp;
  mret (Answer resp, set_agreed (Agreement SHA_512 (sha512 (preauthStart req ++ resp)) ids (supportsChainedCompression (agreed c)) sign) c))))).

Definition negotiate (req : request) (c : connection) : out (reaction * connection) :=
  if negb (negotiateDialect c =? SMB_DIALECT_UNKNOWN) then mret (Drop errAlreadyNegotiated, c)
  else
    match NegotiateRequest_Validate (supportsMultiCredit c) (data req) with
    | Err ErrDialectNotSupported => refuse req STATUS_NOT_SUPPORTED c
    | Err ErrInvalidParameter => refuse req STATUS_INVALID_PARAMETER c
    | Err e => mret (Drop (Invalid e), c)
    | Ok _ =>
        c ← settle (data req) c;
        resp ← NegotiateResponse_FromRequest req;
        resp ← NegotiateResponse_Generate (offerOf (negotiateDialect c) c) resp;
        if negotiateDialect c =? SMB_DIALECT_311 then agreeContexts req resp c else mret (Answer resp, c)
    | Panic => Panic
    | Stuck => Stuck
    end.

(** *** A negotiate of either kind as it arrives

    [acceptRequest] lets no legacy request in once there is a dialect. *)
Definition arrive (req : request) (c : connection) : out (reaction * connection) :=
  smb ← IsSmb (data req);
  if (smb : bool) then
    if negb (negotiateDialect c =? SMB_DIALECT_UNKNOWN) then mret (Drop (Invalid ErrWrongProtocol), c)
    else legacyNegotiate (data req)
           (Connection (Credits.grantCredits 0 1 1 (commandSequenceWindow c)).1.1 (negotiateDialect c) (dialect c) (clientDialects c) (clientCapabilities c) (clientGuid c)
              (clientSecurityMode c) (serverCapabilities c) (serverSecurityMode c) (shouldSign c) (supportsMultiCredit c) (maxTransactSize c) (maxReadSize c) (maxWriteSize c) (cipherID c) (agreed c))
  else negotiate req c.

(** *** FSCTL_VALIDATE_NEGOTIATE_INFO, on the file ID it takes *)
Definition DummyFileID : list Z := replicate 16 255.
Definition validateNegotiate (req : request) (c : connection) : out reaction :=
  let d := data req in
  if Is3X (negotiateDialect c) then
    if negotiateDialect c =? SMB_DIALECT_311 then mret (Drop (Invalid ErrInvalidParameter))
    else
      mo ← IoctlRequest_MaxOutputResponse d;
      if mo <? 24 then mret (Drop (Invalid ErrWrongLength))
      else
        match IoctlRequest_ValidateNegotiateInfo d with
        | Err _ => mret (Drop (Invalid ErrInvalidParameter))
        | Panic => Panic
        | Stuck => Stuck
        | Ok (NegotiateInfo caps guid sm dialects) =>
            if (MaxSupportedDialect =? SMB_DIALECT_311) && (negb (Equal dialects (clientDialects c)) || negb (MaxCommon dialects (clientDialects c) =? negotiateDialect c))
            then mret (Drop (Invalid ErrInvalidParameter))
            else if negb (bool_decide (guid = clientGuid c)) then mret (Drop (Invalid ErrInvalidParameter))
            else if negb (sm =? clientSecurityMode c) then mret (Drop (Invalid ErrInvalidParameter))
            else if negb (caps =? clientCapabilities c) then mret (Drop (Invalid ErrInvalidParameter))
            else
              resp ← Responses.IoctlResponse_FromRequest req noResponse;
              code ← IoctlRequest_CtlCode d;
              info ← Responses.ValidateNegotiateInfo (serverCapabilities c) (sv_guid sv) (serverSecurityMode c) (negotiateDialect c);
              r ← Responses.IoctlResponse_Generate code DummyFileID 0 info (r_data resp);
              mret (Answer r)
        end
  else er ← Responses.NewErrorResponse req STATUS_FILE_CLOSED 0 None; mret (Answer (r_data er)).
End handlers.

(** ** Contexts read back *)
Definition flat (nc : NegotiateContext) : list Z := le_enc 2 (ContextType nc) ++ le_enc 2 (zlen (ctx_Data nc)) ++ replicate 4 0 ++ ctx_Data nc.
Definition sound (nc : NegotiateContext) : Prop := 0 <= ContextType nc < 2 ^ 16 /\ zlen (ctx_Data nc) < 2 ^ 16.
Lemma contextOf_flat nc : contextOf (ContextType nc) (ctx_Data nc) = Ok (flat nc).
Proof. unfold flat. by rewrite !app_assoc. Qed.
Lemma zlen_flat nc : zlen (flat nc) = 8 + zlen (ctx_Data nc).
Proof. unfold flat. rewrite !zlen_app, !zlen_le_enc. change (zlen (replicate 4 0)) with 4. lia. Qed.
Lemma Roundup_8_add x : Roundup (8 + x) 8 = Roundup x 8 + 8.
Proof. rewrite !Listing.Roundup_8_is. replace (8 + x + 7) with (x + 7 + 1 * 8) by lia. rewrite Z.div_add by lia. lia. Qed.
Lemma slice_at (pre a post : list Z) i j : i = zlen pre -> j = i + zlen a -> @slice smbErr _ (pre ++ a ++ post) i j = Ok a.
Proof.
  intros -> ->. rewrite slice_skip by lia. replace (zlen pre - zlen pre) with 0 by lia. replace (zlen pre + zlen a - zlen pre) with (zlen a) by lia. apply slice_here.
Qed.
(** One context of the walk. *)
Lemma contexts_step n pre nc post : sound nc -> zlen (pre ++ flat nc ++ post) < 2 ^ 31 ->
  contexts_loop (S n) (pre ++ flat nc ++ post) (zlen pre) =
  (rest ← contexts_loop n (pre ++ flat nc ++ post) (zlen pre + 8 + Roundup (zlen (ctx_Data nc)) 8); mret (nc :: rest)).
Proof.
  intros [Ht Hl] Hd. destruct nc as [t b]. simpl in Ht, Hl. unfold flat in *. cbn [ContextType ctx_Data] in *.
  rewrite !zlen_app, !zlen_le_enc in Hd. change (zlen (replicate 4 0)) with 4 in Hd. pose proof (zlen_nonneg pre). pose proof (zlen_nonneg b). pose proof (zlen_nonneg post).
  pose proof (Roundup_8 (zlen b) ltac:(lia)) as [HR _]. cbn [contexts_loop]. set (d := pre ++ _).
  assert (zlen d = zlen pre + 8 + zlen b + zlen post) as Ld by (subst d; rewrite !zlen_app, !zlen_le_enc; change (zlen (replicate 4 0)) with 4; lia).
  destruct (Z.ltb_spec (zlen d) (zlen pre + 4)); [lia|]. unfold u32. rewrite !Z.mod_small by lia.
  assert (slice d (zlen pre) (zlen pre + 2) = @Ok smbErr _ (le_enc 2 t)) as ->.
  { subst d. rewrite <- !app_assoc. apply slice_at; rewrite ?zlen_le_enc; lia. }
  run_bind. assert (slice d (zlen pre + 2) (zlen pre + 4) = @Ok smbErr _ (le_enc 2 (zlen b))) as ->.
  { subst d. rewrite <- !app_assoc, (app_assoc pre). apply slice_at; rewrite ?zlen_app, ?zlen_le_enc; lia. }
  run_bind. cbv zeta. rewrite !le_dec_enc_small by (simpl; lia). destruct (Z.ltb_spec (zlen d) (zlen pre + zlen b + 8)); [lia|].
  rewrite (Z.mod_small (zlen pre + zlen b)), (Z.mod_small (Roundup (zlen b) 8)) by lia. rewrite (Z.mod_small (Roundup (zlen b) 8 + 8)) by lia. rewrite !Z.mod_small by lia.
  assert (slice d (zlen pre + 8) (zlen pre + zlen b + 8) = @Ok smbErr _ b) as ->.
  { assert (d = (pre ++ le_enc 2 t ++ le_enc 2 (zlen b) ++ replicate 4 0) ++ b ++ post) as -> by (subst d; by rewrite <- !app_assoc). apply slice_at; rewrite ?zlen_app, ?zlen_le_enc; change (zlen (replicate 4 0)) with 4; lia. }
  run_bind. by replace (zlen pre + (Roundup (zlen b) 8 + 8)) with (zlen pre + 8 + Roundup (zlen b) 8) by lia.
Qed.
Lemma contexts_walk cs : forall pre, Forall sound cs -> zlen (pre ++ paddedBlobs (map flat cs)) < 2 ^ 31 ->
  contexts_loop (length cs) (pre ++ paddedBlobs (map flat cs)) (zlen pre) = Ok cs.
Proof.
  induction cs as [|nc cs IH]; intros pre Hs Hd; [done|]. apply Forall_cons in Hs as [Hn Hs]. cbn [length map] in *.
  pose proof (zlen_nonneg (ctx_Data nc)) as Hb. pose proof (Roundup_8 (zlen (ctx_Data nc)) Hb) as [HR _].
  destruct cs as [|nc' cs'].
  - cbn [paddedBlobs map] in *. rewrite <- (app_nil_r (flat nc)) in *. by rewrite contexts_step.
  - set (pad := replicate (Z.to_nat (Roundup (zlen (flat nc)) 8 - zlen (flat nc))) 0).
    assert (paddedBlobs (flat nc :: map flat (nc' :: cs')) = flat nc ++ pad ++ paddedBlobs (map flat (nc' :: cs'))) as E by done.
    rewrite E in *. rewrite contexts_step by done.
    assert (zlen (pre ++ flat nc ++ pad) = zlen pre + 8 + Roundup (zlen (ctx_Data nc)) 8) as <-.
    { subst pad. rewrite !zlen_app. rewrite Listing.zlen_replicate_Z; rewrite !zlen_flat, ?Roundup_8_add; lia. }
    replace (pre ++ flat nc ++ pad ++ paddedBlobs (map flat (nc' :: cs'))) with ((pre ++ flat nc ++ pad) ++ paddedBlobs (map flat (nc' :: cs'))) in * by (by rewrite <- !app_assoc).
    rewrite (IH _ Hs Hd). done.
Qed.

(** *** The contexts the server builds *)
Definition preauthContext (salt : list Z) : NegotiateContext := Context PREAUTH_INTEGRITY_CAPABILITIES (le_enc 2 1 ++ le_enc 2 (zlen salt) ++ le_enc 2 SHA_512 ++ salt).
Definition oneContext (t algo : Z) : NegotiateContext := Context t (le_enc 2 1 ++ le_enc 2 algo).
Definition wordBytes (ws : list Z) : list Z := List.concat (map (le_enc 2) ws).
Definition compressionContext (flags : Z) (algos : list Z) : NegotiateContext :=
  Context COMPRESSION_CAPABILITIES (le_enc 2 (zlen algos) ++ replicate 2 0 ++ le_enc 4 flags ++ wordBytes algos).

Lemma zlen_wordBytes ws : zlen (wordBytes ws) = 2 * zlen ws.
Proof. induction ws as [|w ws IH]; [done|]. unfold wordBytes in *. cbn [map List.concat]. rewrite zlen_app, zlen_le_enc, zlen_cons, IH. lia. Qed.
Lemma oneAlgorithm_is t algo : oneAlgorithm t algo = Ok (flat (oneContext t algo)).
Proof. unfold oneAlgorithm. change (put_le (replicate 4 0) 0 2 1) with (@Ok smbErr _ (le_enc 2 1 ++ replicate 2 0)). run_bind.
  change (put_le (le_enc 2 1 ++ replicate 2 0) 2 2 algo) with (@Ok smbErr _ (le_enc 2 1 ++ le_enc 2 algo)). run_bind. apply (contextOf_flat (oneContext t algo)).
Qed.
(** Writing into the zeros behind what is written already. *)
Lemma put_next (pre zs : list Z) n v o : o = zlen pre -> put_le (pre ++ replicate n 0 ++ zs) o (Z.of_nat n) v = @Ok smbErr _ ((pre ++ le_enc n v) ++ zs).
Proof.
  intros ->. rewrite put_le_splice by lia. rewrite Nat2Z.id. pose proof (zlen_nonneg zs). rewrite splice_Ok.
  - f_equal. rewrite <- !app_assoc. unfold zlen. rewrite Nat2Z.id, take_app_length. do 2 f_equal. rewrite length_le_enc. rewrite drop_app_ge by lia.
    replace (Z.to_nat (Z.of_nat (length pre) + Z.of_nat n) - length pre)%nat with n by lia. by rewrite drop_app_length' by (by rewrite length_replicate).
  - split; simpl; [apply zlen_nonneg|]. rewrite !zlen_app, zlen_le_enc, zlen_replicate. lia.
Qed.
Lemma PreauthIntegrityCapabilities_is salt : PreauthIntegrityCapabilities salt = Ok (flat (preauthContext salt)).
Proof.
  unfold PreauthIntegrityCapabilities. pose proof (zlen_nonneg salt). set (zs := replicate (length salt) 0).
  replace (replicate (Z.to_nat (6 + zlen salt)) 0) with ([] ++ replicate 2 0 ++ replicate 2 0 ++ replicate 2 0 ++ zs)
    by (subst zs; rewrite app_nil_l, !app_assoc, <- !replicate_add; f_equal; unfold zlen; lia).
  rewrite (put_next [] _ 2 1 0) by done. run_bind. rewrite (put_next ([] ++ le_enc 2 1) _ 2 _ 2) by done. run_bind.
  rewrite (put_next (([] ++ le_enc 2 1) ++ le_enc 2 (zlen salt)) _ 2 _ 4) by done. run_bind. cbn [app]. set (pre := (le_enc 2 1 ++ _) ++ _).
  assert (zlen pre = 6) as Lp by (subst pre; by rewrite !zlen_app, !zlen_le_enc). assert (zlen zs = zlen salt) as Lz by (subst zs; by rewrite zlen_replicate).
  assert ((if zlen salt >? 0 then copy_at (pre ++ zs) 6 (zlen (pre ++ zs)) salt else mret (pre ++ zs)) = @Ok smbErr _ (pre ++ salt)) as ->.
  { rewrite Z.gtb_ltb. destruct (Z.ltb_spec 0 (zlen salt)).
    - rewrite copy_at_splice by (rewrite ?zlen_app; lia). rewrite take_ge by (rewrite zlen_app; unfold zlen in *; lia).
      rewrite splice_Ok by (split; cbn [fst snd]; rewrite ?zlen_app; lia). f_equal. rewrite take_app_length' by (unfold zlen in *; lia). f_equal.
      rewrite drop_ge by (rewrite length_app; unfold zlen in *; lia). apply app_nil_r.
    - assert (salt = []) as -> by (destruct salt; [done|rewrite zlen_cons in *; pose proof (zlen_nonneg salt); lia]). done. }
  run_bind. subst pre. rewrite <- !app_assoc. apply (contextOf_flat (preauthContext salt)).
Qed.
Lemma putWords_is ws : forall pre o, o = zlen pre -> putWords ws o (pre ++ replicate (2 * length ws) 0) = Ok (pre ++ wordBytes ws).
Proof.
  induction ws as [|w ws IH]; intros pre o ->; [done|]. cbn [putWords length]. replace (2 * S (length ws))%nat with (2 + 2 * length ws)%nat by lia. rewrite replicate_add.
  rewrite (put_next pre _ 2 w) by done. run_bind. rewrite IH by (rewrite zlen_app, zlen_le_enc; done). unfold wordBytes. cbn [map List.concat]. by rewrite <- app_assoc.
Qed.
Lemma CompressionCapabilities_is flags algos : CompressionCapabilities flags algos = Ok (flat (compressionContext flags algos)).
Proof.
  unfold CompressionCapabilities. pose proof (zlen_nonneg algos).
  replace (replicate (Z.to_nat (8 + 2 * zlen algos)) 0) with ([] ++ replicate 2 0 ++ replicate 2 0 ++ replicate 4 0 ++ replicate (2 * length algos) 0)
    by (rewrite app_nil_l, !app_assoc, <- !replicate_add; f_equal; unfold zlen; lia).
  rewrite (put_next [] _ 2 _ 0) by done. run_bind. rewrite (app_assoc _ (replicate 2 0)). rewrite (put_next (([] ++ le_enc 2 (zlen algos)) ++ replicate 2 0) _ 4 flags 4) by done. run_bind.
  rewrite putWords_is by done. run_bind. rewrite <- !app_assoc. apply (contextOf_flat (compressionContext flags algos)).
Qed.

(** *** What is read of them *)
Definition is_word (x : Z) : Prop := 0 <= x < 2 ^ 16.
Lemma get_at (pre : list Z) n v post o : o = zlen pre -> @get_le smbErr (pre ++ le_enc n v ++ post) o (Z.of_nat n) = Ok (v mod 2 ^ (8 * Z.of_nat n)).
Proof. intros ->. rewrite get_skip by lia. rewrite Z.sub_diag. apply get_here. Qed.
Lemma words_read ws : forall pre post o, o = zlen pre -> Forall is_word ws -> words (length ws) (pre ++ wordBytes ws ++ post) o = Ok ws.
Proof.
  induction ws as [|w ws IH]; intros pre post o -> Hw; [done|]. apply Forall_cons in Hw as [Hw Hs]. cbn [length words]. unfold wordBytes. cbn [map List.concat]. rewrite <- app_assoc.
  rewrite (get_at pre 2 w _ (zlen pre)) by done. run_bind. rewrite app_assoc. change (List.concat (map (le_enc 2) ws)) with (wordBytes ws).
  rewrite IH by (done || (rewrite zlen_app, zlen_le_enc; done)). run_bind. rewrite Z.mod_small by done. done.
Qed.
Lemma algorithms_one t x : is_word x -> algorithms 4 2 (ctx_Data (oneContext t x)) = Ok [x].
Proof.
  intros Hx. unfold oneContext. cbn [ctx_Data]. unfold algorithms. rewrite zlen_app, !zlen_le_enc. change (Z.of_nat 2 + Z.of_nat 2 <? 4) with false. cbv iota.
  rewrite get_2 by lia. run_bind. change ((1 =? 0) || (Z.of_nat 2 + Z.of_nat 2 <? 2 * 1 + 2)) with false. cbv iota.
  pose proof (words_read [x] (le_enc 2 1) [] 2 eq_refl) as H. unfold wordBytes in H. cbn [map List.concat length] in H. rewrite !app_nil_r in H. apply H. by constructor.
Qed.
Lemma hashAlgorithms_read salt : zlen salt < 2 ^ 16 -> hashAlgorithms (ctx_Data (preauthContext salt)) = Ok ([SHA_512], salt).
Proof.
  intros Hs. pose proof (zlen_nonneg salt). unfold preauthContext. cbn [ctx_Data]. unfold hashAlgorithms. set (b := le_enc 2 1 ++ _).
  assert (zlen b = 6 + zlen salt) as Lb by (subst b; rewrite !zlen_app, !zlen_le_enc; lia).
  destruct (Z.ltb_spec (zlen b) 6); [lia|]. subst b. rewrite get_2 by lia. run_bind. rewrite (get_at (le_enc 2 1) 2 (zlen salt) _ 2 eq_refl : get_le _ 2 2 = _). run_bind.
  rewrite Z.mod_small by (simpl; lia). rewrite Lb. destruct (Z.ltb_spec (6 + zlen salt) (2 * 1 + zlen salt + 4)); [lia|]. cbn [orb Z.eqb].
  assert (slice (le_enc 2 1 ++ le_enc 2 (zlen salt) ++ le_enc 2 SHA_512 ++ salt) (4 + 2 * 1) (4 + 2 * 1 + zlen salt) = @Ok smbErr _ salt) as ->.
  { rewrite <- (app_nil_r salt) at 2. rewrite !app_assoc, <- (app_assoc _ salt []). apply slice_at; rewrite ?zlen_app, ?zlen_le_enc; lia. }
  run_bind. rewrite app_assoc.
  pose proof (words_read [SHA_512] (le_enc 2 1 ++ le_enc 2 (zlen salt)) salt 4) as Hw. unfold wordBytes in Hw. cbn [map List.concat length] in Hw. rewrite app_nil_r in Hw.
  change (Z.to_nat 1) with 1%nat. rewrite Hw; [done|by rewrite zlen_app, !zlen_le_enc|by repeat constructor].
Qed.
Lemma flaggedAlgorithms_read flags algos : 0 <= flags < 2 ^ 32 -> algos <> [] -> zlen algos < 2 ^ 16 -> Forall is_word algos ->
  flaggedAlgorithms (ctx_Data (compressionContext flags algos)) = Ok (flags, algos).
Proof.
  intros Hf Hn Hl Hw. pose proof (zlen_nonneg algos). unfold compressionContext. cbn [ctx_Data]. unfold flaggedAlgorithms. set (b := le_enc 2 _ ++ _).
  assert (zlen b = 8 + 2 * zlen algos) as Lb by (subst b; rewrite !zlen_app, !zlen_le_enc, zlen_wordBytes, zlen_replicate; lia).
  assert (0 < zlen algos) by (destruct algos; [done|]; rewrite zlen_cons; pose proof (zlen_nonneg algos); lia).
  destruct (Z.ltb_spec (zlen b) 8); [lia|]. rewrite Lb. subst b. rewrite get_2 by lia. run_bind. destruct (Z.eqb_spec (zlen algos) 0); [lia|].
  destruct (Z.ltb_spec (8 + 2 * zlen algos) (2 * zlen algos + 8)); [lia|]. cbn [orb]. rewrite (app_assoc (le_enc 2 _)).
  rewrite (get_at (le_enc 2 (zlen algos) ++ replicate 2 0) 4 flags _ 4 eq_refl : get_le _ 4 4 = _). run_bind. rewrite Z.mod_small by done.
  rewrite app_assoc. pose proof (words_read algos ((le_enc 2 (zlen algos) ++ replicate 2 0) ++ le_enc 4 flags) [] 8) as Hr. rewrite app_nil_r in Hr.
  unfold zlen at 1. rewrite Nat2Z.id. rewrite Hr; [done|by rewrite !zlen_app, !zlen_le_enc|done].
Qed.

(** *** The contexts of a response ([MS-SMB2] 2.2.4) *)
Definition contextsOf (r : list Z) : out (list NegotiateContext) :=
  count ← get_le r (HS + 6) 2; offset ← get_le r (HS + 60) 4; contexts_loop (Z.to_nat count) r offset.
Lemma AddNegotiateContexts_read cs d : Forall sound cs -> zlen cs < 2 ^ 16 -> 128 <= zlen d -> zlen d + 8 + zlen (paddedBlobs (map flat cs)) < 2 ^ 31 ->
  exists r, AddNegotiateContexts (map flat cs) d = Ok r /\ contextsOf r = Ok cs.
Proof.
  intros Hs Hc Hd Ht. pose proof (zlen_nonneg cs). pose proof (zlen_nonneg (paddedBlobs (map flat cs))). pose proof (Roundup_8 (zlen d) ltac:(lia)) as [HR _].
  unfold AddNegotiateContexts. cbv zeta. set (d0 := d ++ _). assert (zlen d0 = Roundup (zlen d) 8) as L0 by (subst d0; rewrite zlen_app, Listing.zlen_replicate_Z; lia).
  clearbody d0. destruct (put_le_Ok (E:=smbErr) d0 (HS + 6) 2 (zlen (map flat cs))) as [d1 H1]; [done|lia|change HS with 64; lia|]. rewrite H1. run_bind.
  pose proof (zlen_put_le _ _ _ _ _ H1) as L1.
  destruct (put_le_Ok (E:=smbErr) d1 (HS + 60) 4 (zlen d1)) as [d2 H2]; [done|lia|change HS with 64; lia|]. rewrite H2. run_bind. pose proof (zlen_put_le _ _ _ _ _ H2) as L2.
  eexists. split; [done|]. unfold contextsOf. change HS with 64 in *. rewrite !get_le_app_l by lia.
  rewrite (get_put_other _ _ _ _ _ (64 + 6) 2 H2) by lia. rewrite (get_put_same _ _ _ _ _ H1). run_bind. rewrite (get_put_same _ _ _ _ _ H2). run_bind.
  assert (zlen (map flat cs) = zlen cs) as -> by (unfold zlen; by rewrite length_map). rewrite !Z.mod_small by (simpl; lia). rewrite <- L2.
  unfold zlen at 1. rewrite Nat2Z.id. apply contexts_walk; [done|]. rewrite zlen_app. lia.
Qed.

(** ** What the client offered *)
Lemma words_are n : forall b o ws, bytes b -> 0 <= o -> words n b o = Ok ws -> Forall is_word ws /\ length ws = n.
Proof.
  induction n as [|n IH]; intros b o ws Hb Ho H; cbn [words] in H; [injection H as <-; by split|]. apply bind_Ok in H as (w & Hw & H). apply bind_Ok in H as (ws' & Hs & H).
  injection H as <-. destruct (IH b (o + 2) ws' Hb ltac:(lia) Hs) as [H1 H2]. split; [|simpl; lia]. constructor; [|done]. by apply (get_le_range b o 2).
Qed.
Lemma slice_sub (d : list Z) i j b : @slice smbErr _ d i j = Ok b -> b = sub d i j /\ 0 <= i <= j /\ j <= zlen d.
Proof. unfold slice. destruct (Z.leb_spec 0 i), (Z.leb_spec i j), (Z.leb_spec j (zlen d)); try done. cbn [andb]. intros H'. split; [|lia]. unfold sub. congruence. Qed.
Definition offeredWell (nc : NegotiateContext) : Prop := bytes (ctx_Data nc) /\ zlen (ctx_Data nc) < 2 ^ 16.
Lemma bytes_part d i j : bytes d -> bytes (sub d i j).
Proof. intros H. by apply Forall_take, Forall_drop. Qed.
Lemma contexts_loop_well n : forall d o ncs, bytes d -> zlen d < 2 ^ 31 -> 0 <= o -> contexts_loop n d o = Ok ncs -> Forall offeredWell ncs.
Proof.
  induction n as [|n IH]; intros d o ncs Hb Hd Ho H; cbn [contexts_loop] in H; [injection H as <-; constructor|].
  destruct (Z.ltb_spec (zlen d) (o + 4)); [injection H as <-; constructor|]. apply bind_Ok in H as (t & Ht & H). apply bind_Ok in H as (l & Hl & H). cbv zeta in H.
  apply slice_sub in Hl as (El & Hl1 & Hl2). unfold u32 in Hl1, Hl2, El. rewrite !Z.mod_small in El by lia.
  assert (0 <= le_dec l < 2 ^ 16) as HL. { pose proof (le_dec_bound l) as HB. rewrite El in *. specialize (HB (bytes_part _ _ _ Hb)). unfold zlen in HB. rewrite length_sub in HB by lia.
    replace (8 * Z.of_nat (Z.to_nat (o + 4 - (o + 2)))) with 16 in HB by lia. done. }
  destruct (Z.ltb_spec (zlen d) (o + le_dec l + 8)); [injection H as <-; constructor|]. apply bind_Ok in H as (b & Hs & H). apply bind_Ok in H as (rest & Hr & H). injection H as <-.
  apply slice_sub in Hs as (Eb & _). unfold u32 in Eb. rewrite (Z.mod_small (o + le_dec l)), !Z.mod_small in Eb by lia. constructor.
  - split; cbn [ctx_Data]; subst b; [by apply bytes_part|]. unfold zlen. rewrite length_sub by lia. lia.
  - eapply (IH d); [done|done| |exact Hr]. unfold u32. apply Z.mod_pos_bound. lia.
Qed.
Lemma theContext_from {A} t (parse : list Z -> out A) ncs : forall acc a, theContext t parse ncs acc = Ok (Some a) -> acc = Some a \/ exists nc, In nc ncs /\ parse (ctx_Data nc) = Ok a.
Proof.
  induction ncs as [|nc ncs IH]; intros acc a H; cbn [theContext] in H; [injection H as ->; by left|]. destruct (_ =? t).
  - destruct acc; [done|]. apply bind_Ok in H as (x & Hx & H). right. destruct (IH _ _ H) as [[= ->]|(nc' & Hin & Hp)]; [exists nc|exists nc']; simpl; auto.
  - destruct (IH _ _ H) as [?|(nc' & Hin & Hp)]; [by left|right]. exists nc'. simpl; auto.
Qed.
Lemma algorithms_words b ws : bytes b -> algorithms 4 2 b = Ok ws -> Forall is_word ws.
Proof.
  intros Hb H. unfold algorithms in H. destruct (zlen b <? 4); [done|]. apply bind_Ok in H as (n & _ & H). destruct (_ || _); [done|]. by apply words_are in H as [? _].
Qed.
Lemma offered_words t ncs ws : Forall offeredWell ncs -> (r ← theContext t (algorithms 4 2) ncs None; mret (default [] r)) = Ok ws -> Forall is_word ws.
Proof.
  intros Hn H. apply bind_Ok in H as (o & Ho & H). injection H as <-. destruct o as [ws|]; [|constructor]. cbn [default]. apply theContext_from in Ho as [?|(nc & Hin & Hp)]; [done|].
  apply (proj1 (List.Forall_forall _ _) Hn) in Hin as [Hb _]. by eapply algorithms_words.
Qed.
Lemma offered_compression ncs flags ws : Forall offeredWell ncs -> GetCompressionCapabilities ncs = Ok (flags, ws) -> Forall is_word ws /\ 2 * zlen ws + 8 < 2 ^ 16.
Proof.
  intros Hn H. unfold GetCompressionCapabilities in H. apply bind_Ok in H as (o & Ho & H). destruct o as [[f w]|]; injection H as Hf Hw0; [subst f w|subst ws; by split]. apply theContext_from in Ho as [?|(nc & Hin & Hp)]; [done|]. apply (proj1 (List.Forall_forall _ _) Hn) in Hin as [Hb Hl].
  unfold flaggedAlgorithms in Hp. destruct (zlen _ <? 8); [done|]. apply bind_Ok in Hp as (n & Hg & Hp). destruct (Z.eqb_spec n 0); [done|]. destruct (Z.ltb_spec (zlen (ctx_Data nc)) (2 * n + 8)); [done|].
  apply (get_le_range _ 0 2 n Hb) in Hg; [|lia|lia]. cbn [orb] in Hp. apply bind_Ok in Hp as (f' & _ & Hp). apply bind_Ok in Hp as (w' & Hw & Hp). injection Hp as -> ->.
  apply words_are in Hw as [H1 H2]; [|done|lia]. split; [done|]. unfold zlen at 1. rewrite H2. lia.
Qed.

(** *** Agreeing *)
Definition firstCommon (offered supported : list Z) (x : Z) : Prop :=
  (x = 0 /\ forall y, y ∈ offered -> y ∉ supported) \/ (exists pre post, offered = pre ++ x :: post /\ x ∈ supported /\ forall y, y ∈ pre -> y ∉ supported).
Definition allOrNone (offered supported ids : list Z) : Prop :=
  (ids = offered /\ forall x, x ∈ offered -> x ∈ supported) \/ (ids = [] /\ exists x, x ∈ offered /\ x ∉ supported).
Lemma compression_agreed algos : allOrNone algos supportedCompressionAlgos (if Equal (Subset algos supportedCompressionAlgos) algos then algos else []).
Proof.
  assert (NoDup supportedCompressionAlgos) as Hn by (apply (bool_decide_unpack _); vm_compute; exact I). destruct (Equal _ _) eqn:E.
  - left. split; [done|]. intros x Hx. eapply Equal_longer in E; [|by apply Subset_shorter|exact Hx]. by apply Subset_spec in E as [_ ?].
  - right. split; [done|]. destruct (decide (Exists (fun x => x ∉ supportedCompressionAlgos) algos)) as [H|H]; [by apply Exists_exists in H|]. exfalso.
    assert (forall x, x ∈ algos -> x ∈ supportedCompressionAlgos) as Ha. { intros x Hx. destruct (decide (x ∈ supportedCompressionAlgos)); [done|]. exfalso. apply H, Exists_exists. by exists x. }
    rewrite Equal_complete in E; [done|]. intros x. rewrite Subset_spec. naive_solver.
Qed.

(** *** The answer *)
Definition offeredOf {A B} (offered : list A) (x : B) : list B := match offered with [] => [] | _ => [x] end.
Definition answerContexts (salt : list Z) (ciphers algos signs : list Z) (cipher flags : Z) (cas : list Z) (sign : Z) : list NegotiateContext :=
  preauthContext salt :: offeredOf ciphers (oneContext ENCRYPTION_CAPABILITIES cipher) ++ offeredOf algos (compressionContext flags cas) ++ offeredOf signs (oneContext SIGNING_CAPABILITIES sign).
Section answer.
Context (salt ciphers algos signs cas : list Z) (cipher flags sign : Z).
Hypothesis salt_short : zlen salt < 2 ^ 15.
Hypothesis cipher_word : is_word cipher.
Hypothesis sign_word : is_word sign.
Hypothesis flags_word : 0 <= flags < 2 ^ 32.
Hypothesis cas_words : Forall is_word cas.
Hypothesis cas_some : cas <> [].
Hypothesis cas_short : 2 * zlen cas + 8 < 2 ^ 16.
Let answer := answerContexts salt ciphers algos signs cipher flags cas sign.

Lemma answer_hash : GetPreauthIntegrityCapabilities answer = Ok ([SHA_512], salt).
Proof using salt_short.
  unfold GetPreauthIntegrityCapabilities. cbn [theContext answer answerContexts ContextType preauthContext]. change (PREAUTH_INTEGRITY_CAPABILITIES =? PREAUTH_INTEGRITY_CAPABILITIES) with true.
  cbv iota. fold (preauthContext salt). change (Context _ _) with (preauthContext salt). rewrite hashAlgorithms_read by lia. run_bind.
  assert (forall acc, theContext PREAUTH_INTEGRITY_CAPABILITIES hashAlgorithms (offeredOf ciphers (oneContext ENCRYPTION_CAPABILITIES cipher) ++ offeredOf algos (compressionContext flags cas) ++
    offeredOf signs (oneContext SIGNING_CAPABILITIES sign)) acc = Ok acc) as -> by (by destruct ciphers, algos, signs). done.
Qed.
Lemma answer_cipher : GetEncryptionCapabilities answer = Ok (offeredOf ciphers cipher).
Proof using cipher_word.
  unfold GetEncryptionCapabilities, answer, answerContexts. destruct ciphers; cbn [offeredOf app theContext].
  - by destruct algos, signs.
  - change (ContextType (preauthContext salt) =? ENCRYPTION_CAPABILITIES) with false. change (ContextType (oneContext _ cipher) =? ENCRYPTION_CAPABILITIES) with true. cbv iota.
    rewrite algorithms_one by done. run_bind. by destruct algos, signs.
Qed.
Lemma answer_compression : GetCompressionCapabilities answer = Ok (match algos with [] => (0, []) | _ => (flags, cas) end).
Proof using flags_word cas_words cas_some cas_short.
  pose proof (zlen_nonneg cas). unfold GetCompressionCapabilities, answer, answerContexts. destruct algos; cbn [offeredOf app].
  - by destruct ciphers, signs.
  - assert (forall rest, theContext COMPRESSION_CAPABILITIES flaggedAlgorithms (preauthContext salt :: offeredOf ciphers (oneContext ENCRYPTION_CAPABILITIES cipher) ++ compressionContext flags cas :: rest) None =
      (a ← flaggedAlgorithms (ctx_Data (compressionContext flags cas)); theContext COMPRESSION_CAPABILITIES flaggedAlgorithms rest (Some a))) as -> by (intros; by destruct ciphers).
    rewrite flaggedAlgorithms_read by (done || lia). run_bind. by destruct signs.
Qed.
Lemma answer_sign : GetSigningCapabilities answer = Ok (offeredOf signs sign).
Proof using sign_word.
  unfold GetSigningCapabilities, answer, answerContexts. destruct signs; cbn [offeredOf].
  - by destruct ciphers, algos.
  - rewrite !app_comm_cons, app_assoc. set (front := (_ :: _) ++ _).
    assert (theContext SIGNING_CAPABILITIES (algorithms 4 2) (front ++ [oneContext SIGNING_CAPABILITIES sign]) None = (a ← algorithms 4 2 (ctx_Data (oneContext SIGNING_CAPABILITIES sign)); mret (Some a))) as ->
      by (subst front; by destruct ciphers, algos).
    by rewrite algorithms_one.
Qed.
Lemma answer_sound : Forall sound answer /\ zlen answer < 5 /\ zlen (paddedBlobs (map flat answer)) < 2 ^ 19.
Proof using salt_short cipher_word sign_word flags_word cas_words cas_some cas_short.
  pose proof (zlen_nonneg salt). pose proof (zlen_nonneg cas).
  assert (sound (preauthContext salt)) as S1 by (split; [done|]; cbn [preauthContext ctx_Data]; rewrite !zlen_app, !zlen_le_enc; lia).
  assert (forall t x, is_word t -> sound (oneContext t x)) as S2 by (intros t x Ht; split; [done|]; cbn [oneContext ctx_Data]; rewrite zlen_app, !zlen_le_enc; lia).
  assert (sound (compressionContext flags cas)) as S3 by (split; [done|]; cbn [compressionContext ctx_Data]; rewrite !zlen_app, !zlen_le_enc, zlen_wordBytes, zlen_replicate; lia).
  assert (Forall sound answer /\ (length answer < 5)%nat) as [Hs Hl].
  { unfold answer, answerContexts. destruct ciphers, algos, signs; cbn [offeredOf app length]; (split; [|lia]); repeat constructor; try apply S1; try apply S3; by apply S2. }
  split; [done|]. split; [unfold zlen; lia|]. assert (forall l, Forall sound l -> zlen (paddedBlobs (map flat l)) <= 65551 * Z.of_nat (length l)) as Hp; [|specialize (Hp _ Hs); lia].
  clear. induction 1 as [|nc l Hn Hl IH]; [done|]. cbn [map paddedBlobs length]. pose proof (zlen_nonneg (ctx_Data nc)). destruct Hn as [_ Hn].
  pose proof (Roundup_8 (zlen (flat nc)) (zlen_nonneg _)) as [HR _]. pose proof (zlen_flat nc).
  destruct (map flat l) eqn:E; [pose proof (zlen_nonneg (paddedBlobs [])); simpl in *; lia|]. rewrite !zlen_app, Listing.zlen_replicate_Z by lia. lia.
Qed.
End answer.

(** What a request offers in its contexts, [told] what comes of it. *)
Record offers := Offers { o_hashes : list Z; o_ciphers : list Z; o_flags : Z; o_algos : list Z; o_signs : list Z }.
Definition offersOf (d : list Z) (o : offers) : Prop :=
  exists offered salt, NegotiateContexts d = Ok offered /\ GetPreauthIntegrityCapabilities offered = Ok (o_hashes o, salt) /\
    GetEncryptionCapabilities offered = Ok (o_ciphers o) /\ GetCompressionCapabilities offered = Ok (o_flags o, o_algos o) /\ GetSigningCapabilities offered = Ok (o_signs o).
Record told (sha512 : list Z -> list Z) (salt : list Z) (req : request) (c : connection) (r : list Z) (o : offers) (answer : list NegotiateContext) : Prop := Told {
  t_offers : offersOf (data req) o;
  (* the connection *)
  t_hash : SHA_512 ∈ (o_hashes o); t_cipher : firstCommon (o_ciphers o) supportedEncryptionAlgos (cipherID c);
  t_compression : allOrNone (o_algos o) supportedCompressionAlgos (compressionIDs (agreed c)); t_sign : firstCommon (o_signs o) supportedSigningAlgos (signingAlgorithmID (agreed c));
  t_preauth : preauthIntegrityHashValue (agreed c) = sha512 (sha512 (replicate 64 0 ++ data req) ++ r);
  (* the answer *)
  t_answer : contextsOf r = Ok answer; a_hash : GetPreauthIntegrityCapabilities answer = Ok ([SHA_512], salt);
  a_cipher : GetEncryptionCapabilities answer = Ok (offeredOf (o_ciphers o) (cipherID c));
  a_compression : GetCompressionCapabilities answer = Ok (match o_algos o with [] => (0, []) | _ =>
    (if supportsChainedCompression (agreed c) then COMPRESSION_CAPABILITIES_FLAG_CHAINED else COMPRESSION_CAPABILITIES_FLAG_NONE,
     match compressionIDs (agreed c) with [] => [COMPRESSION_NONE] | ids => ids end) end);
  a_sign : GetSigningCapabilities answer = Ok (offeredOf (o_signs o) (signingAlgorithmID (agreed c)));
}.
Definition refused (req : request) (r : list Z) : Prop :=
  exists status, (status = STATUS_INVALID_PARAMETER \/ status = STATUS_SMB_NO_PREAUTH_INTEGRITY_HASH_OVERLAP) /\ exists er, Responses.NewErrorResponse req status 0 None = Ok er /\ r = r_data er.

Lemma refuse_inv req status c x : refuse req status c = Ok x -> exists er, Responses.NewErrorResponse req status 0 None = Ok er /\ x = (Answer (r_data er), c).
Proof. intros H. unfold refuse in H. apply bind_Ok in H as (er & He & H). exists er. split; [done|]. by injection H as <-. Qed.
Lemma orRefuse_inv {A} req c (m : out A) k x : orRefuse req c m k = Ok x -> (exists a, m = Ok a /\ k a = Ok x) \/
  (exists er, Responses.NewErrorResponse req STATUS_INVALID_PARAMETER 0 None = Ok er /\ x = (Answer (r_data er), c)).
Proof. unfold orRefuse. destruct m as [a| | |]; [by eauto| |done..]. intros H%refuse_inv. by right. Qed.
Lemma first_word offered supported x : Forall is_word offered -> firstCommon offered supported x -> is_word x.
Proof. intros Hw [[-> _]|(pre & post & -> & _)]; [done|]. by apply Forall_app in Hw as [_ [? _]%Forall_cons]. Qed.
Lemma cipher_agreed (ciphers : list Z) c : cipherID c = 0 ->
  firstCommon ciphers supportedEncryptionAlgos (cipherID (match ciphers with [] => c | _ => set_cipher (FirstMatch 0 ciphers supportedEncryptionAlgos) c end)).
Proof. intros Hc. destruct ciphers as [|x l] eqn:E; [left; rewrite Hc; split; [done|]; by intros y ?%not_elem_of_nil|]. cbn [set_cipher cipherID]. rewrite <- E. apply FirstMatch_spec. Qed.
Lemma sign_agreed (signs : list Z) : firstCommon signs supportedSigningAlgos (match signs with [] => 0 | _ => FirstMatch 0 signs supportedSigningAlgos end).
Proof. destruct signs as [|x l] eqn:E; [left; split; [done|]; by intros y ?%not_elem_of_nil|]. rewrite <- E. apply FirstMatch_spec. Qed.

Lemma blob_offered (offered : list Z) (m : out (list Z)) nc : m = Ok (flat nc) -> (match offered with [] => mret [] | _ => b ← m; mret [b] end) = @Ok smbErr _ (map flat (offeredOf offered nc)).
Proof. intros ->. by destruct offered. Qed.
Section agree.
Context (sha512 : list Z -> list Z) (sv : server) (salt : list Z) (req : request).
Hypothesis req_bytes : bytes (data req).
Hypothesis req_short : zlen (data req) < 2 ^ 31.
Hypothesis salt_short : zlen salt < 2 ^ 15.

Lemma agreeContexts_tells resp c r c' : agreed c = noAgreement -> cipherID c = 0 -> 128 <= zlen resp < 2 ^ 18 ->
  agreeContexts sha512 sv salt req resp c = Ok (Answer r, c') -> refused req r \/ exists o answer, told sha512 salt req c' r o answer.
Proof using req_bytes req_short salt_short.
  intros Ha Hc Hr H. unfold agreeContexts in H. rewrite Ha in H. cbv zeta in H. cbn [noAgreement compressionIDs supportsChainedCompression signingAlgorithmID] in H.
  apply bind_Ok in H as (ncs & Hn & H). assert (Forall offeredWell ncs) as Hw.
  { unfold NegotiateContexts in Hn. apply bind_Ok in Hn as (o & Ho & Hn). apply bind_Ok in Hn as (n & _ & Hn). apply get_le_range in Ho; [|done|done|lia]. eapply contexts_loop_well; [done|done| |exact Hn]. lia. }
  apply orRefuse_inv in H as [([hashes s] & Hh & H)|(er & He & [= -> ->])]; [|left; exists STATUS_INVALID_PARAMETER; eauto].
  destruct (IsOverlapped hashes supportedHashAlgos) eqn:Eo; [|apply refuse_inv in H as (er & He & [= -> ->]); left; eexists; split; [by right|eauto]]. cbn [negb] in H.
  apply orRefuse_inv in H as [(ciphers & Hci & H)|(er & He & [= -> ->])]; [|left; exists STATUS_INVALID_PARAMETER; eauto].
  apply orRefuse_inv in H as [([flags algos] & Hco & H)|(er & He & [= -> ->])]; [|left; exists STATUS_INVALID_PARAMETER; eauto].
  apply orRefuse_inv in H as [(signs & Hsi & H)|(er & He & [= -> ->])]; [|left; exists STATUS_INVALID_PARAMETER; eauto]. right.
  set (ids := if Equal (Subset algos supportedCompressionAlgos) algos then algos else []) in *. pose proof (compression_agreed algos) as Hids. fold ids in Hids.
  set (chained := sv_chainedCompression sv && has flags COMPRESSION_CAPABILITIES_FLAG_CHAINED) in *.
  set (sign := match signs with [] => 0 | _ => _ end) in *. pose proof (sign_agreed signs) as Hsg. fold sign in Hsg.
  cbn [cipherID set_agreed agreed supportsChainedCompression] in H.
  set (c2 := match ciphers with [] => _ | _ => _ end) in *. assert (firstCommon ciphers supportedEncryptionAlgos (cipherID c2)) as Hcg by (apply cipher_agreed; exact Hc). clearbody c2.
  set (cas := match ids with [] => _ | _ => _ end) in *. set (fl := if chained then COMPRESSION_CAPABILITIES_FLAG_CHAINED else COMPRESSION_CAPABILITIES_FLAG_NONE) in *.
  rewrite PreauthIntegrityCapabilities_is in H. rewrite bind_ret in H. cbv beta in H.
  rewrite (blob_offered ciphers _ (oneContext ENCRYPTION_CAPABILITIES (cipherID c2))) in H by apply oneAlgorithm_is. rewrite bind_ret in H. cbv beta in H.
  rewrite (blob_offered algos _ (compressionContext fl cas)) in H by apply CompressionCapabilities_is. rewrite bind_ret in H. cbv beta in H.
  rewrite (blob_offered signs _ (oneContext SIGNING_CAPABILITIES sign)) in H by apply oneAlgorithm_is. rewrite bind_ret in H. cbv beta in H.
  rewrite <- !map_app in H. change (flat (preauthContext salt) :: map flat ?l) with (map flat (preauthContext salt :: l)) in H. set (answer := _ :: _) in H.
  apply bind_Ok in H as (r' & Hadd & H). unfold mret, outcome_ret in H. assert (r' = r) as -> by congruence.
  destruct (offered_compression _ _ _ Hw Hco) as [Hwa Hla]. pose proof (first_word _ _ _ (offered_words _ _ _ Hw Hci) Hcg) as Wc. pose proof (first_word _ _ _ (offered_words _ _ _ Hw Hsi) Hsg) as Ws.
  assert (Forall is_word cas /\ cas <> [] /\ 2 * zlen cas + 8 < 2 ^ 16) as (C1 & C2 & C3).
  { subst cas. destruct Hids as [[-> _]|[-> _]]; [destruct algos; [|done]|]; (split; [by repeat constructor|done]). }
  assert (0 <= fl < 2 ^ 32) as Hfl by (subst fl; by destruct chained).
  destruct (answer_sound salt ciphers algos signs cas (cipherID c2) fl sign) as (A1 & A2 & A3); [done..|].
  destruct (AddNegotiateContexts_read _ resp A1) as (r'' & Hadd' & Hread); [lia|lia|lia|]. change (answerContexts _ _ _ _ _ _ _ _) with answer in *.
  assert (r'' = r) as -> by congruence. exists (Offers hashes ciphers flags algos signs), answer. assert (c' = set_agreed (Agreement SHA_512 (sha512 (preauthStart sha512 req ++ r)) ids (if chained then true else false) sign) c2) as ->.
  { assert (forall a b : reaction * connection, @Ok smbErr _ a = Ok b -> a.2 = b.2) as K by (intros; congruence). exact (eq_sym (K _ _ H)). }
  split; cbn [o_hashes o_ciphers o_algos o_signs o_flags set_agreed cipherID agreed compressionIDs signingAlgorithmID supportsChainedCompression preauthIntegrityHashValue]; try done.
  - exists ncs, s. done.
  - apply IsOverlapped_spec in Eo as (x & Hx & Hin). unfold supportedHashAlgos in Hin. by apply list_elem_of_singleton in Hin as ->.
  - by apply answer_hash.
  - by apply answer_cipher.
  - refine (eq_trans (answer_compression salt ciphers algos signs cas (cipherID c2) fl sign _ _ _ _) _); [done..|]. subst fl cas. clear. clearbody ids. by destruct chained, algos, ids.
  - by apply answer_sign.
Qed.
End agree.

(** ** Connections as they are negotiated *)
Inductive reach (sha512 : list Z -> list Z) (sv : server) : connection -> Prop :=
| Fresh : reach sha512 sv newConnectionState
| Arrived token salt now req c x c' : reach sha512 sv c -> bytes (data req) -> arrive sha512 sv token salt now req c = Ok (x, c') -> reach sha512 sv c'.

Definition untold (c : connection) : Prop := negotiateDialect c = SMB_DIALECT_UNKNOWN /\ agreed c = noAgreement /\ cipherID c = 0 /\ clientDialects c = [].
Definition spoken (c : connection) : Prop := supportedDialect (negotiateDialect c) = true /\ (negotiateDialect c = SMB_DIALECT_311 \/ clientDialects c = []).

Lemma best_supported multi d x : bytes d -> NegotiateRequest_Validate multi d = Ok tt -> IsSmb d = Ok false -> NegotiateRequest_MaxCommonDialect d = Ok x -> supportedDialect x = true.
Proof.
  intros Hb Hv Hs Hm. destruct (negotiate_holds multi d Hb Hv Hs) as (n & ws & Hn & _ & _ & Hw & He). unfold NegotiateRequest_MaxCommonDialect in Hm. rewrite Hs in Hm. rewrite bind_ret in Hm.
  change (Messages.HS + 2) with 66 in Hm. rewrite Hn in Hm. rewrite bind_ret in Hm. rewrite (maxDialect_words _ d 0 0 ws Hw) in Hm. injection Hm as <-.
  destruct (better_max ws 0) as (H1 & [H2|[_ H2]] & H3); [|done]. apply existsb_exists in He as (y & Hy & Hsy). specialize (H3 y Hy Hsy). rewrite H2 in H3.
  unfold supportedDialect in Hsy. apply andb_true_iff in Hsy as [Hsy _]. apply Z.leb_le in Hsy. change MinSupportedDialect with 514 in Hsy. lia.
Qed.
Lemma has_land a k m : Z.land k m = 0 -> has (Z.land a k) m = false.
Proof. intros H. unfold has. by rewrite <- Z.land_assoc, H, Z.land_0_r. Qed.
Lemma has_ldiff a k m : Z.land a m = 0 -> has (a &^ k) m = false.
Proof. intros H. unfold has. apply negb_false_iff, Z.eqb_eq. apply Z.bits_inj'. intros n Hn. apply (f_equal (fun z => Z.testbit z n)) in H. rewrite Z.land_spec, Z.bits_0 in *. rewrite Z.ldiff_spec. destruct (Z.testbit a n), (Z.testbit k n); done. Qed.
(** What [settle] leaves as it was. *)
Lemma settle_keeps sv d c c' : settle sv d c = Ok c' -> NegotiateRequest_MaxCommonDialect d = Ok (negotiateDialect c') /\ agreed c' = agreed c /\
  (negotiateDialect c' = SMB_DIALECT_311 -> cipherID c' = cipherID c) /\ (negotiateDialect c' <> SMB_DIALECT_311 -> clientDialects c' = clientDialects c).
Proof.
  intros H. unfold settle in H. apply bind_Ok in H as (caps & _ & H). apply bind_Ok in H as (guid & _ & H). apply bind_Ok in H as (sm & _ & H). apply bind_Ok in H as (x & Hx & H).
  apply bind_Ok in H as (ds & Hds & H). cbv zeta in H. set (o := if has caps _ then _ else _) in H. set (y := Connection _ _ _ _ _ _ _ _ _ _ _ _ _ _ _ _) in H. assert (c' = y) as -> by (unfold mret, outcome_ret in H; congruence).
  subst y. cbn [negotiateDialect agreed cipherID clientDialects]. split; [done|]. split; [done|]. split.
  - intros ->. assert (has o GLOBAL_CAP_ENCRYPTION = false) as ->; [|done]. subst o. assert (Z.land (DialectCapabilities SMB_DIALECT_311) GLOBAL_CAP_ENCRYPTION = 0) as E by done.
    destruct (has caps _); [by apply has_land|]. apply has_ldiff. by rewrite <- Z.land_assoc, E, Z.land_0_r.
  - intros Hn. destruct (Z.eqb_spec x SMB_DIALECT_311); [done|]. by injection Hds as <-.
Qed.
Lemma agree_dialects sha512 sv salt req resp c x c' : agreeContexts sha512 sv salt req resp c = Ok (x, c') -> negotiateDialect c' = negotiateDialect c.
Proof.
  intros H. unfold agreeContexts in H. cbv zeta in H. apply bind_Ok in H as (ncs & _ & H). apply orRefuse_inv in H as [([hs s] & _ & H)|(er & _ & [= _ ->])]; [|done].
  destruct (negb _); [by apply refuse_inv in H as (er & _ & [= _ ->])|]. apply orRefuse_inv in H as [(ci & _ & H)|(er & _ & [= _ ->])]; [|done].
  apply orRefuse_inv in H as [([fl al] & _ & H)|(er & _ & [= _ ->])]; [|by destruct ci]. apply orRefuse_inv in H as [(si & _ & H)|(er & _ & [= _ ->])]; [|by destruct ci].
  apply bind_Ok in H as (b1 & _ & H). apply bind_Ok in H as (b2 & _ & H). apply bind_Ok in H as (b3 & _ & H). apply bind_Ok in H as (b4 & _ & H). apply bind_Ok in H as (rr & _ & H).
  injection H as _ <-. by destruct ci.
Qed.
Lemma Generate_len o d r : NegotiateResponse_Generate o d = Ok r -> zlen r = 128 + zlen (of_token o).
Proof.
  intros H. unfold NegotiateResponse_Generate in H. apply bind_Ok in H as (async & _ & H). do 12 (apply bind_Ok in H as (? & _ & H)). unfold Responses.cutAndAppend in H.
  apply bind_Ok in H as (b & Hs & H). apply slice_sub in Hs as (-> & Hi & Hj). assert (r = sub x10 0 (HS + SMB2NegotiateResponseMinSize) ++ of_token o) as -> by (unfold mret, outcome_ret in H; congruence).
  rewrite zlen_app. unfold zlen at 1. rewrite length_sub by lia. change (HS + SMB2NegotiateResponseMinSize) with 128. lia.
Qed.
(** A negotiate that gets past its checks. *)
Record negotiated (sha512 : list Z -> list Z) (sv : server) (token salt : list Z) (req : request) (c c1 : connection) (resp : list Z) (x : reaction) (c' : connection) : Prop := Negotiated {
  n_unknown : negotiateDialect c = SMB_DIALECT_UNKNOWN; n_valid : NegotiateRequest_Validate (supportsMultiCredit c) (data req) = Ok tt; n_settled : settle sv (data req) c = Ok c1;
  n_len : zlen resp = 128 + zlen token;
  n_rest : if negotiateDialect c1 =? SMB_DIALECT_311 then agreeContexts sha512 sv salt req resp c1 = Ok (x, c') else x = Answer resp /\ c' = c1;
}.
Lemma negotiate_inv sha512 sv token salt now req c x c' : negotiate sha512 sv token salt now req c = Ok (x, c') -> c' = c \/ exists c1 resp, negotiated sha512 sv token salt req c c1 resp x c'.
Proof.
  intros H. unfold negotiate in H. destruct (Z.eqb_spec (negotiateDialect c) SMB_DIALECT_UNKNOWN) as [Hu|]; cbn [negb] in H; [|injection H as _ <-; by left].
  destruct (NegotiateRequest_Validate _ _) as [[]|e| |] eqn:Ev; [| |done..].
  - right. apply bind_Ok in H as (c1 & H1 & H). apply bind_Ok in H as (r1 & _ & H). apply bind_Ok in H as (r2 & H2 & H). exists c1, r2. split; [done|done|done|by apply Generate_len in H2|].
    destruct (_ =? SMB_DIALECT_311); [done|]. by injection H as <- <-.
  - left. destruct e; try (by injection H as _ <-); by apply refuse_inv in H as (er & _ & [= _ ->]).
Qed.
Lemma negotiated_spoken sha512 sv token salt req c c1 resp x c' : bytes (data req) -> IsSmb (data req) = Ok false -> untold c ->
  negotiated sha512 sv token salt req c c1 resp x c' -> spoken c'.
Proof.
  intros Hb Hs (_ & _ & _ & Hd) [Hu Hv H1 _ Hr]. destruct (settle_keeps _ _ _ _ H1) as (Hm & Ha & _ & Hk). pose proof (best_supported _ _ _ Hb Hv Hs Hm) as Hsup.
  destruct (Z.eqb_spec (negotiateDialect c1) SMB_DIALECT_311) as [E|E].
  - apply agree_dialects in Hr. split; [by rewrite Hr|left; congruence].
  - destruct Hr as [_ ->]. split; [done|]. right. rewrite Hk by done. done.
Qed.
Lemma legacy_inv sv token now d c x c' : legacyNegotiate sv token now d c = Ok (x, c') -> agreed c' = agreed c /\ cipherID c' = cipherID c /\ clientDialects c' = clientDialects c /\
  (negotiateDialect c' = negotiateDialect c \/ negotiateDialect c' = SMB_DIALECT_202).
Proof.
  intros H. unfold legacyNegotiate in H. destruct (NegotiateRequest_Validate _ _) as [[]|e| |]; [| |done..].
  - apply bind_Ok in H as (y & _ & H). apply bind_Ok in H as (mid & _ & H). cbv zeta in H. set (c1 := Connection _ _ _ _ _ _ _ _ _ _ _ _ _ _ _ _) in H. apply bind_Ok in H as (r & _ & H).
    assert (c' = c1) as -> by (unfold mret, outcome_ret in H; congruence). subst c1. cbn [agreed cipherID clientDialects negotiateDialect]. destruct (Z.eqb_spec y SMB_DIALECT_202); subst; auto.
  - assert (c' = c) as ->; [|auto]. destruct e; try (by injection H as _ <-); by apply bind_Ok in H as (r & _ & [= _ ->]).
Qed.
Lemma reach_told sha512 sv c : reach sha512 sv c -> untold c \/ spoken c.
Proof.
  induction 1 as [|token salt now req c x c' Hr IH Hb H]; [by left|]. unfold arrive in H. apply bind_Ok in H as (smb & Hs & H). destruct smb.
  - destruct (Z.eqb_spec (negotiateDialect c) SMB_DIALECT_UNKNOWN) as [Hu|]; cbn [negb] in H; [|by injection H as _ <-].
    apply legacy_inv in H as (H1 & H2 & H3 & H4). cbn [agreed cipherID clientDialects negotiateDialect] in *. destruct IH as [(_ & I1 & I2 & I3)|[I1 _]]; [|by rewrite Hu in I1].
    destruct H4 as [H4|H4]; [left|right].
    + by repeat split; congruence.
    + split; [by rewrite H4|]. right. congruence.
  - destruct (negotiate_inv _ _ _ _ _ _ _ _ _ H) as [->|(c1 & resp & Hn)]; [done|]. right. pose proof (n_unknown _ _ _ _ _ _ _ _ _ _ Hn) as Hu. destruct IH as [I|[I _]]; [|by rewrite Hu in I].
    by eapply negotiated_spoken.
Qed.

(** C31: What a 3.1.1 client is told is what the connection has recorded.  On a connection
    reached by any arrivals of negotiates, a negotiate that ends in 3.1.1 is either refused,
    for contexts that do not read or no hash in common, or is answered with contexts that
    read back, by the same parser, as SHA-512 with the salt drawn and the very cipher,
    compression and signing algorithms the connection has recorded, each context present
    exactly when the client sent one.  The cipher and the signing algorithm recorded are the
    first of the client's list the server has, or number nought where it has none of them;
    the compression algorithms are the client's list if the server has every one of them, and
    none otherwise; and the preauth hash is that of the request and then of the response as
    it was sent. *)
Theorem client_told_what_was_agreed sha512 sv token salt now req c r c' :
  reach sha512 sv c -> bytes (data req) -> zlen (data req) < 2 ^ 31 -> zlen token < 2 ^ 16 -> zlen salt < 2 ^ 15 ->
  negotiate sha512 sv token salt now req c = Ok (Answer r, c') -> negotiateDialect c = SMB_DIALECT_UNKNOWN -> negotiateDialect c' = SMB_DIALECT_311 ->
  refused req r \/ exists o answer, told sha512 salt req c' r o answer.
Proof.
  intros Hr Hb Hl Ht Hs H Hu Hd. apply reach_told in Hr as [(_ & Ha & Hc & _)|[Hx _]]; [|by rewrite Hu in Hx]. pose proof (zlen_nonneg token).
  destruct (negotiate_inv _ _ _ _ _ _ _ _ _ H) as [->|(c1 & resp & [_ _ Hset Hlen Hrest])]; [by rewrite Hu in Hd|]. destruct (settle_keeps _ _ _ _ Hset) as (_ & Ka & Kc & _).
  destruct (Z.eqb_spec (negotiateDialect c1) SMB_DIALECT_311) as [E|E]; [|by destruct Hrest as [_ ->]]. eapply agreeContexts_tells; [done..| | | |exact Hrest]; [congruence|rewrite Kc; done|lia].
Qed.

(** No client of 3.0 or 3.0.2 has its negotiate validated: the dialects it offered are kept
    for 3.1.1 alone, which this request is not for, so the list it names is held against an
    empty one and the connection is ended. *)
Theorem validation_never_passes sha512 sv req c x :
  reach sha512 sv c -> Is3X (negotiateDialect c) = true -> validateNegotiate sv req c = Ok x -> exists e, x = Drop e.
Proof.
  intros Hr H3 H. unfold validateNegotiate in H. rewrite H3 in H. destruct (Z.eqb_spec (negotiateDialect c) SMB_DIALECT_311) as [E|E]; [injection H as <-; eauto|].
  apply reach_told in Hr as [(Hu & _)|[_ [?|Hd]]]; [by rewrite Hu in H3|done|]. apply bind_Ok in H as (mo & _ & H). destruct (mo <? 24); [injection H as <-; eauto|].
  destruct (IoctlRequest_ValidateNegotiateInfo _) as [[caps guid sm ds]| | |]; [|injection H as <-; eauto|done..]. rewrite Hd in H.
  assert (negb (Equal ds []) || negb (MaxCommon ds [] =? negotiateDialect c) = true) as Ef; [|rewrite Ef in H; cbn [andb Z.eqb] in H; injection H as <-; eauto].
  destruct ds as [|y ds].
  - change (MaxCommon [] []) with 0. destruct (Z.eqb_spec 0 (negotiateDialect c)) as [Ez|]; [|by rewrite orb_true_r]. by rewrite <- Ez in H3.
  - assert (Equal (y :: ds) [] = false) as ->; [|done]. unfold Equal. rewrite zlen_cons. pose proof (zlen_nonneg ds). destruct (Z.eqb_spec (1 + zlen ds) 0); [lia|done].
Qed.

(** *** A client that offers GCM before CCM, two compressions and GMAC *)
Definition sampleOffer : list NegotiateContext :=
  [preauthContext (replicate 32 7); Context ENCRYPTION_CAPABILITIES (le_enc 2 2 ++ wordBytes [AES_128_GCM; AES_128_CCM]);
   compressionContext 1 [COMPRESSION_LZ77; COMPRESSION_LZNT1]; oneContext SIGNING_CAPABILITIES AES_GMAC].
Definition sample311 : request :=
  Request 0 0 (le_enc 4 PROTOCOL_SMB2 ++ le_enc 2 64 ++ replicate 58 0 ++ le_enc 2 36 ++ le_enc 2 1 ++ le_enc 2 1 ++ le_enc 2 0 ++ le_enc 4 0 ++ replicate 16 9 ++
    le_enc 4 104 ++ le_enc 2 4 ++ le_enc 2 0 ++ le_enc 2 SMB_DIALECT_311 ++ replicate 2 0 ++ paddedBlobs (map flat sampleOffer)) [] false 0 false.
Definition sampleServer : server := applyCapabilities (Server (replicate 16 5) 0 false false).
Lemma client_told_what_was_agreed_witness : exists r c', negotiate (fun l => [zlen l]) sampleServer [1; 2; 3] (replicate 32 8) 1700000000 sample311 newConnectionState = Ok (Answer r, c') /\
  (refused sample311 r \/ exists o answer, told (fun l => [zlen l]) (replicate 32 8) sample311 c' r o answer).
Proof.
  eexists _, _. split; [vm_compute; reflexivity|].
  apply (client_told_what_was_agreed (fun l => [zlen l]) sampleServer [1; 2; 3] (replicate 32 8) 1700000000 sample311 newConnectionState);
    [apply Fresh|apply (bool_decide_unpack _); vm_compute; exact I|vm_compute; reflexivity|vm_compute; reflexivity|vm_compute; reflexivity|vm_compute; reflexivity|vm_compute; reflexivity|vm_compute; reflexivity].
Defined.
Example sample_agreed : exists r c', negotiate (fun l => [zlen l]) sampleServer [1; 2; 3] (replicate 32 8) 1700000000 sample311 newConnectionState = Ok (Answer r, c') /\
  cipherID c' = AES_128_GCM /\ compressionIDs (agreed c') = [COMPRESSION_LZ77; COMPRESSION_LZNT1] /\ supportsChainedCompression (agreed c') = true /\ signingAlgorithmID (agreed c') = AES_GMAC.
Proof. eexists _, _. split; [vm_compute; reflexivity|]. by repeat split. Qed.

(** *** A 3.0.2 client that asks for validation of the negotiate it sent *)
Definition sample302 : request :=
  Request 0 0 (sampleHeader 0 ++ le_enc 2 36 ++ le_enc 2 1 ++ le_enc 2 1 ++ le_enc 2 0 ++ le_enc 4 0 ++ replicate 16 9 ++ replicate 8 0 ++ le_enc 2 SMB_DIALECT_302) [] false 0 false.
Definition sampleValidation : request :=
  Request 0 0 (sampleHeader 0 ++ le_enc 2 57 ++ le_enc 2 0 ++ le_enc 4 FSCTL_VALIDATE_NEGOTIATE_INFO ++ DummyFileID ++ le_enc 4 120 ++ le_enc 4 26 ++ replicate 12 0 ++ le_enc 4 24 ++ le_enc 4 1 ++ replicate 4 0 ++
    le_enc 4 0 ++ replicate 16 9 ++ le_enc 2 1 ++ le_enc 2 1 ++ le_enc 2 SMB_DIALECT_302) [] false 0 false.
Example honest_client_dropped : exists r c', negotiate (fun l => l) sampleServer [] [] 0 sample302 newConnectionState = Ok (Answer r, c') /\ negotiateDialect c' = SMB_DIALECT_302 /\
  IoctlRequest_ValidateNegotiateInfo (data sampleValidation) = Ok (NegotiateInfo (clientCapabilities c') (clientGuid c') (clientSecurityMode c') [SMB_DIALECT_302]) /\
  validateNegotiate sampleServer sampleValidation c' = Ok (Drop (Invalid ErrInvalidParameter)).
Proof. eexists _, _. split; [vm_compute; reflexivity|]. by vm_compute. Qed.
End Negotiate.
