(* ===== verification/Durable.v ===== *)
(** [durable.go]: opens that outlive the loss of their connection.

    An open is attached to a session, through the session's open table, or has been set
    aside with the time it lost its connection and waits to be reclaimed or swept.  The
    three routines that decide what becomes of it run on goroutines of their own and hold
    no lock throughout: each critical section is an operation here, a routine is the
    sequence of its critical sections, and the steps at the end interleave them.

    The open tables of all sessions are one map, keyed by the session and the file ID.
    [EqualFold] is that of package [strings]. *)
From S2P Require Import Prelude Smb2Const Header Request Responses.
Import Header Request Responses.

Module Durable.
Abbreviation openId := nat.
Abbreviation sessionId := nat.
Abbreviation treeId := nat.
Abbreviation shareId := nat.

(** Durations count nanoseconds. *)
Definition millisecond : Z := 1000000.
Definition minute : Z := 60 * 1000 * millisecond.
Definition defaultDurableTimeout : Z := 2 * minute.
Definition maxDurableTimeout : Z := 5 * minute.

(** The fields of [open] durability lives in; the zero [disconnectTime] is [None]. *)
Record open := Open {
  fileID : Z; durableFileID : Z; createGuid : list Z; isDurable : bool; durableTimeout : Z; disconnectTime : option Z;
  op_session : sessionId; treeConnect : treeId;
}.
Definition set_durable (b : bool) (timeout : Z) (guid : list Z) (op : open) : open :=
  Open (fileID op) (durableFileID op) guid b timeout (disconnectTime op) (op_session op) (treeConnect op).
Definition set_disconnect (t : option Z) (op : open) : open :=
  Open (fileID op) (durableFileID op) (createGuid op) (isDurable op) (durableTimeout op) t (op_session op) (treeConnect op).
Definition reattach (ss : sessionId) (tc : treeId) (op : open) : open :=
  Open (fileID op) (durableFileID op) (createGuid op) (isDurable op) (durableTimeout op) None ss tc.

Record session := Session { userName : string; workgroup : string }.
Record tree := Tree { share : shareId; openCount : Z }.
Record world := World {
  opens : gmap openId open; globalOpenTable : gmap Z openId; openTable : gmap (sessionId * Z) openId;
  sessions : gmap sessionId session; trees : gmap treeId tree;
  ended : gset openId;   (* taken out of the indexes, its upload and its context called off *)
}.
Definition set_opens (m : gmap openId open) (w : world) : world := World m (globalOpenTable w) (openTable w) (sessions w) (trees w) (ended w).
Definition set_global (m : gmap Z openId) (w : world) : world := World (opens w) m (openTable w) (sessions w) (trees w) (ended w).
Definition set_table (m : gmap (sessionId * Z) openId) (w : world) : world := World (opens w) (globalOpenTable w) m (sessions w) (trees w) (ended w).
Definition set_trees (m : gmap treeId tree) (w : world) : world := World (opens w) (globalOpenTable w) (openTable w) (sessions w) m (ended w).
Definition set_ended (m : gset openId) (w : world) : world := World (opens w) (globalOpenTable w) (openTable w) (sessions w) (trees w) m.

(** ** Granting *)
Definition grantedTimeout (asked : Z) : Z :=
  let timeout := asked * millisecond in
  let timeout := if timeout <=? 0 then defaultDurableTimeout else timeout in
  if timeout >? maxDurableTimeout then maxDurableTimeout else timeout.
(** The open, and the timeout the client is told of. *)
Definition grantDurability (req : DurableHandleRequestV2) (op : open) : open * Z :=
  let timeout := grantedTimeout (Timeout req) in
  (set_durable true timeout (d_CreateGuid req) op, u32 (timeout / millisecond)).

(** ** Setting aside

    The walk of a session's table takes the durable opens out of it; each is then stamped. *)
Definition takeOrphan (key : sessionId * Z) (w : world) : world := set_table (delete key (openTable w)) w.
Definition stamp (now : Z) (o : openId) (w : world) : world := set_opens (alter (set_disconnect (Some now)) o (opens w)) w.
Definition durableOf (ss : sessionId) (w : world) : list ((sessionId * Z) * openId) :=
  filter (fun e => e.1.1 = ss /\ (isDurable <$> opens w !! e.2) = Some true) (map_to_list (openTable w)).
Definition orphanDurableOpens (now : Z) (ss : sessionId) (w : world) : world * Z :=
  let orphaned := durableOf ss w in
  let w := fold_left (fun w e => takeOrphan (fst e) w) orphaned w in
  (fold_left (fun w e => stamp now (snd e) w) orphaned w, zlen orphaned).

(** ** Reclaiming *)
Section reclaim.
Context (EqualFold : string -> string -> bool).

Definition mayReclaim (rec : DurableHandleReconnectV2) (ss : session) (tc : tree) (op : open) (owner : session) (its : tree) : bool :=
  isDurable op && bool_decide (createGuid op = rc_CreateGuid rec) && (fileID op =? rc_FileID rec) && bool_decide (disconnectTime op <> None)
  && bool_decide (share its = share tc) && EqualFold (userName owner) (userName ss) && EqualFold (workgroup owner) (workgroup ss).
(** The decision, under the lock of the open; [None] is a nil pointer followed. *)
Definition decide_ (rec : DurableHandleReconnectV2) (ss : sessionId) (tc : treeId) (o : openId) (w : world) : option (world * bool) :=
  op ← opens w !! o; mine ← sessions w !! ss; here ← trees w !! tc; owner ← sessions w !! op_session op; its ← trees w !! treeConnect op;
  if mayReclaim rec mine here op owner its then Some (set_opens (<[o := reattach ss tc op]> (opens w)) w, true) else Some (w, false).
Definition attach (ss : sessionId) (tc : treeId) (o : openId) (w : world) : option world :=
  op ← opens w !! o; t ← trees w !! tc;
  Some (set_trees (<[tc := Tree (share t) (openCount t + 1)]> (trees w)) (set_table (<[(ss, fileID op) := o]> (openTable w)) w)).
Definition reclaimDurableOpen (rec : DurableHandleReconnectV2) (ss : sessionId) (tc : treeId) (w : world) : option (world * option openId) :=
  match globalOpenTable w !! DurableID rec with
  | None => Some (w, None)
  | Some o =>
      d ← decide_ rec ss tc o w;
      if d.2 : bool then w ← attach ss tc o d.1; Some (w, Some o) else Some (d.1, None)
  end.
End reclaim.

(** ** Sweeping *)
Definition overdue (now : Z) (op : open) : bool :=
  isDurable op && match disconnectTime op with Some t => now - t >? durableTimeout op | None => false end.
Definition expire (now : Z) (o : openId) (w : world) : world * bool :=
  match opens w !! o with
  | Some op => if overdue now op then (set_opens (<[o := set_durable false (durableTimeout op) (createGuid op) op]> (opens w)) w, true) else (w, false)
  | None => (w, false)
  end.
Definition dropGlobal (o : openId) (w : world) : world :=
  match opens w !! o with Some op => set_global (delete (durableFileID op) (globalOpenTable w)) w | None => w end.
Definition endOpen (o : openId) (w : world) : world := set_ended ({[ o ]} ∪ ended w) w.
Fixpoint expireAll (now : Z) (candidates : list openId) (w : world) : world * list openId :=
  match candidates with
  | [] => (w, [])
  | o :: rest =>
      let '(w, e) := expire now o w in
      let '(w, expired) := expireAll now rest w in
      (w, if e : bool then o :: expired else expired)
  end.
Definition sweepDurableOpens (now : Z) (w : world) : world :=
  let '(w, expired) := expireAll now (snd <$> map_to_list (globalOpenTable w)) w in
  match expired with
  | [] => w
  | _ => fold_left (fun w o => endOpen o w) expired (fold_left (fun w o => dropGlobal o w) expired w)
  end.

(** ** Replaying the create that made an open *)
Inductive replayed := NotAReplay | Refused (status : Z) | Replays (o : openId).
Section replay.
Context (EqualFold : string -> string -> bool).
Context (findReplayableOpen : list Z -> list Z -> option openId).   (* by client and create GUID *)
Context (held : openId -> option (list Z)).                         (* the key of the lease of an open *)
Definition replayCreate (clientGuid : list Z) (ctx : option (list Z)) (replayFlag : bool) (lr : option LeaseRequest) (ss : sessionId) (tc : treeId) (w : world) : out (option replayed) :=
  if negb (zlen clientGuid =? 16) then mret (Some NotAReplay)
  else
    match ctx with
    | None => mret (Some NotAReplay)
    | Some ctx =>
        dh ← ParseDurableHandleRequestV2 ctx;
        match dh with
        | None => mret (Some NotAReplay)
        | Some dh =>
            match findReplayableOpen clientGuid (d_CreateGuid dh) with
            | None => mret (Some NotAReplay)
            | Some o =>
                if negb replayFlag then mret (Some (Refused STATUS_DUPLICATE_OBJECTID))
                else
                  mret (op ← opens w !! o; mine ← sessions w !! ss; here ← trees w !! tc; owner ← sessions w !! op_session op; its ← trees w !! treeConnect op;
                        if negb (EqualFold (userName owner) (userName mine)) || negb (EqualFold (workgroup owner) (workgroup mine)) then Some (Refused STATUS_ACCESS_DENIED)
                        else if match held o with None => false | Some key => match lr with None => true | Some lr => negb (bool_decide (key = LeaseKey lr)) end end then Some (Refused STATUS_ACCESS_DENIED)
                        else if negb (bool_decide (op_session op = ss)) then Some (Refused STATUS_DUPLICATE_OBJECTID)
                        else if negb (bool_decide (share its = share here)) then Some (Refused STATUS_DUPLICATE_OBJECTID)
                        else Some (Replays o))
            end
        end
    end.
End replay.

(** ** Interleavings *)
Inductive thread :=
| Orphaning (o : openId)                                                                  (* out of its table, not stamped yet *)
| Reclaiming (rec : DurableHandleReconnectV2) (ss : sessionId) (tc : treeId) (o : openId) (* looked up *)
| Attaching (ss : sessionId) (tc : treeId) (o : openId)                                   (* granted, not in its table yet *)
| Sweeping (now : Z) (o : openId)                                                         (* a candidate *)
| Expiring (o : openId).                                                                  (* its durability taken away *)
Record state := State { the : world; threads : gmap nat thread }.

Section steps.
Context (EqualFold : string -> string -> bool).
Inductive step : state -> state -> Prop :=
| Created w ts o op key : opens w !! o = None -> openTable w !! key = None -> disconnectTime op = None -> o ∉ ended w ->
    step (State w ts) (State (World (<[o := op]> (opens w)) (<[durableFileID op := o]> (globalOpenTable w)) (<[key := o]> (openTable w)) (sessions w) (trees w) (ended w)) ts)
| Granted w ts o op req : opens w !! o = Some op -> disconnectTime op = None ->
    step (State w ts) (State (set_opens (<[o := (grantDurability req op).1]> (opens w)) w) ts)
| Closed w ts key o op : openTable w !! key = Some o -> opens w !! o = Some op ->
    step (State w ts) (State (set_global (delete (durableFileID op) (globalOpenTable w)) (takeOrphan key w)) ts)
| Took w ts key o i : openTable w !! key = Some o -> (isDurable <$> opens w !! o) = Some true -> ts !! i = None ->
    step (State w ts) (State (takeOrphan key w) (<[i := Orphaning o]> ts))
| Stamped w ts now o i : ts !! i = Some (Orphaning o) -> step (State w ts) (State (stamp now o w) (delete i ts))
| Looked w ts rec ss tc o i : globalOpenTable w !! DurableID rec = Some o -> ts !! i = None -> step (State w ts) (State w (<[i := Reclaiming rec ss tc o]> ts))
| Decided w ts rec ss tc o i w' (yes : bool) : ts !! i = Some (Reclaiming rec ss tc o) -> decide_ EqualFold rec ss tc o w = Some (w', yes) ->
    step (State w ts) (State w' (if yes then <[i := Attaching ss tc o]> ts else delete i ts))
| Attached w ts ss tc o i w' : ts !! i = Some (Attaching ss tc o) -> attach ss tc o w = Some w' -> step (State w ts) (State w' (delete i ts))
| Collected w ts now dfid o i : globalOpenTable w !! dfid = Some o -> ts !! i = None -> step (State w ts) (State w (<[i := Sweeping now o]> ts))
| Weighed w ts now o i w' (yes : bool) : ts !! i = Some (Sweeping now o) -> expire now o w = (w', yes) ->
    step (State w ts) (State w' (if yes then <[i := Expiring o]> ts else delete i ts))
| Swept w ts o i : ts !! i = Some (Expiring o) -> step (State w ts) (State (endOpen o (dropGlobal o w)) (delete i ts)).

(** *** Who has an open: at most one table or goroutine, while it is not set aside *)
Inductive place := InTable (key : sessionId * Z) | InThread (i : nat).
Definition holds (s : state) (p : place) (o : openId) : Prop :=
  match p with
  | InTable key => openTable (the s) !! key = Some o
  | InThread i => threads s !! i = Some (Orphaning o) \/ exists ss tc, threads s !! i = Some (Attaching ss tc o)
  end.
Definition aside (s : state) (o : openId) : Prop := exists op t, opens (the s) !! o = Some op /\ isDurable op = false /\ disconnectTime op = Some t.
Definition connected (s : state) (o : openId) : Prop := exists op, opens (the s) !! o = Some op /\ disconnectTime op = None.
Record inv (s : state) : Prop := Inv {
  i_connected : forall p o, holds s p o -> connected s o;
  i_one : forall p p' o, holds s p o -> holds s p' o -> p = p';
  i_expiring : forall i o, threads s !! i = Some (Expiring o) -> aside s o;
  i_ended : forall o, o ∈ ended (the s) -> aside s o;
}.

(** The opens of a step that leaves the open alone, or changes one that nobody holds. *)
Lemma connected_other w ts ts' o o' op : o' <> o -> connected (State w ts) o' -> connected (State (set_opens (<[o := op]> (opens w)) w) ts') o'.
Proof. intros Hn (op' & H1 & H2). exists op'. cbn [the set_opens opens] in *. by rewrite lookup_insert_ne. Qed.
Lemma aside_other w ts ts' o o' op : o' <> o -> aside (State w ts) o' -> aside (State (set_opens (<[o := op]> (opens w)) w) ts') o'.
Proof. intros Hn (op' & t & H1 & H2). exists op', t. cbn [the set_opens opens] in *. by rewrite lookup_insert_ne. Qed.
Lemma not_both s o : connected s o -> aside s o -> False.
Proof. intros (op & H1 & H2) (op' & t & H3 & _ & H4). congruence. Qed.

Ltac in_thread := repeat match goal with
  | H : context [(delete ?i ?m) !! ?j] |- _ => rewrite lookup_delete in H; case_decide; try done
  | H : context [(<[?i := ?x]> ?m) !! ?j] |- _ => rewrite lookup_insert in H; case_decide; try (subst; simplify_eq; done) end.
(** A step that changes no open: what is held afterwards was held before. *)
Lemma inv_moves s s' : inv s -> opens (the s') = opens (the s) -> ended (the s') = ended (the s) ->
  (exists f : place -> place, (forall p o, holds s' p o -> holds s (f p) o) /\ (forall p p' o, holds s' p o -> holds s' p' o -> f p = f p' -> p = p')) ->
  (forall i o, threads s' !! i = Some (Expiring o) -> threads s !! i = Some (Expiring o)) -> inv s'.
Proof.
  intros [I1 I2 I3 I4] Ho He (f & Hf & Hi) Hx.
  assert (forall o, connected s o -> connected s' o) as Hc by (unfold connected; rewrite Ho; done). assert (forall o, aside s o -> aside s' o) as Ha by (unfold aside; rewrite Ho; done). split.
  - intros p o Hp. eauto.
  - intros p p' o H1 H2. apply (Hi p p' o H1 H2). eauto.
  - intros i o Hp. eauto.
  - intros o Hp. rewrite He in Hp. eauto.
Qed.

(** A step that changes one open, which nobody is left holding or whose holder is new. *)
Lemma inv_changes w ts ts' table' glob' tr' o op (new : option place) : inv (State w ts) ->
  let s' := State (World (<[o := op]> (opens w)) glob' table' (sessions w) tr' (ended w)) ts' in
  (forall p o', holds s' p o' -> (o' <> o /\ holds (State w ts) p o') \/ (o' = o /\ new = Some p)) ->
  (new <> None -> disconnectTime op = None) ->
  (forall j o', ts' !! j = Some (Expiring o') -> (o' <> o /\ ts !! j = Some (Expiring o')) \/ aside s' o') ->
  (o ∈ ended w -> aside s' o) -> inv s'.
Proof.
  intros [I1 I2 I3 I4] s' Hh Hd Hx He.
  assert (forall o', o' <> o -> connected (State w ts) o' -> connected s' o') as Hc by (intros o' Hn (op' & H1 & H2); exists op'; cbn; by rewrite lookup_insert_ne).
  assert (forall o', o' <> o -> aside (State w ts) o' -> aside s' o') as Ha by (intros o' Hn (op' & t & H1 & H2); exists op', t; cbn; by rewrite lookup_insert_ne).
  split.
  - intros p o' Hp. destruct (Hh p o' Hp) as [[Hn Hp']|[-> ->]]; [eauto|]. exists op. cbn. rewrite lookup_insert_eq. split; [done|by apply Hd].
  - intros p p' o' H1 H2. destruct (Hh p o' H1) as [[Hn H1']|[-> E1]], (Hh p' _ H2) as [[Hn2 H2']|[E E2]]; try congruence. eauto.
  - intros j o' Hj. destruct (Hx j o' Hj) as [[Hn Hj']|?]; eauto.
  - intros o' Ho'. destruct (decide (o' = o)) as [->|Hn]; eauto.
Qed.
Lemma holds_one s p o : inv s -> holds s p o -> aside s o -> False.
Proof. intros I Hp Ha. exact (not_both s o (i_connected s I p o Hp) Ha). Qed.

Lemma inv_created w ts o op key : inv (State w ts) -> opens w !! o = None -> openTable w !! key = None -> disconnectTime op = None -> o ∉ ended w ->
  inv (State (World (<[o := op]> (opens w)) (<[durableFileID op := o]> (globalOpenTable w)) (<[key := o]> (openTable w)) (sessions w) (trees w) (ended w)) ts).
Proof.
  intros I Ho Hk Hd He. assert (forall p, ~ holds (State w ts) p o) as Hno by (intros p Hp; destruct (i_connected _ I p o Hp) as (op' & H1 & _); cbn in H1; congruence).
  apply (inv_changes w ts ts _ _ _ o op (Some (InTable key)) I); [|done| |done].
  - intros p o' Hp. assert (holds (State w ts) p o' \/ p = InTable key /\ o' = o) as [Hp'|[-> ->]]; [|left; split; [|done]|by right].
    + destruct p as [k|j]; [|by left]. cbn in *. rewrite lookup_insert in Hp. case_decide; [right; split; congruence|by left].
    + intros ->. by apply (Hno p).
  - intros j o' Hj. left. split; [|done]. intros ->. destruct (i_expiring _ I j o Hj) as (op' & t & H1 & _). cbn in H1. congruence.
Qed.
Lemma inv_granted w ts o op req : inv (State w ts) -> opens w !! o = Some op -> disconnectTime op = None -> inv (State (set_opens (<[o := (grantDurability req op).1]> (opens w)) w) ts).
Proof.
  intros I Ho Hd. assert (connected (State w ts) o) as Hc by (by exists op). assert (forall x, aside (State w ts) x -> x <> o) as Hna by (intros x Hx ->; by eapply not_both).
  destruct I as [I1 I2 I3 I4]. assert (forall x, connected (State w ts) x -> connected (State (set_opens (<[o := (grantDurability req op).1]> (opens w)) w) ts) x) as Hcc.
  { intros x Hx. destruct (decide (x = o)) as [->|]; [|by apply (connected_other w ts)]. eexists. cbn. by rewrite lookup_insert_eq. }
  assert (forall x, aside (State w ts) x -> aside (State (set_opens (<[o := (grantDurability req op).1]> (opens w)) w) ts) x) as Haa by (intros x Hx; apply (aside_other w ts); auto).
  split; eauto.
Qed.
Lemma inv_stamped w ts now o i : inv (State w ts) -> ts !! i = Some (Orphaning o) -> inv (State (stamp now o w) (delete i ts)).
Proof.
  intros I Hi. assert (holds (State w ts) (InThread i) o) as Hh by (by left). destruct (i_connected _ I _ _ Hh) as (op & Ho & Hd). cbn in Ho. unfold stamp.
  assert (alter (set_disconnect (Some now)) o (opens w) = <[o := set_disconnect (Some now) op]> (opens w)) as ->.
  { apply map_eq. intros x. destruct (decide (x = o)) as [->|]; [by rewrite lookup_alter_eq, lookup_insert_eq, Ho|by rewrite lookup_alter_ne, lookup_insert_ne by done]. }
  apply (inv_changes w ts (delete i ts) _ _ _ o _ None I); [|done| |].
  - intros p o' Hp. left. assert (holds (State w ts) p o' /\ p <> InThread i) as [Hp' Hn].
    { destruct p as [k|j]; [done|]. cbn in *. rewrite lookup_delete in Hp. case_decide; [by destruct Hp as [?|(? & ? & ?)]|]. split; [done|congruence]. }
    split; [|done]. intros ->. by apply Hn, (i_one _ I p (InThread i) o).
  - intros j o' Hj. rewrite lookup_delete in Hj. case_decide; [done|]. left. split; [|done]. intros ->. by apply (holds_one _ _ o I Hh), (i_expiring _ I j).
  - intros He. exfalso. by apply (holds_one _ _ o I Hh), (i_ended _ I).
Qed.
Lemma decide_yes rec ss tc o w w' yes : decide_ EqualFold rec ss tc o w = Some (w', yes) -> (yes = false /\ w' = w) \/
  (yes = true /\ exists op t, opens w !! o = Some op /\ isDurable op = true /\ disconnectTime op = Some t /\ w' = set_opens (<[o := reattach ss tc op]> (opens w)) w).
Proof.
  intros H. unfold decide_ in H. destruct (opens w !! o) as [op|] eqn:Ho; [|done]. cbn in H. destruct (sessions w !! ss) as [mine|]; [|done]. cbn in H. destruct (trees w !! tc) as [here|]; [|done]. cbn in H.
  destruct (sessions w !! op_session op) as [owner|]; [|done]. cbn in H. destruct (trees w !! treeConnect op) as [its|]; [|done]. cbn in H.
  destruct (mayReclaim _ _ _ _ _ _ _) eqn:Em; injection H as <- <-; [right|by left]. split; [done|]. unfold mayReclaim in Em. rewrite !andb_true_iff in Em.
  destruct Em as ((((((E1 & _) & _) & E2) & _) & _) & _). apply bool_decide_eq_true in E2. destruct (disconnectTime op) as [t|] eqn:Et; [|done]. by exists op, t.
Qed.
Lemma inv_decided w ts rec ss tc o i w' (yes : bool) : inv (State w ts) -> ts !! i = Some (Reclaiming rec ss tc o) -> decide_ EqualFold rec ss tc o w = Some (w', yes) ->
  inv (State w' (if yes then <[i := Attaching ss tc o]> ts else delete i ts)).
Proof.
  intros I Hi [[-> ->]|(-> & op & t & Ho & Hd & Ht & ->)]%decide_yes.
  - apply (inv_moves (State w ts)); [done|done|done| |].
    + exists (fun p => p). split; [|done]. intros [k|j] o'; cbn; [done|]. rewrite lookup_delete. case_decide; [|done]. by intros [?|(? & ? & ?)].
    + intros j o'. cbn. rewrite lookup_delete. by case_decide.
  - assert (~ connected (State w ts) o) as Hnc by (intros (op' & H1 & H2); cbn in H1; congruence). assert (~ aside (State w ts) o) as Hna by (intros (op' & t' & H1 & H2 & _); cbn in H1; congruence).
    apply (inv_changes w ts _ _ _ _ o _ (Some (InThread i)) I); [|done| |].
    + intros p o' Hp. assert (holds (State w ts) p o' \/ p = InThread i /\ o' = o) as [Hp'|[-> ->]]; [|left; split; [|done]|by right].
      * destruct p as [k|j]; [by left|]. cbn in *. rewrite lookup_insert in Hp. case_decide; [|by left]. right. subst. by destruct Hp as [[=]|(? & ? & [= -> -> ->])].
      * intros ->. by apply Hnc, (i_connected _ I p).
    + intros j o' Hj. rewrite lookup_insert in Hj. case_decide; [done|]. left. split; [|done]. intros ->. by apply Hna, (i_expiring _ I j).
    + intros He. by destruct Hna; apply (i_ended _ I).
Qed.
Lemma inv_attached w ts ss tc o i w' : inv (State w ts) -> ts !! i = Some (Attaching ss tc o) -> attach ss tc o w = Some w' -> inv (State w' (delete i ts)).
Proof.
  intros I Hi Ha. unfold attach in Ha. destruct (opens w !! o) as [op|]; [|done]. cbn in Ha. destruct (trees w !! tc) as [t|]; [|done]. cbn in Ha. injection Ha as <-.
  apply (inv_moves (State w ts)); [done|done|done| |].
  - exists (fun p => match p with InTable k => if decide (k = (ss, fileID op)) then InThread i else p | _ => p end). split.
    + intros [k|j] o'; cbn; [rewrite lookup_insert; case_decide; [|by rewrite decide_False by congruence]|rewrite lookup_delete; case_decide; [|done]; by intros [?|(? & ? & ?)]].
      subst. rewrite decide_True by done. intros [= <-]. right. by exists ss, tc.
    + intros [k1|j1] [k2|j2] o'; cbn; rewrite ?lookup_insert, ?lookup_delete; repeat case_decide; subst; try done; try congruence.
      * intros _ [?|(? & ? & ?)]; congruence.
      * intros [?|(? & ? & ?)]; congruence.
  - intros j o'. cbn. rewrite lookup_delete. by case_decide.
Qed.
Lemma inv_weighed w ts now o i w' (yes : bool) : inv (State w ts) -> ts !! i = Some (Sweeping now o) -> expire now o w = (w', yes) -> inv (State w' (if yes then <[i := Expiring o]> ts else delete i ts)).
Proof.
  intros I Hi Hx. assert ((yes = false /\ w' = w) \/ (yes = true /\ exists op t, opens w !! o = Some op /\ isDurable op = true /\ disconnectTime op = Some t /\
    w' = set_opens (<[o := set_durable false (durableTimeout op) (createGuid op) op]> (opens w)) w)) as [[-> ->]|(-> & op & t & Ho & Hd & Ht & ->)].
  { unfold expire in Hx. destruct (opens w !! o) as [op|]; [|injection Hx as <- <-; by left]. destruct (overdue now op) eqn:Eo; injection Hx as <- <-; [right|by left]. split; [done|].
    unfold overdue in Eo. apply andb_true_iff in Eo as [E1 E2]. destruct (disconnectTime op) as [t|] eqn:Et; [|done]. by exists op, t. }
  - apply (inv_moves (State w ts)); [done|done|done| |].
    + exists (fun p => p). split; [|done]. intros [k|j] o'; cbn; [done|]. rewrite lookup_delete. case_decide; [|done]. by intros [?|(? & ? & ?)].
    + intros j o'. cbn. rewrite lookup_delete. by case_decide.
  - assert (~ connected (State w ts) o) as Hnc by (intros (op' & H1 & H2); cbn in H1; congruence).
    set (op' := set_durable _ _ _ op). assert (forall ts', aside (State (set_opens (<[o := op']> (opens w)) w) ts') o) as Haa by (intros ts'; exists op', t; cbn; rewrite lookup_insert_eq; done).
    apply (inv_changes w ts _ _ _ _ o _ None I); [|done| |].
    + intros p o' Hp. left. assert (holds (State w ts) p o') as Hp'; [|split; [|done]; intros ->; by apply Hnc, (i_connected _ I p)].
      destruct p as [k|j]; [done|]. cbn in *. rewrite lookup_insert in Hp. case_decide; [|done]. by destruct Hp as [[=]|(? & ? & [=])].
    + intros j o' Hj. destruct (decide (o' = o)) as [->|Hn]; [right; apply Haa|left]. rewrite lookup_insert in Hj. case_decide; [congruence|done].
    + intros _. apply Haa.
Qed.
Lemma inv_swept w ts o i : inv (State w ts) -> ts !! i = Some (Expiring o) -> inv (State (endOpen o (dropGlobal o w)) (delete i ts)).
Proof.
  intros I Hi. pose proof (i_expiring _ I i o Hi) as Ha. assert (opens (endOpen o (dropGlobal o w)) = opens w /\ openTable (endOpen o (dropGlobal o w)) = openTable w /\ ended (endOpen o (dropGlobal o w)) = {[ o ]} ∪ ended w) as (E1 & E2 & E3).
  { unfold dropGlobal. by destruct (opens w !! o). }
  assert (forall p x, holds (State (endOpen o (dropGlobal o w)) (delete i ts)) p x -> holds (State w ts) p x) as Hh.
  { intros [k|j] x; cbn [holds the threads]; [by rewrite E2|]. rewrite lookup_delete. case_decide; [|done]. by intros [?|(? & ? & ?)]. }
  destruct I as [I1 I2 I3 I4]. unfold connected, aside in *. split; cbn [the threads] in *; rewrite ?E1, ?E3.
  - intros p x Hp. unfold connected. cbn [the]. rewrite E1. eauto.
  - eauto.
  - intros j x Hj. unfold aside. cbn [the]. rewrite E1. rewrite lookup_delete in Hj. case_decide; [done|]. eauto.
  - intros x Hx. unfold aside. cbn [the]. rewrite E1. apply elem_of_union in Hx as [->%elem_of_singleton|Hx]; eauto.
Qed.
Lemma inv_step s s' : inv s -> step s s' -> inv s'.
Proof.
  intros I Hs. destruct Hs as [w ts o op key Ho Hk Hd He|w ts o op req Ho Hd|w ts key o op Hk Ho|w ts key o i Hk Hd Hi|w ts now o i Hi|w ts rec ss tc o i Hg Hi|w ts rec ss tc o i w' yes Hi Hdec|
    w ts ss tc o i w' Hi Ha|w ts now dfid o i Hg Hi|w ts now o i w' yes Hi Hx|w ts o i Hi].
  - by apply inv_created.
  - by apply inv_granted.
  - (* closed *) apply (inv_moves (State w ts)); [done|done|done| |done]. exists (fun p => p). split; [|done].
    intros [key'|j] o'; cbn; [|done]. rewrite lookup_delete. by case_decide.
  - (* taken *) apply (inv_moves (State w ts)); [done|done|done| |].
    + exists (fun p => match p with InThread j => if decide (j = i) then InTable key else p | _ => p end). split.
      * intros [key'|j] o'; cbn; [rewrite lookup_delete; by case_decide|]. rewrite lookup_insert. case_decide; [|by rewrite decide_False by congruence].
        subst. rewrite decide_True by done. intros [[= <-]|(? & ? & [=])]. done.
      * intros [k1|j1] [k2|j2] o'; cbn; rewrite ?lookup_delete, ?lookup_insert; repeat case_decide; subst; try done; congruence.
    + intros j o'. cbn. rewrite lookup_insert. by case_decide.
  - by apply inv_stamped.
  - (* looked up *) apply (inv_moves (State w ts)); [done|done|done| |].
    + exists (fun p => p). split; [|done]. intros [key'|j] o'; cbn; [done|]. rewrite lookup_insert. case_decide; [|done]. by intros [[=]|(? & ? & [=])].
    + intros j o'. cbn. rewrite lookup_insert. by case_decide.
  - by eapply inv_decided.
  - by eapply inv_attached.
  - (* collected *) apply (inv_moves (State w ts)); [done|done|done| |].
    + exists (fun p => p). split; [|done]. intros [key'|j] o'; cbn; [done|]. rewrite lookup_insert. case_decide; [|done]. by intros [[=]|(? & ? & [=])].
    + intros j o'. cbn. rewrite lookup_insert. by case_decide.
  - by eapply inv_weighed.
  - by apply inv_swept.
Qed.
Definition begins (s : state) : Prop := opens (the s) = ∅ /\ openTable (the s) = ∅ /\ ended (the s) = ∅ /\ threads s = ∅.
Lemma inv_begins s : begins s -> inv s.
Proof.
  intros (H1 & H2 & H3 & H4). split; rewrite ?H3.
  - intros [k|j] o; cbn [holds]; rewrite ?H2, ?H4; [done|]. by intros [?|(? & ? & ?)].
  - intros [k|j] p' o; cbn [holds]; rewrite ?H2, ?H4; [done|]. by intros [?|(? & ? & ?)].
  - intros j o. by rewrite H4.
  - intros o Ho. by apply elem_of_empty in Ho.
Qed.
Lemma inv_reached s0 s : begins s0 -> rtc step s0 s -> inv s.
Proof. intros Hb Hr. assert (inv s0) as I by (by apply inv_begins). clear Hb. induction Hr as [s|s s1 s2 Hs _ IH]; [done|]. by apply IH, (inv_step s). Qed.

(** C30: An open is handed back or swept, never both: however creates, closes, lost connections,
    reclaims and sweeps run across one another, between any two of their critical sections,
    no session's open table holds an open the sweep has ended or is about to end, nor is
    one being put there by a reclaim that was granted; and an open is in the table of one
    session at most. *)
Theorem reclaimed_or_swept s0 s : begins s0 -> rtc step s0 s ->
  (forall key o, openTable (the s) !! key = Some o -> (o ∉ ended (the s)) /\ forall i, threads s !! i <> Some (Expiring o)) /\
  (forall i ss tc o, threads s !! i = Some (Attaching ss tc o) -> (o ∉ ended (the s)) /\ (forall j, threads s !! j <> Some (Expiring o)) /\ forall key, openTable (the s) !! key <> Some o) /\
  (forall key key' o, openTable (the s) !! key = Some o -> openTable (the s) !! key' = Some o -> key = key').
Proof.
  intros Hb Hr. pose proof (inv_reached s0 s Hb Hr) as I.
  assert (forall p o, holds s p o -> (o ∉ ended (the s)) /\ forall i, threads s !! i <> Some (Expiring o)) as Hno.
  { intros p o Hp. split; [intros He; by apply (holds_one s p o I Hp), (i_ended s I)|intros i Hi; by apply (holds_one s p o I Hp), (i_expiring s I i)]. }
  split; [intros key o Hk; by apply (Hno (InTable key))|]. split.
  - intros i ss tc o Hi. assert (holds s (InThread i) o) as Hh by (right; by exists ss, tc). destruct (Hno _ _ Hh) as [H1 H2]. split; [done|]. split; [done|].
    intros key Hk. by pose proof (i_one s I (InThread i) (InTable key) o Hh Hk).
  - intros key key' o H1 H2. by injection (i_one s I (InTable key) (InTable key') o H1 H2).
Qed.
End steps.

(** ** Coming back in time *)
Definition named (w : world) : Prop := forall k o, globalOpenTable w !! k = Some o -> exists op, opens w !! o = Some op /\ durableFileID op = k.
Record waits (o : openId) (op : open) (w : world) : Prop := Waits { w_open : opens w !! o = Some op; w_named : named w; w_global : globalOpenTable w !! durableFileID op = Some o }.

Lemma expire_keeps now o op x w w' e : waits o op w -> overdue now op = false -> expire now x w = (w', e) -> waits o op w' /\ globalOpenTable w' = globalOpenTable w /\ (e = true -> x <> o).
Proof.
  intros [H1 H2 H3] Hn Hx. unfold expire in Hx. destruct (opens w !! x) as [opx|] eqn:Ex; [|injection Hx as <- <-; by repeat split]. destruct (overdue now opx) eqn:Eo; injection Hx as <- <-; [|by repeat split].
  assert (x <> o) as Hxo by (intros ->; congruence). split; [|done]. split; cbn.
  - by rewrite lookup_insert_ne.
  - intros k y Hk. destruct (H2 k y Hk) as (opy & Hy & Hd). cbn. destruct (decide (y = x)) as [->|]; [|rewrite lookup_insert_ne by done; eauto]. rewrite lookup_insert_eq. eexists. split; [done|]. cbn. congruence.
  - done.
Qed.
Lemma expireAll_keeps now o op xs : forall w w' expired, waits o op w -> overdue now op = false -> expireAll now xs w = (w', expired) ->
  waits o op w' /\ globalOpenTable w' = globalOpenTable w /\ (forall x, x ∈ expired -> x ∈ xs /\ x <> o).
Proof.
  induction xs as [|x xs IH]; intros w w' expired Hw Hn He; cbn in He; [injection He as <- <-; split; [done|]; split; [done|]; by intros x ?%not_elem_of_nil|].
  destruct (expire now x w) as [w1 e] eqn:E1. destruct (expireAll now xs w1) as [w2 ex] eqn:E2. injection He as <- <-. destruct (expire_keeps _ _ _ _ _ _ _ Hw Hn E1) as (Hw1 & G1 & Hx).
  destruct (IH _ _ _ Hw1 Hn E2) as (Hw2 & G2 & Hall). split; [done|]. split; [congruence|]. intros y Hy. destruct e; [apply elem_of_cons in Hy as [->|Hy]|]; [split; [apply list_elem_of_here|auto]|..];
    destruct (Hall y Hy); split; [by apply list_elem_of_further|done|by apply list_elem_of_further|done].
Qed.
Lemma drops_keep o op xs : forall w, waits o op w -> (forall x opx, x ∈ xs -> opens w !! x = Some opx -> durableFileID opx <> durableFileID op) -> waits o op (fold_left (fun w x => dropGlobal x w) xs w).
Proof.
  induction xs as [|x xs IH]; intros w Hw Hx; [done|]. cbn. assert (opens (dropGlobal x w) = opens w) as Eo by (unfold dropGlobal; by destruct (opens w !! x)).
  apply IH; [|intros y opy Hy; rewrite Eo; apply Hx; by apply list_elem_of_further].
  destruct Hw as [H1 H2 H3]. unfold dropGlobal. destruct (opens w !! x) as [opx|] eqn:Ex; [|done]. split; cbn; [done| |].
  - intros k y Hk. cbn in Hk. rewrite lookup_delete in Hk. case_decide; [done|]. by apply H2.
  - rewrite lookup_delete_ne; [done|]. apply (Hx x); [apply list_elem_of_here|done].
Qed.
Lemma ends_keep o op xs : forall w, waits o op w -> waits o op (fold_left (fun w x => endOpen x w) xs w).
Proof. induction xs as [|x xs IH]; intros w Hw; [done|]. cbn. apply IH. by destruct Hw. Qed.
Lemma same_but_rest w w' o op : waits o op w -> opens w' = opens w -> globalOpenTable w' = globalOpenTable w -> waits o op w'.
Proof. intros [H1 H2 H3] E1 E2. split; unfold named; rewrite ?E1, ?E2; done. Qed.
Lemma sweep_keeps now o op w : waits o op w -> overdue now op = false -> waits o op (sweepDurableOpens now w) /\ sessions (sweepDurableOpens now w) = sessions w /\ trees (sweepDurableOpens now w) = trees w.
Proof.
  intros Hw Hn. assert (forall xs w, sessions (expireAll now xs w).1 = sessions w /\ trees (expireAll now xs w).1 = trees w) as Hst.
  { clear. induction xs as [|x xs IH]; intros w; [done|]. cbn. destruct (expire now x w) as [w1 e] eqn:E1. specialize (IH w1). destruct (expireAll now xs w1) as [w2 ex]. cbn in *.
    destruct IH as [-> ->]. unfold expire in E1. destruct (opens w !! x) as [op|]; [destruct (overdue now op)|]; injection E1 as <- _; done. }
  assert (forall xs w, sessions (fold_left (fun w o => dropGlobal o w) xs w) = sessions w /\ trees (fold_left (fun w o => dropGlobal o w) xs w) = trees w) as Hst2.
  { clear. induction xs as [|x xs IH]; intros w; [done|]. cbn. destruct (IH (dropGlobal x w)) as [-> ->]. unfold dropGlobal. by destruct (opens w !! x). }
  assert (forall xs w, sessions (fold_left (fun w o => endOpen o w) xs w) = sessions w /\ trees (fold_left (fun w o => endOpen o w) xs w) = trees w) as Hst3.
  { clear. induction xs as [|x xs IH]; intros w; [done|]. cbn. by destruct (IH (endOpen x w)) as [-> ->]. }
  unfold sweepDurableOpens. specialize (Hst (snd <$> map_to_list (globalOpenTable w)) w). destruct (expireAll _ _ w) as [w1 expired] eqn:E. cbn in Hst. destruct (expireAll_keeps _ _ _ _ _ _ _ Hw Hn E) as (Hw1 & G1 & Hx).
  destruct expired as [|x0 xs0] eqn:Ex; [done|]. rewrite <- Ex in *. clear Ex x0 xs0. split; [apply ends_keep, drops_keep; [done|]|by destruct Hst, (Hst2 expired w1), (Hst3 expired (fold_left (fun w o => dropGlobal o w) expired w1)); split; congruence].
  intros x opx Hin Ho Hd. destruct (Hx x Hin) as [Hm Hne]. apply list_elem_of_fmap in Hm as ([k y] & -> & Hm%elem_of_map_to_list). rewrite <- G1 in Hm. destruct (w_named _ _ _ Hw1 _ _ Hm) as (opy & Ho2 & Hk).
  cbn in Ho, Hne. assert (k = durableFileID op) as -> by congruence. pose proof (w_global _ _ _ Hw1) as Hg. congruence.
Qed.

Lemma takes_keep xs : forall w, opens (fold_left (fun w e => takeOrphan (fst e) w) xs w) = opens w /\ globalOpenTable (fold_left (fun w e => takeOrphan (fst e) w) xs w) = globalOpenTable w /\
  sessions (fold_left (fun w e => takeOrphan (fst e) w) xs w) = sessions w /\ trees (fold_left (fun w (e : (sessionId * Z) * openId) => takeOrphan (fst e) w) xs w) = trees w.
Proof. induction xs as [|x xs IH]; intros w; [done|]. cbn. by destruct (IH (takeOrphan x.1 w)) as (-> & -> & -> & ->). Qed.
(** Every open of the list is stamped, the rest is left alone. *)
Lemma stamps_all now (xs : list ((sessionId * Z) * openId)) : forall w w', fold_left (fun w e => stamp now (snd e) w) xs w = w' ->
  globalOpenTable w' = globalOpenTable w /\ sessions w' = sessions w /\ trees w' = trees w /\
  forall o, opens w' !! o = if decide (o ∈ snd <$> xs) then set_disconnect (Some now) <$> opens w !! o else opens w !! o.
Proof.
  induction xs as [|x xs IH]; intros w w' H; cbn in H; [subst w'; repeat split; intros o; by rewrite decide_False by apply not_elem_of_nil|].
  destruct (IH _ _ H) as (H1 & H2 & H3 & H4). repeat split; [done..|]. intros o. rewrite H4. cbn. unfold stamp. cbn. destruct (decide (o = x.2)) as [->|Hn].
  - rewrite lookup_alter_eq. rewrite (decide_True (P:=x.2 ∈ x.2 :: _)) by apply list_elem_of_here. case_decide; [|done]. by destruct (opens w !! x.2).
  - rewrite lookup_alter_ne by done. destruct (decide (o ∈ snd <$> xs)) as [Hi|Hi]; [by rewrite decide_True by (by apply list_elem_of_further)|]. rewrite decide_False; [done|]. rewrite elem_of_cons. tauto.
Qed.

(** A client that comes back in time gets its handle back: an open granted durability, whose
    session is lost at [now], survives every sweep up to the timeout it was granted, and a
    reclaim by the same user on the same share, naming the two halves of the file ID and
    the GUID of the create, is given that very open, attached to the new session under the
    file ID it always had and connected again. *)
Theorem durable_handle_comes_back EqualFold w ss0 key o op now sweeps rec ss tc mine owner here its :
  (forall x, EqualFold x x = true) -> named w -> globalOpenTable w !! durableFileID op = Some o -> openTable w !! key = Some o -> key.1 = ss0 ->
  opens w !! o = Some op -> isDurable op = true -> Forall (fun t => t - now <= durableTimeout op) sweeps ->
  rc_FileID rec = fileID op -> DurableID rec = durableFileID op -> rc_CreateGuid rec = createGuid op ->
  sessions w !! op_session op = Some owner -> sessions w !! ss = Some mine -> userName mine = userName owner -> workgroup mine = workgroup owner ->
  trees w !! treeConnect op = Some its -> trees w !! tc = Some here -> share its = share here ->
  exists w', reclaimDurableOpen EqualFold rec ss tc (fold_left (fun w t => sweepDurableOpens t w) sweeps (orphanDurableOpens now ss0 w).1) = Some (w', Some o) /\
    openTable w' !! (ss, fileID op) = Some o /\ opens w' !! o = Some (reattach ss tc op).
Proof.
  intros Hfold Hnamed Hg Hk Hs0 Ho Hdur Hsw R1 R2 R3 Hown Hmine Hu Hwg Hits Hhere Hsh. unfold orphanDurableOpens. set (xs := durableOf ss0 w).
  assert (o ∈ snd <$> xs) as Hin. { apply list_elem_of_fmap. exists (key, o). split; [done|]. unfold xs, durableOf. apply list_elem_of_filter. cbn. rewrite Ho. cbn. split; [by rewrite Hdur|]. by apply elem_of_map_to_list. }
  destruct (takes_keep xs w) as (T1 & T2 & T3 & T4). cbn [fst]. set (w1 := fold_left _ xs (fold_left _ xs w)). destruct (stamps_all now xs _ w1 eq_refl) as (S1 & S2 & S3 & S4).
  set (op1 := set_disconnect (Some now) op). assert (waits o op1 w1) as Hw1.
  { split; [rewrite S4, T1, decide_True, Ho by done; done| |by rewrite S1, T2]. intros k x Hx. rewrite S1, T2 in Hx. destruct (Hnamed k x Hx) as (opx & Hx1 & Hx2). rewrite S4, T1, Hx1. case_decide; cbn; eauto. }
  assert (forall w2, waits o op1 w2 -> sessions w2 = sessions w -> trees w2 = trees w -> exists w', reclaimDurableOpen EqualFold rec ss tc (fold_left (fun w t => sweepDurableOpens t w) sweeps w2) = Some (w', Some o) /\
    openTable w' !! (ss, fileID op) = Some o /\ opens w' !! o = Some (reattach ss tc op)) as Hall; [|apply Hall; [done|congruence|congruence]].
  clear -Hfold Hsw R1 R2 R3 Hown Hmine Hu Hwg Hits Hhere Hsh Hdur. induction Hsw as [|t sweeps Ht _ IH]; intros w2 Hw2 E1 E2; cbn [fold_left].
  - destruct Hw2 as [O1 _ O3]. unfold reclaimDurableOpen. rewrite R2. change (durableFileID op) with (durableFileID op1). rewrite O3.
    unfold decide_. rewrite O1. cbn. rewrite E1, Hmine. cbn. rewrite E2, Hhere. cbn. rewrite Hown. cbn. rewrite Hits. cbn.
    assert (mayReclaim EqualFold rec mine here op1 owner its = true) as ->.
    { unfold mayReclaim. rewrite R1, R3, Hu, Hwg, !Hfold. cbn. rewrite Hdur, Z.eqb_refl, !bool_decide_eq_true_2 by done. done. }
    cbn. unfold attach. cbn. rewrite lookup_insert_eq. cbn. rewrite E2, Hhere. cbn. eexists. split; [done|]. cbn. rewrite !lookup_insert_eq. done.
  - destruct (sweep_keeps t o op1 w2 Hw2) as (K1 & K2 & K3); [|apply IH; congruence || done]. unfold overdue, op1. cbn. rewrite Hdur. cbn. rewrite Z.gtb_ltb. apply Z.ltb_ge. lia.
Qed.

(** *** A world with one durable open of session 1, which session 2 comes back for *)
Definition sampleOpen : open := Open 7 9 [1; 2; 3] true (2 * minute) None 1 1.
Definition sampleWorld : world :=
  World {[ 1%nat := sampleOpen ]} {[ 9 := 1%nat ]} {[ (1%nat, 7) := 1%nat ]} {[ 1%nat := Session "alice" "home"; 2%nat := Session "alice" "home" ]} {[ 1%nat := Tree 5 1; 2%nat := Tree 5 0 ]} ∅.
Definition sampleReconnect : DurableHandleReconnectV2 := Reconnect 7 9 [1; 2; 3] 0.
Lemma durable_handle_comes_back_witness : exists w', reclaimDurableOpen String.eqb sampleReconnect 2 2 (fold_left (fun w t => sweepDurableOpens t w) [minute; 2 * minute] (orphanDurableOpens 0 1 sampleWorld).1) = Some (w', Some 1%nat) /\
  openTable w' !! (2%nat, 7) = Some 1%nat /\ opens w' !! 1%nat = Some (reattach 2 2 sampleOpen).
Proof.
  apply (durable_handle_comes_back String.eqb sampleWorld 1 (1%nat, 7) 1 sampleOpen 0 [minute; 2 * minute] sampleReconnect 2 2 (Session "alice" "home") (Session "alice" "home") (Tree 5 0) (Tree 5 1));
    try done; [apply String.eqb_refl| |by repeat constructor].
  intros k o Hk. apply (lookup_singleton_Some (M:=gmap Z) 9 k 1%nat o) in Hk as [<- <-]. by exists sampleOpen.
Defined.

Definition noWorld : world := World ∅ ∅ ∅ (sessions sampleWorld) (trees sampleWorld) ∅.
(** The sweep collects the open while its reclaim is being decided. *)
Lemma sample_trace : exists s, rtc (step String.eqb) (State noWorld ∅) s /\ opens (the s) !! 1%nat = Some (reattach 2 2 sampleOpen).
Proof.
  eexists. split.
  - eapply rtc_l; [apply (Created _ noWorld ∅ 1 sampleOpen (1%nat, 7)); [done|done|done|apply not_elem_of_empty]|]. eapply rtc_l; [eapply (Took _ _ _ (1%nat, 7) 1 0); reflexivity|].
    eapply rtc_l; [eapply (Stamped _ _ _ 10 1 0); reflexivity|]. eapply rtc_l; [eapply (Looked _ _ _ sampleReconnect 2 2 1 0); reflexivity|].
    eapply rtc_l; [eapply (Collected _ _ _ 20 9 1 1); reflexivity|]. eapply rtc_l; [eapply (Decided _ _ _ sampleReconnect 2 2 1 0 _ true); reflexivity|].
    eapply rtc_l; [eapply (Weighed _ _ _ 20 1 1 _ false); reflexivity|]. eapply rtc_l; [eapply (Attached _ _ _ 2 2 1 0); reflexivity|]. apply rtc_refl.
  - reflexivity.
Qed.
Lemma reclaimed_or_swept_witness : exists s, rtc (step String.eqb) (State noWorld ∅) s /\ opens (the s) !! 1%nat = Some (reattach 2 2 sampleOpen) /\
  forall key o, openTable (the s) !! key = Some o -> (o ∉ ended (the s)) /\ forall i, threads s !! i <> Some (Expiring o).
Proof. destruct sample_trace as (s & Hr & Ho). exists s. split; [done|]. split; [done|]. apply (reclaimed_or_swept String.eqb (State noWorld ∅) s); [done|exact Hr]. Defined.

(** A reclaim is granted under the lock of the open and put in the table of its session in a
    second critical section.  A session that is torn down between the two has nothing in
    its table to set aside; the open then goes into that table all the same, connected to
    a session that is gone: no sweep takes it, no reclaim gets it, and it stays in the
    global table. *)
Theorem reclaim_outlives_its_session : exists w1 w2 w3, decide_ String.eqb sampleReconnect 2 2 1 (orphanDurableOpens 0 1 sampleWorld).1 = Some (w1, true) /\
  orphanDurableOpens minute 2 w1 = (w2, 0) /\ attach 2 2 1 w2 = Some w3 /\ openTable w3 !! (2%nat, 7) = Some 1%nat /\
  (forall t, opens (sweepDurableOpens t w3) !! 1%nat = Some (reattach 2 2 sampleOpen) /\ globalOpenTable (sweepDurableOpens t w3) !! 9 = Some 1%nat) /\
  reclaimDurableOpen String.eqb sampleReconnect 1 1 w3 = Some (w3, None).
Proof. eexists _, _, _. split; [reflexivity|]. split; [reflexivity|]. split; [reflexivity|]. split; [reflexivity|]. split; [|reflexivity]. intros t. by split. Qed.
End Durable.
