(* ===== verification/Dispatch.v ===== *)
(** How the requests of a connection become the messages that answer them: the queue of
    requests and its dispatcher, compound chains, asynchronous commands and their cancels
    ([conn.go]), and the queue of outgoing messages ([sendqueue.go]).

    Four kinds of goroutine work on a connection: the reading loop accepts and cancels, the
    dispatcher processes one request after the other, the work behind an asynchronous
    request answers it when it is done, and the sender drains the queue.  Each critical
    section is one operation; the steps of [DispatchSteps] interleave them.  What a request asks for and what
    its response says stay out of it: a request is its message ID, the group ID of its
    chain, its command and the async ID it came with, and what the handler makes of it is open. *)
From S2P Require Import Prelude Smb2Const Utils.
Import Utils.

Module Dispatch.

(** ** The outgoing queue *)
Section queue.
Context {A : Type}.
Record sendQueue := SendQueue { control : list A; bulk : list A }.
Definition newSendQueue : sendQueue := SendQueue [] [].
Definition push (msg : A) (isBulk : bool) (q : sendQueue) : sendQueue :=
  if isBulk then SendQueue (control q) (bulk q ++ [msg]) else SendQueue (control q ++ [msg]) (bulk q).
Definition pop (q : sendQueue) : option (A * sendQueue) :=
  match control q with
  | m :: rest => Some (m, SendQueue rest (bulk q))
  | [] => match bulk q with m :: rest => Some (m, SendQueue [] rest) | [] => None end
  end.
End queue.
Arguments sendQueue : clear implicits.

(** ** Requests, responses and the connection *)
(** [sentAsync] is the async ID of a request that came with FLAGS_ASYNC_COMMAND set, which is
    for responses and cancels only, but which nothing refuses. *)
Record request := Request { mid : Z; gid : Z; command : Z; sentAsync : option Z }.
(** [isPending] is a status of STATUS_PENDING, an interim response; [isData] is what
    [carriesFileData] asks, a read that went well. *)
Record response := Response { r_mid : Z; r_gid : Z; r_command : Z; isPending : bool; isData : bool }.
Definition answerTo (r : request) (pending dataOk : bool) : response := Response (mid r) (gid r) (command r) pending dataOk.
(** What is sent is one response or a chain of them; the header of a chain is its first. *)
Abbreviation message := (list response).
Definition carriesFileData (m : message) : bool :=
  match m with r :: _ => (r_command r =? SMB2_READ) && isData r && negb (isPending r) | [] => false end.

Record conn := Conn {
  requestList : gmap Z request;           (* by message ID *)
  asyncCommandList : gmap Z request;      (* by async ID *)
  interimSent : gmap Z nat;               (* the channel an answer waits on, by message ID *)
  chainRemaining : gmap Z Z;
  pendingResponses : gmap Z message;
  queue : sendQueue message;
  closed : gset nat;                      (* the channels that have been closed *)
  history : list message;                 (* all that was ever pushed, in order *)
  lost : list (Z * request);              (* the message IDs of requests a cancel dropped unanswered, and the request it named *)
}.
Definition set_requests (m : gmap Z request) (c : conn) : conn := Conn m (asyncCommandList c) (interimSent c) (chainRemaining c) (pendingResponses c) (queue c) (closed c) (history c) (lost c).
Definition set_async (m : gmap Z request) (c : conn) : conn := Conn (requestList c) m (interimSent c) (chainRemaining c) (pendingResponses c) (queue c) (closed c) (history c) (lost c).
Definition set_interim (m : gmap Z nat) (c : conn) : conn := Conn (requestList c) (asyncCommandList c) m (chainRemaining c) (pendingResponses c) (queue c) (closed c) (history c) (lost c).
Definition set_chains (m : gmap Z Z) (p : gmap Z message) (c : conn) : conn := Conn (requestList c) (asyncCommandList c) (interimSent c) m p (queue c) (closed c) (history c) (lost c).
Definition set_queue (q : sendQueue message) (c : conn) : conn := Conn (requestList c) (asyncCommandList c) (interimSent c) (chainRemaining c) (pendingResponses c) q (closed c) (history c) (lost c).
Definition set_closed (s : gset nat) (c : conn) : conn := Conn (requestList c) (asyncCommandList c) (interimSent c) (chainRemaining c) (pendingResponses c) (queue c) s (history c) (lost c).
Definition lose (x : Z) (r : request) (c : conn) : conn := Conn (requestList c) (asyncCommandList c) (interimSent c) (chainRemaining c) (pendingResponses c) (queue c) (closed c) (history c) (lost c ++ [(x, r)]).
Definition newConn : conn := Conn ∅ ∅ ∅ ∅ ∅ newSendQueue ∅ [] [].

Definition writeResponse (m : message) (c : conn) : conn :=
  Conn (requestList c) (asyncCommandList c) (interimSent c) (chainRemaining c) (pendingResponses c) (push m (carriesFileData m) (queue c)) (closed c) (history c ++ [m]) (lost c).
Definition writeChain (chain : option message) (c : conn) : conn := match chain with Some m => writeResponse m c | None => c end.

(** *** Chains *)
Definition countMember (gid : Z) (c : conn) : conn :=
  if 0 <? gid then set_chains (<[gid := default 0 (chainRemaining c !! gid) + 1]> (chainRemaining c)) (pendingResponses c) c else c.
Definition chainMemberDone (gid : Z) (c : conn) : conn * option message :=
  if gid =? 0 then (c, None)
  else
    let left := default 0 (chainRemaining c !! gid) - 1 in
    if left >? 0 then (set_chains (<[gid := left]> (chainRemaining c)) (pendingResponses c) c, None)
    else (set_chains (delete gid (chainRemaining c)) (delete gid (pendingResponses c)) c, pendingResponses c !! gid).

(** *** The dispatcher *)
Definition takeRequest (c : conn) : option (request * conn) :=
  match FindMinKey (requestList c) with
  | (k, Some r) => Some (r, set_requests (delete k (requestList c)) c)
  | (_, None) => None
  end.
(** The response joins its chain, or starts one; a change notify and a request of its own
    join nothing and are written by themselves. *)
Definition joinChain (resp : response) (c : conn) : conn * option message :=
  if r_command resp =? SMB2_CHANGE_NOTIFY then (c, Some [resp])
  else if 0 <? r_gid resp then
    match pendingResponses c !! r_gid resp with
    | Some chain => (set_chains (chainRemaining c) (<[r_gid resp := chain ++ [resp]]> (pendingResponses c)) c, None)
    | None => (set_chains (chainRemaining c) (<[r_gid resp := [resp]]> (pendingResponses c)) c, None)
    end
  else (c, Some [resp]).
(** What is written once the member is counted off: the chain if that completes it, then
    the response that goes by itself. *)
Definition countedOff (gid : Z) (own : option message) (c : conn) : conn * list message :=
  let '(c, chain) := chainMemberDone gid c in (c, option_list chain ++ option_list own).
Definition interimQueued (mid : Z) (c : conn) : conn :=
  let c' := set_interim (delete mid (interimSent c)) c in
  match interimSent c !! mid with Some ch => set_closed ({[ ch ]} ∪ closed c) c' | None => c' end.

(** *** Asynchronous commands *)
Definition goAsync (aid : Z) (r : request) (c : conn) : conn := set_async (<[aid := r]> (asyncCommandList c)) c.
Definition expectInterim (ch : nat) (mid : Z) (c : conn) : conn := set_interim (<[mid := ch]> (interimSent c)) c.
Definition claimAnswer (aid mid : Z) (c : conn) : conn * bool :=
  let c := set_requests (delete mid (requestList c)) c in
  match asyncCommandList c !! aid with
  | None => (c, false)
  | Some _ => (set_async (delete aid (asyncCommandList c)) c, true)
  end.
(** The watches a closing handle still holds: [named] are the requests on that handle. *)
Definition completeWatches (named : request -> bool) (c : conn) : conn * list request :=
  let picked := fun e : Z * request => (command e.2 =? SMB2_CHANGE_NOTIFY) && named e.2 = true in
  (set_async (filter (fun e => ~ picked e) (asyncCommandList c)) c, snd <$> map_to_list (filter picked (asyncCommandList c))).

(** What a cancel names: an async ID, or the message ID of a request that is waiting on one
    or still in the queue.  One taken out of the queue is the cancel's from here on. *)
Inductive target := ByAsync (aid : Z) (r : request) | Queued (r : request).
Definition findCancelTarget (aid : option Z) (mid' : Z) (c : conn) : conn * option target :=
  match aid with
  | Some aid => (c, ByAsync aid <$> asyncCommandList c !! aid)
  | None =>
      match List.find (fun e => mid e.2 =? mid') (map_to_list (asyncCommandList c)) with
      | Some (aid, r) => (c, Some (ByAsync aid r))
      | None =>
          match requestList c !! mid' with
          | Some r => if gid r =? 0 then (set_requests (delete mid' (requestList c)) c, Some (Queued r)) else (c, None)
          | None => (c, None)
          end
      end
  end.
(** The answer of a cancel: an asynchronous request is claimed first, and one already
    answered is left be.  Whether it is asynchronous is read off its header, which for a
    request out of the queue is as the client sent it: one that came with the flag is looked
    up by the async ID it came with, and is dropped where nothing goes by that, while what
    does go by it loses its answer. *)
Definition cancelTarget (t : target) (c : conn) : conn * option message :=
  match t with
  | ByAsync aid r =>
      match asyncCommandList c !! aid with
      | None => (c, None)
      | Some _ => (set_async (delete aid (asyncCommandList c)) c, Some [answerTo r false false])
      end
  | Queued r =>
      match sentAsync r with
      | None => (c, Some [answerTo r false false])
      | Some aid =>
          match asyncCommandList c !! aid with
          | None => (lose (mid r) r c, None)
          | Some other => (lose (mid other) r (set_async (delete aid (asyncCommandList c)) c), Some [answerTo r false false])
          end
      end
  end.
End Dispatch.
