(* ===== verification/DispatchSteps.v ===== *)
(** The requests of a connection answered by goroutines that interleave: the reading loop,
    the dispatcher, the work behind asynchronous requests, cancels and the sender, as steps
    over the operations of [Dispatch].

    Every request that arrives is answered exactly once, the chains go out complete, the
    work that waits on an interim response does not overtake it, and the sender never sleeps
    on a message.  A cancel does not wait on the interim response, which the last but one
    section shows. *)
From S2P Require Import Prelude Smb2Const Utils Dispatch.
Import Utils Dispatch.

Module DispatchSteps.
(** ** Goroutines and their steps

    The reading loop deals with the requests of a message one by one: a cancel looks for its
    target, claims it and answers it, a request that fails its checks is refused on the spot
    and the rest go into the queue. *)
Inductive reading :=
| RNext
| RTarget (cancel : request) (t : target)
| RAnswer (m : message) (gid : Z)
| RCount (gid : Z)
| RSend (m : message).
(** The dispatcher has a request, then its response, then what is left to write. *)
Inductive dispatching :=
| DIdle
| DProcess (r : request)
| DAnswer (resp : response)
| DJoined (own : option message) (gid mid : Z)
| DSend (ms : list message) (mid : Z).
(** The work behind an asynchronous request, before and after it has claimed the answer,
    with the channel it waits on before it sends: a watch waits on none.  A create waits
    before it claims and the others after, which a claim at any time and a send that waits
    both allow. *)
Inductive work :=
| Working (aid : Z) (r : request) (interim : option nat)
| Answering (r : request) (interim : option nat)
| Completing (rs : list request).

Record state := State {
  the : conn; accepting : list request; reader : reading; dispatcher : dispatching; works : gmap nat work;
  accepted : list Z;              (* the message IDs of the requests that arrived, cancels aside *)
  asyncs : gmap Z request;        (* every async ID ever given *)
}.
Definition isCancel (r : request) : bool := command r =? SMB2_CANCEL.

Definition queuedBy (w : option nat) (c : conn) : Prop := match w with Some ch => ch ∈ closed c | None => True end.

(** A channel just made is neither closed nor waited on. *)
Definition freshChan (w : option nat) (c : conn) : Prop := match w with Some ch => (ch ∉ closed c) /\ forall k, interimSent c !! k <> Some ch | None => True end.

Inductive step : state -> state -> Prop :=
| s_receive c d ws acc as_ reqs :
    NoDup (mid <$> filter (fun r => isCancel r = false) reqs) ->
    Forall (fun r => isCancel r = false -> mid r ∉ acc) reqs ->
    step (State c [] RNext d ws acc as_)
         (State (foldr countMember c (gid <$> reqs)) reqs RNext d ws ((mid <$> filter (fun r => isCancel r = false) reqs) ++ acc) as_)
| s_find c r rest d ws acc as_ aid c' t :
    isCancel r = true -> findCancelTarget aid (mid r) c = (c', Some t) ->
    step (State c (r :: rest) RNext d ws acc as_) (State c' rest (RTarget r t) d ws acc as_)
| s_find_nothing c r rest d ws acc as_ :
    isCancel r = true ->
    step (State c (r :: rest) RNext d ws acc as_) (State c rest (RCount (gid r)) d ws acc as_)
| s_cancel c rest r t d ws acc as_ c' m :
    cancelTarget t c = (c', Some m) ->
    step (State c rest (RTarget r t) d ws acc as_) (State c' rest (RAnswer m (gid r)) d ws acc as_)
| s_too_late c rest r t d ws acc as_ c' :
    cancelTarget t c = (c', None) ->
    step (State c rest (RTarget r t) d ws acc as_) (State c' rest (RCount (gid r)) d ws acc as_)
| s_refuse c r rest d ws acc as_ :
    isCancel r = false ->
    step (State c (r :: rest) RNext d ws acc as_) (State c rest (RAnswer [answerTo r false false] (gid r)) d ws acc as_)
| s_refuse_write c rest m g d ws acc as_ :
    step (State c rest (RAnswer m g) d ws acc as_) (State (writeResponse m c) rest (RCount g) d ws acc as_)
| s_count c rest g d ws acc as_ c' chain :
    chainMemberDone g c = (c', chain) ->
    step (State c rest (RCount g) d ws acc as_) (State c' rest (match chain with Some m => RSend m | None => RNext end) d ws acc as_)
| s_send c rest m d ws acc as_ :
    step (State c rest (RSend m) d ws acc as_) (State (writeResponse m c) rest RNext d ws acc as_)
| s_enqueue c r rest d ws acc as_ :
    isCancel r = false ->
    step (State c (r :: rest) RNext d ws acc as_) (State (set_requests (<[mid r := r]> (requestList c)) c) rest RNext d ws acc as_)
| s_take c l rd ws acc as_ r c' :
    takeRequest c = Some (r, c') -> step (State c l rd DIdle ws acc as_) (State c' l rd (DProcess r) ws acc as_)
| s_answer c l rd r ws acc as_ dataOk :
    step (State c l rd (DProcess r) ws acc as_) (State c l rd (DAnswer (answerTo r false dataOk)) ws acc as_)
| s_async c l rd r ws acc as_ aid i interim :
    as_ !! aid = None -> ws !! i = None -> freshChan interim c ->
    step (State c l rd (DProcess r) ws acc as_)
         (State (match interim with Some ch => expectInterim ch (mid r) | None => id end (goAsync aid r c)) l rd (DAnswer (answerTo r true false)) (<[i := Working aid r interim]> ws) acc (<[aid := r]> as_))
| s_join c l rd resp ws acc as_ c' own :
    joinChain resp c = (c', own) -> step (State c l rd (DAnswer resp) ws acc as_) (State c' l rd (DJoined own (r_gid resp) (r_mid resp)) ws acc as_)
| s_done c l rd own g m ws acc as_ c' ms :
    countedOff g own c = (c', ms) -> step (State c l rd (DJoined own g m) ws acc as_) (State c' l rd (DSend ms m) ws acc as_)
| s_write c l rd msg ms m ws acc as_ :
    step (State c l rd (DSend (msg :: ms) m) ws acc as_) (State (writeResponse msg c) l rd (DSend ms m) ws acc as_)
| s_queued c l rd m ws acc as_ :
    step (State c l rd (DSend [] m) ws acc as_) (State (interimQueued m c) l rd DIdle ws acc as_)
| s_claim c l rd d ws acc as_ i aid r w c' ok :
    ws !! i = Some (Working aid r w) -> claimAnswer aid (mid r) c = (c', ok) ->
    step (State c l rd d ws acc as_) (State c' l rd d (if ok : bool then <[i := Answering r w]> ws else delete i ws) acc as_)
| s_final c l rd d ws acc as_ i r w dataOk :
    ws !! i = Some (Answering r w) -> queuedBy w c ->
    step (State c l rd d ws acc as_) (State (writeResponse [answerTo r false dataOk] c) l rd d (delete i ws) acc as_)
| s_stop c l rd d ws acc as_ i aid r :
    ws !! i = Some (Working aid r None) -> step (State c l rd d ws acc as_) (State c l rd d (delete i ws) acc as_)
| s_watches c l rd d ws acc as_ i named c' rs :
    ws !! i = None -> completeWatches named c = (c', rs) ->
    step (State c l rd d ws acc as_) (State c' l rd d (<[i := Completing rs]> ws) acc as_)
| s_cleanup c l rd d ws acc as_ i r rs :
    ws !! i = Some (Completing (r :: rs)) ->
    step (State c l rd d ws acc as_) (State (writeResponse [answerTo r false false] c) l rd d (<[i := Completing rs]> ws) acc as_)
| s_gone c l rd d ws acc as_ i :
    ws !! i = Some (Completing []) -> step (State c l rd d ws acc as_) (State c l rd d (delete i ws) acc as_)
| s_pop c l rd d ws acc as_ m q :
    pop (queue c) = Some (m, q) -> step (State c l rd d ws acc as_) (State (set_queue q c) l rd d ws acc as_).
Definition begins (s : state) : Prop := s = State newConn [] RNext DIdle ∅ [] ∅.

(** ** Who owes an answer

    Requests are counted by weight: [weigh f] adds [f] up over what a table holds. *)
Section weigh.
Context {A : Type} (f : A -> nat).
Fixpoint weighAll (l : list A) : nat := match l with [] => 0%nat | a :: l => (f a + weighAll l)%nat end.
Lemma weighAll_app l k : weighAll (l ++ k) = (weighAll l + weighAll k)%nat.
Proof. induction l; simpl; lia. Qed.
Lemma weighAll_perm l k : l ≡ₚ k -> weighAll l = weighAll k.
Proof. induction 1; simpl; lia. Qed.
Context {K : Type} `{Countable K}.
Definition weigh (m : gmap K A) : nat := weighAll (map_to_list m).*2.
Lemma weigh_insert m k a : m !! k = None -> weigh (<[k := a]> m) = (f a + weigh m)%nat.
Proof. intros E. unfold weigh. erewrite weighAll_perm by (by rewrite map_to_list_insert). done. Qed.
Lemma weigh_delete m k a : m !! k = Some a -> weigh m = (f a + weigh (delete k m))%nat.
Proof. intros E. unfold weigh. erewrite weighAll_perm by (by rewrite <- (map_to_list_delete m k a)). done. Qed.
Lemma weigh_update m k a b : m !! k = Some a -> (weigh (<[k := b]> m) + f a = f b + weigh m)%nat.
Proof.
  intros E. rewrite (weigh_delete m k a E), <- (insert_delete_eq m k b), weigh_insert by apply lookup_delete_eq. lia.
Qed.
Lemma weigh_filter (P : K * A -> Prop) `{forall x, Decision (P x)} (m : gmap K A) :
  weigh m = (weigh (filter P m) + weigh (filter (fun x => ~ P x) m))%nat.
Proof.
  induction m as [|k a m E IH] using map_ind; [done|].
  assert (filter P m !! k = None /\ filter (fun x => ~ P x) m !! k = None) as [E1 E2]
    by (split; apply map_lookup_filter_None; by left).
  rewrite (weigh_insert m) by done. destruct (decide (P (k, a))).
  - rewrite map_filter_insert_True, weigh_insert, map_filter_insert_False, delete_id by naive_solver. lia.
  - rewrite map_filter_insert_False, delete_id, map_filter_insert_True, weigh_insert by naive_solver. lia.
Qed.
Lemma weigh_positive m k a : m !! k = Some a -> (f a <= weigh m)%nat.
Proof. intros E. rewrite (weigh_delete m k a E). lia. Qed.
End weigh.

Definition given (x : Z) (r : response) : nat := Nat.b2n (negb (isPending r) && (r_mid r =? x)).
Definition givenIn (x : Z) (m : message) : nat := weighAll (given x) m.
#[global] Arguments givenIn : simpl never.
Definition wants (x : Z) (r : request) : nat := Nat.b2n (mid r =? x).
Definition unread (x : Z) (r : request) : nat := if isCancel r then 0%nat else wants x r.
Definition owes_target (x : Z) (t : target) : nat := match t with ByAsync _ _ => 0%nat | Queued r => wants x r end.
Definition owes_reader (x : Z) (rd : reading) : nat :=
  match rd with RNext | RCount _ => 0%nat | RTarget _ t => owes_target x t | RAnswer m _ | RSend m => givenIn x m end.
Definition owes_dispatcher (x : Z) (d : dispatching) : nat :=
  match d with
  | DIdle => 0%nat
  | DProcess r => wants x r
  | DAnswer resp => given x resp
  | DJoined own _ _ => givenIn x (default [] own)
  | DSend ms _ => weighAll (givenIn x) ms
  end.
Definition owes_work (x : Z) (w : work) : nat :=
  match w with Working _ _ _ => 0%nat | Answering r _ => wants x r | Completing rs => weighAll (wants x) rs end.
Definition owes_conn (x : Z) (c : conn) : nat :=
  (weigh (wants x) (requestList c) + weigh (wants x) (asyncCommandList c) + weigh (givenIn x) (pendingResponses c) + weighAll (givenIn x) (history c)
    + weighAll (fun y : Z * request => Nat.b2n (Z.eqb y.1 x)) (lost c))%nat.
(** [owes x s] counts the places that hold the answer of message ID [x], given or not or
    lost. *)
Definition owes (x : Z) (s : state) : nat :=
  (weighAll (unread x) (accepting s) + owes_reader x (reader s) + owes_conn x (the s) + owes_dispatcher x (dispatcher s) + weigh (owes_work x) (works s))%nat.
Definition due (x : Z) (s : state) : nat := weighAll (fun y => Nat.b2n (y =? x)) (accepted s).

(** Of a chain, what has not been counted off. *)
Definition isOf (g : Z) (r : request) : nat := Nat.b2n (gid r =? g).
Definition member_reader (g : Z) (rd : reading) : nat :=
  match rd with RNext | RSend _ => 0%nat | RTarget r _ => isOf g r | RAnswer _ g' | RCount g' => Nat.b2n (g' =? g) end.
Definition member_dispatcher (g : Z) (d : dispatching) : nat :=
  match d with DIdle | DSend _ _ => 0%nat | DProcess r => isOf g r | DAnswer resp => Nat.b2n (r_gid resp =? g) | DJoined _ g' _ => Nat.b2n (g' =? g) end.
Definition members (g : Z) (s : state) : nat :=
  (weighAll (isOf g) (accepting s) + member_reader g (reader s) + weigh (isOf g) (requestList (the s)) + member_dispatcher g (dispatcher s))%nat.

Record inv (s : state) : Prop := Inv {
  i_once : forall x, owes x s = due x s;
  i_fresh : forall x, (due x s <= 1)%nat;
  i_queue : map_Forall (fun k r => k = mid r) (requestList (the s));
  i_async : map_Forall (fun aid r => asyncs s !! aid = Some r) (asyncCommandList (the s));
  i_asyncs : map_Forall (fun _ r => weighAll (unread (mid r)) (accepting s) = 0%nat /\ requestList (the s) !! mid r = None /\ due (mid r) s = 1%nat) (asyncs s);
  i_works : forall i aid r w, works s !! i = Some (Working aid r w) -> asyncs s !! aid = Some r;
  i_target : forall c aid r, reader s = RTarget c (ByAsync aid r) -> asyncs s !! aid = Some r;
  i_chains : forall g, 0 < g -> Z.of_nat (members g s) = default 0 (chainRemaining (the s) !! g);
  i_pending : forall g m, pendingResponses (the s) !! g = Some m -> 0 < g /\ (1 <= members g s)%nat;
}.
(** Each member of a chain is counted once and off once, and the group IDs are no smaller
    than zero. *)

(** *** What each operation does to the answers of a connection *)
Section answers.
Context (x : Z) (c : conn).
Implicit Types (m : message) (g : Z) (r : request).

Lemma givenIn_app m k : givenIn x (m ++ k) = (givenIn x m + givenIn x k)%nat.
Proof. apply weighAll_app. Qed.
Lemma owes_write m : owes_conn x (writeResponse m c) = (owes_conn x c + givenIn x m)%nat.
Proof. unfold owes_conn. cbn. rewrite weighAll_app. simpl. lia. Qed.
Lemma owes_count g : owes_conn x (countMember g c) = owes_conn x c.
Proof. unfold countMember. by destruct (_ <? _). Qed.
Lemma owes_done g c' chain :
  chainMemberDone g c = (c', chain) -> owes_conn x c = (owes_conn x c' + givenIn x (default [] chain))%nat.
Proof.
  unfold chainMemberDone. intros E.
  destruct (g =? 0); [simplify_eq; unfold givenIn; simpl; lia|].
  destruct (_ >? 0); simplify_eq; [unfold owes_conn, givenIn; simpl; lia|].
  unfold owes_conn; cbn. destruct (pendingResponses c !! g) as [m|] eqn:E; simpl.
  - rewrite (weigh_delete _ _ _ _ E). lia.
  - rewrite delete_id by done. unfold givenIn. simpl. lia.
Qed.
Lemma owes_join resp c' own :
  joinChain resp c = (c', own) -> (owes_conn x c' + givenIn x (default [] own) = owes_conn x c + given x resp)%nat.
Proof.
  unfold joinChain. intros E.
  destruct (_ =? SMB2_CHANGE_NOTIFY); [simplify_eq; unfold givenIn; cbn; lia|].
  destruct (0 <? _); [|simplify_eq; unfold givenIn; cbn; lia].
  destruct (pendingResponses c !! r_gid resp) as [m|] eqn:Em; simplify_eq; unfold owes_conn; cbn.
  - pose proof (weigh_update (givenIn x) _ _ _ (m ++ [resp]) Em) as W. rewrite givenIn_app in W.
    change (givenIn x [resp]) with (given x resp + 0)%nat in W. change (givenIn x []) with 0%nat. lia.
  - rewrite weigh_insert by done. change (givenIn x [resp]) with (given x resp + 0)%nat. change (givenIn x []) with 0%nat. lia.
Qed.
Lemma owes_off g own c' ms :
  countedOff g own c = (c', ms) -> (owes_conn x c' + weighAll (givenIn x) ms = owes_conn x c + givenIn x (default [] own))%nat.
Proof.
  unfold countedOff. destruct (chainMemberDone g c) as [c1 chain] eqn:E. intros [= <- <-].
  rewrite (owes_done _ _ _ E), weighAll_app. destruct chain, own; simpl; change (givenIn x []) with 0%nat; lia.
Qed.
Lemma owes_requests_insert r k : requestList c !! k = None ->
  owes_conn x (set_requests (<[k := r]> (requestList c)) c) = (wants x r + owes_conn x c)%nat.
Proof. intros E. unfold owes_conn. cbn. rewrite weigh_insert by done. lia. Qed.
Lemma owes_requests_delete r k : requestList c !! k = Some r ->
  owes_conn x c = (wants x r + owes_conn x (set_requests (delete k (requestList c)) c))%nat.
Proof. intros E. unfold owes_conn. cbn. rewrite (weigh_delete _ _ _ _ E). lia. Qed.
Lemma owes_async_insert aid r : asyncCommandList c !! aid = None ->
  owes_conn x (goAsync aid r c) = (wants x r + owes_conn x c)%nat.
Proof. intros E. unfold owes_conn. cbn. rewrite weigh_insert by done. lia. Qed.
Lemma owes_async_delete aid r : asyncCommandList c !! aid = Some r ->
  owes_conn x c = (wants x r + owes_conn x (set_async (delete aid (asyncCommandList c)) c))%nat.
Proof. intros E. unfold owes_conn. cbn. rewrite (weigh_delete _ _ _ _ E). lia. Qed.
Lemma owes_lose y r : owes_conn x (lose y r c) = (owes_conn x c + Nat.b2n (Z.eqb y x))%nat.
Proof. unfold owes_conn. cbn. rewrite weighAll_app. simpl. lia. Qed.
Lemma owes_watches named c' rs :
  completeWatches named c = (c', rs) -> owes_conn x c = (weighAll (wants x) rs + owes_conn x c')%nat.
Proof.
  unfold completeWatches. intros [= <- <-]. unfold owes_conn. cbn.
  rewrite (weigh_filter (wants x) (fun e : Z * request => (command e.2 =? SMB2_CHANGE_NOTIFY) && named e.2 = true) (asyncCommandList c)).
  unfold weigh at 2. lia.
Qed.
Lemma owes_interim k : owes_conn x (interimQueued k c) = owes_conn x c.
Proof. unfold interimQueued. by destruct (interimSent c !! k). Qed.
Lemma wants_answer r b : givenIn x [answerTo r false b] = wants x r.
Proof. unfold givenIn, given, wants. simpl. lia. Qed.
End answers.

Lemma owes_counts x gs c : owes_conn x (foldr countMember c gs) = owes_conn x c.
Proof. induction gs; simpl; [done|]. by rewrite owes_count. Qed.
Lemma unread_due x reqs :
  weighAll (unread x) reqs = weighAll (fun y => Nat.b2n (y =? x)) (mid <$> filter (fun r => isCancel r = false) reqs).
Proof.
  induction reqs as [|r reqs IH]; [done|]. rewrite filter_cons. simpl. unfold unread at 1.
  destruct (isCancel r); simpl; rewrite IH; done.
Qed.
Lemma takeRequest_spec c r c' : map_Forall (fun k r => k = mid r) (requestList c) -> takeRequest c = Some (r, c') ->
  requestList c !! mid r = Some r /\ c' = set_requests (delete (mid r) (requestList c)) c.
Proof.
  unfold takeRequest. intros Hq. destruct (FindMinKey (requestList c)) as [k [r0|]] eqn:E; [|done]. intros [= -> <-].
  assert (requestList c !! k = Some r) as Ek.
  { pose proof (FindMinKey_extreme (requestList c)) as X. rewrite E in X. destruct X as [[_ X]|(v & Hv & Hl & _)]; simpl in *; congruence. }
  by rewrite <- (Hq _ _ Ek).
Qed.

(** *** The invariant is kept *)
Section kept.
Context (s : state) (I : inv s).

Lemma wants_self r : wants (mid r) r = 1%nat.
Proof. unfold wants. by rewrite Z.eqb_refl. Qed.
Lemma queue_free r rest : accepting s = r :: rest -> isCancel r = false -> requestList (the s) !! mid r = None.
Proof using I.
  intros E Hc. destruct (requestList (the s) !! mid r) as [r'|] eqn:Er; [|done]. exfalso.
  pose proof (i_queue _ I _ _ Er) as Em. pose proof (i_once _ I (mid r)) as O. pose proof (i_fresh _ I (mid r)).
  pose proof (weigh_positive (wants (mid r)) _ _ _ Er) as W. unfold wants in W at 1. rewrite <- Em, Z.eqb_refl in W. simpl in W.
  unfold owes, owes_conn in O. rewrite E in O. simpl in O. unfold unread in O at 1. rewrite Hc, wants_self in O. lia.
Qed.
Lemma at_dispatcher r : dispatcher s = DProcess r ->
  weighAll (unread (mid r)) (accepting s) = 0%nat /\ requestList (the s) !! mid r = None /\ due (mid r) s = 1%nat.
Proof using I.
  intros E. pose proof (i_once _ I (mid r)) as O. pose proof (i_fresh _ I (mid r)) as F.
  unfold owes, owes_conn in O. rewrite E in O. simpl in O. rewrite wants_self in O.
  split; [lia|]. split; [|lia]. destruct (requestList (the s) !! mid r) as [r'|] eqn:Er; [|done].
  pose proof (weigh_positive (wants (mid r)) _ _ _ Er) as W. unfold wants in W at 1. rewrite <- (i_queue _ I _ _ Er), Z.eqb_refl in W. simpl in W. lia.
Qed.
End kept.

Lemma claimAnswer_spec aid k c c' ok : requestList c !! k = None -> claimAnswer aid k c = (c', ok) ->
  (asyncCommandList c !! aid = None /\ ok = false /\ c' = c) \/
  (exists r, asyncCommandList c !! aid = Some r /\ ok = true /\ c' = set_async (delete aid (asyncCommandList c)) c).
Proof.
  intros Ek. unfold claimAnswer. rewrite delete_id by done. destruct c; simpl in *. destruct (_ !! aid) as [r|]; intros [= <- <-]; eauto.
Qed.
Lemma findCancelTarget_spec aid k c c' t : findCancelTarget aid k c = (c', Some t) ->
  match t with
  | ByAsync a r => c' = c /\ asyncCommandList c !! a = Some r
  | Queued r => gid r = 0 /\ requestList c !! k = Some r /\ c' = set_requests (delete k (requestList c)) c
  end.
Proof.
  unfold findCancelTarget. destruct aid as [a|].
  - intros [= <- E]. destruct (asyncCommandList c !! a) eqn:Ea; simpl in E; by simplify_eq.
  - destruct (List.find _ _) as [[a r]|] eqn:Ef.
    + intros [= <- <-]. apply List.find_some in Ef as [Ef _]. by apply list_elem_of_In, elem_of_map_to_list in Ef.
    + destruct (requestList c !! k) as [r|] eqn:Er; [|done]. destruct (Z.eqb_spec (gid r) 0); [|done]. by intros [= <- <-].
Qed.

Lemma once_step s s' x : inv s -> step s s' -> owes x s' = due x s'.
Proof.
  intros I St. pose proof (i_once _ I x) as O. destruct St; unfold owes, due in *; simpl in *.
  - rewrite weighAll_app, owes_counts, unread_due. lia.
  - apply findCancelTarget_spec in H0. unfold unread in O at 1. rewrite H in O. destruct t as [a r'|r']; simpl.
    + destruct H0 as [-> _]. lia.
    + destruct H0 as (_ & Er & ->). rewrite (owes_requests_delete _ _ _ _ Er) in O. lia.
  - unfold unread in O at 1. rewrite H in O. lia.
  - destruct t as [a r'|r']; simpl in *.
    + destruct (asyncCommandList c !! a) as [r0|] eqn:Ea; [|done]. simplify_eq.
      pose proof (i_async _ I _ _ Ea) as E1. pose proof (i_target _ I _ _ _ eq_refl) as E2. simpl in *. simplify_eq.
      rewrite (owes_async_delete _ _ _ _ Ea) in O. rewrite wants_answer. lia.
    + destruct (sentAsync r') as [a|]; [|simplify_eq; rewrite wants_answer; lia]. destruct (asyncCommandList c !! a) as [o|] eqn:Ea; [|done]. simplify_eq.
      rewrite owes_lose, wants_answer. rewrite (owes_async_delete _ _ _ _ Ea) in O. unfold wants in *. lia.
  - destruct t as [a r'|r']; simpl in *; [destruct (asyncCommandList c !! a); simplify_eq; lia|].
    destruct (sentAsync r') as [a|]; [|done]. destruct (asyncCommandList c !! a); simplify_eq. rewrite owes_lose. unfold wants in O. lia.
  - unfold unread in O at 1. rewrite H in O. rewrite wants_answer. lia.
  - rewrite owes_write. lia.
  - rewrite (owes_done _ _ _ _ _ H) in O. destruct chain; simpl in *; [lia|]. change (givenIn x []) with 0%nat in O. lia.
  - rewrite owes_write. lia.
  - pose proof (queue_free _ I _ _ eq_refl H) as Q. simpl in Q. rewrite owes_requests_insert by done.
    unfold unread in O at 1. rewrite H in O. lia.
  - destruct (takeRequest_spec _ _ _ (i_queue _ I) H) as [Er ->]. simpl in *. rewrite (owes_requests_delete _ _ _ _ Er) in O. lia.
  - unfold given. simpl. unfold wants in O. lia.
  - assert (asyncCommandList c !! aid = None) as Ea.
    { destruct (asyncCommandList c !! aid) eqn:Ea; [|done]. pose proof (i_async _ I _ _ Ea). simpl in *. congruence. }
    rewrite weigh_insert by done. simpl.
    replace (owes_conn x _) with (owes_conn x (goAsync aid r c)) by (by destruct interim). rewrite owes_async_insert by done. unfold given. simpl. lia.
  - pose proof (owes_join x _ _ _ _ H). lia.
  - pose proof (owes_off x _ _ _ _ _ H). lia.
  - rewrite owes_write. lia.
  - rewrite owes_interim. lia.
  - pose proof (i_works _ I _ _ _ _ H) as Ew. destruct (i_asyncs _ I _ _ Ew) as (_ & Er & _). simpl in *.
    destruct (claimAnswer_spec _ _ _ _ _ Er H0) as [(Ea & -> & ->)|(r0 & Ea & -> & ->)].
    + rewrite (weigh_delete _ _ _ _ H) in O. simpl in O. lia.
    + pose proof (i_async _ I _ _ Ea) as E2. simpl in *. simplify_eq. rewrite (owes_async_delete _ _ _ _ Ea) in O.
      pose proof (weigh_update (owes_work x) _ _ _ (Answering r w) H). simpl in *. lia.
  - rewrite owes_write, wants_answer. rewrite (weigh_delete _ _ _ _ H) in O. simpl in O. lia.
  - rewrite (weigh_delete _ _ _ _ H) in O. simpl in O. lia.
  - rewrite weigh_insert by done. rewrite (owes_watches _ _ _ _ _ H0) in O. simpl. lia.
  - rewrite owes_write, wants_answer. pose proof (weigh_update (owes_work x) _ _ _ (Completing rs) H). simpl in *. lia.
  - rewrite (weigh_delete _ _ _ _ H) in O. simpl in O. lia.
  - done.
Qed.

Lemma due_in (y : Z) l : (1 <= weighAll (fun z : Z => Nat.b2n (Z.eqb z y)) l)%nat <-> y ∈ l.
Proof.
  induction l as [|z l IH]; simpl; [split; [lia|by intros ?%elem_of_nil]|]. rewrite elem_of_cons, <- IH.
  destruct (Z.eqb_spec z y) as [->|]; simpl; split; [by left|lia|by right|by intros [->|]].
Qed.
Lemma due_once (y : Z) l : NoDup l -> (weighAll (fun z : Z => Nat.b2n (Z.eqb z y)) l <= 1)%nat.
Proof.
  induction 1 as [|z l Hz _ IH]; simpl; [lia|]. destruct (Z.eqb_spec z y) as [->|]; simpl; [|lia].
  rewrite <- due_in in Hz. lia.
Qed.
Lemma fresh_step s s' x : inv s -> step s s' -> (due x s' <= 1)%nat.
Proof.
  intros I St. pose proof (i_fresh _ I x) as F. destruct St; unfold due in *; simpl in *; try done.
  rewrite weighAll_app. pose proof (due_once x _ H). destruct (decide (x ∈ acc)) as [Hx|Hx].
  - assert (x ∉ (mid <$> filter (fun r => isCancel r = false) reqs)) as N.
    { intros (r & -> & Hr)%list_elem_of_fmap. apply list_elem_of_filter in Hr as [Hc Hr]. rewrite Forall_forall in H0. by apply (H0 r Hr). }
    rewrite <- due_in in N. lia.
  - rewrite <- due_in in Hx. lia.
Qed.

(** The parts of a connection that the writing of messages and the chains leave alone. *)
Definition sameTables (c c' : conn) : Prop := requestList c' = requestList c /\ asyncCommandList c' = asyncCommandList c.
Lemma counts_tables gs c : sameTables c (foldr countMember c gs).
Proof. induction gs as [|g gs [IH1 IH2]]; [done|]. simpl. unfold countMember at 1. by destruct (_ <? _). Qed.
Lemma done_tables g c c' chain : chainMemberDone g c = (c', chain) -> sameTables c c'.
Proof. unfold chainMemberDone. destruct (_ =? _); [by intros [= <- <-]|]. destruct (_ >? _); by intros [= <- <-]. Qed.
Lemma join_tables resp c c' own : joinChain resp c = (c', own) -> sameTables c c'.
Proof. unfold joinChain. repeat case_match; by intros [= <- <-]. Qed.
Lemma off_tables g own c c' ms : countedOff g own c = (c', ms) -> sameTables c c'.
Proof. unfold countedOff. destruct (chainMemberDone g c) eqn:E. intros [= <- <-]. by eapply done_tables. Qed.
Lemma interim_tables k c : sameTables c (interimQueued k c).
Proof. unfold interimQueued. by destruct (_ !! k). Qed.
Lemma cancel_tables t c c' o : cancelTarget t c = (c', o) -> requestList c' = requestList c /\ asyncCommandList c' ⊆ asyncCommandList c.
Proof. unfold cancelTarget. repeat case_match; intros [= <- <-]; simpl; (split; [done|]); try done; apply delete_subseteq. Qed.

Definition tables (c c' : conn) : Prop := requestList c' ⊆ requestList c /\ asyncCommandList c' ⊆ asyncCommandList c.
Lemma sameTables_tables c c' : sameTables c c' -> tables c c'.
Proof. intros [E1 E2]. unfold tables. by rewrite E1, E2. Qed.
Lemma claim_tables aid k c c' ok : claimAnswer aid k c = (c', ok) -> tables c c'.
Proof. unfold claimAnswer. simpl. case_match; intros [= <- <-]; split; simpl; try done; apply delete_subseteq. Qed.
Lemma watch_tables named c c' rs : completeWatches named c = (c', rs) -> tables c c'.
Proof. unfold completeWatches. intros [= <- <-]. split; [done|]. apply map_filter_subseteq. Qed.
Lemma find_tables aid k c c' t : findCancelTarget aid k c = (c', Some t) -> tables c c'.
Proof. intros E%findCancelTarget_spec. destruct t; [by destruct E as [-> _]|]. destruct E as (_ & _ & ->). split; [apply delete_subseteq|done]. Qed.
Lemma take_tables c r c' : takeRequest c = Some (r, c') -> tables c c'.
Proof. unfold takeRequest. case_match; case_match; [|done]. intros [= <- <-]. split; [apply delete_subseteq|done]. Qed.
Create HintDb dispatch.
#[export] Hint Resolve counts_tables done_tables join_tables off_tables interim_tables sameTables_tables claim_tables watch_tables find_tables take_tables : dispatch.

(** Every step but those that enqueue and start asynchronous work shrinks both tables. *)
Lemma tables_step s s' : step s s' ->
  tables (the s) (the s')
  \/ (exists r rest, accepting s = r :: rest /\ accepting s' = rest /\ isCancel r = false /\ the s' = set_requests (<[mid r := r]> (requestList (the s))) (the s))
  \/ (exists r aid, dispatcher s = DProcess r /\ asyncs s !! aid = None /\ asyncs s' = <[aid := r]> (asyncs s) /\ requestList (the s') = requestList (the s)
        /\ asyncCommandList (the s') = <[aid := r]> (asyncCommandList (the s)) /\ accepting s' = accepting s /\ accepted s' = accepted s).
Proof.
  destruct 1; simpl; eauto 10 with dispatch; try (left; by split).
  - left. destruct (cancel_tables _ _ _ _ H) as [E ?]. unfold tables. by rewrite E.
  - left. destruct (cancel_tables _ _ _ _ H) as [E ?]. unfold tables. by rewrite E.
  - right; right. exists r, aid. by destruct interim.
Qed.
Lemma asyncs_step s s' : step s s' -> asyncs s' = asyncs s \/ exists r aid, dispatcher s = DProcess r /\ asyncs s !! aid = None /\ asyncs s' = <[aid := r]> (asyncs s).
Proof. destruct 1; simpl; eauto 10. Qed.

Lemma map_Forall_sub {A} (P : Z -> A -> Prop) (m m' : gmap Z A) : m' ⊆ m -> map_Forall P m -> map_Forall P m'.
Proof. intros S F k a E. apply F. by eapply lookup_weaken. Qed.

Lemma queue_step s s' : inv s -> step s s' -> map_Forall (fun k r => k = mid r) (requestList (the s')).
Proof.
  intros I St. destruct (tables_step _ _ St) as [[S _]|[(r & rest & _ & _ & _ & ->)|(r & aid & _ & _ & _ & -> & _)]].
  - by eapply map_Forall_sub, i_queue.
  - simpl. apply map_Forall_insert_2; [done|]. apply I.
  - apply I.
Qed.
Lemma async_step s s' : inv s -> step s s' -> map_Forall (fun aid r => asyncs s' !! aid = Some r) (asyncCommandList (the s')).
Proof.
  intros I St.
  assert (forall aid r, asyncs s !! aid = Some r -> asyncs s' !! aid = Some r) as Mono.
  { intros aid r E. destruct (asyncs_step _ _ St) as [->|(r0 & aid0 & _ & En & ->)]; [done|]. rewrite lookup_insert_ne; [done|congruence]. }
  pose proof (i_async _ I) as A.
  destruct (tables_step _ _ St) as [[_ S]|[(r & rest & _ & _ & _ & ->)|(r & aid & _ & En & Ea & _ & -> & _)]].
  - apply (map_Forall_sub _ _ _ S). intros aid r E. by apply Mono, A.
  - intros aid r' E. by apply Mono, A.
  - apply map_Forall_insert_2; [rewrite Ea; apply lookup_insert_eq|]. intros a r' E. by apply Mono, A.
Qed.
Lemma works_step s s' i aid r w : inv s -> step s s' -> works s' !! i = Some (Working aid r w) -> asyncs s' !! aid = Some r.
Proof.
  intros I St. pose proof (i_works _ I) as W. destruct St; simpl in *; try (by apply W).
  all: try (rewrite lookup_insert_Some; intros [[<- E]|[Hn E]]; simplify_eq; eauto; fail).
  all: try (rewrite lookup_delete_Some; intros [_ E]; eauto; fail).
  - rewrite lookup_insert_Some; intros [[<- E]|[Hn E]]; simplify_eq; [apply lookup_insert_eq|].
    apply W in E. rewrite lookup_insert_ne; [done|congruence].
  - destruct ok; [rewrite lookup_insert_Some; intros [[<- E]|[Hn E]]; simplify_eq; eauto|rewrite lookup_delete_Some; intros [_ E]; eauto].
Qed.
Lemma target_step s s' c aid r : inv s -> step s s' -> reader s' = RTarget c (ByAsync aid r) -> asyncs s' !! aid = Some r.
Proof.
  intros I St. pose proof (i_target _ I) as T. destruct St; simpl in *; intros E; try (by apply (T _ _ _ E)); try congruence.
  - simplify_eq. apply findCancelTarget_spec in H0 as [_ Ea]. by apply (i_async _ I).
  - by destruct chain.
  - pose proof (T _ _ _ E). rewrite lookup_insert_ne; congruence.
Qed.

(** A request that went asynchronous is neither unread nor queued again. *)
Lemma asyncs_kept s s' : inv s -> step s s' ->
  map_Forall (fun _ r => weighAll (unread (mid r)) (accepting s') = 0%nat /\ requestList (the s') !! mid r = None /\ due (mid r) s' = 1%nat) (asyncs s').
Proof.
  intros I St aid r E.
  assert (weighAll (unread (mid r)) (accepting s) = 0%nat /\ requestList (the s) !! mid r = None /\ due (mid r) s = 1%nat) as (U & Q & D).
  { destruct (asyncs_step _ _ St) as [Es|(r0 & aid0 & Ed & En & Es)]; rewrite Es in E; [by apply (i_asyncs _ I aid)|].
    rewrite lookup_insert_Some in E. destruct E as [[<- ->]|[_ E]]; [by apply at_dispatcher|by apply (i_asyncs _ I aid)]. }
  assert (due (mid r) s' = 1%nat /\ weighAll (unread (mid r)) (accepting s') = 0%nat) as [D' U'].
  { destruct St; unfold due in *; simpl in *; split; try done; try lia.
    - rewrite weighAll_app. pose proof (fresh_step _ _ (mid r) I (s_receive c d ws acc as_ reqs H H0)) as F. unfold due in F. simpl in F. rewrite weighAll_app in F. lia.
    - rewrite unread_due. pose proof (fresh_step _ _ (mid r) I (s_receive c d ws acc as_ reqs H H0)) as F. unfold due in F. simpl in F. rewrite weighAll_app in F. lia. }
  split; [done|]. split; [|done].
  destruct (tables_step _ _ St) as [[S _]|[(r0 & rest & Ea & _ & Hc & ->)|(r0 & aid0 & _ & _ & _ & -> & _)]]; [|simpl|done].
  - by eapply lookup_weaken_None.
  - rewrite lookup_insert_ne; [done|]. intros Em. rewrite Ea in U. simpl in U. unfold unread in U at 1. rewrite Hc, <- Em, wants_self in U. lia.
Qed.

(** *** Chains are counted *)
Definition remaining (g : Z) (c : conn) : Z := default 0 (chainRemaining c !! g).
Definition sameChains (c c' : conn) : Prop := chainRemaining c' = chainRemaining c /\ pendingResponses c' = pendingResponses c.
Lemma counts_remaining g reqs c : 0 < g ->
  remaining g (foldr countMember c (gid <$> reqs)) = Z.of_nat (weighAll (isOf g) reqs) + remaining g c
  /\ pendingResponses (foldr countMember c (gid <$> reqs)) = pendingResponses c.
Proof.
  intros Hg. induction reqs as [|r reqs [IH1 IH2]]; [done|].
  rewrite fmap_cons. cbn [foldr weighAll]. set (c0 := foldr countMember c (gid <$> reqs)) in *. unfold countMember, isOf at 1.
  destruct (Z.ltb_spec 0 (gid r)); simpl.
  - split; [|done]. unfold remaining in *. simpl. destruct (Z.eqb_spec (gid r) g) as [->|]; simpl.
    + rewrite lookup_insert_eq. simpl. lia.
    + rewrite lookup_insert_ne by done. lia.
  - split; [|done]. destruct (Z.eqb_spec (gid r) g); simpl; lia.
Qed.
(** Counting a member off: one less to wait for, and at the last the chain is let go. *)
Lemma done_counts g0 c c' chain : chainMemberDone g0 c = (c', chain) -> (0 < g0 -> 1 <= remaining g0 c) ->
  (forall g, 0 < g -> remaining g c = remaining g c' + Z.of_nat (Nat.b2n (g0 =? g)))
  /\ (forall g m, 0 < g -> pendingResponses c' !! g = Some m -> pendingResponses c !! g = Some m /\ (g = g0 -> 1 <= remaining g c')).
Proof.
  unfold chainMemberDone, remaining. intros E H1. destruct (Z.eqb_spec g0 0) as [->|Hn].
  { simplify_eq. split; intros g; [|split; [done|lia]]. intros ?. destruct (Z.eqb_spec 0 g); simpl; lia. }
  destruct (Z.gtb_spec (default 0 (chainRemaining c !! g0) - 1) 0); simplify_eq; simpl; (split; [intros g Hg|intros g m Hg Hm]).
  - destruct (Z.eqb_spec g0 g) as [->|]; [rewrite lookup_insert_eq|rewrite lookup_insert_ne by done]; simpl; lia.
  - split; [done|]. intros ->. rewrite lookup_insert_eq. simpl. lia.
  - destruct (Z.eqb_spec g0 g) as [->|]; [rewrite lookup_delete_eq|rewrite lookup_delete_ne by done]; simpl; lia.
  - apply lookup_delete_Some in Hm as [? Hm]. split; [done|]. congruence.
Qed.
Lemma join_pending resp c c' own : joinChain resp c = (c', own) ->
  chainRemaining c' = chainRemaining c
  /\ forall g m, pendingResponses c' !! g = Some m -> (exists m', pendingResponses c !! g = Some m') \/ (g = r_gid resp /\ 0 < g).
Proof.
  unfold joinChain. intros E. destruct (_ =? _); [simplify_eq; eauto|]. destruct (Z.ltb_spec 0 (r_gid resp)); [|simplify_eq; eauto].
  destruct (pendingResponses c !! r_gid resp); simplify_eq; simpl; (split; [done|]); intros g m;
    rewrite lookup_insert_Some; intros [[<- _]|[_ E]]; eauto.
Qed.
Lemma isOf_self r : isOf (gid r) r = 1%nat.
Proof. unfold isOf. by rewrite Z.eqb_refl. Qed.

(** What every step does to the members of a chain that are left. *)
Definition chained (s : state) : Prop :=
  (forall g, 0 < g -> Z.of_nat (members g s) = remaining g (the s))
  /\ (forall g m, pendingResponses (the s) !! g = Some m -> 0 < g /\ (1 <= members g s)%nat).
Lemma chained_same c l rd d ws acc as_ c' l' rd' d' ws' acc' as' :
  chained (State c l rd d ws acc as_) -> sameChains c c' ->
  (forall g, 0 < g -> members g (State c' l' rd' d' ws' acc' as') = members g (State c l rd d ws acc as_)) ->
  chained (State c' l' rd' d' ws' acc' as').
Proof.
  intros [C P] [E1 E2] M. split; simpl in *; unfold remaining in *; rewrite ?E1, ?E2.
  - intros g Hg. rewrite M by done. by apply C.
  - intros g m Hm. destruct (P g m Hm). rewrite M by done. done.
Qed.
Lemma chained_done c l rd d ws acc as_ c' l' rd' d' ws' acc' as' g0 chain :
  chained (State c l rd d ws acc as_) -> chainMemberDone g0 c = (c', chain) ->
  (forall g, members g (State c l rd d ws acc as_) = (members g (State c' l' rd' d' ws' acc' as') + Nat.b2n (Z.eqb g0 g))%nat) ->
  chained (State c' l' rd' d' ws' acc' as').
Proof.
  intros [C P] E M. assert (0 < g0 -> 1 <= remaining g0 c) as H1.
  { intros Hg. specialize (C g0 Hg). rewrite M, Z.eqb_refl in C. simpl in C. lia. }
  destruct (done_counts _ _ _ _ E H1) as [R Q]. split; simpl in *.
  - intros g Hg. specialize (C g Hg). rewrite M, (R g Hg) in C. lia.
  - intros g m Hm. assert (0 < g) as Hg.
    { destruct (decide (0 < g)); [done|]. unfold chainMemberDone in E. repeat case_match; simplify_eq; simpl in *;
        try (by destruct (P _ _ Hm)). apply lookup_delete_Some in Hm as [_ Hm]. by destruct (P _ _ Hm). }
    split; [done|]. destruct (Q g m Hg Hm) as [Hm' Hl]. destruct (decide (g = g0)) as [->|].
    + specialize (Hl eq_refl). specialize (C _ Hg). rewrite M, (R _ Hg) in C. rewrite Z.eqb_refl in C. simpl in C. lia.
    + destruct (P g m Hm') as [_ ?]. rewrite M in *. destruct (Z.eqb_spec g0 g); simpl in *; [congruence|lia].
Qed.

Lemma requests_members g c k r : requestList c !! k = Some r ->
  weigh (isOf g) (requestList c) = (isOf g r + weigh (isOf g) (delete k (requestList c)))%nat.
Proof. apply weigh_delete. Qed.
Lemma chained_step s s' : inv s -> step s s' -> chained s'.
Proof.
  intros I St. assert (chained s) as C by (split; apply I). destruct St.
  - destruct C as [C P]. split; simpl in *; intros g; unfold members in *; simpl in *.
    + intros Hg. specialize (C g Hg). destruct (counts_remaining g reqs c Hg) as [-> _].
      rewrite (proj1 (counts_tables (gid <$> reqs) c)). lia.
    + intros m Hm. destruct (decide (0 < g)) as [Hg|Hg].
      * destruct (counts_remaining g reqs c Hg) as [_ E]. rewrite E in Hm. destruct (P g m Hm).
        rewrite (proj1 (counts_tables (gid <$> reqs) c)). lia.
      * destruct (counts_remaining 1 reqs c eq_refl) as [_ E]. rewrite E in Hm. by destruct (P g m Hm).
  - apply findCancelTarget_spec in H0. eapply chained_same; [exact C|by destruct t; destruct_and! H0; subst|].
    intros g Hg. unfold members. simpl. destruct t as [|r0]; [destruct H0 as [-> _]; lia|]. destruct H0 as (E0 & Er & ->).
    rewrite (requests_members g c _ _ Er). replace (isOf g r0) with 0%nat; [simpl; lia|].
    unfold isOf. rewrite E0. destruct (Z.eqb_spec 0 g); simpl; lia.
  - eapply chained_same; [exact C|done|]. intros g Hg. unfold members. simpl. unfold isOf at 3. lia.
  - eapply chained_same; [exact C|unfold cancelTarget in H; by repeat case_match; simplify_eq|].
    intros g Hg. unfold members. simpl. by destruct (cancel_tables _ _ _ _ H) as [-> _].
  - eapply chained_same; [exact C|unfold cancelTarget in H; by repeat case_match; simplify_eq|].
    intros g Hg. unfold members. simpl. by destruct (cancel_tables _ _ _ _ H) as [-> _].
  - eapply chained_same; [exact C|done|]. intros g Hg. unfold members. simpl. unfold isOf at 3. lia.
  - by eapply chained_same; [exact C|..].
  - eapply chained_done; [exact C|exact H|]. intros g'. unfold members. simpl.
    destruct (done_tables _ _ _ _ H) as [-> _]. destruct chain; simpl; lia.
  - by eapply chained_same; [exact C|..].
  - eapply chained_same; [exact C|done|]. intros g Hg. unfold members. simpl.
    rewrite weigh_insert by exact (queue_free _ I _ _ eq_refl H). lia.
  - destruct (takeRequest_spec _ _ _ (i_queue _ I) H) as [Er ->]. eapply chained_same; [exact C|done|]. intros g Hg. unfold members. simpl.
    rewrite (requests_members g c _ _ Er). lia.
  - by eapply chained_same; [exact C|..].
  - eapply chained_same; [exact C|by destruct interim|]. intros g Hg. unfold members. simpl. by destruct interim.
  - destruct C as [C P], (join_pending _ _ _ _ H) as [E1 E2], (join_tables _ _ _ _ H) as [E3 _]. split; intros g; unfold members in *; simpl in *; rewrite E3.
    + unfold remaining. rewrite E1. apply C.
    + intros m Hm. destruct (E2 g m Hm) as [[m' Hm']|[-> Hg]]; [by eapply P|]. split; [done|]. rewrite Z.eqb_refl. simpl. lia.
  - unfold countedOff in H. destruct (chainMemberDone g c) as [c1 chain] eqn:E. simplify_eq.
    eapply chained_done; [exact C|exact E|]. intros g'. unfold members. simpl. destruct (done_tables _ _ _ _ E) as [-> _]. lia.
  - by eapply chained_same; [exact C|..].
  - eapply chained_same; [exact C|unfold interimQueued; by destruct (_ !! m)|]. intros g Hg. unfold members. simpl. by destruct (interim_tables m c) as [-> _].
  - pose proof (i_works _ I _ _ _ _ H) as Ew. destruct (i_asyncs _ I _ _ Ew) as (_ & Er & _). simpl in *.
    destruct (claimAnswer_spec _ _ _ _ _ Er H0) as [(Ea & -> & ->)|(r0 & Ea & -> & ->)]; by eapply chained_same; [exact C|..].
  - by eapply chained_same; [exact C|..].
  - by eapply chained_same; [exact C|..].
  - unfold completeWatches in H0. simplify_eq. by eapply chained_same; [exact C|..].
  - by eapply chained_same; [exact C|..].
  - by eapply chained_same; [exact C|..].
  - by eapply chained_same; [exact C|..].
Qed.

Lemma inv_reachable s : reachable begins step s -> inv s.
Proof.
  apply invariant_reachable.
  - intros ? ->. split; simpl; try done. intros x. unfold due. simpl. lia.
  - intros s0 s' _ I St. destruct (chained_step _ _ I St) as [C P].
    split; eauto using once_step, fresh_step, queue_step, async_step, works_step, target_step, asyncs_kept.
Qed.

(** Nothing is left to do: every message read has been dealt with, the queue of requests
    and the list of asynchronous commands are empty, and nobody is in the middle of
    anything. *)
Record quiet (s : state) : Prop := Quiet {
  q_accepting : accepting s = []; q_reader : reader s = RNext; q_requests : requestList (the s) = ∅;
  q_dispatcher : dispatcher s = DIdle; q_async : asyncCommandList (the s) = ∅; q_works : works s = ∅;
}.
Definition answers (x : Z) (s : state) : nat := weighAll (givenIn x) (history (the s)).
Lemma quiet_no_chain s : inv s -> quiet s -> pendingResponses (the s) = ∅.
Proof.
  intros I Q. apply map_empty. intros g. destruct (_ !! g) as [m|] eqn:E; [|done].
  destruct (i_pending _ I g m E) as [_ M]. unfold members in M. destruct Q as [E1 E2 E3 E4 _ _]. rewrite E1, E2, E3, E4 in M. simpl in M.
  unfold weigh in M. rewrite map_to_list_empty in M. simpl in M. lia.
Qed.

(** What is lost is lost to the async flag of a request that a cancel named. *)
Definition flagged (c : conn) : Prop := Forall (fun e => sentAsync e.2 <> None) (lost c).
Lemma cancel_flagged t c c' o : cancelTarget t c = (c', o) -> flagged c -> flagged c'.
Proof.
  unfold cancelTarget, flagged. intros E H. destruct t as [a r|r]; [destruct (_ !! a); by simplify_eq|]. destruct (sentAsync r) eqn:Er; [|by simplify_eq].
  destruct (_ !! _); simplify_eq; simpl; (apply Forall_app; split; [done|apply Forall_singleton; simpl; congruence]).
Qed.
Lemma counts_lost gs c : lost (foldr countMember c gs) = lost c.
Proof. induction gs as [|g gs IH]; [done|]. simpl. rewrite <- IH. unfold countMember. by destruct (_ <? _). Qed.
Lemma lost_flagged s : reachable begins step s -> flagged (the s).
Proof.
  revert s. apply (invariant_reachable begins step (fun s => flagged (the s))); [by intros s ->; constructor|]. intros s s' _ H St. destruct St; simpl in *; try exact H.
  - unfold flagged. by rewrite counts_lost.
  - apply findCancelTarget_spec in H1. destruct t; destruct_and?; simplify_eq; exact H.
  - by eapply cancel_flagged.
  - by eapply cancel_flagged.
  - unfold chainMemberDone in H0. repeat case_match; simplify_eq; exact H.
  - unfold takeRequest in H0. repeat case_match; simplify_eq; exact H.
  - by destruct interim.
  - unfold joinChain in H0. repeat case_match; simplify_eq; exact H.
  - unfold countedOff, chainMemberDone in H0. repeat case_match; simplify_eq; exact H.
  - unfold interimQueued. by destruct (_ !! _).
  - unfold claimAnswer in H1. repeat case_match; simplify_eq; exact H.
  - unfold completeWatches in H1. simplify_eq. exact H.
Qed.
Lemma lost_weighs (x : Z) (l : list (Z * request)) : (1 <= weighAll (fun y : Z * request => Nat.b2n (Z.eqb y.1 x)) l)%nat -> exists r, (x, r) ∈ l.
Proof.
  induction l as [|[y r] l IH]; simpl; [lia|]. destruct (Z.eqb_spec y x) as [->|]; simpl; [intros _; exists r; apply list_elem_of_here|]. intros (r' & ?)%IH. exists r'. by apply list_elem_of_further.
Qed.
(** C28: However the reading loop, the dispatcher, the work behind asynchronous requests and
    cancels interleave, a request is given at most one final response, nothing is answered
    that was not asked, and once there is nothing left to do every request that arrived has
    had exactly one, unless it was lost to a cancel that named a request sent with the async
    flag set; a chain is never left unsent. *)
Theorem each_request_answered_once (s : state) (x : Z) :
  reachable begins step s ->
  (answers x s <= 1)%nat /\ (x ∉ accepted s -> answers x s = 0%nat) /\
  (quiet s -> pendingResponses (the s) = ∅ /\
     (x ∈ accepted s -> answers x s = 1%nat \/ exists r, (x, r) ∈ lost (the s) /\ sentAsync r <> None)).
Proof.
  intros R. pose proof (inv_reachable s R) as I. pose proof (lost_flagged s R) as Fl. pose proof (i_once _ I x) as O. pose proof (i_fresh _ I x) as F. unfold due in *.
  unfold owes, owes_conn in O. fold (answers x s) in O.
  split; [lia|]. split.
  - rewrite <- due_in. lia.
  - intros Q. split; [by apply quiet_no_chain|]. rewrite <- due_in. rewrite (quiet_no_chain s I Q) in O.
    destruct Q as [E1 E2 E3 E4 E5 E6]. rewrite E1, E2, E3, E4, E5, E6 in O. unfold weigh in O. rewrite !map_to_list_empty in O. simpl in O. intros Hd.
    destruct (decide (answers x s = 1%nat)) as [|Hn]; [by left|]. right. destruct (lost_weighs x (lost (the s))) as [r Hr]; [lia|]. exists r. split; [done|]. unfold flagged in Fl. rewrite Forall_forall in Fl. by apply (Fl (x, r)).
Qed.
(** A read still in the queue, sent with the async flag and cancelled by its message ID, is
    taken for one that has been answered: nobody answers it. *)
Theorem flagged_request_is_dropped (r : request) (aid : Z) (c : conn) : sentAsync r = Some aid -> requestList c !! mid r = Some r -> gid r = 0 -> asyncCommandList c = ∅ ->
  exists c', findCancelTarget None (mid r) c = (c', Some (Queued r)) /\ requestList c' !! mid r = None /\ cancelTarget (Queued r) c' = (lose (mid r) r c', None).
Proof.
  intros Ha Hr Hg He. eexists. unfold findCancelTarget. rewrite He, map_to_list_empty. simpl. rewrite Hr, Hg. split; [done|]. split; [apply lookup_delete_eq|].
  rewrite Ha. simpl. by rewrite He, lookup_empty.
Qed.

(** *** The interim response goes first *)
Definition interimOf (r : request) : response := answerTo r true false.
(** Where the interim response of a request of its own is, between the moment the work
    behind it starts and the moment the channel it waits on is closed. *)
Definition underway (r : request) (d : dispatching) (c : conn) : Prop :=
  match d with
  | DAnswer resp => resp = interimOf r
  | DJoined own _ m => m = mid r /\ (gid r = 0 -> own = Some [interimOf r])
  | DSend ms m => m = mid r /\ (gid r = 0 -> [interimOf r] ∈ ms \/ [interimOf r] ∈ history c)
  | _ => False
  end.
Definition waitsOn (w : work) : option (request * nat) :=
  match w with Working _ r (Some ch) | Answering r (Some ch) => Some (r, ch) | _ => None end.
Definition told (s : state) : Prop :=
  forall i w r ch, works s !! i = Some w -> waitsOn w = Some (r, ch) ->
    (ch ∈ closed (the s) -> gid r = 0 -> [interimOf r] ∈ history (the s)) /\
    (ch ∈ closed (the s) \/ (interimSent (the s) !! mid r = Some ch /\ underway r (dispatcher s) (the s))).
(** What is left of the work and of the channels by a step that does neither start work nor
    move the dispatcher. *)
Lemma told_same s c' l rd ws' acc as_ :
  told s -> closed c' = closed (the s) -> interimSent c' = interimSent (the s) -> history (the s) ⊆ history c' ->
  (forall i w, ws' !! i = Some w -> is_Some (waitsOn w) -> exists j w', works s !! j = Some w' /\ waitsOn w' = waitsOn w) ->
  told (State c' l rd (dispatcher s) ws' acc as_).
Proof.
  intros T Ec Ei Eh Hw i w r ch Hi Wi. simpl in *. destruct (Hw i w Hi) as (j & w' & Hj & Wj); [by eexists|].
  destruct (T j w' r ch Hj) as [T1 T2]; [congruence|]. rewrite Ec, Ei. split; [eauto|].
  destruct T2 as [?|[? U]]; [by left|right]. split; [done|]. destruct (dispatcher s); simpl in *; naive_solver.
Qed.
(** A step of the dispatcher that closes nothing. *)
Lemma told_moves c l rd d ws acc as_ c' d' :
  told (State c l rd d ws acc as_) -> closed c' = closed c -> interimSent c' = interimSent c -> history c ⊆ history c' ->
  (forall r, underway r d c -> underway r d' c') -> told (State c' l rd d' ws acc as_).
Proof.
  intros T Ec Ei Eh U i w r ch Hi Wi. simpl in *. destruct (T i w r ch Hi Wi) as [T1 T2]. simpl in *. rewrite Ec, Ei. naive_solver.
Qed.
Definition sameHistory (c c' : conn) : Prop := closed c' = closed c /\ interimSent c' = interimSent c /\ history c' = history c.
Lemma counts_history gs c : sameHistory c (foldr countMember c gs).
Proof. induction gs as [|g gs (E1 & E2 & E3)]; [done|]. simpl. unfold countMember at 1. by destruct (_ <? _). Qed.
Lemma done_history g c c' chain : chainMemberDone g c = (c', chain) -> sameHistory c c'.
Proof. unfold chainMemberDone. destruct (_ =? _); [by intros [= <- <-]|]. destruct (_ >? _); by intros [= <- <-]. Qed.
Lemma join_history resp c c' own : joinChain resp c = (c', own) -> sameHistory c c'.
Proof. unfold joinChain. repeat case_match; by intros [= <- <-]. Qed.
Lemma find_history aid k c c' t : findCancelTarget aid k c = (c', Some t) -> sameHistory c c'.
Proof. intros E%findCancelTarget_spec. destruct t; [by destruct E as [-> _]|by destruct E as (_ & _ & ->)]. Qed.
Lemma cancel_history t c c' o : cancelTarget t c = (c', o) -> sameHistory c c'.
Proof. unfold cancelTarget. repeat case_match; by intros [= <- <-]. Qed.
Lemma take_history c r c' : takeRequest c = Some (r, c') -> sameHistory c c'.
Proof. unfold takeRequest. case_match; case_match; [|done]. by intros [= <- <-]. Qed.
Lemma claim_history aid k c c' ok : claimAnswer aid k c = (c', ok) -> sameHistory c c'.
Proof. unfold claimAnswer. simpl. case_match; by intros [= <- <-]. Qed.
Lemma watch_history named c c' rs : completeWatches named c = (c', rs) -> sameHistory c c'.
Proof. unfold completeWatches. by intros [= <- <-]. Qed.

Ltac told_done T := first
  [ eapply (told_same _ _ _ _ _ _ _ T); simpl in *; try done; set_solver
  | eapply (told_moves _ _ _ _ _ _ _ _ _ T); simpl in *; try done; set_solver ].
Lemma works_insert (ws : gmap nat work) i w0 w1 :
  ws !! i = Some w0 -> (is_Some (waitsOn w1) -> waitsOn w1 = waitsOn w0) ->
  forall j w, <[i := w1]> ws !! j = Some w -> is_Some (waitsOn w) -> exists k w', ws !! k = Some w' /\ waitsOn w' = waitsOn w.
Proof. intros E0 E1 j w. rewrite lookup_insert_Some. intros [[<- <-]|[_ E]] S; [rewrite E1 by done|]; eauto. Qed.
Lemma works_new (ws : gmap nat work) i w1 :
  waitsOn w1 = None -> forall j w, <[i := w1]> ws !! j = Some w -> is_Some (waitsOn w) -> exists k w', ws !! k = Some w' /\ waitsOn w' = waitsOn w.
Proof. intros E1 j w. rewrite lookup_insert_Some. intros [[<- <-]|[_ E]] [? S]; [congruence|]; eauto. Qed.
Lemma works_delete (ws : gmap nat work) i :
  forall j w, delete i ws !! j = Some w -> is_Some (waitsOn w) -> exists k w', ws !! k = Some w' /\ waitsOn w' = waitsOn w.
Proof. intros j w. rewrite lookup_delete_Some. intros [_ E] _; eauto. Qed.

Lemma told_async c l rd r ws acc as_ aid i interim :
  told (State c l rd (DProcess r) ws acc as_) -> ws !! i = None -> freshChan interim c ->
  told (State (match interim with Some ch => expectInterim ch (mid r) | None => id end (goAsync aid r c)) l rd (DAnswer (answerTo r true false))
          (<[i := Working aid r interim]> ws) acc (<[aid := r]> as_)).
Proof.
  intros T Hi Fc j w r' ch. simpl. rewrite lookup_insert_Some. intros [[<- <-]|[_ Hj]] Wj; simpl in *.
  - destruct interim as [ch'|]; [|done]. simplify_eq. simpl. destruct Fc as [Fc _]. split; [done|]. right. by rewrite lookup_insert_eq.
  - destruct (T j w r' ch Hj Wj) as [T1 [T2|[_ []]]]. destruct interim; simpl in *; split; eauto.
Qed.
Lemma told_queued c l rd m ws acc as_ :
  told (State c l rd (DSend [] m) ws acc as_) -> told (State (interimQueued m c) l rd DIdle ws acc as_).
Proof.
  intros T j w r ch Hj Wj. destruct (T j w r ch Hj Wj) as [T1 T2]. simpl in *. unfold interimQueued.
  destruct T2 as [T2|[T2 [-> T3]]].
  - destruct (interimSent c !! m); simpl; split; auto. left. set_solver.
  - rewrite T2. simpl. split; [|left; set_solver]. intros _ G. destruct (T3 G); [set_solver|done].
Qed.
Lemma told_step s s' : told s -> step s s' -> told s'.
Proof.
  intros T St. destruct St; try told_done T.
  - destruct (counts_history (gid <$> reqs) c) as (E1 & E2 & E3). eapply (told_same _ _ _ _ _ _ _ T); simpl; eauto; by rewrite E3.
  - destruct (find_history _ _ _ _ _ H0) as (E1 & E2 & E3). eapply (told_same _ _ _ _ _ _ _ T); simpl; eauto; by rewrite E3.
  - destruct (cancel_history _ _ _ _ H) as (E1 & E2 & E3). eapply (told_same _ _ _ _ _ _ _ T); simpl; eauto; by rewrite E3.
  - destruct (cancel_history _ _ _ _ H) as (E1 & E2 & E3). eapply (told_same _ _ _ _ _ _ _ T); simpl; eauto; by rewrite E3.
  - destruct (done_history _ _ _ _ H) as (E1 & E2 & E3). eapply (told_same _ _ _ _ _ _ _ T); simpl; eauto; by rewrite E3.
  - destruct (take_history _ _ _ H) as (E1 & E2 & E3). eapply (told_moves _ _ _ _ _ _ _ _ _ T); simpl; eauto; by rewrite E3.
  - by apply told_async.
  - destruct (join_history _ _ _ _ H) as (E1 & E2 & E3). eapply (told_moves _ _ _ _ _ _ _ _ _ T); simpl; eauto; [by rewrite E3|].
    intros r ->. split; [done|]. intros G. unfold joinChain, interimOf in H. simpl in H. rewrite G in H. simpl in H. destruct (_ =? _); by simplify_eq.
  - unfold countedOff in H. destruct (chainMemberDone g c) as [c1 chain] eqn:E. simplify_eq.
    destruct (done_history _ _ _ _ E) as (E1 & E2 & E3). eapply (told_moves _ _ _ _ _ _ _ _ _ T); simpl; eauto; [by rewrite E3|].
    intros r [-> U]. split; [done|]. intros G. rewrite (U G). left. set_solver.
  - by apply told_queued.
  - destruct (claim_history _ _ _ _ _ H0) as (E1 & E2 & E3). eapply (told_same _ _ _ _ _ _ _ T); simpl; eauto; [by rewrite E3|].
    destruct ok; [by eapply works_insert|apply works_delete].
  - eapply (told_same _ _ _ _ _ _ _ T); simpl; [done|done|set_solver|apply works_delete].
  - eapply (told_same _ _ _ _ _ _ _ T); simpl; [done..|apply works_delete].
  - destruct (watch_history _ _ _ _ H0) as (E1 & E2 & E3). eapply (told_same _ _ _ _ _ _ _ T); simpl; [done|done|by rewrite E3|by apply works_new].
  - eapply (told_same _ _ _ _ _ _ _ T); simpl; [done|done|set_solver|]. eapply works_insert; [done|]. by intros [].
  - eapply (told_same _ _ _ _ _ _ _ T); simpl; [done..|apply works_delete].
Qed.

(** The work behind an asynchronous request of its own that waits on its interim
    response does not send the final one before the interim is on the queue: whenever it is
    free to send, the interim has been pushed. *)
Theorem interim_goes_first (s : state) (i : nat) (r : request) (ch : nat) :
  reachable begins step s -> works s !! i = Some (Answering r (Some ch)) -> queuedBy (Some ch) (the s) -> gid r = 0 ->
  [interimOf r] ∈ history (the s).
Proof.
  intros R Hi Hq G. assert (told s) as T.
  { revert R. apply invariant_reachable; [|eauto using told_step]. intros ? -> j w r' ch' E. simpl in E. by rewrite lookup_empty in E. }
  by apply (T i _ r ch Hi eq_refl).
Qed.

(** ** A cancel does not wait

    A read is taken on asynchronously and cancelled before the dispatcher has queued its
    interim response: the cancel answers it, and the interim follows the final response. *)
Definition sampleRead : request := Request 5 0 SMB2_READ None.
Definition sampleCancel : request := Request 5 0 SMB2_CANCEL None.
Definition goneAsync : conn := set_interim {[5 := 0%nat]} (set_async {[77 := sampleRead]} newConn).
Definition answeredEarly : conn := writeResponse [answerTo sampleRead false false] (set_interim {[5 := 0%nat]} newConn).
Definition inProgress (c : conn) (l : list request) (rd : reading) (d : dispatching) : state :=
  State c l rd d {[0%nat := Working 77 sampleRead (Some 0%nat)]} [5] {[77 := sampleRead]}.
Lemma reach_to s s' t : reachable begins step s -> step s s' -> s' = t -> reachable begins step t.
Proof. intros R St <-. by eapply reach_step. Qed.
Lemma read_goes_async : reachable begins step (inProgress goneAsync [] RNext (DAnswer (interimOf sampleRead))).
Proof.
  eapply (reach_to _ _ _); [|apply (s_async newConn [] RNext sampleRead ∅ [5] ∅ 77 0%nat (Some 0%nat)); try done; set_solver|by vm_compute].
  eapply (reach_to _ _ _); [|by apply (s_take (set_requests {[5 := sampleRead]} newConn) [] RNext ∅ [5] ∅ sampleRead newConn)|done].
  eapply (reach_to _ _ _); [|by apply (s_enqueue newConn sampleRead [] DIdle ∅ [5] ∅)|by vm_compute].
  eapply (reach_to _ _ _); [by apply reach_init| |].
  - apply (s_receive newConn DIdle ∅ [] ∅ [sampleRead]); [by apply NoDup_singleton|]. constructor; [|constructor]. intros _. apply not_elem_of_nil.
  - by vm_compute.
Qed.
Lemma cancel_answers_early : reachable begins step (inProgress answeredEarly [] (RCount 0) (DAnswer (interimOf sampleRead))).
Proof.
  set (ws := {[0%nat := Working 77 sampleRead (Some 0%nat)]} : gmap nat work). set (as_ := {[77 := sampleRead]} : gmap Z request). set (d := DAnswer (interimOf sampleRead)).
  set (c := set_interim {[5 := 0%nat]} newConn). set (t := ByAsync 77 sampleRead).
  eapply (reach_to _ _ _); [|apply (s_refuse_write c [] [answerTo sampleRead false false] 0 d ws [5] as_)|done].
  eapply (reach_to _ _ _); [|by apply (s_cancel goneAsync [] sampleCancel t d ws [5] as_ c [answerTo sampleRead false false])|done].
  eapply (reach_to _ _ _); [|by apply (s_find goneAsync sampleCancel [] d ws [5] as_ None goneAsync t)|done].
  eapply (reach_to _ _ _); [apply read_goes_async| |].
  - apply (s_receive goneAsync d ws [5] as_ [sampleCancel]); [apply NoDup_nil_2|by repeat constructor].
  - done.
Qed.

(** The final response of the cancelled read is on the queue, in the same lane, ahead of
    the interim response that says it is pending. *)
Theorem cancel_overtakes_interim :
  exists s, reachable begins step s /\ history (the s) = [[answerTo sampleRead false false]; [interimOf sampleRead]]
    /\ control (queue (the s)) = history (the s).
Proof.
  exists (inProgress (writeResponse [interimOf sampleRead] answeredEarly) [] (RCount 0) (DSend [] 5)). split; [|by vm_compute].
  set (ws := {[0%nat := Working 77 sampleRead (Some 0%nat)]} : gmap nat work). set (as_ := {[77 := sampleRead]} : gmap Z request).
  eapply (reach_to _ _ _); [|apply (s_write answeredEarly [] (RCount 0) [interimOf sampleRead] [] 5 ws [5] as_)|done].
  eapply (reach_to _ _ _); [|by apply (s_done answeredEarly [] (RCount 0) (Some [interimOf sampleRead]) 0 5 ws [5] as_ answeredEarly [[interimOf sampleRead]])|done].
  eapply (reach_to _ _ _); [apply cancel_answers_early| |done].
  by apply (s_join answeredEarly [] (RCount 0) (interimOf sampleRead) ws [5] as_ answeredEarly (Some [interimOf sampleRead])).
Qed.

Lemma each_request_answered_once_witness :
  reachable begins step (inProgress answeredEarly [] (RCount 0) (DAnswer (interimOf sampleRead))) /\
  (answers 5 (inProgress answeredEarly [] (RCount 0) (DAnswer (interimOf sampleRead))) <= 1)%nat.
Proof. split; [exact cancel_answers_early|]. apply (each_request_answered_once _ 5 cancel_answers_early). Defined.

(** The same read left alone: its interim response goes out, its work claims the answer and
    is free to send it. *)
Definition interimOut : conn := interimQueued 5 (writeResponse [interimOf sampleRead] goneAsync).
Definition freeToSend : state :=
  State (set_async ∅ interimOut) [] RNext DIdle {[0%nat := Answering sampleRead (Some 0%nat)]} [5] {[77 := sampleRead]}.
Lemma read_free_to_send : reachable begins step freeToSend.
Proof.
  set (ws := {[0%nat := Working 77 sampleRead (Some 0%nat)]} : gmap nat work). set (as_ := {[77 := sampleRead]} : gmap Z request).
  set (own := [interimOf sampleRead]).
  eapply (reach_to _ _ _); [|by apply (s_claim interimOut [] RNext DIdle ws [5] as_ 0%nat 77 sampleRead (Some 0%nat) (set_async ∅ interimOut) true)|done].
  eapply (reach_to _ _ _); [|apply (s_queued (writeResponse own goneAsync) [] RNext 5 ws [5] as_)|done].
  eapply (reach_to _ _ _); [|apply (s_write goneAsync [] RNext own [] 5 ws [5] as_)|done].
  eapply (reach_to _ _ _); [|by apply (s_done goneAsync [] RNext (Some own) 0 5 ws [5] as_ goneAsync [own])|done].
  eapply (reach_to _ _ _); [apply read_goes_async| |done].
  by apply (s_join goneAsync [] RNext (interimOf sampleRead) ws [5] as_ goneAsync (Some own)).
Qed.
Lemma interim_goes_first_witness :
  reachable begins step freeToSend /\ [interimOf sampleRead] ∈ history (the freeToSend).
Proof.
  split; [exact read_free_to_send|].
  apply (interim_goes_first freeToSend 0%nat sampleRead 0%nat read_free_to_send); [reflexivity| |reflexivity].
  simpl. apply (bool_decide_unpack _). vm_compute. exact I.
Defined.

(** ** The sender

    [push] puts a message on its lane and then signals; the sender takes what there is and
    waits for the signal when there is nothing.  The two halves of a push are steps of
    their own, any number of pushes may be between them, and the signal holds one. *)
Section sender.
Context {A : Type}.
Record mail := Mail {
  lanes : sendQueue A; ready : bool; between : nat; waiting : bool;
  pushed : list (A * bool); delivered : list (A * bool);
}.
Inductive sender : mail -> mail -> Prop :=
| m_deliver q r b p d m lane q' :
    pop q = Some (m, q') -> lane = bool_decide (control q = []) -> sender (Mail q r b false p d) (Mail q' r b false p (d ++ [(m, lane)]))
| m_wait q r b p d : pop q = None -> sender (Mail q r b false p d) (Mail q r b true p d)
| m_wake q b p d : sender (Mail q true b true p d) (Mail q false b false p d).
Inductive mailing : mail -> mail -> Prop :=
| m_sender s s' : sender s s' -> mailing s s'
| m_append q r b w p d m lane : mailing (Mail q r b w p d) (Mail (push m lane q) r (S b) w (p ++ [(m, lane)]) d)
| m_signal q r b w p d : mailing (Mail q r (S b) w p d) (Mail q true b w p d).
Definition quietMail (s : mail) : Prop := s = Mail newSendQueue false 0 false [] [].

Definition laneOf (b : bool) (l : list (A * bool)) : list A := fst <$> filter (fun e => e.2 = b) l.
Lemma laneOf_app b l k : laneOf b (l ++ k) = laneOf b l ++ laneOf b k.
Proof. unfold laneOf. by rewrite filter_app, fmap_app. Qed.
Lemma laneOf_one b b' m : laneOf b [(m, b')] = if bool_decide (b' = b) then [m] else [].
Proof. unfold laneOf. rewrite filter_cons. simpl. by destruct b, b'. Qed.
(** Nothing waiting goes unsignalled, and each lane is what was put on it less what was
    taken off its front. *)
Record posted (s : mail) : Prop := Posted {
  p_signal : waiting s = true -> ready s = false -> between s = 0%nat -> lanes s = newSendQueue;
  p_control : laneOf false (pushed s) = laneOf false (delivered s) ++ control (lanes s);
  p_bulk : laneOf true (pushed s) = laneOf true (delivered s) ++ bulk (lanes s);
}.
Lemma pop_None (q : sendQueue A) : pop q = None -> q = newSendQueue.
Proof. destruct q as [[|] [|]]; by intros [=]. Qed.
Lemma pop_Some (q q' : sendQueue A) m : pop q = Some (m, q') ->
  (control q = m :: control q' /\ bulk q = bulk q') \/ (control q = [] /\ control q' = [] /\ bulk q = m :: bulk q').
Proof. destruct q as [[|] [|]]; simpl; intros [= <- <-]; auto. Qed.
Lemma posted_sender s s' : posted s -> sender s s' -> posted s'.
Proof.
  intros [Ps Pc Pb] St. destruct St as [q r b p d m lane q' E ->|q r b p d E|q b p d]; simpl in *; split; simpl in *; try done.
  - rewrite Pc, laneOf_app, laneOf_one, <- (assoc_L (++)). f_equal. destruct (pop_Some _ _ _ E) as [[-> _]|(-> & -> & _)]; done.
  - rewrite Pb, laneOf_app, laneOf_one, <- (assoc_L (++)). f_equal. destruct (pop_Some _ _ _ E) as [[-> ->]|(-> & _ & ->)]; done.
  - intros. by apply pop_None.
Qed.
Lemma posted_mailing s s' : posted s -> mailing s s' -> posted s'.
Proof.
  intros P St. destruct St as [s s' St|q r b w p d m lane|q r b w p d]; [by eapply posted_sender|..]; destruct P as [Ps Pc Pb]; split; simpl in *; try done.
  - rewrite laneOf_app, Pc, laneOf_one, <- (assoc_L (++)). f_equal. destruct lane; simpl; [by rewrite app_nil_r|done].
  - rewrite laneOf_app, Pb, laneOf_one, <- (assoc_L (++)). f_equal. destruct lane; simpl; [done|by rewrite app_nil_r].
Qed.
Lemma posted_reachable s : reachable quietMail mailing s -> posted s.
Proof. apply invariant_reachable; [by intros ? ->|eauto using posted_mailing]. Qed.

Lemma drain n q r b p d : (length (control q) + length (bulk q) <= n)%nat ->
  exists d', rtc sender (Mail q r b false p d) (Mail newSendQueue r b false p d').
Proof.
  revert q d. induction n as [|n IH]; intros [[|m cs] bs] d Hn; simpl in *; try lia.
  - destruct bs; simpl in *; [|lia]. exists d. apply rtc_refl.
  - destruct bs as [|m bs]; simpl in *; [exists d; apply rtc_refl|].
    destruct (IH (SendQueue [] bs) (d ++ [(m, true)])) as [d' R]; [simpl; lia|]. exists d'. by eapply rtc_l; [apply m_deliver|].
  - destruct (IH (SendQueue cs bs) (d ++ [(m, false)])) as [d' R]; [simpl; lia|]. exists d'. by eapply rtc_l; [apply m_deliver|].
Qed.

(** C29: Whatever is pushed while the sender runs or waits, once the pushes are through the
    sender by itself delivers everything: it is never left waiting with a message on the
    queue, and each lane comes out complete and in the order it was pushed. *)
Theorem queue_drains (s : mail) :
  reachable quietMail mailing s -> between s = 0%nat ->
  exists s', rtc sender s s' /\ lanes s' = newSendQueue /\ pushed s' = pushed s /\
    laneOf false (delivered s') = laneOf false (pushed s) /\ laneOf true (delivered s') = laneOf true (pushed s).
Proof.
  intros P%posted_reachable Hb.
  assert (exists s', rtc sender s s' /\ lanes s' = newSendQueue /\ pushed s' = pushed s) as (s' & R & El & Ep).
  { destruct s as [q r b w p d]. simpl in *. subst. destruct w; [destruct r|].
    - destruct (drain _ q false 0 p d (le_n _)) as [d' R]. eexists. split; [eapply rtc_l; [apply m_wake|exact R]|done].
    - exists (Mail q false 0 true p d). split; [apply rtc_refl|]. split; [by apply P|done].
    - destruct (drain _ q r 0 p d (le_n _)) as [d' R]. eexists. split; [exact R|done]. }
  exists s'. split; [done|]. split; [done|]. split; [done|].
  assert (posted s') as [_ Pc Pb] by (clear - P R; induction R; eauto using posted_sender).
  rewrite El, Ep in *. simpl in *. by rewrite Pc, Pb, !app_nil_r.
Qed.
End sender.

(** Two messages pushed, one of file data, with the sender asleep and the signals given. *)
Definition sampleMail : mail := Mail (SendQueue [2] [1]) true 0 true [(1, true); (2, false)] [].
Lemma sampleMail_reachable : reachable quietMail mailing sampleMail.
Proof.
  eapply reach_step; [eapply reach_step; [eapply reach_step; [eapply reach_step; [eapply reach_step; [by apply reach_init|]|]|]|]|].
  - apply m_sender. by apply m_wait.
  - by apply (m_append _ _ _ _ _ _ 1 true).
  - by apply (m_append _ _ _ _ _ _ 2 false).
  - apply m_signal.
  - apply m_signal.
Qed.
Lemma queue_drains_witness : exists s', rtc sender sampleMail s' /\ lanes s' = newSendQueue /\ laneOf true (delivered s') = [1].
Proof.
  destruct (queue_drains sampleMail sampleMail_reachable eq_refl) as (s' & R & El & _ & _ & Eb). exists s'. split; [exact R|]. split; [exact El|exact Eb].
Defined.
End DispatchSteps.
