(* ===== verification/ServerState.v ===== *)
(** The state the caching promises live in: the opens, the leases, the indexes
    over the open table ([openindex.go]) and the lease tables ([lease.go]), as
    one store of objects named by their identity.

    A pointer of the source ([*open], [*lease], [*share]) is a key of the store,
    so two names for one object are one key, as they are one pointer.  Code that
    works on the store is written in the monad [M], which passes the store along
    and stops at a panic: a nil pointer, a second close of a channel. *)
From S2P Require Import Prelude Smb2Const Chan.

Abbreviation openId := nat.
Abbreviation leaseId := nat.
Abbreviation shareId := nat.
(** A 16-byte GUID or lease key, as the number its bytes spell; the all-zero
    GUID of a client that named none is [0]. *)
Abbreviation guid := N.

(** ** Objects *)

Inductive oplockState := OplockNone | OplockHeld | OplockBreaking.
#[export] Instance oplockState_eq_dec : EqDecision oplockState.
Proof. solve_decision. Defined.

(** The oplock fields of an open. *)
Record oplock := Oplock {
  oplockLevel : Z;
  oplock_state : oplockState;
  oplockBreakTo : Z;
  oplockBreak : option chan;
  oplockBreakSeq : Z;
}.
Definition noOplock : oplock := Oplock OPLOCK_LEVEL_NONE OplockNone OPLOCK_LEVEL_NONE None 0.

Record open := Open {
  treeConnect : option shareId;   (* the share of the tree connect; [None] is a nil one *)
  pathName : string;
  fileName : string;
  durableFileID : Z;
  clientGuid : guid;
  createGuid : guid;
  isReplayEligible : bool;
  grantedAccess : Z;
  shareMode : Z;
  file_isDirectory : bool;
  op_oplock : oplock;
  op_lease : option leaseId;
}.

Record lease := Lease {
  leaseKey : guid;
  lease_clientGuid : guid;
  lease_fileName : string;
  state : Z;
  breakToState : Z;
  breaking : bool;
  epoch : Z;
  fileDeleteOnClose : bool;
  lease_opens : gmap Z openId;
  breakDone : option chan;
  breakSeq : Z;
}.

(** [fileKey] and [replayKey] of [openindex.go]. *)
Abbreviation fileKey := (option shareId * string)%type.
Abbreviation replayKey := (guid * guid)%type.

Record server := Server {
  opens : gmap openId open;
  leases : gmap leaseId lease;
  opensByFile : gmap fileKey (gmap Z openId);
  replayableOpens : gmap replayKey openId;
  globalLeaseTableList : gmap guid (gmap guid leaseId);
  srv_chans : chans;
}.

(** ** Field updates *)

Definition set_oplock (k : oplock) (op : open) : open :=
  Open (treeConnect op) (pathName op) (fileName op) (durableFileID op) (clientGuid op)
    (createGuid op) (isReplayEligible op) (grantedAccess op) (shareMode op)
    (file_isDirectory op) k (op_lease op).
Definition set_op_lease (l : option leaseId) (op : open) : open :=
  Open (treeConnect op) (pathName op) (fileName op) (durableFileID op) (clientGuid op)
    (createGuid op) (isReplayEligible op) (grantedAccess op) (shareMode op)
    (file_isDirectory op) (op_oplock op) l.
Definition set_replay (b : bool) (op : open) : open :=
  Open (treeConnect op) (pathName op) (fileName op) (durableFileID op) (clientGuid op)
    (createGuid op) b (grantedAccess op) (shareMode op)
    (file_isDirectory op) (op_oplock op) (op_lease op).
Definition set_name (path name : string) (op : open) : open :=
  Open (treeConnect op) path name (durableFileID op) (clientGuid op)
    (createGuid op) (isReplayEligible op) (grantedAccess op) (shareMode op)
    (file_isDirectory op) (op_oplock op) (op_lease op).

Definition set_opens (m : gmap openId open) (s : server) : server :=
  Server m (leases s) (opensByFile s) (replayableOpens s) (globalLeaseTableList s) (srv_chans s).
Definition set_leases (m : gmap leaseId lease) (s : server) : server :=
  Server (opens s) m (opensByFile s) (replayableOpens s) (globalLeaseTableList s) (srv_chans s).
Definition set_byFile (m : gmap fileKey (gmap Z openId)) (s : server) : server :=
  Server (opens s) (leases s) m (replayableOpens s) (globalLeaseTableList s) (srv_chans s).
Definition set_replayable (m : gmap replayKey openId) (s : server) : server :=
  Server (opens s) (leases s) (opensByFile s) m (globalLeaseTableList s) (srv_chans s).
Definition set_tables (m : gmap guid (gmap guid leaseId)) (s : server) : server :=
  Server (opens s) (leases s) (opensByFile s) (replayableOpens s) m (srv_chans s).
Definition set_chans (c : chans) (s : server) : server :=
  Server (opens s) (leases s) (opensByFile s) (replayableOpens s) (globalLeaseTableList s) c.

(** ** The monad *)

Definition M (A : Type) : Type := server -> outcome Empty_set (A * server).
#[export] Instance M_ret : MRet M := fun A a s => Ok (a, s).
#[export] Instance M_bind : MBind M :=
  fun A B f m s => match m s with
                   | Ok (a, s') => f a s'
                   | Err e => Err e
                   | Panic => Panic
                   | Stuck => Stuck
                   end.

Definition gets {A} (f : server -> A) : M A := fun s => Ok (f s, s).
Definition modify (f : server -> server) : M unit := fun s => Ok (tt, f s).
Definition deref {A} (o : option A) : M A :=
  fun s => match o with Some a => Ok (a, s) | None => Panic end.

Definition getOpen (o : openId) : M open :=
  fun s => deref (opens s !! o) s.
Definition modOpen (o : openId) (f : open -> open) : M unit :=
  modify (fun s => set_opens (alter f o (opens s)) s).
Definition getLease (l : leaseId) : M lease :=
  fun s => deref (leases s !! l) s.
Definition modLease (l : leaseId) (f : lease -> lease) : M unit :=
  modify (fun s => set_leases (alter f l (leases s)) s).
Definition mkChan : M chan :=
  fun s => let '(c, cs) := make_chan (srv_chans s) in Ok (c, set_chans cs s).
Definition closeChan (c : option chan) : M unit :=
  fun s => match close_chan (E:=Empty_set) c (srv_chans s) with
           | Ok cs => Ok (tt, set_chans cs s)
           | _ => Panic
           end.

(** A loop over a slice, in order. *)
Fixpoint forM {A B} (l : list A) (f : A -> M B) : M (list B) :=
  match l with
  | [] => mret []
  | x :: l => y ← f x; ys ← forM l f; mret (y :: ys)
  end.

(** [if] and the loops of the readers: whether some element answers yes. *)
Fixpoint anyM {A} (l : list A) (f : A -> M bool) : M bool :=
  match l with
  | [] => mret false
  | x :: l => b ← f x; if (b : bool) then mret true else anyM l f
  end.

(** ** Running the monad *)

(** [wp m s Q]: from [s], [m] returns without a panic and its result and the
    store it leaves satisfy [Q]. *)
Definition wp {A} (m : M A) (s : server) (Q : A -> server -> Prop) : Prop :=
  match m s with Ok (a, s') => Q a s' | _ => False end.

Section wp.
Context {A B : Type}.
Implicit Types (m : M A) (s : server).

Lemma wp_mono m s (Q Q' : A -> server -> Prop) :
  (forall a s', Q a s' -> Q' a s') -> wp m s Q -> wp m s Q'.
Proof. unfold wp. destruct (m s) as [[a s']| | |]; auto. Qed.
Lemma wp_and m s (Q Q' : A -> server -> Prop) :
  wp m s Q -> wp m s Q' -> wp m s (fun a s' => Q a s' /\ Q' a s').
Proof. unfold wp. destruct (m s) as [[a s']| | |]; [by split|done..]. Qed.
Lemma wp_ext m m' s Q : m s = m' s -> wp m s Q -> wp m' s Q.
Proof. unfold wp. by intros ->. Qed.
Lemma wp_ret (a : A) s Q : Q a s -> wp (mret a) s Q.
Proof. done. Qed.
Lemma wp_bind m (f : A -> M B) s Q :
  wp m s (fun a s' => wp (f a) s' Q) -> wp (m ≫= f) s Q.
Proof. unfold wp, mbind, M_bind. by destruct (m s) as [[a s']| | |]. Qed.
Lemma wp_run m s Q : wp m s Q <-> exists a s', m s = Ok (a, s') /\ Q a s'.
Proof. unfold wp. destruct (m s) as [[a s']| | |]; naive_solver. Qed.
Lemma wp_eq m s a s' : wp m s (fun b t => (b, t) = (a, s')) -> m s = Ok (a, s').
Proof. unfold wp. destruct (m s) as [[b t]| | |]; [by intros [= -> ->]|done..]. Qed.
Lemma wp_gets (f : server -> A) s Q : Q (f s) s -> wp (gets f) s Q.
Proof. done. Qed.
End wp.

Lemma wp_modify f s Q : Q tt (f s) -> wp (modify f) s Q.
Proof. done. Qed.
Lemma wp_getOpen o op s Q : opens s !! o = Some op -> Q op s -> wp (getOpen o) s Q.
Proof. intros H ?. unfold wp, getOpen, deref. by rewrite H. Qed.
Lemma wp_getLease l x s Q : leases s !! l = Some x -> Q x s -> wp (getLease l) s Q.
Proof. intros H ?. unfold wp, getLease, deref. by rewrite H. Qed.
Lemma wp_modOpen o f s Q :
  Q tt (set_opens (alter f o (opens s)) s) -> wp (modOpen o f) s Q.
Proof. done. Qed.
Lemma wp_modLease l f s Q :
  Q tt (set_leases (alter f l (leases s)) s) -> wp (modLease l f) s Q.
Proof. done. Qed.
Lemma wp_mkChan s Q :
  Q (make_chan (srv_chans s)).1 (set_chans (make_chan (srv_chans s)).2 s) -> wp mkChan s Q.
Proof. done. Qed.
Lemma wp_closeChan c s Q :
  chan_open (srv_chans s) c ->
  Q tt (set_chans (Chans (next_chan (srv_chans s)) ({[c]} ∪ closed_chans (srv_chans s))) s) ->
  wp (closeChan (Some c)) s Q.
Proof. intros Hc ?. unfold wp, closeChan. by rewrite (close_chan_Ok _ _ Hc). Qed.

(** A loop preserves what its body preserves. *)
Lemma wp_forM {A B} (I : server -> Prop) (l : list A) (f : A -> M B) s
    (Q : list B -> server -> Prop) :
  I s ->
  (forall x s, x ∈ l -> I s -> wp (f x) s (fun _ => I)) ->
  (forall ys s, I s -> Q ys s) ->
  wp (forM l f) s Q.
Proof.
  revert s Q. induction l as [|x l IH]; intros s Q HI Hf HQ; simpl; [by apply HQ|].
  apply wp_bind. eapply wp_mono; [|apply Hf; [left|done]]. intros y s' HI'.
  apply wp_bind. eapply IH; [done|intros; apply Hf; [by right|done]|].
  intros ys s'' HI''. by apply HQ.
Qed.

(** Code that only reads: it returns the value of [f] and leaves the store. *)
Definition reads {A} (m : M A) (s : server) (a : A) : Prop := m s = Ok (a, s).

Lemma reads_ret {A} (a : A) s : reads (mret a) s a.
Proof. done. Qed.
Lemma reads_bind {A B} (m : M A) (f : A -> M B) s a b :
  reads m s a -> reads (f a) s b -> reads (m ≫= f) s b.
Proof. unfold reads, mbind, M_bind. intros ->. done. Qed.
Lemma wp_reads {A} (m : M A) s a Q : reads m s a -> Q a s -> wp m s Q.
Proof. unfold reads, wp. intros ->. done. Qed.

Lemma anyM_reads {A} (l : list A) (f : A -> M bool) (b : A -> bool) s :
  (forall x, x ∈ l -> reads (f x) s (b x)) -> reads (anyM l f) s (existsb b l).
Proof.
  induction l as [|x l IH]; intros Hf; simpl; [done|].
  eapply reads_bind; [apply Hf; left|]. destruct (b x); [done|].
  simpl. apply IH. intros. apply Hf. by right.
Qed.

Lemma forM_fmap {A B C} (f : A -> B) (g : B -> M C) (l : list A) s :
  forM (f <$> l) g s = forM l (fun x => g (f x)) s.
Proof.
  revert s. induction l as [|x l IH]; intros s; [done|].
  cbn [fmap list_fmap forM]. unfold mbind, M_bind. destruct (g (f x) s) as [[y s']| | |]; [|done..].
  change (list_fmap A B f l) with (f <$> l). by rewrite IH.
Qed.
