(* ===== verification/OpenIndex.v ===== *)
(** [openindex.go]: the index of opens by file, which every create consults before
    it may grant an oplock or a lease, and the index of opens by create GUID,
    which every durable create consults for a replay.

    Each definition but [opensOn] and [moveOpensOnFile] is one hold of [openIndexMu]
    (with the lock of the open taken inside it, as the source does), so that a run of
    them is an interleaving of the source's critical sections; those two take the lock
    again and again, and stand here for a run of them with nothing in between.
    [CachingSteps] takes [moveOpen] as its step, one open at a time.  A range over a Go map visits the entries in
    an order Go does not fix; the model uses [map_to_list], and no theorem
    depends on the order. *)
From S2P Require Import Prelude Smb2Const Chan ServerState Paths.

(** ** The operations *)

Definition fileKeyLocked (op : open) : fileKey := (treeConnect op, pathName op).

Definition bucket_of (s : server) (k : fileKey) : gmap Z openId :=
  default ∅ (opensByFile s !! k).

(** [bucket, found := s.opensByFile[key]; if !found { make it }; bucket[dfid] = op]. *)
Definition addToBucket (key : fileKey) (dfid : Z) (o : openId) : M unit :=
  modify (fun s => set_byFile (<[key := <[dfid := o]> (bucket_of s key)]> (opensByFile s)) s).

Definition indexOpen (o : openId) : M unit :=
  op ← getOpen o;
  addToBucket (fileKeyLocked op) (durableFileID op) o.

Definition dropped (key : fileKey) (dfid : Z) (s : server) : server :=
  match opensByFile s !! key with
  | None => s
  | Some bucket =>
      let bucket := delete dfid bucket in
      if decide (bucket = ∅) then set_byFile (delete key (opensByFile s)) s
      else set_byFile (<[key := bucket]> (opensByFile s)) s
  end.
Definition dropFromBucket (key : fileKey) (dfid : Z) : M unit := modify (dropped key dfid).

Definition unindexOpen (o : openId) : M unit :=
  op ← getOpen o;
  dropFromBucket (fileKeyLocked op) (durableFileID op).

Definition moveOpenLocked (o : openId) (newPath : string) : M unit :=
  op ← getOpen o;
  let oldKey := fileKeyLocked op in
  let dfid := durableFileID op in
  _ ← modOpen o (set_name newPath (TrimPath newPath));
  op ← getOpen o;
  let newKey := fileKeyLocked op in
  present ← gets (fun s => bool_decide (is_Some (bucket_of s oldKey !! dfid)));
  if (present : bool) then
    _ ← dropFromBucket oldKey dfid;
    addToBucket newKey dfid o
  else mret tt.

Definition moveOpen (o : openId) (newPath : string) : M unit := moveOpenLocked o newPath.

(** The children of a renamed directory, with the path each is to carry. *)
Definition opensUnder (sh : shareId) (oldPath newPath : string)
    (byFile : gmap fileKey (gmap Z openId)) : list (openId * string) :=
  map_to_list byFile ≫= fun '(key, bucket) =>
    if decide (key.1 = Some sh) then
      match strip_prefix (oldPath +:+ "/") key.2 with
      | Some rest => (fun e : Z * openId => (e.2, newPath +:+ "/" +:+ rest)) <$> map_to_list bucket
      | None => []
      end
    else [].

Definition moveOpensUnder (sh : shareId) (oldPath newPath : string) : M (list openId) :=
  children ← gets (fun s => opensUnder sh oldPath newPath (opensByFile s));
  _ ← forM children (fun c => moveOpenLocked c.1 c.2);
  mret (children.*1).

Definition usefulAccess : Z :=
  FILE_READ_DATA .| FILE_EXECUTE .| FILE_WRITE_DATA .| FILE_APPEND_DATA .| DELETE.

(** [ipc] says that the share of the tree connect is ["ipc$"]. *)
Definition markReplayEligible (o : openId) (ipc : bool) : M unit :=
  if ipc then mret tt else
  op ← getOpen o;
  let eligible := negb (file_isDirectory op) && has (grantedAccess op) usefulAccess in
  if negb eligible then mret tt else
  _ ← modOpen o (set_replay true);
  modify (fun s => set_replayable (<[(clientGuid op, createGuid op) := o]> (replayableOpens s)) s).

Definition clearReplayEligible (o : openId) : M unit :=
  op ← getOpen o;
  if negb (isReplayEligible op) then mret tt else
  _ ← modOpen o (set_replay false);
  let key := (clientGuid op, createGuid op) in
  mine ← gets (fun s => bool_decide (replayableOpens s !! key = Some o));
  if (mine : bool) then modify (fun s => set_replayable (delete key (replayableOpens s)) s)
  else mret tt.

Definition findReplayableOpen (client create : guid) : M (option openId) :=
  e ← gets (fun s => replayableOpens s !! (client, create));
  match e with
  | None => mret None
  | Some o =>
      op ← getOpen o;
      mret (if isReplayEligible op && bool_decide (createGuid op = create)
               && bool_decide (clientGuid op = client)
            then Some o else None)
  end.

(** The loop over the candidates: each is dereferenced ([op.treeConnect.share],
    which panics on a nil tree connect) and kept if it answers to the name. *)
Fixpoint opensOn_loop (sh : shareId) (path : string) (candidates : list openId) : M (list openId) :=
  match candidates with
  | [] => mret []
  | o :: rest =>
      op ← getOpen o;
      share ← deref (treeConnect op);
      more ← opensOn_loop sh path rest;
      mret (if bool_decide (share = sh) && bool_decide (pathName op = path) then o :: more else more)
  end.

Definition opensOn (sh : shareId) (path : string) (except : option openId) : M (list openId) :=
  bucket ← gets (fun s => bucket_of s (Some sh, path));
  opensOn_loop sh path
    (filter (fun o => Some o <> except) ((map_to_list bucket).*2)).

(** [moveOpensOnFile] holds the lock of the index once to copy the bucket and once for
    every open it moves: the definition is the run nobody comes in between of. *)
Definition moveOpensOnFile (sh : shareId) (path newName : string) : M (list openId) :=
  moved ← opensOn sh path None;
  _ ← forM moved (fun o => moveOpen o newName);
  mret moved.

(** ** The invariant

    An entry of the index is an open that carries the share, the path and the
    durable file ID it is filed under, and no bucket stands empty. *)
Definition entry_ok (s : server) (k : fileKey) (d : Z) (o : openId) : Prop :=
  exists op, opens s !! o = Some op /\ fileKeyLocked op = k /\ durableFileID op = d.

Definition index_ok (s : server) : Prop :=
  forall k b, opensByFile s !! k = Some b ->
    b <> ∅ /\ forall d o, b !! d = Some o -> entry_ok s k d o.

(** [o] is in the index, under the key [k]. *)
Definition indexed (s : server) (k : fileKey) (o : openId) : Prop :=
  exists d, bucket_of s k !! d = Some o.

(** An entry of the replay index is an open that may still be replayed, under
    the GUIDs it carries. *)
Definition replay_ok (s : server) : Prop :=
  forall k o, replayableOpens s !! k = Some o ->
    exists op, opens s !! o = Some op /\ isReplayEligible op = true /\
               (clientGuid op, createGuid op) = k.

(** ** Lemmas *)
Section buckets.
Context (s : server).
Hypothesis Hok : index_ok s.

Lemma bucket_of_Some k d o :
  bucket_of s k !! d = Some o -> exists b, opensByFile s !! k = Some b /\ b !! d = Some o.
Proof.
  unfold bucket_of. destruct (opensByFile s !! k) as [b|]; simpl; [eauto|].
  by rewrite lookup_empty.
Qed.
Lemma bucket_entry k d o : bucket_of s k !! d = Some o -> entry_ok s k d o.
Proof using Hok. intros (b & Hb & Ho)%bucket_of_Some. by apply (Hok _ _ Hb). Qed.

Lemma indexed_key k o : indexed s k o -> exists op, opens s !! o = Some op /\ fileKeyLocked op = k.
Proof using Hok. intros [d (op & H1 & H2 & _)%bucket_entry]. eauto. Qed.
Lemma indexed_inj k1 k2 o : indexed s k1 o -> indexed s k2 o -> k1 = k2.
Proof using Hok.
  intros (op1 & H1 & <-)%indexed_key (op2 & H2 & <-)%indexed_key.
  rewrite H1 in H2. by simplify_eq.
Qed.
(** Two entries for one open are one entry. *)
Lemma bucket_inj k d1 d2 o :
  bucket_of s k !! d1 = Some o -> bucket_of s k !! d2 = Some o -> d1 = d2.
Proof using Hok.
  intros (op1 & H1 & _ & <-)%bucket_entry (op2 & H2 & _ & <-)%bucket_entry.
  rewrite H1 in H2. by simplify_eq.
Qed.

Lemma NoDup_bucket k : NoDup ((map_to_list (bucket_of s k)).*2).
Proof using Hok.
  apply NoDup_fmap_2_strong; [|apply NoDup_map_to_list].
  intros [d1 o1] [d2 o2] H1%elem_of_map_to_list H2%elem_of_map_to_list ?.
  simpl in *; subst. f_equal. by eapply bucket_inj.
Qed.
Lemma elem_of_bucket k o : o ∈ (map_to_list (bucket_of s k)).*2 <-> indexed s k o.
Proof.
  rewrite list_elem_of_fmap. split.
  - intros ([d o'] & -> & H%elem_of_map_to_list). by exists d.
  - intros [d H]. exists (d, o). split; [done|]. by apply elem_of_map_to_list.
Qed.
End buckets.

(** The index after an open is put into a bucket or taken out of one. *)
Lemma bucket_of_add s k d o k' :
  bucket_of (set_byFile (<[k := <[d := o]> (bucket_of s k)]> (opensByFile s)) s) k' =
  if decide (k = k') then <[d := o]> (bucket_of s k) else bucket_of s k'.
Proof.
  unfold bucket_of at 1. simpl. case_decide; subst.
  - by rewrite lookup_insert_eq.
  - by rewrite lookup_insert_ne.
Qed.

Lemma bucket_of_drop s k d k' :
  bucket_of (dropped k d s) k' =
  if decide (k = k') then delete d (bucket_of s k) else bucket_of s k'.
Proof.
  unfold dropped, bucket_of. destruct (opensByFile s !! k) as [b|] eqn:Hb; simpl.
  - case_decide as He; simpl; case_decide; subst.
    + rewrite lookup_delete_eq. simpl. by rewrite He.
    + by rewrite lookup_delete_ne.
    + by rewrite lookup_insert_eq.
    + by rewrite lookup_insert_ne.
  - case_decide; subst; [|done]. rewrite Hb. simpl. by rewrite delete_empty.
Qed.
Lemma dropped_opens k d s : opens (dropped k d s) = opens s.
Proof. unfold dropped. destruct (opensByFile s !! k); [|done]. by case_decide. Qed.

Lemma index_ok_alt s :
  index_ok s <-> (forall k, opensByFile s !! k <> Some ∅) /\
                 (forall k d o, bucket_of s k !! d = Some o -> entry_ok s k d o).
Proof.
  split.
  - intros Hok. split.
    + intros k H. by destruct (Hok _ _ H).
    + intros. by apply bucket_entry.
  - intros [H1 H2] k b Hb. split; [intros ->; by apply (H1 k)|].
    intros d o Ho. apply H2. unfold bucket_of. by rewrite Hb.
Qed.

Lemma nonempty_drop s k d :
  (forall k, opensByFile s !! k <> Some ∅) ->
  forall k', opensByFile (dropped k d s) !! k' <> Some ∅.
Proof.
  intros H k'. unfold dropped. destruct (opensByFile s !! k) as [b|] eqn:Hb; [|apply H].
  case_decide; simpl; destruct (decide (k = k')) as [<-|].
  - by rewrite lookup_delete_eq.
  - rewrite lookup_delete_ne by done. apply H.
  - rewrite lookup_insert_eq. naive_solver.
  - rewrite lookup_insert_ne by done. apply H.
Qed.
Lemma nonempty_add s k d (o : openId) :
  (forall k, opensByFile s !! k <> Some ∅) ->
  forall k', opensByFile (set_byFile (<[k := <[d := o]> (bucket_of s k)]> (opensByFile s)) s) !! k'
             <> Some ∅.
Proof.
  intros H k'. simpl. destruct (decide (k = k')) as [<-|].
  - rewrite lookup_insert_eq. intros [= He]. by apply insert_non_empty in He.
  - rewrite lookup_insert_ne by done. apply H.
Qed.

(** The state the indexes have nothing to do with. *)
Definition same_rest (s s' : server) : Prop :=
  leases s' = leases s /\ srv_chans s' = srv_chans s /\
  globalLeaseTableList s' = globalLeaseTableList s.
Lemma dropped_rest k d s : same_rest s (dropped k d s).
Proof.
  unfold same_rest, dropped. destruct (opensByFile s !! k); [|done]. by case_decide.
Qed.

(** Durable file IDs are 64 random bits; the index files opens by them, so the
    statements about which open is found suppose that no two opens share one. *)
Definition dfid_unique (s : server) : Prop :=
  forall o1 o2 op1 op2, opens s !! o1 = Some op1 -> opens s !! o2 = Some op2 ->
    durableFileID op1 = durableFileID op2 -> o1 = o2.

Section ops.
Context (s : server).
Hypothesis Hok : index_ok s.

Lemma opensOn_loop_reads sh path l :
  (forall o, o ∈ l -> indexed s (Some sh, path) o) ->
  reads (opensOn_loop sh path l) s l.
Proof using Hok.
  induction l as [|o l IH]; intros Hl; [done|].
  destruct (indexed_key s Hok (Some sh, path) o) as (op & Ho & Hk); [apply Hl; left|].
  injection Hk as Ht Hp. simpl.
  eapply reads_bind; [unfold reads, getOpen, deref; by rewrite Ho|].
  eapply reads_bind; [unfold reads, deref; by rewrite Ht|].
  eapply reads_bind; [apply IH; intros; apply Hl; by right|].
  rewrite Hp, !bool_decide_eq_true_2 by done. done.
Qed.

(** [opensOn] returns, and what it returns are the opens the index holds
    under the file, each once, less the one excepted. *)
Lemma opensOn_reads sh path except :
  exists l, reads (opensOn sh path except) s l /\ NoDup l /\
    forall o, o ∈ l <-> indexed s (Some sh, path) o /\ Some o <> except.
Proof using Hok.
  eexists. split_and!.
  - unfold opensOn. eapply reads_bind; [done|].
    apply opensOn_loop_reads. intros o [_ Ho]%list_elem_of_filter.
    by apply elem_of_bucket.
  - apply NoDup_filter. by apply NoDup_bucket.
  - intros o. rewrite list_elem_of_filter, elem_of_bucket. tauto.
Qed.

Lemma indexOpen_ok o op :
  opens s !! o = Some op ->
  wp (indexOpen o) s (fun _ s' =>
    index_ok s' /\ indexed s' (fileKeyLocked op) o /\ opens s' = opens s /\
    same_rest s s' /\
    (dfid_unique s -> forall k o', o' <> o -> indexed s' k o' <-> indexed s k o')).
Proof using Hok.
  intros Ho. unfold indexOpen. apply wp_bind. eapply wp_getOpen; [done|].
  apply wp_modify. apply index_ok_alt in Hok as [Hne He]. split_and!; [|..|done|done|].
  - apply index_ok_alt. split; [by apply nonempty_add|].
    intros k d o'. rewrite bucket_of_add. case_decide as Hk; [subst k|apply He].
    destruct (decide (d = durableFileID op)) as [->|Hd].
    + rewrite lookup_insert_eq. intros [= <-]. by exists op.
    + rewrite lookup_insert_ne by done. apply He.
  - exists (durableFileID op). rewrite bucket_of_add, decide_True by done. by rewrite lookup_insert_eq.
  - intros Hu k o' Hne'. unfold indexed. setoid_rewrite bucket_of_add. case_decide as Hk; [subst k|done].
    split; intros [d Hd].
    + rewrite lookup_insert_Some in Hd. destruct Hd as [[? ?]|[? ?]]; [by subst|eauto].
    + exists d. rewrite lookup_insert_ne; [done|]. intros <-.
      destruct (He _ _ _ Hd) as (op' & Ho' & _ & Hdf). apply Hne'. by eapply Hu.
Qed.

Lemma unindexOpen_ok o op :
  opens s !! o = Some op ->
  wp (unindexOpen o) s (fun _ s' =>
    index_ok s' /\ (forall k, ~ indexed s' k o) /\ opens s' = opens s /\
    same_rest s s' /\
    (forall k o', indexed s' k o' -> indexed s k o') /\
    (dfid_unique s -> forall k o', o' <> o -> indexed s k o' -> indexed s' k o')).
Proof using Hok.
  intros Ho. unfold unindexOpen. apply wp_bind. eapply wp_getOpen; [done|].
  apply wp_modify.
  pose proof Hok as Hok'. apply index_ok_alt in Hok' as [Hne He].
  assert (forall k o', indexed (dropped (fileKeyLocked op) (durableFileID op) s) k o' ->
    indexed s k o') as Hmono.
  { intros k o' [d Hd]. rewrite bucket_of_drop in Hd. exists d. case_decide; [subst k|done].
    by rewrite lookup_delete_Some in Hd; destruct Hd. }
  split_and!; [| |apply dropped_opens|apply dropped_rest|done|].
  - apply index_ok_alt. split; [by apply nonempty_drop|].
    intros k d o'. unfold entry_ok. rewrite bucket_of_drop, dropped_opens.
    case_decide; [subst k|by apply He]. rewrite lookup_delete_Some. intros [_ ?]. by apply He.
  - intros k Hi. pose proof (Hmono _ _ Hi) as Hi'.
    destruct (indexed_key s Hok _ _ Hi') as (op' & Ho' & Hk). rewrite Ho in Ho'; simplify_eq.
    destruct Hi as [d Hd]. rewrite bucket_of_drop, decide_True in Hd by done.
    apply lookup_delete_Some in Hd as [Hd1 Hd2]. destruct (He _ _ _ Hd2) as (? & Ho2 & _ & <-).
    rewrite Ho in Ho2; by simplify_eq.
  - intros Hu k o' Hne' [d Hd]. exists d. rewrite bucket_of_drop. case_decide; [subst k|done].
    rewrite lookup_delete_ne; [done|]. intros <-.
    destruct (He _ _ _ Hd) as (op' & Ho' & _ & Hdf). apply Hne'. by eapply Hu.
Qed.
End ops.

(** The open is renamed and, if it was in the index, moves with its name. *)
Definition moved_from (s s' : server) (o : openId) (newPath : string) : Prop :=
  opens s' = alter (set_name newPath (TrimPath newPath)) o (opens s) /\
  same_rest s s' /\
  forall k o', indexed s' k o' <->
    if decide (o' = o)
    then (exists k0, indexed s k0 o /\ k = (k0.1, newPath))
    else indexed s k o'.

(** Taking one open out of its bucket and putting it into another. *)
Section rebucket.
Context (s : server) (o : openId) (op : open).
Hypothesis (Hok : index_ok s) (Hu : dfid_unique s) (Ho : opens s !! o = Some op).

Lemma entry_mine k d :
  bucket_of s k !! d = Some o -> k = fileKeyLocked op /\ d = durableFileID op.
Proof using Hok Ho.
  intros (op1 & Ho1 & <- & <-)%(bucket_entry s Hok). rewrite Ho in Ho1. by simplify_eq.
Qed.
Lemma entry_other k o' : o' <> o -> bucket_of s k !! durableFileID op <> Some o'.
Proof using Hok Hu Ho.
  intros Hn (op1 & Ho1 & _ & Hd)%(bucket_entry s Hok). apply Hn. by eapply Hu.
Qed.

Lemma drop_lookup k d o' :
  bucket_of (dropped (fileKeyLocked op) (durableFileID op) s) k !! d = Some o' <->
  o' <> o /\ bucket_of s k !! d = Some o'.
Proof using Hok Hu Ho.
  rewrite bucket_of_drop. split.
  - case_decide as Hk; [subst k; rewrite lookup_delete_Some; intros [Hd1 Hd2]|intros Hd2];
      (split; [|done]); intros ->; by destruct (entry_mine _ _ Hd2).
  - intros [Hn Hd]. case_decide as Hk; [subst k|done].
    rewrite lookup_delete_ne; [done|]. intros <-. by eapply entry_other.
Qed.

Lemma rebucket_lookup k' s' k d o' :
  (forall k d o', bucket_of s' k !! d = Some o' <-> o' <> o /\ bucket_of s k !! d = Some o') ->
  bucket_of (set_byFile (<[k' := <[durableFileID op := o]> (bucket_of s' k')]> (opensByFile s')) s')
    k !! d = Some o' <->
  (o' = o /\ k = k' /\ d = durableFileID op) \/ (o' <> o /\ bucket_of s k !! d = Some o').
Proof using Hok Hu Ho.
  intros Hs'. rewrite bucket_of_add.
  case_decide as Hk; [subst k; rewrite lookup_insert_Some|]; rewrite Hs'.
  - split; [intros [[? ?]|[? [? ?]]]; subst; auto|]. intros [(-> & _ & ->)|[Hn Hd]]; [by left|].
    right. split; [|done]. intros <-. by eapply entry_other.
  - split; [by right|]. by intros [(_ & -> & _)|?].
Qed.
End rebucket.

Lemma moveOpenLocked_ok s o op newPath :
  index_ok s -> dfid_unique s -> opens s !! o = Some op ->
  wp (moveOpenLocked o newPath) s (fun _ s' => index_ok s' /\ moved_from s s' o newPath).
Proof.
  intros Hok Hu Ho. pose proof Hok as Hok'. apply index_ok_alt in Hok' as [Hne He].
  unfold moveOpenLocked. apply wp_bind. eapply wp_getOpen; [done|].
  apply wp_bind, wp_modOpen. apply wp_bind. eapply wp_getOpen.
  { simpl. rewrite lookup_alter_eq, Ho. done. }
  set (op' := set_name newPath (TrimPath newPath) op). set (s1 := set_opens _ s).
  assert (forall o' op1, o' <> o -> opens s !! o' = Some op1 -> opens s1 !! o' = Some op1) as Hother.
  { intros. simpl. by rewrite lookup_alter_ne. }
  apply wp_bind, wp_gets. change (bucket_of s1) with (bucket_of s). case_bool_decide as Hpres.
  - assert (indexed s (fileKeyLocked op) o) as Hin.
    { destruct Hpres as [o0 Hpres]. exists (durableFileID op). rewrite Hpres. f_equal.
      destruct (He _ _ _ Hpres) as (op1 & Ho1 & _ & Hd1). by eapply Hu. }
    apply wp_bind, wp_modify, wp_modify. set (s2 := dropped _ _ s1). set (s3 := set_byFile _ s2).
    assert (forall k d o', bucket_of s3 k !! d = Some o' <->
      (o' = o /\ k = fileKeyLocked op' /\ d = durableFileID op) \/
      (o' <> o /\ bucket_of s k !! d = Some o')) as Hi3.
    { intros. apply rebucket_lookup; [done..|]. intros. rewrite <- drop_lookup by done.
      unfold s2, dropped, bucket_of. simpl. destruct (opensByFile s !! fileKeyLocked op); [|done].
      by case_decide. }
    pose proof (dropped_rest (fileKeyLocked op) (durableFileID op) s1) as Hrest.
    assert (opens s3 = opens s1) as Hs3 by apply dropped_opens.
    split; [|split_and!; [done..|]].
    + apply index_ok_alt. split; [apply nonempty_add, nonempty_drop, Hne|].
      intros k d o' [(-> & -> & ->)|[Hn Hd]]%Hi3; unfold entry_ok; rewrite Hs3.
      * exists op'. split; [|done]. simpl. by rewrite lookup_alter_eq, Ho.
      * destruct (He _ _ _ Hd) as (op1 & Ho1 & ? & ?). exists op1. by rewrite (Hother _ op1).
    + intros k o'. unfold indexed at 1. setoid_rewrite Hi3. case_decide as Hoo; subst.
      * split.
        -- intros (d & [(_ & -> & _)|[? _]]); [|done]. by exists (fileKeyLocked op).
        -- intros (k0 & Hk0 & ->). pose proof (indexed_inj _ Hok _ _ _ Hk0 Hin) as ->.
           exists (durableFileID op). by left.
      * split; [intros (d & [(-> & _)|[_ ?]]); [done|by exists d]|]. intros [d Hd]. exists d. by right.
  - apply wp_ret. assert (forall k, ~ indexed s k o) as Hnot.
    { intros k [d Hd]. destruct (entry_mine _ _ _ Hok Ho _ _ Hd) as [-> ->]. by apply Hpres. }
    split; [|split_and!; [done..|]].
    + apply index_ok_alt. split; [done|]. intros k d o' Hd. change (bucket_of s1 k) with (bucket_of s k) in Hd.
      destruct (He _ _ _ Hd) as (op1 & Ho1 & ? & ?). exists op1. split; [|done].
      apply Hother; [|done]. intros ->. apply (Hnot k). by exists d.
    + intros k o'. case_decide; [subst|done]. split; [intros H; by destruct (Hnot k)|].
      intros (k0 & H & _). by destruct (Hnot k0).
Qed.

Lemma dfid_unique_move s s' o newPath :
  moved_from s s' o newPath -> dfid_unique s -> dfid_unique s'.
Proof.
  intros (Ho & _) Hu o1 o2 op1 op2. rewrite Ho.
  destruct (decide (o1 = o)) as [->|], (decide (o2 = o)) as [->|]; [done|..];
    rewrite ?lookup_alter_eq, ?lookup_alter_ne by done;
    rewrite ?fmap_Some; intros H1 H2.
  - destruct H1 as (op & H1 & ->). intros Hd. by apply (Hu o o2 op op2).
  - destruct H2 as (op & H2 & ->). intros Hd. by apply (Hu o1 o op1 op).
  - intros Hd. by apply (Hu o1 o2 op1 op2).
Qed.

(** An open but for its name. *)
Definition unnamed (op : open) : open := set_name "" "" op.
Lemma unnamed_set_name p n op : unnamed (set_name p n op) = unnamed op.
Proof. done. Qed.

(** Moving a list of opens, no open twice. *)
Definition moved_all (s s' : server) (l : list (openId * string)) : Prop :=
  forall k o, indexed s' k o <->
    (exists p k0, (o, p) ∈ l /\ indexed s k0 o /\ k = (k0.1, p)) \/
    ((o ∉ l.*1) /\ indexed s k o).

Lemma moveOpens_ok s l :
  index_ok s -> dfid_unique s -> NoDup (l.*1) ->
  (forall o, o ∈ l.*1 -> is_Some (opens s !! o)) ->
  wp (forM l (fun c => moveOpenLocked c.1 c.2)) s (fun _ s' =>
    index_ok s' /\ dfid_unique s' /\ moved_all s s' l /\ same_rest s s' /\
    (forall o, unnamed <$> opens s' !! o = unnamed <$> opens s !! o)).
Proof.
  revert s. induction l as [|[o p] l IH]; intros s Hok Hu Hnd Hin; simpl.
  - apply wp_ret. split_and!; [done|done| |done|done]. intros k o. split.
    + intros. right. split; [set_solver|done].
    + intros [(p & k0 & H & _)|[_ H]]; [set_solver|done].
  - simpl in Hnd. apply NoDup_cons in Hnd as [Hn Hnd].
    destruct (Hin o) as [op Ho]; [set_solver|].
    apply wp_bind. eapply wp_mono; [|by apply (moveOpenLocked_ok s o op p)].
    intros y s1 [Hok1 Hm]. pose proof (dfid_unique_move _ _ _ _ Hm Hu) as Hu1.
    destruct Hm as (Hop & Hrest & Hi). apply wp_bind. eapply wp_mono; [|apply IH; try done].
    + intros ys s2 (Hok2 & Hu2 & Hm2 & Hr2 & Hn2). apply wp_ret. split_and!; [done|done| | |].
      2: { destruct Hrest as (? & ? & ?), Hr2 as (? & ? & ?). split_and!; congruence. }
      2: { intros o'. rewrite Hn2, Hop. destruct (decide (o' = o)) as [->|].
           - by rewrite lookup_alter_eq, Ho.
           - by rewrite lookup_alter_ne. }
      unfold moved_all in Hm2. intros k o'. rewrite Hm2. setoid_rewrite Hi. rewrite fmap_cons, not_elem_of_cons. simpl. split.
      * intros [(p' & k0 & H1 & H2 & H3)|[H1 H2]].
        -- assert (o' ∈ l.*1) as Hl by (apply list_elem_of_fmap; by exists (o', p')).
           rewrite decide_False in H2 by (by intros ->). left. exists p', k0. set_solver.
        -- case_decide; [subst|by right]. destruct H2 as (k0 & H2 & ->). left. exists p, k0. set_solver.
      * intros [(p' & k0 & H1 & H2 & H3)|[[Hne H1] H2]].
        -- apply elem_of_cons in H1 as [H1|H1].
           ++ simplify_eq. right. rewrite decide_True by done. eauto.
           ++ assert (o' ∈ l.*1) as Hl by (apply list_elem_of_fmap; by exists (o', p')).
              left. exists p', k0. rewrite decide_False; [done|by intros ->].
        -- right. by rewrite decide_False.
    + intros o' Ho'. rewrite Hop. destruct (decide (o' = o)) as [->|].
      * by rewrite lookup_alter_eq, Ho.
      * rewrite lookup_alter_ne by done. apply Hin. set_solver.
Qed.

Lemma elem_of_opensUnder s sh oldPath newPath o p :
  (o, p) ∈ opensUnder sh oldPath newPath (opensByFile s) <->
  exists rest, indexed s (Some sh, oldPath +:+ "/" +:+ rest) o /\ p = newPath +:+ "/" +:+ rest.
Proof.
  unfold opensUnder. rewrite list_elem_of_bind. split.
  - intros ([[sh' path] b] & Hin & Hb%elem_of_map_to_list). simpl in *.
    case_decide; [subst|set_solver].
    destruct (strip_prefix _ _) as [rest|] eqn:Hs; [|set_solver].
    apply strip_prefix_Some in Hs as ->.
    apply list_elem_of_fmap in Hin as ([d o'] & Heq & Ho%elem_of_map_to_list). simplify_eq/=.
    exists rest. split; [|done]. exists d. rewrite <- string_app_assoc. unfold bucket_of. by rewrite Hb.
  - intros (rest & [d Hd] & ->). apply bucket_of_Some in Hd as (b & Hb & Hd).
    exists ((Some sh, oldPath +:+ "/" +:+ rest), b). split; [|by apply elem_of_map_to_list].
    rewrite decide_True by done. simpl.
    assert (strip_prefix (oldPath +:+ "/") (oldPath +:+ "/" +:+ rest) = Some rest) as ->.
    { apply strip_prefix_Some. by rewrite string_app_assoc. }
    apply list_elem_of_fmap. exists (d, o). split; [done|]. by apply elem_of_map_to_list.
Qed.

Lemma NoDup_opensUnder s sh oldPath newPath :
  index_ok s -> NoDup ((opensUnder sh oldPath newPath (opensByFile s)).*1).
Proof.
  intros Hok. unfold opensUnder. pose proof (NoDup_map_to_list (opensByFile s)) as Hnd.
  assert (forall k b, (k, b) ∈ map_to_list (opensByFile s) -> bucket_of s k = b) as Hbs.
  { intros k b Hb%elem_of_map_to_list. unfold bucket_of. by rewrite Hb. }
  induction (map_to_list (opensByFile s)) as [|[[sh' path] b] l IH]; [constructor|].
  apply NoDup_cons in Hnd as [Hn Hnd].
  rewrite bind_cons, fmap_app. apply NoDup_app. split_and!; [| |apply IH; [done|set_solver]].
  - simpl. case_decide; [|constructor]. destruct (strip_prefix _ _); [|constructor].
    rewrite <- list_fmap_compose. rewrite <- (Hbs (sh', path) b) by set_solver.
    by apply NoDup_bucket.
  - intros o H1 H2.
    assert (indexed s (sh', path) o) as Hi1.
    { simpl in H1. case_decide; [|set_solver]. destruct (strip_prefix _ _); [|set_solver].
      rewrite <- list_fmap_compose in H1. rewrite <- (Hbs (sh', path) b) in H1 by set_solver.
      by apply elem_of_bucket in H1. }
    apply list_elem_of_fmap in H2 as ([o' p'] & -> & H2).
    apply list_elem_of_bind in H2 as ([[sh2 path2] b2] & H2 & Hl).
    assert (indexed s (sh2, path2) o') as Hi2.
    { case_decide; [|by apply not_elem_of_nil in H2].
      simpl in H2. destruct (strip_prefix _ path2); [|by apply not_elem_of_nil in H2].
      apply elem_of_bucket. rewrite (Hbs (sh2, path2) b2) by set_solver.
      apply list_elem_of_fmap in H2 as (e & [= -> _] & He). apply list_elem_of_fmap. eauto. }
    pose proof (indexed_inj s Hok _ _ _ Hi1 Hi2) as [= -> ->].
    apply Hn. rewrite <- (Hbs (sh2, path2) b) by set_solver.
    rewrite (Hbs (sh2, path2) b2) by set_solver. done.
Qed.

(** Renaming a directory moves every open beneath it and no other: whatever was
    indexed under [old/rest] is indexed under [new/rest] and nowhere else, whatever
    was not beneath the directory stays where it was, the opens reported are the
    ones moved, and the index stays consistent with the names the opens carry. *)
Theorem moveOpensUnder_moves s sh oldPath newPath :
  index_ok s -> dfid_unique s ->
  exists moved s', moveOpensUnder sh oldPath newPath s = Ok (moved, s') /\
    index_ok s' /\
    (forall o, o ∈ moved <-> exists rest, indexed s (Some sh, oldPath +:+ "/" +:+ rest) o) /\
    forall k o, indexed s' k o <->
      (exists rest, indexed s (Some sh, oldPath +:+ "/" +:+ rest) o /\
                    k = (Some sh, newPath +:+ "/" +:+ rest)) \/
      (indexed s k o /\ ~ exists rest, k = (Some sh, oldPath +:+ "/" +:+ rest)).
Proof.
  intros Hok Hu. set (l := opensUnder sh oldPath newPath (opensByFile s)).
  assert (forall o, o ∈ l.*1 <-> exists rest, indexed s (Some sh, oldPath +:+ "/" +:+ rest) o) as Hl.
  { intros o. rewrite list_elem_of_fmap. split.
    - intros ([o' p] & -> & (rest & H & _)%elem_of_opensUnder). eauto.
    - intros (rest & H). exists (o, newPath +:+ "/" +:+ rest). split; [done|].
      apply elem_of_opensUnder. eauto. }
  assert (wp (moveOpensUnder sh oldPath newPath) s (fun moved s' =>
    moved = l.*1 /\ index_ok s' /\ moved_all s s' l)) as Hwp.
  { unfold moveOpensUnder. apply wp_bind, wp_gets, wp_bind. eapply wp_mono; [|apply moveOpens_ok].
    - intros us s' (H1 & _ & H2 & _). by apply wp_ret.
    - done.
    - done.
    - by apply NoDup_opensUnder.
    - intros o (rest & Hi)%Hl. destruct (indexed_key s Hok _ _ Hi) as (op & -> & _). eauto. }
  apply wp_run in Hwp as (moved & s' & Hrun & -> & Hok' & Hm).
  exists (l.*1), s'. split_and!; [done..|]. unfold moved_all in Hm. intros k o. rewrite Hm. split.
  - intros [(p & k0 & (rest & Hr & ->)%elem_of_opensUnder & Hk & ->)|[Hn Hi]].
    + left. exists rest. pose proof (indexed_inj s Hok _ _ _ Hr Hk) as <-. done.
    + right. split; [done|]. intros [rest ->]. apply Hn, Hl. eauto.
  - intros [(rest & Hr & ->)|[Hi Hn]].
    + left. exists (newPath +:+ "/" +:+ rest), (Some sh, oldPath +:+ "/" +:+ rest).
      split; [apply elem_of_opensUnder; eauto|done].
    + right. split; [|done]. intros (rest & Hr)%Hl. apply Hn. exists rest.
      exact (indexed_inj s Hok _ _ o Hi Hr).
Qed.

(** ** Replays *)
Lemma replay_ok_clear s o op :
  opens s !! o = Some op -> replay_ok s ->
  wp (clearReplayEligible o) s (fun _ s' =>
    replay_ok s' /\
    (forall k o', replayableOpens s' !! k = Some o' <-> o' <> o /\ replayableOpens s !! k = Some o') /\
    opens s' = alter (set_replay false) o (opens s)).
Proof.
  intros Ho Hr. unfold clearReplayEligible. apply wp_bind. eapply wp_getOpen; [done|].
  assert (forall k, replayableOpens s !! k = Some o ->
    isReplayEligible op = true /\ (clientGuid op, createGuid op) = k) as Hmine.
  { intros k Hk. destruct (Hr _ _ Hk) as (op' & Ho' & He & Hg). rewrite Ho in Ho'. by simplify_eq. }
  destruct (isReplayEligible op) eqn:Hel; simpl.
  - apply wp_bind, wp_modOpen. apply wp_bind, wp_gets. simpl.
    set (key := (clientGuid op, createGuid op)).
    assert (forall k o', o' <> o -> replayableOpens s !! k = Some o' ->
      exists op', alter (set_replay false) o (opens s) !! o' = Some op' /\
        isReplayEligible op' = true /\ (clientGuid op', createGuid op') = k) as Hoth.
    { intros k o' Hn Hk. destruct (Hr _ _ Hk) as (op' & ? & ?). exists op'.
      by rewrite lookup_alter_ne. }
    case_bool_decide as Hm.
    + assert (forall k o', delete key (replayableOpens s) !! k = Some o' <->
        o' <> o /\ replayableOpens s !! k = Some o') as Hd.
      { intros k o'. rewrite lookup_delete_Some. split; intros [H1 H2]; (split; [|done]).
        - intros ->. by destruct (Hmine _ H2).
        - intros <-. rewrite Hm in H2. by simplify_eq. }
      apply wp_modify. split_and!; [|done..]. intros k o' [? ?]%Hd. by apply Hoth.
    + assert (forall k o', replayableOpens s !! k = Some o' <->
        o' <> o /\ replayableOpens s !! k = Some o') as Hd.
      { intros k o'. split; [|by intros [_ ?]]. intros Hk. split; [|done]. intros ->.
        destruct (Hmine _ Hk) as [_ <-]. done. }
      apply wp_ret. split_and!; [|done..]. intros k o' [? ?]%Hd. by apply Hoth.
  - apply wp_ret. split_and!; [done| |].
    + intros k o'. split; [|by intros [_ ?]]. intros Hk. split; [|done]. intros ->.
      by destruct (Hmine _ Hk).
    + symmetry. apply map_eq. intros o'. destruct (decide (o' = o)) as [->|].
      * rewrite lookup_alter_eq, Ho. simpl. f_equal. destruct op; simpl in *. by subst.
      * by rewrite lookup_alter_ne.
Qed.

Lemma replay_ok_mark s o op ipc :
  opens s !! o = Some op -> replay_ok s ->
  wp (markReplayEligible o ipc) s (fun _ s' => replay_ok s').
Proof.
  intros Ho Hr. unfold markReplayEligible. destruct ipc; [done|].
  apply wp_bind. eapply wp_getOpen; [done|]. destruct (negb (_ && _)); [done|].
  apply wp_bind, wp_modOpen. apply wp_modify. intros k o'. simpl.
  destruct (decide (o' = o)) as [->|Hn].
  - rewrite lookup_alter_eq, Ho. simpl. intros Hk. exists (set_replay true op). split_and!; [done..|].
    apply lookup_insert_Some in Hk as [[<- _]|[_ Hk]]; [done|].
    destruct (Hr _ _ Hk) as (op' & Ho' & _ & Hg). rewrite Ho in Ho'. by simplify_eq.
  - rewrite lookup_alter_ne by done. intros [[_ ?]|[_ Hk]]%lookup_insert_Some; [done|]. by apply Hr.
Qed.

Lemma findReplayableOpen_reads s client create :
  replay_ok s -> reads (findReplayableOpen client create) s (replayableOpens s !! (client, create)).
Proof.
  intros Hr. unfold findReplayableOpen. eapply reads_bind; [done|].
  destruct (replayableOpens s !! (client, create)) as [o|] eqn:He; [|done].
  destruct (Hr _ _ He) as (op & Ho & Hel & Hg). injection Hg as Hc1 Hc2.
  eapply reads_bind; [unfold reads, getOpen, deref; by rewrite Ho|].
  rewrite Hel, Hc1, Hc2, !bool_decide_eq_true_2 by done. done.
Qed.

(** Once an open has been used or closed, no create is answered out of it: after
    [clearReplayEligible] no client GUID and create GUID find it, while every other
    open is found under the same GUIDs as before. *)
Theorem clearReplayEligible_final (s : server) (o : openId) (op : open) (client create : guid) :
  replay_ok s -> opens s !! o = Some op ->
  exists s' found before,
    clearReplayEligible o s = Ok (tt, s') /\ replay_ok s' /\
    findReplayableOpen client create s' = Ok (found, s') /\
    findReplayableOpen client create s = Ok (before, s) /\
    (forall o', found = Some o' <-> (o' <> o /\ before = Some o')).
Proof.
  intros Hr Ho. pose proof (replay_ok_clear s o op Ho Hr) as Hwp.
  apply wp_run in Hwp as ([] & s' & Hrun & Hr' & Hd & _).
  exists s', (replayableOpens s' !! (client, create)), (replayableOpens s !! (client, create)).
  split_and!; [done|done|by apply findReplayableOpen_reads..|]. intros o'. apply Hd.
Qed.

(** ** Witnesses *)
Section witnesses.
Let mkOpen (path : string) (d : Z) (g : guid) (e : bool) : open :=
  Open (Some 0%nat) path (TrimPath path) d g g e FILE_READ_DATA 0 false noOplock None.
Let s0 : server :=
  Server {[ 1%nat := mkOpen "a/x" 10 7 true; 2%nat := mkOpen "a/y" 20 8 true;
            3%nat := mkOpen "c" 30 9 false ]} ∅
    {[ (Some 0%nat, "a/x") := {[ 10 := 1%nat ]}; (Some 0%nat, "a/y") := {[ 20 := 2%nat ]};
       (Some 0%nat, "c") := {[ 30 := 3%nat ]} ]}
    {[ (7%N, 7%N) := 1%nat; (8%N, 8%N) := 2%nat ]} ∅ no_chans.

Lemma s0_index_ok : index_ok s0 /\ dfid_unique s0 /\ replay_ok s0.
Proof.
  split_and!.
  - intros k b Hb. simpl in Hb.
    repeat (apply lookup_insert_Some in Hb as [[<- <-]|[_ Hb]];
      [split; [done|intros d o Ho; apply lookup_singleton_Some in Ho as [<- <-]; by eexists]|]).
    apply lookup_singleton_Some in Hb as [<- <-].
    split; [done|intros d o Ho; apply lookup_singleton_Some in Ho as [<- <-]; by eexists].
  - intros o1 o2 op1 op2 H1 H2. simpl in *.
    repeat (apply lookup_insert_Some in H1 as [[<- <-]|[_ H1]]);
    [| |apply lookup_singleton_Some in H1 as [<- <-]];
    (repeat (apply lookup_insert_Some in H2 as [[<- <-]|[_ H2]]);
     [| |apply lookup_singleton_Some in H2 as [<- <-]]); done.
  - intros k o Hk. simpl in Hk.
    repeat (apply lookup_insert_Some in Hk as [[<- <-]|[_ Hk]]; [by eexists|]).
    apply lookup_singleton_Some in Hk as [<- <-]. by eexists.
Qed.

Lemma moveOpensUnder_moves_witness :
  exists moved s', moveOpensUnder 0 "a" "b" s0 = Ok (moved, s') /\ index_ok s' /\
    indexed s' (Some 0%nat, "b/x") 1%nat /\ indexed s' (Some 0%nat, "c") 3%nat.
Proof.
  destruct (moveOpensUnder_moves s0 0 "a" "b" (proj1 s0_index_ok) (proj1 (proj2 s0_index_ok)))
    as (moved & s' & H1 & H2 & _ & H3).
  exists moved, s'. split_and!; [done|done|apply H3; left|apply H3; right].
  - exists "x". split; [by exists 10|done].
  - split; [by exists 30|]. by intros [rest [=]].
Defined.

Lemma clearReplayEligible_final_witness :
  exists s' found before,
    clearReplayEligible 1%nat s0 = Ok (tt, s') /\
    findReplayableOpen 7%N 7%N s' = Ok (found, s') /\
    findReplayableOpen 7%N 7%N s0 = Ok (before, s0) /\ before = Some 1%nat /\ found <> Some 1%nat.
Proof.
  destruct (clearReplayEligible_final s0 1 (mkOpen "a/x" 10 7 true) 7 7
    (proj2 (proj2 s0_index_ok)) eq_refl) as (s' & found & before & H1 & _ & H3 & H4 & H5).
  exists s', found, before. split_and!; [done..| |].
  - vm_compute in H4. by injection H4 as <-.
  - intros ->. by destruct (proj1 (H5 1%nat) eq_refl).
Defined.
End witnesses.
