(* ===== verification/Sharing.v ===== *)
(** What a create may do with a file, and beside whom: the access masks of
    [open.go] ([expandGeneric], [grantedFor], [satisfies], [narrowToPath],
    [grantAccess]), the masks of a stored policy ([stores/policy.go]) and the
    sharing rules of [sharing.go]. *)
From S2P Require Import Prelude Smb2Const Chan ServerState Paths OpenIndex.

(** ** Access masks *)

Definition expandGeneric (access : Z) : Z :=
  let access := if has access GENERIC_READ
    then access .| (FILE_READ_DATA .| FILE_READ_EA .| FILE_READ_ATTRIBUTES .| READ_CONTROL .| SYNCHRONIZE)
    else access in
  let access := if has access GENERIC_WRITE
    then access .| (FILE_WRITE_DATA .| FILE_APPEND_DATA .| FILE_WRITE_EA .| FILE_WRITE_ATTRIBUTES
                    .| READ_CONTROL .| SYNCHRONIZE)
    else access in
  if has access GENERIC_EXECUTE
  then access .| (FILE_EXECUTE .| FILE_READ_ATTRIBUTES .| READ_CONTROL .| SYNCHRONIZE)
  else access.

Definition grantedFor (desired maximal : Z) : Z :=
  if has desired (MAXIMUM_ALLOWED .| GENERIC_ALL) then maximal
  else expandGeneric desired .& maximal.

Definition notWeighed : Z := SYNCHRONIZE .| READ_CONTROL.
Definition generic : Z := GENERIC_READ .| GENERIC_WRITE .| GENERIC_EXECUTE.

Definition satisfies (held desired : Z) : bool :=
  if has desired (MAXIMUM_ALLOWED .| GENERIC_ALL) then negb (held =? 0)
  else (expandGeneric desired &^ generic) &^ (expandGeneric held .| notWeighed) =? 0.

(** The answer of a client that checks access by path ([client.AccessChecker]):
    what the account may do there, or an error, of which [ErrNotFound] is one. *)
Inductive pathAccess := PathAccess (pa_Write pa_Delete : bool) | PathNotFound | PathError.

Definition writeRights : Z :=
  FILE_WRITE_DATA .| FILE_APPEND_DATA .| FILE_WRITE_EA .| FILE_WRITE_ATTRIBUTES .| WRITE_DAC
  .| WRITE_OWNER .| GENERIC_WRITE .| GENERIC_ALL .| MAXIMUM_ALLOWED.
Definition deleteRights : Z := DELETE .| FILE_DELETE_CHILD .| GENERIC_ALL .| MAXIMUM_ALLOWED.

(** [checker] is [None] where the client of the tree connect does not check
    access by path; [known] says the path names a file that is known by its
    state alone. *)
Definition narrowToPath (fs : Z) (checker : option pathAccess) (known : bool)
    : outcome pathAccess Z :=
  match checker with
  | None => Ok fs
  | Some PathNotFound => if known then Ok fs else Err PathNotFound
  | Some PathError => Err PathError
  | Some (PathAccess w d) =>
      let fs := if w then fs else fs &^ writeRights in
      let fs := if d then fs else fs &^ deleteRights in
      Ok fs
  end.

(** [grantAccess(cr, fs)], of the three fields of the create it reads. *)
Definition grantAccess (cd co da fs : Z) : bool :=
  if fs =? 0 then false else
  let write := has fs (FILE_WRITE_DATA .| FILE_APPEND_DATA .| FILE_WRITE_EA .| FILE_WRITE_ATTRIBUTES) in
  let del := has fs (DELETE .| FILE_DELETE_CHILD) in
  if negb (satisfies fs da) then false
  else if negb write &&
          ((cd =? FILE_SUPERSEDE) || (cd =? FILE_CREATE) || (cd =? FILE_OPEN_IF)
           || (cd =? FILE_OVERWRITE) || (cd =? FILE_OVERWRITE_IF)) then false
  else if negb write && has co FILE_WRITE_THROUGH then false
  else if negb del && has co FILE_DELETE_ON_CLOSE then false
  else true.

Record AccessRights := mkAccessRights {
  ReadAccess : bool; WriteAccess : bool; DeleteAccess : bool; ExecuteAccess : bool }.

Definition FlagsFromAccessRights (ar : AccessRights) : Z :=
  let flags := 0 in
  let flags := if ReadAccess ar then flags .| 0x80120089 else flags in
  let flags := if WriteAccess ar then flags .| 0x400c0116 else flags in
  let flags := if DeleteAccess ar then flags .| 0x00010040 else flags in
  let flags := if ExecuteAccess ar then flags .| 0x20000020 else flags in
  if ReadAccess ar && WriteAccess ar && DeleteAccess ar && ExecuteAccess ar
  then flags .| 0x12000000 else flags.

(** ** Sharing *)

Definition readsFile : Z :=
  FILE_READ_DATA .| FILE_EXECUTE .| GENERIC_READ .| GENERIC_EXECUTE .| GENERIC_ALL.
Definition writesFile : Z := FILE_WRITE_DATA .| FILE_APPEND_DATA .| GENERIC_WRITE .| GENERIC_ALL.
Definition deletesFile : Z := DELETE .| GENERIC_ALL.
Definition touchesFile : Z := readsFile .| writesFile .| deletesFile.

Definition sharingConflict (access mode held allowed : Z) : bool :=
  if negb (has access touchesFile) || negb (has held touchesFile) then false
  else if has access readsFile && negb (has allowed FILE_SHARE_READ) then true
  else if has access writesFile && negb (has allowed FILE_SHARE_WRITE) then true
  else if has access deletesFile && negb (has allowed FILE_SHARE_DELETE) then true
  else if has held readsFile && negb (has mode FILE_SHARE_READ) then true
  else if has held writesFile && negb (has mode FILE_SHARE_WRITE) then true
  else if has held deletesFile && negb (has mode FILE_SHARE_DELETE) then true
  else false.

Fixpoint sharingViolation_loop (access mode : Z) (others : list openId) : M (option openId) :=
  match others with
  | [] => mret None
  | other :: rest =>
      op ← getOpen other;
      if sharingConflict access mode (grantedAccess op) (shareMode op) then mret (Some other)
      else sharingViolation_loop access mode rest
  end.

Definition sharingViolation (sh : shareId) (path : string) (access mode : Z) : M (option openId) :=
  others ← opensOn sh path None;
  sharingViolation_loop access mode others.

(** ** Masks as sets of bits *)

(** [a] asks for nothing outside [b]. *)
Definition within (a b : Z) : Prop := Z.ldiff a b = 0.
#[export] Instance within_dec a b : Decision (within a b).
Proof. unfold within. apply _. Defined.

Lemma within_bits a b :
  within a b <-> forall i, 0 <= i -> Z.testbit a i = true -> Z.testbit b i = true.
Proof.
  unfold within. split.
  - intros H i Hi Ha. apply (f_equal (fun z => Z.testbit z i)) in H.
    rewrite Z.ldiff_spec, Ha, Z.bits_0 in H. by destruct (Z.testbit b i).
  - intros H. apply Z.bits_inj'. intros i Hi. rewrite Z.ldiff_spec, Z.bits_0.
    specialize (H i Hi). destruct (Z.testbit a i); [by rewrite H|done].
Qed.
Lemma within_trans a b c : within a b -> within b c -> within a c.
Proof. rewrite !within_bits. eauto. Qed.
Lemma within_land_r a b : within (Z.land a b) b.
Proof. apply within_bits. intros i _. rewrite Z.land_spec. by intros [_ ?]%andb_prop. Qed.
Lemma within_ldiff a b : within (Z.ldiff a b) a.
Proof. apply within_bits. intros i _. rewrite Z.ldiff_spec. by intros [? _]%andb_prop. Qed.
(** What has had a set of bits taken out of it has none of them. *)
Lemma has_within_ldiff a b m m' : within a (Z.ldiff b m) -> within m' m -> has a m' = false.
Proof.
  rewrite !within_bits, has_false. intros Ha Hm. apply Z.bits_inj'. intros i Hi.
  rewrite Z.land_spec, Z.bits_0. specialize (Ha i Hi). specialize (Hm i Hi).
  destruct (Z.testbit a i), (Z.testbit m' i); try done.
  rewrite Z.ldiff_spec, Hm, andb_false_r in Ha by done. by discriminate Ha.
Qed.

Lemma grantedFor_within desired maximal : within (grantedFor desired maximal) maximal.
Proof.
  unfold grantedFor. destruct (has _ _); [|apply within_land_r].
  apply within_bits. auto.
Qed.

(** A path an account may not write hands out no write access, whatever the share
    grants and whatever the create asks for, generic rights and MAXIMUM_ALLOWED
    included: the handle carries no right that counts as writing, and a create that
    would make, empty or replace the file is refused.  A path it may not delete hands
    out no delete access, and a create that would delete the file on close is refused. *)
Theorem narrowToPath_sound fs w d known fs' :
  narrowToPath fs (Some (PathAccess w d)) known = Ok fs' ->
  (w = false -> forall da, has (grantedFor da fs') writesFile = false) /\
  (w = false -> forall cd co da, grantAccess cd co da fs' = true ->
     cd <> FILE_SUPERSEDE /\ cd <> FILE_CREATE /\ cd <> FILE_OPEN_IF /\
     cd <> FILE_OVERWRITE /\ cd <> FILE_OVERWRITE_IF) /\
  (d = false -> forall da, has (grantedFor da fs') deletesFile = false) /\
  (d = false -> forall cd co da, grantAccess cd co da fs' = true ->
     has co FILE_DELETE_ON_CLOSE = false).
Proof.
  intros [= <-].
  set (fs1 := if w then fs else fs &^ writeRights).
  set (fs' := if d then fs1 else fs1 &^ deleteRights).
  assert (w = false -> within fs' (fs &^ writeRights)) as Hw.
  { intros ->. unfold fs'. destruct d; [by apply within_bits; auto|apply within_ldiff]. }
  assert (d = false -> within fs' (fs1 &^ deleteRights)) as Hd.
  { intros ->. apply within_bits. auto. }
  split_and!.
  - intros Hf da. eapply has_within_ldiff; [eapply within_trans; [apply grantedFor_within|by apply Hw]|].
    reflexivity.
  - intros Hf cd co da. unfold grantAccess.
    rewrite (has_within_ldiff fs' fs writeRights) by (try done; by apply Hw).
    destruct (fs' =? 0); [done|]. destruct (negb (satisfies fs' da)); [done|]. cbn [negb andb].
    destruct (_ || _) eqn:Ho; [done|]. intros _. rewrite !orb_false_iff in Ho.
    rewrite !Z.eqb_neq in Ho. tauto.
  - intros Hf da. eapply has_within_ldiff; [eapply within_trans; [apply grantedFor_within|by apply Hd]|].
    reflexivity.
  - intros Hf cd co da. unfold grantAccess.
    rewrite (has_within_ldiff fs' fs1 deleteRights (DELETE .| FILE_DELETE_CHILD)) by (try done; by apply Hd).
    destruct (fs' =? 0); [done|]. destruct (negb (satisfies fs' da)); [done|].
    destruct (negb _ && _); [done|]. destruct (negb _ && _); [done|]. cbn [negb andb].
    by destruct (has co FILE_DELETE_ON_CLOSE).
Qed.

(** A create that is let through is given what it asked for: on rights that come
    from a stored policy, narrowed to a path, every right named by the create (its
    generic ones spelled out) is a right of the handle, but for the two that are not
    weighed and for reading attributes, which execute access implies when weighed and
    does not carry when granted. *)
Theorem grantAccess_gets_rights ar w d known fs cd co da :
  narrowToPath (FlagsFromAccessRights ar) (Some (PathAccess w d)) known = Ok fs ->
  has da (MAXIMUM_ALLOWED .| GENERIC_ALL) = false ->
  grantAccess cd co da fs = true ->
  within (expandGeneric da &^ generic) (grantedFor da fs .| notWeighed .| FILE_READ_ATTRIBUTES).
Proof.
  intros [= <-] Hmax Hg. set (fs := if d then _ else _) in *.
  assert (within (expandGeneric da &^ generic) (expandGeneric fs .| notWeighed)) as Hs.
  { unfold grantAccess, satisfies in Hg. rewrite Hmax in Hg.
    destruct (fs =? 0); [done|].
    destruct (Z.eqb_spec ((expandGeneric da &^ generic) &^ (expandGeneric fs .| notWeighed)) 0); [done|].
    done. }
  assert (within (expandGeneric fs) (fs .| notWeighed .| FILE_READ_ATTRIBUTES)) as Hx.
  { unfold fs, FlagsFromAccessRights. clear. destruct ar as [[] [] [] []], w, d; reflexivity. }
  unfold grantedFor. rewrite Hmax. clear -Hs Hx. rewrite within_bits in *. intros i Hi H.
  specialize (Hs i Hi H). specialize (Hx i Hi).
  rewrite Z.ldiff_spec in H. apply andb_prop in H as [H _].
  rewrite !Z.lor_spec, Z.land_spec, H in *. simpl.
  apply orb_prop in Hs as [Hs| ->]; [|by rewrite orb_true_r]. by apply Hx in Hs.
Qed.

(** ** Sharing *)

(** [mode] puts up with everything [access] does to the file. *)
Definition permits (mode access : Z) : bool :=
  implb (has access readsFile) (has mode FILE_SHARE_READ) &&
  implb (has access writesFile) (has mode FILE_SHARE_WRITE) &&
  implb (has access deletesFile) (has mode FILE_SHARE_DELETE).

Lemma sharingConflict_spec access mode held allowed :
  sharingConflict access mode held allowed =
  has access touchesFile && has held touchesFile &&
  negb (permits allowed access && permits mode held).
Proof.
  unfold sharingConflict, permits.
  destruct (has access touchesFile), (has held touchesFile); try done; simpl.
  destruct (has access readsFile), (has allowed FILE_SHARE_READ); try done;
  destruct (has access writesFile), (has allowed FILE_SHARE_WRITE); try done;
  destruct (has access deletesFile), (has allowed FILE_SHARE_DELETE); try done;
  destruct (has held readsFile), (has mode FILE_SHARE_READ); try done;
  destruct (has held writesFile), (has mode FILE_SHARE_WRITE); try done;
  by destruct (has held deletesFile), (has mode FILE_SHARE_DELETE).
Qed.
Lemma sharingConflict_sym a m h al : sharingConflict a m h al = sharingConflict h al a m.
Proof. rewrite !sharingConflict_spec. by rewrite (andb_comm (has a _)), (andb_comm (permits al a)). Qed.

(** An open indexed under [k] clashes with [access] and [mode]. *)
Definition clashes (s : server) (access mode : Z) (o : openId) : Prop :=
  exists op, opens s !! o = Some op /\
    sharingConflict access mode (grantedAccess op) (shareMode op) = true.

Lemma sharingViolation_loop_reads s access mode l :
  (forall o, o ∈ l -> is_Some (opens s !! o)) ->
  exists r, reads (sharingViolation_loop access mode l) s r /\
    (forall o, r = Some o -> o ∈ l /\ clashes s access mode o) /\
    (r = None -> forall o, o ∈ l -> ~ clashes s access mode o).
Proof.
  induction l as [|o l IH]; intros Hl; simpl.
  - exists None. split_and!; [done|done|]. intros _ o H. by apply not_elem_of_nil in H.
  - destruct (Hl o) as [op Ho]; [left|]. unfold reads, getOpen, deref, mbind, M_bind. rewrite Ho.
    destruct (sharingConflict _ _ _ _) eqn:Hc.
    + exists (Some o). split_and!; [done| |done]. intros o' [= <-]. split; [left|by exists op].
    + destruct IH as (r & Hr & H1 & H2); [intros; apply Hl; by right|].
      exists r. split_and!; [done| |].
      * intros o' Ho'. destruct (H1 _ Ho'). split; [by right|done].
      * intros Hn o' [->|Hin]%elem_of_cons; [|by apply H2].
        intros (op' & Ho' & Hc'). rewrite Ho in Ho'. simplify_eq. by rewrite Hc in Hc'.
Qed.

Lemma sharingViolation_reads s sh path access mode :
  index_ok s ->
  exists r, reads (sharingViolation sh path access mode) s r /\
    (forall o, r = Some o -> indexed s (Some sh, path) o /\ clashes s access mode o) /\
    (r = None -> forall o, indexed s (Some sh, path) o -> ~ clashes s access mode o).
Proof.
  intros Hok. destruct (opensOn_reads s Hok sh path None) as (l & Hl & _ & Hin).
  destruct (sharingViolation_loop_reads s access mode l) as (r & Hr & H1 & H2).
  { intros o [Hi _]%Hin. destruct (indexed_key s Hok _ _ Hi) as (op & -> & _). eauto. }
  exists r. split_and!.
  - unfold sharingViolation. by eapply reads_bind.
  - intros o Ho. destruct (H1 o Ho) as [Hi Hc]. split; [by apply Hin|done].
  - intros Hn o Hi. apply H2; [done|]. by apply Hin.
Qed.

(** No two opens on one file do what the other does not put up with. *)
Definition sharing_ok (s : server) : Prop :=
  forall k o1 o2 op1 op2, indexed s k o1 -> indexed s k o2 -> o1 <> o2 ->
    opens s !! o1 = Some op1 -> opens s !! o2 = Some op2 ->
    sharingConflict (grantedAccess op1) (shareMode op1) (grantedAccess op2) (shareMode op2) = false.

(** The sharing modes are honoured: the check of a create answers either with an
    open on the file that the create cannot stand beside, or with none; and where it
    answers with none, the open the create then makes can stand beside every open on
    the file, so that no two opens on one file are ever in conflict. *)
Theorem sharingViolation_keeps_sharing s sh path o op :
  index_ok s -> dfid_unique s -> sharing_ok s ->
  opens s !! o = None -> fileKeyLocked op = (Some sh, path) ->
  (forall o' op', opens s !! o' = Some op' -> durableFileID op' <> durableFileID op) ->
  exists r, sharingViolation sh path (grantedAccess op) (shareMode op) s = Ok (r, s) /\
    match r with
    | Some other => indexed s (Some sh, path) other /\
                    clashes s (grantedAccess op) (shareMode op) other
    | None => exists s', indexOpen o (set_opens (<[o := op]> (opens s)) s) = Ok (tt, s') /\
                         index_ok s' /\ sharing_ok s' /\ indexed s' (Some sh, path) o
    end.
Proof.
  intros Hok Hu Hsh Hfresh Hkey Hd.
  destruct (sharingViolation_reads s sh path (grantedAccess op) (shareMode op) Hok)
    as (r & Hr & H1 & H2). exists r. split; [done|]. destruct r as [other|]; [by apply H1|].
  specialize (H2 eq_refl). set (s1 := set_opens _ s).
  assert (forall o' op', opens s !! o' = Some op' -> opens s1 !! o' = Some op') as Hmono.
  { intros o' op' Ho'. simpl. rewrite lookup_insert_ne; [done|]. intros <-. by rewrite Hfresh in Ho'. }
  assert (opens s1 !! o = Some op) as Ho by (simpl; by rewrite lookup_insert_eq).
  assert (index_ok s1) as Hok1.
  { apply index_ok_alt in Hok as [Hne He]. apply index_ok_alt. split; [done|].
    intros k d o' (op' & ? & ?)%He. exists op'. auto. }
  assert (dfid_unique s1) as Hu1.
  { intros o1 o2 op1 op2. simpl. rewrite !lookup_insert_Some.
    intros [[<- <-]|[_ E1]] [[<- <-]|[_ E2]] Heq; [done| | |by eapply Hu].
    - by destruct (Hd _ _ E2).
    - by destruct (Hd _ _ E1). }
  pose proof (indexOpen_ok s1 Hok1 o op Ho) as Hwp.
  apply wp_run in Hwp as ([] & s' & Hrun & Hok' & Hi & Hop & _ & Hoth). rewrite Hkey in Hi.
  exists s'. split_and!; [done|done| |done]. specialize (Hoth Hu1).
  assert (forall k o' op', indexed s' k o' -> o' <> o -> indexed s' k o -> opens s' !! o' = Some op' ->
    sharingConflict (grantedAccess op) (shareMode op) (grantedAccess op') (shareMode op') = false) as Hone.
  { intros k o' op' Hi' Hn Hik Ho'. pose proof (indexed_inj s' Hok' _ _ _ Hik Hi) as ->.
    apply Hoth in Hi'; [|done]. rewrite Hop in Ho'. simpl in Ho'. rewrite lookup_insert_ne in Ho' by done.
    apply not_true_is_false. intros Hc. apply (H2 o' Hi'). by exists op'. }
  intros k o1 o2 op1 op2 I1 I2 Hn E1 E2.
  destruct (decide (o1 = o)) as [->|N1]; [|destruct (decide (o2 = o)) as [->|N2]].
  - rewrite Hop, Ho in E1. simplify_eq. eapply (Hone k o2); eauto.
  - rewrite Hop, Ho in E2. simplify_eq. rewrite sharingConflict_sym. eapply (Hone k o1); eauto.
  - rewrite Hop in E1, E2. simpl in E1, E2. rewrite lookup_insert_ne in E1, E2 by done.
    apply Hoth in I1; [|done]. apply Hoth in I2; [|done]. by eapply (Hsh k o1 o2).
Qed.

(** ** Witnesses *)
Lemma narrowToPath_sound_witness :
  exists fs', narrowToPath 0xd21f01ff (Some (PathAccess false true)) false = Ok fs' /\
    has (grantedFor MAXIMUM_ALLOWED fs') writesFile = false /\
    grantAccess FILE_OPEN 0 GENERIC_READ fs' = true.
Proof.
  eexists. split; [reflexivity|]. split; [|reflexivity].
  by apply (narrowToPath_sound 0xd21f01ff false true false).
Defined.

Lemma grantAccess_gets_rights_witness :
  grantAccess FILE_OPEN 0 (GENERIC_READ .| DELETE) (FlagsFromAccessRights (mkAccessRights true false true false)) = true /\
  within (expandGeneric (GENERIC_READ .| DELETE) &^ generic)
    (grantedFor (GENERIC_READ .| DELETE) (FlagsFromAccessRights (mkAccessRights true false true false))
     .| notWeighed .| FILE_READ_ATTRIBUTES).
Proof.
  split; [reflexivity|].
  by apply (grantAccess_gets_rights (mkAccessRights true false true false) true true false _ FILE_OPEN 0).
Defined.

Section witnesses.
Let op (d mode : Z) : open :=
  Open (Some 0%nat) "f" "f" d 1 1 false FILE_READ_DATA mode false noOplock None.
Let s0 : server :=
  Server {[ 1%nat := op 10 FILE_SHARE_READ ]} ∅ {[ (Some 0%nat, "f") := {[ 10 := 1%nat ]} ]} ∅ ∅ no_chans.

Lemma sharingViolation_keeps_sharing_witness :
  exists s', indexOpen 2 (set_opens (<[2%nat := op 20 FILE_SHARE_READ]> (opens s0)) s0) = Ok (tt, s') /\
    sharing_ok s' /\ indexed s' (Some 0%nat, "f") 2%nat.
Proof.
  assert (index_ok s0 /\ dfid_unique s0 /\ sharing_ok s0) as (H1 & H2 & H3).
  { split_and!.
    - intros k b Hb. simpl in Hb. apply lookup_singleton_Some in Hb as [<- <-].
      split; [done|]. intros d o Ho. apply lookup_singleton_Some in Ho as [<- <-]. by eexists.
    - intros o1 o2 op1 op2 E1 E2 _. simpl in *.
      apply lookup_singleton_Some in E1 as [<- _]. by apply lookup_singleton_Some in E2 as [<- _].
    - intros k o1 o2 op1 op2 _ _ Hn E1 E2. simpl in *.
      apply lookup_singleton_Some in E1 as [<- _]. by apply lookup_singleton_Some in E2 as [<- _]. }
  destruct (sharingViolation_keeps_sharing s0 0 "f" 2 (op 20 FILE_SHARE_READ) H1 H2 H3 eq_refl eq_refl)
    as (r & Hr & H).
  - intros o' op' E. simpl in E. apply lookup_singleton_Some in E as [_ <-]. done.
  - vm_compute in Hr. injection Hr as <-. destruct H as (s' & ? & _ & ? & ?). by exists s'.
Defined.
End witnesses.
