(* ===== verification/Lease.v ===== *)
(** [lease.go]: the lease table of a client and the life of one lease, from the
    first open that names its key to the last that leaves it.  Each definition is
    one critical section of the source, under the locks it takes. *)
From S2P Require Import Prelude Smb2Const Chan ServerState OpenIndex.

(** ** Field updates *)

Definition lease_name (path : string) (del : bool) (x : lease) : lease :=
  Lease (leaseKey x) (lease_clientGuid x) path (state x) (breakToState x) (breaking x) (epoch x)
    del (lease_opens x) (breakDone x) (breakSeq x).
Definition lease_set_opens (m : gmap Z openId) (x : lease) : lease :=
  Lease (leaseKey x) (lease_clientGuid x) (lease_fileName x) (state x) (breakToState x) (breaking x)
    (epoch x) (fileDeleteOnClose x) m (breakDone x) (breakSeq x).
Definition lease_set_state (st : Z) (x : lease) : lease :=
  Lease (leaseKey x) (lease_clientGuid x) (lease_fileName x) st (breakToState x) (breaking x)
    (epoch x) (fileDeleteOnClose x) (lease_opens x) (breakDone x) (breakSeq x).
(** The break fields: target, whether one is in flight, epoch, channel, sequence. *)
Definition lease_set_break (to : Z) (br : bool) (ep : Z) (done : option chan) (seq : Z) (x : lease) : lease :=
  Lease (leaseKey x) (lease_clientGuid x) (lease_fileName x) (state x) to br
    ep (fileDeleteOnClose x) (lease_opens x) done seq.

Definition newLease (key g : guid) (path : string) : lease :=
  Lease key g path SMB2_LEASE_NONE SMB2_LEASE_NONE false 1 false ∅ None 0.

(** ** Operations *)

Definition leaseStates : Z :=
  SMB2_LEASE_READ_CACHING .| SMB2_LEASE_HANDLE_CACHING .| SMB2_LEASE_WRITE_CACHING.

Definition leaseGrantable (requested : Z) : bool := negb (requested .& leaseStates =? 0).

Definition leaseBreakTarget (current : Z) (sharedOK : bool) : Z :=
  if sharedOK then current &^ SMB2_LEASE_WRITE_CACHING else SMB2_LEASE_NONE.

(** A lease table is made once per client and never replaced, so the GUID of the
    client names it. *)
Definition leaseTableFor (g : guid) : M guid :=
  _ ← modify (fun s =>
    match globalLeaseTableList s !! g with
    | Some _ => s
    | None => set_tables (<[g := ∅]> (globalLeaseTableList s)) s
    end);
  mret g.

Definition table_of (s : server) (g : guid) : gmap guid leaseId := default ∅ (globalLeaseTableList s !! g).
Definition table_set (g key : guid) (l : leaseId) : M unit :=
  modify (fun s => set_tables (<[g := <[key := l]> (table_of s g)]> (globalLeaseTableList s)) s).
Definition table_delete (g key : guid) : M unit :=
  modify (fun s => set_tables (<[g := delete key (table_of s g)]> (globalLeaseTableList s)) s).

Definition findLease (g key : guid) : M (option leaseId) :=
  gets (fun s => table_of s g !! key).

Definition leaseFor (g key : guid) (path : string) : M (leaseId * bool) :=
  lt ← leaseTableFor g;
  found ← gets (fun s => table_of s lt !! key);
  match found with
  | Some l =>
      x ← getLease l;
      _ ← (if negb (String.eqb (lease_fileName x) path) && fileDeleteOnClose x
           then modLease l (lease_name path false) else mret tt);
      x ← getLease l;
      mret (l, String.eqb (lease_fileName x) path)
  | None =>
      l ← gets (fun s => fresh (dom (leases s)));
      _ ← modify (fun s => set_leases (<[l := newLease key g path]> (leases s)) s);
      _ ← table_set lt key l;
      mret (l, true)
  end.

Definition join (l : leaseId) (lt : guid) (o : openId) (st : Z) : M unit :=
  x ← getLease l;
  found ← gets (fun s => bool_decide (is_Some (table_of s lt !! leaseKey x)));
  _ ← (if (found : bool) then mret tt else table_set lt (leaseKey x) l);
  op ← getOpen o;
  _ ← modLease l (lease_set_state st);
  _ ← modLease l (fun x => lease_set_opens (<[durableFileID op := o]> (lease_opens x)) x);
  modOpen o (set_op_lease (Some l)).

(** The last open is gone: the lease promises nothing and nobody waits on it. *)
Definition retireLease (l : leaseId) (x : lease) : M unit :=
  _ ← modLease l (lease_set_state SMB2_LEASE_NONE);
  if breaking x then
    _ ← closeChan (breakDone x);
    modLease l (fun x => lease_set_break (breakToState x) false (epoch x) None (breakSeq x) x)
  else mret tt.

Definition leaveLease (o : openId) : M unit :=
  op ← getOpen o;
  _ ← modOpen o (set_op_lease None);
  match op_lease op with
  | None => mret tt
  | Some l =>
      x ← getLease l;
      lt ← leaseTableFor (lease_clientGuid x);
      _ ← modLease l (fun x => lease_set_opens (delete (durableFileID op) (lease_opens x)) x);
      x ← getLease l;
      if decide (lease_opens x = ∅) then
        _ ← retireLease l x;
        mine ← gets (fun s => bool_decide (table_of s lt !! leaseKey x = Some l));
        if (mine : bool) then table_delete lt (leaseKey x) else mret tt
      else mret tt
  end.

Definition setLeaseDeleteOnClose (o : openId) (pending : bool) : M unit :=
  op ← getOpen o;
  match op_lease op with
  | None => mret tt
  | Some l => x ← getLease l; modLease l (lease_name (lease_fileName x) pending)
  end.

Definition renameLease (o : openId) (path : string) : M unit :=
  op ← getOpen o;
  match op_lease op with
  | None => mret tt
  | Some l => modLease l (lease_name path false)
  end.

Definition stateNow (l : leaseId) : M Z := x ← getLease l; mret (state x).
Definition currentEpoch (l : leaseId) : M Z := x ← getLease l; mret (epoch x).

(** The channel to wait on, if there is anything to wait for, and whether this
    call is the one the client has to be told about. *)
Definition startBreak (l : leaseId) (to : Z) : M (option chan * bool) :=
  x ← getLease l;
  if (state x =? SMB2_LEASE_NONE) || (state x &^ to =? 0) then mret (None, false)
  else if breaking x then
    if breakToState x &^ to =? 0 then mret (breakDone x, false)
    else
      _ ← modLease l (lease_set_break (breakToState x .& to) true (u16 (epoch x + 1)) (breakDone x) (breakSeq x));
      mret (breakDone x, true)
  else
    c ← mkChan;
    _ ← modLease l (lease_set_break to true (u16 (epoch x + 1)) (Some c) (u64 (breakSeq x + 1)));
    mret (Some c, true).

Definition finishBreak (l : leaseId) (st : Z) : M bool :=
  x ← getLease l;
  if negb (breaking x) then mret false
  else
    _ ← modLease l (lease_set_state st);
    _ ← closeChan (breakDone x);
    _ ← modLease l (fun x => lease_set_break (breakToState x) false (epoch x) None (breakSeq x) x);
    mret true.

Definition completeBreak (l : leaseId) (st : Z) : M bool := finishBreak l st.

Definition expireBreak (l : leaseId) (seq st : Z) : M bool :=
  x ← getLease l;
  if negb (breakSeq x =? seq) then mret false else finishBreak l st.

(** The loop of [startLeaseBreaks]: the channels to wait on, the leases to tell. *)
Fixpoint startLeaseBreaks (ls : list leaseId) (sharedOK : bool) : M (list chan * list leaseId) :=
  match ls with
  | [] => mret ([], [])
  | l :: rest =>
      st ← stateNow l;
      r ← startBreak l (leaseBreakTarget st sharedOK);
      more ← startLeaseBreaks rest sharedOK;
      mret (match r with
            | (None, _) => more
            | (Some c, started) => (c :: more.1, if started : bool then l :: more.2 else more.2)
            end)
  end.

(** What [sendLeaseBreak] does once it has tried the connections of the client:
    [sent] says whether any of them took the notification.  The timer it leaves
    behind is a later [expireBreak] with the sequence number read here. *)
Record leaseNotice := LeaseNotice {
  ln_key : guid; ln_current : Z; ln_to : Z; ln_epoch : Z; ln_seq : Z; ln_ackRequired : bool }.

Definition leaseBreakNotice (l : leaseId) : M leaseNotice :=
  x ← getLease l;
  mret (LeaseNotice (leaseKey x) (state x) (breakToState x) (epoch x) (breakSeq x)
          (negb (state x =? SMB2_LEASE_READ_CACHING))).

Definition leaseBreakSent (l : leaseId) (n : leaseNotice) (sent : bool) : M bool :=
  if negb sent then completeBreak l SMB2_LEASE_NONE
  else if negb (ln_ackRequired n) then completeBreak l (ln_to n)
  else mret false.

Definition sendLeaseBreak (l : leaseId) (sent : bool) : M bool :=
  n ← leaseBreakNotice l;
  leaseBreakSent l n sent.
