(* ===== verification/Oplock.v ===== *)
(** [oplock.go]: the oplock of an open, the holders of a file, and the decisions a
    create makes over them.  The two halves of an acknowledgment, the look at the
    break in flight and the end of it, are two critical sections of the source and
    two definitions here, so that what happens between them can be told. *)
From S2P Require Import Prelude Smb2Const Chan ServerState OpenIndex Lease.

(** ** The oplock of one open *)

Definition oplockEligible (requested : Z) (ipc isDir : bool) : bool :=
  if (requested =? OPLOCK_LEVEL_II) || (requested =? OPLOCK_LEVEL_EXCLUSIVE)
     || (requested =? OPLOCK_LEVEL_BATCH)
  then negb ipc && negb isDir else false.

Definition oplockBreakTarget (sharedOK : bool) : Z :=
  if sharedOK then OPLOCK_LEVEL_II else OPLOCK_LEVEL_NONE.

(** [createChangesFile(cr)], of the disposition and the options of the create. *)
Definition createChangesFile (cd co : Z) : bool :=
  if (cd =? FILE_SUPERSEDE) || (cd =? FILE_OVERWRITE) || (cd =? FILE_OVERWRITE_IF) then true
  else has co FILE_DELETE_ON_CLOSE.

Definition modOplock (o : openId) (f : oplock -> oplock) : M unit :=
  modOpen o (fun op => set_oplock (f (op_oplock op)) op).

Definition startOplockBreak (o : openId) (to : Z) : M (option chan * bool) :=
  op ← getOpen o;
  let k := op_oplock op in
  match oplock_state k with
  | OplockHeld =>
      if to >=? oplockLevel k then mret (None, false)
      else
        c ← mkChan;
        _ ← modOplock o (fun k => Oplock (oplockLevel k) OplockBreaking to (Some c) (u64 (oplockBreakSeq k + 1)));
        mret (Some c, true)
  | OplockBreaking =>
      if to >=? oplockBreakTo k then mret (oplockBreak k, false)
      else
        _ ← modOplock o (fun k => Oplock (oplockLevel k) (oplock_state k) to (oplockBreak k) (oplockBreakSeq k));
        mret (oplockBreak k, true)
  | OplockNone => mret (None, false)
  end.

Definition finishOplockBreak (o : openId) (level : Z) : M bool :=
  op ← getOpen o;
  let k := op_oplock op in
  match oplock_state k with
  | OplockBreaking =>
      let st := if level =? OPLOCK_LEVEL_NONE then OplockNone else OplockHeld in
      _ ← closeChan (oplockBreak k);
      _ ← modOplock o (fun k => Oplock level st (oplockBreakTo k) None (oplockBreakSeq k));
      mret true
  | _ => mret false
  end.

Definition completeOplockBreak (o : openId) (level : Z) : M bool := finishOplockBreak o level.

Definition expireOplockBreak (o : openId) (seq level : Z) : M bool :=
  op ← getOpen o;
  if negb (oplockBreakSeq (op_oplock op) =? seq) then mret false else finishOplockBreak o level.

Definition releaseOplock (o : openId) : M unit :=
  op ← getOpen o;
  let k := op_oplock op in
  _ ← modOplock o (fun k => Oplock OPLOCK_LEVEL_NONE OplockNone (oplockBreakTo k) (oplockBreak k) (oplockBreakSeq k));
  match oplockBreak k with
  | Some c =>
      _ ← closeChan (Some c);
      modOplock o (fun k => Oplock (oplockLevel k) (oplock_state k) (oplockBreakTo k) None (oplockBreakSeq k))
  | None => mret tt
  end.

Definition releaseCaching (o : openId) : M unit :=
  _ ← releaseOplock o;
  leaveLease o.

Fixpoint startBreaks (os : list openId) (to : Z) : M (list chan * list openId) :=
  match os with
  | [] => mret ([], [])
  | o :: rest =>
      r ← startOplockBreak o to;
      more ← startBreaks rest to;
      mret (match r with
            | (None, _) => more
            | (Some c, started) => (c :: more.1, if started : bool then o :: more.2 else more.2)
            end)
  end.

(** What [sendOplockBreak] reads before it sends, and what it does once it has
    tried the channels of the session; the timer it leaves behind is a later
    [expireOplockBreak] with the sequence number read here. *)
Definition oplockBreakSent (o : openId) (held : Z) (sent : bool) : M bool :=
  if negb sent then completeOplockBreak o OPLOCK_LEVEL_NONE
  else if held =? OPLOCK_LEVEL_II then completeOplockBreak o OPLOCK_LEVEL_NONE
  else mret false.

Definition sendOplockBreak (o : openId) (sent : bool) : M bool :=
  op ← getOpen o;
  oplockBreakSent o (oplockLevel (op_oplock op)) sent.

(** ** The holders of a file *)

Record asker := Asker { by_guid : guid; by_own : option leaseId; by_keyed : bool }.

(** [clientGuid] of the connection is nil before a client named one. *)
Definition askedBy (connGuid : option guid) (own : option leaseId) (lr : bool) : asker :=
  Asker (default 0%N connGuid) own lr.

Definition covers (b : asker) (l : leaseId) : M bool :=
  if decide (by_own b = Some l) then mret true
  else if by_keyed b || bool_decide (by_guid b = 0%N) then mret false
  else x ← getLease l; mret (bool_decide (lease_clientGuid x = by_guid b)).

Definition sameCacheView (o : openId) (g : guid) : M bool :=
  if decide (g = 0%N) then mret false
  else op ← getOpen o; mret (bool_decide (clientGuid op = g)).

(** The loop of [holdersIn], with the set of leases already seen. *)
Fixpoint holdersIn_loop (os : list openId) (b : asker) (seen : gset leaseId)
    : M (list openId * list leaseId) :=
  match os with
  | [] => mret ([], [])
  | o :: rest =>
      op ← getOpen o;
      let held := negb (bool_decide (oplock_state (op_oplock op) = OplockNone)) in
      match op_lease op with
      | Some l =>
          cov ← covers b l;
          if (cov : bool) || bool_decide (l ∈ seen) then holdersIn_loop rest b seen
          else
            x ← getLease l;
            if negb (state x =? SMB2_LEASE_NONE) || breaking x then
              r ← holdersIn_loop rest b ({[l]} ∪ seen);
              mret (r.1, l :: r.2)
            else holdersIn_loop rest b seen
      | None =>
          same ← (if held then sameCacheView o (by_guid b) else mret false);
          r ← holdersIn_loop rest b seen;
          mret (if held && negb same then (o :: r.1, r.2) else r)
      end
  end.
Definition holdersIn (os : list openId) (b : asker) : M (list openId * list leaseId) :=
  holdersIn_loop os b ∅.

Definition holdersOn (sh : shareId) (path : string) (except : option openId) (b : asker)
    : M (list openId * list leaseId) :=
  os ← opensOn sh path except;
  holdersIn os b.

Fixpoint opensOutside (os : list openId) (own : option leaseId) : M (list openId) :=
  match os with
  | [] => mret []
  | o :: rest =>
      op ← getOpen o;
      outside ← opensOutside rest own;
      mret (if bool_decide (own <> None) && bool_decide (op_lease op = own) then outside else o :: outside)
  end.

Definition exclusiveHeld (oplocks : list openId) (ls : list leaseId) : M bool :=
  e ← anyM oplocks (fun o =>
    op ← getOpen o;
    mret ((oplockLevel (op_oplock op) >? OPLOCK_LEVEL_II)
          || bool_decide (oplock_state (op_oplock op) = OplockBreaking)));
  if (e : bool) then mret true else
  anyM ls (fun l =>
    x ← getLease l;
    mret (has (state x) SMB2_LEASE_WRITE_CACHING || breaking x)).

(** Under [cachingMu]: the channels to wait on, and the holders to be told. *)
Definition startHolderBreaks (sh : shareId) (path : string) (except : option openId) (b : asker)
    (sharedOK : bool) : M (list chan * list openId * list leaseId) :=
  h ← holdersOn sh path except b;
  w ← startBreaks h.1 (oplockBreakTarget sharedOK);
  lw ← startLeaseBreaks h.2 sharedOK;
  mret (w.1 ++ lw.1, w.2, lw.2).

Definition needsBreakWait (sh : shareId) (path : string) (except : option openId) (b : asker)
    (sharedOK : bool) : M bool :=
  h ← holdersOn sh path except b;
  let to := oplockBreakTarget sharedOK in
  e ← anyM h.1 (fun o =>
    op ← getOpen o;
    let lv := oplockLevel (op_oplock op) in
    mret ((lv >? OPLOCK_LEVEL_II) && (to <? lv)));
  if (e : bool) then mret true else
  anyM h.2 (fun l =>
    x ← getLease l;
    mret (negb (state x =? SMB2_LEASE_READ_CACHING)
          && negb (state x &^ leaseBreakTarget (state x) sharedOK =? 0))).

Definition hasHoldersOn (sh : shareId) (path : string) (except : option openId) (b : asker) : M bool :=
  h ← holdersOn sh path except b;
  mret ((0 <? zlen h.1) || (0 <? zlen h.2)).

(** The part of [breakForChange] under [cachingMu]: the opens and the leases whose
    holders the goroutine it starts then tells. *)
Definition breakForChange (o : openId) : M (list openId * list leaseId) :=
  op ← getOpen o;
  sh ← deref (treeConnect op);
  r ← startHolderBreaks sh (pathName op) (Some o) (Asker 0%N (op_lease op) false) false;
  mret (r.1.2, r.2).

(** The opens of a file that do not belong to the asking client. *)
Fixpoint elsewhere (os : list openId) (g : guid) : M (list openId) :=
  match os with
  | [] => mret []
  | o :: rest =>
      same ← sameCacheView o g;
      more ← elsewhere rest g;
      mret (if (same : bool) then more else o :: more)
  end.

(** The level granted, and the holders the goroutine it starts then tells. *)
Definition grantOplock (o : openId) (requested : Z) (sh : shareId) (path : string)
    : M (Z * list openId * list leaseId) :=
  op ← getOpen o;
  if negb (bool_decide (oplock_state (op_oplock op) = OplockNone))
  then mret (OPLOCK_LEVEL_NONE, [], []) else
  let g := clientGuid op in
  others ← opensOn sh path (Some o);
  else_ ← elsewhere others g;
  h ← holdersIn else_ (Asker g None false);
  granted ←
    (if 0 <? zlen else_ then
       e ← exclusiveHeld h.1 h.2;
       mret (if (e : bool) then OPLOCK_LEVEL_NONE else OPLOCK_LEVEL_II)
     else mret requested);
  if negb (granted =? OPLOCK_LEVEL_NONE) then
    _ ← modOplock o (fun k => Oplock granted OplockHeld (oplockBreakTo k) (oplockBreak k) (oplockBreakSeq k));
    mret (granted, [], [])
  else
    w ← startBreaks h.1 OPLOCK_LEVEL_NONE;
    lw ← startLeaseBreaks h.2 false;
    mret (OPLOCK_LEVEL_NONE, w.2, lw.2).

Definition grantLease (o : openId) (l : leaseId) (requested : Z) (sh : shareId) (path : string)
    : M (Z * list openId * list leaseId) :=
  others ← opensOn sh path (Some o);
  op ← getOpen o;
  h ← holdersIn others (Asker (clientGuid op) (Some l) true);
  outside ← opensOutside others (Some l);
  granted ←
    (if 0 <? zlen outside then
       e ← exclusiveHeld h.1 h.2;
       mret (if (e : bool) then SMB2_LEASE_NONE
             else (requested .& leaseStates) &^ SMB2_LEASE_WRITE_CACHING)
     else mret (requested .& leaseStates));
  if negb (granted =? SMB2_LEASE_NONE) then
    x ← getLease l;
    lt ← leaseTableFor (lease_clientGuid x);
    _ ← join l lt o granted;
    mret (granted, [], [])
  else
    w ← startBreaks h.1 OPLOCK_LEVEL_NONE;
    lw ← startLeaseBreaks h.2 false;
    mret (SMB2_LEASE_NONE, w.2, lw.2).

(** ** Acknowledgments *)

(** What the acknowledgment decides from its look at the break: an answer that
    leaves the break as it is, or an answer and the level to end the break at. *)
Inductive ack := AckRefuse (status : Z) | AckComplete (level : Z) (status reply : Z).

Definition ackOplockCheck (o : openId) (level : Z) : M ack :=
  op ← getOpen o;
  let k := op_oplock op in
  let held := oplockLevel k in
  let to := oplockBreakTo k in
  mret (
    if negb (bool_decide (oplock_state k = OplockBreaking)) then AckRefuse STATUS_INVALID_DEVICE_STATE
    else if level =? OPLOCK_LEVEL_LEASE
    then AckComplete OPLOCK_LEVEL_NONE STATUS_INVALID_PARAMETER OPLOCK_LEVEL_NONE
    else
      let valid :=
        if held =? OPLOCK_LEVEL_BATCH
        then (level =? OPLOCK_LEVEL_EXCLUSIVE) || (level =? OPLOCK_LEVEL_II) || (level =? OPLOCK_LEVEL_NONE)
        else if held =? OPLOCK_LEVEL_EXCLUSIVE
        then (level =? OPLOCK_LEVEL_II) || (level =? OPLOCK_LEVEL_NONE)
        else if held =? OPLOCK_LEVEL_II then level =? OPLOCK_LEVEL_NONE
        else false in
      if negb valid then AckComplete OPLOCK_LEVEL_NONE STATUS_INVALID_OPLOCK_PROTOCOL OPLOCK_LEVEL_NONE
      else if level >? to then AckRefuse STATUS_REQUEST_NOT_ACCEPTED
      else AckComplete level STATUS_OK level).

Definition ackOplockFinish (o : openId) (a : ack) : M (Z * Z) :=
  match a with
  | AckRefuse status => mret (status, OPLOCK_LEVEL_NONE)
  | AckComplete level status reply => _ ← completeOplockBreak o level; mret (status, reply)
  end.

Definition acknowledgeOplockBreak (o : openId) (level : Z) : M (Z * Z) :=
  a ← ackOplockCheck o level;
  ackOplockFinish o a.

Definition ackLeaseCheck (l : leaseId) (st : Z) : M ack :=
  x ← getLease l;
  mret (if negb (breaking x) then AckRefuse STATUS_UNSUCCESSFUL
        else if negb (st &^ breakToState x =? 0) then AckRefuse STATUS_REQUEST_NOT_ACCEPTED
        else AckComplete st STATUS_OK st).

Definition ackLeaseFinish (l : leaseId) (a : ack) : M (Z * Z) :=
  match a with
  | AckRefuse status => mret (status, SMB2_LEASE_NONE)
  | AckComplete st status reply => _ ← completeBreak l st; mret (status, reply)
  end.

Definition acknowledgeLeaseBreak (g key : guid) (st : Z) : M (Z * Z) :=
  found ← findLease g key;
  match found with
  | None => mret (STATUS_OBJECT_NAME_NOT_FOUND, SMB2_LEASE_NONE)
  | Some l =>
      x ← getLease l;
      a ← ackLeaseCheck l st;
      _ ← forM ((map_to_list (lease_opens x)).*2) clearReplayEligible;
      ackLeaseFinish l a
  end.
