(* ===== verification/Caching.v ===== *)
(** The invariant of the caching promises: what oplocks and leases promise, who
    waits on a break, and who may hold what beside whom.  The operations of
    [oplock.go], [lease.go] and [openindex.go] are shown to keep it, one lemma an
    operation; [CachingSteps] turns them into a transition system. *)
From S2P Require Import Prelude Smb2Const Chan ServerState Paths OpenIndex Lease Oplock.

(** ** Who owns a break channel *)

Abbreviation owner := (openId + leaseId)%type.

Definition owner_chan (s : server) (w : owner) : option chan :=
  match w with
  | inl o => opens s !! o ≫= fun op => oplockBreak (op_oplock op)
  | inr l => leases s !! l ≫= breakDone
  end.
#[global] Arguments owner_chan : simpl never.

(** Every channel a break hands out is open while the break is in flight, belongs
    to that break alone, and no channel is left open without a break to close it. *)
Definition chan_disc (f : owner -> option chan) (cs : chans) : Prop :=
  chans_wf cs /\
  (forall w c, f w = Some c -> chan_open cs c) /\
  (forall w w' c, f w = Some c -> f w' = Some c -> w = w') /\
  (forall c, chan_open cs c -> exists w, f w = Some c).

Definition upd (f : owner -> option chan) (w : owner) (v : option chan) : owner -> option chan :=
  fun w' => if decide (w' = w) then v else f w'.

Section disc.
Context (f : owner -> option chan) (cs : chans).
Hypothesis Hd : chan_disc f cs.

Lemma disc_ext g : (forall w, g w = f w) -> chan_disc g cs.
Proof using Hd.
  intros He. destruct Hd as (H1 & H2 & H3 & H4). split_and!; [done| | |].
  - intros w c. rewrite He. apply H2.
  - intros w w' c. rewrite !He. apply H3.
  - intros c Hc. destruct (H4 c Hc) as [w Hw]. exists w. by rewrite He.
Qed.

Lemma disc_make w :
  f w = None -> chan_disc (upd f w (Some (make_chan cs).1)) (make_chan cs).2.
Proof using Hd.
  intros Hw. destruct Hd as (H1 & H2 & H3 & H4). unfold upd. split_and!.
  - by apply make_chan_wf.
  - intros w' c. case_decide; subst.
    + intros [= <-]. by apply make_chan_open.
    + intros Hc%H2. by apply make_chan_mono.
  - intros w1 w2 c. do 2 case_decide; subst; [done|..].
    + intros [= <-] Hc%H2. by destruct (make_chan_fresh _ _ Hc).
    + intros Hc%H2 [= <-]. by destruct (make_chan_fresh _ _ Hc).
    + apply H3.
  - intros c [Hlt Hc]. simpl in Hlt, Hc. destruct (decide (c = next_chan cs)) as [->|].
    + exists w. by rewrite decide_True.
    + destruct (H4 c) as [w' Hw']; [split; [lia|done]|]. exists w'. rewrite decide_False; [done|].
      intros ->. by rewrite Hw in Hw'.
Qed.

Lemma disc_close w c :
  f w = Some c ->
  chan_disc (upd f w None) (Chans (next_chan cs) ({[c]} ∪ closed_chans cs)).
Proof using Hd.
  intros Hw. destruct Hd as (H1 & H2 & H3 & H4). unfold upd. split_and!.
  - intros d. simpl. rewrite elem_of_union, elem_of_singleton. intros [->|?%H1]; [|done].
    apply (H2 w c Hw).
  - intros w' d. case_decide; [done|]. intros Hd'. destruct (H2 _ _ Hd') as [? ?].
    split; simpl; [done|]. rewrite not_elem_of_union, not_elem_of_singleton. split; [|done].
    intros ->. by pose proof (H3 _ _ _ Hw Hd') as ->.
  - intros w1 w2 d. do 2 case_decide; try done. apply H3.
  - intros d [Hlt Hdc]. simpl in *. rewrite not_elem_of_union, not_elem_of_singleton in Hdc.
    destruct Hdc as [Hne Hdc]. destruct (H4 d) as [w' Hw']; [by split|].
    exists w'. rewrite decide_False; [done|]. intros ->. rewrite Hw in Hw'. by simplify_eq.
Qed.

Lemma disc_open w c : f w = Some c -> chan_open cs c.
Proof using Hd. apply Hd. Qed.
End disc.

(** ** One oplock, one lease *)

Definition oplock_ok (k : oplock) : Prop :=
  match oplock_state k with
  | OplockNone => oplockLevel k = OPLOCK_LEVEL_NONE /\ oplockBreak k = None
  | OplockHeld => OPLOCK_LEVEL_NONE < oplockLevel k /\ oplockBreak k = None
  | OplockBreaking =>
      OPLOCK_LEVEL_NONE <= oplockBreakTo k < oplockLevel k /\
      oplockBreakTo k <= OPLOCK_LEVEL_II /\ is_Some (oplockBreak k)
  end.

(** What a lease may keep through a break: no write caching. *)
Definition kept_state (st : Z) : Prop :=
  Z.ldiff st leaseStates = 0 /\ has st SMB2_LEASE_WRITE_CACHING = false.

Definition lease_ok (x : lease) : Prop :=
  Z.ldiff (state x) leaseStates = 0 /\
  if breaking x
  then state x <> SMB2_LEASE_NONE /\ kept_state (breakToState x) /\ is_Some (breakDone x)
  else breakDone x = None.

(** ** What an open is promised *)

Definition lease_state (s : server) (op : open) : Z :=
  match op_lease op ≫= fun l => leases s !! l with Some x => state x | None => SMB2_LEASE_NONE end.

(** More than a read cache. *)
Definition exclusive (s : server) (op : open) : bool :=
  (OPLOCK_LEVEL_II <? oplockLevel (op_oplock op)) || has (lease_state s op) SMB2_LEASE_WRITE_CACHING.
(** Anything at all. *)
Definition promised (s : server) (op : open) : bool :=
  negb (bool_decide (oplock_state (op_oplock op) = OplockNone)) ||
  negb (lease_state s op =? SMB2_LEASE_NONE).

(** Two opens that share a view of the file: one client, or one lease. *)
Definition same_view (op1 op2 : open) : Prop :=
  (clientGuid op1 = clientGuid op2 /\ clientGuid op1 <> 0%N) \/
  (op_lease op1 = op_lease op2 /\ op_lease op1 <> None).

(** A single writer, or any number of readers. *)
Definition swmr (s : server) : Prop :=
  forall k o1 o2 op1 op2,
    indexed s k o1 -> indexed s k o2 -> o1 <> o2 ->
    opens s !! o1 = Some op1 -> opens s !! o2 = Some op2 ->
    ~ same_view op1 op2 -> exclusive s op1 = true -> promised s op2 = false.

(** The invariant.  Everything but the single writer holds of every run; the
    single writer is claimed where [tidy] holds, which stands for what the run has
    kept to so far. *)
Section invariant.
Context {tidy : Prop}.

Record caching_ok (s : server) : Prop := CachingOk {
  co_index : index_ok s;
  co_unique : dfid_unique s;
  co_oplock : forall o op, opens s !! o = Some op -> oplock_ok (op_oplock op);
  co_lease : forall l x, leases s !! l = Some x -> lease_ok x;
  (* an open holds an oplock or shares a lease, not both *)
  co_either : forall o op, opens s !! o = Some op -> is_Some (op_lease op) ->
    oplock_state (op_oplock op) = OplockNone;
  (* the lease an open shares is its client's, and counts the open *)
  co_member : forall o op l, opens s !! o = Some op -> op_lease op = Some l ->
    exists x, leases s !! l = Some x /\ lease_clientGuid x = clientGuid op /\
              lease_opens x !! durableFileID op = Some o;
  (* a lease table holds leases of its client, under their keys *)
  co_table : forall g key l, table_of s g !! key = Some l ->
    exists x, leases s !! l = Some x /\ leaseKey x = key /\ lease_clientGuid x = g;
  co_chans : chan_disc (owner_chan s) (srv_chans s);
  co_swmr : tidy -> swmr s;
}.

(** ** The promises can only shrink

    What every break, release and acknowledgment has in common. *)
Lemma exclusive_promised s o op :
  oplock_ok (op_oplock op) -> opens s !! o = Some op -> exclusive s op = true -> promised s op = true.
Proof.
  unfold exclusive, promised, oplock_ok. intros Hk _ [H|H]%orb_prop.
  - apply Z.ltb_lt in H. destruct (oplock_state (op_oplock op)); [|done..].
    destruct Hk as [Hk _]. rewrite Hk in H. by vm_compute in H.
  - apply orb_true_iff. right. destruct (Z.eqb_spec (lease_state s op) SMB2_LEASE_NONE) as [He|]; [|done].
    rewrite He in H. done.
Qed.

Definition shrinks (s s' : server) : Prop :=
  (forall k o, indexed s' k o -> indexed s k o) /\
  forall o op', opens s' !! o = Some op' -> exists op, opens s !! o = Some op /\
    clientGuid op' = clientGuid op /\
    (exclusive s' op' = true -> exclusive s op = true) /\
    (promised s' op' = true -> promised s op = true /\ op_lease op' = op_lease op).

Lemma swmr_shrinks s s' :
  (forall o op, opens s' !! o = Some op -> oplock_ok (op_oplock op)) ->
  shrinks s s' -> swmr s -> swmr s'.
Proof.
  intros Hok [Hi Ho] Hs k o1 o2 op1' op2' I1 I2 Hn E1 E2 Hv Hx.
  destruct (Ho _ _ E1) as (op1 & F1 & G1 & X1 & P1). destruct (Ho _ _ E2) as (op2 & F2 & G2 & _ & P2).
  apply not_true_is_false. intros Hp. specialize (X1 Hx). destruct (P2 Hp) as [Hp2 L2].
  destruct P1 as [_ L1]; [by eapply exclusive_promised; eauto|].
  rewrite (Hs k o1 o2 op1 op2) in Hp2; [done|auto..]. intros [[? ?]|[? ?]]; apply Hv.
  - left. split; congruence.
  - right. split; congruence.
Qed.

(** ** Changing one oplock *)

Lemma alter_insert_eq {K A} `{Countable K} (f : A -> A) (m : gmap K A) i x :
  m !! i = Some x -> alter f i m = <[i := f x]> m.
Proof.
  intros Hx. apply map_eq. intros j. destruct (decide (i = j)) as [<-|].
  - by rewrite lookup_alter_eq, lookup_insert_eq, Hx.
  - by rewrite lookup_alter_ne, lookup_insert_ne.
Qed.

Definition with_oplock (s : server) (o : openId) (op : open) (k : oplock) (cs : chans) : server :=
  set_chans cs (set_opens (<[o := set_oplock k op]> (opens s)) s).

(** An open updated in place: its index entries stand. *)
Lemma index_ok_insert s s' o op op' :
  index_ok s -> opens s !! o = Some op ->
  opens s' = <[o := op']> (opens s) -> opensByFile s' = opensByFile s ->
  fileKeyLocked op' = fileKeyLocked op -> durableFileID op' = durableFileID op ->
  index_ok s'.
Proof.
  intros Hok Ho Hop Hb Hk Hd k b. rewrite Hb. intros Hkb. destruct (Hok k b Hkb) as [H1 H2].
  split; [done|]. intros d o' (op1 & E & ? & ?)%H2. unfold entry_ok. rewrite Hop.
  destruct (decide (o = o')) as [<-|].
  - rewrite lookup_insert_eq. rewrite Ho in E. injection E as <-. exists op'. by rewrite Hk, Hd.
  - rewrite lookup_insert_ne by done. eauto.
Qed.
Lemma dfid_unique_insert s s' o op op' :
  dfid_unique s -> opens s !! o = Some op ->
  opens s' = <[o := op']> (opens s) -> durableFileID op' = durableFileID op -> dfid_unique s'.
Proof.
  intros Hu Ho Hop Hd o1 o2 op1 op2. rewrite Hop, !lookup_insert_Some.
  intros [[<- <-]|[? E1]] [[<- <-]|[? E2]] Heq; [done|..].
  - rewrite Hd in Heq. by eapply Hu.
  - rewrite Hd in Heq. by eapply Hu.
  - by eapply Hu.
Qed.
Lemma indexed_ext s s' k o : opensByFile s' = opensByFile s -> indexed s' k o <-> indexed s k o.
Proof. intros H. unfold indexed, bucket_of. by rewrite H. Qed.

Lemma owner_with_oplock s o op k cs w :
  owner_chan (with_oplock s o op k cs) w = upd (owner_chan s) (inl o) (oplockBreak k) w.
Proof.
  unfold upd, owner_chan. destruct w as [o'|l]; simpl; [|done].
  case_decide; simplify_eq; [by rewrite lookup_insert_eq|].
  rewrite lookup_insert_ne by congruence. done.
Qed.

Section with_oplock.
Context (s : server) (o : openId) (op : open) (k : oplock) (cs : chans).
Hypothesis Hok : caching_ok s.
Hypothesis Ho : opens s !! o = Some op.
Hypothesis Hk : oplock_ok k.
Hypothesis Hc : chan_disc (upd (owner_chan s) (inl o) (oplockBreak k)) cs.

(** Everything but the exclusion carries over to a new oplock that an open
    sharing a lease is not given. *)
Lemma with_oplock_ok :
  (is_Some (op_lease op) -> oplock_state k = OplockNone) ->
  (tidy -> swmr (with_oplock s o op k cs)) ->
  caching_ok (with_oplock s o op k cs).
Proof using Hok Ho Hk Hc.
  intros He Hs. destruct Hok as [A1 A2 A3 A4 A5 A6 A7 _ _].
  constructor; [..|done].
  - by eapply (index_ok_insert s _ o op (set_oplock k op)).
  - by eapply (dfid_unique_insert s _ o op (set_oplock k op)).
  - intros o' op'. simpl. rewrite lookup_insert_Some. intros [[<- <-]|[_ E]]; [done|by eapply A3].
  - done.
  - intros o' op'. simpl. rewrite lookup_insert_Some. intros [[<- <-]|[_ E]]; [done|by eapply A5].
  - intros o' op' l. simpl. rewrite lookup_insert_Some. intros [[<- <-]|[_ E]]; [|by eapply A6].
    intros Hl. by apply (A6 o op l).
  - done.
  - eapply disc_ext; [exact Hc|]. intros w. apply owner_with_oplock.
Qed.

(** A weaker oplock: the exclusion carries over as well. *)
Lemma with_oplock_weaker :
  (oplock_state k <> OplockNone -> oplock_state (op_oplock op) <> OplockNone) ->
  (OPLOCK_LEVEL_II < oplockLevel k -> OPLOCK_LEVEL_II < oplockLevel (op_oplock op)) ->
  caching_ok (with_oplock s o op k cs).
Proof using Hok Ho Hk Hc.
  intros H1 H2. pose proof Hok as [A1 A2 A3 A4 A5 A6 A7 _ A9].
  apply with_oplock_ok.
  - intros Hl. apply (A5 _ _ Ho) in Hl. destruct (decide (oplock_state k = OplockNone)) as [|Hn]; [done|].
    by apply H1 in Hn.
  - intros Htidy. eapply swmr_shrinks; [|split|exact (A9 Htidy)].
    + intros o' op'. simpl. rewrite lookup_insert_Some. intros [[<- <-]|[_ E]]; [done|by eapply A3].
    + intros. by eapply indexed_ext.
    + intros o' op'. simpl. rewrite lookup_insert_Some. intros [[<- <-]|[_ E]]; [|by exists op'].
      exists op. split_and!; [done|done| |].
      * unfold exclusive, lease_state. simpl. rewrite !orb_true_iff, !Z.ltb_lt. tauto.
      * unfold promised, lease_state. simpl. rewrite !orb_true_iff, !negb_true_iff, !bool_decide_eq_false.
        tauto.
Qed.
End with_oplock.

(** ** The operations on an oplock *)

Lemma owner_open s o op : opens s !! o = Some op -> owner_chan s (inl o) = oplockBreak (op_oplock op).
Proof. intros Ho. unfold owner_chan. by rewrite Ho. Qed.

Lemma startOplockBreak_ok s o op to :
  caching_ok s -> opens s !! o = Some op -> OPLOCK_LEVEL_NONE <= to <= OPLOCK_LEVEL_II ->
  wp (startOplockBreak o to) s (fun r s' =>
    caching_ok s' /\ leases s' = leases s /\ dom (opens s') = dom (opens s) /\
    (forall c, r.1 = Some c -> owner_chan s' (inl o) = Some c)).
Proof.
  intros Hok Ho Hto. unfold startOplockBreak. apply wp_bind. eapply wp_getOpen; [done|].
  pose proof (co_oplock _ Hok _ _ Ho) as Hk. pose proof (co_chans _ Hok) as Hch.
  pose proof (owner_open _ _ _ Ho) as Hw. unfold oplock_ok in Hk.
  destruct (oplock_state (op_oplock op)) eqn:Hst.
  - apply wp_ret. by split_and!.
  - rewrite Z.geb_leb. destruct (Z.leb_spec (oplockLevel (op_oplock op)) to); [by apply wp_ret; split_and!|].
    destruct Hk as [Hlv Hb]. apply wp_bind, wp_mkChan. apply wp_bind, wp_modOpen, wp_ret.
    simpl. rewrite (alter_insert_eq _ _ _ op) by done.
    set (k := Oplock _ _ _ _ _). set (cs := Chans _ _).
    change (set_opens _ _) with (with_oplock s o op k cs). split_and!; [|done| |].
    + apply with_oplock_weaker; [done|done|unfold oplock_ok; simpl; split_and!; [lia..|eauto]
        |apply (disc_make _ _ Hch); congruence|by rewrite Hst|done].
    + simpl. rewrite dom_insert_L. apply (elem_of_dom_2) in Ho. set_solver.
    + intros c [= <-]. by rewrite owner_with_oplock; unfold upd; rewrite decide_True.
  - rewrite Z.geb_leb. destruct (Z.leb_spec (oplockBreakTo (op_oplock op)) to).
    { apply wp_ret. split_and!; [done..|]. by rewrite Hw. }
    destruct Hk as (Hlv & Hto' & Hb). apply wp_bind, wp_modOpen, wp_ret.
    simpl. rewrite (alter_insert_eq _ _ _ op) by done.
    set (k := Oplock _ _ _ _ _).
    assert (set_opens (<[o := set_oplock k op]> (opens s)) s = with_oplock s o op k (srv_chans s)) as ->
      by (by destruct s). split_and!; [|done| |].
    + apply with_oplock_weaker; [done|done| | |by rewrite Hst|done].
      * unfold oplock_ok. simpl. rewrite Hst. split_and!; [lia..|done].
      * eapply disc_ext; [exact Hch|]. intros w. unfold upd. case_decide; [|done]. subst. by rewrite Hw.
    + simpl. rewrite dom_insert_L. apply (elem_of_dom_2) in Ho. set_solver.
    + intros c Hc. rewrite owner_with_oplock. unfold upd. by rewrite decide_True.
Qed.

Lemma dom_with_oplock s o op k cs :
  opens s !! o = Some op -> dom (opens (with_oplock s o op k cs)) = dom (opens s).
Proof. intros Ho%elem_of_dom_2. simpl. rewrite dom_insert_L. set_solver. Qed.

(** Ending a break: the state it leaves, in full. *)
Lemma finishOplockBreak_run s o op c level :
  chan_disc (owner_chan s) (srv_chans s) ->
  opens s !! o = Some op -> oplock_state (op_oplock op) = OplockBreaking ->
  oplockBreak (op_oplock op) = Some c ->
  finishOplockBreak o level s =
  Ok (true, with_oplock s o op
    (Oplock level (if level =? OPLOCK_LEVEL_NONE then OplockNone else OplockHeld)
       (oplockBreakTo (op_oplock op)) None (oplockBreakSeq (op_oplock op)))
    (Chans (next_chan (srv_chans s)) ({[c]} ∪ closed_chans (srv_chans s)))).
Proof.
  intros Hd Ho Hst Hc. unfold finishOplockBreak, mbind, M_bind, getOpen, deref.
  rewrite Ho, Hst, Hc. unfold closeChan. rewrite close_chan_Ok.
  - unfold modOplock, modOpen, modify, mret, M_ret. simpl.
    rewrite (alter_insert_eq _ _ _ op) by done. done.
  - eapply disc_open; [done|]. rewrite (owner_open _ _ _ Ho). exact Hc.
Qed.

Lemma finishOplockBreak_ok s o op level :
  caching_ok s -> opens s !! o = Some op -> OPLOCK_LEVEL_NONE <= level <= OPLOCK_LEVEL_II ->
  wp (finishOplockBreak o level) s (fun r s' =>
    caching_ok s' /\ leases s' = leases s /\ dom (opens s') = dom (opens s)).
Proof.
  intros Hok Ho Hl. pose proof (co_oplock _ Hok _ _ Ho) as Hk. pose proof (co_chans _ Hok) as Hch.
  destruct (decide (oplock_state (op_oplock op) = OplockBreaking)) as [Hst|Hst].
  - unfold oplock_ok in Hk. rewrite Hst in Hk. destruct Hk as (H1 & H2 & [c Hc]).
    apply wp_run. do 2 eexists. split; [by apply (finishOplockBreak_run s o op c)|].
    split_and!; [|done|by apply dom_with_oplock].
    apply with_oplock_weaker; [done|done| | |by rewrite Hst|simpl; unfold OPLOCK_LEVEL_II in *; lia].
    + unfold oplock_ok. simpl. destruct (Z.eqb_spec level OPLOCK_LEVEL_NONE); [done|].
      split; [lia|done].
    + apply disc_close; [done|]. rewrite (owner_open _ _ _ Ho). exact Hc.
  - unfold finishOplockBreak. apply wp_bind. eapply wp_getOpen; [done|].
    destruct (oplock_state (op_oplock op)); [by apply wp_ret|by apply wp_ret|done].
Qed.

Lemma releaseOplock_ok s o op :
  caching_ok s -> opens s !! o = Some op ->
  wp (releaseOplock o) s (fun _ s' =>
    caching_ok s' /\ leases s' = leases s /\ dom (opens s') = dom (opens s) /\
    exists k, opens s' !! o = Some (set_oplock k op) /\ oplock_state k = OplockNone /\
              oplockLevel k = OPLOCK_LEVEL_NONE).
Proof.
  intros Hok Ho. pose proof (co_oplock _ Hok _ _ Ho) as Hk. pose proof (co_chans _ Hok) as Hch.
  unfold releaseOplock. apply wp_bind. eapply wp_getOpen; [done|].
  apply wp_bind, wp_modOpen. rewrite (alter_insert_eq _ _ _ op) by done.
  destruct (oplockBreak (op_oplock op)) as [c|] eqn:Hc.
  - apply wp_bind. apply wp_closeChan; [eapply disc_open; [done|by rewrite (owner_open _ _ _ Ho)]|].
    apply wp_modOpen. simpl. rewrite (alter_insert_eq _ _ _ (set_oplock (Oplock OPLOCK_LEVEL_NONE OplockNone
      (oplockBreakTo (op_oplock op)) (Some c) (oplockBreakSeq (op_oplock op))) op))
      by (by rewrite lookup_insert_eq).
    rewrite insert_insert_eq. simpl.
    set (k := Oplock _ _ _ None _). set (cs := Chans _ _).
    change (set_opens _ _) with (with_oplock s o op k cs). split_and!; [|done|by apply (dom_with_oplock s o op k cs)|].
    + apply with_oplock_weaker; [done|done|done| |done|done].
      apply disc_close; [done|]. by rewrite (owner_open _ _ _ Ho).
    + exists k. simpl. by rewrite lookup_insert_eq.
  - apply wp_ret. set (k := Oplock _ _ _ _ _).
    assert (set_opens (<[o := set_oplock k op]> (opens s)) s = with_oplock s o op k (srv_chans s)) as ->
      by (by destruct s). split_and!; [|done|by apply (dom_with_oplock s o op k (srv_chans s))|].
    + apply with_oplock_weaker; [done|done|done| |done|done].
      eapply disc_ext; [exact Hch|]. intros w. unfold upd. case_decide; [|done]. subst.
      by rewrite (owner_open _ _ _ Ho).
    + exists k. simpl. by rewrite lookup_insert_eq.
Qed.

(** ** Changing one lease *)

Definition with_lease (s : server) (l : leaseId) (x : lease) (cs : chans) : server :=
  set_chans cs (set_leases (<[l := x]> (leases s)) s).

Lemma owner_with_lease s l x cs w :
  owner_chan (with_lease s l x cs) w = upd (owner_chan s) (inr l) (breakDone x) w.
Proof.
  unfold upd, owner_chan. destruct w as [o|l']; simpl; [done|].
  case_decide; simplify_eq; [by rewrite lookup_insert_eq|].
  by rewrite lookup_insert_ne by congruence.
Qed.
Lemma owner_lease s l x : leases s !! l = Some x -> owner_chan s (inr l) = breakDone x.
Proof. intros Hl. unfold owner_chan. by rewrite Hl. Qed.

Lemma co_members s l x : caching_ok s -> leases s !! l = Some x ->
  forall o op, opens s !! o = Some op -> op_lease op = Some l ->
    lease_opens x !! durableFileID op = Some o.
Proof.
  intros Hok Hl o op Ho Hol. destruct (co_member _ Hok _ _ _ Ho Hol) as (y & Hy & _ & ?).
  rewrite Hl in Hy. by injection Hy as <-.
Qed.

Section with_lease.
Context (s : server) (l : leaseId) (x x' : lease) (cs : chans).
Hypothesis Hok : caching_ok s.
Hypothesis Hl : leases s !! l = Some x.
Hypothesis Hx : lease_ok x'.
Hypothesis Hkey : leaseKey x' = leaseKey x.
Hypothesis Hguid : lease_clientGuid x' = lease_clientGuid x.
Hypothesis Hopens : forall o op, opens s !! o = Some op -> op_lease op = Some l ->
  lease_opens x' !! durableFileID op = Some o.
Hypothesis Hc : chan_disc (upd (owner_chan s) (inr l) (breakDone x')) cs.

Lemma with_lease_ok :
  (tidy -> swmr (with_lease s l x' cs)) -> caching_ok (with_lease s l x' cs).
Proof using Hok Hl Hx Hkey Hguid Hopens Hc.
  intros Hs. destruct Hok as [A1 A2 A3 A4 A5 A6 A7 _ _]. constructor; [done|done|done|..|done].
  - intros l' y. simpl. rewrite lookup_insert_Some. intros [[<- <-]|[_ E]]; [done|by eapply A4].
  - done.
  - intros o op l' Ho Hol. destruct (A6 o op l' Ho Hol) as (y & H1 & H2 & H3). simpl.
    destruct (decide (l = l')) as [<-|]; [|rewrite lookup_insert_ne by done; eauto].
    rewrite lookup_insert_eq. rewrite Hl in H1. injection H1 as <-. exists x'. rewrite Hguid. eauto.
  - intros g key l' Ht. destruct (A7 g key l' Ht) as (y & H1 & H2 & H3). simpl.
    destruct (decide (l = l')) as [<-|]; [|rewrite lookup_insert_ne by done; eauto].
    rewrite lookup_insert_eq. rewrite Hl in H1. injection H1 as <-. exists x'. by rewrite Hguid, Hkey.
  - eapply disc_ext; [exact Hc|]. intros w. apply owner_with_lease.
Qed.

Lemma lease_state_with op :
  lease_state (with_lease s l x' cs) op =
  if decide (op_lease op = Some l) then state x' else lease_state s op.
Proof.
  unfold lease_state. simpl. destruct (op_lease op) as [l'|]; simpl; [|done].
  case_decide; simplify_eq; [by rewrite lookup_insert_eq|].
  by rewrite lookup_insert_ne by congruence.
Qed.
Lemma lease_state_here op : op_lease op = Some l -> lease_state s op = state x.
Proof using Hl. intros He. unfold lease_state. rewrite He. simpl. by rewrite Hl. Qed.

Lemma with_lease_weaker :
  (state x' <> SMB2_LEASE_NONE -> state x <> SMB2_LEASE_NONE) ->
  (has (state x') SMB2_LEASE_WRITE_CACHING = true -> has (state x) SMB2_LEASE_WRITE_CACHING = true) ->
  caching_ok (with_lease s l x' cs).
Proof using Hok Hl Hx Hkey Hguid Hopens Hc.
  intros H1 H2. apply with_lease_ok. pose proof Hok as [A1 A2 A3 _ _ _ _ _ A9].
  intros Htidy. apply (swmr_shrinks s); [exact A3|split; [done|]|exact (A9 Htidy)].
  intros o op Ho. exists op. split_and!; [done|done| |].
  - unfold exclusive. rewrite lease_state_with. case_decide as He; [|done].
    rewrite (lease_state_here _ He), !orb_true_iff. tauto.
  - intros Hp. split; [|done]. revert Hp.
    unfold promised. rewrite lease_state_with. case_decide as He; [|done].
    rewrite (lease_state_here _ He), !orb_true_iff, !(negb_true_iff (_ =? _)), !Z.eqb_neq. tauto.
Qed.
End with_lease.

Lemma dom_with_lease s l x x' cs :
  leases s !! l = Some x -> dom (leases (with_lease s l x' cs)) = dom (leases s).
Proof. intros Hl%elem_of_dom_2. simpl. rewrite dom_insert_L. set_solver. Qed.

Lemma ldiff_land_r a b : Z.ldiff (Z.land a b) b = 0.
Proof.
  apply Z.bits_inj'. intros i Hi. rewrite Z.ldiff_spec, Z.land_spec, Z.bits_0.
  by destruct (Z.testbit a i), (Z.testbit b i).
Qed.
Lemma kept_state_none : kept_state SMB2_LEASE_NONE.
Proof. done. Qed.
Lemma kept_state_land a b : kept_state a -> kept_state (Z.land a b).
Proof.
  unfold kept_state. rewrite !has_false. intros [H1 H2]. split.
  - apply Z.bits_inj'. intros i Hi. apply (f_equal (fun z => Z.testbit z i)) in H1.
    rewrite Z.ldiff_spec, Z.bits_0 in *. rewrite Z.land_spec.
    by destruct (Z.testbit a i), (Z.testbit b i), (Z.testbit leaseStates i).
  - apply Z.bits_inj'. intros i Hi. apply (f_equal (fun z => Z.testbit z i)) in H2.
    rewrite Z.land_spec, Z.bits_0 in *. rewrite Z.land_spec.
    by destruct (Z.testbit a i), (Z.testbit b i), (Z.testbit SMB2_LEASE_WRITE_CACHING i).
Qed.
(** The target of a break keeps no write caching. *)
Lemma kept_state_target st sharedOK :
  Z.ldiff st leaseStates = 0 -> kept_state (leaseBreakTarget st sharedOK).
Proof.
  intros H1. destruct sharedOK; [|done]. unfold kept_state, leaseBreakTarget. rewrite has_false. split.
  - apply Z.bits_inj'. intros i Hi. apply (f_equal (fun z => Z.testbit z i)) in H1.
    rewrite !Z.ldiff_spec, Z.bits_0 in *.
    by destruct (Z.testbit st i), (Z.testbit leaseStates i), (Z.testbit SMB2_LEASE_WRITE_CACHING i).
  - apply Z.bits_inj'. intros i Hi. rewrite Z.land_spec, Z.ldiff_spec, Z.bits_0.
    by destruct (Z.testbit st i), (Z.testbit SMB2_LEASE_WRITE_CACHING i).
Qed.

(** ** The operations on a lease *)

Lemma startBreak_ok s l x to :
  caching_ok s -> leases s !! l = Some x -> kept_state to ->
  wp (startBreak l to) s (fun r s' =>
    caching_ok s' /\ opens s' = opens s /\ dom (leases s') = dom (leases s) /\
    (forall c, r.1 = Some c -> owner_chan s' (inr l) = Some c)).
Proof.
  intros Hok Hl Hto. unfold startBreak. apply wp_bind. eapply wp_getLease; [done|].
  pose proof (co_lease _ Hok _ _ Hl) as [Hst Hx]. pose proof (co_chans _ Hok) as Hch.
  pose proof (owner_lease _ _ _ Hl) as Hw.
  destruct ((state x =? SMB2_LEASE_NONE) || _) eqn:Hn; [by apply wp_ret|].
  apply orb_false_iff in Hn as [Hn%Z.eqb_neq _].
  destruct (breaking x) eqn:Hb.
  - destruct (_ =? 0); [apply wp_ret; split_and!; [done..|]; by rewrite Hw|].
    destruct Hx as (_ & Hk & Hdone).
    apply wp_bind, wp_modLease, wp_ret. rewrite (alter_insert_eq _ _ _ x) by done.
    set (x' := lease_set_break _ _ _ _ _ x).
    assert (set_leases (<[l := x']> (leases s)) s = with_lease s l x' (srv_chans s)) as -> by (by destruct s).
    split_and!; [|done|by eapply dom_with_lease|].
    + eapply (with_lease_weaker s l x x'); try done; try exact (co_members s l x Hok Hl).
      * split; [done|]. simpl. split_and!; [done|by apply kept_state_land|done].
      * eapply disc_ext; [exact Hch|]. intros w. unfold upd. case_decide; [|done]. subst. by rewrite Hw.
    + intros c Hc. rewrite owner_with_lease. unfold upd. by rewrite decide_True.
  - apply wp_bind, wp_mkChan. apply wp_bind, wp_modLease, wp_ret. simpl.
    rewrite (alter_insert_eq _ _ _ x) by done.
    set (x' := lease_set_break _ _ _ _ _ x). set (cs := Chans _ _).
    change (set_leases _ _) with (with_lease s l x' cs).
    split_and!; [|done|by eapply (dom_with_lease s l x x' cs)|].
    + eapply (with_lease_weaker s l x x'); try done; try exact (co_members s l x Hok Hl).
      apply (disc_make _ _ Hch). congruence.
    + intros c [= <-]. rewrite owner_with_lease. unfold upd. by rewrite decide_True.
Qed.

Lemma finishBreak_run s l x c st :
  chan_disc (owner_chan s) (srv_chans s) ->
  leases s !! l = Some x -> breaking x = true -> breakDone x = Some c ->
  finishBreak l st s =
  Ok (true, with_lease s l
    (lease_set_break (breakToState x) false (epoch x) None (breakSeq x) (lease_set_state st x))
    (Chans (next_chan (srv_chans s)) ({[c]} ∪ closed_chans (srv_chans s)))).
Proof.
  intros Hd Hl Hb Hc. apply wp_eq. unfold finishBreak. apply wp_bind. eapply wp_getLease; [done|].
  rewrite Hb, Hc. apply wp_bind, wp_modLease, wp_bind, wp_closeChan.
  - eapply disc_open; [done|]. by rewrite (owner_lease _ _ _ Hl).
  - apply wp_bind, wp_modLease, wp_ret. simpl. rewrite (alter_insert_eq _ (leases s) _ x) by done.
    rewrite (alter_insert_eq _ _ _ (lease_set_state st x)) by (by rewrite lookup_insert_eq).
    by rewrite insert_insert_eq.
Qed.

Lemma finishBreak_ok s l x st :
  caching_ok s -> leases s !! l = Some x -> kept_state st ->
  wp (finishBreak l st) s (fun r s' =>
    caching_ok s' /\ opens s' = opens s /\ dom (leases s') = dom (leases s)).
Proof.
  intros Hok Hl [Hs1 Hs2]. pose proof (co_lease _ Hok _ _ Hl) as [Hst Hx]. pose proof (co_chans _ Hok) as Hch.
  destruct (breaking x) eqn:Hb.
  - destruct Hx as (Hn & Hk & [c Hc]). apply wp_run. do 2 eexists.
    split; [by apply (finishBreak_run s l x c)|].
    split_and!; [|done|by eapply dom_with_lease].
    eapply (with_lease_weaker s l x); try done; try exact (co_members s l x Hok Hl).
    + apply disc_close; [done|]. by rewrite (owner_lease _ _ _ Hl).
    + simpl. by rewrite Hs2.
  - unfold finishBreak. apply wp_bind. eapply wp_getLease; [done|]. rewrite Hb. by apply wp_ret.
Qed.

(** ** The loops over the holders of a file *)

Lemma startBreaks_ok s os to :
  caching_ok s -> OPLOCK_LEVEL_NONE <= to <= OPLOCK_LEVEL_II ->
  (forall o, o ∈ os -> o ∈ dom (opens s)) ->
  wp (startBreaks os to) s (fun r s' =>
    caching_ok s' /\ leases s' = leases s /\ dom (opens s') = dom (opens s)).
Proof.
  intros Hok Hto. revert s Hok. induction os as [|o os IH]; intros s Hok Hin; simpl; [by apply wp_ret|].
  apply wp_bind. pose proof (Hin o ltac:(left)) as [op Ho]%elem_of_dom.
  eapply wp_mono; [|by eapply startOplockBreak_ok]. intros [ch started] s1 (Hok1 & Hl1 & Hd1 & _).
  apply wp_bind. eapply wp_mono; [|apply IH; [done|]].
  - intros [w n] s2 (Hok2 & Hl2 & Hd2). apply wp_ret. split_and!; [done|congruence|congruence].
  - intros o' Ho'. rewrite Hd1. apply Hin. by right.
Qed.

Lemma startLeaseBreaks_ok s ls sharedOK :
  caching_ok s -> (forall l, l ∈ ls -> l ∈ dom (leases s)) ->
  wp (startLeaseBreaks ls sharedOK) s (fun r s' =>
    caching_ok s' /\ opens s' = opens s /\ dom (leases s') = dom (leases s)).
Proof.
  intros Hok. revert s Hok. induction ls as [|l ls IH]; intros s Hok Hin; simpl; [by apply wp_ret|].
  pose proof (Hin l ltac:(left)) as [x Hx]%elem_of_dom.
  apply wp_bind, wp_bind. eapply wp_getLease; [done|]. apply wp_ret, wp_bind.
  eapply wp_mono; [|eapply startBreak_ok; [done..|]].
  - intros [ch started] s1 (Hok1 & Hl1 & Hd1 & _). apply wp_bind. eapply wp_mono; [|apply IH; [done|]].
    + intros [w n] s2 (Hok2 & Hl2 & Hd2). apply wp_ret. split_and!; [done|congruence|congruence].
    + intros l' Hl'. rewrite Hd1. apply Hin. by right.
  - apply kept_state_target. apply (co_lease _ Hok _ _ Hx).
Qed.

(** ** Leaving a lease *)

Definition without_lease (s : server) (o : openId) (op : open) : server :=
  set_opens (<[o := set_op_lease None op]> (opens s)) s.

Lemma without_lease_ok s o op :
  caching_ok s -> opens s !! o = Some op -> caching_ok (without_lease s o op).
Proof.
  intros Hok Ho. pose proof Hok as [A1 A2 A3 A4 A5 A6 A7 A8 A9]. constructor.
  - by eapply (index_ok_insert s _ o op (set_op_lease None op)).
  - by eapply (dfid_unique_insert s _ o op (set_op_lease None op)).
  - intros o' op'. simpl. rewrite lookup_insert_Some. intros [[<- <-]|[_ E]]; [by apply (A3 o op)|by eapply A3].
  - done.
  - intros o' op'. simpl. rewrite lookup_insert_Some. intros [[<- <-]|[_ E]]; [by intros [? ?]|by eapply A5].
  - intros o' op' l. simpl. rewrite lookup_insert_Some. intros [[<- <-]|[_ E]]; [done|by eapply A6].
  - done.
  - eapply disc_ext; [exact A8|]. intros [o'|l]; unfold owner_chan; simpl; [|done].
    destruct (decide (o = o')) as [<-|]; [by rewrite lookup_insert_eq, Ho|by rewrite lookup_insert_ne].
  - intros Htidy. apply (swmr_shrinks s); [|split|exact (A9 Htidy)].
    + intros o' op'. simpl. rewrite lookup_insert_Some. intros [[<- <-]|[_ E]]; [by apply (A3 o op)|by eapply A3].
    + intros. by eapply indexed_ext.
    + intros o' op'. simpl. rewrite lookup_insert_Some. intros [[<- <-]|[_ E]]; [|by exists op'].
      exists op. split_and!; [done|done| |].
      * unfold exclusive. simpl. rewrite !orb_true_iff. intros [?|H]; [by left|done].
      * intros Hp. assert (oplock_state (op_oplock op) <> OplockNone) as Hn.
        { unfold promised in Hp. simpl in Hp. rewrite orb_false_r in Hp.
          by apply negb_true_iff, bool_decide_eq_false in Hp. }
        split.
        -- unfold promised. apply orb_true_iff. left. by apply negb_true_iff, bool_decide_eq_false.
        -- simpl. destruct (op_lease op) eqn:Hl; [|done]. destruct Hn. apply (A5 o op Ho). rewrite Hl. eauto.
Qed.

(** A change of the lease tables that keeps their entries honest. *)
Lemma caching_ok_tables s m :
  caching_ok s ->
  (forall g key l, default ∅ (m !! g) !! key = Some l ->
     exists x, leases s !! l = Some x /\ leaseKey x = key /\ lease_clientGuid x = g) ->
  caching_ok (set_tables m s).
Proof. intros [A1 A2 A3 A4 A5 A6 A7 A8 A9] Hm. by constructor. Qed.

Lemma leaseTableFor_ok s g :
  caching_ok s ->
  wp (leaseTableFor g) s (fun r s' =>
    r = g /\ caching_ok s' /\ leases s' = leases s /\ opens s' = opens s /\ srv_chans s' = srv_chans s /\
    opensByFile s' = opensByFile s /\
    (forall g', table_of s' g' = table_of s g')).
Proof.
  intros Hok. unfold leaseTableFor. apply wp_bind, wp_modify, wp_ret.
  destruct (globalLeaseTableList s !! g) eqn:Hg; [by split_and!|].
  assert (forall g', default ∅ (<[g := ∅]> (globalLeaseTableList s) !! g') = table_of s g') as Ht.
  { intros g'. unfold table_of. destruct (decide (g = g')) as [<-|].
    - by rewrite lookup_insert_eq, Hg.
    - by rewrite lookup_insert_ne. }
  split_and!; [done| |done..|exact Ht]. apply caching_ok_tables; [done|].
  intros g' key l. rewrite Ht. by apply co_table.
Qed.

Lemma table_delete_ok s g key :
  caching_ok s ->
  wp (table_delete g key) s (fun _ s' =>
    caching_ok s' /\ opens s' = opens s /\ leases s' = leases s).
Proof.
  intros Hok. apply wp_modify. split_and!; [|done..]. apply caching_ok_tables; [done|].
  intros g' key' l. destruct (decide (g = g')) as [<-|].
  - rewrite lookup_insert_eq. simpl. rewrite lookup_delete_Some. intros [_ Hk]. by apply (co_table s Hok).
  - rewrite lookup_insert_ne by done. by apply (co_table s Hok).
Qed.
Lemma table_set_ok s g key l x :
  caching_ok s -> leases s !! l = Some x -> leaseKey x = key -> lease_clientGuid x = g ->
  wp (table_set g key l) s (fun _ s' =>
    caching_ok s' /\ opens s' = opens s /\ leases s' = leases s /\ srv_chans s' = srv_chans s /\
    opensByFile s' = opensByFile s).
Proof.
  intros Hok Hl Hk Hg. apply wp_modify. split_and!; [|done..]. apply caching_ok_tables; [done|].
  intros g' key' l'. destruct (decide (g = g')) as [<-|].
  - rewrite lookup_insert_eq. simpl. rewrite lookup_insert_Some. intros [[<- <-]|[_ Ht]]; [eauto|].
    by apply (co_table s Hok).
  - rewrite lookup_insert_ne by done. by apply (co_table s Hok).
Qed.

Lemma set_leases_with_lease s l x : set_leases (<[l := x]> (leases s)) s = with_lease s l x (srv_chans s).
Proof. by destruct s. Qed.
Lemma disc_same s w v :
  chan_disc (owner_chan s) (srv_chans s) -> owner_chan s w = v ->
  chan_disc (upd (owner_chan s) w v) (srv_chans s).
Proof. intros Hd <-. eapply disc_ext; [exact Hd|]. intros w'. unfold upd. by case_decide; subst. Qed.

Lemma retireLease_ok s l x :
  caching_ok s -> leases s !! l = Some x -> lease_opens x = ∅ ->
  wp (retireLease l x) s (fun _ s' => caching_ok s' /\ opens s' = opens s /\ dom (leases s') = dom (leases s)).
Proof.
  intros Hok Hl He. pose proof (co_lease _ Hok _ _ Hl) as [Hst Hx]. pose proof (co_chans _ Hok) as Hch.
  pose proof (owner_lease _ _ _ Hl) as Hw.
  assert (forall x', lease_ok x' -> leaseKey x' = leaseKey x -> lease_clientGuid x' = lease_clientGuid x ->
    lease_opens x' = ∅ -> state x' = SMB2_LEASE_NONE -> forall cs,
    chan_disc (upd (owner_chan s) (inr l) (breakDone x')) cs ->
    caching_ok (with_lease s l x' cs) /\ opens (with_lease s l x' cs) = opens s /\
    dom (leases (with_lease s l x' cs)) = dom (leases s)) as Hwl.
  { intros x' H1 H2 H3 H4 H5 cs Hc. split_and!; [|done|by eapply dom_with_lease].
    eapply (with_lease_weaker s l x x'); try done.
    - intros o op Ho Hol. pose proof (co_members s l x Hok Hl o op Ho Hol) as Hm.
      by rewrite He, lookup_empty in Hm.
    - by rewrite H5. }
  unfold retireLease. apply wp_bind, wp_modLease. rewrite (alter_insert_eq _ _ _ x) by done.
  destruct (breaking x) eqn:Hb.
  - destruct Hx as (_ & _ & [c Hc]). rewrite Hc.
    apply wp_bind, wp_closeChan; [eapply disc_open; [done|]; by rewrite Hw|].
    apply wp_modLease. simpl.
    rewrite (alter_insert_eq _ _ _ (lease_set_state SMB2_LEASE_NONE x)) by (by rewrite lookup_insert_eq).
    rewrite insert_insert_eq. apply (Hwl _); try done.
    apply disc_close; [done|by rewrite Hw].
  - apply wp_ret. rewrite set_leases_with_lease. apply (Hwl _); try done.
    + split; [done|]. simpl. by rewrite Hb.
    + apply disc_same; [done|]. by rewrite Hw.
Qed.

Lemma leaveLease_ok s o op :
  caching_ok s -> opens s !! o = Some op ->
  wp (leaveLease o) s (fun _ s' => caching_ok s' /\ opens s' = <[o := set_op_lease None op]> (opens s)).
Proof.
  intros Hok Ho. unfold leaveLease. apply wp_bind. eapply wp_getOpen; [done|].
  apply wp_bind, wp_modOpen. rewrite (alter_insert_eq _ _ _ op) by done.
  pose proof (without_lease_ok s o op Hok Ho) as Hok1.
  change (set_opens _ _) with (without_lease s o op). set (s1 := without_lease s o op) in *.
  destruct (op_lease op) as [l|] eqn:Hol; [|by apply wp_ret].
  destruct (co_member _ Hok _ _ _ Ho Hol) as (x & Hl & Hg & Hm).
  apply wp_bind. eapply (wp_getLease l x); [done|].
  apply wp_bind. eapply wp_mono; [|by apply leaseTableFor_ok].
  intros lt s2 (-> & Hok2 & Hl2 & Ho2 & Hc2 & _ & _).
  assert (leases s2 !! l = Some x) as Hx2 by (by rewrite Hl2).
  apply wp_bind, wp_modLease. rewrite (alter_insert_eq _ _ _ x) by done.
  set (x1 := lease_set_opens _ x). rewrite set_leases_with_lease. set (s3 := with_lease s2 l x1 _).
  assert (caching_ok s3) as Hok3.
  { eapply (with_lease_weaker s2 l x x1); try done.
    - apply (co_lease _ Hok2 _ _ Hx2).
    - intros o' op' Ho' Hol'. simpl. rewrite lookup_delete_ne.
      + by apply (co_members s2 l x Hok2 Hx2).
      + intros Heq. assert (opens s2 !! o = Some (set_op_lease None op)) as Hoo.
        { rewrite Ho2. simpl. by rewrite lookup_insert_eq. }
        assert (o' = o) as -> by (by eapply (co_unique _ Hok2)).
        rewrite Ho' in Hoo. injection Hoo as ->. done.
    - apply disc_same; [apply Hok2|by rewrite (owner_lease _ _ _ Hx2)]. }
  assert (leases s3 !! l = Some x1) as Hx3 by (simpl; by rewrite lookup_insert_eq).
  apply wp_bind. eapply wp_getLease; [done|]. case_decide as He.
  - apply wp_bind. eapply wp_mono; [|by apply (retireLease_ok s3 l x1)].
    intros u s4 (Hok4 & Ho4 & _). apply wp_bind, wp_gets. case_bool_decide.
    + eapply wp_mono; [|by apply table_delete_ok]. intros u' s5 (Hok5 & Ho5 & _).
      split; [done|]. by rewrite Ho5, Ho4.
    + apply wp_ret. split; [done|]. by rewrite Ho4.
  - by apply wp_ret.
Qed.

(** ** The lease table *)

Lemma new_lease_ok s l key g path :
  caching_ok s -> leases s !! l = None ->
  caching_ok (set_leases (<[l := newLease key g path]> (leases s)) s).
Proof.
  intros [A1 A2 A3 A4 A5 A6 A7 A8 A9] Hn.
  assert (forall l' x, leases s !! l' = Some x ->
    <[l := newLease key g path]> (leases s) !! l' = Some x) as Hmono.
  { intros l' x Hx. rewrite lookup_insert_ne; [done|]. intros <-. by rewrite Hn in Hx. }
  assert (forall o op, opens s !! o = Some op ->
    lease_state (set_leases (<[l := newLease key g path]> (leases s)) s) op = lease_state s op) as Hls.
  { intros o op Ho. unfold lease_state. destruct (op_lease op) as [l'|] eqn:Hl; simpl; [|done].
    destruct (A6 _ _ _ Ho Hl) as (x & Hx & _). by rewrite (Hmono _ _ Hx), Hx. }
  constructor; [done|done|done|..].
  - intros l' x. simpl. rewrite lookup_insert_Some. intros [[<- <-]|[_ E]]; [done|by eapply A4].
  - done.
  - intros o op l' Ho Hl. destruct (A6 _ _ _ Ho Hl) as (x & Hx & ?). exists x. split; [|done].
    by apply Hmono.
  - intros g' key' l' Ht. destruct (A7 _ _ _ Ht) as (x & Hx & ?). exists x. split; [|done]. by apply Hmono.
  - eapply disc_ext; [exact A8|]. intros [o|l']; unfold owner_chan; simpl; [done|].
    destruct (decide (l = l')) as [<-|]; [by rewrite lookup_insert_eq, Hn|by rewrite lookup_insert_ne].
  - intros Htidy k o1 o2 op1 op2 I1 I2 Hne E1 E2 Hv. unfold exclusive, promised.
    rewrite (Hls _ _ E1), (Hls _ _ E2). by eapply (A9 Htidy k o1 o2 op1 op2).
Qed.

(** A change of name only. *)
Lemma lease_name_ok s l x path del :
  caching_ok s -> leases s !! l = Some x ->
  wp (modLease l (lease_name path del)) s (fun _ s' =>
    caching_ok s' /\ opens s' = opens s /\ leases s' !! l = Some (lease_name path del x) /\
    globalLeaseTableList s' = globalLeaseTableList s).
Proof.
  intros Hok Hl. apply wp_modLease. rewrite (alter_insert_eq _ _ _ x) by done.
  rewrite set_leases_with_lease. split_and!; [|done|by simpl; rewrite lookup_insert_eq|done].
  eapply (with_lease_weaker s l x); try done; try exact (co_members s l x Hok Hl).
  - apply (co_lease _ Hok _ _ Hl).
  - apply disc_same; [apply Hok|]. by rewrite (owner_lease _ _ _ Hl).
Qed.

Lemma leaseFor_ok s g key path :
  caching_ok s ->
  wp (leaseFor g key path) s (fun r s' =>
    caching_ok s' /\ opens s' = opens s /\
    exists x, leases s' !! r.1 = Some x /\ leaseKey x = key /\ lease_clientGuid x = g /\
              r.2 = String.eqb (lease_fileName x) path /\ table_of s' g !! key = Some r.1).
Proof.
  intros Hok. unfold leaseFor. apply wp_bind. eapply wp_mono; [|by apply leaseTableFor_ok].
  intros lt s1 (-> & Hok1 & Hl1 & Ho1 & Hc1 & _ & Ht1). apply wp_bind, wp_gets.
  destruct (table_of s1 g !! key) as [l|] eqn:Hf.
  - destruct (co_table _ Hok1 _ _ _ Hf) as (x & Hx & Hk & Hg).
    apply wp_bind. eapply wp_getLease; [done|]. apply wp_bind.
    destruct (negb _ && _).
    + eapply wp_mono; [|by apply (lease_name_ok s1 l x path false)].
      intros u s2 (Hok2 & Ho2 & Hx2 & Ht2). apply wp_bind. eapply wp_getLease; [done|]. apply wp_ret.
      split_and!; [done|congruence|]. eexists. split_and!; [done..|].
      unfold table_of. by rewrite Ht2.
    + apply wp_ret, wp_bind. eapply wp_getLease; [done|]. apply wp_ret.
      split_and!; [done|congruence|]. eexists. by split_and!.
  - apply wp_bind, wp_gets, wp_bind, wp_modify. set (l := fresh (dom (leases s1))).
    assert (leases s1 !! l = None) as Hn by apply not_elem_of_dom, is_fresh.
    pose proof (new_lease_ok s1 l key g path Hok1 Hn) as Hok2. set (s2 := set_leases _ s1) in *.
    assert (leases s2 !! l = Some (newLease key g path)) as Hx2 by (simpl; by rewrite lookup_insert_eq).
    apply wp_bind. apply wp_run. do 2 eexists. split; [reflexivity|].
    pose proof (table_set_ok s2 g key l _ Hok2 Hx2 eq_refl eq_refl) as (Hok3 & Ho3 & Hl3 & _).
    apply wp_ret. split_and!; [done|simpl; congruence|]. exists (newLease key g path). split_and!; try done.
    + simpl. by rewrite String.eqb_refl.
    + unfold table_of. simpl. rewrite lookup_insert_eq. simpl. by rewrite lookup_insert_eq.
Qed.

(** ** Looking at the holders *)

Section reading.
Context (s : server).
Hypothesis Hok : caching_ok s.

Lemma getOpen_reads o op : opens s !! o = Some op -> reads (getOpen o) s op.
Proof using. intros Ho. unfold reads, getOpen, deref. by rewrite Ho. Qed.
Lemma getLease_reads l x : leases s !! l = Some x -> reads (getLease l) s x.
Proof using. intros Ho. unfold reads, getLease, deref. by rewrite Ho. Qed.

Lemma sameCacheView_reads o op g :
  opens s !! o = Some op ->
  reads (sameCacheView o g) s (bool_decide (g <> 0%N /\ clientGuid op = g)).
Proof using.
  intros Ho. unfold sameCacheView. case_decide as Hg.
  - rewrite bool_decide_eq_false_2 by tauto. done.
  - eapply reads_bind; [by apply getOpen_reads|].
    apply (f_equal (fun b => Ok (b, s))). apply bool_decide_ext. tauto.
Qed.

Lemma covers_reads b l x :
  leases s !! l = Some x ->
  reads (covers b l) s (bool_decide (by_own b = Some l \/
    (by_keyed b = false /\ by_guid b <> 0%N /\ lease_clientGuid x = by_guid b))).
Proof using.
  intros Hl. unfold covers. case_decide as Ho; [by rewrite bool_decide_eq_true_2 by auto|].
  destruct (by_keyed b); simpl; [rewrite bool_decide_eq_false_2; [done|]; intros [?|[? _]]; done|].
  case_bool_decide as Hg.
  - rewrite bool_decide_eq_false_2; [done|]. intros [?|(_ & ? & _)]; done.
  - eapply reads_bind; [by apply getLease_reads|].
    apply (f_equal (fun b => Ok (b, s))). apply bool_decide_ext. tauto.
Qed.

Lemma elsewhere_reads os g :
  (forall o, o ∈ os -> o ∈ dom (opens s)) ->
  exists l, reads (elsewhere os g) s l /\
    forall o, o ∈ l <-> o ∈ os /\
      forall op, opens s !! o = Some op -> ~ (g <> 0%N /\ clientGuid op = g).
Proof using.
  induction os as [|o os IH]; intros Hin; simpl.
  - exists []. split; [done|]. intros o. split; [by intros ?%not_elem_of_nil|by intros [?%not_elem_of_nil _]].
  - pose proof (Hin o ltac:(left)) as [op Ho]%elem_of_dom.
    destruct IH as (l & Hl & Hm); [intros; apply Hin; by right|].
    eexists. split; [eapply reads_bind; [by eapply sameCacheView_reads|];
      eapply reads_bind; [exact Hl|]; done|].
    intros o'. case_bool_decide as Hv.
    + rewrite Hm. rewrite elem_of_cons. split; [tauto|]. intros [[->|?] Hn]; [|tauto].
      by destruct (Hn op Ho).
    + rewrite !elem_of_cons, Hm. split; [intros [->|?]|tauto]; [|tauto].
      split; [by left|]. intros op' Ho'. rewrite Ho in Ho'. by injection Ho' as <-.
Qed.

Lemma opensOutside_reads os own :
  (forall o, o ∈ os -> o ∈ dom (opens s)) ->
  exists l, reads (opensOutside os (Some own)) s l /\
    forall o, o ∈ l <-> o ∈ os /\ forall op, opens s !! o = Some op -> op_lease op <> Some own.
Proof using.
  induction os as [|o os IH]; intros Hin; simpl.
  - exists []. split; [done|]. intros o. split; [by intros ?%not_elem_of_nil|by intros [?%not_elem_of_nil _]].
  - pose proof (Hin o ltac:(left)) as [op Ho]%elem_of_dom.
    destruct IH as (l & Hl & Hm); [intros; apply Hin; by right|].
    eexists. split; [eapply reads_bind; [by eapply getOpen_reads|];
      eapply reads_bind; [exact Hl|]; done|].
    intros o'. case_bool_decide as Hv.
    + rewrite Hm. rewrite elem_of_cons. split; [tauto|]. intros [[->|?] Hn]; [|tauto].
      by destruct (Hn op Ho).
    + rewrite !elem_of_cons, Hm. split; [intros [->|?]|tauto]; [|tauto].
      split; [by left|]. intros op' Ho'. rewrite Ho in Ho'. by injection Ho' as <-.
Qed.

(** What stands in the way of an asker: every open of the list that holds an
    oplock of another client, and every lease of the list that is not covered. *)
Definition in_the_way (b : asker) (h : list openId * list leaseId) (seen : gset leaseId) (o : openId) : Prop :=
  forall op, opens s !! o = Some op ->
    match op_lease op with
    | None => oplock_state (op_oplock op) <> OplockNone ->
              ~ (by_guid b <> 0%N /\ clientGuid op = by_guid b) -> o ∈ h.1
    | Some l => forall x, leases s !! l = Some x ->
              (state x <> SMB2_LEASE_NONE \/ breaking x = true) ->
              by_own b <> Some l ->
              ~ (by_keyed b = false /\ by_guid b <> 0%N /\ lease_clientGuid x = by_guid b) ->
              l ∈ h.2 \/ l ∈ seen
    end.

Lemma holdersIn_loop_reads os b seen :
  (forall o, o ∈ os -> o ∈ dom (opens s)) ->
  exists h, reads (holdersIn_loop os b seen) s h /\
    (forall o, o ∈ h.1 -> o ∈ dom (opens s)) /\ (forall l, l ∈ h.2 -> l ∈ dom (leases s)) /\
    (forall o, o ∈ os -> in_the_way b h seen o).
Proof using Hok.
  revert seen. induction os as [|o os IH]; intros seen Hin; simpl.
  - exists ([], []). split_and!; [done|..]; intros ? H; by apply not_elem_of_nil in H.
  - pose proof (Hin o ltac:(left)) as [op Ho]%elem_of_dom.
    assert (forall o, o ∈ os -> o ∈ dom (opens s)) as Hin' by (intros; apply Hin; by right).
    destruct (op_lease op) as [l|] eqn:Hol.
    + destruct (co_member _ Hok _ _ _ Ho Hol) as (x & Hx & _).
      pose proof (covers_reads b l x Hx) as Hcov.
      assert (forall h sn, (state x <> SMB2_LEASE_NONE \/ breaking x = true -> by_own b <> Some l ->
        ~ (by_keyed b = false /\ by_guid b <> 0%N /\ lease_clientGuid x = by_guid b) ->
        l ∈ h.2 \/ l ∈ sn) -> in_the_way b h sn o) as Hhere.
      { intros h sn H op' Ho'. rewrite Ho in Ho'. injection Ho' as <-. rewrite Hol. intros y Hy.
        rewrite Hx in Hy. by injection Hy as <-. }
      destruct (bool_decide _) eqn:Hc in Hcov;
        [apply bool_decide_eq_true in Hc|apply bool_decide_eq_false in Hc].
      * destruct (IH seen Hin') as (h & Hr & H1 & H2 & H3). exists h. split_and!; [|done|done|].
        -- eapply reads_bind; [by apply getOpen_reads|]. rewrite Hol. by eapply reads_bind.
        -- intros o' [->|?]%elem_of_cons; [|by apply H3]. apply Hhere. tauto.
      * destruct (decide (l ∈ seen)) as [Hs|Hs].
        { destruct (IH seen Hin') as (h & Hr & H1 & H2 & H3). exists h. split_and!; [|done|done|].
          - eapply reads_bind; [by apply getOpen_reads|]. rewrite Hol. eapply reads_bind; [exact Hcov|].
            simpl. by rewrite bool_decide_eq_true_2.
          - intros o' [->|?]%elem_of_cons; [|by apply H3]. apply Hhere. tauto. }
        destruct (negb (state x =? SMB2_LEASE_NONE) || breaking x) eqn:Hact.
        -- destruct (IH ({[l]} ∪ seen) Hin') as (h & Hr & H1 & H2 & H3). exists (h.1, l :: h.2).
           split_and!; [|done| |].
           ++ eapply reads_bind; [by apply getOpen_reads|]. rewrite Hol. eapply reads_bind; [exact Hcov|].
              simpl. rewrite bool_decide_eq_false_2 by done. eapply reads_bind; [by apply getLease_reads|].
              rewrite Hact. by eapply reads_bind.
           ++ simpl. intros l' [->|?]%elem_of_cons; [by eapply elem_of_dom_2|by apply H2].
           ++ intros o' [->|Ho']%elem_of_cons; [apply Hhere; intros; left; simpl; left|].
              intros op' E. specialize (H3 o' Ho' op' E). destruct (op_lease op'); [|done].
              intros y Hy A B C. specialize (H3 y Hy A B C). simpl. rewrite elem_of_cons. set_solver.
        -- destruct (IH seen Hin') as (h & Hr & H1 & H2 & H3). exists h. split_and!; [|done|done|].
           ++ eapply reads_bind; [by apply getOpen_reads|]. rewrite Hol. eapply reads_bind; [exact Hcov|].
              simpl. rewrite bool_decide_eq_false_2 by done. eapply reads_bind; [by apply getLease_reads|].
              by rewrite Hact.
           ++ intros o' [->|?]%elem_of_cons; [|by apply H3]. apply Hhere. intros Ha.
              apply orb_false_iff in Hact as [Ha1%negb_false_iff%Z.eqb_eq Ha2].
              destruct Ha; congruence.
    + destruct (IH seen Hin') as (h & Hr & H1 & H2 & H3).
      set (held := negb (bool_decide (oplock_state (op_oplock op) = OplockNone))).
      set (same := if held then bool_decide (by_guid b <> 0%N /\ clientGuid op = by_guid b) else false).
      exists (if held && negb same then (o :: h.1, h.2) else h). split_and!.
      * eapply reads_bind; [by apply getOpen_reads|]. rewrite Hol. eapply (reads_bind _ _ _ same).
        -- unfold same. fold held. destruct held; [by apply sameCacheView_reads|done].
        -- by eapply reads_bind.
      * destruct (held && negb same); [|done]. simpl. intros o' [->|?]%elem_of_cons; [by eapply elem_of_dom_2|auto].
      * by destruct (held && negb same).
      * intros o' [->|Ho']%elem_of_cons.
        -- intros op' E. rewrite Ho in E. injection E as <-. rewrite Hol. intros Hn Hd.
           unfold same, held. rewrite (bool_decide_eq_false_2 (oplock_state _ = _)) by done. simpl.
           rewrite bool_decide_eq_false_2 by done. simpl. left.
        -- intros op' E. specialize (H3 o' Ho' op' E).
           destruct (op_lease op'); destruct (held && negb same); try done.
           intros A B. right. by apply H3.
Qed.

Lemma exclusiveHeld_reads h :
  (forall o, o ∈ h.1 -> o ∈ dom (opens s)) -> (forall l, l ∈ h.2 -> l ∈ dom (leases s)) ->
  exists e, reads (exclusiveHeld h.1 h.2) s e /\
    (e = false ->
      (forall o op, o ∈ h.1 -> opens s !! o = Some op -> oplockLevel (op_oplock op) <= OPLOCK_LEVEL_II) /\
      (forall l x, l ∈ h.2 -> leases s !! l = Some x ->
         has (state x) SMB2_LEASE_WRITE_CACHING = false /\ breaking x = false)).
Proof using.
  intros H1 H2.
  set (p := fun o => match opens s !! o with
    | Some op => (oplockLevel (op_oplock op) >? OPLOCK_LEVEL_II)
                 || bool_decide (oplock_state (op_oplock op) = OplockBreaking)
    | None => false end).
  set (q := fun l => match leases s !! l with
    | Some x => has (state x) SMB2_LEASE_WRITE_CACHING || breaking x | None => false end).
  exists (existsb p h.1 || existsb q h.2). split.
  - unfold exclusiveHeld. eapply reads_bind.
    + apply (anyM_reads _ _ p). intros o [op Ho]%H1%elem_of_dom. eapply reads_bind; [by apply getOpen_reads|].
      unfold p. by rewrite Ho.
    + destruct (existsb p h.1); [done|]. simpl. apply anyM_reads. intros l [x Hx]%H2%elem_of_dom.
      eapply reads_bind; [by apply getLease_reads|]. unfold q. by rewrite Hx.
  - intros [Hp Hq]%orb_false_iff. split.
    + intros o op Hin Ho. destruct (Z.leb_spec (oplockLevel (op_oplock op)) OPLOCK_LEVEL_II); [done|].
      assert (existsb p h.1 = true) as Ht; [|by rewrite Hp in Ht].
      apply existsb_exists. exists o. split; [by apply list_elem_of_In|]. unfold p. rewrite Ho, Z.gtb_ltb.
      apply orb_true_iff. left. by apply Z.ltb_lt.
    + intros l x Hin Hl. apply orb_false_iff.
      destruct (has (state x) SMB2_LEASE_WRITE_CACHING || breaking x) eqn:He; [|done].
      assert (existsb q h.2 = true) as Ht; [|by rewrite Hq in Ht].
      apply existsb_exists. exists l. split; [by apply list_elem_of_In|]. unfold q. by rewrite Hl.
Qed.
End reading.

(** ** Granting an oplock *)

(** Nothing exclusive among the holders means that an open with an exclusive
    promise is one the asker is covered by. *)
Lemma exclusive_covered s (os : list openId) b (h : list openId * list leaseId) o op :
  caching_ok s ->
  (forall o, o ∈ os -> in_the_way s b h ∅ o) ->
  (forall o op, o ∈ h.1 -> opens s !! o = Some op -> oplockLevel (op_oplock op) <= OPLOCK_LEVEL_II) ->
  (forall l x, l ∈ h.2 -> leases s !! l = Some x ->
     has (state x) SMB2_LEASE_WRITE_CACHING = false /\ breaking x = false) ->
  o ∈ os -> opens s !! o = Some op -> exclusive s op = true ->
  (op_lease op = None /\ by_guid b <> 0%N /\ clientGuid op = by_guid b) \/
  (is_Some (op_lease op) /\
   (op_lease op = by_own b \/
    (by_keyed b = false /\ by_guid b <> 0%N /\ clientGuid op = by_guid b))).
Proof.
  intros Hok Hway H1 H2 Hin Ho Hx. specialize (Hway o Hin op Ho).
  pose proof (co_oplock _ Hok _ _ Ho) as Hk. unfold exclusive in Hx. unfold lease_state in Hx.
  destruct (op_lease op) as [l|] eqn:Hl; simpl in Hx.
  - destruct (co_member _ Hok _ _ _ Ho Hl) as (x & Hlx & Hg & _). rewrite Hlx in Hx.
    assert (oplock_state (op_oplock op) = OplockNone) as Hst
      by (apply (co_either _ Hok _ _ Ho); rewrite Hl; eauto).
    unfold oplock_ok in Hk. rewrite Hst in Hk. destruct Hk as [Hlv _]. rewrite Hlv in Hx. simpl in Hx.
    right. split; [eauto|].
    destruct (decide (by_own b = Some l)) as [->|Hown]; [by left|]. right.
    destruct (decide (by_keyed b = false /\ by_guid b <> 0%N /\ lease_clientGuid x = by_guid b)) as [Hc|Hc];
      [by rewrite <- Hg|].
    destruct (Hway x Hlx) as [Hin2|Hin2]; [|done|done| |by apply not_elem_of_empty in Hin2].
    + left. intros Hz. by rewrite Hz in Hx.
    + destruct (H2 l x Hin2 Hlx) as [H _]. by rewrite H in Hx.
  - left. split; [done|]. rewrite orb_false_r in Hx. apply Z.ltb_lt in Hx.
    destruct (decide (by_guid b <> 0%N /\ clientGuid op = by_guid b)) as [|Hn]; [done|].
    assert (o ∈ h.1) as Hh.
    { apply Hway; [|done]. intros Hst. unfold oplock_ok in Hk. rewrite Hst in Hk.
      destruct Hk as [Hk _]. rewrite Hk in Hx. by vm_compute in Hx. }
    pose proof (H1 o op Hh Ho). lia.
Qed.

(** An exclusive oplock is granted only to an open whose client has the file to
    itself, a shared one only where nobody else holds more. *)
Lemma grantOplock_swmr s o op sh path granted k cs :
  caching_ok s -> tidy -> opens s !! o = Some op -> op_lease op = None ->
  fileKeyLocked op = (Some sh, path) ->
  oplockLevel k = granted -> oplock_ok k ->
  (forall o2 op2, o2 <> o -> indexed s (Some sh, path) o2 -> opens s !! o2 = Some op2 ->
     ~ (clientGuid op <> 0%N /\ clientGuid op2 = clientGuid op) ->
     granted <= OPLOCK_LEVEL_II /\ exclusive s op2 = false) ->
  swmr (with_oplock s o op k cs).
Proof.
  intros Hok Htidy Ho Hol Hkey Hg Hk Hothers k' o1 o2 op1 op2 I1 I2 Hn E1 E2 Hv Hx.
  set (s' := with_oplock s o op k cs) in *.
  assert (forall o', indexed s' k' o' -> indexed s k' o') as Hi by (intros o'; by apply indexed_ext).
  apply Hi in I1, I2. simpl in E1, E2.
  apply lookup_insert_Some in E1 as [[<- <-]|[N1 E1]]; apply lookup_insert_Some in E2 as [[<- <-]|[N2 E2]]; [done|..].
  - destruct (indexed_key s (co_index _ Hok) _ _ I1) as (op' & Ho' & <-). rewrite Ho in Ho'. injection Ho' as <-.
    rewrite Hkey in I2. destruct (Hothers o2 op2) as [Hle _]; [done..| |].
    + intros [? ?]. apply Hv. left. simpl. split; congruence.
    + unfold exclusive, lease_state in Hx. simpl in Hx. rewrite Hol, Hg in Hx. simpl in Hx.
      rewrite orb_false_r in Hx. apply Z.ltb_lt in Hx. lia.
  - destruct (indexed_key s (co_index _ Hok) _ _ I2) as (op' & Ho' & <-). rewrite Ho in Ho'. injection Ho' as <-.
    rewrite Hkey in I1. destruct (Hothers o1 op1) as [_ He]; [done..| |].
    + intros [? ?]. apply Hv. left. simpl. split; congruence.
    + unfold exclusive in *. change (lease_state s' op1) with (lease_state s op1) in Hx. by rewrite He in Hx.
  - by eapply (co_swmr _ Hok Htidy k' o1 o2 op1 op2).
Qed.

(** The weighing of a grant: the level decided on, and the holders that are told
    where nothing is granted. *)
Definition beside (s : server) (sh : shareId) (path : string) (o o2 : openId) (op2 : open) : Prop :=
  o2 <> o /\ indexed s (Some sh, path) o2 /\ opens s !! o2 = Some op2.

Lemma grantOplock_run s o op requested sh path :
  caching_ok s -> opens s !! o = Some op -> oplock_state (op_oplock op) = OplockNone ->
  OPLOCK_LEVEL_NONE < requested ->
  exists (h : list openId * list leaseId) granted,
    (forall o, o ∈ h.1 -> o ∈ dom (opens s)) /\ (forall l, l ∈ h.2 -> l ∈ dom (leases s)) /\
    grantOplock o requested sh path s =
      (if granted =? OPLOCK_LEVEL_NONE
       then (w ← startBreaks h.1 OPLOCK_LEVEL_NONE; lw ← startLeaseBreaks h.2 false;
             mret (OPLOCK_LEVEL_NONE, w.2, lw.2)) s
       else Ok ((granted, [], []), with_oplock s o op
              (Oplock granted OplockHeld (oplockBreakTo (op_oplock op)) (oplockBreak (op_oplock op))
                 (oplockBreakSeq (op_oplock op))) (srv_chans s))) /\
    OPLOCK_LEVEL_NONE <= granted /\
    (forall o2 op2, beside s sh path o o2 op2 -> ~ (clientGuid op <> 0%N /\ clientGuid op2 = clientGuid op) ->
       granted <= OPLOCK_LEVEL_II /\ (granted <> OPLOCK_LEVEL_NONE -> exclusive s op2 = false)) /\
    ((forall o2 op2, beside s sh path o o2 op2 -> clientGuid op <> 0%N /\ clientGuid op2 = clientGuid op) ->
       granted = requested).
Proof.
  intros Hok Ho Hst Hreq.
  destruct (opensOn_reads s (co_index _ Hok) sh path (Some o)) as (others & Hr & _ & Hin).
  assert (forall o', o' ∈ others -> o' ∈ dom (opens s)) as Hdom.
  { intros o' [Hi _]%Hin. destruct (indexed_key s (co_index _ Hok) _ _ Hi) as (? & ? & _). by eapply elem_of_dom_2. }
  destruct (elsewhere_reads s others (clientGuid op) Hdom) as (els & Hre & Hine).
  destruct (holdersIn_loop_reads s Hok els (Asker (clientGuid op) None false) ∅) as (h & Hh & Hd1 & Hd2 & Hway).
  { intros o' [? _]%Hine. auto. }
  destruct (exclusiveHeld_reads s h Hd1 Hd2) as (e & Hre' & He).
  set (granted := if 0 <? zlen els then (if e then OPLOCK_LEVEL_NONE else OPLOCK_LEVEL_II) else requested).
  exists h, granted. split_and!; [done|done| | | |].
  - unfold grantOplock, holdersIn. unfold mbind at 1, M_bind at 1. unfold getOpen at 1, deref at 1. rewrite Ho, Hst. simpl.
    unfold mbind at 1, M_bind at 1. rewrite Hr.
    unfold mbind at 1, M_bind at 1. rewrite Hre. unfold mbind at 1, M_bind at 1. rewrite Hh.
    unfold mbind at 1, M_bind at 1.
    assert ((if 0 <? zlen els then e ← exclusiveHeld h.1 h.2; mret (if (e : bool) then OPLOCK_LEVEL_NONE else OPLOCK_LEVEL_II)
             else mret requested) s = Ok (granted, s)) as ->.
    { unfold granted. destruct (0 <? zlen els); [|done]. by eapply reads_bind. }
    destruct (Z.eqb_spec granted OPLOCK_LEVEL_NONE); simpl; [done|].
    unfold mbind, M_bind, modOplock, modOpen, modify. rewrite (alter_insert_eq _ _ _ op) by done. by destruct s.
  - unfold granted. destruct (0 <? zlen els), e; unfold OPLOCK_LEVEL_NONE, OPLOCK_LEVEL_II in *; lia.
  - intros o2 op2 (Hne & Hi2 & Ho2) Hv.
    assert (o2 ∈ els) as Hels.
    { apply Hine. split; [apply Hin; split; [done|congruence]|]. intros op' E. rewrite Ho2 in E.
      by injection E as <-. }
    assert ((0 <? zlen els) = true) as Hlen.
    { destruct els; [by apply not_elem_of_nil in Hels|]. apply Z.ltb_lt. rewrite zlen_cons.
      pose proof (zlen_nonneg els). lia. }
    unfold granted. rewrite Hlen. destruct e; [done|]. destruct (He eq_refl) as [He1 He2].
    split; [done|]. intros _. apply not_true_is_false. intros Hx.
    destruct (exclusive_covered s els (Asker (clientGuid op) None false) h o2 op2 Hok Hway He1 He2 Hels Ho2 Hx)
      as [(_ & ? & ?)|[[? Hs] [Hs'|(_ & ? & ?)]]]; simpl in *; [tauto|congruence|tauto].
  - intros Hown. unfold granted. destruct els as [|o2 els']; [done|].
    destruct (Hine o2) as [Hin2 _]. destruct Hin2 as [[Hi2 Hne2]%Hin Hv]; [left|].
    destruct (indexed_key s (co_index _ Hok) _ _ Hi2) as (op2 & Ho2 & _).
    destruct (Hv op2 Ho2). apply (Hown o2 op2). split_and!; [congruence|done|done].
Qed.

Lemma grantOplock_ok s o op requested sh path :
  caching_ok s -> opens s !! o = Some op -> op_lease op = None ->
  (tidy -> fileKeyLocked op = (Some sh, path)) -> OPLOCK_LEVEL_NONE < requested ->
  wp (grantOplock o requested sh path) s (fun _ s' => caching_ok s').
Proof.
  intros Hok Ho Hol Hkey Hreq.
  destruct (decide (oplock_state (op_oplock op) = OplockNone)) as [Hst|Hst].
  2: { unfold grantOplock. apply wp_bind. eapply wp_getOpen; [done|]. rewrite bool_decide_eq_false_2 by done.
       by apply wp_ret. }
  destruct (grantOplock_run s o op requested sh path Hok Ho Hst Hreq) as (h & granted & Hd1 & Hd2 & Hrun & Hge & Hothers & _).
  unfold wp. rewrite Hrun. destruct (Z.eqb_spec granted OPLOCK_LEVEL_NONE) as [Hg|Hg].
  - apply wp_bind. eapply wp_mono; [|by apply startBreaks_ok; [|unfold OPLOCK_LEVEL_NONE, OPLOCK_LEVEL_II; lia|]].
    intros w s1 (Hok1 & Hl1 & _). apply wp_bind. eapply wp_mono; [|apply startLeaseBreaks_ok; [done|]].
    + intros lw s2 (Hok2 & _). by apply wp_ret.
    + by rewrite Hl1.
  - set (k := Oplock _ _ _ _ _). pose proof (co_oplock _ Hok _ _ Ho) as Hk. unfold oplock_ok in Hk. rewrite Hst in Hk.
    assert (oplock_ok k) as Hkk by (unfold oplock_ok, k; simpl; split; [unfold OPLOCK_LEVEL_NONE in *; lia|apply Hk]).
    apply with_oplock_ok; [done|done|done| |by rewrite Hol; intros [? ?]|].
    + apply disc_same; [apply Hok|]. by rewrite (owner_open _ _ _ Ho).
    + intros Htidy. specialize (Hkey Htidy). apply (grantOplock_swmr s o op sh path granted); try done.
      intros o2 op2 Hne Hi2 Ho2 Hv. destruct (Hothers o2 op2) as [? He]; [done|done|]. auto.
Qed.

(** ** Granting a lease *)

Definition joined (s : server) (l : leaseId) (x : lease) (o : openId) (op : open) (st : Z)
    (tb : gmap guid (gmap guid leaseId)) : server :=
  set_tables tb
    (set_opens (<[o := set_op_lease (Some l) op]> (opens s))
      (set_leases (<[l := lease_set_opens (<[durableFileID op := o]> (lease_opens x)) (lease_set_state st x)]>
        (leases s)) s)).

Section joined.
Context (s : server) (l : leaseId) (x : lease) (o : openId) (op : open) (st : Z)
  (tb : gmap guid (gmap guid leaseId)) (sh : shareId) (path : string).
Let s' := joined s l x o op st tb.
Hypothesis Hok : caching_ok s.
Hypothesis Hl : leases s !! l = Some x.
Hypothesis Ho : opens s !! o = Some op.
Hypothesis Hfresh : op_lease op = None.
Hypothesis Hnone : oplock_state (op_oplock op) = OplockNone.
Hypothesis Hguid : lease_clientGuid x = clientGuid op.
Hypothesis Hkey : tidy -> fileKeyLocked op = (Some sh, path).
Hypothesis Hfile : tidy -> forall o' op', opens s !! o' = Some op' -> op_lease op' = Some l ->
  fileKeyLocked op' = (Some sh, path).
Hypothesis Hst : Z.ldiff st leaseStates = 0.
Hypothesis Hst0 : st <> SMB2_LEASE_NONE.
Hypothesis Htb : forall g key l', default ∅ (tb !! g) !! key = Some l' ->
  table_of s g !! key = Some l' \/ (l' = l /\ key = leaseKey x /\ g = lease_clientGuid x).
(** Whoever has the file open outside the lease holds nothing exclusive, and
    then the lease does not write. *)
Hypothesis Hothers : forall o2 op2, o2 <> o -> indexed s (Some sh, path) o2 -> opens s !! o2 = Some op2 ->
  op_lease op2 <> Some l ->
  has st SMB2_LEASE_WRITE_CACHING = false /\
  (exclusive s op2 = true -> clientGuid op <> 0%N /\ clientGuid op2 = clientGuid op).

Lemma joined_member o' op' :
  tidy -> opens s' !! o' = Some op' -> op_lease op' = Some l ->
  lease_state s' op' = st /\ fileKeyLocked op' = (Some sh, path) /\ clientGuid op' = clientGuid op /\
  oplockLevel (op_oplock op') = OPLOCK_LEVEL_NONE.
Proof using Hok Hl Ho Hnone Hguid Hkey Hfile.
  intros Htidy E Hol. specialize (Hkey Htidy). specialize (Hfile Htidy).
  split; [unfold lease_state; rewrite Hol; simpl; by rewrite lookup_insert_eq|].
  simpl in E. apply lookup_insert_Some in E as [[<- <-]|[_ E]].
  - split_and!; [done|done|]. pose proof (co_oplock _ Hok _ _ Ho) as Hk. unfold oplock_ok in Hk.
    rewrite Hnone in Hk. simpl. tauto.
  - destruct (co_member _ Hok _ _ _ E Hol) as (y & Hy & Hg & _). rewrite Hl in Hy. injection Hy as <-.
    split_and!; [by eapply Hfile|congruence|]. pose proof (co_oplock _ Hok _ _ E) as Hk. unfold oplock_ok in Hk.
    rewrite (co_either _ Hok _ _ E) in Hk by (rewrite Hol; eauto). tauto.
Qed.
Lemma joined_outsider o' op' :
  opens s' !! o' = Some op' -> op_lease op' <> Some l ->
  o' <> o /\ opens s !! o' = Some op' /\ lease_state s' op' = lease_state s op'.
Proof using.
  intros E Hol. simpl in E. apply lookup_insert_Some in E as [[<- <-]|[Hn E]]; [done|].
  split_and!; [done|done|]. unfold lease_state. destruct (op_lease op') as [l'|]; simpl; [|done].
  rewrite lookup_insert_ne; [done|congruence].
Qed.

Lemma joined_swmr : tidy -> swmr s'.
Proof using Hok Hl Ho Hnone Hguid Hkey Hfile Hothers.
  intros Htidy k o1 o2 op1 op2 I1 I2 Hn E1 E2 Hv Hx.
  assert (forall o', indexed s' k o' -> indexed s k o') as Hi by (intros o'; by apply indexed_ext).
  apply Hi in I1, I2.
  assert (forall o' op', opens s' !! o' = Some op' -> op_lease op' = Some l -> indexed s k o' -> k = (Some sh, path)) as Hkk.
  { intros o' op' E Hol I. destruct (joined_member _ _ Htidy E Hol) as (_ & <- & _).
    destruct (indexed_key s (co_index _ Hok) _ _ I) as (op0 & E0 & <-).
    simpl in E. apply lookup_insert_Some in E as [[<- <-]|[_ E]]; [rewrite Ho in E0|rewrite E in E0]; by injection E0 as <-. }
  destruct (decide (op_lease op1 = Some l)) as [L1|L1], (decide (op_lease op2 = Some l)) as [L2|L2].
  - destruct Hv. right. split; congruence.
  - destruct (joined_member _ _ Htidy E1 L1) as (S1 & _ & G1 & V1). destruct (joined_outsider _ _ E2 L2) as (N2 & F2 & S2).
    rewrite (Hkk _ _ E1 L1 I1) in I2. destruct (Hothers o2 op2 N2 I2 F2 L2) as [Hw _].
    unfold exclusive in Hx. rewrite S1, V1, Hw in Hx. done.
  - destruct (joined_member _ _ Htidy E2 L2) as (S2 & _ & G2 & V2). destruct (joined_outsider _ _ E1 L1) as (N1 & F1 & S1).
    rewrite (Hkk _ _ E2 L2 I2) in I1. destruct (Hothers o1 op1 N1 I1 F1 L1) as [_ He].
    unfold exclusive in Hx. rewrite S1 in Hx. destruct (He Hx) as [? ?]. destruct Hv. left. split; congruence.
  - destruct (joined_outsider _ _ E1 L1) as (N1 & F1 & S1). destruct (joined_outsider _ _ E2 L2) as (N2 & F2 & S2).
    unfold exclusive, promised in *. rewrite S1 in Hx. rewrite S2.
    by apply (co_swmr _ Hok Htidy k o1 o2 op1 op2).
Qed.

Lemma joined_ok : caching_ok s'.
Proof using All.
  pose proof Hok as [A1 A2 A3 A4 A5 A6 A7 A8 _]. constructor; [..|apply joined_swmr].
  - by eapply (index_ok_insert s _ o op (set_op_lease (Some l) op)).
  - by eapply (dfid_unique_insert s _ o op (set_op_lease (Some l) op)).
  - intros o' op'. simpl. rewrite lookup_insert_Some. intros [[<- <-]|[_ E]]; [by apply (A3 o op)|by eapply A3].
  - intros l' y. simpl. rewrite lookup_insert_Some. intros [[<- <-]|[_ E]]; [|by eapply A4].
    destruct (A4 _ _ Hl) as [_ Hx]. split; [done|]. simpl. destruct (breaking x); [|done]. tauto.
  - intros o' op'. simpl. rewrite lookup_insert_Some. intros [[<- <-]|[_ E]]; [done|by eapply A5].
  - intros o' op' l' E Hol. simpl in *.
    destruct (decide (l' = l)) as [->|Hne].
    + rewrite lookup_insert_eq. eexists. split; [done|]. simpl.
      apply lookup_insert_Some in E as [[<- <-]|[Hn E]]; [split; [done|by rewrite lookup_insert_eq]|].
      destruct (A6 _ _ _ E Hol) as (y & Hy & Hg & Hm). rewrite Hl in Hy. injection Hy as <-. split; [done|].
      rewrite lookup_insert_ne; [done|]. intros Heq. apply Hn. by eapply A2.
    + rewrite lookup_insert_ne by done. apply lookup_insert_Some in E as [[<- <-]|[Hn E]]; [|by eapply A6].
      simpl in Hol. congruence.
  - intros g key l' Ht. simpl. apply Htb in Ht as [Ht|(-> & -> & ->)].
    + destruct (A7 _ _ _ Ht) as (y & Hy & ? & ?). destruct (decide (l = l')) as [<-|].
      * rewrite lookup_insert_eq. rewrite Hl in Hy. injection Hy as <-. eexists. by split_and!.
      * rewrite lookup_insert_ne by done. eauto.
    + rewrite lookup_insert_eq. eexists. by split_and!.
  - eapply disc_ext; [exact A8|]. intros [o'|l']; unfold owner_chan; simpl.
    + destruct (decide (o = o')) as [<-|]; [by rewrite lookup_insert_eq, Ho|by rewrite lookup_insert_ne].
    + destruct (decide (l = l')) as [<-|]; [by rewrite lookup_insert_eq, Hl|by rewrite lookup_insert_ne].
Qed.
End joined.

Lemma join_run s l x o op st lt :
  leases s !! l = Some x -> opens s !! o = Some op ->
  exists tb, join l lt o st s = Ok (tt, joined s l x o op st tb) /\
    forall g key l', default ∅ (tb !! g) !! key = Some l' ->
      table_of s g !! key = Some l' \/ (l' = l /\ key = leaseKey x /\ g = lt).
Proof.
  intros Hl Ho.
  set (tb := if bool_decide (is_Some (table_of s lt !! leaseKey x)) then globalLeaseTableList s
             else <[lt := <[leaseKey x := l]> (table_of s lt)]> (globalLeaseTableList s)).
  exists tb. split.
  - apply wp_eq. unfold join. apply wp_bind. eapply wp_getLease; [done|].
    apply wp_bind, wp_gets, wp_bind.
    assert (forall s1, s1 = set_tables tb s ->
      wp (op ← getOpen o; _ ← modLease l (lease_set_state st);
          _ ← modLease l (fun x => lease_set_opens (<[durableFileID op := o]> (lease_opens x)) x);
          modOpen o (set_op_lease (Some l))) s1 (fun b t => (b, t) = (tt, joined s l x o op st tb))) as Hrest.
    { intros s1 ->. apply wp_bind. eapply wp_getOpen; [done|].
      apply wp_bind, wp_modLease, wp_bind, wp_modLease, wp_modOpen. simpl.
      rewrite (alter_insert_eq _ (leases s) _ x) by done.
      rewrite (alter_insert_eq _ _ _ (lease_set_state st x)) by (by rewrite lookup_insert_eq).
      rewrite insert_insert_eq, (alter_insert_eq _ (opens s) _ op) by done. done. }
    unfold tb in *. case_bool_decide.
    + apply wp_ret, Hrest. by destruct s.
    + apply wp_modify, Hrest. done.
  - intros g key l'. unfold tb. case_bool_decide; [by left|].
    destruct (decide (g = lt)) as [->|]; [|rewrite lookup_insert_ne by done; by left].
    rewrite lookup_insert_eq. simpl. rewrite lookup_insert_Some. intros [[<- <-]|[_ ?]]; [by right|by left].
Qed.

(** Likewise for a lease: who shares it counts as nobody else. *)
Lemma grantLease_run s o op l x requested sh path :
  caching_ok s -> opens s !! o = Some op -> leases s !! l = Some x ->
  exists (h : list openId * list leaseId) granted,
    (forall o, o ∈ h.1 -> o ∈ dom (opens s)) /\ (forall l, l ∈ h.2 -> l ∈ dom (leases s)) /\
    grantLease o l requested sh path s =
      (if granted =? SMB2_LEASE_NONE
       then (w ← startBreaks h.1 OPLOCK_LEVEL_NONE; lw ← startLeaseBreaks h.2 false;
             mret (SMB2_LEASE_NONE, w.2, lw.2)) s
       else (lt ← leaseTableFor (lease_clientGuid x); _ ← join l lt o granted; mret (granted, [], [])) s) /\
    Z.ldiff granted leaseStates = 0 /\
    (forall o2 op2, beside s sh path o o2 op2 -> op_lease op2 <> Some l ->
       has granted SMB2_LEASE_WRITE_CACHING = false /\
       (granted <> SMB2_LEASE_NONE -> exclusive s op2 = true -> clientGuid op <> 0%N /\ clientGuid op2 = clientGuid op)) /\
    ((forall o2 op2, beside s sh path o o2 op2 -> op_lease op2 = Some l) -> granted = requested .& leaseStates).
Proof.
  intros Hok Ho Hl.
  destruct (opensOn_reads s (co_index _ Hok) sh path (Some o)) as (others & Hr & _ & Hin).
  assert (forall o', o' ∈ others -> o' ∈ dom (opens s)) as Hdom.
  { intros o' [Hi _]%Hin. destruct (indexed_key s (co_index _ Hok) _ _ Hi) as (? & ? & _). by eapply elem_of_dom_2. }
  destruct (holdersIn_loop_reads s Hok others (Asker (clientGuid op) (Some l) true) ∅ Hdom) as (h & Hh & Hd1 & Hd2 & Hway).
  destruct (opensOutside_reads s others l Hdom) as (outs & Hro & Hino).
  destruct (exclusiveHeld_reads s h Hd1 Hd2) as (e & Hre' & He).
  set (granted := if 0 <? zlen outs then (if e then SMB2_LEASE_NONE
    else (requested .& leaseStates) &^ SMB2_LEASE_WRITE_CACHING) else requested .& leaseStates).
  exists h, granted. split_and!; [done|done| | | |].
  - unfold grantLease, holdersIn. unfold mbind at 1, M_bind at 1. rewrite Hr.
    unfold mbind at 1, M_bind at 1. unfold getOpen at 1, deref at 1. rewrite Ho.
    unfold mbind at 1, M_bind at 1. rewrite Hh. unfold mbind at 1, M_bind at 1. rewrite Hro.
    unfold mbind at 1, M_bind at 1.
    assert ((if 0 <? zlen outs then e ← exclusiveHeld h.1 h.2; mret (if (e : bool) then SMB2_LEASE_NONE
               else (requested .& leaseStates) &^ SMB2_LEASE_WRITE_CACHING)
             else mret (requested .& leaseStates)) s = Ok (granted, s)) as ->.
    { unfold granted. destruct (0 <? zlen outs); [|done]. by eapply reads_bind. }
    destruct (Z.eqb_spec granted SMB2_LEASE_NONE); simpl; [done|].
    unfold mbind at 1, M_bind at 1, getLease, deref. by rewrite Hl.
  - unfold granted. apply Z.bits_inj'. intros i Hi.
    destruct (0 <? zlen outs), e; rewrite ?Z.ldiff_spec, ?Z.land_spec, ?Z.bits_0;
      by destruct (Z.testbit requested i), (Z.testbit leaseStates i), (Z.testbit SMB2_LEASE_WRITE_CACHING i).
  - intros o2 op2 (Hne & Hi2 & Ho2) Hl2.
    assert (o2 ∈ outs) as Hout.
    { apply Hino. split; [apply Hin; split; [done|congruence]|]. intros op' E. rewrite Ho2 in E. by injection E as <-. }
    assert ((0 <? zlen outs) = true) as Hlen.
    { destruct outs; [by apply not_elem_of_nil in Hout|]. apply Z.ltb_lt. rewrite zlen_cons.
      pose proof (zlen_nonneg outs). lia. }
    unfold granted. rewrite Hlen. destruct e; [done|]. destruct (He eq_refl) as [He1 He2].
    split; [by apply (kept_state_target (requested .& leaseStates) true), ldiff_land_r|].
    intros _ Hx.
    destruct (exclusive_covered s others (Asker (clientGuid op) (Some l) true) h o2 op2 Hok Hway He1 He2)
      as [(_ & ? & ?)|[[? Hs] [Hs'|(? & _)]]]; simpl in *; try done.
    apply Hin. split; [done|congruence].
  - intros Hown. unfold granted. destruct outs as [|o2 outs']; [done|].
    destruct (Hino o2) as [Hin2 _]. destruct Hin2 as [[Hi2 Hne2]%Hin Hv]; [left|].
    destruct (indexed_key s (co_index _ Hok) _ _ Hi2) as (op2 & Ho2 & _).
    destruct (Hv op2 Ho2). apply (Hown o2 op2). split_and!; [congruence|done|done].
Qed.

Lemma grantLease_ok s o op l x requested sh path :
  caching_ok s -> opens s !! o = Some op -> op_lease op = None ->
  oplock_state (op_oplock op) = OplockNone -> (tidy -> fileKeyLocked op = (Some sh, path)) ->
  leases s !! l = Some x -> lease_clientGuid x = clientGuid op ->
  (tidy -> forall o' op', opens s !! o' = Some op' -> op_lease op' = Some l -> fileKeyLocked op' = (Some sh, path)) ->
  wp (grantLease o l requested sh path) s (fun _ s' => caching_ok s').
Proof.
  intros Hok Ho Hol Hnone Hkey Hl Hg Hfile.
  destruct (grantLease_run s o op l x requested sh path Hok Ho Hl) as (h & granted & Hd1 & Hd2 & Hrun & Hsub & Hothers & _).
  unfold wp. rewrite Hrun. destruct (Z.eqb_spec granted SMB2_LEASE_NONE) as [Hgr|Hgr].
  - apply wp_bind. eapply wp_mono; [|by apply startBreaks_ok; [|unfold OPLOCK_LEVEL_NONE, OPLOCK_LEVEL_II; lia|]].
    intros w s1 (Hok1 & Hl1 & _). apply wp_bind. eapply wp_mono; [|apply startLeaseBreaks_ok; [done|]].
    + intros lw s2 (Hok2 & _). by apply wp_ret.
    + by rewrite Hl1.
  - apply wp_bind.
    eapply wp_mono; [|by apply leaseTableFor_ok]. intros lt s1 (-> & Hok1 & Hl1 & Ho1 & _ & Hb1 & _).
    rewrite <- Hl1 in Hl. rewrite <- Ho1 in Ho.
    destruct (join_run s1 l x o op granted (lease_clientGuid x) Hl Ho) as (tb & Hj & Htb).
    apply wp_bind. apply wp_run. do 2 eexists. split; [exact Hj|]. apply wp_ret.
    eapply (joined_ok s1 l x o op granted tb sh path); try done; [by rewrite Ho1|].
    intros o2 op2 Hne Hi2 Ho2 Hl2. rewrite Ho1 in Ho2. rewrite (indexed_ext s s1) in Hi2 by done.
    destruct (Hothers o2 op2) as [? He]; [done|done|]. split; [done|]. intros Hx. apply He; [done|].
    unfold exclusive, lease_state in *. by rewrite Hl1 in Hx.
Qed.

End invariant.
#[global] Arguments caching_ok tidy s : clear implicits.
