(* ===== verification/CachingSteps.v ===== *)
(** The caching promises as a transition system: the critical sections of
    [oplock.go], [lease.go] and [openindex.go], in any order, from a server with
    nothing open.  What [Caching] says of the tables, the oplocks, the leases and the
    channels holds in every state reached, whoever acts next; that there is a single
    writer holds of the runs that keep to [undisturbed]. *)
From S2P Require Import Prelude Smb2Const Chan ServerState Paths OpenIndex Lease Oplock Caching.

(** ** What the steps outside the caching code leave alone *)

Section keeps.
Context {tidy : Prop}.

Definition cview (op : open) := (durableFileID op, clientGuid op, op_oplock op, op_lease op).

Lemma caching_ok_frame s s' :
  caching_ok tidy s -> index_ok s' -> same_rest s s' ->
  (forall o, cview <$> opens s' !! o = cview <$> opens s !! o) ->
  (tidy -> forall k o1 o2, indexed s' k o1 -> indexed s' k o2 ->
     exists k0, indexed s k0 o1 /\ indexed s k0 o2) ->
  caching_ok tidy s'.
Proof.
  intros Hok Hi (Hl & Hc & Ht) Hv Hp.
  assert (forall o op', opens s' !! o = Some op' -> exists op, opens s !! o = Some op /\ cview op' = cview op) as Hback.
  { intros o op' E. specialize (Hv o). rewrite E in Hv. simpl in Hv. symmetry in Hv.
    apply fmap_Some in Hv as (op & -> & ->). eauto. }
  assert (forall op op', cview op' = cview op ->
    exclusive s' op' = exclusive s op /\ promised s' op' = promised s op) as Hsame.
  { intros op op' [= _ _ Hk Hol]. unfold exclusive, promised, lease_state. by rewrite Hk, Hol, Hl. }
  pose proof Hok as [A1 A2 A3 A4 A5 A6 A7 A8 A9]. constructor.
  - done.
  - intros o1 o2 op1 op2 E1 E2 Heq.
    destruct (Hback _ _ E1) as (q1 & F1 & [= V1 _ _ _]), (Hback _ _ E2) as (q2 & F2 & [= V2 _ _ _]).
    eapply A2; [done..|congruence].
  - intros o op E. destruct (Hback _ _ E) as (q & F & [= _ _ -> _]). by eapply A3.
  - intros l x. rewrite Hl. apply A4.
  - intros o op E. destruct (Hback _ _ E) as (q & F & [= _ _ -> ->]). by eapply A5.
  - intros o op l E. destruct (Hback _ _ E) as (q & F & [= -> -> _ ->]). rewrite Hl. by apply A6.
  - intros g key l. unfold table_of. rewrite Ht, Hl. apply A7.
  - rewrite Hc. eapply disc_ext; [exact A8|]. intros [o|l]; unfold owner_chan; [|by rewrite Hl].
    destruct (opens s' !! o) as [op'|] eqn:E; simpl.
    + destruct (Hback _ _ E) as (q & F & [= _ _ Hk _]). rewrite F. simpl. by rewrite Hk.
    + specialize (Hv o). rewrite E in Hv. symmetry in Hv. by apply fmap_None in Hv as ->.
  - intros Htidy k o1 o2 op1 op2 I1 I2 Hn E1 E2 Hsv Hx.
    destruct (Hback _ _ E1) as (q1 & F1 & V1), (Hback _ _ E2) as (q2 & F2 & V2).
    destruct (Hsame _ _ V1) as [X1 _], (Hsame _ _ V2) as [_ P2].
    destruct (Hp Htidy k o1 o2 I1 I2) as (k0 & J1 & J2). rewrite P2. rewrite X1 in Hx.
    apply (A9 Htidy k0 o1 o2 q1 q2); try done. injection V1 as _ G1 _ L1. injection V2 as _ G2 _ L2.
    intros [[? ?]|[? ?]]; apply Hsv; [left|right]; split; congruence.
Qed.

(** A new open promises nothing, so it may join any file. *)
Definition fresh_open (s : server) (o : openId) (op : open) : Prop :=
  opens s !! o = None /\ op_oplock op = noOplock /\ op_lease op = None /\
  forall o' op', opens s !! o' = Some op' -> durableFileID op' <> durableFileID op.

Lemma newOpen_ok s o op :
  caching_ok tidy s -> fresh_open s o op ->
  wp (indexOpen o) (set_opens (<[o := op]> (opens s)) s) (fun _ s' => caching_ok tidy s').
Proof.
  intros Hok (Hn & Hk & Hol & Hd). set (s1 := set_opens _ s).
  assert (opens s1 !! o = Some op) as Ho by (simpl; by rewrite lookup_insert_eq).
  assert (forall o' op', opens s !! o' = Some op' -> opens s1 !! o' = Some op') as Hmono.
  { intros o' op' E. simpl. rewrite lookup_insert_ne; [done|]. intros <-. by rewrite Hn in E. }
  pose proof Hok as [A1 A2 A3 A4 A5 A6 A7 A8 A9].
  assert (index_ok s1) as Hi1.
  { apply index_ok_alt in A1 as [Hne He]. apply index_ok_alt. split; [done|].
    intros k d o' (op' & ? & ?)%He. exists op'. auto. }
  assert (dfid_unique s1) as Hu1.
  { intros o1 o2 op1 op2. simpl. rewrite !lookup_insert_Some.
    intros [[<- <-]|[_ E1]] [[<- <-]|[_ E2]] Heq; [done| | |by eapply A2].
    - by destruct (Hd _ _ E2).
    - by destruct (Hd _ _ E1). }
  eapply wp_mono; [|by apply (indexOpen_ok s1 Hi1 o op Ho)].
  intros _ s' (Hi & _ & Hop & (Hl & Hc & Ht) & Hoth). specialize (Hoth Hu1).
  constructor; try rewrite Hop; try rewrite Hl.
  - done.
  - intros o1 o2 op1 op2. rewrite Hop. apply Hu1.
  - intros o' op'. simpl. rewrite lookup_insert_Some. intros [[<- <-]|[_ E]]; [by rewrite Hk|by eapply A3].
  - done.
  - intros o' op'. simpl. rewrite lookup_insert_Some. intros [[<- <-]|[_ E]]; [by rewrite Hol; intros [? ?]|by eapply A5].
  - intros o' op' l. simpl. rewrite lookup_insert_Some. intros [[<- <-]|[_ E]]; [by rewrite Hol|by eapply A6].
  - intros g key l. unfold table_of. rewrite Ht. apply A7.
  - rewrite Hc. eapply disc_ext; [exact A8|]. intros [o'|l]; unfold owner_chan; [|by rewrite Hl].
    rewrite Hop. simpl. destruct (decide (o = o')) as [<-|]; [|by rewrite lookup_insert_ne].
    rewrite lookup_insert_eq, Hn. simpl. by rewrite Hk.
  - assert (forall op', exclusive s' op' = exclusive s op' /\ promised s' op' = promised s op') as Hsame.
    { intros op'. unfold exclusive, promised, lease_state. by rewrite Hl. }
    intros Htidy k o1 o2 op1 op2 I1 I2 Hne E1 E2 Hsv. destruct (Hsame op1) as [-> _], (Hsame op2) as [_ ->].
    rewrite Hop in E1, E2. simpl in E1, E2.
    apply lookup_insert_Some in E1 as [[<- <-]|[N1 E1]]; [unfold exclusive, lease_state; by rewrite Hk, Hol|].
    apply lookup_insert_Some in E2 as [[<- <-]|[N2 E2]]; [unfold promised, lease_state; by rewrite Hk, Hol|].
    apply Hoth in I1; [|done]. apply Hoth in I2; [|done]. by apply (A9 Htidy k o1 o2 op1 op2).
Qed.

Lemma unindexOpen_caching s o op :
  caching_ok tidy s -> opens s !! o = Some op -> wp (unindexOpen o) s (fun _ s' => caching_ok tidy s').
Proof.
  intros Hok Ho. eapply wp_mono; [|by apply (unindexOpen_ok s (co_index _ Hok) o op Ho)].
  intros _ s' (Hi & _ & Hop & Hrest & Hsub & _). apply (caching_ok_frame s); try done.
  - by rewrite Hop.
  - intros _ k o1 o2 I1 I2. exists k. auto.
Qed.

Lemma clearReplay_caching s o op :
  caching_ok tidy s -> opens s !! o = Some op ->
  wp (clearReplayEligible o) s (fun _ s' =>
    caching_ok tidy s' /\ leases s' = leases s /\ dom (opens s') = dom (opens s)).
Proof.
  intros Hok Ho.
  assert (forall s', opens s' = alter (set_replay false) o (opens s) -> opensByFile s' = opensByFile s ->
    same_rest s s' -> caching_ok tidy s' /\ leases s' = leases s /\ dom (opens s') = dom (opens s)) as Hf.
  { intros s' E1 E2 E3. split_and!; [|apply E3|by rewrite E1, dom_alter_L].
    rewrite (alter_insert_eq _ _ _ op) in E1 by done.
    apply (caching_ok_frame s); try done.
    - eapply (index_ok_insert s s' o op (set_replay false op)); try done. apply Hok.
    - intros o'. rewrite E1. destruct (decide (o = o')) as [<-|]; [by rewrite lookup_insert_eq, Ho|by rewrite lookup_insert_ne].
    - intros _ k o1 o2. rewrite !(indexed_ext s s') by done. eauto. }
  unfold clearReplayEligible. apply wp_bind. eapply wp_getOpen; [done|].
  destruct (negb _); [by apply wp_ret|]. apply wp_bind, wp_modOpen, wp_bind, wp_gets.
  case_bool_decide; [apply wp_modify|apply wp_ret]; by apply Hf.
Qed.

(** Opens moved to other names, none twice.  The single writer survives where two
    opens that end up on one file came from one file. *)
Definition keeps_apart (s s' : server) : Prop :=
  forall k o1 o2, indexed s' k o1 -> indexed s' k o2 -> exists k0, indexed s k0 o1 /\ indexed s k0 o2.

Lemma moves_caching s lp :
  caching_ok tidy s -> NoDup (lp.*1) -> (forall o, o ∈ lp.*1 -> is_Some (opens s !! o)) ->
  (tidy -> forall s', moved_all s s' lp -> keeps_apart s s') ->
  wp (forM lp (fun c => moveOpenLocked c.1 c.2)) s (fun _ s' => caching_ok tidy s').
Proof.
  intros Hok Hnd Hin Hap. eapply wp_mono; [|apply moveOpens_ok; [apply Hok|apply Hok|done|done]].
  intros us s' (Hi & Hu & Hm & Hrest & Hv). apply (caching_ok_frame s); try done.
  - intros o. specialize (Hv o). destruct (opens s' !! o) as [op'|], (opens s !! o) as [op|]; simpl in *; try done.
    destruct op', op. unfold unnamed, set_name in Hv. simpl in Hv. unfold cview. simpl. congruence.
  - intros Ht. by apply Hap.
Qed.

(** One open moved, as [moveOpen] does it: nothing is said of the single writer. *)
Lemma moveOpen_caching s o op newPath :
  caching_ok tidy s -> opens s !! o = Some op -> (tidy -> False) ->
  wp (moveOpen o newPath) s (fun _ s' => caching_ok tidy s').
Proof.
  intros Hok Ho Hnt.
  assert (wp (forM [(o, newPath)] (fun c => moveOpenLocked c.1 c.2)) s (fun _ s' => caching_ok tidy s')) as H.
  { apply moves_caching; [done|apply NoDup_singleton| |by intros ?%Hnt].
    intros o' ->%list_elem_of_singleton. eauto. }
  simpl in H. unfold moveOpen. unfold wp in *. unfold mbind, M_bind in H.
  destruct (moveOpenLocked o newPath s) as [[[] s']| | |]; [exact H|done..].
Qed.

(** A file renamed as a whole, onto a name nobody has open. *)
Lemma moveOpensOnFile_caching s sh path newName :
  caching_ok tidy s -> (tidy -> forall o, ~ indexed s (Some sh, newName) o) ->
  wp (moveOpensOnFile sh path newName) s (fun _ s' => caching_ok tidy s').
Proof.
  intros Hok Hvac. unfold moveOpensOnFile.
  destruct (opensOn_reads s (co_index _ Hok) sh path None) as (l & Hr & Hnd & Hin).
  apply wp_bind. eapply wp_reads; [exact Hr|]. apply wp_bind.
  set (lp := (fun o => (o, newName)) <$> l).
  apply (wp_ext (forM lp (fun c => moveOpenLocked c.1 c.2))); [apply forM_fmap|].
  assert (lp.*1 = l) as Hfst.
  { unfold lp. rewrite <- list_fmap_compose. apply list_fmap_id. }
  eapply wp_mono; [|apply moves_caching; [done|by rewrite Hfst|rewrite Hfst|]].
  - intros us s' Hok'. by apply wp_ret.
  - intros o [Hi _]%Hin. destruct (indexed_key s (co_index _ Hok) _ _ Hi) as (op & -> & _). eauto.
  - intros Ht s' Hm k o1 o2. unfold moved_all in Hm. rewrite !Hm, !Hfst. specialize (Hvac Ht).
    assert (forall o p, (o, p) ∈ lp -> p = newName /\ indexed s (Some sh, path) o) as Hlp.
    { intros o p (o' & [= -> ->] & Ho')%list_elem_of_fmap. split; [done|]. by apply Hin. }
    clearbody lp. intros [(p1 & k1 & [-> J1]%Hlp & K1 & ->)|[N1 I1]] [(p2 & k2 & [-> J2]%Hlp & K2 & ?)|[N2 I2]].
    + eauto.
    + pose proof (indexed_inj s (co_index _ Hok) _ _ _ J1 K1) as <-. by destruct (Hvac o2).
    + subst. pose proof (indexed_inj s (co_index _ Hok) _ _ _ J2 K2) as <-. by destruct (Hvac o1).
    + eauto.
Qed.

(** The opens beneath a renamed directory, in one hold of the lock. *)
Lemma moveOpensUnder_caching s sh oldPath newPath :
  caching_ok tidy s -> (tidy -> forall rest o, ~ indexed s (Some sh, newPath +:+ "/" +:+ rest) o) ->
  wp (moveOpensUnder sh oldPath newPath) s (fun _ s' => caching_ok tidy s').
Proof.
  intros Hok Hvac. unfold moveOpensUnder. apply wp_bind, wp_gets, wp_bind.
  pose proof (co_index _ Hok) as Hi.
  eapply wp_mono; [|apply moves_caching; [done|by apply NoDup_opensUnder| |]].
  - intros us s' Hok'. by apply wp_ret.
  - intros o ([o' p] & -> & (rest & Hin & _)%elem_of_opensUnder)%list_elem_of_fmap. simpl.
    destruct (indexed_key s Hi _ _ Hin) as (op & -> & _). eauto.
  - intros Ht s' Hm k o1 o2. unfold moved_all in Hm. rewrite !Hm. specialize (Hvac Ht).
    intros [(p1 & k1 & (r1 & J1 & ->)%elem_of_opensUnder & K1 & ->)|[N1 I1]]
      [(p2 & k2 & (r2 & J2 & ->)%elem_of_opensUnder & K2 & E)|[N2 I2]].
    + pose proof (indexed_inj s Hi _ _ _ J1 K1) as <-. pose proof (indexed_inj s Hi _ _ _ J2 K2) as <-.
      simpl in E. injection E as E. do 2 apply (inj _) in E. subst r2. eauto.
    + pose proof (indexed_inj s Hi _ _ _ J1 K1) as <-. by destruct (Hvac r1 o2).
    + subst. pose proof (indexed_inj s Hi _ _ _ J2 K2) as <-. by destruct (Hvac r2 o1).
    + eauto.
Qed.

Lemma startHolderBreaks_ok s sh path except b sharedOK :
  caching_ok tidy s -> wp (startHolderBreaks sh path except b sharedOK) s (fun r s' =>
    caching_ok tidy s' /\ dom (opens s') = dom (opens s) /\ dom (leases s') = dom (leases s)).
Proof.
  intros Hok. unfold startHolderBreaks, holdersOn, holdersIn.
  destruct (opensOn_reads s (co_index _ Hok) sh path except) as (os & Hr & _ & Hin).
  destruct (holdersIn_loop_reads s Hok os b ∅) as (h & Hh & Hd1 & Hd2 & _).
  { intros o [Hi _]%Hin. destruct (indexed_key s (co_index _ Hok) _ _ Hi) as (? & ? & _). by eapply elem_of_dom_2. }
  apply wp_bind. eapply wp_reads; [eapply reads_bind; [exact Hr|exact Hh]|].
  apply wp_bind. eapply wp_mono; [|apply (startBreaks_ok (tidy:=tidy)); [done|destruct sharedOK; done|done]].
  intros w s1 (Hok1 & Hl1 & Hd). apply wp_bind. eapply wp_mono; [|apply (startLeaseBreaks_ok (tidy:=tidy)); [done|by rewrite Hl1]].
  intros lw s2 (Hok2 & Ho2 & Hdl). apply wp_ret. split_and!; [done|by rewrite Ho2|by rewrite Hdl, Hl1].
Qed.

End keeps.

(** ** The transition system *)

(** A server with nothing open. *)
Definition server_init (s : server) : Prop :=
  opens s = ∅ /\ leases s = ∅ /\ opensByFile s = ∅ /\ globalLeaseTableList s = ∅ /\
  srv_chans s = no_chans.

(** An operation that returned. *)
Definition ran {A} (m : M A) (s s' : server) : Prop := exists a, m s = Ok (a, s').

(** What a handler, a timer or a connection may do next: a critical section each. *)
Inductive action :=
| ANewOpen (o : openId) (op : open)
| AUnindex (o : openId)
| AMoveOpen (o : openId) (newPath : string)
| AMoveUnder (sh : shareId) (oldPath newPath : string)
| AClearReplay (o : openId)
| ABreakHolders (sh : shareId) (path : string) (except : option openId) (b : asker) (sharedOK : bool)
| AReleaseOplock (o : openId)
| ALeaveLease (o : openId)
| AEndOplockBreak (o : openId) (level : Z)
| AExpireOplock (o : openId) (seq : Z)
| AGrantOplock (o : openId) (requested : Z) (sh : shareId) (path : string)
| ALeaseFor (g key : guid) (path : string)
| AGrantLease (o : openId) (l : leaseId) (requested : Z) (sh : shareId) (path : string)
| AEndLeaseBreak (l : leaseId) (st : Z)
| AExpireLease (l : leaseId) (seq : Z)
| ADeleteOnClose (o : openId) (pending : bool)
| ARenameLease (o : openId) (path : string).

(** What the caller has in hand: an open or a lease that was made, and, where it
    grants, the open the create has just made, with a lease of the same client.  A
    break ends at a level that was checked against an earlier state of it
    ([ackOplockCheck], [ackLeaseCheck]); all that is left of that check by then is that
    the level is no more than a read cache. *)
Definition given (a : action) (s : server) : Prop :=
  match a with
  | ANewOpen o op => fresh_open s o op
  | AUnindex o | AMoveOpen o _ | AClearReplay o | AReleaseOplock o | ALeaveLease o
  | AExpireOplock o _ | ADeleteOnClose o _ | ARenameLease o _ => o ∈ dom (opens s)
  | AEndOplockBreak o level => o ∈ dom (opens s) /\ OPLOCK_LEVEL_NONE <= level <= OPLOCK_LEVEL_II
  | AGrantOplock o requested _ _ =>
      oplockEligible requested false false = true /\
      exists op, opens s !! o = Some op /\ op_lease op = None
  | AGrantLease o l _ _ _ =>
      exists op x, opens s !! o = Some op /\ op_lease op = None /\
        oplock_state (op_oplock op) = OplockNone /\ leases s !! l = Some x /\ lease_clientGuid x = clientGuid op
  | AEndLeaseBreak l st => l ∈ dom (leases s) /\ kept_state st
  | AExpireLease l _ => l ∈ dom (leases s)
  | AMoveUnder _ _ _ | ABreakHolders _ _ _ _ _ | ALeaseFor _ _ _ => True
  end.

Definition does (a : action) (s s' : server) : Prop :=
  match a with
  | ANewOpen o op => ran (indexOpen o) (set_opens (<[o := op]> (opens s)) s) s'
  | AUnindex o => ran (unindexOpen o) s s'
  | AMoveOpen o newPath => ran (moveOpen o newPath) s s'
  | AMoveUnder sh oldPath newPath => ran (moveOpensUnder sh oldPath newPath) s s'
  | AClearReplay o => ran (clearReplayEligible o) s s'
  | ABreakHolders sh path except b sharedOK => ran (startHolderBreaks sh path except b sharedOK) s s'
  | AReleaseOplock o => ran (releaseOplock o) s s'
  | ALeaveLease o => ran (leaveLease o) s s'
  | AEndOplockBreak o level => ran (completeOplockBreak o level) s s'
  | AExpireOplock o seq => ran (expireOplockBreak o seq OPLOCK_LEVEL_NONE) s s'
  | AGrantOplock o requested sh path => ran (grantOplock o requested sh path) s s'
  | ALeaseFor g key path => ran (leaseFor g key path) s s'
  | AGrantLease o l requested sh path => ran (grantLease o l requested sh path) s s'
  | AEndLeaseBreak l st => ran (completeBreak l st) s s'
  | AExpireLease l seq => ran (expireBreak l seq SMB2_LEASE_NONE) s s'
  | ADeleteOnClose o pending => ran (setLeaseDeleteOnClose o pending) s s'
  | ARenameLease o path => ran (renameLease o path) s s'
  end.

Definition caching_step (s s' : server) : Prop := exists a, given a s /\ does a s s'.

(** What nobody sees to, and the single writer needs: a grant is for the name the
    open goes by, and a lease is granted to an open on the file, share included, that
    its other opens are on ([lease_spans_shares]); a directory is moved to a name with
    nothing open beneath it; and the opens of a file are moved together, onto a name
    nobody has open, which is [tidy_rename] below, so that no open is moved by
    itself ([rename_meets_a_grant]). *)
Definition undisturbed (a : action) (s : server) : Prop :=
  match a with
  | AMoveOpen _ _ => False
  | AMoveUnder sh _ newPath => forall rest o, ~ indexed s (Some sh, newPath +:+ "/" +:+ rest) o
  | AGrantOplock o _ sh path => fileKeyLocked <$> opens s !! o = Some (Some sh, path)
  | AGrantLease o l _ sh path =>
      fileKeyLocked <$> opens s !! o = Some (Some sh, path) /\
      forall o' op', opens s !! o' = Some op' -> op_lease op' = Some l -> fileKeyLocked op' = (Some sh, path)
  | _ => True
  end.

Inductive tidy_step (s s' : server) : Prop :=
| tidy_act a : given a s -> undisturbed a s -> does a s s' -> tidy_step s s'
| tidy_rename sh path newName :
    (forall o, ~ indexed s (Some sh, newName) o) ->
    ran (moveOpensOnFile sh path newName) s s' -> tidy_step s s'.

Section keeps.
Context {tidy : Prop}.

Lemma caching_init s : server_init s -> caching_ok tidy s.
Proof.
  intros (Ho & Hl & Hb & Ht & Hc). constructor; rewrite ?Ho, ?Hl, ?Hc.
  - intros k b. by rewrite Hb, lookup_empty.
  - intros o1 o2 op1 op2. by rewrite Ho, lookup_empty.
  - intros o op. by rewrite lookup_empty.
  - intros l x. by rewrite lookup_empty.
  - intros o op. by rewrite lookup_empty.
  - intros o op l. by rewrite lookup_empty.
  - intros g key l. unfold table_of. by rewrite Ht, lookup_empty, lookup_empty.
  - split_and!; [by intros c ?%not_elem_of_empty| | |].
    + intros [o|l] c; unfold owner_chan; by rewrite ?Ho, ?Hl, lookup_empty.
    + intros [o|l] w' c; unfold owner_chan at 1; by rewrite ?Ho, ?Hl, lookup_empty.
    + intros c [Hlt _]. simpl in Hlt. lia.
  - intros _ k o1 o2 op1 op2 [d Hd]. unfold bucket_of in Hd. rewrite Hb, lookup_empty in Hd. simpl in Hd. by rewrite lookup_empty in Hd.
Qed.

Lemma ran_wp {A} (m : M A) s s' (Q : server -> Prop) : ran m s s' -> wp m s (fun _ => Q) -> Q s'.
Proof. intros [a Hm] Hw. unfold wp in Hw. by rewrite Hm in Hw. Qed.

Lemma expireOplockBreak_ok s o op seq :
  caching_ok tidy s -> opens s !! o = Some op ->
  wp (expireOplockBreak o seq OPLOCK_LEVEL_NONE) s (fun _ => caching_ok tidy).
Proof.
  intros Hok Ho. unfold expireOplockBreak. apply wp_bind. eapply wp_getOpen; [done|].
  destruct (negb _); [by apply wp_ret|]. eapply wp_mono; [|by apply (finishOplockBreak_ok (tidy:=tidy) s o op)].
  by intros ? ? [? _].
Qed.
Lemma expireBreak_ok s l x seq :
  caching_ok tidy s -> leases s !! l = Some x -> wp (expireBreak l seq SMB2_LEASE_NONE) s (fun _ => caching_ok tidy).
Proof.
  intros Hok Hl. unfold expireBreak. apply wp_bind. eapply wp_getLease; [done|].
  destruct (negb _); [by apply wp_ret|]. eapply wp_mono; [|by apply (finishBreak_ok (tidy:=tidy) s l x)].
  by intros ? ? [? _].
Qed.
Lemma setLeaseDeleteOnClose_ok s o op pending :
  caching_ok tidy s -> opens s !! o = Some op -> wp (setLeaseDeleteOnClose o pending) s (fun _ => caching_ok tidy).
Proof.
  intros Hok Ho. unfold setLeaseDeleteOnClose. apply wp_bind. eapply wp_getOpen; [done|].
  destruct (op_lease op) as [l|] eqn:Hl; [|by apply wp_ret].
  destruct (co_member _ Hok _ _ _ Ho Hl) as (x & Hx & _). apply wp_bind. eapply wp_getLease; [done|].
  eapply wp_mono; [|by apply (lease_name_ok (tidy:=tidy) s l x)]. by intros ? ? [? _].
Qed.
Lemma renameLease_ok s o op path :
  caching_ok tidy s -> opens s !! o = Some op -> wp (renameLease o path) s (fun _ => caching_ok tidy).
Proof.
  intros Hok Ho. unfold renameLease. apply wp_bind. eapply wp_getOpen; [done|].
  destruct (op_lease op) as [l|] eqn:Hl; [|by apply wp_ret].
  destruct (co_member _ Hok _ _ _ Ho Hl) as (x & Hx & _).
  eapply wp_mono; [|by apply (lease_name_ok (tidy:=tidy) s l x)]. by intros ? ? [? _].
Qed.

Lemma oplockEligible_pos requested ipc isDir :
  oplockEligible requested ipc isDir = true -> OPLOCK_LEVEL_NONE < requested.
Proof.
  unfold oplockEligible. destruct (_ || _) eqn:H; [|done]. rewrite !orb_true_iff, !Z.eqb_eq in H.
  intros _. destruct H as [[->| ->]| ->]; done.
Qed.

Ltac ran_ok := eapply ran_wp; [eassumption|]; eapply wp_mono; [|solve [eauto using newOpen_ok, unindexOpen_caching,
  moveOpen_caching, moveOpensUnder_caching, clearReplay_caching, startHolderBreaks_ok, releaseOplock_ok, leaveLease_ok,
  finishOplockBreak_ok, expireOplockBreak_ok, grantOplock_ok, oplockEligible_pos, leaseFor_ok, grantLease_ok,
  finishBreak_ok, expireBreak_ok, setLeaseDeleteOnClose_ok, renameLease_ok]]; simpl; tauto.

Lemma caching_act_ok a s s' :
  caching_ok tidy s -> given a s -> (tidy -> undisturbed a s) -> does a s s' -> caching_ok tidy s'.
Proof.
  intros Hok Hg Hu Hd. destruct a; simpl in Hg, Hu, Hd;
    repeat match goal with H : _ /\ _ |- _ => destruct H end;
    try match goal with
    | H : _ ∈ dom (opens _) |- _ => apply elem_of_dom in H as [? ?]
    | H : _ ∈ dom (leases _) |- _ => apply elem_of_dom in H as [? ?]
    end; try solve [ran_ok].
  - match goal with H : exists _, _ |- _ => destruct H as (op & Ho & Hol) end.
    eapply ran_wp; [exact Hd|]. apply (grantOplock_ok (tidy:=tidy) s o op); [done..| |by eapply oplockEligible_pos].
    intros Ht. specialize (Hu Ht). rewrite Ho in Hu. simpl in Hu. congruence.
  - destruct Hg as (op & x & Ho & Hol & Hk & Hl & Hgu).
    eapply ran_wp; [exact Hd|]. apply (grantLease_ok (tidy:=tidy) s o op l x); try done; intros Ht; destruct (Hu Ht) as [Hkk Hf].
    + rewrite Ho in Hkk. simpl in Hkk. congruence.
    + done.
Qed.
End keeps.

Lemma caching_reachable s : reachable server_init caching_step s -> caching_ok False s.
Proof.
  apply invariant_reachable; [exact caching_init|]. intros s1 s2 _ Hok (a & Hg & Hd).
  by eapply caching_act_ok.
Qed.

Lemma tidy_reachable s : reachable server_init tidy_step s -> caching_ok True s.
Proof.
  apply invariant_reachable; [exact caching_init|]. intros s1 s2 _ Hok [a Hg Hu Hd|sh path newName Hv Hd].
  - by eapply caching_act_ok.
  - eapply ran_wp; [exact Hd|]. by apply moveOpensOnFile_caching.
Qed.

(** A tidy run is a run: the opens of a file are moved one at a time. *)
Lemma moveOpen_dom s o newPath u s' :
  moveOpen o newPath s = Ok (u, s') -> dom (opens s') = dom (opens s).
Proof.
  unfold moveOpen, moveOpenLocked, mbind, M_bind, getOpen, deref.
  destruct (opens s !! o) as [op|] eqn:Ho; [|done]. unfold modOpen, modify, gets. simpl.
  rewrite lookup_alter_eq, Ho. simpl. case_bool_decide.
  - unfold dropFromBucket, addToBucket, modify. intros [= _ <-]. simpl. rewrite dropped_opens. simpl. by rewrite dom_alter_L.
  - intros [= _ <-]. simpl. by rewrite dom_alter_L.
Qed.

Lemma moves_steps l newName s us s' :
  forM l (fun o => moveOpen o newName) s = Ok (us, s') ->
  (forall o, o ∈ l -> o ∈ dom (opens s)) -> rtc caching_step s s'.
Proof.
  revert s us s'. induction l as [|o l IH]; intros s us s' Hm Hin; simpl in Hm.
  - injection Hm as _ <-. constructor.
  - unfold mbind, M_bind in Hm. destruct (moveOpen o newName s) as [[[] s1]| | |] eqn:Ho; [|done..].
    destruct (forM l _ s1) as [[vs s2]| | |] eqn:Hl; [|done..]. injection Hm as _ <-.
    pose proof (Hin o ltac:(left)) as Hdo.
    apply (rtc_l _ s s1); [exists (AMoveOpen o newName); split; [done|by eexists]|].
    apply (IH _ _ _ Hl). intros o' Ho'. rewrite (moveOpen_dom _ _ _ _ _ Ho). apply Hin. by right.
Qed.

Lemma reachable_rtc s s' : reachable server_init caching_step s -> rtc caching_step s s' -> reachable server_init caching_step s'.
Proof. intros Hr. induction 1 as [|s s1 s2 H1 _ IH]; [done|]. apply IH. by apply (reach_step _ _ s). Qed.

Lemma tidy_runs s : reachable server_init tidy_step s -> reachable server_init caching_step s.
Proof.
  apply invariant_reachable; [by constructor|]. intros s1 s2 Hr1 Hr [a Hg Hu Hd|sh path newName Hv [ms Hd]].
  - eapply reach_step; [exact Hr|]. by exists a.
  - pose proof (co_index _ (caching_reachable s1 Hr)) as Hi. apply (reachable_rtc s1); [done|].
    destruct (opensOn_reads s1 Hi sh path None) as (l & Hl & _ & Hin).
    unfold moveOpensOnFile, mbind, M_bind in Hd. rewrite Hl in Hd.
    destruct (forM l _ s1) as [[us s3]| | |] eqn:Hm; [|done..]. injection Hd as _ <-.
    apply (moves_steps _ _ _ _ _ Hm). intros o [Ho _]%Hin.
    destruct (indexed_key s1 Hi _ _ Ho) as (op & ? & _). by eapply elem_of_dom_2.
Qed.

(** ** What starting the breaks achieves *)

Section cuts.
Context {tidy : Prop}.

(** The oplock of [o] promises no more than [to], or is being cut back to that
    and [ws] holds the channel to wait on. *)
Definition oplock_cut (s : server) (to : Z) (ws : list chan) (o : openId) : Prop :=
  forall op, opens s !! o = Some op -> to < oplockLevel (op_oplock op) ->
    oplock_state (op_oplock op) = OplockBreaking /\ oplockBreakTo (op_oplock op) <= to /\
    exists c, oplockBreak (op_oplock op) = Some c /\ c ∈ ws.
Definition lease_cut (s : server) (to : Z -> Z) (ws : list chan) (l : leaseId) : Prop :=
  forall x, leases s !! l = Some x -> Z.ldiff (state x) (to (state x)) <> 0 ->
    breaking x = true /\ Z.ldiff (breakToState x) (to (state x)) = 0 /\
    exists c, breakDone x = Some c /\ c ∈ ws.

Lemma oplock_cut_mono s to ws ws' o :
  (forall c, c ∈ ws -> c ∈ ws') -> oplock_cut s to ws o -> oplock_cut s to ws' o.
Proof. intros Hw H op Ho Hl. destruct (H op Ho Hl) as (? & ? & c & ? & ?). eauto 10. Qed.
Lemma lease_cut_mono s to ws ws' l :
  (forall c, c ∈ ws -> c ∈ ws') -> lease_cut s to ws l -> lease_cut s to ws' l.
Proof. intros Hw H x Hx Hl. destruct (H x Hx Hl) as (? & ? & c & ? & ?). eauto 10. Qed.

(** Which opens are on which file, whose they are and what lease they share. *)
Definition same_files (s s' : server) : Prop :=
  opensByFile s' = opensByFile s /\
  forall o, (fun op => (clientGuid op, op_lease op)) <$> opens s' !! o =
            (fun op => (clientGuid op, op_lease op)) <$> opens s !! o.
Lemma same_files_trans s1 s2 s3 : same_files s1 s2 -> same_files s2 s3 -> same_files s1 s3.
Proof. intros [H1 H2] [H3 H4]. split; [congruence|]. intros o. by rewrite H4. Qed.
Lemma same_files_oplock s m o op k :
  opens s !! o = Some op -> opensByFile m = opensByFile s ->
  same_files s (set_opens (<[o := set_oplock k op]> (opens s)) m).
Proof.
  intros Ho Hm. split; [done|]. intros o'. simpl. destruct (decide (o = o')) as [<-|].
  - by rewrite lookup_insert_eq, Ho.
  - by rewrite lookup_insert_ne.
Qed.

Lemma startOplockBreak_cut s o op to :
  caching_ok tidy s -> opens s !! o = Some op -> OPLOCK_LEVEL_NONE <= to ->
  wp (startOplockBreak o to) s (fun r s' =>
    oplock_cut s' to (option_list r.1) o /\ same_files s s' /\
    (forall ws o', oplock_cut s to ws o' -> oplock_cut s' to ws o') /\
    (forall c, chan_open (srv_chans s) c -> chan_open (srv_chans s') c)).
Proof.
  intros Hok Ho Hto. unfold startOplockBreak. apply wp_bind. eapply wp_getOpen; [done|].
  pose proof (co_oplock _ Hok _ _ Ho) as Hk. unfold oplock_ok in Hk.
  assert (forall ws s', opens s' !! o = Some op ->
    (to < oplockLevel (op_oplock op) -> oplock_state (op_oplock op) = OplockBreaking /\
       oplockBreakTo (op_oplock op) <= to /\ exists c, oplockBreak (op_oplock op) = Some c /\ c ∈ ws) ->
    oplock_cut s' to ws o) as Hint.
  { intros ws s' E H op' E'. rewrite E in E'. by injection E' as <-. }
  (* replacing the oplock of [o] by one that is being cut back to [to] *)
  assert (forall k m, oplock_state k = OplockBreaking -> oplockBreakTo k = to ->
    (forall ws, oplock_cut s to ws o -> exists c, oplockBreak k = Some c /\ c ∈ ws) ->
    forall ws o', oplock_cut s to ws o' -> oplock_cut (set_opens (<[o := set_oplock k op]> (opens s)) m) to ws o') as Hset.
  { intros k m Hk1 Hk2 Hk3 ws o' H op'. simpl. rewrite lookup_insert_Some. intros [[<- <-]|[_ E]]; [|by apply H].
    intros _. split; [done|]. split; [simpl; lia|]. by apply Hk3. }
  destruct (oplock_state (op_oplock op)) eqn:Hst.
  - apply wp_ret. split_and!; try done. apply Hint; [done|]. destruct Hk as [-> _]. simpl. lia.
  - rewrite Z.geb_leb. destruct (Z.leb_spec (oplockLevel (op_oplock op)) to) as [Hle|Hlt].
    { apply wp_ret. split_and!; try done. apply Hint; [done|lia]. }
    apply wp_bind, wp_mkChan, wp_bind, wp_modOpen, wp_ret. simpl.
    rewrite (alter_insert_eq _ _ _ op) by done. split_and!; [|by apply same_files_oplock| |].
    + intros op'. simpl. rewrite lookup_insert_eq. intros [= <-] _. simpl. split_and!; [done|lia|].
      eexists. split; [done|left].
    + apply Hset; [done|done|]. intros ws H. destruct (H op Ho Hlt) as [H' _]. by rewrite Hst in H'.
    + intros c. apply make_chan_mono.
  - rewrite Z.geb_leb. destruct (Z.leb_spec (oplockBreakTo (op_oplock op)) to) as [Hle|Hlt].
    { apply wp_ret. split_and!; try done. apply Hint; [done|]. intros _. split_and!; [done|done|].
      destruct Hk as (_ & _ & [c Hc]). exists c. simpl. rewrite Hc. split; [done|left]. }
    apply wp_bind, wp_modOpen, wp_ret. rewrite (alter_insert_eq _ _ _ op) by done.
    destruct Hk as (Hk1 & _ & [c Hc]). split_and!; [|by apply same_files_oplock| |done].
    + intros op'. simpl. rewrite lookup_insert_eq. intros [= <-] _. simpl. split_and!; [done|lia|].
      exists c. rewrite Hc. split; [done|left].
    + apply Hset; [done|done|]. intros ws H. destruct (H op Ho) as (_ & _ & H'); [lia|done].
Qed.

Lemma startBreak_cut s l x (tgt : Z -> Z) :
  caching_ok tidy s -> leases s !! l = Some x ->
  wp (startBreak l (tgt (state x))) s (fun r s' =>
    lease_cut s' tgt (option_list r.1) l /\ same_files s s' /\
    (forall ws l', lease_cut s tgt ws l' -> lease_cut s' tgt ws l') /\
    (forall c, chan_open (srv_chans s) c -> chan_open (srv_chans s') c)).
Proof.
  intros Hok Hl. unfold startBreak. apply wp_bind. eapply wp_getLease; [done|].
  pose proof (co_lease _ Hok _ _ Hl) as [Hsub Hx].
  assert (forall to ep dn sq m c, dn = Some c -> Z.ldiff to (tgt (state x)) = 0 ->
    (forall ws, lease_cut s tgt ws l -> Z.ldiff (state x) (tgt (state x)) <> 0 -> c ∈ ws) ->
    forall ws l', lease_cut s tgt ws l' ->
    lease_cut (set_leases (<[l := lease_set_break to true ep dn sq x]> (leases s)) m) tgt ws l') as Hset.
  { intros to ep dn sq m c -> Ht Hws ws l' H y. simpl. rewrite lookup_insert_Some.
    intros [[<- <-]|[_ E]]; [|by apply H]. simpl. intros Hd. split_and!; [done|done|]. eauto. }
  destruct (Z.eqb_spec (state x) SMB2_LEASE_NONE) as [Hz|Hz]; simpl.
  { apply wp_ret. split_and!; try done. intros y E. rewrite Hl in E. injection E as <-. by rewrite Hz. }
  destruct (Z.eqb_spec (state x &^ tgt (state x)) 0) as [He|He]; simpl.
  { apply wp_ret. split_and!; try done. intros y E. rewrite Hl in E. by injection E as <-. }
  destruct (breaking x) eqn:Hb.
  - destruct Hx as (_ & _ & [c Hc]).
    destruct (Z.eqb_spec (breakToState x &^ tgt (state x)) 0) as [Hd|Hd].
    + apply wp_ret. split_and!; try done. intros y E _. rewrite Hl in E. injection E as <-.
      split_and!; [done|done|]. exists c. simpl. rewrite Hc. split; [done|left].
    + apply wp_bind, wp_modLease, wp_ret. rewrite (alter_insert_eq _ _ _ x) by done. split_and!; [|done| |done].
      * intros y. simpl. rewrite lookup_insert_eq. intros [= <-] _. simpl. split_and!; [done|apply ldiff_land_r|].
        exists c. rewrite Hc. split; [done|left].
      * apply (Hset _ _ _ _ _ c); [done|apply ldiff_land_r|]. intros ws H Hn.
        destruct (H x Hl Hn) as (_ & Hbt & c' & Hc' & Hin). by rewrite Hbt in Hd.
  - apply wp_bind, wp_mkChan, wp_bind, wp_modLease, wp_ret. simpl. rewrite (alter_insert_eq _ _ _ x) by done.
    assert (forall a, Z.ldiff a a = 0) as Hdiag.
    { intros a. apply Z.bits_inj'. intros i Hi. rewrite Z.ldiff_spec, Z.bits_0. by destruct (Z.testbit a i). }
    split_and!; [|done| |].
    + intros y. simpl. rewrite lookup_insert_eq. intros [= <-] _. simpl. split_and!; [done|apply Hdiag|].
      eexists. split; [done|left].
    + eapply Hset; [done|apply Hdiag|]. intros ws H Hn. destruct (H x Hl Hn) as [H' _]. by rewrite Hb in H'.
    + intros c. apply make_chan_mono.
Qed.

Lemma startBreaks_cut s os to :
  caching_ok tidy s -> OPLOCK_LEVEL_NONE <= to <= OPLOCK_LEVEL_II ->
  (forall o, o ∈ os -> o ∈ dom (opens s)) ->
  wp (startBreaks os to) s (fun r s' =>
    (forall o, o ∈ os -> oplock_cut s' to r.1 o) /\ same_files s s' /\
    (forall ws o, oplock_cut s to ws o -> oplock_cut s' to ws o) /\
    (forall c, c ∈ r.1 -> chan_open (srv_chans s') c) /\
    (forall c, chan_open (srv_chans s) c -> chan_open (srv_chans s') c)).
Proof.
  intros Hok Hto. revert s Hok. induction os as [|o os IH]; intros s Hok Hin; simpl.
  - apply wp_ret. split_and!; try done; intros ? H; by apply not_elem_of_nil in H.
  - pose proof (Hin o ltac:(left)) as [op Ho]%elem_of_dom. apply wp_bind.
    eapply wp_mono; [|apply wp_and; [by eapply (startOplockBreak_ok (tidy:=tidy))|by eapply startOplockBreak_cut, Hto]].
    intros [ch started] s1 [(Hok1 & _ & Hd1 & Hown) (Hc1 & Hf1 & Hm1 & Hch1)]. simpl in *.
    apply wp_bind. eapply wp_mono; [|apply IH; [done|intros; rewrite Hd1; apply Hin; by right]].
    intros [w n] s2 (Hc2 & Hf2 & Hm2 & Hw2 & Hch2). apply wp_ret. simpl in *.
    assert (forall c, c ∈ option_list ch -> chan_open (srv_chans s2) c) as Hnew.
    { intros c Hc. apply Hch2. destruct ch as [c'|]; [|by apply not_elem_of_nil in Hc].
      apply list_elem_of_singleton in Hc as ->. eapply disc_open; [apply Hok1|]. by apply (Hown c'). }
    split_and!; [|by eapply same_files_trans|auto| |auto].
    + intros o' [->|Ho']%elem_of_cons.
      * apply (oplock_cut_mono _ _ (option_list ch)); [|by apply Hm2].
        intros c Hc. destruct ch; [|by apply not_elem_of_nil in Hc].
        apply list_elem_of_singleton in Hc as ->. simpl. left.
      * apply (oplock_cut_mono _ _ w); [|by apply Hc2]. destruct ch; simpl; [by right|done].
    + intros c. destruct ch as [c'|]; simpl; [|by apply Hw2].
      intros [->|?]%elem_of_cons; [apply Hnew; left|by apply Hw2].
Qed.

Lemma startLeaseBreaks_cut s ls sharedOK :
  caching_ok tidy s -> (forall l, l ∈ ls -> l ∈ dom (leases s)) ->
  wp (startLeaseBreaks ls sharedOK) s (fun r s' =>
    (forall l, l ∈ ls -> lease_cut s' (fun st => leaseBreakTarget st sharedOK) r.1 l) /\ same_files s s' /\
    (forall ws l, lease_cut s (fun st => leaseBreakTarget st sharedOK) ws l ->
                  lease_cut s' (fun st => leaseBreakTarget st sharedOK) ws l) /\
    (forall c, c ∈ r.1 -> chan_open (srv_chans s') c) /\
    (forall c, chan_open (srv_chans s) c -> chan_open (srv_chans s') c)).
Proof.
  intros Hok. revert s Hok. induction ls as [|l ls IH]; intros s Hok Hin; simpl.
  - apply wp_ret. split_and!; try done; intros ? H; by apply not_elem_of_nil in H.
  - pose proof (Hin l ltac:(left)) as [x Hx]%elem_of_dom.
    apply wp_bind, wp_bind. eapply wp_getLease; [done|]. apply wp_ret, wp_bind.
    eapply wp_mono; [|apply wp_and;
      [eapply (startBreak_ok (tidy:=tidy)); [done..|]; apply kept_state_target, (co_lease _ Hok _ _ Hx)
      |by eapply (startBreak_cut s l x (fun st => leaseBreakTarget st sharedOK))]].
    intros [ch started] s1 [(Hok1 & _ & Hd1 & Hown) (Hc1 & Hf1 & Hm1 & Hch1)]. simpl in *.
    apply wp_bind. eapply wp_mono; [|apply IH; [done|intros; rewrite Hd1; apply Hin; by right]].
    intros [w n] s2 (Hc2 & Hf2 & Hm2 & Hw2 & Hch2). apply wp_ret. simpl in *.
    assert (forall c, c ∈ option_list ch -> chan_open (srv_chans s2) c) as Hnew.
    { intros c Hc. apply Hch2. destruct ch as [c'|]; [|by apply not_elem_of_nil in Hc].
      apply list_elem_of_singleton in Hc as ->. eapply disc_open; [apply Hok1|]. by apply (Hown c'). }
    split_and!; [|by eapply same_files_trans|auto| |auto].
    + intros l' [->|Hl']%elem_of_cons.
      * apply (lease_cut_mono _ _ (option_list ch)); [|by apply Hm2].
        intros c Hc. destruct ch; [|by apply not_elem_of_nil in Hc].
        apply list_elem_of_singleton in Hc as ->. simpl. left.
      * apply (lease_cut_mono _ _ w); [|by apply Hc2]. destruct ch; simpl; [by right|done].
    + intros c. destruct ch as [c'|]; simpl; [|by apply Hw2].
      intros [->|?]%elem_of_cons; [apply Hnew; left|by apply Hw2].
Qed.

(** The asker is covered by what the open is promised: it is its own lease, or
    its own client where the asker named no key. *)
Definition covered (b : asker) (op : open) : Prop :=
  match op_lease op with
  | None => by_guid b <> 0%N /\ clientGuid op = by_guid b
  | Some l => by_own b = Some l \/
      (by_keyed b = false /\ by_guid b <> 0%N /\ clientGuid op = by_guid b)
  end.
(** Whatever the open is promised beyond the target is being taken away, and
    [ws] holds the channel that says when it is gone. *)
Definition cut_back (s : server) (sharedOK : bool) (ws : list chan) (o : openId) (op : open) : Prop :=
  match op_lease op with
  | None => oplock_cut s (oplockBreakTarget sharedOK) ws o
  | Some l => lease_cut s (fun st => leaseBreakTarget st sharedOK) ws l
  end.

Lemma startHolderBreaks_cut s sh path except b sharedOK :
  caching_ok tidy s -> wp (startHolderBreaks sh path except b sharedOK) s (fun r s' =>
    (forall c, c ∈ r.1.1 -> chan_open (srv_chans s') c) /\
    forall o op, indexed s' (Some sh, path) o -> Some o <> except -> opens s' !! o = Some op ->
      covered b op \/ cut_back s' sharedOK r.1.1 o op).
Proof.
  intros Hok. unfold startHolderBreaks, holdersOn, holdersIn.
  destruct (opensOn_reads s (co_index _ Hok) sh path except) as (os & Hr & _ & Hin).
  assert (forall o, o ∈ os -> o ∈ dom (opens s)) as Hdom.
  { intros o [Hi _]%Hin. destruct (indexed_key s (co_index _ Hok) _ _ Hi) as (? & ? & _). by eapply elem_of_dom_2. }
  destruct (holdersIn_loop_reads s Hok os b ∅ Hdom) as (h & Hh & Hd1 & Hd2 & Hway).
  assert (OPLOCK_LEVEL_NONE <= oplockBreakTarget sharedOK <= OPLOCK_LEVEL_II) as Hto by (destruct sharedOK; done).
  apply wp_bind. eapply wp_reads; [eapply reads_bind; [exact Hr|exact Hh]|].
  apply wp_bind. eapply wp_mono; [|apply wp_and; [apply (startBreaks_ok (tidy:=tidy))|apply startBreaks_cut]; done].
  intros [w n] s1 [(Hok1 & Hl1 & Hdo1) (Hc1 & Hf1 & Hm1 & Hw1 & Hch1)]. simpl in *.
  apply wp_bind. eapply wp_mono; [|apply wp_and; [apply (startLeaseBreaks_ok (tidy:=tidy))|apply startLeaseBreaks_cut]; [done|by rewrite Hl1|done|by rewrite Hl1]].
  intros [lw ln] s2 [(Hok2 & Ho2 & _) (Hc2 & Hf2 & Hm2 & Hw2 & Hch2)]. simpl in *. apply wp_ret. simpl. split.
  { intros c [?|?]%elem_of_app; [by apply Hch2, Hw1|by apply Hw2]. }
  intros o op2 Hi Hne E2. destruct (same_files_trans _ _ _ Hf1 Hf2) as [Hb Hid].
  rewrite (indexed_ext s s2) in Hi by done. specialize (Hway o (proj2 (Hin o) (conj Hi Hne))).
  specialize (Hid o). rewrite E2 in Hid. simpl in Hid. symmetry in Hid.
  apply fmap_Some in Hid as (op & E & [= Hg Hol]). specialize (Hway op E).
  unfold covered, cut_back. rewrite Hg, Hol. destruct (op_lease op) as [l|] eqn:Hl.
  - destruct (co_member _ Hok _ _ _ E Hl) as (x & Hx & Hgx & _). specialize (Hway x Hx).
    destruct (decide (by_own b = Some l)) as [|N1]; [by left; left|].
    destruct (decide (by_keyed b = false /\ by_guid b <> 0%N /\ clientGuid op = by_guid b)) as [|N2]; [by left; right|].
    right. destruct (decide (state x = SMB2_LEASE_NONE /\ breaking x = false)) as [[Z1 Z2]|N3].
    + apply (lease_cut_mono _ _ []); [intros ? H; by apply not_elem_of_nil in H|]. apply Hm2.
      intros y. rewrite Hl1, Hx. intros [= <-]. by rewrite Z1.
    + apply (lease_cut_mono _ _ lw); [intros; apply elem_of_app; by right|]. apply Hc2.
      destruct Hway as [|?%not_elem_of_empty]; [|done|by rewrite Hgx|done|done].
      destruct (decide (state x = SMB2_LEASE_NONE)); [right|by left]. destruct (breaking x); tauto.
  - destruct (decide (by_guid b <> 0%N /\ clientGuid op = by_guid b)) as [|N1]; [by left|]. right.
    assert (forall ws, oplock_cut s1 (oplockBreakTarget sharedOK) ws o ->
      oplock_cut s2 (oplockBreakTarget sharedOK) ws o) as Hsame by (intros ws H op'; rewrite Ho2; apply H).
    apply Hsame. destruct (decide (oplock_state (op_oplock op) = OplockNone)) as [Z1|N2].
    + apply (oplock_cut_mono _ _ []); [intros ? H; by apply not_elem_of_nil in H|]. apply Hm1.
      intros op'. rewrite E. intros [= <-]. pose proof (co_oplock _ Hok _ _ E) as Hk. unfold oplock_ok in Hk.
      rewrite Z1 in Hk. destruct Hk as [-> _]. lia.
    + apply (oplock_cut_mono _ _ w); [intros; apply elem_of_app; by left|]. apply Hc1. by apply Hway.
Qed.

End cuts.

(** ** What the clients rely on *)

(** C1: A single writer or any number of readers.  Of the runs in which a rename moves
    the opens of a file together onto a name nobody has open, a directory goes to a name
    with nothing open beneath it, a grant is for the name its open goes by, and a lease is
    used for one file of one share ([undisturbed], which the code does not see to: the
    findings below show what happens otherwise), every state is such that an open that may
    cache writes (an exclusive or batch oplock, or a lease with write caching) stands beside
    no open of another client or another lease on the file that is promised anything,
    whatever creates, breaks, acknowledgments, timeouts, renames and closes led to it. *)
Theorem caching_single_writer (s : server) (k : fileKey) (o1 o2 : openId) (op1 op2 : open) :
  reachable server_init tidy_step s ->
  indexed s k o1 -> indexed s k o2 -> o1 <> o2 ->
  opens s !! o1 = Some op1 -> opens s !! o2 = Some op2 ->
  ~ same_view op1 op2 -> exclusive s op1 = true -> promised s op2 = false.
Proof. intros Hr. apply (co_swmr _ (tidy_reachable s Hr) I). Qed.

(** C2: The tables of the server are well formed in every state it can reach, however the
    critical sections of its handlers are interleaved, as long as no two opens draw the same
    64 random bits for a durable ID and a create grants its open an oplock or a lease, as
    the handler does: an entry of the index is an open that carries the share,
    path and ID it is filed under, and no bucket stands empty; an oplock that is not breaking
    has no channel and one that is breaks to less than it is, at most level II; a lease has no
    bit but the three of the protocol and breaks to a state without write caching; an open holds
    an oplock or shares a lease of its own client that counts it, never both; and a table of
    leases holds the leases of its client under their keys. *)
Theorem server_well_formed (s : server) : reachable server_init caching_step s ->
  index_ok s /\
  (forall o op, opens s !! o = Some op -> oplock_ok (op_oplock op) /\
     forall l, op_lease op = Some l -> oplock_state (op_oplock op) = OplockNone /\
       exists x, leases s !! l = Some x /\ lease_clientGuid x = clientGuid op /\ lease_opens x !! durableFileID op = Some o) /\
  (forall l x, leases s !! l = Some x -> lease_ok x) /\
  (forall g key l, table_of s g !! key = Some l -> exists x, leases s !! l = Some x /\ leaseKey x = key /\ lease_clientGuid x = g).
Proof.
  intros Hr. destruct (caching_reachable s Hr) as [Hi _ Ho Hl He Hm Ht _ _]. split_and!; [done| |done|done].
  intros o op E. split; [by eapply Ho|]. intros l El. split; [apply (He o op E); by eexists|by eapply Hm].
Qed.

(** The breaks of the holders return, whatever was granted. *)
Lemma refused_returns (s : server) (h : list openId * list leaseId) (none : Z) :
  caching_ok False s -> (forall o, o ∈ h.1 -> o ∈ dom (opens s)) -> (forall l, l ∈ h.2 -> l ∈ dom (leases s)) ->
  exists n ln s', (w ← startBreaks h.1 OPLOCK_LEVEL_NONE; lw ← startLeaseBreaks h.2 false;
                   mret (none, w.2, lw.2)) s = Ok ((none, n, ln), s').
Proof.
  intros Hok H1 H2.
  assert (wp (w ← startBreaks h.1 OPLOCK_LEVEL_NONE; lw ← startLeaseBreaks h.2 false;
              mret (none, w.2, lw.2)) s (fun r _ => r.1.1 = none)) as Hwp.
  { apply wp_bind. eapply wp_mono; [|apply (startBreaks_ok (tidy:=False)); [done|done|done]].
    intros w s1 (Hok1 & Hl1 & _). apply wp_bind.
    eapply wp_mono; [|apply (startLeaseBreaks_ok (tidy:=False)); [done|by rewrite Hl1]].
    intros lw s2 _. by apply wp_ret. }
  apply wp_run in Hwp as ([[none' n] ln] & s' & Hrun & Hn). simpl in Hn. subst none'. eauto.
Qed.

(** C18: A grant weighs everybody else on the file.  In every state the server can reach, a
    create that asks for an oplock on the file of that share and name is given what it asked
    for when every other open on the file is its own client's; beside an open of another
    client it is given level II at most, and nothing where that open may cache writes.  One
    that asks for a lease is given every caching right it named when the other opens on the
    file share the lease; beside one that does not it is given no write caching, and nothing
    where that open may cache writes, unless it is the same client's.  What is given is what
    the open then holds. *)
Theorem grants_weigh_the_others (s : server) (o : openId) (op : open) (sh : shareId) (path : string) (requested : Z) :
  reachable server_init caching_step s ->
  opens s !! o = Some op -> oplock_state (op_oplock op) = OplockNone ->
  (oplockEligible requested false false = true ->
   exists level n ln s', grantOplock o requested sh path s = Ok ((level, n, ln), s') /\
     ((forall o2 op2, beside s sh path o o2 op2 -> clientGuid op <> 0%N /\ clientGuid op2 = clientGuid op) ->
        level = requested) /\
     (forall o2 op2, beside s sh path o o2 op2 -> ~ (clientGuid op <> 0%N /\ clientGuid op2 = clientGuid op) ->
        level <= OPLOCK_LEVEL_II /\ (level <> OPLOCK_LEVEL_NONE -> exclusive s op2 = false)) /\
     (level <> OPLOCK_LEVEL_NONE -> exists op', opens s' !! o = Some op' /\
        oplock_state (op_oplock op') = OplockHeld /\ oplockLevel (op_oplock op') = level)) /\
  (forall l x, leases s !! l = Some x ->
   exists st n ln s', grantLease o l requested sh path s = Ok ((st, n, ln), s') /\
     ((forall o2 op2, beside s sh path o o2 op2 -> op_lease op2 = Some l) -> st = requested .& leaseStates) /\
     (forall o2 op2, beside s sh path o o2 op2 -> op_lease op2 <> Some l ->
        has st SMB2_LEASE_WRITE_CACHING = false /\
        (st <> SMB2_LEASE_NONE -> exclusive s op2 = true -> clientGuid op <> 0%N /\ clientGuid op2 = clientGuid op)) /\
     (st <> SMB2_LEASE_NONE -> exists op', opens s' !! o = Some op' /\ op_lease op' = Some l /\ lease_state s' op' = st)).
Proof.
  intros Hr Ho Hst. pose proof (caching_reachable s Hr) as Hok. split.
  - intros Hreq%oplockEligible_pos.
    destruct (grantOplock_run s o op requested sh path Hok Ho Hst Hreq) as (h & level & H1 & H2 & Hrun & _ & Hb & Ha).
    destruct (Z.eqb_spec level OPLOCK_LEVEL_NONE) as [->|Hne].
    + destruct (refused_returns s h OPLOCK_LEVEL_NONE Hok H1 H2) as (n & ln & s' & Heq).
      exists OPLOCK_LEVEL_NONE, n, ln, s'. rewrite Hrun. by split_and!.
    + do 4 eexists. split; [exact Hrun|]. split_and!; [done|done|]. intros _. simpl. rewrite lookup_insert_eq. eauto.
  - intros l x Hl.
    destruct (grantLease_run s o op l x requested sh path Hok Ho Hl) as (h & st & H1 & H2 & Hrun & _ & Hb & Ha).
    destruct (Z.eqb_spec st SMB2_LEASE_NONE) as [->|Hne].
    + destruct (refused_returns s h SMB2_LEASE_NONE Hok H1 H2) as (n & ln & s' & Heq).
      exists SMB2_LEASE_NONE, n, ln, s'. rewrite Hrun. by split_and!.
    + pose proof (leaseTableFor_ok s (lease_clientGuid x) Hok) as Hwp.
      apply wp_run in Hwp as (lt & s1 & Ht & -> & _ & Hl1 & Ho1 & _).
      destruct (join_run s1 l x o op st (lease_clientGuid x)) as (tb & Hj & _); [by rewrite Hl1|by rewrite Ho1|].
      unfold mbind, M_bind in Hrun. rewrite Ht, Hj in Hrun. do 4 eexists. split; [exact Hrun|].
      split_and!; [done|done|]. intros _. simpl. rewrite lookup_insert_eq. eexists. split_and!; [done|done|].
      unfold lease_state. simpl. by rewrite lookup_insert_eq.
Qed.

(** C4: A create that asks for the holders of a file to be broken misses none of them:
    every open on the file that is promised more than the create can live with is either
    covered by the asker or is giving the excess up, and the channel that is closed when
    it has is among those the create waits on; and each of those channels is open, owned
    by a break in flight, so that the wait is for something that will be closed. *)
Theorem startHolderBreaks_misses_none (s : server) sh path except b sharedOK :
  reachable server_init caching_step s ->
  exists waits notify leaseNotify s',
    startHolderBreaks sh path except b sharedOK s = Ok ((waits, notify, leaseNotify), s') /\
    (forall c, c ∈ waits -> chan_open (srv_chans s') c /\ exists w, owner_chan s' w = Some c) /\
    (forall o op, indexed s' (Some sh, path) o -> Some o <> except -> opens s' !! o = Some op ->
       covered b op \/ cut_back s' sharedOK waits o op).
Proof.
  intros Hr. pose proof (caching_reachable s Hr) as Hok.
  pose proof (wp_and _ _ _ _ (startHolderBreaks_ok s sh path except b sharedOK Hok)
    (startHolderBreaks_cut s sh path except b sharedOK Hok)) as Hwp.
  apply wp_run in Hwp as ([[w n] ln] & s' & Hrun & (Hok' & _) & Hch & Hcut).
  exists w, n, ln, s'. split_and!; [done| |done].
  intros c Hc. split; [by apply Hch|]. apply (co_chans _ Hok'). by apply Hch.
Qed.

(** Nobody waits for ever on a break: every channel that has been handed out and not
    closed belongs to an oplock or a lease whose break is in flight; the timer of that
    break, the failure to deliver its notification, and the departure of the open each
    return without a panic, whichever comes first, and close it. *)
Theorem break_channel_closed (s : server) (c : chan) :
  reachable server_init caching_step s -> chan_open (srv_chans s) c ->
  (exists o op, opens s !! o = Some op /\ oplock_state (op_oplock op) = OplockBreaking /\
     oplockBreak (op_oplock op) = Some c /\
     (exists s1, expireOplockBreak o (oplockBreakSeq (op_oplock op)) OPLOCK_LEVEL_NONE s = Ok (true, s1) /\
                 c ∈ closed_chans (srv_chans s1)) /\
     (exists s2, sendOplockBreak o false s = Ok (true, s2) /\ c ∈ closed_chans (srv_chans s2)) /\
     (exists s3, releaseOplock o s = Ok (tt, s3) /\ c ∈ closed_chans (srv_chans s3))) \/
  (exists l x, leases s !! l = Some x /\ breaking x = true /\ breakDone x = Some c /\
     (exists s1, expireBreak l (breakSeq x) SMB2_LEASE_NONE s = Ok (true, s1) /\
                 c ∈ closed_chans (srv_chans s1)) /\
     (exists s2, sendLeaseBreak l false s = Ok (true, s2) /\ c ∈ closed_chans (srv_chans s2))).
Proof.
  intros Hr Hc. pose proof (caching_reachable s Hr) as Hok. pose proof (co_chans _ Hok) as Hch.
  destruct (proj2 (proj2 (proj2 Hch)) c Hc) as [[o|l] Hw].
  - left. unfold owner_chan in Hw. destruct (opens s !! o) as [op|] eqn:Ho; [|done]. simpl in Hw.
    pose proof (co_oplock _ Hok _ _ Ho) as Hk. unfold oplock_ok in Hk.
    destruct (oplock_state (op_oplock op)) eqn:Hst; [destruct Hk; congruence..|].
    pose proof (finishOplockBreak_run s o op c OPLOCK_LEVEL_NONE Hch Ho Hst Hw) as Hrun.
    exists o, op. split_and!; [done..| | |].
    + eexists. split.
      * unfold expireOplockBreak, getOpen, deref, mbind, M_bind. rewrite Ho, Z.eqb_refl. exact Hrun.
      * simpl. apply elem_of_union. left. by apply elem_of_singleton.
    + eexists. split.
      * unfold sendOplockBreak, getOpen, deref, mbind, M_bind. rewrite Ho. exact Hrun.
      * simpl. apply elem_of_union. left. by apply elem_of_singleton.
    + unfold releaseOplock, getOpen, deref, mbind, M_bind. rewrite Ho.
      unfold modOplock, modOpen, modify. rewrite Hw. unfold closeChan.
      change (srv_chans (set_opens ?m ?t)) with (srv_chans t). rewrite close_chan_Ok by done.
      eexists. split; [done|]. simpl. apply elem_of_union. left. by apply elem_of_singleton.
  - right. unfold owner_chan in Hw. destruct (leases s !! l) as [x|] eqn:Hl; [|done]. simpl in Hw.
    destruct (co_lease _ Hok _ _ Hl) as [_ Hx]. destruct (breaking x) eqn:Hb; [|congruence].
    pose proof (finishBreak_run s l x c SMB2_LEASE_NONE Hch Hl Hb Hw) as Hrun.
    exists l, x. split_and!; [done..| |].
    + eexists. split.
      * unfold expireBreak, getLease, deref, mbind, M_bind. rewrite Hl, Z.eqb_refl. exact Hrun.
      * simpl. apply elem_of_union. left. by apply elem_of_singleton.
    + eexists. split.
      * unfold sendLeaseBreak, leaseBreakNotice, getLease, deref, mbind, M_bind. rewrite Hl. exact Hrun.
      * simpl. apply elem_of_union. left. by apply elem_of_singleton.
Qed.

(** ** Two races and a gap

    An acknowledgment looks at the break under the lock of the open, lets go of
    it, and ends the break under the lock again.  What it found may have changed
    in between. *)

(** A break that is deepened while an acknowledgment is being weighed is lost.  The
    holder was told to fall back to level II and answers so; before the answer takes
    effect a second conflict asks for the oplock to go altogether and is handed the
    channel of the break to wait on.  The answer then ends the break: the channel is
    closed, which lets the second conflict carry on, and the holder still holds level II.
    An answer weighed a moment later would have been turned down. *)
Theorem ackOplock_loses_deeper_break s o op :
  reachable server_init caching_step s ->
  opens s !! o = Some op -> oplock_state (op_oplock op) = OplockBreaking ->
  oplockBreakTo (op_oplock op) = OPLOCK_LEVEL_II ->
  (oplockLevel (op_oplock op) = OPLOCK_LEVEL_EXCLUSIVE \/ oplockLevel (op_oplock op) = OPLOCK_LEVEL_BATCH) ->
  exists a c s1 s2 op2,
    ackOplockCheck o OPLOCK_LEVEL_II s = Ok (a, s) /\
    startOplockBreak o OPLOCK_LEVEL_NONE s = Ok ((Some c, true), s1) /\
    ackOplockCheck o OPLOCK_LEVEL_II s1 = Ok (AckRefuse STATUS_REQUEST_NOT_ACCEPTED, s1) /\
    ackOplockFinish o a s1 = Ok ((STATUS_OK, OPLOCK_LEVEL_II), s2) /\
    c ∈ closed_chans (srv_chans s2) /\
    opens s2 !! o = Some op2 /\ oplock_state (op_oplock op2) = OplockHeld /\
    oplockLevel (op_oplock op2) = OPLOCK_LEVEL_II.
Proof.
  intros Hr Ho Hst Hto Hlv. pose proof (caching_reachable s Hr) as Hok.
  pose proof (co_oplock _ Hok _ _ Ho) as Hk. unfold oplock_ok in Hk. rewrite Hst in Hk.
  destruct Hk as (_ & _ & [c Hc]).
  assert (forall to t op', opens t !! o = Some op' -> oplock_state (op_oplock op') = OplockBreaking ->
    oplockLevel (op_oplock op') = oplockLevel (op_oplock op) -> oplockBreakTo (op_oplock op') = to ->
    ackOplockCheck o OPLOCK_LEVEL_II t =
    Ok (if OPLOCK_LEVEL_II >? to then AckRefuse STATUS_REQUEST_NOT_ACCEPTED
        else AckComplete OPLOCK_LEVEL_II STATUS_OK OPLOCK_LEVEL_II, t)) as Hack.
  { intros to t op' E1 E2 E3 E4. unfold ackOplockCheck, getOpen, deref, mbind, M_bind.
    rewrite E1, E3, E4, bool_decide_eq_true_2 by done. by destruct Hlv as [-> | ->]. }
  set (k1 := Oplock (oplockLevel (op_oplock op)) OplockBreaking OPLOCK_LEVEL_NONE (Some c) (oplockBreakSeq (op_oplock op))).
  set (s1 := with_oplock s o op k1 (srv_chans s)).
  assert (startOplockBreak o OPLOCK_LEVEL_NONE s = Ok ((Some c, true), s1)) as Hstart.
  { apply wp_eq. unfold startOplockBreak. apply wp_bind. eapply wp_getOpen; [done|]. rewrite Hst, Hto. simpl.
    apply wp_bind, wp_modOpen, wp_ret. rewrite Hc, (alter_insert_eq _ _ _ op) by done. rewrite Hst, Hc.
    unfold s1. by destruct s. }
  assert (opens s1 !! o = Some (set_oplock k1 op)) as Ho1 by (simpl; by rewrite lookup_insert_eq).
  assert (caching_ok False s1) as Hok1.
  { pose proof (startOplockBreak_ok s o op OPLOCK_LEVEL_NONE Hok Ho) as Hw. unfold wp in Hw.
    rewrite Hstart in Hw. by destruct Hw as [? _]. }
  pose proof (finishOplockBreak_run s1 o _ c OPLOCK_LEVEL_II (co_chans _ Hok1) Ho1 eq_refl eq_refl) as Hfin.
  do 5 eexists. split; [by rewrite (Hack OPLOCK_LEVEL_II s op)|]. split; [done|].
  split; [by rewrite (Hack OPLOCK_LEVEL_NONE s1 _ Ho1)|].
  split; [simpl; unfold completeOplockBreak, mbind, M_bind; by rewrite Hfin|].
  split; [simpl; apply elem_of_union; left; by apply elem_of_singleton|].
  simpl. rewrite lookup_insert_eq. by split_and!.
Qed.

(** ** Runs *)

Definition exec {A} (m : M A) (s : server) : server := match m s with Ok (_, s') => s' | _ => s end.
Definition returned {A} (m : M A) (s : server) : bool := match m s with Ok _ => true | _ => false end.
Lemma ran_exec {A} (m : M A) s : returned m s = true -> ran m s (exec m s).
Proof. unfold returned, ran, exec. destruct (m s) as [[a s']| | |]; [eauto|done..]. Qed.

Definition emptyServer : server := Server ∅ ∅ ∅ ∅ ∅ no_chans.
Definition anOpen (sh : shareId) (path : string) (d : Z) (g : guid) : open :=
  Open (Some sh) path (TrimPath path) d g 0 false FILE_READ_DATA FILE_SHARE_READ false noOplock None.
Definition withOpen (o : openId) (op : open) (s : server) : server :=
  exec (indexOpen o) (set_opens (<[o := op]> (opens s)) s).

Lemma withOpen_reachable s o op :
  reachable server_init tidy_step s ->
  op_oplock op = noOplock -> op_lease op = None -> opens s !! o = None ->
  bool_decide (map_Forall (fun _ op' => durableFileID op' <> durableFileID op) (opens s)) = true ->
  returned (indexOpen o) (set_opens (<[o := op]> (opens s)) s) = true ->
  reachable server_init tidy_step (withOpen o op s).
Proof.
  intros Hr Hk Hl Hn Hd Hret. eapply reach_step; [exact Hr|]. apply (tidy_act _ _ (ANewOpen o op)); [|done|].
  - split_and!; [done..|]. intros o' op' E. by apply (bool_decide_eq_true_1 _ Hd o' op').
  - by apply ran_exec.
Qed.

(** A lease reaches across shares.  A client holds a read lease on a file that another
    client also caches; it opens a file of the same name on a different share under the
    same lease key.  [leaseFor] compares the path alone, so the key is taken to name the
    same file; [grantLease] finds nobody else on the second share and hands the lease
    write caching.  The one lease object now lets the first client write-cache the file on
    the first share, beside the read cache of the other client. *)
Theorem lease_spans_shares :
  exists s o1 o2 op1 op2 k,
    s = exec (r ← leaseFor 2 22 "f"; _ ← grantLease 2 r.1 SMB2_LEASE_READ_CACHING 0 "f";
              r ← leaseFor 1 11 "f"; _ ← grantLease 1 r.1 leaseStates 0 "f";
              r ← leaseFor 1 11 "f"; grantLease 3 r.1 leaseStates 1 "f")
             (withOpen 3 (anOpen 1 "f" 30 1) (withOpen 2 (anOpen 0 "f" 20 2)
               (withOpen 1 (anOpen 0 "f" 10 1) emptyServer))) /\
    indexed s k o1 /\ indexed s k o2 /\ o1 <> o2 /\
    opens s !! o1 = Some op1 /\ opens s !! o2 = Some op2 /\
    ~ same_view op1 op2 /\ exclusive s op1 = true /\ promised s op2 = true.
Proof.
  eexists _, 1%nat, 2%nat, _, _, (Some 0%nat, "f"). split; [reflexivity|].
  split_and!; [exists 10; vm_compute; reflexivity|exists 20; vm_compute; reflexivity|done
    |vm_compute; reflexivity|vm_compute; reflexivity| |vm_compute; reflexivity|vm_compute; reflexivity].
  intros [[H _]|[H _]]; vm_compute in H; discriminate H.
Qed.

(** A rename races a grant.  Client 2 holds level II on ["f"], and client 1 is opening the
    file: its open is in the index and its oplock not yet weighed.  A rename to ["g"] has
    both opens in its list and moves them one at a time.  Between the two moves the create of
    client 1 finds nobody else on ["f"] and is granted a batch oplock; the second move then
    carries it over to ["g"], beside the read cache of client 2. *)
Theorem rename_meets_a_grant :
  exists s0 s o1 o2 op1 op2 k,
    s0 = withOpen 1 (anOpen 0 "f" 10 1) (exec (grantOplock 2 OPLOCK_LEVEL_II 0 "f")
           (withOpen 2 (anOpen 0 "f" 20 2) emptyServer)) /\
    (exists moved, opensOn 0 "f" None s0 = Ok (moved, s0) /\ o1 ∈ moved /\ o2 ∈ moved) /\
    s = exec (_ ← moveOpen 2 "g"; _ ← grantOplock 1 OPLOCK_LEVEL_BATCH 0 "f"; moveOpen 1 "g") s0 /\
    indexed s k o1 /\ indexed s k o2 /\ o1 <> o2 /\
    opens s !! o1 = Some op1 /\ opens s !! o2 = Some op2 /\
    ~ same_view op1 op2 /\ exclusive s op1 = true /\ promised s op2 = true.
Proof.
  eexists _, _, 1%nat, 2%nat, _, _, (Some 0%nat, "g"). split; [reflexivity|].
  split; [eexists; split; [vm_compute; reflexivity|split; apply list_elem_of_In; vm_compute; tauto]|].
  split; [reflexivity|].
  split_and!; [exists 10; vm_compute; reflexivity|exists 20; vm_compute; reflexivity|done
    |vm_compute; reflexivity|vm_compute; reflexivity| |vm_compute; reflexivity|vm_compute; reflexivity].
  intros [[H _]|[_ H]]; [vm_compute in H; discriminate H|by apply H].
Qed.

Section witnesses.
(** Client 1 has a batch oplock on ["f"]; client 2 opens it. *)
Let w1 : server := withOpen 1 (anOpen 0 "f" 10 1) emptyServer.
Let w2 : server := exec (grantOplock 1 OPLOCK_LEVEL_BATCH 0 "f") w1.
Let w3 : server := withOpen 2 (anOpen 0 "f" 20 2) w2.
(** Client 2 asks for the holders to be broken, keeping their read caches. *)
Let w4 : server := exec (startHolderBreaks 0 "f" None (Asker 2 None false) true) w2.

Lemma w1_reachable : reachable server_init tidy_step w1.
Proof. by apply withOpen_reachable; [apply reach_init|..]. Qed.
Lemma w2_tidy : reachable server_init tidy_step w2.
Proof.
  eapply reach_step; [exact w1_reachable|].
  apply (tidy_act _ _ (AGrantOplock 1 OPLOCK_LEVEL_BATCH 0 "f")); [|done|by apply ran_exec].
  split; [done|]. by exists (anOpen 0 "f" 10 1).
Qed.
Lemma w2_reachable : reachable server_init caching_step w2.
Proof. exact (tidy_runs w2 w2_tidy). Qed.
Lemma w4_reachable : reachable server_init caching_step w4.
Proof.
  eapply reach_step; [exact w2_reachable|].
  exists (ABreakHolders 0 "f" None (Asker 2 None false) true). split; [done|]. by apply ran_exec.
Qed.

Lemma caching_single_writer_witness :
  exists op1 op2, opens w3 !! 1%nat = Some op1 /\ opens w3 !! 2%nat = Some op2 /\
    exclusive w3 op1 = true /\ promised w3 op2 = false.
Proof.
  do 2 eexists. split; [vm_compute; reflexivity|]. split; [vm_compute; reflexivity|].
  split; [vm_compute; reflexivity|].
  apply (caching_single_writer w3 (Some 0%nat, "f") 1 2 (set_oplock (Oplock OPLOCK_LEVEL_BATCH OplockHeld 0 None 0) (anOpen 0 "f" 10 1))
    (anOpen 0 "f" 20 2)).
  - by apply withOpen_reachable; [exact w2_tidy|..].
  - exists 10. reflexivity.
  - exists 20. reflexivity.
  - done.
  - reflexivity.
  - reflexivity.
  - intros [[H _]|[_ H]]; [discriminate H|by apply H].
  - reflexivity.
Defined.

(** Client 2 has ["f"] open beside the batch oplock of client 1 and asks for one too. *)
Lemma grants_weigh_the_others_witness :
  exclusive w3 (set_oplock (Oplock OPLOCK_LEVEL_BATCH OplockHeld 0 None 0) (anOpen 0 "f" 10 1)) = true /\
  exists n ln s', grantOplock 2 OPLOCK_LEVEL_BATCH 0 "f" w3 = Ok ((OPLOCK_LEVEL_NONE, n, ln), s').
Proof.
  split; [reflexivity|].
  destruct (grants_weigh_the_others w3 2 (anOpen 0 "f" 20 2) 0 "f" OPLOCK_LEVEL_BATCH) as [H _].
  - apply tidy_runs. by apply withOpen_reachable; [exact w2_tidy|..].
  - reflexivity.
  - reflexivity.
  - destruct (H eq_refl) as (level & n & ln & s' & Hrun & _ & Hb & _). exists n, ln, s'. rewrite Hrun.
    assert (beside w3 0 "f" 2 1 (set_oplock (Oplock OPLOCK_LEVEL_BATCH OplockHeld 0 None 0) (anOpen 0 "f" 10 1))) as Hw.
    { split_and!; [done|exists 10; reflexivity|reflexivity]. }
    destruct (Hb _ _ Hw) as [_ Hx]; [by intros [_ [=]]|].
    destruct (Z.eq_dec level OPLOCK_LEVEL_NONE) as [->|Hn]; [done|]. by specialize (Hx Hn).
Defined.

Lemma server_well_formed_witness : index_ok w4 /\ exists op, opens w4 !! 1%nat = Some op /\ oplock_state (op_oplock op) = OplockBreaking /\ oplock_ok (op_oplock op).
Proof.
  destruct (server_well_formed w4 w4_reachable) as (Hi & Ho & _). split; [exact Hi|].
  eexists. split; [vm_compute; reflexivity|]. split; [reflexivity|]. apply (Ho 1%nat). vm_compute. reflexivity.
Defined.

Lemma startHolderBreaks_misses_none_witness :
  exists waits notify leaseNotify s',
    startHolderBreaks 0 "f" None (Asker 2 None false) true w2 = Ok ((waits, notify, leaseNotify), s') /\
    waits <> [] /\ forall c, c ∈ waits -> chan_open (srv_chans s') c.
Proof.
  destruct (startHolderBreaks_misses_none w2 0 "f" None (Asker 2 None false) true w2_reachable)
    as (w & n & ln & s' & H1 & H2 & _).
  exists w, n, ln, s'. split_and!; [done| |apply H2].
  intros ->. vm_compute in H1. discriminate H1.
Defined.

Lemma break_channel_closed_witness :
  exists o op, opens w4 !! o = Some op /\ oplockBreak (op_oplock op) = Some 0%nat.
Proof.
  destruct (break_channel_closed w4 0 w4_reachable) as [(o & op & ? & _ & ? & _)|(l & x & H & _)].
  - vm_compute. split; [lia|done].
  - by exists o, op.
  - vm_compute in H. by destruct l.
Defined.

Lemma ackOplock_loses_deeper_break_witness :
  exists op a s1 s2, opens w4 !! 1%nat = Some op /\ oplockLevel (op_oplock op) = OPLOCK_LEVEL_BATCH /\
    startOplockBreak 1 OPLOCK_LEVEL_NONE w4 = Ok ((Some 0%nat, true), s1) /\
    ackOplockFinish 1 a s1 = Ok ((STATUS_OK, OPLOCK_LEVEL_II), s2).
Proof.
  destruct (ackOplock_loses_deeper_break w4 1
    (set_oplock (Oplock OPLOCK_LEVEL_BATCH OplockBreaking OPLOCK_LEVEL_II (Some 0%nat) 1) (anOpen 0 "f" 10 1))
    w4_reachable) as (a & c & s1 & s2 & op2 & _ & H1 & _ & H2 & _); [reflexivity..|by right|].
  eexists _, a, s1, s2. split_and!; [vm_compute; reflexivity|reflexivity| |done].
  rewrite H1. vm_compute in H1. by injection H1 as <- _.
Defined.
End witnesses.
