(* ===== verification/Upload.v ===== *)
(** The reassembly of a client's writes into the parts of a multipart upload:
    the [upload] of [open.go] and what is done with it under its mutex.

    Writes come in any order.  What continues the file is kept in [buf], what
    lies ahead of it waits in [pending], and every [maxLength] bytes of [buf]
    leave as a part.  The operations below are the bodies of the methods that
    run with [u.mu] held; the parts they hand back are sent afterwards.

    The second half says what an upload stands for: a file, as a partial
    function from offsets to bytes, which a write lays its bytes over and a cut
    ends ([writeSpec], [cutSpec]).  [stands_for] relates the two, and every
    operation keeps it. *)
From S2P Require Import Prelude Bytes ServerState.

Module Upload.

(** ** Data *)
Inductive upErr :=
| ErrRewriteSent       (* write: rewriting a part of the file that has already been stored *)
| ErrPart (e : string) (* what a part failed with *)
| ErrFrontMissing      (* flush: the first bytes of the file never arrived *)
| ErrGapTooWide        (* flush: the file leaves more unwritten than the server will fill in *)
| ErrNonContiguous.    (* flush: non-contiguous pending write data *)
#[export] Instance upErr_eq_dec : EqDecision upErr.
Proof. solve_decision. Defined.
Abbreviation out := (outcome upErr).

Record uploadChunk := UploadChunk { c_offset : Z; c_data : list Z }.
#[export] Instance uploadChunk_eq_dec : EqDecision uploadChunk.
Proof. solve_decision. Defined.

Record sentPart := SentPart { p_number : Z; p_offset : Z; p_size : Z; p_eTag : string }.
#[export] Instance sentPart_eq_dec : EqDecision sentPart.
Proof. solve_decision. Defined.

(** The fields of [upload] that hold the bytes still here. *)
Record stream := Stream {
  totalSize : Z;
  nextOffset : Z;
  pending : gmap Z uploadChunk;
  buf : list Z;
  bufOffset : Z;
}.

Record upload := Up {
  uploadID : string;
  u_path : string;
  partCount : Z;
  parts : list sentPart;
  strm : stream;
  maxLength : Z;
  lastSent : list Z;
  lastSentOffset : Z;
  head : list Z;
  partErr : option string;
  inFlightBytes : Z;
  writers : gset openId;
}.

(** What [open.startUpload] makes. *)
Definition newUpload (id path : string) (maxLen : Z) : upload :=
  Up id path 0 [] (Stream 0 0 ∅ [] 0) maxLen [] 0 [] None 0 ∅.

Definition with_strm (s : stream) (u : upload) : upload :=
  Up (uploadID u) (u_path u) (partCount u) (parts u) s (maxLength u) (lastSent u) (lastSentOffset u)
     (head u) (partErr u) (inFlightBytes u) (writers u).
Definition with_head (h : list Z) (u : upload) : upload :=
  Up (uploadID u) (u_path u) (partCount u) (parts u) (strm u) (maxLength u) (lastSent u) (lastSentOffset u)
     h (partErr u) (inFlightBytes u) (writers u).
Definition with_writers (w : gset openId) (u : upload) : upload :=
  Up (uploadID u) (u_path u) (partCount u) (parts u) (strm u) (maxLength u) (lastSent u) (lastSentOffset u)
     (head u) (partErr u) (inFlightBytes u) w.
Definition with_parts (ps : list sentPart) (u : upload) : upload :=
  Up (uploadID u) (u_path u) (partCount u) ps (strm u) (maxLength u) (lastSent u) (lastSentOffset u)
     (head u) (partErr u) (inFlightBytes u) (writers u).
Definition with_last (d : list Z) (o : Z) (u : upload) : upload :=
  Up (uploadID u) (u_path u) (partCount u) (parts u) (strm u) (maxLength u) d o
     (head u) (partErr u) (inFlightBytes u) (writers u).
Definition with_partCount (n : Z) (u : upload) : upload :=
  Up (uploadID u) (u_path u) n (parts u) (strm u) (maxLength u) (lastSent u) (lastSentOffset u)
     (head u) (partErr u) (inFlightBytes u) (writers u).
Definition with_inFlight (n : Z) (u : upload) : upload :=
  Up (uploadID u) (u_path u) (partCount u) (parts u) (strm u) (maxLength u) (lastSent u) (lastSentOffset u)
     (head u) (partErr u) n (writers u).
Definition with_partErr (e : option string) (u : upload) : upload :=
  Up (uploadID u) (u_path u) (partCount u) (parts u) (strm u) (maxLength u) (lastSent u) (lastSentOffset u)
     (head u) e (inFlightBytes u) (writers u).

(** A part on its way: the number it goes under and what it holds. *)
Abbreviation slab := (Z * uploadChunk)%type.

(** ** Constants *)
Definition maxGapFilled : Z := 64 << 20.
Definition uploadHeadKept : Z := 8 * 1024 * 1024.
Definition partsInFlightBudget : Z := 64 * 1024 * 1024.
Definition minPartsInFlight : Z := 4.
Definition maxPartsInFlight : Z := 16.

Definition partsInFlight (partSize : Z) : Z :=
  if partSize =? 0 then minPartsInFlight
  else Z.min (Z.max (partsInFlightBudget / partSize) minPartsInFlight) maxPartsInFlight.
Definition pacingCapacity (partSize : Z) : Z := u64 (partSize * partsInFlight partSize).

(** ** Operations *)
Definition leave (op : openId) (u : upload) : upload * bool :=
  let w := writers u ∖ {[op]} in
  (with_writers w u, bool_decide (w <> ∅)).

(** Go's [copy(l[k:], src)]: as much of [src] as [l] has room for. *)
Definition copyAt (l : list Z) (k : Z) (src : list Z) : list Z :=
  take (Z.to_nat k) l ++ take (length l - Z.to_nat k) src ++ drop (Z.to_nat k + length src) l.

Definition readBuffered (offset length : Z) (u : upload) : out (option (list Z)) :=
  let s := strm u in
  let e := u64 (offset + length) in
  if e <=? zlen (head u) then d ← slice (head u) offset e; mret (Some d)
  else if (lastSentOffset u <=? offset) && (e <=? lastSentOffset u + zlen (lastSent u)) then
    d ← slice (lastSent u) (offset - lastSentOffset u) (zlen (lastSent u));
    mret (Some (take (Z.to_nat length) d ++ replicate (Z.to_nat length - List.length d) 0))
  else if (offset <? bufOffset s) || (e >? bufOffset s + zlen (buf s)) then mret None
  else
    let start := offset - bufOffset s in
    d ← slice (buf s) start (u64 (start + length)); mret (Some d).

(** What a cut makes of what is queued. *)
Definition cutPending (n : Z) (p : gmap Z uploadChunk) : gmap Z uploadChunk :=
  map_imap (fun offset ch =>
    if offset >=? n then None
    else if u64 (offset + zlen (c_data ch)) >? n
         then Some (UploadChunk (c_offset ch) (take (Z.to_nat (n - offset)) (c_data ch)))
         else Some ch) p.

Definition cutTo (n : Z) (s : stream) : out (stream * bool) :=
  if n >=? totalSize s then mret (s, true)
  else if n <? bufOffset s then mret (s, false)
  else
    b ← slice (buf s) 0 (n - bufOffset s);
    mret (Stream n n (cutPending n (pending s)) b (bufOffset s), true).

Definition keepHead (headKept offset : Z) (data : list Z) (h : list Z) : list Z :=
  if offset >=? headKept then h
  else
    let take := if u64 (offset + zlen data) >? headKept then take (Z.to_nat (headKept - offset)) data else data in
    let e := u64 (offset + zlen take) in
    let h := if e >? zlen h then h ++ replicate (Z.to_nat (e - zlen h)) 0 else h in
    copyAt h offset take.

(** The inner loop of [takePending], over the queue in whatever order the map
    hands it out: what is left of the queue, and the chunk to take next. *)
Fixpoint scanPending (chs : list uploadChunk) (nextOff : Z) (p : gmap Z uploadChunk) (next : option uploadChunk)
    : gmap Z uploadChunk * option uploadChunk :=
  match chs with
  | [] => (p, next)
  | ch :: chs =>
      if c_offset ch >? nextOff then scanPending chs nextOff p next
      else if u64 (c_offset ch + zlen (c_data ch)) <=? nextOff
      then scanPending chs nextOff (delete (c_offset ch) p) next
      else scanPending chs nextOff p
             (match next with
              | Some n => if c_offset ch <? c_offset n then Some ch else Some n
              | None => Some ch
              end)
  end.

Fixpoint takePending_loop (fuel : nat) (s : stream) : out stream :=
  match fuel with
  | O => Stuck
  | S fuel =>
      let '(p, next) := scanPending (map snd (map_to_list (pending s))) (nextOffset s) (pending s) None in
      match next with
      | None => mret (Stream (totalSize s) (nextOffset s) p (buf s) (bufOffset s))
      | Some ch =>
          let bo := if zlen (buf s) =? 0 then nextOffset s else bufOffset s in
          d ← slice (c_data ch) (nextOffset s - c_offset ch) (zlen (c_data ch));
          let n := u64 (c_offset ch + zlen (c_data ch)) in
          takePending_loop fuel (Stream n n (delete (c_offset ch) p) (buf s ++ d) bo)
      end
  end.
Definition takePending (s : stream) : out stream := takePending_loop (S (size (pending s))) s.

Definition gapAhead (s : stream) : Z :=
  if bool_decide (pending s = ∅) then 0
  else
    let lowest := foldr (fun kv lo => if kv.1 <? lo then kv.1 else lo) maxU64 (map_to_list (pending s)) in
    if lowest <=? nextOffset s then 0 else lowest - nextOffset s.

Definition fillGap (maxLen gap : Z) (s : stream) : out (stream * Z) :=
  let hole := Z.min gap maxLen in
  if hole =? 0 then mret (s, 0)
  else
    let bo := if zlen (buf s) =? 0 then nextOffset s else bufOffset s in
    let n := u64 (nextOffset s + hole) in
    s ← takePending (Stream n n (pending s) (buf s ++ replicate (Z.to_nat hole) 0) bo);
    mret (s, hole).

Fixpoint takeSlabs_loop (fuel : nat) (u : upload) : out (upload * list slab) :=
  let s := strm u in
  if zlen (buf s) >=? maxLength u then
    match fuel with
    | O => Stuck
    | S fuel =>
        let n := partCount u + 1 in
        d ← slice (buf s) 0 (maxLength u);
        b ← slice (buf s) (maxLength u) (zlen (buf s));
        let sl := UploadChunk (bufOffset s) d in
        let s' := Stream (totalSize s) (nextOffset s) (pending s) b (u64 (bufOffset s + maxLength u)) in
        r ← takeSlabs_loop fuel (with_last d (bufOffset s) (with_strm s' (with_partCount n u)));
        mret (r.1, (n, sl) :: r.2)
    end
  else mret (u, []).
Definition takeSlabs (u : upload) : out (upload * list slab) := takeSlabs_loop (length (buf (strm u))) u.

Definition cutBackToSent (n : Z) (u : upload) : out (upload * bool) :=
  let s := strm u in
  if (n =? 0) || (n >=? bufOffset s) then mret (u, false)
  else if (n >? lastSentOffset u) && (n <? lastSentOffset u + zlen (lastSent u)) then
    let kept := filter (fun p => p_offset p < lastSentOffset u) (parts u) in
    b ← slice (lastSent u) 0 (n - lastSentOffset u);
    mret (with_last [] 0 (with_strm (Stream n n ∅ b (lastSentOffset u)) (with_parts kept u)), true)
  else if negb (existsb (fun p => u64 (p_offset p + p_size p) =? n) (parts u)) then mret (u, false)
  else
    let kept := filter (fun p => p_offset p < n) (parts u) in
    mret (with_strm (Stream n n ∅ [] n) (with_parts kept u), true).

(** [open.write] between taking and releasing [u.mu]: the upload it leaves, and
    the error or the parts to send.  An upload that a write is refused by has
    been touched all the same: its head and its writers. *)
Definition write (headKept : Z) (op : openId) (offset : Z) (data : list Z) (u : upload)
    : out (upload * (upErr + list slab)) :=
  match partErr u with
  | Some e => mret (u, inl (ErrPart e))
  | None =>
      let u := with_head (keepHead headKept offset data (head u)) (with_writers ({[op]} ∪ writers u) u) in
      let s := strm u in
      if offset <? nextOffset s then
        if offset <? bufOffset s then mret (u, inl ErrRewriteSent)
        else
          let k := offset - bufOffset s in
          let written := Z.min (zlen data) (zlen (buf s) - k) in
          let b := copyAt (buf s) k data in
          let s :=
            if written <? zlen data then
              let n := u64 (offset + zlen data) in
              Stream n n (pending s) (b ++ drop (Z.to_nat written) data) (bufOffset s)
            else Stream (totalSize s) (nextOffset s) (pending s) b (bufOffset s) in
          r ← takeSlabs (with_strm s u); mret (r.1, inr r.2)
      else
        s ← takePending (Stream (totalSize s) (nextOffset s) (<[offset := UploadChunk offset data]> (pending s))
                           (buf s) (bufOffset s));
        r ← takeSlabs (with_strm s u); mret (r.1, inr r.2)
  end.

(** The loop of [flush] that fills the holes in front of what is queued.  The
    measure falls with every hole: either a queued write is reached, or a whole
    part of zeros goes.  A hole that is not filled ends it with an error, the
    holes before it filled and their parts sent. *)
Fixpoint fillGaps_loop (fuel : nat) (filled : Z) (u : upload) : out (upload * list slab * option upErr) :=
  match fuel with
  | O => Stuck
  | S fuel =>
      let s := strm u in
      let gap := gapAhead s in
      if gap =? 0 then mret (u, [], None)
      else if nextOffset s =? 0 then mret (u, [], Some ErrFrontMissing)
      else if gap >? maxGapFilled - filled then mret (u, [], Some ErrGapTooWide)
      else
        r ← fillGap (maxLength u) gap s;
        if r.2 =? 0 then mret (u, [], None)
        else
          t ← takeSlabs (with_strm r.1 u);
          v ← fillGaps_loop fuel (filled + r.2) t.1;
          mret (v.1.1, t.2 ++ v.1.2, v.2)
  end.
Definition highest (p : gmap Z uploadChunk) : Z := foldr (fun kv hi => Z.max kv.1 hi) 0 (map_to_list p).
Definition fillFuel (filled : Z) (u : upload) : nat :=
  let s := strm u in
  (size (pending s) + Z.to_nat (Z.min (highest (pending s) - nextOffset s) (maxGapFilled - filled) / maxLength u))%nat.

(** [open.flush] up to the last part being handed over: the upload it leaves,
    the parts it sends, in order, and the error it gives up with. *)
Definition flush_send (u : upload) : out (upload * list slab * option upErr) :=
  s ← takePending (strm u);
  let u := with_strm s u in
  r ← fillGaps_loop (S (fillFuel 0 u)) 0 u;
  let '(u, slabs, err) := r in
  let s := strm u in
  if bool_decide (err <> None) then mret (u, slabs, err)
  else if negb (bool_decide (pending s = ∅)) then mret (u, slabs, Some ErrNonContiguous)
  else if 0 <? zlen (buf s) then
    let n := partCount u + 1 in
    mret (with_strm (Stream (totalSize s) (nextOffset s) (pending s) [] (nextOffset s)) (with_partCount n u),
          slabs ++ [(n, UploadChunk (bufOffset s) (buf s))], None)
  else mret (u, slabs, None).

(** The rest of [open.flush], once every part has landed: what the upload is
    completed with.  [slices.SortFunc] by number, as an insertion sort. *)
Fixpoint insertPart (p : sentPart) (ps : list sentPart) : list sentPart :=
  match ps with
  | [] => [p]
  | q :: qs => if p_number p <=? p_number q then p :: ps else q :: insertPart p qs
  end.
Definition sortParts (ps : list sentPart) : list sentPart := foldr insertPart [] ps.
Definition flush_complete (u : upload) : out (list (Z * string)) :=
  match partErr u with
  | Some e => Err (ErrPart e)
  | None => mret (map (fun p => (p_number p, p_eTag p)) (sortParts (parts u)))
  end.

(** The two halves of [sendPart] that hold [u.mu]: the part is counted, and the
    part has landed or failed. *)
Definition sendPart_begin (sl : slab) (u : upload) : upload :=
  with_inFlight (u64 (inFlightBytes u + zlen (c_data sl.2))) u.
Definition sendPart_end (sl : slab) (r : string + string) (u : upload) : upload :=
  let u := with_inFlight (u64 (inFlightBytes u - zlen (c_data sl.2))) u in
  match r with
  | inl e => match partErr u with None => with_partErr (Some e) u | Some _ => u end
  | inr eTag => with_parts (parts u ++ [SentPart sl.1 (c_offset sl.2) (zlen (c_data sl.2)) eTag]) u
  end.

(** ** What an upload stands for *)
Definition file := Z -> option Z.
Definition emptyFile : file := fun _ => None.
Definition writeSpec (m : file) (o : Z) (d : list Z) : file := fun i =>
  if (o <=? i) && (i <? o + zlen d) then d !! Z.to_nat (i - o) else m i.
Definition cutSpec (m : file) (n : Z) : file := fun i => if i <? n then m i else None.
(** What a file system reads where nothing was written. *)
Definition zeroSpec (m : file) (n : Z) : file := fun i =>
  if (0 <=? i) && (i <? n) then Some (default 0 (m i)) else m i.

Definition covers (ch : uploadChunk) (i : Z) : Prop := c_offset ch <= i < c_offset ch + zlen (c_data ch).

(** The queue answers for an offset with the chunk that starts lowest among
    those that cover it: that is the one [takePending] takes the byte from. *)
Definition queued (p : gmap Z uploadChunk) (i : Z) (ob : option Z) : Prop :=
  match ob with
  | None => forall k ch, p !! k = Some ch -> ~ covers ch i
  | Some b => exists k ch, p !! k = Some ch /\ covers ch i /\ c_data ch !! Z.to_nat (i - c_offset ch) = Some b /\
                forall k' ch', p !! k' = Some ch' -> covers ch' i -> c_offset ch <= c_offset ch'
  end.

Definition pend_ok (p : gmap Z uploadChunk) : Prop :=
  forall k ch, p !! k = Some ch -> c_offset ch = k /\ 0 <= k /\ k + zlen (c_data ch) < 2 ^ 64.

(** [base] is what has left the buffer as parts. *)
Record stands_for (base : list Z) (s : stream) (m : file) : Prop := StandsFor {
  sf_base : zlen base = bufOffset s;
  sf_next : nextOffset s = bufOffset s + zlen (buf s);
  sf_total : totalSize s = nextOffset s;
  sf_u64 : nextOffset s < 2 ^ 64;
  sf_pend : pend_ok (pending s);
  sf_here : forall i, 0 <= i < nextOffset s -> m i = (base ++ buf s) !! Z.to_nat i;
  sf_ahead : forall i, nextOffset s <= i -> queued (pending s) i (m i);
}.

(** ** Taking what is queued *)
Definition spent (N : Z) (ch : uploadChunk) : bool :=
  (c_offset ch <=? N) && (u64 (c_offset ch + zlen (c_data ch)) <=? N).
Definition live (N : Z) (ch : uploadChunk) : bool :=
  (c_offset ch <=? N) && negb (u64 (c_offset ch + zlen (c_data ch)) <=? N).

Lemma scanPending_left l N p nx k :
  (scanPending l N p nx).1 !! k = if existsb (fun c => spent N c && (c_offset c =? k)) l then None else p !! k.
Proof.
  revert p nx. induction l as [|c l IH]; intros p nx; [done|]. cbn [scanPending existsb]. rewrite Z.gtb_ltb.
  unfold spent at 1. destruct (Z.ltb_spec N (c_offset c)), (Z.leb_spec (c_offset c) N); try lia; simpl; [apply IH|].
  destruct (_ <=? N); simpl; rewrite IH; [|done]. destruct (existsb _ l); [by rewrite orb_true_r|]. rewrite orb_false_r.
  destruct (Z.eqb_spec (c_offset c) k) as [->|]; [by rewrite lookup_delete_eq|by rewrite lookup_delete_ne].
Qed.

Definition least_live (l : list uploadChunk) (N : Z) (nx r : option uploadChunk) : Prop :=
  match r with
  | None => nx = None /\ forall c, c ∈ l -> live N c = false
  | Some c => (nx = Some c \/ c ∈ l /\ live N c = true) /\
              (forall c', c' ∈ l -> live N c' = true -> c_offset c <= c_offset c') /\
              (forall n, nx = Some n -> c_offset c <= c_offset n)
  end.

Lemma scanPending_next l N p nx : least_live l N nx (scanPending l N p nx).2.
Proof.
  revert p nx. induction l as [|c l IH]; intros p nx.
  { destruct nx as [n|]; simpl; [|split; [done|intros c []%elem_of_nil]]. split_and!; [by left|intros c' []%elem_of_nil|].
    intros n' [= ->]. lia. }
  cbn [scanPending]. rewrite Z.gtb_ltb.
  assert (Hdead : live N c = false -> forall q, least_live l N nx (scanPending l N q nx).2 ->
    least_live (c :: l) N nx (scanPending l N q nx).2).
  { intros Hc q. unfold least_live. destruct (scanPending l N q nx).2 as [r|]; [|set_solver].
    intros (H1 & H2 & H3). split_and!; [set_solver| |done]. intros c' [->|Hin]%elem_of_cons Hl; [congruence|auto]. }
  destruct (Z.ltb_spec N (c_offset c)).
  { apply Hdead; [|done]. unfold live. destruct (Z.leb_spec (c_offset c) N); [lia|done]. }
  destruct (u64 _ <=? N) eqn:Hs; [apply Hdead; [|done]; unfold live; rewrite Hs; apply andb_false_r|].
  assert (Hlive : live N c = true). { unfold live. rewrite Hs. destruct (Z.leb_spec (c_offset c) N); [done|lia]. }
  clear Hdead Hs. set (nx' := match nx with Some n => if c_offset c <? c_offset n then Some c else Some n | None => Some c end).
  specialize (IH p nx'). unfold least_live in *.
  assert (exists n', nx' = Some n' /\ c_offset n' <= c_offset c /\ (n' = c \/ nx = Some n') /\
    (forall n, nx = Some n -> c_offset n' <= c_offset n)) as (n' & Hn' & Hle & Hwho & Hmin).
  { subst nx'. destruct nx as [n|]; [|exists c; naive_solver lia].
    destruct (Z.ltb_spec (c_offset c) (c_offset n)); [exists c|exists n]; naive_solver lia. }
  rewrite Hn' in IH |- *. destruct (scanPending l N p (Some n')).2 as [r|]; [|naive_solver].
  destruct IH as (H1 & H2 & H3). specialize (H3 n' eq_refl). split_and!.
  - destruct H1 as [[= <-]|[]]; set_solver.
  - intros c' [->|Hin]%elem_of_cons Hl; [lia|auto].
  - intros n Hn. specialize (Hmin n Hn). lia.
Qed.

Lemma elem_of_chunks (p : gmap Z uploadChunk) c : c ∈ map snd (map_to_list p) <-> exists k, p !! k = Some c.
Proof.
  change (c ∈ (map_to_list p).*2 <-> exists k, p !! k = Some c). rewrite list_elem_of_fmap. split.
  - intros ([k c'] & -> & Hin%elem_of_map_to_list). eauto.
  - intros (k & Hk). exists (k, c). split; [done|]. by apply elem_of_map_to_list.
Qed.

(** What a scan of the whole queue comes to, whatever the order. *)
Lemma scan_pending (p : gmap Z uploadChunk) N : pend_ok p ->
  let r := scanPending (map snd (map_to_list p)) N p None in
  (forall k ch, r.1 !! k = Some ch <-> p !! k = Some ch /\ spent N ch = false) /\
  match r.2 with
  | None => forall k ch, r.1 !! k = Some ch -> N < c_offset ch
  | Some ch => r.1 !! c_offset ch = Some ch /\ c_offset ch <= N < c_offset ch + zlen (c_data ch) /\
               forall k c, r.1 !! k = Some c -> c_offset c <= N -> c_offset ch <= c_offset c
  end.
Proof.
  intros Hp r. subst r. set (l := map snd (map_to_list p)).
  assert (Hleft : forall k ch, (scanPending l N p None).1 !! k = Some ch <-> p !! k = Some ch /\ spent N ch = false).
  { intros k ch. rewrite scanPending_left. destruct (existsb _ l) eqn:He.
    - apply existsb_exists in He as (c & Hin & [Hs Hk%Z.eqb_eq]%andb_prop). apply list_elem_of_In, elem_of_chunks in Hin as [k' Hk'].
      destruct (Hp _ _ Hk') as [<- _]. subst k. split; [done|]. intros [H1 H2]. congruence.
    - split; [|by intros []]. intros Hk. split; [done|]. destruct (spent N ch) eqn:Hs; [|done].
      apply not_true_iff_false in He. exfalso. apply He. apply existsb_exists. exists ch. split.
      + apply list_elem_of_In, elem_of_chunks. eauto.
      + destruct (Hp _ _ Hk) as [-> _]. by rewrite Hs, Z.eqb_refl. }
  split; [done|]. pose proof (scanPending_next l N p None) as Hn. unfold least_live in Hn.
  assert (Hlive : forall k c, (scanPending l N p None).1 !! k = Some c -> c_offset c <= N -> live N c = true).
  { intros k c [_ Hs]%Hleft Hle. unfold spent in Hs. unfold live. destruct (Z.leb_spec (c_offset c) N); [|lia].
    simpl in *. by rewrite Hs. }
  destruct (scanPending l N p None).2 as [ch|].
  - destruct Hn as ([|[Hin Hl]] & Hmin & _); [done|]. apply elem_of_chunks in Hin as [k Hk].
    destruct (Hp _ _ Hk) as (He & Hk0 & Hk64). rewrite <- He in Hk.
    unfold live in Hl. apply andb_prop in Hl as [H1%Z.leb_le H2%negb_true_iff].
    assert (u64 (c_offset ch + zlen (c_data ch)) = c_offset ch + zlen (c_data ch)) as Hu.
    { unfold u64. apply Z.mod_small. pose proof (zlen_nonneg (c_data ch)). lia. }
    split_and!; [apply Hleft; split; [done|] | lia | rewrite Hu in H2; by apply Z.leb_gt | ].
    + unfold spent. by rewrite H2, andb_false_r.
    + intros k' c Hc Hle. apply Hmin; [|eauto]. apply elem_of_chunks. apply Hleft in Hc as []. eauto.
  - intros k c Hc. destruct Hn as [_ Hn]. apply Z.nle_gt. intros Hle. specialize (Hlive k c Hc Hle).
    rewrite Hn in Hlive; [done|]. apply elem_of_chunks. apply Hleft in Hc as []. eauto.
Qed.

Lemma u64_small z : 0 <= z < 2 ^ 64 -> u64 z = z.
Proof. apply Z.mod_small. Qed.

Lemma stands_for_nonneg base s m : stands_for base s m -> 0 <= bufOffset s <= nextOffset s.
Proof. intros [H1 H2 _ _ _ _ _]. pose proof (zlen_nonneg base). pose proof (zlen_nonneg (buf s)). lia. Qed.

(** The queue says the same with what is spent left out of it. *)
Lemma queued_left p p' N i ob : pend_ok p -> (forall k ch, p' !! k = Some ch <-> p !! k = Some ch /\ spent N ch = false) ->
  N <= i -> queued p i ob -> queued p' i ob.
Proof.
  intros Hp Hl Hi. assert (Hno : forall k ch, p !! k = Some ch -> covers ch i -> spent N ch = false).
  { intros k ch Hk [H1 H2]. destruct (Hp _ _ Hk) as (He & H0 & H64). unfold spent. rewrite u64_small by lia.
    destruct (Z.leb_spec (c_offset ch + zlen (c_data ch)) N); [lia|]. apply andb_false_r. }
  destruct ob as [b|]; simpl.
  - intros (k & ch & Hk & Hc & Hb & Hmin). exists k, ch. split_and!; [apply Hl; eauto|done..|].
    intros k' ch' []%Hl. eauto.
  - intros Hn k ch []%Hl. eauto.
Qed.
Lemma pend_ok_left p p' N : pend_ok p -> (forall k ch, p' !! k = Some ch <-> p !! k = Some ch /\ spent N ch = false) ->
  pend_ok p'.
Proof. intros Hp Hl k ch []%Hl. auto. Qed.

(** Taking the chunk that is due keeps the file. *)
Lemma stands_for_take base s m p ch : stands_for base s m -> pend_ok p ->
  (forall i, nextOffset s <= i -> queued p i (m i)) -> p !! c_offset ch = Some ch ->
  c_offset ch <= nextOffset s < c_offset ch + zlen (c_data ch) ->
  (forall k c, p !! k = Some c -> c_offset c <= nextOffset s -> c_offset ch <= c_offset c) ->
  let e := c_offset ch + zlen (c_data ch) in
  stands_for base (Stream e e (delete (c_offset ch) p) (buf s ++ drop (Z.to_nat (nextOffset s - c_offset ch)) (c_data ch)) (bufOffset s)) m.
Proof.
  intros Hs Hp Hq Hch [Hle Hlt] Hmin e. pose proof (stands_for_nonneg _ _ _ Hs) as Hnn.
  destruct Hs as [H1 H2 H3 H4 _ H6 _]. destruct (Hp _ _ Hch) as (_ & H0 & H64).
  assert (Hlow : forall i k c, nextOffset s <= i -> p !! k = Some c -> covers c i -> c_offset ch <= c_offset c).
  { intros i k c Hi Hk Hc. destruct (Z.le_gt_cases (c_offset c) (nextOffset s)); [eauto|lia]. }
  split; simpl; [done| |done|subst e; lia| | |].
  - rewrite zlen_app. unfold e, zlen in *. rewrite length_drop. lia.
  - intros k c [_ Hk]%lookup_delete_Some. auto.
  - intros i Hi. rewrite app_assoc. destruct (Z.lt_ge_cases i (nextOffset s)).
    { rewrite H6 by lia. rewrite (lookup_app_l (base ++ buf s)); [done|]. rewrite length_app. unfold zlen in *. lia. }
    assert (Hc : covers ch i) by (unfold covers, e in *; lia).
    specialize (Hq i ltac:(lia)). destruct (m i) as [b|]; [|by destruct (Hq _ _ Hch)].
    destruct Hq as (k & c & Hk & Hcc & Hb & Hl). specialize (Hl _ _ Hch Hc). pose proof (Hlow i k c ltac:(lia) Hk Hcc).
    destruct (Hp _ _ Hk) as (He & _). assert (c_offset c = c_offset ch) as Heq by lia. rewrite <- He, Heq in Hk.
    assert (c = ch) as -> by congruence. rewrite lookup_app_r by (rewrite length_app; unfold zlen in *; lia).
    rewrite lookup_drop, <- Hb. f_equal. rewrite length_app. unfold zlen in *. lia.
  - intros i Hi. specialize (Hq i ltac:(lia)).
    assert (Hd : forall k c, p !! k = Some c -> covers c i -> delete (c_offset ch) p !! k = Some c).
    { intros k c Hk Hc. rewrite lookup_delete_ne; [done|]. intros <-. assert (c = ch) as -> by congruence.
      destruct Hc. lia. }
    destruct (m i) as [b|]; simpl in *.
    + destruct Hq as (k & c & Hk & Hcc & Hb & Hl). exists k, c. split_and!; eauto.
      intros k' c' [_ Hk']%lookup_delete_Some. eauto.
    + intros k c [_ Hk]%lookup_delete_Some. eauto.
Qed.

Lemma takePending_loop_ok fuel base s m : stands_for base s m -> (size (pending s) < fuel)%nat ->
  exists s', takePending_loop fuel s = Ok s' /\ stands_for base s' m /\ bufOffset s' = bufOffset s /\
    nextOffset s <= nextOffset s' /\
    (size (pending s') <= size (pending s))%nat /\
    (forall k ch, pending s' !! k = Some ch -> pending s !! k = Some ch /\ nextOffset s' < c_offset ch).
Proof.
  revert s. induction fuel as [|fuel IH]; intros s Hs Hf; [lia|]. cbn [takePending_loop].
  pose proof (sf_pend _ _ _ Hs) as Hp. destruct (scan_pending (pending s) (nextOffset s) Hp) as [Hl Hn].
  destruct (scanPending _ _ _ _) as [p nx]. simpl in Hl, Hn. pose proof (pend_ok_left _ _ _ Hp Hl) as Hp'.
  assert (Hq : forall i, nextOffset s <= i -> queued p i (m i)).
  { intros i Hi. eapply queued_left; [exact Hp|done|done|]. by apply Hs. }
  assert (Hsub : p ⊆ pending s) by (apply map_subseteq_spec; intros k c []%Hl; done).
  apply map_subseteq_size in Hsub as Hsz. destruct nx as [ch|].
  - destruct Hn as (Hch & Hr & Hmin). pose proof (stands_for_nonneg _ _ _ Hs) as Hnn.
    destruct (Hp' _ _ Hch) as (_ & H0 & H64). rewrite slice_Ok by lia. run_bind. rewrite u64_small by lia.
    assert ((if zlen (buf s) =? 0 then nextOffset s else bufOffset s) = bufOffset s) as ->.
    { destruct (Z.eqb_spec (zlen (buf s)) 0); [|done]. destruct Hs. lia. }
    replace (sub (c_data ch) (nextOffset s - c_offset ch) (zlen (c_data ch)))
      with (drop (Z.to_nat (nextOffset s - c_offset ch)) (c_data ch)).
    2:{ unfold sub. rewrite take_ge; [done|]. rewrite length_drop. unfold zlen. lia. }
    pose proof (stands_for_take base s m p ch Hs Hp' Hq Hch Hr Hmin) as Ht.
    destruct (IH _ Ht) as (s' & -> & Hs' & Hb & Hn' & Hz & Hpk); simpl in *.
    { rewrite map_size_delete_Some by eauto. assert (size p <> 0)%nat; [|lia]. intros H%map_size_empty_inv. subst. done. }
    exists s'. split_and!; [done|done|done|lia| |].
    + rewrite map_size_delete_Some in Hz by eauto. lia.
    + intros k c Hk. apply Hpk in Hk as [[_ Hk]%lookup_delete_Some ?]. split; [|done]. by apply Hl.
  - eexists. split; [done|]. simpl. split_and!; [|done|lia|done|].
    + destruct Hs. by split.
    + intros k c Hk. split; [by apply Hl|eauto].
Qed.

Lemma takePending_ok base s m : stands_for base s m ->
  exists s', takePending s = Ok s' /\ stands_for base s' m /\ bufOffset s' = bufOffset s /\
    nextOffset s <= nextOffset s' /\
    (size (pending s') <= size (pending s))%nat /\
    (forall k ch, pending s' !! k = Some ch -> pending s !! k = Some ch /\ nextOffset s' < c_offset ch).
Proof. intros Hs. apply takePending_loop_ok; [done|lia]. Qed.

(** ** Writes *)

(** A write that is queued may not start inside a chunk that is queued already,
    nor replace a longer one that starts where it does. *)
Definition clear_of (offset : Z) (data : list Z) (p : gmap Z uploadChunk) : Prop :=
  map_Forall (fun _ ch =>
    (c_offset ch < offset -> c_offset ch + zlen (c_data ch) <= offset) /\
    (c_offset ch = offset -> zlen (c_data ch) <= zlen data)) p.
#[export] Instance clear_of_dec offset data p : Decision (clear_of offset data p).
Proof. unfold clear_of. apply _. Defined.

Lemma writeSpec_out m o d i : i < o \/ o + zlen d <= i -> writeSpec m o d i = m i.
Proof. intros Hi. unfold writeSpec. destruct (Z.leb_spec o i), (Z.ltb_spec i (o + zlen d)); simpl; done || lia. Qed.
Lemma writeSpec_in m o d i : o <= i < o + zlen d -> writeSpec m o d i = d !! Z.to_nat (i - o).
Proof. intros Hi. unfold writeSpec. destruct (Z.leb_spec o i), (Z.ltb_spec i (o + zlen d)); simpl; done || lia. Qed.

Lemma stands_for_queue base s m offset data : stands_for base s m ->
  nextOffset s <= offset -> offset + zlen data < 2 ^ 64 -> clear_of offset data (pending s) ->
  stands_for base (Stream (totalSize s) (nextOffset s) (<[offset := UploadChunk offset data]> (pending s)) (buf s) (bufOffset s))
    (writeSpec m offset data).
Proof.
  intros Hs Hle H64 Hcl. pose proof (stands_for_nonneg _ _ _ Hs) as Hnn. destruct Hs as [H1 H2 H3 H4 H5 H6 H7].
  split; simpl; try done.
  - intros k ch [[<- <-]|[Hne Hk]]%lookup_insert_Some; [simpl; lia|auto].
  - intros i Hi. rewrite writeSpec_out by lia. auto.
  - intros i Hi. destruct (decide (offset <= i < offset + zlen data)) as [Hin|Hout].
    + rewrite writeSpec_in by done. destruct (lookup_lt_is_Some_2 data (Z.to_nat (i - offset))) as [b Hb]; [unfold zlen in *; lia|].
      rewrite Hb. exists offset, (UploadChunk offset data). rewrite lookup_insert_eq. split_and!; [done..|].
      intros k ch [[<- <-]|[Hne Hk]]%lookup_insert_Some Hc; [done|]. apply Hcl in Hk as [Hk _]. simpl.
      apply Z.nlt_ge. intros Hlt. specialize (Hk Hlt). destruct Hc. lia.
    + rewrite writeSpec_out by lia. specialize (H7 i Hi).
      assert (Hd : forall k ch, pending s !! k = Some ch -> covers ch i ->
        <[offset:=UploadChunk offset data]> (pending s) !! k = Some ch).
      { intros k ch Hk Hc. rewrite lookup_insert_ne; [done|]. intros <-. destruct (H5 _ _ Hk) as (He & _).
        apply Hcl in Hk as [_ Hk]. specialize (Hk He). destruct Hc. lia. }
      assert (Hnew : ~ covers (UploadChunk offset data) i) by (intros Hc; apply Hout, Hc).
      destruct (m i) as [b|]; simpl in *.
      * destruct H7 as (k & c & Hk & Hcc & Hb & Hl). exists k, c. split_and!; eauto.
        intros k' c' [[<- <-]|[_ Hk']]%lookup_insert_Some Hc'; [done|eauto].
      * intros k c [[<- <-]|[_ Hk]]%lookup_insert_Some; eauto.
Qed.

(** What [copy] and [append] make of the buffer together. *)
Definition over (l : list Z) (k : Z) (d : list Z) : list Z := copyAt l k d ++ drop (length l - Z.to_nat k) d.

Lemma over_length l k d : 0 <= k <= zlen l -> zlen (over l k d) = Z.max (zlen l) (k + zlen d).
Proof. intros. unfold over, copyAt, zlen in *. rewrite !length_app, !length_take, !length_drop. lia. Qed.
Lemma over_lookup l k d (j : nat) : 0 <= k <= zlen l ->
  over l k d !! j = if bool_decide (Z.to_nat k <= j < Z.to_nat k + length d)%nat then d !! (j - Z.to_nat k)%nat else l !! j.
Proof.
  intros Hk. unfold over, copyAt, zlen in *. set (n := Z.to_nat k). assert (n <= length l)%nat by lia.
  assert (length (take n l) = n) as Hn by (rewrite length_take; lia). rewrite <- !app_assoc.
  case_bool_decide as Hj.
  - rewrite lookup_app_r by lia. rewrite Hn, app_assoc.
    destruct (decide (length d <= length l - n)%nat).
    + rewrite take_ge, (drop_ge d) by lia. rewrite app_nil_r, lookup_app_l by lia. done.
    + rewrite (drop_ge l) by lia. by rewrite app_nil_r, take_drop.
  - destruct (decide (j < n)%nat); [rewrite lookup_app_l, lookup_take_lt by lia; done|].
    rewrite lookup_app_r by lia. rewrite Hn, lookup_app_r by (rewrite length_take; lia). rewrite length_take.
    destruct (decide (length d <= length l - n)%nat).
    + rewrite (drop_ge d), app_nil_r, lookup_drop by lia. f_equal. lia.
    + rewrite (drop_ge l) by lia. rewrite (lookup_ge_None_2 l) by lia. apply lookup_ge_None. rewrite app_nil_l, length_drop. lia.
Qed.

Lemma stands_for_over base s m offset data : stands_for base s m ->
  bufOffset s <= offset < nextOffset s -> offset + zlen data < 2 ^ 64 ->
  let n := Z.max (nextOffset s) (offset + zlen data) in
  stands_for base (Stream n n (pending s) (over (buf s) (offset - bufOffset s) data) (bufOffset s)) (writeSpec m offset data).
Proof.
  intros Hs Hr H64 n. pose proof (stands_for_nonneg _ _ _ Hs) as Hnn. destruct Hs as [H1 H2 H3 H4 H5 H6 H7].
  assert (0 <= offset - bufOffset s <= zlen (buf s)) as Hk by lia.
  split; simpl; [done| |done|lia|done| |].
  - rewrite over_length by done. lia.
  - intros i Hi. destruct (Z.lt_ge_cases i (bufOffset s)).
    { rewrite writeSpec_out by lia. rewrite H6 by lia. unfold zlen in *. rewrite !lookup_app_l by lia. done. }
    rewrite lookup_app_r by (unfold zlen in *; lia). rewrite over_lookup by done.
    destruct (decide (offset <= i < offset + zlen data)) as [Hin|Hout].
    + rewrite writeSpec_in by done. rewrite bool_decide_true by (unfold zlen in *; lia). f_equal. unfold zlen in *. lia.
    + rewrite writeSpec_out by lia. rewrite bool_decide_false by (unfold zlen in *; lia). rewrite H6 by lia.
      rewrite lookup_app_r by (unfold zlen in *; lia). done.
  - intros i Hi. rewrite writeSpec_out by lia. apply H7. lia.
Qed.

(** ** Parts *)

(** Parts that follow one another from [from] to [to], none of them empty. *)
Fixpoint tiles (from : Z) (sls : list slab) (to : Z) : Prop :=
  match sls with
  | [] => from = to
  | sl :: sls => c_offset sl.2 = from /\ 0 < zlen (c_data sl.2) /\ tiles (from + zlen (c_data sl.2)) sls to
  end.
(** Numbers that rise, above [lo] and up to [hi]. *)
Fixpoint rising (lo : Z) (sls : list slab) (hi : Z) : Prop :=
  match sls with
  | [] => lo <= hi
  | sl :: sls => lo < sl.1 /\ rising sl.1 sls hi
  end.
Definition bytesOf (sls : list slab) : list Z := concat (map (fun sl => c_data sl.2) sls).

Lemma tiles_app a l k c : tiles a (l ++ k) c <-> exists b, tiles a l b /\ tiles b k c.
Proof.
  revert a. induction l as [|sl l IH]; intros a; simpl; [naive_solver|]. rewrite IH. naive_solver.
Qed.
Lemma rising_le l a c : rising a l c -> a <= c.
Proof. revert a. induction l as [|sl l IH]; simpl; intros a; [done|]. intros [H1 H2%IH]. lia. Qed.
Lemma rising_app a l k c : rising a (l ++ k) c <-> exists b, rising a l b /\ rising b k c.
Proof.
  revert a. induction l as [|sl l IH]; intros a; simpl.
  - split; [intros H; exists a; split; [lia|done]|]. intros (b & Hb & H). destruct k; simpl in *; [lia|]. split; [lia|apply H].
  - rewrite IH. naive_solver.
Qed.
Lemma bytesOf_app l k : bytesOf (l ++ k) = bytesOf l ++ bytesOf k.
Proof. unfold bytesOf. by rewrite map_app, concat_app. Qed.
Lemma tiles_length l a b : tiles a l b -> zlen (bytesOf l) = b - a.
Proof.
  revert a. induction l as [|sl l IH]; simpl; intros a; [unfold bytesOf; simpl; rewrite zlen_nil; lia|].
  intros (H1 & H2 & H3%IH). change (bytesOf (sl :: l)) with (c_data sl.2 ++ bytesOf l). rewrite zlen_app. lia.
Qed.

(** What handing out parts changes of an upload. *)
Record hands_out (u u' : upload) (sls : list slab) : Prop := HandsOut {
  ho_parts : parts u' = parts u;
  ho_err : partErr u' = partErr u;
  ho_max : maxLength u' = maxLength u;
  ho_flight : inFlightBytes u' = inFlightBytes u;
  ho_tiles : tiles (bufOffset (strm u)) sls (bufOffset (strm u'));
  ho_rising : rising (partCount u) sls (partCount u');
  ho_last : (sls = [] /\ lastSent u' = lastSent u /\ lastSentOffset u' = lastSentOffset u) \/
            exists sl, last sls = Some sl /\ sl.2 = UploadChunk (lastSentOffset u') (lastSent u');
}.

Lemma stands_for_slab base s m n : stands_for base s m -> 0 <= n <= zlen (buf s) ->
  stands_for (base ++ sub (buf s) 0 n)
    (Stream (totalSize s) (nextOffset s) (pending s) (sub (buf s) n (zlen (buf s))) (bufOffset s + n)) m.
Proof.
  intros [H1 H2 H3 H4 H5 H6 H7] Hn. split; simpl; try done.
  - rewrite zlen_app, zlen_sub; lia.
  - rewrite zlen_sub by lia. lia.
  - intros i Hi. rewrite <- app_assoc, sub_app, sub_full by lia. auto.
Qed.

Lemma takeSlabs_loop_ok fuel base u m : stands_for base (strm u) m -> 0 < maxLength u ->
  (length (buf (strm u)) <= fuel)%nat ->
  exists u' sls, takeSlabs_loop fuel u = Ok (u', sls) /\ hands_out u u' sls /\
    stands_for (base ++ bytesOf sls) (strm u') m /\ zlen (buf (strm u')) < maxLength u /\
    pending (strm u') = pending (strm u) /\ nextOffset (strm u') = nextOffset (strm u).
Proof.
  revert base u. induction fuel as [|fuel IH]; intros base u Hs Hm Hf; cbn [takeSlabs_loop]; rewrite Z.geb_leb;
    destruct (Z.leb_spec (maxLength u) (zlen (buf (strm u)))) as [Hge|Hlt].
  - unfold zlen in *. lia.
  - exists u, []. unfold bytesOf. simpl. rewrite app_nil_r. split_and!; try done. split; simpl; auto; lia.
  - pose proof (stands_for_nonneg _ _ _ Hs) as Hnn. rewrite !slice_Ok by lia. do 2 run_bind.
    rewrite u64_small by (destruct Hs; lia).
    set (d := sub (buf (strm u)) 0 (maxLength u)).
    match goal with |- context [takeSlabs_loop fuel ?v] => set (v0 := v) end.
    destruct (IH (base ++ d) v0) as (u' & sls & -> & Ho & Hs' & Hb & Hp & Hn).
    { apply stands_for_slab; [done|lia]. } { done. }
    { subst v0. simpl. unfold sub. rewrite length_take, length_drop. unfold zlen in *. lia. }
    run_bind. simpl fst. simpl snd. eexists _, _. split; [done|].
    assert (zlen d = maxLength u) as Hd by (subst d; rewrite zlen_sub; lia).
    split_and!; try done.
    + destruct Ho as [A1 A2 A3 AF A4 A5 A6]. split; try done.
      * simpl. split_and!; [done|lia|]. by rewrite Hd.
      * simpl. split; [lia|done].
      * right. destruct A6 as [(-> & E1 & E2)|(sl & Hl & He)].
        -- exists (partCount u + 1, UploadChunk (bufOffset (strm u)) d). split; [done|]. simpl. by rewrite E1, E2.
        -- exists sl. split; [|done]. destruct sls; [done|]. by rewrite last_cons, Hl.
    + change (bytesOf ((partCount u + 1, UploadChunk (bufOffset (strm u)) d) :: sls)) with (d ++ bytesOf sls).
      by rewrite app_assoc.
  - exists u, []. unfold bytesOf. simpl. rewrite app_nil_r. split_and!; try done. split; simpl; auto; lia.
Qed.

Lemma takeSlabs_ok base u m : stands_for base (strm u) m -> 0 < maxLength u ->
  exists u' sls, takeSlabs u = Ok (u', sls) /\ hands_out u u' sls /\
    stands_for (base ++ bytesOf sls) (strm u') m /\ zlen (buf (strm u')) < maxLength u /\
    pending (strm u') = pending (strm u) /\ nextOffset (strm u') = nextOffset (strm u).
Proof. intros. by apply takeSlabs_loop_ok. Qed.

(** A write that is accepted lays its bytes over the file, wherever they land. *)
Lemma write_ok hk base u m op offset data : stands_for base (strm u) m -> 0 < maxLength u -> 0 <= offset ->
  offset + zlen data < 2 ^ 64 -> (nextOffset (strm u) <= offset -> clear_of offset data (pending (strm u))) ->
  partErr u = None -> bufOffset (strm u) <= offset ->
  exists u' sls, write hk op offset data u = Ok (u', inr sls) /\ hands_out u u' sls /\
    stands_for (base ++ bytesOf sls) (strm u') (writeSpec m offset data) /\ zlen (buf (strm u')) < maxLength u.
Proof.
  intros Hs Hm H0 H64 Hcl He Hb. unfold write. rewrite He.
  set (v := with_head _ _). change (strm v) with (strm u).
  destruct (Z.ltb_spec offset (nextOffset (strm u))) as [Hlt|Hge].
  - destruct (Z.ltb_spec offset (bufOffset (strm u))); [lia|].
    pose proof (stands_for_over base (strm u) m offset data Hs ltac:(lia) H64) as Ho.
    match goal with |- context [takeSlabs (with_strm ?t v)] => set (s' := t) end.
    assert (stands_for base s' (writeSpec m offset data)) as Hs'.
    { replace s' with (let n := Z.max (nextOffset (strm u)) (offset + zlen data) in
        Stream n n (pending (strm u)) (over (buf (strm u)) (offset - bufOffset (strm u)) data) (bufOffset (strm u))); [done|].
      subst s'. cbv zeta. unfold over. pose proof (zlen_nonneg data). destruct Hs.
      destruct (Z.ltb_spec (Z.min (zlen data) (zlen (buf (strm u)) - (offset - bufOffset (strm u)))) (zlen data)) as [Hw|Hw].
      - rewrite u64_small by lia. f_equal; [lia..|]. do 2 f_equal. unfold zlen in *. lia.
      - rewrite drop_ge, app_nil_r by (unfold zlen in *; lia). f_equal; lia. }
    destruct (takeSlabs_ok base (with_strm s' v) (writeSpec m offset data) Hs' Hm) as (u' & sls & -> & Hho & Hs2 & Hl & _).
    eexists _, _. split; [done|]. split_and!; [|done|done].
    assert (bufOffset s' = bufOffset (strm u)) as Hbo by (subst s'; by destruct (_ <? _)).
    destruct Hho as [A1 A2 A3 AF A4 A5 A6]. simpl in *. rewrite Hbo in A4. by split.
  - destruct (takePending_ok _ _ _ (stands_for_queue base (strm u) m offset data Hs Hge H64 (Hcl Hge)))
      as (s' & -> & Hs' & Hbo & _). run_bind.
    destruct (takeSlabs_ok base (with_strm s' v) (writeSpec m offset data) Hs' Hm) as (u' & sls & -> & Hho & Hs2 & Hl & _).
    eexists _, _. split; [done|]. split_and!; [|done|done].
    destruct Hho as [A1 A2 A3 AF A4 A5 A6]. simpl in *. rewrite Hbo in A4. by split.
Qed.

(** ** Cutting short *)
Lemma cutTo_ok base s m n : stands_for base s m -> bufOffset s <= n < totalSize s ->
  exists s', cutTo n s = Ok (s', true) /\ stands_for base s' (cutSpec m n) /\ bufOffset s' = bufOffset s.
Proof.
  intros Hs [Hb Ht]. pose proof (stands_for_nonneg _ _ _ Hs) as Hnn. destruct Hs as [H1 H2 H3 H4 H5 H6 H7].
  unfold cutTo. rewrite Z.geb_leb. destruct (Z.leb_spec (totalSize s) n); [lia|]. destruct (Z.ltb_spec n (bufOffset s)); [lia|].
  rewrite slice_Ok by lia. run_bind. eexists. split; [done|]. split; [|done].
  assert (Hcut : forall k ch, cutPending n (pending s) !! k = Some ch ->
    c_offset ch = k /\ 0 <= k /\ k + zlen (c_data ch) <= n).
  { intros k ch. unfold cutPending. rewrite map_lookup_imap. intros (c & Hk & Hc)%bind_Some.
    destruct (H5 _ _ Hk) as (E1 & E2 & E3). rewrite Z.geb_leb in Hc. destruct (Z.leb_spec n k); [done|].
    pose proof (zlen_nonneg (c_data c)). rewrite u64_small in Hc by lia. rewrite Z.gtb_ltb in Hc.
    destruct (Z.ltb_spec n (k + zlen (c_data c))); injection Hc as <-; simpl; [|lia].
    split_and!; [done|done|]. unfold zlen. rewrite length_take. lia. }
  split; simpl; [done| |done|lia| | |].
  - rewrite zlen_sub by lia. lia.
  - intros k ch Hk%Hcut. lia.
  - intros i Hi. unfold cutSpec. destruct (Z.ltb_spec i n); [|lia]. rewrite H6 by lia. unfold zlen in *.
    destruct (decide (i < bufOffset s)); [by rewrite !lookup_app_l by lia|]. rewrite !lookup_app_r by lia.
    rewrite lookup_sub by lia. f_equal.
  - intros i Hi. unfold cutSpec. destruct (Z.ltb_spec i n); [lia|]. intros k ch Hk%Hcut [Hc1 Hc2]. lia.
Qed.

(** ** Holes *)
Lemma stands_for_ext base s m m' : (forall i, m i = m' i) -> stands_for base s m -> stands_for base s m'.
Proof. intros He [H1 H2 H3 H4 H5 H6 H7]. split; try done; intros i Hi; rewrite <- He; auto. Qed.

Lemma stands_for_written base s m i : stands_for base s m -> 0 <= i < nextOffset s -> is_Some (m i).
Proof.
  intros [H1 H2 H3 H4 H5 H6 H7] Hi. rewrite H6 by done. apply lookup_lt_is_Some_2. rewrite length_app. unfold zlen in *. lia.
Qed.
Lemma zeroSpec_written base s m i : stands_for base s m -> zeroSpec m (nextOffset s) i = m i.
Proof.
  intros Hs. unfold zeroSpec. destruct (Z.leb_spec 0 i), (Z.ltb_spec i (nextOffset s)); simpl; try done.
  destruct (stands_for_written _ _ _ i Hs) as [b ->]; [lia|done].
Qed.
Lemma zeroSpec_twice m n n' i : n <= n' -> zeroSpec (zeroSpec m n) n' i = zeroSpec m n' i.
Proof.
  intros Hle. unfold zeroSpec. destruct (Z.leb_spec 0 i), (Z.ltb_spec i n), (Z.ltb_spec i n'); simpl; try done; lia.
Qed.

(** Everything queued lies ahead: what [takePending] leaves behind. *)
Definition all_ahead (s : stream) : Prop := forall k ch, pending s !! k = Some ch -> nextOffset s < k.

Lemma lowest_spec (p : gmap Z uploadChunk) :
  let lo := foldr (fun kv lo => if kv.1 <? lo then kv.1 else lo) maxU64 (map_to_list p) in
  (forall k ch, p !! k = Some ch -> lo <= k) /\ (lo = maxU64 \/ exists ch, p !! lo = Some ch).
Proof.
  assert (forall l : list (Z * uploadChunk),
    let lo := foldr (fun kv lo => if kv.1 <? lo then kv.1 else lo) maxU64 l in
    (forall kv, kv ∈ l -> lo <= kv.1) /\ (lo = maxU64 \/ exists kv, kv ∈ l /\ kv.1 = lo)) as Hl.
  { induction l as [|kv l [IH1 IH2]]; simpl; [split; [by intros kv []%elem_of_nil|by left]|]. simpl in IH1, IH2.
    match goal with |- context [kv.1 <? ?x] => set (lo := x) in *; clearbody lo end.
    destruct (Z.ltb_spec kv.1 lo) as [Hlt|Hge].
    - split; [|right; exists kv; set_solver]. intros kv' [->|Hin]%elem_of_cons; [lia|]. apply IH1 in Hin. lia.
    - split; [intros kv' [->|Hin]%elem_of_cons; [lia|auto]|]. destruct IH2 as [|(kv' & ? & ?)]; [by left|right; exists kv'; set_solver]. }
  destruct (Hl (map_to_list p)) as [H1 H2]. split.
  - intros k ch Hk. apply (H1 (k, ch)). by apply elem_of_map_to_list.
  - destruct H2 as [|([k ch] & Hin & He)]; [by left|right]. exists ch. rewrite <- He. by apply elem_of_map_to_list.
Qed.

Lemma gapAhead_spec s : pend_ok (pending s) -> all_ahead s -> 0 <= nextOffset s ->
  (gapAhead s = 0 /\ pending s = ∅) \/
  (0 < gapAhead s /\ (exists ch, pending s !! (nextOffset s + gapAhead s) = Some ch) /\
   forall k ch, pending s !! k = Some ch -> nextOffset s + gapAhead s <= k).
Proof.
  intros Hp Ha H0. unfold gapAhead. case_bool_decide as He; [by left|right].
  destruct (lowest_spec (pending s)) as [Hlo Hex]. set (lo := foldr _ _ _) in *. clearbody lo.
  apply map_choose in He as (k & ch & Hk). pose proof (Hlo _ _ Hk). pose proof (Ha _ _ Hk). destruct (Hp _ _ Hk) as (_ & Hk0 & Hk64).
  assert (exists ch, pending s !! lo = Some ch) as [c Hc].
  { destruct Hex as [->|]; [|done]. exists ch. rewrite <- Hk. f_equal. pose proof (zlen_nonneg (c_data ch)). unfold maxU64 in *. lia. }
  pose proof (Ha _ _ Hc). destruct (Z.leb_spec lo (nextOffset s)); [lia|]. replace (nextOffset s + (lo - nextOffset s)) with lo by lia.
  split_and!; [lia|eauto|done].
Qed.

Lemma stands_for_zeros base s m hole : stands_for base s m -> 0 <= hole -> nextOffset s + hole < 2 ^ 64 ->
  (forall k ch, pending s !! k = Some ch -> nextOffset s + hole <= k) ->
  let n := nextOffset s + hole in
  stands_for base (Stream n n (pending s) (buf s ++ replicate (Z.to_nat hole) 0) (bufOffset s)) (zeroSpec m n).
Proof.
  intros Hs Hh H64 Hk n. pose proof (stands_for_nonneg _ _ _ Hs) as Hnn. pose proof (zeroSpec_written base s m) as Hz.
  pose proof Hs as [H1 H2 H3 H4 H5 H6 H7]. split; simpl; [done| |done|done|done| |].
  - rewrite zlen_app, zlen_replicate. lia.
  - intros i Hi. rewrite app_assoc. unfold zeroSpec. destruct (Z.leb_spec 0 i), (Z.ltb_spec i n); try lia. simpl.
    destruct (Z.lt_ge_cases i (nextOffset s)).
    + destruct (stands_for_written _ _ _ i Hs) as [b Hb]; [lia|]. rewrite Hb. simpl. rewrite <- Hb, H6 by lia.
      rewrite (lookup_app_l (base ++ buf s)); [done|]. rewrite length_app. unfold zlen in *. lia.
    + assert (m i = None) as ->.
      { specialize (H7 i ltac:(lia)). destruct (m i) as [b|]; [|done]. destruct H7 as (k & ch & Hc & Hcov & _).
        destruct (H5 _ _ Hc) as (E & _). apply Hk in Hc. destruct Hcov. lia. }
      simpl. rewrite lookup_app_r by (rewrite length_app; unfold zlen in *; lia). symmetry. apply lookup_replicate.
      split; [done|]. rewrite length_app. unfold zlen in *. lia.
  - intros i Hi. unfold zeroSpec. destruct (Z.leb_spec 0 i), (Z.ltb_spec i n); try lia. simpl. apply H7. lia.
Qed.

Lemma fillGap_ok base s m maxLen : stands_for base s m -> all_ahead s -> 0 < maxLen -> 0 < gapAhead s ->
  let hole := Z.min (gapAhead s) maxLen in
  exists s', fillGap maxLen (gapAhead s) s = Ok (s', hole) /\ stands_for base s' (zeroSpec m (nextOffset s + hole)) /\
    all_ahead s' /\ bufOffset s' = bufOffset s /\ nextOffset s + hole <= nextOffset s' /\ pending s' ⊆ pending s.
Proof.
  intros Hs Ha Hm Hg hole. pose proof (stands_for_nonneg _ _ _ Hs) as Hnn.
  destruct (gapAhead_spec s (sf_pend _ _ _ Hs) Ha ltac:(lia)) as [[]|(_ & [ch Hch] & Hk)]; [lia|].
  destruct (sf_pend _ _ _ Hs _ _ Hch) as (_ & _ & H64). pose proof (zlen_nonneg (c_data ch)).
  assert (0 < hole <= gapAhead s) as Hh by (subst hole; lia).
  unfold fillGap. fold hole. destruct (Z.eqb_spec hole 0); [lia|]. rewrite u64_small by lia.
  assert ((if zlen (buf s) =? 0 then nextOffset s else bufOffset s) = bufOffset s) as ->.
  { destruct (Z.eqb_spec (zlen (buf s)) 0); [|done]. destruct Hs. lia. }
  pose proof (stands_for_zeros base s m hole Hs ltac:(lia) ltac:(lia)) as Hz.
  destruct (takePending_ok _ _ _ (Hz ltac:(intros k c Hc%Hk; lia))) as (s' & -> & Hs' & Hb & Hn & _ & Hpk).
  simpl in Hpk, Hb, Hn. eexists. split; [done|]. split_and!; [done| |done|lia|].
  - intros k c Hc. destruct (sf_pend _ _ _ Hs' _ _ Hc) as (<- & _). apply Hpk in Hc. lia.
  - apply map_subseteq_spec. intros k c Hc. by apply Hpk in Hc as [].
Qed.

Lemma hands_out_trans u v w a b : hands_out u v a -> hands_out v w b -> hands_out u w (a ++ b).
Proof.
  intros [A1 A2 A3 AF A4 A5 A6] [B1 B2 B3 BF B4 B5 B6]. split; try congruence.
  - apply tiles_app. eauto.
  - apply rising_app. eauto.
  - destruct B6 as [(-> & B7 & B8)|(sl & Hl & He)]; [rewrite app_nil_r, B7, B8; exact A6|]. right. exists sl.
    by rewrite last_app, Hl.
Qed.
Lemma hands_out_nil u : hands_out u u [].
Proof. split; simpl; auto. lia. Qed.

Lemma highest_spec (p : gmap Z uploadChunk) b :
  highest p <= b <-> 0 <= b /\ forall k ch, p !! k = Some ch -> k <= b.
Proof.
  unfold highest. transitivity (0 <= b /\ forall kv, kv ∈ map_to_list p -> kv.1 <= b).
  - induction (map_to_list p) as [|kv l IH]; simpl.
    + split; [intros; split; [done|intros kv []%elem_of_nil]|intros []; done].
    + rewrite Z.max_lub_iff, IH. setoid_rewrite elem_of_cons. naive_solver.
  - split; intros [H0 H]; (split; [done|]).
    + intros k ch Hk. apply (H (k, ch)). by apply elem_of_map_to_list.
    + intros [k ch] Hin%elem_of_map_to_list. eauto.
Qed.

(** The measure of the loop falls with every hole that is filled. *)
Lemma fillFuel_falls u u' gap filled :
  let hole := Z.min gap (maxLength u) in
  let s := strm u in let s' := strm u' in
  0 < maxLength u -> maxLength u' = maxLength u -> 0 < gap <= maxGapFilled - filled ->
  (exists ch, pending s !! (nextOffset s + gap) = Some ch) ->
  pending s' ⊆ pending s -> all_ahead s' -> nextOffset s + hole <= nextOffset s' ->
  (fillFuel (filled + hole) u' < fillFuel filled u)%nat.
Proof.
  intros hole s s' Hm Hm' Hg [ch Hch] Hsub Ha Hn. unfold fillFuel. rewrite Hm'. fold s s'.
  assert (highest (pending s') <= highest (pending s)) as Hh.
  { pose proof (proj1 (highest_spec (pending s) _) (Z.le_refl _)) as [H0 Hk]. apply highest_spec. split; [done|].
    intros k c Hc. eapply Hk. by eapply lookup_weaken. }
  assert (nextOffset s + gap <= highest (pending s)) as Hhi.
  { pose proof (proj1 (highest_spec (pending s) _) (Z.le_refl _)) as [_ Hk]. eauto. }
  pose proof (map_subseteq_size _ _ Hsub) as Hsz. destruct (Z.lt_ge_cases (maxLength u) gap) as [Hlt|Hge].
  - set (x := Z.min (highest (pending s) - nextOffset s) (maxGapFilled - filled)).
    set (x' := Z.min (highest (pending s') - nextOffset s') (maxGapFilled - (filled + hole))).
    assert (maxLength u <= x /\ x' <= x - maxLength u) as [Hx Hx'] by (subst x x' hole; lia).
    apply (Z.div_le_mono _ _ (maxLength u) Hm) in Hx'.
    replace (x - maxLength u) with (x + (-1) * maxLength u) in Hx' by lia. rewrite Z.div_add in Hx' by lia.
    assert (1 <= x / maxLength u) by (apply Z.div_le_lower_bound; lia). lia.
  - assert (pending s' ⊂ pending s) as Hss.
    { apply map_subset_alt. split; [done|]. exists (nextOffset s + gap). split; [|eauto].
      destruct (pending s' !! (nextOffset s + gap)) eqn:Hc; [|done]. apply Ha in Hc. subst hole. lia. }
    apply map_subset_size in Hss.
    assert (Z.min (highest (pending s') - nextOffset s') (maxGapFilled - (filled + hole)) / maxLength u
            <= Z.min (highest (pending s) - nextOffset s) (maxGapFilled - filled) / maxLength u).
    { apply Z.div_le_mono; [done|]. subst hole. lia. }
    lia.
Qed.

(** What filling the holes comes to: the file with zeros in them, all of them or
    those in front of one that was refused. *)
Definition hole_in (m : file) (p : gmap Z uploadChunk) (err : option upErr) : Prop :=
  match err with
  | None => False
  | Some e => (e = ErrFrontMissing \/ e = ErrGapTooWide) /\
      exists i k ch, 0 <= i < k /\ m i = None /\ p !! k = Some ch
  end.
Definition filled_as (base : list Z) (u : upload) (m : file) (r : out (upload * list slab * option upErr)) : Prop :=
  match r with
  | Ok (u', sls, err) => hands_out u u' sls /\ stands_for (base ++ bytesOf sls) (strm u') (zeroSpec m (nextOffset (strm u'))) /\
      nextOffset (strm u) <= nextOffset (strm u') /\
      (err = None /\ pending (strm u') = ∅ \/ hole_in m (pending (strm u)) err)
  | _ => False
  end.

Lemma fillGaps_loop_ok fuel filled base u m : stands_for base (strm u) m -> all_ahead (strm u) -> 0 < maxLength u ->
  (fillFuel filled u < fuel)%nat -> filled_as base u m (fillGaps_loop fuel filled u).
Proof.
  revert filled base u m. induction fuel as [|fuel IH]; intros filled base u m Hs Ha Hm Hf; [lia|].
  cbn [fillGaps_loop]. set (s := strm u) in *. pose proof (stands_for_nonneg _ _ _ Hs) as Hnn.
  pose proof (gapAhead_spec s (sf_pend _ _ _ Hs) Ha ltac:(lia)) as Hgap.
  destruct (Z.eqb_spec (gapAhead s) 0) as [Hz|Hz].
  { destruct Hgap as [[_ Hp]|[]]; [|lia]. simpl. unfold bytesOf. simpl. rewrite app_nil_r.
    split_and!; [apply hands_out_nil| |done|by left].
    eapply stands_for_ext; [|done]. intros i. symmetry. by eapply zeroSpec_written. }
  destruct Hgap as [[]|(Hg & [ch Hch] & Hk)]; [lia|].
  assert (Hhole : exists i k c, 0 <= i < k /\ m i = None /\ pending s !! k = Some c).
  { exists (nextOffset s), (nextOffset s + gapAhead s), ch. split_and!; [lia..| |done].
    pose proof (sf_ahead _ _ _ Hs (nextOffset s) (Z.le_refl _)) as Hq. destruct (m (nextOffset s)); [|done].
    destruct Hq as (k & c & Hc & [Hcv _] & _). destruct (sf_pend _ _ _ Hs _ _ Hc) as (He & _). apply Hk in Hc. lia. }
  assert (Hstop : forall e, (e = ErrFrontMissing \/ e = ErrGapTooWide) -> filled_as base u m (Ok (u, [], Some e))).
  { intros e He. simpl. unfold bytesOf. simpl. rewrite app_nil_r. split_and!; [apply hands_out_nil| |done|by right].
    eapply stands_for_ext; [|exact Hs]. intros i. symmetry. by eapply zeroSpec_written. }
  destruct (nextOffset s =? 0); [apply Hstop; by left|]. rewrite Z.gtb_ltb.
  destruct (Z.ltb_spec (maxGapFilled - filled) (gapAhead s)); [apply Hstop; by right|].
  destruct (fillGap_ok base s m (maxLength u) Hs Ha Hm Hg) as (s' & -> & Hs' & Ha' & Hb & Hn & Hsub). run_bind.
  simpl fst; simpl snd. destruct (Z.eqb_spec (Z.min (gapAhead s) (maxLength u)) 0); [lia|].
  set (hole := Z.min (gapAhead s) (maxLength u)) in *.
  destruct (takeSlabs_ok base (with_strm s' u) _ Hs' Hm) as (v & sls & -> & Hho & Hs2 & _ & Hp2 & Hn2). run_bind.
  simpl fst; simpl snd. simpl in Hp2, Hn2.
  assert (hands_out u v sls) as Hho'. { destruct Hho as [A1 A2 A3 AF A4 A5 A6]. simpl in *. fold s. rewrite Hb in A4. by split. }
  assert (all_ahead (strm v)) as Hav by (unfold all_ahead; rewrite Hp2, Hn2; exact Ha').
  assert (fillFuel (filled + hole) v < fillFuel filled u)%nat.
  { apply fillFuel_falls; try done; [by rewrite (ho_max _ _ _ Hho')|fold s; eauto|by rewrite Hp2|fold s; lia]. }
  assert (filled_as (base ++ bytesOf sls) v (zeroSpec m (nextOffset s + hole)) (fillGaps_loop fuel (filled + hole) v)) as Hr.
  { apply IH; [done..| |lia]. rewrite (ho_max _ _ _ Hho'). done. }
  destruct (fillGaps_loop fuel (filled + hole) v) as [[[w sls'] err]|e| |]; simpl in *; try done.
  destruct Hr as (H1 & H2 & H3 & H4). split_and!; [by eapply hands_out_trans| |fold s; subst hole; lia|].
  - rewrite bytesOf_app, app_assoc. eapply stands_for_ext; [|exact H2]. intros i. apply zeroSpec_twice. lia.
  - destruct H4 as [?|H4]; [by left|right]. destruct err as [e|]; [|done].
    destruct H4 as (H4 & i & k & c & Hi & Hmi & Hc). split; [done|]. exists i, k, c. split_and!; [lia..| |].
    + unfold zeroSpec in Hmi. by destruct ((0 <=? i) && _).
    + rewrite Hp2 in Hc. by eapply lookup_weaken.
Qed.

(** What sending the rest of the file comes to. *)
Lemma flush_send_ok base u m : stands_for base (strm u) m -> 0 < maxLength u ->
  match flush_send u with
  | Ok (u', sls, err) => parts u' = parts u /\ partErr u' = partErr u /\ maxLength u' = maxLength u /\ inFlightBytes u' = inFlightBytes u /\
      tiles (bufOffset (strm u)) sls (bufOffset (strm u')) /\ rising (partCount u) sls (partCount u') /\
      stands_for (base ++ bytesOf sls) (strm u') (zeroSpec m (totalSize (strm u'))) /\
      (err = None /\ buf (strm u') = [] /\ pending (strm u') = ∅ \/ hole_in m (pending (strm u)) err)
  | _ => False
  end.
Proof.
  intros Hs Hm. unfold flush_send. destruct (takePending_ok _ _ _ Hs) as (s & -> & Hs1 & Hb & _ & _ & Hpk). run_bind.
  assert (all_ahead s) as Ha.
  { intros k ch Hk. destruct (sf_pend _ _ _ Hs1 _ _ Hk) as (<- & _). by apply Hpk in Hk as []. }
  pose proof (fillGaps_loop_ok (S (fillFuel 0 (with_strm s u))) 0 base (with_strm s u) m Hs1 Ha Hm ltac:(lia)) as Hr.
  destruct (fillGaps_loop _ _ _) as [[[v sls] err]|e| |]; simpl in Hr |- *; try done.
  destruct Hr as (Hho & Hs2 & _ & Herr).
  pose proof Hho as [A1 A2 A3 AF A4 A5 _]. simpl in *. rewrite Hb in A4. pose proof (stands_for_nonneg _ _ _ Hs2) as Hnn.
  pose proof Hs2 as [B1 B2 B3 B4 B5 B6 B7]. destruct Herr as [[-> Hp]|Herr].
  2:{ destruct err as [e|]; [|done]. rewrite bool_decide_true by done. simpl. split_and!; try done; [by rewrite B3|right].
      destruct Herr as (H1 & i & k & c & Hi & Hmi & Hc). split; [done|]. exists i, k, c. split_and!; [lia..|done|]. by apply Hpk in Hc as []. }
  rewrite bool_decide_false by (by intros []). rewrite bool_decide_true by done. simpl.
  destruct (Z.ltb_spec 0 (zlen (buf (strm v)))) as [Hlt|Hge]; simpl.
  - split_and!; try done; [| | |by left].
    + apply tiles_app. exists (bufOffset (strm v)). split; [done|]. simpl. split_and!; [done|done|lia].
    + apply rising_app. exists (partCount v). split; [done|]. simpl. lia.
    + rewrite B3. rewrite bytesOf_app, app_assoc. split; simpl; try done.
      * unfold bytesOf at 2. simpl. rewrite app_nil_r, zlen_app. lia.
      * change (zlen []) with 0. lia.
      * intros i Hi. rewrite app_nil_r. unfold bytesOf at 2. simpl. rewrite app_nil_r. auto.
  - pose proof (zlen_nonneg (buf (strm v))). assert (buf (strm v) = []) as Hbn.
    { destruct (buf (strm v)); [done|]. rewrite zlen_cons in *. pose proof (zlen_nonneg l). lia. }
    split_and!; try done; [by rewrite B3|by left].
Qed.

End Upload.
