(* ===== verification/UploadSteps.v ===== *)
(** An upload as it runs: writes come in, parts wait for a slot, travel and
    land in whatever order the backend takes them, the file is cut short, and a
    flush sends what is left and completes the upload.

    [uploadDo] is one event on the whole of it, made of the operations of
    [Upload]; [apply] is what the event means for the file.  The invariant
    [holds_file] carries [Upload.stands_for] through every event and gives the
    two results that matter: the object the backend is told to put together is
    the file the client wrote, and no more parts are on their way than there
    are slots. *)
From S2P Require Import Prelude Bytes ServerState Upload.
From stdpp Require Import sorting.
Import Upload.
Local Open Scope Z_scope.

(** [waiting] are parts taken off the buffer by a write or a flush that has yet
    to find a slot for them; [flying] those handed to the backend; [backend]
    what the backend holds, by part number.  An upload is written to until a
    flush takes it on; one that refuses a write, or that a flush gives up on, is
    dropped, as the handlers of SMB2_WRITE and SMB2_CLOSE do with it
    ([failUpload], [cancelUpload], [abandonUpload]). *)
Inductive phase := Writing | Finishing | Dropped.
#[export] Instance phase_eq_dec : EqDecision phase.
Proof. solve_decision. Defined.

Record running := Running {
  up : upload;
  waiting : list slab;
  flying : list slab;
  backend : gmap Z (list Z);
  ph : phase;
}.

Inductive event :=
| EvWrite (op : openId) (offset : Z) (data : list Z)
| EvSend (i : nat)                 (* the [i]-th waiting part finds a slot *)
| EvLand (i : nat) (eTag : string) (* the [i]-th part on its way lands *)
| EvFail (i : nat) (e : string)    (* ... or fails *)
| EvSetEnd (n : Z)
| EvFlush.

(** [setEndOfFile] of a file with an upload; [emptyFile], which calls the upload
    off, is not one of its events, and a cut that has to wait for the parts on
    their way is one once they have landed. *)
Definition setEnd (n : Z) (r : running) : out (running * bool) :=
  if n >=? totalSize (strm (up r)) then mret (r, false)
  else
    c ← cutTo n (strm (up r));
    if (c.2 : bool) then mret (Running (with_strm c.1 (up r)) (waiting r) (flying r) (backend r) (ph r), true)
    else if (n =? 0) || negb (bool_decide (flying r = [])) then mret (r, false)
    else
      c ← cutBackToSent n (up r);
      mret (Running c.1 (waiting r) (flying r) (backend r) (ph r), c.2).

(** An event, and whether it changed the file.  One that cannot happen where
    the upload stands changes nothing. *)
Definition uploadDo (headKept : Z) (ev : event) (r : running) : out (running * bool) :=
  match ev with
  | EvWrite op offset data =>
      w ← write headKept op offset data (up r);
      match w.2 with
      | inl _ => mret (Running w.1 (waiting r) (flying r) (backend r) Dropped, false)
      | inr sls => mret (Running w.1 (waiting r ++ sls) (flying r) (backend r) (ph r), true)
      end
  | EvSend i =>
      match waiting r !! i with
      | Some sl =>
          if zlen (flying r) <? partsInFlight (maxLength (up r))
          then mret (Running (sendPart_begin sl (up r)) (delete i (waiting r)) (flying r ++ [sl]) (backend r) (ph r), false)
          else mret (r, false)
      | None => mret (r, false)
      end
  | EvLand i eTag =>
      match flying r !! i with
      | Some sl => mret (Running (sendPart_end sl (inr eTag) (up r)) (waiting r) (delete i (flying r))
                          (<[sl.1 := c_data sl.2]> (backend r)) (ph r), false)
      | None => mret (r, false)
      end
  | EvFail i e =>
      match flying r !! i with
      | Some sl => mret (Running (sendPart_end sl (inl e) (up r)) (waiting r) (delete i (flying r)) (backend r) (ph r), false)
      | None => mret (r, false)
      end
  | EvSetEnd n => setEnd n r
  | EvFlush =>
      c ← flush_send (up r);
      let '(u, sls, err) := c in
      mret (Running u (waiting r ++ sls) (flying r) (backend r)
              (match err with None => Finishing | Some _ => Dropped end), true)
  end.

(** What the event means for the file, [r] being the upload after it. *)
Definition apply (ev : event) (r : running) (m : file) : file :=
  match ev with
  | EvWrite _ offset data => writeSpec m offset data
  | EvSetEnd n => cutSpec m n
  | EvFlush => zeroSpec m (totalSize (strm (up r)))
  | _ => m
  end.

(** What the clients have to keep to, which the code does not see to: a write
    that is queued is clear of what is queued before it
    ([queued_overlap_keeps_older_bytes], [queued_rewrite_drops_the_tail]), nothing is
    cut while a part waits for a slot ([cut_misses_a_waiting_part]), and a file
    that is being finished is left alone.  A cut at or past the joined-up size
    is taken as no cut at all, which is what it is ([cut_leaves_what_is_queued]). *)
Definition orderly (ev : event) (r : running) : Prop :=
  match ev with
  | EvWrite _ offset data =>
      ph r = Writing /\ 0 <= offset /\ offset + zlen data < 2 ^ 64 /\
      (nextOffset (strm (up r)) <= offset -> clear_of offset data (pending (strm (up r))))
  | EvSetEnd n => ph r = Writing /\ 0 <= n /\ waiting r = []
  | EvFlush => ph r = Writing
  | _ => True
  end.
#[export] Instance orderly_dec ev r : Decision (orderly ev r).
Proof. destruct ev; simpl; apply _. Defined.

Section run.
Context (headKept : Z).

(** A run from a fresh upload, with the file it stands for. *)
Inductive runs (maxLen : Z) : list event -> running -> file -> Prop :=
| runs_new id path : runs maxLen [] (Running (newUpload id path maxLen) [] [] ∅ Writing) emptyFile
| runs_snoc evs r m ev r' took : runs maxLen evs r m -> orderly ev r ->
    uploadDo headKept ev r = Ok (r', took) ->
    runs maxLen (evs ++ [ev]) r' (if took : bool then apply ev r' m else m).
End run.

(** ** The invariant *)
Definition landed_as (be : gmap Z (list Z)) (p : sentPart) (sl : slab) : Prop :=
  p_number p = sl.1 /\ p_offset p = c_offset sl.2 /\ p_size p = zlen (c_data sl.2) /\ be !! sl.1 = Some (c_data sl.2).
Definition weight (sls : list slab) : Z := foldr (fun sl n => zlen (c_data sl.2) + n) 0 sls.

(** The part a rollback may reach into: the last one sent, or none. *)
Definition last_known (u : upload) (sent : list slab) : Prop :=
  lastSent u = [] \/ bufOffset (strm u) <= lastSentOffset u \/
  exists sl, last sent = Some sl /\ sl.2 = UploadChunk (lastSentOffset u) (lastSent u).

(** [sent] is every part that makes up the file so far, in order; each of them
    waits, travels, was lost or has landed. *)
Record holds (r : running) (m : file) (sent lost landed : list slab) : Prop := Holds {
  h_tiles : tiles 0 sent (bufOffset (strm (up r)));
  h_rising : rising 0 sent (partCount (up r));
  h_where : sent ≡ₚ waiting r ++ flying r ++ lost ++ landed;
  h_landed : Forall2 (landed_as (backend r)) (parts (up r)) landed;
  h_file : stands_for (bytesOf sent) (strm (up r)) m;
  h_max : 0 < maxLength (up r);
  h_lost : partErr (up r) = None -> lost = [];
  h_last : ph r = Writing -> last_known (up r) sent;
  h_done : ph r = Finishing -> buf (strm (up r)) = [] /\ pending (strm (up r)) = ∅;
  h_weight : inFlightBytes (up r) = u64 (weight (flying r));
  h_slots : zlen (flying r) <= partsInFlight (maxLength (up r));
}.
Definition holds_file (r : running) (m : file) : Prop := exists sent lost landed, holds r m sent lost landed.

Lemma partsInFlight_bounds n : 4 <= partsInFlight n <= 16.
Proof. unfold partsInFlight, minPartsInFlight, maxPartsInFlight. destruct (n =? 0); lia. Qed.

Lemma weight_app l k : weight (l ++ k) = weight l + weight k.
Proof. induction l as [|sl l IH]; simpl; lia. Qed.
Lemma weight_perm l k : l ≡ₚ k -> weight l = weight k.
Proof. induction 1; simpl; lia. Qed.
Lemma u64_add a b : u64 (u64 a + b) = u64 (a + b).
Proof. unfold u64. apply Zplus_mod_idemp_l. Qed.
Lemma u64_sub a b : u64 (u64 a - b) = u64 (a - b).
Proof. unfold u64. apply Zminus_mod_idemp_l. Qed.

(** Handing out parts keeps what is known of those already out. *)
Lemma holds_more r m sent lost landed u' sls m' fin :
  holds r m sent lost landed -> ph r = Writing ->
  parts u' = parts (up r) -> partErr u' = partErr (up r) -> maxLength u' = maxLength (up r) ->
  inFlightBytes u' = inFlightBytes (up r) ->
  tiles (bufOffset (strm (up r))) sls (bufOffset (strm u')) -> rising (partCount (up r)) sls (partCount u') ->
  stands_for (bytesOf sent ++ bytesOf sls) (strm u') m' ->
  (fin = Writing -> last_known u' (sent ++ sls)) ->
  (fin = Finishing -> buf (strm u') = [] /\ pending (strm u') = ∅) ->
  holds (Running u' (waiting r ++ sls) (flying r) (backend r) fin) m' (sent ++ sls) lost landed.
Proof.
  intros [H1 H2 H3 H4 H5 H6 H7 H8 H9 H10 H11] Hf E1 E2 E3 E4 Ht Hr Hs Hl Hd. split; simpl; try congruence.
  - apply tiles_app. eauto.
  - apply rising_app. eauto.
  - rewrite H3. rewrite <- !app_assoc. apply Permutation_app_head. etrans; [|apply Permutation_app_comm].
    by rewrite <- !app_assoc.
  - by rewrite bytesOf_app.
  - by rewrite E2.
  - exact Hl.
  - exact Hd.
Qed.

Lemma last_known_more r m sent lost landed u' sls : holds r m sent lost landed -> ph r = Writing ->
  hands_out (up r) u' sls -> last_known u' (sent ++ sls).
Proof.
  intros Hh Hf [_ _ _ _ Ht _ Hl]. destruct Hl as [(-> & E1 & E2)|(sl & Hl & He)].
  - rewrite app_nil_r. simpl in Ht. unfold last_known. rewrite E1, E2, <- Ht. apply (h_last _ _ _ _ _ Hh Hf).
  - right; right. exists sl. split; [|done]. by rewrite last_app, Hl.
Qed.

Lemma holds_write hk r m op offset data : holds_file r m -> orderly (EvWrite op offset data) r ->
  exists r' took, uploadDo hk (EvWrite op offset data) r = Ok (r', took) /\
    holds_file r' (if took : bool then writeSpec m offset data else m).
Proof.
  intros (sent & lost & landed & Hh) (Hf & H0 & H64 & Hcl). pose proof (h_file _ _ _ _ _ Hh) as Hs.
  pose proof (h_max _ _ _ _ _ Hh) as Hm. unfold uploadDo.
  destruct (partErr (up r)) as [e|] eqn:He.
  { unfold write. rewrite He. simpl. eexists _, _. split; [done|]. exists sent, lost, landed. by destruct Hh. }
  destruct (Z.le_gt_cases (bufOffset (strm (up r))) offset) as [Hb|Hb].
  - destruct (write_ok hk (bytesOf sent) (up r) m op offset data Hs Hm H0 H64 Hcl He Hb) as (u' & sls & -> & Hho & Hs' & _).
    simpl. eexists _, _. split; [done|]. exists (sent ++ sls), lost, landed. pose proof Hho as [].
    apply (holds_more r m sent lost landed u' sls _ (ph r) Hh); try done; [|congruence]. intros _. by eapply last_known_more.
  - unfold write. rewrite He. set (v := with_head _ _). change (strm v) with (strm (up r)).
    pose proof (stands_for_nonneg _ _ _ Hs). destruct (Z.ltb_spec offset (nextOffset (strm (up r)))); [|lia].
    destruct (Z.ltb_spec offset (bufOffset (strm (up r)))); [|lia]. simpl.
    eexists _, _. split; [done|]. exists sent, lost, landed. by destruct Hh.
Qed.

(** Backend parts are keyed by number, and no two parts share one. *)
Lemma rising_NoDup l lo hi : rising lo l hi -> NoDup l.*1.
Proof.
  revert lo. induction l as [|sl l IH]; intros lo; simpl; [constructor|]. intros [H1 H2]. constructor; [|eauto].
  clear IH H1. intros (sl' & He & Hin)%list_elem_of_fmap. assert (Hlt : forall lo, rising lo l hi -> lo < sl'.1); [|apply Hlt in H2; lia].
  clear H2. induction l as [|x l IH]; intros lo' H; [by apply elem_of_nil in Hin|]. destruct H as [Ha Hb].
  apply elem_of_cons in Hin as [->|Hin]; [done|]. specialize (IH Hin _ Hb). lia.
Qed.

Lemma landed_other be ps l (n : Z) d : Forall2 (landed_as be) ps l -> n ∉ l.*1 -> Forall2 (landed_as (<[n := d]> be)) ps l.
Proof.
  intros HF. induction HF as [|p sl ps l (E1 & E2 & E3 & E4) _ IH]; [constructor|].
  rewrite fmap_cons, not_elem_of_cons. intros [Hn Hl]. constructor; [|auto]. split_and!; try done. by rewrite lookup_insert_ne.
Qed.

(** A part on its way lands or is lost: the file is as it was. *)
Lemma holds_end r m sent lost landed i sl res : holds r m sent lost landed -> flying r !! i = Some sl ->
  exists lost' landed', holds (Running (sendPart_end sl res (up r)) (waiting r) (delete i (flying r))
    (match res with inl _ => backend r | inr _ => <[sl.1 := c_data sl.2]> (backend r) end) (ph r)) m sent lost' landed'.
Proof.
  intros [H1 H2 H3 H4 H5 H6 H7 H8 H9 H10 H11] Hi. pose proof (delete_Permutation _ _ _ Hi) as Hp.
  assert (inFlightBytes (sendPart_end sl res (up r)) = u64 (weight (delete i (flying r)))) as Hw.
  { apply weight_perm in Hp. simpl in Hp.
    transitivity (u64 (inFlightBytes (up r) - zlen (c_data sl.2))); [destruct res; simpl; [by destruct (partErr (up r))|done]|].
    rewrite H10, u64_sub. f_equal. lia. }
  assert (zlen (delete i (flying r)) <= partsInFlight (maxLength (up r))).
  { apply Permutation_length in Hp. simpl in Hp. unfold zlen in *. lia. }
  set (fl := delete i (flying r)) in *. clearbody fl. destruct res as [e|eTag].
  - exists (sl :: lost), landed. simpl in *. destruct (partErr (up r)) eqn:He; (split; simpl; try done); try congruence;
      rewrite H3; apply Permutation_app_head; rewrite Hp; simpl; by rewrite Permutation_middle.
  - exists lost, (landed ++ [sl]). simpl in *. split; simpl; try done.
    + rewrite H3. apply Permutation_app_head. rewrite Hp. simpl. etrans; [apply Permutation_cons_append|].
      by rewrite <- !app_assoc.
    + apply rising_NoDup in H2 as Hnd. apply Forall2_app.
      * apply landed_other; [done|]. intros Hin. rewrite H3, Hp in Hnd. rewrite fmap_app in Hnd. apply NoDup_app in Hnd as (_ & _ & Hnd).
        rewrite fmap_app, fmap_cons in Hnd. simpl in Hnd. apply NoDup_cons in Hnd as [Hnd _]. apply Hnd. rewrite !fmap_app. set_solver.
      * constructor; [|constructor]. split_and!; [done..|]. by rewrite lookup_insert_eq.
Qed.

Lemma holds_send r m sent lost landed i sl : holds r m sent lost landed -> waiting r !! i = Some sl ->
  zlen (flying r) < partsInFlight (maxLength (up r)) ->
  holds (Running (sendPart_begin sl (up r)) (delete i (waiting r)) (flying r ++ [sl]) (backend r) (ph r)) m sent lost landed.
Proof.
  intros [H1 H2 H3 H4 H5 H6 H7 H8 H9 H10 H11] Hi Hz. pose proof (delete_Permutation _ _ _ Hi) as Hp.
  set (w := delete i (waiting r)) in *. clearbody w. split; simpl; try done.
  - rewrite H3, Hp. simpl. rewrite <- app_assoc. simpl. rewrite !app_assoc. rewrite <- Permutation_middle. by rewrite <- !app_assoc.
  - rewrite H10, u64_add, weight_app. simpl. f_equal. lia.
  - rewrite zlen_app. change (zlen [sl]) with 1. lia.
Qed.

(** ** Cutting short *)

(** The parts before a boundary are those that start before it. *)
Lemma tiles_filter l k a b c : tiles a l b -> tiles b k c -> filter (fun sl => c_offset sl.2 < b) (l ++ k) = l.
Proof.
  intros Hl Hk. rewrite filter_app.
  assert (Hlow : forall a', tiles a' k c -> b <= a' -> filter (fun sl : slab => c_offset sl.2 < b) k = []).
  { clear. induction k as [|sl k IH]; intros a' H Hle; [done|]. simpl in H. destruct H as (E & Hz & H).
    rewrite filter_cons_False by lia. eapply IH; [done|]. lia. }
  rewrite (Hlow b Hk) by lia. rewrite app_nil_r. clear Hlow Hk. revert a Hl.
  induction l as [|sl l IH]; intros a Hl; [done|]. simpl in Hl. destruct Hl as (E & Hz & H).
  rewrite filter_cons_True; [f_equal; eauto|]. apply tiles_length in H. pose proof (zlen_nonneg (bytesOf l)). lia.
Qed.

Lemma landed_filter be ps l n : Forall2 (landed_as be) ps l ->
  Forall2 (landed_as be) (filter (fun p => p_offset p < n) ps) (filter (fun sl => c_offset sl.2 < n) l).
Proof.
  induction 1 as [|p sl ps l Hp _ IH]; [constructor|]. pose proof Hp as (_ & He & _).
  destruct (decide (p_offset p < n)); [rewrite !filter_cons_True by congruence|rewrite !filter_cons_False by congruence]; [|done].
  by constructor.
Qed.

(** What is kept when the parts from a boundary [X] on are left out and the
    buffer starts again at [X]. *)
Lemma holds_cut_back r m sent lost landed l k X n b u' :
  holds r m sent lost landed -> waiting r = [] -> flying r = [] -> sent = l ++ k -> tiles 0 l X ->
  tiles X k (bufOffset (strm (up r))) -> X <= n < bufOffset (strm (up r)) ->
  bytesOf l ++ b = take (Z.to_nat n) (bytesOf sent) ->
  parts u' = filter (fun p => p_offset p < X) (parts (up r)) -> partErr u' = partErr (up r) ->
  maxLength u' = maxLength (up r) -> inFlightBytes u' = inFlightBytes (up r) -> partCount u' = partCount (up r) ->
  strm u' = Stream n n ∅ b X -> last_known u' l -> ph r = Writing ->
  holds (Running u' (waiting r) (flying r) (backend r) (ph r)) (cutSpec m n)
    l (filter (fun sl => c_offset sl.2 < X) lost) (filter (fun sl => c_offset sl.2 < X) landed).
Proof.
  intros [H1 H2 H3 H4 H5 H6 H7 H8 H9 H10 H11] Hw Hfl -> Hl Hk Hn Hb E1 E2 E3 E4 E5 E6 Hlast Hf.
  pose proof (tiles_length _ _ _ Hl) as Hlen. pose proof (tiles_length _ _ _ H1) as Hall. pose proof H5 as [_ S2 S3 S4 _ S6 _].
  pose proof (zlen_nonneg (bytesOf l)) as Hnn. pose proof (zlen_nonneg (buf (strm (up r)))) as Hbn.
  assert (zlen (bytesOf l ++ b) = n) as Hbl. { rewrite Hb. unfold zlen in *. rewrite length_take. lia. }
  rewrite zlen_app in Hbl.
  split; simpl; rewrite ?E1, ?E2, ?E3, ?E4, ?E5, ?E6; simpl; try done; [| | | |intros He%H7; by rewrite He|congruence].
  - apply rising_app in H2 as (c & Hc & Hc'). apply rising_le in Hc'.
    revert Hc. generalize 0. clear -Hc'. induction l as [|sl l IH]; intros lo; simpl; [lia|]. intros []. auto.
  - rewrite Hw, Hfl in *. simpl in *. rewrite <- filter_app, <- H3. by rewrite (tiles_filter l k 0 X _ Hl Hk).
  - by apply landed_filter.
  - split; simpl; [lia|lia|done|lia|intros ? ? ?; set_solver| |].
    + intros i Hi. unfold cutSpec. destruct (Z.ltb_spec i n); [|lia]. rewrite S6 by lia. rewrite Hb.
      unfold zlen in *. rewrite lookup_app_l by lia. rewrite lookup_take_lt by lia. done.
    + intros i Hi. unfold cutSpec. destruct (Z.ltb_spec i n); [lia|]. intros ? ? ?. set_solver.
Qed.

(** A landed part is one of those that make up the file. *)
Lemma landed_sent r m sent lost landed p : holds r m sent lost landed -> p ∈ parts (up r) ->
  exists a sl b, sent = a ++ sl :: b /\ c_offset sl.2 = p_offset p /\ zlen (c_data sl.2) = p_size p.
Proof.
  intros Hh [i Hi]%list_elem_of_lookup.
  destruct (Forall2_lookup_l _ _ _ _ _ (h_landed _ _ _ _ _ Hh) Hi) as (sl & Hsl%list_elem_of_lookup_2 & _ & E1 & E2 & _).
  assert (sl ∈ sent) as Hs. { rewrite (h_where _ _ _ _ _ Hh). set_solver. }
  apply list_elem_of_split in Hs as (a & b & ->). eauto 8.
Qed.

Lemma holds_cutBack r m n : holds_file r m -> ph r = Writing -> waiting r = [] -> flying r = [] ->
  0 <= n < bufOffset (strm (up r)) ->
  exists u' b, cutBackToSent n (up r) = Ok (u', b) /\
    holds_file (Running u' (waiting r) (flying r) (backend r) (ph r)) (if b : bool then cutSpec m n else m).
Proof.
  intros (sent & lost & landed & Hh) Hf Hw Hfl Hn. unfold cutBackToSent. rewrite Z.geb_leb.
  assert (holds_file (Running (up r) (waiting r) (flying r) (backend r) (ph r)) m) as Hsame.
  { exists sent, lost, landed. by destruct r. }
  destruct (Z.eqb_spec n 0); [by eexists _, _|]. destruct (Z.leb_spec (bufOffset (strm (up r))) n); [lia|]. simpl orb.
  pose proof (h_tiles _ _ _ _ _ Hh) as Ht. pose proof (h_last _ _ _ _ _ Hh Hf) as Hlast.
  pose proof (sf_u64 _ _ _ (h_file _ _ _ _ _ Hh)) as H64. pose proof (stands_for_nonneg _ _ _ (h_file _ _ _ _ _ Hh)) as Hnn.
  rewrite Z.gtb_ltb. destruct ((_ <? n) && _) eqn:Hin.
  - apply andb_prop in Hin as [Hlo%Z.ltb_lt Hhi%Z.ltb_lt]. rewrite slice_Ok by lia. run_bind. eexists _, _. split; [done|].
    destruct Hlast as [Hl|[Hl|(sl & Hl & He)]]; [rewrite Hl in Hhi; change (zlen []) with 0 in Hhi; lia|lia|].
    apply last_Some in Hl as [l Hsent]. exists l, (filter (fun s => c_offset s.2 < lastSentOffset (up r)) lost),
      (filter (fun s => c_offset s.2 < lastSentOffset (up r)) landed).
    rewrite Hsent in Ht. apply tiles_app in Ht as (X & Hl & Hk). pose proof Hk as (HX & _ & Hend). rewrite He in HX, Hend. simpl in HX, Hend.
    subst X. eapply (holds_cut_back r m sent lost landed l [sl]); try done; [lia| |by left].
    rewrite Hsent, bytesOf_app. unfold bytesOf at 3. simpl. rewrite app_nil_r, He. simpl.
    apply tiles_length in Hl. pose proof (zlen_nonneg (bytesOf l)).
    rewrite take_app_ge by (unfold zlen in *; lia). unfold sub. simpl. rewrite drop_0. do 2 f_equal. unfold zlen in *. lia.
  - destruct (existsb _ (parts (up r))) eqn:Hends; [|by eexists _, _]. simpl negb. cbv iota.
    eexists _, _. split; [done|]. apply existsb_exists in Hends as (p & Hp%list_elem_of_In & He).
    destruct (landed_sent _ _ _ _ _ _ Hh Hp) as (a & sl & k & Hsent & E1 & E2).
    rewrite Hsent in Ht. apply tiles_app in Ht as (Y & Ha & HY & Hz & Hk).
    assert (Y + zlen (c_data sl.2) <= bufOffset (strm (up r)) /\ 0 <= Y) as [Hle HY0].
    { apply tiles_length in Ha, Hk. pose proof (zlen_nonneg (bytesOf a)). pose proof (zlen_nonneg (bytesOf k)). lia. }
    rewrite <- E1, <- E2, HY, u64_small in He by lia. apply Z.eqb_eq in He.
    exists (a ++ [sl]), (filter (fun s => c_offset s.2 < n) lost), (filter (fun s => c_offset s.2 < n) landed).
    assert (tiles 0 (a ++ [sl]) n) as Htn. { apply tiles_app. exists Y. split; [done|]. simpl. split_and!; [done|done|lia]. }
    eapply (holds_cut_back r m sent lost landed (a ++ [sl]) k n n []); try done.
    + rewrite Hsent. by rewrite <- app_assoc.
    + rewrite <- He. done.
    + rewrite app_nil_r, Hsent. rewrite (app_assoc a [sl] k : a ++ sl :: k = _), (bytesOf_app (a ++ [sl]) k).
      apply tiles_length in Htn. rewrite take_app_length'; [done|]. unfold zlen in Htn. lia.
    + destruct Hlast as [Hl|[Hl|(sl' & Hl & He')]]; [by left|right; left; simpl; lia|].
      right; left. simpl. rewrite Hsent in Hl. destruct (last k) as [x|] eqn:Hlk.
      * rewrite last_app, last_cons, Hlk in Hl. injection Hl as ->. apply last_Some in Hlk as [k0 ->].
        apply tiles_app in Hk as (Z0 & Hk0 & HZ & _). rewrite He' in HZ. simpl in HZ. apply tiles_length in Hk0.
        pose proof (zlen_nonneg (bytesOf k0)). lia.
      * apply last_None in Hlk as ->. simpl in Hk. lia.
Qed.

Lemma holds_setEnd r m n : holds_file r m -> orderly (EvSetEnd n) r ->
  exists r' took, setEnd n r = Ok (r', took) /\ holds_file r' (if took : bool then cutSpec m n else m).
Proof.
  intros Hh (Hf & H0 & Hw). pose proof Hh as (sent & lost & landed & H). pose proof (h_file _ _ _ _ _ H) as Hs.
  unfold setEnd. rewrite Z.geb_leb. destruct (Z.leb_spec (totalSize (strm (up r))) n) as [Hge|Hlt]; [by eexists _, _|].
  destruct (Z.le_gt_cases (bufOffset (strm (up r))) n) as [Hle|Hgt].
  - destruct (cutTo_ok _ _ _ n Hs ltac:(lia)) as (s' & -> & Hs' & Hb). simpl. eexists _, _. split; [done|].
    exists sent, lost, landed. destruct H as [A1 A2 A3 A4 A5 A6 A7 A8 A9 A10 A11]. split; simpl; try done.
    + by rewrite Hb.
    + intros _. destruct (A8 Hf) as [|[|]]; unfold last_known; simpl; rewrite ?Hb; auto.
    + congruence.
  - unfold cutTo. rewrite Z.geb_leb. destruct (Z.leb_spec (totalSize (strm (up r))) n); [lia|].
    destruct (Z.ltb_spec n (bufOffset (strm (up r)))); [|lia]. simpl. destruct (_ || _) eqn:Hoff; [by eexists _, _|].
    apply orb_false_iff in Hoff as [_ Hfl%negb_false_iff%bool_decide_eq_true].
    destruct (holds_cutBack r m n Hh Hf Hw Hfl ltac:(lia)) as (u' & b & -> & Hr). simpl. eauto.
Qed.

(** ** Runs *)
Lemma holds_new maxLen id path : 0 < maxLen -> holds (Running (newUpload id path maxLen) [] [] ∅ Writing) emptyFile [] [] [].
Proof.
  intros Hm. pose proof (partsInFlight_bounds maxLen). split; simpl; try done; [intros _; by left|change (zlen []) with 0; lia].
Qed.

Lemma holds_flush r m : holds_file r m -> ph r = Writing ->
  match flush_send (up r) with
  | Ok (u, sls, err) => holds_file (Running u (waiting r ++ sls) (flying r) (backend r)
      (match err with None => Finishing | Some _ => Dropped end)) (zeroSpec m (totalSize (strm u)))
  | _ => False
  end.
Proof.
  intros (sent & lost & landed & Hh) Hf.
  pose proof (flush_send_ok _ _ _ (h_file _ _ _ _ _ Hh) (h_max _ _ _ _ _ Hh)) as H.
  destruct (flush_send (up r)) as [[[u sls] err]| | |]; try done.
  destruct H as (E1 & E2 & E3 & E4 & Ht & Hr & Hs & Herr).
  exists (sent ++ sls), lost, landed. apply (holds_more r m sent lost landed u sls); try done; destruct err; try done.
  intros _. by destruct Herr as [(_ & ? & ?)|[]].
Qed.

(** Every orderly event goes through, and keeps the file. *)
Lemma uploadDo_ok hk ev r m : holds_file r m -> orderly ev r ->
  exists r' took, uploadDo hk ev r = Ok (r', took) /\ holds_file r' (if took : bool then apply ev r' m else m).
Proof.
  intros Hh Ho. destruct ev as [op offset data|i|i eTag|i e|n|].
  - apply (holds_write hk r m op offset data); done.
  - simpl. destruct (waiting r !! i) as [sl|] eqn:Hi; [|by eexists _, _].
    destruct (Z.ltb_spec (zlen (flying r)) (partsInFlight (maxLength (up r)))); [|by eexists _, _].
    eexists _, _. split; [done|]. destruct Hh as (sent & lost & landed & Hh). exists sent, lost, landed. by apply holds_send.
  - simpl. destruct (flying r !! i) as [sl|] eqn:Hi; [|by eexists _, _].
    eexists _, _. split; [done|]. destruct Hh as (sent & lost & landed & Hh).
    destruct (holds_end _ _ _ _ _ i sl (inr eTag) Hh Hi) as (lost' & landed' & H). by exists sent, lost', landed'.
  - simpl. destruct (flying r !! i) as [sl|] eqn:Hi; [|by eexists _, _].
    eexists _, _. split; [done|]. destruct Hh as (sent & lost & landed & Hh).
    destruct (holds_end _ _ _ _ _ i sl (inl e) Hh Hi) as (lost' & landed' & H). by exists sent, lost', landed'.
  - by apply holds_setEnd.
  - simpl. pose proof (holds_flush r m Hh Ho) as H. destruct (flush_send (up r)) as [[[u sls] err]| | |]; try done. by eexists _, _.
Qed.

Lemma runs_holds hk maxLen evs r m : runs hk maxLen evs r m -> 0 < maxLen -> holds_file r m.
Proof.
  intros Hr Hm. induction Hr as [id path|evs r m ev r' took Hr IH Ho Hdo].
  - exists [], [], []. by apply holds_new.
  - destruct (uploadDo_ok hk ev r m IH Ho) as (r2 & took2 & E & H). rewrite Hdo in E. by injection E as -> ->.
Qed.

(** ** What the backend puts together *)
Definition object (be : gmap Z (list Z)) (completed : list (Z * string)) : list Z :=
  concat (map (fun c => default [] (be !! c.1)) completed).

Lemma insertPart_perm p ps : insertPart p ps ≡ₚ p :: ps.
Proof. induction ps as [|q ps IH]; simpl; [done|]. destruct (_ <=? _); [done|]. rewrite IH. apply Permutation_swap. Qed.
Lemma sortParts_perm ps : sortParts ps ≡ₚ ps.
Proof. induction ps as [|p ps IH]; simpl; [done|]. by rewrite insertPart_perm, IH. Qed.

Lemma insertPart_sorted p ps : StronglySorted Z.le (map p_number ps) -> StronglySorted Z.le (map p_number (insertPart p ps)).
Proof.
  induction ps as [|q ps IH]; simpl; intros Hs; [repeat constructor|]. apply StronglySorted_inv in Hs as [Hs Hq].
  destruct (Z.leb_spec (p_number p) (p_number q)) as [Hle|Hgt]; simpl.
  - constructor; [by constructor|]. constructor; [done|]. eapply Forall_impl; [exact Hq|]. simpl. lia.
  - constructor; [auto|]. change (Forall (Z.le (p_number q)) (p_number <$> insertPart p ps)). rewrite insertPart_perm.
    constructor; [lia|done].
Qed.
Lemma sortParts_sorted ps : StronglySorted Z.le (map p_number (sortParts ps)).
Proof. induction ps as [|p ps IH]; simpl; [constructor|]. by apply insertPart_sorted. Qed.

Lemma rising_sorted l lo hi : rising lo l hi -> StronglySorted Z.le (map fst l) /\ Forall (Z.le lo) (map fst l).
Proof.
  revert lo. induction l as [|sl l IH]; intros lo; simpl; [repeat constructor|]. intros [H1 H2].
  destruct (IH _ H2) as [H3 H4]. split; [by constructor|]. constructor; [lia|]. eapply Forall_impl; [exact H4|]. simpl. lia.
Qed.

(** Once everything has landed, what the upload is completed with spells the
    parts in order. *)
Lemma object_sent r m sent landed : holds r m sent [] landed -> waiting r = [] -> flying r = [] ->
  object (backend r) (map (fun p => (p_number p, p_eTag p)) (sortParts (parts (up r)))) = bytesOf sent.
Proof.
  intros [H1 H2 H3 H4 _ _ _ _ _ _ _] Hw Hf. rewrite Hw, Hf in H3. simpl in H3.
  assert (map p_number (parts (up r)) = map fst landed) as Hn.
  { clear -H4. induction H4 as [|p sl ps l (E & _) _ IH]; simpl; [done|]. by rewrite E, IH. }
  assert (map p_number (sortParts (parts (up r))) = map fst sent) as Heq.
  { apply (StronglySorted_unique Z.le); [apply sortParts_sorted|by eapply rising_sorted|].
    change (p_number <$> sortParts (parts (up r)) ≡ₚ fst <$> sent). rewrite sortParts_perm, H3. change (map p_number (parts (up r)) ≡ₚ map fst landed).
    by rewrite Hn. }
  unfold object. rewrite map_map. simpl.
  transitivity (concat (map (fun n => default [] (backend r !! n)) (map p_number (sortParts (parts (up r)))))); [by rewrite map_map|].
  rewrite Heq, map_map. unfold bytesOf. f_equal.
  assert (forall sl, sl ∈ sent -> backend r !! sl.1 = Some (c_data sl.2)) as Hb.
  { intros sl Hin. rewrite H3 in Hin. apply list_elem_of_lookup in Hin as [i Hi].
    by destruct (Forall2_lookup_r _ _ _ _ _ H4 Hi) as (p & _ & _ & _ & _ & ?). }
  clear -Hb. induction sent as [|sl sent IH]; simpl; [done|]. rewrite Hb by set_solver. simpl. f_equal. apply IH. set_solver.
Qed.

(** C5: However the writes arrive, and in whatever order the parts land, as long as
    every event is [orderly] (no write is queued over another that is still queued,
    no cut comes while a part waits for a slot, nothing is written or cut once a
    flush has begun, and no offset reaches 2^64), once a flush has sent the rest and
    every part has landed, the object the backend is told to put together is exactly
    the file the clients wrote: every byte of it, zeros where they wrote nothing, cut
    where a cut below the joined-up size cut it, and nothing past its end. *)
Theorem upload_stores_the_file hk maxLen evs r m completed :
  runs hk maxLen evs r m -> 0 < maxLen ->
  ph r = Finishing -> waiting r = [] -> flying r = [] -> flush_complete (up r) = Ok completed ->
  zlen (object (backend r) completed) = totalSize (strm (up r)) /\
  forall i, 0 <= i -> m i = object (backend r) completed !! Z.to_nat i.
Proof.
  intros Hr Hm Hph Hw Hf Hc. destruct (runs_holds _ _ _ _ _ Hr Hm) as (sent & lost & landed & Hh).
  unfold flush_complete in Hc. destruct (partErr (up r)) eqn:He; [done|]. injection Hc as <-.
  rewrite (h_lost _ _ _ _ _ Hh He) in Hh. rewrite (object_sent _ _ _ _ Hh Hw Hf).
  destruct (h_done _ _ _ _ _ Hh Hph) as [Hbuf Hpend]. pose proof (tiles_length _ _ _ (h_tiles _ _ _ _ _ Hh)) as Hlen.
  destruct (h_file _ _ _ _ _ Hh) as [S1 S2 S3 S4 S5 S6 S7]. rewrite Hbuf in *. change (zlen []) with 0 in *.
  split; [lia|]. intros i Hi. destruct (Z.lt_ge_cases i (nextOffset (strm (up r)))).
  - rewrite S6 by lia. by rewrite app_nil_r.
  - specialize (S7 i ltac:(lia)). rewrite Hpend in S7. destruct (m i) as [b|].
    + destruct S7 as (k & ch & Hk & _). set_solver.
    + symmetry. apply lookup_ge_None. unfold zlen in *. lia.
Qed.

(** C6: No [orderly] event of an upload with a part size above nought can make the
    server panic or loop: whatever orderly events led to its state, a write, a part
    finding a slot, landing or failing, a cut and a flush all return, a flush that
    gives up on a hole among them.  And what the client is paced by is the truth: no
    more parts are on their way than there are slots, at most sixteen, and
    [inFlightBytes] counts their bytes. *)
Theorem upload_events_return hk maxLen evs r m ev :
  runs hk maxLen evs r m -> 0 < maxLen -> orderly ev r ->
  settled (uploadDo hk ev r) /\ zlen (flying r) <= partsInFlight (maxLength (up r)) <= 16 /\
  inFlightBytes (up r) = u64 (weight (flying r)).
Proof.
  intros Hr Hm Ho. pose proof (runs_holds _ _ _ _ _ Hr Hm) as Hh. destruct (uploadDo_ok hk ev r m Hh Ho) as (r' & took & -> & _).
  destruct Hh as (sent & lost & landed & Hh). split_and!; [done|apply Hh|apply partsInFlight_bounds|apply Hh].
Qed.

(** ** Reading back what is being written *)
Lemma keepHead_lookup hk offset data h (i : nat) : 0 <= offset -> offset + zlen data < 2 ^ 64 -> Z.of_nat i < hk ->
  (Z.to_nat offset <= i < Z.to_nat offset + length data)%nat ->
  keepHead hk offset data h !! i = data !! (i - Z.to_nat offset)%nat.
Proof.
  intros H0 H64 Hi Hin. unfold keepHead. rewrite Z.geb_leb. destruct (Z.leb_spec hk offset); [lia|].
  rewrite !(u64_small (offset + zlen data)) by (pose proof (zlen_nonneg data); lia). rewrite !(Z.gtb_ltb (offset + zlen data)).
  match goal with |- context [copyAt _ _ ?t] => set (tk := t) in * end.
  assert (tk = take (Z.to_nat (hk - offset)) data) as Htk.
  { subst tk. destruct (Z.ltb_spec hk (offset + zlen data)); [done|]. rewrite take_ge; [done|]. unfold zlen in *. lia. }
  assert (length tk = min (Z.to_nat (hk - offset)) (length data)) as Hl by (by rewrite Htk, length_take).
  rewrite !(u64_small (offset + zlen tk)) by (unfold zlen in *; lia). rewrite !(Z.gtb_ltb (offset + zlen tk)).
  match goal with |- copyAt ?x _ _ !! _ = _ => set (h1 := x) end.
  assert (offset + zlen tk <= zlen h1) as Hh1.
  { subst h1. destruct (Z.ltb_spec (zlen h) (offset + zlen tk)); [|lia]. rewrite zlen_app, zlen_replicate. lia. }
  assert (copyAt h1 offset tk = over h1 offset tk) as ->.
  { unfold over. rewrite (drop_ge tk), app_nil_r; [done|]. unfold zlen in *. lia. }
  pose proof (zlen_nonneg tk). rewrite over_lookup by lia. rewrite bool_decide_true by lia. rewrite Htk, lookup_take_lt by lia. done.
Qed.
Lemma keepHead_keeps hk offset data h (i : nat) b : 0 <= offset -> offset + zlen data < 2 ^ 64 ->
  ~ (Z.to_nat offset <= i < Z.to_nat offset + length data)%nat -> h !! i = Some b -> keepHead hk offset data h !! i = Some b.
Proof.
  intros H0 H64 Hout Hi. unfold keepHead. rewrite Z.geb_leb. destruct (Z.leb_spec hk offset); [done|].
  rewrite !(u64_small (offset + zlen data)) by (pose proof (zlen_nonneg data); lia). rewrite !(Z.gtb_ltb (offset + zlen data)).
  match goal with |- context [copyAt _ _ ?t] => set (tk := t) in * end.
  assert (length tk <= length data)%nat as Hl. { subst tk. destruct (_ <? _); [rewrite length_take; lia|done]. }
  rewrite !(u64_small (offset + zlen tk)) by (unfold zlen in *; lia). rewrite !(Z.gtb_ltb (offset + zlen tk)).
  match goal with |- copyAt ?x _ _ !! _ = _ => set (h1 := x) end.
  assert (offset + zlen tk <= zlen h1) as Hh1.
  { subst h1. destruct (Z.ltb_spec (zlen h) (offset + zlen tk)); [|lia]. rewrite zlen_app, zlen_replicate. lia. }
  assert (copyAt h1 offset tk = over h1 offset tk) as ->.
  { unfold over. rewrite (drop_ge tk), app_nil_r; [done|]. unfold zlen in *. lia. }
  pose proof (zlen_nonneg tk). rewrite over_lookup by lia. rewrite bool_decide_false by lia. subst h1.
  destruct (zlen h <? _); [by apply lookup_app_l_Some|done].
Qed.

Lemma keepHead_short hk offset data h : 0 <= offset -> offset + zlen data < 2 ^ 64 -> zlen h <= Z.max 0 hk ->
  zlen (keepHead hk offset data h) <= Z.max 0 hk.
Proof.
  intros H0 H64 Hh. unfold keepHead. rewrite Z.geb_leb. destruct (Z.leb_spec hk offset); [done|].
  rewrite !(u64_small (offset + zlen data)) by (pose proof (zlen_nonneg data); lia). rewrite !(Z.gtb_ltb (offset + zlen data)).
  match goal with |- context [copyAt _ _ ?t] => set (tk := t) in * end.
  assert (zlen tk <= zlen data /\ offset + zlen tk <= hk) as [Hl Hhk].
  { subst tk. destruct (Z.ltb_spec hk (offset + zlen data)); [|lia]. unfold zlen in *. rewrite length_take. lia. }
  pose proof (zlen_nonneg tk). clearbody tk. rewrite !(u64_small (offset + zlen tk)) by lia. rewrite !(Z.gtb_ltb (offset + zlen tk)).
  unfold copyAt, zlen in *. destruct (Z.ltb_spec (Z.of_nat (length h)) (offset + Z.of_nat (length tk)));
    rewrite !length_app, !length_take, !length_drop, ?length_app, ?length_replicate; lia.
Qed.

(** What the upload keeps besides the buffer agrees with the file. *)
Record reads_agree (hk : Z) (u : upload) (m : file) : Prop := ReadsAgree {
  ra_head : forall i b, 0 <= i < hk -> m i = Some b -> head u !! Z.to_nat i = Some b;
  ra_short : zlen (head u) <= Z.max 0 hk;
  ra_last : forall j b, lastSent u !! j = Some b -> m (lastSentOffset u + Z.of_nat j) = Some b;
  ra_where : 0 <= lastSentOffset u /\ lastSentOffset u + zlen (lastSent u) <= bufOffset (strm u);
}.

Lemma write_head hk op offset data u u' sls : write hk op offset data u = Ok (u', inr sls) -> head u' = keepHead hk offset data (head u).
Proof.
  assert (Hts : forall fuel v v' l, takeSlabs_loop fuel v = Ok (v', l) -> head v' = head v).
  { induction fuel as [|fuel IH]; intros v v' l; cbn [takeSlabs_loop]; destruct (_ >=? _); try done; [by intros [= <- _]| |by intros [= <- _]].
    intros H. inv_bind. destruct x1 as [w l']. injection H as <- _. apply IH in H2. done. }
  unfold write. destruct (partErr u); [done|]. destruct (_ <? nextOffset _).
  - destruct (_ <? bufOffset _); [done|]. intros H. apply bind_Ok in H as ([v l] & Hv%Hts & H). injection H as <- _. by rewrite Hv.
  - intros H. apply bind_Ok in H as (s & _ & H). apply bind_Ok in H as ([v l] & Hv%Hts & H). injection H as <- _. by rewrite Hv.
Qed.

Lemma reads_agree_write hk u m base op offset data u' sls :
  stands_for base (strm u) m -> reads_agree hk u m -> 0 <= offset -> offset + zlen data < 2 ^ 64 ->
  bufOffset (strm u) <= offset ->
  write hk op offset data u = Ok (u', inr sls) -> hands_out u u' sls ->
  stands_for (base ++ bytesOf sls) (strm u') (writeSpec m offset data) ->
  reads_agree hk u' (writeSpec m offset data).
Proof.
  intros Hs [R1 RS R2 R3] H0 H64 Hb Hw Hho Hs'. pose proof (sf_base _ _ _ Hs) as Hbase. pose proof (ho_tiles _ _ _ Hho) as Ht.
  pose proof (tiles_length _ _ _ Ht) as Htl. pose proof (zlen_nonneg (bytesOf sls)). split.
  - intros i b Hi Hm. rewrite (write_head _ _ _ _ _ _ _ Hw). destruct (decide (offset <= i < offset + zlen data)) as [Hin|Hout].
    + rewrite writeSpec_in in Hm by done. rewrite keepHead_lookup by (unfold zlen in *; lia).
      rewrite <- Hm. f_equal. lia.
    + rewrite writeSpec_out in Hm by lia. apply keepHead_keeps; [lia..|unfold zlen in *; lia|auto].
  - rewrite (write_head _ _ _ _ _ _ _ Hw). by apply keepHead_short.
  - intros j b Hj. destruct (ho_last _ _ _ Hho) as [(-> & E1 & E2)|(sl & Hl & He)].
    + rewrite E1 in Hj. rewrite E2. apply lookup_lt_Some in Hj as Hlt. rewrite writeSpec_out by (unfold zlen in *; lia). auto.
    + apply last_Some in Hl as [l ->]. apply tiles_app in Ht as (X & Hl & HX & Hz & Hend). rewrite He in HX, Hend. simpl in HX, Hend.
      apply tiles_length in Hl. apply lookup_lt_Some in Hj as Hlt. pose proof (zlen_nonneg (bytesOf l)). pose proof (zlen_nonneg base).
      pose proof (stands_for_nonneg _ _ _ Hs') as Hnn.
      rewrite (sf_here _ _ _ Hs') by (unfold zlen in *; lia). rewrite bytesOf_app. unfold bytesOf at 2. simpl. rewrite app_nil_r, He. simpl.
      rewrite <- !app_assoc. rewrite lookup_app_r by (unfold zlen in *; lia). rewrite lookup_app_r by (unfold zlen in *; lia).
      rewrite lookup_app_l by (unfold zlen in *; lia). rewrite <- Hj. f_equal. unfold zlen in *. lia.
  - destruct (ho_last _ _ _ Hho) as [(-> & E1 & E2)|(sl & Hl & He)].
    + rewrite E1, E2. simpl in Ht. rewrite <- Ht. done.
    + apply last_Some in Hl as [l ->]. apply tiles_app in Ht as (X & Hl & HX & Hz & Hend). rewrite He in HX, Hend. simpl in HX, Hend.
      apply tiles_length in Hl. pose proof (zlen_nonneg (bytesOf l)). pose proof (zlen_nonneg base). lia.
Qed.

Definition isSetEnd (ev : event) : bool := match ev with EvSetEnd _ => true | _ => false end.

Lemma runs_reads hk maxLen evs r m : runs hk maxLen evs r m -> 0 < maxLen -> forallb (fun ev => negb (isSetEnd ev)) evs = true ->
  ph r = Writing -> reads_agree hk (up r) m.
Proof.
  intros Hr Hm. induction Hr as [id path|evs r m ev r' took Hr IH Ho Hdo]; intros Hev Hph.
  { split; simpl; done || (change (zlen []) with 0; lia). }
  rewrite forallb_app in Hev. apply andb_prop in Hev as [Hev Hlast]. pose proof (runs_holds _ _ _ _ _ Hr Hm) as (sent & lost & landed & Hh).
  destruct ev as [op offset data|i|i eTag|i e|n|]; simpl in *.
  - destruct Ho as (Hw & H0 & H64 & Hcl). specialize (IH Hev Hw). apply bind_Ok in Hdo as ([u' res] & Hwr & Hdo). destruct res as [e|sls]; simpl in Hdo.
    { injection Hdo as <- <-. done. }
    injection Hdo as <- <-. simpl. unfold write in Hwr. destruct (partErr (up r)) eqn:He; [done|]. 
    destruct (Z.le_gt_cases (bufOffset (strm (up r))) offset) as [Hb|Hb].
    + destruct (write_ok hk (bytesOf sent) (up r) m op offset data (h_file _ _ _ _ _ Hh) (h_max _ _ _ _ _ Hh) H0 H64 Hcl He Hb)
        as (u2 & sls2 & Hw2 & Hho & Hs2 & _). assert (write hk op offset data (up r) = Ok (u', inr sls)) as Hw3 by (unfold write; by rewrite He).
      rewrite Hw3 in Hw2. injection Hw2 as <- <-. eapply reads_agree_write; eauto. apply Hh.
    + pose proof (stands_for_nonneg _ _ _ (h_file _ _ _ _ _ Hh)). simpl in Hwr.
      destruct (Z.ltb_spec offset (nextOffset (strm (up r)))); [|lia]. destruct (Z.ltb_spec offset (bufOffset (strm (up r)))); [done|lia].
  - destruct (waiting r !! i) as [sl|]; [destruct (_ <? _)|]; injection Hdo as <- <-; auto.
    destruct (IH Hev Hph) as [R1 RS R2 R3]. by split.
  - destruct (flying r !! i) as [sl|]; injection Hdo as <- <-; auto. destruct (IH Hev Hph) as [R1 RS R2 R3]. by split.
  - destruct (flying r !! i) as [sl|]; injection Hdo as <- <-; auto. destruct (IH Hev Hph) as [R1 RS R2 R3].
    unfold sendPart_end. simpl. destruct (partErr (up r)); by split.
  - done.
  - destruct (flush_send (up r)) as [[[u sls] [e|]]| | |]; try done; by injection Hdo as <- <-.
Qed.

(** What a slice that can be taken holds. *)
Lemma slice_holds (l : list Z) k e : 0 <= k <= e -> e <= zlen l ->
  exists d, @slice upErr Z l k e = Ok d /\ zlen d = e - k /\ forall j, 0 <= j < e - k -> d !! Z.to_nat j = l !! Z.to_nat (k + j).
Proof.
  intros Hk He. exists (sub l k e). rewrite slice_Ok by lia. split_and!; [done|by rewrite zlen_sub by lia|].
  intros j Hj. rewrite lookup_sub by lia. f_equal. lia.
Qed.

(** C7: While a file is being written, every event so far [orderly] and none of them
    a cut (after one, [read_after_cut_is_stale]), a read inside it is either declined or
    answered with the bytes that were written, whether they come from the kept front,
    the part sent last or the buffer. *)
Theorem reads_what_was_written hk maxLen evs r m offset length : 
  runs hk maxLen evs r m -> 0 < maxLen -> forallb (fun ev => negb (isSetEnd ev)) evs = true -> ph r = Writing ->
  0 <= offset -> 0 <= length -> offset + length <= totalSize (strm (up r)) ->
  match readBuffered offset length (up r) with
  | Ok (Some d) => zlen d = length /\ forall j, 0 <= j < length -> d !! Z.to_nat j = m (offset + j)
  | Ok None => True
  | _ => False
  end.
Proof.
  intros Hr Hm Hev Hph Ho Hl Ht. destruct (runs_reads _ _ _ _ _ Hr Hm Hev Hph) as [R1 RS R2 [R3 R4]].
  destruct (runs_holds _ _ _ _ _ Hr Hm) as (sent & lost & landed & Hh). pose proof (h_file _ _ _ _ _ Hh) as Hs.
  pose proof (stands_for_nonneg _ _ _ Hs) as Hnn. pose proof (sf_total _ _ _ Hs) as Htot. pose proof (sf_u64 _ _ _ Hs) as H64.
  assert (forall j, 0 <= j < length -> exists b, m (offset + j) = Some b) as Hwr.
  { intros j Hj. apply (stands_for_written _ _ _ (offset + j) Hs). lia. }
  unfold readBuffered. rewrite (u64_small (offset + length)) by lia.
  destruct (Z.leb_spec (offset + length) (zlen (head (up r)))) as [Hh1|Hh1].
  { destruct (slice_holds (head (up r)) offset (offset + length)) as (d & -> & Hd & Hj); [lia..|]. simpl. split; [lia|].
    intros j Hjl. rewrite Hj by lia. destruct (Hwr j Hjl) as [b Hb]. rewrite Hb. apply R1; [lia|done]. }
  destruct ((_ <=? offset) && _) eqn:Hlast.
  { apply andb_prop in Hlast as [H1%Z.leb_le H2%Z.leb_le].
    destruct (slice_holds (lastSent (up r)) (offset - lastSentOffset (up r)) (zlen (lastSent (up r)))) as (d & -> & Hd & Hj); [lia..|]. simpl.
    replace (Z.to_nat length - List.length d)%nat with 0%nat by (unfold zlen in *; lia). simpl. rewrite app_nil_r.
    split; [unfold zlen in *; rewrite length_take; lia|]. intros j Hjl. rewrite lookup_take_lt by lia. rewrite Hj by lia.
    destruct (lookup_lt_is_Some_2 (lastSent (up r)) (Z.to_nat (offset - lastSentOffset (up r) + j))) as [b Hb]; [unfold zlen in *; lia|].
    rewrite Hb. apply R2 in Hb. rewrite <- Hb. f_equal. lia. }
  destruct (_ || _) eqn:Hbuf; [done|]. apply orb_false_iff in Hbuf as [H1%Z.ltb_ge H2]. rewrite Z.gtb_ltb in H2. apply Z.ltb_ge in H2.
  rewrite u64_small by lia.
  destruct (slice_holds (buf (strm (up r))) (offset - bufOffset (strm (up r))) (offset - bufOffset (strm (up r)) + length))
    as (d & -> & Hd & Hj); [lia..|]. simpl. split; [lia|]. intros j Hjl. rewrite Hj by lia. rewrite (sf_here _ _ _ Hs) by lia.
  pose proof (sf_base _ _ _ Hs) as Hbase. rewrite lookup_app_r by (unfold zlen in *; lia). f_equal. unfold zlen in *. lia.
Qed.

(** ** Running a list of events *)
Definition runEvent (hk : Z) (s : option (running * file)) (ev : event) : option (running * file) :=
  '(r, m) ← s;
  if decide (orderly ev r) then
    match uploadDo hk ev r with
    | Ok (r', took) => Some (r', if took : bool then apply ev r' m else m)
    | _ => None
    end
  else None.
Definition runAll (hk maxLen : Z) (evs : list event) : option (running * file) :=
  fold_left (runEvent hk) evs (Some (Running (newUpload "u" "f" maxLen) [] [] ∅ Writing, emptyFile)).
Definition runEnd (hk maxLen : Z) (evs : list event) : running :=
  from_option fst (Running (newUpload "u" "f" maxLen) [] [] ∅ Writing) (runAll hk maxLen evs).
Definition runFile (hk maxLen : Z) (evs : list event) : file := from_option snd emptyFile (runAll hk maxLen evs).

Lemma runAll_runs hk maxLen evs r m : runAll hk maxLen evs = Some (r, m) -> runs hk maxLen evs r m.
Proof.
  revert r m. induction evs as [|ev evs IH] using rev_ind; intros r m.
  - intros [= <- <-]. constructor.
  - unfold runAll. rewrite fold_left_app. simpl. unfold runEvent at 1. intros ([r0 m0] & H0 & H)%bind_Some.
    destruct (decide (orderly ev r0)) as [Ho|]; [|done]. destruct (uploadDo hk ev r0) as [[r' took]| | |] eqn:Hdo; try done.
    injection H as <- <-. eapply runs_snoc; eauto.
Qed.
Lemma runEnd_runs hk maxLen evs : match runAll hk maxLen evs with Some _ => true | None => false end = true ->
  runs hk maxLen evs (runEnd hk maxLen evs) (runFile hk maxLen evs).
Proof.
  intros H. unfold runEnd, runFile. destruct (runAll hk maxLen evs) as [[r m]|] eqn:E; [|done]. by apply runAll_runs.
Qed.

(** Writes out of order with a hole between them, one byte written over, the
    parts landing last first. *)
Definition sampleEvents : list event :=
  [EvWrite 1 4 [5; 6; 7; 8; 9]; EvWrite 1 0 [1; 2; 3; 4]; EvWrite 2 12 [13]; EvWrite 1 8 [10]; EvSend 0; EvSend 0; EvFlush;
   EvSend 0; EvSend 0; EvLand 3 "d"; EvLand 1 "b"; EvLand 0 "a"; EvLand 0 "c"].
Lemma upload_stores_the_file_witness :
  object (backend (runEnd 8 4 sampleEvents)) [(1, "a"); (2, "b"); (3, "c"); (4, "d")] = [1; 2; 3; 4; 5; 6; 7; 8; 10; 0; 0; 0; 13] /\
  zlen (object (backend (runEnd 8 4 sampleEvents)) [(1, "a"); (2, "b"); (3, "c"); (4, "d")])
    = totalSize (strm (up (runEnd 8 4 sampleEvents))).
Proof.
  split; [vm_compute; reflexivity|].
  apply (upload_stores_the_file 8 4 sampleEvents (runEnd 8 4 sampleEvents) (runFile 8 4 sampleEvents));
    [apply runEnd_runs; vm_compute; reflexivity|lia|vm_compute; reflexivity..].
Defined.

Lemma upload_events_return_witness :
  settled (uploadDo 8 (EvSetEnd 6) (runEnd 8 4 [EvWrite 1 0 [1; 2; 3; 4; 5]; EvSend 0; EvLand 0 "a"])).
Proof.
  apply (upload_events_return 8 4 [EvWrite 1 0 [1; 2; 3; 4; 5]; EvSend 0; EvLand 0 "a"] _
           (runFile 8 4 [EvWrite 1 0 [1; 2; 3; 4; 5]; EvSend 0; EvLand 0 "a"]));
    [apply runEnd_runs; vm_compute; reflexivity|lia|vm_compute; split; [reflexivity|split; [discriminate|reflexivity]]].
Defined.

Definition readEvents : list event := [EvWrite 1 0 [1; 2; 3; 4; 5]; EvWrite 1 5 [6; 7; 8; 9]].
Lemma reads_what_was_written_witness :
  readBuffered 5 2 (up (runEnd 4 4 readEvents)) = Ok (Some [6; 7]) /\
  match readBuffered 5 2 (up (runEnd 4 4 readEvents)) with
  | Ok (Some d) => zlen d = 2 /\ forall j, 0 <= j < 2 -> d !! Z.to_nat j = runFile 4 4 readEvents (5 + j)
  | Ok None => True
  | _ => False
  end.
Proof.
  split; [vm_compute; reflexivity|].
  apply (reads_what_was_written 4 4 readEvents (runEnd 4 4 readEvents) (runFile 4 4 readEvents) 5 2);
    [apply runEnd_runs; vm_compute; reflexivity|lia|vm_compute; reflexivity|vm_compute; reflexivity|lia|lia|vm_compute; discriminate].
Defined.

(** ** Where the code falls short

    What holds of disorderly events: each is a run of the operations as they
    stand, with the file the client asked for beside what is kept. *)
Definition doAll (hk maxLen : Z) (evs : list event) : out running :=
  fold_left (fun s ev => r ← s; c ← uploadDo hk ev r; mret c.1) evs (Ok (Running (newUpload "u" "f" maxLen) [] [] ∅ Writing)).
(** The bytes an upload nothing has left holds. *)
Definition kept (r : out running) : out (list Z) := s ← r; mret (buf (strm (up s))).
Definition stored (r : out running) : out (list Z) :=
  s ← r; c ← flush_complete (up s); mret (object (backend s) c).

(** A write queued over the end of one queued before it loses to it: the older
    bytes are the ones stored. *)
Theorem queued_overlap_keeps_older_bytes :
  kept (doAll 0 100 [EvWrite 1 4 [1; 1; 1; 1]; EvWrite 1 6 [2; 2; 2]; EvWrite 1 0 [0; 0; 0; 0]])
    = Ok [0; 0; 0; 0; 1; 1; 1; 1; 2] /\
  writeSpec (writeSpec (writeSpec emptyFile 4 [1; 1; 1; 1]) 6 [2; 2; 2]) 0 [0; 0; 0; 0] 6 = Some 2.
Proof. vm_compute. done. Qed.

(** A write queued where a longer one starts replaces the whole of it, and what
    the longer one held past it is gone. *)
Theorem queued_rewrite_drops_the_tail :
  kept (doAll 0 100 [EvWrite 1 4 [1; 1; 1; 1]; EvWrite 1 4 [2; 2]; EvWrite 1 0 [0; 0; 0; 0]]) = Ok [0; 0; 0; 0; 2; 2] /\
  writeSpec (writeSpec (writeSpec emptyFile 4 [1; 1; 1; 1]) 4 [2; 2]) 0 [0; 0; 0; 0] 7 = Some 1.
Proof. vm_compute. done. Qed.

(** A file cut while one of its parts waits for a slot is stored with that part
    all the same: four bytes were asked for, eight are stored. *)
Theorem cut_misses_a_waiting_part :
  stored (doAll 0 4 [EvWrite 1 0 [1; 2; 3; 4; 5; 6; 7; 8]; EvSend 0; EvLand 0 "a"; EvSetEnd 4; EvSend 0; EvLand 0 "b"; EvFlush])
    = Ok [1; 2; 3; 4; 5; 6; 7; 8].
Proof. vm_compute. done. Qed.

(** A cut to a part boundary keeps the bytes of the part it left out, and a read
    of what is written there next is answered with them. *)
Theorem read_after_cut_is_stale :
  (r ← doAll 0 4 [EvWrite 1 0 [1; 2; 3; 4; 5; 6; 7; 8]; EvSend 0; EvSend 0; EvLand 0 "a"; EvLand 0 "b"; EvSetEnd 4; EvWrite 1 4 [9; 9]];
   readBuffered 4 2 (up r)) = Ok (Some [5; 6]).
Proof. vm_compute. done. Qed.

(** A cut past what has been joined up leaves what is queued beyond it. *)
Theorem cut_leaves_what_is_queued :
  stored (doAll 0 4 [EvWrite 1 0 [1; 2]; EvWrite 1 6 [7]; EvSetEnd 4; EvFlush; EvSend 0; EvSend 0; EvLand 0 "a"; EvLand 0 "b"])
    = Ok [1; 2; 0; 0; 0; 0; 7].
Proof. vm_compute. done. Qed.
