(* ===== verification/FileState.v ===== *)
(** The state of a file every handle on it shares: [fileState] of [open.go], and the
    table of such states a share keeps ([persisted] of [share.go], through the methods
    of [tree.go]).

    Each method is one hold of [fs.mu], or of the mutex of the share.  A time is a
    number, [time.Now] an argument; an upload and a file state are known by identity,
    and the zero pointer is [None].  The ranges locked are in [Locks]. *)
From S2P Require Import Prelude Smb2Const Paths.

Module FileState.
Abbreviation fsId := nat.
Abbreviation uploadId := nat.

(** ** [fileState] *)
Record fileState := State {
  created : Z; modified : Z; fsize : Z; allocated : Z; attributes : Z;
  upload : option uploadId; stored : bool; deleted : bool; cancelled : option string;
  handles : Z; generation : Z; sizeBefore : Z; allocatedBefore : Z; inflight : Z;
}.
Definition set_measure (size alloc mtime : Z) (fs : fileState) : fileState :=
  State (created fs) mtime size alloc (attributes fs) (upload fs) (stored fs) (deleted fs) (cancelled fs)
    (handles fs) (generation fs) (sizeBefore fs) (allocatedBefore fs) (inflight fs).
Definition set_attrs (a : Z) (fs : fileState) : fileState :=
  State (created fs) (modified fs) (fsize fs) (allocated fs) a (upload fs) (stored fs) (deleted fs) (cancelled fs)
    (handles fs) (generation fs) (sizeBefore fs) (allocatedBefore fs) (inflight fs).
Definition set_upload (u : option uploadId) (fs : fileState) : fileState :=
  State (created fs) (modified fs) (fsize fs) (allocated fs) (attributes fs) u (stored fs) (deleted fs) (cancelled fs)
    (handles fs) (generation fs) (sizeBefore fs) (allocatedBefore fs) (inflight fs).
Definition set_marks (st del : bool) (c : option string) (fs : fileState) : fileState :=
  State (created fs) (modified fs) (fsize fs) (allocated fs) (attributes fs) (upload fs) st del c
    (handles fs) (generation fs) (sizeBefore fs) (allocatedBefore fs) (inflight fs).
Definition set_counts (h g i : Z) (fs : fileState) : fileState :=
  State (created fs) (modified fs) (fsize fs) (allocated fs) (attributes fs) (upload fs) (stored fs) (deleted fs) (cancelled fs)
    h g (sizeBefore fs) (allocatedBefore fs) i.
Definition set_before (size alloc : Z) (fs : fileState) : fileState :=
  State (created fs) (modified fs) (fsize fs) (allocated fs) (attributes fs) (upload fs) (stored fs) (deleted fs) (cancelled fs)
    (handles fs) (generation fs) size alloc (inflight fs).

(** ** Writes on their way *)
Definition beginWrite (fs : fileState) : fileState := set_counts (handles fs) (generation fs) (inflight fs + 1) fs.
Definition endWrite (fs : fileState) : fileState := set_counts (handles fs) (generation fs) (inflight fs - 1) fs.
(** [None]: the caller waits on the condition variable. *)
Definition waitForWrites (fs : fileState) : option (option uploadId) :=
  if inflight fs >? 0 then None else Some (upload fs).

(** ** Handles and marks *)
Definition attach (fs : fileState) : fileState :=
  let fs := set_marks (stored fs) (deleted fs) None fs in
  set_counts (handles fs + 1) (generation fs) (inflight fs) fs.
Definition failUpload (err : string) (fs : fileState) : fileState := set_marks (stored fs) (deleted fs) (Some err) fs.
Definition uploadCancelled (fs : fileState) : option string := cancelled fs.
Definition detach (fs : fileState) : fileState * bool :=
  let fs := set_counts (handles fs - 1) (generation fs) (inflight fs) fs in
  (fs, (handles fs <=? 0) && stored fs).
Definition lastHandle (fs : fileState) : bool := handles fs <=? 1.
Definition markStored (fs : fileState) : fileState := set_marks true (deleted fs) (cancelled fs) fs.
Definition markUnstored (fs : fileState) : fileState := set_marks false (deleted fs) (cancelled fs) fs.
Definition isStored (fs : fileState) : bool := stored fs.
Definition markDeleted (fs : fileState) : fileState := set_marks (stored fs) true (cancelled fs) fs.
Definition isDeleted (fs : fileState) : bool := deleted fs.
Definition generationNow (fs : fileState) : Z := generation fs.
Definition stat (fs : fileState) : Z * Z * Z * Z * Z := (fsize fs, allocated fs, created fs, modified fs, attributes fs).
Definition sizeNow (fs : fileState) : Z := fsize fs.
Definition attributesNow (fs : fileState) : Z := attributes fs.
Definition isDirectory (fs : fileState) : bool := has (attributesNow fs) FILE_ATTRIBUTE_DIRECTORY.
Definition markDirectory (fs : fileState) : fileState :=
  set_attrs ((attributes fs .| FILE_ATTRIBUTE_DIRECTORY) &^ FILE_ATTRIBUTE_NORMAL) fs.
Definition settableAttributes : Z :=
  FILE_ATTRIBUTE_READONLY .| FILE_ATTRIBUTE_HIDDEN .| FILE_ATTRIBUTE_SYSTEM .| FILE_ATTRIBUTE_ARCHIVE .| FILE_ATTRIBUTE_TEMPORARY
  .| FILE_ATTRIBUTE_NOT_CONTENT_INDEXED.
Definition setAttributes (a : Z) (fs : fileState) : fileState :=
  let attrs := (attributes fs &^ (settableAttributes .| FILE_ATTRIBUTE_NORMAL)) .| (a .& settableAttributes) in
  set_attrs (if attrs =? 0 then FILE_ATTRIBUTE_NORMAL else attrs) fs.
Definition setAllocated (a : Z) (fs : fileState) : fileState := set_measure (fsize fs) a (modified fs) fs.
Definition setModified (t : Z) (fs : fileState) : fileState :=
  if t >? modified fs then set_measure (fsize fs) (allocated fs) t fs else fs.
Definition touch (now : Z) (fs : fileState) : fileState := set_measure (fsize fs) (allocated fs) now fs.
Definition empty (now : Z) (fs : fileState) : fileState :=
  let fs := set_measure 0 0 now fs in set_counts (handles fs) (u64 (generation fs + 1)) (inflight fs) fs.

(** ** The upload the file is written through *)
Definition uploadNow (fs : fileState) : option uploadId := upload fs.
Definition startUpload (u : uploadId) (fs : fileState) : fileState * bool :=
  match upload fs with
  | Some _ => (fs, false)
  | None =>
      let fs := set_upload (Some u) fs in
      let fs := set_counts (handles fs) (u64 (generation fs + 1)) (inflight fs) fs in
      (set_before (fsize fs) (allocated fs) fs, true)
  end.
Definition advanceUpload (now : Z) (u : uploadId) (size : Z) (fs : fileState) : fileState :=
  if decide (upload fs = Some u) then set_measure size size now fs else fs.
Definition finishUpload (now : Z) (u : uploadId) (size : Z) (fs : fileState) : fileState :=
  if decide (upload fs = Some u) then set_upload None (set_measure size size now fs) else fs.
Definition dropUpload (u : uploadId) (fs : fileState) : fileState :=
  if decide (upload fs = Some u) then
    let fs := set_upload None fs in
    let fs := set_measure (sizeBefore fs) (allocatedBefore fs) (modified fs) fs in
    set_counts (handles fs) (u64 (generation fs + 1)) (inflight fs) fs
  else fs.

(** What [registerOpen] makes for a file it meets for the first time. *)
Definition newFileState (filename : string) (isDir : bool) (createdAt modifiedAt size : Z) : fileState :=
  let attrs := if isDir then FILE_ATTRIBUTE_DIRECTORY else FILE_ATTRIBUTE_NORMAL in
  let attrs := if String.prefix "." filename then (attrs .| FILE_ATTRIBUTE_HIDDEN) &^ FILE_ATTRIBUTE_NORMAL else attrs in
  let size := if isDir then 0 else size in
  State createdAt modifiedAt size size attrs None false false None 0 0 0 0 0.

(** ** The table of a share

    Keyed by the workgroup whose namespace a file is in, and its path. *)
Abbreviation persistedKey := (string * string)%type.
Abbreviation table := (gmap persistedKey fsId).
Section tree.
Context (workgroup : string).
Definition persistedFile (path : string) (t : table) : option fsId := t !! (workgroup, path).
Definition persistFile (path : string) (fs : fsId) (t : table) : table := <[(workgroup, path) := fs]> t.
Definition forgetPersistedFile (path : string) (t : table) : table := delete (workgroup, path) t.
Definition movePersistedFile (from to : string) (fs : fsId) (t : table) : table :=
  <[(workgroup, to) := fs]> (delete (workgroup, from) t).

(** What a key becomes when the directory [from] is renamed, if it lies under it. *)
Definition movedKey (from to : string) (key : persistedKey) : option persistedKey :=
  if decide (key.1 = workgroup) then
    match strip_prefix (from +:+ "/") key.2 with Some rest => Some (key.1, to +:+ "/" +:+ rest) | None => None end
  else None.
Definition movePersistedTree (from to : string) (t : table) : table :=
  let moved := list_to_map (omap (fun e : persistedKey * fsId => (fun k => (k, e.2)) <$> movedKey from to e.1) (map_to_list t)) in
  moved ∪ filter (fun e => movedKey from to e.1 = None) t.

(** The entries of a listing: the key, the times and the size. *)
Definition persistedObjects (want : string -> bool) (files : fsId -> option fileState) (t : table) : list (string * Z * Z * Z) :=
  omap (fun e : persistedKey * fsId =>
    if decide (e.1.1 = workgroup) then
      if want e.1.2 then
        fs ← files e.2;
        if isStored fs then None else Some ("/" +:+ e.1.2, modified fs, modified fs, fsize fs)
      else None
    else None) (map_to_list t).
End tree.

(** [confine] of a tree connect on a share with the public folder [publicDir]. *)
Definition confine (isAnonymous : bool) (publicDir path : string) : string :=
  if negb isAnonymous || String.eqb publicDir "" then path
  else if String.eqb path "" then publicDir else publicDir +:+ "/" +:+ path.

(** ** What holds of them *)

(** The attributes say something, and [FILE_ATTRIBUTE_NORMAL] stands alone. *)
Definition attributesOk (a : Z) : Prop := a <> 0 /\ (has a FILE_ATTRIBUTE_NORMAL = true -> a = FILE_ATTRIBUTE_NORMAL).
Lemma has_bit a k : 0 <= k -> has a (2 ^ k) = Z.testbit a k.
Proof.
  intros Hk. unfold has. destruct (Z.testbit a k) eqn:E.
  - apply negb_true_iff, Z.eqb_neq. intros H. apply (f_equal (fun z => Z.testbit z k)) in H. rewrite Z.land_spec, E, Z.pow2_bits_true, Z.bits_0 in H by done. done.
  - apply negb_false_iff, Z.eqb_eq, Z.bits_inj'. intros i Hi. rewrite Z.land_spec, Z.bits_0, Z.pow2_bits_eqb by done. destruct (Z.eqb_spec k i) as [<-|]; [by rewrite E|by rewrite andb_false_r].
Qed.
Lemma not_normal_ok a i : 0 <= i -> Z.testbit a i = true -> Z.testbit a 7 = false -> attributesOk a.
Proof.
  intros Hi Hb Hn. split; [intros ->; by rewrite Z.bits_0 in Hb|]. change FILE_ATTRIBUTE_NORMAL with (2 ^ 7). by rewrite has_bit, Hn.
Qed.
(** However the attributes are changed, they stay so, and a client changes none but those
    it may. *)
Theorem attributes_stay_sound (filename : string) (isDir : bool) (c m n : Z) (fs : fileState) (a : Z) :
  attributesOk (attributes (newFileState filename isDir c m n)) /\ attributesOk (attributes (markDirectory fs)) /\ attributesOk (attributes (setAttributes a fs)) /\
  forall i, 0 <= i -> i <> 7 -> Z.testbit settableAttributes i = false -> Z.testbit (attributes (setAttributes a fs)) i = Z.testbit (attributes fs) i.
Proof.
  assert (forall x, Z.testbit ((attributes fs &^ (settableAttributes .| FILE_ATTRIBUTE_NORMAL)) .| (x .& settableAttributes)) 7 = false) as H7.
  { intros x. by rewrite Z.lor_spec, Z.ldiff_spec, Z.land_spec, Z.lor_spec, andb_false_r, andb_false_r. }
  split_and!.
  - unfold newFileState. simpl. destruct (String.prefix "." filename), isDir; simpl; [by apply (not_normal_ok _ 4)|by apply (not_normal_ok _ 1)|by apply (not_normal_ok _ 4)|done].
  - change (attributes (markDirectory fs)) with ((attributes fs .| FILE_ATTRIBUTE_DIRECTORY) &^ FILE_ATTRIBUTE_NORMAL).
    apply (not_normal_ok _ 4); [done| |]; rewrite Z.ldiff_spec, Z.lor_spec; [by rewrite orb_true_r|by rewrite andb_false_r].
  - unfold setAttributes. simpl. destruct (Z.eqb_spec ((attributes fs &^ (settableAttributes .| FILE_ATTRIBUTE_NORMAL)) .| (a .& settableAttributes)) 0) as [|Hn]; [done|].
    split; [done|]. change FILE_ATTRIBUTE_NORMAL with (2 ^ 7) at 2. by rewrite has_bit, H7.
  - intros i Hi H7i Hs. unfold setAttributes. simpl. assert (Z.testbit FILE_ATTRIBUTE_NORMAL i = false) as Hn by (change FILE_ATTRIBUTE_NORMAL with (2 ^ 7); apply Z.pow2_bits_false; lia).
    assert (Z.testbit ((attributes fs &^ (settableAttributes .| FILE_ATTRIBUTE_NORMAL)) .| (a .& settableAttributes)) i = Z.testbit (attributes fs) i) as E.
    { by rewrite Z.lor_spec, Z.ldiff_spec, Z.land_spec, Z.lor_spec, Hs, Hn, andb_false_r, andb_true_r, orb_false_r. }
    destruct (Z.eqb_spec ((attributes fs &^ (settableAttributes .| FILE_ATTRIBUTE_NORMAL)) .| (a .& settableAttributes)) 0) as [Hz|]; [|exact E]. rewrite Hz, Z.bits_0 in E. congruence.
Qed.

(** An upload that comes to nothing leaves the file as large as it was before it started,
    however far it got. *)
Definition advances (u : uploadId) (sizes : list (Z * Z)) (fs : fileState) : fileState :=
  fold_left (fun fs e => advanceUpload (fst e) u (snd e) fs) sizes fs.
Lemma advances_keep u sizes fs : upload fs = Some u -> let fs' := advances u sizes fs in upload fs' = Some u /\ sizeBefore fs' = sizeBefore fs /\ allocatedBefore fs' = allocatedBefore fs.
Proof.
  revert fs. induction sizes as [|[now n] sizes IH]; intros fs H; [done|]. simpl. unfold advanceUpload. rewrite decide_True by done.
  destruct (IH (set_measure n n now fs)) as (A & B & C); [done|]. unfold advances in *. by rewrite A, B, C.
Qed.
Theorem called_off_upload_restores (u : uploadId) (sizes : list (Z * Z)) (fs : fileState) : upload fs = None ->
  let fs' := dropUpload u (advances u sizes (startUpload u fs).1) in
  fsize fs' = fsize fs /\ allocated fs' = allocated fs /\ upload fs' = None.
Proof.
  intros H. unfold startUpload. rewrite H. set (fs1 := (_, true).1). destruct (advances_keep u sizes fs1 eq_refl) as (A & B & C). cbv zeta in *.
  unfold dropUpload. rewrite decide_True by done. simpl. by rewrite B, C.
Qed.

(** The rename of a directory takes exactly the entries of its own workgroup under it, each to
    the place under the new name; nothing else is touched, and nothing is left behind under the old. *)
Lemma movedKey_Some wg from to k k' : movedKey wg from to k = Some k' <-> exists rest, k = (wg, from +:+ "/" +:+ rest) /\ k' = (wg, to +:+ "/" +:+ rest).
Proof.
  unfold movedKey. destruct k as [g p]. simpl. destruct (decide (g = wg)) as [->|Hne]; [|split; [done|]; intros (? & [= -> _] & _); done].
  destruct (strip_prefix (from +:+ "/") p) as [rest|] eqn:E.
  - apply strip_prefix_Some in E as ->. split; [intros [= <-]; exists rest; by rewrite <- string_app_assoc|]. intros (r & [= Hr] & ->). do 3 f_equal.
    rewrite <- string_app_assoc in Hr. apply (proj2 (strip_prefix_Some (from +:+ "/") _ _)) in Hr. rewrite (proj2 (strip_prefix_Some (from +:+ "/") _ rest) eq_refl) in Hr. congruence.
  - split; [done|]. intros (r & [= ->] & _). rewrite <- string_app_assoc, (proj2 (strip_prefix_Some (from +:+ "/") _ r) eq_refl) in E. done.
Qed.
Definition movedEntry (wg from to : string) (e : persistedKey * fsId) : option (persistedKey * fsId) := (fun k => (k, e.2)) <$> movedKey wg from to e.1.
Lemma movedEntry_Some wg from to e k f : movedEntry wg from to e = Some (k, f) <-> movedKey wg from to e.1 = Some k /\ e.2 = f.
Proof. unfold movedEntry. rewrite fmap_Some. split; [intros (x & -> & [= -> ->]); done|intros [E <-]; eauto]. Qed.
Lemma movedEntries_nodup wg from to (l : list (persistedKey * fsId)) : NoDup l.*1 -> NoDup (omap (movedEntry wg from to) l).*1.
Proof.
  induction l as [|e l IH]; [intros; constructor|]. simpl. rewrite NoDup_cons. intros [Hn Hd]. specialize (IH Hd). destruct (movedEntry wg from to e) as [[k f]|] eqn:E; simpl; [|done].
  apply NoDup_cons. split; [|done]. apply movedEntry_Some in E as [E _]. rewrite list_elem_of_fmap. intros ([k' f'] & Hk & Hin). simpl in Hk. subst k'.
  apply list_elem_of_omap in Hin as (e' & Hin & E'). apply movedEntry_Some in E' as [E' _]. apply movedKey_Some in E as (r & E1 & E2), E' as (r' & E1' & E2'). rewrite E2 in E2'. injection E2' as Hr.
  rewrite <- !string_app_assoc in Hr. pose proof (proj2 (strip_prefix_Some (to +:+ "/") _ r) eq_refl) as X. rewrite Hr, (proj2 (strip_prefix_Some (to +:+ "/") _ r') eq_refl) in X.
  injection X as ->. apply Hn. rewrite E1, <- E1'. by apply list_elem_of_fmap_2.
Qed.
Theorem movePersistedTree_moves (wg from to : string) (t : table) :
  (forall rest f, t !! (wg, from +:+ "/" +:+ rest) = Some f -> movePersistedTree wg from to t !! (wg, to +:+ "/" +:+ rest) = Some f) /\
  (forall k, (forall rest, k = (wg, to +:+ "/" +:+ rest) -> t !! (wg, from +:+ "/" +:+ rest) = None) ->
     movePersistedTree wg from to t !! k = match movedKey wg from to k with Some _ => None | None => t !! k end).
Proof.
  unfold movePersistedTree. change (fun e : persistedKey * fsId => (fun k => (k, e.2)) <$> movedKey wg from to e.1) with (movedEntry wg from to).
  pose proof (movedEntries_nodup wg from to (map_to_list t) (NoDup_fst_map_to_list t)) as Hnd. split.
  - intros rest f E. apply lookup_union_Some_l. apply elem_of_list_to_map_1; [done|]. apply list_elem_of_omap. exists ((wg, from +:+ "/" +:+ rest), f).
    split; [by apply elem_of_map_to_list|]. apply movedEntry_Some. split; [|done]. apply movedKey_Some. eauto.
  - intros k Hk. rewrite lookup_union_r.
    + destruct (movedKey wg from to k) eqn:Em; [apply map_lookup_filter_None; right; simpl; congruence|].
      destruct (t !! k) eqn:E; [by apply map_lookup_filter_Some|apply map_lookup_filter_None; by left].
    + apply not_elem_of_list_to_map_1. rewrite list_elem_of_fmap. intros ([k' f] & -> & Hin). apply list_elem_of_omap in Hin as ([k0 f0] & Hin & E). apply elem_of_map_to_list in Hin.
      apply movedEntry_Some in E as [E _]. apply movedKey_Some in E as (rest & E1 & E2). simpl in *. subst k0. rewrite (Hk rest E2) in Hin. done.
Qed.
End FileState.
