(* ===== verification/Files.v ===== *)
(** The files of a share: the table of their states, the handles on them, what the store
    holds, and the requests that bring these together: [createFile] and the handlers of
    SMB2_CLOSE, SMB2_WRITE and SMB2_SET_INFO of [conn.go], with [registerOpen], [closeOpen],
    [releaseFile], [startUpload], [emptyFile], [cancelUpload] and [abandonUpload] of
    [open.go].

    The store is the map of the objects it holds, by workgroup and path; whether it
    answers, and what a flush has put together ([UploadSteps]), are arguments.  A handle
    is kept from the create that makes it to the close, disconnect or sweep that ends it.
    Access rights, sharing modes and caching, which a create settles before and after,
    are in [Sharing], [Oplock] and [Lease]; named pipes are left out. *)
From S2P Require Import Prelude Smb2Const Paths ServerState Upload Sharing FileState.
Import FileState.

Module Files.

(** ** State *)
Record handle := Handle { h_workgroup : string; h_path : string; h_file : fsId; h_options : Z }.
Definition key_of (h : handle) : persistedKey := (h_workgroup h, h_path h).
Record world := World {
  objects : gmap persistedKey (list Z);   (* what the store holds *)
  directories : gset persistedKey;
  persisted : table; files : gmap fsId fileState;
  uploads : gmap uploadId (string * Upload.upload);   (* with the workgroup it is stored for *)
  opens : gmap openId handle;
}.
Definition set_objects (m : gmap persistedKey (list Z)) (w : world) : world := World m (directories w) (persisted w) (files w) (uploads w) (opens w).
Definition set_directories (m : gset persistedKey) (w : world) : world := World (objects w) m (persisted w) (files w) (uploads w) (opens w).
Definition set_persisted (m : table) (w : world) : world := World (objects w) (directories w) m (files w) (uploads w) (opens w).
Definition set_files (m : gmap fsId fileState) (w : world) : world := World (objects w) (directories w) (persisted w) m (uploads w) (opens w).
Definition set_uploads (m : gmap uploadId (string * Upload.upload)) (w : world) : world := World (objects w) (directories w) (persisted w) (files w) m (opens w).
Definition set_handles (m : gmap openId handle) (w : world) : world := World (objects w) (directories w) (persisted w) (files w) (uploads w) m.
Definition onFile (f : fsId) (g : fileState -> fileState) (w : world) : world := set_files (alter g f (files w)) w.
Definition fileAt (o : openId) (w : world) : option (handle * fileState) :=
  h ← opens w !! o; fs ← files w !! h_file h; Some (h, fs).

(** ** The upload of a file *)
Definition cancelUpload (o : openId) (w : world) : world * bool :=
  match fileAt o w with
  | Some (h, fs) => match uploadNow fs with
                    | Some u => (onFile (h_file h) (dropUpload u) w, true)
                    | None => (w, false)
                    end
  | None => (w, false)
  end.
Definition forget (h : handle) (w : world) : world := set_persisted (forgetPersistedFile (h_workgroup h) (h_path h) (persisted w)) w.
Definition abandonUpload (o : openId) (w : world) : world :=
  let '(w1, was) := cancelUpload o w in
  match fileAt o w1 with
  | Some (h, fs) => if negb was || isStored fs then w1 else forget h w1
  | None => w1
  end.
(** The object goes, if [reach] says the store answers. *)
Definition emptyFile (now : Z) (reach : bool) (o : openId) (w : world) : world * bool :=
  let '(w, _) := cancelUpload o w in
  match opens w !! o with
  | Some h => if reach then (onFile (h_file h) (fun fs => markUnstored (empty now fs)) (set_objects (delete (key_of h) (objects w)) w), true)
              else (w, false)
  | None => (w, false)
  end.
Inductive fileErr := ErrFileDeleted | ErrStore | ErrCancelled (e : string) | ErrWentAway | ErrWrite (e : Upload.upErr).
(** [u] is the upload the store makes, if it does. *)
Definition startUpload (maxLen : Z) (id : string) (u : option uploadId) (o : openId) (w : world) : world * option fileErr :=
  match fileAt o w with
  | Some (h, fs) =>
      match uploadNow fs with
      | Some _ => (w, None)
      | None =>
          if isDeleted fs then (w, Some ErrFileDeleted)
          else match u with
               | None => (w, Some ErrStore)
               | Some u => (onFile (h_file h) (fun fs => (FileState.startUpload u fs).1)
                             (set_uploads (<[u := (h_workgroup h, Upload.newUpload id (h_path h) maxLen)]> (uploads w)) w), None)
               end
      end
  | None => (w, Some ErrStore)
  end.
(** [op.write], up to the parts it sends. *)
Definition write (now headKept maxLen : Z) (id : string) (u : option uploadId) (o : openId) (offset : Z) (data : list Z) (w : world) : world * option fileErr :=
  match fileAt o w with
  | None => (w, Some ErrStore)
  | Some (h, fs) =>
      let '(w, err) :=
        match uploadNow fs with
        | Some _ => (w, None)
        | None => match uploadCancelled fs with Some e => (w, Some (ErrCancelled e)) | None => startUpload maxLen id u o w end
        end in
      match err with
      | Some e => (w, Some e)
      | None =>
          match files w !! h_file h ≫= uploadNow with
          | None => (w, Some ErrWentAway)
          | Some u =>
              match uploads w !! u with
              | None => (w, Some ErrWentAway)
              | Some (wg, up) =>
                  match Upload.write headKept o offset data up with
                  | Ok (up', inl e) => (set_uploads (<[u := (wg, up')]> (uploads w)) w, Some (ErrWrite e))
                  | Ok (up', inr _) =>
                      (onFile (h_file h) (advanceUpload now u (Upload.totalSize (Upload.strm up'))) (set_uploads (<[u := (wg, up')]> (uploads w)) w), None)
                  | _ => (w, Some ErrStore)
                  end
              end
          end
      end
  end.
(** The goroutine of an SMB2_WRITE, with the status of its answer; [full] says that what the
    backend reported is that its backlog is full. *)
Definition statusOf (full : bool) (err : fileErr) : Z :=
  match err with ErrFileDeleted => STATUS_DELETE_PENDING | _ => if full then STATUS_DISK_FULL else STATUS_DATA_ERROR end.
Definition smb2_write (now headKept maxLen : Z) (id : string) (u : option uploadId) (why : string) (full : bool) (o : openId) (offset : Z) (data : list Z) (w : world) : world * Z :=
  match opens w !! o with
  | None => (w, STATUS_FILE_CLOSED)
  | Some h =>
      let w := onFile (h_file h) beginWrite w in
      let '(w, err) := write now headKept maxLen id u o offset data w in
      let '(w, status) :=
        match err with
        | None => (w, STATUS_OK)
        | Some ErrFileDeleted => (w, statusOf full ErrFileDeleted)
        | Some e => ((cancelUpload o (onFile (h_file h) (failUpload why) w)).1, statusOf full e)
        end in
      (onFile (h_file h) endWrite w, status)
  end.
(** [flush]: [stored] is what the store has put together, if the upload went through. *)
Definition flush (now : Z) (stored : option (list Z)) (o : openId) (w : world) : world * bool :=
  match fileAt o w with
  | Some (h, fs) =>
      match uploadNow fs with
      | None => (w, true)
      | Some u =>
          match stored, uploads w !! u with
          | Some c, Some (wg, up) =>
              (onFile (h_file h) (fun fs => markStored (finishUpload now u (zlen c) fs)) (set_objects (<[(wg, Upload.u_path up) := c]> (objects w)) w), true)
          | _, _ => (w, false)
          end
      end
  | None => (w, true)
  end.

(** ** Opening *)
Definition releaseFile (o : openId) (w : world) : world :=
  match fileAt o w with
  | Some (h, fs) =>
      let '(fs, gone) := detach fs in
      let w := set_files (<[h_file h := fs]> (files w)) w in
      if gone then forget h w else w
  | None => w
  end.
Definition closeOpen (o : openId) (w : world) : world :=
  let w := releaseFile o w in set_handles (delete o (opens w)) w.
(** What becomes of the state of the file an open is registered on: [known], or a new one under [f]. *)
Definition registerOpen (created modified size : Z) (isDir : bool) (known : option fsId) (f : fsId) (o : openId) (h : string * string) (options : Z) (w : world) : world :=
  match known with
  | Some f =>
      let w := if isDir then onFile f markDirectory w else w in
      set_handles (<[o := Handle h.1 h.2 f options]> (opens w)) (onFile f attach w)
  | None =>
      let fs := attach (newFileState (after_last_slash h.2) isDir created modified size) in
      set_handles (<[o := Handle h.1 h.2 f options]> (opens w)) (set_files (<[f := fs]> (files w)) w)
  end.

(** What a disposition comes to: [exists_] says the store has the name, [known] that the
    share holds a state for it.  [fresh] asks for the file, or the directory, to be made. *)
Inductive decision := Refuse (status : Z) | Proceed (result : Z) (fresh : bool).
Definition disposition (cd : Z) (exists_ known : bool) : decision :=
  if cd =? FILE_SUPERSEDE then
    if exists_ then Proceed FILE_SUPERSEDED false else if known then Proceed FILE_SUPERSEDED false else Proceed FILE_CREATED true
  else if cd =? FILE_OPEN then
    if exists_ then Proceed FILE_OPENED false else if known then Proceed FILE_OPENED false else Refuse STATUS_OBJECT_NAME_NOT_FOUND
  else if cd =? FILE_CREATE then
    if exists_ then Refuse STATUS_OBJECT_NAME_COLLISION else Proceed FILE_CREATED true
  else if cd =? FILE_OPEN_IF then
    if exists_ then Proceed FILE_OPENED false else if known then Proceed FILE_OPENED false else Proceed FILE_CREATED true
  else if cd =? FILE_OVERWRITE then
    if exists_ then Proceed FILE_OVERWRITTEN false else if known then Proceed FILE_OVERWRITTEN false else Refuse STATUS_OBJECT_NAME_NOT_FOUND
  else if cd =? FILE_OVERWRITE_IF then
    if exists_ then Proceed FILE_OVERWRITTEN false else if known then Proceed FILE_OVERWRITTEN false else Proceed FILE_CREATED true
  else Proceed 0 false.   (* no case: [result] keeps its zero value *)

Inductive lookup_ := Answers | TimesOut | Fails.   (* what the store does when asked for the object *)
Inductive mkdir := Made | DirExists | MkFails.
Definition wantsDirectory (cd options : Z) : bool := negb (cd =? FILE_SUPERSEDE) && has options FILE_DIRECTORY_FILE.
Record createArgs := CreateArgs {
  a_now : Z; a_workgroup : string; a_path : string; a_disposition : Z; a_options : Z;
  a_lookup : lookup_; a_times : Z * Z (* that the store has for the object *); a_mkdir : mkdir; a_reach : bool; a_open : openId; a_file : fsId;
}.
Definition objectAt (a : createArgs) (w : world) : option (bool * Z) :=
  let k := (a_workgroup a, a_path a) in
  match a_lookup a with
  | Answers => if bool_decide (k ∈ directories w) then Some (true, 0) else match objects w !! k with Some c => Some (false, zlen c) | None => None end
  | _ => None
  end.
(** From the registration of the open to the emptying of the file: [made] carries the result out. *)
Definition openFile (a : createArgs) (result : Z) (isDir stored_ : bool) (size : Z) (times : Z * Z) (known : option fsId) (w : world) : world * (Z + Z) :=
  let o := a_open a in
  let w := registerOpen times.1 times.2 size isDir known (a_file a) o (a_workgroup a, a_path a) (a_options a) w in
  match fileAt o w with
  | None => (w, inl STATUS_INVALID_PARAMETER)
  | Some (h, fs) =>
      let dir := has (attributesNow fs) FILE_ATTRIBUTE_DIRECTORY in
      let w := if dir then w
               else let w := if stored_ then onFile (h_file h) markStored w else w in
                    set_persisted (persistFile (a_workgroup a) (a_path a) (h_file h) (persisted w)) w in
      if (result =? FILE_SUPERSEDED) || (result =? FILE_OVERWRITTEN) then
        if stored_ && negb dir then
          let '(w, ok) := emptyFile (a_now a) (a_reach a) o w in
          if ok : bool then (w, inr result) else (closeOpen o w, inl STATUS_UNEXPECTED_NETWORK_ERROR)
        else (onFile (h_file h) (empty (a_now a)) w, inr result)
      else (w, inr result)
  end.
(** [createFile], past the lease key and the sharing mode: a status, or a result. *)
Definition createFile (a : createArgs) (w : world) : world * (Z + Z) :=
  match a_lookup a with
  | TimesOut => (w, inl STATUS_IO_TIMEOUT)
  | _ =>
      let found := objectAt a w in
      let known := persistedFile (a_workgroup a) (a_path a) (persisted w) in
      let exists_ := bool_decide (found <> None) in
      match disposition (a_disposition a) exists_ (bool_decide (known <> None)) with
      | Refuse status => (w, inl status)
      | Proceed result fresh =>
          if fresh && wantsDirectory (a_disposition a) (a_options a) then
            match a_mkdir a with
            | DirExists => (w, inl STATUS_OBJECT_NAME_COLLISION)
            | MkFails => (w, inl STATUS_UNEXPECTED_NETWORK_ERROR)
            | Made => openFile a result true exists_ 0 (a_now a, a_now a) known (set_directories ({[(a_workgroup a, a_path a)]} ∪ directories w) w)
            end
          else
            let '(isDir, size) := default (false, 0) found in
            openFile a result isDir exists_ size (if fresh then (a_now a, a_now a) else a_times a) known w
      end
  end.

(** ** Closing *)
Record closeArgs := CloseArgs { c_now : Z; c_stored : option (list Z); c_isEmpty : option bool; c_reach : bool }.
(** The upload of the file, and whether what was written is lost. *)
Definition settleUpload (a : closeArgs) (o : openId) (h : handle) (fs : fileState) (w : world) : world * bool :=
  match uploadNow fs with
  | None => (w, false)
  | Some u =>
      if has (h_options h) FILE_DELETE_ON_CLOSE then
        if lastHandle fs then ((cancelUpload o w).1, false)
        else ((cancelUpload o (onFile (h_file h) markDeleted w)).1, false)
      else match uploads w !! u with
           | None => (w, false)
           | Some (wg, up) =>
               let '(up, others) := Upload.leave o up in
               let w := set_uploads (<[u := (wg, up)]> (uploads w)) w in
               if others : bool then (w, false)
               else let '(w, ok) := flush (c_now a) (c_stored a) o w in
                    if ok : bool then (w, false) else (abandonUpload o w, true)
           end
  end.
(** The deletion a close was asked for. *)
Definition deleteOnClose (a : closeArgs) (h : handle) (isDir : bool) (w : world) : world :=
  if has (h_options h) FILE_DELETE_ON_CLOSE && (negb isDir || bool_decide (c_isEmpty a = Some true)) then
    let w := forget h w in
    if c_reach a then
      if isDir then set_directories (directories w ∖ {[key_of h]}) w else set_objects (delete (key_of h) (objects w)) w
    else w
  else w.
Definition smb2_close (a : closeArgs) (o : openId) (w : world) : world * Z :=
  match fileAt o w with
  | None => (w, STATUS_FILE_CLOSED)
  | Some (h, fs) =>
      let '(w, unsaved) := settleUpload a o h fs w in
      let w := deleteOnClose a h (has (attributesNow fs) FILE_ATTRIBUTE_DIRECTORY) w in
      (closeOpen o w, if unsaved : bool then STATUS_UNEXPECTED_NETWORK_ERROR else STATUS_OK)
  end.
(** What a tree disconnect, a logoff and the sweep of a durable handle do to an open. *)
Definition endOpen (o : openId) (w : world) : world :=
  let w := releaseFile o (abandonUpload o w) in set_handles (delete o (opens w)) w.

(** ** Setting information *)
Definition setDisposition (pending : bool) (isEmpty : option bool) (o : openId) (w : world) : world * Z :=
  match fileAt o w with
  | None => (w, STATUS_FILE_CLOSED)
  | Some (h, fs) =>
      let mark co := (set_handles (<[o := Handle (h_workgroup h) (h_path h) (h_file h) co]> (opens w)) w, STATUS_OK) in
      if pending then
        if has (attributesNow fs) FILE_ATTRIBUTE_DIRECTORY then
          match isEmpty with
          | None => (w, STATUS_NETWORK_NAME_DELETED)
          | Some false => (w, STATUS_DIRECTORY_NOT_EMPTY)
          | Some true => mark (h_options h .| FILE_DELETE_ON_CLOSE)
          end
        else mark (h_options h .| FILE_DELETE_ON_CLOSE)
      else mark (h_options h &^ FILE_DELETE_ON_CLOSE)
  end.
Inductive renamed := Moved | NotPermitted | NameTaken.   (* the store's answer *)
Record renameArgs := RenameArgs { r_now : Z; r_stored : option (list Z); r_answer : renamed; r_newName : string }.
(** The opens on the path follow it, and those under it if it is a directory, whatever
    workgroup they are of: the index they are found in is by share and path. *)
Definition moveOpens (isDir : bool) (from to : string) (m : gmap openId handle) : gmap openId handle :=
  (fun h => if String.eqb (h_path h) from then Handle (h_workgroup h) to (h_file h) (h_options h)
            else match strip_prefix (from +:+ "/") (h_path h) with
                 | Some rest => if isDir then Handle (h_workgroup h) (to +:+ "/" +:+ rest) (h_file h) (h_options h) else h
                 | None => h
                 end) <$> m.
(** A name of the store and, for a directory, the names under it. *)
Definition renamedKey (wg from to : string) (isDir : bool) (k : persistedKey) : persistedKey :=
  if decide (k = (wg, from)) then (wg, to) else if isDir then default k (movedKey wg from to k) else k.
Definition moveObjects (wg from to : string) (isDir : bool) (m : gmap persistedKey (list Z)) : gmap persistedKey (list Z) :=
  let moves e := bool_decide (renamedKey wg from to isDir (fst e) <> fst e) in
  list_to_map ((fun e => (renamedKey wg from to isDir e.1, e.2)) <$> List.filter moves (map_to_list m)) ∪ filter (fun e => moves e = false) m.
Definition renameFile (a : renameArgs) (o : openId) (w : world) : world * Z :=
  match fileAt o w with
  | None => (w, STATUS_FILE_CLOSED)
  | Some (h, fs) =>
      let wg := h_workgroup h in let path := h_path h in let newName := r_newName a in
      let isDir := has (attributesNow fs) FILE_ATTRIBUTE_DIRECTORY in
      let '(w, ok) := match uploadNow fs with None => (w, true) | Some _ => flush (r_now a) (r_stored a) o w end in
      if negb ok then ((cancelUpload o w).1, STATUS_UNEXPECTED_NETWORK_ERROR)
      else match files w !! h_file h with
      | None => (w, STATUS_FILE_CLOSED)
      | Some fs =>
          if negb (isStored fs) && negb isDir then
            if match persistedFile wg newName (persisted w) ≫= fun f => files w !! f with Some other => negb (isStored other) | None => false end
            then (w, STATUS_OBJECT_NAME_COLLISION)
            else
              let w := set_persisted (movePersistedFile wg path newName (h_file h) (persisted w)) w in
              let w := set_handles (moveOpens false path newName (opens w)) w in
              (onFile (h_file h) (touch (r_now a)) w, STATUS_OK)
          else match r_answer a with
               | NotPermitted => (w, STATUS_ACCESS_DENIED)
               | NameTaken => (w, STATUS_OBJECT_NAME_COLLISION)
               | Moved =>
                   let w := set_objects (moveObjects wg path newName isDir (objects w)) w in
                   let w := set_directories (set_map (renamedKey wg path newName isDir) (directories w)) w in
                   let w := match persistedFile wg path (persisted w) with
                            | Some f => set_persisted (movePersistedFile wg path newName f (persisted w)) w
                            | None => w end in
                   let w := if isDir then set_persisted (movePersistedTree wg path newName (persisted w)) w else w in
                   (set_handles (moveOpens isDir path newName (opens w)) w, STATUS_OK)
               end
      end
  end.

(** ** One state for a file *)

(** The handles on a file state. *)
Definition on (f : fsId) (e : openId * handle) : Prop := h_file e.2 = f.
#[export] Instance on_dec f e : Decision (on f e).
Proof. unfold on. apply _. Defined.
Definition handlesOn (f : fsId) (m : gmap openId handle) : Z := Z.of_nat (size (filter (on f) m)).
(** A handle on a file that is neither a directory nor deleted under it. *)
Definition live (w : world) (h : handle) : Prop :=
  exists fs, files w !! h_file h = Some fs /\ isDirectory fs = false /\ deleted fs = false.
(** [ex] is a handle on its way out, of which nothing more is asked.  That a live handle is
    on the state the table has for its name is claimed where [tidy] holds, which stands for
    what the run has kept to so far; the rest holds of every run. *)
Section invariant.
Context {tidy : Prop}.
Record filesOk (ex : option openId) (w : world) : Prop := FilesOk {
  fo_handle : forall o h, opens w !! o = Some h -> is_Some (files w !! h_file h);
  fo_count : forall f fs, files w !! f = Some fs -> handles fs = handlesOn f (opens w);
  fo_table : forall k f, persisted w !! k = Some f -> is_Some (files w !! f);
  fo_live : tidy -> forall o h, opens w !! o = Some h -> Some o <> ex -> live w h -> persisted w !! key_of h = Some (h_file h);
  fo_deleted : forall f fs, files w !! f = Some fs -> deleted fs = true -> upload fs = None;
}.

(** What most operations leave as it is. *)
Definition shape (fs : fileState) : Z * bool * bool := (handles fs, isDirectory fs, deleted fs).
Definition kept (w w' : world) : Prop :=
  opens w' = opens w /\ persisted w' = persisted w /\ (forall f, shape <$> files w' !! f = shape <$> files w !! f) /\
  forall f fs', files w' !! f = Some fs' -> deleted fs' = true -> exists fs, files w !! f = Some fs /\ (upload fs = None -> upload fs' = None).
Lemma kept_refl w : kept w w.
Proof. split_and!; [done..|]. eauto. Qed.
Lemma kept_trans w1 w2 w3 : kept w1 w2 -> kept w2 w3 -> kept w1 w3.
Proof.
  intros (A1 & A2 & A3 & A4) (B1 & B2 & B3 & B4). split_and!; [congruence..| |].
  - intros f. by rewrite B3, A3.
  - intros f fs3 E3 D3. destruct (B4 f fs3 E3 D3) as (fs2 & E2 & H2).
    assert (shape <$> files w3 !! f = shape <$> files w2 !! f) as Hs by apply B3. rewrite E3, E2 in Hs. injection Hs as _ _ Hd.
    destruct (A4 f fs2 E2 ltac:(congruence)) as (fs1 & E1 & H1). exists fs1. split; [done|]. auto.
Qed.
Lemma kept_live w w' h : kept w w' -> live w' h -> live w h.
Proof.
  intros (_ & _ & Hs & _) (fs' & E & H1 & H2). specialize (Hs (h_file h)). rewrite E in Hs. destruct (files w !! h_file h) as [fs|] eqn:Ef; [|done].
  injection Hs as _ Hd Hx. exists fs. split_and!; congruence.
Qed.
Lemma kept_ok ex w w' : kept w w' -> filesOk ex w -> filesOk ex w'.
Proof.
  intros K [H1 H2 H3 H4 H5]. pose proof K as (Ko & Kp & Ks & Ku). assert (forall f, is_Some (files w !! f) -> is_Some (files w' !! f)) as Hsome.
  { intros f [fs E]. specialize (Ks f). rewrite E in Ks. destruct (files w' !! f); [eauto|done]. }
  split; rewrite ?Ko, ?Kp.
  - intros o h E. eauto.
  - intros f fs' E. specialize (Ks f). rewrite E in Ks. destruct (files w !! f) as [fs|] eqn:Ef; [|done]. injection Ks as -> _ _. by apply H2.
  - intros k f E. eauto.
  - intros T o h E X L. apply (H4 T o h E X). by eapply kept_live.
  - intros f fs' E D. destruct (Ku f fs' E D) as (fs & Ef & Hu). apply Hu. specialize (Ks f). rewrite E, Ef in Ks. injection Ks as _ _ Hd. apply (H5 f fs Ef). congruence.
Qed.
Lemma kept_onFile f g w : (forall fs, shape (g fs) = shape fs) ->
  (forall fs, files w !! f = Some fs -> deleted fs = true -> upload fs = None -> upload (g fs) = None) -> kept w (onFile f g w).
Proof.
  intros Hs Hu. split_and!; [done..| |].
  - intros f'. simpl. destruct (decide (f = f')) as [<-|]; [rewrite lookup_alter_eq|by rewrite lookup_alter_ne]. destruct (files w !! f); simpl; [by rewrite Hs|done].
  - intros f' fs'. simpl. destruct (decide (f = f')) as [<-|]; [rewrite lookup_alter_eq|rewrite lookup_alter_ne by done; eauto].
    intros (fs & E & ->)%fmap_Some D. exists fs. split; [done|]. intros Hn. apply Hu; [done| |done]. specialize (Hs fs). unfold shape in Hs. congruence.
Qed.
Lemma kept_same w w' : opens w' = opens w -> persisted w' = persisted w -> files w' = files w -> kept w w'.
Proof. intros A B E. split_and!; [exact A|exact B| |]; intros; rewrite E in *; eauto. Qed.
Lemma kept_onFile_in f g w w' : opens w' = opens w -> persisted w' = persisted w -> files w' = files w -> (forall fs, shape (g fs) = shape fs) ->
  (forall fs, files w !! f = Some fs -> deleted fs = true -> upload fs = None -> upload (g fs) = None) -> kept w (onFile f g w').
Proof. intros A B C Hs Hu. apply (kept_trans w w'); [by apply kept_same|]. apply kept_onFile; [done|]. by rewrite C. Qed.
Lemma dropUpload_upload u fs : upload fs = None -> upload (dropUpload u fs) = None.
Proof. intros H. unfold dropUpload. destruct (decide _); [done|exact H]. Qed.
Lemma dropUpload_shape u fs : shape (dropUpload u fs) = shape fs.
Proof. unfold dropUpload. by destruct (decide _). Qed.
Lemma finishUpload_shape now u n fs : shape (markStored (finishUpload now u n fs)) = shape fs.
Proof. unfold finishUpload. by destruct (decide _). Qed.
Lemma finishUpload_upload now u n fs : upload fs = None -> upload (markStored (finishUpload now u n fs)) = None.
Proof. intros H. unfold finishUpload. destruct (decide _); [done|exact H]. Qed.
Lemma advanceUpload_shape now u n fs : shape (advanceUpload now u n fs) = shape fs /\ upload (advanceUpload now u n fs) = upload fs.
Proof. unfold advanceUpload. by destruct (decide _). Qed.

Lemma cancelUpload_kept o w : kept w (cancelUpload o w).1.
Proof.
  unfold cancelUpload. destruct (fileAt o w) as [[h fs]|]; [|apply kept_refl]. destruct (uploadNow fs) as [u|]; [|apply kept_refl].
  apply kept_onFile; [apply dropUpload_shape|]. intros. by apply dropUpload_upload.
Qed.
Lemma emptyFile_kept now reach o w : kept w (emptyFile now reach o w).1.
Proof.
  unfold emptyFile. pose proof (cancelUpload_kept o w) as K. destruct (cancelUpload o w) as [w1 b]. simpl in K. destruct (opens w1 !! o) as [h|]; [|done].
  destruct reach; [|done]. eapply kept_trans; [exact K|]. by apply kept_onFile_in.
Qed.
Lemma startUpload_kept maxLen id u o w : kept w (startUpload maxLen id u o w).1.
Proof.
  unfold startUpload. destruct (fileAt o w) as [[h fs]|] eqn:E; [|apply kept_refl]. unfold fileAt in E. destruct (opens w !! o) as [h'|]; [|done]. simpl in E.
  destruct (files w !! h_file h') as [fs'|] eqn:Ef; [|done]. injection E as -> ->. destruct (uploadNow fs) as [v|] eqn:Eu; [apply kept_refl|]. destruct (isDeleted fs) eqn:Ed; [apply kept_refl|].
  destruct u as [u|]; [|apply kept_refl]. apply kept_onFile_in; try done.
  - intros x. unfold FileState.startUpload. by destruct (upload x).
  - simpl. intros x Ex D. rewrite Ef in Ex. injection Ex as <-. unfold isDeleted in Ed. congruence.
Qed.
Lemma write_kept now hk maxLen id u o offset data w : kept w (write now hk maxLen id u o offset data w).1.
Proof.
  unfold write. destruct (fileAt o w) as [[h fs]|] eqn:E; [|apply kept_refl].
  set (m := match uploadNow fs with Some _ => (w, None) | None => match uploadCancelled fs with Some e => (w, Some (ErrCancelled e)) | None => startUpload maxLen id u o w end end).
  assert (kept w m.1) as K by (unfold m; destruct (uploadNow fs); [apply kept_refl|]; destruct (uploadCancelled fs); [apply kept_refl|apply startUpload_kept]).
  destruct m as [w1 err]. simpl in K. destruct err; [done|]. destruct (files w1 !! h_file h ≫= uploadNow) as [v|]; [|done]. destruct (uploads w1 !! v) as [[wg up]|]; [|done].
  destruct (Upload.write hk o offset data up) as [[up' [e|sl]]| | |]; try done. eapply kept_trans; [exact K|].
  apply kept_onFile_in; try done; intros; [apply advanceUpload_shape|by rewrite (proj2 (advanceUpload_shape _ _ _ _))].
Qed.
Lemma smb2_write_kept now hk maxLen id u why full o offset data w : kept w (smb2_write now hk maxLen id u why full o offset data w).1.
Proof.
  unfold smb2_write. destruct (opens w !! o) as [h|]; [|apply kept_refl].
  pose proof (write_kept now hk maxLen id u o offset data (onFile (h_file h) beginWrite w)) as K. destruct (write _ _ _ _ _ _ _ _ _) as [w1 err]. simpl in K.
  assert (kept w w1) as K1 by (eapply kept_trans; [|exact K]; by apply kept_onFile).
  assert (forall e, kept w (cancelUpload o (onFile (h_file h) (failUpload e) w1)).1) as Kc.
  { intros e. eapply kept_trans; [exact K1|]. eapply kept_trans; [|apply cancelUpload_kept]. by apply kept_onFile. }
  destruct err as [[]|]; simpl; (eapply kept_trans; [|by apply kept_onFile]); done.
Qed.
Lemma flush_kept now c o w : kept w (flush now c o w).1.
Proof.
  unfold flush. destruct (fileAt o w) as [[h fs]|]; [|apply kept_refl]. destruct (uploadNow fs) as [u|]; [|apply kept_refl]. destruct c as [c|]; [|apply kept_refl].
  destruct (uploads w !! u) as [[wg up]|]; [|apply kept_refl]. apply kept_onFile_in; try done; intros; [apply finishUpload_shape|by apply finishUpload_upload].
Qed.

(** *** Handles that come and go *)
Lemma handlesOn_insert f o h m : m !! o = None -> handlesOn f (<[o := h]> m) = handlesOn f m + (if decide (h_file h = f) then 1 else 0).
Proof.
  intros Hn. unfold handlesOn. destruct (decide (h_file h = f)) as [E|E].
  - rewrite map_filter_insert_True by exact E. rewrite map_size_insert_None; [lia|]. apply map_lookup_filter_None. by left.
  - rewrite map_filter_insert_False by exact E. rewrite delete_id by done. lia.
Qed.
Lemma handlesOn_delete f o h m : m !! o = Some h -> handlesOn f (delete o m) = handlesOn f m - (if decide (h_file h = f) then 1 else 0).
Proof.
  intros Hs. rewrite <- (insert_delete_id m o h Hs) at 2. rewrite handlesOn_insert by apply lookup_delete_eq. lia.
Qed.
Lemma handlesOn_none f m : handlesOn f m <= 0 -> forall o h, m !! o = Some h -> h_file h <> f.
Proof.
  intros Hz o h E Hf. assert (filter (on f) m !! o = Some h) as Hin by (by apply map_lookup_filter_Some).
  assert (filter (on f) m = ∅) as He by (apply map_size_empty_inv; unfold handlesOn in Hz; lia). rewrite He in Hin. by apply lookup_empty_Some in Hin.
Qed.
Lemma filesOk_weaken o w : filesOk None w -> filesOk (Some o) w.
Proof. intros [H1 H2 H3 H4 H5]. split; eauto. Qed.
(** Nothing live has its entry under the name. *)
Definition free (ex : option openId) (k : persistedKey) (w : world) : Prop := forall o h, opens w !! o = Some h -> Some o <> ex -> live w h -> key_of h <> k.
Lemma forget_ok ex h w : (tidy -> free ex (key_of h) w) -> filesOk ex w -> filesOk ex (forget h w).
Proof.
  intros Hf [H1 H2 H3 H4 H5]. split; try done.
  - intros k f. simpl. unfold forgetPersistedFile. intros [_ E]%lookup_delete_Some. eauto.
  - intros T o h' E X L. simpl. unfold forgetPersistedFile. rewrite lookup_delete_ne; [by apply (H4 T o)|]. intros Hk. by apply (Hf T o h' E X L).
Qed.
(** The entry under the name of the handle is that of its own file, if there is one. *)
Definition keeps (w : world) (h : handle) : Prop := persisted w !! key_of h = Some (h_file h) \/ persisted w !! key_of h = None.
Lemma keeps_same ex w h o' h' : filesOk ex w -> tidy -> keeps w h -> opens w !! o' = Some h' -> Some o' <> ex -> live w h' -> key_of h' = key_of h -> h_file h' = h_file h.
Proof. intros Ok T [K|K] E X L Hk; pose proof (fo_live ex w Ok T o' h' E X L) as Hp; rewrite Hk, K in Hp; congruence. Qed.
Definition alone (w : world) (o : openId) (h : handle) : Prop := forall o' h', opens w !! o' = Some h' -> h_file h' = h_file h -> o' = o.
Lemma alone_free o h w : filesOk (Some o) w -> tidy -> keeps w h -> alone w o h -> free (Some o) (key_of h) w.
Proof. intros Ok T K A o' h' E X L Hk. apply X. f_equal. apply (A o' h' E). by eapply keeps_same. Qed.

Lemma closeOpen_ok o h w : filesOk (Some o) w -> opens w !! o = Some h -> (tidy -> keeps w h) -> filesOk None (closeOpen o w).
Proof.
  intros Ok Ho Hk. pose proof Ok as [H1 H2 H3 H4 H5]. destruct (H1 o h Ho) as [fs Ef].
  unfold closeOpen, releaseFile, fileAt. rewrite Ho. simpl. rewrite Ef. simpl.
  set (fs' := set_counts (handles fs - 1) (generation fs) (inflight fs) fs). set (w1 := set_handles (delete o (opens w)) (set_files (<[h_file h := fs']> (files w)) w)).
  assert (filesOk None w1) as Ok1.
  { split.
    - intros o' h'. simpl. intros [_ E]%lookup_delete_Some. apply lookup_insert_is_Some'. right. eauto.
    - intros f x. simpl. intros [[<- <-]|[Hne E]]%lookup_insert_Some.
      + rewrite (handlesOn_delete _ _ h) by done. rewrite decide_True by done. simpl. by rewrite (H2 _ _ Ef).
      + rewrite (handlesOn_delete _ _ h) by done. rewrite decide_False by done. rewrite (H2 _ _ E). lia.
    - intros k f E. simpl. apply lookup_insert_is_Some'. right. eauto.
    - intros T o' h'. cbn [w1 opens set_handles]. intros [Hne E]%lookup_delete_Some _ (x & Ex & D1 & D2). apply (H4 T o' h' E); [congruence|]. simpl in Ex. destruct (decide (h_file h = h_file h')) as [Hf|Hf].
      + rewrite Hf, lookup_insert_eq in Ex. injection Ex as <-. exists fs. rewrite <- Hf. done.
      + rewrite lookup_insert_ne in Ex by done. by exists x.
    - intros f x. simpl. intros [[<- <-]|[Hne E]]%lookup_insert_Some; [|by apply (H5 f)]. apply (H5 _ _ Ef). }
  destruct ((handles fs - 1 <=? 0) && stored fs) eqn:Eg; [|exact Ok1].
  apply andb_prop in Eg as [Eg _]. apply Z.leb_le in Eg.
  change (filesOk None (forget h w1)). apply forget_ok; [|done].
  intros T o' h' E X L Hk'. assert (files w1 !! h_file h = Some fs') as Ef' by apply lookup_insert_eq. pose proof (fo_count None w1 Ok1 _ _ Ef') as Hc. change (handles fs') with (handles fs - 1) in Hc.
  apply (handlesOn_none (h_file h) (opens w1) ltac:(lia) o' h' E). eapply keeps_same; [exact Ok1|exact T| |exact E|exact X|exact L|exact Hk']. exact (Hk T).
Qed.
Lemma fileAt_Some o w h fs : fileAt o w = Some (h, fs) <-> opens w !! o = Some h /\ files w !! h_file h = Some fs.
Proof.
  unfold fileAt. split.
  - destruct (opens w !! o) as [h'|]; [|done]. simpl. destruct (files w !! h_file h') as [fs'|] eqn:E; [|done]. simpl. intros [= -> ->]. done.
  - intros [-> E]. simpl. by rewrite E.
Qed.
Lemma kept_fileAt w w' o h fs : kept w w' -> fileAt o w = Some (h, fs) -> exists fs', fileAt o w' = Some (h, fs') /\ shape fs' = shape fs.
Proof.
  intros (Ko & _ & Ks & _) [E1 E2]%fileAt_Some. specialize (Ks (h_file h)). rewrite E2 in Ks. destruct (files w' !! h_file h) as [fs'|] eqn:E; [|done].
  injection Ks as ? ? ?. exists fs'. split; [apply fileAt_Some; by rewrite Ko|]. unfold shape. congruence.
Qed.
Lemma kept_keeps w w' h : kept w w' -> keeps w h -> keeps w' h.
Proof. intros (_ & Kp & _ & _). unfold keeps. by rewrite Kp. Qed.
Lemma kept_alone w w' o h : kept w w' -> alone w o h -> alone w' o h.
Proof. intros (Ko & _ & _ & _). unfold alone. by rewrite Ko. Qed.
Lemma forget_keeps h w : keeps (forget h w) h.
Proof. right. simpl. apply lookup_delete_eq. Qed.
Lemma abandonUpload_ok o h fs w : filesOk (Some o) w -> fileAt o w = Some (h, fs) ->
  (tidy -> keeps w h) -> (tidy -> alone w o h \/ upload fs = None \/ stored fs = true) ->
  filesOk (Some o) (abandonUpload o w) /\ opens (abandonUpload o w) !! o = Some h /\ (tidy -> keeps (abandonUpload o w) h).
Proof.
  intros Ok Hf Hk Hc. unfold abandonUpload. pose proof (cancelUpload_kept o w) as K. unfold cancelUpload in *. rewrite Hf in *.
  pose proof Hf as [Ho Ef]%fileAt_Some. unfold uploadNow in *. destruct (upload fs) as [u|] eqn:Eu; simpl in K.
  - destruct (kept_fileAt _ _ _ _ _ K Hf) as (fs1 & E1 & _). rewrite E1. simpl. pose proof E1 as [Ho1 Ef1]%fileAt_Some. pose proof (kept_ok _ _ _ K Ok) as Ok1.
    assert (tidy -> keeps (onFile (h_file h) (dropUpload u) w) h) as Hk1 by (intros T; exact (kept_keeps _ _ _ K (Hk T))).
    destruct (isStored fs1) eqn:Es; [done|]. split; [|split; [exact Ho1|intros _; apply forget_keeps]]. apply forget_ok; [|done]. intros T. apply alone_free; [done|done|auto|]. eapply kept_alone; [exact K|].
    destruct (Hc T) as [|[|Hs]]; [done|done|]. exfalso. simpl in Ef1. rewrite lookup_alter_eq, Ef in Ef1. injection Ef1 as <-. unfold isStored, dropUpload in Es. destruct (decide _); simpl in Es; congruence.
  - rewrite Hf. simpl. done.
Qed.
Lemma endOpen_close o w : endOpen o w = closeOpen o (abandonUpload o w).
Proof. reflexivity. Qed.
Lemma endOpen_ok o h fs w : filesOk None w -> fileAt o w = Some (h, fs) ->
  (tidy -> keeps w h) -> (tidy -> alone w o h \/ upload fs = None \/ stored fs = true) -> filesOk None (endOpen o w).
Proof.
  intros Ok Hf Hk Hc. rewrite endOpen_close. destruct (abandonUpload_ok o h fs w (filesOk_weaken o w Ok) Hf Hk Hc) as (Ok1 & Ho & Hk1). by eapply closeOpen_ok.
Qed.

(** *** Closing *)
Definition mayClose (a : closeArgs) (o : openId) (h : handle) (fs : fileState) (w : world) : Prop :=
  alone w o h \/ if has (h_options h) FILE_DELETE_ON_CLOSE then upload fs <> None else c_stored a <> None.
(** What is left for the deletion to see to: nothing that is live has the name. *)
Lemma settleUpload_ok a o h fs w : filesOk (Some o) w -> fileAt o w = Some (h, fs) -> (tidy -> keeps w h) -> (tidy -> mayClose a o h fs w) ->
  let w1 := (settleUpload a o h fs w).1 in
  filesOk (Some o) w1 /\ opens w1 !! o = Some h /\ (tidy -> keeps w1 h) /\
  (tidy -> has (h_options h) FILE_DELETE_ON_CLOSE = true -> free (Some o) (key_of h) w1).
Proof.
  intros Ok Hf Hk Hm. pose proof Hf as [Ho Ef]%fileAt_Some. unfold settleUpload, mayClose, uploadNow in *.
  assert (forall w1, kept w w1 -> filesOk (Some o) w1 /\ opens w1 !! o = Some h /\ (tidy -> keeps w1 h)) as Hkept.
  { intros w1 K. split_and!; [by eapply kept_ok|by rewrite (proj1 K)|intros T; eapply kept_keeps; [exact K|auto]]. }
  destruct (upload fs) as [u|] eqn:Eu.
  2: { simpl. split_and!; try done. intros T Hd. rewrite Hd in Hm. destruct (Hm T) as [Ha|]; [|done]. apply alone_free; auto. }
  destruct (has (h_options h) FILE_DELETE_ON_CLOSE) eqn:Ed.
  - unfold lastHandle. destruct (Z.leb_spec (handles fs) 1) as [Hl|Hl]; simpl.
    + destruct (Hkept _ (cancelUpload_kept o w)) as (A & B & C). split_and!; try done. intros T _. apply alone_free; [done|done|auto|]. eapply kept_alone; [apply cancelUpload_kept|].
      intros o' h' E' Hf'. destruct (decide (o' = o)) as [|Hne]; [done|]. exfalso. pose proof (fo_count _ _ Ok _ _ Ef) as Hc.
      apply (handlesOn_none (h_file h) (delete o (opens w)) ltac:(rewrite (handlesOn_delete _ _ h) by done; rewrite decide_True by done; lia) o' h'); [|done].
      by rewrite lookup_delete_ne.
    + set (w1 := onFile (h_file h) markDeleted w). assert (fileAt o w1 = Some (h, markDeleted fs)) as Hf1 by (apply fileAt_Some; simpl; by rewrite lookup_alter_eq, Ef).
      unfold cancelUpload. rewrite Hf1. change (uploadNow (markDeleted fs)) with (upload fs). rewrite Eu. simpl. set (w2 := onFile (h_file h) (dropUpload u) w1).
      assert (files w2 !! h_file h = Some (dropUpload u (markDeleted fs))) as E2 by (simpl; by rewrite !lookup_alter_eq, Ef).
      assert (upload (dropUpload u (markDeleted fs)) = None) as Hn by (unfold dropUpload; by rewrite decide_True).
      assert (deleted (dropUpload u (markDeleted fs)) = true /\ handles (dropUpload u (markDeleted fs)) = handles fs) as [Hdel Hh] by (unfold dropUpload; by destruct (decide _)).
      assert (forall f, f <> h_file h -> files w2 !! f = files w !! f) as Hother by (intros; simpl; by rewrite !lookup_alter_ne).
      assert (forall h', live w2 h' -> h_file h' <> h_file h /\ live w h') as Hlive.
      { intros h' (x & Ex & D1 & D2). assert (h_file h' <> h_file h) as Hne by (intros X; rewrite X, E2 in Ex; injection Ex as <-; congruence). split; [done|]. exists x. by rewrite <- Hother. }
      pose proof Ok as [H1 H2 H3 H4 H5]. assert (filesOk (Some o) w2) as Ok2.
      { split.
        - intros o' h' E'. simpl in *. apply elem_of_dom. rewrite !dom_alter. apply elem_of_dom. eauto.
        - intros f x Ex. destruct (decide (f = h_file h)) as [->|]; [rewrite E2 in Ex; injection Ex as <-; rewrite Hh; by apply H2|rewrite Hother in Ex by done; by apply H2].
        - intros k f E'. simpl in *. apply elem_of_dom. rewrite !dom_alter. apply elem_of_dom. eauto.
        - intros T o' h' E' X L. apply (H4 T o' h' E' X). by apply Hlive.
        - intros f x Ex D. destruct (decide (f = h_file h)) as [->|]; [rewrite E2 in Ex; by injection Ex as <-|rewrite Hother in Ex by done; by apply (H5 f)]. }
      split_and!; [done|done|done|]. intros T _ o' h' E' X L Hkey. apply (proj1 (Hlive h' L)). apply (keeps_same (Some o) w2 h o'); try done. exact (Hk T).
  - destruct (uploads w !! u) as [[wg up]|] eqn:Eup; [|simpl; by split_and!].
    destruct (Upload.leave o up) as [up' others]. destruct others; [simpl; destruct (Hkept (set_uploads (<[u := (wg, up')]> (uploads w)) w)) as (A & B & C); [by apply kept_same|by split_and!]|].
    set (w1 := set_uploads (<[u := (wg, up')]> (uploads w)) w). pose proof (flush_kept (c_now a) (c_stored a) o w1) as K. destruct (flush (c_now a) (c_stored a) o w1) as [w2 ok] eqn:Efl. simpl in K.
    assert (kept w w2) as K2 by (eapply kept_trans; [|exact K]; by apply kept_same). destruct ok; simpl; [destruct (Hkept _ K2) as (A & B & C); by split_and!|].
    destruct (kept_fileAt _ _ _ _ _ K2 Hf) as (fs2 & Hf2 & _). destruct (abandonUpload_ok o h fs2 w2) as (A & B & C); [by eapply kept_ok|done|intros T; eapply kept_keeps; [exact K2|auto]| |by split_and!].
    intros T. left. eapply kept_alone; [exact K2|]. destruct (Hm T) as [|Hs]; [done|]. exfalso. unfold flush in Efl. assert (fileAt o w1 = Some (h, fs)) as Hf1 by (apply fileAt_Some; done). rewrite Hf1 in Efl.
    unfold uploadNow in Efl. rewrite Eu in Efl. destruct (c_stored a); [|done]. simpl in Efl. rewrite lookup_insert_eq in Efl. discriminate Efl.
Qed.
Lemma smb2_close_ok a o h fs w : filesOk None w -> fileAt o w = Some (h, fs) -> (tidy -> keeps w h) -> (tidy -> mayClose a o h fs w) -> filesOk None (smb2_close a o w).1.
Proof.
  intros Ok Hf Hk Hm. unfold smb2_close. rewrite Hf. pose proof (settleUpload_ok a o h fs w (filesOk_weaken o w Ok) Hf Hk Hm) as (Ok1 & Ho1 & Hk1 & Hd1).
  destruct (settleUpload a o h fs w) as [w1 unsaved]. simpl in *. unfold deleteOnClose. destruct (has (h_options h) FILE_DELETE_ON_CLOSE) eqn:Ed; simpl; [|by eapply closeOpen_ok].
  destruct (_ || _); [|by eapply closeOpen_ok].
  assert (filesOk (Some o) (forget h w1)) as Ok2 by (apply forget_ok; [intros T; by apply Hd1|done]).
  assert (forall w2, kept (forget h w1) w2 -> filesOk None (closeOpen o w2)) as Fin.
  { intros w2 K. apply (closeOpen_ok o h); [by eapply kept_ok|by rewrite (proj1 K)|intros _; eapply kept_keeps; [exact K|apply forget_keeps]]. }
  destruct (c_reach a); [|apply Fin, kept_refl]. destruct (has (attributesNow fs) FILE_ATTRIBUTE_DIRECTORY); apply Fin; apply kept_same; reflexivity.
Qed.
Lemma setDisposition_ok pending isEmpty o w : filesOk None w -> filesOk None (setDisposition pending isEmpty o w).1.
Proof.
  intros Ok. unfold setDisposition. destruct (fileAt o w) as [[h fs]|] eqn:Hf; [|done]. pose proof Hf as [Ho Ef]%fileAt_Some.
  assert (forall co, filesOk None (set_handles (<[o := Handle (h_workgroup h) (h_path h) (h_file h) co]> (opens w)) w)) as Hm.
  { intros co. destruct Ok as [H1 H2 H3 H4 H5]. split; try done; simpl.
    - intros o' h' [[<- <-]|[_ E]]%lookup_insert_Some; [exact (H1 o h Ho)|eauto].
    - intros f x Ex. rewrite (H2 f x Ex), <- (insert_delete_id (opens w) o h Ho), insert_insert_eq, !handlesOn_insert by apply lookup_delete_eq. done.
    - intros T o' h' [[<- <-]|[_ E]]%lookup_insert_Some X L; [exact (H4 T o h Ho X L)|exact (H4 T o' h' E X L)]. }
  destruct pending; [|apply Hm]. destruct (has (attributesNow fs) FILE_ATTRIBUTE_DIRECTORY); [|apply Hm]. destruct isEmpty as [[]|]; [apply Hm|exact Ok..].
Qed.

(** *** Opening *)
Lemma handlesOn_fresh f w : filesOk None w -> files w !! f = None -> handlesOn f (opens w) = 0.
Proof.
  intros Ok Hf. unfold handlesOn. assert (filter (on f) (opens w) = ∅) as ->; [|by rewrite map_size_empty].
  apply map_empty. intros o. apply map_lookup_filter_None. right. intros h E Hh. unfold on in Hh. simpl in Hh. destruct (fo_handle _ _ Ok o h E) as [fs Ef]. congruence.
Qed.
(** The open is registered: all is well but for the entry of its own file. *)
Lemma registerOpen_ok created modified size isDir known f o k options w :
  filesOk None w -> opens w !! o = None -> files w !! f = None -> (forall g, known = Some g -> is_Some (files w !! g)) ->
  let w1 := registerOpen created modified size isDir known f o k options w in
  filesOk (Some o) w1 /\ persisted w1 = persisted w /\ exists h, opens w1 !! o = Some h /\ key_of h = k /\
    (known = Some (h_file h) \/ known = None /\ forall o' h', opens w1 !! o' = Some h' -> h_file h' = h_file h -> o' = o).
Proof.
  intros Ok Ho Hf Hk. pose proof Ok as [H1 H2 H3 H4 H5]. unfold registerOpen. destruct known as [g|].
  - destruct (Hk g eq_refl) as [gs Eg]. set (w0 := if isDir then onFile g markDirectory w else w).
    assert (opens w0 = opens w /\ persisted w0 = persisted w) as [Ho0 Hp0] by (unfold w0; by destruct isDir). set (gs' := attach (if isDir then markDirectory gs else gs)).
    assert (files (onFile g attach w0) = <[g := gs']> (files w)) as Hfiles.
    { apply map_eq. intros i. simpl. destruct (decide (i = g)) as [->|Hne]; [|rewrite lookup_alter_ne, lookup_insert_ne by done; unfold w0; destruct isDir; [by simpl; rewrite lookup_alter_ne|done]].
      rewrite lookup_alter_eq, lookup_insert_eq. unfold w0, gs'. destruct isDir; simpl; [rewrite lookup_alter_eq|]; by rewrite Eg. }
    simpl. split_and!; [|done|].
    2: { eexists. rewrite lookup_insert_eq. split; [done|]. split; [by destruct k|]. by left. }
    split; simpl; rewrite ?Ho0, ?Hp0.
    + intros o' h'. setoid_rewrite Hfiles. intros [[<- <-]|[_ E]]%lookup_insert_Some; [rewrite lookup_insert_eq; eauto|]. apply lookup_insert_is_Some'. right. eauto.
    + intros f' x. setoid_rewrite Hfiles. rewrite handlesOn_insert by done. intros [[<- <-]|[Hne E]]%lookup_insert_Some; simpl.
      * rewrite decide_True by done. unfold gs'. destruct isDir; simpl; by rewrite (H2 _ _ Eg).
      * rewrite decide_False by done. rewrite (H2 _ _ E). lia.
    + intros k' f'. setoid_rewrite Hfiles. intros E. apply lookup_insert_is_Some'. right. eauto.
    + intros T o' h' [[<- <-]|[Hne E]]%lookup_insert_Some X L; [done|]. apply (H4 T o' h' E); [done|]. destruct L as (x & Ex & D1 & D2). unfold live in *. simpl in Ex. setoid_rewrite Hfiles in Ex.
      apply lookup_insert_Some in Ex as [[Hg <-]|[Hg Ex]]; [|by exists x]. exists gs. rewrite <- Hg. unfold gs' in *. destruct isDir; simpl in *; [|done].
      exfalso. revert D1. unfold isDirectory, attributesNow, has. simpl. rewrite negb_false_iff, Z.eqb_eq. intros D1. apply (f_equal (fun z => Z.testbit z 4)) in D1. revert D1.
      rewrite Z.land_spec, Z.ldiff_spec, Z.lor_spec, Z.bits_0. change (Z.testbit FILE_ATTRIBUTE_DIRECTORY 4) with true. change (Z.testbit FILE_ATTRIBUTE_NORMAL 4) with false. by rewrite orb_true_r.
    + intros f' x. setoid_rewrite Hfiles. intros [[<- <-]|[Hne E]]%lookup_insert_Some D; [|by apply (H5 f')]. unfold gs' in *. destruct isDir; simpl in *; by apply (H5 g).
  - simpl. set (fs := attach _). assert (handles fs = 1 /\ deleted fs = false) as [Hh Hd] by done. split_and!; [|done|].
    2: { eexists. rewrite lookup_insert_eq. split; [done|]. split; [by destruct k|]. right. split; [done|]. simpl. intros o' h' [[-> _]|[_ E]]%lookup_insert_Some X; [done|].
      destruct (H1 o' h' E) as [y Ey]. congruence. }
    split; simpl.
    + intros o' h' [[<- <-]|[_ E]]%lookup_insert_Some; [rewrite lookup_insert_eq; eauto|]. apply lookup_insert_is_Some'. right. eauto.
    + intros f' x. rewrite handlesOn_insert by done. simpl. intros [[<- <-]|[Hne E]]%lookup_insert_Some.
      * rewrite decide_True by done. by rewrite Hh, (handlesOn_fresh _ w).
      * rewrite decide_False by done. rewrite (H2 _ _ E). lia.
    + intros k' f' E. apply lookup_insert_is_Some'. right. eauto.
    + intros T o' h' [[<- <-]|[Hne E]]%lookup_insert_Some X (x & Ex & D1 & D2); [done|]. apply (H4 T o' h' E); [done|]. simpl in Ex.
      apply lookup_insert_Some in Ex as [[Hg <-]|[Hg Ex]]; [|by exists x]. destruct (H1 o' h' E) as [y Ey]. congruence.
    + intros f' x [[<- <-]|[Hne E]]%lookup_insert_Some D; [done|by apply (H5 f')].
Qed.
(** The entry of the file is put in. *)
Lemma persist_ok o h w : filesOk (Some o) w -> opens w !! o = Some h ->
  (tidy -> forall o' h', opens w !! o' = Some h' -> Some o' <> Some o -> live w h' -> key_of h' = key_of h -> h_file h' = h_file h) ->
  filesOk None (set_persisted (persistFile (h_workgroup h) (h_path h) (h_file h) (persisted w)) w).
Proof.
  intros [H1 H2 H3 H4 H5] Ho Hs. split; try done; simpl; unfold persistFile.
  - intros k f [[_ <-]|[_ E]]%lookup_insert_Some; eauto.
  - intros T o' h' E _ L. destruct (decide (o' = o)) as [->|Hne]; [rewrite Ho in E; injection E as <-; apply lookup_insert_eq|].
    destruct (decide (key_of h' = key_of h)) as [Hk|Hk].
    + rewrite Hk. change (key_of h) with (h_workgroup h, h_path h). rewrite lookup_insert_eq. f_equal. symmetry. apply (Hs T o' h' E); [congruence|exact L|done].
    + rewrite lookup_insert_ne by (intros X; by apply Hk). apply (H4 T o' h' E); [congruence|exact L].
Qed.
Lemma filesOk_directory o h fs w : filesOk (Some o) w -> fileAt o w = Some (h, fs) -> isDirectory fs = true -> filesOk None w.
Proof.
  intros [H1 H2 H3 H4 H5] [Ho Ef]%fileAt_Some Hd. split; try done. intros T o' h' E _ L. destruct (decide (o' = o)) as [->|]; [|apply (H4 T o' h' E); [congruence|exact L]].
  rewrite Ho in E. injection E as <-. destruct L as (x & Ex & D & _). congruence.
Qed.
Lemma openFile_ok a result isDir st size times known w : filesOk None w -> opens w !! a_open a = None -> files w !! a_file a = None ->
  (forall g, known = Some g -> is_Some (files w !! g)) ->
  (tidy -> known = persistedFile (a_workgroup a) (a_path a) (persisted w)) -> filesOk None (openFile a result isDir st size times known w).1.
Proof.
  intros Ok Ho Hf Hg Hk. unfold openFile. destruct (registerOpen_ok times.1 times.2 size isDir known (a_file a) (a_open a) (a_workgroup a, a_path a) (a_options a) w Ok Ho Hf Hg) as (Ok1 & Hp & h & Ho1 & Hkey & Hown).
  set (w1 := registerOpen _ _ _ _ _ _ _ _ _ w) in *. destruct (fo_handle _ _ Ok1 _ _ Ho1) as [fs Ef]. assert (fileAt (a_open a) w1 = Some (h, fs)) as Hfa by (by apply fileAt_Some). rewrite Hfa.
  set (dir := has (attributesNow fs) FILE_ATTRIBUTE_DIRECTORY). set (w2 := if dir then w1 else _).
  assert (filesOk None w2 /\ opens w2 !! a_open a = Some h /\ (dir = false -> keeps w2 h)) as (Ok2 & Ho2 & Hk2).
  { unfold w2. destruct dir eqn:Ed; [split_and!; [by eapply filesOk_directory|done|done]|].
    set (w1' := if st then _ else w1). assert (kept w1 w1') as K by (unfold w1'; destruct st; [by apply kept_onFile|apply kept_refl]).
    injection Hkey as Hwg Hpath. rewrite <- Hwg, <- Hpath. split_and!; [|change (opens w1' !! a_open a = Some h); by rewrite (proj1 K)|intros _; left; simpl; unfold persistFile; apply lookup_insert_eq].
    apply (persist_ok (a_open a)); [by eapply kept_ok|by rewrite (proj1 K)|]. intros T o' h' E X L Hk'. specialize (Hk T). rewrite (proj1 K) in E. apply (kept_live _ _ _ K) in L.
    pose proof (fo_live _ _ Ok1 T o' h' E X L) as Hp'. rewrite Hp, Hk' in Hp'. unfold persistedFile in Hk. change (key_of h) with (h_workgroup h, h_path h) in Hp'. rewrite Hwg, Hpath, <- Hk in Hp'.
    destruct Hown as [Hown|[Hown _]]; congruence. }
  destruct ((result =? FILE_SUPERSEDED) || (result =? FILE_OVERWRITTEN)); [|exact Ok2]. destruct (st && negb dir) eqn:Es.
  - apply andb_prop in Es as [_ Ed]. apply negb_true_iff in Ed. pose proof (emptyFile_kept (a_now a) (a_reach a) (a_open a) w2) as K. destruct (emptyFile _ _ _ w2) as [w3 ok]. simpl in K. destruct ok; simpl; [by eapply kept_ok|].
    apply (closeOpen_ok _ h); [by apply filesOk_weaken; eapply kept_ok|by rewrite (proj1 K)|]. intros _. eapply kept_keeps; [exact K|]. by apply Hk2.
  - simpl. eapply kept_ok; [|exact Ok2]. by apply kept_onFile.
Qed.
Lemma createFile_ok a w : filesOk None w -> opens w !! a_open a = None -> files w !! a_file a = None -> filesOk None (createFile a w).1.
Proof.
  intros Ok Ho Hf. pose proof (fo_table _ _ Ok) as Ht. unfold createFile. destruct (a_lookup a); [|exact Ok|].
  all: destruct (disposition _ _ _) as [|result fresh]; [exact Ok|]; destruct (fresh && _).
  all: try (destruct (a_mkdir a); [|exact Ok..]; apply openFile_ok; [|done|done|intros g E; exact (Ht _ _ E)|done]; eapply kept_ok; [|exact Ok]; by apply kept_same).
  all: destruct (default (false, 0) (objectAt a w)) as [isDir size]; apply openFile_ok; [done|done|done|intros g E; exact (Ht _ _ E)|done].
Qed.

(** *** Renaming *)
Definition mayRename (a : renameArgs) (h : handle) (w : world) : Prop :=
  (forall o' h', opens w !! o' = Some h' -> h_path h' = h_path h -> h_workgroup h' = h_workgroup h) /\
  (forall o' h', opens w !! o' = Some h' -> h_path h' <> r_newName a).
Definition moved (isDir : bool) (from to : string) (h : handle) : handle :=
  if String.eqb (h_path h) from then Handle (h_workgroup h) to (h_file h) (h_options h)
  else match strip_prefix (from +:+ "/") (h_path h) with
       | Some rest => if isDir then Handle (h_workgroup h) (to +:+ "/" +:+ rest) (h_file h) (h_options h) else h
       | None => h
       end.
Lemma moveOpens_lookup isDir from to m o : moveOpens isDir from to m !! o = moved isDir from to <$> m !! o.
Proof. unfold moveOpens. by rewrite lookup_fmap. Qed.
Lemma moved_file isDir from to h : h_file (moved isDir from to h) = h_file h.
Proof. unfold moved. destruct (String.eqb _ _); [done|]. destruct (strip_prefix _ _); [|done]. by destruct isDir. Qed.
Lemma moveOpens_count isDir from to m f : handlesOn f (moveOpens isDir from to m) = handlesOn f m.
Proof.
  unfold handlesOn. f_equal. assert (filter (on f) (moveOpens isDir from to m) = moved isDir from to <$> filter (on f) m) as ->; [|by rewrite map_size_fmap].
  apply map_eq. intros o. rewrite lookup_fmap, !map_lookup_filter, moveOpens_lookup. destruct (m !! o) as [h|]; [|done]. simpl. unfold on. simpl. pose proof (moved_file isDir from to h) as Hm.
  destruct (decide (h_file h = f)) as [E|E].
  - rewrite (option_guard_True (h_file h = f)) by done. by rewrite (option_guard_True (h_file (moved isDir from to h) = f)) by congruence.
  - rewrite (option_guard_False (h_file h = f)) by done. by rewrite (option_guard_False (h_file (moved isDir from to h) = f)) by congruence.
Qed.
(** The handles and the table of the share after a rename. *)
Lemma moves_ok isDir from to p' w : filesOk None w -> (forall k f, p' !! k = Some f -> is_Some (files w !! f)) ->
  (tidy -> forall o h, opens w !! o = Some h -> live w h -> p' !! key_of (moved isDir from to h) = Some (h_file h)) ->
  filesOk None (set_handles (moveOpens isDir from to (opens w)) (set_persisted p' w)).
Proof.
  intros [H1 H2 H3 H4 H5] Hp Hl. split; simpl.
  - intros o' h'. rewrite moveOpens_lookup. intros (x & E & ->)%fmap_Some. rewrite moved_file. eauto.
  - intros g x Ex. rewrite moveOpens_count. eauto.
  - exact Hp.
  - intros T o' h'. rewrite moveOpens_lookup. intros (x & E & ->)%fmap_Some _ L. rewrite moved_file. apply (Hl T o' x E).
    destruct L as (y & Ey & D). rewrite moved_file in Ey. by exists y.
  - intros g x Ex. by apply (H5 g).
Qed.
Lemma movePersistedFile_there (wg from to : string) (f : fsId) (k : persistedKey) (g : fsId) (t : table) : movePersistedFile wg from to f t !! k = Some g -> g = f \/ exists k0, t !! k0 = Some g.
Proof. unfold movePersistedFile. intros [[_ <-]|[_ [_ E]%lookup_delete_Some]]%lookup_insert_Some; eauto. Qed.
Lemma movePersistedTree_there (wg from to : string) (k : persistedKey) (g : fsId) (t : table) : movePersistedTree wg from to t !! k = Some g -> exists k0, t !! k0 = Some g.
Proof.
  unfold movePersistedTree. intros [E|[_ E]]%lookup_union_Some_raw.
  - apply elem_of_list_to_map_2 in E. apply list_elem_of_omap in E as ([k0 g0] & Hin & E). apply elem_of_map_to_list in Hin.
    apply fmap_Some in E as (k1 & _ & [= _ ->]). eauto.
  - apply map_lookup_filter_Some in E as [E _]. eauto.
Qed.
(** Where a file is renamed as it should be, the live handles find their state under the new name. *)
Lemma move_live a o h f w : filesOk None w -> tidy -> opens w !! o = Some h -> mayRename a h w ->
  (forall o' h', opens w !! o' = Some h' -> live w h' -> key_of h' = key_of h -> h_file h' = f) ->
  forall o' h', opens w !! o' = Some h' -> live w h' ->
    movePersistedFile (h_workgroup h) (h_path h) (r_newName a) f (persisted w) !! key_of (moved false (h_path h) (r_newName a) h') = Some (h_file h').
Proof.
  intros [_ _ _ H4 _] T Ho [Hwg Hfree] Hs o' x E Lx. unfold movePersistedFile, moved. destruct (String.eqb_spec (h_path x) (h_path h)) as [Hp|Hp].
  - assert (h_workgroup x = h_workgroup h) as Hw by (by eapply Hwg). unfold key_of. simpl. rewrite Hw, lookup_insert_eq. f_equal. symmetry. apply (Hs o' x E Lx). unfold key_of. congruence.
  - assert (match strip_prefix (h_path h +:+ "/") (h_path x) with Some _ => x | None => x end = x) as -> by (by destruct (strip_prefix _ _)).
    unfold key_of. rewrite lookup_insert_ne by (intros [= _ X]; by apply (Hfree o' x E)). rewrite lookup_delete_ne by (intros [= _ X]; by apply Hp). exact (H4 T o' x E ltac:(done) Lx).
Qed.
Lemma renameFile_ok a o w : filesOk None w -> (tidy -> forall h, opens w !! o = Some h -> live w h /\ mayRename a h w) -> filesOk None (renameFile a o w).1.
Proof.
  intros Ok Hm. unfold renameFile. destruct (fileAt o w) as [[h fs]|] eqn:Hf; [|exact Ok]. pose proof Hf as [Ho Ef]%fileAt_Some.
  set (m := match uploadNow fs with Some _ => _ | None => _ end). assert (kept w m.1) as K by (unfold m; destruct (uploadNow fs); [apply flush_kept|apply kept_refl]).
  destruct m as [w1 ok]. simpl in K. destruct ok; simpl; [|eapply kept_ok; [|exact Ok]; eapply kept_trans; [exact K|apply cancelUpload_kept]].
  destruct (kept_fileAt _ _ _ _ _ K Hf) as (fs1 & Hf1 & Hs1). pose proof Hf1 as [Ho1 Ef1]%fileAt_Some. rewrite Ef1. pose proof (kept_ok _ _ _ K Ok) as Ok1. injection Hs1 as _ Hd1 Hdel1.
  pose proof (fo_table _ _ Ok1) as Htab. change (has (attributesNow fs) FILE_ATTRIBUTE_DIRECTORY) with (isDirectory fs).
  assert (tidy -> isDirectory fs = false /\ live w1 h /\ mayRename a h w1 /\ persisted w1 !! key_of h = Some (h_file h) /\
    forall o' h', opens w1 !! o' = Some h' -> live w1 h' -> key_of h' = key_of h -> h_file h' = h_file h) as Htidy.
  { intros T. destruct (Hm T h Ho) as [(fs0 & E0 & D1 & D2) Hmr]. rewrite Ef in E0. injection E0 as <-.
    assert (live w1 h) as L1 by (exists fs1; split_and!; congruence). pose proof (fo_live _ _ Ok1 T o h Ho1 ltac:(done) L1) as Hp1.
    split_and!; [done|done|unfold mayRename; by rewrite (proj1 K)|done|].
    intros o' h' E L X. eapply (keeps_same None w1); [done|done|by left|exact E|done|done|done]. }
  destruct (negb (isStored fs1) && negb (isDirectory fs)) eqn:Es; simpl.
  - destruct (match _ ≫= _ with Some _ => _ | None => _ end); [exact Ok1|]. eapply kept_ok; [by apply kept_onFile|].
    apply moves_ok; [done|intros k g [->|[k0 E]]%movePersistedFile_there; eauto|].
    intros T. destruct (Htidy T) as (_ & _ & M & _ & Hown). exact (move_live a o h (h_file h) w1 Ok1 T Ho1 M Hown).
  - destruct (r_answer a); [|exact Ok1..]. set (p0 := match persistedFile _ _ _ with Some f => _ | None => _ end).
    set (w2 := set_directories _ (set_objects _ w1)) in *.
    assert (exists p', (if isDirectory fs then set_persisted (movePersistedTree (h_workgroup h) (h_path h) (r_newName a) (persisted p0)) p0 else p0) = set_persisted p' w2 /\
      (forall k f, p' !! k = Some f -> is_Some (files w1 !! f)) /\
      (isDirectory fs = false -> forall f, persisted w1 !! key_of h = Some f -> p' = movePersistedFile (h_workgroup h) (h_path h) (r_newName a) f (persisted w1))) as (p' & Hp' & Hin & Hone).
    { assert (exists p1, p0 = set_persisted p1 w2 /\ (forall k f, p1 !! k = Some f -> is_Some (files w1 !! f)) /\
        (forall f, persisted w1 !! key_of h = Some f -> p1 = movePersistedFile (h_workgroup h) (h_path h) (r_newName a) f (persisted w1))) as (p1 & -> & H1 & H2).
      { unfold p0, persistedFile. change (persisted w2) with (persisted w1). change (h_workgroup h, h_path h) with (key_of h). destruct (persisted w1 !! key_of h) as [f|] eqn:Ep.
        - eexists. split; [reflexivity|]. split; [intros k g [->|[k0 E]]%movePersistedFile_there; eauto|by intros ? [= <-]].
        - exists (persisted w1). split; [by destruct w1|]. split; [eauto|done]. }
      destruct (isDirectory fs).
      - eexists. split; [reflexivity|]. split; [intros k g [k0 E]%movePersistedTree_there; eauto|done].
      - exists p1. split_and!; auto. }
    rewrite Hp'. change (persisted (set_persisted p' w2)) with p'. change (opens (set_persisted p' w2)) with (opens w1).
    eapply kept_ok; [|apply (moves_ok (isDirectory fs) (h_path h) (r_newName a) p' w1 Ok1 Hin)]; [by apply kept_same|].
    intros T. destruct (Htidy T) as (Hd & _ & M & Hp1 & Hown). rewrite Hd, (Hone Hd _ Hp1). exact (move_live a o h (h_file h) w1 Ok1 T Ho1 M Hown).
Qed.
End invariant.
#[global] Arguments filesOk tidy ex w : clear implicits.

(** ** What can happen next

    Creates, writes, closes, disconnects, renames and changes of mind, in any order; each is
    the whole of its handler, but for a create, which looks its name up in the table of the
    share and may go on much later ([step_openLate]): [known] is what it found then. *)
Inductive files_step (w w' : world) : Prop :=
| step_create a : opens w !! a_open a = None -> files w !! a_file a = None -> w' = (createFile a w).1 -> files_step w w'
| step_openLate a result isDir stored_ size times known : opens w !! a_open a = None -> files w !! a_file a = None ->
    (forall f, known = Some f -> is_Some (files w !! f)) -> w' = (openFile a result isDir stored_ size times known w).1 -> files_step w w'
| step_write now hk maxLen id u why full o offset data : w' = (smb2_write now hk maxLen id u why full o offset data w).1 -> files_step w w'
| step_setDisposition pending isEmpty o : w' = (setDisposition pending isEmpty o w).1 -> files_step w w'
| step_close a o : w' = (smb2_close a o w).1 -> files_step w w'
| step_end o : is_Some (opens w !! o) -> w' = endOpen o w -> files_step w w'
| step_renameFile a o : w' = (renameFile a o w).1 -> files_step w w'
| step_other f g : (forall fs, shape (g fs) = shape fs) -> (forall fs, upload (g fs) = upload fs) -> w' = onFile f g w -> files_step w w'.
Definition files_init (w : world) : Prop := opens w = ∅ /\ persisted w = ∅ /\ files w = ∅.

(** What the code does not see to, and one state to a file needs; the theorems after
    [one_state_per_file] show what comes of it otherwise.  A name that is created is looked up
    and taken in one go; a handle on a directory or on a deleted file is closed while its own
    state, or none, is under its name; a file is deleted under other handles only while it is
    being written; an upload is called off by a failed close or a disconnect only where no
    other handle is on a file the store does not have; and what is renamed is a file that is
    not deleted, to a name that is not open, with only opens of its own workgroup on the
    old one. *)
Definition mayLeave (w : world) (h : handle) : Prop := live w h \/ keeps w h.
Inductive tidy_step (w w' : world) : Prop :=
| tidy_create a : opens w !! a_open a = None -> files w !! a_file a = None -> w' = (createFile a w).1 -> tidy_step w w'
| tidy_write now hk maxLen id u why full o offset data : w' = (smb2_write now hk maxLen id u why full o offset data w).1 -> tidy_step w w'
| tidy_setDisposition pending isEmpty o : w' = (setDisposition pending isEmpty o w).1 -> tidy_step w w'
| tidy_close a o h fs : fileAt o w = Some (h, fs) -> mayLeave w h -> mayClose a o h fs w -> w' = (smb2_close a o w).1 -> tidy_step w w'
| tidy_end o h fs : fileAt o w = Some (h, fs) -> mayLeave w h -> alone w o h \/ upload fs = None \/ stored fs = true -> w' = endOpen o w -> tidy_step w w'
| tidy_renameFile a o h : opens w !! o = Some h -> live w h -> mayRename a h w -> w' = (renameFile a o w).1 -> tidy_step w w'
| tidy_other f g : (forall fs, shape (g fs) = shape fs) -> (forall fs, upload (g fs) = upload fs) -> w' = onFile f g w -> tidy_step w w'.

Lemma filesOk_init tidy w : files_init w -> filesOk tidy None w.
Proof. intros (Ho & Hp & Hf). split; rewrite ?Ho, ?Hp, ?Hf; intros; by rewrite lookup_empty in *. Qed.
Lemma other_ok tidy f g w : (forall fs, shape (g fs) = shape fs) -> (forall fs, upload (g fs) = upload fs) -> filesOk tidy None w -> filesOk tidy None (onFile f g w).
Proof. intros Hs Hu Ok. eapply kept_ok; [|exact Ok]. apply kept_onFile; [done|]. intros. by rewrite Hu. Qed.
Lemma files_reachable w : reachable files_init files_step w -> filesOk False None w.
Proof.
  apply invariant_reachable; [apply filesOk_init|].
  intros s s' _ Ok [a Ho Hf ->|a r d st sz ts known Ho Hf Hk ->|now hk ml id u why full o off d ->|p e o ->|a o ->|o [h Ho] ->|a o ->|f g Hs Hu ->].
  - by apply createFile_ok.
  - by apply openFile_ok.
  - eapply kept_ok; [apply smb2_write_kept|done].
  - by apply setDisposition_ok.
  - destruct (fileAt o s) as [[h fs]|] eqn:Hf; [by eapply smb2_close_ok|]. unfold smb2_close. by rewrite Hf.
  - destruct (fo_handle _ _ Ok o h Ho) as [fs Ef]. by apply (endOpen_ok o h fs); [|apply fileAt_Some|..].
  - by apply renameFile_ok.
  - by apply other_ok.
Qed.
Lemma mayLeave_keeps o h w : filesOk True None w -> opens w !! o = Some h -> mayLeave w h -> keeps w h.
Proof. intros Ok Ho [L|K]; [|done]. left. by apply (fo_live _ _ Ok I o). Qed.
Lemma tidy_files_reachable w : reachable files_init tidy_step w -> filesOk True None w.
Proof.
  apply invariant_reachable; [apply filesOk_init|].
  intros s s' _ Ok [a Ho Hf ->|now hk ml id u why full o off d ->|p e o ->|a o h fs Hf Hk Hm ->|o h fs Hf Hk Hc ->|a o h Ho L Hm ->|f g Hs Hu ->].
  - by apply createFile_ok.
  - eapply kept_ok; [apply smb2_write_kept|done].
  - by apply setDisposition_ok.
  - pose proof Hf as [Ho _]%fileAt_Some. eapply smb2_close_ok; [done|exact Hf|intros _; by eapply mayLeave_keeps|done].
  - pose proof Hf as [Ho _]%fileAt_Some. eapply endOpen_ok; [done|exact Hf|intros _; by eapply mayLeave_keeps|done].
  - apply renameFile_ok; [done|]. intros _ h' E. rewrite Ho in E. by injection E as <-.
  - by apply other_ok.
Qed.


(** ** Dispositions

    What [MS-SMB2] 2.2.13 asks of a disposition, by whether the name is there. *)
Definition dispositionTable (cd : Z) (present : bool) : Z + Z :=
  if cd =? FILE_SUPERSEDE then inr (if present then FILE_SUPERSEDED else FILE_CREATED)
  else if cd =? FILE_OPEN then if present then inr FILE_OPENED else inl STATUS_OBJECT_NAME_NOT_FOUND
  else if cd =? FILE_CREATE then if present then inl STATUS_OBJECT_NAME_COLLISION else inr FILE_CREATED
  else if cd =? FILE_OPEN_IF then inr (if present then FILE_OPENED else FILE_CREATED)
  else if cd =? FILE_OVERWRITE then if present then inr FILE_OVERWRITTEN else inl STATUS_OBJECT_NAME_NOT_FOUND
  else inr (if present then FILE_OVERWRITTEN else FILE_CREATED).
(** The name is there, and how large the file under it is. *)
Definition sizeAt (k : persistedKey) (w : world) : option Z :=
  match persisted w !! k ≫= fun f => files w !! f with Some fs => Some (fsize fs) | None => zlen <$> objects w !! k end.
Record opened (a : createArgs) (w w' : world) (size : Z) : Prop := Opened {
  od_open : exists h fs, opens w' = <[a_open a := h]> (opens w) /\ key_of h = (a_workgroup a, a_path a) /\ h_options h = a_options a /\
    files w' !! h_file h = Some fs /\ fsize fs = size /\ persisted w' = <[key_of h := h_file h]> (persisted w);
  od_dirs : directories w' = directories w;
}.
Definition empties (result : Z) : bool := (result =? FILE_SUPERSEDED) || (result =? FILE_OVERWRITTEN).
Lemma openFile_run a result st size times known w :
  known = persisted w !! (a_workgroup a, a_path a) -> (forall f, known = Some f -> exists fs, files w !! f = Some fs /\ isDirectory fs = false) ->
  opens w !! a_open a = None -> a_reach a = true ->
  let now_ := match known ≫= fun f => files w !! f with Some fs => fsize fs | None => size end in
  exists w', openFile a result false st size times known w = (w', inr result) /\ opened a w w' (if empties result then 0 else now_) /\
    objects w' = if empties result && st then delete (a_workgroup a, a_path a) (objects w) else objects w.
Proof.
  intros Hk Hfile Ho Hr. simpl. unfold openFile.
  assert (exists fs f, let h := Handle (a_workgroup a) (a_path a) f (a_options a) in
    registerOpen times.1 times.2 size false known (a_file a) (a_open a) (a_workgroup a, a_path a) (a_options a) w =
      set_handles (<[a_open a := h]> (opens w)) (set_files (<[f := fs]> (files w)) w) /\ isDirectory fs = false /\
    fsize fs = match known ≫= fun f => files w !! f with Some fs => fsize fs | None => size end) as (fs & f & -> & Hd & Hsize).
  { unfold registerOpen. destruct known as [f|]; simpl.
    - destruct (Hfile f eq_refl) as (fs & E & Hd). exists (attach fs), f. rewrite E. simpl. split_and!; [|done|done]. do 2 f_equal. unfold onFile, set_files. simpl. f_equal.
      rewrite <- (insert_id (files w) f fs E) at 1. apply alter_insert_eq.
    - eexists _, _. split_and!; [reflexivity| |reflexivity]. unfold isDirectory, attributesNow, newFileState. simpl. by destruct (String.prefix _ _). }
  set (h := Handle (a_workgroup a) (a_path a) f (a_options a)). set (w1 := set_handles _ _).
  assert (fileAt (a_open a) w1 = Some (h, fs)) as Hf by (apply fileAt_Some; simpl; rewrite !lookup_insert_eq; done). rewrite Hf.
  change (has (attributesNow fs) FILE_ATTRIBUTE_DIRECTORY) with (isDirectory fs). rewrite Hd. rewrite andb_true_r. change (h_file h) with f.
  set (fs2 := if st then markStored fs else fs). set (w2 := set_persisted _ _).
  assert (opens w2 = <[a_open a := h]> (opens w) /\ persisted w2 = <[key_of h := f]> (persisted w) /\ objects w2 = objects w /\ directories w2 = directories w /\ files w2 !! f = Some fs2) as (E1 & E2 & E3 & E4 & E5).
  { unfold w2, fs2, persistFile. destruct st; simpl; split_and!; try done; [by rewrite lookup_alter_eq, lookup_insert_eq|by rewrite lookup_insert_eq]. }
  assert (fsize fs2 = fsize fs) as Hs2 by (unfold fs2; by destruct st). clearbody w2 fs2. fold (empties result). destruct (empties result) eqn:Ee; simpl.
  - destruct st eqn:Est.
    + unfold emptyFile. assert (exists fs3, let w3 := (cancelUpload (a_open a) w2).1 in opens w3 = opens w2 /\ persisted w3 = persisted w2 /\ objects w3 = objects w2 /\ directories w3 = directories w2 /\ files w3 !! f = Some fs3) as (fs3 & C1 & C2 & C3 & C4 & C5).
      { unfold cancelUpload. assert (fileAt (a_open a) w2 = Some (h, fs2)) as -> by (apply fileAt_Some; rewrite E1, lookup_insert_eq; done). destruct (uploadNow fs2) as [u|]; cbn [fst]; [exists (dropUpload u fs2)|exists fs2]; split_and!; try done.
        change (alter (dropUpload u) f (files w2) !! f = Some (dropUpload u fs2)). by rewrite lookup_alter_eq, E5. }
      destruct (cancelUpload (a_open a) w2) as [w3 b]. simpl in C1, C2, C3, C4, C5. rewrite C1, E1, lookup_insert_eq, Hr. eexists. split; [reflexivity|]. split; [|simpl; by rewrite C3, E3].
      split; [|simpl; congruence]. exists h. eexists. simpl. rewrite lookup_alter_eq, C5, C1, C2, E1, E2. done.
    + eexists. split; [reflexivity|]. split; [|simpl; exact E3]. split; [|simpl; exact E4]. exists h. eexists. simpl. rewrite lookup_alter_eq, E5, E1, E2. done.
  - eexists. split; [reflexivity|]. split; [|exact E3]. split; [|exact E4]. exists h, fs2. split_and!; [exact E1|done|done|exact E5|congruence|exact E2].
Qed.

(** C9: A create does what its disposition asks for.  With one of the six dispositions of the
    protocol, on a name that is not a directory, with a store that answers whatever it is
    asked (otherwise [failing_store_is_not_found], [unknown_disposition_empties]), it is refused, with nothing changed, exactly where the table of the
    protocol says so, and otherwise answered with the table's result: the new handle is on
    the name, the table of the share has its state there, the file measures what it did if
    it was opened, and nothing if it was created, superseded or overwritten; and an object
    goes exactly if it was superseded or overwritten.  Left out is the exclusive create of a
    file that is there but not in the store yet ([exclusive_create_is_not]). *)
Theorem create_follows_the_table (a : createArgs) (w : world) :
  reachable files_init files_step w -> let k := (a_workgroup a, a_path a) in
  a_lookup a = Answers -> a_reach a = true -> 0 <= a_disposition a <= FILE_OVERWRITE_IF -> has (a_options a) FILE_DIRECTORY_FILE = false ->
  k ∉ directories w -> (forall f fs, persisted w !! k = Some f -> files w !! f = Some fs -> isDirectory fs = false) ->
  opens w !! a_open a = None -> (a_disposition a = FILE_CREATE -> objects w !! k = None -> persisted w !! k = None) ->
  match dispositionTable (a_disposition a) (bool_decide (sizeAt k w <> None)) with
  | inl status => createFile a w = (w, inl status)
  | inr result => exists w', createFile a w = (w', inr result) /\
      opened a w w' (if result =? FILE_OPENED then default 0 (sizeAt k w) else 0) /\
      objects w' = if empties result then delete k (objects w) else objects w
  end.
Proof.
  intros Hr k Hl Hreach Hcd Hdir Hnd Hfile Ho Hex. pose proof (files_reachable w Hr) as Ok. pose proof (fo_table _ _ Ok k) as Htab.
  unfold createFile, objectAt. rewrite Hl. fold k. rewrite (bool_decide_eq_false_2 (k ∈ directories w)) by done.
  set (known := persistedFile (a_workgroup a) (a_path a) (persisted w)). assert (known = persisted w !! k) as Hk by done.
  assert (forall f, known = Some f -> exists fs, files w !! f = Some fs /\ isDirectory fs = false) as Hfile'.
  { intros f E. rewrite Hk in E. destruct (Htab f E) as [fs Ef]. eauto. }
  assert (forall result st size times, exists w', openFile a result false st size times known w = (w', inr result) /\
     opened a w w' (if empties result then 0 else match known ≫= fun f => files w !! f with Some fs => fsize fs | None => size end) /\
     objects w' = if empties result && st then delete k (objects w) else objects w) as Run by (intros; by apply openFile_run).
  assert (sizeAt k w = match known ≫= fun f => files w !! f with Some fs => Some (fsize fs) | None => zlen <$> objects w !! k end) as Hsize by done.
  set (state_ := known ≫= fun f => files w !! f) in *.
  assert ((known = None /\ state_ = None) \/ exists f fs, known = Some f /\ state_ = Some fs) as Hst.
  { unfold state_. destruct known as [f|]; [|by left]. destruct (Hfile' f eq_refl) as (fs & E & _). right. exists f, fs. done. }
  rewrite Hsize. clear Hfile Hsize. clearbody known state_. assert (objects w !! k = None -> delete k (objects w) = objects w) as Hdel by apply delete_id.
  unfold FILE_OVERWRITE_IF in Hcd. assert (a_disposition a = 0 \/ a_disposition a = 1 \/ a_disposition a = 2 \/ a_disposition a = 3 \/ a_disposition a = 4 \/ a_disposition a = 5) as Hc by lia.
  assert (a_disposition a = 2 -> objects w !! k = None -> known = None) as Hex' by (rewrite Hk; exact Hex). clear Hex Hcd.
  destruct (objects w !! k) as [c|]; (destruct Hst as [[-> ->]|(f & fs & -> & ->)]); (destruct Hc as [Hc|[Hc|[Hc|[Hc|[Hc|Hc]]]]]); rewrite Hc; simpl; unfold wantsDirectory;
    rewrite ?Hdir, ?andb_false_r; rewrite ?Hdel by done; cbv iota; try reflexivity; try (edestruct Run as (w' & -> & HO & HB); exists w'; split; [reflexivity|split; [exact HO|exact HB]]).
  discriminate (Hex' Hc eq_refl).
Qed.

(** ** Runs *)
Lemma live_true w h : match files w !! h_file h with Some fs => negb (isDirectory fs) && negb (deleted fs) | None => false end = true -> live w h.
Proof. unfold live. destruct (files w !! h_file h) as [fs|]; [|done]. intros [H1%negb_true_iff H2%negb_true_iff]%andb_prop. eauto. Qed.
Section runs.
Let world0 : world := World {[("wg", "f") := [1; 2; 3]]} ∅ ∅ ∅ ∅ ∅.
Let create (name : string) (cd options : Z) (o : openId) (f : fsId) : createArgs := CreateArgs 0 "wg" name cd options Answers (0, 0) Made true o f.
Let stateOf (o : openId) (w : world) : option fileState := snd <$> fileAt o w.
Let writes (o : openId) (u : uploadId) (w : world) : world := (smb2_write 0 64 1024 "id" (Some u) "" false o 0 [7; 8] w).1.

Lemma create_follows_the_table_witness :
  exists w', createFile (create "f" FILE_OVERWRITE 0 1 1) world0 = (w', inr FILE_OVERWRITTEN) /\ objects w' !! ("wg", "f") = None.
Proof.
  assert (reachable files_init files_step world0) as Hr by (apply reach_init; split_and!; reflexivity).
  destruct (create_follows_the_table (create "f" FILE_OVERWRITE 0 1 1) world0 Hr) as (w' & E & _ & HB); [reflexivity|reflexivity|split; vm_compute; discriminate|reflexivity| |discriminate|reflexivity|discriminate|].
  - apply not_elem_of_empty.
  - exists w'. split; [exact E|]. rewrite HB. reflexivity.
Defined.

(** A file that was created and not stored yet is created a second time, exclusively. *)
Theorem exclusive_create_is_not : let first := createFile (create "g" FILE_CREATE 0 1 1) world0 in
  first.2 = inr FILE_CREATED /\ (createFile (create "g" FILE_CREATE 0 2 2) first.1).2 = inr FILE_CREATED.
Proof. cbv zeta. split; vm_compute; reflexivity. Qed.
(** An account that may read and nothing else sends a disposition that does not exist: it passes the
    check of its rights, and the file is emptied, its object deleted and the answer that it
    was superseded. *)
Theorem unknown_disposition_empties : let rights := FlagsFromAccessRights (mkAccessRights true false false false) in
  grantAccess 6 0 FILE_READ_DATA rights = true /\
  (createFile (create "f" 6 0 1 1) world0).2 = inr FILE_SUPERSEDED /\ objects (createFile (create "f" 6 0 1 1) world0).1 !! ("wg", "f") = None.
Proof. cbv zeta. split_and!; vm_compute; reflexivity. Qed.
(** A store that fails to answer is taken for one that has nothing: a file it holds is not
    found, or opened as one newly created, of no bytes. *)
Theorem failing_store_is_not_found : let asked cd := CreateArgs 0 "wg" "f" cd 0 Fails (0, 0) Made true 1%nat 1%nat in
  (createFile (asked FILE_OPEN) world0).2 = inl STATUS_OBJECT_NAME_NOT_FOUND /\
  let r := createFile (asked FILE_OPEN_IF) world0 in
  r.2 = inr FILE_CREATED /\ fsize <$> stateOf 1 r.1 = Some 0 /\ objects r.1 !! ("wg", "f") = Some [1; 2; 3].
Proof. cbv zeta. split_and!; vm_compute; reflexivity. Qed.
(** One client writes a new file, another has it open to read; the reader disconnects, and the
    upload of the writer is gone, with the file it was writing. *)
Theorem disconnect_calls_off_anothers_upload :
  let w := writes 1 1 (createFile (create "g" FILE_OPEN 0 2 2) (createFile (create "g" FILE_CREATE 0 1 1) world0).1).1 in
  upload <$> stateOf 1 w = Some (Some 1%nat) /\ upload <$> stateOf 1 (endOpen 2 w) = Some None /\ persisted (endOpen 2 w) !! ("wg", "g") = None.
Proof. cbv zeta. split_and!; vm_compute; reflexivity. Qed.
(** A file is deleted by the close of one handle while another, which is not writing at that
    moment, is on it.  The other then writes, and closes: the file is back. *)
Theorem deleted_file_comes_back :
  let w := (createFile (create "f" FILE_OPEN FILE_DELETE_ON_CLOSE 2 2) (createFile (create "f" FILE_OPEN 0 1 1) world0).1).1 in
  let w1 := (smb2_close (CloseArgs 0 None None true) 2 w).1 in
  let w2 := (smb2_close (CloseArgs 0 (Some [7; 8]) None true) 1 (writes 1 1 w1)).1 in
  objects w1 !! ("wg", "f") = None /\ objects w2 !! ("wg", "f") = Some [7; 8].
Proof. cbv zeta. split; vm_compute; reflexivity. Qed.
(** The same, while the file was being written: the handle left over is on a deleted file.  The
    name is created anew; the close of the left-over handle takes the entry of the new file off the
    table, and the next create makes a second state for it. *)
Theorem close_forgets_the_new_file :
  let w := (createFile (create "f" FILE_OPEN FILE_DELETE_ON_CLOSE 2 2) (createFile (create "f" FILE_OPEN 0 1 1) world0).1).1 in
  let w1 := (smb2_close (CloseArgs 0 None None true) 2 (writes 1 1 w)).1 in
  let w2 := (createFile (create "f" FILE_CREATE 0 3 3) w1).1 in
  let w3 := (smb2_close (CloseArgs 0 None None true) 1 w2).1 in
  let w4 := (createFile (create "f" FILE_OPEN_IF 0 4 4) w3).1 in
  persisted w2 !! ("wg", "f") = Some 3%nat /\ persisted w3 !! ("wg", "f") = None /\
  h_file <$> opens w4 !! 3%nat = Some 3%nat /\ h_file <$> opens w4 !! 4%nat = Some 4%nat.
Proof. cbv zeta. split_and!; vm_compute; reflexivity. Qed.
(** The upload of a file fails at the close of its one writer, while a reader has it open: the entry
    goes, and the next create makes a second state beside the reader's. *)
Theorem failed_close_leaves_two_states :
  let w := writes 1 1 (createFile (create "g" FILE_OPEN 0 2 2) (createFile (create "g" FILE_CREATE 0 1 1) world0).1).1 in
  let w1 := (smb2_close (CloseArgs 0 None None true) 1 w).1 in
  let w2 := (createFile (create "g" FILE_OPEN_IF 0 3 3) w1).1 in
  h_file <$> opens w2 !! 2%nat = Some 1%nat /\ h_file <$> opens w2 !! 3%nat = Some 3%nat.
Proof. cbv zeta. split; vm_compute; reflexivity. Qed.
(** Two creates of one name look it up before either has put it in the table: each makes a state of
    its own. *)
Theorem racing_creates_make_two_states :
  let a1 := create "g" FILE_OPEN_IF 0 1 1 in let a2 := create "g" FILE_OPEN_IF 0 2 2 in
  let known := persistedFile "wg" "g" (persisted world0) in
  let w := (openFile a2 FILE_CREATED false false 0 (0, 0) known (createFile a1 world0).1).1 in
  h_file <$> opens w !! 1%nat = Some 1%nat /\ h_file <$> opens w !! 2%nat = Some 2%nat /\ h_path <$> opens w !! 1%nat = h_path <$> opens w !! 2%nat.
Proof. cbv zeta. split_and!; vm_compute; reflexivity. Qed.
(** A file that is not stored yet is renamed over one that is: nobody asks the store, the answer is a
    success, and both are there under one name. *)
Theorem unsaved_rename_takes_a_stored_name :
  let w := (createFile (create "g" FILE_CREATE 0 1 1) world0).1 in
  let r := renameFile (RenameArgs 0 None NameTaken "f") 1 w in
  r.2 = STATUS_OK /\ persisted r.1 !! ("wg", "f") = Some 1%nat /\ objects r.1 !! ("wg", "f") = Some [1; 2; 3].
Proof. cbv zeta. split_and!; vm_compute; reflexivity. Qed.
(** The rename of a file takes along the open another workgroup has on its own file of that name. *)
Theorem rename_moves_another_workgroup :
  let w := set_objects (<[("other", "f") := [9]]> (objects world0)) world0 in
  let w := (createFile (CreateArgs 0 "other" "f" FILE_OPEN 0 Answers (0, 0) Made true 2 2) (createFile (create "f" FILE_OPEN 0 1 1) w).1).1 in
  let w1 := (renameFile (RenameArgs 0 None Moved "h") 1 w).1 in
  key_of <$> opens w1 !! 2%nat = Some ("other", "h") /\ objects w1 !! ("other", "f") = Some [9] /\ persisted w1 !! ("other", "f") = Some 2%nat.
Proof. cbv zeta. split_and!; vm_compute; reflexivity. Qed.
End runs.
End Files.
