(* ===== verification/ReadCache.v ===== *)
(** The read cache of an open ([open.go]) and the size of its chunks
    ([client/readchunk.go]).

    A file is read in chunks of [chunkSize] bytes that are downloaded in the background
    and kept, the least recently used going first.  The cache belongs to the generation of
    the file it was filled in and is emptied when the file has moved on.  A chunk is an
    object of its own, known by its place in [chunks]: reads wait on it, the cache may let
    go of it meanwhile, and the download finishes in two steps, the result under the lock
    of the open and the closing of [done] after it.

    [content] is the object the store holds; a download that goes through delivers the
    bytes of its range as they are then, or the first of them.  The turns of the loops over
    the chunks of a range are a list ([offsets]).  A read is a sequence of looks at the file,
    each under the lock of its own, and of changes to the cache under the lock of the open:
    the sections are definitions, [tryReadCached] and [read_begin] what they come to with
    nothing in between, and the system at the end takes them one at a time. *)
From S2P Require Import Prelude FileState Upload.
Import FileState.

Module ReadCache.
Abbreviation out := (outcome Empty_set).
Abbreviation chunkId := nat.

(** ** Sizes *)
Definition minReadChunkSize : Z := 8 * 1024 * 1024.
Definition maxReadChunkSize : Z := 16 * 1024 * 1024.
Fixpoint growChunk (fuel : nat) (slabSize chunk : Z) : Z :=
  match fuel with O => chunk | S fuel => if chunk <? minReadChunkSize then growChunk fuel slabSize (chunk + slabSize) else chunk end.
Fixpoint halveChunk (fuel : nat) (chunk : Z) : Z :=
  match fuel with O => chunk | S fuel => if chunk >? maxReadChunkSize then halveChunk fuel (chunk / 2) else chunk end.
Definition ReadChunkSize (slabSize : Z) : Z :=
  if slabSize =? 0 then minReadChunkSize
  else halveChunk 64 (growChunk (Z.to_nat (minReadChunkSize / slabSize + 1)) slabSize slabSize).
Definition readPrefetchDepth : Z := 3.
Definition readCacheBudget : Z := 128 * 1024 * 1024.
Definition readCacheSize (chunkSize : Z) : Z :=
  let size := readCacheBudget / chunkSize in
  if size <? readPrefetchDepth + 1 then readPrefetchDepth + 1 else size.

(** ** State *)
Inductive phase := Waiting | Landed | Done.
#[export] Instance phase_eq_dec : EqDecision phase.
Proof. solve_decision. Defined.
Record readChunk := Chunk {
  k_offset : Z; k_toRead : Z; k_after : option chunkId; k_start : bool; k_phase : phase; k_data : list Z; k_err : bool;
}.
Record cache := Cache {
  buffer : gmap Z chunkId; cacheOrder : list Z; cacheGeneration : Z; lastReadEnd : Z; chunkSize : Z; maxCacheSize : Z;
}.
Record world := World {
  file : fileState; content : list Z; uploads : gmap uploadId Upload.upload; op_cache : cache; chunks : list readChunk;
}.
Definition set_buffer (b : gmap Z chunkId) (order : list Z) (c : cache) : cache :=
  Cache b order (cacheGeneration c) (lastReadEnd c) (chunkSize c) (maxCacheSize c).
Definition set_generation (g : Z) (c : cache) : cache := Cache (buffer c) (cacheOrder c) g (lastReadEnd c) (chunkSize c) (maxCacheSize c).
Definition set_lastEnd (n : Z) (c : cache) : cache := Cache (buffer c) (cacheOrder c) (cacheGeneration c) n (chunkSize c) (maxCacheSize c).
Definition set_cache (c : cache) (w : world) : world := World (file w) (content w) (uploads w) c (chunks w).
Definition set_chunks (l : list readChunk) (w : world) : world := World (file w) (content w) (uploads w) (op_cache w) l.
Definition set_file (fs : fileState) (w : world) : world := World fs (content w) (uploads w) (op_cache w) (chunks w).

(** ** The cache *)
Fixpoint removeOnce (x : Z) (l : list Z) : list Z :=
  match l with [] => [] | y :: l => if y =? x then l else y :: removeOnce x l end.
Definition touchChunk (co : Z) (order : list Z) : list Z := if bool_decide (co ∈ order) then removeOnce co order ++ [co] else order.
Definition isDone (l : list readChunk) (i : chunkId) : bool := match l !! i with Some k => bool_decide (k_phase k = Done) | None => false end.
(** The first of the order whose download is over; an entry without a chunk is a nil pointer. *)
Fixpoint firstDone (order : list Z) (b : gmap Z chunkId) (l : list readChunk) : out (option Z) :=
  match order with
  | [] => mret None
  | co :: order => match b !! co with None => Panic | Some i => if isDone l i then mret (Some co) else firstDone order b l end
  end.
Fixpoint evict_loop (fuel : nat) (l : list readChunk) (c : cache) : out cache :=
  match fuel with
  | O => Stuck
  | S fuel =>
      if Z.of_nat (size (buffer c)) >? maxCacheSize c then
        r ← firstDone (cacheOrder c) (buffer c) l;
        match r with
        | Some co => evict_loop fuel l (set_buffer (delete co (buffer c)) (removeOnce co (cacheOrder c)) c)
        | None => mret c
        end
      else mret c
  end.
Definition evictChunks (l : list readChunk) (c : cache) : out cache := evict_loop (S (size (buffer c))) l c.
Definition invalidateReadCache (c : cache) : cache :=
  if bool_decide (buffer c = ∅) then c else Cache ∅ [] (cacheGeneration c) 0 (chunkSize c) (maxCacheSize c).
Definition dropCacheOfOlderGeneration (generation : Z) (c : cache) : cache :=
  if cacheGeneration c =? generation then c else set_generation generation (invalidateReadCache c).
Definition startNow (k : readChunk) : readChunk := Chunk (k_offset k) (k_toRead k) (k_after k) true (k_phase k) (k_data k) (k_err k).
Definition ensureChunk (co size_ : Z) (after : option chunkId) (w : world) : out (chunkId * world) :=
  let c := op_cache w in
  match buffer c !! co with
  | Some i =>
      let c := set_buffer (buffer c) (touchChunk co (cacheOrder c)) c in
      mret (i, set_cache c (set_chunks (match after with None => alter startNow i (chunks w) | Some _ => chunks w end) w))
  | None =>
      let i := length (chunks w) in
      let toRead := if u64 (co + chunkSize c) >? size_ then u64 (size_ - co) else chunkSize c in
      let l := chunks w ++ [Chunk co toRead after (match after with None => true | Some _ => false end) Waiting [] false] in
      c ← evictChunks l (set_buffer (<[co := i]> (buffer c)) (cacheOrder c ++ [co]) c);
      mret (i, set_cache c (set_chunks l w))
  end.
Definition chunkSlice (data : list Z) (chunkOffset offset length : Z) : out (option (list Z)) :=
  let start := if offset >? chunkOffset then offset - chunkOffset else 0 in
  if start >=? zlen data then mret None
  else
    let e := if u64 (chunkOffset + zlen data) >? u64 (offset + length) then u64 (u64 (offset + length) - chunkOffset) else zlen data in
    d ← slice data start e; mret (Some d).
(** [from], [from + step], ..., [n] of them. *)
Fixpoint offsets (n : nat) (from step : Z) : list Z := match n with O => [] | S n => from :: offsets n (from + step) step end.
(** The chunks of a range that is not empty. *)
Definition chunksOf (c : cache) (offset length : Z) : list Z :=
  let first := offset / chunkSize c * chunkSize c in
  let last := (offset + length - 1) / chunkSize c * chunkSize c in
  offsets (Z.to_nat ((last - first) / chunkSize c + 1)) first (chunkSize c).

(** ** Reading *)

(** The chunks of a range, if all are there and done; those found are touched either way. *)
Fixpoint gather (cos : list Z) (l : list readChunk) (c : cache) : cache * option (list readChunk) :=
  match cos with
  | [] => (c, Some [])
  | co :: cos =>
      match buffer c !! co ≫= fun i => l !! i with
      | None => (c, None)
      | Some k =>
          if bool_decide (k_phase k = Done) && negb (k_err k) then
            let '(c, r) := gather cos l (set_buffer (buffer c) (touchChunk co (cacheOrder c)) c) in (c, (cons k) <$> r)
          else (c, None)
      end
  end.
Fixpoint slices (cos : list Z) (ks : list readChunk) (offset length : Z) : out (option (list Z)) :=
  match cos, ks with
  | co :: cos, k :: ks =>
      p ← chunkSlice (k_data k) co offset length;
      match p with None => mret None | Some p => r ← slices cos ks offset length; mret ((fun r => p ++ r) <$> r) end
  | _, _ => mret (Some [])
  end.
Definition prefetchOf (c : cache) (lastChunk size_ : Z) : list Z :=
  List.filter (fun co => (co <? size_) && bool_decide (buffer c !! co = None)) (offsets 3 (lastChunk + chunkSize c) (chunkSize c)).
Fixpoint prefetch (cos : list Z) (size_ : Z) (w : world) : out world :=
  match cos with
  | [] => mret w
  | co :: cos =>
      let after := buffer (op_cache w) !! u64 (co - chunkSize (op_cache w)) in
      r ← ensureChunk co size_ after w; prefetch cos size_ r.2
  end.
(** What [tryReadCached] does under the lock of the open: the answer, if there is one, and what
    is to be read ahead. *)
Definition try_cache (size_ generation offset length : Z) (w : world) : out (option (list Z) * list Z * world) :=
  let c := dropCacheOfOlderGeneration generation (op_cache w) in
  let declined c := mret (None, [], set_cache c w) in
  if offset >=? size_ then declined c
  else
    let length := if u64 (offset + length) >=? size_ then size_ - offset else length in
    if length =? 0 then mret (Some [], [], set_cache c w)
    else
      let first := offset / chunkSize c * chunkSize c in
      let last := (offset + length - 1) / chunkSize c * chunkSize c in
      let '(c, found) := gather (chunksOf c offset length) (chunks w) c in
      match found with
      | None => declined c
      | Some ks =>
          let prevCached := (first >=? chunkSize c) && bool_decide (is_Some (buffer c !! (first - chunkSize c))) in
          let sequential := (offset =? 0) || prevCached ||
            ((offset <=? lastReadEnd c + 2 * chunkSize c) && (lastReadEnd c <=? offset + length + 2 * chunkSize c)) in
          let c := set_lastEnd (offset + length) c in
          let ahead := if sequential then prefetchOf c last size_ else [] in
          r ← slices (chunksOf c offset length) ks offset length;
          match r with
          | None => declined c
          | Some data => if negb (zlen data =? length) then declined c else mret (Some data, ahead, set_cache c w)
          end
      end.
(** [acc] says the account is found. *)
Definition tryReadCached (acc : bool) (offset length : Z) (w : world) : out (option (list Z) * world) :=
  let size_ := sizeNow (file w) in
  match uploadNow (file w) with
  | Some _ => mret (None, w)
  | None =>
      r ← try_cache size_ (generationNow (file w)) offset length w;
      let '(data, ahead, w) := r in
      w ← (if acc then prefetch ahead size_ w else mret w);
      mret (data, w)
  end.

(** A read that waits for its chunks. *)
Record pending := Pending { p_generation : Z; p_offset : Z; p_length : Z; p_first : Z; p_chunks : list chunkId }.
(** [read], section by section: the cache of an older generation dropped, ... *)
Definition read_drop (generation : Z) (w : world) : world := set_cache (dropCacheOfOlderGeneration generation (op_cache w)) w.
(** ... what the read comes to when it looks at the upload, [Asks] being for chunks, ... *)
Inductive begun := Answered (data : list Z) | Failed | NotUploaded | Asks (length : Z).
Definition read_look (acc : bool) (size_ offset length : Z) (w : world) : out begun :=
  if offset >=? size_ then mret (Answered [])
  else
    let length := if u64 (offset + length) >=? size_ then size_ - offset else length in
    if length =? 0 then mret (Answered [])
    else match uploadNow (file w) with
         | Some u =>
             match uploads w !! u with
             | None => mret NotUploaded
             | Some up => match Upload.readBuffered offset length up with
                          | Ok (Some data) => mret (Answered data)
                          | Ok None => mret NotUploaded
                          | _ => Panic
                          end
             end
         | None => if acc then mret (Asks length) else mret Failed
         end.
(** ... the chunks asked for ... *)
Fixpoint ensureAll (cos : list Z) (size_ : Z) (w : world) : out (list chunkId * world) :=
  match cos with
  | [] => mret ([], w)
  | co :: cos => r ← ensureChunk co size_ None w; s ← ensureAll cos size_ r.2; mret (r.1 :: s.1, s.2)
  end.
Definition read_ensure (generation size_ offset length : Z) (w : world) : out (pending * world) :=
  r ← ensureAll (chunksOf (op_cache w) offset length) size_ w;
  let w := r.2 in
  mret (Pending generation offset length (offset / chunkSize (op_cache w) * chunkSize (op_cache w)) r.1,
        set_cache (set_lastEnd (offset + length) (op_cache w)) w).
(** ... up to where it waits, with nobody in between. *)
Definition read_begin (acc : bool) (offset length : Z) (w : world) : out ((begun + pending) * world) :=
  let size_ := sizeNow (file w) in
  let generation := generationNow (file w) in
  let w := read_drop generation w in
  b ← read_look acc size_ offset length w;
  match b with
  | Asks length => r ← read_ensure generation size_ offset length w; mret (inr r.1, r.2)
  | b => mret (inl b, w)
  end.
(** ... and the answer put together: [None] still waits, an error is a failed download. *)
Fixpoint collect (ids : list chunkId) (co step offset length : Z) (l : list readChunk) : out (option (bool + list Z)) :=
  match ids with
  | [] => mret (Some (inr []))
  | i :: ids =>
      match l !! i with
      | None => Panic
      | Some k =>
          if negb (bool_decide (k_phase k = Done)) then mret None
          else if k_err k then mret (Some (inl true))
          else
            p ← chunkSlice (k_data k) co offset length;
            match p with
            | None => mret (Some (inr []))
            | Some p => r ← collect ids (co + step) step offset length l;
                        mret (match r with Some (inr d) => Some (inr (p ++ d)) | r => r end)
            end
      end
  end.
Definition read_end (p : pending) (w : world) : out (option (bool + list Z)) :=
  collect (p_chunks p) (p_first p) (chunkSize (op_cache w)) (p_offset p) (p_length p) (chunks w).

(** ** Downloads *)
Definition mayFetch (ctxDone : bool) (l : list readChunk) (k : readChunk) : bool :=
  bool_decide (k_phase k = Waiting) && (k_start k || match k_after k with Some j => isDone l j | None => false end || ctxDone).
(** The answer of the store: the first [n] bytes of the range, or all there are, or an error. *)
Definition fetch (got : option nat) (i : chunkId) (w : world) : world :=
  match chunks w !! i with
  | None => w
  | Some k =>
      match got with
      | Some n =>
        set_chunks (<[i := Chunk (k_offset k) (k_toRead k) (k_after k) (k_start k) Landed (take n (sub (content w) (k_offset k) (k_offset k + k_toRead k))) false]> (chunks w)) w
      | None =>
        let w := set_chunks (<[i := Chunk (k_offset k) (k_toRead k) (k_after k) (k_start k) Landed [] true]> (chunks w)) w in
        let c := op_cache w in
        if bool_decide (buffer c !! k_offset k = Some i)
        then set_cache (set_buffer (delete (k_offset k) (buffer c)) (removeOnce (k_offset k) (cacheOrder c)) c) w else w
      end
  end.
Definition closeDone (i : chunkId) (w : world) : world :=
  set_chunks (alter (fun k => Chunk (k_offset k) (k_toRead k) (k_after k) (k_start k) Done (k_data k) (k_err k)) i (chunks w)) w.

(** ** The order and the buffer *)
Record ordered (c : cache) : Prop := Ordered {
  or_nodup : NoDup (cacheOrder c);
  or_dom : forall co, co ∈ cacheOrder c <-> is_Some (buffer c !! co);
}.
Lemma removeOnce_spec x l : NoDup l -> NoDup (removeOnce x l) /\ forall y, y ∈ removeOnce x l <-> y ∈ l /\ y <> x.
Proof.
  induction 1 as [|z l Hz Hl [IH1 IH2]]; simpl; [split; [constructor|intros y; rewrite !elem_of_nil; tauto]|]. destruct (Z.eqb_spec z x) as [->|Hne].
  - split; [done|]. intros y. rewrite elem_of_cons. split; [intros H; split; [by right|intros ->; done]|intros [[->|] ?]; done].
  - split; [apply NoDup_cons; rewrite IH2; tauto|]. intros y. rewrite !elem_of_cons, IH2. split; [intros [->|[]]; tauto|tauto].
Qed.
Lemma touchChunk_spec x l : NoDup l -> NoDup (touchChunk x l) /\ forall y, y ∈ touchChunk x l <-> y ∈ l.
Proof.
  intros Hl. unfold touchChunk. destruct (bool_decide_reflect (x ∈ l)) as [Hx|]; [|done]. destruct (removeOnce_spec x l Hl) as [H1 H2]. split.
  - apply NoDup_app. split_and!; [done| |apply NoDup_singleton]. intros y Hy Hs. apply list_elem_of_singleton in Hs as ->. apply H2 in Hy as [_ Hy]. by apply Hy.
  - intros y. rewrite elem_of_app, list_elem_of_singleton, H2. split; [intros [[]| ->]; done|]. intros Hy. destruct (decide (y = x)); tauto.
Qed.
Lemma ordered_delete co c : ordered c -> ordered (set_buffer (delete co (buffer c)) (removeOnce co (cacheOrder c)) c).
Proof.
  intros [Hn Hd]. destruct (removeOnce_spec co _ Hn) as [H1 H2]. split; simpl; [done|]. intros y. rewrite H2, Hd, lookup_delete_is_Some. split; intros []; split; congruence.
Qed.
Lemma ordered_touch co c : ordered c -> ordered (set_buffer (buffer c) (touchChunk co (cacheOrder c)) c).
Proof. intros [Hn Hd]. destruct (touchChunk_spec co _ Hn) as [H1 H2]. split; simpl; [done|]. intros y. by rewrite H2, Hd. Qed.
Lemma ordered_add co i c : ordered c -> buffer c !! co = None -> ordered (set_buffer (<[co := i]> (buffer c)) (cacheOrder c ++ [co]) c).
Proof.
  intros [Hn Hd] Hb. split; simpl.
  - apply NoDup_app. split_and!; [done| |apply NoDup_singleton]. intros x Hx Hy. apply list_elem_of_singleton in Hy as ->. apply Hd in Hx as [? Hx]. congruence.
  - intros x. rewrite elem_of_app, list_elem_of_singleton, Hd. destruct (decide (x = co)) as [->|]; [rewrite lookup_insert_eq; split; eauto|rewrite lookup_insert_ne by done; tauto].
Qed.
Lemma firstDone_spec order b l : (forall co, co ∈ order -> is_Some (b !! co)) -> exists r, firstDone order b l = Ok r /\
  match r with
  | Some co => co ∈ order /\ exists i, b !! co = Some i /\ isDone l i = true
  | None => forall co i, co ∈ order -> b !! co = Some i -> isDone l i = false
  end.
Proof.
  induction order as [|co order IH]; intros H; simpl; [exists None; split; [done|]; intros ? ? ?%elem_of_nil; done|].
  destruct (H co ltac:(left)) as [i Ei]. rewrite Ei. destruct (isDone l i) eqn:Ed; [exists (Some co); split; [done|]; split; [left|eauto]|].
  destruct IH as (r & -> & Hr); [intros; apply H; by right|]. exists r. split; [done|]. destruct r as [co'|]; [destruct Hr; split; [by right|done]|].
  intros co' i' [->|Hin]%elem_of_cons E; [congruence|by eapply Hr].
Qed.
(** What is evicted is done, and eviction stops only when the cache fits or all of it is in flight. *)
Record evicted (l : list readChunk) (c c' : cache) : Prop := Evicted {
  ev_ordered : ordered c';
  ev_sub : buffer c' ⊆ buffer c;
  ev_busy : forall co i, buffer c !! co = Some i -> isDone l i = false -> buffer c' !! co = Some i;
  ev_fits : Z.of_nat (size (buffer c')) <= maxCacheSize c' \/ forall co i, buffer c' !! co = Some i -> isDone l i = false;
  ev_same : cacheGeneration c' = cacheGeneration c /\ chunkSize c' = chunkSize c /\ maxCacheSize c' = maxCacheSize c /\ lastReadEnd c' = lastReadEnd c;
}.
Lemma evict_spec fuel l c : (size (buffer c) < fuel)%nat -> ordered c -> exists c', evict_loop fuel l c = Ok c' /\ evicted l c c'.
Proof.
  revert c. induction fuel as [|fuel IH]; intros c Hf Ho; [lia|]. cbn [evict_loop]. destruct (Z.gtb_spec (Z.of_nat (size (buffer c))) (maxCacheSize c)) as [Hg|Hg].
  2: { exists c. split; [done|]. split; [done|done|done|by left|done]. }
  destruct (firstDone_spec (cacheOrder c) (buffer c) l) as (r & -> & Hr); [intros co Hco; by apply Ho|]. run_bind. destruct r as [co|].
  - destruct Hr as (Hco & i & Ei & Hi). set (c1 := set_buffer (delete co (buffer c)) (removeOnce co (cacheOrder c)) c).
    destruct (IH c1) as (c' & E & [A B C D F]); [|by apply ordered_delete|].
    { simpl. rewrite <- (insert_delete_id (buffer c) co i Ei), map_size_insert_None in Hf by apply lookup_delete_eq. lia. }
    exists c'. split; [done|]. split; [done| | |done|done].
    + etrans; [exact B|]. simpl. apply delete_subseteq.
    + intros co' i' E' Hb. apply C; [|done]. simpl. rewrite lookup_delete_ne; [done|]. intros ->. congruence.
  - exists c. split; [done|]. split; [done|done|done| |done]. right. intros co i E. apply (Hr co); [|done]. apply Ho. eauto.
Qed.

(** ** What a chunk holds

    A chunk at [co] of a file of [sz] bytes [ct]: the first of its bytes, or all of them. *)
Record good (cs : Z) (ct : list Z) (sz co : Z) (k : readChunk) : Prop := Good {
  g_offset : k_offset k = co;
  g_place : 0 <= co < sz;
  g_toRead : k_toRead k = Z.min cs (sz - co);
  g_data : k_phase k <> Waiting -> k_err k = false -> k_data k `prefix_of` sub ct co (co + k_toRead k);
}.
(** The same chunk, let go or not. *)
Definition sameChunk (k k' : readChunk) : Prop :=
  k_offset k' = k_offset k /\ k_toRead k' = k_toRead k /\ (k_after k' = k_after k /\ (k_start k = true -> k_start k' = true)) /\ k_phase k' = k_phase k /\ k_data k' = k_data k /\ k_err k' = k_err k.
Lemma good_same cs ct sz co k k' : sameChunk k k' -> good cs ct sz co k -> good cs ct sz co k'.
Proof. intros (A & B & C & D & F & G) [H1 H2 H3 H4]. split; [congruence|done|congruence|]. rewrite D, G, F, B. done. Qed.
(** What asking for chunks, and looking at them, does to the rest. *)
Record extends (w w' : world) : Prop := Extends {
  ex_file : file w' = file w; ex_content : content w' = content w; ex_uploads : uploads w' = uploads w;
  ex_size : chunkSize (op_cache w') = chunkSize (op_cache w);
  ex_chunks : forall i k, chunks w !! i = Some k -> exists k', chunks w' !! i = Some k' /\ sameChunk k k';
}.
Lemma extends_refl w : extends w w.
Proof. split; try done. intros i k E. exists k. split; done. Qed.
Lemma extends_trans w1 w2 w3 : extends w1 w2 -> extends w2 w3 -> extends w1 w3.
Proof.
  intros [A1 A2 A3 A4 A7] [B1 B2 B3 B4 B7]. split; try congruence. intros i k E. destruct (A7 i k E) as (k2 & E2 & S2). destruct (B7 i k2 E2) as (k3 & E3 & S3).
  exists k3. split; [done|]. unfold sameChunk in *. intuition congruence.
Qed.
Lemma extends_length w w' : extends w w' -> (length (chunks w) <= length (chunks w'))%nat.
Proof.
  intros E. destruct (decide (length (chunks w) <= length (chunks w'))%nat) as [|Hn]; [done|]. exfalso. destruct (lookup_lt_is_Some_2 (chunks w) (length (chunks w')) ltac:(lia)) as [k Ek].
  destruct (ex_chunks _ _ E _ _ Ek) as (k' & Ek' & _). apply lookup_lt_Some in Ek'. lia.
Qed.
Lemma set_cache_extends c w : chunkSize c = chunkSize (op_cache w) -> extends w (set_cache c w).
Proof. intros. split; try done. intros i k E. by exists k. Qed.
(** Nothing a chunk is asked for, or holds, is more than a chunk. *)
Definition sized (cs : Z) (k : readChunk) : Prop := 0 <= k_offset k /\ 0 <= k_toRead k <= cs /\ zlen (k_data k) <= k_toRead k.
Record cacheOk (w : world) : Prop := CacheOk {
  ca_size : 0 < chunkSize (op_cache w) < 2 ^ 32;
  ca_order : ordered (op_cache w);
  ca_chunk : forall co i, buffer (op_cache w) !! co = Some i -> exists k, chunks w !! i = Some k /\ k_offset k = co /\ k_err k = false;
  ca_after : forall i k, chunks w !! i = Some k -> match k_after k with Some j => (j < i)%nat | None => k_start k = true end;
  ca_sized : forall i k, chunks w !! i = Some k -> sized (chunkSize (op_cache w)) k;
}.
(** The chunks of the cache are of the file as it is. *)
Definition fresh (w : world) : Prop :=
  forall co i k, buffer (op_cache w) !! co = Some i -> chunks w !! i = Some k -> good (chunkSize (op_cache w)) (content w) (fsize (file w)) co k.
(** [sz] is the size of the file as it is, and of the object. *)
Definition current (sz : Z) (w : world) : Prop := fsize (file w) = sz /\ sz = zlen (content w).
Lemma current_extends sz w w' : extends w w' -> current sz w -> current sz w'.
Proof. intros [E1 E2 _ _ _]. unfold current. by rewrite E1, E2. Qed.

Lemma ensureChunk_spec co sz after w : cacheOk w -> sz < 2 ^ 62 -> 0 <= co < sz -> (forall j, after = Some j -> (j < length (chunks w))%nat) ->
  exists i w', ensureChunk co sz after w = Ok (i, w') /\ extends w w' /\ cacheOk w' /\ cacheGeneration (op_cache w') = cacheGeneration (op_cache w) /\ (i < length (chunks w'))%nat /\
    (current sz w -> fresh w -> fresh w' /\ exists k, chunks w' !! i = Some k /\ good (chunkSize (op_cache w)) (content w) sz co k).
Proof.
  intros Ok Hb Hco Hafter. pose proof Ok as [H1 H2 H3 H4 H5]. unfold ensureChunk. destruct (buffer (op_cache w) !! co) as [i|] eqn:Ei.
  - eexists i, _. split; [reflexivity|]. set (l := match after with None => alter startNow i (chunks w) | Some _ => chunks w end).
    assert (forall j k, chunks w !! j = Some k -> exists k', l !! j = Some k' /\ sameChunk k k') as Hl.
    { intros j k E. unfold l. destruct after; [by exists k|]. destruct (decide (j = i)) as [->|]; [rewrite list_lookup_alter_eq, E; by eexists|rewrite list_lookup_alter_ne by done; by exists k]. }
    assert (forall j k', l !! j = Some k' -> exists k, chunks w !! j = Some k /\ sameChunk k k') as Hl'.
    { intros j k' E. unfold l in E. destruct after; [by exists k'|]. destruct (decide (j = i)) as [->|]; [|rewrite list_lookup_alter_ne in E by done; by exists k'].
      rewrite list_lookup_alter_eq in E. apply fmap_Some in E as (k & E & ->). by exists k. }
    destruct (H3 co i Ei) as (k & Ek & Hk & He). destruct (Hl i k Ek) as (k' & Ek' & Hs). split_and!.
    + split; done.
    + split; simpl; [done|by apply ordered_touch| | |].
      * intros co' i' E'. destruct (H3 co' i' E') as (x & Ex & Hx & Hx2). destruct (Hl i' x Ex) as (x' & Ex' & S1 & _ & _ & _ & _ & S6). exists x'. split_and!; congruence.
      * intros j x' Ex'. destruct (Hl' j x' Ex') as (x & Ex & _ & _ & [-> S3] & _). specialize (H4 j x Ex). destruct (k_after x); [done|auto].
      * intros j x' Ex'. destruct (Hl' j x' Ex') as (x & Ex & S1 & S2 & _ & _ & S5 & _). unfold sized. rewrite S1, S2, S5. by eapply H5.
    + done.
    + by apply lookup_lt_Some in Ek'.
    + intros [Hsz _] Hfr. split; [|exists k'; split; [done|]; rewrite <- Hsz; eapply good_same; [exact Hs|by eapply Hfr]].
      intros co' i' x'. simpl. intros E' Ex'. destruct (Hl' i' x' Ex') as (x & Ex & Hs'). eapply good_same; [exact Hs'|]. by eapply Hfr.
  - set (i := length (chunks w)). set (k := Chunk _ _ _ _ _ _ _). set (l := chunks w ++ [k]).
    assert (k_toRead k = Z.min (chunkSize (op_cache w)) (sz - co)) as Htr.
    { simpl. unfold u64. rewrite Z.mod_small by lia. destruct (Z.gtb_spec (co + chunkSize (op_cache w)) sz); [rewrite Z.mod_small by lia|]; lia. }
    assert (good (chunkSize (op_cache w)) (content w) sz co k) as Hg by (split; [done|done|done|by intros []]).
    assert (sized (chunkSize (op_cache w)) k) as Hsk by (unfold sized; rewrite Htr; simpl; change (zlen []) with 0; lia).
    assert (l !! i = Some k) as Ei' by (unfold l, i; by rewrite lookup_app_r, Nat.sub_diag by done).
    assert (forall j x, l !! j = Some x -> chunks w !! j = Some x \/ (j = i /\ x = k)) as Hl.
    { intros j x E. unfold l in E. apply lookup_app_Some in E as [E|[Hj E]]; [by left|]. right. apply list_lookup_singleton_Some in E as [E ->]. split; [unfold i; lia|done]. }
    assert (forall j x, chunks w !! j = Some x -> l !! j = Some x) as Hl2 by (intros j x E; unfold l; by apply lookup_app_l_Some).
    destruct (evict_spec (S (size (buffer (set_buffer (<[co := i]> (buffer (op_cache w))) (cacheOrder (op_cache w) ++ [co]) (op_cache w))))) l (set_buffer (<[co := i]> (buffer (op_cache w))) (cacheOrder (op_cache w) ++ [co]) (op_cache w)))
      as (c' & Ec & [E1 E2 E3 E4 (E5 & E6 & E7 & E8)]); [lia| |].
    { by apply ordered_add. }
    unfold evictChunks. rewrite Ec. run_bind. eexists i, _. split; [reflexivity|]. simpl in E2, E3.
    assert (forall co' i', buffer c' !! co' = Some i' -> (co' = co /\ i' = i) \/ buffer (op_cache w) !! co' = Some i') as Hbuf.
    { intros co' i' E'. pose proof (lookup_weaken _ _ _ _ E' E2) as E''. apply lookup_insert_Some in E'' as [[-> ->]|[_ E'']]; [by left|by right]. }
    split_and!.
    + split; simpl; try done. intros j x E. exists x. split; [by apply Hl2|done].
    + split; simpl; [by rewrite E6|done| | |].
      * intros co' i' E'. destruct (Hbuf co' i' E') as [[-> ->]|E'']; [exists k; done|]. destruct (H3 co' i' E'') as (x & Ex & Hx). exists x. split; [by apply Hl2|done].
      * intros j x Ex. destruct (Hl j x Ex) as [E|[-> ->]]; [by apply H4|]. simpl. destruct after; [by apply Hafter|done].
      * intros j x Ex. rewrite E6. destruct (Hl j x Ex) as [E|[-> ->]]; [by eapply H5|done].
    + done.
    + simpl. by apply lookup_lt_Some in Ei'.
    + intros [Hsz _] Hfr. split; [|by exists k]. intros co' i' x. simpl. rewrite E6. intros E' Ex. destruct (Hbuf co' i' E') as [[-> ->]|E''].
      * rewrite Ei' in Ex. injection Ex as <-. by rewrite Hsz.
      * destruct (Hl i' x Ex) as [E|[-> ->]]; [by eapply Hfr|]. destruct (H3 co' _ E'') as (y & Ey & _). apply lookup_lt_Some in Ey. unfold i in Ey. lia.
Qed.

(** ** Putting the pieces together *)
Lemma sub_of_sub {A} (l : list A) a b i j : 0 <= a -> 0 <= i -> i <= j -> j <= b - a -> sub (sub l a b) i j = sub l (a + i) (a + j).
Proof.
  intros. unfold sub. rewrite skipn_firstn_comm, firstn_firstn, skipn_skipn. f_equal; [lia|]. f_equal. lia.
Qed.
Lemma sub_prefix {A} (l k : list A) i j : l `prefix_of` k -> 0 <= i -> i <= j -> j <= zlen l -> sub l i j = sub k i j.
Proof.
  intros [x ->] Hi Hij Hj. unfold sub, zlen in *. rewrite drop_app_le by lia. rewrite take_app_le; [done|]. rewrite length_drop. lia.
Qed.
Lemma chunkSlice_total (data : list Z) cs co offset len : 0 < cs < 2 ^ 32 -> zlen data <= cs -> 0 <= co -> 0 <= offset -> 0 < len -> offset + len < 2 ^ 62 -> co < offset + len ->
  exists r, chunkSlice data co offset len = Ok r /\
    match r with
    | Some d => Z.max offset co < co + zlen data /\ d = sub data (Z.max offset co - co) (Z.min (offset + len) (co + zlen data) - co)
    | None => zlen data <= Z.max offset co - co
    end.
Proof.
  intros Hcs Hd Hc Ho Hl Hb Hco. pose proof (zlen_nonneg data). unfold chunkSlice.
  assert (u64 (co + zlen data) = co + zlen data /\ u64 (offset + len) = offset + len) as [-> ->] by (unfold u64; rewrite !Z.mod_small by lia; done).
  assert ((if offset >? co then offset - co else 0) = Z.max offset co - co) as -> by (destruct (Z.gtb_spec offset co); lia).
  destruct (Z.geb_spec (Z.max offset co - co) (zlen data)); [by exists None; split; [|lia]|].
  assert ((if co + zlen data >? offset + len then u64 (offset + len - co) else zlen data) = Z.min (offset + len) (co + zlen data) - co) as ->.
  { destruct (Z.gtb_spec (co + zlen data) (offset + len)); [unfold u64; rewrite Z.mod_small by lia|]; lia. }
  rewrite slice_Ok by lia. run_bind. eexists. split; [reflexivity|]. split; [lia|done].
Qed.
Section range.
Context (cs : Z) (offset len : Z).
Hypothesis (Hcs : 0 < cs < 2 ^ 32) (Ho : 0 <= offset) (Hl : 0 < len) (Hb : offset + len < 2 ^ 62).
(** [n] chunks from [co] on reach to the end of the range, and no fewer. *)
Definition reaches (co : Z) (n : nat) : Prop := 0 <= co /\ offset < co + cs /\ co + (Z.of_nat n - 1) * cs < offset + len <= co + Z.of_nat n * cs.
Lemma reaches_next co n : reaches co (S (S n)) -> reaches (co + cs) (S n).
Proof using Type*. unfold reaches. intros (A & B & C). rewrite !Nat2Z.inj_succ in *. nia. Qed.
Lemma reaches_inside co n : reaches co (S n) -> co < offset + len.
Proof using Type*. unfold reaches. intros (A & B & C). rewrite Nat2Z.inj_succ in *. nia. Qed.
(** How much of the range is left from the chunk at [co] on. *)
Definition left_ (co : Z) : Z := offset + len - Z.max offset co.

(** Every chunk is there, none larger than a chunk. *)
Definition thereAt (l : list readChunk) (ids : list chunkId) : Prop := forall i, i ∈ ids -> exists k, l !! i = Some k /\ zlen (k_data k) <= cs.
Lemma collect_total l ids co n : length ids = S n -> reaches co (S n) -> thereAt l ids ->
  exists r, collect ids co cs offset len l = Ok r /\ (Forall (fun i => isDone l i = true) ids -> r <> None).
Proof using Type*.
  revert co n. induction ids as [|i ids IH]; intros co n HL R Ht; [done|]. destruct (Ht i ltac:(left)) as (k & Ek & Hz). cbn [collect]. rewrite Ek.
  destruct (bool_decide_reflect (k_phase k = Done)) as [Hd|Hd]; simpl.
  2: { exists None. split; [done|]. intros [Hi _]%Forall_cons. unfold isDone in Hi. rewrite Ek in Hi. by rewrite bool_decide_eq_false_2 in Hi. }
  destruct (k_err k); [by eexists|]. pose proof (reaches_inside co n R) as Hin.
  destruct (chunkSlice_total (k_data k) cs co offset len Hcs Hz ltac:(apply R) Ho Hl Hb Hin) as ([d|] & -> & _); run_bind; [|by eexists].
  destruct n as [|n]; [destruct ids; [|done]; simpl; by eexists|].
  destruct (IH (co + cs) n) as (r & -> & Hdone); [simpl in HL; lia|by apply reaches_next|intros j Hj; apply Ht; by right|]. run_bind. eexists. split; [reflexivity|].
  intros [_ Hf]%Forall_cons. specialize (Hdone Hf). by destruct r as [[]|].
Qed.
Lemma slices_total ks co n : length ks = S n -> reaches co (S n) -> (forall k, k ∈ ks -> zlen (k_data k) <= cs) ->
  exists r, slices (offsets (S n) co cs) ks offset len = Ok r.
Proof using Type*.
  revert co n. induction ks as [|k ks IH]; intros co n HL R Hz; [done|]. cbn [slices offsets]. pose proof (reaches_inside co n R) as Hin.
  destruct (chunkSlice_total (k_data k) cs co offset len Hcs (Hz k ltac:(left)) ltac:(apply R) Ho Hl Hb Hin) as ([d|] & -> & _); run_bind; [|by eexists].
  destruct n as [|n]; [destruct ks; [|done]; simpl; by eexists|].
  destruct (IH (co + cs) n) as (r & ->); [simpl in HL; lia|by apply reaches_next|intros j Hj; apply Hz; by right|]. run_bind. by eexists.
Qed.

Context (ct : list Z).
Hypothesis Hend : offset + len <= zlen ct.
(** What is gathered is short of the range, or the range. *)
Definition partOf (co : Z) (d : list Z) : Prop := zlen d <= left_ co /\ (zlen d = left_ co -> d = sub ct (Z.max offset co) (offset + len)).
Lemma piece_of co n k d : reaches co (S n) -> good cs ct (zlen ct) co k -> k_phase k = Done -> k_err k = false -> chunkSlice (k_data k) co offset len = Ok (Some d) ->
  let e := Z.min (offset + len) (co + cs) in zlen d <= e - Z.max offset co /\ (zlen d = e - Z.max offset co -> d = sub ct (Z.max offset co) e).
Proof using Type*.
  intros R [G1 G2 G3 G4] Hd He Hs. specialize (G4 ltac:(by rewrite Hd) He). pose proof (reaches_inside co n R) as Hin. destruct R as (R1 & R2 & R3). simpl.
  assert (zlen (k_data k) <= k_toRead k) as Hz. { apply prefix_length in G4. pose proof (zlen_sub ct co (co + k_toRead k) ltac:(lia) ltac:(lia) ltac:(lia)). unfold zlen in *. lia. }
  destruct (chunkSlice_total (k_data k) cs co offset len Hcs ltac:(lia) ltac:(lia) Ho Hl Hb Hin) as (r & E & Hr). rewrite Hs in E. injection E as <-. destruct Hr as [Hne ->].
  rewrite (sub_prefix _ _ _ _ G4) by lia. rewrite sub_of_sub by lia.
  replace (co + (Z.max offset co - co)) with (Z.max offset co) by lia. replace (co + (Z.min (offset + len) (co + zlen (k_data k)) - co)) with (Z.min (offset + len) (co + zlen (k_data k))) by lia.
  rewrite zlen_sub by lia. split; [lia|]. intros Hq. f_equal. lia.
Qed.
(** A whole piece and what follows it make up the rest of the range. *)
Lemma pieces_part co n p d : reaches co (S (S n)) ->
  (let e := Z.min (offset + len) (co + cs) in zlen p <= e - Z.max offset co /\ (zlen p = e - Z.max offset co -> p = sub ct (Z.max offset co) e)) ->
  partOf (co + cs) d -> partOf co (p ++ d).
Proof using Type*.
  intros (A & B & C) [P1 P2] [D1 D2]. unfold partOf, left_ in *. rewrite !Nat2Z.inj_succ in *. rewrite zlen_app. rewrite Z.min_r in * by nia. rewrite (Z.max_r offset (co + cs)) in * by nia.
  split; [lia|]. intros Hq. rewrite P2, D2 by lia. by rewrite sub_app by nia.
Qed.
Lemma piece_part co p : reaches co 1 ->
  (let e := Z.min (offset + len) (co + cs) in zlen p <= e - Z.max offset co /\ (zlen p = e - Z.max offset co -> p = sub ct (Z.max offset co) e)) -> partOf co p.
Proof using Type*. intros (A & B & C) [P1 P2]. unfold partOf, left_. rewrite Z.min_l in * by lia. done. Qed.
Lemma left_pos co n : reaches co (S n) -> 0 < left_ co.
Proof using Type*. intros R. pose proof (reaches_inside co n R). unfold left_. lia. Qed.
Lemma nothing_part co n : reaches co (S n) -> partOf co [].
Proof using Type*. intros R. pose proof (left_pos co n R). unfold partOf. change (zlen []) with 0. lia. Qed.

Definition goodAt (l : list readChunk) (co : Z) (ids : list chunkId) : Prop :=
  forall j i, ids !! j = Some i -> exists k, l !! i = Some k /\ good cs ct (zlen ct) (co + Z.of_nat j * cs) k.
Lemma goodAt_cons l co i ids : goodAt l co (i :: ids) <-> (exists k, l !! i = Some k /\ good cs ct (zlen ct) co k) /\ goodAt l (co + cs) ids.
Proof using Type.
  unfold goodAt. split.
  - intros H. split; [destruct (H O i eq_refl) as (k & E & G); exists k; by rewrite Z.add_0_r in G|]. intros j i' E. destruct (H (S j) i' E) as (k & Ek & G). exists k. split; [done|].
    by replace (co + cs + Z.of_nat j * cs) with (co + Z.of_nat (S j) * cs) by lia.
  - intros [(k & Ek & G) H] [|j] i' E; [injection E as <-; exists k; by rewrite Z.add_0_r|]. destruct (H j i' E) as (k' & Ek' & G'). exists k'. split; [done|].
    by replace (co + Z.of_nat (S j) * cs) with (co + cs + Z.of_nat j * cs) by lia.
Qed.
Lemma collect_spec l ids co n d : length ids = S n -> reaches co (S n) -> goodAt l co ids -> collect ids co cs offset len l = Ok (Some (inr d)) -> partOf co d.
Proof using Type*.
  revert co n d. induction ids as [|i ids IH]; intros co n d HL R Hg E; [done|]. apply goodAt_cons in Hg as [(k & Ek & G) Hg]. cbn [collect] in E. rewrite Ek in E.
  destruct (bool_decide_reflect (k_phase k = Done)) as [Hd|Hd]; simpl in E; [|done]. destruct (k_err k) eqn:He; [done|]. apply bind_Ok in E as (p & Hp & E).
  destruct p as [p|]; [|injection E as <-; by eapply nothing_part]. pose proof (piece_of co n k p R G Hd He Hp) as Hpc. apply bind_Ok in E as (r & Hr & E). destruct n as [|n].
  - destruct ids; [|done]. simpl in Hr. injection Hr as <-. injection E as <-. rewrite app_nil_r. by apply piece_part.
  - destruct r as [[b|d']|]; [done| |done]. injection E as <-. eapply pieces_part; [exact R|exact Hpc|]. apply (IH (co + cs) n); [simpl in HL; lia|by apply reaches_next|done|done].
Qed.
(** With every chunk whole, what is gathered is the range. *)
Definition wholeAt (l : list readChunk) (ids : list chunkId) : Prop := forall i k, i ∈ ids -> l !! i = Some k -> zlen (k_data k) = k_toRead k.
Lemma collect_whole l ids co n d : length ids = S n -> reaches co (S n) -> goodAt l co ids -> wholeAt l ids -> collect ids co cs offset len l = Ok (Some (inr d)) -> zlen d = left_ co.
Proof using Type*.
  revert co n d. induction ids as [|i ids IH]; intros co n d HL R Hg Hw E; [done|]. apply goodAt_cons in Hg as [(k & Ek & G) Hg]. specialize (Hw i k ltac:(left) Ek) as Hk. cbn [collect] in E. rewrite Ek in E.
  destruct (bool_decide_reflect (k_phase k = Done)) as [Hd|Hd]; simpl in E; [|done]. destruct (k_err k) eqn:He; [done|]. apply bind_Ok in E as (p & Hp & E). pose proof (reaches_inside co n R) as Hin.
  pose proof G as [G1 G2 G3 _]. rewrite G3 in Hk. destruct (chunkSlice_total (k_data k) cs co offset len Hcs ltac:(lia) ltac:(lia) Ho Hl Hb Hin) as (r & Hr & Hc). rewrite Hp in Hr. injection Hr as <-.
  destruct R as (R1 & R2 & R3). destruct p as [p|]; [|lia]. destruct Hc as [_ ->]. apply bind_Ok in E as (r & Hr & E). destruct n as [|n].
  - destruct ids; [|done]. simpl in Hr. injection Hr as <-. injection E as <-. rewrite app_nil_r, zlen_sub by lia. unfold left_. lia.
  - destruct r as [[b|d']|]; [done| |done]. injection E as <-. rewrite zlen_app, zlen_sub by lia. rewrite (IH (co + cs) n d'); [| |by apply reaches_next|done| |done].
    + unfold left_. rewrite !Nat2Z.inj_succ in *. nia.
    + simpl in HL. lia.
    + intros j x Hj. apply Hw. by right.
Qed.
Lemma slices_spec ks co n d : length ks = S n -> reaches co (S n) ->
  (forall j k, ks !! j = Some k -> good cs ct (zlen ct) (co + Z.of_nat j * cs) k /\ k_phase k = Done /\ k_err k = false) ->
  slices (offsets (S n) co cs) ks offset len = Ok (Some d) -> partOf co d.
Proof using Type*.
  revert co n d. induction ks as [|k ks IH]; intros co n d HL R Hg E; [done|]. cbn [slices offsets] in E. destruct (Hg O k eq_refl) as (G & Hd & He). rewrite Z.add_0_r in G.
  apply bind_Ok in E as (p & Hp & E). destruct p as [p|]; [|done]. pose proof (piece_of co n k p R G Hd He Hp) as Hpc. apply bind_Ok in E as (r & Hr & E). destruct n as [|n].
  - destruct ks; [|done]. simpl in Hr. injection Hr as <-. injection E as <-. rewrite app_nil_r. by apply piece_part.
  - destruct r as [d'|]; [|done]. injection E as <-. eapply pieces_part; [exact R|exact Hpc|]. apply (IH (co + cs) n); [simpl in HL; lia|by apply reaches_next| |done].
    intros j k' E'. destruct (Hg (S j) k' E') as (G' & H'). split; [|done]. by replace (co + cs + Z.of_nat j * cs) with (co + Z.of_nat (S j) * cs) by lia.
Qed.
End range.
(** The chunks of a range. *)
Lemma chunksOf_spec c offset len : 0 < chunkSize c -> 0 <= offset -> 0 < len -> let cs := chunkSize c in
  exists n, chunksOf c offset len = offsets (S n) (offset / cs * cs) cs /\ reaches cs offset len (offset / cs * cs) (S n) /\ offset / cs * cs <= offset.
Proof.
  intros Hcs Ho Hl cs. fold cs in Hcs. unfold chunksOf. fold cs. pose proof (Z.div_mod offset cs ltac:(lia)) as D1. pose proof (Z.mod_pos_bound offset cs ltac:(lia)) as D2.
  pose proof (Z.div_mod (offset + len - 1) cs ltac:(lia)) as D3. pose proof (Z.mod_pos_bound (offset + len - 1) cs ltac:(lia)) as D4. pose proof (Z.div_pos offset cs ltac:(lia) ltac:(lia)).
  pose proof (Z.div_le_mono offset (offset + len - 1) cs ltac:(lia) ltac:(lia)) as D5.
  replace ((offset + len - 1) / cs * cs - offset / cs * cs) with (((offset + len - 1) / cs - offset / cs) * cs) by lia. rewrite Z.div_mul by lia.
  set (q := offset / cs) in *. set (p := (offset + len - 1) / cs) in *. exists (Z.to_nat (p - q)). split; [f_equal; lia|]. unfold reaches. rewrite Nat2Z.inj_succ, Z2Nat.id by lia. nia.
Qed.

(** ** What the sections do *)
Lemma prefetch_spec cos sz w : cacheOk w -> sz < 2 ^ 62 -> Forall (fun co => 0 <= co < sz) cos ->
  exists w', prefetch cos sz w = Ok w' /\ extends w w' /\ cacheOk w' /\ cacheGeneration (op_cache w') = cacheGeneration (op_cache w) /\ (current sz w -> fresh w -> fresh w').
Proof.
  intros Ok Hb. revert w Ok. induction cos as [|co cos IH]; intros w Ok H; [exists w; split_and!; try done; apply extends_refl|]. apply Forall_cons in H as [Hco H]. cbn [prefetch].
  destruct (ensureChunk_spec co sz (buffer (op_cache w) !! u64 (co - chunkSize (op_cache w))) w Ok Hb Hco) as (i & w1 & -> & X & Ok1 & G1 & _ & F1).
  { intros j Ej. destruct (ca_chunk _ Ok _ _ Ej) as (k & Ek & _). by apply lookup_lt_Some in Ek. }
  run_bind. simpl. destruct (IH w1 Ok1 H) as (w' & E & X' & Ok' & G' & F'). exists w'. split_and!; [done|by eapply extends_trans|done|congruence|].
  intros C F. apply F'; [by eapply current_extends|]. by apply F1.
Qed.
Lemma ensureAll_spec n co sz w : cacheOk w -> sz < 2 ^ 62 -> 0 <= co -> (n = O \/ co + (Z.of_nat n - 1) * chunkSize (op_cache w) < sz) ->
  exists ids w', ensureAll (offsets n co (chunkSize (op_cache w))) sz w = Ok (ids, w') /\ extends w w' /\ cacheOk w' /\ cacheGeneration (op_cache w') = cacheGeneration (op_cache w) /\
    length ids = n /\ (forall i, i ∈ ids -> (i < length (chunks w'))%nat) /\ (current sz w -> fresh w -> fresh w' /\ goodAt (chunkSize (op_cache w)) (content w) (chunks w') co ids).
Proof.
  intros Ok Hb. revert co w Ok. induction n as [|n IH]; intros co w Ok Hco Hn.
  { exists [], w. split_and!; try done; [apply extends_refl|intros i Hi; by apply elem_of_nil in Hi]. }
  destruct Hn as [|Hn]; [done|]. rewrite Nat2Z.inj_succ in Hn.
  pose proof (ca_size _ Ok) as Hcs. cbn [offsets ensureAll]. destruct (ensureChunk_spec co sz None w Ok Hb) as (i & w1 & -> & X & Ok1 & G1 & L1 & F1); [nia|done|]. run_bind. simpl.
  pose proof X as [X1 X2 X3 X4 X7]. destruct (IH (co + chunkSize (op_cache w)) w1 Ok1) as (ids & w2 & E & Y & Ok2 & G2 & L & I2 & F2); [lia|rewrite X4; destruct n; [by left|right; rewrite Nat2Z.inj_succ in *; nia]|].
  rewrite X4 in E. rewrite E. run_bind. simpl. pose proof (extends_length _ _ Y). eexists _, _. split; [reflexivity|]. split_and!; [by eapply extends_trans|done|congruence|simpl; by rewrite L| |].
  - intros j [->|Hj]%elem_of_cons; [lia|auto].
  - intros C F. destruct (F1 C F) as (F1' & k & Ek & G). destruct (F2 (current_extends _ _ _ X C) F1') as (F2' & Gs). split; [done|]. rewrite X2, X4 in Gs. apply goodAt_cons. split; [|done].
    destruct (ex_chunks _ _ Y i k Ek) as (k' & Ek' & S'). exists k'. split; [done|]. rewrite <- (proj2 C). by eapply good_same.
Qed.
Lemma prefetchOf_range c last_ sz : 0 < chunkSize c -> 0 <= last_ -> Forall (fun co => 0 <= co < sz) (prefetchOf c last_ sz).
Proof.
  intros Hc Hl. apply List.Forall_forall. intros co Hin. unfold prefetchOf in Hin. apply filter_In in Hin as [Hin Hb]. apply andb_prop in Hb as [Hb _]. apply Z.ltb_lt in Hb. split; [|done].
  simpl in Hin. destruct Hin as [<-|[<-|[<-|[]]]]; lia.
Qed.
Lemma length_offsets n z s : length (offsets n z s) = n.
Proof. revert z. induction n as [|n IH]; intros z; [done|]. cbn [offsets length]. by rewrite IH. Qed.
Lemma offsets_lookup n z s j x : offsets n z s !! j = Some x -> x = z + Z.of_nat j * s.
Proof.
  revert z j. induction n as [|n IH]; intros z j E; [done|]. destruct j as [|j]; [injection E as <-; lia|]. rewrite (IH _ _ E). lia.
Qed.
Lemma gather_spec cos l c : ordered c -> let '(c', r) := gather cos l c in
  ordered c' /\ buffer c' = buffer c /\ cacheGeneration c' = cacheGeneration c /\ chunkSize c' = chunkSize c /\
  forall ks, r = Some ks -> length ks = length cos /\ forall j k, ks !! j = Some k -> k_phase k = Done /\ k_err k = false /\ exists co i, cos !! j = Some co /\ buffer c !! co = Some i /\ l !! i = Some k.
Proof.
  revert c. induction cos as [|co cos IH]; intros c O; simpl; [split_and!; try done; intros ks [= <-]; split; done|].
  destruct (buffer c !! co) as [i|] eqn:Eb; simpl; [|by split_and!]. destruct (l !! i) as [k|] eqn:Ek; [|by split_and!].
  destruct (bool_decide_reflect (k_phase k = Done)) as [Hd|]; simpl; [|by split_and!]. destruct (k_err k) eqn:He; simpl; [by split_and!|].
  specialize (IH _ (ordered_touch co c O)). destruct (gather cos l _) as [c' r]. simpl in IH. destruct IH as (A1 & A2 & A3 & A4 & A6). split_and!; try done.
  intros ks Hks. destruct r as [ks'|]; [|done]. injection Hks as <-. destruct (A6 ks' eq_refl) as [L H]. split; [simpl; by rewrite L|].
  intros [|j] x Ex; [injection Ex as <-; split_and!; try done; by exists co, i|]. destruct (H j x Ex) as (B1 & B2 & co' & i' & B3). split_and!; try done. by exists co', i'.
Qed.
(** A cache with the same chunks in another order. *)
Lemma reorder_ok c w : cacheOk w -> ordered c -> buffer c = buffer (op_cache w) -> chunkSize c = chunkSize (op_cache w) -> cacheOk (set_cache c w).
Proof. intros [A1 A2 A3 A4 A5] O B S_. split; simpl; [by rewrite S_|done|by rewrite B|done|by rewrite S_]. Qed.
(** A cache of another generation is emptied. *)
Lemma drop_spec generation w : cacheOk w -> let w' := read_drop generation w in
  extends w w' /\ cacheOk w' /\ cacheGeneration (op_cache w') = generation /\
  (cacheGeneration (op_cache w) <> generation -> buffer (op_cache w') = ∅) /\ (cacheGeneration (op_cache w) = generation -> op_cache w' = op_cache w).
Proof.
  intros Ok. simpl. unfold read_drop, dropCacheOfOlderGeneration. destruct (Z.eqb_spec (cacheGeneration (op_cache w)) generation) as [E|E].
  - split_and!; [by apply set_cache_extends|by destruct w|done|done|done].
  - set (c := set_generation _ _). assert (buffer c = ∅ /\ ordered c /\ cacheGeneration c = generation /\ chunkSize c = chunkSize (op_cache w)) as (B & O & G & S_).
    { unfold c, invalidateReadCache. destruct (bool_decide_reflect (buffer (op_cache w) = ∅)) as [Hb|Hb]; simpl; split_and!; try done.
      - destruct (ca_order _ Ok) as [X Y]. split; [exact X|exact Y].
      - split; simpl; [constructor|]. intros co. rewrite elem_of_nil, lookup_empty. split; [done|intros []; done]. }
    clearbody c. split_and!; [by apply set_cache_extends| |done|done|done].
    destruct Ok as [A1 A2 A3 A4 A5]. split; simpl; [by rewrite S_|done| |done|by rewrite S_]. intros co i X. by rewrite B, lookup_empty in X.
Qed.
Lemma empty_fresh w : buffer (op_cache w) = ∅ -> fresh w.
Proof. intros B co i k X. by rewrite B, lookup_empty in X. Qed.
Lemma clamp_length offset len sz : 0 <= offset < sz -> 0 <= len < 2 ^ 62 -> sz < 2 ^ 62 ->
  let len' := if u64 (offset + len) >=? sz then sz - offset else len in offset + len' = Z.min (offset + len) sz /\ 0 <= len'.
Proof. intros Ho Hl Hb. unfold u64. rewrite Z.mod_small by lia. destruct (Z.geb_spec (offset + len) sz); lia. Qed.

(** The section of [tryReadCached]: what it answers with, on a file that is as it was sampled. *)
Lemma try_cache_ok sz generation offset len w : cacheOk w -> sz < 2 ^ 62 -> 0 <= offset -> 0 <= len < 2 ^ 62 ->
  exists r ahead w', try_cache sz generation offset len w = Ok (r, ahead, w') /\ extends w w' /\ cacheOk w' /\ cacheGeneration (op_cache w') = generation /\
    Forall (fun co => 0 <= co < sz) ahead /\ (cacheGeneration (op_cache w) <> generation -> buffer (op_cache w') = ∅) /\
    (cacheGeneration (op_cache w) = generation -> buffer (op_cache w') = buffer (op_cache w)) /\
    (current sz w -> (cacheGeneration (op_cache w) = generation -> fresh w) -> forall data, r = Some data -> data = sub (content w) offset (Z.min (offset + len) sz)).
Proof.
  intros HOk Hb Ho Hl. destruct (drop_spec generation w HOk) as (X1 & Ok1 & G1 & B1 & D1). unfold try_cache. unfold read_drop in *. set (c := dropCacheOfOlderGeneration generation (op_cache w)) in *. clearbody c. simpl in *.
  assert (forall r, r = None \/ r = Some [] /\ offset + 0 = Z.min (offset + len) sz -> exists r' ahead w', (Ok (r, [], set_cache c w) : out (option (list Z) * list Z * world)) = Ok (r', ahead, w') /\ extends w w' /\ cacheOk w' /\ cacheGeneration (op_cache w') = generation /\
    Forall (fun co => 0 <= co < sz) ahead /\ (cacheGeneration (op_cache w) <> generation -> buffer (op_cache w') = ∅) /\ (cacheGeneration (op_cache w) = generation -> buffer (op_cache w') = buffer (op_cache w)) /\
    (current sz w -> (cacheGeneration (op_cache w) = generation -> fresh w) -> forall data, r' = Some data -> data = sub (content w) offset (Z.min (offset + len) sz))) as Quick.
  { intros r Hr. eexists _, _, _. split; [reflexivity|]. split_and!; [done|done|done|constructor|exact B1|simpl; intros E; by rewrite D1|].
    intros _ _ data ->. destruct Hr as [|[[= ->] <-]]; [done|]. by rewrite Z.add_0_r, sub_empty. }
  destruct (Z.geb_spec offset sz) as [Hge|Hlt]; [apply Quick; by left|].
  pose proof (clamp_length offset len sz ltac:(lia) Hl Hb) as [Hlen Hlen0]. set (len' := if u64 _ >=? _ then _ else _) in *. clearbody len'.
  destruct (Z.eqb_spec len' 0) as [->|Hne]; [apply Quick; by right|]. clear Quick.
  pose proof (ca_size _ Ok1) as Hcs. simpl in Hcs. assert (0 < len') as Hlp by lia. assert (offset + len' < 2 ^ 62) as Hb' by lia.
  destruct (chunksOf_spec c offset len' ltac:(lia) Ho Hlp) as (n & Hof & Hre & Hfirst).
  pose proof (gather_spec (chunksOf c offset len') (chunks w) c (ca_order _ Ok1)) as Hga. destruct (gather (chunksOf c offset len') (chunks w) c) as [c1 found]. destruct Hga as (O1 & B2 & G2 & S1 & F1).
  assert (forall c2, ordered c2 -> buffer c2 = buffer c1 -> cacheGeneration c2 = cacheGeneration c1 -> chunkSize c2 = chunkSize c1 -> forall r ahead, Forall (fun co => 0 <= co < sz) ahead ->
    (forall data, r = Some data -> current sz w -> (cacheGeneration (op_cache w) = generation -> fresh w) -> data = sub (content w) offset (Z.min (offset + len) sz)) ->
    exists r' ahead' w', (Ok (r, ahead, set_cache c2 w) : out (option (list Z) * list Z * world)) = Ok (r', ahead', w') /\ extends w w' /\ cacheOk w' /\ cacheGeneration (op_cache w') = generation /\
    Forall (fun co => 0 <= co < sz) ahead' /\ (cacheGeneration (op_cache w) <> generation -> buffer (op_cache w') = ∅) /\ (cacheGeneration (op_cache w) = generation -> buffer (op_cache w') = buffer (op_cache w)) /\
    (current sz w -> (cacheGeneration (op_cache w) = generation -> fresh w) -> forall data, r' = Some data -> data = sub (content w) offset (Z.min (offset + len) sz))) as Fin.
  { intros c2 O C1 C2 C3 r ahead Ha Hr. eexists _, _, _. split; [reflexivity|]. split_and!; [|apply (reorder_ok c2 (set_cache c w)); [done|done|simpl; congruence|simpl; congruence]|simpl; congruence|done| | |auto].
    - apply set_cache_extends. rewrite C3, S1. exact (ex_size _ _ X1).
    - simpl. intros E. rewrite C1, B2. auto.
    - simpl. intros E. rewrite C1, B2. by rewrite D1. }
  destruct found as [ks|]; [|by apply (Fin c1)].
  destruct (F1 ks eq_refl) as [Lks Hks]. assert (ordered (set_lastEnd (offset + len') c1)) as O2 by (destruct O1; by split).
  change (chunksOf (set_lastEnd (offset + len') c1) offset len') with (chunksOf c1 offset len'). replace (chunksOf c1 offset len') with (chunksOf c offset len') by (unfold chunksOf; by rewrite S1).
  rewrite Hof in Lks, Hks |- *. rewrite length_offsets in Lks.
  destruct (slices_total (chunkSize c) offset len' Hcs Ho Hlp Hb' ks (offset / chunkSize c * chunkSize c) n Lks Hre) as (r & Hr).
  { intros k [j Hj]%list_elem_of_lookup. destruct (Hks j k Hj) as (_ & _ & co & i & _ & _ & El). destruct (ca_sized _ Ok1 i k El) as (_ & [_ Q1] & Q2). simpl in Q1. lia. }
  rewrite Hr. run_bind. destruct r as [data|]; [|by apply (Fin (set_lastEnd (offset + len') c1))].
  destruct (Z.eqb_spec (zlen data) len') as [Hz|Hz]; simpl; [|by apply (Fin (set_lastEnd (offset + len') c1))].
  apply (Fin (set_lastEnd (offset + len') c1)); try done.
  - case_match; [|constructor]. apply prefetchOf_range; simpl; [rewrite S1; lia|]. apply Z.mul_nonneg_nonneg; [apply Z.div_pos|]; rewrite ?S1; lia.
  - intros d [= <-] [Hsz Hct] Hfr. rewrite <- Hlen.
    assert (fresh (set_cache c w)) as Fc.
    { destruct (decide (cacheGeneration (op_cache w) = generation)) as [E|E]; [rewrite (D1 E)|apply empty_fresh; auto]. destruct w as [fl ct ups cc chs]. simpl in *. apply Hfr. done. }
    destruct (slices_spec (chunkSize c) offset len' Hcs Ho Hlp Hb' (content w) ltac:(lia) ks (offset / chunkSize c * chunkSize c) n data Lks Hre) as [_ Heq]; [|done|].
    + intros j k Ek. destruct (Hks j k Ek) as (Hd & He & co & i & Eco & Ei & El). split; [|done]. rewrite <- Hct, <- Hsz. rewrite <- (offsets_lookup _ _ _ _ _ Eco). by eapply Fc.
    + unfold left_ in Heq. rewrite Z.max_l in Heq by done. apply Heq. lia.
Qed.
(** The chunks of a range asked for. *)
Lemma read_ensure_ok sz generation offset len w : cacheOk w -> 0 <= offset -> 0 < len -> offset + len <= sz -> sz < 2 ^ 62 ->
  exists ids w', let first := offset / chunkSize (op_cache w) * chunkSize (op_cache w) in
    read_ensure generation sz offset len w = Ok (Pending generation offset len first ids, w') /\ extends w w' /\ cacheOk w' /\
    cacheGeneration (op_cache w') = cacheGeneration (op_cache w) /\ (forall i, i ∈ ids -> (i < length (chunks w'))%nat) /\
    (exists n, length ids = S n /\ reaches (chunkSize (op_cache w)) offset len first (S n)) /\ first <= offset /\
    (current sz w -> fresh w -> fresh w' /\ goodAt (chunkSize (op_cache w)) (content w) (chunks w') first ids).
Proof.
  intros Ok Ho Hl Hend Hb. unfold read_ensure. pose proof (ca_size _ Ok) as Hcs. destruct (chunksOf_spec (op_cache w) offset len ltac:(lia) Ho Hl) as (n & -> & Hre & Hfirst).
  set (first := offset / chunkSize (op_cache w) * chunkSize (op_cache w)) in *. pose proof Hre as (Hr1 & Hr2 & Hr3).
  destruct (ensureAll_spec (S n) first sz w Ok Hb) as (ids & w2 & E & X & Ok2 & G2 & L & Hin & F2); [done|right; lia|]. rewrite E. run_bind. cbn [fst snd].
  pose proof X as [X1 X2 X3 X4 X7]. exists ids. eexists. simpl. rewrite X4. split; [reflexivity|]. split_and!; try done.
  - apply reorder_ok; [done|destruct (ca_order _ Ok2); by split|done|done].
  - by exists n.
Qed.


(** ** The system

    Reads on the open are under way, each between two of its sections, or wait for their
    chunks; downloads land and are closed; an upload starts, moves on, is completed, which
    puts the new object in the place of the old one, or comes to nothing; the file is
    emptied.  The upload table is the writers' business. *)
Definition set_object (fs : fileState) (ct : list Z) (w : world) : world := World fs ct (uploads w) (op_cache w) (chunks w).
(** Where a read or a try of the cache is: it has the size, the generation, has emptied the
    cache of an older one, has seen that no upload runs, is about to read ahead. *)
Inductive stage :=
  | ReadSized (sz offset len : Z) | ReadSampled (sz generation offset len : Z) | ReadDropped (sz generation offset len : Z) | ReadAsks (sz generation offset len : Z)
  | TrySized (sz offset len : Z) | TryLooked (sz offset len : Z) | TrySampled (sz generation offset len : Z) | TryAhead (sz : Z) (ahead : list Z).
(** [ctxDone]: the context of the server is over, which starts every download that waits. *)
Inductive download (ctxDone : bool) : world -> world -> Prop :=
  | dl_fetch got i k w : chunks w !! i = Some k -> mayFetch ctxDone (chunks w) k = true -> download ctxDone w (fetch got i w)
  | dl_close i k w : chunks w !! i = Some k -> k_phase k = Landed -> download ctxDone w (closeDone i w).
(** What changes the object, or what may be read of it. *)
Inductive file_step : world -> world -> Prop :=
  | fs_start u fs w : FileState.startUpload u (file w) = (fs, true) -> generation (file w) + 1 < 2 ^ 64 -> file_step w (set_object fs (content w) w)
  | fs_finish now u ct w : upload (file w) = Some u -> zlen ct < 2 ^ 62 -> file_step w (set_object (finishUpload now u (zlen ct) (file w)) ct w)
  | fs_drop u w : upload (file w) = Some u -> generation (file w) + 1 < 2 ^ 64 -> file_step w (set_object (dropUpload u (file w)) (content w) w)
  | fs_empty now w : upload (file w) = None -> generation (file w) + 1 < 2 ^ 64 -> file_step w (set_object (FileState.empty now (file w)) [] w).
(** What a file may do that its content has no part in: its times, its attributes, its handles and, while it is written, its size. *)
Definition sameObject (fs fs' : fileState) : Prop :=
  upload fs' = upload fs /\ generation fs' = generation fs /\ sizeBefore fs' = sizeBefore fs /\ (upload fs = None -> fsize fs' = fsize fs) /\ 0 <= fsize fs' < 2 ^ 62.
Definition system : Type := world * list pending * list stage.
(** One section of one read at a time.  In a [calm] run the object stays as it is while a read is
    between its first look at the file and the asking for its chunks; in any other it need not. *)
Inductive read_step (calm : bool) : system -> system -> Prop :=
  | rs_read offset len w ps ss : 0 <= offset -> 0 <= len < 2 ^ 32 -> read_step calm (w, ps, ss) (w, ps, ReadSized (sizeNow (file w)) offset len :: ss)
  | rs_read_generation i sz offset len w ps ss : ss !! i = Some (ReadSized sz offset len) ->
      read_step calm (w, ps, ss) (w, ps, ReadSampled sz (generationNow (file w)) offset len :: delete i ss)
  | rs_read_drop i sz g offset len w ps ss : ss !! i = Some (ReadSampled sz g offset len) ->
      read_step calm (w, ps, ss) (read_drop g w, ps, ReadDropped sz g offset len :: delete i ss)
  | rs_read_look i acc b sz g offset len w ps ss : ss !! i = Some (ReadDropped sz g offset len) -> read_look acc sz offset len w = Ok b ->
      read_step calm (w, ps, ss) (w, ps, match b with Asks len => [ReadAsks sz g offset len] | _ => [] end ++ delete i ss)
  | rs_read_ensure i p sz g offset len w w' ps ss : ss !! i = Some (ReadAsks sz g offset len) -> read_ensure g sz offset len w = Ok (p, w') ->
      read_step calm (w, ps, ss) (w', p :: ps, delete i ss)
  | rs_read_end i p r w ps ss : ps !! i = Some p -> read_end p w = Ok (Some r) -> read_step calm (w, ps, ss) (w, delete i ps, ss)
  | rs_try offset len w ps ss : 0 <= offset -> 0 <= len < 2 ^ 32 -> read_step calm (w, ps, ss) (w, ps, TrySized (sizeNow (file w)) offset len :: ss)
  | rs_try_look i sz offset len w ps ss : ss !! i = Some (TrySized sz offset len) ->
      read_step calm (w, ps, ss) (w, ps, match uploadNow (file w) with None => [TryLooked sz offset len] | Some _ => [] end ++ delete i ss)
  | rs_try_generation i sz offset len w ps ss : ss !! i = Some (TryLooked sz offset len) ->
      read_step calm (w, ps, ss) (w, ps, TrySampled sz (generationNow (file w)) offset len :: delete i ss)
  | rs_try_cache i r ahead sz g offset len w w' ps ss : ss !! i = Some (TrySampled sz g offset len) -> try_cache sz g offset len w = Ok (r, ahead, w') ->
      read_step calm (w, ps, ss) (w', ps, match r with Some _ => [TryAhead sz ahead] | None => [] end ++ delete i ss)
  | rs_try_ahead i (acc : bool) sz ahead w w' ps ss : ss !! i = Some (TryAhead sz ahead) -> (if acc then prefetch ahead sz w else mret w) = Ok w' ->
      read_step calm (w, ps, ss) (w', ps, delete i ss)
  | rs_download ctxDone w w' ps ss : download ctxDone w w' -> read_step calm (w, ps, ss) (w', ps, ss)
  | rs_file w w' ps ss : file_step w w' -> (calm = true -> ss = []) -> read_step calm (w, ps, ss) (w', ps, ss)
  | rs_same fs w ps ss : sameObject (file w) fs -> read_step calm (w, ps, ss) (set_file fs w, ps, ss)
  | rs_uploads us w ps ss : read_step calm (w, ps, ss) (World (file w) (content w) us (op_cache w) (chunks w), ps, ss).
(** An open on a file no one writes, its cache empty. *)
Record opened (w : world) : Prop := Opened {
  op_upload : upload (file w) = None;
  op_content : fsize (file w) = zlen (content w) /\ zlen (content w) < 2 ^ 62;
  op_generation : 0 <= cacheGeneration (op_cache w) /\ cacheGeneration (op_cache w) <= generation (file w) < 2 ^ 64;
  op_chunkSize : 0 < chunkSize (op_cache w) < 2 ^ 32;
  op_nothing : buffer (op_cache w) = ∅ /\ cacheOrder (op_cache w) = [] /\ chunks w = [];
}.
Definition read_reachable (calm : bool) (s : system) : Prop := exists w, opened w /\ rtc (read_step calm) (w, [], []) s.

(** ** What holds of it *)
Definition sizesOk (w : world) : Prop :=
  match upload (file w) with None => fsize (file w) = zlen (content w) | Some _ => sizeBefore (file w) = zlen (content w) end /\ zlen (content w) < 2 ^ 62 /\ 0 <= fsize (file w) < 2 ^ 62.
Record pendOk (w : world) (p : pending) : Prop := PendOk {
  po_ids : forall i, i ∈ p_chunks p -> (i < length (chunks w))%nat;
  po_range : 0 <= p_offset p /\ 0 < p_length p /\ p_offset p + p_length p < 2 ^ 62;
  po_chunks : exists n, length (p_chunks p) = S n /\ reaches (chunkSize (op_cache w)) (p_offset p) (p_length p) (p_first p) (S n);
  po_first : p_first p <= p_offset p;
}.
Definition pendGood (w : world) (p : pending) : Prop :=
  p_offset p + p_length p <= zlen (content w) /\ goodAt (chunkSize (op_cache w)) (content w) (chunks w) (p_first p) (p_chunks p).
Definition stageOk (st : stage) : Prop :=
  match st with
  | ReadSized sz offset len | ReadSampled sz _ offset len | ReadDropped sz _ offset len | TrySized sz offset len | TryLooked sz offset len | TrySampled sz _ offset len =>
      sz < 2 ^ 62 /\ 0 <= offset /\ 0 <= len < 2 ^ 32
  | ReadAsks sz _ offset len => sz < 2 ^ 62 /\ 0 <= offset /\ 0 < len /\ offset + len <= sz
  | TryAhead sz ahead => sz < 2 ^ 62 /\ Forall (fun co => 0 <= co < sz) ahead
  end.
(** What a read knows of the file is so, while the object stays as it is. *)
Definition stageCalm (w : world) (st : stage) : Prop :=
  let unwritten := upload (file w) = None in
  let cached := cacheGeneration (op_cache w) = generation (file w) in
  match st with
  | ReadSized sz _ _ | TrySized sz _ _ => unwritten -> sz = fsize (file w)
  | ReadSampled sz g _ _ => g = generation (file w) /\ (unwritten -> sz = fsize (file w))
  | ReadDropped sz g _ _ => g = generation (file w) /\ cached /\ (unwritten -> sz = fsize (file w))
  | ReadAsks sz g _ _ => g = generation (file w) /\ cached /\ unwritten /\ sz = fsize (file w)
  | TryLooked sz _ _ => unwritten /\ sz = fsize (file w)
  | TrySampled sz g _ _ => g = generation (file w) /\ unwritten /\ sz = fsize (file w)
  | TryAhead sz _ => cached /\ unwritten /\ sz = fsize (file w)
  end.
Record calmly (w : world) (ps : list pending) (ss : list stage) : Prop := Calmly {
  cl_gen : cacheGeneration (op_cache w) <= generation (file w) /\ 0 <= generation (file w) < 2 ^ 64;
  cl_fresh : cacheGeneration (op_cache w) = generation (file w) -> match upload (file w) with None => fresh w | Some _ => buffer (op_cache w) = ∅ end;
  cl_pend : forall p, p ∈ ps -> p_generation p <= generation (file w) /\ (p_generation p = generation (file w) -> upload (file w) = None /\ pendGood w p);
  cl_stage : forall st, st ∈ ss -> stageCalm w st;
}.
Record inv (calm : bool) (w : world) (ps : list pending) (ss : list stage) : Prop := Inv {
  in_ok : cacheOk w;
  in_size : sizesOk w;
  in_pend : forall p, p ∈ ps -> pendOk w p;
  in_stage : forall st, st ∈ ss -> stageOk st;
  in_calm : calm = true -> calmly w ps ss;
}.
Lemma inv_current calm w ps ss : inv calm w ps ss -> upload (file w) = None -> current (fsize (file w)) w.
Proof. intros I Hu. destruct (in_size _ _ _ _ I) as [Hs _]. rewrite Hu in Hs. by split. Qed.
Lemma elem_of_delete_list {A} (l : list A) i x : x ∈ delete i l -> x ∈ l.
Proof. intros H. eapply elem_of_submseteq; [exact H|]. apply sublist_submseteq, sublist_delete. Qed.
(** Reads come and go. *)
Lemma inv_reads calm w ps ss ps' ss' : inv calm w ps ss ->
  (forall p, p ∈ ps' -> p ∈ ps \/ pendOk w p /\ (calm = true -> p_generation p = generation (file w) /\ upload (file w) = None /\ pendGood w p)) ->
  (forall st, st ∈ ss' -> st ∈ ss \/ stageOk st /\ (calm = true -> stageCalm w st)) -> inv calm w ps' ss'.
Proof.
  intros [H1 H2 H3 H4 H5] Hp Hs. split; [done|done| | |].
  - intros p [?|[]]%Hp; auto.
  - intros st [?|[]]%Hs; auto.
  - intros Hc. specialize (H5 Hc) as [A1 A2 A3 A4]. split; [done|done| |].
    + intros p [?|[_ X]]%Hp; [auto|]. specialize (X Hc) as (-> & X). split; [lia|done].
    + intros st [?|[_ X]]%Hs; auto.
Qed.
Lemma inv_stages calm w ps ss ss' : inv calm w ps ss -> (forall st, st ∈ ss' -> st ∈ ss \/ stageOk st /\ (calm = true -> stageCalm w st)) -> inv calm w ps ss'.
Proof. intros I. apply (inv_reads calm w ps ss); [done|by left]. Qed.
(** A change of the cache that leaves it on its generation, or brings it to the one of the file. *)
Lemma extends_pendOk w w' p : extends w w' -> pendOk w p -> pendOk w' p.
Proof.
  intros E [H1 H2 H3 H4]. pose proof (extends_length _ _ E). destruct E as [E1 E2 E3 E4 E7]. split; rewrite ?E4; try done. intros i Hi. specialize (H1 i Hi). lia.
Qed.
Lemma extends_pendGood w w' p : extends w w' -> pendGood w p -> pendGood w' p.
Proof.
  intros [E1 E2 E3 E4 E7] [G1 G2]. split; rewrite ?E2, ?E4; [done|]. intros j i Ei. destruct (G2 j i Ei) as (k & Ek & G). destruct (E7 i k Ek) as (k' & Ek' & S'). exists k'. split; [done|]. by eapply good_same.
Qed.
Lemma extends_inv calm w w' ps ss : inv calm w ps ss -> extends w w' -> cacheOk w' ->
  (calm = true -> (cacheGeneration (op_cache w') = cacheGeneration (op_cache w) \/ cacheGeneration (op_cache w') = generation (file w)) /\
    (cacheGeneration (op_cache w') = generation (file w) -> match upload (file w) with None => fresh w' | Some _ => buffer (op_cache w') = ∅ end)) -> inv calm w' ps ss.
Proof.
  intros [H1 H2 H3 H4 H5] E Ok Hf. pose proof E as [E1 E2 E3 E4 E7]. split; [done|unfold sizesOk; by rewrite E1, E2|intros p Hp; by eapply extends_pendOk, H3|done|].
  intros Hc. specialize (Hf Hc) as [Hg Hf]. specialize (H5 Hc) as [A1 A2 A3 A4]. split.
  - rewrite E1. destruct Hg as [->| ->]; [done|lia].
  - by rewrite E1.
  - intros p Hp. rewrite E1. destruct (A3 p Hp) as [B1 B2]. split; [done|]. intros X. destruct (B2 X) as [B3 B4]. split; [done|]. by eapply extends_pendGood.
  - intros st Hst. specialize (A4 st Hst). assert (cacheGeneration (op_cache w) = generation (file w) -> cacheGeneration (op_cache w') = generation (file w')) as G.
    { rewrite E1. intros X. destruct Hg as [Y|Y]; congruence. }
    destruct st; simpl in *; rewrite ?E1 in *; intuition congruence.
Qed.
Lemma fresh_extends w w' : extends w w' -> cacheOk w -> buffer (op_cache w') = buffer (op_cache w) -> fresh w -> fresh w'.
Proof.
  intros [E1 E2 E3 E4 E7] Ok B F co i k'. rewrite B, E1, E2, E4. intros Eb Ek'. destruct (ca_chunk _ Ok co i Eb) as (k & Ek & _). destruct (E7 i k Ek) as (k2 & Ek2 & S'). rewrite Ek' in Ek2. injection Ek2 as <-.
  eapply good_same; [exact S'|]. by eapply F.
Qed.

(** ** Reads keep it *)
Lemma drop_inv calm sz offset len g w ps ss : inv calm w ps ss -> (calm = true -> stageCalm w (ReadSampled sz g offset len)) -> inv calm (read_drop g w) ps ss /\ cacheGeneration (op_cache (read_drop g w)) = g.
Proof.
  intros I Hs. destruct (drop_spec g w (in_ok _ _ _ _ I)) as (X & Ok & G & B & D). split; [|done]. eapply extends_inv; [done|done|done|]. intros Hc. specialize (Hs Hc) as [-> Hs]. destruct (in_calm _ _ _ _ I Hc) as [A1 A2 A3 A4].
  split; [by right|]. intros _. destruct (decide (cacheGeneration (op_cache w) = generation (file w))) as [E|E].
  - specialize (A2 E). destruct (upload (file w)); [by rewrite (D E)|]. apply (fresh_extends w); [done|apply I|by rewrite (D E)|done].
  - destruct (upload (file w)); [auto|]. apply empty_fresh. auto.
Qed.
Lemma try_inv calm sz g offset len w ps ss : inv calm w ps ss -> stageOk (TrySampled sz g offset len) -> (calm = true -> stageCalm w (TrySampled sz g offset len)) ->
  exists r ahead w', try_cache sz g offset len w = Ok (r, ahead, w') /\ inv calm w' ps ss /\ Forall (fun co => 0 <= co < sz) ahead /\ (calm = true -> stageCalm w' (TryAhead sz ahead)) /\
    (calm = true -> forall data, r = Some data -> upload (file w) = None /\ data = sub (content w) offset (Z.min (offset + len) (zlen (content w)))).
Proof.
  intros I (Hb & Ho & Hl) Hs. destruct (try_cache_ok sz g offset len w (in_ok _ _ _ _ I) Hb Ho ltac:(lia)) as (r & ahead & w' & E & X & Ok & G & Ha & B & D & V). exists r, ahead, w'. split; [done|]. split_and!; [|done| |].
  - eapply extends_inv; [done|done|done|]. intros Hc. specialize (Hs Hc) as (-> & Hu & ->). destruct (in_calm _ _ _ _ I Hc) as [A1 A2 A3 A4]. split; [by right|]. intros _. rewrite Hu in *.
    destruct (decide (cacheGeneration (op_cache w) = generation (file w))) as [E'|E'].
    + apply (fresh_extends w); [done|apply I|auto|auto].
    + apply empty_fresh. auto.
  - intros Hc. specialize (Hs Hc) as (-> & Hu & ->). destruct X as [X1 X2 X3 X4 X7]. simpl. rewrite X1. done.
  - intros Hc data Hr. specialize (Hs Hc) as (-> & Hu & ->). split; [done|]. pose proof (inv_current _ _ _ _ I Hu) as [_ <-]. apply V; [by eapply inv_current|intros Y; pose proof (cl_fresh _ _ _ (in_calm _ _ _ _ I Hc) Y) as F; by rewrite Hu in F|done].
Qed.
Lemma ahead_inv calm sz ahead w ps ss : inv calm w ps ss -> stageOk (TryAhead sz ahead) -> (calm = true -> stageCalm w (TryAhead sz ahead)) -> exists w', prefetch ahead sz w = Ok w' /\ inv calm w' ps ss.
Proof.
  intros I [Hb Ha] Hs. destruct (prefetch_spec ahead sz w (in_ok _ _ _ _ I) Hb Ha) as (w' & E & X & Ok & G & F). exists w'. split; [done|]. eapply extends_inv; [done|done|done|].
  intros Hc. specialize (Hs Hc) as (Hg & Hu & ->). split; [by left|]. intros _. rewrite Hu. pose proof (cl_fresh _ _ _ (in_calm _ _ _ _ I Hc) Hg) as Hf. rewrite Hu in Hf. apply F; [by eapply inv_current|done].
Qed.
Lemma ensure_inv calm sz g offset len w ps ss : inv calm w ps ss -> stageOk (ReadAsks sz g offset len) -> (calm = true -> stageCalm w (ReadAsks sz g offset len)) ->
  exists p w', read_ensure g sz offset len w = Ok (p, w') /\ inv calm w' (p :: ps) ss.
Proof.
  intros I (Hb & Ho & Hl & He) Hs. destruct (read_ensure_ok sz g offset len w (in_ok _ _ _ _ I) Ho Hl He Hb) as (ids & w' & E & X & Ok & G & Hin & Hn & Hf & V). eexists _, w'. split; [exact E|].
  assert (calm = true -> g = generation (file w) /\ cacheGeneration (op_cache w) = generation (file w) /\ upload (file w) = None /\ sz = fsize (file w) /\ fresh w) as Hs'.
  { intros Hc. specialize (Hs Hc) as (-> & Hg & Hu & ->). split_and!; try done. pose proof (cl_fresh _ _ _ (in_calm _ _ _ _ I Hc) Hg) as F. by rewrite Hu in F. }
  assert (inv calm w' ps ss) as I'.
  { eapply extends_inv; [done|done|done|]. intros Hc. destruct (Hs' Hc) as (-> & Hg & Hu & -> & F). split; [by left|]. intros _. rewrite Hu. apply V; [by eapply inv_current|done]. }
  pose proof X as [X1 X2 X3 X4 X7]. eapply inv_reads; [exact I'| |by left]. intros p [->|Hp]%elem_of_cons; [right|by left]. split.
  - split; simpl; rewrite ?X4; [done|lia|done|done].
  - intros Hc. destruct (Hs' Hc) as (-> & Hg & Hu & -> & F). rewrite X1. split_and!; [done|done|]. pose proof (inv_current _ _ _ _ I Hu) as [_ Hct]. split; simpl; rewrite ?X2, ?X4; [lia|]. apply V; [by eapply inv_current|done].
Qed.
(** What a read comes to that looks at the upload. *)
Lemma look_spec acc sz offset len w b : stageOk (ReadDropped sz 0 offset len) -> read_look acc sz offset len w = Ok b ->
  match b with
  | Answered d => upload (file w) = None -> d = [] /\ Z.min (offset + len) sz <= offset
  | Failed => acc = false
  | NotUploaded => upload (file w) <> None
  | Asks len' => upload (file w) = None /\ 0 < len' /\ offset + len' = Z.min (offset + len) sz
  end.
Proof.
  intros (Hb & Ho & Hl) E. unfold read_look, uploadNow in E. cbv zeta in E. destruct (Z.geb_spec offset sz) as [Hge|Hlt]; [injection E as <-; intros _; split; [done|lia]|].
  pose proof (clamp_length offset len sz ltac:(lia) ltac:(lia) Hb) as [Hlen Hlen0]. set (len' := if u64 _ >=? _ then _ else _) in *. clearbody len'.
  destruct (Z.eqb_spec len' 0) as [Hz|Hne]; [injection E as <-; intros _; split; [done|lia]|]. destruct (upload (file w)) as [u|].
  - destruct (uploads w !! u) as [up|]; [|by injection E as <-]. destruct (Upload.readBuffered offset len' up) as [[d|]| | |]; try done; by injection E as <-.
  - destruct acc; injection E as <-; [|done]. split_and!; [done|lia|done].
Qed.

(** ** Downloads keep it *)
Definition moved (ct : list Z) (k k' : readChunk) : Prop :=
  (k_offset k' = k_offset k /\ k_toRead k' = k_toRead k) /\ k_after k' = k_after k /\ k_start k' = k_start k /\ zlen (k_data k') <= Z.max (zlen (k_data k)) (k_toRead k) /\
  forall cs co, good cs ct (zlen ct) co k -> good cs ct (zlen ct) co k'.
Lemma moved_refl ct k : moved ct k k.
Proof. unfold moved. split_and!; auto. lia. Qed.
Lemma download_inv calm w ps ss c l : inv calm w ps ss -> ordered c -> buffer c ⊆ buffer (op_cache w) -> cacheGeneration c = cacheGeneration (op_cache w) -> chunkSize c = chunkSize (op_cache w) ->
  length l = length (chunks w) -> (forall i k', l !! i = Some k' -> exists k, chunks w !! i = Some k /\ moved (content w) k k') ->
  (forall co i k', buffer c !! co = Some i -> l !! i = Some k' -> k_err k' = false) -> inv calm (set_cache c (set_chunks l w)) ps ss.
Proof.
  intros I O B G S_ L Hl He. pose proof I as [H1 H2 H3 H4 H5]. assert (forall i k, chunks w !! i = Some k -> exists k', l !! i = Some k' /\ moved (content w) k k') as Hl'.
  { intros i k E. destruct (lookup_lt_is_Some_2 l i) as [k' E']; [rewrite L; by eapply lookup_lt_Some|]. destruct (Hl i k' E') as (k0 & E0 & M). exists k'. split; [done|]. congruence. }
  split; simpl; [|done| |done|].
  - destruct H1 as [A1 A2 A3 A4 A5]. split; simpl; [by rewrite S_|done| | |].
    + intros co i E. destruct (A3 co i (lookup_weaken _ _ _ _ E B)) as (k & Ek & Hk & _). destruct (Hl' i k Ek) as (k' & Ek' & [M _] & _). exists k'. split_and!; [done|congruence|by eapply He].
    + intros i k' E. destruct (Hl i k' E) as (k & Ek & _ & -> & -> & _). by apply A4.
    + intros i k' E. destruct (Hl i k' E) as (k & Ek & (M1 & M2) & _ & _ & M3 & _). destruct (A5 i k Ek) as (Z1 & Z2 & Z3). unfold sized. rewrite S_, M1, M2. split_and!; [done|lia|lia|lia].
  - intros p Hp. destruct (H3 p Hp) as [P1 P2 P3 P4]. split; simpl; [by rewrite L|done|by rewrite S_|done].
  - intros Hc. specialize (H5 Hc) as [A1 A2 A3 A4]. split; simpl; [by rewrite G| | |].
    + rewrite G. intros Hg. specialize (A2 Hg). destruct H2 as [H2 _]. destruct (upload (file w)); [apply map_empty; intros co; destruct (buffer c !! co) as [x|] eqn:E; [apply (lookup_weaken _ _ _ _ E) in B; by rewrite A2, lookup_empty in B|done]|].
      intros co i k'. simpl. rewrite S_, H2. intros E Ek'. destruct (Hl i k' Ek') as (k & Ek & _ & _ & _ & _ & M). apply M. rewrite <- H2. eapply A2; [by eapply lookup_weaken|done].
    + intros p Hp. destruct (A3 p Hp) as [P1 P2]. split; [done|]. intros Hg. destruct (P2 Hg) as [Hu [G1 G2]]. split; [done|]. split; simpl; rewrite ?S_; [done|].
      intros j i Ei. destruct (G2 j i Ei) as (k & Ek & Gk). destruct (Hl' i k Ek) as (k' & Ek' & _ & _ & _ & _ & M). exists k'. split; [done|]. by apply M.
    + intros st Hst. specialize (A4 st Hst). destruct st; simpl in *; rewrite ?G; done.
Qed.
Lemma fetch_inv calm got i k w ps ss : inv calm w ps ss -> chunks w !! i = Some k -> k_phase k = Waiting -> inv calm (fetch got i w) ps ss.
Proof.
  intros I Ek Hph. pose proof (in_ok _ _ _ _ I) as [A1 A2 A3 A4 A5]. unfold fetch. rewrite Ek.
  assert (forall k2 j k', moved (content w) k k2 -> <[i := k2]> (chunks w) !! j = Some k' -> exists k0, chunks w !! j = Some k0 /\ moved (content w) k0 k') as Hm.
  { intros k2 j k' M E. apply list_lookup_insert_Some in E as [(<- & <- & _)|[_ E]]; [by exists k|]. exists k'. split; [done|apply moved_refl]. }
  assert (forall d e, d `prefix_of` sub (content w) (k_offset k) (k_offset k + k_toRead k) -> moved (content w) k (Chunk (k_offset k) (k_toRead k) (k_after k) (k_start k) Landed d e)) as Hg.
  { intros d e Hd. destruct (A5 i k Ek) as (Z1 & Z2 & Z3). split_and!; try done.
    - simpl. apply prefix_length in Hd. unfold sub in Hd. rewrite length_firstn in Hd. unfold zlen. lia.
    - intros cs co [G1 G2 G3 G4]. split; simpl; try done. intros _ _. by rewrite <- G1. }
  assert (forall co j k', buffer (op_cache w) !! co = Some j -> chunks w !! j = Some k' -> k_err k' = false) as He by (intros co j k' E E'; destruct (A3 co j E) as (k0 & E0 & _ & X); congruence).
  destruct got as [n|].
  - set (l := <[i := _]> _). replace (set_chunks l w) with (set_cache (op_cache w) (set_chunks l w)) by done. apply download_inv; try done; [by unfold l; rewrite length_insert| |].
    + intros j k'. apply Hm, Hg. apply prefix_take.
    + intros co j k' E E'. unfold l in E'. apply list_lookup_insert_Some in E' as [(<- & <- & _)|[_ E']]; [done|by eapply He].
  - set (l := <[i := _]> _). cbn [op_cache set_chunks]. assert (forall j k', l !! j = Some k' -> exists k0, chunks w !! j = Some k0 /\ moved (content w) k0 k') as Hl by (intros j k'; apply Hm, Hg; apply prefix_nil).
    assert (forall co j k', buffer (op_cache w) !! co = Some j -> (co = k_offset k -> j <> i) -> l !! j = Some k' -> k_err k' = false) as He'.
    { intros co j k' E Hne E'. unfold l in E'. apply list_lookup_insert_Some in E' as [(<- & <- & _)|[_ E']]; [|by eapply He]. destruct (A3 co i E) as (k0 & E0 & X & _). rewrite Ek in E0. injection E0 as <-. by destruct Hne. }
    destruct (bool_decide_reflect (buffer (op_cache w) !! k_offset k = Some i)) as [Hb|Hb].
    + apply download_inv; try done; [by apply ordered_delete|apply delete_subseteq|by unfold l; rewrite length_insert|].
      intros co j k'. simpl. intros E. apply lookup_delete_Some in E as [Hne E]. apply (He' co j k' E). congruence.
    + replace (set_chunks l w) with (set_cache (op_cache w) (set_chunks l w)) by done. apply download_inv; try done; [by unfold l; rewrite length_insert|].
      intros co j k' E. apply (He' co j k' E). congruence.
Qed.
Lemma closeDone_inv calm i k w ps ss : inv calm w ps ss -> chunks w !! i = Some k -> k_phase k = Landed -> inv calm (closeDone i w) ps ss.
Proof.
  intros I Ek Hph. pose proof (in_ok _ _ _ _ I) as [A1 A2 A3 A4 A5]. unfold closeDone. set (l := alter _ _ _). replace (set_chunks l w) with (set_cache (op_cache w) (set_chunks l w)) by done.
  assert (forall j k', l !! j = Some k' -> exists k0, chunks w !! j = Some k0 /\ moved (content w) k0 k' /\ k_err k' = k_err k0) as Hl.
  { intros j k' E. unfold l in E. destruct (decide (j = i)) as [->|]; [|rewrite list_lookup_alter_ne in E by done; exists k'; split_and!; [done|apply moved_refl|done]].
    rewrite list_lookup_alter_eq, Ek in E. injection E as <-. exists k. split; [done|]. split; [|done]. unfold moved. split_and!; try done; [simpl; lia|]. intros cs co [G1 G2 G3 G4]. split; simpl; try done. intros _. apply G4. by rewrite Hph. }
  apply download_inv; try done; [by unfold l; rewrite length_alter| |].
  - intros j k' E. destruct (Hl j k' E) as (k0 & E0 & M & _). by exists k0.
  - intros co j k' E E'. destruct (Hl j k' E') as (k0 & E0 & _ & ->). destruct (A3 co j E) as (k1 & E1 & _ & X). congruence.
Qed.
Lemma download_preserves calm ctxDone w w' ps ss : inv calm w ps ss -> download ctxDone w w' -> inv calm w' ps ss.
Proof.
  intros I H. destruct H as [got i k w E M|i k w E M]; [|by eapply closeDone_inv]. eapply fetch_inv; [done|exact E|]. unfold mayFetch in M. apply andb_prop in M as [M _]. by apply bool_decide_eq_true in M.
Qed.

(** ** What happens to the file keeps it *)
Lemma object_inv calm fs ct w ps ss : inv calm w ps ss -> sizesOk (set_object fs ct w) -> (calm = true -> calmly (set_object fs ct w) ps ss) -> inv calm (set_object fs ct w) ps ss.
Proof.
  intros [[A1 A2 A3 A4 A5] H2 H3 H4 H5] Hs Hc. split; [by split|done| |done|done]. intros p Hp. destruct (H3 p Hp) as [P1 P2 P3 P4]. by split.
Qed.
Lemma new_generation_calmly fs ct w ps : calmly w ps [] -> generation (file w) < generation fs < 2 ^ 64 -> calmly (set_object fs ct w) ps [].
Proof.
  intros [H1 H2 H3 H4] Hg. split; simpl; [lia|lia| |intros st X; by apply elem_of_nil in X]. intros p Hp. destruct (H3 p Hp) as [P1 P2]. split; lia.
Qed.
Lemma file_step_inv calm w w' ps ss : inv calm w ps ss -> file_step w w' -> (calm = true -> ss = []) -> inv calm w' ps ss.
Proof.
  intros I H Hss. pose proof (in_size _ _ _ _ I) as (Hs & Hb & Hf). destruct H as [u fs w E Hg|now u ct w E Hct|u w E Hg|now w E Hg].
  - unfold FileState.startUpload in E. destruct (upload (file w)) eqn:Hu; [done|]. injection E as <-. apply object_inv; [done|by split|]. intros Hc. specialize (in_calm _ _ _ _ I Hc) as C. rewrite (Hss Hc) in *.
    pose proof (cl_gen _ _ _ C). apply new_generation_calmly; [done|]. simpl. unfold u64. rewrite Z.mod_small; lia.
  - pose proof (zlen_nonneg ct). unfold finishUpload. rewrite decide_True by done. apply object_inv; [done|by split|]. intros Hc. specialize (in_calm _ _ _ _ I Hc) as C. rewrite (Hss Hc) in *. destruct C as [C1 C2 C3 C4]. split; simpl; [done| | |intros st X; by apply elem_of_nil in X].
    + intros Hg. specialize (C2 Hg). rewrite E in C2. by apply empty_fresh.
    + intros p Hp. destruct (C3 p Hp) as [P1 P2]. split; [done|]. intros Hg. destruct (P2 Hg) as [Hu _]. congruence.
  - rewrite E in Hs. pose proof (zlen_nonneg (content w)). unfold dropUpload. rewrite decide_True by done. apply object_inv; [done|split; [done|split; [done|simpl; lia]]|]. intros Hc. specialize (in_calm _ _ _ _ I Hc) as C. rewrite (Hss Hc) in *.
    pose proof (cl_gen _ _ _ C). apply new_generation_calmly; [done|]. simpl. unfold u64. rewrite Z.mod_small; lia.
  - unfold FileState.empty. apply object_inv; [done|unfold sizesOk; simpl; rewrite E; split; [done|]; change (zlen []) with 0; lia|]. intros Hc. specialize (in_calm _ _ _ _ I Hc) as C. rewrite (Hss Hc) in *.
    pose proof (cl_gen _ _ _ C). apply new_generation_calmly; [done|]. simpl. unfold u64. rewrite Z.mod_small; lia.
Qed.
Lemma same_object_inv calm fs w ps ss : inv calm w ps ss -> sameObject (file w) fs -> inv calm (set_object fs (content w) w) ps ss.
Proof.
  intros I (E1 & E2 & E3 & E4 & E5). pose proof (in_size _ _ _ _ I) as (Hs & Hb & Hf). apply object_inv; [done| |].
  - unfold sizesOk. simpl. rewrite E1, E3. split; [|done]. destruct (upload (file w)); [done|]. by rewrite (E4 eq_refl).
  - intros Hc. destruct (in_calm _ _ _ _ I Hc) as [C1 C2 C3 C4]. split; simpl; rewrite ?E1, ?E2; [done| |done|].
    + intros Hg. specialize (C2 Hg). destruct (upload (file w)); [done|]. intros co i k. simpl. rewrite (E4 eq_refl). apply C2.
    + intros st Hst. specialize (C4 st Hst). destruct st; simpl in *; rewrite ?E1, ?E2; intuition congruence.
Qed.

(** ** Every run keeps it *)
Lemma opened_inv calm w : opened w -> inv calm w [] [].
Proof.
  intros [H1 H2 H3 H4 (H5 & H6 & H7)]. pose proof (zlen_nonneg (content w)). split; [|unfold sizesOk; rewrite H1; split; [|split]; [apply H2|apply H2|lia]|intros p X; by apply elem_of_nil in X|intros p X; by apply elem_of_nil in X|].
  - split; [done| | | |]; [split; rewrite H6; [constructor|intros co; rewrite H5, elem_of_nil, lookup_empty; split; [done|intros []; done]]| | |].
    + intros co i. by rewrite H5, lookup_empty.
    + intros i k. by rewrite H7, lookup_nil.
    + intros i k. by rewrite H7, lookup_nil.
  - intros _. split; [lia|intros _; rewrite H1; by apply empty_fresh|intros p X; by apply elem_of_nil in X|intros p X; by apply elem_of_nil in X].
Qed.
Lemma stage_here calm w ps ss i st : inv calm w ps ss -> ss !! i = Some st -> stageOk st /\ (calm = true -> stageCalm w st).
Proof. intros I E%list_elem_of_lookup_2. split; [by apply (in_stage _ _ _ _ I)|]. intros Hc. by apply (cl_stage _ _ _ (in_calm _ _ _ _ I Hc)). Qed.
(** A read at [i] moves on to [new]. *)
Lemma moves_on calm w ps ss i new : inv calm w ps ss -> (forall st, st ∈ new -> stageOk st /\ (calm = true -> stageCalm w st)) -> inv calm w ps (new ++ delete i ss).
Proof. intros I Hn. eapply inv_stages; [exact I|]. intros st [Hin|Hin]%elem_of_app; [right; auto|left; by eapply elem_of_delete_list]. Qed.
Lemma moves_to calm w ps ss i st : inv calm w ps ss -> stageOk st -> (calm = true -> stageCalm w st) -> inv calm w ps (st :: delete i ss).
Proof. intros I H1 H2. apply (moves_on calm w ps ss i [st]); [done|]. intros x ->%list_elem_of_singleton. done. Qed.
Lemma starts calm w ps ss st : inv calm w ps ss -> stageOk st -> (calm = true -> stageCalm w st) -> inv calm w ps (st :: ss).
Proof. intros I H1 H2. eapply inv_stages; [exact I|]. intros x [->|Hx]%elem_of_cons; [by right|by left]. Qed.
Lemma over calm w ps ss i : inv calm w ps ss -> inv calm w ps (delete i ss).
Proof. intros I. apply (moves_on calm w ps ss i []); [done|]. intros x X. by apply elem_of_nil in X. Qed.
Lemma read_step_inv calm s s' : read_step calm s s' -> inv calm s.1.1 s.1.2 s.2 -> inv calm s'.1.1 s'.1.2 s'.2.
Proof.
  destruct 1 as [offset len w ps ss Ho Hl|i sz offset len w ps ss E|i sz g offset len w ps ss E|i acc b sz g offset len w ps ss E Eb|i p sz g offset len w w' ps ss E Ee|i p r w ps ss E Er
    |offset len w ps ss Ho Hl|i sz offset len w ps ss E|i sz offset len w ps ss E|i r ahead sz g offset len w w' ps ss E Et|i acc sz ahead w w' ps ss E Ea|ctxDone w w' ps ss H|w w' ps ss H Hss|fs w ps ss H|us w ps ss];
    cbn [fst snd]; intros I; try (destruct (stage_here _ _ _ _ _ _ I E) as [S1 S2]).
  - destruct (in_size _ _ _ _ I) as (_ & _ & Hf). apply starts; [done|simpl; unfold sizeNow; lia|done].
  - apply moves_to; [done|exact S1|]. intros Hc. split; [done|by apply S2].
  - destruct (drop_inv calm sz offset len g w ps ss I S2) as [I' G]. apply moves_to; [exact I'|exact S1|]. intros Hc. destruct (S2 Hc) as [-> S3]. split; [done|]. split; [exact G|exact S3].
  - apply moves_on; [done|]. pose proof (look_spec acc sz offset len w b S1 Eb) as Hb. destruct b; try (intros st X; by apply elem_of_nil in X). intros st ->%list_elem_of_singleton.
    destruct Hb as (Hu & Hp & He). destruct S1 as (S3 & S4 & S5). split; [simpl; lia|]. intros Hc. destruct (S2 Hc) as (-> & S6 & S7). split_and!; auto.
  - destruct (ensure_inv calm sz g offset len w ps ss I S1 S2) as (p' & w2 & E2 & I2). rewrite Ee in E2. injection E2 as <- <-. by apply over.
  - eapply inv_reads; [exact I| |by left]. intros q Hq. left. by eapply elem_of_delete_list.
  - destruct (in_size _ _ _ _ I) as (_ & _ & Hf). apply starts; [done|simpl; unfold sizeNow; lia|done].
  - apply moves_on; [done|]. unfold uploadNow. destruct (upload (file w)) as [u|] eqn:Hu; [intros st X; by apply elem_of_nil in X|]. intros st ->%list_elem_of_singleton. split; [exact S1|]. intros Hc. split; [done|by apply S2].
  - apply moves_to; [done|exact S1|]. intros Hc. destruct (S2 Hc). by split_and!.
  - destruct (try_inv calm sz g offset len w ps ss I S1 S2) as (r2 & ahead2 & w2 & E2 & I2 & Ha & Hs & _). rewrite Et in E2. injection E2 as <- <- <-. apply moves_on; [done|].
    destruct r; [|intros st X; by apply elem_of_nil in X]. intros st ->%list_elem_of_singleton. split; [|done]. split; [apply S1|done].
  - destruct acc; [|injection Ea as <-; by apply over]. destruct (ahead_inv calm sz ahead w ps ss I S1 S2) as (w2 & E2 & I2). rewrite Ea in E2. injection E2 as <-. by apply over.
  - by eapply download_preserves.
  - by eapply file_step_inv.
  - by apply same_object_inv.
  - destruct I as [[A1 A2 A3 A4 A5] H2 H3 H4 H5]. split; [by split|done| |done|]; [intros p Hp; destruct (H3 p Hp) as [P1 P2 P3 P4]; by split|]. intros Hc. destruct (H5 Hc) as [C1 C2 C3 C4]. by split.
Qed.
Lemma reachable_inv calm w ps ss : read_reachable calm (w, ps, ss) -> inv calm w ps ss.
Proof.
  intros (w0 & O & H). pose proof (opened_inv calm w0 O) as I. change (inv calm (w0, @nil pending, @nil stage).1.1 (w0, @nil pending, @nil stage).1.2 (w0, @nil pending, @nil stage).2) in I.
  change (inv calm (w, ps, ss).1.1 (w, ps, ss).1.2 (w, ps, ss).2). induction H as [s|s1 s2 s3 H _ IH]; [done|]. apply IH. by eapply read_step_inv.
Qed.
(** A calm run is a run. *)
Lemma calm_runs s : read_reachable true s -> read_reachable false s.
Proof.
  intros (w & O & H). exists w. split; [done|]. induction H as [s|s1 s2 s3 H _ IH]; [constructor|]. eapply rtc_l; [|exact IH]. clear IH. destruct H; try (econstructor; done).
Qed.

(** ** What reads return *)
Lemma pending_total calm w p : inv calm w [p] [] -> exists r, read_end p w = Ok r /\ (Forall (fun i => isDone (chunks w) i = true) (p_chunks p) -> r <> None).
Proof.
  intros I. destruct (in_pend _ _ _ _ I p ltac:(left)) as [P1 (P2 & P2' & P2'') (n & HL & Hr) P4]. apply (collect_total (chunkSize (op_cache w)) (p_offset p) (p_length p) (ca_size _ (in_ok _ _ _ _ I)) P2 P2' P2'' (chunks w) (p_chunks p) (p_first p) n HL Hr).
  intros i Hi. destruct (lookup_lt_is_Some_2 (chunks w) i (P1 i Hi)) as [k Ek]. exists k. split; [done|]. destruct (ca_sized _ (in_ok _ _ _ _ I) i k Ek) as (_ & Z2 & Z3). lia.
Qed.
Lemma pending_part w p d : inv true w [p] [] -> p_generation p = generation (file w) -> read_end p w = Ok (Some (inr d)) ->
  zlen d <= p_length p /\ (zlen d = p_length p \/ wholeAt (chunks w) (p_chunks p) -> d = sub (content w) (p_offset p) (p_offset p + p_length p)).
Proof.
  intros I Hg E. destruct (in_pend _ _ _ _ I p ltac:(left)) as [P1 (P2 & P2' & P2'') (n & HL & Hr) P4]. destruct (cl_pend _ _ _ (in_calm _ _ _ _ I eq_refl) p ltac:(left)) as [_ X]. destruct (X Hg) as (Hu & Hend & Hgood). pose proof (ca_size _ (in_ok _ _ _ _ I)) as Hcs.
  destruct (collect_spec (chunkSize (op_cache w)) (p_offset p) (p_length p) Hcs P2 P2' P2'' (content w) Hend (chunks w) (p_chunks p) (p_first p) n d HL Hr Hgood E) as [D1 D2].
  pose proof (collect_whole (chunkSize (op_cache w)) (p_offset p) (p_length p) Hcs P2 P2' P2'' (content w) Hend (chunks w) (p_chunks p) (p_first p) n d HL Hr Hgood) as D3.
  unfold left_ in *. rewrite Z.max_l in D1, D2, D3 by done. split; [lia|]. intros [Hz|Hw]; [apply D2; lia|]. apply D2. by apply D3.
Qed.
Lemma inv_one calm w ps ss p : inv calm w ps ss -> p ∈ ps -> inv calm w [p] [].
Proof. intros I Hp. eapply inv_reads; [exact I|intros q ->%list_elem_of_singleton; by left|intros st X; by apply elem_of_nil in X]. Qed.
(** C10: what a read of an open gets is the file, in a run in which no upload of the file starts,
    completes or is given up, and the file is not emptied, while a read is between its first
    look at the file and the asking for its chunks (the code does not see to that).  However
    the sections of reads, the downloads, short and failed ones among them, and the writing of
    the file interleave otherwise: a try of the cache does not panic, and answers only while no
    upload runs and with just the bytes of the object the store holds, up to the end of the
    file; a read of a file no one writes is answered at once only when its range is empty, and
    otherwise asks for the chunks of its range up to the end of the file; and when it is done
    waiting, on a file that has not been written since it began, it has the failure of a
    download, or no more bytes than it asked for, which are those of the file when they are as
    many as it asked for, as they are when the store delivered its chunks whole. *)
Theorem reads_return_the_file w ps ss : read_reachable true (w, ps, ss) ->
  (forall sz g offset len, TrySampled sz g offset len ∈ ss -> exists r ahead w', try_cache sz g offset len w = Ok (r, ahead, w') /\
     forall data, r = Some data -> upload (file w) = None /\ data = sub (content w) offset (Z.min (offset + len) (zlen (content w)))) /\
  (forall sz g offset len acc b, ReadDropped sz g offset len ∈ ss -> upload (file w) = None -> read_look acc sz offset len w = Ok b ->
     match b with
     | Answered data => data = [] /\ Z.min (offset + len) (zlen (content w)) <= offset
     | Asks len' => 0 < len' /\ offset + len' = Z.min (offset + len) (zlen (content w))
     | Failed => acc = false
     | NotUploaded => False
     end) /\
  (forall p, p ∈ ps -> p_generation p = generation (file w) -> exists r, read_end p w = Ok r /\
     forall data, r = Some (inr data) -> zlen data <= p_length p /\
       (zlen data = p_length p \/ wholeAt (chunks w) (p_chunks p) -> data = sub (content w) (p_offset p) (p_offset p + p_length p))).
Proof.
  intros H%reachable_inv. split_and!.
  - intros sz g offset len Hin. pose proof (in_stage _ _ _ _ H _ Hin) as S1. pose proof (cl_stage _ _ _ (in_calm _ _ _ _ H eq_refl) _ Hin) as S2.
    destruct (try_inv true sz g offset len w ps ss H S1 (fun _ => S2)) as (r & ahead & w' & E & _ & _ & _ & V). exists r, ahead, w'. split; [done|]. by apply V.
  - intros sz g offset len acc b Hin Hu E. pose proof (in_stage _ _ _ _ H _ Hin) as S1. destruct (cl_stage _ _ _ (in_calm _ _ _ _ H eq_refl) _ Hin) as (_ & _ & S2).
    pose proof (inv_current _ _ _ _ H Hu) as [_ Hct]. rewrite <- Hct, <- (S2 Hu). pose proof (look_spec acc sz offset len w b S1 E) as Hb. destruct b; [by apply Hb|done|done|apply Hb].
  - intros p Hp Hg. pose proof (inv_one _ _ _ _ _ H Hp) as I1. destruct (pending_total _ w p I1) as (r & E & _). exists r. split; [done|]. intros data ->. by apply pending_part.
Qed.

(** ** Downloads end *)
Definition unfinished (l : list readChunk) : nat := sum_list_with (fun k => match k_phase k with Waiting => 2%nat | Landed => 1%nat | Done => 0%nat end) l.
Lemma sum_list_with_insert {A} (f : A -> nat) (l : list A) i x y : l !! i = Some x -> (f y < f x)%nat -> (sum_list_with f (<[i := y]> l) < sum_list_with f l)%nat.
Proof. revert i. induction l as [|z l IH]; intros [|i] E Hf; try done; simpl; [injection E as ->; lia|]. specialize (IH i E Hf). lia. Qed.
Lemma alter_is_insert {A} (f : A -> A) (l : list A) i x : l !! i = Some x -> alter f i l = <[i := f x]> l.
Proof. revert i. induction l as [|y l IH]; intros [|i] E; try done; simpl; [by injection E as ->|]. f_equal. by apply IH. Qed.
Lemma download_decreases ctxDone w w' : download ctxDone w w' -> (unfinished (chunks w') < unfinished (chunks w))%nat.
Proof.
  destruct 1 as [got i k w E M|i k w E M]; unfold unfinished.
  - unfold mayFetch in M. apply andb_prop in M as [M _]. apply bool_decide_eq_true in M. unfold fetch. rewrite E. destruct got; [|case_bool_decide]; simpl; (eapply sum_list_with_insert; [exact E|simpl; rewrite M; lia]).
  - unfold closeDone. simpl. rewrite (alter_is_insert _ _ _ _ E). eapply sum_list_with_insert; [exact E|simpl; rewrite M; lia].
Qed.
Lemma unfinished_some l : unfinished l <> O -> exists i k, l !! i = Some k /\ k_phase k <> Done.
Proof.
  induction l as [|k l IH]; [done|]. unfold unfinished in *. simpl. intros H. destruct (decide (k_phase k = Done)) as [E|E]; [|by exists O, k].
  rewrite E in H. destruct (IH H) as (i & k' & Ek & Hk). by exists (S i), k'.
Qed.
Lemma unfinished_none l i k : unfinished l = O -> l !! i = Some k -> k_phase k = Done.
Proof. unfold unfinished. revert i. induction l as [|x l IH]; intros [|i] Hz E; try done; simpl in Hz; [injection E as ->; by destruct (k_phase k)|]. apply (IH i); [lia|done]. Qed.
(** With the context alive, a chunk that waits for another waits for an older one. *)
Lemma download_enabled w i k : cacheOk w -> chunks w !! i = Some k -> k_phase k <> Done -> exists w', download false w w'.
Proof.
  intros I. pose proof (ca_after _ I) as HA. revert k. induction (lt_wf i) as [i _ IH]. intros k E Hk. destruct (k_phase k) eqn:Hph; [|by eexists; eapply dl_close|done].
  specialize (HA i k E). destruct (k_after k) as [j|] eqn:Ha.
  - destruct (isDone (chunks w) j) eqn:Hd.
    + eexists. apply (dl_fetch false None i k w E). unfold mayFetch. rewrite Ha, Hd. rewrite bool_decide_eq_true_2 by done. by rewrite orb_true_r.
    + destruct (lookup_lt_is_Some_2 (chunks w) j) as [k' Ek']; [apply lookup_lt_Some in E; lia|]. apply (IH j HA k' Ek'). intros Hx. unfold isDone in Hd. rewrite Ek', bool_decide_eq_true_2 in Hd by done. done.
  - eexists. apply (dl_fetch false None i k w E). unfold mayFetch. rewrite HA. by rewrite bool_decide_eq_true_2.
Qed.
(** C11: no read waits for ever.  However reads, downloads and the writing of the file interleave,
    prefetches that wait for one another never wait in a circle: as long as a chunk is not there
    a download can move with the server's context alive, so none has to be cut short by its end;
    each move brings the end of the downloads nearer; and once they are over every read that
    waits has its answer, an error or bytes, with no index out of range on the way. *)
Theorem downloads_answer_reads w ps ss : read_reachable false (w, ps, ss) ->
  (unfinished (chunks w) <> O -> exists w', download false w w') /\
  (forall ctxDone w', download ctxDone w w' -> (unfinished (chunks w') < unfinished (chunks w))%nat) /\
  (unfinished (chunks w) = O -> forall p, p ∈ ps -> exists r, read_end p w = Ok (Some r)).
Proof.
  intros H%reachable_inv. split_and!.
  - intros (i & k & E & Hk)%unfinished_some. eapply download_enabled; [apply H|done|done].
  - intros ctxDone w'. apply download_decreases.
  - intros Hz p Hp. pose proof (inv_one _ _ _ _ _ H Hp) as I1. destruct (pending_total _ w p I1) as (r & E & Hd). destruct r as [r|]; [by exists r|]. destruct Hd; [|done].
    apply Forall_forall. intros i Hi. destruct (lookup_lt_is_Some_2 (chunks w) i) as [k Ek]; [by apply (po_ids _ _ (in_pend _ _ _ _ H p Hp))|]. unfold isDone. rewrite Ek. apply bool_decide_eq_true.
    by eapply unfinished_none.
Qed.

(** ** What the cache may hold *)
Lemma growChunk_spec fuel slab chunk : 0 < slab -> (slab | chunk) -> minReadChunkSize <= chunk + Z.of_nat fuel * slab -> let r := growChunk fuel slab chunk in
  minReadChunkSize <= r /\ (slab | r) /\ (r = chunk \/ r < minReadChunkSize + slab).
Proof.
  revert chunk. induction fuel as [|fuel IH]; intros chunk Hs Hd Hf; simpl; [split_and!; [lia|done|by left]|]. destruct (Z.ltb_spec chunk minReadChunkSize) as [Hlt|]; [|split_and!; [lia|done|by left]].
  destruct (IH (chunk + slab)) as (A & B & C); [done|by apply Z.divide_add_r|lia|]. split_and!; [done|done|]. right. destruct C as [->|C]; lia.
Qed.
Lemma halveChunk_spec fuel chunk : minReadChunkSize <= chunk -> chunk < maxReadChunkSize * 2 ^ Z.of_nat fuel -> minReadChunkSize <= halveChunk fuel chunk <= maxReadChunkSize.
Proof.
  revert chunk. induction fuel as [|fuel IH]; intros chunk Hm Hx; cbn [halveChunk]; [rewrite Z.mul_1_r in Hx; lia|]. destruct (Z.gtb_spec chunk maxReadChunkSize) as [Hg|]; [|lia].
  rewrite Nat2Z.inj_succ, Z.pow_succ_r in Hx by lia. apply IH; [apply Z.div_le_lower_bound; unfold minReadChunkSize, maxReadChunkSize in *; lia|apply Z.div_lt_upper_bound; lia].
Qed.
Lemma halveChunk_small fuel chunk : chunk <= maxReadChunkSize -> halveChunk fuel chunk = chunk.
Proof. destruct fuel; [done|]. simpl. intros H. destruct (Z.gtb_spec chunk maxReadChunkSize); [lia|done]. Qed.
Lemma ReadChunkSize_spec slab : 0 <= slab < 2 ^ 64 -> minReadChunkSize <= ReadChunkSize slab <= maxReadChunkSize /\ (0 < slab <= minReadChunkSize -> (slab | ReadChunkSize slab)).
Proof.
  intros Hs. unfold ReadChunkSize. destruct (Z.eqb_spec slab 0) as [->|Hne]; [unfold minReadChunkSize, maxReadChunkSize; lia|].
  destruct (growChunk_spec (Z.to_nat (minReadChunkSize / slab + 1)) slab slab) as (A & B & C); [lia|done| |].
  { assert (0 <= minReadChunkSize / slab) by (apply Z.div_pos; unfold minReadChunkSize; lia). rewrite Z2Nat.id by lia. pose proof (Z.div_mod minReadChunkSize slab Hne). pose proof (Z.mod_pos_bound minReadChunkSize slab). lia. }
  set (r := growChunk _ slab slab) in *. clearbody r. split.
  - apply halveChunk_spec; [done|]. assert (r < 2 ^ 65) by (unfold minReadChunkSize in C; lia). unfold maxReadChunkSize. change (Z.of_nat 64) with 64. lia.
  - intros Hs'. rewrite halveChunk_small; [done|]. unfold minReadChunkSize, maxReadChunkSize in *. lia.
Qed.
(** the read cache keeps to its budget.  Whatever the slab size of the backend, the chunks are
    between 8 and 16 MiB and whole multiples of small slabs, so the counts and offsets made of
    them do not overflow, the cache has room for a chunk and the three read ahead of it, and the
    chunks it has room for stay within the budget of 128 MiB; and each time a chunk is added the
    cache is back within its room, or all it holds is still being downloaded. *)
Theorem read_cache_is_bounded :
  (forall slab, 0 <= slab < 2 ^ 64 -> minReadChunkSize <= ReadChunkSize slab <= maxReadChunkSize /\ (0 < slab <= minReadChunkSize -> (slab | ReadChunkSize slab)) /\
     readPrefetchDepth + 1 <= readCacheSize (ReadChunkSize slab) /\ readCacheSize (ReadChunkSize slab) * ReadChunkSize slab <= readCacheBudget) /\
  (forall w ps ss co sz after i w', read_reachable false (w, ps, ss) -> buffer (op_cache w) !! co = None -> ensureChunk co sz after w = Ok (i, w') ->
     Z.of_nat (size (buffer (op_cache w'))) <= maxCacheSize (op_cache w) \/ forall co' i', buffer (op_cache w') !! co' = Some i' -> isDone (chunks w') i' = false).
Proof.
  split.
  - intros slab Hs. destruct (ReadChunkSize_spec slab Hs) as [A B]. set (c := ReadChunkSize slab) in *. clearbody c. split; [done|]. split; [done|]. split; unfold readCacheSize.
    + destruct (Z.ltb_spec (readCacheBudget / c) (readPrefetchDepth + 1)); [done|lia].
    + assert (8 <= readCacheBudget / c) by (apply Z.div_le_lower_bound; unfold minReadChunkSize, maxReadChunkSize, readCacheBudget in *; lia).
      destruct (Z.ltb_spec (readCacheBudget / c) (readPrefetchDepth + 1)); [unfold readPrefetchDepth in *; lia|]. pose proof (Z.mul_div_le readCacheBudget c). unfold minReadChunkSize in *. lia.
  - intros w ps ss co sz after i w' H%reachable_inv Hb E. pose proof (ca_order _ (in_ok _ _ _ _ H)) as Ho. unfold ensureChunk in E. rewrite Hb in E. unfold evictChunks in E.
    set (l := chunks w ++ _) in *. set (c := set_buffer _ _ _) in *. assert (ordered c) as O.
    { by apply ordered_add. }
    destruct (evict_spec (S (size (buffer c))) l c ltac:(lia) O) as (c' & Ec & [_ _ _ E4 (_ & _ & E5 & _)]). rewrite Ec in E. injection E as <- <-. by rewrite E5 in E4.
Qed.

(** ** A chunk of the file before the write

    A read takes the generation of the file, sees that no upload runs, and only then, under
    the lock again, asks for its chunks, with nothing looked at anew ([open.go], [read]).
    Between the two a write can start and another read of the open can move the cache on. *)
Definition race_file : fileState := State 0 0 4 4 0 None true false None 1 0 4 4 0.
Definition race_start : world := World race_file [1; 2; 3; 4] ∅ (Cache ∅ [] 0 0 4 8) [].
Definition race_ensured : out (pending * world) :=
  let sz := sizeNow (file race_start) in
  let g := generationNow (file race_start) in
  let w := read_drop g race_start in
  b ← read_look true sz 0 4 w;
  match b with
  | Asks len =>
      let w := set_file (FileState.startUpload 7%nat (file w)).1 w in
      r ← read_begin true 0 4 w;
      read_ensure g sz 0 len r.2
  | _ => Stuck
  end.
Definition race_end : out (option (list Z)) :=
  r ← race_ensured;
  let w := closeDone 0 (fetch (Some 4%nat) 0 r.2) in
  let w := set_object (finishUpload 9 7%nat 4 (file w)) [5; 6; 7; 8] w in
  s ← tryReadCached true 0 4 w; mret s.1.
(** The cache answers with the bytes from before the write after the write is stored. *)
Theorem read_races_the_first_write : race_end = Ok (Some [1; 2; 3; 4]).
Proof. by vm_compute. Qed.

(** ** A chunk that came short

    The comment at [chunkSlice] has a short chunk end the file, with what has been gathered by
    then all there is to send; [read] goes on to the next chunk and puts it where the missing
    bytes would be. *)
Definition short_end : out (option (bool + list Z)) :=
  r ← read_begin true 0 4 (World race_file [1; 2; 3; 4] ∅ (Cache ∅ [] 0 0 2 8) []);
  match r with
  | (inr p, w) => read_end p (closeDone 1 (fetch (Some 2%nat) 1 (closeDone 0 (fetch (Some 1%nat) 0 w))))
  | _ => Stuck
  end.
Theorem short_chunk_closes_up : short_end = Ok (Some (inr [1; 3; 4])).
Proof. by vm_compute. Qed.

(** ** Witnesses *)
Definition calm_start : world := World race_file [1; 2; 3; 4] ∅ (Cache ∅ [] 0 0 2 8) [].
Definition calm_pending : pending := Pending 0 1 3 0 [0%nat; 1%nat].
Definition calm_world : world :=
  World race_file [1; 2; 3; 4] ∅ (Cache {[0 := 0%nat; 2 := 1%nat]} [0; 2] 0 4 2 8) [Chunk 0 2 None true Waiting [] false; Chunk 2 2 None true Waiting [] false].
Definition calm_landed : world := closeDone 1 (fetch (Some 2%nat) 1 (closeDone 0 (fetch (Some 2%nat) 0 calm_world))).
Lemma calm_reachable calm : read_reachable calm (calm_world, [calm_pending], []).
Proof.
  exists calm_start. split; [split; vm_compute; try done; by split_and!|].
  eapply rtc_l; [apply (rs_read calm 1 8); lia|]. eapply rtc_l; [by apply (rs_read_generation calm 0 4 1 8)|]. eapply rtc_l; [by apply (rs_read_drop calm 0 4 0 1 8)|].
  eapply rtc_l; [by apply (rs_read_look calm 0 true (Asks 3) 4 0 1 8)|]. apply rtc_once. by apply (rs_read_ensure calm 0 calm_pending 4 0 1 3).
Qed.
Lemma calm_landed_reachable : read_reachable true (calm_landed, [calm_pending], []).
Proof.
  destruct (calm_reachable true) as (w & O & H). exists w. split; [exact O|]. unfold calm_landed. do 4 (eapply rtc_r; [|apply (rs_download true false); first [by eapply dl_close|by eapply dl_fetch]]). exact H.
Qed.
Lemma reads_return_the_file_witness : exists r, read_end calm_pending calm_landed = Ok r /\ forall data, r = Some (inr data) -> zlen data <= 3 /\ (zlen data = 3 \/ wholeAt (chunks calm_landed) [0%nat; 1%nat] -> data = [2; 3; 4]).
Proof. apply (proj2 (proj2 (reads_return_the_file calm_landed [calm_pending] [] calm_landed_reachable)) calm_pending); [left|reflexivity]. Defined.
Lemma downloads_answer_reads_witness : exists w', download false calm_world w'.
Proof. apply (proj1 (downloads_answer_reads calm_world [calm_pending] [] (calm_reachable false))). by vm_compute. Defined.
End ReadCache.
