(* ===== verification/Rpc.v ===== *)
(** Remote calls over the named pipes: the packets of [rpc/packet.go] and [rpc/types.go],
    the responses of [rpc/rpc.go] made in the repository, and the two ways a client talks
    to a pipe ([conn.go]: a write and a read of [srvsvc], and FSCTL_PIPE_TRANSCEIVE).

    A reader is the bytes still to come; [io.ReadFull] fails on fewer than were asked for.
    A Go string is its bytes, a [string]; its runes are [runesOf] it.  Marshalling by the
    NDR library, and the LSA requests and responses it defines, are arguments. *)
From S2P Require Import Prelude Bytes Text Request Smb2Const.
Import Text.

Module Rpc.
Inductive rpcErr := ErrUnsupportedPacketType | ErrTruncated | ErrTooLongToSend | ErrShortRead.
Abbreviation out := (outcome rpcErr).

(** ** Reading and writing *)
Definition readFull (n : Z) (r : list Z) : out (list Z * list Z) :=
  if zlen r <? n then Err ErrShortRead else mret (take (Z.to_nat n) r, drop (Z.to_nat n) r).

Definition HeaderSize : Z := 16.
Definition NDR32 : list Z := [0x04; 0x5d; 0x88; 0x8a; 0xeb; 0x1c; 0xc9; 0x11; 0x9f; 0xe8; 0x08; 0x00; 0x2b; 0x10; 0x48; 0x60].
Definition NDR64 : list Z := [0x33; 0x05; 0x71; 0x71; 0xba; 0xbe; 0x37; 0x49; 0x83; 0x19; 0xb5; 0xdb; 0xef; 0x9c; 0xcc; 0x36].
Definition BIND_TIME_FEATURES : list Z := [0x2c; 0x1c; 0xb7; 0x6c; 0x12; 0x98; 0x40; 0x45; 0x03; 0x00; 0x00; 0x00; 0x00; 0x00; 0x00; 0x00].
Definition PACKET_TYPE_REQUEST : Z := 0x00.
Definition PACKET_TYPE_RESPONSE : Z := 0x02.
Definition PACKET_TYPE_BIND : Z := 0x0b.
Definition PACKET_TYPE_BIND_ACK : Z := 0x0c.
Definition PFC_FIRST_FRAG : Z := 0x01.
Definition PFC_LAST_FRAG : Z := 0x02.

Record Header := mkHeader {
  RPCVersionMajor : Z; RPCVersionMinor : Z; PacketType : Z; PacketFlags : Z; DataRepresentation : Z; FragLength : Z; AuthLength : Z; CallID : Z;
}.
Definition Header_Encode (h : Header) : list Z :=
  [RPCVersionMajor h; RPCVersionMinor h; PacketType h; PacketFlags h] ++ le_enc 4 (DataRepresentation h) ++ le_enc 2 (FragLength h) ++ le_enc 2 (AuthLength h) ++ le_enc 4 (CallID h).
Definition Header_Decode (r : list Z) : out (Header * list Z) :=
  '(buf, r) ← readFull 16 r;
  b0 ← index buf 0; b1 ← index buf 1; b2 ← index buf 2; b3 ← index buf 3;
  mret (mkHeader b0 b1 b2 b3 (le_dec (sub buf 4 8)) (le_dec (sub buf 8 10)) (le_dec (sub buf 10 12)) (le_dec (sub buf 12 16)), r).
Definition NewHeader (pt pf callID : Z) : Header := mkHeader 5 0 pt pf 0x10 0 0 callID.
Definition set_FragLength (n : Z) (h : Header) : Header :=
  mkHeader (RPCVersionMajor h) (RPCVersionMinor h) (PacketType h) (PacketFlags h) (DataRepresentation h) n (AuthLength h) (CallID h).

Record SyntaxID := Syntax { IfUUID : list Z; IfVersionMajor : Z; IfVersionMinor : Z }.
Definition SyntaxID_Encode (s : SyntaxID) : list Z := IfUUID s ++ le_enc 2 (IfVersionMajor s) ++ le_enc 2 (IfVersionMinor s).
Definition SyntaxID_Decode (r : list Z) : out (SyntaxID * list Z) :=
  '(buf, r) ← readFull 20 r;
  mret (Syntax (sub buf 0 16) (le_dec (sub buf 16 18)) (le_dec (sub buf 18 20)), r).

Record Context_ := mkContext { ContextID : Z; AbstractSyntax : SyntaxID; TransferSyntaxes : list SyntaxID }.
Definition Context_Encode (c : Context_) : list Z :=
  le_enc 2 (ContextID c) ++ le_enc 2 (zlen (TransferSyntaxes c)) ++ SyntaxID_Encode (AbstractSyntax c) ++ concat (map SyntaxID_Encode (TransferSyntaxes c)).
Fixpoint readSyntaxes (n : nat) (r : list Z) : out (list SyntaxID * list Z) :=
  match n with
  | O => mret ([], r)
  | S n => '(s, r) ← SyntaxID_Decode r; '(l, r) ← readSyntaxes n r; mret (s :: l, r)
  end.
Definition Context_Decode (r : list Z) : out (Context_ * list Z) :=
  '(buf, r) ← readFull 4 r;
  '(a, r) ← SyntaxID_Decode r;
  '(l, r) ← readSyntaxes (Z.to_nat (le_dec (sub buf 2 4))) r;
  mret (mkContext (le_dec (sub buf 0 2)) a l, r).

(** A list as long as a count says, read one by one; each takes bytes, so the bytes bound the turns. *)
Fixpoint readMany {A} (read : list Z -> out (A * list Z)) (fuel : nat) (count : Z) (r : list Z) : out (list A * list Z) :=
  if count <=? 0 then mret ([], r)
  else match fuel with
       | O => Stuck
       | S fuel => '(x, r) ← read r; '(l, r) ← readMany read fuel (count - 1) r; mret (x :: l, r)
       end.

Record Bind := mkBind { MaxXmitFrag : Z; MaxRecvFrag : Z; AssocGroupID : Z; ContextList : list Context_ }.
Definition Bind_Encode (b : Bind) : list Z :=
  le_enc 2 (MaxXmitFrag b) ++ le_enc 2 (MaxRecvFrag b) ++ le_enc 4 (AssocGroupID b) ++ le_enc 4 (zlen (ContextList b)) ++ concat (map Context_Encode (ContextList b)).
Definition Bind_Decode (r : list Z) : out (Bind * list Z) :=
  '(buf, r) ← readFull 12 r;
  '(l, r) ← readMany Context_Decode (S (length r)) (le_dec (sub buf 8 12)) r;
  mret (mkBind (le_dec (sub buf 0 2)) (le_dec (sub buf 2 4)) (le_dec (sub buf 4 8)) l, r).

Record Result := mkResult { DefResult : Z; ProviderReason : Z; TransferSyntax : SyntaxID }.
Definition Result_Encode (x : Result) : list Z := le_enc 2 (DefResult x) ++ le_enc 2 (ProviderReason x) ++ SyntaxID_Encode (TransferSyntax x).
Definition Result_Decode (r : list Z) : out (Result * list Z) :=
  '(buf, r) ← readFull 4 r;
  '(s, r) ← SyntaxID_Decode r;
  mret (mkResult (le_dec (sub buf 0 2)) (le_dec (sub buf 2 4)) s, r).

Definition pad4 (buf : list Z) : list Z := buf ++ replicate (Z.to_nat (Request.Roundup (zlen buf) 4 - zlen buf)) 0.
Record BindAck := mkBindAck { a_MaxXmitFrag : Z; a_MaxRecvFrag : Z; a_AssocGroupID : Z; PortSpec : list Z; ResultList : list Result }.
Definition BindAck_Encode (a : BindAck) : list Z :=
  pad4 (le_enc 2 (a_MaxXmitFrag a) ++ le_enc 2 (a_MaxRecvFrag a) ++ le_enc 4 (a_AssocGroupID a) ++ le_enc 2 (zlen (PortSpec a) + 1) ++ PortSpec a ++ [0]) ++
  le_enc 4 (zlen (ResultList a)) ++ concat (map Result_Encode (ResultList a)).
Definition BindAck_Decode (r : list Z) : out (BindAck * list Z) :=
  '(buf, r) ← readFull 10 r;
  let addrLen := le_dec (sub buf 8 10) in
  if addrLen =? 0 then Err ErrTruncated
  else
    '(addr, r) ← readFull addrLen r;
    port ← slice addr 0 (addrLen - 1);
    '(_, r) ← readFull (Request.Roundup (10 + addrLen) 4 - 10 - addrLen) r;
    '(num, r) ← readFull 4 r;
    '(l, r) ← readMany Result_Decode (S (length r)) (le_dec num) r;
    mret (mkBindAck (le_dec (sub buf 0 2)) (le_dec (sub buf 2 4)) (le_dec (sub buf 4 8)) port l, r).

Record Request := mkRequest { AllocHint : Z; r_ContextID : Z; OpNum : Z; ObjectUUID : option (list Z) }.
Definition Request_Encode (q : Request) : list Z :=
  le_enc 4 (AllocHint q) ++ le_enc 2 (r_ContextID q) ++ le_enc 2 (OpNum q) ++ default [] (ObjectUUID q).
(** [uuid] says that the packet decoded into has room for an object. *)
Definition Request_Decode (uuid : bool) (r : list Z) : out (Request * list Z) :=
  '(buf, r) ← readFull 8 r;
  let q := mkRequest (le_dec (sub buf 0 4)) (le_dec (sub buf 4 6)) (le_dec (sub buf 6 8)) in
  if uuid then '(id, r) ← readFull 16 r; mret (q (Some id), r) else mret (q None, r).

Record Response := mkResponse { s_AllocHint : Z; s_ContextID : Z; CancelCount : Z }.
Definition Response_Encode (p : Response) : list Z := le_enc 4 (s_AllocHint p) ++ le_enc 2 (s_ContextID p) ++ le_enc 2 (CancelCount p).
Definition Response_Decode (r : list Z) : out (Response * list Z) :=
  '(buf, r) ← readFull 8 r;
  mret (mkResponse (le_dec (sub buf 0 4)) (le_dec (sub buf 4 6)) (le_dec (sub buf 6 8)), r).

(** ** Packets *)
Inductive Body := BBind (b : Bind) | BBindAck (a : BindAck) | BRequest (q : Request) | BResponse (p : Response).
Definition Body_Encode (b : Body) : list Z :=
  match b with BBind b => Bind_Encode b | BBindAck a => BindAck_Encode a | BRequest q => Request_Encode q | BResponse p => Response_Encode p end.
Record InboundPacket := Inbound { ip_Header : Header; ip_Body : Body; ip_Payload : list Z }.
Definition Read (r : list Z) : out InboundPacket :=
  '(h, r) ← Header_Decode r;
  '(b, r) ← (if PacketType h =? PACKET_TYPE_BIND then '(b, r) ← Bind_Decode r; mret (BBind b, r)
             else if PacketType h =? PACKET_TYPE_BIND_ACK then '(a, r) ← BindAck_Decode r; mret (BBindAck a, r)
             else if PacketType h =? PACKET_TYPE_REQUEST then '(q, r) ← Request_Decode false r; mret (BRequest q, r)
             else if PacketType h =? PACKET_TYPE_RESPONSE then '(p, r) ← Response_Decode r; mret (BResponse p, r)
             else Err ErrUnsupportedPacketType);
  mret (Inbound h b r).
Definition Write (h : Header) (body : list Z) : out (list Z) :=
  if zlen body + HeaderSize >? 65535 then Err ErrTooLongToSend
  else mret (Header_Encode (set_FragLength (u16 (u16 (zlen body) + HeaderSize)) h) ++ body).

Definition noSyntax : SyntaxID := Syntax (replicate 16 0) 0 0.
(** The codes are the DCE/RPC library's. *)
Section bindAck.
Context (ProviderRejection ProposedTransferSyntaxesNotSupported NegotiateAck : Z).
Definition resultOf (ts : SyntaxID) : Result :=
  if bool_decide (IfUUID ts = NDR32) then mkResult 0 0 ts
  else if bool_decide (IfUUID ts = NDR64) then mkResult ProviderRejection ProposedTransferSyntaxesNotSupported noSyntax
  else if bool_decide (IfUUID ts = BIND_TIME_FEATURES) then mkResult NegotiateAck 3 noSyntax
  else mkResult ProviderRejection ProposedTransferSyntaxesNotSupported noSyntax.
(** [ag] is four bytes at random. *)
Definition NewBindAck (ag : list Z) (callID : Z) (addr : string) (contexts : list Context_) : Header * BindAck :=
  (NewHeader PACKET_TYPE_BIND_ACK (PFC_FIRST_FRAG .| PFC_LAST_FRAG) callID,
   mkBindAck 0xffff 0xffff (le_dec ag) (bytesOf addr) (concat (map (fun c => map resultOf (TransferSyntaxes c)) contexts))).

End bindAck.

(** ** What a call carries *)
Definition fits (off length size : Z) : bool := u64 (off + length) <=? size.
Definition uint32At (buf : list Z) (off : Z) : out Z :=
  if negb (fits off 4 (zlen buf)) then Err ErrTruncated else s ← slice buf off (u64 (off + 4)); mret (le_dec s).
(** The runes of the string, and how far past [off] it reached. *)
Definition ndrString (buf : list Z) (off : Z) : out (list Z * Z) :=
  if negb (fits off 12 (zlen buf)) then Err ErrTruncated
  else
    c ← slice buf (u64 (off + 8)) (u64 (off + 12));
    let count := le_dec c in
    let length := u64 (count * 2) in
    if negb (fits (u64 (off + 12)) length (zlen buf)) then Err ErrTruncated
    else if count =? 0 then mret ([], 12)
    else s ← slice buf (u64 (off + 12)) (u64 (off + 12 + length)); mret (DecodeToString s, u64 (12 + length)).

Record NetShareGetInfoRequest := GetInfo { gi_Server : list Z; gi_Share : list Z; gi_Level : Z }.
Definition NetShareGetInfoRequest_Unmarshal (buf : list Z) : out NetShareGetInfoRequest :=
  ptr ← uint32At buf 0;
  let off := if ptr >? 256 then 4 else 0 in
  '(server, n) ← ndrString buf off;
  let off := Request.Roundup (off + n) 4 in
  ptr ← uint32At buf off;
  let off := if ptr >? 256 then off + 4 else off in
  '(share, n) ← ndrString buf off;
  let off := Request.Roundup (off + n) 4 in
  level ← uint32At buf off;
  mret (GetInfo server share level).
Record NetShareEnumAllRequest := EnumAll { ea_Server : list Z; ea_Level : Z; ea_MaxBuffer : Z }.
Definition NetShareEnumAllRequest_Unmarshal (buf : list Z) : out NetShareEnumAllRequest :=
  '(server, n) ← ndrString buf 4;
  let off := Request.Roundup (4 + n) 4 in
  level ← uint32At buf off;
  maxBuffer ← uint32At buf (off + 20);
  mret (EnumAll server level maxBuffer).
Record MdsOpenRequest := MdsOpen { mo_DeviceID : Z; mo_Unkn2 : Z; mo_Unkn3 : Z; ShareMountPath : list Z; ShareName : list Z; mo_MaxCount : Z }.
Definition MdsOpenRequest_Unmarshal (buf : list Z) : out MdsOpenRequest :=
  if negb (fits 0 24 (zlen buf)) then Err ErrTruncated
  else
    deviceID ← get_le buf 0 4; unkn2 ← get_le buf 4 4; unkn3 ← get_le buf 8 4; maxCount ← get_le buf 12 4; smpLen ← get_le buf 20 4;
    if (smpLen =? 0) || negb (fits 24 smpLen (zlen buf)) then Err ErrTruncated
    else
      path ← slice buf 24 (24 + smpLen - 1);
      let off := Request.Roundup (24 + smpLen) 4 in
      if negb (fits off 12 (zlen buf)) then Err ErrTruncated
      else
        snLen ← get_le buf (off + 8) 4;
        if (snLen =? 0) || negb (fits (off + 12) snLen (zlen buf)) then Err ErrTruncated
        else name ← slice buf (off + 12) (off + 12 + snLen - 1); mret (MdsOpen deviceID unkn2 unkn3 path name maxCount).

(** Names as the server puts them: counted in the bytes of the Go string. *)
Definition ndrName (s : string) : list Z :=
  let n := Z.of_nat (String.length s) + 1 in
  le_enc 4 n ++ le_enc 4 0 ++ le_enc 4 n ++ EncodeStringToBytes (runesOf s) ++ [0; 0].
Definition appendName (buf : list Z) (s : string) : list Z := pad4 (buf ++ ndrName s).
Record NetShareInfo1 := ShareInfo1 { si_Share : string; si_Type : Z; si_Comment : string }.
Definition NetShareInfo1Response_MarshalNDR (i : NetShareInfo1) (result : Z) : list Z :=
  let buf := le_enc 4 1 ++ le_enc 4 0x00020004 ++ le_enc 4 0x00020008 ++ le_enc 4 (si_Type i) ++ le_enc 4 0x0002000c in
  appendName (appendName buf (si_Share i)) (si_Comment i) ++ le_enc 4 result.
Definition NetShareEnumAllResponse_MarshalNDR (shares : list NetShareInfo1) (result : Z) : list Z :=
  let n := zlen shares in
  let buf := le_enc 4 1 ++ le_enc 4 1 ++ le_enc 4 0x0002000c ++ le_enc 4 n ++ le_enc 4 0x00020010 ++ le_enc 4 n in
  let buf := buf ++ concat (imap (fun i s => le_enc 4 (0x00020014 + Z.of_nat i * 8) ++ le_enc 4 (si_Type s) ++ le_enc 4 (0x00020018 + Z.of_nat i * 8)) shares) in
  let buf := fold_left (fun buf s => appendName (appendName buf (si_Share s)) (si_Comment s)) shares buf in
  buf ++ le_enc 4 n ++ le_enc 4 (0x00020014 + u32 (n * 2)) ++ le_enc 4 0 ++ le_enc 4 result.
Definition MdsOpenResponse_MarshalNDR (q : MdsOpenRequest) (sharePath : string) : list Z :=
  let buf := le_enc 4 (mo_DeviceID q) ++ le_enc 4 (mo_Unkn2 q) ++ le_enc 4 (mo_Unkn3 q) ++ le_enc 4 (mo_MaxCount q) ++ le_enc 4 0 ++
    le_enc 4 (Z.of_nat (String.length sharePath) + 1) ++ bytesOf sharePath ++ [0] in
  pad4 buf ++ replicate 20 0.

(** ** Pipes *)
Definition toLower (s : string) : string :=
  String.string_of_list_ascii (map (fun a => let n := Ascii.N_of_ascii a in if (65 <=? n)%N && (n <=? 90)%N then Ascii.ascii_of_N (n + 32) else a) (String.list_ascii_of_string s)).
Definition LSA_CLOSE : Z := 0x00.
Definition LSA_LOOKUP_NAMES : Z := 0x0e.
Definition LSA_OPEN_POLICY_2 : Z := 0x2c.
Definition LSA_GET_USER_NAME : Z := 0x2d.
Definition NET_SHARE_GET_INFO : Z := 0x10.
Definition NET_SHARE_ENUM_ALL : Z := 0x0f.
Definition MDS_OPEN : Z := 0x00.
Definition STYPE_DISKTREE : Z := 0x00000000.
Definition STYPE_IPC_HIDDEN : Z := 0x80000003.
(** [sh.name] and [sh.remark] of every share, in some order. *)
Definition enumShares (shares : list (string * string)) : list NetShareInfo1 :=
  map (fun sh => ShareInfo1 sh.1 STYPE_DISKTREE sh.2) shares ++ [ShareInfo1 "IPC$" STYPE_IPC_HIDDEN "IPC service"].

Section pipes.
Context (ProviderRejection ProposedTransferSyntaxesNotSupported NegotiateAck : Z).
(** What the security context of a session is, how the NDR library marshals a payload, and
    the handle an LSA request of the library names, if it unmarshals. *)
Context {secctx : Type}.
Inductive Payload :=
  | PShareInfo (i : NetShareInfo1) (result : Z) | PShareEnum (shares : list NetShareInfo1) (result : Z) | PMdsOpen (q : MdsOpenRequest) (path : string)
  | PUserName (user domain : string) | POpenPolicy (handle : Z) | PLookupNames (ctx : secctx) | PClose.
Context (marshal : Payload -> option (list Z)) (unmarshalHandle : Z -> list Z -> option Z).

(** A payload that does not marshal leaves the body empty. *)
Definition ResponseBody_Encode (p : Payload) : list Z :=
  match marshal p with
  | Some b => Response_Encode (mkResponse (u32 (zlen b)) 0 0) ++ b
  | None => []
  end.
Definition responseHeader (callID : Z) : Header := NewHeader PACKET_TYPE_RESPONSE (PFC_FIRST_FRAG .| PFC_LAST_FRAG) callID.

Record pipe := Pipe { p_name : string; srvsvcData : option (list Z); lsaFrames : gmap Z secctx }.
Definition set_data (d : option (list Z)) (p : pipe) : pipe := Pipe (p_name p) d (lsaFrames p).
Definition set_frames (m : gmap Z secctx) (p : pipe) : pipe := Pipe (p_name p) (srvsvcData p) m.
Definition isSrvsvc (name : string) : bool := String.eqb (toLower name) "srvsvc".

(** An answer of the handlers: a status, or the bytes of the reply. *)
Abbreviation answer := (Z + list Z)%type.
Inductive packet := NoPacket | APacket (h : Header) (body : list Z).
Definition writePacket (k : packet) : out (list Z) := match k with NoPacket => mret [] | APacket h body => Write h body end.

(** A status, or how much was written. *)
Definition srvsvcWrite (is3x : bool) (flags : Z) (buf : list Z) (p : pipe) : (Z + Z) * pipe :=
  if is3x && has flags (WRITEFLAG_WRITE_THROUGH .| WRITEFLAG_WRITE_UNBUFFERED) then (inl STATUS_INVALID_PARAMETER, p)
  else (inr (zlen buf), set_data (Some buf) p).
(** [None]: nothing was written, and the read goes on as that of a file. *)
Definition srvsvcRead (ag : list Z) (shares : list (string * string)) (p : pipe) : out (option answer * pipe) :=
  match srvsvcData p with
  | None => mret (None, p)
  | Some data =>
      match Read data with
      | Ok ip =>
          let callID := CallID (ip_Header ip) in
          let k :=
            match ip_Body ip with
            | BBind b => let '(h, a) := NewBindAck ProviderRejection ProposedTransferSyntaxesNotSupported NegotiateAck ag callID "\pipe\srvsvc" (ContextList b) in APacket h (BindAck_Encode a)
            | BRequest q =>
                if OpNum q =? NET_SHARE_ENUM_ALL then
                  match NetShareEnumAllRequest_Unmarshal (ip_Payload ip) with
                  | Ok e => if ea_Level e =? 1 then APacket (responseHeader callID) (ResponseBody_Encode (PShareEnum (enumShares shares) STATUS_OK)) else NoPacket
                  | _ => NoPacket
                  end
                else NoPacket
            | _ => NoPacket
            end in
          match writePacket k with
          | Ok b => mret (Some (inr b), set_data None p)
          | Err _ => mret (Some (inl STATUS_INSUFFICIENT_RESOURCES), set_data None p)
          | _ => Panic
          end
      | Err _ => mret (Some (inl STATUS_INVALID_PARAMETER), set_data None p)
      | _ => Panic
      end
  end.
(** FSCTL_PIPE_TRANSCEIVE.  [newHandle] is the random handle of a policy opened. *)
Definition transceive (ag : list Z) (shares : list (string * string)) (shareName remark user domain : string) (ctx : secctx) (newHandle : Z)
    (input : list Z) (p : pipe) : out (answer * pipe) :=
  if negb (String.eqb shareName "ipc$") then mret (inl STATUS_NOT_SUPPORTED, p)
  else
    match Read input with
    | Err _ => mret (inl STATUS_INVALID_PARAMETER, p)
    | Ok ip =>
        let callID := CallID (ip_Header ip) in
        let name := toLower (p_name p) in
        let reply x := (inr (APacket (responseHeader callID) (ResponseBody_Encode x)), p) in
        let nothing := (inr NoPacket, p) in
        let '(r, p) :=
          match ip_Body ip with
          | BBind b =>
              let addr := if String.eqb name "lsarpc" then "\pipe\lsass" else if String.eqb name "srvsvc" then "\pipe\srvsvc" else if String.eqb name "mdssvc" then "\pipe\mdssvc" else "" in
              let '(h, a) := NewBindAck ProviderRejection ProposedTransferSyntaxesNotSupported NegotiateAck ag callID addr (ContextList b) in (inr (APacket h (BindAck_Encode a)), p)
          | BRequest q =>
              if String.eqb name "lsarpc" then
                if OpNum q =? LSA_GET_USER_NAME then reply (PUserName user domain)
                else if OpNum q =? LSA_OPEN_POLICY_2 then
                  (inr (APacket (responseHeader callID) (ResponseBody_Encode (POpenPolicy newHandle))), set_frames (<[newHandle := ctx]> (lsaFrames p)) p)
                else if OpNum q =? LSA_LOOKUP_NAMES then
                  match unmarshalHandle LSA_LOOKUP_NAMES (ip_Payload ip) with
                  | None => nothing
                  | Some hd => match lsaFrames p !! hd with Some c => reply (PLookupNames c) | None => (inl STATUS_INVALID_PARAMETER, p) end
                  end
                else if OpNum q =? LSA_CLOSE then
                  match unmarshalHandle LSA_CLOSE (ip_Payload ip) with
                  | None => nothing
                  | Some hd =>
                      let p' := set_frames (delete hd (lsaFrames p)) p in
                      match lsaFrames p !! hd with
                      | Some _ => (inr (APacket (responseHeader callID) (ResponseBody_Encode PClose)), p')
                      | None => (inl STATUS_INVALID_PARAMETER, p')
                      end
                  end
                else nothing
              else if String.eqb name "srvsvc" then
                if OpNum q =? NET_SHARE_GET_INFO then
                  match NetShareGetInfoRequest_Unmarshal (ip_Payload ip) with
                  | Ok g => if gi_Level g =? 1 then reply (PShareInfo (ShareInfo1 (ofRunes (gi_Share g)) 0 remark) STATUS_OK) else nothing
                  | _ => nothing
                  end
                else if OpNum q =? NET_SHARE_ENUM_ALL then
                  match NetShareEnumAllRequest_Unmarshal (ip_Payload ip) with
                  | Ok e => if ea_Level e =? 1 then reply (PShareEnum (enumShares shares) STATUS_OK) else nothing
                  | _ => nothing
                  end
                else nothing
              else if String.eqb name "mdssvc" then
                if OpNum q =? MDS_OPEN then
                  match MdsOpenRequest_Unmarshal (ip_Payload ip) with Ok m => reply (PMdsOpen m "") | _ => nothing end
                else nothing
              else nothing
          | _ => nothing
          end in
        match r with
        | inl status => mret (inl status, p)
        | inr k => match writePacket k with
                   | Ok b => mret (inr b, p)
                   | Err _ => mret (inl STATUS_INSUFFICIENT_RESOURCES, p)
                   | _ => Panic
                   end
        end
    | _ => Panic
    end.
End pipes.

(** ** Reading what was written *)
Lemma readFull_app n a b : zlen a = n -> readFull n (a ++ b) = Ok (a, b).
Proof.
  intros <-. unfold readFull. rewrite zlen_app. pose proof (zlen_nonneg b). destruct (Z.ltb_spec (zlen a + zlen b) (zlen a)); [lia|]. unfold zlen. rewrite Nat2Z.id.
  by rewrite take_app_length, drop_app_length.
Qed.
Lemma sub_skip {A} (a b : list A) i j : zlen a <= i -> i <= j -> sub (a ++ b) i j = sub b (i - zlen a) (j - zlen a).
Proof.
  intros Hi Hj. unfold sub, zlen in *. rewrite drop_app_ge by lia. f_equal; [lia|]. f_equal. lia.
Qed.
Lemma sub_head {A} (a b : list A) : sub (a ++ b) 0 (zlen a) = a.
Proof. unfold sub, zlen. rewrite Z.sub_0_r, Nat2Z.id, drop_0. by rewrite take_app_length. Qed.
Lemma le_at n v (a b : list Z) i j : zlen a = i -> j - i = Z.of_nat n -> 0 <= v < 2 ^ (8 * Z.of_nat n) -> le_dec (sub (a ++ le_enc n v ++ b) i j) = v.
Proof.
  intros Ha Hn Hv. rewrite sub_skip by lia. rewrite Ha, Z.sub_diag. replace (j - i) with (zlen (le_enc n v)) by (rewrite zlen_le_enc; lia).
  rewrite sub_head. by apply le_dec_enc_small.
Qed.

Definition syntaxOk (s : SyntaxID) : Prop := length (IfUUID s) = 16%nat /\ is_u16 (IfVersionMajor s) /\ is_u16 (IfVersionMinor s).
Lemma syntax_reads s r : syntaxOk s -> SyntaxID_Decode (SyntaxID_Encode s ++ r) = Ok (s, r).
Proof.
  intros (H1 & H2 & H3). unfold SyntaxID_Decode. assert (zlen (IfUUID s) = 16) as HL by (unfold zlen; rewrite H1; done). rewrite readFull_app.
  2: { unfold SyntaxID_Encode. rewrite !zlen_app, !zlen_le_enc. lia. }
  cbn [mbind outcome_bind]. unfold SyntaxID_Encode. rewrite <- HL at 1. rewrite sub_head. rewrite (le_at 2 (IfVersionMajor s)) by (done || lia).
  rewrite app_assoc, <- (app_nil_r (le_enc 2 (IfVersionMinor s))), (le_at 2 (IfVersionMinor s)) by (rewrite ?zlen_app, ?zlen_le_enc; done || lia). by destruct s.
Qed.
(** A word among words. *)
Ltac word v n := match goal with |- context [le_dec (sub ?l ?i ?j)] => replace (le_dec (sub l i j)) with v by (symmetry; change (le_dec (le_enc n v) = v); apply le_dec_enc_small; assumption || lia) end.

Lemma syntaxes_read l r : Forall syntaxOk l -> readSyntaxes (length l) (concat (map SyntaxID_Encode l) ++ r) = Ok (l, r).
Proof.
  induction 1 as [|s l Hs Hl IH]; [done|]. cbn [length readSyntaxes map concat]. rewrite <- app_assoc, (syntax_reads s) by done. run_bind. by rewrite IH.
Qed.
Definition contextOk (c : Context_) : Prop := is_u16 (ContextID c) /\ is_u16 (zlen (TransferSyntaxes c)) /\ syntaxOk (AbstractSyntax c) /\ Forall syntaxOk (TransferSyntaxes c).
Lemma context_reads c r : contextOk c -> Context_Decode (Context_Encode c ++ r) = Ok (c, r).
Proof.
  intros (H1 & H2 & H3 & H4). unfold Context_Decode, Context_Encode. rewrite (app_assoc (le_enc 2 (ContextID c))), <- !app_assoc, (app_assoc (le_enc 2 (ContextID c))), readFull_app by done. run_bind.
  rewrite syntax_reads by done. run_bind. word (zlen (TransferSyntaxes c)) 2%nat. unfold zlen. rewrite Nat2Z.id, syntaxes_read by done. run_bind. word (ContextID c) 2%nat. by destruct c.
Qed.
(** A list of things that read back, each of [m] bytes or more. *)
Lemma many_read {A} (ok : A -> Prop) (enc : A -> list Z) (read : list Z -> out (A * list Z)) l r fuel :
  (forall x r, ok x -> read (enc x ++ r) = Ok (x, r)) -> Forall ok l -> (length l <= fuel)%nat -> readMany read fuel (zlen l) (concat (map enc l) ++ r) = Ok (l, r).
Proof.
  intros Hr Hl. revert fuel. induction Hl as [|x l Hx Hl IH]; intros fuel Hf; [by destruct fuel|]. destruct fuel as [|fuel]; [simpl in Hf; lia|]. rewrite zlen_cons. pose proof (zlen_nonneg l).
  cbn [readMany map concat]. destruct (Z.leb_spec (1 + zlen l) 0); [lia|]. rewrite <- app_assoc, Hr by done. run_bind. replace (1 + zlen l - 1) with (zlen l) by lia. rewrite IH by (simpl in Hf; lia). done.
Qed.
Lemma length_concat_ge {A} (enc : A -> list Z) l : (forall x, (1 <= length (enc x))%nat) -> (length l <= length (concat (map enc l)))%nat.
Proof. intros H. induction l as [|x l IH]; [done|]. simpl. rewrite length_app. specialize (H x). lia. Qed.
Definition bindOk (b : Bind) : Prop := is_u16 (MaxXmitFrag b) /\ is_u16 (MaxRecvFrag b) /\ is_u32 (AssocGroupID b) /\ is_u32 (zlen (ContextList b)) /\ Forall contextOk (ContextList b).
Lemma bind_reads b r : bindOk b -> Bind_Decode (Bind_Encode b ++ r) = Ok (b, r).
Proof.
  intros (H1 & H2 & H3 & H4 & H5). unfold Bind_Decode, Bind_Encode. set (a1 := le_enc 2 (MaxXmitFrag b)). set (a2 := le_enc 2 (MaxRecvFrag b)). set (a3 := le_enc 4 (AssocGroupID b)). set (a4 := le_enc 4 (zlen (ContextList b))).
  replace ((a1 ++ a2 ++ a3 ++ a4 ++ concat (map Context_Encode (ContextList b))) ++ r) with ((a1 ++ a2 ++ a3 ++ a4) ++ concat (map Context_Encode (ContextList b)) ++ r) by (by rewrite <- !app_assoc).
  rewrite readFull_app by done. run_bind. unfold a1, a2, a3, a4. word (zlen (ContextList b)) 4%nat.
  rewrite (many_read contextOk Context_Encode Context_Decode (ContextList b) r) by
    (done || apply context_reads || (rewrite length_app; pose proof (length_concat_ge Context_Encode (ContextList b) ltac:(intros x; unfold Context_Encode; rewrite length_app, length_le_enc; lia)); lia)).
  run_bind. word (MaxXmitFrag b) 2%nat. word (MaxRecvFrag b) 2%nat. word (AssocGroupID b) 4%nat. by destruct b.
Qed.
Definition resultOk (x : Result) : Prop := is_u16 (DefResult x) /\ is_u16 (ProviderReason x) /\ syntaxOk (TransferSyntax x).
Lemma result_reads x r : resultOk x -> Result_Decode (Result_Encode x ++ r) = Ok (x, r).
Proof.
  intros (H1 & H2 & H3). unfold Result_Decode, Result_Encode. rewrite <- !app_assoc, (app_assoc (le_enc 2 (DefResult x))), readFull_app by done. run_bind. rewrite syntax_reads by done. run_bind.
  word (DefResult x) 2%nat. word (ProviderReason x) 2%nat. by destruct x.
Qed.
Lemma pad4_spec n : 0 <= n -> n <= Request.Roundup n 4 < n + 4 /\ (4 | Request.Roundup n 4).
Proof.
  intros Hn. unfold Request.Roundup. change (4 - 1) with (Z.ones 2). rewrite Z.ldiff_ones_r, Z.shiftl_mul_pow2, Z.shiftr_div_pow2 by lia. change (Z.ones 2) with 3. change (2 ^ 2) with 4.
  pose proof (Z.div_mod (n + 3) 4 ltac:(lia)). pose proof (Z.mod_pos_bound (n + 3) 4 ltac:(lia)). split; [lia|]. by exists ((n + 3) / 4).
Qed.
Definition ackOk (a : BindAck) : Prop :=
  is_u16 (a_MaxXmitFrag a) /\ is_u16 (a_MaxRecvFrag a) /\ is_u32 (a_AssocGroupID a) /\ is_u16 (zlen (PortSpec a) + 1) /\ is_u32 (zlen (ResultList a)) /\ Forall resultOk (ResultList a).
Lemma ack_reads a r : ackOk a -> BindAck_Decode (BindAck_Encode a ++ r) = Ok (a, r).
Proof.
  intros (H1 & H2 & H3 & H4 & H5 & H6). unfold BindAck_Decode, BindAck_Encode, pad4. pose proof (zlen_nonneg (PortSpec a)) as Hp.
  set (b1 := le_enc 2 (a_MaxXmitFrag a)). set (b2 := le_enc 2 (a_MaxRecvFrag a)). set (b3 := le_enc 4 (a_AssocGroupID a)). set (b4 := le_enc 2 (zlen (PortSpec a) + 1)).
  set (body := b1 ++ b2 ++ b3 ++ b4 ++ PortSpec a ++ [0]). assert (zlen body = 10 + (zlen (PortSpec a) + 1)) as HL by (unfold body; rewrite !zlen_app; unfold b1, b2, b3, b4; rewrite !zlen_le_enc; change (zlen [0]) with 1; lia).
  rewrite HL. set (pad := replicate _ 0). set (rs := concat (map Result_Encode (ResultList a))). set (num := le_enc 4 (zlen (ResultList a))).
  replace (((body ++ pad) ++ num ++ rs) ++ r) with ((b1 ++ b2 ++ b3 ++ b4) ++ (PortSpec a ++ [0]) ++ pad ++ num ++ rs ++ r) by (unfold body; by rewrite <- !app_assoc).
  rewrite readFull_app by done. run_bind. unfold b1, b2, b3, b4. word (zlen (PortSpec a) + 1) 2%nat. cbv zeta. destruct (Z.eqb_spec (zlen (PortSpec a) + 1) 0); [lia|].
  rewrite readFull_app by (rewrite zlen_app; done). run_bind. rewrite slice_Ok by (rewrite ?zlen_app; change (zlen [0]) with 1; lia). run_bind.
  replace (sub (PortSpec a ++ [0]) 0 (zlen (PortSpec a) + 1 - 1)) with (PortSpec a) by (replace (zlen (PortSpec a) + 1 - 1) with (zlen (PortSpec a)) by lia; by rewrite sub_head).
  destruct (pad4_spec (10 + (zlen (PortSpec a) + 1)) ltac:(lia)) as [Hr _]. rewrite readFull_app by (unfold pad; rewrite zlen_replicate; lia). run_bind. rewrite readFull_app by done. run_bind.
  unfold num. rewrite le_dec_enc_small by done.
  unfold rs. rewrite (many_read resultOk Result_Encode Result_Decode (ResultList a) r) by
    (done || apply result_reads || (rewrite length_app; pose proof (length_concat_ge Result_Encode (ResultList a) ltac:(intros x; unfold Result_Encode; rewrite length_app, length_le_enc; lia)); lia)).
  run_bind. word (a_MaxXmitFrag a) 2%nat. word (a_MaxRecvFrag a) 2%nat. word (a_AssocGroupID a) 4%nat. by destruct a.
Qed.
Definition requestOk (q : Request) : Prop := is_u32 (AllocHint q) /\ is_u16 (r_ContextID q) /\ is_u16 (OpNum q) /\ ObjectUUID q = None.
Lemma request_reads q r : requestOk q -> Request_Decode false (Request_Encode q ++ r) = Ok (q, r).
Proof.
  intros (H1 & H2 & H3 & H4). unfold Request_Decode, Request_Encode. rewrite H4, app_nil_r. rewrite readFull_app by done. run_bind. cbv zeta.
  word (AllocHint q) 4%nat. word (r_ContextID q) 2%nat. word (OpNum q) 2%nat. destruct q. simpl in *. by subst.
Qed.
Definition responseOk (p : Response) : Prop := is_u32 (s_AllocHint p) /\ is_u16 (s_ContextID p) /\ is_u16 (CancelCount p).
Lemma response_reads p r : responseOk p -> Response_Decode (Response_Encode p ++ r) = Ok (p, r).
Proof.
  intros (H1 & H2 & H3). unfold Response_Decode, Response_Encode. rewrite readFull_app by done. run_bind. word (s_AllocHint p) 4%nat. word (s_ContextID p) 2%nat. word (CancelCount p) 2%nat. by destruct p.
Qed.
Definition headerOk (h : Header) : Prop :=
  is_u32 (DataRepresentation h) /\ is_u16 (FragLength h) /\ is_u16 (AuthLength h) /\ is_u32 (CallID h).
Lemma header_reads h r : headerOk h -> Header_Decode (Header_Encode h ++ r) = Ok (h, r).
Proof.
  intros (H1 & H2 & H3 & H4). unfold Header_Decode, Header_Encode. rewrite readFull_app by done. run_bind. set (buf := _ ++ _).
  change (@index rpcErr Z buf 0) with (Ok (RPCVersionMajor h) : out Z). run_bind. change (@index rpcErr Z buf 1) with (Ok (RPCVersionMinor h) : out Z). run_bind.
  change (@index rpcErr Z buf 2) with (Ok (PacketType h) : out Z). run_bind. change (@index rpcErr Z buf 3) with (Ok (PacketFlags h) : out Z). run_bind. unfold buf.
  word (DataRepresentation h) 4%nat. word (FragLength h) 2%nat. word (AuthLength h) 2%nat. word (CallID h) 4%nat. by destruct h.
Qed.
Definition bodyOk (h : Header) (b : Body) : Prop :=
  match b with
  | BBind b => PacketType h = PACKET_TYPE_BIND /\ bindOk b
  | BBindAck a => PacketType h = PACKET_TYPE_BIND_ACK /\ ackOk a
  | BRequest q => PacketType h = PACKET_TYPE_REQUEST /\ requestOk q
  | BResponse p => PacketType h = PACKET_TYPE_RESPONSE /\ responseOk p
  end.
(** A packet written is a packet read.  For every kind of packet whose fields fit their
    widths, writing it with a payload either fails because the body is longer than a fragment
    can say, or gives bytes that begin with a header telling their own length and that read
    back as the very body and payload. *)
Theorem rpc_packets_read_back (h : Header) (b : Body) (payload : list Z) :
  headerOk h -> bodyOk h b ->
  if zlen (Body_Encode b ++ payload) + HeaderSize >? 65535 then Write h (Body_Encode b ++ payload) = Err ErrTooLongToSend
  else exists w, Write h (Body_Encode b ++ payload) = Ok w /\ Read w = Ok (Inbound (set_FragLength (zlen w) h) b payload).
Proof.
  intros (H1 & H2 & H3 & H4) Hb. unfold Write. destruct (zlen (Body_Encode b ++ payload) + HeaderSize >? 65535) eqn:E; [done|]. rewrite Z.gtb_ltb in E; apply Z.ltb_ge in E.
  eexists. split; [reflexivity|]. set (h' := set_FragLength _ h). pose proof (zlen_nonneg (Body_Encode b ++ payload)) as Hn. unfold HeaderSize in *.
  assert (u16 (u16 (zlen (Body_Encode b ++ payload)) + 16) = zlen (Body_Encode b ++ payload) + 16) as HF by (unfold u16; rewrite (Z.mod_small (zlen _)) by lia; apply Z.mod_small; lia).
  assert (zlen (Header_Encode h' ++ Body_Encode b ++ payload) = zlen (Body_Encode b ++ payload) + 16) as HL by (rewrite zlen_app; change (zlen (Header_Encode h')) with 16; lia).
  assert (set_FragLength (zlen (Header_Encode h' ++ Body_Encode b ++ payload)) h = h') as -> by (rewrite HL; unfold h', HeaderSize; by rewrite HF).
  unfold Read. rewrite header_reads; [|split_and!; [done|simpl; rewrite HF; unfold is_u16; lia|done|done]]. run_bind. change (PacketType h') with (PacketType h).
  destruct b as [b|a|q|p]; destruct Hb as [-> Hb]; simpl (_ =? _); cbv iota; cbn [Body_Encode].
  - by rewrite bind_reads.
  - by rewrite ack_reads.
  - by rewrite request_reads.
  - by rewrite response_reads.
Qed.

(** ** Whatever arrives

    A decoder that answers on bytes, and leaves bytes, [m] or more fewer than it was given. *)
Definition takes {A} (m : nat) (read : list Z -> out (A * list Z)) : Prop :=
  forall r, bytes r -> settled (read r) /\ forall x r', read r = Ok (x, r') -> bytes r' /\ (length r' + m <= length r)%nat.
Lemma takes_weaken {A} (m m' : nat) (read : list Z -> out (A * list Z)) : (m' <= m)%nat -> takes m read -> takes m' read.
Proof. intros Hm H r Hr. destruct (H r Hr) as [H1 H2]. split; [done|]. intros x r' E. destruct (H2 x r' E). split; [done|lia]. Qed.
Lemma takes_ret {A} (x : A) : takes 0 (fun r => mret (x, r)).
Proof. intros r Hr. split; [done|]. intros y r' E. injection E as <- <-. split; [done|lia]. Qed.
Lemma takes_bind {A B} (m n : nat) (f : list Z -> out (A * list Z)) (g : A -> list Z -> out (B * list Z)) :
  takes m f -> (forall x, takes n (g x)) -> takes (m + n) (fun r => '(x, r) ← f r; g x r).
Proof.
  intros Hf Hg r Hr. destruct (Hf r Hr) as [F1 F2]. destruct (f r) as [[x r']|e| |]; try done. destruct (F2 x r' eq_refl) as [F3 F4]. destruct (Hg x r' F3) as [G1 G2]. split; [exact G1|].
  intros y r'' E. destruct (G2 y r'' E). split; [done|lia].
Qed.
Lemma readFull_parts n r x r' : bytes r -> 0 <= n -> readFull n r = Ok (x, r') -> zlen x = n /\ bytes x.
Proof.
  unfold readFull. intros Hr Hn. destruct (Z.ltb_spec (zlen r) n); [done|]. intros E. injection E as <- <-. split; [unfold zlen in *; rewrite length_take; lia|by apply Forall_take].
Qed.
Lemma readFull_takes n : takes (Z.to_nat n) (readFull n).
Proof.
  intros r Hr. unfold readFull. destruct (Z.ltb_spec (zlen r) n); [done|]. split; [done|]. intros x r' E. injection E as <- <-. split; [by apply Forall_drop|]. rewrite length_drop. unfold zlen in *. lia.
Qed.
Lemma syntax_takes : takes 20 SyntaxID_Decode.
Proof. apply (takes_bind 20 0); [apply (readFull_takes 20)|]. intros x. apply takes_ret. Qed.
Lemma syntaxes_take n : takes 0 (readSyntaxes n).
Proof.
  induction n as [|n IH]; [apply takes_ret|]. eapply (takes_weaken (20 + 0)); [lia|]. simpl. apply (takes_bind 20 0); [apply syntax_takes|]. intros x.
  apply (takes_bind 0 0); [done|]. intros y. apply takes_ret.
Qed.
Lemma context_takes : takes 24 Context_Decode.
Proof.
  apply (takes_bind 4 20); [apply (readFull_takes 4)|]. intros x. apply (takes_bind 20 0); [apply syntax_takes|]. intros y. apply (takes_bind 0 0); [apply syntaxes_take|]. intros z. apply takes_ret.
Qed.
Lemma result_takes : takes 24 Result_Decode.
Proof. apply (takes_bind 4 20); [apply (readFull_takes 4)|]. intros x. apply (takes_bind 20 0); [apply syntax_takes|]. intros z. apply takes_ret. Qed.
Lemma many_take {A} (read : list Z -> out (A * list Z)) m : (1 <= m)%nat -> takes m read ->
  forall fuel count r, bytes r -> (length r < fuel)%nat -> settled (readMany read fuel count r) /\
    forall l r', readMany read fuel count r = Ok (l, r') -> bytes r' /\ (length r' + m * length l <= length r)%nat.
Proof.
  intros Hm Hr. induction fuel as [|fuel IH]; intros count r Hb Hf; [lia|]. cbn [readMany]. destruct (Z.leb_spec count 0).
  { split; [done|]. intros l r' E. injection E as <- <-. split; [done|]. simpl. lia. }
  destruct (Hr r Hb) as [R1 R2]. destruct (read r) as [[x r1]|e| |]; try done. destruct (R2 x r1 eq_refl) as [R3 R4]. run_bind. destruct (IH (count - 1) r1 R3 ltac:(lia)) as [I1 I2].
  destruct (readMany read fuel (count - 1) r1) as [[l r2]|e| |]; try done. destruct (I2 l r2 eq_refl) as [I3 I4]. split; [done|]. intros l' r' E. injection E as <- <-. split; [done|]. simpl. lia.
Qed.
Lemma many_takes {A} (read : list Z -> out (A * list Z)) m count : (1 <= m)%nat -> takes m read -> takes 0 (fun r => readMany read (S (length r)) count r).
Proof. intros Hm Hr r Hb. destruct (many_take read m Hm Hr (S (length r)) count r Hb ltac:(lia)) as [H1 H2]. split; [done|]. intros x r' E. destruct (H2 x r' E). split; [done|lia]. Qed.
Lemma bind_takes : takes 12 Bind_Decode.
Proof.
  apply (takes_bind 12 0); [apply (readFull_takes 12)|]. intros buf. apply (takes_bind 0 0); [apply (many_takes _ 24); [lia|apply context_takes]|]. intros x. apply takes_ret.
Qed.
Lemma ack_takes : takes 10 BindAck_Decode.
Proof.
  intros r Hr. unfold BindAck_Decode. pose proof (readFull_takes 10 r Hr) as [F1 F2]. pose proof (fun x r' => readFull_parts 10 r x r' Hr ltac:(lia)) as FP. destruct (readFull 10 r) as [[buf r1]|e| |]; try done.
  destruct (F2 buf r1 eq_refl) as [F3 F4]. destruct (FP buf r1 eq_refl) as [F5 F6]. run_bind. cbv zeta. set (n := le_dec (sub buf 8 10)).
  assert (0 <= n) as Hn by (pose proof (le_dec_bound (sub buf 8 10) (bytes_sub _ 8 10 F6)); lia). destruct (Z.eqb_spec n 0) as [|Hne]; [done|].
  pose proof (readFull_takes n r1 F3) as [G1 G2]. pose proof (fun x r' => readFull_parts n r1 x r' F3 Hn) as GP. destruct (readFull n r1) as [[addr r2]|e| |]; try done. destruct (G2 addr r2 eq_refl) as [G3 G4]. destruct (GP addr r2 eq_refl) as [G5 _]. run_bind.
  rewrite slice_Ok by lia. run_bind.
  assert (takes 0 (fun r => '(_, r) ← readFull (Request.Roundup (10 + n) 4 - 10 - n) r; '(num, r) ← readFull 4 r; '(l, r) ← readMany Result_Decode (S (length r)) (le_dec num) r;
    mret (mkBindAck (le_dec (sub buf 0 2)) (le_dec (sub buf 2 4)) (le_dec (sub buf 4 8)) (sub addr 0 (n - 1)) l, r))) as T.
  { apply (takes_bind 0 0); [eapply takes_weaken; [|apply readFull_takes]; lia|]. intros y. apply (takes_bind 0 0); [eapply takes_weaken; [|apply readFull_takes]; lia|]. intros num.
    apply (takes_bind 0 0); [apply (many_takes _ 24); [lia|apply result_takes]|]. intros x. apply takes_ret. }
  destruct (T r2 G3) as [A B]. split; [exact A|]. intros x r' E. destruct (B x r' E). split; [done|lia].
Qed.
Lemma request_takes b : takes 8 (Request_Decode b).
Proof.
  apply (takes_bind 8 0); [apply (readFull_takes 8)|]. intros x. destruct b; [|apply takes_ret]. apply (takes_bind 0 0); [eapply takes_weaken; [|apply readFull_takes]; lia|]. intros y. apply takes_ret.
Qed.
Lemma response_takes : takes 8 Response_Decode.
Proof. apply (takes_bind 8 0); [apply (readFull_takes 8)|]. intros x. apply takes_ret. Qed.
Lemma header_takes : takes 16 Header_Decode.
Proof.
  intros r Hr. unfold Header_Decode. pose proof (readFull_takes 16 r Hr) as [F1 F2]. pose proof (fun x r' => readFull_parts 16 r x r' Hr ltac:(lia)) as FP. destruct (readFull 16 r) as [[buf r1]|e| |]; try done.
  destruct (F2 buf r1 eq_refl) as [F3 F4]. destruct (FP buf r1 eq_refl) as [F5 _]. run_bind.
  destruct (@index_in_range Z rpcErr buf 0) as (b0 & -> & _); [lia|]. run_bind. destruct (@index_in_range Z rpcErr buf 1) as (b1 & -> & _); [lia|]. run_bind.
  destruct (@index_in_range Z rpcErr buf 2) as (b2 & -> & _); [lia|]. run_bind. destruct (@index_in_range Z rpcErr buf 3) as (b3 & -> & _); [lia|]. run_bind.
  split; [done|]. intros x r' E. injection E as <- <-. done.
Qed.
Lemma Read_settled r : bytes r -> settled (Read r) /\ forall ip, Read r = Ok ip -> bytes (ip_Payload ip) /\ (length (ip_Payload ip) + 24 <= length r)%nat.
Proof.
  intros Hr. unfold Read. destruct (header_takes r Hr) as [H1 H2]. destruct (Header_Decode r) as [[h r1]|e| |]; try done. destruct (H2 h r1 eq_refl) as [H3 H4]. run_bind.
  assert (takes 8 (fun r => if PacketType h =? PACKET_TYPE_BIND then '(b, r) ← Bind_Decode r; mret (BBind b, r)
             else if PacketType h =? PACKET_TYPE_BIND_ACK then '(a, r) ← BindAck_Decode r; mret (BBindAck a, r)
             else if PacketType h =? PACKET_TYPE_REQUEST then '(q, r) ← Request_Decode false r; mret (BRequest q, r)
             else if PacketType h =? PACKET_TYPE_RESPONSE then '(p, r) ← Response_Decode r; mret (BResponse p, r)
             else Err ErrUnsupportedPacketType)) as T.
  { repeat case_match; [| | | |done].
    - apply (takes_bind 8 0); [eapply takes_weaken; [|apply bind_takes]; lia|intros; apply takes_ret].
    - apply (takes_bind 8 0); [eapply takes_weaken; [|apply ack_takes]; lia|intros; apply takes_ret].
    - apply (takes_bind 8 0); [apply request_takes|intros; apply takes_ret].
    - apply (takes_bind 8 0); [apply response_takes|intros; apply takes_ret]. }
  destruct (T r1 H3) as [T1 T2]. cbv beta in T1, T2. destruct (if _ : bool then _ else _) as [[b r2]|e| |]; try done. destruct (T2 b r2 eq_refl). split; [done|]. intros ip E. injection E as <-. simpl. split; [done|lia].
Qed.

Section arguments.
Context (buf : list Z) (Hb : bytes buf) (Hl : zlen buf < 2 ^ 62).
Lemma ndrFits_spec off n : 0 <= off < 2 ^ 63 -> 0 <= n < 2 ^ 63 -> fits off n (zlen buf) = true <-> off + n <= zlen buf.
Proof using Type*. intros Ho Hn. unfold fits, u64. rewrite Z.mod_small by lia. apply Z.leb_le. Qed.
Lemma get_le_settled off n : 0 <= off -> 0 <= n -> off + n <= zlen buf -> exists v, @get_le rpcErr buf off n = Ok v /\ 0 <= v < 2 ^ (8 * n).
Proof using Type*. intros. by apply get_le_bytes. Qed.
Lemma uint32At_spec off : 0 <= off < 2 ^ 63 -> uint32At buf off = Err ErrTruncated \/ off + 4 <= zlen buf /\ exists v, uint32At buf off = Ok v /\ 0 <= v < 2 ^ 32.
Proof using Type*.
  intros Ho. unfold uint32At. destruct (fits off 4 (zlen buf)) eqn:E; [|by left]. apply ndrFits_spec in E; [|lia..]. right. split; [done|]. simpl. unfold u64. rewrite Z.mod_small by lia.
  destruct (get_le_settled off 4) as (v & Hv & Hr); [lia..|]. unfold get_le in Hv. rewrite slice_Ok in * by lia. injection Hv as Hv. exists v. split; [|done]. run_bind. unfold mret, outcome_ret. by rewrite Hv.
Qed.
Lemma ndrString_spec off : 0 <= off < 2 ^ 63 -> ndrString buf off = Err ErrTruncated \/ exists s n, ndrString buf off = Ok (s, n) /\ 12 <= n /\ off + n <= zlen buf.
Proof using Type*.
  intros Ho. unfold ndrString. destruct (fits off 12 (zlen buf)) eqn:E; [|by left]. apply ndrFits_spec in E; [|lia..]. simpl. unfold u64. rewrite (Z.mod_small (off + 8)), (Z.mod_small (off + 12)) by lia.
  destruct (get_le_settled (off + 8) 4) as (v & Hv & Hr); [lia..|]. unfold get_le in Hv. replace (off + 8 + 4) with (off + 12) in Hv by lia. rewrite slice_Ok in Hv |- * by lia. injection Hv as Hv. run_bind. rewrite Hv.
  rewrite (Z.mod_small (v * 2)) by lia. destruct (fits (off + 12) (v * 2) (zlen buf)) eqn:E2; [|by left]. apply ndrFits_spec in E2; [|lia..]. simpl. right.
  destruct (Z.eqb_spec v 0); [exists [], 12; split_and!; done || lia|]. rewrite !Z.mod_small by lia. rewrite slice_Ok by lia. run_bind. eexists _, _. split; [reflexivity|]. lia.
Qed.
End arguments.
Lemma getInfo_settled buf : bytes buf -> zlen buf < 2 ^ 62 -> settled (NetShareGetInfoRequest_Unmarshal buf).
Proof.
  intros Hb Hl. unfold NetShareGetInfoRequest_Unmarshal. destruct (uint32At_spec buf Hb Hl 0 ltac:(lia)) as [-> |[H0 (v & -> & _)]]; [done|]. run_bind.
  set (off := if v >? 256 then 4 else 0). assert (0 <= off <= 4) as Ho by (unfold off; destruct (v >? 256); lia). clearbody off. cbv zeta.
  destruct (ndrString_spec buf Hb Hl off ltac:(lia)) as [-> |(s & n & -> & H1 & H2)]; [done|]. run_bind. pose proof (pad4_spec (off + n) ltac:(lia)) as [P1 _]. set (off1 := Request.Roundup (off + n) 4) in *.
  destruct (uint32At_spec buf Hb Hl off1 ltac:(lia)) as [-> |[H3 (w & -> & _)]]; [done|]. run_bind.
  set (off2 := if w >? 256 then off1 + 4 else off1). assert (off1 <= off2 <= off1 + 4) as Ho2 by (unfold off2; destruct (w >? 256); lia). clearbody off2.
  destruct (ndrString_spec buf Hb Hl off2 ltac:(lia)) as [-> |(s2 & n2 & -> & H4 & H5)]; [done|]. run_bind. pose proof (pad4_spec (off2 + n2) ltac:(lia)) as [P2 _].
  by destruct (uint32At_spec buf Hb Hl (Request.Roundup (off2 + n2) 4) ltac:(lia)) as [-> |[H6 (x & -> & _)]].
Qed.
Lemma enumAll_settled buf : bytes buf -> zlen buf < 2 ^ 62 -> settled (NetShareEnumAllRequest_Unmarshal buf).
Proof.
  intros Hb Hl. unfold NetShareEnumAllRequest_Unmarshal. destruct (ndrString_spec buf Hb Hl 4 ltac:(lia)) as [-> |(s & n & -> & H1 & H2)]; [done|]. run_bind. pose proof (pad4_spec (4 + n) ltac:(lia)) as [P1 _]. cbv zeta. set (off := Request.Roundup (4 + n) 4) in *.
  destruct (uint32At_spec buf Hb Hl off ltac:(lia)) as [-> |[H3 (v & -> & _)]]; [done|]. run_bind. by destruct (uint32At_spec buf Hb Hl (off + 20) ltac:(lia)) as [-> |[H6 (x & -> & _)]].
Qed.
Lemma mdsOpen_settled buf : bytes buf -> zlen buf < 2 ^ 62 -> settled (MdsOpenRequest_Unmarshal buf).
Proof.
  intros Hb Hl. unfold MdsOpenRequest_Unmarshal. destruct (fits 0 24 (zlen buf)) eqn:E; [|done]. apply (ndrFits_spec buf Hb Hl) in E; [|lia..]. cbn [negb].
  destruct (get_le_settled buf Hb Hl 0 4) as (v1 & -> & _); [lia..|]. run_bind. destruct (get_le_settled buf Hb Hl 4 4) as (v2 & -> & _); [lia..|]. run_bind. destruct (get_le_settled buf Hb Hl 8 4) as (v3 & -> & _); [lia..|]. run_bind.
  destruct (get_le_settled buf Hb Hl 12 4) as (v4 & -> & _); [lia..|]. run_bind. destruct (get_le_settled buf Hb Hl 20 4) as (m & -> & Hm); [lia..|]. run_bind.
  destruct (Z.eqb_spec m 0); [done|]. destruct (fits 24 m (zlen buf)) eqn:E1; [|done]. apply (ndrFits_spec buf Hb Hl) in E1; [|lia..]. cbn [negb orb]. rewrite slice_Ok by lia. run_bind. cbv zeta.
  pose proof (pad4_spec (24 + m) ltac:(lia)) as [P1 _]. set (off := Request.Roundup (24 + m) 4) in *. destruct (fits off 12 (zlen buf)) eqn:E2; [|done]. apply (ndrFits_spec buf Hb Hl) in E2; [|lia..]. cbn [negb].
  destruct (get_le_settled buf Hb Hl (off + 8) 4) as (k & -> & Hk); [lia..|]. run_bind. destruct (Z.eqb_spec k 0); [done|]. destruct (fits (off + 12) k (zlen buf)) eqn:E3; [|done]. apply (ndrFits_spec buf Hb Hl) in E3; [|lia..]. cbn [negb orb].
  rewrite slice_Ok by lia. done.
Qed.
(** No bytes written to a pipe bring the server down.  Reading a packet, whatever counts it
    names, and unmarshalling the calls it may carry always come to a value or an error, after
    no more steps than there are bytes. *)
Theorem rpc_reads_return (r : list Z) : bytes r -> zlen r < 2 ^ 62 ->
  settled (Read r) /\ settled (NetShareGetInfoRequest_Unmarshal r) /\ settled (NetShareEnumAllRequest_Unmarshal r) /\ settled (MdsOpenRequest_Unmarshal r) /\
  (forall b r', Bind_Decode r = Ok (b, r') -> 24 * zlen (ContextList b) + 12 <= zlen r).
Proof.
  intros Hb Hl. split_and!; [by apply Read_settled|by apply getInfo_settled|by apply enumAll_settled|by apply mdsOpen_settled|].
  intros b r' E. unfold Bind_Decode in E. pose proof (readFull_takes 12 r Hb) as [_ F]. destruct (readFull 12 r) as [[buf r1]|e| |]; try done. destruct (F buf r1 eq_refl) as [F1 F2]. cbn [mbind outcome_bind] in E.
  destruct (many_take Context_Decode 24 ltac:(lia) context_takes (S (length r1)) (le_dec (sub buf 8 12)) r1 F1 ltac:(lia)) as [_ M]. destruct (readMany _ _ _ r1) as [[l r2]|e| |]; try done. destruct (M l r2 eq_refl) as [_ M2].
  injection E as <- <-. simpl. unfold zlen. lia.
Qed.

(** ** What a client reads

    The list of shares by the layout of NetrShareEnum: the count, the types of the entries,
    and behind them the strings, each counted in UTF-16 units. *)
Fixpoint readNames (n : nat) (buf : list Z) (off : Z) : out (list (list Z * list Z)) :=
  match n with
  | O => mret []
  | S n =>
      '(name, k) ← ndrString buf off; let off := Request.Roundup (off + k) 4 in
      '(comment, k) ← ndrString buf off; let off := Request.Roundup (off + k) 4 in
      l ← readNames n buf off; mret ((name, comment) :: l)
  end.
Fixpoint readTypes (n : nat) (buf : list Z) (off : Z) : out (list Z) :=
  match n with O => mret [] | S n => t ← uint32At buf (off + 4); l ← readTypes n buf (off + 12); mret (t :: l) end.
Definition readShares (buf : list Z) : out (list Z * list (list Z * list Z)) :=
  count ← uint32At buf 20;
  types ← readTypes (Z.to_nat count) buf 24;
  names ← readNames (Z.to_nat count) buf (24 + 12 * count);
  mret (types, names).

Definition plain (s : string) : Prop := Forall (fun b => 0 <= b < 0x80) (bytesOf s) /\ Z.of_nat (String.length s) + 1 < 2 ^ 31.
Lemma runes_plain l fuel : Forall (fun b => 0 <= b < 0x80) l -> (length l <= fuel)%nat -> runes_loop fuel l = l.
Proof.
  intros H. revert fuel. induction H as [|b l Hb Hl IH]; intros [|fuel] Hf; try done; [simpl in Hf; lia|]. cbn [runes_loop]. unfold decodeRune. destruct (Z.ltb_spec b 0x80); [|lia]. simpl. rewrite drop_0, IH; [done|simpl in Hf; lia].
Qed.
Lemma utf16_plain l : Forall (fun b => 0 <= b < 0x80) l -> utf16Encode l = l.
Proof.
  induction 1 as [|b l Hb Hl IH]; [done|]. change (utf16Encode (b :: l)) with (encodeRune b ++ utf16Encode l). rewrite IH. unfold encodeRune, surr1. destruct (Z.leb_spec 0 b), (Z.ltb_spec b 0xd800); try lia. done.
Qed.
Lemma plain_scalar l : Forall (fun b => 0 <= b < 0x80) l -> Forall isScalar l.
Proof. intros H. apply (Forall_impl _ _ _ H). intros b Hb. unfold isScalar, maxRune, surr1, surr3. lia. Qed.
Lemma terminated_reads l : Forall isScalar l -> DecodeToString (EncodeStringToBytes l ++ [0; 0]) = l.
Proof.
  intros Hl. unfold DecodeToString, EncodeStringToBytes. set (ws := utf16Encode l). replace (concat (map (le_enc 2) ws) ++ [0; 0]) with (concat (map (le_enc 2) (ws ++ [0%Z]))) by (by rewrite map_app, concat_app).
  rewrite length_units. replace (2 * length (ws ++ [0%Z]) / 2)%nat with (length (ws ++ [0%Z])) by (rewrite Nat.mul_comm, Nat.div_mul; done).
  rewrite units_encoded by (apply Forall_app_2; [by apply utf16Encode_units|by repeat constructor]). rewrite last_snoc, length_app. simpl. rewrite Nat.add_sub, take_app_length. by apply utf16Decode_Encode.
Qed.
Lemma plain_name s : plain s -> runesOf s = bytesOf s /\ zlen (EncodeStringToBytes (runesOf s) ++ [0; 0]) = 2 * (Z.of_nat (String.length s) + 1).
Proof.
  intros [H _]. unfold runesOf. rewrite runes_plain by done. split; [done|]. unfold EncodeStringToBytes. rewrite utf16_plain by done. rewrite zlen_app. unfold zlen. rewrite length_units, length_bytesOf. simpl. lia.
Qed.
Lemma name_reads (buf : list Z) s rest : plain s -> zlen (appendName buf s ++ rest) < 2 ^ 62 ->
  exists k, ndrString (appendName buf s ++ rest) (zlen buf) = Ok (bytesOf s, k) /\ Request.Roundup (zlen buf + k) 4 = zlen (appendName buf s).
Proof.
  intros Hs Hlen. pose proof Hs as [Hp Hn]. destruct (plain_name s Hs) as [Hr Hz]. pose proof (zlen_nonneg buf) as Hb. set (n := Z.of_nat (String.length s) + 1) in *.
  assert (zlen (ndrName s) = 12 + 2 * n) as HL by (unfold ndrName; fold n; cbv zeta; rewrite 3!zlen_app, !zlen_le_enc, Hz; lia).
  set (tail := replicate (Z.to_nat (Request.Roundup (zlen (buf ++ ndrName s)) 4 - zlen (buf ++ ndrName s))) 0 ++ rest).
  assert (appendName buf s ++ rest = buf ++ ndrName s ++ tail) as Happ by (unfold appendName, pad4, tail; by rewrite <- !app_assoc).
  rewrite Happ in *. rewrite !zlen_app, HL in Hlen. pose proof (zlen_nonneg tail) as Ht. exists (12 + 2 * n). split.
  - unfold ndrString, fits, u64. rewrite !zlen_app, HL. rewrite (Z.mod_small (zlen buf + 12)), (Z.mod_small (zlen buf + 8)) by lia. destruct (Z.leb_spec (zlen buf + 12) (zlen buf + (12 + 2 * n + zlen tail))); [|lia]. cbn [negb].
    rewrite slice_Ok by (rewrite ?zlen_app, ?HL; lia). run_bind. cbv zeta. assert (sub (buf ++ ndrName s ++ tail) (zlen buf + 8) (zlen buf + 12) = le_enc 4 n) as ->.
    { rewrite sub_skip by lia. replace (zlen buf + 8 - zlen buf) with 8 by lia. replace (zlen buf + 12 - zlen buf) with 12 by lia. reflexivity. }
    rewrite le_dec_enc_small by lia. rewrite (Z.mod_small (n * 2)), (Z.mod_small (zlen buf + 12 + n * 2)) by lia. destruct (Z.leb_spec (zlen buf + 12 + n * 2) (zlen buf + (12 + 2 * n + zlen tail))); [|lia]. cbn [negb].
    destruct (Z.eqb_spec n 0); [lia|]. rewrite slice_Ok by (rewrite ?zlen_app, ?HL; lia). run_bind. unfold mret, outcome_ret. f_equal. f_equal; [|rewrite Z.mod_small by lia; lia].
    rewrite sub_skip by lia. replace (zlen buf + 12 - zlen buf) with 12 by lia. replace (zlen buf + 12 + n * 2 - zlen buf) with (12 + 2 * n) by lia.
    assert (sub (ndrName s ++ tail) 12 (12 + 2 * n) = EncodeStringToBytes (runesOf s) ++ [0; 0]) as ->; [|rewrite terminated_reads by (rewrite Hr; by apply plain_scalar); done].
    unfold ndrName. cbv zeta. fold n. rewrite <- !app_assoc, (app_assoc (le_enc 4 n)), (app_assoc (le_enc 4 n ++ le_enc 4 0)). rewrite sub_skip by (rewrite ?zlen_app, ?zlen_le_enc; lia).
    change (zlen ((le_enc 4 n ++ le_enc 4 0) ++ le_enc 4 n)) with 12. rewrite Z.sub_diag. replace (12 + 2 * n - 12) with (zlen (EncodeStringToBytes (runesOf s) ++ [0; 0])) by lia.
    rewrite (app_assoc _ [0; 0]). apply sub_head.
  - rewrite <- HL, <- zlen_app. unfold appendName, pad4. rewrite (zlen_app (buf ++ ndrName s)), zlen_replicate. pose proof (pad4_spec (zlen (buf ++ ndrName s)) (zlen_nonneg _)) as [P _]. lia.
Qed.
Definition sharesAt (buf : list Z) (shares : list NetShareInfo1) : list Z := fold_left (fun buf s => appendName (appendName buf (si_Share s)) (si_Comment s)) shares buf.
Lemma appendName_prefix buf s : exists x, appendName buf s = buf ++ x.
Proof. eexists. unfold appendName, pad4. by rewrite <- app_assoc. Qed.
Lemma sharesAt_prefix shares buf : exists x, sharesAt buf shares = buf ++ x.
Proof.
  revert buf. induction shares as [|s shares IH]; intros buf; [exists []; by rewrite app_nil_r|]. simpl. destruct (IH (appendName (appendName buf (si_Share s)) (si_Comment s))) as [x ->].
  destruct (appendName_prefix (appendName buf (si_Share s)) (si_Comment s)) as [y ->]. destruct (appendName_prefix buf (si_Share s)) as [z ->]. exists (z ++ y ++ x). by rewrite <- !app_assoc.
Qed.
Lemma names_read shares : Forall (fun s => plain (si_Share s) /\ plain (si_Comment s)) shares -> forall buf rest, zlen (sharesAt buf shares ++ rest) < 2 ^ 62 ->
  readNames (length shares) (sharesAt buf shares ++ rest) (zlen buf) = Ok (map (fun s => (bytesOf (si_Share s), bytesOf (si_Comment s))) shares).
Proof.
  induction 1 as [|s shares [H1 H2] Hs IH]; intros buf rest Hl; [done|]. cbn [length readNames map]. simpl in Hl |- *. set (b1 := appendName buf (si_Share s)) in *. set (b2 := appendName b1 (si_Comment s)) in *.
  destruct (sharesAt_prefix shares b2) as [x Hx]. assert (exists y, b2 = b1 ++ y) as [y Hy] by apply appendName_prefix. pose proof (IH b2 rest Hl) as IH'. rewrite Hx, Hy, <- !app_assoc in *.
  destruct (name_reads buf (si_Share s) (y ++ x ++ rest) H1 Hl) as (k & E & R). fold b1 in E, R. rewrite E. cbn [mbind outcome_bind]. cbv zeta. rewrite R.
  rewrite (app_assoc b1 y (x ++ rest)) in Hl |- *. rewrite <- Hy in Hl |- *. destruct (name_reads b1 (si_Comment s) (x ++ rest) H2 Hl) as (k2 & E2 & R2). fold b2 in E2, R2. rewrite E2. cbn [mbind outcome_bind]. cbv zeta. rewrite R2.
  rewrite (app_assoc b1 y (x ++ rest)), <- Hy in IH'. by rewrite IH'.
Qed.
Lemma uint32At_at v (a b : list Z) i : 0 <= v < 2 ^ 32 -> zlen a = i -> zlen (a ++ le_enc 4 v ++ b) < 2 ^ 62 -> uint32At (a ++ le_enc 4 v ++ b) i = Ok v.
Proof.
  intros Hv Ha Hl. pose proof (zlen_nonneg a). pose proof (zlen_nonneg b). rewrite !zlen_app, zlen_le_enc in Hl. unfold uint32At, fits, u64. rewrite !zlen_app, zlen_le_enc, Z.mod_small by lia.
  destruct (Z.leb_spec (i + 4) (zlen a + (Z.of_nat 4 + zlen b))); [|lia]. cbn [negb]. rewrite slice_Ok by (rewrite ?zlen_app, ?zlen_le_enc; lia). run_bind. unfold mret, outcome_ret. f_equal. apply (le_at 4); [done|lia|done].
Qed.
Lemma types_read (f : nat -> NetShareInfo1 -> list Z) shares :
  Forall (fun s => 0 <= si_Type s < 2 ^ 32) shares -> (forall i s, exists a b, f i s = a ++ le_enc 4 (si_Type s) ++ b /\ zlen a = 4 /\ zlen b = 4) ->
  forall pre rest, zlen (pre ++ concat (imap f shares) ++ rest) < 2 ^ 62 -> readTypes (length shares) (pre ++ concat (imap f shares) ++ rest) (zlen pre) = Ok (map si_Type shares).
Proof.
  intros Hs. revert f. induction Hs as [|s shares H1 Hs IH]; intros f Hf pre rest Hl; [done|]. rewrite imap_cons in *. cbn [length readTypes map concat] in *. destruct (Hf O s) as (a & b & E & Ha & Hb). rewrite E in *.
  rewrite <- !app_assoc in *. rewrite (app_assoc pre a) in *. rewrite uint32At_at by (rewrite ?zlen_app in *; lia || done). run_bind.
  replace ((pre ++ a) ++ le_enc 4 (si_Type s) ++ b ++ concat (imap (f ∘ S) shares) ++ rest) with ((pre ++ a ++ le_enc 4 (si_Type s) ++ b) ++ concat (imap (f ∘ S) shares) ++ rest) in * by (by rewrite <- !app_assoc).
  replace (zlen pre + 12) with (zlen (pre ++ a ++ le_enc 4 (si_Type s) ++ b)) by (rewrite !zlen_app, zlen_le_enc; lia). rewrite IH; [done| |done]. intros i x. apply (Hf (S i)).
Qed.
(** The list of shares a client reads is the list of shares there are.  Read by the layout of
    the protocol, the reply to NetrShareEnum gives, in order, the type, the name and the remark
    of every share, as long as these are plain ASCII: the server counts the bytes of a name
    where the protocol counts UTF-16 units ([name_counted_in_bytes]). *)
Theorem share_list_reads_back (shares : list NetShareInfo1) (result : Z) :
  Forall (fun s => plain (si_Share s) /\ plain (si_Comment s) /\ 0 <= si_Type s < 2 ^ 32) shares -> zlen shares < 2 ^ 32 ->
  zlen (NetShareEnumAllResponse_MarshalNDR shares result) < 2 ^ 62 ->
  readShares (NetShareEnumAllResponse_MarshalNDR shares result) = Ok (map si_Type shares, map (fun s => (bytesOf (si_Share s), bytesOf (si_Comment s))) shares).
Proof.
  intros Hs Hn Hl. assert (Forall (fun s => plain (si_Share s) /\ plain (si_Comment s)) shares /\ Forall (fun s => 0 <= si_Type s < 2 ^ 32) shares) as [Hs1 Hs2].
  { split; (eapply (Forall_impl _ _ _ Hs)); tauto. }
  unfold NetShareEnumAllResponse_MarshalNDR in *. cbv zeta in *. set (f := fun (i : nat) s => _ ++ _ ++ _) in *. set (w := le_enc 4 1 ++ le_enc 4 1 ++ le_enc 4 0x0002000c ++ le_enc 4 (zlen shares) ++ le_enc 4 0x00020010).
  set (head := le_enc 4 1 ++ _) in *. assert (head = w ++ le_enc 4 (zlen shares)) as Hhead by (unfold head, w; by rewrite <- !app_assoc). set (ending := le_enc 4 (zlen shares) ++ le_enc 4 (0x00020014 + u32 (zlen shares * 2)) ++ le_enc 4 0 ++ le_enc 4 result) in *.
  fold (sharesAt (head ++ concat (imap f shares)) shares) in *. destruct (sharesAt_prefix shares (head ++ concat (imap f shares))) as [x Hx].
  assert (zlen head = 24) as Hh by done. assert (forall i s, zlen (f i s) = 12) as Hf by done. pose proof (zlen_nonneg shares) as Hn0.
  assert (forall (g : nat -> NetShareInfo1 -> list Z) l, (forall i s, zlen (g i s) = 12) -> zlen (concat (imap g l)) = 12 * zlen l) as Hc.
  { intros g l. revert g. induction l as [|y l IH]; intros g Hg; [done|]. rewrite imap_cons. cbn [concat]. rewrite zlen_app, Hg, zlen_cons, IH by (intros; apply Hg). lia. }
  unfold readShares. pose proof (names_read shares Hs1 (head ++ concat (imap f shares)) ending Hl) as HN. rewrite zlen_app, Hh, (Hc f shares Hf) in HN.
  rewrite Hx, <- !app_assoc in *. assert (uint32At (head ++ concat (imap f shares) ++ x ++ ending) 20 = Ok (zlen shares)) as ->.
  { rewrite Hhead, <- !app_assoc in *. apply uint32At_at; [lia|done|done]. }
  run_bind. assert (Z.to_nat (zlen shares) = length shares) as -> by (unfold zlen; lia).
  pose proof (types_read f shares Hs2 ltac:(intros i s; eexists _, _; split; [reflexivity|done]) head (x ++ ending) Hl) as HT. rewrite Hh in HT. rewrite HT. run_bind. by rewrite HN.
Qed.
(** A remark with a letter that UTF-8 writes in two bytes: what follows it is misread. *)
Definition accented : string := String (Ascii.ascii_of_N 0xc3) (String (Ascii.ascii_of_N 0xa9) EmptyString).
Definition accentedShares : list NetShareInfo1 := [ShareInfo1 "a" 0 accented; ShareInfo1 "b" 0 "c"].
Theorem name_counted_in_bytes : readShares (NetShareEnumAllResponse_MarshalNDR accentedShares 0) = Err ErrTruncated.
Proof. by vm_compute. Qed.

(** ** Answers of a pipe *)
Definition wholeFragment (b : list Z) : Prop := zlen b <= 65535 /\ (b = [] \/ le_dec (sub b 8 10) = zlen b).
Lemma writePacket_spec k : (exists e, writePacket k = Err e) \/ exists b, writePacket k = Ok b /\ wholeFragment b.
Proof.
  destruct k as [|h body]; simpl; [right; exists []; split; [done|]; split; [done|by left]|]. unfold Write, HeaderSize. pose proof (zlen_nonneg body). destruct (Z.gtb_spec (zlen body + 16) 65535); [left; by eexists|]. right. eexists. split; [reflexivity|].
  set (h' := set_FragLength _ h). assert (u16 (u16 (zlen body) + 16) = zlen body + 16) as HF by (unfold u16; rewrite (Z.mod_small (zlen body)) by lia; apply Z.mod_small; lia).
  assert (zlen (Header_Encode h' ++ body) = zlen body + 16) as HL by (rewrite zlen_app; change (zlen (Header_Encode h')) with 16; lia). unfold wholeFragment. rewrite HL. split; [lia|]. right.
  change (le_dec (le_enc 2 (u16 (u16 (zlen body) + 16))) = zlen body + 16). rewrite HF. apply le_dec_enc_small. lia.
Qed.
Section answers.
Context (rejection notSupported ack : Z) {secctx : Type} (marshal : @Payload secctx -> option (list Z)) (unmarshalHandle : Z -> list Z -> option Z).
(** A pipe always answers, in one fragment.  Whatever bytes a client wrote to it or sends it,
    and however long the list of shares, the read of a pipe and FSCTL_PIPE_TRANSCEIVE come to
    a status or to a packet of at most 65535 bytes whose header tells its very length; and the
    read leaves nothing of what was written behind to be read again. *)
Theorem pipe_always_answers (ag : list Z) (shares : list (string * string)) (shareName remark user domain : string) (ctx : secctx) (handle : Z) (input : list Z) (p : @pipe secctx) :
  bytes input -> zlen input < 2 ^ 62 -> (forall d, srvsvcData p = Some d -> bytes d /\ zlen d < 2 ^ 62) ->
  (exists r p', srvsvcRead rejection notSupported ack marshal ag shares p = Ok (r, p') /\ srvsvcData p' = None /\
     (r = None <-> srvsvcData p = None) /\ forall b, r = Some (inr b) -> wholeFragment b) /\
  (exists r p', transceive rejection notSupported ack marshal unmarshalHandle ag shares shareName remark user domain ctx handle input p = Ok (r, p') /\
     (shareName <> "ipc$" -> r = inl STATUS_NOT_SUPPORTED) /\ forall b, r = inr b -> wholeFragment b).
Proof using Type*.
  intros Hi Hl Hd. split.
  - unfold srvsvcRead. destruct (srvsvcData p) as [d|] eqn:Ed; [|exists None, p; by split_and!]. destruct (Hd d eq_refl) as [Hb _]. destruct (Read_settled d Hb) as [HR _].
    destruct (Read d) as [ip|e| |]; try done; [|eexists _, _; split; [reflexivity|]; by split_and!].
    cbv zeta. set (k := match ip_Body ip with BBind _ => _ | BBindAck _ => _ | BRequest _ => _ | BResponse _ => _ end). destruct (writePacket_spec k) as [[e ->]|(b & -> & Hw)]; (eexists _, _; split; [reflexivity|]; split_and!; try done). by intros b' [= <-].
  - unfold transceive. destruct (String.eqb_spec shareName "ipc$") as [He|He]; cbn [negb]; [|eexists _, _; split; [reflexivity|]; by split_and!]. destruct (Read_settled input Hi) as [HR _].
    destruct (Read input) as [ip|e| |]; try done; [|eexists _, _; split; [reflexivity|]; by split_and!]. cbv zeta.
    match goal with |- context [match ?X with BBind _ => _ | BBindAck _ => _ | BRequest _ => _ | BResponse _ => _ end] => idtac end.
    match goal with |- context [let '(r, p) := ?X in @?Y r p] => destruct X as [[st|k] p1] end; [eexists _, _; split; [reflexivity|]; by split_and!|].
    destruct (writePacket_spec k) as [[e ->]|(b & -> & Hw)]; (eexists _, _; split; [reflexivity|]; split_and!; try done). by intros b' [= <-].
Qed.
End answers.

(** ** Witnesses *)
Definition aBind : Bind := mkBind 4280 4280 0 [mkContext 0 (Syntax (replicate 16 7) 3 0) [Syntax NDR32 2 0; Syntax NDR64 1 0]].
Lemma rpc_packets_read_back_witness : exists w, Write (NewHeader PACKET_TYPE_BIND 3 7) (Body_Encode (BBind aBind) ++ [1; 2]) = Ok w /\
  Read w = Ok (Inbound (set_FragLength (zlen w) (NewHeader PACKET_TYPE_BIND 3 7)) (BBind aBind) [1; 2]).
Proof.
  apply (rpc_packets_read_back (NewHeader PACKET_TYPE_BIND 3 7) (BBind aBind) [1; 2]); [split_and!; split; done|].
  split; [done|]. split_and!; try (split; done). constructor; [|constructor]. split_and!; try (split; done). repeat constructor; done.
Defined.
Lemma rpc_reads_return_witness : settled (Read [5; 0; 11; 3]).
Proof. apply (rpc_reads_return [5; 0; 11; 3]); [repeat constructor; done|done]. Defined.
Lemma plain_dec s : forallb (fun b => (0 <=? b) && (b <? 0x80)) (bytesOf s) = true -> Z.of_nat (String.length s) + 1 < 2 ^ 31 -> plain s.
Proof. intros H Hn. split; [|done]. apply List.Forall_forall. intros b Hin. rewrite forallb_forall in H. specialize (H b Hin). lia. Qed.
Lemma share_list_reads_back_witness : readShares (NetShareEnumAllResponse_MarshalNDR (enumShares [("docs"%string, "papers"%string)]) 0) =
  Ok ([0; 0x80000003], [(bytesOf "docs", bytesOf "papers"); (bytesOf "IPC$", bytesOf "IPC service")]).
Proof.
  apply (share_list_reads_back (enumShares [("docs"%string, "papers"%string)]) 0); [|done|done].
  constructor; [|constructor; [|constructor]]; (split; [by apply plain_dec|split; [by apply plain_dec|done]]).
Defined.
Lemma pipe_always_answers_witness : exists r p', srvsvcRead 2 2 3 (fun _ : @Payload Z => None) [0; 0; 0; 0] [] (Pipe "srvsvc" (Some [1; 2; 3]) ∅) = Ok (r, p') /\ srvsvcData p' = None.
Proof.
  destruct (pipe_always_answers 2 2 3 (fun _ : @Payload Z => None) (fun _ _ => None) [0; 0; 0; 0] [] "ipc$" "" "" "" 0 0 [] (Pipe "srvsvc" (Some [1; 2; 3]) ∅)) as [(r & p' & E & H & _) _].
  - constructor.
  - done.
  - intros d [= <-]. split; [repeat constructor; done|done].
  - exists r, p'. split; [exact E|exact H].
Defined.
End Rpc.
