(* ===== verification/Ntlm.v ===== *)
(** Authentication: the NTLMv2 server of [ntlm/server.go] and [ntlm/ntlm.go], and the
    session it leaves in [ntlm/session.go].

    A Go string is the list of its runes, as in [Text].  MD4, MD5, HMAC, the folding of
    letters and the reading of a UUID are of libraries and are arguments; RC4 and the
    CRC-32 of the standard library are short and written out.  The store of accounts is
    an argument, where [None] is an error. *)
From S2P Require Import Prelude Bytes Text Ciphers.
Import Text.

(** ** RC4, [crypto/rc4] *)
Module Rc4.
Record cipher := Cipher { table : list Z; ci : Z; cj : Z }.
Definition at_ (l : list Z) (i : Z) : Z := nth (Z.to_nat i) l 0.
Definition swap (l : list Z) (i j : Z) : list Z := <[Z.to_nat i := at_ l j]> (<[Z.to_nat j := at_ l i]> l).
Fixpoint schedule (n : nat) (i j : Z) (key s : list Z) : list Z :=
  match n with
  | O => s
  | S n => let j := u8 (j + at_ s i + at_ key (i mod zlen key)) in schedule n (i + 1) j key (swap s i j)
  end.
(** An empty key, or one of more than 256 bytes, is an error. *)
Definition NewCipher (key : list Z) : option cipher :=
  if (zlen key <? 1) || (256 <? zlen key) then None
  else Some (Cipher (schedule 256 0 0 key (map Z.of_nat (seq 0 256))) 0 0).
Fixpoint keystream (n : nat) (c : cipher) : list Z * cipher :=
  match n with
  | O => ([], c)
  | S n =>
      let i := u8 (ci c + 1) in
      let j := u8 (cj c + at_ (table c) i) in
      let s := swap (table c) i j in
      let k := at_ s (u8 (at_ s i + at_ s j)) in
      let '(ks, c) := keystream n (Cipher s i j) in (k :: ks, c)
  end.
Definition XORKeyStream (c : cipher) (src : list Z) : list Z * cipher :=
  let '(ks, c) := keystream (length src) c in (xorOver src ks, c).

Lemma NewCipher_Ok key : (1 <= length key <= 256)%nat -> exists c, NewCipher key = Some c.
Proof.
  intros H. unfold NewCipher, zlen. destruct (Z.ltb_spec (Z.of_nat (length key)) 1); [lia|]. destruct (Z.ltb_spec 256 (Z.of_nat (length key))); [lia|].
  eexists. reflexivity.
Qed.
Lemma length_keystream n c : length (keystream n c).1 = n.
Proof. revert c. induction n as [|n IH]; intros c; [done|]. simpl. specialize (IH (Cipher (swap (table c) (u8 (ci c + 1)) (u8 (cj c + at_ (table c) (u8 (ci c + 1))))) (u8 (ci c + 1)) (u8 (cj c + at_ (table c) (u8 (ci c + 1)))))). destruct (keystream n _) as [ks c']. simpl in *. by rewrite IH. Qed.
Lemma length_XORKeyStream c src : length (XORKeyStream c src).1 = length src.
Proof. unfold XORKeyStream. destruct (keystream _ c) as [ks c']. apply length_xorOver. Qed.
(** The same stream over what it made gives back what it was made of, and both ends are
    left at the same place. *)
Lemma XORKeyStream_undone c src : XORKeyStream c (XORKeyStream c src).1 = (src, (XORKeyStream c src).2).
Proof.
  unfold XORKeyStream at 1. rewrite length_XORKeyStream. unfold XORKeyStream. destruct (keystream _ c) as [ks c']. simpl. by rewrite xorOver_involutive.
Qed.
End Rc4.

Module Ntlm.

(** ** [ntlm.go] *)
Definition NtLmNegotiate : Z := 0x00000001.
Definition NtLmChallenge : Z := 0x00000002.
Definition NtLmAuthenticate : Z := 0x00000003.
Definition NTLMSSP_NEGOTIATE_UNICODE : Z := 1 << 0.
Definition NTLMSSP_REQUEST_TARGET : Z := 1 << 2.
Definition NTLMSSP_NEGOTIATE_SIGN : Z := 1 << 4.
Definition NTLMSSP_NEGOTIATE_SEAL : Z := 1 << 5.
Definition NTLMSSP_NEGOTIATE_DATAGRAM : Z := 1 << 6.
Definition NTLMSSP_NEGOTIATE_LM_KEY : Z := 1 << 7.
Definition NTLMSSP_NEGOTIATE_NTLM : Z := 1 << 9.
Definition NTLMSSP_NEGOTIATE_ALWAYS_SIGN : Z := 1 << 15.
Definition NTLMSSP_TARGET_TYPE_SERVER : Z := 1 << 17.
Definition NTLMSSP_NEGOTIATE_EXTENDED_SESSIONSECURITY : Z := 1 << 19.
Definition NTLMSSP_NEGOTIATE_TARGET_INFO : Z := 1 << 23.
Definition NTLMSSP_NEGOTIATE_VERSION : Z := 1 << 25.
Definition NTLMSSP_NEGOTIATE_128 : Z := 1 << 29.
Definition NTLMSSP_NEGOTIATE_KEY_EXCH : Z := 1 << 30.
Definition NTLMSSP_NEGOTIATE_56 : Z := 1 << 31.
Definition MsvAvEOL : Z := 0.
Definition MsvAvNbComputerName : Z := 1.
Definition MsvAvNbDomainName : Z := 2.
Definition MsvAvDnsComputerName : Z := 3.
Definition MsvAvDnsDomainName : Z := 4.
Definition MsvAvFlags : Z := 6.
Definition MsvAvTimestamp : Z := 7.
Definition version : list Z := [0x0a; 0; 0; 0; 0; 0; 0; 0x0f].
Definition signature : list Z := bytesOf "NTLMSSP" ++ [0].
Definition defaultFlags : Z :=
  NTLMSSP_NEGOTIATE_56 .| NTLMSSP_NEGOTIATE_KEY_EXCH .| NTLMSSP_NEGOTIATE_128 .| NTLMSSP_NEGOTIATE_TARGET_INFO .|
  NTLMSSP_NEGOTIATE_EXTENDED_SESSIONSECURITY .| NTLMSSP_NEGOTIATE_ALWAYS_SIGN .| NTLMSSP_NEGOTIATE_NTLM .| NTLMSSP_NEGOTIATE_SIGN .|
  NTLMSSP_REQUEST_TARGET .| NTLMSSP_NEGOTIATE_UNICODE .| NTLMSSP_NEGOTIATE_VERSION.
Definition ntlmv2ResponseMinSize : Z := 16 + 28.

Inductive ntlmErr :=
  tooShort | invalidSignature | invalidMessageType | invalidNTChallenge | invalidDomainName | invalidUserName | invalidSessionKey
| loginFailure | emptyCredential | storeError | signatureMismatch.
Abbreviation out := (outcome ntlmErr).
#[export] Instance ntlmErr_eq_dec : EqDecision ntlmErr.
Proof. solve_decision. Defined.

Definition sameBytes (a b : list Z) : bool := bool_decide (a = b).
Definition IsAuthenticate (msg : list Z) : bool :=
  if (zlen msg <? 12) || negb (sameBytes (sub msg 0 8) signature) then false else le_dec (sub msg 8 12) =? NtLmAuthenticate.
(** The pairs of the target information: the last of a name counts. *)
Fixpoint avPairs_loop (fuel : nat) (bs : list Z) (pairs : gmap Z (list Z)) : out (option (gmap Z (list Z))) :=
  if zlen bs =? 0 then mret (Some pairs)
  else
    match fuel with
    | O => Stuck
    | S fuel =>
        if zlen bs <? 4 then mret None
        else
          id ← get_le bs 0 2; n ← get_le bs 2 2;
          if zlen bs <? 4 + n then mret None
          else v ← slice bs 4 (4 + n); bs ← slice bs (4 + n) (zlen bs); avPairs_loop fuel bs (<[id := v]> pairs)
    end.
Definition parseAvPairs (bs : list Z) : out (option (gmap Z (list Z))) :=
  if zlen bs <? 4 then mret None
  else
    t ← slice bs (zlen bs - 4) (zlen bs);
    if negb (forallb (fun c => c =? 0) t) then mret None else avPairs_loop (length bs) bs ∅.

(** ** The libraries, and the store of accounts *)
Record account := Account { NTHash : list Z }.
Record library := Library {
  hmacMD5 : list Z -> list Z -> list Z;
  md5 : list Z -> list Z;
  md4 : list Z -> list Z;
  toLower : list Z -> list Z;
  toUpper : list Z -> list Z;
  parseUUID : list Z -> option (list Z);
  uuidString : list Z -> list Z;
  FindAccount : list Z -> list Z -> option account;          (* the user, the workgroup *)
  FindWorkgroupByName : list Z -> option (Z * list Z);       (* the ID in the store, the UUID *)
}.
Class LibraryOk (lib : library) : Prop := {
  hmac_length : forall k m, length (hmacMD5 lib k m) = 16%nat;
  md5_length : forall m, length (md5 lib m) = 16%nat;
}.

Section server.
Context (lib : library).

(** [accounts.go]: an account with no password is a guest. *)
Definition ntHash (password : list Z) : list Z := md4 lib (EncodeStringToBytes password).
Definition emptyNTHash : list Z := ntHash [].
Definition Passwordless (acc : account) : bool := sameBytes (NTHash acc) emptyNTHash.

Definition ntowfv2Hash (USER hash domain : list Z) : list Z := hmacMD5 lib hash (USER ++ domain).
(** [dst] is as long as the response; the sum is written over its first sixteen bytes. *)
Definition encodeNtlmv2Response (size : Z) (key serverChallenge clientChallenge timeStamp targetInfo : list Z) : out (list Z) :=
  c ← slice (zeros (Z.to_nat size)) 16 size;
  c ← store c 0 1; c ← store c 1 1;
  c ← splice c 8 timeStamp; c ← splice c 16 clientChallenge; c ← splice c 28 targetInfo;
  mret (hmacMD5 lib key (serverChallenge ++ c) ++ c).

Definition magic (s : string) : list Z := bytesOf s ++ [0].
Definition signKey (flags : Z) (key : list Z) (fromClient : bool) : list Z :=
  if has flags NTLMSSP_NEGOTIATE_EXTENDED_SESSIONSECURITY then
    md5 lib (key ++ (if fromClient then magic "session key to client-to-server signing key magic constant"
                     else magic "session key to server-to-client signing key magic constant"))
  else [].
Definition sealKey (flags : Z) (key : list Z) (fromClient : bool) : out (list Z) :=
  if has flags NTLMSSP_NEGOTIATE_EXTENDED_SESSIONSECURITY then
    k ← (if has flags NTLMSSP_NEGOTIATE_128 then mret key
         else if has flags NTLMSSP_NEGOTIATE_56 then slice key 0 7
         else slice key 0 5);
    mret (md5 lib (k ++ (if fromClient then magic "session key to client-to-server sealing key magic constant"
                         else magic "session key to server-to-client sealing key magic constant")))
  else if has flags NTLMSSP_NEGOTIATE_LM_KEY then
    (if has flags NTLMSSP_NEGOTIATE_56 then k ← slice key 0 7; mret (k ++ [0xa0])
     else k ← slice key 0 5; mret (k ++ [0xe5; 0x38; 0xb0]))
  else mret key.

(** ** [Session] and [Server] *)
Record session := Session {
  isClientSide : bool; user : list Z; domain : list Z; guest : bool; anonymous : bool; negotiateFlags : Z; exportedSessionKey : list Z;
  clientSigningKey : list Z; serverSigningKey : list Z; clientHandle : Rc4.cipher; serverHandle : Rc4.cipher;
}.
Record server := Server {
  targetName : list Z; targetDomain : list Z; nmsg : list Z; cmsg : list Z; amsg : list Z; current : option session; admitsAnonymous : bool;
}.
Definition set_nmsg (m : list Z) (s : server) : server := Server (targetName s) (targetDomain s) m (cmsg s) (amsg s) (current s) (admitsAnonymous s).
Definition set_cmsg (m : list Z) (s : server) : server := Server (targetName s) (targetDomain s) (nmsg s) m (amsg s) (current s) (admitsAnonymous s).
Definition set_session (ss : session) (m : list Z) (s : server) : server :=
  Server (targetName s) (targetDomain s) (nmsg s) (cmsg s) m (Some ss) (admitsAnonymous s).
Definition NewServer (name dom : list Z) (anon : bool) : server := Server name dom [] [] [] None anon.

(** ** The server *)
Definition fits (off length size : Z) : bool := u64 (off + length) <=? size.
Definition AnonymousWorkgroup : list Z := zeros 16.
Definition GuestAccount : list Z := bytesOf "guest".
Definition resolveWorkgroup (dom : list Z) : out (list Z) :=
  if zlen dom =? 0 then mret []
  else
    match parseUUID lib dom with
    | Some u => if sameBytes u AnonymousWorkgroup then Err loginFailure else mret (uuidString lib u)
    | None =>
        match FindWorkgroupByName lib dom with
        | None => Err storeError
        | Some (id, u) => if id =? 0 then Err loginFailure else mret (uuidString lib u)
        end
    end.

(** One pair of the target information, and where the next one goes. *)
Definition putPair (c : list Z) (offset id : Z) (v : list Z) : out (list Z * Z) :=
  c ← put_le c offset 2 id; c ← put_le c (offset + 2) 2 (zlen v); c ← splice c (offset + 4) v; mret (c, offset + (4 + zlen v)).
Definition targetInfoOf (c : list Z) (off : Z) (name low dom : list Z) (now : Z) : out (list Z) :=
  '(c, o) ← putPair c off MsvAvNbComputerName name;
  '(c, o) ← putPair c o MsvAvNbDomainName name;
  '(c, o) ← putPair c o MsvAvDnsComputerName low;
  '(c, o) ← putPair c o MsvAvDnsDomainName dom;
  '(c, o) ← putPair c o MsvAvTimestamp (le_enc 8 now);
  c ← splice c o (zeros 4);
  let length := o + 4 - off in
  c ← put_le c 40 2 length; c ← put_le c 42 2 length; put_le c 44 4 off.
(** [now] is a file time. *)
Definition challengeMessage (s : server) (nmsg : list Z) (now : Z) (nonce : list Z) : out (list Z) :=
  if zlen nmsg <? 32 then Err tooShort
  else
    sg ← slice nmsg 0 8;
    if negb (sameBytes sg signature) then Err invalidSignature
    else
      t ← get_le nmsg 8 4;
      if negb (t =? NtLmNegotiate) then Err invalidMessageType
      else
        f ← get_le nmsg 12 4;
        let flags := ((f .& defaultFlags) .| NTLMSSP_NEGOTIATE_TARGET_INFO) .| NTLMSSP_TARGET_TYPE_SERVER in
        let off := if has flags NTLMSSP_NEGOTIATE_VERSION then 48 + 8 else 48 in
        let name := EncodeStringToBytes (targetName s) in
        let dom := EncodeStringToBytes (targetDomain s) in
        let low := EncodeStringToBytes (toLower lib (targetName s)) in
        let length := if has flags NTLMSSP_NEGOTIATE_TARGET_INFO
          then zlen name + (zlen name + 4) + (zlen name + 4) + (zlen low + 4) + (zlen dom + 4) + (8 + 4) + 4 else zlen name in
        c ← splice (zeros (Z.to_nat (off + length))) 0 signature;
        c ← put_le c 8 4 NtLmChallenge; c ← put_le c 20 4 flags;
        '(c, off) ← (if (0 <? zlen name) && has flags NTLMSSP_REQUEST_TARGET then
                       c ← splice c off name;
                       c ← put_le c 12 2 (zlen name); c ← put_le c 14 2 (zlen name); c ← put_le c 16 4 off; mret (c, off + zlen name)
                     else mret (c, off));
        c ← (if has flags NTLMSSP_NEGOTIATE_TARGET_INFO then targetInfoOf c off name low dom now else mret c);
        c ← splice c 24 nonce;
        if has flags NTLMSSP_NEGOTIATE_VERSION then splice c 48 version else mret c.
Definition Challenge (m : list Z) (now : Z) (nonce : list Z) (s : server) : server * out (list Z) :=
  let s := set_nmsg m s in
  match challengeMessage s m now nonce with
  | Ok c => (set_cmsg c s, Ok c)
  | r => (s, r)
  end.

(** A field of the message: its length, the room for it, and where it is. *)
Definition field (m : list Z) (at_ : Z) (e : ntlmErr) : out (list Z) :=
  len ← get_le m at_ 2; max ← get_le m (at_ + 2) 2;
  if max <? len then Err e
  else
    off ← get_le m (at_ + 4) 4;
    if negb (fits off len (zlen m)) then Err e else slice m off (u32 (off + len)).
Record message := Message { m_flags : Z; m_nt : list Z; m_domain : list Z; m_user : list Z; m_key : list Z }.
Definition readMessage (m : list Z) : out message :=
  if zlen m <? 64 then Err tooShort
  else
    sg ← slice m 0 8;
    if negb (sameBytes sg signature) then Err invalidSignature
    else
      t ← get_le m 8 4;
      if negb (t =? NtLmAuthenticate) then Err invalidMessageType
      else
        flags ← get_le m 60 4;
        nt ← field m 20 invalidNTChallenge; dom ← field m 28 invalidDomainName; usr ← field m 36 invalidUserName; key ← field m 52 invalidSessionKey;
        mret (Message flags nt dom usr key).

Definition cipherOf (key : list Z) : out Rc4.cipher := match Rc4.NewCipher key with Some c => mret c | None => Err signatureMismatch end.
Definition newSession (usr dom : list Z) (isGuest isAnonymous : bool) (flags : Z) (key : list Z) : out session :=
  kc ← sealKey flags key true; ch ← cipherOf kc;
  ks ← sealKey flags key false; sh ← cipherOf ks;
  mret (Session false usr dom isGuest isAnonymous flags key (signKey flags key true) (signKey flags key false) ch sh).

(** The proof that the client knows the hash, and the key both ends make of it. *)
Definition checkResponse (s : server) (acc : account) (usr : list Z) (m : message) : out (list Z * list Z) :=
  if zlen (NTHash acc) =? 0 then Err loginFailure
  else if zlen (m_nt m) <? ntlmv2ResponseMinSize then Err loginFailure
  else if zlen (cmsg s) <? 32 then Err loginFailure
  else
    cc ← slice (m_nt m) 16 (zlen (m_nt m));
    let key := ntowfv2Hash (EncodeStringToBytes (toUpper lib usr)) (NTHash acc) (m_domain m) in
    sc ← slice (cmsg s) 24 32; timeStamp ← slice cc 8 16; chal ← slice cc 16 24; info ← slice cc 28 (zlen cc);
    expected ← encodeNtlmv2Response (zlen (m_nt m)) key sc chal timeStamp info;
    if negb (sameBytes (m_nt m) expected) then Err loginFailure
    else p ← slice (m_nt m) 0 16; mret (hmacMD5 lib key p, info).
Definition exchangeKey (m : message) (base : list Z) : out (list Z) :=
  if has (m_flags m) NTLMSSP_NEGOTIATE_KEY_EXCH then
    if negb (zlen (m_key m) =? 16) then Err loginFailure
    else c ← cipherOf base; mret (Rc4.XORKeyStream c (m_key m)).1
  else mret base.
(** The message integrity check, and the message as it is left: the sixteen bytes are
    blanked where they stand. *)
Definition checkMIC (s : server) (flags : Z) (key info : list Z) (am : list Z) : list Z * out () :=
  match parseAvPairs info with
  | Ok (Some pairs) =>
      match pairs !! MsvAvFlags with
      | Some av =>
          if (4 <=? zlen av) && has (le_dec (sub av 0 4)) 0x02 then
            let off := if has flags NTLMSSP_NEGOTIATE_VERSION then 72 else 64 in
            if zlen am <? off + 16 then (am, Err loginFailure)
            else
              let mic := sub am off (off + 16) in
              match splice am off (zeros 16) with
              | Ok am => (am, if sameBytes mic (hmacMD5 lib key (nmsg s ++ cmsg s ++ am)) then mret tt else Err loginFailure)
              | r => (am, _ ← r; mret tt)
              end
          else (am, mret tt)
      | None => (am, mret tt)
      end
  | r => (am, _ ← r; mret tt)
  end.

Definition anonymousSession (flags : Z) (am : list Z) (isGuest : bool) (s : server) : out server :=
  ss ← newSession [] [] isGuest true flags (zeros 16); mret (set_session ss am s).
(** The outcome, and the message as it is left behind. *)
Definition Authenticate (am : list Z) (s : server) : list Z * out server :=
  match readMessage am with
  | Ok m =>
      if negb (zlen (m_user m) =? 0) || negb (zlen (m_nt m) =? 0) then
        let usr := toLower lib (DecodeToString (m_user m)) in
        let dom := if negb (zlen (m_domain m) =? 0) then toLower lib (DecodeToString (m_domain m)) else [] in
        let refused e := (am, if admitsAnonymous s && sameBytes usr GuestAccount then anonymousSession (m_flags m) am true s else Err e) in
        match resolveWorkgroup dom with
        | Ok wg =>
            match FindAccount lib usr wg with
            | Some acc =>
                match ('(base, info) ← checkResponse s acc usr m; key ← exchangeKey m base; mret (key, info)) with
                | Ok (key, info) =>
                    let '(am, r) := checkMIC s (m_flags m) key info am in
                    (am, _ ← r; ss ← newSession usr wg (Passwordless acc) false (m_flags m) key; mret (set_session ss am s))
                | r => (am, _ ← r; Err loginFailure)
                end
            | None => refused storeError
            end
        | Err e => refused e
        | Panic => (am, Panic)
        | Stuck => (am, Stuck)
        end
      else (am, if negb (admitsAnonymous s) then Err emptyCredential else anonymousSession (m_flags m) am false s)
  | r => (am, _ ← r; Err tooShort)
  end.

(** [Signature]: nothing before an authentication has succeeded. *)
Definition Signature (s : server) : out (list Z) :=
  match current s with
  | None => mret []
  | Some ss =>
      if zlen (amsg s) <? 64 then mret []
      else
        flags ← get_le (amsg s) 60 4;
        let off := if has flags NTLMSSP_NEGOTIATE_VERSION then 72 else 64 in
        if zlen (amsg s) <? off + 16 then mret []
        else
          a ← slice (amsg s) 0 off; b ← slice (amsg s) (off + 16) (zlen (amsg s));
          mret (hmacMD5 lib (exportedSessionKey ss) (nmsg s ++ cmsg s ++ a ++ zeros 16 ++ b))
  end.

(** ** Messages of a session, [session.go]

    Nothing is appended to: the callers hand in no slice of their own. *)
Definition set_handles (ch sh : Rc4.cipher) (ss : session) : session :=
  Session (isClientSide ss) (user ss) (domain ss) (guest ss) (anonymous ss) (negotiateFlags ss) (exportedSessionKey ss)
    (clientSigningKey ss) (serverSigningKey ss) ch sh.
Definition mac (flags : Z) (h : Rc4.cipher) (key : list Z) (seqNum : Z) (msg : list Z) : list Z * Z * Rc4.cipher :=
  if negb (has flags NTLMSSP_NEGOTIATE_EXTENDED_SESSIONSECURITY) then
    let '(_, h) := Rc4.XORKeyStream h (zeros 4) in
    let '(sum, h) := Rc4.XORKeyStream h (le_enc 4 (ChecksumIEEE msg)) in
    let '(mark, h) := Rc4.XORKeyStream h (zeros 4) in
    (le_enc 4 1 ++ zeros 4 ++ sum ++ xorOver mark (le_enc 4 seqNum),
     if has flags NTLMSSP_NEGOTIATE_DATAGRAM then seqNum else u32 (seqNum + 1), h)
  else
    let sum := take 8 (hmacMD5 lib key (le_enc 4 seqNum ++ msg)) in
    let '(sum, h) := if has flags NTLMSSP_NEGOTIATE_KEY_EXCH then Rc4.XORKeyStream h sum else (sum, h) in
    (le_enc 4 1 ++ sum ++ le_enc 4 seqNum, u32 (seqNum + 1), h).
(** The authentication code under the keys of one of the two ends. *)
Definition macOf (asClient : bool) (ss : session) (seqNum : Z) (msg : list Z) : list Z * Z * session :=
  if asClient then
    let '(t, n, h) := mac (negotiateFlags ss) (clientHandle ss) (clientSigningKey ss) seqNum msg in (t, n, set_handles h (serverHandle ss) ss)
  else
    let '(t, n, h) := mac (negotiateFlags ss) (serverHandle ss) (serverSigningKey ss) seqNum msg in (t, n, set_handles (clientHandle ss) h ss).
Definition Sum (ss : session) (plaintext : list Z) (seqNum : Z) : list Z * Z * session :=
  if negb (has (negotiateFlags ss) NTLMSSP_NEGOTIATE_SIGN) then ([], 0, ss) else macOf (isClientSide ss) ss seqNum plaintext.
Definition CheckSum (ss : session) (sum plaintext : list Z) (seqNum : Z) : bool * Z * session :=
  if negb (has (negotiateFlags ss) NTLMSSP_NEGOTIATE_SIGN) then (zlen sum =? 0, 0, ss)
  else
    let '(t, n, ss) := macOf (negb (isClientSide ss)) ss seqNum plaintext in
    if sameBytes sum t then (true, n, ss) else (false, 0, ss).
Definition Seal (ss : session) (plaintext : list Z) (seqNum : Z) : list Z * Z * session :=
  if has (negotiateFlags ss) NTLMSSP_NEGOTIATE_SEAL then
    let '(c, h) := Rc4.XORKeyStream (clientHandle ss) plaintext in
    let '(t, n, ss) := macOf (isClientSide ss) (set_handles h (serverHandle ss) ss) seqNum plaintext in (t ++ c, n, ss)
  else if has (negotiateFlags ss) NTLMSSP_NEGOTIATE_SIGN then
    let '(t, n, ss) := macOf (isClientSide ss) ss seqNum plaintext in (t ++ plaintext, n, ss)
  else (zeros (16 + length plaintext), seqNum, ss).
Definition Unseal (ss : session) (ciphertext : list Z) (seqNum : Z) : session * out (list Z * Z) :=
  match slice ciphertext 16 (zlen ciphertext) with
  | Ok c =>
      let tag := take 16 ciphertext in
      let check ss p := let '(t, n, ss) := macOf (negb (isClientSide ss)) ss seqNum p in (ss, if sameBytes tag t then Ok (p, n) else Err signatureMismatch) in
      if has (negotiateFlags ss) NTLMSSP_NEGOTIATE_SEAL then
        let '(p, h) := Rc4.XORKeyStream (serverHandle ss) c in check (set_handles (clientHandle ss) h ss) p
      else if has (negotiateFlags ss) NTLMSSP_NEGOTIATE_SIGN then check ss c
      else (ss, if forallb (fun b => b =? 0) tag then Ok (c, seqNum) else Err signatureMismatch)
  | r => (ss, _ ← r; Err signatureMismatch)
  end.

(** ** Who the user is taken to be, [session.go]

    BLAKE2b is a library's. *)
Record SID := mkSID { Revision : Z; SubAuthorityCount : Z; IDAuthority : list Z; SubAuthority : list Z }.
Record SecurityContext := Context_ { sc_User : list Z; sc_Domain : list Z; UserRID : Z; DomainSID : option SID; sc_SessionKey : list Z }.
Section identity.
Context (blake2b : list Z -> list Z).
Definition utf8 (s : list Z) : list Z := concat (map utf8Rune s).
Definition noContext : SecurityContext := Context_ [] [] 0 None [].
Definition AnonymousContext : SecurityContext := Context_ [] [] 7 (Some (mkSID 1 0 [0; 0; 0; 0; 0; 5] [])) [].
Definition Identity (usr dom : list Z) : Z * SID :=
  let hash := blake2b (utf8 usr ++ utf8 dom) in
  (le_dec (sub hash 0 4), mkSID 1 4 [0; 0; 0; 0; 0; 5] [0x15; le_dec (sub hash 4 8); le_dec (sub hash 8 12); le_dec (sub hash 12 16)]).
Definition AccountSID (usr dom : list Z) : SID :=
  let '(rid, sid) := Identity usr dom in
  let subs := SubAuthority sid ++ [rid] in mkSID (Revision sid) (u8 (zlen subs)) (IDAuthority sid) subs.
Definition GroupSID (dom : list Z) : SID := mkSID 1 2 [0; 0; 0; 0; 0; 0x16] [2; le_dec (sub (blake2b (utf8 dom)) 0 4)].
Definition GetSecurityContext (ss : session) : SecurityContext :=
  if zlen (user ss) =? 0 then
    if anonymous ss then Context_ (sc_User AnonymousContext) (sc_Domain AnonymousContext) (UserRID AnonymousContext) (DomainSID AnonymousContext) (exportedSessionKey ss)
    else noContext
  else if zlen (domain ss) =? 0 then
    Context_ (user ss) [] (le_dec (sub (blake2b (utf8 (user ss))) 0 4)) (Some (mkSID 1 2 [0; 0; 0; 0; 0; 5] [0; 0])) (exportedSessionKey ss)
  else let '(rid, sid) := Identity (user ss) (domain ss) in Context_ (user ss) (domain ss) rid (Some sid) (exportedSessionKey ss).
End identity.
End server.

(** ** Reading what a client sends *)
Lemma bytes_slice (l : list Z) i j v : @slice ntlmErr Z l i j = Ok v -> bytes l -> bytes v.
Proof. unfold slice. destruct (_ && _); [|done]. intros [= <-] Hb. by apply Forall_take, Forall_drop. Qed.
Lemma splice_at (a old b src : list Z) off : zlen a = off -> length old = length src ->
  @splice ntlmErr (a ++ old ++ b) off src = Ok (a ++ src ++ b).
Proof.
  intros <- Hl. unfold splice. pose proof (zlen_nonneg a). rewrite !zlen_app. pose proof (zlen_nonneg b). unfold zlen in *. bdestr. f_equal.
  rewrite Nat2Z.id, take_app_length. f_equal. f_equal. rewrite app_assoc, drop_app_length'; [done|]. rewrite length_app. lia.
Qed.
Lemma put_le_at (a old b : list Z) off n v : zlen a = off -> zlen old = n ->
  @put_le ntlmErr (a ++ old ++ b) off n v = Ok (a ++ le_enc (Z.to_nat n) v ++ b).
Proof.
  intros <- <-. unfold put_le. pose proof (zlen_nonneg a). rewrite !zlen_app. pose proof (zlen_nonneg b). unfold zlen in *. bdestr. f_equal.
  rewrite !Nat2Z.id, take_app_length. f_equal. f_equal. rewrite app_assoc, drop_app_length'; [done|]. rewrite length_app. lia.
Qed.

Lemma field_spec m a e : bytes m -> zlen m < 2 ^ 32 -> 0 <= a -> a + 8 <= zlen m -> field m a e = Err e \/ exists v, field m a e = Ok v /\ bytes v.
Proof.
  intros Hb Hm Ha Hl. unfold field. destruct (get_le_bytes (E:=ntlmErr) m a 2 Hb) as (len & -> & Hlen); [lia..|]. run_bind.
  destruct (get_le_bytes (E:=ntlmErr) m (a + 2) 2 Hb) as (mx & -> & Hmx); [lia..|]. run_bind. destruct (_ <? _); [by left|].
  destruct (get_le_bytes (E:=ntlmErr) m (a + 4) 4 Hb) as (off & -> & Hoff); [lia..|]. run_bind. unfold fits, u64.
  rewrite (Z.mod_small (off + len)) by lia. destruct (Z.leb_spec (off + len) (zlen m)); [|by left]. cbn [negb].
  unfold u32. rewrite Z.mod_small by lia. rewrite slice_Ok by lia. right. eexists. split; [done|]. by apply bytes_sub.
Qed.
Lemma readMessage_spec m : bytes m -> zlen m < 2 ^ 32 ->
  (exists e, readMessage m = Err e) \/ exists v, readMessage m = Ok v /\ bytes (m_nt v) /\ bytes (m_key v) /\ 64 <= zlen m.
Proof.
  intros Hb Hm. unfold readMessage. destruct (Z.ltb_spec (zlen m) 64); [left; by eexists|]. rewrite slice_Ok by lia. run_bind.
  destruct (negb _); [left; by eexists|]. destruct (get_le_bytes (E:=ntlmErr) m 8 4 Hb) as (t & -> & _); [lia..|]. run_bind.
  destruct (negb _); [left; by eexists|]. destruct (get_le_bytes (E:=ntlmErr) m 60 4 Hb) as (f & -> & _); [lia..|]. run_bind.
  destruct (field_spec m 20 invalidNTChallenge Hb Hm) as [->|(nt & -> & ?)]; [lia..|left; by eexists|run_bind].
  destruct (field_spec m 28 invalidDomainName Hb Hm) as [->|(dom & -> & ?)]; [lia..|left; by eexists|run_bind].
  destruct (field_spec m 36 invalidUserName Hb Hm) as [->|(usr & -> & ?)]; [lia..|left; by eexists|run_bind].
  destruct (field_spec m 52 invalidSessionKey Hb Hm) as [->|(key & -> & ?)]; [lia..|left; by eexists|run_bind].
  right. eexists. by split_and!.
Qed.
Lemma avPairs_Ok fuel bs pairs : bytes bs -> (length bs <= fuel)%nat -> exists r, avPairs_loop fuel bs pairs = Ok r.
Proof.
  revert bs pairs. induction fuel as [|fuel IH]; intros bs pairs Hb Hf; cbn [avPairs_loop].
  - destruct bs; [by eexists|simpl in Hf; lia].
  - destruct (Z.eqb_spec (zlen bs) 0); [by eexists|]. destruct (Z.ltb_spec (zlen bs) 4); [by eexists|].
    destruct (get_le_bytes (E:=ntlmErr) bs 0 2 Hb) as (i & -> & _); [lia..|]. run_bind.
    destruct (get_le_bytes (E:=ntlmErr) bs 2 2 Hb) as (len & -> & Hn); [lia..|]. run_bind. destruct (Z.ltb_spec (zlen bs) (4 + len)); [by eexists|].
    rewrite !slice_Ok by lia. do 2 run_bind. apply IH; [by apply bytes_sub|]. pose proof (zlen_sub bs (4 + len) (zlen bs)). unfold zlen in *. lia.
Qed.
Lemma parseAvPairs_Ok bs : bytes bs -> exists r, parseAvPairs bs = Ok r.
Proof.
  intros Hb. unfold parseAvPairs. destruct (Z.ltb_spec (zlen bs) 4); [by eexists|]. rewrite slice_Ok by lia. run_bind.
  destruct (negb _); [by eexists|]. by apply avPairs_Ok.
Qed.

Section checks.
Context (lib : library) {lib_ok : LibraryOk lib}.

(** The part of a response behind the proof: the types, the time, the client's challenge
    and the target information. *)
Definition clientChallenge (timeStamp chal info : list Z) : list Z := [1; 1; 0; 0; 0; 0; 0; 0] ++ timeStamp ++ chal ++ zeros 4 ++ info.
Lemma encode_is key sc ts chal info : zlen ts = 8 -> zlen chal = 8 ->
  encodeNtlmv2Response lib (44 + zlen info) key sc chal ts info =
  Ok (hmacMD5 lib key (sc ++ clientChallenge ts chal info) ++ clientChallenge ts chal info).
Proof using Type.
  intros Ht Hc. pose proof (zlen_nonneg info) as Hi. unfold encodeNtlmv2Response. unfold zeros.
  replace (Z.to_nat (44 + zlen info)) with (16 + (28 + length info))%nat by (unfold zlen; lia). rewrite replicate_add.
  assert (@slice ntlmErr Z (replicate 16 0 ++ replicate (28 + length info) 0) 16 (44 + zlen info) = Ok (replicate (28 + length info) 0)) as ->.
  { rewrite slice_Ok; [|lia..|rewrite zlen_app, !zlen_replicate; unfold zlen; lia]. f_equal. unfold sub. change (Z.to_nat 16) with (length (replicate 16 0)).
    rewrite drop_app_length. apply take_ge. rewrite length_replicate. unfold zlen. lia. }
  run_bind. change (28 + length info)%nat with (2 + (6 + (8 + (8 + (4 + length info)))))%nat. rewrite !replicate_add.
  assert (forall r, @store ntlmErr Z (replicate 2 0 ++ r) 0 1 = Ok ([1; 0] ++ r) /\ @store ntlmErr Z ([1; 0] ++ r) 1 1 = Ok ([1; 1] ++ r)) as Hst.
  { intros r. pose proof (zlen_nonneg r). split; rewrite store_ok by (rewrite zlen_app; unfold zlen in *; simpl length; lia); done. }
  rewrite (proj1 (Hst _)). run_bind. rewrite (proj2 (Hst _)). run_bind.
  match goal with |- context [splice ?l 8 ts] => change l with ([1; 1; 0; 0; 0; 0; 0; 0] ++ replicate 8 0 ++ replicate 8 0 ++ replicate 4 0 ++ replicate (length info) 0) end.
  unfold zlen in Ht, Hc. rewrite splice_at by (try done; rewrite length_replicate; lia). run_bind. rewrite (app_assoc _ ts).
  rewrite splice_at by (try (rewrite length_replicate; lia); rewrite zlen_app; unfold zlen; rewrite ?Nat2Z.id; simpl length; lia). run_bind.
  rewrite <- app_assoc. replace ([1; 1; 0; 0; 0; 0; 0; 0] ++ ts ++ chal ++ replicate 4 0 ++ replicate (length info) 0) with
    (([1; 1; 0; 0; 0; 0; 0; 0] ++ ts ++ chal ++ replicate 4 0) ++ replicate (length info) 0 ++ []) by (by rewrite <- !app_assoc, app_nil_r).
  rewrite splice_at by (try (by rewrite length_replicate); rewrite !zlen_app; unfold zlen; simpl length; lia). run_bind.
  rewrite app_nil_r. unfold clientChallenge, zeros. by rewrite <- !app_assoc.
Qed.

Lemma cipherOf_Ok key : (1 <= length key <= 256)%nat -> exists c, cipherOf key = Ok c /\ Rc4.NewCipher key = Some c.
Proof using Type. intros H. unfold cipherOf. destruct (Rc4.NewCipher_Ok key H) as [c ->]. exists c. by split. Qed.
Lemma sealKey_Ok flags key b : length key = 16%nat -> exists k, sealKey lib flags key b = Ok k /\ (1 <= length k <= 256)%nat.
Proof using lib_ok.
  intros Hk. unfold sealKey. assert (forall n, 0 <= n <= 16 -> @slice ntlmErr Z key 0 n = Ok (sub key 0 n)) as Hs by (intros; apply slice_Ok; unfold zlen; lia).
  assert (forall n, 0 <= n <= 16 -> length (sub key 0 n) = Z.to_nat n) as Hsl by (intros; unfold sub; rewrite length_take, length_drop; lia).
  destruct (has flags NTLMSSP_NEGOTIATE_EXTENDED_SESSIONSECURITY).
  - destruct (has flags NTLMSSP_NEGOTIATE_128); [rewrite bind_mret|destruct (has flags NTLMSSP_NEGOTIATE_56); rewrite Hs, bind_ret by lia]; (eexists; split; [done|]); rewrite md5_length; lia.
  - destruct (has flags NTLMSSP_NEGOTIATE_LM_KEY); [|eexists; split; [done|lia]].
    destruct (has flags NTLMSSP_NEGOTIATE_56); rewrite Hs, bind_ret by lia; (eexists; split; [done|]); rewrite length_app; rewrite Hsl by lia; simpl; lia.
Qed.
Lemma newSession_Ok usr dom g a flags key : length key = 16%nat ->
  exists ss, newSession lib usr dom g a flags key = Ok ss /\ user ss = usr /\ domain ss = dom /\ guest ss = g /\ anonymous ss = a /\
    exportedSessionKey ss = key /\ isClientSide ss = false /\ negotiateFlags ss = flags /\
    clientSigningKey ss = signKey lib flags key true /\ serverSigningKey ss = signKey lib flags key false.
Proof using lib_ok.
  intros Hk. unfold newSession. destruct (sealKey_Ok flags key true Hk) as (k1 & -> & H1). run_bind. destruct (cipherOf_Ok k1 H1) as (c1 & -> & _). run_bind.
  destruct (sealKey_Ok flags key false Hk) as (k2 & -> & H2). run_bind. destruct (cipherOf_Ok k2 H2) as (c2 & -> & _). run_bind.
  eexists. split; [done|]. by split_and!.
Qed.

Lemma length_hmac_app k m l : sub (hmacMD5 lib k m ++ l) 0 16 = hmacMD5 lib k m /\ sub (hmacMD5 lib k m ++ l) 16 (zlen (hmacMD5 lib k m ++ l)) = l.
Proof using lib_ok.
  pose proof (hmac_length (lib:=lib) k m) as H. rewrite zlen_app. unfold sub, zlen. rewrite H. split.
  - rewrite Z.sub_0_r, drop_0. rewrite <- H at 1. change (Z.to_nat 16) with 16%nat. rewrite take_app_le by lia. apply take_ge. lia.
  - change (Z.to_nat 16) with 16%nat. rewrite drop_app_length' by lia. apply take_ge. lia.
Qed.
(** What a response has to be, and the key it settles. *)
Definition responseKey (acc : account) (usr dom : list Z) : list Z := ntowfv2Hash lib (EncodeStringToBytes (toUpper lib usr)) (NTHash acc) dom.
Definition answers (s : server) (acc : account) (usr : list Z) (m : message) (base info : list Z) : Prop :=
  NTHash acc <> [] /\ 32 <= zlen (cmsg s) /\ exists ts chal, zlen ts = 8 /\ zlen chal = 8 /\
    let key := responseKey acc usr (m_domain m) in
    let proof := hmacMD5 lib key (sub (cmsg s) 24 32 ++ clientChallenge ts chal info) in
    m_nt m = proof ++ clientChallenge ts chal info /\ base = hmacMD5 lib key proof.
Lemma zlen_clientChallenge ts chal info : zlen ts = 8 -> zlen chal = 8 -> zlen (clientChallenge ts chal info) = 28 + zlen info.
Proof using Type. intros H1 H2. unfold clientChallenge. rewrite !zlen_app, H1, H2. unfold zeros. rewrite zlen_replicate. unfold zlen at 1. simpl length. lia. Qed.
Lemma checkResponse_spec s acc usr m :
  (checkResponse lib s acc usr m = Err loginFailure \/ exists p, checkResponse lib s acc usr m = Ok p) /\
  (forall base info, checkResponse lib s acc usr m = Ok (base, info) -> answers s acc usr m base info).
Proof using lib_ok.
  unfold checkResponse, answers. fold (responseKey acc usr (m_domain m)). destruct (Z.eqb_spec (zlen (NTHash acc)) 0) as [|Hh]; [by split; [left|]|].
  unfold ntlmv2ResponseMinSize. destruct (Z.ltb_spec (zlen (m_nt m)) (16 + 28)); [by split; [left|]|]. destruct (Z.ltb_spec (zlen (cmsg s)) 32); [by split; [left|]|].
  rewrite (slice_Ok (m_nt m) 16) by lia.
  run_bind. cbv zeta. set (key := responseKey acc usr (m_domain m)). set (cc := sub (m_nt m) 16 (zlen (m_nt m))).
  assert (zlen cc = zlen (m_nt m) - 16) as Hcc by (apply zlen_sub; lia). rewrite (slice_Ok (cmsg s)) by lia. run_bind. rewrite (slice_Ok cc 8) by lia. run_bind. rewrite (slice_Ok cc 16) by lia. run_bind. rewrite (slice_Ok cc 28) by lia. run_bind.
  pose proof (zlen_sub cc 28 (zlen cc)) as Hi. pose proof (zlen_sub cc 8 16) as H8. pose proof (zlen_sub cc 16 24) as H16.
  assert (zlen (m_nt m) = 44 + zlen (sub cc 28 (zlen cc))) as Hz by lia. pose proof (encode_is key (sub (cmsg s) 24 32) (sub cc 8 16) (sub cc 16 24) (sub cc 28 (zlen cc)) ltac:(lia) ltac:(lia)) as Henc.
  rewrite <- Hz in Henc. rewrite Henc. run_bind.
  unfold sameBytes. case_bool_decide as E; cbn [negb]; [|by split; [left|]]. rewrite slice_Ok by lia. run_bind. split; [right; by eexists|].
  intros base info [= <- <-]. split_and!; [by destruct (NTHash acc)|done|]. eexists _, _. split; [|split]; [| |split; [exact E|]]; [lia..|]. f_equal.
  rewrite E. apply length_hmac_app.
Qed.
Lemma checkResponse_accepts s acc usr m base info : answers s acc usr m base info -> checkResponse lib s acc usr m = Ok (base, info).
Proof using lib_ok.
  intros (Hh & Hc & ts & chal & Ht & Hl & E & ->). unfold checkResponse. fold (responseKey acc usr (m_domain m)). set (key := responseKey acc usr (m_domain m)) in *.
  destruct (Z.eqb_spec (zlen (NTHash acc)) 0) as [H0|_]; [by destruct (NTHash acc)|]. pose proof (zlen_clientChallenge ts chal info Ht Hl) as Hz. pose proof (zlen_nonneg info).
  set (proof := hmacMD5 lib key (sub (cmsg s) 24 32 ++ clientChallenge ts chal info)) in *.
  assert (zlen (m_nt m) = 44 + zlen info) as Hn by (rewrite E, zlen_app, Hz; unfold zlen at 1, proof; rewrite (hmac_length (lib:=lib)); lia).
  unfold ntlmv2ResponseMinSize. destruct (Z.ltb_spec (zlen (m_nt m)) (16 + 28)); [lia|]. destruct (Z.ltb_spec (zlen (cmsg s)) 32); [lia|].
  rewrite (slice_Ok (m_nt m) 16) by lia. run_bind. destruct (length_hmac_app key (sub (cmsg s) 24 32 ++ clientChallenge ts chal info) (clientChallenge ts chal info)) as [Hp Hcc].
  assert (sub (m_nt m) 16 (zlen (m_nt m)) = clientChallenge ts chal info) as -> by (rewrite E; exact Hcc). cbv zeta. rewrite (slice_Ok (cmsg s)) by lia. run_bind.
  assert (forall a b c d : list Z, zlen a = 8 -> zlen b = 8 -> zlen c = 8 -> let l := a ++ b ++ c ++ d in sub l 8 16 = b /\ sub l 16 24 = c /\ sub l 24 (zlen l) = d) as Hs.
  { intros a b c d Ha Hb Hd. cbv zeta. unfold zlen, sub in *. rewrite !length_app. split_and!.
    - rewrite drop_app_length' by lia. rewrite take_app_length' by lia. done.
    - rewrite (app_assoc a), drop_app_length' by (rewrite length_app; lia). rewrite take_app_length' by lia. done.
    - rewrite (app_assoc b), (app_assoc a), drop_app_length' by (rewrite !length_app; lia). apply take_ge. lia. }
  assert (sub (clientChallenge ts chal info) 28 (zlen (clientChallenge ts chal info)) = info) as Hinfo.
  { destruct (Hs [1; 1; 0; 0; 0; 0; 0; 0] ts chal (zeros 4 ++ info)) as (_ & _ & H3); [done..|]. unfold sub in *. unfold zlen in Hz. rewrite take_ge by (rewrite length_drop; unfold zlen; lia).
    rewrite take_ge in H3 by (rewrite length_drop; unfold zlen; lia). change (Z.to_nat 28) with (24 + 4)%nat. rewrite <- drop_drop. change (Z.to_nat 24) with 24%nat in H3.
    unfold clientChallenge. rewrite H3. done. }
  destruct (Hs [1; 1; 0; 0; 0; 0; 0; 0] ts chal (zeros 4 ++ info)) as (Hs1 & Hs2 & _); [done..|].
  fold (clientChallenge ts chal info) in Hs1, Hs2. rewrite (slice_Ok (clientChallenge ts chal info) 8), (slice_Ok (clientChallenge ts chal info) 16), (slice_Ok (clientChallenge ts chal info) 28) by lia. run_bind. run_bind. run_bind. rewrite Hs1, Hs2, Hinfo, Hn. rewrite encode_is by done. run_bind.
  fold proof. rewrite <- E. unfold sameBytes. rewrite bool_decide_true by done. cbn [negb]. rewrite slice_Ok by lia. run_bind. do 4 f_equal. rewrite E. exact Hp.
Qed.

Lemma exchangeKey_spec m base : length base = 16%nat ->
  exchangeKey m base = Err loginFailure \/ exists key, exchangeKey m base = Ok key /\ length key = 16%nat /\
    (if has (m_flags m) NTLMSSP_NEGOTIATE_KEY_EXCH then exists c, Rc4.NewCipher base = Some c /\ Rc4.XORKeyStream c key = (m_key m, (Rc4.XORKeyStream c (m_key m)).2)
     else key = base).
Proof using Type.
  intros Hb. unfold exchangeKey. destruct (has _ _); [|right; by eexists]. destruct (Z.eqb_spec (zlen (m_key m)) 16) as [Hk|]; cbn [negb]; [|by left].
  destruct (cipherOf_Ok base) as (c & -> & Hc); [lia|]. run_bind. right. eexists. split; [done|]. split; [rewrite Rc4.length_XORKeyStream; unfold zlen in Hk; lia|].
  exists c. split; [done|]. apply Rc4.XORKeyStream_undone.
Qed.
(** The message with its integrity check blanked. *)
Definition micAt (flags : Z) : Z := if has flags NTLMSSP_NEGOTIATE_VERSION then 72 else 64.
Definition blanked (off : Z) (am : list Z) : list Z := take (Z.to_nat off) am ++ zeros 16 ++ drop (Z.to_nat (off + 16)) am.
Definition wantsMIC (info : list Z) : bool :=
  match parseAvPairs info with
  | Ok (Some pairs) => match pairs !! MsvAvFlags with Some av => (4 <=? zlen av) && has (le_dec (sub av 0 4)) 0x02 | None => false end
  | _ => false
  end.
Lemma checkMIC_is s flags key info am : bytes info ->
  checkMIC lib s flags key info am =
  if wantsMIC info then
    let off := micAt flags in
    if zlen am <? off + 16 then (am, Err loginFailure)
    else (blanked off am, if sameBytes (sub am off (off + 16)) (hmacMD5 lib key (nmsg s ++ cmsg s ++ blanked off am)) then mret tt else Err loginFailure)
  else (am, mret tt).
Proof using Type.
  intros Hb. unfold checkMIC, wantsMIC. destruct (parseAvPairs_Ok info Hb) as [[pairs|] ->]; [|done]. destruct (pairs !! MsvAvFlags) as [av|]; [|done].
  destruct (_ && _); [|done]. cbv zeta. fold (micAt flags). destruct (Z.ltb_spec (zlen am) (micAt flags + 16)); [done|].
  unfold splice. change (zlen (zeros 16)) with 16. assert (0 <= micAt flags) by (unfold micAt; destruct (has _ _); lia). destruct (Z.leb_spec 0 (micAt flags)); [|lia].
  destruct (Z.leb_spec (micAt flags + 16) (zlen am)); [|lia]. done.
Qed.

Lemma zlen_blanked off am : 0 <= off -> off + 16 <= zlen am -> zlen (blanked off am) = zlen am.
Proof using Type. intros H1 H2. unfold blanked, zeros, zlen in *. rewrite !length_app, length_take, length_replicate, length_drop. lia. Qed.
Lemma micAt_bound flags : 64 <= micAt flags <= 72.
Proof using Type. unfold micAt. destruct (has _ _); lia. Qed.
Lemma resolve_settled dom : (exists e, resolveWorkgroup lib dom = Err e) \/ exists wg, resolveWorkgroup lib dom = Ok wg.
Proof using Type.
  unfold resolveWorkgroup. destruct (_ =? _); [right; by eexists|]. destruct (parseUUID lib dom) as [u|].
  - destruct (sameBytes _ _); [left|right]; by eexists.
  - destruct (FindWorkgroupByName lib dom) as [[id u]|]; [|left; by eexists]. destruct (_ =? _); [left|right]; by eexists.
Qed.
Lemma anonymous_Ok flags am g s : exists ss, anonymousSession lib flags am g s = Ok (set_session ss am s) /\
  anonymous ss = true /\ guest ss = g /\ user ss = [] /\ exportedSessionKey ss = zeros 16.
Proof using lib_ok.
  unfold anonymousSession. destruct (newSession_Ok [] [] g true flags (zeros 16) eq_refl) as (ss & -> & ? & ? & ? & ? & ? & _). run_bind. exists ss. by split_and!.
Qed.

(** Who is let in: nobody in particular where the server admits that, or an account whose
    hash went into the answer to the challenge of this very exchange. *)
Definition userOf (m : message) : list Z := toLower lib (DecodeToString (m_user m)).
Definition domainOf (m : message) : list Z := if negb (zlen (m_domain m) =? 0) then toLower lib (DecodeToString (m_domain m)) else [].
Inductive admitted (s : server) (am am' : list Z) (ss : session) : Prop :=
| AsNobody m : admitsAnonymous s = true -> readMessage am = Ok m -> am' = am ->
    (m_user m = [] /\ m_nt m = [] /\ guest ss = false \/ userOf m = GuestAccount /\ guest ss = true) ->
    anonymous ss = true -> user ss = [] -> exportedSessionKey ss = zeros 16 -> admitted s am am' ss
| AsAccount m acc base info : readMessage am = Ok m ->
    resolveWorkgroup lib (domainOf m) = Ok (domain ss) -> FindAccount lib (userOf m) (domain ss) = Some acc ->
    answers s acc (userOf m) m base info -> exchangeKey m base = Ok (exportedSessionKey ss) ->
    (if wantsMIC info then
       let off := micAt (m_flags m) in
       off + 16 <= zlen am /\ am' = blanked off am /\ sub am off (off + 16) = hmacMD5 lib (exportedSessionKey ss) (nmsg s ++ cmsg s ++ am')
     else am' = am) ->
    anonymous ss = false -> user ss = userOf m -> guest ss = Passwordless lib acc -> admitted s am am' ss.
Definition untouched (am am' : list Z) : Prop := am' = am \/ exists off, 64 <= off <= 72 /\ off + 16 <= zlen am /\ am' = blanked off am.

Lemma answers_base s acc usr m base info : answers s acc usr m base info -> length base = 16%nat.
Proof using lib_ok. intros (_ & _ & ts & chal & _ & _ & _ & ->). apply hmac_length. Qed.
Lemma bytes_info s acc usr m base info : answers s acc usr m base info -> bytes (m_nt m) -> bytes info.
Proof using Type.
  intros (_ & _ & ts & chal & _ & _ & -> & _) Hb. unfold clientChallenge, bytes in *. repeat (apply Forall_app in Hb as [_ Hb]). done.
Qed.
Lemma authenticate_cases s am : bytes am -> zlen am < 2 ^ 32 ->
  exists am' r, Authenticate lib am s = (am', r) /\ untouched am am' /\
    ((exists e, r = Err e) \/ exists ss, r = Ok (set_session ss am' s) /\ admitted s am am' ss /\ length (exportedSessionKey ss) = 16%nat).
Proof using lib_ok.
  intros Hb Hl. unfold Authenticate. destruct (readMessage_spec am Hb Hl) as [[e ->]|(m & Em & Hnt & _ & H64)].
  { eexists _, _. split; [done|]. split; [by left|]. left. by eexists. }
  rewrite Em. destruct (negb (zlen (m_user m) =? 0) || negb (zlen (m_nt m) =? 0)) eqn:Ec.
  2:{ eexists _, _. split; [done|]. split; [by left|]. destruct (admitsAnonymous s) eqn:Ea; cbn [negb]; [|left; by eexists].
      right. destruct (anonymous_Ok (m_flags m) am false s) as (ss & -> & ? & ? & ? & Hk). exists ss. split; [done|]. rewrite Hk. split; [|done].
      apply orb_false_iff in Ec as [E1%negb_false_iff%Z.eqb_eq E2%negb_false_iff%Z.eqb_eq].
      eapply AsNobody; try done. left. split_and!; try done; [by destruct (m_user m)|by destruct (m_nt m)]. }
  fold (userOf m). fold (domainOf m). cbv zeta.
  assert (forall e, exists r, (am, if admitsAnonymous s && sameBytes (userOf m) GuestAccount then anonymousSession lib (m_flags m) am true s else Err e) = (am, r) /\ untouched am am /\
    ((exists e, r = Err e) \/ exists ss, r = Ok (set_session ss am s) /\ admitted s am am ss /\ length (exportedSessionKey ss) = 16%nat)) as Hrefused.
  { intros e. eexists. split; [done|]. split; [by left|]. destruct (admitsAnonymous s && sameBytes (userOf m) GuestAccount) eqn:Eg; [|left; by eexists].
    right. destruct (anonymous_Ok (m_flags m) am true s) as (ss & -> & ? & ? & ? & Hk). exists ss. split; [done|]. rewrite Hk. split; [|done].
    apply andb_prop in Eg as [Ea Eu%bool_decide_eq_true_1]. eapply AsNobody; try done. by right. }
  destruct (resolve_settled (domainOf m)) as [[e ->]|[wg Ew]]; [exists am; apply Hrefused|]. rewrite Ew.
  destruct (FindAccount lib (userOf m) wg) as [acc|] eqn:Ef; [|exists am; apply Hrefused].
  destruct (checkResponse_spec s acc (userOf m) m) as [[->|([base info] & Er)] Hans].
  { cbn [mbind outcome_bind]. eexists _, _. split; [done|]. split; [by left|]. left. by eexists. }
  specialize (Hans base info Er). rewrite Er. run_bind. destruct (exchangeKey_spec m base (answers_base _ _ _ _ _ _ Hans)) as [->|(key & Ek & Hk & _)].
  { cbn [mbind outcome_bind]. eexists _, _. split; [done|]. split; [by left|]. left. by eexists. }
  rewrite Ek. cbn [mbind outcome_bind]. unfold mret at 1, outcome_ret at 1. rewrite checkMIC_is by (by eapply bytes_info).
  destruct (newSession_Ok (userOf m) wg (Passwordless lib acc) false (m_flags m) key Hk) as (ss & Es & Hu & Hd & Hg & Ha & Hx & _).
  pose proof (micAt_bound (m_flags m)) as Hoff. assert (exportedSessionKey ss = key) as Hx' by done.
  destruct (wantsMIC info) eqn:Emic; cbv zeta.
  - destruct (Z.ltb_spec (zlen am) (micAt (m_flags m) + 16)); [eexists _, _; split; [done|]; split; [by left|]; left; by eexists|].
    eexists _, _. split; [done|]. split; [right; by exists (micAt (m_flags m))|]. unfold sameBytes. case_bool_decide as Em'; [|left; by eexists].
    rewrite Es. right. exists ss. split; [done|]. rewrite Hx. split; [|done]. eapply (AsAccount _ _ _ _ m acc base info); rewrite ?Hd, ?Hx, ?Emic; try done.
  - eexists _, _. split; [done|]. split; [by left|]. rewrite Es. right. exists ss. split; [done|]. rewrite Hx. split; [|done].
    eapply (AsAccount _ _ _ _ m acc base info); rewrite ?Hd, ?Hx, ?Emic; done.
Qed.

(** C12: Nobody is let in without the hash.  An authentication that succeeds leaves a session of
    sixteen bytes of key that belongs either to nobody, on a server that admits such and for
    a client that gave no credentials or the guest name, or to an account of the store, found
    under the user and the workgroup the message names and holding a hash, whose response is
    the very HMAC of the challenge the server last sent under that hash; and the message is
    vouched for where the client said it would be. *)
Theorem only_the_hash_opens (s : server) (am am' : list Z) (s' : server) : bytes am -> zlen am < 2 ^ 32 ->
  Authenticate lib am s = (am', Ok s') ->
  exists ss, s' = set_session ss am' s /\ length (exportedSessionKey ss) = 16%nat /\ admitted s am am' ss.
Proof using lib_ok.
  intros Hb Hl E. destruct (authenticate_cases s am Hb Hl) as (am1 & r & E1 & _ & H). rewrite E1 in E. injection E as -> ->.
  destruct H as [[e He]|(ss & Hs & Ha & Hk)]; [done|]. injection Hs as ->. by exists ss.
Qed.
(** C14: No message brings the authentication down.  Whatever bytes a client sends, in whatever
    state the exchange is, [Authenticate] comes to a session or an error, and of the message
    it changes at most the sixteen bytes of the integrity check. *)
Theorem authentication_returns (s : server) (am : list Z) : bytes am -> zlen am < 2 ^ 32 ->
  settled (Authenticate lib am s).2 /\ untouched am (Authenticate lib am s).1 /\
  forall s', (Authenticate lib am s).2 = Ok s' -> exists sg, Signature lib s' = Ok sg /\ zlen sg <= 16.
Proof using lib_ok.
  intros Hb Hl. destruct (authenticate_cases s am Hb Hl) as (am' & r & -> & Hu & H). cbn [fst snd].
  split; [destruct H as [[e ->]|(ss & -> & _)]; done|]. split; [done|]. intros s' ->. destruct H as [[e He]|(ss & [= ->] & _)]; [done|].
  assert (bytes am') as Hb'. { destruct Hu as [->|(off & _ & _ & ->)]; [done|]. unfold blanked, bytes in *. rewrite !Forall_app. split_and!; [by apply Forall_take|apply Forall_replicate; unfold is_u8; lia|by apply Forall_drop]. }
  unfold Signature. cbn [current set_session amsg nmsg cmsg]. destruct (Z.ltb_spec (zlen am') 64); [by exists []|].
  destruct (get_le_bytes (E:=ntlmErr) am' 60 4 Hb') as (f & -> & _); [lia..|]. run_bind. cbv zeta. fold (micAt f). pose proof (micAt_bound f).
  destruct (Z.ltb_spec (zlen am') (micAt f + 16)); [by exists []|]. rewrite (slice_Ok am' 0) by lia. run_bind. rewrite (slice_Ok am' (micAt f + 16)) by lia. run_bind.
  eexists. split; [done|]. unfold zlen. rewrite hmac_length. lia.
Qed.

(** ** A client

    What a client knows and chooses, and the message it answers the challenge with: the
    fixed header, a version, the integrity check and the fields one behind another. *)
Record client := Client {
  c_user : list Z; c_domain : list Z; c_hash : list Z; c_info : list Z; c_time : list Z; c_challenge : list Z; c_flags : Z; c_key : list Z;
}.
Definition fieldOf (len off : Z) : list Z := le_enc 2 len ++ le_enc 2 len ++ le_enc 4 off.
Definition messageHead (flags : Z) (nt dom usr key : list Z) : list Z :=
  signature ++ le_enc 4 NtLmAuthenticate ++ fieldOf 0 88 ++ fieldOf (zlen nt) 88 ++ fieldOf (zlen dom) (88 + zlen nt) ++
  fieldOf (zlen usr) (88 + zlen nt + zlen dom) ++ fieldOf 0 88 ++ fieldOf (zlen key) (88 + zlen nt + zlen dom + zlen usr) ++ le_enc 4 flags ++ version.
Definition clientMessage (flags : Z) (nt dom usr key mic : list Z) : list Z := messageHead flags nt dom usr key ++ mic ++ nt ++ dom ++ usr ++ key.
Definition clientResponseKey (c : client) : list Z :=
  hmacMD5 lib (c_hash c) (EncodeStringToBytes (toUpper lib (c_user c)) ++ EncodeStringToBytes (c_domain c)).
Definition clientProof (c : client) (serverChallenge : list Z) : list Z :=
  hmacMD5 lib (clientResponseKey c) (serverChallenge ++ clientChallenge (c_time c) (c_challenge c) (c_info c)).
(** [nm] and [cm] are the messages the client sent and got before. *)
Definition answer (c : client) (nm cm : list Z) : list Z :=
  let proof := clientProof c (sub cm 24 32) in
  let base := hmacMD5 lib (clientResponseKey c) proof in
  let sealed := match Rc4.NewCipher base with Some h => (Rc4.XORKeyStream h (c_key c)).1 | None => [] end in
  let msg := clientMessage (c_flags c) (proof ++ clientChallenge (c_time c) (c_challenge c) (c_info c))
    (EncodeStringToBytes (c_domain c)) (EncodeStringToBytes (c_user c)) sealed in
  msg (hmacMD5 lib (c_key c) (nm ++ cm ++ msg (zeros 16))).
Record wellMade (c : client) : Prop := WellMade {
  wm_user : Forall isScalar (c_user c) /\ last (c_user c) <> Some 0 /\ toUpper lib (toLower lib (c_user c)) = toUpper lib (c_user c);
  wm_domain : Forall isScalar (c_domain c) /\ last (c_domain c) <> Some 0 /\ c_domain c <> [];
  wm_lengths : zlen (EncodeStringToBytes (c_user c)) < 2 ^ 16 /\ zlen (EncodeStringToBytes (c_domain c)) < 2 ^ 16 /\ zlen (c_info c) + 44 < 2 ^ 16 /\
    zlen (c_time c) = 8 /\ zlen (c_challenge c) = 8 /\ zlen (c_key c) = 16;
  wm_info : bytes (c_info c);
  wm_flags : 0 <= c_flags c < 2 ^ 32 /\ has (c_flags c) NTLMSSP_NEGOTIATE_VERSION = true /\ has (c_flags c) NTLMSSP_NEGOTIATE_KEY_EXCH = true;
}.

Lemma sub_mid {A} (a v b : list A) i j : zlen a = i -> j = i + zlen v -> sub (a ++ v ++ b) i j = v.
Proof using Type. intros <- ->. unfold sub, zlen. rewrite Nat2Z.id, drop_app_length. by rewrite take_app_length' by lia. Qed.
Lemma get_le_at a b n v off : zlen a = off -> 0 <= v < 2 ^ (8 * Z.of_nat n) -> @get_le ntlmErr (a ++ le_enc n v ++ b) off (Z.of_nat n) = Ok v.
Proof using Type.
  intros Ha Hv. pose proof (zlen_nonneg a). pose proof (zlen_nonneg b). rewrite get_le_Ok by (rewrite ?zlen_app, ?zlen_le_enc; lia).
  rewrite sub_mid by (rewrite ?zlen_le_enc; lia). by rewrite le_dec_enc_small.
Qed.
Lemma field_reads a v b c d at_ e m : m = a ++ fieldOf (zlen v) (zlen b) ++ c -> m = b ++ v ++ d -> zlen a = at_ -> zlen v < 2 ^ 16 -> zlen m < 2 ^ 32 ->
  field m at_ e = Ok v.
Proof using Type.
  intros Hm1 Hm2 Ha Hv Hl. pose proof (zlen_nonneg v). pose proof (zlen_nonneg b). pose proof (zlen_nonneg d).
  assert (zlen m = zlen b + (zlen v + zlen d)) as Hz by (rewrite Hm2, !zlen_app; lia). unfold field, fieldOf in *.
  assert (get_le m at_ 2 = @Ok ntlmErr _ (zlen v)) as ->. { rewrite Hm1, <- !app_assoc. by apply (get_le_at a _ 2). } run_bind.
  assert (get_le m (at_ + 2) 2 = @Ok ntlmErr _ (zlen v)) as ->. { rewrite Hm1, <- !app_assoc, (app_assoc a). apply (get_le_at _ _ 2); [rewrite zlen_app, zlen_le_enc; lia|done]. } run_bind.
  rewrite Z.ltb_irrefl. assert (get_le m (at_ + 4) 4 = @Ok ntlmErr _ (zlen b)) as ->.
  { rewrite Hm1, <- !app_assoc, (app_assoc a), (app_assoc (a ++ _)). apply (get_le_at _ _ 4); [rewrite !zlen_app, !zlen_le_enc; lia|simpl; lia]. } run_bind.
  unfold fits, u64, u32. rewrite (Z.mod_small (zlen b + zlen v)) by lia. destruct (Z.leb_spec (zlen b + zlen v) (zlen m)); [|lia]. cbn [negb].
  rewrite Z.mod_small by lia. rewrite slice_Ok by lia. f_equal. rewrite Hm2. by apply sub_mid.
Qed.
Lemma zlen_messageHead flags nt dom usr key : zlen (messageHead flags nt dom usr key) = 72.
Proof using Type. unfold messageHead, fieldOf. rewrite !zlen_app, !zlen_le_enc. done. Qed.
Lemma clientMessage_reads flags nt dom usr key mic : zlen nt < 2 ^ 16 -> zlen dom < 2 ^ 16 -> zlen usr < 2 ^ 16 -> zlen key < 2 ^ 16 -> zlen mic = 16 -> 0 <= flags < 2 ^ 32 ->
  readMessage (clientMessage flags nt dom usr key mic) = Ok (Message flags nt dom usr key).
Proof using Type.
  intros H1 H2 H3 H4 Hm Hf. pose proof (zlen_nonneg nt). pose proof (zlen_nonneg dom). pose proof (zlen_nonneg usr). pose proof (zlen_nonneg key).
  set (m := clientMessage flags nt dom usr key mic). assert (zlen m = 88 + zlen nt + zlen dom + zlen usr + zlen key) as Hz by (unfold m, clientMessage; rewrite !zlen_app, zlen_messageHead; lia).
  assert (m = signature ++ le_enc 4 NtLmAuthenticate ++ fieldOf 0 88 ++ fieldOf (zlen nt) 88 ++ fieldOf (zlen dom) (88 + zlen nt) ++
    fieldOf (zlen usr) (88 + zlen nt + zlen dom) ++ fieldOf 0 88 ++ fieldOf (zlen key) (88 + zlen nt + zlen dom + zlen usr) ++ le_enc 4 flags ++ version ++ mic ++ nt ++ dom ++ usr ++ key) as Em
    by (unfold m, clientMessage, messageHead; by rewrite <- !app_assoc).
  assert (forall k, zlen (messageHead flags nt dom usr key ++ mic ++ k) = 88 + zlen k) as Hh by (intros; rewrite !zlen_app, zlen_messageHead; lia).
  assert (zlen (messageHead flags nt dom usr key ++ mic) = 88) as Hh0 by (rewrite zlen_app, zlen_messageHead; lia).
  unfold readMessage. destruct (Z.ltb_spec (zlen m) 64); [lia|]. rewrite slice_Ok by lia. run_bind. rewrite Em at 1. change (sub (signature ++ _) 0 8) with signature. unfold sameBytes. rewrite bool_decide_true by done. cbn [negb].
  assert (get_le m 8 4 = @Ok ntlmErr _ NtLmAuthenticate) as -> by (rewrite Em; by apply (get_le_at signature _ 4)). run_bind. rewrite Z.eqb_refl. cbn [negb].
  assert (get_le m 60 4 = @Ok ntlmErr _ flags) as ->.
  { rewrite Em. match goal with |- context [le_enc 4 flags ++ ?r] => set (rest := r) end. rewrite !app_assoc, <- app_assoc. apply (get_le_at _ _ 4); [|done]. unfold fieldOf. rewrite !zlen_app, !zlen_le_enc. done. }
  run_bind.
  rewrite (field_reads (signature ++ le_enc 4 NtLmAuthenticate ++ fieldOf 0 88) nt (messageHead flags nt dom usr key ++ mic) (fieldOf (zlen dom) (88 + zlen nt) ++
    fieldOf (zlen usr) (88 + zlen nt + zlen dom) ++ fieldOf 0 88 ++ fieldOf (zlen key) (88 + zlen nt + zlen dom + zlen usr) ++ le_enc 4 flags ++ version ++ mic ++ nt ++ dom ++ usr ++ key) (dom ++ usr ++ key) 20);
    [|rewrite Em, Hh0, <- !app_assoc; done|unfold m, clientMessage; by rewrite <- !app_assoc|reflexivity|lia|lia]. run_bind.
  rewrite (field_reads (signature ++ le_enc 4 NtLmAuthenticate ++ fieldOf 0 88 ++ fieldOf (zlen nt) 88) dom (messageHead flags nt dom usr key ++ mic ++ nt)
    (fieldOf (zlen usr) (88 + zlen nt + zlen dom) ++ fieldOf 0 88 ++ fieldOf (zlen key) (88 + zlen nt + zlen dom + zlen usr) ++ le_enc 4 flags ++ version ++ mic ++ nt ++ dom ++ usr ++ key) (usr ++ key) 28);
    [|rewrite Em, Hh, <- !app_assoc; done|unfold m, clientMessage; by rewrite <- !app_assoc|reflexivity|lia|lia]. run_bind.
  rewrite (field_reads (signature ++ le_enc 4 NtLmAuthenticate ++ fieldOf 0 88 ++ fieldOf (zlen nt) 88 ++ fieldOf (zlen dom) (88 + zlen nt)) usr (messageHead flags nt dom usr key ++ mic ++ nt ++ dom)
    (fieldOf 0 88 ++ fieldOf (zlen key) (88 + zlen nt + zlen dom + zlen usr) ++ le_enc 4 flags ++ version ++ mic ++ nt ++ dom ++ usr ++ key) key 36);
    [|rewrite Em, Hh, zlen_app, Z.add_assoc, <- !app_assoc; done|unfold m, clientMessage; by rewrite <- !app_assoc|reflexivity|lia|lia]. run_bind.
  rewrite (field_reads (signature ++ le_enc 4 NtLmAuthenticate ++ fieldOf 0 88 ++ fieldOf (zlen nt) 88 ++ fieldOf (zlen dom) (88 + zlen nt) ++ fieldOf (zlen usr) (88 + zlen nt + zlen dom) ++ fieldOf 0 88) key
    (messageHead flags nt dom usr key ++ mic ++ nt ++ dom ++ usr) (le_enc 4 flags ++ version ++ mic ++ nt ++ dom ++ usr ++ key) [] 52);
    [|rewrite Em, Hh, !zlen_app, !Z.add_assoc, <- !app_assoc; done|unfold m, clientMessage; rewrite app_nil_r; by rewrite <- !app_assoc|reflexivity|lia|lia]. done.
Qed.

Lemma encoded_nonempty l : l <> [] -> EncodeStringToBytes l <> [].
Proof using Type.
  destruct l as [|r l]; [done|]. intros _ H. apply (f_equal length) in H. unfold EncodeStringToBytes in H. rewrite length_units in H.
  change (utf16Encode (r :: l)) with (encodeRune r ++ utf16Encode l) in H. rewrite length_app in H. pose proof (encodeRune_length r). simpl in H. lia.
Qed.
Lemma decodes l : Forall isScalar l -> last l <> Some 0 -> DecodeToString (EncodeStringToBytes l) = l.
Proof using Type.
  intros Hs Hl. unfold DecodeToString, EncodeStringToBytes. rewrite length_units.
  replace (2 * length (utf16Encode l) / 2)%nat with (length (utf16Encode l)) by (rewrite Nat.mul_comm, Nat.div_mul; done). rewrite units_encoded by (by apply utf16Encode_units).
  assert (match last (utf16Encode l) with Some 0 => take (length (utf16Encode l) - 1) (utf16Encode l) | _ => utf16Encode l end = utf16Encode l) as ->; [|by apply utf16Decode_Encode].
  destruct (last l) as [r|] eqn:Hr; [|by apply last_None in Hr as ->]. destruct (utf16Encode_last l r Hs Hr) as (w & -> & Hw); [congruence|]. by destruct w.
Qed.
(** C13: Whoever holds the hash is let in.  A client that answers the challenge as NTLMv2 has it,
    under the hash the store holds for its account, with whatever target information, time
    and challenge of its own, is authenticated as that account, and the key of the session is
    the key the client chose and sent sealed: both ends sign with the same. *)
Theorem the_hash_is_let_in (c : client) (s : server) (acc : account) (wg : list Z) :
  wellMade c -> 32 <= zlen (cmsg s) -> c_hash c <> [] ->
  resolveWorkgroup lib (toLower lib (c_domain c)) = Ok wg -> FindAccount lib (toLower lib (c_user c)) wg = Some acc -> NTHash acc = c_hash c ->
  exists am' ss, Authenticate lib (answer c (nmsg s) (cmsg s)) s = (am', Ok (set_session ss am' s)) /\
    user ss = toLower lib (c_user c) /\ domain ss = wg /\ anonymous ss = false /\ guest ss = Passwordless lib acc /\ exportedSessionKey ss = c_key c /\
    clientSigningKey ss = signKey lib (c_flags c) (c_key c) true /\ serverSigningKey ss = signKey lib (c_flags c) (c_key c) false.
Proof using lib_ok.
  intros [(Hu & Hul & Hup) (Hd & Hdl & Hdn) (L1 & L2 & L3 & L4 & L5 & L6) Hi (Hf & Hfv & Hfk)] Hcm Hh Hw Hacc HH. unfold answer. cbv zeta.
  set (proof := clientProof c (sub (cmsg s) 24 32)). set (base := hmacMD5 lib (clientResponseKey c) proof). set (nt := proof ++ _).
  set (U := EncodeStringToBytes (c_user c)) in *. set (D := EncodeStringToBytes (c_domain c)) in *.
  assert (length base = 16%nat) as Hb by apply hmac_length. destruct (Rc4.NewCipher_Ok base) as [h Eh]; [lia|]. rewrite Eh. set (sealed := (Rc4.XORKeyStream h (c_key c)).1).
  set (msg := clientMessage (c_flags c) nt D U sealed). assert (zlen sealed = 16) as Hsl by (unfold sealed, zlen in *; rewrite Rc4.length_XORKeyStream; lia).
  set (mic := hmacMD5 lib (c_key c) _). assert (zlen mic = 16) as Hm by (unfold zlen, mic; by rewrite hmac_length).
  assert (zlen nt = 44 + zlen (c_info c)) as Hn.
  { unfold nt. rewrite zlen_app, zlen_clientChallenge by done. unfold zlen at 1, proof, clientProof. rewrite hmac_length. lia. }
  pose proof (zlen_nonneg (c_info c)) as Hi0. set (m := Message (c_flags c) nt D U sealed).
  assert (readMessage (msg mic) = Ok m) as Em by (apply clientMessage_reads; done || lia). unfold Authenticate. rewrite Em.
  change (m_nt m) with nt. destruct (Z.eqb_spec (zlen nt) 0) as [Hz|_]; [lia|]. rewrite orb_true_r.
  change (toLower lib (DecodeToString (m_user m))) with (toLower lib (DecodeToString U)). assert (DecodeToString U = c_user c) as -> by (by apply decodes).
  change (m_domain m) with D. destruct (Z.eqb_spec (zlen D) 0) as [Hz|_]; [exfalso; apply (encoded_nonempty (c_domain c) Hdn); fold D; by destruct D|]. cbn [negb].
  assert (DecodeToString D = c_domain c) as -> by (by apply decodes). cbv zeta. rewrite Hw, Hacc.
  assert (answers s acc (toLower lib (c_user c)) m base (c_info c)) as Hans.
  { split; [by rewrite HH|]. split; [done|]. exists (c_time c), (c_challenge c). split; [done|]. split; [done|]. cbv zeta. unfold responseKey, ntowfv2Hash. rewrite Hup, HH. done. }
  rewrite (checkResponse_accepts _ _ _ _ _ _ Hans). run_bind.
  assert (exchangeKey m base = Ok (c_key c)) as ->.
  { unfold exchangeKey. simpl (m_flags m). rewrite Hfk. simpl (m_key m). rewrite Hsl, Z.eqb_refl. cbn [negb]. unfold cipherOf. rewrite Eh. rewrite bind_mret. unfold sealed. by rewrite Rc4.XORKeyStream_undone. }
  run_bind. unfold mret at 1, outcome_ret at 1. rewrite checkMIC_is by done. simpl (m_flags m). unfold micAt. rewrite Hfv.
  assert (msg mic = messageHead (c_flags c) nt D U sealed ++ mic ++ nt ++ D ++ U ++ sealed) as Emsg by done. pose proof (zlen_messageHead (c_flags c) nt D U sealed) as Hhead.
  assert (blanked 72 (msg mic) = msg (zeros 16)) as Ebl.
  { rewrite Emsg. unfold blanked, msg, clientMessage, zlen in *. rewrite take_app_length' by lia. f_equal. f_equal. rewrite app_assoc, drop_app_length' by (rewrite length_app; lia). done. }
  assert (sub (msg mic) 72 (72 + 16) = mic) as Esub by (rewrite Emsg; apply sub_mid; [done|lia]).
  destruct (newSession_Ok (toLower lib (c_user c)) wg (Passwordless lib acc) false (c_flags c) (c_key c)) as (ss & Es & ? & ? & ? & ? & ? & _ & _ & ? & ?); [unfold zlen in L6; lia|].
  destruct (wantsMIC (c_info c)); cbv zeta.
  - destruct (Z.ltb_spec (zlen (msg mic)) (72 + 16)) as [Hlt|_].
    { rewrite Emsg, !zlen_app in Hlt. pose proof (zlen_nonneg D). pose proof (zlen_nonneg U). lia. }
    rewrite Ebl, Esub. unfold sameBytes. rewrite bool_decide_true by done. rewrite bind_mret, Es. eexists _, ss. split; [done|]. by split_and!.
  - rewrite bind_mret, Es. eexists _, ss. split; [done|]. by split_and!.
Qed.

(** ** The challenge

    A message as the pieces it is made of, and a write that fills one of them. *)
Lemma take_drop_seg (segs : list (list Z)) i old : segs !! i = Some old -> concat segs = concat (take i segs) ++ old ++ concat (drop (S i) segs).
Proof using Type. intros H. rewrite <- (take_drop_middle segs i old H) at 1. by rewrite concat_app. Qed.
Lemma insert_seg (segs : list (list Z)) i src : (i < length segs)%nat -> concat (<[i := src]> segs) = concat (take i segs) ++ src ++ concat (drop (S i) segs).
Proof using Type.
  intros H. rewrite (take_drop_seg _ i src) by (by apply list_lookup_insert_eq). rewrite take_insert_ge, drop_insert_lt by lia. done.
Qed.
Lemma splice_seg (segs : list (list Z)) i old src off : segs !! i = Some old -> zlen (concat (take i segs)) = off -> zlen old = zlen src ->
  @splice ntlmErr (concat segs) off src = Ok (concat (<[i := src]> segs)).
Proof using Type.
  intros H Ho Hl. rewrite (take_drop_seg _ i old H), splice_at by (try done; unfold zlen in Hl; lia). rewrite insert_seg; [done|]. by eapply lookup_lt_Some.
Qed.
Lemma put_seg (segs : list (list Z)) i old n v off : segs !! i = Some old -> zlen (concat (take i segs)) = off -> zlen old = n ->
  @put_le ntlmErr (concat segs) off n v = Ok (concat (<[i := le_enc (Z.to_nat n) v]> segs)).
Proof using Type.
  intros H Ho Hl. rewrite (take_drop_seg _ i old H), put_le_at by done. rewrite insert_seg; [done|]. by eapply lookup_lt_Some.
Qed.
Lemma putPair_seg (segs : list (list Z)) i a b v off id w : segs !! i = Some a -> segs !! S i = Some b -> segs !! S (S i) = Some v ->
  zlen (concat (take i segs)) = off -> zlen a = 2 -> zlen b = 2 -> zlen v = zlen w ->
  putPair (concat segs) off id w = Ok (concat (<[S (S i) := w]> (<[S i := le_enc 2 (zlen w)]> (<[i := le_enc 2 id]> segs))), off + (4 + zlen w)).
Proof using Type.
  intros H1 H2 H3 Ho Ha Hb Hv. unfold putPair. pose proof (lookup_lt_Some _ _ _ H1). pose proof (lookup_lt_Some _ _ _ H2). pose proof (lookup_lt_Some _ _ _ H3).
  rewrite (put_seg segs i a) by done. run_bind. change (le_enc (Z.to_nat 2) id) with (le_enc 2 id).
  assert (zlen (concat (take (S i) (<[i := le_enc 2 id]> segs))) = off + 2) as Ho2.
  { rewrite take_S_r with (x := le_enc 2 id) by (by apply list_lookup_insert_eq). rewrite take_insert_ge by lia. rewrite concat_app, zlen_app. cbn [concat]. rewrite app_nil_r, zlen_le_enc. lia. }
  rewrite (put_seg _ (S i) b) by (done || (rewrite list_lookup_insert_ne by lia; done)). run_bind. change (le_enc (Z.to_nat 2) (zlen w)) with (le_enc 2 (zlen w)).
  rewrite (splice_seg _ (S (S i)) v); [done| |  |done].
  - rewrite !list_lookup_insert_ne by lia. done.
  - rewrite take_S_r with (x := le_enc 2 (zlen w)) by (apply list_lookup_insert_eq; rewrite length_insert; lia). rewrite take_insert_ge by lia. rewrite concat_app, zlen_app, Ho2. cbn [concat]. rewrite app_nil_r, zlen_le_enc. lia.
Qed.
Definition pairSegs (id : Z) (w : list Z) : list (list Z) := [le_enc 2 id; le_enc 2 (zlen w); w].
Definition infoSegs (name low dom : list Z) (now : Z) : list (list Z) :=
  pairSegs MsvAvNbComputerName name ++ pairSegs MsvAvNbDomainName name ++ pairSegs MsvAvDnsComputerName low ++ pairSegs MsvAvDnsDomainName dom ++
  pairSegs MsvAvTimestamp (le_enc 8 now) ++ [zeros 4].
Definition blankInfo (name low dom : list Z) : list (list Z) :=
  let blank n := [zeros 2; zeros 2; zeros n] in
  blank (length name) ++ blank (length name) ++ blank (length low) ++ blank (length dom) ++ blank 8%nat ++ [zeros 4].
Ltac seg_size := cbn [take firstn concat insert list_insert]; rewrite ?app_nil_r, ?zlen_app, ?zlen_le_enc; unfold zeros; rewrite ?zlen_replicate; unfold zlen in *; simpl length in *; lia.
Lemma targetInfo_written (a1 a2 a3 a4 a5 a6 a7 a8 i1 i2 i3 ver tn rest name low dom : list Z) now off :
  zlen (concat [a1; a2; a3; a4; a5; a6; a7; a8]) = 40 -> zlen i1 = 2 -> zlen i2 = 2 -> zlen i3 = 4 -> off = 48 + zlen ver + zlen tn ->
  let il := zlen (concat (infoSegs name low dom now)) in
  targetInfoOf (concat ([a1; a2; a3; a4; a5; a6; a7; a8; i1; i2; i3; ver; tn] ++ blankInfo name low dom ++ [rest])) off name low dom now =
  Ok (concat ([a1; a2; a3; a4; a5; a6; a7; a8; le_enc 2 il; le_enc 2 il; le_enc 4 off; ver; tn] ++ infoSegs name low dom now ++ [rest])).
Proof using Type.
  intros H H1 H2 H3 -> il. simpl concat in H. rewrite ?app_nil_r, !zlen_app in H. unfold targetInfoOf, blankInfo, infoSegs, pairSegs in *. cbn [app] in *.
  rewrite (putPair_seg _ 13 (zeros 2) (zeros 2) (zeros (length name))) by (done || seg_size). run_bind. cbn [insert list_insert].
  rewrite (putPair_seg _ 16 (zeros 2) (zeros 2) (zeros (length name))) by (done || seg_size). run_bind. cbn [insert list_insert].
  rewrite (putPair_seg _ 19 (zeros 2) (zeros 2) (zeros (length low))) by (done || seg_size). run_bind. cbn [insert list_insert].
  rewrite (putPair_seg _ 22 (zeros 2) (zeros 2) (zeros (length dom))) by (done || seg_size). run_bind. cbn [insert list_insert].
  rewrite (putPair_seg _ 25 (zeros 2) (zeros 2) (zeros 8)) by (done || seg_size). run_bind. cbn [insert list_insert].
  rewrite (splice_seg _ 28 (zeros 4)) by (done || seg_size). run_bind. cbn [insert list_insert]. cbv zeta.
  match goal with |- context [put_le _ 40 2 ?l] => assert (l = il) as -> by (unfold il; cbn [concat]; rewrite ?app_nil_r, ?zlen_app, ?zlen_le_enc; change (zlen (zeros 4)) with 4; change (zlen (le_enc 8 now)) with 8; lia) end.
  rewrite (put_seg _ 8 i1) by (done || seg_size). run_bind. cbn [insert list_insert].
  rewrite (put_seg _ 9 i2) by (done || seg_size). run_bind. cbn [insert list_insert].
  rewrite (put_seg _ 10 i3) by (done || seg_size). done.
Qed.
(** What the server sends, piece by piece. *)
Definition flagsFor (nmsg : list Z) : Z := ((le_dec (sub nmsg 12 16) .& defaultFlags) .| NTLMSSP_NEGOTIATE_TARGET_INFO) .| NTLMSSP_TARGET_TYPE_SERVER.
Definition challengeSegs (flags : Z) (name low dom : list Z) (now : Z) (nonce : list Z) : list (list Z) :=
  let ver := if has flags NTLMSSP_NEGOTIATE_VERSION then version else [] in
  let named := (0 <? zlen name) && has flags NTLMSSP_REQUEST_TARGET in
  let tn := if named then name else [] in
  let il := zlen (concat (infoSegs name low dom now)) in
  [signature; le_enc 4 NtLmChallenge] ++
  (if named then [le_enc 2 (zlen name); le_enc 2 (zlen name); le_enc 4 (48 + zlen ver)] else [zeros 2; zeros 2; zeros 4]) ++
  [le_enc 4 flags; nonce; zeros 8; le_enc 2 il; le_enc 2 il; le_enc 4 (48 + zlen ver + zlen tn); ver; tn] ++
  infoSegs name low dom now ++ [if named then [] else zeros (length name)].
Lemma concat_zeros (ns : list nat) : concat (map zeros ns) = zeros (sum_list ns).
Proof using Type. induction ns as [|n ns IH]; [done|]. cbn [map concat sum_list]. rewrite IH. unfold zeros. by rewrite replicate_add. Qed.
Lemma flags_target nm : has (flagsFor nm) NTLMSSP_NEGOTIATE_TARGET_INFO = true.
Proof using Type.
  unfold flagsFor. apply has_spec. intros H. apply (f_equal (fun z => Z.testbit z 23)) in H. rewrite Z.land_spec, !Z.lor_spec in H.
  change (Z.testbit NTLMSSP_NEGOTIATE_TARGET_INFO 23) with true in H. rewrite Z.bits_0, orb_true_r in H. done.
Qed.
Lemma challengeMessage_is (s : server) (nm : list Z) (now : Z) (nonce : list Z) : bytes nm -> zlen nonce = 8 ->
  (exists e, challengeMessage lib s nm now nonce = Err e) \/
  challengeMessage lib s nm now nonce = Ok (concat (challengeSegs (flagsFor nm) (EncodeStringToBytes (targetName s))
    (EncodeStringToBytes (toLower lib (targetName s))) (EncodeStringToBytes (targetDomain s)) now nonce)).
Proof using Type.
  intros Hb Hno. unfold challengeMessage. destruct (Z.ltb_spec (zlen nm) 32); [left; by eexists|]. rewrite slice_Ok by lia. run_bind. destruct (negb _); [left; by eexists|].
  rewrite (get_le_Ok nm 8 4) by lia. run_bind. destruct (negb (_ =? _)); [left; by eexists|]. rewrite (get_le_Ok nm 12 4) by lia. run_bind. right. cbv zeta.
  change (12 + 4) with 16. fold (flagsFor nm). rewrite flags_target. set (name := EncodeStringToBytes (targetName s)). set (low := EncodeStringToBytes (toLower lib _)). set (dom := EncodeStringToBytes (targetDomain s)).
  set (flags := flagsFor nm). unfold challengeSegs. set (ver := if has flags NTLMSSP_NEGOTIATE_VERSION then version else []).
  assert ((if has flags NTLMSSP_NEGOTIATE_VERSION then 48 + 8 else 48) = 48 + zlen ver) as -> by (unfold ver; by destruct (has flags _)).
  set (named := (0 <? zlen name) && has flags NTLMSSP_REQUEST_TARGET). set (tn := if named then name else []). set (rest := if named then [] else zeros (length name)).
  assert (zeros (Z.to_nat (48 + zlen ver + (zlen name + (zlen name + 4) + (zlen name + 4) + (zlen low + 4) + (zlen dom + 4) + (8 + 4) + 4))) =
    concat ([zeros 8; zeros 4; zeros 2; zeros 2; zeros 4; zeros 4; zeros 8; zeros 8; zeros 2; zeros 2; zeros 4; zeros (length ver); zeros (length tn)] ++ blankInfo name low dom ++ [rest])) as ->.
  { assert (rest = zeros (length name - length tn)) as -> by (unfold rest, tn; destruct named; [by rewrite Nat.sub_diag|by rewrite Nat.sub_0_r]).
    pose proof (concat_zeros ([8; 4; 2; 2; 4; 4; 8; 8; 2; 2; 4; length ver; length tn] ++ [2; 2; length name; 2; 2; length name; 2; 2; length low; 2; 2; length dom; 2; 2; 8; 4] ++ [length name - length tn])%nat) as Hc.
    unfold blankInfo. cbn [app map] in *. rewrite Hc. f_equal. cbn [sum_list_with]; unfold id. assert (length tn <= length name)%nat by (unfold tn; destruct named; simpl; lia). unfold zlen. lia. }
  unfold blankInfo. cbn [app]. rewrite (splice_seg _ 0 (zeros 8)) by done. run_bind. cbn [insert list_insert].
  rewrite (put_seg _ 1 (zeros 4)) by done. run_bind. cbn [insert list_insert]. rewrite (put_seg _ 5 (zeros 4)) by done. run_bind. cbn [insert list_insert].
  fold named.
  set (tf := if named then [le_enc 2 (zlen name); le_enc 2 (zlen name); le_enc 4 (48 + zlen ver)] else [zeros 2; zeros 2; zeros 4]).
  match goal with |- (?X ≫= _) = _ => assert (X = Ok (concat ([signature; le_enc 4 NtLmChallenge] ++ tf ++ [le_enc 4 flags; zeros 8; zeros 8; zeros 2; zeros 2; zeros 4; zeros (length ver); tn] ++
    blankInfo name low dom ++ [rest]), 48 + zlen ver + zlen tn)) as -> end.
  { unfold tf, tn, rest, blankInfo. destruct named; [|rewrite Z.add_0_r; done]. cbn [app].
    rewrite (splice_seg _ 12 (zeros (length name))) by (done || seg_size). run_bind. cbn [insert list_insert].
    rewrite (put_seg _ 2 (zeros 2)) by done. run_bind. cbn [insert list_insert]. rewrite (put_seg _ 3 (zeros 2)) by done. run_bind. cbn [insert list_insert].
    rewrite (put_seg _ 4 (zeros 4)) by done. run_bind. done. }
  assert (exists t1 t2 t3, tf = [t1; t2; t3] /\ zlen t1 = 2 /\ zlen t2 = 2 /\ zlen t3 = 4) as (t1 & t2 & t3 & Etf & T1 & T2 & T3) by (unfold tf; destruct named; by eexists _, _, _).
  rewrite Etf. run_bind. cbn [app]. clearbody rest.
  pose proof (targetInfo_written signature (le_enc 4 NtLmChallenge) t1 t2 t3 (le_enc 4 flags) (zeros 8) (zeros 8) (zeros 2) (zeros 2) (zeros 4) (zeros (length ver)) tn rest name low dom now (48 + zlen ver + zlen tn)) as Hti.
  cbn [app] in Hti. rewrite Hti; [|cbn [concat]; rewrite !zlen_app, T1, T2, T3; done|done|done|done|unfold zeros; rewrite zlen_replicate; unfold zlen; lia]. clear Hti. run_bind.
  rewrite (splice_seg _ 6 (zeros 8)); [|done|cbn [take firstn concat]; rewrite !zlen_app, T1, T2, T3; done|by rewrite Hno]. run_bind. cbn [insert list_insert].
  destruct (has flags NTLMSSP_NEGOTIATE_VERSION) eqn:Ev; [|unfold ver; done].
  rewrite (splice_seg _ 11 (zeros (length ver))); [done|done| |done]. cbn [take firstn concat]. rewrite !zlen_app, T1, T2, T3, Hno, !zlen_le_enc. done.
Qed.
Lemma sub_seg (segs : list (list Z)) k i j v : segs !! k = Some v -> zlen (concat (take k segs)) = i -> j = i + zlen v -> sub (concat segs) i j = v.
Proof using Type. intros H Hi Hj. rewrite (take_drop_seg _ k v H). by apply sub_mid. Qed.
Lemma get_seg (segs : list (list Z)) k n v i : segs !! k = Some (le_enc n v) -> zlen (concat (take k segs)) = i ->
  @get_le ntlmErr (concat segs) i (Z.of_nat n) = Ok (v mod 2 ^ (8 * Z.of_nat n)).
Proof using Type.
  intros H Hi. pose proof (zlen_nonneg (concat (take k segs))). pose proof (zlen_nonneg (concat (drop (S k) segs))).
  rewrite get_le_Ok; [|lia..|rewrite (take_drop_seg _ k _ H), !zlen_app, zlen_le_enc; lia].
  rewrite (sub_seg _ k _ _ _ H Hi) by (rewrite zlen_le_enc; lia). by rewrite le_dec_enc.
Qed.
Lemma avPairs_step fuel id w rest pairs : 0 <= id < 2 ^ 16 -> zlen w < 2 ^ 16 ->
  avPairs_loop (S fuel) (concat (pairSegs id w) ++ rest) pairs = avPairs_loop fuel rest (<[id := w]> pairs).
Proof using Type.
  intros Hi Hw. pose proof (zlen_nonneg w). pose proof (zlen_nonneg rest). unfold pairSegs. cbn [concat]. rewrite app_nil_r, <- !app_assoc. cbn [avPairs_loop].
  assert (zlen (le_enc 2 id ++ le_enc 2 (zlen w) ++ w ++ rest) = 4 + zlen w + zlen rest) as Hz by (rewrite !zlen_app, !zlen_le_enc; lia). rewrite Hz.
  destruct (Z.eqb_spec (4 + zlen w + zlen rest) 0); [lia|]. destruct (Z.ltb_spec (4 + zlen w + zlen rest) 4); [lia|].
  rewrite (get_le_at [] _ 2 id 0 eq_refl Hi : get_le (le_enc 2 id ++ _) 0 2 = _). run_bind.
  rewrite (get_le_at (le_enc 2 id) _ 2 (zlen w) 2) by (rewrite ?zlen_le_enc; (done || lia)). run_bind.
  destruct (Z.ltb_spec (4 + zlen w + zlen rest) (4 + zlen w)); [lia|]. rewrite (slice_Ok _ 4) by lia. run_bind. rewrite (slice_Ok _ (4 + zlen w)) by lia. run_bind.
  f_equal; [|f_equal].
  - replace (le_enc 2 id ++ le_enc 2 (zlen w) ++ w ++ rest) with ((le_enc 2 id ++ le_enc 2 (zlen w) ++ w) ++ rest ++ []) by (by rewrite app_nil_r, <- !app_assoc).
    apply sub_mid; rewrite ?zlen_app, ?zlen_le_enc; lia.
  - rewrite (app_assoc (le_enc 2 id)). apply sub_mid; rewrite ?zlen_app, ?zlen_le_enc; lia.
Qed.
Lemma infoSegs_parse name low dom now : zlen name < 2 ^ 16 -> zlen low < 2 ^ 16 -> zlen dom < 2 ^ 16 ->
  parseAvPairs (concat (infoSegs name low dom now)) =
  Ok (Some (<[MsvAvEOL := []]> (<[MsvAvTimestamp := le_enc 8 now]> (<[MsvAvDnsDomainName := dom]> (<[MsvAvDnsComputerName := low]>
    (<[MsvAvNbDomainName := name]> {[MsvAvNbComputerName := name]})))))).
Proof using Type.
  intros H1 H2 H3. unfold infoSegs. rewrite !concat_app. pose proof (zlen_nonneg name). pose proof (zlen_nonneg low). pose proof (zlen_nonneg dom).
  set (b := concat (pairSegs MsvAvNbComputerName name) ++ _). assert (zlen b = 32 + 2 * zlen name + zlen low + zlen dom) as Hz.
  { unfold b, pairSegs. cbn [concat]. rewrite ?app_nil_r, !zlen_app, !zlen_le_enc. change (zlen (zeros 4)) with 4. change (Z.of_nat 2) with 2. change (Z.of_nat 8) with 8. lia. }
  unfold parseAvPairs. destruct (Z.ltb_spec (zlen b) 4); [lia|]. rewrite slice_Ok by lia. run_bind.
  assert (sub b (zlen b - 4) (zlen b) = zeros 4) as ->.
  { unfold b in *. rewrite !app_assoc. cbn [concat]. rewrite app_nil_r. match goal with |- sub (?a ++ zeros 4) _ _ = _ => rewrite <- (app_nil_r (zeros 4)) at 3; apply (sub_mid a (zeros 4) []) end; rewrite ?zlen_app; change (zlen (zeros 4)) with 4; change (zlen []) with 0; lia. }
  change (negb (forallb (fun c => c =? 0) (zeros 4))) with false. cbv iota.
  assert (exists k, length b = (7 + k)%nat) as [k ->] by (exists (length b - 7)%nat; unfold zlen in *; lia). unfold b. cbn [Nat.add].
  rewrite !avPairs_step by (done || lia). change (concat [zeros 4]) with (concat (pairSegs 0 []) ++ []). rewrite avPairs_step by done. done.
Qed.
(** A challenge says what it is meant to say.  A negotiate message is refused or answered
    with a challenge that is kept for the check of the response, and that reads back, at the
    places of the protocol, as the server's nonce, the flags asked for as far as the server
    has them, and target information whose pairs are the names of the server and the time. *)
Theorem challenge_reads_back (s : server) (nm : list Z) (now : Z) (nonce : list Z) : bytes nm -> zlen nonce = 8 ->
  let name := EncodeStringToBytes (targetName s) in let low := EncodeStringToBytes (toLower lib (targetName s)) in let dom := EncodeStringToBytes (targetDomain s) in
  zlen name < 2 ^ 13 -> zlen low < 2 ^ 13 -> zlen dom < 2 ^ 13 ->
  (exists e, Challenge lib nm now nonce s = (set_nmsg nm s, Err e)) \/
  exists c, Challenge lib nm now nonce s = (set_cmsg c (set_nmsg nm s), Ok c) /\ 32 <= zlen c /\
    sub c 0 8 = signature /\ get_le c 8 4 = @Ok ntlmErr _ NtLmChallenge /\ get_le c 20 4 = @Ok ntlmErr _ (u32 (flagsFor nm)) /\ sub c 24 32 = nonce /\
    exists len off info, get_le c 40 2 = @Ok ntlmErr _ len /\ get_le c 44 4 = @Ok ntlmErr _ off /\ slice c off (off + len) = @Ok ntlmErr _ info /\
      parseAvPairs info = Ok (Some (<[MsvAvEOL := []]> (<[MsvAvTimestamp := le_enc 8 now]> (<[MsvAvDnsDomainName := dom]> (<[MsvAvDnsComputerName := low]>
        (<[MsvAvNbDomainName := name]> {[MsvAvNbComputerName := name]})))))).
Proof using Type.
  intros Hb Hno name low dom Hl1 Hl2 Hl3. unfold Challenge.
  destruct (challengeMessage_is (set_nmsg nm s) nm now nonce Hb Hno) as [[e ->]| ->]; [left; by exists e|right]. cbn [targetName targetDomain set_nmsg]. fold name low dom.
  eexists. split; [done|]. pose proof (infoSegs_parse name low dom now ltac:(lia) ltac:(lia) ltac:(lia)) as Hp. unfold challengeSegs. set (flags := flagsFor nm).
  set (ver := if has flags NTLMSSP_NEGOTIATE_VERSION then version else []). set (named := (0 <? zlen name) && has flags NTLMSSP_REQUEST_TARGET). set (tn := if named then name else []).
  set (tf := if named then _ else _). assert (exists t1 t2 t3, tf = [t1; t2; t3] /\ zlen t1 = 2 /\ zlen t2 = 2 /\ zlen t3 = 4) as (t1 & t2 & t3 & -> & T1 & T2 & T3) by (unfold tf; destruct named; by eexists _, _, _).
  set (info := concat (infoSegs name low dom now)). set (last_ := if named then [] else zeros (length name)).
  pose proof (zlen_nonneg name). pose proof (zlen_nonneg low). pose proof (zlen_nonneg dom).
  assert (0 <= zlen info < 2 ^ 16) as Hil.
  { unfold info, infoSegs, pairSegs. rewrite !concat_app. cbn [concat]. rewrite ?app_nil_r, !zlen_app, !zlen_le_enc. change (zlen (zeros 4)) with 4. change (Z.of_nat 2) with 2. change (Z.of_nat 8) with 8. lia. }
  assert (0 <= zlen tn <= zlen name /\ 0 <= zlen ver <= 8) as [Htn Hver].
  { split; [unfold tn; destruct named; [lia|]|unfold ver; destruct (has flags NTLMSSP_NEGOTIATE_VERSION)]; unfold zlen in *; simpl; lia. }
  cbn [app]. set (segs := signature :: _). assert (zlen (concat (take 13 segs)) = 48 + zlen ver + zlen tn) as H13.
  { unfold segs. cbn [take firstn concat]. rewrite take_0. cbn [concat]. rewrite !zlen_app, T1, T2, T3, Hno, !zlen_le_enc. change (zlen signature) with 8. change (zlen (zeros 8)) with 8. change (zlen (@nil Z)) with 0. lia. }
  assert (concat segs = concat (take 13 segs) ++ info ++ last_) as Hseg.
  { rewrite <- (take_drop 13 segs) at 1. rewrite concat_app. f_equal. change (drop 13 segs) with (infoSegs name low dom now ++ [last_]). rewrite concat_app. cbn [concat]. by rewrite app_nil_r. }
  pose proof (zlen_nonneg last_). split; [rewrite Hseg, !zlen_app, H13; lia|]. split; [by apply (sub_seg segs 0)|].
  split; [exact (get_seg segs 1 4 NtLmChallenge 8 eq_refl eq_refl)|]. split; [apply (get_seg segs 5 4 flags); [done|]; unfold segs; cbn [take firstn concat]; rewrite !zlen_app, T1, T2, T3; done|].
  split; [apply (sub_seg segs 6); [done| |lia]; unfold segs; cbn [take firstn concat]; rewrite !zlen_app, T1, T2, T3; done|].
  exists (zlen info), (48 + zlen ver + zlen tn), info. split_and!.
  - rewrite (get_seg segs 8 2 (zlen info)); [by rewrite Z.mod_small|done|]. unfold segs; cbn [take firstn concat]; rewrite !zlen_app, T1, T2, T3, Hno; done.
  - rewrite (get_seg segs 10 4 (48 + zlen ver + zlen tn)); [rewrite Z.mod_small; [done|simpl; lia]|done|]. unfold segs; cbn [take firstn concat]; rewrite !zlen_app, T1, T2, T3, Hno, !zlen_le_enc; done.
  - rewrite slice_Ok; [|lia|lia|rewrite Hseg, !zlen_app, H13; lia]. f_equal. rewrite Hseg. by apply sub_mid.
  - exact Hp.
Qed.

(** ** The two ends of a session

    What they share, while what one sent the other has read. *)
Record twin (a b : session) : Prop := Twin {
  tw_ends : isClientSide b = negb (isClientSide a); tw_flags : negotiateFlags b = negotiateFlags a;
  tw_keys : clientSigningKey b = clientSigningKey a /\ serverSigningKey b = serverSigningKey a;
  tw_handles : clientHandle b = clientHandle a /\ serverHandle b = serverHandle a;
}.
Lemma macOf_twin a b side n p t n' a' : twin a b -> macOf lib side a n p = (t, n', a') ->
  exists b', macOf lib side b n p = (t, n', b') /\ twin a' b' /\ isClientSide b' = isClientSide b /\ negotiateFlags b' = negotiateFlags b.
Proof using Type.
  intros [E1 E2 [E3 E4] [E5 E6]] H. unfold macOf in *. rewrite E2, E3, E4, E5, E6. destruct side; destruct (mac _ _ _ _ _ _) as [[t0 n0] h]; injection H as <- <- <-; (eexists; split; [done|]; split; [split; simpl; try done; by rewrite E5 || by rewrite E6|done]).
Qed.
Lemma length_mac flags h key n p : length (mac lib flags h key n p).1.1 = 16%nat.
Proof using lib_ok.
  unfold mac. destruct (negb _).
  - destruct (Rc4.XORKeyStream h (zeros 4)) as [z h1]. pose proof (Rc4.length_XORKeyStream h1 (le_enc 4 (ChecksumIEEE p))) as L1. destruct (Rc4.XORKeyStream h1 _) as [s1 h2]. pose proof (Rc4.length_XORKeyStream h2 (zeros 4)) as L2.
    destruct (Rc4.XORKeyStream h2 _) as [s2 h3]. cbn [fst] in *. rewrite !length_app, L1, length_xorOver, L2, !length_le_enc. done.
  - set (sum := take 8 _). assert (length sum = 8%nat) as Ls by (unfold sum; rewrite length_take, hmac_length; done). destruct (has flags NTLMSSP_NEGOTIATE_KEY_EXCH).
    + pose proof (Rc4.length_XORKeyStream h sum) as L. destruct (Rc4.XORKeyStream h sum) as [s1 h1]. cbn [fst] in *. rewrite !length_app, L, Ls, !length_le_enc. done.
    + cbn [fst]. rewrite !length_app, Ls, !length_le_enc. done.
Qed.
Lemma length_macOf side a n p : length (macOf lib side a n p).1.1 = 16%nat.
Proof using lib_ok. unfold macOf. destruct side; [pose proof (length_mac (negotiateFlags a) (clientHandle a) (clientSigningKey a) n p)|pose proof (length_mac (negotiateFlags a) (serverHandle a) (serverSigningKey a) n p)]; destruct (mac _ _ _ _ _ _) as [[t0 n0] h]; done. Qed.
(** What one end signs the other accepts.  As long as the ends of a session are in step, the
    sum of a message checks at the other end and a message sealed without encryption opens
    there, both ends count on alike, and they are in step again: in either direction, under
    either kind of session security. *)
Theorem signed_messages_accepted (a b : session) (p : list Z) (n : Z) : twin a b ->
  has (negotiateFlags a) NTLMSSP_NEGOTIATE_SIGN = true ->
  (forall t n' a', Sum lib a p n = (t, n', a') -> exists b', CheckSum lib b t p n = (true, n', b') /\ twin a' b') /\
  (has (negotiateFlags a) NTLMSSP_NEGOTIATE_SEAL = false -> forall m n' a', Seal lib a p n = (m, n', a') ->
     exists b', Unseal lib b m n = (b', Ok (p, n')) /\ twin a' b').
Proof using lib_ok.
  intros H Hs. pose proof H as [E1 E2 _ _]. unfold Sum, CheckSum, Seal, Unseal. rewrite E1, E2, Hs. cbn [negb]. rewrite negb_involutive. split.
  - intros t n' a' E. destruct (macOf_twin a b _ _ _ _ _ _ H E) as (b' & -> & Ht & _). unfold sameBytes. rewrite bool_decide_true by done. by exists b'.
  - intros Hse m n' a' E. rewrite Hse in *. pose proof (length_macOf (isClientSide a) a n p) as L. destruct (macOf lib (isClientSide a) a n p) as [[t n1] a1] eqn:Em. cbn [fst] in L. injection E as <- <- <-.
    pose proof (zlen_nonneg p). rewrite slice_Ok by (rewrite ?zlen_app; unfold zlen in *; lia).
    assert (sub (t ++ p) 16 (zlen (t ++ p)) = p) as ->. { rewrite <- (app_nil_r p) at 1. apply sub_mid; rewrite ?zlen_app; unfold zlen; lia. }
    rewrite take_app_length' by lia. destruct (macOf_twin a b _ _ _ _ _ _ H Em) as (b' & -> & Ht & _). unfold sameBytes. rewrite bool_decide_true by done. by exists b'.
Qed.
(** A message sealed by a session with neither protection is nought from end to end. *)
Theorem unprotected_seal_is_empty (a : session) (p : list Z) (n : Z) :
  has (negotiateFlags a) NTLMSSP_NEGOTIATE_SEAL = false -> has (negotiateFlags a) NTLMSSP_NEGOTIATE_SIGN = false ->
  Seal lib a p n = (zeros (16 + length p), n, a).
Proof using Type. intros H1 H2. unfold Seal. by rewrite H1, H2. Qed.
End checks.

(** ** An exchange that runs

    A library that is no cryptography, one account and its client. *)
Definition toySum (k m : list Z) : list Z := let t := foldl (fun a b => (31 * a + b) mod 65521) 7 (k ++ m) in map (fun i => u8 (t + 13 * Z.of_nat i)) (seq 0 16).
Definition toyGroup : list Z := replicate 16 5.
Definition toyLib : library :=
  Library toySum (toySum []) (toySum [4]) id id (fun _ => None) id
    (fun u _ => if sameBytes u (bytesOf "ann") then Some (Account (replicate 16 9)) else None) (fun n => if sameBytes n (bytesOf "wg") then Some (1, toyGroup) else None).
#[export] Instance toyLib_ok : LibraryOk toyLib.
Proof. split; intros; unfold toyLib, toySum; simpl; by rewrite ?length_map, ?length_seq. Qed.
Definition toyNegotiate : list Z := signature ++ le_enc 4 NtLmNegotiate ++ le_enc 4 defaultFlags ++ zeros 16.
Definition toyServer : server := (Challenge toyLib toyNegotiate 77 (replicate 8 3) (NewServer (bytesOf "SERVER") [] false)).1.
(** The target information asks for the integrity check. *)
Definition toyInfo : list Z := concat (pairSegs MsvAvFlags (le_enc 4 2)) ++ zeros 4.
Definition toyClient : client := Client (bytesOf "ann") (bytesOf "wg") (replicate 16 9) toyInfo (le_enc 8 77) (replicate 8 6) defaultFlags (replicate 16 1).
Definition toyAnswer : list Z := answer toyLib toyClient (nmsg toyServer) (cmsg toyServer).
Lemma toyClient_wellMade : wellMade toyLib toyClient.
Proof. split; [split_and!..| |]; try done; apply (bool_decide_eq_true_1 _); by vm_compute. Qed.
Lemma bytes_dec l : forallb (fun b => (0 <=? b) && (b <? 256)) l = true -> bytes l.
Proof. intros H. apply Forall_forall. intros x Hx%list_elem_of_In. rewrite forallb_forall in H. specialize (H x Hx). unfold is_u8. lia. Qed.

Lemma the_hash_is_let_in_witness : exists am' ss, Authenticate toyLib toyAnswer toyServer = (am', Ok (set_session ss am' toyServer)) /\ user ss = bytesOf "ann" /\ exportedSessionKey ss = replicate 16 1.
Proof.
  destruct (the_hash_is_let_in toyLib toyClient toyServer (Account (replicate 16 9)) toyGroup) as (am' & ss & H1 & H2 & _ & _ & _ & H3 & _);
    [exact toyClient_wellMade|by vm_compute|done|by vm_compute|by vm_compute|done|]. exists am', ss. split; [exact H1|]. split; [exact H2|exact H3].
Defined.
(** The message a client was let in with is not the message it sent: the sixteen bytes of its
    check are blanked in the request itself, where the session setup of a client that does not
    wrap its tokens goes on to hash it. *)
Theorem accepted_message_is_changed : exists am' s', Authenticate toyLib toyAnswer toyServer = (am', Ok s') /\ am' <> toyAnswer.
Proof. eexists _, _. split; [vm_compute; reflexivity|]. vm_compute. discriminate. Qed.
Lemma only_the_hash_opens_witness : exists am' s' ss, s' = set_session ss am' toyServer /\ length (exportedSessionKey ss) = 16%nat /\ admitted toyLib toyServer toyAnswer am' ss.
Proof.
  destruct (Authenticate toyLib toyAnswer toyServer) as [am' r] eqn:E. destruct r as [s'| | |]; [|vm_compute in E; discriminate E..]. exists am', s'.
  apply (only_the_hash_opens toyLib toyServer toyAnswer am' s'); [apply bytes_dec; by vm_compute|by vm_compute|exact E].
Defined.
Lemma authentication_returns_witness : settled (Authenticate toyLib (zeros 70) toyServer).2.
Proof. apply (authentication_returns toyLib toyServer (zeros 70)); [apply bytes_dec; by vm_compute|by vm_compute]. Defined.
Lemma challenge_reads_back_witness :
  let s := NewServer (bytesOf "SERVER") [] false in
  exists c, Challenge toyLib toyNegotiate 77 (replicate 8 3) s = (set_cmsg c (set_nmsg toyNegotiate s), Ok c) /\ sub c 24 32 = replicate 8 3.
Proof.
  destruct (challenge_reads_back toyLib (NewServer (bytesOf "SERVER") [] false) toyNegotiate 77 (replicate 8 3)) as [[e H]|(c & H & _ & _ & _ & _ & Hn & _)];
    [apply bytes_dec; by vm_compute|done|by vm_compute|by vm_compute|by vm_compute|vm_compute in H; discriminate H|]. exists c. split; [exact H|exact Hn].
Defined.
(** A client's end and a server's, of one key. *)
Definition toyEnd (client : bool) (flags : Z) : session :=
  match newSession toyLib [] [] false false flags (replicate 16 1) with
  | Ok ss => Session client [] [] false false flags (replicate 16 1) (clientSigningKey ss) (serverSigningKey ss) (clientHandle ss) (serverHandle ss)
  | _ => Session client [] [] false false flags [] [] [] (Rc4.Cipher [] 0 0) (Rc4.Cipher [] 0 0)
  end.
Lemma toyEnds_twin flags : twin (toyEnd true flags) (toyEnd false flags).
Proof. unfold toyEnd. by destruct (newSession toyLib _ _ _ _ _ _). Qed.
Lemma signed_messages_accepted_witness : forall t n' a', Sum toyLib (toyEnd true defaultFlags) [1; 2; 3] 5 = (t, n', a') ->
  exists b', CheckSum toyLib (toyEnd false defaultFlags) t [1; 2; 3] 5 = (true, n', b') /\ twin a' b'.
Proof.
  destruct (signed_messages_accepted toyLib (toyEnd true defaultFlags) (toyEnd false defaultFlags) [1; 2; 3] 5 (toyEnds_twin _)) as [H _]; [by vm_compute|exact H].
Defined.
(** What a client seals the server cannot open: the server decrypts with the stream of its own
    direction. *)
Theorem sealed_is_not_opened :
  let flags := defaultFlags .| NTLMSSP_NEGOTIATE_SEAL in
  (Unseal toyLib (toyEnd false flags) (Seal toyLib (toyEnd true flags) [1; 2; 3] 0).1.1 0).2 = Err signatureMismatch.
Proof. by vm_compute. Qed.
End Ntlm.
