(* ===== verification/Shares.v ===== *)
(** The shares of the server and who may use them: [share.go], and what a tree connect
    is weighed by in [tree.go].

    A share is an object with an identity, known by its name in the list of the server;
    each operation is one hold of the mutex of the list or of the share where the code has
    one.  The store of shares and accounts, and the clients of the storage backends, are
    arguments: a client is known by identity, and what the code asks of the store is the
    answer it gets. *)
From S2P Require Import Prelude Smb2Const Sharing.

Module Shares.
Abbreviation shareId := nat.
Abbreviation clientId := nat.

Definition maxShareUses : Z := 256.
Definition AnonymousAccount : string := "anonymous".
Definition AnonymousWorkgroup : string := "00000000-0000-0000-0000-000000000000".
Definition anonymousAccess : Z := FlagsFromAccessRights (mkAccessRights true true true true).

Inductive shareErr := errShareUnavailable | errShareExists | errShareNotFound | errUnsupported | errStore | errShareInUse | errAccessDenied | errTooManyUses | errNoShare | errNoTreeConnect | errNoSlabScan | errNoWorkgroup.
#[export] Instance shareErr_eq_dec : EqDecision shareErr.
Proof. solve_decision. Defined.
Abbreviation out := (outcome shareErr).

Record share := Share {
  name : string; connectSecurity : gset string; fileSecurity : gmap string Z; shareType : Z; remark : string; currentUses : Z;
  encryptData : bool; compressData : bool; allowGuest : bool; allowAnonymous : bool; publicDir : string;
  client : option clientId; serverName : string; bucket : string; indexdConns : gmap string clientId; backend : string;
}.
Definition set_security (c : gset string) (f : gmap string Z) (sh : share) : share :=
  Share (name sh) c f (shareType sh) (remark sh) (currentUses sh) (encryptData sh) (compressData sh) (allowGuest sh) (allowAnonymous sh) (publicDir sh)
    (client sh) (serverName sh) (bucket sh) (indexdConns sh) (backend sh).
Definition set_uses (n : Z) (sh : share) : share :=
  Share (name sh) (connectSecurity sh) (fileSecurity sh) (shareType sh) (remark sh) n (encryptData sh) (compressData sh) (allowGuest sh) (allowAnonymous sh) (publicDir sh)
    (client sh) (serverName sh) (bucket sh) (indexdConns sh) (backend sh).
Definition set_indexd (m : gmap string clientId) (sh : share) : share :=
  Share (name sh) (connectSecurity sh) (fileSecurity sh) (shareType sh) (remark sh) (currentUses sh) (encryptData sh) (compressData sh) (allowGuest sh) (allowAnonymous sh) (publicDir sh)
    (client sh) (serverName sh) (bucket sh) m (backend sh).
Definition set_offer (r : string) (guest anon : bool) (dir : string) (sh : share) : share :=
  Share (name sh) (connectSecurity sh) (fileSecurity sh) (shareType sh) r (currentUses sh) (encryptData sh) (compressData sh) guest anon dir
    (client sh) (serverName sh) (bucket sh) (indexdConns sh) (backend sh).
Definition set_client (c : option clientId) (server bkt : string) (sh : share) : share :=
  Share (name sh) (connectSecurity sh) (fileSecurity sh) (shareType sh) (remark sh) (currentUses sh) (encryptData sh) (compressData sh) (allowGuest sh) (allowAnonymous sh) (publicDir sh)
    c server bkt (indexdConns sh) (backend sh).

(** A share of the store, and the rights of an account on one. *)
Record stored := Stored {
  st_Name : string; st_Type : string; st_ServerName : string; st_Bucket : string; st_Remark : string; st_AllowGuest : bool; st_AllowAnonymous : bool; st_PublicDir : string;
}.
Record rights := Rights { ar_AccountID : Z; ar_access : AccessRights }.
Record account := Account { acc_Workgroup : string; acc_Username : string }.
Inductive lookup := Found (acc : account) | NotFound | Failed.
Definition anyAccess (ar : AccessRights) : bool := ReadAccess ar || WriteAccess ar || DeleteAccess ar || ExecuteAccess ar.

(** ** The security tables *)
Definition key (workgroup user : string) : string := (workgroup +:+ "/" +:+ user)%string.
Definition mayConnect (workgroup user : string) (sh : share) : bool := bool_decide (key workgroup user ∈ connectSecurity sh).
Definition fileAccess (workgroup user : string) (sh : share) : option Z := fileSecurity sh !! key workgroup user.
Definition grant (acc : account) (ar : AccessRights) (sh : share) : share :=
  let k := key (acc_Workgroup acc) (acc_Username acc) in
  set_security ({[ k ]} ∪ connectSecurity sh) (<[k := FlagsFromAccessRights ar]> (fileSecurity sh)) sh.
Definition revoke (acc : account) (sh : share) : share :=
  let k := key (acc_Workgroup acc) (acc_Username acc) in set_security (connectSecurity sh ∖ {[ k ]}) (delete k (fileSecurity sh)) sh.

Section store.
Context (GetAccountByID : Z -> lookup).
(** Settings of the server. *)
Context (encrypts compresses : bool).
(** The accounts are looked up first, each once, and the tables filled after. *)
Fixpoint accountsOf (ars : list rights) (accs : gmap Z account) : out (gmap Z account) :=
  match ars with
  | [] => mret accs
  | ar :: ars =>
      match accs !! ar_AccountID ar with
      | Some _ => accountsOf ars accs
      | None =>
          match GetAccountByID (ar_AccountID ar) with
          | NotFound => accountsOf ars accs
          | Failed => Err errStore
          | Found acc => accountsOf ars (<[ar_AccountID ar := acc]> accs)
          end
      end
  end.
Definition loadAccessRights (ars : list rights) (sh : share) : out share :=
  accs ← accountsOf ars ∅;
  mret (foldl (fun sh ar => match accs !! ar_AccountID ar with Some acc => grant acc (ar_access ar) sh | None => sh end) sh ars).

(** ** The list of shares *)
Record shares := Shares { heap : gmap shareId share; shareList : gmap string shareId }.
Definition at_ (i : shareId) (f : share -> share) (w : shares) : shares := Shares (alter f i (heap w)) (shareList w).
Definition newShare (ss : stored) : share :=
  Share (st_Name ss) ∅ ∅ SHARE_TYPE_DISK (st_Remark ss) 0 encrypts compresses (st_AllowGuest ss) (st_AllowAnonymous ss) (st_PublicDir ss) None (st_ServerName ss) (st_Bucket ss) ∅ (st_Type ss).
(** A share as the store has it, with what its registration comes to: the client made for
    it, what the backend answers about itself and the rights the store has for it. *)
Record registration := Reg { r_stored : stored; r_client : clientId; r_info : option string; r_accounts : option (list rights) }.
(** The list is looked at under one hold of its mutex and written to under another. *)
Definition registerShare_make (r : registration) (w : shares) : out share :=
  let ss := r_stored r in
  match shareList w !! st_Name ss with
  | Some _ => Err errShareExists
  | None =>
      let sh := newShare ss in
      sh ← (if String.eqb (backend sh) "indexd" then mret sh
            else if String.eqb (backend sh) "renterd" then
              match r_info r with None => Err errShareUnavailable | Some b => mret (set_client (Some (r_client r)) (st_ServerName ss) b sh) end
            else Err errUnsupported);
      if String.eqb (backend sh) "renterd" then match r_accounts r with None => Err errStore | Some ars => loadAccessRights ars sh end else mret sh
  end.
Definition registerShare_put (sh : share) (w : shares) : shares :=
  let i := fresh (dom (heap w)) in Shares (<[i := sh]> (heap w)) (<[name sh := i]> (shareList w)).
Definition RegisterShare (r : registration) (w : shares) : out shares := sh ← registerShare_make r w; mret (registerShare_put sh w).
Definition UpdateShare (ss : stored) (cl : clientId) (w : shares) : shares :=
  match shareList w !! st_Name ss with
  | None => w
  | Some i =>
      at_ i (fun sh =>
        let sh := set_offer (st_Remark ss) (st_AllowGuest ss) (st_AllowAnonymous ss) (st_PublicDir ss) sh in
        match client sh with
        | Some _ => if String.eqb (backend sh) "renterd" && (negb (String.eqb (bucket sh) (st_Bucket ss)) || negb (String.eqb (serverName sh) (st_ServerName ss)))
                    then set_client (Some cl) (st_ServerName ss) (st_Bucket ss) sh else sh
        | None => sh
        end) w
  end.
(** The share is looked at under its mutex, and taken off the list once its clients are
    closed: [closes] is whether that went well, which matters to a renterd share only. *)
Definition removeShare_check (ss : stored) (w : shares) : out (option shareId) :=
  match shareList w !! st_Name ss with
  | None => mret None
  | Some i => match heap w !! i with Some sh => if currentUses sh >? 0 then Err errShareInUse else mret (Some i) | None => mret (Some i) end
  end.
Definition removeShare_drop (ss : stored) (w : shares) : shares := Shares (heap w) (delete (st_Name ss) (shareList w)).
Definition RemoveShare (ss : stored) (closes : bool) (w : shares) : out shares :=
  found ← removeShare_check ss w;
  match found with
  | None => mret w
  | Some i =>
      if (match heap w !! i with Some sh => String.eqb (backend sh) "renterd" && bool_decide (is_Some (client sh)) | None => false end) && negb closes then Err errStore
      else mret (removeShare_drop ss w)
  end.
Definition UpdateAccessRights (shareName : string) (ar : rights) (w : shares) : out shares :=
  match shareList w !! shareName with
  | None => mret w
  | Some i =>
      match GetAccountByID (ar_AccountID ar) with
      | NotFound => mret w
      | Failed => Err errStore
      | Found acc =>
          let connected := match heap w !! i with Some sh => negb (String.eqb (backend sh) "indexd") || bool_decide (is_Some (indexdConns sh !! acc_Workgroup acc)) | None => true end in
          if negb connected then mret w else mret (at_ i (if anyAccess (ar_access ar) then grant acc (ar_access ar) else revoke acc) w)
      end
  end.
Definition RemoveAccess (acc : account) (w : shares) : shares :=
  Shares (foldr (fun i h => alter (revoke acc) i h) (heap w) (map snd (map_to_list (shareList w)))) (shareList w).

(** ** Workgroups of an indexd share *)
Definition ensureShare (r : registration) (w : shares) : out (shares * shareId) :=
  match shareList w !! st_Name (r_stored r) with
  | Some i => mret (w, i)
  | None =>
      w ← RegisterShare r w;
      match shareList w !! st_Name (r_stored r) with Some i => mret (w, i) | None => Err errShareNotFound end
  end.
(** The accounts of the workgroup, each with what the store has of its rights: [None] is an
    error, and ends the walk where it is. *)
Fixpoint grantAll (accs : list (account * option rights)) (sh : share) : share * option shareErr :=
  match accs with
  | [] => (sh, None)
  | (acc, None) :: _ => (sh, Some errStore)
  | (acc, Some ar) :: accs => grantAll accs (if negb (ar_AccountID ar =? 0) && anyAccess (ar_access ar) then grant acc (ar_access ar) sh else sh)
  end.
(** What starting a client for a workgroup comes to: the client or the error it ends in, and
    the accounts of the workgroup. *)
Record start := Start { s_made : clientId + shareErr; s_accounts : option (list (account * option rights)) }.
(** The client made is kept unless another was put there meanwhile. *)
Definition joinWorkgroup (wg : string) (st : start) (sh : share) : share * option shareErr :=
  let running := bool_decide (is_Some (indexdConns sh !! wg)) in
  let grants sh := match s_accounts st with None => (sh, Some errStore) | Some accs => grantAll accs sh end in
  if String.eqb (backend sh) "indexd" && negb running then
    match s_made st with
    | inl c => grants (set_indexd (<[wg := c]> (indexdConns sh)) sh)
    | inr e => (sh, Some e)
    end
  else grants sh.
Definition joinAt (wg : string) (st : start) (i : shareId) (w : shares) : shares * option shareErr :=
  match heap w !! i with
  | None => (w, None)
  | Some sh => let '(sh, e) := joinWorkgroup wg st sh in (at_ i (fun _ => sh) w, e)
  end.
Definition AddConnection (wg : string) (r : registration) (st : start) (w : shares) : shares * option shareErr :=
  match ensureShare r w with
  | Ok (w, i) => joinAt wg st i w
  | Err e => (w, Some e)
  | _ => (w, None)
  end.
Definition runs (wg : string) (i : shareId) (w : shares) : bool :=
  match heap w !! i with Some sh => bool_decide (is_Some (indexdConns sh !! wg)) | None => false end.
(** The connections the store holds for a share: [None] is a workgroup that is gone. *)
Fixpoint startAll (r : registration) (i : shareId) (l : list (string * option start)) (w : shares) (failed : gmap string shareErr) : shares * gmap string shareErr :=
  match l with
  | [] => (w, failed)
  | (wg, st) :: l =>
      if runs wg i w then startAll r i l w failed
      else match st with
           | None => startAll r i l w (<[wg := errNoWorkgroup]> failed)
           | Some st => let '(w, e) := AddConnection wg r st w in
                        startAll r i l w (match e with Some e => <[wg := e]> failed | None => failed end)
           end
  end.
Definition startShareConnections (r : registration) (l : option (list (string * option start))) (w : shares) : shares * out (shareId * gmap string shareErr) :=
  match ensureShare r w with
  | Ok (w, i) =>
      if negb (match heap w !! i with Some sh => String.eqb (backend sh) "indexd" | None => false end) then (w, Err errNoSlabScan)
      else match l with
           | None => (w, Err errStore)
           | Some l => let '(w, failed) := startAll r i l w ∅ in (w, Ok (i, failed))
           end
  | Err e => (w, Err e)
  | Panic => (w, Panic)
  | Stuck => (w, Stuck)
  end.
(** The clients of the share, and the workgroups that have none. *)
Definition ShareConnections (r : registration) (l : option (list (string * option start))) (w : shares) : shares * out (gmap string clientId * gmap string shareErr) :=
  let '(w, res) := startShareConnections r l w in
  (w, '(i, failed) ← res; let conns := match heap w !! i with Some sh => indexdConns sh | None => ∅ end in
      mret (conns, filter (fun f => ~ is_Some (conns !! f.1)) failed)).
(** Whether a client of the workgroup can be started for the share: the name of the workgroup
    is parsed, the workgroup looked up, and its key for the share asked for. *)
Inductive restorable := Unparsed | WorkgroupErr | WorkgroupGone | ConnectedErr | NotConnected | Connected (st : start).
Definition ShareClient (r : registration) (wg : string) (a : restorable) (w : shares) : shares * out (option clientId) :=
  match ensureShare r w with
  | Ok (w, i) =>
      match heap w !! i with
      | None => (w, Err errShareNotFound)
      | Some sh =>
          if negb (String.eqb (backend sh) "indexd") then (w, Ok (client sh))
          else match indexdConns sh !! wg with
               | Some c => (w, Ok (Some c))
               | None =>
                   match a with
                   | Unparsed | WorkgroupGone | NotConnected => (w, Err errShareUnavailable)
                   | WorkgroupErr | ConnectedErr => (w, Err errStore)
                   | Connected st =>
                       let '(w, e) := AddConnection wg r st w in
                       (w, match e with
                           | Some e => Err e
                           | None => match heap w !! i with
                                     | Some sh => match indexdConns sh !! wg with Some c => Ok (Some c) | None => Err errShareUnavailable end
                                     | None => Err errShareUnavailable
                                     end
                           end)
                   end
               end
      end
  | Err e => (w, Err e)
  | Panic => (w, Panic)
  | Stuck => (w, Stuck)
  end.
(** One pass of bringing the connections of the store up.  A failure is said once, and then
    again only after it was over: [reported] has those that were said, a share that could not
    be reached at all under no workgroup. *)
Record pass := Pass { p_shares : shares; p_done : bool; p_reported : gset (string * string); p_said : list (string * string) }.
Definition report (k : string * string) (p : pass) : pass :=
  if bool_decide (k ∈ p_reported p) then Pass (p_shares p) false (p_reported p) (p_said p)
  else Pass (p_shares p) false ({[ k ]} ∪ p_reported p) (p_said p ++ [k]).
Definition restoreShare (r : registration) (l : option (list (string * option start))) (p : pass) : pass :=
  let nm := st_Name (r_stored r) in
  if negb (String.eqb (st_Type (r_stored r)) "indexd") then p
  else
    let '(w, res) := startShareConnections r l (p_shares p) in
    let p := Pass w (p_done p) (p_reported p) (p_said p) in
    match res with
    | Ok (i, failed) =>
        let p := foldr (fun u p => report (nm, u) p) p (map fst (map_to_list failed)) in
        Pass (p_shares p) (p_done p) (filter (fun k => ~ (k.1 = nm /\ ~ is_Some (failed !! k.2))) (p_reported p)) (p_said p)
    | _ => report (nm, ""%string) p
    end.
Definition restoreConnectionsOnce (l : option (list (registration * option (list (string * option start))))) (reported : gset (string * string)) (w : shares) : pass :=
  match l with
  | None => Pass w false reported []
  | Some l => foldl (fun p e => restoreShare e.1 e.2 p) (Pass w true reported []) l
  end.
(** The files the workgroup never uploaded, which go too, are in [FileState]. *)
Definition RemoveConnection (wg shareName : string) (accs : option (list account)) (w : shares) : out shares :=
  match shareList w !! shareName with
  | None => mret w
  | Some i =>
      let w := at_ i (fun sh => if String.eqb (backend sh) "indexd" then set_indexd (delete wg (indexdConns sh)) sh else sh) w in
      match accs with
      | None => Err errStore
      | Some accs => mret (at_ i (fun sh => foldl (fun sh acc => revoke acc sh) sh accs) w)
      end
  end.
(** ** Tree connects, [tree.go] *)
Record identity := Identity { workgroup : string; userName : string; isAnonymous : bool; isGuest : bool }.
(** [toLower] is [strings.ToLower]. *)
Context (toLower : string -> string).
Fixpoint indexOf (c : Ascii.ascii) (s : string) : option nat :=
  match s with EmptyString => None | String a s => if Ascii.eqb a c then Some O else S <$> indexOf c s end.
Definition backslash : Ascii.ascii := Ascii.ascii_of_nat 92.
Definition extractShareName (path : string) : string :=
  match path with
  | String a (String b path) =>
      if Ascii.eqb a backslash && Ascii.eqb b backslash then
        match indexOf backslash path with
        | None => ""
        | Some pos => if Nat.eqb pos (String.length path - 1) then "" else toLower (String.substring (S pos) (String.length path - S pos) path)
        end
      else ""
  | _ => ""
  end.
Definition ipcAccess : Z := FILE_READ_DATA .| FILE_READ_EA .| FILE_EXECUTE .| FILE_READ_ATTRIBUTES .| DELETE .| READ_CONTROL .| WRITE_DAC .| WRITE_OWNER .| SYNCHRONIZE.
Definition ipcShare (id : identity) : share :=
  let k := key (workgroup id) (userName id) in
  Share "ipc$" {[ k ]} {[ k := ipcAccess ]} SHARE_TYPE_PIPE "IPC service" 0 false false false false "" None "" "" ∅ "".
(** A share that encrypts is not served in the clear to a client that could encrypt.  [is3x]
    and [canEncrypt] are of the connection. *)
Definition refusesClear (is3x canEncrypt : bool) (id : identity) (sh : share) : bool :=
  is3x && encryptData sh && negb (isAnonymous id) && negb (isGuest id) && negb canEncrypt.
(** A client of the workgroup that is not running is started, where the store knows how. *)
Definition restored (id : identity) (a : restorable) (sh : share) : share :=
  if String.eqb (backend sh) "indexd" && negb (bool_decide (is_Some (indexdConns sh !! workgroup id))) then
    match a with Connected st => fst (joinWorkgroup (workgroup id) st sh) | _ => sh end
  else sh.
(** What the session is allowed on the share: [ready] is whether the public folder could be
    made. *)
Definition admits (id : identity) (ready : bool) (sh : share) : out Z :=
  if isAnonymous id then
    if negb (allowAnonymous sh) || String.eqb (publicDir sh) "" then Err errAccessDenied
    else if String.eqb (backend sh) "indexd" then
      match indexdConns sh !! AnonymousWorkgroup with
      | None => Err errShareUnavailable
      | Some _ => if ready then mret anonymousAccess else Err errShareUnavailable
      end
    else mret anonymousAccess
  else if isGuest id && negb (allowGuest sh) then Err errAccessDenied
  else match fileAccess (workgroup id) (userName id) sh with Some access => mret access | None => Err errAccessDenied end.
Definition claimUse (sh : share) : out share := if currentUses sh >=? maxShareUses then Err errTooManyUses else mret (set_uses (currentUses sh + 1) sh).
Definition releaseUse (sh : share) : share := set_uses (currentUses sh - 1) sh.
Definition clientFor (id : identity) (sh : share) : option clientId :=
  if String.eqb (backend sh) "indexd" then indexdConns sh !! workgroup id else client sh.
(** The share is left as it is after, whatever becomes of the connect: a client started on
    the way stays. *)
Definition weigh (is3x canEncrypt : bool) (id : identity) (a : restorable) (ready : bool) (sh : share) : share * out (Z * option clientId) :=
  if refusesClear is3x canEncrypt id sh then (sh, Err errAccessDenied)
  else
    let sh := restored id a sh in
    match (access ← admits id ready sh; sh ← claimUse sh; mret (access, sh)) with
    | Ok (access, sh) =>
        let cl := clientFor id sh in
        if String.eqb (backend sh) "indexd" && negb (bool_decide (is_Some cl)) then (releaseUse sh, Err errShareUnavailable) else (sh, Ok (access, cl))
    | Err e => (sh, Err e)
    | Panic => (sh, Panic)
    | Stuck => (sh, Stuck)
    end.
(** [stored] is what the store has under the name, if the server does not know the share. *)
Definition newTreeConnect (is3x canEncrypt : bool) (id : identity) (path : string) (stored : option registration) (a : restorable) (ready : bool) (w : shares) :
  shares * out (shareId * Z * option clientId) :=
  let nm := extractShareName path in
  if String.eqb nm "" then (w, Err errNoShare)
  else if String.eqb nm "ipc$" then
    let i := fresh (dom (heap w)) in (Shares (<[i := ipcShare id]> (heap w)) (shareList w), Ok (i, ipcAccess, None))
  else
    let found : out (shares * shareId) :=
      match shareList w !! nm with
      | Some i => mret (w, i)
      | None =>
          match stored with
          | Some r => if String.eqb (st_Name (r_stored r)) nm
                      then w ← RegisterShare r w; match shareList w !! nm with Some i => mret (w, i) | None => Err errShareNotFound end
                      else Err errShareNotFound
          | None => Err errShareNotFound
          end
      end in
    match found with
    | Ok (w, i) =>
        match heap w !! i with
        | None => (w, Err errShareNotFound)
        | Some sh => let '(sh, r) := weigh is3x canEncrypt id a ready sh in (at_ i (fun _ => sh) w, '(access, cl) ← r; mret (i, access, cl))
        end
    | Err e => (w, Err e)
    | Panic => (w, Panic)
    | Stuck => (w, Stuck)
    end.
Definition treeStatus (e : shareErr) : Z :=
  match e with
  | errAccessDenied => STATUS_ACCESS_DENIED
  | errShareNotFound => STATUS_BAD_NETWORK_NAME
  | errTooManyUses => STATUS_REQUEST_NOT_ACCEPTED
  | errShareUnavailable => STATUS_SHARE_UNAVAILABLE
  | _ => STATUS_INVALID_PARAMETER
  end.
End store.
(** What the share allows on the files of a tree connect, [open.go]. *)
Definition shareRights (maximalAccess : Z) (id : identity) (sh : share) : option Z :=
  if isAnonymous id then (if maximalAccess =? 0 then None else Some maximalAccess)
  else if negb (mayConnect (workgroup id) (userName id) sh) then None
  else fileAccess (workgroup id) (userName id) sh.

(** ** Who gets onto a share *)
Definition entitled (id : identity) (ready : bool) (sh : share) (access : Z) : Prop :=
  if isAnonymous id then
    allowAnonymous sh = true /\ publicDir sh <> "" /\ access = anonymousAccess /\
    (backend sh = "indexd" -> is_Some (indexdConns sh !! AnonymousWorkgroup) /\ ready = true)
  else (isGuest id = true -> allowGuest sh = true) /\ fileAccess (workgroup id) (userName id) sh = Some access.
Lemma admits_spec id ready sh :
  (forall access, admits id ready sh = Ok access <-> entitled id ready sh access) /\
  ((exists access, admits id ready sh = Ok access) \/ admits id ready sh = Err errAccessDenied \/ admits id ready sh = Err errShareUnavailable).
Proof.
  unfold admits, entitled. destruct (isAnonymous id).
  - destruct (allowAnonymous sh); cbn [negb orb]; [|split; [naive_solver|by right; left]].
    destruct (String.eqb_spec (publicDir sh) ""); [split; [naive_solver|by right; left]|].
    destruct (String.eqb_spec (backend sh) "indexd").
    + destruct (indexdConns sh !! AnonymousWorkgroup) as [c|] eqn:Ei; [|split; [|by right; right]; intros a; split; [done|]; intros (_ & _ & _ & H); destruct (H e) as [[? ?] _]; done].
      destruct ready; [|split; [|by right; right]; intros a; split; [done|]; intros (_ & _ & _ & H); by destruct (H e)].
      split; [|left; by eexists]. intros a. split; [intros [= <-]; naive_solver|intros (_ & _ & -> & _); done].
    + split; [|left; by eexists]. intros a. split; [intros [= <-]; naive_solver|intros (_ & _ & -> & _); done].
  - assert (isGuest id && negb (allowGuest sh) = false <-> (isGuest id = true -> allowGuest sh = true)) as Hg by (destruct (isGuest id), (allowGuest sh); naive_solver).
    destruct (isGuest id && negb (allowGuest sh)); [split; [|by right; left]; intros a; split; [done|]; intros [H _]; by apply Hg in H|].
    destruct Hg as [Hg _]. specialize (Hg eq_refl).
    destruct (fileAccess _ _ sh) as [x|]; (split; [|first [left; by eexists|by right; left]]); intros a; split; [intros [= <-]; by split|intros (_ & E2); by injection E2 as ->|done|by intros (_ & E2)].
Qed.
Lemma joined_same wg st sh : let sh' := fst (joinWorkgroup wg st sh) in currentUses sh' = currentUses sh /\ backend sh' = backend sh /\ encryptData sh' = encryptData sh.
Proof.
  assert (forall accs sh, currentUses (fst (grantAll accs sh)) = currentUses sh /\ backend (fst (grantAll accs sh)) = backend sh /\ encryptData (fst (grantAll accs sh)) = encryptData sh) as H.
  { induction accs as [|[acc [ar|]] accs IH]; intros sh0; [done| |done]. cbn [grantAll]. destruct (_ && _); [|apply IH]. by destruct (IH (grant acc (ar_access ar) sh0)) as (-> & -> & ->). }
  unfold joinWorkgroup. destruct (_ && _).
  - destruct (s_made st); [|done]. destruct (s_accounts st); [|done]. cbn. match goal with |- context [grantAll ?l ?x] => by destruct (H l x) as (-> & -> & ->) end.
  - destruct (s_accounts st); [|done]. apply H.
Qed.
Lemma restored_same id a sh : currentUses (restored id a sh) = currentUses sh /\ backend (restored id a sh) = backend sh /\ encryptData (restored id a sh) = encryptData sh.
Proof. unfold restored. destruct (_ && _); [|done]. destruct a; try done. apply joined_same. Qed.
Lemma refusesClear_spec is3x canEncrypt id sh : refusesClear is3x canEncrypt id sh = false <->
  (is3x = true -> encryptData sh = true -> isAnonymous id = false -> isGuest id = false -> canEncrypt = true).
Proof. unfold refusesClear. destruct is3x, (encryptData sh), (isAnonymous id), (isGuest id), canEncrypt; naive_solver. Qed.
Lemma uses_back sh : releaseUse (set_uses (currentUses sh + 1) sh) = sh.
Proof. destruct sh. unfold releaseUse, set_uses. simpl. f_equal. lia. Qed.

(** C19: A tree connect gives what the policy of the share gives.  It succeeds exactly for a
    session entitled to the share as it stands once a client of its workgroup was started,
    over a connection that encrypts where the share asks for it, while the share has a use
    left and, on indexd, a client of the workgroup; then the share has one use more, and the
    access is what the policy names.  Otherwise it is refused, and no use is taken. *)
Theorem connects_as_entitled (is3x canEncrypt : bool) (id : identity) (a : restorable) (ready : bool) (sh : share) :
  let now := restored id a sh in
  let allowed access := (is3x = true -> encryptData sh = true -> isAnonymous id = false -> isGuest id = false -> canEncrypt = true) /\ entitled id ready now access in
  (forall sh' access cl, weigh is3x canEncrypt id a ready sh = (sh', Ok (access, cl)) <->
     allowed access /\ currentUses sh < maxShareUses /\ (backend sh = "indexd" -> is_Some cl) /\ sh' = set_uses (currentUses sh + 1) now /\ cl = clientFor id now) /\
  ((exists sh' r, weigh is3x canEncrypt id a ready sh = (sh', Ok r)) \/
   exists sh' e, weigh is3x canEncrypt id a ready sh = (sh', Err e) /\ (sh' = sh \/ sh' = now) /\ currentUses sh' = currentUses sh /\
     (e = errAccessDenied \/ e = errShareUnavailable \/ e = errTooManyUses /\ maxShareUses <= currentUses sh)).
Proof.
  intros now allowed. pose proof (refusesClear_spec is3x canEncrypt id sh) as Hc. unfold weigh. fold now.
  destruct (restored_same id a sh) as (Hu & Hb & _). fold now in Hu, Hb.
  destruct (refusesClear is3x canEncrypt id sh).
  { split; [|right; eexists _, _; split; [done|auto]]. intros sh' ac cl. split; [done|]. intros [[H _] _]. by apply Hc in H. }
  destruct Hc as [Hc _]. specialize (Hc eq_refl). clearbody now. destruct (admits_spec id ready now) as [Hiff Hcase].
  destruct Hcase as [[access Ea]|[Ea|Ea]]; rewrite Ea; [|split; [|right; eexists _, _; split; [done|auto 6]]; intros sh' ac cl; split; [done|]; intros [[_ H] _]; apply Hiff in H; congruence..].
  run_bind. unfold claimUse. rewrite Z.geb_leb, Hu. destruct (Z.leb_spec maxShareUses (currentUses sh)) as [Hm|Hm].
  { split; [|right; eexists _, _; split; [done|auto 6]]. intros sh' ac cl. split; [done|]. intros (_ & H & _). lia. }
  rewrite bind_mret; cbv beta. unfold mret, outcome_ret. cbv zeta. assert (releaseUse (set_uses (currentUses sh + 1) now) = now) as -> by (rewrite <- Hu; apply uses_back).
  assert (clientFor id (set_uses (currentUses sh + 1) now) = clientFor id now) as -> by done. cbn [backend set_uses]. rewrite Hb. apply Hiff in Ea as Hent.
  assert (forall ac, entitled id ready now ac -> ac = access) as Huniq by (intros ac H; apply Hiff in H; congruence).
  destruct (String.eqb_spec (backend sh) "indexd") as [Hi|Hi]; cbn [andb]; [case_bool_decide as Hs; cbn [negb]|].
  - split; [|left; by eexists _, _]. intros sh' ac cl. split; [intros [= <- <- <-]; by split_and!|]. intros ([_ H] & _ & _ & -> & ->). by rewrite (Huniq _ H).
  - split; [|right; eexists _, _; split; [done|auto 6]]. intros sh' ac cl. split; [done|]. intros (_ & _ & H & _ & ->). by destruct Hs; apply H.
  - split; [|left; by eexists _, _]. intros sh' ac cl. split; [intros [= <- <- <-]; by split_and!|]. intros ([_ H] & _ & _ & -> & ->). by rewrite (Huniq _ H).
Qed.

(** *** Uses *)
Lemma joined_type wg st sh : shareType (fst (joinWorkgroup wg st sh)) = shareType sh.
Proof.
  assert (forall accs sh, shareType (fst (grantAll accs sh)) = shareType sh) as H.
  { induction accs as [|[acc [ar|]] accs IH]; intros sh0; [done| |done]. cbn [grantAll]. destruct (_ && _); [by rewrite (IH (grant acc (ar_access ar) sh0))|apply IH]. }
  unfold joinWorkgroup. destruct (_ && _); [destruct (s_made st); [|done]|]; (destruct (s_accounts st); [cbv beta iota; by rewrite H|done]).
Qed.
Definition taken {A} (r : out A) : Z := match r with Ok _ => 1 | _ => 0 end.
Lemma weigh_uses is3x canEncrypt id a ready sh sh' r : weigh is3x canEncrypt id a ready sh = (sh', r) ->
  shareType sh' = shareType sh /\ currentUses sh' = currentUses sh + taken r /\ (taken r = 1 -> currentUses sh < maxShareUses).
Proof.
  unfold weigh. destruct (refusesClear _ _ _ _); [intros [= <- <-]; split_and!; [done|simpl; lia|done]|].
  destruct (restored_same id a sh) as (Hu & _ & _). assert (shareType (restored id a sh) = shareType sh) as Ht.
  { unfold restored. destruct (_ && _); [|done]. destruct a; try done. apply joined_type. }
  revert Hu Ht. generalize (restored id a sh). intros now Hu Ht. destruct (admits id ready now) as [access|e| |]; cbn; unfold mret, outcome_ret.
  2-4: intros [= <- <-]; split_and!; [done|simpl; lia|done].
  unfold claimUse. rewrite Z.geb_leb. destruct (Z.leb_spec maxShareUses (currentUses now)) as [Hm|Hm]; cbn.
  { intros [= <- <-]. split_and!; [done|simpl; lia|done]. }
  destruct (_ && _); intros [= <- <-]; cbn; split_and!; try done; lia.
Qed.
Section uses.
Context (toLower : string -> string) (GetAccountByID : Z -> Shares.lookup) (encrypts compresses : bool).
Lemma loadAccessRights_uses ars sh sh' : loadAccessRights GetAccountByID ars sh = Ok sh' -> currentUses sh' = currentUses sh /\ shareType sh' = shareType sh.
Proof.
  unfold loadAccessRights. intros (accs & _ & [= <-])%bind_Ok. revert sh. induction ars as [|ar ars IH]; intros sh; [done|]. simpl. destruct (accs !! _); [|apply IH].
  by destruct (IH (grant a (ar_access ar) sh)) as [-> ->].
Qed.
Lemma RegisterShare_uses r w w' : RegisterShare GetAccountByID encrypts compresses r w = Ok w' ->
  exists sh, heap w' = <[fresh (dom (heap w)) := sh]> (heap w) /\ currentUses sh = 0.
Proof.
  unfold RegisterShare. intros (sh & Hm & [= <-])%bind_Ok. exists sh. split; [done|]. unfold registerShare_make in Hm. destruct (shareList w !! _); [done|].
  apply bind_Ok in Hm as (sh1 & H1 & H2). assert (currentUses sh1 = 0) as H0.
  { destruct (String.eqb _ "indexd"); [by injection H1 as <-|]. destruct (String.eqb _ "renterd"); [|done]. destruct (r_info r); [|done]. by injection H1 as <-. }
  destruct (String.eqb (backend sh1) "renterd"); [|by injection H2 as <-]. destruct (r_accounts r); [|done]. apply loadAccessRights_uses in H2 as [-> _]. done.
Qed.
Definition usesAt (j : shareId) (w : shares) : Z := match heap w !! j with Some sh => currentUses sh | None => 0 end.
Definition onShare (j : shareId) (r : out (shareId * Z * option clientId)) : Z := match r with Ok (i, _, _) => if decide (i = j) then 1 else 0 | _ => 0 end.
(** What a tree connect does to the uses of the shares on disk, and that shares stay. *)
Lemma newTreeConnect_uses is3x canEncrypt id path stored a ready w w' r :
  newTreeConnect GetAccountByID encrypts compresses toLower is3x canEncrypt id path stored a ready w = (w', r) ->
  (forall j sh', heap w' !! j = Some sh' -> shareType sh' = SHARE_TYPE_DISK ->
     currentUses sh' = usesAt j w + onShare j r /\ (onShare j r = 1 -> usesAt j w < maxShareUses) /\ (forall sh, heap w !! j = Some sh -> shareType sh = SHARE_TYPE_DISK)) /\
  (forall j, is_Some (heap w !! j) -> is_Some (heap w' !! j)) /\ (forall i access cl, r = Ok (i, access, cl) -> is_Some (heap w' !! i)).
Proof.
  intros H. assert (forall w r, (forall i access cl, r <> Ok (i, access, cl)) -> (forall j sh', heap w !! j = Some sh' -> shareType sh' = SHARE_TYPE_DISK ->
     currentUses sh' = usesAt j w + onShare j r /\ (onShare j r = 1 -> usesAt j w < maxShareUses) /\ (forall sh, heap w !! j = Some sh -> shareType sh = SHARE_TYPE_DISK)) /\
     (forall j, is_Some (heap w !! j) -> is_Some (heap w !! j)) /\ (forall i access cl, r = Ok (i, access, cl) -> is_Some (heap w !! i))) as Hsame.
  { intros w0 r0 Hr. assert (forall j, onShare j r0 = 0) as H0 by (intros j; destruct r0 as [[[i ac] cl]|e| |]; [by destruct (Hr i ac cl)|done..]). split_and!.
    - intros j sh' Hj Ht. rewrite H0. unfold usesAt. rewrite Hj. split_and!; [lia|done|]. intros sh [= <-]. done.
    - done.
    - intros i ac cl E. by destruct (Hr i ac cl). }
  unfold newTreeConnect in H. destruct (String.eqb _ ""); [injection H as <- <-; by apply Hsame|]. destruct (String.eqb _ "ipc$").
  { injection H as <- <-. cbn. set (f := fresh (dom (heap w))). assert (heap w !! f = None) as Hf by (apply not_elem_of_dom, is_fresh). split_and!.
    - intros j sh'. destruct (decide (f = j)) as [<-|Hne]; [rewrite lookup_insert_eq; by intros [= <-]|]. rewrite lookup_insert_ne by done. intros Hj Ht. unfold usesAt. rewrite Hj. split_and!; [lia|done|]. intros sh [= <-]. done.
    - intros j [sh Hj]. rewrite lookup_insert_ne by congruence. by exists sh.
    - intros i ac cl [= <- _ _]. rewrite lookup_insert_eq. by eexists. }
  cbv zeta in H. match type of H with (match ?x with _ => _ end) = _ => set (found := x) in H end.
  assert (forall w1 i, found = Ok (w1, i) -> (forall j sh', heap w1 !! j = Some sh' -> heap w !! j = Some sh' \/ heap w !! j = None /\ currentUses sh' = 0) /\ (forall j sh, heap w !! j = Some sh -> heap w1 !! j = Some sh)) as Hfound.
  { intros w1 i Hf. subst found. destruct (shareList w !! _); [injection Hf as <- <-; split; [by left|done]|]. destruct stored as [reg|]; [|done]. destruct (String.eqb _ _); [|done].
    apply bind_Ok in Hf as (w2 & Hr & Hf). destruct (shareList w2 !! _); [|done]. injection Hf as <- <-. apply RegisterShare_uses in Hr as (sh & -> & H0).
    assert (heap w !! fresh (dom (heap w)) = None) as Hn by (apply not_elem_of_dom, is_fresh). split.
    - intros j sh'. destruct (decide (j = fresh (dom (heap w)))) as [->|]; [rewrite lookup_insert_eq; intros [= <-]; by right|rewrite lookup_insert_ne by done; by left].
    - intros j sh0 Hj. by rewrite lookup_insert_ne by congruence. }
  destruct found as [[w1 i]|e| |]; [|injection H as <- <-; by apply Hsame..]. destruct (Hfound w1 i eq_refl) as [Hold Hkeep].
  assert (forall j sh', heap w1 !! j = Some sh' -> usesAt j w = currentUses sh') as Huse.
  { intros j sh' Hj. unfold usesAt. destruct (Hold _ _ Hj) as [->|[-> ->]]; done. }
  assert (forall j sh' sh, heap w1 !! j = Some sh' -> heap w !! j = Some sh -> sh = sh') as Hid by (intros j sh' sh H1 H2; apply Hkeep in H2; congruence).
  destruct (heap w1 !! i) as [sh|] eqn:Hi.
  - destruct (weigh is3x canEncrypt id a ready sh) as [sh1 r1] eqn:Hw. injection H as <- <-. destruct (weigh_uses _ _ _ _ _ _ _ _ Hw) as (Ht & Hu & Hm).
    assert (forall j, onShare j ('(access, cl) ← r1; mret (i, access, cl)) = if decide (i = j) then taken r1 else 0) as Hon by (intros j; destruct r1 as [[ac cl]|e| |]; cbn; by destruct (decide (i = j))).
    cbn [heap at_]. split_and!.
    + intros j sh' Hj Hd. rewrite Hon. destruct (decide (i = j)) as [<-|Hne].
      * rewrite lookup_alter_eq, Hi in Hj. injection Hj as <-. rewrite (Huse _ _ Hi). split_and!; [lia|done|]. intros sh0 Hs0. rewrite (Hid _ _ _ Hi Hs0). congruence.
      * rewrite lookup_alter_ne in Hj by done. rewrite (Huse _ _ Hj). split_and!; [lia|done|]. intros sh0 Hs0. by rewrite (Hid _ _ _ Hj Hs0).
    + intros j [sh0 Hj]. apply Hkeep in Hj. destruct (decide (i = j)) as [<-|Hne]; [rewrite lookup_alter_eq, Hi|rewrite lookup_alter_ne by done; rewrite Hj]; by eexists.
    + intros i0 ac cl E. assert (i0 = i) as -> by (destruct r1 as [[? ?]|? | |]; cbn in E; unfold mret, outcome_ret in E; congruence). rewrite lookup_alter_eq, Hi. by eexists.
  - injection H as <- <-. split_and!; [|intros j [sh0 Hj]; apply Hkeep in Hj; by eexists|done]. intros j sh' Hj Hd. rewrite (Huse _ _ Hj). cbn. split_and!; [lia|done|]. intros sh0 Hs0. by rewrite (Hid _ _ _ Hj Hs0).
Qed.
End uses.

(** ** The connections of the workgroups *)
Section connections.
Context (GetAccountByID : Z -> Shares.lookup) (encrypts compresses : bool) (r : registration).
(** The share is on the list as one of workgroups, or will be once it is registered. *)
Definition ofWorkgroups (w : shares) : Prop :=
  match shareList w !! st_Name (r_stored r) with
  | Some i => exists sh, heap w !! i = Some sh /\ backend sh = "indexd"
  | None => st_Type (r_stored r) = "indexd"
  end.
Definition at_share (i : shareId) (w : shares) (sh : share) : Prop :=
  shareList w !! st_Name (r_stored r) = Some i /\ heap w !! i = Some sh /\ backend sh = "indexd".
Lemma ensureShare_spec w : ofWorkgroups w -> exists w' i sh, ensureShare GetAccountByID encrypts compresses r w = Ok (w', i) /\ at_share i w' sh /\
  (forall i0 sh0, at_share i0 w sh0 -> w' = w /\ i = i0 /\ sh = sh0).
Proof.
  unfold ofWorkgroups, ensureShare, at_share. destruct (shareList w !! _) as [i|] eqn:El.
  - intros (sh & Hh & Hb). exists w, i, sh. split_and!; try done. intros i0 sh0 ([= <-] & H & _). split_and!; congruence.
  - intros Ht. unfold RegisterShare, registerShare_make. rewrite El. unfold newShare. cbn [backend]. rewrite Ht.
    cbn [String.eqb Ascii.eqb Bool.eqb]. rewrite bind_mret; cbv beta. unfold mret, outcome_ret. cbn [backend String.eqb Ascii.eqb Bool.eqb]. run_bind. unfold registerShare_put. cbn [shareList name]. run_bind. cbn [shareList]. rewrite lookup_insert_eq.
    eexists _, _, _. split; [done|]. cbn [shareList heap]. rewrite !lookup_insert_eq. split; [by split_and!|]. intros i0 sh0 (? & _). done.
Qed.
Lemma joinWorkgroup_joins wg st sh : backend sh = "indexd" -> let '(sh', e) := joinWorkgroup wg st sh in
  backend sh' = "indexd" /\ indexdConns sh ⊆ indexdConns sh' /\ (is_Some (indexdConns sh' !! wg) \/ is_Some e).
Proof.
  intros Hb. assert (forall accs sh, backend (fst (grantAll accs sh)) = backend sh /\ indexdConns (fst (grantAll accs sh)) = indexdConns sh) as H.
  { induction accs as [|[acc [ar|]] accs IH]; intros sh0; [done| |done]. cbn [grantAll]. destruct (_ && _); [|apply IH]. by destruct (IH (grant acc (ar_access ar) sh0)) as (-> & ->). }
  unfold joinWorkgroup. rewrite Hb. cbn [String.eqb Ascii.eqb Bool.eqb andb]. case_bool_decide as Hr; cbn [negb].
  - destruct (s_accounts st) as [accs|]; [|by split_and!; try left]. specialize (H accs sh). destruct (grantAll accs sh) as [sh' e]. destruct H as [H1 H2]. simpl in H1, H2. rewrite H1, H2. by split_and!; try left.
  - assert (indexdConns sh !! wg = None) as Hn by (destruct (indexdConns sh !! wg) as [c|]; [by destruct Hr; exists c|done]).
    destruct (s_made st) as [c|e]; [|split_and!; [done|done|by right]]. assert (indexdConns sh ⊆ <[wg := c]> (indexdConns sh)) as Hs by (by apply insert_subseteq).
    destruct (s_accounts st) as [accs|].
    + specialize (H accs (set_indexd (<[wg := c]> (indexdConns sh)) sh)). destruct (grantAll accs _) as [sh' e]. destruct H as [H1 H2]. simpl in H1, H2. rewrite H1, H2. split_and!; [done|done|]. left. by rewrite lookup_insert_eq.
    + cbn. split_and!; [done|done|by right].
Qed.
Lemma AddConnection_joins wg st i w sh : at_share i w sh -> let '(w', e) := AddConnection GetAccountByID encrypts compresses wg r st w in
  exists sh', at_share i w' sh' /\ indexdConns sh ⊆ indexdConns sh' /\ (is_Some (indexdConns sh' !! wg) \/ is_Some e).
Proof.
  intros (Hl & Hh & Hb). unfold AddConnection, ensureShare. rewrite Hl. unfold mret, outcome_ret. unfold joinAt. rewrite Hh.
  pose proof (joinWorkgroup_joins wg st sh Hb) as H. destruct (joinWorkgroup wg st sh) as [sh' e]. destruct H as (Hb' & Hs & Hor).
  exists sh'. split; [|done]. split; [done|]. cbn [at_ heap]. by rewrite lookup_alter_eq, Hh.
Qed.
Lemma startAll_spec i l : forall w sh failed, at_share i w sh -> let '(w', failed') := startAll GetAccountByID encrypts compresses r i l w failed in
  exists sh', at_share i w' sh' /\ indexdConns sh ⊆ indexdConns sh' /\
    (forall wg, is_Some (failed !! wg) -> is_Some (failed' !! wg)) /\
    (forall wg, is_Some (failed' !! wg) -> is_Some (failed !! wg) \/ wg ∈ l.*1) /\
    (forall wg, wg ∈ l.*1 -> is_Some (indexdConns sh' !! wg) \/ is_Some (failed' !! wg)).
Proof.
  induction l as [|[wg st] l IH]; intros w sh failed Hat; cbn [startAll].
  { exists sh. split_and!; try done; [by left|]. intros wg. set_solver. }
  assert (forall w1 sh1 failed1, at_share i w1 sh1 -> indexdConns sh ⊆ indexdConns sh1 ->
    (forall x, is_Some (failed !! x) -> is_Some (failed1 !! x)) -> (forall x, is_Some (failed1 !! x) -> is_Some (failed !! x) \/ x = wg) ->
    (is_Some (indexdConns sh1 !! wg) \/ is_Some (failed1 !! wg)) ->
    let '(w', failed') := startAll GetAccountByID encrypts compresses r i l w1 failed1 in
    exists sh', at_share i w' sh' /\ indexdConns sh ⊆ indexdConns sh' /\
      (forall x, is_Some (failed !! x) -> is_Some (failed' !! x)) /\ (forall x, is_Some (failed' !! x) -> is_Some (failed !! x) \/ x ∈ ((wg, st) :: l).*1) /\
      (forall x, x ∈ ((wg, st) :: l).*1 -> is_Some (indexdConns sh' !! x) \/ is_Some (failed' !! x))) as Hgo.
  { intros w1 sh1 failed1 H1 Hs Hf Hf1 Hor. specialize (IH w1 sh1 failed1 H1). destruct (startAll _ _ _ r i l w1 failed1) as [w' failed'].
    destruct IH as (sh' & Hat' & Hs' & Hg & Hg1 & Hin). exists sh'. rewrite fmap_cons. split_and!; [done|by etrans|by auto| |].
    - intros x Hx. destruct (Hg1 x Hx) as [Hx'|Hx']; [|right; set_solver]. destruct (Hf1 x Hx') as [Hx''| ->]; [by left|right; set_solver].
    - intros x [-> | Hx]%elem_of_cons; [|by auto]. destruct Hor as [[c Hc]|Hor]; [|right; by auto]. left. exists c. by apply (lookup_weaken _ _ _ _ Hc). }
  destruct (runs wg i w) eqn:Er.
  { apply (Hgo w sh failed); auto. left. destruct Hat as (_ & Hh & _). unfold runs in Er. rewrite Hh in Er. by apply bool_decide_eq_true in Er. }
  destruct st as [st|].
  - pose proof (AddConnection_joins wg st i w sh Hat) as H. destruct (AddConnection _ _ _ wg r st w) as [w1 e]. destruct H as (sh1 & Hat1 & Hs1 & Hor).
    apply (Hgo w1 sh1); [done|done| | |]; destruct e as [e|]; auto.
    + intros x Hx. destruct (decide (x = wg)) as [->|]; [by rewrite lookup_insert_eq|by rewrite lookup_insert_ne].
    + intros x Hx. destruct (decide (x = wg)) as [->|]; [by right|left; by rewrite lookup_insert_ne in Hx].
    + right. by rewrite lookup_insert_eq.
    + left. destruct Hor as [|[? ?]]; done.
  - apply (Hgo w sh); [done|done| | |].
    + intros x Hx. destruct (decide (x = wg)) as [->|]; [by rewrite lookup_insert_eq|by rewrite lookup_insert_ne].
    + intros x Hx. destruct (decide (x = wg)) as [->|]; [by right|left; by rewrite lookup_insert_ne in Hx].
    + right. by rewrite lookup_insert_eq.
Qed.
(** What the server says of the connections of a share accounts for every one the store
    holds: each workgroup has a client, which one that was running keeps, or is named as
    failed, and never both. *)
Theorem connections_accounted_for (l : list (string * option start)) (w : shares) : ofWorkgroups w ->
  exists w' conns failed, ShareConnections GetAccountByID encrypts compresses r (Some l) w = (w', Ok (conns, failed)) /\
    (forall wg, wg ∈ l.*1 -> is_Some (conns !! wg) \/ is_Some (failed !! wg)) /\
    (forall wg, is_Some (failed !! wg) -> conns !! wg = None /\ wg ∈ l.*1) /\
    (forall i sh, at_share i w sh -> indexdConns sh ⊆ conns).
Proof.
  intros Ho. destruct (ensureShare_spec w Ho) as (w0 & i & sh & He & Hat & Hsame). unfold ShareConnections, startShareConnections. rewrite He.
  pose proof Hat as (_ & Hh & Hb). rewrite Hh, Hb. cbn [String.eqb Ascii.eqb Bool.eqb negb].
  pose proof (startAll_spec i l w0 sh ∅ Hat) as H. destruct (startAll _ _ _ r i l w0 ∅) as [w' failed]. destruct H as (sh' & (_ & Hh' & _) & Hs & _ & Hg & Hin).
  eexists w', _, _. split; [run_bind; rewrite Hh'; reflexivity|]. split_and!.
  - intros wg Hw. destruct (indexdConns sh' !! wg) as [c|] eqn:Ec; [left; by eexists|right]. destruct (Hin wg Hw) as [[? ?]|[e Hf]]; [congruence|].
    exists e. apply map_lookup_filter_Some. split; [done|]. simpl. rewrite Ec. by intros [? ?].
  - intros wg [e (Hf & Hn)%map_lookup_filter_Some]. simpl in Hn. split; [by destruct (indexdConns sh' !! wg); [destruct Hn; eexists|]|].
    destruct (Hg wg (mk_is_Some _ _ Hf)) as [[? E]|]; [|done]. by rewrite lookup_empty in E.
  - intros i0 sh0 Hat0. destruct (Hsame i0 sh0 Hat0) as (_ & _ & <-). done.
Qed.
End connections.

(** ** The tables and the policy

    A policy is what an account may do on the share.  The key of an account in the tables is
    its workgroup and its name: a workgroup is a UUID, and has no slash in it. *)
Fixpoint slashless (s : string) : bool := match s with EmptyString => true | String c s => negb (Ascii.eqb c (Ascii.ascii_of_nat 47)) && slashless s end.
Lemma key_inj wg u wg' u' : slashless wg = true -> slashless wg' = true -> key wg u = key wg' u' -> wg = wg' /\ u = u'.
Proof.
  unfold key. revert wg'. induction wg as [|c wg IH]; intros [|c' wg'] H H' E; simpl in *.
  - by injection E.
  - injection E as <- _. done.
  - injection E as -> _. done.
  - injection E as <- E. apply andb_prop in H as [_ H]. apply andb_prop in H' as [_ H']. destruct (IH wg' H H' E) as [-> ->]. done.
Qed.
Inductive policyOp := Sets (ar : rights) | Removes (acc : account).
Abbreviation policy := (gmap (string * string) Z).
Lemma grant_obeys (acc : account) (ar : AccessRights) (sh : share) (m : policy) (wg u : string) : slashless (acc_Workgroup acc) = true -> slashless wg = true ->
  fileAccess wg u sh = m !! (wg, u) -> mayConnect wg u sh = bool_decide (is_Some (m !! (wg, u))) ->
  let m' := <[(acc_Workgroup acc, acc_Username acc) := FlagsFromAccessRights ar]> m in
  fileAccess wg u (grant acc ar sh) = m' !! (wg, u) /\ mayConnect wg u (grant acc ar sh) = bool_decide (is_Some (m' !! (wg, u))).
Proof.
  intros Ha Hw H1 H2 m'. unfold fileAccess, mayConnect, grant in *. cbn [fileSecurity connectSecurity set_security].
  destruct (decide (key wg u = key (acc_Workgroup acc) (acc_Username acc))) as [E|E].
  - rewrite E. destruct (key_inj _ _ _ _ Hw Ha E) as [-> ->]. subst m'. rewrite !lookup_insert_eq. split; [done|].
    rewrite !bool_decide_true; [done|by eexists|set_solver].
  - assert ((acc_Workgroup acc, acc_Username acc) <> (wg, u)) as E' by (intros [= <- <-]; done). subst m'. rewrite !lookup_insert_ne by done.
    split; [done|]. rewrite <- H2. apply bool_decide_ext. set_solver.
Qed.
Lemma revoke_obeys (acc : account) (sh : share) (m : policy) (wg u : string) : slashless (acc_Workgroup acc) = true -> slashless wg = true ->
  fileAccess wg u sh = m !! (wg, u) -> mayConnect wg u sh = bool_decide (is_Some (m !! (wg, u))) ->
  let m' := delete (acc_Workgroup acc, acc_Username acc) m in
  fileAccess wg u (revoke acc sh) = m' !! (wg, u) /\ mayConnect wg u (revoke acc sh) = bool_decide (is_Some (m' !! (wg, u))).
Proof.
  intros Ha Hw H1 H2 m'. unfold fileAccess, mayConnect, revoke in *. cbn [fileSecurity connectSecurity set_security].
  destruct (decide (key wg u = key (acc_Workgroup acc) (acc_Username acc))) as [E|E].
  - rewrite E. destruct (key_inj _ _ _ _ Hw Ha E) as [-> ->]. subst m'. rewrite !lookup_delete_eq. split; [done|].
    rewrite !bool_decide_false; [done|by intros [? ?]|set_solver].
  - assert ((acc_Workgroup acc, acc_Username acc) <> (wg, u)) as E' by (intros [= <- <-]; done). subst m'. rewrite !lookup_delete_ne by done.
    split; [done|]. rewrite <- H2. apply bool_decide_ext. set_solver.
Qed.
Lemma revoke_twice acc sh : revoke acc (revoke acc sh) = revoke acc sh.
Proof. unfold revoke, set_security. cbn [fileSecurity connectSecurity name]. f_equal; [set_solver|by rewrite delete_delete_eq]. Qed.
Lemma revokeAll_lookup acc l (h : gmap shareId share) j sh : h !! j = Some sh ->
  foldr (fun i h => alter (revoke acc) i h) h l !! j = Some (if bool_decide (j ∈ l) then revoke acc sh else sh).
Proof.
  intros H. induction l as [|x l IH]; [done|]. simpl. destruct (decide (x = j)) as [->|Hne].
  - rewrite lookup_alter_eq, IH. simpl. rewrite (bool_decide_true (j ∈ j :: l)) by set_solver. case_bool_decide; [by rewrite revoke_twice|done].
  - rewrite lookup_alter_ne, IH by done. do 2 f_equal. case_bool_decide; case_bool_decide; set_solver.
Qed.
Section policy.
Context (GetAccountByID : Z -> Shares.lookup) (accounts_named : forall id acc, GetAccountByID id = Found acc -> slashless (acc_Workgroup acc) = true).
(** [served] is whether the share serves a workgroup: a share of indexd those that are
    connected to it, any other share all of them. *)
Context (shareName : string) (i : shareId) (served : string -> bool).
Definition apply (w : shares) (op : policyOp) : shares :=
  match op with
  | Sets ar => match UpdateAccessRights GetAccountByID shareName ar w with Ok w => w | _ => w end
  | Removes acc => RemoveAccess acc w
  end.
Definition decree (m : policy) (op : policyOp) : policy :=
  match op with
  | Sets ar =>
      match GetAccountByID (ar_AccountID ar) with
      | Found acc => let k := (acc_Workgroup acc, acc_Username acc) in if negb (served (acc_Workgroup acc)) then m else if anyAccess (ar_access ar) then <[k := FlagsFromAccessRights (ar_access ar)]> m else delete k m
      | _ => m
      end
  | Removes acc => delete (acc_Workgroup acc, acc_Username acc) m
  end.
(** The share is on the list, serves whom it does, and says of every account what the policy
    says. *)
Definition obeys (m : policy) (w : shares) : Prop :=
  shareList w !! shareName = Some i /\ exists sh, heap w !! i = Some sh /\ (forall wg, served wg = true <-> backend sh <> "indexd" \/ is_Some (indexdConns sh !! wg)) /\
  forall wg u, slashless wg = true -> fileAccess wg u sh = m !! (wg, u) /\ mayConnect wg u sh = bool_decide (is_Some (m !! (wg, u))).
Lemma apply_obeys m w op : (forall acc, op = Removes acc -> slashless (acc_Workgroup acc) = true) -> obeys m w -> obeys (decree m op) (apply w op).
Proof using accounts_named.
  intros Hop (Hl & sh & Hh & Hb & Hs). destruct op as [ar|acc]; simpl.
  - unfold UpdateAccessRights. rewrite Hl. destruct (GetAccountByID (ar_AccountID ar)) as [acc| |] eqn:Ea; [|by split; [done|exists sh]..]. pose proof (accounts_named _ _ Ea) as Hacc.
    rewrite Hh. assert (negb (String.eqb (backend sh) "indexd") || bool_decide (is_Some (indexdConns sh !! acc_Workgroup acc)) = served (acc_Workgroup acc)) as ->.
    { destruct (served (acc_Workgroup acc)) eqn:Es.
      - apply Hb in Es as [H|H]; [by rewrite (proj2 (String.eqb_neq _ _) H)|]. by rewrite (bool_decide_true _ H), orb_true_r.
      - apply not_true_iff_false. intros H%orb_true_iff. assert (served (acc_Workgroup acc) = true); [|congruence]. apply Hb. destruct H as [H|H]; [left; by apply String.eqb_neq, negb_true_iff|right; by apply bool_decide_eq_true in H]. }
    destruct (served (acc_Workgroup acc)); cbn [negb]; unfold mret, outcome_ret; (split; [done|]); [|by exists sh].
    destruct (anyAccess (ar_access ar)); (eexists; cbn [heap at_]; rewrite lookup_alter_eq, Hh; split; [done|]; split; [done|]); intros wg u Hw; destruct (Hs wg u Hw).
    + by apply grant_obeys.
    + by apply revoke_obeys.
  - split; [done|]. exists (revoke acc sh). cbn [heap RemoveAccess]. rewrite (revokeAll_lookup acc _ _ _ sh Hh), bool_decide_true.
    + split; [done|]. split; [done|]. intros wg u Hw. destruct (Hs wg u Hw). apply revoke_obeys; [by apply Hop|done..].
    + apply list_elem_of_fmap. exists (shareName, i). split; [done|]. by apply elem_of_map_to_list.
Qed.
(** C20: The tables of a share follow the policy.  However rights are set and accounts removed
    while the server runs, the share lets an account connect, and gives it on files, exactly
    what was last decreed for it.  Rights are decreed where the store finds the account and
    the share serves its workgroup, which a share of indexd does for the workgroups connected
    to it and any other share for all; workgroups are UUIDs, without a slash. *)
Theorem access_follows_the_policy (m : policy) (w : shares) (ops : list policyOp) :
  obeys m w -> Forall (fun op => forall acc, op = Removes acc -> slashless (acc_Workgroup acc) = true) ops ->
  obeys (foldl decree m ops) (foldl apply w ops).
Proof using accounts_named.
  intros Ho H. revert m w Ho. induction H as [|op ops Hop H IH]; intros m w Ho; [done|]. simpl. apply IH. by apply apply_obeys.
Qed.
End policy.

Definition anna : account := Account "3f2504e0-4f89-11d3-9a0c-0305e82c3301" "anna".
Definition theAccount (id : Z) : Shares.lookup := if id =? 7 then Found anna else NotFound.
Definition paperShare : stored := Stored "papers" "renterd" "http://here" "b" "" false false "".
Definition full : rights := Rights 7 (mkAccessRights true true true true).
Definition none : rights := Rights 7 (mkAccessRights false false false false).
Definition aShare : share := newShare false false paperShare.
Definition someShares : shares := Shares {[ 0%nat := aShare ]} {[ "papers" := 0%nat ]}.
Lemma theAccount_named id acc : theAccount id = Found acc -> slashless (acc_Workgroup acc) = true.
Proof. unfold theAccount. destruct (id =? 7); [|done]. by intros [= <-]. Qed.
Lemma access_follows_the_policy_witness : obeys "papers" 0 (fun _ => true) (foldl (decree theAccount (fun _ => true)) ∅ [Sets full; Sets none; Sets full]) (foldl (apply theAccount "papers") someShares [Sets full; Sets none; Sets full]).
Proof.
  apply (access_follows_the_policy theAccount theAccount_named "papers" 0); [|by repeat constructor].
  split; [done|]. exists aShare. split; [done|]. split; [intros wg; split; [intros _; by left|done]|]. intros wg u _. unfold fileAccess, mayConnect. rewrite lookup_empty. split; [done|].
  rewrite !bool_decide_false; [done|by intros [? ?]|set_solver].
Defined.
(** The rights of an account set to none: it is off the share until the server starts again,
    and then it connects, if with no access. *)
Theorem revoked_account_is_back :
  let running := foldl (apply theAccount "papers") someShares [Sets full; Sets none] in
  let id := Identity (acc_Workgroup anna) (acc_Username anna) false false in
  (exists sh, heap running !! 0%nat = Some sh /\ admits id true sh = Err errAccessDenied) /\
  (exists sh, loadAccessRights theAccount [none] aShare = Ok sh /\ admits id true sh = Ok 0).
Proof. split; (eexists; split; [vm_compute; reflexivity|vm_compute; reflexivity]). Qed.
Definition papersReg : registration := Reg paperShare 0 (Some "b") (Some [full]).
Definition annaHere : identity := Identity (acc_Workgroup anna) (acc_Username anna) false false.
Definition annaConnects (w : shares) := newTreeConnect theAccount false false (fun s => s) false false annaHere "\\here\papers" None Unparsed true w.
Definition or_ {A} (d : A) (m : out A) : A := match m with Ok a => a | _ => d end.
(** Two clients reach for a share nobody has used yet, and each registers it: the share the
    first connected to is in use and on no list, so what is decreed afterwards misses it. *)
Theorem racing_registrations_part :
  let w0 := Shares ∅ ∅ in
  let sh := or_ aShare (registerShare_make theAccount false false papersReg w0) in
  let w1 := registerShare_put sh w0 in
  let w2 := fst (annaConnects w1) in
  let w3 := registerShare_put sh w2 in
  let w4 := or_ w3 (UpdateAccessRights theAccount "papers" none w3) in
  registerShare_make theAccount false false papersReg w0 = Ok sh /\ snd (annaConnects w1) = Ok (0%nat, anonymousAccess, Some 0%nat) /\
  UpdateAccessRights theAccount "papers" none w3 = Ok w4 /\
  (currentUses <$> heap w4 !! 0%nat) = Some 1 /\ (heap w4 !! 0%nat ≫= shareRights anonymousAccess annaHere) = Some anonymousAccess /\
  (shareList <$> RemoveShare paperShare true w4) = Ok ∅.
Proof. cbv zeta. split_and!; vm_compute; reflexivity. Qed.
(** The uses are looked at before the clients of the share are closed: a client that connects
    meanwhile is on a share that is gone. *)
Theorem share_removed_in_use :
  let w1 := or_ someShares (UpdateAccessRights theAccount "papers" full someShares) in
  let w2 := fst (annaConnects w1) in
  let w3 := removeShare_drop paperShare w2 in
  removeShare_check paperShare w1 = Ok (Some 0%nat) /\ snd (annaConnects w1) = Ok (0%nat, anonymousAccess, None) /\
  shareList w3 = ∅ /\ (currentUses <$> heap w3 !! 0%nat) = Some 1.
Proof. cbv zeta. split_and!; vm_compute; reflexivity. Qed.
Definition groupShare : registration := Reg (Stored "group" "indexd" "http://there" "" "" false false "") 0 None None.
Lemma connections_accounted_for_witness :
  exists w' conns failed, ShareConnections theAccount false false groupShare (Some [("g1", Some (Start (inl 3%nat) (Some []))); ("g2", None)]) (Shares ∅ ∅) = (w', Ok (conns, failed)) /\
    (forall wg, wg ∈ ["g1"; "g2"] -> is_Some (conns !! wg) \/ is_Some (failed !! wg)) /\
    (forall wg, is_Some (failed !! wg) -> conns !! wg = None /\ wg ∈ ["g1"; "g2"]) /\
    (forall i sh, at_share groupShare i (Shares ∅ ∅) sh -> indexdConns sh ⊆ conns).
Proof. apply (connections_accounted_for theAccount false false groupShare [("g1", Some (Start (inl 3%nat) (Some []))); ("g2", None)] (Shares ∅ ∅)). reflexivity. Defined.
End Shares.
