(* ===== verification/JsonStore.v ===== *)
(** The store of the Lite mode: [stores/jsonstore.go], with the part of
    [stores/anonymous.go] and [stores/workgroups.go] it uses, and what its changes do to the
    shares the server is running, of [Shares].

    The data is the lists of the persistence file, in their order.  A UUID is its canonical
    spelling; what [uuid.Parse] makes of another spelling, the hash of a password and the
    folding of a name are arguments.  The file holds the data it was last saved with: writing
    a new file and renaming it over the old one either happens or does not, and whether it
    does is an argument of each change. *)
From S2P Require Import Prelude Sharing Shares.

Module JsonStore.
Inductive storeErr := ErrReservedWorkgroup | errInvalidUUID | errNoSuchWorkgroup | ErrAccountExists | errWorkgroupThere | ErrWorkgroupExists | errNoSuchShare | errNoSuchAccount
  | errNotConnected | ErrLiteMode | ErrShareExists | ErrNotFound | ErrAccountNotFound | errSave | errNotify | errDecode.
#[export] Instance storeErr_eq_dec : EqDecision storeErr.
Proof. solve_decision. Defined.
#[export] Instance account_eq_dec : EqDecision Shares.account.
Proof. solve_decision. Defined.
#[export] Instance lookup_eq_dec : EqDecision Shares.lookup.
Proof. solve_decision. Defined.
Abbreviation out := (outcome storeErr).

(** ** The data *)
Record PublicDir := MkDir { pd_Path : string; pd_ReadOnly : bool; pd_CaseSensitive : bool }.
Record Workgroup := MkWorkgroup { wg_ID : Z; wg_UUID : string; wg_Name : string; wg_PublicDirs : list PublicDir }.
Record Share := MkShare { sh_Offer : Shares.stored; sh_Password : string; sh_CreatedAt : Z; sh_DataShards : Z; sh_ParityShards : Z; sh_SkipBackup : bool }.
Definition sh_Name (sh : Share) : string := Shares.st_Name (sh_Offer sh).
Record jsonAccount := MkAccount { ac_ID : Z; ac_Username : string; ac_NTHash : list Z; ac_Workgroup : string }.
Record jsonPolicy := MkPolicy { po_ShareName : string; po_AccountID : Z; po_Workgroup : string; po_access : AccessRights }.
Record jsonConnection := MkConnection { co_Workgroup : string; co_ShareName : string; co_AppKey : list Z }.
Record jsonBan := MkBan { b_Host : string; b_Reason : string }.
Record jsonData := MkData {
  NextWorkgroupID : Z; NextAccountID : Z; Shares_ : list Share; Workgroups : list Workgroup; Accounts : list jsonAccount;
  Policies : list jsonPolicy; Connections : list jsonConnection; Bans : list jsonBan;
}.
Definition emptyData : jsonData := MkData 1 1 [] [] [] [] [] [].
Definition set_Shares l d := MkData (NextWorkgroupID d) (NextAccountID d) l (Workgroups d) (Accounts d) (Policies d) (Connections d) (Bans d).
Definition set_Workgroups l d := MkData (NextWorkgroupID d) (NextAccountID d) (Shares_ d) l (Accounts d) (Policies d) (Connections d) (Bans d).
Definition set_Accounts l d := MkData (NextWorkgroupID d) (NextAccountID d) (Shares_ d) (Workgroups d) l (Policies d) (Connections d) (Bans d).
Definition set_Policies l d := MkData (NextWorkgroupID d) (NextAccountID d) (Shares_ d) (Workgroups d) (Accounts d) l (Connections d) (Bans d).
Definition set_Connections l d := MkData (NextWorkgroupID d) (NextAccountID d) (Shares_ d) (Workgroups d) (Accounts d) (Policies d) l (Bans d).
Definition set_Bans l d := MkData (NextWorkgroupID d) (NextAccountID d) (Shares_ d) (Workgroups d) (Accounts d) (Policies d) (Connections d) l.
Definition appendAccount (u : string) (hash : list Z) (wg : string) d :=
  MkData (NextWorkgroupID d) (NextAccountID d + 1) (Shares_ d) (Workgroups d) (Accounts d ++ [MkAccount (NextAccountID d) u hash wg]) (Policies d) (Connections d) (Bans d).
Definition appendWorkgroup (uuid name : string) (dirs : list PublicDir) d :=
  MkData (NextWorkgroupID d + 1) (NextAccountID d) (Shares_ d) (Workgroups d ++ [MkWorkgroup (NextWorkgroupID d) uuid name dirs]) (Accounts d) (Policies d) (Connections d) (Bans d).

(** Walks that act on the first that matches. *)
Fixpoint removeFirst {A} (p : A -> bool) (l : list A) : list A := match l with [] => [] | a :: l => if p a then l else a :: removeFirst p l end.
Fixpoint updateFirst {A} (p : A -> bool) (f : A -> A) (l : list A) : list A := match l with [] => [] | a :: l => if p a then f a :: l else a :: updateFirst p f l end.
Definition without {A} (p : A -> bool) (l : list A) : list A := List.filter (fun a => negb (p a)) l.

Definition findWorkgroupByUUID (d : jsonData) (u : string) : option Workgroup := find (fun w => String.eqb (wg_UUID w) u) (Workgroups d).
Definition removePolicies (d : jsonData) (p : jsonPolicy -> bool) : jsonData := set_Policies (without p (Policies d)) d.
Definition accessRightsFromPolicy (p : jsonPolicy) : Shares.rights := Shares.Rights (po_AccountID p) (po_access p).
Definition isAccount (u wg : string) (a : jsonAccount) : bool := String.eqb (ac_Username a) u && String.eqb (ac_Workgroup a) wg.
Definition isConnection (wg name : string) (c : jsonConnection) : bool := String.eqb (co_Workgroup c) wg && String.eqb (co_ShareName c) name.
Definition isPolicy (name : string) (id : Z) (p : jsonPolicy) : bool := String.eqb (po_ShareName p) name && (po_AccountID p =? id).

(** ** What is asked of it *)
Definition noAccess : AccessRights := mkAccessRights false false false false.
Definition IsBanned (host : string) (d : jsonData) : bool * string := match find (fun b => String.eqb (b_Host b) host) (Bans d) with Some b => (true, b_Reason b) | None => (false, "") end.
Definition accountByID (d : jsonData) (id : Z) : option jsonAccount := find (fun a => ac_ID a =? id) (Accounts d).
Definition GetAccountByID (d : jsonData) (id : Z) : Shares.lookup :=
  match accountByID d id with Some a => Shares.Found (Shares.Account (ac_Workgroup a) (ac_Username a)) | None => Shares.NotFound end.
Definition GetAccessRights (name : string) (id : Z) (d : jsonData) : Shares.rights :=
  if String.eqb name "" then Shares.Rights 0 noAccess
  else match find (isPolicy name id) (Policies d) with Some p => accessRightsFromPolicy p | None => Shares.Rights 0 noAccess end.
Definition GetShare (name : string) (d : jsonData) : option Share := if String.eqb name "" then None else find (fun sh => String.eqb (sh_Name sh) name) (Shares_ d).
Definition GetShares (id : Z) (d : jsonData) : list Share :=
  List.filter (fun sh => existsb (fun p => isPolicy (sh_Name sh) id p && Shares.anyAccess (po_access p)) (Policies d)) (Shares_ d).
Definition GetAccounts (name : string) (d : jsonData) : list Shares.rights :=
  if String.eqb name "" then [] else map accessRightsFromPolicy (List.filter (fun p => String.eqb (po_ShareName p) name) (Policies d)).
Definition IsConnected (wg name : string) (d : jsonData) : option (list Z) := co_AppKey <$> find (isConnection wg name) (Connections d).
Definition GetWorkgroupByID (id : Z) (d : jsonData) : option Workgroup := find (fun w => wg_ID w =? id) (Workgroups d).
(** ** Lists with keys *)
Section plain.
Context {A : Type}.
Implicit Types (p : A -> bool) (l : list A).
Lemma elem_of_without p l a : a ∈ without p l <-> a ∈ l /\ p a = false.
Proof. unfold without. rewrite !list_elem_of_In, filter_In. destruct (p a); simpl; naive_solver. Qed.
Lemma elem_of_removeFirst p l a : a ∈ removeFirst p l -> a ∈ l.
Proof. induction l as [|x l IH]; [done|]. simpl. destruct (p x); rewrite !elem_of_cons; tauto. Qed.
Lemma removeFirst_keeps p l a : a ∈ l -> p a = false -> a ∈ removeFirst p l.
Proof. intros Hin Hp. induction l as [|x l IH]; [done|]. simpl. apply elem_of_cons in Hin as [->|Hin]; [rewrite Hp; apply list_elem_of_here|]. destruct (p x); [done|]. apply list_elem_of_further. by apply IH. Qed.
Lemma elem_of_updateFirst p f l a : a ∈ updateFirst p f l -> a ∈ l \/ exists b, b ∈ l /\ p b = true /\ a = f b.
Proof.
  induction l as [|x l IH]; [by left|]. simpl. destruct (p x) eqn:E; rewrite !elem_of_cons.
  - intros [->|H]; [right; exists x; split; [apply list_elem_of_here|done]|by left; right].
  - intros [->|H]; [by left; left|]. destruct (IH H) as [?|(b & Hb & ? & ?)]; [by left; right|right; exists b; split; [by apply list_elem_of_further|done]].
Qed.
Lemma filter_without p l : List.filter p (without p l) = [].
Proof. induction l as [|x l IH]; [done|]. unfold without. simpl. fold (without p l). destruct (p x) eqn:E; simpl; [done|by rewrite E]. Qed.
Lemma existsb_false p l : existsb p l = false <-> forall a, a ∈ l -> p a = false.
Proof. rewrite <- not_true_iff_false, existsb_exists. setoid_rewrite <- list_elem_of_In. split; [intros H a Ha; destruct (p a) eqn:E; [exfalso; eauto|done]|intros H (a & Ha & E); rewrite H in E by done; done]. Qed.
Lemma existsb_true p l : existsb p l = true <-> exists a, a ∈ l /\ p a = true.
Proof. rewrite existsb_exists. by setoid_rewrite <- list_elem_of_In. Qed.
Lemma find_found p l a : find p l = Some a -> a ∈ l /\ p a = true.
Proof. intros [H1 H2]%find_some. split; [by apply list_elem_of_In|done]. Qed.
Lemma find_absent p l : find p l = None <-> forall a, a ∈ l -> p a = false.
Proof. split; [intros H a Ha; apply (find_none _ _ H); by apply list_elem_of_In|]. intros H. induction l as [|x l IH]; [done|]. simpl. rewrite H by apply list_elem_of_here. apply IH. intros a Ha. apply H. by apply list_elem_of_further. Qed.
End plain.
Section keyed.
Context {A B : Type} (key : A -> B).
Implicit Types (p : A -> bool) (l : list A).
Lemma elem_of_keys l k : k ∈ map key l <-> exists a, a ∈ l /\ key a = k.
Proof. rewrite list_elem_of_In, in_map_iff. setoid_rewrite list_elem_of_In. naive_solver. Qed.
Lemma keys_without p l : NoDup (map key l) -> NoDup (map key (without p l)).
Proof.
  induction l as [|a l IH]; [done|]. simpl. intros [Hn Hl]%NoDup_cons. unfold without. simpl. fold (without p l). destruct (p a); simpl; [by apply IH|].
  apply NoDup_cons. split; [|by apply IH]. rewrite elem_of_keys. intros (b & [Hb _]%elem_of_without & E). apply Hn, elem_of_keys. eauto.
Qed.
Lemma keys_removeFirst p l : NoDup (map key l) -> NoDup (map key (removeFirst p l)).
Proof.
  induction l as [|a l IH]; [done|]. simpl. intros [Hn Hl]%NoDup_cons. destruct (p a); [done|]. simpl. apply NoDup_cons. split; [|by apply IH].
  rewrite elem_of_keys. intros (b & Hb & E). apply Hn, elem_of_keys. exists b. split; [by eapply elem_of_removeFirst|done].
Qed.
Lemma removeFirst_gone p l a : NoDup (map key l) -> (forall x y, p x = true -> p y = true -> key x = key y) -> a ∈ removeFirst p l -> p a = false.
Proof.
  intros Hn Hp. induction l as [|x l IH]; [by intros ?%elem_of_nil|]. simpl in *. apply NoDup_cons in Hn as [Hx Hn]. destruct (p x) eqn:Ex.
  - intros Ha. destruct (p a) eqn:Ea; [|done]. exfalso. apply Hx, elem_of_keys. exists a. split; [done|]. by apply Hp.
  - intros [->|Ha]%elem_of_cons; [done|by apply IH].
Qed.
Lemma keys_updateFirst p f l : (forall a, p a = true -> key (f a) = key a) -> map key (updateFirst p f l) = map key l.
Proof. intros Hf. induction l as [|a l IH]; [done|]. simpl. destruct (p a) eqn:E; simpl; [by rewrite Hf|by rewrite IH]. Qed.
Lemma keys_snoc l a : NoDup (map key l) -> key a ∉ map key l -> NoDup (map key (l ++ [a])).
Proof. intros Hn Ha. rewrite map_app. apply NoDup_app. split; [done|]. split; [|by apply NoDup_singleton]. intros x Hx ->%list_elem_of_singleton. done. Qed.
Lemma keys_unique l a b : NoDup (map key l) -> a ∈ l -> b ∈ l -> key a = key b -> a = b.
Proof.
  induction l as [|x l IH]; [by intros _ ?%elem_of_nil|]. simpl. intros [Hx Hn]%NoDup_cons [->|Ha]%elem_of_cons [->|Hb]%elem_of_cons E; [done| | |by apply IH].
  - exfalso. apply Hx, elem_of_keys. eauto.
  - exfalso. apply Hx, elem_of_keys. eauto.
Qed.
Lemma replaced_or_added p l a : NoDup (map key l) -> (forall x y, p x = true -> p y = true -> key x = key y) -> p a = true ->
  forall q, q ∈ (if existsb p l then updateFirst p (fun _ => a) l else l ++ [a]) <-> q = a \/ (q ∈ l /\ p q = false).
Proof.
  intros Hn Hp Ha q. destruct (existsb p l) eqn:E.
  - clear Ha. induction l as [|x l IH]; [done|]. simpl in *. apply NoDup_cons in Hn as [Hx Hn]. destruct (p x) eqn:Ex; rewrite !elem_of_cons.
    + assert (forall y, y ∈ l -> p y = false) as Hl by (intros y Hy; destruct (p y) eqn:Ey; [|done]; exfalso; apply Hx, elem_of_keys; exists y; by auto).
      split; [intros [->|Hq]; [by left|right; auto]|intros [->|[[->|Hq] Hf]]; [by left|congruence|by right]].
    + rewrite (IH Hn E). split; [intros [->|[->|[? ?]]]; auto|intros [->|[[->|?] ?]]; auto].
  - rewrite elem_of_app, list_elem_of_singleton. pose proof (proj1 (existsb_false _ _) E) as Hf. split; [intros [?| ->]; auto|intros [->|[? _]]; auto].
Qed.
End keyed.
Lemma isAccount_spec u wg a : isAccount u wg a = true <-> (ac_Username a, ac_Workgroup a) = (u, wg).
Proof. unfold isAccount. rewrite andb_true_iff, !String.eqb_eq. naive_solver. Qed.
Lemma isConnection_spec wg name c : isConnection wg name c = true <-> (co_Workgroup c, co_ShareName c) = (wg, name).
Proof. unfold isConnection. rewrite andb_true_iff, !String.eqb_eq. naive_solver. Qed.
Lemma isPolicy_spec name id p : isPolicy name id p = true <-> (po_ShareName p, po_AccountID p) = (name, id).
Proof. unfold isPolicy. rewrite andb_true_iff, String.eqb_eq, Z.eqb_eq. naive_solver. Qed.
Section store.
Context (parse : string -> option string) (ntHash : string -> list Z) (toLower : string -> string).
Definition FindAccount (u wg : string) (d : jsonData) : out jsonAccount :=
  match parse wg with None => Err errInvalidUUID | Some _ => match find (isAccount u wg) (Accounts d) with Some a => mret a | None => Err ErrAccountNotFound end end.
Definition HasAccount (u wg : string) (d : jsonData) : out bool := match parse wg with None => Err errInvalidUUID | Some _ => mret (existsb (isAccount u wg) (Accounts d)) end.
Definition FindAccounts (wg : string) (d : jsonData) : out (list jsonAccount) :=
  match parse wg with None => Err errInvalidUUID | Some _ => mret (List.filter (fun a => String.eqb (ac_Workgroup a) wg) (Accounts d)) end.
Definition FindWorkgroupByName (name : string) (d : jsonData) : option Workgroup :=
  find (fun w => negb (String.eqb (wg_Name w) "") && String.eqb (wg_Name w) (toLower name)) (Workgroups d).
Definition IsAnonymousWorkgroup (wg : string) : bool := match parse wg with Some u => String.eqb u Shares.AnonymousWorkgroup | None => false end.
Definition dirSeen (seen : list PublicDir) (dir : PublicDir) : bool := existsb (fun s => String.eqb (pd_Path s) (pd_Path dir)) seen.
Definition normalizePublicDirs (dirs : list PublicDir) : list PublicDir :=
  foldl (fun l dir => if String.eqb (pd_Path dir) "" || dirSeen l dir then l else l ++ [dir]) [] dirs.

(** ** The changes to the data *)
Definition BanHost (host reason : string) (d : jsonData) : jsonData := if existsb (fun b => String.eqb (b_Host b) host) (Bans d) then d else set_Bans (Bans d ++ [MkBan host reason]) d.
Definition UnbanHost (host : string) (d : jsonData) : jsonData := set_Bans (removeFirst (fun b => String.eqb (b_Host b) host) (Bans d)) d.
Definition AddAccount (u pw wg : string) (d : jsonData) : out jsonData :=
  match findWorkgroupByUUID d wg with
  | None => Err errNoSuchWorkgroup
  | Some _ => if existsb (isAccount u wg) (Accounts d) then Err ErrAccountExists else mret (appendAccount u (ntHash pw) wg d)
  end.
Definition EnsureAnonymous (d : jsonData) : jsonData :=
  let wg := Shares.AnonymousWorkgroup in
  let d := if existsb (fun w => String.eqb (wg_UUID w) wg) (Workgroups d) then d else appendWorkgroup wg "" [] d in
  if existsb (isAccount Shares.AnonymousAccount wg) (Accounts d) then d else appendAccount Shares.AnonymousAccount (ntHash "") wg d.
Definition RemoveAccount (u wg : string) (d : jsonData) : jsonData :=
  match find (isAccount u wg) (Accounts d) with
  | Some a => removePolicies (set_Accounts (removeFirst (isAccount u wg) (Accounts d)) d) (fun p => po_AccountID p =? ac_ID a)
  | None => d
  end.
Definition accountsOf (wg : string) (d : jsonData) : list jsonAccount := List.filter (fun a => String.eqb (ac_Workgroup a) wg) (Accounts d).
Definition RemoveAccounts (wg : string) (d : jsonData) : jsonData :=
  removePolicies (set_Accounts (without (fun a => String.eqb (ac_Workgroup a) wg) (Accounts d)) d) (fun p => existsb (fun a => ac_ID a =? po_AccountID p) (accountsOf wg d)).
(** Which of the two complaints comes first is which workgroup does. *)
Definition AddWorkgroup (uuid name : string) (dirs : list PublicDir) (d : jsonData) : out jsonData :=
  let name := toLower name in
  match find (fun w => String.eqb (wg_UUID w) uuid || (negb (String.eqb name "") && String.eqb (wg_Name w) name)) (Workgroups d) with
  | Some w => if String.eqb (wg_UUID w) uuid then Err errWorkgroupThere else Err ErrWorkgroupExists
  | None => mret (appendWorkgroup uuid name (normalizePublicDirs dirs) d)
  end.
Definition UpdateWorkgroup (id : Z) (dirs : list PublicDir) (d : jsonData) : out jsonData :=
  if existsb (fun w => wg_ID w =? id) (Workgroups d)
  then mret (set_Workgroups (updateFirst (fun w => wg_ID w =? id) (fun w => MkWorkgroup (wg_ID w) (wg_UUID w) (wg_Name w) (normalizePublicDirs dirs)) (Workgroups d)) d)
  else Err errNoSuchWorkgroup.
Definition RemoveWorkgroup (id : Z) (d : jsonData) : jsonData :=
  match GetWorkgroupByID id d with
  | None => d
  | Some w =>
      let u := wg_UUID w in
      removePolicies (set_Connections (without (fun c => String.eqb (co_Workgroup c) u) (Connections d))
        (set_Accounts (without (fun a => String.eqb (ac_Workgroup a) u) (Accounts d)) (set_Workgroups (removeFirst (fun w => wg_ID w =? id) (Workgroups d)) d)))
        (fun p => String.eqb (po_Workgroup p) u)
  end.
(** The share was looked up before: [found] is whether it was there. *)
Definition SetAccessRights (found : bool) (name : string) (ar : Shares.rights) (d : jsonData) : out jsonData :=
  if negb found then Err errNoSuchShare
  else
    let wg := match accountByID d (Shares.ar_AccountID ar) with Some a => ac_Workgroup a | None => ""%string end in
    if String.eqb wg "" then Err errNoSuchAccount
    else if negb (existsb (isConnection wg name) (Connections d)) then Err errNotConnected
    else
      let p := MkPolicy name (Shares.ar_AccountID ar) wg (Shares.ar_access ar) in
      let this := isPolicy name (Shares.ar_AccountID ar) in
      mret (set_Policies (if existsb this (Policies d) then updateFirst this (fun _ => p) (Policies d) else Policies d ++ [p]) d).
Definition RemoveAccessRights (name : string) (id : Z) (d : jsonData) : jsonData := removePolicies d (isPolicy name id).
Definition ClearAccessRights (id : Z) (d : jsonData) : jsonData := removePolicies d (fun p => po_AccountID p =? id).
Definition RegisterShare (sh : Share) (d : jsonData) : out jsonData :=
  if existsb (fun s => String.eqb (sh_Name s) (sh_Name sh)) (Shares_ d) then Err ErrShareExists else mret (set_Shares (Shares_ d ++ [sh]) d).
Definition UnregisterShare (name : string) (d : jsonData) : jsonData :=
  removePolicies (set_Connections (without (fun c => String.eqb (co_ShareName c) name) (Connections d)) (set_Shares (removeFirst (fun s => String.eqb (sh_Name s) name) (Shares_ d)) d))
    (fun p => String.eqb (po_ShareName p) name).
Definition AddConnection (wg name : string) (appKey : list Z) (d : jsonData) : out jsonData :=
  match findWorkgroupByUUID d wg with
  | None => Err errNoSuchWorkgroup
  | Some _ =>
      if negb (existsb (fun s => String.eqb (sh_Name s) name) (Shares_ d)) then Err errNoSuchShare
      else if existsb (isConnection wg name) (Connections d) then mret d else mret (set_Connections (Connections d ++ [MkConnection wg name appKey]) d)
  end.
Definition RemoveConnection (wg name : string) (d : jsonData) : jsonData :=
  removePolicies (set_Connections (removeFirst (isConnection wg name) (Connections d)) d) (fun p => String.eqb (po_Workgroup p) wg && String.eqb (po_ShareName p) name).
Definition SetAppKey (wg name : string) (key : list Z) (d : jsonData) : jsonData :=
  set_Connections (updateFirst (isConnection wg name) (fun c => MkConnection (co_Workgroup c) (co_ShareName c) key) (Connections d)) d.
Definition offered (s sh : Share) : Share :=
  MkShare (Shares.Stored (sh_Name sh) (Shares.st_Type (sh_Offer sh)) (Shares.st_ServerName (sh_Offer s)) (Shares.st_Bucket (sh_Offer s)) (Shares.st_Remark (sh_Offer s))
    (Shares.st_AllowGuest (sh_Offer s)) (Shares.st_AllowAnonymous (sh_Offer s)) (Shares.st_PublicDir (sh_Offer s)))
    (sh_Password sh) (sh_CreatedAt sh) (sh_DataShards sh) (sh_ParityShards sh) (sh_SkipBackup s).
Definition UpdateShare (s : Share) (d : jsonData) : out jsonData :=
  if existsb (fun sh => String.eqb (sh_Name sh) (sh_Name s)) (Shares_ d)
  then mret (set_Shares (updateFirst (fun sh => String.eqb (sh_Name sh) (sh_Name s)) (offered s) (Shares_ d)) d) else Err ErrNotFound.

(** ** Updates

    [update] of the store: the data is changed and saved under the mutex ([update_begin]),
    then the server is told, which calls back into the store; if that fails, what was there
    before is put back under the mutex again ([update_fail]).  [update] is the whole of it
    with no other call in between; what other calls may do meanwhile is in [store_step].
    [saves] is whether each of the two saves comes off. *)
Record store := Store { data : jsonData; disk : jsonData }.
Definition update_begin (mutate : jsonData -> out jsonData) (saved : bool) (js : store) : out (store * jsonData) :=
  d ← mutate (data js); if saved then mret (Store d d, data js) else Err errSave.
Definition update_fail (snapshot : jsonData) (saved : bool) (js : store) : store := Store snapshot (if saved then snapshot else disk js).
(** A store as it is opened: [file] is what the directory has under the name of the store, if
    anything, and what it decodes to, if it does. *)
Definition opened (d : jsonData) : jsonData :=
  MkData (if NextWorkgroupID d <? 1 then 1 else NextWorkgroupID d) (if NextAccountID d <? 1 then 1 else NextAccountID d)
    (Shares_ d) (Workgroups d) (Accounts d) (Policies d) (Connections d) (Bans d).
Definition NewJSONStore (file : option (option jsonData)) (saved : bool) : out store :=
  match file with
  | None => if saved then mret (Store emptyData emptyData) else Err errSave
  | Some None => Err errDecode
  | Some (Some d) => mret (Store (opened d) d)
  end.
Record lite := Lite { js : store; running : Shares.shares }.
Definition telling := jsonData -> jsonData -> Shares.shares -> Shares.shares * bool.
Definition update (saves : bool * bool) (mutate : jsonData -> out jsonData) (notify : telling) (l : lite) : lite * option storeErr :=
  match update_begin mutate saves.1 (js l) with
  | Ok (s, snapshot) =>
      let '(w, told) := notify snapshot (data s) (running l) in
      if told then (Lite s w, None) else (Lite (update_fail snapshot saves.2 s) w, Some errNotify)
  | Err e => (l, Some e)
  | _ => (l, None)
  end.
Definition nobody : telling := fun _ _ w => (w, true).
Definition told (m : Shares.out Shares.shares) (w : Shares.shares) : Shares.shares * bool := match m with Ok w => (w, true) | _ => (w, false) end.
Definition named (a : jsonAccount) : Shares.account := Shares.Account (ac_Workgroup a) (ac_Username a).
Definition namedAll (wg : string) (d : jsonData) : option (list Shares.account) := match FindAccounts wg d with Ok l => Some (map named l) | _ => None end.
Fixpoint disconnect (wg : string) (accs : option (list Shares.account)) (names : list string) (w : Shares.shares) : Shares.shares * bool :=
  match names with
  | [] => (w, true)
  | n :: names => match Shares.RemoveConnection wg n accs w with Ok w => disconnect wg accs names w | _ => (w, false) end
  end.
Definition removeAll (accs : list jsonAccount) (w : Shares.shares) : Shares.shares := foldl (fun w a => Shares.RemoveAccess (named a) w) w accs.
(** [encrypts] and [compresses] are settings of the server. *)
Context (encrypts compresses : bool).
(** The share as the server registers it, with the rights the store has for it. *)
Definition regOf (offer : Shares.stored) (cl : Shares.clientId) (info : option string) (d : jsonData) : Shares.registration :=
  Shares.Reg offer cl info (Some (GetAccounts (Shares.st_Name offer) d)).
Definition rightsOf (wg name : string) (d : jsonData) : option (list (Shares.account * option Shares.rights)) :=
  match FindAccounts wg d with Ok l => Some (map (fun a => (named a, Some (GetAccessRights name (ac_ID a) d))) l) | _ => None end.
Inductive op :=
| OBanHost (host reason : string) | OUnbanHost (host : string) | OClearBans
| OAddAccount (u pw wg : string) | OEnsureAnonymous | ORemoveAccount (u wg : string) | ORemoveAccounts (wg : string)
| OAddWorkgroup (uuid name : string) (dirs : list PublicDir) | OUpdateWorkgroup (id : Z) (dirs : list PublicDir) | ORemoveWorkgroup (id : Z)
| OSetAccessRights (name : string) (ar : Shares.rights) | ORemoveAccessRights (name : string) (id : Z) | OClearAccessRights (a : jsonAccount)
| ORegisterShare (sh : Share) (cl : Shares.clientId) (info : option string) | OUnregisterShare (name : string) (closes : bool) | OUpdateShare (sh : Share) (cl : Shares.clientId)
| OAddConnection (uuid : string) (offer : Shares.stored) (key : list Z) (cl : Shares.clientId) (info : option string) | ORemoveConnection (uuid name : string) | OSetAppKey (uuid name : string) (key : list Z)
| OReach (name : string) (cl : Shares.clientId) (info : option string) | ORestart.
(** Each method of the store that changes something; the last two are a use of a share of the
    store, which has the server take it up where it has not, and the server started anew. *)
Definition js_BanHost (saves : bool * bool) (host reason : string) (l : lite) : lite * option storeErr :=
  update saves (fun d => mret (BanHost host reason d)) nobody l.
Definition js_UnbanHost (saves : bool * bool) (host : string) (l : lite) : lite * option storeErr :=
  update saves (fun d => mret (UnbanHost host d)) nobody l.
Definition js_ClearBans (saves : bool * bool) (l : lite) : lite * option storeErr :=
  update saves (fun d => mret (set_Bans [] d)) nobody l.
Definition js_AddAccount (saves : bool * bool) (u pw wg : string) (l : lite) : lite * option storeErr :=
  if IsAnonymousWorkgroup wg then (l, Some ErrReservedWorkgroup)
  else match parse wg with None => (l, Some errInvalidUUID) | Some _ => update saves (AddAccount u pw wg) nobody l end.
Definition js_EnsureAnonymous (saves : bool * bool) (l : lite) : lite * option storeErr :=
  update saves (fun d => mret (EnsureAnonymous d)) nobody l.
Definition js_RemoveAccount (saves : bool * bool) (u wg : string) (l : lite) : lite * option storeErr :=
  match parse wg with
  | None => (l, Some errInvalidUUID)
  | Some _ => update saves (fun d => mret (RemoveAccount u wg d)) (fun _ _ w => (Shares.RemoveAccess (Shares.Account wg u) w, true)) l
  end.
Definition js_RemoveAccounts (saves : bool * bool) (wg : string) (l : lite) : lite * option storeErr :=
  match parse wg with
  | None => (l, Some errInvalidUUID)
  | Some _ => update saves (fun d => mret (RemoveAccounts wg d)) (fun d0 _ w => (removeAll (accountsOf wg d0) w, true)) l
  end.
Definition js_AddWorkgroup (saves : bool * bool) (uuid name : string) (dirs : list PublicDir) (l : lite) : lite * option storeErr :=
  if String.eqb uuid Shares.AnonymousWorkgroup then (l, Some ErrReservedWorkgroup) else update saves (AddWorkgroup uuid name dirs) nobody l.
Definition js_UpdateWorkgroup (saves : bool * bool) (id : Z) (dirs : list PublicDir) (l : lite) : lite * option storeErr :=
  update saves (UpdateWorkgroup id dirs) nobody l.
Definition js_RemoveWorkgroup (saves : bool * bool) (id : Z) (l : lite) : lite * option storeErr :=
  update saves (fun d => mret (RemoveWorkgroup id d)) (fun d0 d w =>
    match GetWorkgroupByID id d0 with
    | None => (w, true)
    | Some wg =>
        let u := wg_UUID wg in
        let '(w, ok) := disconnect u (namedAll u d) (map co_ShareName (List.filter (fun c => String.eqb (co_Workgroup c) u) (Connections d0))) w in
        if ok then (removeAll (accountsOf u d0) w, true) else (w, false)
    end) l.
Definition js_SetAccessRights (saves : bool * bool) (name : string) (ar : Shares.rights) (l : lite) : lite * option storeErr :=
  update saves (SetAccessRights (bool_decide (is_Some (GetShare name (data (js l))))) name ar) (fun _ d w => told (Shares.UpdateAccessRights (GetAccountByID d) name ar w) w) l.
Definition js_RemoveAccessRights (saves : bool * bool) (name : string) (id : Z) (l : lite) : lite * option storeErr :=
  if String.eqb name "" then (l, None)
  else update saves (fun d => mret (RemoveAccessRights name id d)) (fun _ d w => told (Shares.UpdateAccessRights (GetAccountByID d) name (Shares.Rights id noAccess) w) w) l.
Definition js_ClearAccessRights (saves : bool * bool) (a : jsonAccount) (l : lite) : lite * option storeErr :=
  update saves (fun d => mret (ClearAccessRights (ac_ID a) d)) (fun _ _ w => (Shares.RemoveAccess (named a) w, true)) l.
Definition js_RegisterShare (saves : bool * bool) (sh : Share) (cl : Shares.clientId) (info : option string) (l : lite) : lite * option storeErr :=
  if negb (String.eqb (Shares.st_Type (sh_Offer sh)) "renterd") then (l, Some ErrLiteMode)
  else update saves (RegisterShare sh) (fun _ d w => told (Shares.RegisterShare (GetAccountByID d) encrypts compresses (regOf (sh_Offer sh) cl info d) w) w) l.
Definition js_UnregisterShare (saves : bool * bool) (name : string) (closes : bool) (l : lite) : lite * option storeErr :=
  match GetShare name (data (js l)) with
  | None => (l, None)
  | Some sh =>
      match Shares.RemoveShare (sh_Offer sh) closes (running l) with
      | Ok w => update saves (fun d => mret (UnregisterShare name d)) nobody (Lite (js l) w)
      | _ => (l, Some errNotify)
      end
  end.
Definition js_UpdateShare (saves : bool * bool) (sh : Share) (cl : Shares.clientId) (l : lite) : lite * option storeErr :=
  if String.eqb (sh_Name sh) "" then (l, None)
  else
    update saves (UpdateShare sh) (fun _ d w =>
      (match find (fun s => String.eqb (sh_Name s) (sh_Name sh)) (Shares_ d) with Some s => Shares.UpdateShare (sh_Offer s) cl w | None => w end, true)) l.
Definition js_AddConnection (saves : bool * bool) (uuid : string) (offer : Shares.stored) (key : list Z) (cl : Shares.clientId) (info : option string) (l : lite) : lite * option storeErr :=
  update saves (AddConnection uuid (Shares.st_Name offer) key) (fun _ d w =>
    let '(w, e) := Shares.AddConnection (GetAccountByID d) encrypts compresses uuid (regOf offer cl info d) (Shares.Start (inr Shares.errStore) (rightsOf uuid (Shares.st_Name offer) d)) w in
    (w, bool_decide (e = None))) l.
Definition js_RemoveConnection (saves : bool * bool) (uuid name : string) (l : lite) : lite * option storeErr :=
  update saves (fun d => mret (RemoveConnection uuid name d)) (fun _ d w => told (Shares.RemoveConnection uuid name (namedAll uuid d) w) w) l.
Definition js_SetAppKey (saves : bool * bool) (uuid name : string) (key : list Z) (l : lite) : lite * option storeErr :=
  update saves (fun d => mret (SetAppKey uuid name key d)) nobody l.
Definition ensureShare (saves : bool * bool) (name : string) (cl : Shares.clientId) (info : option string) (l : lite) : lite * option storeErr :=
  match GetShare name (data (js l)) with
  | None => (l, None)
  | Some sh => match Shares.ensureShare (GetAccountByID (data (js l))) encrypts compresses (regOf (sh_Offer sh) cl info (data (js l))) (running l) with
               | Ok (w, _) => (Lite (js l) w, None)
               | _ => (l, Some errNotify)
               end
  end.
Definition restart (saves : bool * bool) (l : lite) : lite * option storeErr :=
  match NewJSONStore (Some (Some (disk (js l)))) true with Ok s => (Lite s (Shares.Shares ∅ ∅), None) | _ => (l, Some errDecode) end.
Definition exec (saves : bool * bool) (o : op) (l : lite) : lite * option storeErr :=
  match o with
  | OBanHost host reason => js_BanHost saves host reason l
  | OUnbanHost host => js_UnbanHost saves host l
  | OClearBans => js_ClearBans saves l
  | OAddAccount u pw wg => js_AddAccount saves u pw wg l
  | OEnsureAnonymous => js_EnsureAnonymous saves l
  | ORemoveAccount u wg => js_RemoveAccount saves u wg l
  | ORemoveAccounts wg => js_RemoveAccounts saves wg l
  | OAddWorkgroup uuid name dirs => js_AddWorkgroup saves uuid name dirs l
  | OUpdateWorkgroup id dirs => js_UpdateWorkgroup saves id dirs l
  | ORemoveWorkgroup id => js_RemoveWorkgroup saves id l
  | OSetAccessRights name ar => js_SetAccessRights saves name ar l
  | ORemoveAccessRights name id => js_RemoveAccessRights saves name id l
  | OClearAccessRights a => js_ClearAccessRights saves a l
  | ORegisterShare sh cl info => js_RegisterShare saves sh cl info l
  | OUnregisterShare name closes => js_UnregisterShare saves name closes l
  | OUpdateShare sh cl => js_UpdateShare saves sh cl l
  | OAddConnection uuid offer key cl info => js_AddConnection saves uuid offer key cl info l
  | ORemoveConnection uuid name => js_RemoveConnection saves uuid name l
  | OSetAppKey uuid name key => js_SetAppKey saves uuid name key l
  | OReach name cl info => ensureShare saves name cl info l
  | ORestart => restart saves l
  end.
Ltac in_exec := cbn [exec]; unfold js_BanHost, js_UnbanHost, js_ClearBans, js_AddAccount, js_EnsureAnonymous, js_RemoveAccount, js_RemoveAccounts, js_AddWorkgroup, js_UpdateWorkgroup, js_RemoveWorkgroup, js_SetAccessRights, js_RemoveAccessRights, js_ClearAccessRights, js_RegisterShare, js_UnregisterShare, js_UpdateShare, js_AddConnection, js_RemoveConnection, js_SetAppKey, ensureShare, restart.

(** ** What the data is kept to

    Workgroups may be without a name, but no two are of one name. *)
Definition namesOf (l : list Workgroup) : list string := List.filter (fun n => negb (String.eqb n "")) (map wg_Name l).
#[local] Arguments namesOf : simpl never.
Lemma namesOf_snoc l w : namesOf (l ++ [w]) = namesOf l ++ (if String.eqb (wg_Name w) "" then [] else [wg_Name w]).
Proof. unfold namesOf. rewrite map_app, List.filter_app. cbn. by destruct (String.eqb (wg_Name w) ""). Qed.
Lemma elem_of_namesOf n l : n ∈ namesOf l <-> n <> ""%string /\ exists w, w ∈ l /\ wg_Name w = n.
Proof.
  unfold namesOf. rewrite list_elem_of_In, filter_In, <- list_elem_of_In, elem_of_keys, negb_true_iff, String.eqb_neq. split; intros [? ?]; by split.
Qed.
Lemma namesOf_removeFirst p l : NoDup (namesOf l) -> NoDup (namesOf (removeFirst p l)).
Proof.
  unfold namesOf. induction l as [|w l IH]; [done|]. cbn. destruct (String.eqb (wg_Name w) "") eqn:E, (p w); cbn; rewrite ?E; cbn; [done|done|by intros [_ H]%NoDup_cons|].
  intros [Hn H]%NoDup_cons. apply NoDup_cons. split; [|by apply IH]. contradict Hn. apply (elem_of_namesOf _ l). apply (elem_of_namesOf _ (removeFirst p l)) in Hn as (? & x & Hx & ?).
  split; [done|]. exists x. split; [by eapply elem_of_removeFirst|done].
Qed.
Record wf (d : jsonData) : Prop := {
  wf_uuids : NoDup (map wg_UUID (Workgroups d));
  wf_wgids : NoDup (map wg_ID (Workgroups d)) /\ forall w, w ∈ Workgroups d -> 0 < wg_ID w < NextWorkgroupID d;
  wf_ids : NoDup (map ac_ID (Accounts d)) /\ forall a, a ∈ Accounts d -> 0 < ac_ID a < NextAccountID d;
  wf_names : NoDup (map (fun a => (ac_Username a, ac_Workgroup a)) (Accounts d));
  wf_homes : forall a, a ∈ Accounts d -> ac_Workgroup a ∈ map wg_UUID (Workgroups d);
  wf_shares : NoDup (map sh_Name (Shares_ d));
  wf_conns : NoDup (map (fun c => (co_Workgroup c, co_ShareName c)) (Connections d)) /\
             forall c, c ∈ Connections d -> co_Workgroup c ∈ map wg_UUID (Workgroups d) /\ co_ShareName c ∈ map sh_Name (Shares_ d);
  wf_policies : NoDup (map (fun p => (po_ShareName p, po_AccountID p)) (Policies d)) /\
                forall p, p ∈ Policies d -> (po_AccountID p, po_Workgroup p) ∈ map (fun a => (ac_ID a, ac_Workgroup a)) (Accounts d) /\
                          (po_Workgroup p, po_ShareName p) ∈ map (fun c => (co_Workgroup c, co_ShareName c)) (Connections d);
  wf_next : 0 < NextWorkgroupID d /\ 0 < NextAccountID d;
  wf_wgnames : NoDup (namesOf (Workgroups d));
}.
Lemma wf_empty : wf emptyData.
Proof.
  assert (forall A (P : A -> Prop) a, a ∈ [] -> P a) as Hn by (by intros A P a ?%elem_of_nil).
  constructor; cbn; try split; try apply NoDup_nil_2; try lia; apply Hn.
Qed.
Lemma removePolicies_wf d p : wf d -> wf (removePolicies d p).
Proof.
  intros []. constructor; cbn; try assumption. destruct wf_policies0 as [H1 H2]. split; [by apply keys_without|]. intros x [Hx _]%elem_of_without. by apply H2.
Qed.
Lemma set_Bans_wf d l : wf d -> wf (set_Bans l d).
Proof. intros []. by constructor. Qed.
Lemma BanHost_wf h r d : wf d -> wf (BanHost h r d).
Proof. intros H. unfold BanHost. destruct (existsb _ _); [done|by apply set_Bans_wf]. Qed.
Lemma find_home d u w : findWorkgroupByUUID d u = Some w -> u ∈ map wg_UUID (Workgroups d).
Proof. intros [Hw E%String.eqb_eq]%find_found. apply elem_of_keys. eauto. Qed.
Lemma appendAccount_wf u hash wg d : wf d -> wg ∈ map wg_UUID (Workgroups d) -> existsb (isAccount u wg) (Accounts d) = false -> wf (appendAccount u hash wg d).
Proof.
  intros [] Hh Hn. pose proof (proj1 (existsb_false _ _) Hn) as Hnew. destruct wf_ids0 as [I1 I2], wf_next0 as [N1 N2], wf_policies0 as [P1 P2]. constructor; cbn; try assumption.
  - split; [apply keys_snoc; [done|]|].
    + cbn. rewrite elem_of_keys. intros (a & Ha & E). apply I2 in Ha. lia.
    + intros a [Ha|Ha]%elem_of_app; [apply I2 in Ha; lia|]. apply list_elem_of_singleton in Ha as ->. cbn. lia.
  - apply keys_snoc; [done|]. cbn. rewrite elem_of_keys. intros (a & Ha & E). apply isAccount_spec in E. by rewrite Hnew in E.
  - intros a [Ha|Ha]%elem_of_app; [by apply wf_homes0|]. by apply list_elem_of_singleton in Ha as ->.
  - split; [done|]. intros p Hp. destruct (P2 p Hp) as [H1 H2]. split; [|done]. rewrite map_app. apply elem_of_app. by left.
  - lia.
Qed.
Lemma AddAccount_wf u pw wg d d' : wf d -> AddAccount u pw wg d = Ok d' -> wf d'.
Proof.
  intros H E. unfold AddAccount in E. destruct (findWorkgroupByUUID d wg) as [w|] eqn:Ew; [|done]. destruct (existsb _ _) eqn:En; [done|]. injection E as <-.
  apply appendAccount_wf; [done|by eapply find_home|done].
Qed.
Lemma appendWorkgroup_wf uuid name dirs d : wf d -> uuid ∉ map wg_UUID (Workgroups d) -> (name = ""%string \/ forall w, w ∈ Workgroups d -> wg_Name w <> name) -> wf (appendWorkgroup uuid name dirs d).
Proof.
  intros [] Hn Hname. destruct wf_wgids0 as [I1 I2], wf_next0 as [N1 N2], wf_conns0 as [C1 C2].
  assert (forall u, u ∈ map wg_UUID (Workgroups d) -> u ∈ map wg_UUID (Workgroups (appendWorkgroup uuid name dirs d))) as Hin by (intros u Hu; cbn; rewrite map_app; apply elem_of_app; by left).
  constructor; cbn in *; try assumption.
  - by apply keys_snoc.
  - split; [apply keys_snoc; [done|]|].
    + cbn. rewrite elem_of_keys. intros (w & Hw & E). apply I2 in Hw. lia.
    + intros w [Hw|Hw]%elem_of_app; [apply I2 in Hw; lia|]. apply list_elem_of_singleton in Hw as ->. cbn. lia.
  - intros a Ha. by apply Hin, wf_homes0.
  - split; [done|]. intros c Hc. destruct (C2 c Hc). split; [by apply Hin|done].
  - lia.
  - rewrite namesOf_snoc. cbn. destruct (String.eqb_spec name "") as [|Hne]; [by rewrite app_nil_r|]. destruct Hname as [|Hname]; [done|]. apply NoDup_app. split; [done|]. split; [|apply NoDup_singleton].
    intros n (_ & w & Hw & E)%elem_of_namesOf ->%list_elem_of_singleton. by apply (Hname w).
Qed.
Lemma AddWorkgroup_wf uuid name dirs d d' : wf d -> AddWorkgroup uuid name dirs d = Ok d' -> wf d'.
Proof.
  intros H E. unfold AddWorkgroup in E. cbv zeta in E. destruct (find _ _) as [w|] eqn:Ef; [by destruct (String.eqb (wg_UUID w) uuid)|]. injection E as <-. pose proof (fun w Hw => proj1 (orb_false_iff _ _) (proj1 (find_absent _ _) Ef w Hw)) as Hf. apply appendWorkgroup_wf; [done| |].
  - rewrite elem_of_keys. intros (w & Hw & E). destruct (Hf w Hw) as [H1 _]. by rewrite E, String.eqb_refl in H1.
  - destruct (String.eqb_spec (toLower name) "") as [|Hne]; [by left|]. right. intros w Hw E. destruct (Hf w Hw) as [_ H2]. by rewrite E, String.eqb_refl in H2.
Qed.
Lemma EnsureAnonymous_wf d : wf d -> wf (EnsureAnonymous d).
Proof.
  intros H. unfold EnsureAnonymous. cbv zeta. set (d1 := if existsb (fun w => String.eqb (wg_UUID w) Shares.AnonymousWorkgroup) (Workgroups d) then d else _).
  assert (wf d1 /\ Shares.AnonymousWorkgroup ∈ map wg_UUID (Workgroups d1)) as [H1 H2].
  { subst d1. destruct (existsb _ (Workgroups d)) eqn:E.
    - split; [done|]. apply existsb_true in E as (w & Hw & E%String.eqb_eq). apply elem_of_keys. eauto.
    - split; [apply appendWorkgroup_wf; [done| |by left]|cbn; rewrite map_app; apply elem_of_app; right; apply list_elem_of_here].
      rewrite elem_of_keys. intros (w & Hw & Eu). pose proof (proj1 (existsb_false _ _) E w Hw) as Hf. cbv beta in Hf. by rewrite Eu, String.eqb_refl in Hf. }
  destruct (existsb _ (Accounts d1)) eqn:E; [done|by apply appendAccount_wf].
Qed.
(** Accounts that go take their policies along. *)
Lemma set_Accounts_wf d l p : wf d -> (forall A (f : jsonAccount -> A), NoDup (map f (Accounts d)) -> NoDup (map f l)) -> (forall a, a ∈ l -> a ∈ Accounts d) ->
  (forall a q, a ∈ Accounts d -> q ∈ Policies d -> (ac_ID a, ac_Workgroup a) = (po_AccountID q, po_Workgroup q) -> p q = false -> a ∈ l) -> wf (removePolicies (set_Accounts l d) p).
Proof.
  intros [] Hnd Hsub Hkeep. destruct wf_ids0 as [I1 I2], wf_policies0 as [P1 P2]. constructor; cbn; try assumption.
  - split; [by apply Hnd|]. intros a Ha. by apply I2, Hsub.
  - by apply Hnd.
  - intros a Ha. by apply wf_homes0, Hsub.
  - split; [by apply keys_without|]. intros q [Hq Hp]%elem_of_without. destruct (P2 q Hq) as [H1 H2]. split; [|done]. apply elem_of_keys in H1 as (a & Ha & E). apply elem_of_keys. exists a. split; [by eapply Hkeep|done].
Qed.
Lemma RemoveAccount_wf u wg d : wf d -> wf (RemoveAccount u wg d).
Proof.
  intros H. unfold RemoveAccount. destruct (find _ _) as [a|] eqn:Ef; [|done]. apply find_found in Ef as [Ha Hu]. apply set_Accounts_wf; [done| | |].
  - intros A f. apply keys_removeFirst.
  - intros b. apply elem_of_removeFirst.
  - intros b q Hb Hq [= Eid Ewg] Hp. apply removeFirst_keeps; [done|]. destruct (isAccount u wg b) eqn:E; [|done]. exfalso. apply isAccount_spec in E, Hu.
    assert (b = a) as -> by (eapply (keys_unique _ _ _ _ (wf_names _ H)); [done|done|congruence]). rewrite Eid in Hp. by rewrite Z.eqb_refl in Hp.
Qed.
Lemma RemoveAccounts_wf wg d : wf d -> wf (RemoveAccounts wg d).
Proof.
  intros H. unfold RemoveAccounts. apply set_Accounts_wf; [done| | |].
  - intros A f. apply keys_without.
  - intros b [Hb _]%elem_of_without. done.
  - intros b q Hb Hq [= Eid Ewg] Hp. apply elem_of_without. split; [done|]. destruct (String.eqb (ac_Workgroup b) wg) eqn:E; [|done]. exfalso.
    pose proof (proj1 (existsb_false _ _) Hp b) as Hf. cbv beta in Hf. rewrite Eid, Z.eqb_refl in Hf. assert (true = false); [apply Hf|done]. apply list_elem_of_In, filter_In. split; [by apply list_elem_of_In|done].
Qed.
Lemma UpdateWorkgroup_wf id dirs d d' : wf d -> UpdateWorkgroup id dirs d = Ok d' -> wf d'.
Proof.
  intros [] E. unfold UpdateWorkgroup in E. destruct (existsb _ _); [|done]. injection E as <-.
  set (f := fun w => MkWorkgroup (wg_ID w) (wg_UUID w) (wg_Name w) (normalizePublicDirs dirs)).
  assert (map wg_UUID (updateFirst (fun w => wg_ID w =? id) f (Workgroups d)) = map wg_UUID (Workgroups d)) as Eu by (by apply keys_updateFirst).
  assert (map wg_ID (updateFirst (fun w => wg_ID w =? id) f (Workgroups d)) = map wg_ID (Workgroups d)) as Ei by (by apply keys_updateFirst).
  assert (namesOf (updateFirst (fun w => wg_ID w =? id) f (Workgroups d)) = namesOf (Workgroups d)) as En by (unfold namesOf; f_equal; by apply keys_updateFirst).
  constructor; cbn; rewrite ?Eu, ?Ei, ?En; try assumption. destruct wf_wgids0 as [I1 I2]. split; [done|]. intros w [Hw|(b & Hb & _ & ->)]%elem_of_updateFirst; [by apply I2|by apply (I2 b)].
Qed.
Lemma RemoveWorkgroup_wf id d : wf d -> wf (RemoveWorkgroup id d).
Proof.
  intros H. unfold RemoveWorkgroup. destruct (GetWorkgroupByID id d) as [w|] eqn:Eg; [|done]. apply find_found in Eg as [Hw Hid]. cbv zeta. destruct H.
  destruct wf_wgids0 as [W1 W2], wf_ids0 as [I1 I2], wf_conns0 as [C1 C2], wf_policies0 as [P1 P2]. cbv beta in Hid. apply Z.eqb_eq in Hid.
  assert (forall u, u ∈ map wg_UUID (Workgroups d) -> u <> wg_UUID w -> u ∈ map wg_UUID (removeFirst (fun w => wg_ID w =? id) (Workgroups d))) as Hstay.
  { intros u (x & Hx & Eu)%elem_of_keys Hne. apply elem_of_keys. exists x. split; [|done]. apply removeFirst_keeps; [done|]. apply Z.eqb_neq. intros Ex. apply Hne.
    assert (x = w) as -> by (eapply (keys_unique _ _ _ _ W1); [done|done|congruence]). done. }
  constructor; cbn; try assumption.
  - by apply keys_removeFirst.
  - split; [by apply keys_removeFirst|]. intros x Hx. by apply W2, (elem_of_removeFirst _ _ _ Hx).
  - split; [by apply keys_without|]. intros a [Ha _]%elem_of_without. by apply I2.
  - by apply keys_without.
  - intros a [Ha Hne%String.eqb_neq]%elem_of_without. apply Hstay; [by apply wf_homes0|done].
  - split; [by apply keys_without|]. intros c [Hc Hne%String.eqb_neq]%elem_of_without. destruct (C2 c Hc). split; [by apply Hstay|done].
  - split; [by apply keys_without|]. intros p [Hp Hne%String.eqb_neq]%elem_of_without. destruct (P2 p Hp) as [H1 H2]. split.
    + apply elem_of_keys in H1 as (a & Ha & [= E1 E2]). apply elem_of_keys. exists a. split; [|congruence]. apply elem_of_without. split; [done|]. apply String.eqb_neq. congruence.
    + apply elem_of_keys in H2 as (c & Hc & [= E1 E2]). apply elem_of_keys. exists c. split; [|congruence]. apply elem_of_without. split; [done|]. apply String.eqb_neq. congruence.
  - by apply namesOf_removeFirst.
Qed.
Lemma accountByID_Some d id a : accountByID d id = Some a -> a ∈ Accounts d /\ ac_ID a = id.
Proof. intros [Ha E%Z.eqb_eq]%find_found. done. Qed.
Lemma SetAccessRights_wf found name ar d d' : wf d -> SetAccessRights found name ar d = Ok d' -> wf d'.
Proof.
  intros H E. unfold SetAccessRights in E. destruct (negb found); [done|]. cbv zeta in E. destruct (accountByID d (Shares.ar_AccountID ar)) as [a|] eqn:Ea; [|done].
  destruct (String.eqb_spec (ac_Workgroup a) ""); [done|]. destruct (existsb (isConnection _ _) _) eqn:Ec; [|done]. cbn [negb] in E. injection E as <-.
  apply accountByID_Some in Ea as [Ha Eid]. apply existsb_true in Ec as (c & Hc & Ec%isConnection_spec). destruct H. destruct wf_policies0 as [P1 P2].
  set (p := MkPolicy name (Shares.ar_AccountID ar) (ac_Workgroup a) (Shares.ar_access ar)).
  assert ((po_AccountID p, po_Workgroup p) ∈ map (fun a => (ac_ID a, ac_Workgroup a)) (Accounts d) /\ (po_Workgroup p, po_ShareName p) ∈ map (fun c => (co_Workgroup c, co_ShareName c)) (Connections d)) as Hp.
  { split; apply elem_of_keys; [exists a|exists c]; (split; [done|]); cbn; congruence. }
  constructor; cbn; try assumption. destruct (existsb (isPolicy _ _) _) eqn:Ep.
  - split.
    + rewrite keys_updateFirst; [done|]. intros q Hq. apply isPolicy_spec in Hq. cbn. congruence.
    + intros q [Hq|(b & Hb & _ & ->)]%elem_of_updateFirst; [by apply P2|done].
  - split.
    + apply keys_snoc; [done|]. cbn. rewrite elem_of_keys. intros (q & Hq & Eq). apply isPolicy_spec in Eq. pose proof (proj1 (existsb_false _ _) Ep q Hq). congruence.
    + intros q [Hq|Hq]%elem_of_app; [by apply P2|]. by apply list_elem_of_singleton in Hq as ->.
Qed.
Lemma RegisterShare_wf sh d d' : wf d -> RegisterShare sh d = Ok d' -> wf d'.
Proof.
  intros [] E. unfold RegisterShare in E. destruct (existsb _ _) eqn:En; [done|]. injection E as <-. destruct wf_conns0 as [C1 C2]. constructor; cbn; try assumption.
  - apply keys_snoc; [done|]. rewrite elem_of_keys. intros (s & Hs & Es). pose proof (proj1 (existsb_false _ _) En s Hs) as Hf. cbv beta in Hf. by rewrite Es, String.eqb_refl in Hf.
  - split; [done|]. intros c Hc. destruct (C2 c Hc). split; [done|]. rewrite map_app. apply elem_of_app. by left.
Qed.
Lemma UnregisterShare_wf name d : wf d -> wf (UnregisterShare name d).
Proof.
  intros []. destruct wf_conns0 as [C1 C2], wf_policies0 as [P1 P2]. constructor; cbn; try assumption.
  - by apply keys_removeFirst.
  - split; [by apply keys_without|]. intros c [Hc Hne%String.eqb_neq]%elem_of_without. destruct (C2 c Hc) as [H1 H2]. split; [done|].
    apply elem_of_keys in H2 as (s & Hs & E). apply elem_of_keys. exists s. split; [|done]. apply removeFirst_keeps; [done|]. apply String.eqb_neq. congruence.
  - split; [by apply keys_without|]. intros p [Hp Hne%String.eqb_neq]%elem_of_without. destruct (P2 p Hp) as [H1 H2]. split; [done|].
    apply elem_of_keys in H2 as (c & Hc & [= E1 E2]). apply elem_of_keys. exists c. split; [|congruence]. apply elem_of_without. split; [done|]. apply String.eqb_neq. congruence.
Qed.
Lemma AddConnection_wf wg name key d d' : wf d -> AddConnection wg name key d = Ok d' -> wf d'.
Proof.
  intros H E. unfold AddConnection in E. destruct (findWorkgroupByUUID d wg) as [w|] eqn:Ew; [|done]. destruct (existsb _ (Shares_ d)) eqn:Es; [|done]. cbn [negb] in E.
  destruct (existsb (isConnection _ _) _) eqn:Ec; injection E as <-; [done|]. apply find_home in Ew. apply existsb_true in Es as (s & Hs & Es%String.eqb_eq).
  destruct H. destruct wf_conns0 as [C1 C2], wf_policies0 as [P1 P2]. constructor; cbn; try assumption.
  - split.
    + apply keys_snoc; [done|]. cbn. rewrite elem_of_keys. intros (c & Hc & Eq). apply isConnection_spec in Eq. pose proof (proj1 (existsb_false _ _) Ec c Hc). congruence.
    + intros c [Hc|Hc]%elem_of_app; [by apply C2|]. apply list_elem_of_singleton in Hc as ->. cbn. split; [done|]. apply elem_of_keys. eauto.
  - split; [done|]. intros p Hp. destruct (P2 p Hp). split; [done|]. rewrite map_app. apply elem_of_app. by left.
Qed.
Lemma RemoveConnection_wf wg name d : wf d -> wf (RemoveConnection wg name d).
Proof.
  intros []. destruct wf_conns0 as [C1 C2], wf_policies0 as [P1 P2]. constructor; cbn; try assumption.
  - split; [by apply keys_removeFirst|]. intros c Hc. by apply C2, (elem_of_removeFirst _ _ _ Hc).
  - split; [by apply keys_without|]. intros p [Hp Hne]%elem_of_without. destruct (P2 p Hp) as [H1 H2]. split; [done|].
    apply elem_of_keys in H2 as (c & Hc & [= E1 E2]). apply elem_of_keys. exists c. split; [|congruence]. apply removeFirst_keeps; [done|]. unfold isConnection. by rewrite E1, E2.
Qed.
Lemma SetAppKey_wf wg name key d : wf d -> wf (SetAppKey wg name key d).
Proof.
  intros []. destruct wf_conns0 as [C1 C2]. unfold SetAppKey. set (f := fun c => MkConnection (co_Workgroup c) (co_ShareName c) key).
  assert (map (fun c => (co_Workgroup c, co_ShareName c)) (updateFirst (isConnection wg name) f (Connections d)) = map (fun c => (co_Workgroup c, co_ShareName c)) (Connections d)) as E by (by apply keys_updateFirst).
  constructor; cbn; rewrite ?E; try assumption. split; [done|]. intros c [Hc|(b & Hb & _ & ->)]%elem_of_updateFirst; [by apply C2|by apply (C2 b)].
Qed.
Lemma UpdateShare_wf s d d' : wf d -> UpdateShare s d = Ok d' -> wf d'.
Proof.
  intros [] E. unfold UpdateShare in E. destruct (existsb _ _); [|done]. injection E as <-.
  assert (map sh_Name (updateFirst (fun sh => String.eqb (sh_Name sh) (sh_Name s)) (offered s) (Shares_ d)) = map sh_Name (Shares_ d)) as Es by (by apply keys_updateFirst).
  constructor; cbn; rewrite ?Es; assumption.
Qed.

Lemma opened_same d : wf d -> opened d = d.
Proof. intros H. destruct (wf_next _ H). unfold opened. destruct (Z.ltb_spec (NextWorkgroupID d) 1), (Z.ltb_spec (NextAccountID d) 1); try lia. by destruct d. Qed.
(** ** Every change keeps the data in order *)
Definition inOrder (l : lite) : Prop := wf (data (js l)) /\ wf (disk (js l)).
Lemma update_inOrder saves mutate notify l : (forall d d', wf d -> mutate d = Ok d' -> wf d') -> inOrder l -> inOrder (fst (update saves mutate notify l)).
Proof.
  intros Hm [Hd Hk]. unfold update, update_begin. destruct (mutate (data (js l))) as [d|e| |] eqn:E; cbn; [|done..]. pose proof (Hm _ _ Hd E) as Hd'.
  destruct saves.1; cbn; [|done]. destruct (notify _ _ _) as [w ok]. destruct ok; cbn; [done|]. by destruct saves.2.
Qed.
Lemma total_inOrder saves (f : jsonData -> jsonData) notify l : (forall d, wf d -> wf (f d)) -> inOrder l -> inOrder (fst (update saves (fun d => mret (f d)) notify l)).
Proof. intros Hf. apply update_inOrder. intros d d' H [= <-]. by apply Hf. Qed.
Lemma exec_inOrder saves o l : inOrder l -> inOrder (fst (exec saves o l)).
Proof.
  intros H. destruct o; in_exec; repeat (case_match; try exact H); try (apply total_inOrder; [|exact H]).
  - intros d. apply BanHost_wf.
  - intros d. apply set_Bans_wf.
  - intros d. apply set_Bans_wf.
  - apply update_inOrder; [|exact H]. intros d d'. apply AddAccount_wf.
  - apply EnsureAnonymous_wf.
  - intros d. apply RemoveAccount_wf.
  - intros d. apply RemoveAccounts_wf.
  - apply update_inOrder; [|exact H]. intros d d'. apply AddWorkgroup_wf.
  - apply update_inOrder; [|exact H]. intros d d'. apply UpdateWorkgroup_wf.
  - intros d. apply RemoveWorkgroup_wf.
  - apply update_inOrder; [|exact H]. intros d d'. apply SetAccessRights_wf.
  - intros d Hd. by apply removePolicies_wf.
  - intros d Hd. by apply removePolicies_wf.
  - apply update_inOrder; [|exact H]. intros d d'. apply RegisterShare_wf.
  - intros d. apply UnregisterShare_wf.
  - apply update_inOrder; [|exact H]. intros d d'. apply UpdateShare_wf.
  - apply update_inOrder; [|exact H]. intros d d'. apply AddConnection_wf.
  - intros d. apply RemoveConnection_wf.
  - intros d. apply SetAppKey_wf.
  - match goal with E : _ = Ok _ |- _ => injection E as <- end. destruct H as [_ H]. split; cbn; [by rewrite opened_same|done].
Qed.
Fixpoint play (ops : list ((bool * bool) * op)) (l : lite) : lite := match ops with [] => l | (saves, o) :: ops => play ops (fst (exec saves o l)) end.
(** ** Calls that overlap

    [update] lets go of the mutex while the server is told, and takes it again to put back
    what was there: other calls may come in between.  [mutation] is the change a method
    hands to [update], where it gets so far; [found] is whether the share was there when it
    was looked up, under a hold of the mutex of its own. *)
Definition mutation (found : bool) (o : op) : option (jsonData -> out jsonData) :=
  match o with
  | OBanHost host reason => Some (fun d => mret (BanHost host reason d))
  | OUnbanHost host => Some (fun d => mret (UnbanHost host d))
  | OClearBans => Some (fun d => mret (set_Bans [] d))
  | OAddAccount u pw wg => if IsAnonymousWorkgroup wg then None else match parse wg with None => None | Some _ => Some (AddAccount u pw wg) end
  | OEnsureAnonymous => Some (fun d => mret (EnsureAnonymous d))
  | ORemoveAccount u wg => match parse wg with None => None | Some _ => Some (fun d => mret (RemoveAccount u wg d)) end
  | ORemoveAccounts wg => match parse wg with None => None | Some _ => Some (fun d => mret (RemoveAccounts wg d)) end
  | OAddWorkgroup uuid name dirs => if String.eqb uuid Shares.AnonymousWorkgroup then None else Some (AddWorkgroup uuid name dirs)
  | OUpdateWorkgroup id dirs => Some (UpdateWorkgroup id dirs)
  | ORemoveWorkgroup id => Some (fun d => mret (RemoveWorkgroup id d))
  | OSetAccessRights name ar => Some (SetAccessRights found name ar)
  | ORemoveAccessRights name id => if String.eqb name "" then None else Some (fun d => mret (RemoveAccessRights name id d))
  | OClearAccessRights a => Some (fun d => mret (ClearAccessRights (ac_ID a) d))
  | ORegisterShare sh _ _ => if negb (String.eqb (Shares.st_Type (sh_Offer sh)) "renterd") then None else Some (RegisterShare sh)
  | OUnregisterShare name _ => if found then Some (fun d => mret (UnregisterShare name d)) else None
  | OUpdateShare sh _ => if String.eqb (sh_Name sh) "" then None else Some (UpdateShare sh)
  | OAddConnection uuid offer key _ _ => Some (AddConnection uuid (Shares.st_Name offer) key)
  | ORemoveConnection uuid name => Some (fun d => mret (RemoveConnection uuid name d))
  | OSetAppKey uuid name key => Some (fun d => mret (SetAppKey uuid name key d))
  | OReach _ _ _ | ORestart => None
  end.
(** The store, and what each call that is telling the server would put back. *)
Record calls := Calls { c_store : store; c_before : list jsonData }.
Inductive store_step : calls -> calls -> Prop :=
| step_change found o m saved st st' before l :
    mutation found o = Some m -> update_begin m saved st = Ok (st', before) -> store_step (Calls st l) (Calls st' (before :: l))
| step_told st l1 before l2 : store_step (Calls st (l1 ++ before :: l2)) (Calls st (l1 ++ l2))
| step_put_back saved st l1 before l2 : store_step (Calls st (l1 ++ before :: l2)) (Calls (update_fail before saved st) (l1 ++ l2))
| step_restart st st' l : NewJSONStore (Some (Some (disk st))) true = Ok st' -> store_step (Calls st l) (Calls st' []).
Lemma mutation_wf found o m d d' : mutation found o = Some m -> wf d -> m d = Ok d' -> wf d'.
Proof.
  intros Hm Hd Hd'. destruct o; cbn [mutation] in Hm; repeat (case_match; try discriminate Hm); try discriminate Hm; injection Hm as <-; try (injection Hd' as <-).
  - by apply BanHost_wf.
  - by apply set_Bans_wf.
  - by apply set_Bans_wf.
  - by eapply AddAccount_wf.
  - by apply EnsureAnonymous_wf.
  - by apply RemoveAccount_wf.
  - by apply RemoveAccounts_wf.
  - by eapply AddWorkgroup_wf.
  - by eapply UpdateWorkgroup_wf.
  - by apply RemoveWorkgroup_wf.
  - by eapply SetAccessRights_wf.
  - by apply removePolicies_wf.
  - by apply removePolicies_wf.
  - by eapply RegisterShare_wf.
  - by apply UnregisterShare_wf.
  - by eapply UpdateShare_wf.
  - by eapply AddConnection_wf.
  - by apply RemoveConnection_wf.
  - by apply SetAppKey_wf.
Qed.
(** A call left to itself is a run of these steps. *)
Lemma update_runs found o m saves notify l : mutation found o = Some m ->
  rtc store_step (Calls (js l) []) (Calls (js (fst (update saves m notify l))) []).
Proof.
  intros Hm. unfold update. destruct (update_begin m saves.1 (js l)) as [[st before]|e| |] eqn:E; [|done..]. eapply rtc_l; [by eapply step_change|].
  destruct (notify before (data st) (running l)) as [w ok]. destruct ok; apply rtc_once; [apply (step_told _ [] before [])|apply (step_put_back saves.2 _ [] before [])].
Qed.
Lemma exec_runs saves o l : rtc store_step (Calls (js l) []) (Calls (js (fst (exec saves o l))) []).
Proof.
  destruct o eqn:Eo; in_exec; repeat (case_match; try done);
    first [apply (update_runs true o); subst o; cbn [mutation]; repeat case_match; congruence
    |eapply (update_runs _ o); subst o; reflexivity
    |apply (update_runs true o _ saves nobody (Lite (js l) _)); subst o; reflexivity
    |apply rtc_once; by eapply step_restart].
Qed.
Definition calls_ok (c : calls) : Prop := wf (data (c_store c)) /\ wf (disk (c_store c)) /\ Forall wf (c_before c).
Lemma store_step_ok c c' : store_step c c' -> calls_ok c -> calls_ok c'.
Proof.
  intros [found o m saved st st' before l Hm Hu|st l1 before l2|saved st l1 before l2|st st' l Hn] (H1 & H2 & H3); unfold calls_ok; cbn [c_store c_before] in *.
  - unfold update_begin in Hu. destruct (m (data st)) as [d| | |] eqn:E; [|done..]. cbn in Hu. destruct saved; [|done]. injection Hu as <- <-. pose proof (mutation_wf _ _ _ _ _ Hm H1 E). split_and!; [done..|]. by constructor.
  - apply Forall_app in H3 as [H3 [_ H4]%Forall_cons]. split_and!; [done..|]. by apply Forall_app.
  - apply Forall_app in H3 as [H3 [H5 H4]%Forall_cons]. split_and!; [done|cbn; by destruct saved|by apply Forall_app].
  - injection Hn as <-. cbn. rewrite opened_same by done. split_and!; [done..|constructor].
Qed.
Definition calls_init (c : calls) : Prop := wf (data (c_store c)) /\ wf (disk (c_store c)) /\ c_before c = [].
(** C22: The data of the store stays in order, in memory and on disk, whatever is asked of it
    and however the calls overlap, saves that fail, changes that are put back while others
    are under way, and restarts included: numbers and names are of one workgroup, account
    and share each, an account is of a workgroup there is, a connection between a workgroup
    and a share there are, and a policy of an account over a connection of its workgroup. *)
Theorem store_stays_in_order (c : calls) : reachable calls_init store_step c -> wf (data (c_store c)) /\ wf (disk (c_store c)).
Proof.
  intros Hr. enough (calls_ok c) as (? & ? & _) by done. revert c Hr. apply invariant_reachable.
  - intros c (? & ? & E). split_and!; [done..|]. by rewrite E.
  - intros c c' _ H Hs. by eapply store_step_ok.
Qed.

(** ** The access the data gives *)
Definition accessOf (d : jsonData) (nm wg u : string) : Z :=
  match find (isAccount u wg) (Accounts d) with
  | Some a => match find (isPolicy nm (ac_ID a)) (Policies d) with Some p => FlagsFromAccessRights (po_access p) | None => 0 end
  | None => 0
  end.
Definition holds (d : jsonData) (nm wg u : string) (p : jsonPolicy) : Prop :=
  p ∈ Policies d /\ po_ShareName p = nm /\ exists a, a ∈ Accounts d /\ ac_ID a = po_AccountID p /\ (ac_Username a, ac_Workgroup a) = (u, wg).
Lemma find_account d u wg a : wf d -> a ∈ Accounts d -> (ac_Username a, ac_Workgroup a) = (u, wg) -> find (isAccount u wg) (Accounts d) = Some a.
Proof.
  intros H Ha E. destruct (find _ _) as [b|] eqn:Ef.
  - apply find_found in Ef as [Hb Eb%isAccount_spec]. f_equal. eapply (keys_unique _ _ _ _ (wf_names _ H)); [done|done|congruence].
  - pose proof (proj1 (find_absent _ _) Ef a Ha) as Hf. apply isAccount_spec in E. congruence.
Qed.
Lemma find_policy d nm id p : wf d -> p ∈ Policies d -> (po_ShareName p, po_AccountID p) = (nm, id) -> find (isPolicy nm id) (Policies d) = Some p.
Proof.
  intros H Hp E. destruct (find _ _) as [q|] eqn:Ef.
  - apply find_found in Ef as [Hq Eq%isPolicy_spec]. f_equal. eapply (keys_unique _ _ _ _ (proj1 (wf_policies _ H))); [done|done|congruence].
  - pose proof (proj1 (find_absent _ _) Ef p Hp) as Hf. apply isPolicy_spec in E. congruence.
Qed.
Lemma accountByID_found d a : wf d -> a ∈ Accounts d -> accountByID d (ac_ID a) = Some a.
Proof.
  intros H Ha. unfold accountByID. destruct (find _ _) as [b|] eqn:Ef.
  - apply find_found in Ef as [Hb Eb%Z.eqb_eq]. f_equal. by eapply (keys_unique _ _ _ _ (proj1 (wf_ids _ H))).
  - pose proof (proj1 (find_absent _ _) Ef a Ha) as Hf. cbv beta in Hf. by rewrite Z.eqb_refl in Hf.
Qed.
Lemma accessOf_holds d nm wg u p : wf d -> holds d nm wg u p -> accessOf d nm wg u = FlagsFromAccessRights (po_access p).
Proof. intros H (Hp & Hn & a & Ha & Eid & E). unfold accessOf. rewrite (find_account d u wg a) by done. by rewrite (find_policy d nm (ac_ID a) p) by congruence. Qed.
Lemma accessOf_none d nm wg u : (forall p, ~ holds d nm wg u p) -> accessOf d nm wg u = 0.
Proof.
  intros H. unfold accessOf. destruct (find _ (Accounts d)) as [a|] eqn:Ea; [|done]. apply find_found in Ea as [Ha Ea%isAccount_spec].
  destruct (find _ (Policies d)) as [p|] eqn:Ep; [|done]. apply find_found in Ep as [Hp [= E1 E2]%isPolicy_spec]. exfalso. apply (H p). split; [done|]. split; [done|]. exists a. split_and!; congruence.
Qed.
Lemma holds_dec d nm wg u : (exists p, holds d nm wg u p) \/ (forall p, ~ holds d nm wg u p).
Proof.
  destruct (existsb (fun p => String.eqb (po_ShareName p) nm && existsb (fun a => (ac_ID a =? po_AccountID p) && isAccount u wg a) (Accounts d)) (Policies d)) eqn:E.
  - left. apply existsb_true in E as (p & Hp & [E1%String.eqb_eq (a & Ha & [E2%Z.eqb_eq E3%isAccount_spec]%andb_true_iff)%existsb_true]%andb_true_iff). exists p. split; [done|]. split; [done|]. by exists a.
  - right. intros p (Hp & Hn & a & Ha & Eid & Ea). pose proof (proj1 (existsb_false _ _) E p Hp) as Hf. cbv beta in Hf. rewrite Hn, String.eqb_refl in Hf. simpl in Hf.
    pose proof (proj1 (existsb_false _ _) Hf a Ha) as Hf2. cbv beta in Hf2. apply isAccount_spec in Ea. by rewrite Eid, Z.eqb_refl, Ea in Hf2.
Qed.
Lemma accessOf_same d d' nm wg u : wf d -> wf d' -> (forall p, holds d nm wg u p <-> holds d' nm wg u p) -> accessOf d' nm wg u = accessOf d nm wg u.
Proof.
  intros H H' Hiff. destruct (holds_dec d nm wg u) as [[p Hp]|Hn].
  { rewrite (accessOf_holds d _ _ _ p) by done. apply accessOf_holds; [done|by apply Hiff]. }
  rewrite (accessOf_none d), (accessOf_none d'); [done| |done]. intros p Hp. apply (Hn p). by apply Hiff.
Qed.
(** Where the accounts and the policies stay as they were, or an account without policies
    comes, nothing changes. *)
Lemma accessOf_quiet d d' nm wg u : wf d -> wf d' -> Policies d' = Policies d -> (forall a, a ∈ Accounts d -> a ∈ Accounts d') -> accessOf d' nm wg u = accessOf d nm wg u.
Proof.
  intros H H' Ep Ha. apply accessOf_same; [done|done|]. intros p. unfold holds. rewrite Ep. split.
  - intros (Hp & Hn & a & Hain & E). split; [done|]. split; [done|]. exists a. split; [by apply Ha|done].
  - intros (Hp & Hn & a & Hain & Eid & E). split; [done|]. split; [done|]. exists a. split; [|done].
    destruct (proj2 (wf_policies _ H) p Hp) as [Hk _]. apply elem_of_keys in Hk as (b & Hb & [= E1 E2]).
    assert (b = a) as <- by (eapply (keys_unique _ _ _ _ (proj1 (wf_ids _ H'))); [by apply Ha|done|congruence]). done.
Qed.
Lemma accessOf_RemoveAccounts d nm wg u wg0 : wf d -> accessOf (RemoveAccounts wg0 d) nm wg u = if decide (wg = wg0) then 0 else accessOf d nm wg u.
Proof.
  intros H. pose proof (RemoveAccounts_wf wg0 d H) as H'. destruct (decide (wg = wg0)) as [->|Hne].
  - apply accessOf_none. intros p (_ & _ & a & [_ Ha%String.eqb_neq]%elem_of_without & _ & [= _ E]). done.
  - apply accessOf_same; [done|done|]. intros p. unfold holds. cbn. split.
    + intros (Hp & Hn & a & Ha & Eid & [= Eu Ew]). split_and!; [|done|exists a; split_and!; [apply elem_of_without; split; [done|]; apply String.eqb_neq; congruence|done|congruence]].
      apply elem_of_without. split; [done|]. apply existsb_false. intros b [Hb Eb%String.eqb_eq]%list_elem_of_In%filter_In. apply Z.eqb_neq. intros E. apply list_elem_of_In in Hb.
      assert (a = b) as <- by (eapply (keys_unique _ _ _ _ (proj1 (wf_ids _ H))); [done|done|congruence]). congruence.
    + intros ([Hp _]%elem_of_without & Hn & a & [Ha _]%elem_of_without & E). eauto.
Qed.
Lemma accessOf_RemoveAccount d nm wg u wg0 u0 : wf d -> accessOf (RemoveAccount u0 wg0 d) nm wg u = if decide ((wg, u) = (wg0, u0)) then 0 else accessOf d nm wg u.
Proof.
  intros H. pose proof (RemoveAccount_wf u0 wg0 d H) as H'. unfold RemoveAccount in *. destruct (find _ _) as [b|] eqn:Ef.
  - apply find_found in Ef as [Hb Eb]. pose proof (proj1 (isAccount_spec _ _ _) Eb) as Eb'.
    assert (forall x y, isAccount u0 wg0 x = true -> isAccount u0 wg0 y = true -> (ac_Username x, ac_Workgroup x) = (ac_Username y, ac_Workgroup y)) as Hk by (intros x y Hx%isAccount_spec Hy%isAccount_spec; congruence).
    destruct (decide ((wg, u) = (wg0, u0))) as [[= -> ->]|Hne].
    + apply accessOf_none. intros p (_ & _ & a & Ha & _ & E). cbn in Ha. apply (removeFirst_gone _ _ _ _ (wf_names _ H) Hk) in Ha. apply isAccount_spec in E. congruence.
    + apply accessOf_same; [done|done|]. intros p. unfold holds. cbn. split.
      * intros (Hp & Hn & a & Ha & Eid & E). assert (isAccount u0 wg0 a = false) as Hf by (destruct (isAccount u0 wg0 a) eqn:Ea; [apply isAccount_spec in Ea; congruence|done]).
        split_and!; [|done|exists a; split_and!; [by apply removeFirst_keeps|done|done]]. apply elem_of_without. split; [done|]. apply Z.eqb_neq. intros Ez.
        assert (a = b) as -> by (eapply (keys_unique _ _ _ _ (proj1 (wf_ids _ H))); [done|done|congruence]). congruence.
      * intros ([Hp _]%elem_of_without & Hn & a & Ha%elem_of_removeFirst & E). eauto.
  - destruct (decide ((wg, u) = (wg0, u0))) as [[= -> ->]|Hne]; [|done]. apply accessOf_none. intros p (_ & _ & a & Ha & _ & E). pose proof (proj1 (find_absent _ _) Ef a Ha). apply isAccount_spec in E. congruence.
Qed.
Lemma accessOf_RemoveWorkgroup d nm wg u id w0 : wf d -> GetWorkgroupByID id d = Some w0 -> accessOf (RemoveWorkgroup id d) nm wg u = if decide (wg = wg_UUID w0) then 0 else accessOf d nm wg u.
Proof.
  intros H Hg. pose proof (RemoveWorkgroup_wf id d H) as H'. unfold RemoveWorkgroup in *. rewrite Hg in *. cbv zeta in *. destruct (decide (wg = wg_UUID w0)) as [->|Hne].
  - apply accessOf_none. intros p (_ & _ & a & [_ Ha%String.eqb_neq]%elem_of_without & _ & [= _ E]). done.
  - apply accessOf_same; [done|done|]. intros p. unfold holds. cbn. split.
    + intros (Hp & Hn & a & Ha & Eid & [= Eu Ew]). split_and!; [|done|exists a; split_and!; [apply elem_of_without; split; [done|]; apply String.eqb_neq; congruence|done|congruence]].
      apply elem_of_without. split; [done|]. apply String.eqb_neq. intros E. destruct (proj2 (wf_policies _ H) p Hp) as [Hk _]. apply elem_of_keys in Hk as (b & Hb & [= E1 E2]).
      assert (a = b) as <- by (eapply (keys_unique _ _ _ _ (proj1 (wf_ids _ H))); [done|done|congruence]). congruence.
    + intros ([Hp _]%elem_of_without & Hn & a & [Ha _]%elem_of_without & E). eauto.
Qed.
(** Policies taken away, the accounts as they were. *)
Lemma accessOf_removePolicies d nm wg u r : wf d ->
  ((forall p, holds d nm wg u p -> r p = false) -> accessOf (removePolicies d r) nm wg u = accessOf d nm wg u) /\
  ((forall p, holds d nm wg u p -> r p = true) -> accessOf (removePolicies d r) nm wg u = 0).
Proof.
  intros H. split; intros Hr.
  - apply accessOf_same; [done|by apply removePolicies_wf|]. intros p. unfold holds. cbn. split.
    + intros Hh. pose proof (Hr p Hh) as E. destruct Hh as (Hp & Hrest). split; [by apply elem_of_without|done].
    + intros ([Hp _]%elem_of_without & Hrest). done.
  - apply accessOf_none. intros p ([Hp E]%elem_of_without & Hrest). assert (holds d nm wg u p) as Hh by done. rewrite (Hr p Hh) in E. done.
Qed.
(** ** What the running server gives

    [A] is what each account is to be given on the files of each share.  A share on the list
    of the running server is of the kind the Lite mode has, is on it under one name, and
    gives just that. *)
Definition gives (sh : Shares.share) (wg u : string) : Z := default 0 (Shares.fileAccess wg u sh).
Definition serves (A : string -> string -> string -> Z) (n : string) (sh : Shares.share) : Prop :=
  Shares.backend sh = "renterd"%string /\ (n <> ""%string -> forall wg u, Shares.slashless wg = true -> gives sh wg u = A n wg u).
Definition reflects (A : string -> string -> string -> Z) (w : Shares.shares) : Prop :=
  (forall n n' i, Shares.shareList w !! n = Some i -> Shares.shareList w !! n' = Some i -> n = n') /\
  forall n i, Shares.shareList w !! n = Some i -> exists sh, Shares.heap w !! i = Some sh /\ serves A n sh.
Lemma gives_grant acc ar sh wg u : Shares.slashless (Shares.acc_Workgroup acc) = true -> Shares.slashless wg = true ->
  gives (Shares.grant acc ar sh) wg u = if decide (Shares.Account wg u = acc) then FlagsFromAccessRights ar else gives sh wg u.
Proof.
  intros Ha Hw. unfold gives, Shares.fileAccess, Shares.grant. cbn. destruct acc as [wg' u']. cbn in *. destruct (decide (Shares.Account wg u = Shares.Account wg' u')) as [[= -> ->]|Hne].
  - by rewrite lookup_insert_eq.
  - rewrite lookup_insert_ne; [done|]. intros E. destruct (Shares.key_inj _ _ _ _ Ha Hw E) as [-> ->]. done.
Qed.
Lemma gives_revoke acc sh wg u : Shares.slashless (Shares.acc_Workgroup acc) = true -> Shares.slashless wg = true ->
  gives (Shares.revoke acc sh) wg u = if decide (Shares.Account wg u = acc) then 0 else gives sh wg u.
Proof.
  intros Ha Hw. unfold gives, Shares.fileAccess, Shares.revoke. cbn. destruct acc as [wg' u']. cbn in *. destruct (decide (Shares.Account wg u = Shares.Account wg' u')) as [[= -> ->]|Hne].
  - by rewrite lookup_delete_eq.
  - rewrite lookup_delete_ne; [done|]. intros E. destruct (Shares.key_inj _ _ _ _ Ha Hw E) as [-> ->]. done.
Qed.
Lemma reflects_ext A A' w : (forall n wg u, n <> ""%string -> Shares.slashless wg = true -> A' n wg u = A n wg u) -> reflects A w -> reflects A' w.
Proof.
  intros HA [H1 H2]. split; [done|]. intros n i Hi. destruct (H2 n i Hi) as (sh & Hh & Hb & Hg). exists sh. split; [done|]. split; [done|]. intros Hn wg u Hw. rewrite HA by done. by apply Hg.
Qed.
Lemma reflects_at A A' w n i f : reflects A w -> Shares.shareList w !! n = Some i -> (forall n' wg u, n' <> n -> A' n' wg u = A n' wg u) ->
  (forall sh, Shares.heap w !! i = Some sh -> serves A n sh -> serves A' n (f sh)) -> reflects A' (Shares.at_ i f w).
Proof.
  intros [H1 H2] Hi HA Hf. split; [done|]. intros n' i' Hi'. cbn in Hi'. cbn. destruct (H2 n' i' Hi') as (sh & Hh & Hs). destruct (decide (i = i')) as [<-|Hne].
  - assert (n' = n) as -> by (by eapply H1). exists (f sh). rewrite lookup_alter_eq, Hh. split; [done|by apply Hf].
  - exists sh. rewrite lookup_alter_ne by done. split; [done|]. destruct Hs as [Hb Hg]. split; [done|]. intros Hn wg u Hw. rewrite HA; [by apply Hg|]. intros ->. congruence.
Qed.
Lemma reflects_RemoveAccess A w acc : Shares.slashless (Shares.acc_Workgroup acc) = true -> reflects A w ->
  reflects (fun n wg u => if decide (Shares.Account wg u = acc) then 0 else A n wg u) (Shares.RemoveAccess acc w).
Proof.
  intros Ha [H1 H2]. split; [done|]. intros n i Hi. destruct (H2 n i Hi) as (sh & Hh & Hb & Hg). exists (Shares.revoke acc sh). split.
  - cbn. rewrite (Shares.revokeAll_lookup acc _ _ _ sh Hh), bool_decide_true; [done|]. apply list_elem_of_In, in_map_iff. exists (n, i). split; [done|]. by apply list_elem_of_In, elem_of_map_to_list.
  - split; [done|]. intros Hn wg u Hw. rewrite gives_revoke by done. by rewrite Hg.
Qed.
Lemma reflects_removeAll A accs : forall w, (forall a, a ∈ accs -> Shares.slashless (ac_Workgroup a) = true) -> reflects A w ->
  reflects (fun n wg u => if decide (Shares.Account wg u ∈ map named accs) then 0 else A n wg u) (removeAll accs w).
Proof.
  revert A. induction accs as [|a accs IH]; intros A w Ha H; [done|]. cbn [map]. change (removeAll (a :: accs) w) with (removeAll accs (Shares.RemoveAccess (named a) w)).
  apply (reflects_RemoveAccess _ _ (named a)) in H; [|apply Ha, list_elem_of_here]. apply IH in H; [|intros b Hb; by apply Ha, list_elem_of_further]. revert H. apply reflects_ext. intros n wg u _ _.
  destruct (decide (Shares.Account wg u ∈ map named accs)) as [H1|H1]; [by rewrite decide_True by by apply list_elem_of_further|]. destruct (decide (Shares.Account wg u = named a)) as [E|E].
  - rewrite decide_True; [done|]. rewrite E. apply list_elem_of_here.
  - rewrite decide_False; [done|]. by intros [?|?]%elem_of_cons.
Qed.
Lemma gives_revokeAll accs wg u : Shares.slashless wg = true -> (forall acc, acc ∈ accs -> Shares.slashless (Shares.acc_Workgroup acc) = true) -> forall sh,
  Shares.backend (foldl (fun sh acc => Shares.revoke acc sh) sh accs) = Shares.backend sh /\
  gives (foldl (fun sh acc => Shares.revoke acc sh) sh accs) wg u = if decide (Shares.Account wg u ∈ accs) then 0 else gives sh wg u.
Proof.
  intros Hw. induction accs as [|a accs IH]; intros Ha sh; [done|]. cbn [foldl].
  destruct (IH (fun b Hb => Ha b (list_elem_of_further _ _ _ Hb)) (Shares.revoke a sh)) as [-> ->]. split; [done|]. rewrite gives_revoke by (done || apply Ha, list_elem_of_here).
  destruct (decide (Shares.Account wg u ∈ accs)) as [H1|H1]; [by rewrite decide_True by by apply list_elem_of_further|]. destruct (decide (Shares.Account wg u = a)) as [E|E].
  - rewrite decide_True; [done|]. rewrite E. apply list_elem_of_here.
  - rewrite decide_False; [done|]. by intros [?|?]%elem_of_cons.
Qed.
Lemma reflects_RemoveConnection A w wg0 n0 accs w' : (forall acc, acc ∈ accs -> Shares.slashless (Shares.acc_Workgroup acc) = true) -> reflects A w ->
  Shares.RemoveConnection wg0 n0 (Some accs) w = Ok w' -> reflects (fun n wg u => if decide (n = n0 /\ Shares.Account wg u ∈ accs) then 0 else A n wg u) w'.
Proof.
  intros Ha H E. unfold Shares.RemoveConnection in E. destruct (Shares.shareList w !! n0) as [i|] eqn:Ei.
  - injection E as <-. set (w1 := Shares.at_ i _ w).
    assert (reflects A w1) as H1 by (apply (reflects_at A A w n0 i _ H Ei); [done|]; intros sh _ [Hb Hg]; rewrite Hb; by split).
    apply (reflects_at A _ w1 n0 i _ H1); [done|intros n' wg u Hne; by rewrite decide_False by (by intros [-> _])|]. intros sh _ [Hb Hg]. split.
    + destruct (gives_revokeAll accs ""%string ""%string eq_refl Ha sh) as [-> _]. done.
    + intros Hn wg u Hw. destruct (gives_revokeAll accs wg u Hw Ha sh) as [_ ->]. rewrite Hg by done. apply decide_ext. clear. tauto.
  - injection E as <-. destruct H as [H1 H2]. split; [done|]. intros n i Hi. destruct (H2 n i Hi) as (sh & Hh & Hb & Hg). exists sh. split; [done|]. split; [done|]. intros Hn wg u Hw.
    rewrite decide_False by (intros [-> _]; congruence). by apply Hg.
Qed.
(** *** Granting what the store says *)
Definition named_ok (d : jsonData) : Prop := forall a, a ∈ Accounts d -> Shares.slashless (ac_Workgroup a) = true.
Lemma GetAccountByID_found d id acc : GetAccountByID d id = Shares.Found acc -> exists a, a ∈ Accounts d /\ ac_ID a = id /\ acc = named a.
Proof. unfold GetAccountByID. destruct (accountByID d id) as [a|] eqn:E; [|done]. intros [= <-]. apply accountByID_Some in E as [Ha Ei]. by exists a. Qed.
Lemma GetAccountByID_answers d id : GetAccountByID d id <> Shares.Failed.
Proof. unfold GetAccountByID. by destruct (accountByID d id). Qed.
(** The accounts that are looked up are the ones there are. *)
Lemma accountsOf_finds d ars : forall accs, (forall id acc, accs !! id = Some acc -> GetAccountByID d id = Shares.Found acc) ->
  exists accs', Shares.accountsOf (GetAccountByID d) ars accs = Ok accs' /\ (forall id acc, accs' !! id = Some acc -> GetAccountByID d id = Shares.Found acc) /\
    (forall id acc, accs !! id = Some acc -> accs' !! id = Some acc) /\
    forall ar acc, ar ∈ ars -> GetAccountByID d (Shares.ar_AccountID ar) = Shares.Found acc -> accs' !! Shares.ar_AccountID ar = Some acc.
Proof.
  induction ars as [|ar ars IH]; intros accs Hc; [exists accs; split_and!; [done..|by intros ar acc ?%elem_of_nil]|]. simpl.
  assert (exists accs1, (forall id acc, accs1 !! id = Some acc -> GetAccountByID d id = Shares.Found acc) /\ (forall id acc, accs !! id = Some acc -> accs1 !! id = Some acc) /\
    (forall acc, GetAccountByID d (Shares.ar_AccountID ar) = Shares.Found acc -> accs1 !! Shares.ar_AccountID ar = Some acc) /\
    match accs !! Shares.ar_AccountID ar with
    | Some _ => Shares.accountsOf (GetAccountByID d) ars accs
    | None => match GetAccountByID d (Shares.ar_AccountID ar) with
              | Shares.Found acc => Shares.accountsOf (GetAccountByID d) ars (<[Shares.ar_AccountID ar:=acc]> accs)
              | Shares.NotFound => Shares.accountsOf (GetAccountByID d) ars accs
              | Shares.Failed => Err Shares.errStore
              end
    end = Shares.accountsOf (GetAccountByID d) ars accs1) as (accs1 & H1 & H2 & H3 & ->).
  { destruct (accs !! Shares.ar_AccountID ar) as [acc|] eqn:Ea; [exists accs; split_and!; [done..| |done]; intros acc' E; rewrite (Hc _ _ Ea) in E; by injection E as <-|].
    destruct (GetAccountByID d (Shares.ar_AccountID ar)) as [acc| |] eqn:Eg; [|exists accs; by split_and!|by destruct (GetAccountByID_answers d (Shares.ar_AccountID ar))].
    exists (<[Shares.ar_AccountID ar := acc]> accs). split_and!; [| | |done].
    - intros id acc' [[<- <-]|[_ ?]]%lookup_insert_Some; [done|by apply Hc].
    - intros id acc' E. rewrite lookup_insert_ne; [done|]. intros <-. by rewrite Ea in E.
    - intros acc' [= <-]. by rewrite lookup_insert_eq. }
  destruct (IH accs1 H1) as (accs' & -> & H4 & H5 & H6). exists accs'. split_and!; [done|done|auto|]. intros ar' acc [->|Hin]%elem_of_cons E; auto.
Qed.
(** [A] holds of every account that is not still to be granted. *)
Lemma gives_grants (A : string -> string -> Z) (accs : gmap Z Shares.account) ars : forall sh,
  (forall ar acc, ar ∈ ars -> accs !! Shares.ar_AccountID ar = Some acc -> Shares.slashless (Shares.acc_Workgroup acc) = true /\
     A (Shares.acc_Workgroup acc) (Shares.acc_Username acc) = FlagsFromAccessRights (Shares.ar_access ar)) ->
  (forall wg u, Shares.slashless wg = true -> (forall ar, ar ∈ ars -> accs !! Shares.ar_AccountID ar <> Some (Shares.Account wg u)) -> gives sh wg u = A wg u) ->
  let sh' := foldl (fun sh ar => match accs !! Shares.ar_AccountID ar with Some acc => Shares.grant acc (Shares.ar_access ar) sh | None => sh end) sh ars in
  Shares.backend sh' = Shares.backend sh /\ forall wg u, Shares.slashless wg = true -> gives sh' wg u = A wg u.
Proof.
  induction ars as [|ar ars IH]; intros sh Hs Hd; cbn [foldl].
  { split; [done|]. intros wg u Hw. apply Hd; [done|]. by intros ar ?%elem_of_nil. }
  destruct (accs !! Shares.ar_AccountID ar) as [acc|] eqn:Ea.
  - destruct (Hs ar acc (list_elem_of_here _ _) Ea) as [Ha HA]. apply (IH (Shares.grant acc (Shares.ar_access ar) sh)); [intros ar' acc' Hin; by apply Hs, list_elem_of_further|]. intros wg u Hw Hn. rewrite gives_grant by done.
    destruct (decide (Shares.Account wg u = acc)) as [<-|Hne]; [done|]. apply Hd; [done|]. intros ar' [->|Hin]%elem_of_cons; [congruence|by apply Hn].
  - apply (IH sh); [intros ar' acc' Hin; by apply Hs, list_elem_of_further|]. intros wg u Hw Hn. apply Hd; [done|]. intros ar' [->|Hin]%elem_of_cons; [congruence|by apply Hn].
Qed.
Lemma elem_of_GetAccounts n d ar : ar ∈ GetAccounts n d -> exists p, p ∈ Policies d /\ po_ShareName p = n /\ ar = accessRightsFromPolicy p.
Proof.
  unfold GetAccounts. destruct (String.eqb n ""); [by intros ?%elem_of_nil|]. intros (p & <- & [Hp E%String.eqb_eq]%filter_In)%list_elem_of_In%in_map_iff. exists p. split; [by apply list_elem_of_In|done].
Qed.
Lemma GetAccounts_elem n d p : n <> ""%string -> p ∈ Policies d -> po_ShareName p = n -> accessRightsFromPolicy p ∈ GetAccounts n d.
Proof.
  intros Hn Hp E. unfold GetAccounts. destruct (String.eqb_spec n ""); [done|]. apply list_elem_of_In, in_map_iff. exists p. split; [done|]. apply filter_In. split; [by apply list_elem_of_In|by apply String.eqb_eq].
Qed.
Lemma loads_what_is_stored d n sh sh' : wf d -> named_ok d -> (forall wg u, gives sh wg u = 0) -> Shares.loadAccessRights (GetAccountByID d) (GetAccounts n d) sh = Ok sh' ->
  Shares.backend sh' = Shares.backend sh /\ (n <> ""%string -> forall wg u, Shares.slashless wg = true -> gives sh' wg u = accessOf d n wg u).
Proof.
  intros H Hok H0 E. unfold Shares.loadAccessRights in E. destruct (accountsOf_finds d (GetAccounts n d) ∅) as (accs & Ea & Hf & _ & Hin); [by intros id acc ?|]. rewrite Ea in E. injection E as <-.
  destruct (decide (n = ""%string)) as [->|Hn]; [done|]. destruct (gives_grants (accessOf d n) accs (GetAccounts n d) sh) as [Hb Hg]; [| |by split].
  - intros ar acc (p & Hp & En & ->)%elem_of_GetAccounts (a & Ha & Ei & ->)%Hf%GetAccountByID_found. split; [by apply Hok|]. apply accessOf_holds; [done|]. split; [done|]. split; [done|]. by exists a.
  - intros wg u Hw Hno. rewrite H0. symmetry. apply accessOf_none. intros p (Hp & En & a & Hain & Ei & Eu). apply (Hno (accessRightsFromPolicy p)); [by apply GetAccounts_elem|].
    apply Hin; [by apply GetAccounts_elem|]. cbn. unfold GetAccountByID. rewrite <- Ei, accountByID_found by done. by injection Eu as <- <-.
Qed.
Lemma grantAll_serves A n l : forall sh, serves A n sh ->
  (forall acc ar, (acc, Some ar) ∈ l -> Shares.ar_AccountID ar <> 0 -> Shares.slashless (Shares.acc_Workgroup acc) = true /\
     (n <> ""%string -> A n (Shares.acc_Workgroup acc) (Shares.acc_Username acc) = FlagsFromAccessRights (Shares.ar_access ar))) ->
  serves A n (fst (Shares.grantAll l sh)).
Proof.
  induction l as [|[acc [ar|]] l IH]; intros sh H Hl; [done| |done]. simpl. apply IH; [|intros acc' ar' Hin; by apply Hl, list_elem_of_further].
  destruct (Z.eqb_spec (Shares.ar_AccountID ar) 0) as [|Hne]; [done|]. simpl. destruct (Shares.anyAccess _); [|done]. destruct (Hl acc ar (list_elem_of_here _ _) Hne) as [Ha HA]. destruct H as [Hb Hg].
  split; [done|]. intros Hn wg u Hw. rewrite gives_grant by done. destruct (decide (Shares.Account wg u = acc)) as [<-|Hd]; [symmetry; by apply HA|by apply Hg].
Qed.
(** *** What each change does to what is served *)
Lemma loadAccessRights_name g ars sh sh' : Shares.loadAccessRights g ars sh = Ok sh' -> Shares.name sh' = Shares.name sh.
Proof. unfold Shares.loadAccessRights. intros (accs & _ & [= <-])%bind_Ok. revert sh. induction ars as [|ar ars IH]; intros sh; [done|]. simpl. rewrite IH. by destruct (accs !! _). Qed.
Lemma registers_what_is_stored d offer cl info w w' : wf d -> named_ok d -> Shares.st_Type offer = "renterd"%string -> reflects (accessOf d) w ->
  Shares.RegisterShare (GetAccountByID d) encrypts compresses (regOf offer cl info d) w = Ok w' -> reflects (accessOf d) w'.
Proof.
  intros H Hok Ht [H1 H2] E. unfold Shares.RegisterShare in E. apply bind_Ok in E as (sh & Hm & [= <-]). unfold Shares.registerShare_make, regOf in Hm. cbn [Shares.r_stored Shares.r_info Shares.r_accounts Shares.r_client] in Hm.
  destruct (Shares.shareList w !! Shares.st_Name offer) as [|] eqn:El; [done|]. cbn [Shares.backend Shares.newShare] in Hm. rewrite Ht in Hm. cbn [String.eqb Ascii.eqb Bool.eqb] in Hm. destruct info as [b|]; [|done].
  apply bind_Ok in Hm as (sh0 & [= <-] & Hm). cbn [Shares.backend Shares.set_client Shares.newShare] in Hm. rewrite Ht in Hm. cbn [String.eqb Ascii.eqb Bool.eqb] in Hm.
  pose proof (loadAccessRights_name _ _ _ _ Hm) as Hname. apply loads_what_is_stored in Hm as [Hb Hg]; [|done..]. cbn in Hname.
  unfold Shares.registerShare_put. rewrite Hname. set (i := fresh (dom (Shares.heap w))).
  assert (forall n, Shares.shareList w !! n <> Some i) as Hfresh.
  { intros n Hn. destruct (H2 n i Hn) as (x & Hx & _). apply (is_fresh (dom (Shares.heap w))). apply elem_of_dom. by exists x. }
  split; cbn.
  - intros n n' j [[<- <-]|[Hn Hj]]%lookup_insert_Some [[<- Hj']|[Hn' Hj']]%lookup_insert_Some; [done|by destruct (Hfresh n')|subst j; by destruct (Hfresh n)|by eapply H1].
  - intros n j [[<- <-]|[Hn Hj]]%lookup_insert_Some.
    + exists sh. rewrite lookup_insert_eq. split; [done|]. split; [by rewrite Hb|done].
    + destruct (H2 n j Hj) as (x & Hx & Hs). exists x. split; [|done]. rewrite lookup_insert_ne; [done|]. intros <-. by destruct (Hfresh n).
Qed.
Lemma ensures_what_is_stored d offer cl info w w' i : wf d -> named_ok d -> Shares.st_Type offer = "renterd"%string -> reflects (accessOf d) w ->
  Shares.ensureShare (GetAccountByID d) encrypts compresses (regOf offer cl info d) w = Ok (w', i) -> reflects (accessOf d) w' /\ Shares.shareList w' !! Shares.st_Name offer = Some i.
Proof.
  intros H Hok Ht Hr E. unfold Shares.ensureShare in E. cbn [Shares.r_stored regOf] in E. destruct (Shares.shareList w !! Shares.st_Name offer) as [j|] eqn:El; [by injection E as <- <-|].
  apply bind_Ok in E as (w1 & Hreg & E). apply registers_what_is_stored in Hreg; [|done..]. destruct (Shares.shareList w1 !! _) as [j|] eqn:Ej; [|done]. by injection E as <- <-.
Qed.
Lemma rightsOf_says d wg n l acc ar : wf d -> named_ok d -> rightsOf wg n d = Some l -> (acc, Some ar) ∈ l -> Shares.ar_AccountID ar <> 0 ->
  Shares.slashless (Shares.acc_Workgroup acc) = true /\ (n <> ""%string -> accessOf d n (Shares.acc_Workgroup acc) (Shares.acc_Username acc) = FlagsFromAccessRights (Shares.ar_access ar)).
Proof.
  intros H Hok E Hin Hid. unfold rightsOf, FindAccounts in E. destruct (parse wg); [|done]. injection E as <-.
  apply list_elem_of_In, in_map_iff in Hin as (a & [= <- <-] & [Ha _]%filter_In). apply list_elem_of_In in Ha. split; [by apply Hok|]. intros Hn. cbn. unfold accessOf, GetAccessRights in *.
  destruct (String.eqb_spec n ""); [done|]. rewrite (find_account d _ _ a) by done. destruct (find _ (Policies d)) as [p|]; [done|]. by destruct Hid.
Qed.
Lemma joins_what_is_stored d uuid offer cl info w w' e : wf d -> named_ok d -> Shares.st_Type offer = "renterd"%string -> reflects (accessOf d) w ->
  Shares.AddConnection (GetAccountByID d) encrypts compresses uuid (regOf offer cl info d) (Shares.Start (inr Shares.errStore) (rightsOf uuid (Shares.st_Name offer) d)) w = (w', e) -> reflects (accessOf d) w'.
Proof.
  intros H Hok Ht Hr E. unfold Shares.AddConnection in E. destruct (Shares.ensureShare _ _ _ _ w) as [[w1 i]|e1| |] eqn:Ee; [|by injection E as <- <-..].
  apply ensures_what_is_stored in Ee as [Hr1 Hi]; [|done..]. unfold Shares.joinAt in E. destruct (Shares.heap w1 !! i) as [sh|] eqn:Eh; [|by injection E as <- <-].
  destruct (Shares.joinWorkgroup _ _ sh) as [sh' e'] eqn:Ej. injection E as <- <-. apply (reflects_at (accessOf d) _ w1 _ i _ Hr1 Hi); [done|]. intros x Hx Hs. assert (x = sh) as -> by congruence.
  unfold Shares.joinWorkgroup in Ej. pose proof Hs as [Hb _]. rewrite Hb in Ej. cbn [String.eqb Ascii.eqb Bool.eqb andb Shares.s_accounts] in Ej.
  destruct (rightsOf uuid (Shares.st_Name offer) d) as [l|] eqn:El; [|by injection Ej as <- <-].
  change sh' with (fst (sh', e')). rewrite <- Ej. apply grantAll_serves; [done|]. intros acc ar Hin Hid. by apply (rightsOf_says d uuid _ l).
Qed.
Lemma no_access_no_flags ar : Shares.anyAccess ar = false -> FlagsFromAccessRights ar = 0.
Proof. unfold Shares.anyAccess, FlagsFromAccessRights. by destruct ar as [[] [] [] []]. Qed.
Lemma reflects_UpdateAccessRights d A n0 ar w w' : named_ok d -> reflects A w -> Shares.UpdateAccessRights (GetAccountByID d) n0 ar w = Ok w' ->
  reflects (fun n wg u => if decide (n = n0 /\ GetAccountByID d (Shares.ar_AccountID ar) = Shares.Found (Shares.Account wg u)) then FlagsFromAccessRights (Shares.ar_access ar) else A n wg u) w'.
Proof.
  intros Hok Hr E. unfold Shares.UpdateAccessRights in E. destruct (Shares.shareList w !! n0) as [i|] eqn:Ei.
  - destruct (GetAccountByID d (Shares.ar_AccountID ar)) as [acc| |] eqn:Eg; [| |done].
    + apply GetAccountByID_found in Eg as (a & Ha & _ & ->). pose proof (Hok a Ha) as Hs. destruct Hr as [H1 H2]. destruct (H2 n0 i Ei) as (sh & Hh & Hb & Hg). rewrite Hh, Hb in E. injection E as <-.
      apply (reflects_at A _ w n0 i _ (conj H1 H2) Ei); [intros n wg u Hne; by rewrite decide_False by (by intros [-> _])|]. intros x Hx [Hb' Hg']. split; [by destruct (Shares.anyAccess _)|]. intros Hn wg u Hw.
      destruct (Shares.anyAccess _) eqn:Eany; [rewrite gives_grant by done|rewrite gives_revoke, no_access_no_flags by done]; (destruct (decide (Shares.Account wg u = named a)) as [E|E];
        [rewrite decide_True; [done|by rewrite E]|rewrite decide_False; [by apply Hg'|intros [_ E']; congruence]]).
    + injection E as <-. revert Hr. apply reflects_ext. intros n wg u _ _. by rewrite decide_False by by intros [_ ?].
  - injection E as <-. destruct Hr as [H1 H2]. split; [done|]. intros n i Hi. destruct (H2 n i Hi) as (sh & Hh & Hb & Hg). exists sh. split; [done|]. split; [done|]. intros Hn wg u Hw.
    rewrite decide_False by (intros [-> _]; congruence). by apply Hg.
Qed.
Lemma reflects_RemoveShare A ss closes w w' : reflects A w -> Shares.RemoveShare ss closes w = Ok w' ->
  reflects A w' /\ (w' = w \/ w' = Shares.removeShare_drop ss w) /\ Shares.shareList w' !! Shares.st_Name ss = None.
Proof.
  intros [H1 H2] E. unfold Shares.RemoveShare in E. apply bind_Ok in E as (found & Hc & E). unfold Shares.removeShare_check in Hc. destruct (Shares.shareList w !! Shares.st_Name ss) as [i|] eqn:Ei.
  - assert (found = Some i) as -> by (destruct (Shares.heap w !! i); [destruct (_ >? _); [done|]|]; by injection Hc as <-). destruct (_ && negb closes); [done|]. injection E as <-. split; [|split; [by right|apply lookup_delete_eq]].
    split; cbn; [intros n n' j [_ Hj]%lookup_delete_Some [_ Hj']%lookup_delete_Some; by eapply H1|intros n j [_ Hj]%lookup_delete_Some; by apply H2].
  - injection Hc as <-. injection E as <-. split; [done|]. split; [by left|done].
Qed.
Lemma reflects_UpdateShare A ss cl w : reflects A w -> reflects A (Shares.UpdateShare ss cl w).
Proof.
  intros H. unfold Shares.UpdateShare. destruct (Shares.shareList w !! _) as [i|] eqn:Ei; [|done]. apply (reflects_at A A w _ i _ H Ei); [done|]. intros sh _ Hs. cbv zeta.
  destruct (Shares.client _); [|done]. by destruct (_ && _).
Qed.
(** *** What each change does to what the data gives *)
Lemma accessOf_no_account d n wg u : (forall a, a ∈ Accounts d -> Shares.Account wg u <> named a) -> accessOf d n wg u = 0.
Proof. intros H. apply accessOf_none. intros p (_ & _ & a & Ha & _ & [= <- <-]). by apply (H a). Qed.
Lemma holds_account d n wg u p id : wf d -> holds d n wg u p -> (po_AccountID p = id <-> GetAccountByID d id = Shares.Found (Shares.Account wg u)).
Proof.
  intros H (Hp & Hn & a & Ha & Ei & [= <- <-]). split.
  - intros <-. unfold GetAccountByID. by rewrite <- Ei, accountByID_found.
  - intros (b & Hb & <- & [= E1 E2])%GetAccountByID_found. rewrite <- Ei. f_equal. eapply (keys_unique _ _ _ _ (wf_names _ H)); [done|done|congruence].
Qed.
Lemma accessOf_SetAccessRights found name ar d d' n wg u : wf d -> SetAccessRights found name ar d = Ok d' ->
  accessOf d' n wg u = if decide (n = name /\ GetAccountByID d' (Shares.ar_AccountID ar) = Shares.Found (Shares.Account wg u)) then FlagsFromAccessRights (Shares.ar_access ar) else accessOf d n wg u.
Proof.
  intros H E. pose proof (SetAccessRights_wf _ _ _ _ _ H E) as H'. unfold SetAccessRights in E. destruct (negb found); [done|]. cbv zeta in E. destruct (accountByID d (Shares.ar_AccountID ar)) as [a|] eqn:Ea; [|done].
  destruct (String.eqb_spec (ac_Workgroup a) ""); [done|]. destruct (negb (existsb (isConnection _ _) _)); [done|]. apply accountByID_Some in Ea as [Ha Eid].
  set (p := MkPolicy name (Shares.ar_AccountID ar) (ac_Workgroup a) (Shares.ar_access ar)) in *. set (this := isPolicy name (Shares.ar_AccountID ar)) in *.
  assert (forall q, q ∈ Policies d' <-> q = p \/ (q ∈ Policies d /\ this q = false)) as Hpol.
  { injection E as <-. cbn. apply (replaced_or_added (fun q => (po_ShareName q, po_AccountID q))); [apply (proj1 (wf_policies _ H))|by intros x y Hx%isPolicy_spec Hy%isPolicy_spec; congruence|by apply isPolicy_spec]. }
  assert (Accounts d' = Accounts d) as Eacc by (by injection E as <-). clear E.
  destruct (decide _) as [[-> (b & Hb & Eb & [= -> ->])%GetAccountByID_found]|Hno].
  - change (Shares.ar_access ar) with (po_access p). apply accessOf_holds; [done|]. split; [apply Hpol; by left|]. split; [done|]. by exists b.
  - apply accessOf_same; [done|done|]. intros q. unfold holds. rewrite Eacc. split.
    + intros (Hq & Hn & b & Hb & Eb & E). split; [|by eauto]. apply Hpol. right. split; [done|]. destruct (this q) eqn:Et; [|done]. apply isPolicy_spec in Et as [= E1 E2]. exfalso. apply Hno. split; [congruence|].
      unfold GetAccountByID. rewrite <- E2, <- Eb, accountByID_found by (done || by rewrite Eacc). injection E as <- <-. done.
    + intros (Hq & Hn & b & Hb & Eb & E). apply Hpol in Hq as [->|[Hq _]]; [|split; [done|by eauto]]. exfalso. apply Hno. split; [done|]. unfold GetAccountByID. cbn in Eb. rewrite <- Eb, accountByID_found by (done || by rewrite Eacc). injection E as <- <-. done.
Qed.
Lemma accessOf_RemoveAccessRights d name id n wg u : wf d ->
  accessOf (RemoveAccessRights name id d) n wg u = if decide (n = name /\ GetAccountByID d id = Shares.Found (Shares.Account wg u)) then 0 else accessOf d n wg u.
Proof.
  intros H. destruct (accessOf_removePolicies d n wg u (isPolicy name id) H) as [Hk Hg]. unfold RemoveAccessRights. destruct (decide _) as [[-> E]|Hno].
  - apply Hg. intros p Hp. apply isPolicy_spec. apply (holds_account d name wg u p id H Hp) in E. destruct Hp as (_ & -> & _). by rewrite E.
  - apply Hk. intros p Hp. destruct (isPolicy name id p) eqn:E; [|done]. exfalso. apply Hno. apply isPolicy_spec in E as [= E1 E2]. split; [destruct Hp as (_ & <- & _); done|]. by apply (holds_account d n wg u p id H Hp).
Qed.
Lemma accessOf_ClearAccessRights d a n wg u : wf d -> a ∈ Accounts d -> accessOf (ClearAccessRights (ac_ID a) d) n wg u = if decide (Shares.Account wg u = named a) then 0 else accessOf d n wg u.
Proof.
  intros H Ha. destruct (accessOf_removePolicies d n wg u (fun p => po_AccountID p =? ac_ID a) H) as [Hk Hg]. unfold ClearAccessRights.
  assert (GetAccountByID d (ac_ID a) = Shares.Found (named a)) as Ea by (unfold GetAccountByID; by rewrite accountByID_found). destruct (decide _) as [E|Hne].
  - apply Hg. intros p Hp. apply Z.eqb_eq, (holds_account d n wg u p _ H Hp). by rewrite Ea, E.
  - apply Hk. intros p Hp. apply Z.eqb_neq. intros E%(holds_account d n wg u p _ H Hp). congruence.
Qed.
Lemma policy_workgroup d n wg u p : wf d -> holds d n wg u p -> po_Workgroup p = wg.
Proof.
  intros H (Hp & Hn & a & Ha & Ei & [= _ Ew]). destruct (proj2 (wf_policies _ H) p Hp) as [(b & Hb & [= E1 E2])%elem_of_keys _].
  assert (b = a) as -> by (eapply (keys_unique _ _ _ _ (proj1 (wf_ids _ H))); [done|done|congruence]). congruence.
Qed.
Lemma accessOf_RemoveConnection d uuid name n wg u : wf d -> accessOf (RemoveConnection uuid name d) n wg u = if decide (n = name /\ wg = uuid) then 0 else accessOf d n wg u.
Proof.
  intros H. destruct (accessOf_removePolicies d n wg u (fun p => String.eqb (po_Workgroup p) uuid && String.eqb (po_ShareName p) name) H) as [Hk Hg].
  change (accessOf (RemoveConnection uuid name d) n wg u) with (accessOf (removePolicies d (fun p => String.eqb (po_Workgroup p) uuid && String.eqb (po_ShareName p) name)) n wg u). destruct (decide _) as [[-> ->]|Hno].
  - apply Hg. intros p Hp. rewrite (policy_workgroup d name uuid u p H Hp). destruct Hp as (_ & -> & _). by rewrite !String.eqb_refl.
  - apply Hk. intros p Hp. pose proof (policy_workgroup d n wg u p H Hp) as E. destruct Hp as (_ & En & _). apply andb_false_iff. rewrite E, En.
    destruct (String.eqb_spec wg uuid) as [->|]; [right|by left]. apply String.eqb_neq. intros ->. by apply Hno.
Qed.
Lemma accessOf_UnregisterShare d name n wg u : wf d -> n <> name -> accessOf (UnregisterShare name d) n wg u = accessOf d n wg u.
Proof.
  intros H Hne. destruct (accessOf_removePolicies d n wg u (fun p => String.eqb (po_ShareName p) name) H) as [Hk _]. apply Hk. intros p (_ & -> & _). by apply String.eqb_neq.
Qed.

(** *** The server and the store *)
Definition good (d : jsonData) : Prop :=
  (forall sh, sh ∈ Shares_ d -> Shares.st_Type (sh_Offer sh) = "renterd"%string) /\ (forall w, w ∈ Workgroups d -> Shares.slashless (wg_UUID w) = true).
(** What is asked: workgroups are named by their UUIDs, accounts and shares are the store's. *)
Definition asked (o : op) (d : jsonData) : Prop :=
  match o with
  | ORemoveAccount _ wg => Shares.slashless wg = true
  | OAddWorkgroup uuid _ _ => Shares.slashless uuid = true
  | OClearAccessRights a => a ∈ Accounts d
  | OAddConnection _ offer _ _ _ => Shares.st_Type offer = "renterd"%string
  | _ => True
  end.
Fixpoint allAsked (ops : list ((bool * bool) * op)) (l : lite) : Prop :=
  match ops with [] => True | (saves, o) :: ops => asked o (data (js l)) /\ allAsked ops (fst (exec saves o l)) end.
Definition inStep (l : lite) : Prop := inOrder l /\ good (data (js l)) /\ good (disk (js l)) /\ reflects (accessOf (data (js l))) (running l).
Lemma good_named d : wf d -> good d -> named_ok d.
Proof. intros H [_ Hg] a Ha. apply (wf_homes _ H), elem_of_keys in Ha as (w & Hw & <-). by apply Hg. Qed.
Lemma good_less d d' : good d -> (forall sh, sh ∈ Shares_ d' -> sh ∈ Shares_ d) -> (forall w, w ∈ Workgroups d' -> w ∈ Workgroups d) -> good d'.
Proof. intros [G1 G2] H1 H2. split; auto. Qed.
Lemma update_inStep saves mutate notify l : (forall d d', wf d -> mutate d = Ok d' -> wf d') ->
  (forall d', wf (data (js l)) -> good (data (js l)) -> wf d' -> reflects (accessOf (data (js l))) (running l) -> mutate (data (js l)) = Ok d' ->
     good d' /\ forall w (ok : bool), notify (data (js l)) d' (running l) = (w, ok) -> reflects (accessOf (if ok then d' else data (js l))) w) ->
  inStep l -> inStep (fst (update saves mutate notify l)).
Proof.
  intros Hm Hs (Ho & Gd & Gk & Hr). pose proof (update_inOrder saves mutate notify l Hm Ho) as Ho'. split; [done|]. clear Ho'. unfold update, update_begin. destruct Ho as [Hd _].
  destruct (mutate (data (js l))) as [d'|e| |] eqn:E; [|by split_and!..]. cbn [mbind outcome_bind]. pose proof (Hm _ _ Hd E) as Hd'. destruct (Hs d' Hd Gd Hd' Hr eq_refl) as [Gd' Hn].
  destruct saves.1; [|by split_and!]. unfold mret, outcome_ret. cbn [data]. destruct (notify _ _ _) as [w ok] eqn:En. specialize (Hn w ok eq_refl). destruct ok; cbn; [done|]. by destruct saves.2.
Qed.
(** Changes the server is not told of. *)
Lemma quiet_inStep saves mutate l : (forall d d', wf d -> mutate d = Ok d' -> wf d') ->
  (forall d d', wf d -> wf d' -> mutate d = Ok d' -> (good d -> good d') /\ forall n wg u, accessOf d' n wg u = accessOf d n wg u) ->
  inStep l -> inStep (fst (update saves mutate nobody l)).
Proof.
  intros Hm Hs. apply update_inStep; [done|]. intros d' Hd Gd Hd' Hr E. destruct (Hs _ _ Hd Hd' E) as [Hg Ha]. split; [by apply Hg|]. intros w ok [= <- <-]. revert Hr. apply reflects_ext. auto.
Qed.
Lemma AddAccount_quiet u pw wg d d' : wf d -> wf d' -> AddAccount u pw wg d = Ok d' -> (good d -> good d') /\ forall n w v, accessOf d' n w v = accessOf d n w v.
Proof.
  intros H H' E. unfold AddAccount in E. destruct (findWorkgroupByUUID d wg) as [x|]; [|done]. destruct (existsb _ _); [done|]. injection E as <-. split; [done|]. intros n w v. apply accessOf_quiet; [done|done|done|].
  intros a Ha. apply elem_of_app. by left.
Qed.
Lemma AddWorkgroup_quiet uuid name dirs d d' : Shares.slashless uuid = true -> AddWorkgroup uuid name dirs d = Ok d' -> (good d -> good d') /\ forall n w v, accessOf d' n w v = accessOf d n w v.
Proof.
  intros Hs E. unfold AddWorkgroup in E. cbv zeta in E. destruct (find _ _) as [x|]; [by destruct (String.eqb _ _)|]. injection E as <-. split; [|done]. intros [G1 G2]. split; [done|].
  intros w [Hw| ->%list_elem_of_singleton]%elem_of_app; [by apply G2|done].
Qed.
Lemma EnsureAnonymous_quiet d : wf d -> (good d -> good (EnsureAnonymous d)) /\ forall n w v, accessOf (EnsureAnonymous d) n w v = accessOf d n w v.
Proof.
  intros H. pose proof (EnsureAnonymous_wf d H) as H'. unfold EnsureAnonymous in *. cbv zeta in *. split.
  - intros [G1 G2]. destruct (existsb _ (Workgroups d)); destruct (existsb _ (Accounts _)); split; try assumption; (intros w [Hw| ->%list_elem_of_singleton]%elem_of_app; [by apply G2|done]).
  - intros n w v. apply accessOf_quiet; [done|done|by destruct (existsb _ (Workgroups d)); destruct (existsb _ (Accounts _))|].
    intros a Ha. destruct (existsb _ (Workgroups d)); destruct (existsb _ (Accounts _)); cbn; try (apply elem_of_app; left); done.
Qed.
Lemma UpdateWorkgroup_quiet id dirs d d' : UpdateWorkgroup id dirs d = Ok d' -> (good d -> good d') /\ forall n w v, accessOf d' n w v = accessOf d n w v.
Proof.
  unfold UpdateWorkgroup. destruct (existsb _ _); [|done]. intros [= <-]. split; [|done]. intros [G1 G2]. split; [done|]. intros w [Hw|(b & Hb & _ & ->)]%elem_of_updateFirst; [by apply G2|by apply (G2 b)].
Qed.
Lemma good_UpdateShare s d d' : UpdateShare s d = Ok d' -> (good d -> good d') /\ forall n w v, accessOf d' n w v = accessOf d n w v.
Proof.
  unfold UpdateShare. destruct (existsb _ _); [|done]. intros [= <-]. split; [|done]. intros [G1 G2]. split; [|done]. intros sh [Hs|(b & Hb & _ & ->)]%elem_of_updateFirst; [by apply G1|by apply (G1 b)].
Qed.
(** Workgroups the server runs clients for are let go of; the accounts are gone by then. *)
Lemma disconnect_reflects A wg accs names : (forall l, accs = Some l -> l = []) -> forall w w' ok, reflects A w -> disconnect wg accs names w = (w', ok) -> reflects A w'.
Proof.
  intros Hl. induction names as [|n names IH]; intros w w' ok H E; simpl in E; [by injection E as <- <-|]. destruct (Shares.RemoveConnection wg n accs w) as [w1|e| |] eqn:Er; [|by injection E as <- <-..].
  eapply IH; [|exact E]. destruct accs as [l|].
  - rewrite (Hl l eq_refl) in Er. apply (reflects_RemoveConnection A) in Er; [|by intros acc ?%elem_of_nil|done]. revert Er. apply reflects_ext. intros n' wg' u _ _. by rewrite decide_False by by intros [_ ?%elem_of_nil].
  - unfold Shares.RemoveConnection in Er. destruct (Shares.shareList w !! n); [done|]. by injection Er as <-.
Qed.
Lemma accountsOf_elem wg d a : a ∈ accountsOf wg d <-> a ∈ Accounts d /\ ac_Workgroup a = wg.
Proof. unfold accountsOf. rewrite !list_elem_of_In, filter_In, String.eqb_eq. done. Qed.
Lemma elem_of_named wg u l : Shares.Account wg u ∈ map named l <-> exists a, a ∈ l /\ named a = Shares.Account wg u.
Proof. apply elem_of_keys. Qed.
(** Taking the accounts of a workgroup off the server is taking all of it off. *)
Lemma accountsOf_gone d wg0 n wg u : (if decide (Shares.Account wg u ∈ map named (accountsOf wg0 d)) then 0 else accessOf d n wg u) = if decide (wg = wg0) then 0 else accessOf d n wg u.
Proof.
  destruct (decide (Shares.Account wg u ∈ _)) as [(a & [Ha Hw]%accountsOf_elem & [= E1 E2])%elem_of_named|Hno]; [|destruct (decide (wg = wg0)) as [->|]; [|done]].
  - rewrite decide_True; [done|congruence].
  - apply accessOf_no_account. intros a Ha E. apply Hno, elem_of_named. exists a. split; [|done]. apply accountsOf_elem. split; [done|]. by injection E as <- _.
Qed.
Lemma total_inStep saves (f : jsonData -> jsonData) notify l : (forall d, wf d -> wf (f d)) ->
  (wf (data (js l)) -> good (data (js l)) -> reflects (accessOf (data (js l))) (running l) ->
     good (f (data (js l))) /\ forall w (ok : bool), notify (data (js l)) (f (data (js l))) (running l) = (w, ok) -> reflects (accessOf (if ok then f (data (js l)) else data (js l))) w) ->
  inStep l -> inStep (fst (update saves (fun d => mret (f d)) notify l)).
Proof. intros Hf Hs. apply update_inStep; [intros d d' H [= <-]; by apply Hf|]. intros d' Hd Gd _ Hr [= <-]. by apply Hs. Qed.
Lemma told_reflects A A' m w w' ok : reflects A w -> (forall w1, m = Ok w1 -> reflects A' w1) -> told m w = (w', ok) -> reflects (if ok then A' else A) w'.
Proof. intros H Hm E. unfold told in E. destruct m; injection E as <- <-; [by apply Hm|done..]. Qed.
Lemma remove_account_inStep saves u wg l : Shares.slashless wg = true -> inStep l ->
  inStep (fst (update saves (fun d => mret (RemoveAccount u wg d)) (fun _ _ w => (Shares.RemoveAccess (Shares.Account wg u) w, true)) l)).
Proof.
  intros Hs. apply (total_inStep _ (RemoveAccount u wg)); [apply RemoveAccount_wf|]. intros Hd Gd Hr. split.
  - apply (good_less _ _ Gd); intros x; unfold RemoveAccount; by destruct (find _ _).
  - intros w ok [= <- <-]. eapply reflects_ext; [|by apply reflects_RemoveAccess]. intros n wg' u' _ _. cbn beta. rewrite accessOf_RemoveAccount by done. apply decide_ext. split; intros [= -> ->]; done.
Qed.
Lemma remove_accounts_inStep saves wg l : inStep l -> inStep (fst (update saves (fun d => mret (RemoveAccounts wg d)) (fun d0 _ w => (removeAll (accountsOf wg d0) w, true)) l)).
Proof.
  apply (total_inStep _ (RemoveAccounts wg)); [apply RemoveAccounts_wf|]. intros Hd Gd Hr. split; [done|]. intros w ok [= <- <-]. eapply reflects_ext; [|apply reflects_removeAll; [|exact Hr]].
  - intros n wg' u' _ _. cbn beta. by rewrite accessOf_RemoveAccounts, accountsOf_gone by done.
  - intros a [Ha _]%accountsOf_elem. by apply (good_named _ Hd Gd).
Qed.
Lemma RemoveWorkgroup_accounts id d w : GetWorkgroupByID id d = Some w -> forall l, namedAll (wg_UUID w) (RemoveWorkgroup id d) = Some l -> l = [].
Proof.
  intros Hg l E. unfold namedAll, FindAccounts in E. destruct (parse _); [|done]. injection E as <-. unfold RemoveWorkgroup. rewrite Hg. cbn. by rewrite filter_without.
Qed.
Lemma remove_workgroup_inStep saves id l : inStep l -> inStep (fst (exec saves (ORemoveWorkgroup id) l)).
Proof.
  in_exec. apply (total_inStep _ (RemoveWorkgroup id)); [apply RemoveWorkgroup_wf|]. intros Hd Gd Hr. split.
  { apply (good_less _ _ Gd); intros x; unfold RemoveWorkgroup; destruct (GetWorkgroupByID id _); try done. apply elem_of_removeFirst. }
  intros w ok E. destruct (GetWorkgroupByID id (data (js l))) as [wg|] eqn:Eg; [|injection E as <- <-; unfold RemoveWorkgroup; by rewrite Eg].
  cbv zeta in E. destruct (disconnect _ _ _ _) as [w1 ok1] eqn:Ed. apply (disconnect_reflects (accessOf (data (js l)))) in Ed; [|by apply RemoveWorkgroup_accounts|done]. destruct ok1; injection E as <- <-; [|done].
  eapply reflects_ext; [|apply reflects_removeAll; [|exact Ed]].
  - intros n wg' u' _ _. cbn beta. by rewrite (accessOf_RemoveWorkgroup _ _ _ _ _ wg), accountsOf_gone by done.
  - intros a [Ha _]%accountsOf_elem. by apply (good_named _ Hd Gd).
Qed.
Lemma set_rights_inStep saves name ar l : inStep l -> inStep (fst (exec saves (OSetAccessRights name ar) l)).
Proof.
  in_exec. apply update_inStep; [intros d d'; apply SetAccessRights_wf|]. intros d' Hd Gd Hd' Hr E. assert (good d') as Gd'.
  { unfold SetAccessRights in E. destruct (negb _); [done|]. cbv zeta in E. destruct (String.eqb _ ""); [done|]. destruct (negb _); [done|]. by injection E as <-. }
  split; [done|]. intros w ok Et. apply (told_reflects (accessOf (data (js l))) (accessOf d')) in Et; [by destruct ok|done|]. intros w1 Hu.
  apply (reflects_UpdateAccessRights d' (accessOf (data (js l)))) in Hu; [|by apply good_named|done]. revert Hu. apply reflects_ext. intros n wg u _ _. by erewrite accessOf_SetAccessRights.
Qed.
Lemma remove_rights_inStep saves name id l : inStep l -> inStep (fst (exec saves (ORemoveAccessRights name id) l)).
Proof.
  in_exec. destruct (String.eqb name ""); [done|]. apply (total_inStep _ (RemoveAccessRights name id)); [intros d H; by apply removePolicies_wf|]. intros Hd Gd Hr. split; [done|]. intros w ok Et.
  apply (told_reflects (accessOf (data (js l))) (accessOf (RemoveAccessRights name id (data (js l))))) in Et; [by destruct ok|done|].
  intros w1 Hu. apply (reflects_UpdateAccessRights _ (accessOf (data (js l)))) in Hu; [|by apply (good_named _ Hd Gd)|done]. revert Hu. apply reflects_ext. intros n wg u _ _. by rewrite accessOf_RemoveAccessRights.
Qed.
Lemma clear_rights_inStep saves a l : a ∈ Accounts (data (js l)) -> inStep l -> inStep (fst (exec saves (OClearAccessRights a) l)).
Proof.
  in_exec. intros Ha. apply (total_inStep _ (ClearAccessRights (ac_ID a))); [intros d H; by apply removePolicies_wf|]. intros Hd Gd Hr. split; [done|]. intros w ok [= <- <-].
  eapply reflects_ext; [|apply reflects_RemoveAccess; [|exact Hr]]; [|by apply (good_named _ Hd Gd)]. intros n wg u _ _. cbn beta. by rewrite accessOf_ClearAccessRights.
Qed.
Lemma register_share_inStep saves sh cl info l : inStep l -> inStep (fst (exec saves (ORegisterShare sh cl info) l)).
Proof.
  in_exec. destruct (String.eqb_spec (Shares.st_Type (sh_Offer sh)) "renterd") as [Ht|]; cbn [negb]; [|done]. apply update_inStep; [intros d d'; apply RegisterShare_wf|]. intros d' Hd Gd Hd' Hr E.
  assert (good d' /\ forall n wg u, accessOf d' n wg u = accessOf (data (js l)) n wg u) as [Gd' Ha].
  { unfold RegisterShare in E. destruct (existsb _ _); [done|]. injection E as <-. split; [|done]. destruct Gd as [G1 G2]. split; [|done]. intros s [Hs| ->%list_elem_of_singleton]%elem_of_app; [by apply G1|done]. }
  split; [done|]. intros w ok Et. apply (told_reflects (accessOf (data (js l))) (accessOf d')) in Et; [by destruct ok|done|]. intros w1. apply registers_what_is_stored; [done|by apply good_named|done|]. revert Hr. apply reflects_ext. auto.
Qed.
Lemma good_GetShare d n sh : good d -> GetShare n d = Some sh -> Shares.st_Type (sh_Offer sh) = "renterd"%string /\ sh_Name sh = n.
Proof. unfold GetShare. destruct (String.eqb n ""); [done|]. intros [G1 _] [Hs E%String.eqb_eq]%find_found. split; [by apply G1|done]. Qed.
Lemma reflects_elsewhere A A' w n0 : reflects A w -> Shares.shareList w !! n0 = None -> (forall n wg u, n <> n0 -> A' n wg u = A n wg u) -> reflects A' w.
Proof.
  intros [H1 H2] Hn HA. split; [done|]. intros n i Hi. destruct (H2 n i Hi) as (sh & Hh & Hb & Hg). exists sh. split; [done|]. split; [done|]. intros Hne wg u Hw. rewrite HA by congruence. by apply Hg.
Qed.
Lemma unregister_share_inStep saves name closes l : inStep l -> inStep (fst (exec saves (OUnregisterShare name closes) l)).
Proof.
  in_exec. intros H. destruct (GetShare name (data (js l))) as [sh|] eqn:Eg; [|done]. destruct (Shares.RemoveShare _ _ _) as [w| | |] eqn:Er; [|done..]. pose proof H as (Ho & Gd & Gk & Hr).
  destruct (reflects_RemoveShare _ _ _ _ _ Hr Er) as (Hw & _ & Hno). apply (good_GetShare _ _ _ Gd) in Eg as [_ En]. unfold sh_Name in En. rewrite En in Hno.
  apply (total_inStep _ (UnregisterShare name)); [intros d; apply UnregisterShare_wf| |by split_and!]. intros Hd _ _. split.
  - apply (good_less _ _ Gd); [|done]. intros x. apply elem_of_removeFirst.
  - intros w1 ok [= <- <-]. apply (reflects_elsewhere _ _ _ _ Hw Hno). intros n wg u Hne. by apply accessOf_UnregisterShare.
Qed.
Lemma update_share_inStep saves sh cl l : inStep l -> inStep (fst (exec saves (OUpdateShare sh cl) l)).
Proof.
  in_exec. destruct (String.eqb (sh_Name sh) ""); [done|]. apply update_inStep; [intros d d'; apply UpdateShare_wf|]. intros d' Hd Gd Hd' Hr E. destruct (good_UpdateShare _ _ _ E) as [Hg Ha]. split; [by apply Hg|].
  intros w ok [= <- <-]. apply (reflects_ext (accessOf (data (js l)))); [auto|]. destruct (find _ (Shares_ d')); [by apply reflects_UpdateShare|done].
Qed.
Lemma add_connection_inStep saves uuid offer key cl info l : Shares.st_Type offer = "renterd"%string -> inStep l -> inStep (fst (exec saves (OAddConnection uuid offer key cl info) l)).
Proof.
  in_exec. intros Ht. apply update_inStep; [intros d d'; apply AddConnection_wf|]. intros d' Hd Gd Hd' Hr E.
  assert (good d' /\ forall n wg u, accessOf d' n wg u = accessOf (data (js l)) n wg u) as [Gd' Ha].
  { unfold AddConnection in E. destruct (findWorkgroupByUUID _ _) as [x|]; [|done]. destruct (negb _); [done|]. destruct (existsb _ (Connections _)); by injection E as <-. }
  split; [done|]. intros w ok Et. destruct (Shares.AddConnection _ _ _ _ _ _ _) as [w1 e] eqn:Ew. injection Et as <- <-. apply joins_what_is_stored in Ew; [|done|by apply good_named|done|apply (reflects_ext (accessOf (data (js l)))); [auto|done]].
  case_bool_decide; [done|]. revert Ew. apply reflects_ext. auto.
Qed.
Lemma remove_connection_inStep saves uuid name l : inStep l -> inStep (fst (exec saves (ORemoveConnection uuid name) l)).
Proof.
  in_exec. apply (total_inStep _ (RemoveConnection uuid name)); [intros d; apply RemoveConnection_wf|]. intros Hd Gd Hr. split; [done|]. intros w ok Et.
  apply (told_reflects (accessOf (data (js l))) (accessOf (RemoveConnection uuid name (data (js l))))) in Et; [by destruct ok|done|]. intros w1 Hu. unfold namedAll, FindAccounts in Hu. destruct (parse uuid).
  - assert (forall acc, acc ∈ map named (accountsOf uuid (data (js l))) -> Shares.slashless (Shares.acc_Workgroup acc) = true) as Hs.
    { intros acc (a & [Ha _]%accountsOf_elem & <-)%elem_of_keys. by apply (good_named _ Hd Gd). }
    apply (reflects_RemoveConnection _ _ _ _ _ _ Hs Hr) in Hu. revert Hu. apply reflects_ext. intros n wg u _ _. rewrite accessOf_RemoveConnection by done.
    destruct (decide (n = name)) as [->|]; [|by rewrite !decide_False by by intros [-> _]]. pose proof (accountsOf_gone (data (js l)) uuid name wg u) as Hgone.
    transitivity (if decide (wg = uuid) then 0 else accessOf (data (js l)) name wg u); [apply decide_ext; tauto|]. rewrite <- Hgone. apply decide_ext. tauto.
  - unfold Shares.RemoveConnection in Hu. destruct (Shares.shareList _ !! name) eqn:El; [done|]. injection Hu as <-. apply (reflects_elsewhere _ _ _ _ Hr El). intros n wg u Hne.
    rewrite accessOf_RemoveConnection by done. by rewrite decide_False by by intros [-> _].
Qed.
Lemma reach_inStep saves name cl info l : inStep l -> inStep (fst (exec saves (OReach name cl info) l)).
Proof.
  in_exec. intros H. destruct (GetShare name (data (js l))) as [sh|] eqn:Eg; [|done]. destruct (Shares.ensureShare _ _ _ _ _) as [[w i]| | |] eqn:Ee; [|done..]. pose proof H as (Ho & Gd & Gk & Hr).
  apply ensures_what_is_stored in Ee as [Hw _]; [by split_and!|apply Ho|apply good_named; [apply Ho|done]|by apply (good_GetShare _ _ _ Gd Eg)|done].
Qed.
Lemma restart_inStep saves l : inStep l -> inStep (fst (exec saves ORestart l)).
Proof. intros ((_ & Hk) & _ & Gk & _). cbn. rewrite opened_same by done. split_and!; try done; by intros n i ?. Qed.
Lemma exec_inStep saves o l : asked o (data (js l)) -> inStep l -> inStep (fst (exec saves o l)).
Proof.
  intros Ha. destruct o; cbn [asked] in Ha.
  - apply (quiet_inStep _ (fun d => mret (BanHost host reason d))); [intros d d' Hd [= <-]; by apply BanHost_wf|]. intros d d' _ _ [= <-]. unfold BanHost. by destruct (existsb _ _).
  - apply (quiet_inStep _ (fun d => mret (UnbanHost host d))); [intros d d' Hd [= <-]; by apply set_Bans_wf|]. by intros d d' _ _ [= <-].
  - apply (quiet_inStep _ (fun d => mret (set_Bans [] d))); [intros d d' Hd [= <-]; by apply set_Bans_wf|]. by intros d d' _ _ [= <-].
  - in_exec. intros H. destruct (IsAnonymousWorkgroup wg); [done|]. destruct (parse wg); [|done]. revert H. apply quiet_inStep; [intros d d'; apply AddAccount_wf|]. intros d d'. apply AddAccount_quiet.
  - apply (quiet_inStep _ (fun d => mret (EnsureAnonymous d))); [intros d d' Hd [= <-]; by apply EnsureAnonymous_wf|]. intros d d' Hd _ [= <-]. by apply EnsureAnonymous_quiet.
  - in_exec. intros H. destruct (parse wg); [|done]. by apply remove_account_inStep.
  - in_exec. intros H. destruct (parse wg); [|done]. by apply remove_accounts_inStep.
  - in_exec. intros H. destruct (String.eqb _ _); [done|]. revert H. apply quiet_inStep; [intros d d'; apply AddWorkgroup_wf|]. intros d d' _ _. by apply AddWorkgroup_quiet.
  - apply quiet_inStep; [intros d d'; apply UpdateWorkgroup_wf|]. intros d d' _ _. apply UpdateWorkgroup_quiet.
  - apply remove_workgroup_inStep.
  - apply set_rights_inStep.
  - apply remove_rights_inStep.
  - by apply clear_rights_inStep.
  - apply register_share_inStep.
  - apply unregister_share_inStep.
  - apply update_share_inStep.
  - by apply add_connection_inStep.
  - apply remove_connection_inStep.
  - apply (quiet_inStep _ (fun d => mret (SetAppKey uuid name key d))); [intros d d' Hd [= <-]; by apply SetAppKey_wf|]. by intros d d' _ _ [= <-].
  - apply reach_inStep.
  - apply restart_inStep.
Qed.
(** C21: The running server gives what the store says, where the store is asked for one
    thing after another.  However accounts, workgroups, shares, connections and rights come
    and go in calls that do not overlap, with saves that fail, changes that are rolled back
    and restarts in between, a share of the running server gives each account on its files
    exactly the access that the rights the store has for it amount to, and no access to an
    account the store does not know.  Workgroups are named by UUIDs, which have no slash in
    them, and what is handed to a call is of the store ([asked]).  Calls that overlap can put
    back what others did, see [rollback_undoes_another]. *)
Theorem server_gives_what_is_stored (ops : list ((bool * bool) * op)) (l : lite) : inStep l -> allAsked ops l ->
  forall n i, n <> ""%string -> Shares.shareList (running (play ops l)) !! n = Some i -> exists sh, Shares.heap (running (play ops l)) !! i = Some sh /\
    forall wg u, Shares.slashless wg = true -> default 0 (Shares.fileAccess wg u sh) = accessOf (data (js (play ops l))) n wg u.
Proof.
  intros H Ha. assert (inStep (play ops l)) as (_ & _ & _ & _ & Hr).
  { revert l H Ha. induction ops as [|[saves o] ops IH]; intros l H Ha; [done|]. destruct Ha as [Ho Ha]. apply IH; [by apply exec_inStep|done]. }
  intros n i Hn Hi. destruct (Hr n i Hi) as (sh & Hh & _ & Hg). exists sh. split; [done|]. by apply Hg.
Qed.
End store.

(** ** A store in use *)
Definition theGroup : string := "3f2504e0-4f89-11d3-9a0c-0305e82c3301".
Definition readOnly : AccessRights := mkAccessRights true false false false.
Definition papers : Share := MkShare Shares.paperShare "" 0 0 0 false.
Definition freshLite : lite := Lite (Store emptyData emptyData) (Shares.Shares ∅ ∅).
(** A first share cannot be reached, and is not kept; rights are given and cut back, the
    second time in vain, for the save fails; the server is started again and the share comes
    back with its first user. *)
Definition aLife : list ((bool * bool) * op) := [
  ((true, true), OEnsureAnonymous); ((true, true), OAddWorkgroup theGroup "office" []); ((true, true), OAddAccount "anna" "secret" theGroup); ((true, true), OAddAccount "bert" "secret" theGroup);
  ((true, true), ORegisterShare papers 0 None); ((true, true), ORegisterShare papers 0 (Some "b")); ((true, true), OAddConnection theGroup Shares.paperShare [] 0 (Some "b"));
  ((true, true), OSetAccessRights "papers" (Shares.Rights 2 (mkAccessRights true true true true))); ((true, true), OSetAccessRights "papers" (Shares.Rights 3 readOnly));
  ((true, true), OSetAccessRights "papers" (Shares.Rights 2 readOnly)); ((false, true), ORemoveAccessRights "papers" 2); ((true, true), ORemoveAccount "bert" theGroup);
  ((true, true), ORestart); ((true, true), OReach "papers" 0 (Some "b"))].
Abbreviation living := (play (fun s => Some s) (fun _ => []) (fun s => s) false false aLife freshLite).
Lemma freshLite_inStep : inStep freshLite.
Proof.
  split_and!; [split; apply wf_empty|split; by intros x ?%elem_of_nil..|]. by split; intros n i.
Qed.
Lemma server_gives_what_is_stored_witness :
  accessOf (data (js living)) "papers" theGroup "anna" = FlagsFromAccessRights readOnly /\ accessOf (data (js living)) "papers" theGroup "bert" = 0 /\
  exists sh, Shares.heap (running living) !! 0%nat = Some sh /\ forall wg u, Shares.slashless wg = true -> default 0 (Shares.fileAccess wg u sh) = accessOf (data (js living)) "papers" wg u.
Proof.
  split; [vm_compute; reflexivity|]. split; [vm_compute; reflexivity|]. apply server_gives_what_is_stored; [apply freshLite_inStep|cbn [allAsked aLife asked]; split_and!; vm_compute; reflexivity|done|vm_compute; reflexivity].
Defined.
(** A change that is rolled back puts back what was there before it, and with it goes what
    another change saved meanwhile: here the account that was added, and its number, are
    gone from memory and from the file, though adding it was reported to have worked. *)
Definition office : jsonData := appendWorkgroup theGroup "office" [] emptyData.
Theorem rollback_undoes_another : exists s1 before s2 before2,
  update_begin (RegisterShare papers) true (Store office office) = Ok (s1, before) /\
  update_begin (AddAccount (fun _ => []) "anna" "secret" theGroup) true s1 = Ok (s2, before2) /\
  map ac_Username (Accounts (data s2)) = ["anna"%string] /\ map ac_Username (Accounts (disk s2)) = ["anna"%string] /\
  Accounts (data (update_fail before true s2)) = [] /\ Accounts (disk (update_fail before true s2)) = [] /\ NextAccountID (data (update_fail before true s2)) = 1.
Proof. do 4 eexists. split_and!; vm_compute; reflexivity. Qed.
(** The store after that is still in order. *)
Lemma office_wf : wf office.
Proof. apply appendWorkgroup_wf; [apply wf_empty|apply not_elem_of_nil|right; by intros w ?%elem_of_nil]. Qed.
Lemma store_stays_in_order_witness : wf (data (update_fail office true (Store emptyData emptyData))) /\ wf (disk (update_fail office true (Store emptyData emptyData))).
Proof.
  set (d1 := set_Shares [papers] office). set (d2 := appendAccount "anna" [] theGroup d1).
  apply (store_stays_in_order (fun s => Some s) (fun _ => []) (fun s => s) (Calls (update_fail office true (Store d2 d2)) [d1])).
  apply (reach_step _ _ (Calls (Store d2 d2) ([d1] ++ [office]))); [|apply (step_put_back _ _ _ true (Store d2 d2) [d1] office [])].
  apply (reach_step _ _ (Calls (Store d1 d1) [office])); [|apply (step_change _ _ _ true (OAddAccount "anna" "secret" theGroup) (AddAccount (fun _ => []) "anna" "secret" theGroup) true); vm_compute; reflexivity].
  apply (reach_step _ _ (Calls (Store office office) [])); [|apply (step_change _ _ _ true (ORegisterShare papers 0 None) (RegisterShare papers) true); vm_compute; reflexivity].
  apply reach_init. split_and!; [apply office_wf|apply office_wf|reflexivity].
Defined.
End JsonStore.
