(* ===== verification/Tags.v ===== *)
(** What the objects of the object store say about their own contents: [client/objecttag.go].

    A tag is a list of pieces, runs of files that lie in the object, written as varints
    behind two bytes of kind and before a CRC-32, compressed where that is shorter.  A Go
    string is the list of its bytes.  Deflate is written out nowhere here: [deflate] and
    [inflate] are arguments, and so are the reading of a tag in JSON, the limit of the
    indexer on what it stores, and what the database and the indexer answer. *)
From S2P Require Import Prelude Bytes.

(** ** Varints, [encoding/binary] *)
Abbreviation reading := (outcome unit).
Abbreviation noTag := (Err tt).
Fixpoint AppendUvarint_loop (n : nat) (x : Z) : list Z :=
  match n with O => [] | S n => if x <? 0x80 then [x] else (u8 x .| 0x80) :: AppendUvarint_loop n (x >> 7) end.
Definition AppendUvarint (b : list Z) (x : Z) : list Z := b ++ AppendUvarint_loop 10 x.
Definition AppendVarint (b : list Z) (x : Z) : list Z := AppendUvarint b (if x <? 0 then maxU64 - u64 (x << 1) else u64 (x << 1)).
(** [n] bytes more may be read; the last of ten holds one bit. *)
Fixpoint ReadUvarint_loop (n : nat) (x s : Z) (r : list Z) : reading (Z * list Z) :=
  match n, r with
  | O, _ | _, [] => noTag
  | S n, b :: r =>
      if b <? 0x80 then (if Nat.eqb n 0 && (b >? 1) then noTag else mret (x .| (b << s), r))
      else ReadUvarint_loop n (x .| ((b .& 0x7f) << s)) (s + 7) r
  end.
Definition ReadUvarint (r : list Z) : reading (Z * list Z) := ReadUvarint_loop 10 0 0 r.
Definition int64 (x : Z) : Z := if u64 x <? 2 ^ 63 then u64 x else u64 x - 2 ^ 64.
Definition ReadVarint (r : list Z) : reading (Z * list Z) :=
  '(ux, r) ← ReadUvarint r;
  mret (if Z.odd ux then - int64 (ux >> 1) - 1 else int64 (ux >> 1), r).
Lemma land_127 x : x .& 0x7f = x mod 128.
Proof. apply (Z.land_ones x 7). lia. Qed.
Lemma continued x : u8 x .| 0x80 = x mod 128 + 128.
Proof.
  unfold u8. change (2 ^ 8) with (128 * 2). rewrite Z.rem_mul_r by lia. pose proof (Z.mod_pos_bound x 128 ltac:(lia)) as Hm. pose proof (Z.mod_pos_bound (x / 128) 2 ltac:(lia)) as H2.
  revert Hm H2. generalize (x mod 128) as a, ((x / 128) mod 2) as b. intros a b Ha Hb. rewrite (Z.add_comm a), Z.mul_comm, Z.add_comm. change 128 with (2 ^ 7) at 1. rewrite <- lor_shiftl_add by (change (2 ^ 7) with 128; lia).
  change 0x80 with (1 << 7). rewrite <- Z.lor_assoc, <- Z.shiftl_lor. replace (b .| 1) with 1; [rewrite lor_shiftl_add by (change (2 ^ 7) with 128; lia); by rewrite Z.mul_1_l|].
  by assert (b = 0 \/ b = 1) as [-> | ->] by lia.
Qed.
Lemma uvarint_loop n : forall x acc s rest, s = 63 - 7 * Z.of_nat n -> 0 <= s -> 0 <= acc < 2 ^ s -> 0 <= x < 2 ^ (64 - s) ->
  ReadUvarint_loop (S n) acc s (AppendUvarint_loop (S n) x ++ rest) = Ok (acc + x * 2 ^ s, rest).
Proof.
  induction n as [|n IH]; intros x acc s rest Es Hs Hacc Hx.
  - subst s. cbn [AppendUvarint_loop ReadUvarint_loop]. change (x < 2 ^ (64 - 63)) with (x < 2) in Hx. destruct (Z.ltb_spec x 0x80); [|lia]. cbn [app]. destruct (Z.ltb_spec x 0x80); [|lia]. destruct (x >? 1) eqn:E; [lia|]. cbn [Nat.eqb andb]. by rewrite lor_shiftl_add by lia.
  - remember (S n) as m eqn:Em. cbn [AppendUvarint_loop ReadUvarint_loop]. assert (2 ^ (64 - s) = 128 * 2 ^ (64 - (s + 7))) as E2 by (change 128 with (2 ^ 7); rewrite <- Z.pow_add_r by lia; f_equal; lia).
    assert (2 ^ (s + 7) = 2 ^ s * 128) as E3 by (by rewrite Z.pow_add_r by lia). pose proof (Z.mod_pos_bound x 128 ltac:(lia)) as Hm. destruct (Z.ltb_spec x 0x80) as [Hlt|Hge].
    + cbn [app]. destruct (Z.ltb_spec x 0x80); [|lia]. subst m. cbn [Nat.eqb andb]. by rewrite lor_shiftl_add by lia.
    + cbn [app]. rewrite continued. destruct (Z.ltb_spec (x mod 128 + 128) 0x80); [lia|]. rewrite land_127, Z.shiftr_div_pow2 by lia. change (2 ^ 7) with 128.
      replace ((x mod 128 + 128) mod 128) with (x mod 128) by (rewrite <- Zplus_mod_idemp_r, Z.mod_same, Z.add_0_r, Z.mod_mod by lia; done). rewrite lor_shiftl_add by lia. rewrite (IH (x / 128)).
      * do 2 f_equal. rewrite E3. rewrite (Z.div_mod x 128) at 3 by lia. ring.
      * lia.
      * lia.
      * rewrite E3. nia.
      * split; [by apply Z.div_pos; lia|]. apply Z.div_lt_upper_bound; lia.
Qed.
Lemma uvarint_back x rest : is_u64 x -> ReadUvarint (AppendUvarint_loop 10 x ++ rest) = Ok (x, rest).
Proof. intros Hx. unfold ReadUvarint. rewrite (uvarint_loop 9) by (try done; lia). do 2 f_equal. lia. Qed.
Definition zigzag (x : Z) : Z := if x <? 0 then maxU64 - u64 (x << 1) else u64 (x << 1).
Lemma varint_back x rest : - 2 ^ 63 <= x < 2 ^ 63 -> ReadVarint (AppendUvarint_loop 10 (zigzag x) ++ rest) = Ok (x, rest).
Proof.
  intros Hx. unfold ReadVarint. assert (is_u64 (zigzag x) /\ zigzag x = if x <? 0 then - 2 * x - 1 else 2 * x) as [Hz E].
  { unfold zigzag, u64, maxU64, is_u64. rewrite Z.shiftl_mul_pow2 by lia. destruct (Z.ltb_spec x 0).
    - replace ((x * 2 ^ 1) mod 2 ^ 64) with (x * 2 + 2 ^ 64) by (rewrite <- (Z.mod_add _ 1) by lia; rewrite Z.mod_small; lia). lia.
    - rewrite Z.mod_small by lia. lia. }
  rewrite uvarint_back by done. rewrite bind_ret. rewrite E. destruct (Z.ltb_spec x 0).
  - replace (- 2 * x - 1) with (2 * (- x - 1) + 1) by lia. rewrite Z.odd_odd, Z.shiftr_div_pow2 by lia. replace ((2 * (- x - 1) + 1) / 2 ^ 1) with (- x - 1) by (apply Z.div_unique with 1; lia).
    unfold int64, u64. rewrite Z.mod_small by lia. destruct (Z.ltb_spec (- x - 1) (2 ^ 63)); [|lia]. unfold mret, outcome_ret. do 2 f_equal. lia.
  - rewrite Z.odd_even, Z.shiftr_div_pow2 by lia. replace (2 * x / 2 ^ 1) with x by (apply Z.div_unique with 0; lia).
    unfold int64, u64. rewrite Z.mod_small by lia. by destruct (Z.ltb_spec x (2 ^ 63)); [|lia].
Qed.

Module Tags.
(** ** Tags *)
Definition tagJSON : Z := 1.
Definition tagBinary : Z := 2.
Definition tagCompressed : Z := 1.
Definition maxTagPlain : Z := 2 ^ 20.
Definition maxTagPieces : Z := 2 ^ 16.
Definition maxTagPath : Z := 2 ^ 12.
Definition sealedOverhead : Z := 24 + 16.
(** [transfer.CatalogFolder] and the slash after it. *)
Definition catalogPrefix : list Z := map (fun c => Z.of_N (Ascii.N_of_ascii c)) (String.list_ascii_of_string "/.sombrero/catalog/").
Record objectPiece := Piece { pc_Share : list Z; pc_Path : list Z; pc_Offset : Z; pc_At : Z; pc_Length : Z; pc_Size : Z }.
Record objectTag := Tag { tg_Version : Z; tg_Pieces : list objectPiece; tg_Omitted : Z }.
Definition isCatalog (p : objectPiece) : bool := bool_decide (take (length catalogPrefix) (pc_Path p) = catalogPrefix).
(** [sort.SliceStable]. *)
Fixpoint insertStable {A} (less : A -> A -> bool) (a : A) (l : list A) : list A :=
  match l with [] => [a] | b :: l => if less b a then b :: insertStable less a l else a :: b :: l end.
Definition SliceStable {A} (less : A -> A -> bool) (l : list A) : list A := foldr (insertStable less) [] l.
Definition sorted (l : list objectPiece) : list objectPiece := SliceStable (fun a b => isCatalog a && negb (isCatalog b)) l.
(** [sort.Search]. *)
Fixpoint Search_loop (fuel : nat) (f : Z -> bool) (i j : Z) : Z :=
  match fuel with
  | O => i
  | S fuel => if i <? j then let h := (i + j) >> 1 in if f h then Search_loop fuel f i h else Search_loop fuel f (h + 1) j else i
  end.
Definition Search (n : Z) (f : Z -> bool) : Z := Search_loop (S (Z.to_nat n)) f 0 n.

Definition appendString (b s : list Z) : list Z := AppendUvarint b (zlen s) ++ s.
Definition indexShare (s : list (list Z) * gmap (list Z) Z) (p : objectPiece) : list (list Z) * gmap (list Z) Z :=
  match s.2 !! pc_Share p with Some _ => s | None => (s.1 ++ [pc_Share p], <[pc_Share p := zlen s.1]> s.2) end.
Definition indexShares (l : list objectPiece) : list (list Z) * gmap (list Z) Z := foldl indexShare ([], ∅) l.
Definition appendPiece (index : gmap (list Z) Z) (s : list Z * Z) (p : objectPiece) : list Z * Z :=
  let '(b, e) := s in
  let b := AppendUvarint b (default 0 (index !! pc_Share p)) in
  let b := appendString b (pc_Path p) in
  let b := AppendUvarint b (pc_Offset p) in
  let b := AppendVarint b (int64 (int64 (pc_At p) - int64 e)) in
  let b := AppendUvarint b (pc_Length p) in
  let b := AppendUvarint b (pc_Size p) in
  (b, u64 (pc_At p + pc_Length p)).
Definition body (pieces : list objectPiece) (n : Z) : list Z :=
  let l := take (Z.to_nat n) pieces in
  let '(shares, index) := indexShares l in
  let b := AppendUvarint [] (u64 (zlen pieces - n)) in
  let b := AppendUvarint b (zlen shares) in
  let b := foldl appendString b shares in
  let b := AppendUvarint b n in
  let b := fst (foldl (appendPiece index) (b, 0) l) in
  b ++ be_enc 4 (ChecksumIEEE b).

Definition readString (r : list Z) (maxLen : Z) : reading (list Z * list Z) :=
  '(n, r) ← ReadUvarint r;
  if (n >? maxLen) || (n >? zlen r) then noTag else mret (take (Z.to_nat n) r, drop (Z.to_nat n) r).
Fixpoint readStrings_loop (n : nat) (r : list Z) (maxLen : Z) : reading (list (list Z) * list Z) :=
  match n with
  | O => mret ([], r)
  | S n => '(s, r) ← readString r maxLen; '(l, r) ← readStrings_loop n r maxLen; mret (s :: l, r)
  end.
Definition readStrings (r : list Z) (maxCount maxLen : Z) : reading (list (list Z) * list Z) :=
  '(n, r) ← ReadUvarint r;
  if n >? maxCount then noTag else readStrings_loop (Z.to_nat n) r maxLen.
(** The pieces, the first of them [n] of the tag: [e] is where the one before ended. *)
Fixpoint readPieces (n : nat) (shares : list (list Z)) (e : Z) (r : list Z) : reading (list objectPiece * list Z) :=
  match n with
  | O => mret ([], r)
  | S n =>
      '(share, r) ← ReadUvarint r;
      if share >=? zlen shares then noTag
      else
        '(path, r) ← readString r maxTagPath;
        '(offset, r) ← ReadUvarint r;
        '(distance, r) ← ReadVarint r;
        '(len, r) ← ReadUvarint r;
        '(size, r) ← ReadUvarint r;
        let at_ := int64 (int64 e + distance) in
        if at_ <? 0 then noTag
        else
          name ← index shares share;
          '(l, r) ← readPieces n shares (u64 (at_ + len)) r;
          mret (Piece name path offset at_ len size :: l, r)
  end.
(** What is left once the checksum is off. *)
Definition readBody (r : list Z) : reading objectTag :=
  '(omitted, r) ← ReadUvarint r;
  if omitted >? maxTagPlain then noTag
  else
    '(shares, r) ← readStrings r maxTagPieces maxTagPath;
    '(n, r) ← ReadUvarint r;
    if (n =? 0) || (n >? maxTagPieces) then noTag
    else
      '(l, r) ← readPieces (Z.to_nat n) shares 0 r;
      if negb (zlen r =? 0) then noTag else mret (Tag tagBinary l omitted).

Section flate.
(** [MaxMetadataSize] is of the indexer; [inflate n] reads at most [n] bytes of what a
    deflated stream holds. *)
Context (MaxMetadataSize : Z) (deflate : list Z -> list Z) (inflate : Z -> list Z -> option (list Z)) (unmarshal : list Z -> option objectTag).
Definition maxTagSize : Z := MaxMetadataSize - sealedOverhead.
Definition pack (pieces : list objectPiece) (n : Z) : list Z :=
  let b := body pieces n in
  let plain := [tagBinary; 0] ++ b in
  let zipped := [tagBinary; tagCompressed] ++ deflate b in
  if zlen zipped <? zlen plain then zipped else plain.
Definition fits (pieces : list objectPiece) (n : Z) : bool := zlen (pack pieces n) <=? maxTagSize.
Fixpoint stepDown (n : nat) (f : Z -> bool) : Z := match n with O => 0 | S m => if f (Z.of_nat n) then Z.of_nat n else stepDown m f end.
Fixpoint stepUp (more : nat) (n : Z) (f : Z -> bool) : Z := match more with O => n | S more => if f (n + 1) then stepUp more (n + 1) f else n end.
Definition howMany (pieces : list objectPiece) : Z :=
  let n := zlen pieces in
  if fits pieces n then n
  else
    let n := Search n (fun i => negb (fits pieces (i + 1))) in
    let n := stepDown (Z.to_nat n) (fits pieces) in
    stepUp (Z.to_nat (zlen pieces - n)) n (fits pieces).
(** [None] is a tag that names nothing. *)
Definition encode (pieces : list objectPiece) : option (list Z) :=
  if zlen pieces =? 0 then None
  else
    let pieces := sorted pieces in
    let n := howMany pieces in
    if n =? 0 then None else Some (pack pieces n).
Definition decodeTag (meta : list Z) : reading objectTag :=
  if zlen meta <? 2 then noTag
  else
    v ← index meta 0;
    if negb (v =? tagBinary) then noTag
    else
      b ← slice meta 2 (zlen meta);
      c ← index meta 1;
      b ← (if has c tagCompressed then
             match inflate (maxTagPlain + 1) b with
             | None => noTag
             | Some b => if zlen b >? maxTagPlain then noTag else mret b
             end
           else mret b);
      if zlen b <? 4 then noTag
      else
        sum ← slice b (zlen b - 4) (zlen b);
        b ← slice b 0 (zlen b - 4);
        if negb (ChecksumIEEE b =? be_dec sum) then noTag else readBody b.
Definition parseTag (meta : list Z) : reading objectTag :=
  if zlen meta =? 0 then noTag
  else
    v ← index meta 0;
    if v =? tagBinary then decodeTag meta
    else match unmarshal meta with
         | None => noTag
         | Some tag => if negb (tg_Version tag =? tagJSON) || (zlen (tg_Pieces tag) =? 0) then noTag else mret tag
         end.
Definition wantsTag (meta : list Z) : reading bool :=
  match parseTag meta with Ok tag => mret (negb (tg_Version tag =? tagBinary)) | Err _ => mret true | Panic => Panic | Stuck => Stuck end.

(** ** The tag of an object that is uploaded

    Of a job and of the owner of a piece, what the tag is made of. *)
Record UploadJob := Job { j_MetadataID : Z; j_ObjOffset : Z; j_Data : list Z }.
Record PieceOwner := Owner { o_Share : list Z; o_Path : list Z; o_Size : Z }.
Definition tagJob (owners : gmap Z PieceOwner) (s : list objectPiece * Z) (j : UploadJob) : list objectPiece * Z :=
  let '(l, at_) := s in
  (match owners !! j_MetadataID j with
   | Some o => l ++ [Piece (o_Share o) (o_Path o) (j_ObjOffset j) at_ (zlen (j_Data j)) (o_Size o)]
   | None => l
   end, at_ + zlen (j_Data j)).
Definition piecesOf (jobs : list UploadJob) (owners : gmap Z PieceOwner) : list objectPiece := fst (foldl (tagJob owners) ([], 0) jobs).
Definition tagPieces (jobs : list UploadJob) (owners : gmap Z PieceOwner) : option (list Z) := encode (piecesOf jobs owners).
(** What the object of a slab is to say now: [runs] is what [db.SlabRuns] answers, [None]
    where it fails. *)
Record SlabRun := Run { r_Share : list Z; r_Path : list Z; r_ObjOffset : Z; r_DataOffset : Z; r_DataLength : Z; r_Size : Z }.
Definition runPiece (r : SlabRun) : objectPiece := Piece (r_Share r) (r_Path r) (r_ObjOffset r) (r_DataOffset r) (r_DataLength r) (r_Size r).
Definition tagOfSlab (runs : option (list SlabRun)) : option (list Z) :=
  match runs with None | Some [] => None | Some runs => encode (map runPiece runs) end.

(** ** Writing and reading *)
Abbreviation uv := (AppendUvarint_loop 10).
Definition str (s : list Z) : list Z := uv (zlen s) ++ s.
Fixpoint piecesBytes (index : gmap (list Z) Z) (e : Z) (l : list objectPiece) : list Z :=
  match l with
  | [] => []
  | p :: l => uv (default 0 (index !! pc_Share p)) ++ str (pc_Path p) ++ uv (pc_Offset p) ++ uv (zigzag (int64 (int64 (pc_At p) - int64 e))) ++ uv (pc_Length p) ++ uv (pc_Size p)
              ++ piecesBytes index (u64 (pc_At p + pc_Length p)) l
  end.
Lemma appendStrings_concat l : forall b, foldl appendString b l = b ++ concat (map str l).
Proof. induction l as [|s l IH]; intros b; [by rewrite app_nil_r|]. simpl. rewrite IH. unfold appendString, AppendUvarint, str. by rewrite !app_assoc. Qed.
Lemma appendPieces_bytes index l : forall b e, fst (foldl (appendPiece index) (b, e) l) = b ++ piecesBytes index e l.
Proof.
  induction l as [|p l IH]; intros b e; [by rewrite app_nil_r|]. cbn [foldl appendPiece piecesBytes]. rewrite IH. unfold appendString, AppendVarint, AppendUvarint, zigzag, str. by rewrite <- !app_assoc.
Qed.
Definition payload (pieces : list objectPiece) (n : Z) : list Z :=
  let l := take (Z.to_nat n) pieces in let '(shares, index) := indexShares l in
  uv (u64 (zlen pieces - n)) ++ uv (zlen shares) ++ concat (map str shares) ++ uv n ++ piecesBytes index 0 l.
Lemma body_payload pieces n : body pieces n = payload pieces n ++ be_enc 4 (ChecksumIEEE (payload pieces n)).
Proof.
  unfold body, payload. destruct (indexShares _) as [shares index]. cbv zeta. rewrite appendPieces_bytes, appendStrings_concat. unfold AppendUvarint. rewrite app_nil_l, <- !app_assoc. done.
Qed.
Lemma readString_back s rest m : zlen s <= m -> is_u64 (zlen s) -> readString (str s ++ rest) m = Ok (s, rest).
Proof.
  intros Hm Hu. unfold readString, str. rewrite <- app_assoc, uvarint_back by done. rewrite bind_ret. destruct (zlen s >? m) eqn:E; [lia|]. rewrite zlen_app. pose proof (zlen_nonneg rest). destruct (zlen s >? zlen s + zlen rest) eqn:E2; [lia|].
  cbn [orb]. unfold zlen. rewrite Nat2Z.id, take_app_length, drop_app_length. done.
Qed.
Lemma readStrings_back l m rest : Forall (fun s => zlen s <= m /\ is_u64 (zlen s)) l -> readStrings_loop (length l) (concat (map str l) ++ rest) m = Ok (l, rest).
Proof.
  intros H. revert rest. induction H as [|s l [Hm Hu] _ IH]; intros rest; [done|]. cbn [readStrings_loop length map concat]. rewrite <- app_assoc, readString_back by done. rewrite bind_ret, IH. done.
Qed.
Definition piece_ok (p : objectPiece) : Prop :=
  zlen (pc_Share p) <= maxTagPath /\ zlen (pc_Path p) <= maxTagPath /\ bytes (pc_Share p) /\ bytes (pc_Path p) /\ is_u64 (pc_Offset p) /\ is_u64 (pc_Size p) /\ 0 <= pc_At p /\ 0 <= pc_Length p /\ pc_At p + pc_Length p < 2 ^ 63.
Lemma int64_small x : - 2 ^ 63 <= x < 2 ^ 63 -> int64 x = x.
Proof.
  intros Hx. unfold int64, u64. destruct (Z.ltb_spec x 0).
  - replace (x mod 2 ^ 64) with (x + 2 ^ 64) by (rewrite <- (Z.mod_add _ 1) by lia; rewrite Z.mod_small; lia). destruct (Z.ltb_spec (x + 2 ^ 64) (2 ^ 63)); lia.
  - rewrite Z.mod_small by lia. destruct (Z.ltb_spec x (2 ^ 63)); lia.
Qed.
Lemma path_u64 (s : list Z) : zlen s <= maxTagPath -> is_u64 (zlen s).
Proof. unfold maxTagPath, is_u64. pose proof (zlen_nonneg s). lia. Qed.
Lemma readPieces_back shares index l rest : forall e, 0 <= e < 2 ^ 63 -> Forall piece_ok l -> zlen shares < 2 ^ 63 ->
  Forall (fun p => exists i, index !! pc_Share p = Some i /\ 0 <= i < zlen shares /\ shares !! Z.to_nat i = Some (pc_Share p)) l ->
  readPieces (length l) shares e (piecesBytes index e l ++ rest) = Ok (l, rest).
Proof.
  induction l as [|p l IH]; intros e He Hok Hn Hin; [done|]. apply Forall_cons in Hok as [(Hs & Hp & _ & _ & Ho & Hsz & Ha & Hl & Hend) Hok]. apply Forall_cons in Hin as [(i & Hi & Hir & Hsi) Hin].
  cbn [readPieces length piecesBytes]. rewrite Hi. cbn [default]. unfold id. rewrite <- !app_assoc, uvarint_back by (unfold is_u64; lia). rewrite bind_ret. destruct (i >=? zlen shares) eqn:E; [lia|].
  rewrite readString_back by (done || by apply path_u64). rewrite bind_ret, uvarint_back by done. rewrite bind_ret, (int64_small (pc_At p)), (int64_small e), (int64_small (_ - _)) by lia.
  rewrite varint_back by lia. rewrite bind_ret, uvarint_back by (unfold is_u64; lia). rewrite bind_ret, uvarint_back by done. rewrite bind_ret. cbv zeta. replace (e + (pc_At p - e)) with (pc_At p) by lia. rewrite int64_small by lia.
  destruct (Z.ltb_spec (pc_At p) 0); [lia|]. rewrite (proj2 (index_Ok shares i (pc_Share p))) by (split; [lia|done]). rewrite bind_ret.
  assert (u64 (pc_At p + pc_Length p) = pc_At p + pc_Length p) as -> by (unfold u64; apply Z.mod_small; lia). rewrite IH by (done || lia). rewrite bind_ret. by destruct p.
Qed.

(** The shares of the pieces, each once, under its place. *)
Lemma indexShares_spec l : forall shares index, (forall n i, index !! n = Some i -> 0 <= i < zlen shares /\ shares !! Z.to_nat i = Some n) ->
  let '(shares', index') := foldl indexShare (shares, index) l in
  (forall n i, index' !! n = Some i -> 0 <= i < zlen shares' /\ shares' !! Z.to_nat i = Some n) /\ (forall n, is_Some (index !! n) -> is_Some (index' !! n)) /\
  Forall (fun p => is_Some (index' !! pc_Share p)) l /\ zlen shares' <= zlen shares + zlen l /\ (forall s, s ∈ shares' -> s ∈ shares \/ exists p, p ∈ l /\ pc_Share p = s).
Proof.
  induction l as [|p l IH]; intros shares index Hi; cbn [foldl]; [split_and!; [done|done|done|rewrite zlen_nil; lia|by left]|].
  assert (exists sh1 ix1, indexShare (shares, index) p = (sh1, ix1) /\ (forall n i, ix1 !! n = Some i -> 0 <= i < zlen sh1 /\ sh1 !! Z.to_nat i = Some n) /\ (forall n, is_Some (index !! n) -> is_Some (ix1 !! n)) /\
    is_Some (ix1 !! pc_Share p) /\ zlen sh1 <= zlen shares + 1 /\ (forall s, s ∈ sh1 -> s ∈ shares \/ s = pc_Share p)) as (sh1 & ix1 & -> & H1 & H2 & H3 & H4 & H5).
  { unfold indexShare. cbn [fst snd]. destruct (index !! pc_Share p) as [i|] eqn:E; [exists shares, index; split_and!; [done|done|done|by eexists|lia|by left]|]. eexists _, _. split; [done|]. split_and!.
    - intros n i [[<- <-]|[_ H]]%lookup_insert_Some.
      + split; [unfold zlen; rewrite length_app; simpl; lia|]. unfold zlen. rewrite Nat2Z.id. apply list_lookup_middle. done.
      + apply Hi in H as [H H']. split; [unfold zlen in *; rewrite length_app; simpl; lia|]. by apply lookup_app_l_Some.
    - intros n Hn. destruct (decide (n = pc_Share p)) as [->|]; [rewrite lookup_insert_eq; by eexists|by rewrite lookup_insert_ne].
    - rewrite lookup_insert_eq. by eexists.
    - unfold zlen. rewrite length_app. simpl. lia.
    - intros x [Hx| ->%list_elem_of_singleton]%elem_of_app; [by left|by right]. }
  specialize (IH sh1 ix1 H1). destruct (foldl indexShare (sh1, ix1) l) as [shares' index']. destruct IH as (I1 & I2 & I3 & I4 & I5). split_and!.
  - done.
  - intros n Hn. by apply I2, H2.
  - apply Forall_cons. split; [by apply I2|done].
  - rewrite zlen_cons. lia.
  - intros x Hx. destruct (I5 x Hx) as [Hx'|(q & Hq & E)]; [destruct (H5 x Hx') as [?| ->]; [by left|right; exists p; split; [apply list_elem_of_here|done]]|right; exists q; split; [by apply list_elem_of_further|done]].
Qed.
Lemma readBody_back pieces n : Forall piece_ok pieces -> zlen pieces <= maxTagPieces -> 0 < n <= zlen pieces -> readBody (payload pieces n) = Ok (Tag tagBinary (take (Z.to_nat n) pieces) (zlen pieces - n)).
Proof.
  intros Hok Hlen Hn. unfold payload, indexShares. set (l := take (Z.to_nat n) pieces). pose proof (indexShares_spec l [] ∅ ltac:(by intros ? ? ?)) as Hsp. destruct (foldl indexShare ([], ∅) l) as [shares index]. destruct Hsp as (H1 & _ & H3 & H4 & H5).
  assert (Forall piece_ok l) as Hl by by apply Forall_take. assert (zlen l = n) as Hln by (unfold zlen, l in *; rewrite length_take; lia). rewrite zlen_nil in H4. unfold maxTagPieces in Hlen. pose proof (zlen_nonneg shares).
  unfold readBody. assert (u64 (zlen pieces - n) = zlen pieces - n) as -> by (unfold u64; apply Z.mod_small; lia). rewrite uvarint_back by (unfold is_u64; lia). rewrite bind_ret. destruct (zlen pieces - n >? maxTagPlain) eqn:E; [unfold maxTagPlain in E; lia|].
  unfold readStrings. rewrite uvarint_back by (unfold is_u64; lia). rewrite bind_ret. destruct (zlen shares >? maxTagPieces) eqn:E2; [unfold maxTagPieces in E2; lia|].
  assert (Z.to_nat (zlen shares) = length shares) as -> by (unfold zlen; lia). rewrite readStrings_back, bind_ret.
  - rewrite uvarint_back by (unfold is_u64; lia). rewrite bind_ret. destruct (Z.eqb_spec n 0); [lia|]. destruct (n >? maxTagPieces) eqn:E3; [unfold maxTagPieces in E3; lia|]. cbn [orb].
    assert (Z.to_nat n = length l) as -> by (unfold zlen in Hln; lia). rewrite <- (app_nil_r (piecesBytes _ _ _)), readPieces_back; [done|lia|done|lia|].
    eapply Forall_impl; [exact H3|]. intros p [i Hi]. exists i. split; [done|]. by apply H1.
  - apply Forall_forall. intros x Hx. destruct (H5 x Hx) as [Hx'|(p & Hp & <-)]; [by apply elem_of_nil in Hx'|]. destruct (proj1 (Forall_forall _ _) Hl p Hp) as [Hs _]. split; [done|by apply path_u64].
Qed.
(** *** How many pieces fit *)
Lemma Search_range fuel f : forall i j, i <= j -> i <= Search_loop fuel f i j <= j.
Proof.
  induction fuel as [|fuel IH]; intros i j H; simpl; [lia|]. destruct (Z.ltb_spec i j); [|lia]. cbv zeta. rewrite Z.shiftr_div_pow2 by lia. change (2 ^ 1) with 2.
  assert (i <= (i + j) / 2 < j) by (split; [apply Z.div_le_lower_bound|apply Z.div_lt_upper_bound]; lia). destruct (f _); [specialize (IH i ((i + j) / 2))|specialize (IH ((i + j) / 2 + 1) j)]; lia.
Qed.
Lemma stepDown_fits n f : 0 <= stepDown n f <= Z.of_nat n /\ (stepDown n f = 0 \/ f (stepDown n f) = true).
Proof. induction n as [|n [IH1 IH2]]; [split; [done|by left]|]. cbn [stepDown]. destruct (f (Z.of_nat (S n))) eqn:E; [split; [lia|by right]|]. split; [lia|done]. Qed.
Lemma stepUp_fits more f : forall n, let r := stepUp more n f in n <= r <= n + Z.of_nat more /\ (r = n \/ f r = true) /\ (r = n + Z.of_nat more \/ f (r + 1) = false).
Proof.
  induction more as [|more IH]; intros n; cbn [stepUp]; cbv zeta; [split_and!; lia|]. destruct (f (n + 1)) eqn:E.
  - destruct (IH (n + 1)) as (H1 & H2 & H3). split_and!; [lia|lia| |destruct H3; [left; lia|by right]]. destruct H2 as [->|]; by right.
  - split_and!; [lia|lia|by left|by right].
Qed.
Lemma howMany_spec pieces : let n := howMany pieces in
  0 <= n <= zlen pieces /\ (n = 0 \/ fits pieces n = true) /\ (n = zlen pieces \/ fits pieces (n + 1) = false).
Proof.
  unfold howMany. cbv zeta. pose proof (zlen_nonneg pieces) as Hz. destruct (fits pieces (zlen pieces)) eqn:E; [split_and!; [lia|lia|by right|by left]|].
  set (n1 := Search _ _). assert (0 <= n1 <= zlen pieces) as H1 by (apply Search_range; lia). pose proof (stepDown_fits (Z.to_nat n1) (fits pieces)) as [H2 H3]. set (n2 := stepDown _ _) in *.
  destruct (stepUp_fits (Z.to_nat (zlen pieces - n2)) (fits pieces) n2) as (H4 & H5 & H6). set (n3 := stepUp _ _ _) in *. split_and!; [lia|lia| |destruct H6; [left; lia|by right]].
  destruct H5 as [->|]; [done|by right].
Qed.
(** *** The catalogs go first *)
Definition catalogsFirst (l : list objectPiece) : list objectPiece := List.filter isCatalog l ++ List.filter (fun p => negb (isCatalog p)) l.
Lemma insertStable_split a l k : Forall (fun p => isCatalog p = true) l -> Forall (fun p => isCatalog p = false) k ->
  insertStable (fun a b => isCatalog a && negb (isCatalog b)) a (l ++ k) = if isCatalog a then a :: l ++ k else l ++ a :: k.
Proof.
  intros Hl Hk. destruct (isCatalog a) eqn:Ea.
  - destruct l as [|b l]; [destruct k as [|b k]; [done|]|]; simpl.
    + apply Forall_cons in Hk as [-> _]. done.
    + by rewrite Ea, andb_false_r.
  - induction Hl as [|b l Hb _ IH]; simpl; [|by rewrite Hb, Ea, IH]. destruct k as [|b k]; [done|]. simpl. apply Forall_cons in Hk as [-> _]. done.
Qed.
Lemma sorted_catalogs l : sorted l = catalogsFirst l.
Proof.
  unfold sorted, SliceStable, catalogsFirst. induction l as [|p l IH]; [done|]. simpl. rewrite IH. rewrite insertStable_split; [by destruct (isCatalog p)| |];
  apply Forall_forall; intros x [_ Hx]%list_elem_of_In%filter_In; [done|by apply negb_true_iff].
Qed.
Lemma catalogsFirst_perm l : catalogsFirst l ≡ₚ l.
Proof.
  unfold catalogsFirst. induction l as [|p l IH]; [done|]. simpl. destruct (isCatalog p); simpl; [by rewrite IH|]. by rewrite <- Permutation_middle, IH.
Qed.

(** *** The checksum *)
Lemma bytes_uv n x : 0 <= x -> bytes (AppendUvarint_loop n x).
Proof.
  revert x. induction n as [|n IH]; intros x Hx; cbn [AppendUvarint_loop]; [by constructor|]. destruct (Z.ltb_spec x 0x80); [constructor; [unfold is_u8; lia|constructor]|].
  constructor; [rewrite continued; unfold is_u8; pose proof (Z.mod_pos_bound x 128); lia|]. apply IH. rewrite Z.shiftr_div_pow2 by lia. apply Z.div_pos; lia.
Qed.
Lemma zigzag_nonneg x : 0 <= zigzag x.
Proof. unfold zigzag, maxU64, u64. pose proof (Z.mod_pos_bound (x << 1) (2 ^ 64)). destruct (x <? 0); lia. Qed.
Lemma bytes_str s : bytes s -> bytes (str s).
Proof. intros H. apply Forall_app. split; [apply bytes_uv, zlen_nonneg|done]. Qed.
Lemma bytes_pieces index l : (forall n i, index !! n = Some i -> 0 <= i) -> Forall piece_ok l -> forall e, bytes (piecesBytes index e l).
Proof.
  intros Hi Hok. induction Hok as [|p l (_ & _ & _ & Hp & [Ho _] & [Hs _] & Ha & Hl & _) _ IH]; intros e; [constructor|]. cbn [piecesBytes].
  repeat (apply Forall_app; split); [|apply bytes_uv, zlen_nonneg|done|by apply bytes_uv|apply bytes_uv, zigzag_nonneg|by apply bytes_uv|by apply bytes_uv|apply IH].
  apply bytes_uv. destruct (index !! pc_Share p) as [i|] eqn:E; [by apply (Hi _ _ E)|done].
Qed.
Lemma bytes_payload pieces n : Forall piece_ok pieces -> 0 <= n -> bytes (payload pieces n).
Proof.
  intros Hok Hn. unfold payload, indexShares. set (l := take (Z.to_nat n) pieces). pose proof (indexShares_spec l [] ∅ ltac:(by intros ? ? ?)) as Hsp. destruct (foldl indexShare ([], ∅) l) as [shares index]. destruct Hsp as (H1 & _ & _ & _ & H5).
  assert (Forall piece_ok l) as Hl by by apply Forall_take. unfold u64.
  repeat (apply Forall_app; split); [apply bytes_uv, Z.mod_pos_bound; lia|apply bytes_uv, zlen_nonneg| |by apply bytes_uv|apply bytes_pieces; [intros m i Hi; by apply H1 in Hi as [[? _] _]|done]].
  apply Forall_forall. intros x Hx. apply list_elem_of_In, in_concat in Hx as (y & (z & <- & Hz)%in_map_iff & Hx). apply list_elem_of_In in Hz. destruct (H5 z Hz) as [Hz'|(p & Hp & <-)]; [by apply elem_of_nil in Hz'|].
  destruct (proj1 (Forall_forall _ _) Hl p Hp) as (_ & _ & Hb & _). apply bytes_str, Forall_forall with (x := x) in Hb; [done|by apply list_elem_of_In].
Qed.
Lemma checked (b : list Z) : bytes b -> forall (k : list Z -> reading objectTag),
  (if zlen (b ++ be_enc 4 (ChecksumIEEE b)) <? 4 then noTag
   else
     sum ← slice (b ++ be_enc 4 (ChecksumIEEE b)) (zlen (b ++ be_enc 4 (ChecksumIEEE b)) - 4) (zlen (b ++ be_enc 4 (ChecksumIEEE b)));
     b ← slice (b ++ be_enc 4 (ChecksumIEEE b)) 0 (zlen (b ++ be_enc 4 (ChecksumIEEE b)) - 4);
     if negb (ChecksumIEEE b =? be_dec sum) then noTag else k b) = k b.
Proof.
  intros Hb k. set (c := be_enc 4 (ChecksumIEEE b)). assert (length c = 4%nat) as Hc by (unfold c, be_enc; by rewrite length_rev, length_le_enc).
  assert (zlen (b ++ c) = zlen b + 4) as Hz by (unfold zlen; rewrite length_app; lia). rewrite Hz. pose proof (zlen_nonneg b). destruct (Z.ltb_spec (zlen b + 4) 4); [lia|].
  replace (zlen b + 4 - 4) with (zlen b) by lia. rewrite !slice_Ok by lia. rewrite !bind_ret.
  assert (sub (b ++ c) (zlen b) (zlen b + 4) = c) as ->.
  { unfold sub, zlen. rewrite Nat2Z.id, drop_app_length. apply take_ge. lia. }
  assert (sub (b ++ c) 0 (zlen b) = b) as -> by (unfold sub, zlen; rewrite Z.sub_0_r, Nat2Z.id; apply take_app_length).
  assert (be_dec c = ChecksumIEEE b) as ->; [|by rewrite Z.eqb_refl]. unfold c, be_dec, be_enc. rewrite rev_involutive. apply le_dec_enc_small. by apply crc_bound.
Qed.
(** ** What is written reads back *)
Lemma parses_binary m rest : parseTag (tagBinary :: m :: rest) = decodeTag (tagBinary :: m :: rest).
Proof.
  unfold parseTag. rewrite !zlen_cons. pose proof (zlen_nonneg rest). destruct (Z.eqb_spec (1 + (1 + zlen rest)) 0); [lia|]. done.
Qed.
Context (inflates : forall n b, bytes b -> zlen b <= n -> inflate n (deflate b) = Some b).
Lemma packed_reads_back pieces n : Forall piece_ok pieces -> zlen pieces <= maxTagPieces -> 0 < n <= zlen pieces -> zlen (body pieces n) <= maxTagPlain ->
  parseTag (pack pieces n) = Ok (Tag tagBinary (take (Z.to_nat n) pieces) (zlen pieces - n)).
Proof using inflates.
  intros Hok Hlen Hn Hplain. unfold pack. cbv zeta. pose proof (readBody_back pieces n Hok Hlen Hn) as Hback. pose proof (bytes_payload pieces n Hok ltac:(lia)) as Hb.
  assert (bytes (body pieces n)) as Hbody by (rewrite body_payload; apply Forall_app; split; [done|apply Forall_rev, bytes_le_enc]).
  assert (forall c rest, slice (tagBinary :: c :: rest) 2 (zlen (tagBinary :: c :: rest)) = @Ok unit _ rest) as Hcut.
  { intros c rest. pose proof (zlen_nonneg rest). rewrite slice_Ok by (rewrite ?zlen_cons; lia). f_equal. unfold sub. rewrite !zlen_cons. change (Z.to_nat 2) with 2%nat. cbn [drop]. apply take_ge. unfold zlen. lia. }
  assert (forall c rest, (zlen (tagBinary :: c :: rest) <? 2) = false) as Htwo by (intros c rest; rewrite !zlen_cons; pose proof (zlen_nonneg rest); apply Z.ltb_ge; lia).
  destruct (zlen ([tagBinary; tagCompressed] ++ deflate (body pieces n)) <? _); cbn [app]; rewrite parses_binary; unfold decodeTag; rewrite Htwo; (rewrite (proj2 (index_Ok _ 0 tagBinary)) by done); rewrite bind_ret, Z.eqb_refl; cbn [negb]; rewrite Hcut, bind_ret.
  - rewrite (proj2 (index_Ok _ 1 tagCompressed)) by done. rewrite bind_ret. change (has tagCompressed tagCompressed) with true. cbn iota. rewrite inflates by (done || lia). destruct (zlen (body pieces n) >? maxTagPlain) eqn:E; [lia|].
    rewrite bind_mret. cbv beta. rewrite body_payload, checked by done. done.
  - rewrite (proj2 (index_Ok _ 1 0)) by done. rewrite bind_ret. change (has 0 tagCompressed) with false. cbn iota. rewrite bind_mret. cbv beta. rewrite body_payload, checked by done. done.
Qed.
(** C23: What an object is made to say about itself reads back, where it keeps to the bounds
    of the reader: shares and paths of at most 4096 bytes, at most 65536 pieces, and a plain
    form of at most a mebibyte.  Then the tag fits what the indexer takes, and reads back as
    the pieces in their order, those of catalogs in front, as many of them as fit, with the
    number of those left out; there is none where there is nothing to name or not one piece
    fits.  The writer does not see to these bounds itself, see [long_path_hides_the_rest]. *)
Theorem tag_reads_back (pieces : list objectPiece) : Forall piece_ok pieces -> zlen pieces <= maxTagPieces -> (forall n, 0 < n <= zlen pieces -> zlen (body (catalogsFirst pieces) n) <= maxTagPlain) ->
  match encode pieces with
  | None => pieces = [] \/ maxTagSize < zlen (pack (catalogsFirst pieces) 1)
  | Some meta => zlen meta <= maxTagSize /\ exists n, 0 < n <= zlen pieces /\ parseTag meta = Ok (Tag tagBinary (take (Z.to_nat n) (catalogsFirst pieces)) (zlen pieces - n)) /\
      (n = zlen pieces \/ maxTagSize < zlen (pack (catalogsFirst pieces) (n + 1)))
  end.
Proof using inflates.
  intros Hok Hlen Hplain. unfold encode. destruct (Z.eqb_spec (zlen pieces) 0) as [Ez|Hne]; [left; destruct pieces; [done|rewrite zlen_cons in Ez; pose proof (zlen_nonneg pieces); lia]|]. cbv zeta. rewrite sorted_catalogs.
  set (l := catalogsFirst pieces) in *. assert (zlen l = zlen pieces) as El by (unfold zlen; f_equal; apply Permutation_length, catalogsFirst_perm). assert (Forall piece_ok l) as Hl by (unfold l; by rewrite catalogsFirst_perm).
  destruct (howMany_spec l) as (H1 & H2 & H3). set (n := howMany l) in *. rewrite El in *. unfold fits in H2, H3. destruct (Z.eqb_spec n 0) as [E0|H0].
  - right. rewrite E0 in H3. destruct H3 as [|H3%Z.leb_gt]; [lia|done].
  - destruct H2 as [|H2%Z.leb_le]; [lia|]. split; [done|]. exists n. split; [lia|]. split; [rewrite packed_reads_back, El by (done || lia || (apply Hplain; lia)); done|]. destruct H3 as [|H3%Z.leb_gt]; [by left|by right].
Qed.
End flate.

(** ** Reading anything *)
Section reading.
Lemma reads_uvarint r : bytes r -> meets (fun v => 0 <= v.1 /\ bytes v.2) (ReadUvarint r).
Proof.
  assert (forall n r x s, 0 <= x -> bytes r -> meets (fun v => 0 <= v.1 /\ bytes v.2) (ReadUvarint_loop n x s r)) as Hn; [|by apply Hn]. clear r. intros n.
  induction n as [|n IH]; intros r x s Hx Hr; [done|]. destruct r as [|b r]; [done|]. cbn [ReadUvarint_loop]. apply Forall_cons in Hr as [Hu Hr]. unfold is_u8 in Hu. destruct (Z.ltb_spec b 0x80) as [Hb|Hb].
  - destruct (Nat.eqb n 0 && (b >? 1)); [done|]. split; [|done]. apply Z.lor_nonneg. split; [done|]. apply Z.shiftl_nonneg. lia.
  - apply IH; [|done]. apply Z.lor_nonneg. split; [done|]. apply Z.shiftl_nonneg, Z.land_nonneg. lia.
Qed.
Lemma reads_varint r : bytes r -> meets (fun v => bytes v.2) (ReadVarint r).
Proof. intros Hr. eapply meets_bind; [by apply reads_uvarint|]. by intros [v r'] [_ H]. Qed.
Lemma reads_string r m : bytes r -> meets (fun v => zlen v.1 <= m /\ bytes v.2) (readString r m).
Proof.
  intros Hr. eapply meets_bind; [by apply reads_uvarint|]. intros [n r'] [Hn H]. cbn in Hn, H. destruct (n >? m) eqn:E; [done|]. destruct (n >? zlen r') eqn:E2; [done|]. cbn. split; [unfold zlen in *; rewrite length_take; lia|].
  by apply Forall_drop.
Qed.
Lemma reads_strings n m : forall r, bytes r -> meets (fun v => zlen v.1 = Z.of_nat n /\ Forall (fun s => zlen s <= m) v.1 /\ bytes v.2) (readStrings_loop n r m).
Proof.
  induction n as [|n IH]; intros r Hr; [by split_and!|]. cbn [readStrings_loop]. eapply meets_bind; [by apply reads_string|]. intros [s r1] [Hs Hr1]. eapply meets_bind; [by apply IH|]. intros [l r2] (Hz & Hl & Hr2).
  cbn in *. split_and!; [rewrite zlen_cons; lia|by constructor|done].
Qed.
Definition piece_read (p : objectPiece) : Prop := zlen (pc_Share p) <= maxTagPath /\ zlen (pc_Path p) <= maxTagPath /\ 0 <= pc_Offset p /\ 0 <= pc_At p /\ 0 <= pc_Length p /\ 0 <= pc_Size p.
Lemma reads_pieces n shares : Forall (fun s => zlen s <= maxTagPath) shares -> forall e r, bytes r -> meets (fun v => zlen v.1 = Z.of_nat n /\ Forall piece_read v.1) (readPieces n shares e r).
Proof.
  intros Hs. induction n as [|n IH]; intros e r Hr; [done|]. cbn [readPieces]. eapply meets_bind; [by apply reads_uvarint|]. intros [share r1] [H1 Hr1]. cbn in H1, Hr1. destruct (share >=? zlen shares) eqn:E; [done|].
  eapply meets_bind; [by apply reads_string|]. intros [path r2] [H2 Hr2]. eapply meets_bind; [by apply reads_uvarint|]. intros [offset r3] [H3 Hr3]. eapply meets_bind; [by apply reads_varint|]. intros [distance r4] Hr4.
  eapply meets_bind; [by apply reads_uvarint|]. intros [len r5] [H5 Hr5]. eapply meets_bind; [by apply reads_uvarint|]. intros [size r6] [H6 Hr6]. cbn in *. cbv zeta. destruct (Z.ltb_spec (int64 (int64 e + distance)) 0); [done|].
  destruct (@index_in_range (list Z) unit shares share) as (name & -> & Hn); [lia|]. rewrite bind_ret. eapply meets_bind; [by apply IH|]. intros [l r7] [H7 H8]. cbn in *. split; [rewrite zlen_cons; lia|]. constructor; [|done].
  split_and!; try done. by apply (proj1 (Forall_lookup _ _) Hs _ _ Hn).
Qed.
Lemma reads_body r : bytes r -> meets (fun tag => tg_Version tag = tagBinary /\ 0 < zlen (tg_Pieces tag) <= maxTagPieces /\ 0 <= tg_Omitted tag <= maxTagPlain /\ Forall piece_read (tg_Pieces tag)) (readBody r).
Proof.
  intros Hr. unfold readBody. eapply meets_bind; [by apply reads_uvarint|]. intros [omitted r1] [H1 Hr1]. cbn in H1, Hr1. destruct (omitted >? maxTagPlain) eqn:E1; [done|]. unfold readStrings.
  eapply (meets_bind (fun v => Forall (fun s => zlen s <= maxTagPath) v.1 /\ bytes v.2)).
  { eapply meets_bind; [by apply reads_uvarint|]. intros [n r2] [H2 Hr2]. cbn in H2, Hr2. destruct (n >? maxTagPieces); [done|]. pose proof (reads_strings (Z.to_nat n) maxTagPath r2 Hr2) as H. destruct (readStrings_loop _ _ _) as [v| | |]; [|done..]. by destruct H as (_ & H & H'). }
  intros [shares r2] [H2 Hr2]. cbn in H2, Hr2. eapply meets_bind; [by apply reads_uvarint|]. intros [n r3] [H3 Hr3]. cbn in H3, Hr3. destruct (Z.eqb_spec n 0); [done|]. destruct (n >? maxTagPieces) eqn:E3; [done|]. cbn [orb].
  eapply meets_bind; [by apply reads_pieces|]. intros [l r4] [Hl Hok]. cbn in Hl, Hok. destruct (negb _); [done|]. cbn. split_and!; try done; lia.
Qed.
Context (inflate : Z -> list Z -> option (list Z)) (unmarshal : list Z -> option objectTag).
Context (inflates_bytes : forall n b r, inflate n b = Some r -> bytes r).
Lemma reads_tag meta : bytes meta -> meets (fun tag => tg_Version tag = tagBinary /\ 0 < zlen (tg_Pieces tag) <= maxTagPieces /\ 0 <= tg_Omitted tag <= maxTagPlain /\ Forall piece_read (tg_Pieces tag)) (decodeTag inflate meta).
Proof using inflates_bytes.
  intros Hm. unfold decodeTag. destruct (Z.ltb_spec (zlen meta) 2) as [|Hlen]; [done|]. destruct (@index_in_range Z unit meta 0) as (v & -> & _); [lia|]. rewrite bind_ret. destruct (negb _); [done|]. rewrite slice_Ok by lia. rewrite bind_ret.
  destruct (@index_in_range Z unit meta 1) as (c & -> & _); [lia|]. rewrite bind_ret. eapply (meets_bind bytes).
  { destruct (has c tagCompressed); [|by apply bytes_sub]. destruct (inflate _ _) as [b|] eqn:E; [|done]. apply inflates_bytes in E. by destruct (zlen b >? maxTagPlain). }
  intros b Hb. destruct (Z.ltb_spec (zlen b) 4); [done|]. rewrite !slice_Ok by lia. rewrite !bind_ret. destruct (negb _); [done|]. by apply reads_body, bytes_sub.
Qed.
(** A tag may come from anyone's account.  Whatever its bytes are, reading it comes to a
    tag or to none without a panic, and a tag in the binary layout is held to the bounds: it
    names between one and 65536 pieces, each under a share and a path of at most 4096 bytes. *)
Theorem any_tag_is_read (meta : list Z) : bytes meta -> match parseTag inflate unmarshal meta with
  | Ok tag => 0 < zlen (tg_Pieces tag) /\ (take 1 meta = [tagBinary] -> tg_Version tag = tagBinary /\ zlen (tg_Pieces tag) <= maxTagPieces /\ tg_Omitted tag <= maxTagPlain /\ Forall piece_read (tg_Pieces tag))
  | Err _ => True
  | Panic | Stuck => False
  end.
Proof using inflates_bytes.
  intros Hm. unfold parseTag. destruct meta as [|v meta]; [done|]. rewrite zlen_cons. pose proof (zlen_nonneg meta). destruct (Z.eqb_spec (1 + zlen meta) 0); [lia|]. rewrite (proj2 (index_Ok _ 0 v)) by done. rewrite bind_ret.
  destruct (Z.eqb_spec v tagBinary) as [->|Hv].
  - pose proof (reads_tag _ Hm) as H1. destruct (decodeTag _ _) as [tag| | |]; [|done..]. destruct H1 as (Hv & H1 & H2 & H3). split; [lia|]. intros _. split_and!; try done; lia.
  - destruct (unmarshal _) as [tag|]; [|done]. destruct (negb _); [done|]. cbn [orb]. pose proof (zlen_nonneg (tg_Pieces tag)). destruct (Z.eqb_spec (zlen (tg_Pieces tag)) 0); [done|]. split; [lia|]. intros [= ?]. congruence.
Qed.
End reading.

(** ** The pieces of an object *)
Definition objectOf (jobs : list UploadJob) : list Z := concat (map j_Data jobs).
Fixpoint piecesFrom (owners : gmap Z PieceOwner) (at_ : Z) (jobs : list UploadJob) : list objectPiece :=
  match jobs with
  | [] => []
  | j :: jobs => match owners !! j_MetadataID j with Some o => [Piece (o_Share o) (o_Path o) (j_ObjOffset j) at_ (zlen (j_Data j)) (o_Size o)] | None => [] end
                 ++ piecesFrom owners (at_ + zlen (j_Data j)) jobs
  end.
Lemma tagJobs_pieces owners jobs : forall l at_, fst (foldl (tagJob owners) (l, at_) jobs) = l ++ piecesFrom owners at_ jobs.
Proof. induction jobs as [|j jobs IH]; intros l at_; [by rewrite app_nil_r|]. cbn [foldl tagJob piecesFrom]. rewrite IH. destruct (owners !! _); [by rewrite <- app_assoc|done]. Qed.
Lemma elem_of_piecesFrom owners p jobs : forall at_, p ∈ piecesFrom owners at_ jobs <->
  exists before j after o, jobs = before ++ j :: after /\ owners !! j_MetadataID j = Some o /\ p = Piece (o_Share o) (o_Path o) (j_ObjOffset j) (at_ + zlen (objectOf before)) (zlen (j_Data j)) (o_Size o).
Proof.
  induction jobs as [|j jobs IH]; intros at_; cbn [piecesFrom]; [split; [by intros ?%elem_of_nil|intros ([|? ?] & ? & ? & ? & ? & _); done]|]. rewrite elem_of_app, IH. clear IH. split.
  - intros [H|(before & j' & after & o & -> & Ho & ->)].
    + destruct (owners !! j_MetadataID j) as [o|] eqn:Ho; [|by apply elem_of_nil in H]. apply list_elem_of_singleton in H as ->. exists [], j, jobs, o. split_and!; [done|done|]. unfold objectOf. cbn. by rewrite Z.add_0_r.
    + exists (j :: before), j', after, o. split_and!; [done|done|]. f_equal. unfold objectOf. cbn. rewrite zlen_app. lia.
  - intros (before & j' & after & o & E & Ho & ->). destruct before as [|x before]; injection E as -> ->.
    + left. rewrite Ho. apply list_elem_of_singleton. unfold objectOf. cbn. by rewrite Z.add_0_r.
    + right. exists before, j', after, o. split_and!; [done|done|]. f_equal. unfold objectOf. cbn. rewrite zlen_app. lia.
Qed.
(** A tag of an upload is true of it.  Each piece named is where the tag says in the
    object that is uploaded, holds the data of one of its jobs, and is under the name the
    owner of that job has; and every job with an owner has its piece. *)
Theorem pieces_are_there (jobs : list UploadJob) (owners : gmap Z PieceOwner) (p : objectPiece) :
  p ∈ piecesOf jobs owners <->
  exists before j after o, jobs = before ++ j :: after /\ owners !! j_MetadataID j = Some o /\
    p = Piece (o_Share o) (o_Path o) (j_ObjOffset j) (pc_At p) (zlen (j_Data j)) (o_Size o) /\ pc_At p = zlen (objectOf before) /\
    sub (objectOf jobs) (pc_At p) (pc_At p + pc_Length p) = j_Data j.
Proof.
  unfold piecesOf. rewrite tagJobs_pieces. cbn [app]. rewrite elem_of_piecesFrom. split.
  - intros (before & j & after & o & -> & Ho & ->). exists before, j, after, o. cbn [pc_At pc_Length]. split_and!; [done|done|done|lia|]. unfold objectOf. rewrite map_app, concat_app. cbn [map concat]. rewrite Z.add_0_l. unfold sub, zlen.
    rewrite Nat2Z.id, drop_app_length. replace (Z.to_nat _) with (length (j_Data j)) by lia. apply take_app_length.
  - intros (before & j & after & o & -> & Ho & E & Ha & _). exists before, j, after, o. split_and!; [done|done|]. by rewrite E, Ha.
Qed.

(** ** Tags owed

    The slabs whose objects are to be told what they hold now: a change adds to them, the
    worker takes them all off and writes one after the other, in whatever order the map has
    them.  An indexer that refuses a tag is not asked again; one that fails to answer is. *)
Abbreviation slabKey := Z.
Definition retag (keys : list slabKey) (q : gset slabKey) : gset slabKey := match keys with [] => q | _ => q ∪ list_to_set keys end.
Definition retagLater (key : slabKey) (q : gset slabKey) : gset slabKey := q ∪ {[ key ]}.
Definition takeRetags (q : gset slabKey) : list slabKey * gset slabKey := (elements q, ∅).
Inductive answer := NoTagOwed | TagTaken | TagRefused | TagFailed.
#[export] Instance answer_eq_dec : EqDecision answer.
Proof. solve_decision. Defined.
(** [stops] is whether the share is draining, or the context done, before a key. *)
Fixpoint writeTags_loop (keys : list slabKey) (stops : slabKey -> bool) (ans : slabKey -> answer) (q : gset slabKey) (owing : bool) : gset slabKey * bool :=
  match keys with
  | [] => (q, owing)
  | k :: keys =>
      if stops k then (q, false)
      else match ans k with
           | TagFailed => writeTags_loop keys stops ans (retagLater k q) true
           | _ => writeTags_loop keys stops ans q owing
           end
  end.
(** What comes of a slab: [runs] and [Retag] are the database and the indexer. *)
Definition slabAnswer (MaxMetadataSize : Z) (deflate : list Z -> list Z) (runs : slabKey -> option (list SlabRun)) (Retag : slabKey -> list Z -> answer) (key : slabKey) : answer :=
  match tagOfSlab MaxMetadataSize deflate (runs key) with None => NoTagOwed | Some meta => Retag key meta end.
(** [meanwhile] is what further changes add while the worker is at it. *)
Definition writeTags (stops : slabKey -> bool) (ans : slabKey -> answer) (meanwhile : list slabKey) (q : gset slabKey) : gset slabKey * bool :=
  let '(keys, q) := takeRetags q in writeTags_loop keys stops ans (retag meanwhile q) false.
Lemma writeTags_loop_spec keys ans : forall q owing, let '(q', owing') := writeTags_loop keys (fun _ => false) ans q owing in
  (forall k, k ∈ q' <-> k ∈ q \/ (k ∈ keys /\ ans k = TagFailed)) /\ (owing' = true <-> owing = true \/ exists k, k ∈ keys /\ ans k = TagFailed).
Proof.
  induction keys as [|x keys IH]; intros q owing; cbn [writeTags_loop].
  - split; [intros k; rewrite elem_of_nil; tauto|]. split; [by left|]. intros [?|(k & Hk%elem_of_nil & _)]; done.
  - destruct (ans x) eqn:Ex.
    4: { specialize (IH (retagLater x q) true). destruct (writeTags_loop _ _ _ _ _) as [q' owing']. destruct IH as [H1 H2]. split.
         - intros k. rewrite H1. unfold retagLater. rewrite elem_of_union, elem_of_singleton, elem_of_cons. split; [intros [[?| ->]|[? ?]]; auto|intros [?|[[->|?] ?]]; auto].
         - rewrite H2. split; [intros _; right; exists x; split; [apply list_elem_of_here|done]|by left]. }
    all: specialize (IH q owing); destruct (writeTags_loop _ _ _ _ _) as [q' owing']; destruct IH as [H1 H2]; split;
      [intros k; rewrite H1, elem_of_cons; split; [intros [?|[? ?]]; auto|intros [?|[[->|?] ?]]; [auto|congruence|auto]]
      |rewrite H2; split; (intros [?|(k & Hk & E)]; [by left|right; exists k; split; [|done]]); [by apply list_elem_of_further|apply elem_of_cons in Hk as [->|?]; [congruence|done]]].
Qed.
(** No tag owed is forgotten: after a round of the worker that was not stopped the slabs on
    the list are those added meanwhile and those the indexer failed to take, and the worker
    comes back of itself exactly if there is one of the latter. *)
Lemma no_tag_forgotten MaxMetadataSize deflate runs Retag (meanwhile : list slabKey) (q : gset slabKey) : let ans := slabAnswer MaxMetadataSize deflate runs Retag in let '(q', owing) := writeTags (fun _ => false) ans meanwhile q in
  (forall k, k ∈ q' <-> k ∈ meanwhile \/ (k ∈ q /\ ans k = TagFailed)) /\ (owing = true <-> exists k, k ∈ q /\ ans k = TagFailed).
Proof.
  cbv zeta. set (ans := slabAnswer _ _ _ _). unfold writeTags, takeRetags. pose proof (writeTags_loop_spec (elements q) ans (retag meanwhile ∅) false) as H. destruct (writeTags_loop _ _ _ _ _) as [q' owing]. destruct H as [H1 H2]. split.
  - intros k. rewrite H1, elem_of_elements. unfold retag. destruct meanwhile as [|m ms]; [split; [intros [?|?]; [set_solver|by right]|intros [?%elem_of_nil|?]; [done|by right]]|]. rewrite elem_of_union, elem_of_list_to_set. set_solver.
  - rewrite H2. setoid_rewrite elem_of_elements. split; [by intros [?|?]|by right].
Qed.

(** ** A tag *)
Definition bytesOf (s : string) : list Z := map (fun c => Z.of_N (Ascii.N_of_ascii c)) (String.list_ascii_of_string s).
Definition stored : list Z -> list Z := fun b => b.
Definition unstored : Z -> list Z -> option (list Z) := fun n b => if decide (bytes b) then Some (take (Z.to_nat n) b) else None.
Definition report : objectPiece := Piece (bytesOf "office") (bytesOf "/reports/2024.txt") 4096 0 700 5000.
Definition catalog : objectPiece := Piece (bytesOf "office") (bytesOf "/.sombrero/catalog/1") 0 700 300 300.
Definition jobs : list UploadJob := [Job 7 4096 (replicate 700 1); Job 9 0 (replicate 300 2); Job 8 12 [3; 4]].
Definition owners : gmap Z PieceOwner := {[ 7 := Owner (bytesOf "office") (bytesOf "/reports/2024.txt") 5000; 9 := Owner (bytesOf "office") (bytesOf "/.sombrero/catalog/1") 300 ]}.
Lemma tag_reads_back_witness :
  parseTag unstored (fun _ => None) (default [] (encode 1024 stored [report; catalog])) = Ok (Tag tagBinary [catalog; report] 0) /\
  match encode 1024 stored [report; catalog] with
  | None => [report; catalog] = [] \/ maxTagSize 1024 < zlen (pack stored (catalogsFirst [report; catalog]) 1)
  | Some meta => zlen meta <= maxTagSize 1024 /\ exists n, 0 < n <= zlen [report; catalog] /\
      parseTag unstored (fun _ => None) meta = Ok (Tag tagBinary (take (Z.to_nat n) (catalogsFirst [report; catalog])) (zlen [report; catalog] - n)) /\
      (n = zlen [report; catalog] \/ maxTagSize 1024 < zlen (pack stored (catalogsFirst [report; catalog]) (n + 1)))
  end.
Proof.
  split; [vm_compute; reflexivity|]. apply (tag_reads_back 1024 stored unstored (fun _ => None)).
  - intros n b Hb Hn. unfold unstored, stored. rewrite decide_True by done. f_equal. apply take_ge. unfold zlen in Hn. lia.
  - assert (forall p, p ∈ [report; catalog] -> piece_ok p) as H; [|by apply Forall_forall]. intros p [->|[->|Hp%elem_of_nil]%elem_of_cons]%elem_of_cons; [..|done];
      (split_and!; try (vm_compute; done); by apply (bool_decide_unpack _); vm_compute).
  - vm_compute. done.
  - intros n Hn. change (zlen [report; catalog]) with 2 in Hn. assert (n = 1 \/ n = 2) as [-> | ->] by lia; vm_compute; done.
Defined.
Lemma any_tag_is_read_witness : parseTag unstored (fun _ => None) [2; 0; 0x80; 0x80; 0x80] = Err tt /\
  match parseTag unstored (fun _ => None) [2; 0; 0x80; 0x80; 0x80] with
  | Ok tag => 0 < zlen (tg_Pieces tag) /\ (take 1 [2; 0; 0x80; 0x80; 0x80] = [tagBinary] -> tg_Version tag = tagBinary /\ zlen (tg_Pieces tag) <= maxTagPieces /\ tg_Omitted tag <= maxTagPlain /\ Forall piece_read (tg_Pieces tag))
  | Err _ => True
  | Panic | Stuck => False
  end.
Proof.
  split; [vm_compute; reflexivity|]. apply any_tag_is_read.
  - intros n b r. unfold unstored. destruct (decide (bytes b)); [|done]. intros [= <-]. by apply Forall_take.
  - by apply (bool_decide_unpack _); vm_compute.
Defined.
(** The writer does not hold itself to the reader's bounds: a file with a path of more than
    4096 bytes is named in a tag that is then refused as a whole, the other files of the
    object with it. *)
Definition deep : objectPiece := Piece (bytesOf "office") (47 :: replicate 4096 97) 0 1000 24 24.
Theorem long_path_hides_the_rest :
  match encode 8192 stored [report; deep] with Some meta => parseTag unstored (fun _ => None) meta = Err tt | None => False end /\
  match encode 8192 stored [report] with Some meta => parseTag unstored (fun _ => None) meta = Ok (Tag tagBinary [report] 0) | None => False end.
Proof. split; vm_compute; reflexivity. Qed.
End Tags.
