(* ===== verification/Carve.v ===== *)
(** Files found by their structure in objects that say nothing about themselves:
    [client/carve.go].

    A walk over a file comes to its length, to [Err tt] where the data is no whole file of
    the kind, or to a panic, which it is shown not to.  Strings are lists of bytes, but for
    the extensions.  The three regular expressions are written out as what they match.
    Fuel: every turn of a walk moves on by at least one byte and is given one turn more than
    there are bytes. *)
From S2P Require Import Prelude Bytes.

Module Carve.
Abbreviation walk := (outcome unit).
Abbreviation notWhole := (Err tt).
Definition bytesOf (s : string) : list Z := map (fun c => Z.of_N (Ascii.N_of_ascii c)) (String.list_ascii_of_string s).
(** [bytes.HasPrefix] and [bytes.Index]. *)
Definition HasPrefix (l pat : list Z) : bool := bool_decide (take (length pat) l = pat).
Fixpoint Index (l pat : list Z) : Z :=
  if HasPrefix l pat then 0
  else match l with [] => -1 | _ :: l => let j := Index l pat in if j <? 0 then -1 else j + 1 end.
Definition suffix (l : list Z) (i : Z) : walk (list Z) := slice l i (zlen l).

(** ** JPEG *)
Definition isFrameHeader (marker : Z) : bool := (marker >=? 0xc0) && (marker <=? 0xcf) && negb (marker =? 0xc4) && negb (marker =? 0xc8) && negb (marker =? 0xcc).
Definition segmentLength (data : list Z) (at_ : Z) : walk Z :=
  if at_ + 2 >? zlen data then notWhole
  else len ← get_be data at_ 2; if (len <? 2) || (at_ + len >? zlen data) then notWhole else mret len.
Definition restart (b : Z) : bool := (b >=? 0xd0) && (b <=? 0xd7).
Fixpoint scan_loop (fuel : nat) (data : list Z) (i : Z) : walk Z :=
  match fuel with
  | O => Stuck
  | S fuel =>
      rest ← suffix data i;
      let j := Index rest [0xff] in
      if (j <? 0) || (i + j + 1 >=? zlen data) then notWhole
      else
        let i := i + j in
        next ← index data (i + 1);
        if (next =? 0) || restart next then scan_loop fuel data (i + 2) else mret i
  end.
Fixpoint jpeg_loop (fuel : nat) (data : list Z) (i : Z) (frame scan : bool) : walk Z :=
  match fuel with
  | O => Stuck
  | S fuel =>
      if i + 1 >=? zlen data then notWhole
      else
        c ← index data i;
        if negb (c =? 0xff) then notWhole
        else
          marker ← index data (i + 1);
          if marker =? 0xff then jpeg_loop fuel data (i + 1) frame scan
          else if (marker =? 0xd8) || (marker =? 0x01) || restart marker then (if marker =? 0xd8 then notWhole else jpeg_loop fuel data (i + 2) frame scan)
          else if marker =? 0xd9 then (if scan then mret (i + 2) else notWhole)
          else if marker =? 0xda then
            if negb frame then notWhole
            else
              segment ← segmentLength data (i + 2);
              i ← scan_loop (S (length data)) data (i + 2 + segment);
              jpeg_loop fuel data i frame true
          else if negb ((marker >=? 0xc0) && (marker <=? 0xfe)) then notWhole
          else
            segment ← segmentLength data (i + 2);
            jpeg_loop fuel data (i + 2 + segment) (frame || isFrameHeader marker) scan
  end.
Definition jpegLength (data : list Z) : walk Z :=
  if zlen data <? 4 then notWhole
  else
    a ← index data 0; b ← index data 1;
    if negb (a =? 0xff) || negb (b =? 0xd8) then notWhole else jpeg_loop (S (length data)) data 2 false false.

(** ** PNG *)
Fixpoint png_loop (fuel : nat) (data : list Z) (i : Z) (first : bool) : walk Z :=
  match fuel with
  | O => Stuck
  | S fuel =>
      if i + 8 >? zlen data then notWhole
      else
        len ← get_be data i 4;
        kind ← slice data (i + 4) (i + 8);
        if (len <? 0) || (i + 12 + len >? zlen data) then notWhole
        else if first && (negb (bool_decide (kind = bytesOf "IHDR")) || negb (len =? 13)) then notWhole
        else
          covered ← slice data (i + 4) (i + 8 + len);
          sum ← get_be data (i + 8 + len) 4;
          if negb (ChecksumIEEE covered =? sum) then notWhole
          else if bool_decide (kind = bytesOf "IEND") then mret (i + 12 + len) else png_loop fuel data (i + 12 + len) false
  end.
Definition pngLength (data : list Z) : walk Z := png_loop (S (length data)) data 8 true.

(** ** GIF *)
Fixpoint subBlocks_loop (fuel : nat) (data : list Z) (at_ : Z) : walk Z :=
  match fuel with
  | O => Stuck
  | S fuel =>
      if at_ >=? zlen data then notWhole
      else size ← index data at_; if size =? 0 then mret (at_ + 1) else subBlocks_loop fuel data (at_ + 1 + size)
  end.
Definition subBlocks (data : list Z) (at_ : Z) : walk Z := subBlocks_loop (S (length data)) data at_.
Definition colorTable (flags : Z) : Z := if has flags 0x80 then 3 << ((flags .& 0x07) + 1) else 0.
Fixpoint gif_loop (fuel : nat) (data : list Z) (i : Z) : walk Z :=
  match fuel with
  | O => Stuck
  | S fuel =>
      if i >=? zlen data then notWhole
      else
        b ← index data i;
        if b =? 0x3b then mret (i + 1)
        else if b =? 0x21 then e ← subBlocks data (i + 2); gif_loop fuel data e
        else if b =? 0x2c then
          if i + 10 >? zlen data then notWhole
          else
            flags ← index data (i + 9);
            e ← subBlocks data (i + 10 + colorTable flags + 1);
            gif_loop fuel data e
        else notWhole
  end.
Definition gifLength (data : list Z) : walk Z :=
  if zlen data <? 13 then notWhole else flags ← index data 10; gif_loop (S (length data)) data (13 + colorTable flags).

(** ** ZIP *)
Definition eocd : list Z := [0x50; 0x4b; 0x05; 0x06].
Definition eocdSize : Z := 22.
Fixpoint zip_loop (fuel : nat) (data : list Z) (from : Z) : walk Z :=
  match fuel with
  | O => Stuck
  | S fuel =>
      rest ← suffix data from;
      let j := Index rest eocd in
      if j <? 0 then notWhole
      else
        let at_ := from + j in
        if at_ + eocdSize >? zlen data then notWhole
        else
          dirSize ← get_le data (at_ + 12) 4;
          dirOffset ← get_le data (at_ + 16) 4;
          comment ← get_le data (at_ + 20) 2;
          if negb (dirOffset + dirSize =? at_) || (dirOffset + 4 >? zlen data) then zip_loop fuel data (at_ + 1)
          else
            entry ← slice data dirOffset (dirOffset + 4);
            if negb (bool_decide (entry = [0x50; 0x4b; 0x01; 0x02])) then zip_loop fuel data (at_ + 1)
            else let e := at_ + eocdSize + comment in if e >? zlen data then notWhole else mret e
  end.
Definition zipLength (data : list Z) : walk Z := zip_loop (S (length data)) data 0.

(** ** PDF *)
Definition isSpace (b : Z) : bool := bool_decide (b ∈ [9; 10; 12; 13; 32]).
Definition isDigit (b : Z) : bool := (b >=? 48) && (b <=? 57).
Fixpoint span (p : Z -> bool) (l : list Z) : list Z * list Z :=
  match l with [] => ([], []) | b :: l' => if p b then let '(t, r) := span p l' in (b :: t, r) else ([], l) end.
(** [^%PDF-[12]\.\d]. *)
Definition pdfHeader (data : list Z) : bool :=
  HasPrefix data (bytesOf "%PDF-") && match drop 5 data with v :: d :: m :: _ => ((v =? 49) || (v =? 50)) && (d =? 46) && isDigit m | _ => false end.
(** [startxref\s+(\d+)\s*$], the digits of its first match. *)
Definition startxrefHere (l : list Z) : option (list Z) :=
  if negb (HasPrefix l (bytesOf "startxref")) then None
  else
    let '(sp, r) := span isSpace (drop 9 l) in
    let '(ds, r) := span isDigit r in
    let '(_, r) := span isSpace r in
    if bool_decide (sp = []) || bool_decide (ds = []) || negb (bool_decide (r = [])) then None else Some ds.
Fixpoint startxref (l : list Z) : option (list Z) :=
  match startxrefHere l with Some ds => Some ds | None => match l with [] => None | _ :: l => startxref l end end.
(** [^\s*(xref|\d+\s+\d+\s+obj)]. *)
Definition xrefAt (l : list Z) : bool :=
  let '(_, l) := span isSpace l in
  HasPrefix l (bytesOf "xref") ||
  let '(d1, r) := span isDigit l in
  let '(s1, r) := span isSpace r in
  let '(d2, r) := span isDigit r in
  let '(s2, r) := span isSpace r in
  negb (bool_decide (d1 = [])) && negb (bool_decide (s1 = [])) && negb (bool_decide (d2 = [])) && negb (bool_decide (s2 = [])) && HasPrefix r (bytesOf "obj").
(** [strconv.Atoi], which fails past the largest [int]. *)
Definition Atoi (ds : list Z) : option Z := let v := foldl (fun v d => 10 * v + (d - 48)) 0 ds in if v <? 2 ^ 63 then Some v else None.
Fixpoint skipNewlines (fuel : nat) (data : list Z) (e : Z) : walk Z :=
  match fuel with
  | O => Stuck
  | S fuel => if e <? zlen data then b ← index data e; if (b =? 13) || (b =? 10) then skipNewlines fuel data (e + 1) else mret e else mret e
  end.
Fixpoint pdf_loop (fuel : nat) (data : list Z) (e from : Z) : walk Z :=
  match fuel with
  | O => Stuck
  | S fuel =>
      rest ← suffix data from;
      let j := Index rest (bytesOf "%%EOF") in
      if j <? 0 then mret e
      else
        let at_ := from + j in
        let from := at_ + 5 in
        trailer ← slice data (if at_ - 64 <? 0 then 0 else at_ - 64) at_;
        match startxref trailer with
        | None => mret e
        | Some ds =>
            match Atoi ds with
            | None => mret e
            | Some offset =>
                if (offset <=? 0) || (offset >=? at_) then mret e
                else
                  table ← suffix data offset;
                  if negb (xrefAt table) then mret e
                  else e ← skipNewlines (S (length data)) data from; pdf_loop fuel data e from
            end
        end
  end.
Definition pdfLength (data : list Z) : walk Z :=
  if negb (pdfHeader data) then notWhole else e ← pdf_loop (S (length data)) data 0 0; if e >? 0 then mret e else notWhole.

(** ** ISO base media *)
Definition topLevelAtoms : list (list Z) :=
  map bytesOf ["ftyp"; "moov"; "mdat"; "free"; "skip"; "wide"; "meta"; "moof"; "mfra"; "uuid"; "pdin"; "styp"; "sidx"; "ssix"; "prft"; "udta"; "junk"; "pnot"; "emsg"; "PICT"]%string.
Definition is_ (kind : list Z) (s : string) : bool := bool_decide (kind = bytesOf s).
Fixpoint iso_loop (fuel : nat) (data : list Z) (i : Z) (mdat idx : bool) : walk (Z * bool * bool) :=
  match fuel with
  | O => Stuck
  | S fuel =>
      if i + 8 >? zlen data then mret (i, mdat, idx)
      else
        size ← get_be data i 4;
        kind ← slice data (i + 4) (i + 8);
        if negb (bool_decide (kind ∈ topLevelAtoms)) || (is_ kind "ftyp" && (i >? 0)) then mret (i, mdat, idx)
        else if (size =? 1) && (i + 16 >? zlen data) then mret (i, mdat, idx)
        else
          '(size, header) ← (if size =? 1 then size ← get_be data (i + 8) 8; mret (size, 16) else mret (size, 8));
          if (size <? header) || (size >? zlen data - i) then mret (i, mdat, idx)
          else iso_loop fuel data (i + size) (mdat || is_ kind "mdat") (idx || is_ kind "moov" || is_ kind "meta")
  end.
Definition isoLength (data : list Z) : walk Z :=
  '(i, mdat, idx) ← iso_loop (S (length data)) data 0 false false;
  if negb mdat || negb idx then notWhole else mret i.
Definition isoName (data : list Z) : walk string :=
  if zlen data <? 12 then mret "mp4"%string
  else
    brand ← slice data 8 12;
    mret (if is_ brand "qt  " then "mov" else if is_ brand "M4A " then "m4a"
          else if is_ brand "heic" || is_ brand "heix" || is_ brand "hevc" || is_ brand "hevx" || is_ brand "mif1" || is_ brand "msf1" then "heic"
          else if is_ brand "avif" || is_ brand "avis" then "avif" else "mp4")%string.

(** ** RIFF *)
Definition riffForm (form : list Z) : option string :=
  if is_ form "AVI " then Some "avi"%string else if is_ form "WAVE" then Some "wav"%string else if is_ form "WEBP" then Some "webp"%string else None.
Definition printable (b : list Z) : bool := forallb (fun c => negb ((c <? 0x20) || (c >? 0x7e))) b.
Fixpoint riffChunk_loop (fuel : nat) (data : list Z) (i e : Z) : walk unit :=
  match fuel with
  | O => Stuck
  | S fuel =>
      if i >=? e then mret tt
      else if i + 8 >? e then notWhole
      else
        kind ← slice data i (i + 4);
        if negb (printable kind) then notWhole
        else
          n ← get_le data (i + 4) 4;
          let i := i + (8 + n + (n .& 1)) in
          if i >? e + 1 then notWhole else riffChunk_loop fuel data i e
  end.
Definition riffChunk (data : list Z) (at_ : Z) : walk Z :=
  if at_ + 12 >? zlen data then notWhole
  else
    size ← get_le data (at_ + 4) 4;
    let e := at_ + 8 + size in
    if (size <? 4) || (e >? zlen data) then notWhole
    else
      form ← slice data (at_ + 8) (at_ + 12);
      if bool_decide (riffForm form = None) && negb (is_ form "AVIX") then notWhole
      else _ ← riffChunk_loop (S (length data)) data (at_ + 12) e; mret e.
Fixpoint riff_loop (fuel : nat) (data : list Z) (e : Z) : walk Z :=
  match fuel with
  | O => Stuck
  | S fuel =>
      if e + 12 >? zlen data then mret e
      else
        head ← slice data e (e + 4);
        form ← slice data (e + 8) (e + 12);
        if negb (is_ head "RIFF" && is_ form "AVIX") then mret e
        else match riffChunk data e with Ok e => riff_loop fuel data e | Err _ => mret e | Panic => Panic | Stuck => Stuck end
  end.
Definition riffLength (data : list Z) : walk Z := e ← riffChunk data 0; riff_loop (S (length data)) data e.
Definition riffName (data : list Z) : walk string :=
  if zlen data <? 12 then mret "avi"%string else form ← slice data 8 12; mret (default ""%string (riffForm form)).

(** ** Carving *)
Record format := Format { f_ext : string; f_magic : list Z; f_lead : Z; f_length : list Z -> walk Z; f_name : option (list Z -> walk string) }.
Definition formats : list format := [
  Format "jpg" [0xff; 0xd8; 0xff] 0 jpegLength None;
  Format "png" [0x89; 0x50; 0x4e; 0x47; 0x0d; 0x0a; 0x1a; 0x0a] 0 pngLength None;
  Format "gif" (bytesOf "GIF89a") 0 gifLength None;
  Format "gif" (bytesOf "GIF87a") 0 gifLength None;
  Format "zip" [0x50; 0x4b; 0x03; 0x04] 0 zipLength None;
  Format "pdf" (bytesOf "%PDF-") 0 pdfLength None;
  Format "mp4" (bytesOf "ftyp") 4 isoLength (Some isoName);
  Format "avi" (bytesOf "RIFF") 0 riffLength (Some riffName)].
Definition extension (f : format) (data : list Z) : walk string := match f_name f with Some name => name data | None => mret (f_ext f) end.
Record Find_ := Find { fd_Offset : Z; fd_Length : Z; fd_Ext : string }.
Definition End_ (f : Find_) : Z := fd_Offset f + fd_Length f.
Definition nextMagic_step (data : list Z) (from : Z) (f : format) (best : option (format * Z)) : walk (option (format * Z)) :=
  let search := from + f_lead f in
  if search >=? zlen data then mret best
  else
    rest ← suffix data search;
    let offset := Index rest (f_magic f) in
    if offset <? 0 then mret best
    else
      let start := search + offset - f_lead f in
      mret (match best with Some (_, at_) => if start <? at_ then Some (f, start) else best | None => Some (f, start) end).
Fixpoint nextMagic_loop (fs : list format) (data : list Z) (from : Z) (best : option (format * Z)) : walk (option (format * Z)) :=
  match fs with [] => mret best | f :: fs => best ← nextMagic_step data from f best; nextMagic_loop fs data from best end.
Definition nextMagic (data : list Z) (from : Z) : walk (option (format * Z)) :=
  if from >=? zlen data then mret None else nextMagic_loop formats data from None.
Fixpoint carve_loop (fuel : nat) (data : list Z) (at_ : Z) (finds : list Find_) : walk (list Find_) :=
  match fuel with
  | O => Stuck
  | S fuel =>
      if at_ >=? zlen data then mret finds
      else
        found ← nextMagic data at_;
        match found with
        | None => mret finds
        | Some (f, start) =>
            rest ← suffix data start;
            match f_length f rest with
            | Ok len => ext ← extension f rest; carve_loop fuel data (start + len) (finds ++ [Find start len ext])
            | Err _ => carve_loop fuel data (start + 1) finds
            | Panic => Panic
            | Stuck => Stuck
            end
        end
  end.
Definition carve (data : list Z) : walk (list Find_ * Z) :=
  finds ← carve_loop (S (length data)) data 0 [];
  mret (finds, zlen data - foldl (fun t f => t + fd_Length f) 0 finds).

(** ** Every walk returns, and ends inside the data *)
Lemma suffix_Ok l i : 0 <= i <= zlen l -> suffix l i = Ok (drop (Z.to_nat i) l).
Proof. intros Hi. unfold suffix. rewrite slice_Ok by lia. f_equal. unfold sub. apply take_ge. unfold zlen in *. rewrite length_drop. lia. Qed.
Lemma meets_slice (l : list Z) i j : 0 <= i -> i <= j -> j <= zlen l -> meets (fun _ => True) (@slice unit Z l i j).
Proof. intros. by rewrite slice_Ok. Qed.
Lemma HasPrefix_length l pat : HasPrefix l pat = true -> zlen pat <= zlen l.
Proof. unfold HasPrefix, zlen. intros H%bool_decide_eq_true. apply (f_equal length) in H. rewrite length_take in H. lia. Qed.
Lemma Index_spec l pat :
  (Index l pat = -1 /\ forall k, (k <= length l)%nat -> HasPrefix (drop k l) pat = false) \/
  exists k, Index l pat = Z.of_nat k /\ (k <= length l)%nat /\ HasPrefix (drop k l) pat = true /\ forall k', (k' < k)%nat -> HasPrefix (drop k' l) pat = false.
Proof.
  induction l as [|b l IH]; cbn [Index]; destruct (HasPrefix _ pat) eqn:E.
  - right. exists 0%nat. split_and!; [done|simpl; lia|done|lia].
  - left. split; [done|]. intros k Hk. simpl in Hk. by replace k with 0%nat by lia.
  - right. exists 0%nat. split_and!; [done|lia|done|lia].
  - cbv zeta. destruct IH as [[-> H]|(k & -> & Hk & Hp & H)].
    + left. split; [done|]. intros [|k] Hk; [done|]. simpl in *. apply H. lia.
    + destruct (Z.ltb_spec (Z.of_nat k) 0); [lia|]. right. exists (S k). split_and!; [lia|simpl; lia|done|]. intros [|k'] Hk'; [done|]. simpl. apply H. lia.
Qed.
Lemma Index_range l pat : pat <> [] -> Index l pat = -1 \/ 0 <= Index l pat /\ Index l pat + zlen pat <= zlen l.
Proof.
  intros Hp. destruct (Index_spec l pat) as [[H _]|(k & -> & Hk & H & _)]; [by left|right]. apply HasPrefix_length in H. unfold zlen in *. rewrite length_drop in H. lia.
Qed.
Lemma Index_suffix data i pat : 0 <= i <= zlen data -> pat <> [] -> Index (drop (Z.to_nat i) data) pat = -1 \/ 0 <= Index (drop (Z.to_nat i) data) pat /\ i + Index (drop (Z.to_nat i) data) pat + zlen pat <= zlen data.
Proof. intros Hi Hp. destruct (Index_range (drop (Z.to_nat i) data) pat Hp) as [?|H]; [by left|right]. unfold zlen in *. rewrite length_drop in H. lia. Qed.
Ltac fin := cbv beta iota delta [meets mret outcome_ret orb andb negb fst snd] in *; intros; lia.
Tactic Notation "step" tactic3(t) := eapply meets_bind; [t|intros ? ?; cbv beta in *].
Section walks.
Context (data : list Z) (Hb : bytes data).
Abbreviation inside := (fun n => 0 < n <= zlen data).
Lemma segmentLength_inside at_ : 0 <= at_ -> meets (fun s => 2 <= s /\ at_ + s <= zlen data) (segmentLength data at_).
Proof using Hb.
  intros H. unfold segmentLength. destruct (at_ + 2 >? zlen data) eqn:E; [done|]. step (apply meets_get_be; [done|lia..]). destruct (Z.ltb_spec a 2); [done|]. destruct (at_ + a >? zlen data) eqn:E2; [done|]. fin.
Qed.
Lemma scan_loop_inside fuel : forall i, 0 <= i <= zlen data -> zlen data - i < Z.of_nat fuel -> meets (fun r => i <= r <= zlen data) (scan_loop fuel data i).
Proof using Hb.
  induction fuel as [|fuel IH]; intros i Hi Hf; [lia|]. cbn [scan_loop]. rewrite suffix_Ok by done. rewrite bind_ret. cbv zeta. destruct (Index_suffix data i [0xff] Hi ltac:(done)) as [->|[H1 H2]]; [done|].
  set (j := Index _ _) in *. change (zlen [0xff]) with 1 in H2. destruct (Z.ltb_spec j 0); [lia|]. cbn [orb]. destruct (i + j + 1 >=? zlen data) eqn:E; [done|]. step (apply meets_index; [done|lia]).
  destruct (_ || _); [|fin]. eapply meets_weaken; [apply IH; lia|]. fin.
Qed.
Lemma jpeg_loop_inside fuel : forall i frame scan, 0 < i <= zlen data -> zlen data - i < Z.of_nat fuel -> meets inside (jpeg_loop fuel data i frame scan).
Proof using Hb.
  induction fuel as [|fuel IH]; intros i frame scan Hi Hf; [lia|]. cbn [jpeg_loop]. destruct (i + 1 >=? zlen data) eqn:E; [done|]. step (apply meets_index; [done|lia]). destruct (negb _); [done|]. step (apply meets_index; [done|lia]).
  rename a0 into marker. destruct (marker =? 0xff); [apply IH; lia|]. destruct (_ || _ || _); [destruct (marker =? 0xd8); [done|apply IH; lia]|]. destruct (marker =? 0xd9); [destruct scan; [fin|done]|]. destruct (marker =? 0xda).
  - destruct (negb frame); [done|]. step (apply segmentLength_inside; lia). rename a0 into s. step (apply scan_loop_inside; [lia|unfold zlen; lia]). cbv beta in *. apply IH; lia.
  - destruct (negb (_ && _)); [done|]. step (apply segmentLength_inside; lia). cbv beta in *. apply IH; lia.
Qed.
Lemma jpegLength_inside : meets inside (jpegLength data).
Proof using Hb.
  unfold jpegLength. destruct (Z.ltb_spec (zlen data) 4); [done|]. step (apply meets_index; [done|lia]). step (apply meets_index; [done|lia]). destruct (_ || _); [done|]. apply jpeg_loop_inside; unfold zlen in *; lia.
Qed.
Lemma png_loop_inside fuel : forall i first, 0 < i -> zlen data - i < Z.of_nat fuel -> (0 < fuel)%nat -> meets inside (png_loop fuel data i first).
Proof using Hb.
  induction fuel as [|fuel IH]; intros i first Hi Hf Hp; [lia|]. cbn [png_loop]. destruct (i + 8 >? zlen data) eqn:E; [done|]. step (apply meets_get_be; [done|lia..]). rename a into len. step (apply meets_slice; lia). destruct (Z.ltb_spec len 0); [done|].
  destruct (i + 12 + len >? zlen data) eqn:E2; [done|]. cbn [orb]. destruct (first && _); [done|]. step (apply meets_slice; lia). step (apply meets_get_be; [done|lia..]). destruct (negb _); [done|]. case_bool_decide; [fin|]. apply IH; lia.
Qed.
Lemma pngLength_inside : meets inside (pngLength data).
Proof using Hb. apply png_loop_inside; unfold zlen; lia. Qed.
Lemma subBlocks_loop_inside fuel : forall at_, 0 <= at_ -> zlen data - at_ < Z.of_nat fuel -> (0 < fuel)%nat -> meets (fun r => at_ < r <= zlen data) (subBlocks_loop fuel data at_).
Proof using Hb.
  induction fuel as [|fuel IH]; intros at_ Ha Hf Hp; [lia|]. cbn [subBlocks_loop]. destruct (at_ >=? zlen data) eqn:E; [done|]. step (apply meets_index; [done|lia]). unfold is_u8 in H. destruct (a =? 0); [fin|].
  eapply meets_weaken; [apply IH; lia|]. fin.
Qed.
Lemma subBlocks_inside at_ : 0 <= at_ -> meets (fun r => at_ < r <= zlen data) (subBlocks data at_).
Proof using Hb. intros H. apply subBlocks_loop_inside; unfold zlen; lia. Qed.
Lemma colorTable_nonneg flags : 0 <= colorTable flags.
Proof. unfold colorTable. destruct (has _ _); [apply Z.shiftl_nonneg; lia|lia]. Qed.
Lemma gif_loop_inside fuel : forall i, 0 <= i -> zlen data - i < Z.of_nat fuel -> (0 < fuel)%nat -> meets inside (gif_loop fuel data i).
Proof using Hb.
  induction fuel as [|fuel IH]; intros i Hi Hf Hp; [lia|]. cbn [gif_loop]. destruct (i >=? zlen data) eqn:E; [done|]. step (apply meets_index; [done|lia]). destruct (a =? 0x3b); [fin|]. destruct (a =? 0x21).
  - step (apply subBlocks_inside; lia). cbv beta in *. apply IH; lia.
  - destruct (a =? 0x2c); [|done]. destruct (i + 10 >? zlen data) eqn:E2; [done|]. step (apply meets_index; [done|lia]). pose proof (colorTable_nonneg a0). step (apply subBlocks_inside; lia). cbv beta in *. apply IH; lia.
Qed.
Lemma gifLength_inside : meets inside (gifLength data).
Proof using Hb.
  unfold gifLength. destruct (Z.ltb_spec (zlen data) 13); [done|]. step (apply meets_index; [done|lia]). pose proof (colorTable_nonneg a). apply gif_loop_inside; unfold zlen in *; lia.
Qed.
Lemma zip_loop_inside fuel : forall from, 0 <= from <= zlen data -> zlen data - from < Z.of_nat fuel -> meets inside (zip_loop fuel data from).
Proof using Hb.
  induction fuel as [|fuel IH]; intros from Hi Hf; [lia|]. cbn [zip_loop]. rewrite suffix_Ok by done. rewrite bind_ret. cbv zeta. destruct (Index_suffix data from eocd Hi ltac:(done)) as [->|[H1 H2]]; [done|]. set (j := Index _ _) in *.
  destruct (Z.ltb_spec j 0); [lia|]. unfold eocdSize. destruct (from + j + 22 >? zlen data) eqn:E; [done|]. step (apply meets_get_le; [done|lia..]). step (apply meets_get_le; [done|lia..]). step (apply meets_get_le; [done|lia..]).
  rename a into dirSize, a0 into dirOffset, a1 into comment. destruct (negb _) eqn:En; cbn [orb]; [apply IH; lia|]. destruct (dirOffset + 4 >? zlen data) eqn:E2; [apply IH; lia|]. step (apply meets_slice; lia).
  destruct (negb (bool_decide _)); [apply IH; lia|]. destruct (from + j + 22 + comment >? zlen data) eqn:E3; [done|]. fin.
Qed.
Lemma zipLength_inside : meets inside (zipLength data).
Proof using Hb. apply zip_loop_inside; unfold zlen; lia. Qed.
Lemma skipNewlines_inside fuel : forall e, 0 <= e <= zlen data -> zlen data - e < Z.of_nat fuel -> meets (fun r => 0 <= r <= zlen data) (skipNewlines fuel data e).
Proof using Hb.
  induction fuel as [|fuel IH]; intros e He Hf; [lia|]. cbn [skipNewlines]. destruct (Z.ltb_spec e (zlen data)); [|done]. step (apply meets_index; [done|lia]). destruct (_ || _); [apply IH; lia|done].
Qed.
Lemma pdf_loop_inside fuel : forall e from, 0 <= e <= zlen data -> 0 <= from <= zlen data -> zlen data - from < Z.of_nat fuel -> meets (fun r => 0 <= r <= zlen data) (pdf_loop fuel data e from).
Proof using Hb.
  induction fuel as [|fuel IH]; intros e from He Hi Hf; [lia|]. cbn [pdf_loop]. rewrite suffix_Ok by done. rewrite bind_ret. cbv zeta. destruct (Index_suffix data from (bytesOf "%%EOF") Hi ltac:(done)) as [->|[H1 H2]]; [done|]. set (j := Index _ _) in *.
  change (zlen (bytesOf "%%EOF")) with 5 in H2. destruct (Z.ltb_spec j 0); [lia|]. step (destruct (Z.ltb_spec (from + j - 64) 0); apply meets_slice; lia). destruct (startxref a) as [ds|]; [|done]. destruct (Atoi ds) as [offset|]; [|done].
  destruct (Z.leb_spec offset 0); [done|]. destruct (offset >=? from + j) eqn:E; [done|]. cbn [orb]. rewrite suffix_Ok by lia. rewrite bind_ret. destruct (negb _); [done|]. step (apply skipNewlines_inside; [lia|unfold zlen in *; lia]). cbv beta in *. apply IH; lia.
Qed.
Lemma pdfLength_inside : meets inside (pdfLength data).
Proof using Hb.
  unfold pdfLength. destruct (negb _); [done|]. pose proof (zlen_nonneg data). step (apply pdf_loop_inside; unfold zlen in *; lia). cbv beta in *. destruct (a >? 0) eqn:E; [fin|done].
Qed.
Lemma iso_loop_inside fuel : forall i mdat idx, 0 <= i <= zlen data -> (mdat = true -> 0 < i) -> zlen data - i < Z.of_nat fuel -> meets (fun r => 0 <= r.1.1 <= zlen data /\ (r.1.2 = true -> 0 < r.1.1)) (iso_loop fuel data i mdat idx).
Proof using Hb.
  induction fuel as [|fuel IH]; intros i mdat idx Hi Hm Hf; [lia|]. cbn [iso_loop]. destruct (i + 8 >? zlen data) eqn:E; [done|]. step (apply meets_get_be; [done|lia..]). rename a into size. step (apply meets_slice; lia). destruct (negb _ || _); [done|].
  destruct ((size =? 1) && _) eqn:E1; [done|]. eapply (meets_bind (fun sh => 0 <= sh.1 /\ 8 <= sh.2)).
  { destruct (Z.eqb_spec size 1) as [->|]; [|fin]. cbn [andb] in E1. step (apply meets_get_be; [done|lia..]). fin. }
  intros [sz header] [Hs Hh]. cbn in Hs, Hh. destruct (Z.ltb_spec sz header); [done|]. destruct (sz >? zlen data - i) eqn:E2; [done|]. cbn [orb]. apply IH; lia.
Qed.
Lemma isoLength_inside : meets inside (isoLength data).
Proof using Hb.
  unfold isoLength. pose proof (zlen_nonneg data). step (apply iso_loop_inside; [lia|done|unfold zlen in *; lia]). destruct a as [[i mdat] idx]. cbn in H0. destruct mdat, idx; cbn; try done. destruct H0 as [? H0]. specialize (H0 eq_refl). lia.
Qed.
Lemma riffChunk_loop_inside fuel e : e <= zlen data -> forall i, 0 <= i -> e - i < Z.of_nat fuel -> (0 < fuel)%nat -> meets (fun _ => True) (riffChunk_loop fuel data i e).
Proof using Hb.
  intros He. induction fuel as [|fuel IH]; intros i Hi Hf Hp; [lia|]. cbn [riffChunk_loop]. destruct (i >=? e) eqn:E; [done|]. destruct (i + 8 >? e) eqn:E2; [done|]. step (apply meets_slice; lia). destruct (negb _); [done|]. step (apply meets_get_le; [done|lia..]). rename a0 into n.
  cbv zeta. assert (0 <= n .& 1) by (apply Z.land_nonneg; lia). destruct (i + (8 + n + (n .& 1)) >? e + 1) eqn:E3; [done|]. apply IH; lia.
Qed.
Lemma riffChunk_inside at_ : 0 <= at_ -> meets (fun e => at_ < e <= zlen data) (riffChunk data at_).
Proof using Hb.
  intros Ha. unfold riffChunk. destruct (at_ + 12 >? zlen data) eqn:E; [done|]. step (apply meets_get_le; [done|lia..]). rename a into size. cbv zeta. destruct (Z.ltb_spec size 4); [done|]. destruct (at_ + 8 + size >? zlen data) eqn:E2; [done|]. cbn [orb].
  step (apply meets_slice; lia). destruct (_ && _); [done|]. step (apply riffChunk_loop_inside; unfold zlen in *; lia). fin.
Qed.
Lemma riff_loop_inside fuel : forall e, 0 < e <= zlen data -> zlen data - e < Z.of_nat fuel -> meets inside (riff_loop fuel data e).
Proof using Hb.
  induction fuel as [|fuel IH]; intros e He Hf; [lia|]. cbn [riff_loop]. destruct (e + 12 >? zlen data) eqn:E; [done|]. step (apply meets_slice; lia). step (apply meets_slice; lia). destruct (negb _); [done|].
  pose proof (riffChunk_inside e ltac:(lia)) as H1. destruct (riffChunk data e) as [e'| | |]; [|done..]. cbn in H1. apply IH; lia.
Qed.
Lemma riffLength_inside : meets inside (riffLength data).
Proof using Hb. unfold riffLength. step (by apply riffChunk_inside). cbv beta in *. apply riff_loop_inside; unfold zlen in *; lia. Qed.
Lemma every_length_inside f : f ∈ formats -> meets inside (f_length f data) /\ meets (fun _ => True) (extension f data).
Proof using Hb.
  intros Hf. repeat (apply elem_of_cons in Hf as [->|Hf]; [split; [first [apply jpegLength_inside|apply pngLength_inside|apply gifLength_inside|apply zipLength_inside|apply pdfLength_inside|apply isoLength_inside|apply riffLength_inside]|cbn; try done]|]).
  - unfold isoName. destruct (Z.ltb_spec (zlen data) 12); [done|]. step (apply meets_slice; lia); done.
  - unfold riffName. destruct (Z.ltb_spec (zlen data) 12); [done|]. step (apply meets_slice; lia); done.
  - by apply elem_of_nil in Hf.
Qed.
End walks.

(** ** What is carved

    [opens data p f]: a file of the format begins at [p]; the first format of the list that
    does is the one that is tried.  [whole data p] is the file that begins there, if it can
    be walked to its end. *)
Definition opens (data : list Z) (p : Z) (f : format) : bool := HasPrefix (drop (Z.to_nat (p + f_lead f)) data) (f_magic f).
Definition whole (data : list Z) (p : Z) : option (Z * string) :=
  match List.find (opens data p) formats with
  | Some f => match f_length f (drop (Z.to_nat p) data), extension f (drop (Z.to_nat p) data) with Ok n, Ok x => Some (n, x) | _, _ => None end
  | None => None
  end.
(** From [from] on, the finds are the whole files, each the first after the one before it. *)
Fixpoint laid (data : list Z) (from : Z) (finds : list Find_) : Prop :=
  match finds with
  | [] => forall p, from <= p < zlen data -> whole data p = None
  | fd :: finds =>
      from <= fd_Offset fd /\ (forall p, from <= p < fd_Offset fd -> whole data p = None) /\ whole data (fd_Offset fd) = Some (fd_Length fd, fd_Ext fd) /\
      0 < fd_Length fd /\ End_ fd <= zlen data /\ laid data (End_ fd) finds
  end.
Definition nextOf (data : list Z) (from : Z) (f : format) (r : option Z) : Prop :=
  match r with
  | None => forall p, from <= p -> opens data p f = false
  | Some s => from <= s < zlen data /\ opens data s f = true /\ forall p, from <= p < s -> opens data p f = false
  end.
Definition nearer (f : format) (best : option (format * Z)) (r : option Z) : option (format * Z) :=
  match r with None => best | Some s => match best with Some (_, at_) => if s <? at_ then Some (f, s) else best | None => Some (f, s) end end.
Lemma opens_past data p f : f_magic f <> [] -> zlen data <= p + f_lead f -> opens data p f = false.
Proof.
  intros Hm Hp. unfold opens. rewrite drop_ge by (unfold zlen in Hp; lia). unfold HasPrefix. apply bool_decide_eq_false. rewrite take_nil. by destruct (f_magic f).
Qed.
Lemma nextMagic_step_spec data from f best : 0 <= from -> 0 <= f_lead f -> f_magic f <> [] -> exists r, nextOf data from f r /\ nextMagic_step data from f best = Ok (nearer f best r).
Proof.
  intros Hfrom Hl Hm. unfold nextMagic_step. cbv zeta. destruct (from + f_lead f >=? zlen data) eqn:E.
  { exists None. split; [|done]. intros p Hp. apply opens_past; [done|lia]. }
  rewrite suffix_Ok by lia. rewrite bind_ret. set (rest := drop (Z.to_nat (from + f_lead f)) data).
  assert (forall p, from <= p -> opens data p f = HasPrefix (drop (Z.to_nat (p - from)) rest) (f_magic f)) as Ho.
  { intros p Hp. unfold opens, rest. rewrite drop_drop. do 2 f_equal. lia. }
  assert (zlen rest = zlen data - (from + f_lead f)) as Hz by (unfold rest, zlen in *; rewrite length_drop; lia).
  destruct (Index_spec rest (f_magic f)) as [[Hi Hn]|(k & Hi & Hk & Hp & Hn)]; rewrite Hi.
  - exists None. split; [|done]. intros p Hp. rewrite Ho by done. destruct (decide (Z.to_nat (p - from) <= length rest)%nat) as [Hle|Hgt]; [by apply Hn|].
    rewrite <- (Hn (length rest)) by lia. rewrite !drop_ge by lia. done.
  - destruct (Z.ltb_spec (Z.of_nat k) 0); [lia|]. exists (Some (from + Z.of_nat k)). apply HasPrefix_length in Hp as Hlen. assert (0 < zlen (f_magic f)) by (destruct (f_magic f); [done|unfold zlen; simpl; lia]).
    unfold zlen in Hlen at 2. rewrite length_drop in Hlen. fold (@zlen Z) in *. split.
    + split_and!.
      * lia.
      * unfold zlen in *. lia.
      * rewrite Ho by lia. replace (Z.to_nat (from + Z.of_nat k - from)) with k by lia. done.
      * intros p Hpr. rewrite Ho by lia. apply Hn. lia.
    + unfold mret, outcome_ret. f_equal. cbn [nearer]. replace (from + f_lead f + Z.of_nat k - f_lead f) with (from + Z.of_nat k) by lia. done.
Qed.
Definition nearest (data : list Z) (from : Z) (fs : list format) (best : option (format * Z)) : Prop :=
  match best with
  | None => forall p f, from <= p -> f ∈ fs -> opens data p f = false
  | Some (f, s) => from <= s < zlen data /\ f ∈ fs /\ List.find (opens data s) fs = Some f /\ forall p g, from <= p < s -> g ∈ fs -> opens data p g = false
  end.
Lemma find_app {A} (p : A -> bool) l k : List.find p (l ++ k) = match List.find p l with Some a => Some a | None => List.find p k end.
Proof. induction l as [|a l IH]; [done|]. simpl. by destruct (p a). Qed.
Lemma find_False {A} (p : A -> bool) l : (forall a, a ∈ l -> p a = false) -> List.find p l = None.
Proof. induction l as [|a l IH]; intros H; [done|]. simpl. rewrite H by apply list_elem_of_here. apply IH. intros b Hb. by apply H, list_elem_of_further. Qed.
Lemma nearer_nearest data from fs f best r : nearest data from fs best -> nextOf data from f r -> nearest data from (fs ++ [f]) (nearer f best r).
Proof.
  intros Hb Hr. destruct r as [s|]; cbn in Hr; [|destruct best as [[g t]|]; cbn in *].
  - destruct Hr as (Hs & Ho & Hn). destruct best as [[g t]|]; cbn in *.
    + destruct Hb as (Ht & Hg & Hfind & Hnone). destruct (Z.ltb_spec s t) as [Hlt|Hge]; cbn.
      * split_and!; [lia..|apply elem_of_app; right; apply list_elem_of_here| |].
        -- rewrite find_app, find_False; [simpl; by rewrite Ho|]. intros a Ha. apply Hnone; [lia|done].
        -- intros p x Hp [Hx| ->%list_elem_of_singleton]%elem_of_app; [apply Hnone; [lia|done]|by apply Hn].
      * split_and!; [lia..|by apply elem_of_app; left|by rewrite find_app, Hfind|].
        intros p x Hp [Hx| ->%list_elem_of_singleton]%elem_of_app; [by apply Hnone|apply Hn; lia].
    + split_and!; [lia..|apply elem_of_app; right; apply list_elem_of_here| |].
      * rewrite find_app, find_False; [simpl; by rewrite Ho|]. intros a Ha. apply Hb; [lia|done].
      * intros p x Hp [Hx| ->%list_elem_of_singleton]%elem_of_app; [apply Hb; [lia|done]|by apply Hn].
  - destruct Hb as (Ht & Hg & Hfind & Hnone). split_and!; [lia..|by apply elem_of_app; left|by rewrite find_app, Hfind|].
    intros p x Hp [Hx| ->%list_elem_of_singleton]%elem_of_app; [by apply Hnone|apply Hr; lia].
  - intros p x Hp [Hx| ->%list_elem_of_singleton]%elem_of_app; [by apply Hb|by apply Hr].
Qed.
Lemma nextMagic_loop_spec data from fs : 0 <= from -> (forall f, f ∈ fs -> 0 <= f_lead f /\ f_magic f <> []) -> forall seen best, nearest data from seen best ->
  exists best', nextMagic_loop fs data from best = Ok best' /\ nearest data from (seen ++ fs) best'.
Proof.
  intros Hfrom. induction fs as [|f fs IH]; intros Hfs seen best Hn; [exists best; by rewrite app_nil_r|]. cbn [nextMagic_loop]. destruct (Hfs f (list_elem_of_here _ _)) as [Hl Hm].
  destruct (nextMagic_step_spec data from f best Hfrom Hl Hm) as (r & Hr & ->). rewrite bind_ret. destruct (IH (fun g Hg => Hfs g (list_elem_of_further _ _ _ Hg)) (seen ++ [f]) (nearer f best r)) as (best' & E & H); [by apply nearer_nearest|].
  exists best'. split; [done|]. by rewrite <- app_assoc in H.
Qed.
Lemma formats_ok f : f ∈ formats -> 0 <= f_lead f /\ f_magic f <> [].
Proof. intros Hf. repeat (apply elem_of_cons in Hf as [->|Hf]; [by split|]). by apply elem_of_nil in Hf. Qed.
Lemma nextMagic_spec data from : 0 <= from < zlen data -> exists best, nextMagic data from = Ok best /\ nearest data from formats best.
Proof.
  intros H. unfold nextMagic. destruct (from >=? zlen data) eqn:E; [lia|]. destruct (nextMagic_loop_spec data from formats ltac:(lia) formats_ok [] None) as (best & -> & Hn); [by intros p f _ ?%elem_of_nil|]. by exists best.
Qed.
Lemma extension_Ok f data e : f ∈ formats -> extension f data <> Err e.
Proof.
  intros Hf. repeat (apply elem_of_cons in Hf as [->|Hf]; [cbn; try done|]); [| |by apply elem_of_nil in Hf].
  - unfold isoName. destruct (_ <? _); [done|]. unfold slice. by destruct (_ && _).
  - unfold riffName. destruct (_ <? _); [done|]. unfold slice. by destruct (_ && _).
Qed.
Lemma laid_later data from from' l : from <= from' -> (forall p, from <= p < from' -> whole data p = None) -> laid data from' l -> laid data from l.
Proof.
  intros Hle Hn. destruct l as [|fd l]; cbn.
  - intros H p Hp. destruct (Z.lt_ge_cases p from'); [apply Hn; lia|apply H; lia].
  - intros (H1 & H2 & H3). split_and!; [lia| |apply H3..]. intros p Hp. destruct (Z.lt_ge_cases p from'); [apply Hn; lia|apply H2; lia].
Qed.
Lemma carve_loop_spec data : bytes data -> forall fuel at_ finds, 0 <= at_ <= zlen data -> zlen data - at_ < Z.of_nat fuel -> exists l, carve_loop fuel data at_ finds = Ok (finds ++ l) /\ laid data at_ l.
Proof.
  intros Hb. induction fuel as [|fuel IH]; intros at_ finds Hat Hf; [lia|]. cbn [carve_loop]. destruct (at_ >=? zlen data) eqn:E; [exists []; split; [by rewrite app_nil_r|]; intros p Hp; lia|].
  destruct (nextMagic_spec data at_ ltac:(lia)) as (best & -> & Hbest). rewrite bind_ret. destruct best as [[f start]|]; cbv beta iota delta [nearest] in Hbest.
  - destruct Hbest as (Hs & Hin & Hfind & Hnone). rewrite suffix_Ok by lia. rewrite bind_ret. set (rest := drop (Z.to_nat start) data). assert (bytes rest) as Hr by by apply Forall_drop.
    assert (zlen rest = zlen data - start) as Hz by (unfold rest, zlen in *; rewrite length_drop; lia). destruct (every_length_inside rest Hr f Hin) as [Hlen Hext].
    assert (forall p, at_ <= p < start -> whole data p = None) as Hbefore.
    { intros p Hp. unfold whole. rewrite find_False; [done|]. intros g Hg. by apply Hnone. }
    destruct (f_length f rest) as [n| | |] eqn:En; cbn in Hlen; [| |done..].
    + destruct (extension f rest) as [x|e| |] eqn:Ex; [|by destruct (extension_Ok f rest e Hin)|done..]. rewrite bind_ret. destruct (IH (start + n) (finds ++ [Find start n x])) as (l & -> & Hl); [lia|lia|]. exists (Find start n x :: l).
      split; [by rewrite <- app_assoc|]. cbn [laid fd_Offset fd_Length fd_Ext]. unfold End_. cbn [fd_Offset fd_Length]. split_and!; [lia|done| |lia|lia|done]. unfold whole. rewrite Hfind. fold rest. by rewrite En, Ex.
    + destruct (IH (start + 1) finds) as (l & -> & Hl); [lia|lia|]. exists l. split; [done|]. apply (laid_later _ _ (start + 1)); [lia| |done]. intros p Hp. destruct (Z.lt_ge_cases p start); [apply Hbefore; lia|].
      replace p with start by lia. unfold whole. rewrite Hfind. fold rest. by rewrite En.
  - exists []. split; [by rewrite app_nil_r|]. intros p Hp. unfold whole. rewrite find_False; [done|]. intros g Hg. apply Hbest; [lia|done].
Qed.
Lemma laid_sum data l : forall from t, from <= zlen data -> laid data from l -> t <= foldl (fun t f => t + fd_Length f) t l <= t + (zlen data - from).
Proof.
  induction l as [|fd l IH]; intros from t Hf H; cbn [foldl]; [lia|]. destruct H as (H1 & _ & _ & H2 & H3 & H4). specialize (IH (End_ fd) (t + fd_Length fd) H3 H4). unfold End_ in *. lia.
Qed.
(** C24: Carving comes to an end on any data without reading past it, and finds what is
    there: the finds are the files that can be walked to their end by the format that opens
    there, each the first after the end of the one before, as long as its own structure says
    and no byte more; they lie inside the data, in order and apart, and what is left over is
    what belongs to none of them. *)
Theorem carve_finds_the_whole_files (data : list Z) : bytes data ->
  exists finds leftover, carve data = Ok (finds, leftover) /\ laid data 0 finds /\ leftover = zlen data - foldl (fun t f => t + fd_Length f) 0 finds /\ 0 <= leftover <= zlen data.
Proof.
  intros Hb. unfold carve. pose proof (zlen_nonneg data). destruct (carve_loop_spec data Hb (S (length data)) 0 []) as (l & -> & Hl); [lia|unfold zlen in *; lia|]. rewrite bind_ret. cbn [app].
  pose proof (laid_sum data l 0 0 ltac:(lia) Hl) as Hs. eexists l, _. split; [done|]. split; [done|]. split; [done|]. lia.
Qed.

(** ** A PNG and its chunks *)
Record chunk := Chunk { ch_kind : list Z; ch_data : list Z }.
Definition chunkBytes (c : chunk) : list Z := be_enc 4 (zlen (ch_data c)) ++ ch_kind c ++ ch_data c ++ be_enc 4 (ChecksumIEEE (ch_kind c ++ ch_data c)).
Definition chunk_ok (c : chunk) : Prop := length (ch_kind c) = 4%nat /\ zlen (ch_data c) < 2 ^ 32.
Definition chunkSize (c : chunk) : Z := 12 + zlen (ch_data c).
Lemma zlen_chunk c : chunk_ok c -> zlen (chunkBytes c) = chunkSize c.
Proof. intros [Hk _]. unfold chunkBytes, chunkSize, zlen. rewrite !length_app. unfold be_enc. rewrite !length_rev, !length_le_enc. lia. Qed.
Lemma sub_drop {A} (l : list A) i a b : 0 <= i -> 0 <= a -> sub l (i + a) (i + b) = take (Z.to_nat (b - a)) (drop (Z.to_nat a) (drop (Z.to_nat i) l)).
Proof. intros Hi Ha. unfold sub. rewrite drop_drop. f_equal; [lia|]. f_equal. lia. Qed.
Lemma zlen_drop {A} (l : list A) i : 0 <= i <= zlen l -> zlen (drop (Z.to_nat i) l) = zlen l - i.
Proof. intros H. unfold zlen in *. rewrite length_drop. lia. Qed.
Lemma take_drop_app {A} (n m : nat) (a b c : list A) : n = length b -> m = length a -> take n (drop m (a ++ b ++ c)) = b.
Proof. intros -> ->. by rewrite drop_app_length, take_app_length. Qed.
(** A turn of the walk over a chunk that is there. *)
Lemma png_loop_chunk fuel data i first c rest : bytes data -> 0 <= i <= zlen data -> chunk_ok c -> drop (Z.to_nat i) data = chunkBytes c ++ rest ->
  png_loop (S fuel) data i first =
    if first && (negb (bool_decide (ch_kind c = bytesOf "IHDR")) || negb (zlen (ch_data c) =? 13)) then notWhole
    else if bool_decide (ch_kind c = bytesOf "IEND") then Ok (i + chunkSize c) else png_loop fuel data (i + chunkSize c) false.
Proof.
  intros Hb Hi Hc E. pose proof Hc as [Hk Hd]. pose proof (zlen_drop data i Hi) as Hz. rewrite E, zlen_app, zlen_chunk in Hz by done. unfold chunkSize in *. pose proof (zlen_nonneg rest). pose proof (zlen_nonneg (ch_data c)).
  assert (bytes (ch_kind c ++ ch_data c)) as Hkd.
  { assert (bytes (chunkBytes c ++ rest)) as H1 by (rewrite <- E; by apply Forall_drop). apply Forall_app in H1 as [H1 _]. unfold chunkBytes in H1. apply Forall_app in H1 as [_ H1]. rewrite app_assoc in H1. by apply Forall_app in H1 as [H1 _]. }
  unfold chunkBytes in E. set (lenb := be_enc 4 (zlen (ch_data c))) in *. set (crcb := be_enc 4 (ChecksumIEEE _)) in *. assert (length lenb = 4%nat) as L1 by (unfold lenb, be_enc; by rewrite length_rev, length_le_enc).
  assert (length crcb = 4%nat) as L2 by (unfold crcb, be_enc; by rewrite length_rev, length_le_enc). rewrite <- !app_assoc in E.
  assert (forall a b, 0 <= a -> a <= b -> i + b <= zlen data -> @slice unit Z data (i + a) (i + b) = Ok (take (Z.to_nat (b - a)) (drop (Z.to_nat a) (lenb ++ ch_kind c ++ ch_data c ++ crcb ++ rest)))) as Hs.
  { intros a b Ha Hab Hbl. rewrite slice_Ok by lia. f_equal. rewrite sub_drop by lia. by rewrite E. }
  set (L := lenb ++ ch_kind c ++ ch_data c ++ crcb ++ rest) in *. assert (forall a, 0 <= a -> i + a + 4 <= zlen data -> @get_be unit data (i + a) 4 = Ok (be_dec (take 4 (drop (Z.to_nat a) L)))) as Hg.
  { intros a Ha Hal. unfold get_be. replace (i + a + 4) with (i + (a + 4)) by lia. rewrite Hs by lia. rewrite bind_ret. by replace (Z.to_nat (a + 4 - a)) with 4%nat by lia. }
  set (len := zlen (ch_data c)) in *. assert (@get_be unit data i 4 = Ok len) as G1.
  { rewrite <- (Z.add_0_r i) at 1. rewrite Hg by lia. change (Z.to_nat 0) with 0%nat. rewrite drop_0. unfold L. rewrite (take_app_length' lenb) by lia. unfold lenb. rewrite be_dec_enc; [done|]. change (8 * Z.of_nat 4) with 32. lia. }
  assert (@slice unit Z data (i + 4) (i + 8) = Ok (ch_kind c)) as G2.
  { rewrite Hs by lia. f_equal. apply take_drop_app; lia. }
  assert (@slice unit Z data (i + 4) (i + 8 + len) = Ok (ch_kind c ++ ch_data c)) as G3.
  { replace (i + 8 + len) with (i + (8 + len)) by lia. rewrite Hs by lia. f_equal. unfold L. rewrite (app_assoc (ch_kind c)). apply take_drop_app; [rewrite length_app; unfold len, zlen|]; lia. }
  assert (@get_be unit data (i + 8 + len) 4 = Ok (ChecksumIEEE (ch_kind c ++ ch_data c))) as G4.
  { replace (i + 8 + len) with (i + (8 + len)) by lia. rewrite Hg by lia. f_equal. unfold L. replace (lenb ++ ch_kind c ++ ch_data c ++ crcb ++ rest) with ((lenb ++ ch_kind c ++ ch_data c) ++ crcb ++ rest) by by rewrite <- !app_assoc.
    rewrite take_drop_app by (rewrite ?length_app; unfold len, zlen; lia). unfold crcb. apply be_dec_enc. by apply crc_bound. }
  cbn [png_loop]. destruct (i + 8 >? zlen data) eqn:E8; [lia|]. rewrite G1, bind_ret, G2, bind_ret. destruct (Z.ltb_spec len 0); [lia|]. destruct (i + 12 + len >? zlen data) eqn:E12; [lia|]. cbn [orb]. destruct (first && _); [done|].
  rewrite G3, bind_ret, G4, bind_ret, Z.eqb_refl. cbn [negb]. by replace (i + 12 + len) with (i + (12 + len)) by lia.
Qed.
Lemma png_loop_reads fuel data i first n : bytes data -> 0 <= i <= zlen data -> png_loop (S fuel) data i first = Ok n -> exists c rest, chunk_ok c /\ drop (Z.to_nat i) data = chunkBytes c ++ rest.
Proof.
  intros Hb Hi H. cbn [png_loop] in H. destruct (i + 8 >? zlen data) eqn:E8; [done|]. set (l := drop (Z.to_nat i) data). assert (bytes l) as Hl by by apply Forall_drop. pose proof (zlen_drop data i Hi) as Hz. fold l in Hz.
  assert (forall a b, 0 <= a -> a <= b -> i + b <= zlen data -> @slice unit Z data (i + a) (i + b) = Ok (take (Z.to_nat (b - a)) (drop (Z.to_nat a) l))) as Hs.
  { intros a b Ha Hab Hbl. rewrite slice_Ok by lia. f_equal. by rewrite sub_drop by lia. }
  assert (forall a, 0 <= a -> i + a + 4 <= zlen data -> @get_be unit data (i + a) 4 = Ok (be_dec (take 4 (drop (Z.to_nat a) l)))) as Hg.
  { intros a Ha Hal. unfold get_be. replace (i + a + 4) with (i + (a + 4)) by lia. rewrite Hs by lia. rewrite bind_ret. by replace (Z.to_nat (a + 4 - a)) with 4%nat by lia. }
  assert (@get_be unit data i 4 = Ok (be_dec (take 4 l))) as G1 by (rewrite <- (Z.add_0_r i) at 1; rewrite Hg by lia; by rewrite drop_0).
  assert (length (take 4 l) = 4%nat) as T4 by (rewrite length_take; unfold zlen in *; lia). pose proof (be_enc_dec (take 4 l) (Forall_take _ _ _ Hl)) as B1. rewrite T4 in B1. rewrite G1, bind_ret in H. set (len := be_dec (take 4 l)) in *.
  rewrite (Hs 4 8) in H by lia. rewrite bind_ret in H. change (Z.to_nat (8 - 4)) with 4%nat in H. change (Z.to_nat 4) with 4%nat in H. set (kind := take 4 (drop 4 l)) in *. destruct (Z.ltb_spec len 0); [done|]. destruct (i + 12 + len >? zlen data) eqn:E12; [done|]. cbn [orb] in H.
  destruct (first && _); [done|]. replace (i + 8 + len) with (i + (8 + len)) in H by lia. rewrite Hs, bind_ret, Hg, bind_ret in H by lia. destruct (negb _) eqn:Ec; [done|]. clear H. apply negb_false_iff, Z.eqb_eq in Ec.
  assert (take (Z.to_nat (8 + len - 4)) (drop (Z.to_nat 4) l) = kind ++ take (Z.to_nat len) (drop 8 l)) as Ekd.
  { replace (Z.to_nat (8 + len - 4)) with (4 + Z.to_nat len)%nat by lia. change (Z.to_nat 4) with 4%nat. rewrite <- take_take_drop, drop_drop. done. }
  rewrite Ekd in Ec. set (d := take (Z.to_nat len) (drop 8 l)) in *. set (cb := take 4 (drop (Z.to_nat (8 + len)) l)) in *.
  assert (length cb = 4%nat) as Tc by (unfold cb; rewrite length_take, length_drop; unfold zlen in *; lia). pose proof (be_enc_dec cb (Forall_take _ _ _ (Forall_drop _ _ _ Hl))) as B2. rewrite Tc, <- Ec in B2.
  assert (length d = Z.to_nat len) as Td by (unfold d; rewrite length_take, length_drop; unfold zlen in *; lia). assert (zlen d = len) as Zd by (unfold zlen; lia).
  exists (Chunk kind d), (drop (Z.to_nat (12 + len)) l). split.
  - split; cbn; [unfold kind; rewrite length_take, length_drop; unfold zlen in *; lia|]. rewrite Zd. pose proof (le_dec_bound (rev (take 4 l)) (Forall_rev (Forall_take _ _ _ Hl))) as Hd. unfold zlen in Hd. rewrite length_rev, T4 in Hd. apply Hd.
  - unfold chunkBytes. cbn [ch_kind ch_data]. rewrite Zd, B1, B2, <- !app_assoc. fold l. rewrite <- (take_drop 4 l) at 1. f_equal. rewrite <- (take_drop 4 (drop 4 l)) at 1. f_equal. rewrite drop_drop. change (4 + 4)%nat with 8%nat.
    rewrite <- (take_drop (Z.to_nat len) (drop 8 l)) at 1. f_equal. rewrite drop_drop. replace (8 + Z.to_nat len)%nat with (Z.to_nat (8 + len)) by lia. rewrite <- (take_drop 4 (drop (Z.to_nat (8 + len)) l)) at 1. f_equal. rewrite drop_drop. f_equal. lia.
Qed.
Definition isHeader (c : chunk) : Prop := ch_kind c = bytesOf "IHDR" /\ zlen (ch_data c) = 13.
(** The chunks of a file: one after the other, [IEND] the last of them and no other. *)
Definition chunked (l : list Z) (first : bool) (size : Z) : Prop :=
  exists body last rest, l = concat (map chunkBytes (body ++ [last])) ++ rest /\ Forall chunk_ok (body ++ [last]) /\ (first = true -> exists c, head (body ++ [last]) = Some c /\ isHeader c) /\
    ch_kind last = bytesOf "IEND" /\ Forall (fun c => ch_kind c <> bytesOf "IEND") body /\ size = zlen (concat (map chunkBytes (body ++ [last]))).
Lemma isHeader_spec c : (negb (bool_decide (ch_kind c = bytesOf "IHDR")) || negb (zlen (ch_data c) =? 13)) = false <-> isHeader c.
Proof. unfold isHeader. rewrite orb_false_iff, !negb_false_iff, bool_decide_eq_true, Z.eqb_eq. done. Qed.
Lemma png_loop_chunked data n : bytes data -> forall fuel i first, 0 <= i <= zlen data -> zlen data - i < Z.of_nat fuel -> png_loop fuel data i first = Ok n <-> chunked (drop (Z.to_nat i) data) first (n - i).
Proof.
  intros Hb. induction fuel as [|fuel IH]; intros i first Hi Hf; [lia|].
  assert (forall c rest, chunk_ok c -> drop (Z.to_nat i) data = chunkBytes c ++ rest -> 0 <= i + chunkSize c <= zlen data /\ 12 <= chunkSize c /\ drop (Z.to_nat (i + chunkSize c)) data = rest) as Hnext.
  { intros c rest Hc E. pose proof (zlen_chunk c Hc) as Hz. pose proof (zlen_drop data i Hi) as Hd. rewrite E, zlen_app, Hz in Hd. pose proof (zlen_nonneg rest). unfold chunkSize in *. pose proof (zlen_nonneg (ch_data c)). split_and!; try lia.
    replace (Z.to_nat (i + (12 + zlen (ch_data c)))) with (Z.to_nat i + length (chunkBytes c))%nat by (unfold zlen in *; lia). rewrite <- drop_drop, E. apply drop_app_length. }
  split.
  - intros H. destruct (png_loop_reads _ _ _ _ _ Hb Hi H) as (c & rest & Hc & E). destruct (Hnext c rest Hc E) as (Hi' & Hsz & Edrop). rewrite (png_loop_chunk _ _ _ _ c rest) in H by done.
    destruct (first && _) eqn:Ef; [done|]. assert (first = true -> isHeader c) as Hh by (intros ->; by apply isHeader_spec). case_bool_decide as Ek.
    + injection H as <-. exists [], c, rest. cbn [app map concat head]. rewrite app_nil_r. split_and!; [done|by apply Forall_singleton|intros Hfst; exists c; auto|done|by apply Forall_nil|rewrite zlen_chunk by done; lia].
    + apply IH in H; [|done|lia]. rewrite Edrop in H. destruct H as (body & last & rest' & -> & Hok & _ & Hl & Hbody & Hn). exists (c :: body), last, rest'. cbn [app map concat head]. rewrite <- app_assoc. split_and!; [done|by constructor|intros Hfst; exists c; auto|done|by constructor|].
      rewrite zlen_app, zlen_chunk, <- Hn by done. lia.
  - intros (body & last & rest & E & Hok & Hh & Hl & Hbody & Hn). destruct body as [|c body]; cbn [app map concat head] in E, Hok, Hh, Hn.
    + rewrite app_nil_r in E, Hn. apply Forall_cons in Hok as [Hc _]. rewrite (png_loop_chunk _ _ _ _ last rest) by done. rewrite (bool_decide_true (ch_kind last = bytesOf "IEND")) by done. rewrite zlen_chunk in Hn by done.
      assert (first && (negb (bool_decide (ch_kind last = bytesOf "IHDR")) || negb (zlen (ch_data last) =? 13)) = false) as ->; [|f_equal; lia]. destruct first; [|done]. destruct (Hh eq_refl) as (c & [= <-] & Hc'). by apply isHeader_spec.
    + rewrite <- app_assoc in E. apply Forall_cons in Hok as [Hc Hok]. apply Forall_cons in Hbody as [Hck Hbody]. destruct (Hnext c _ Hc E) as (Hi' & Hsz & Edrop). rewrite (png_loop_chunk _ _ _ _ c (concat (map chunkBytes (body ++ [last])) ++ rest)) by done.
      rewrite (bool_decide_false (ch_kind c = bytesOf "IEND")) by done. assert (first && (negb (bool_decide (ch_kind c = bytesOf "IHDR")) || negb (zlen (ch_data c) =? 13)) = false) as ->.
      { destruct first; [|done]. destruct (Hh eq_refl) as (c' & [= <-] & Hc'). by apply isHeader_spec. }
      apply IH; [done|lia|]. rewrite Edrop. exists body, last, rest. split_and!; try done. rewrite zlen_app, zlen_chunk in Hn by done. lia.
Qed.
(** A PNG is carved exactly as long as it is.  The walk over data of at least eight
    bytes comes to a length if and only if behind the signature there are chunks with
    lengths and checksums that are right, a header first, [IEND] last and nowhere before,
    and the length is that of the signature and these chunks. *)
Theorem png_is_its_chunks (data : list Z) (n : Z) : bytes data -> 8 <= zlen data -> pngLength data = Ok n <-> chunked (drop 8 data) true (n - 8).
Proof. intros Hb Hlen. apply (png_loop_chunked data n Hb (S (length data)) 8 true); unfold zlen in *; lia. Qed.
(** A picture of a header and an end, with three bytes behind it that are none of it. *)
Definition smallPicture : list Z :=
  [0x89; 0x50; 0x4e; 0x47; 0x0d; 0x0a; 0x1a; 0x0a] ++ chunkBytes (Chunk (bytesOf "IHDR") [0; 0; 0; 1; 0; 0; 0; 1; 8; 0; 0; 0; 0]) ++ chunkBytes (Chunk (bytesOf "IEND") []) ++ [1; 2; 3].
Lemma png_is_its_chunks_witness : bytes smallPicture /\ 8 <= zlen smallPicture /\ pngLength smallPicture = Ok 45 /\ chunked (drop 8 smallPicture) true 37.
Proof.
  assert (bytes smallPicture) as Hb by (unfold bytes; apply (bool_decide_unpack _); vm_compute; exact I). assert (8 <= zlen smallPicture) as Hl by (vm_compute; discriminate).
  assert (pngLength smallPicture = Ok 45) as Hn by (vm_compute; reflexivity). split; [exact Hb|]. split; [exact Hl|]. split; [exact Hn|]. apply (png_is_its_chunks smallPicture 45 Hb Hl). exact Hn.
Defined.
(** The same picture among bytes that are nobody's: it is found, and what is around it is
    left over. *)
Lemma carve_finds_the_whole_files_witness : bytes ([7; 7] ++ smallPicture) /\ carve ([7; 7] ++ smallPicture) = Ok ([Find 2 45 "png"], 5) /\
  exists finds leftover, carve ([7; 7] ++ smallPicture) = Ok (finds, leftover) /\ laid ([7; 7] ++ smallPicture) 0 finds /\ leftover = zlen ([7; 7] ++ smallPicture) - foldl (fun t f => t + fd_Length f) 0 finds /\ 0 <= leftover <= zlen ([7; 7] ++ smallPicture).
Proof.
  assert (bytes ([7; 7] ++ smallPicture)) as Hb by (unfold bytes; apply (bool_decide_unpack _); vm_compute; exact I). split; [exact Hb|]. split; [vm_compute; reflexivity|]. apply (carve_finds_the_whole_files ([7; 7] ++ smallPicture)). exact Hb.
Defined.
(** A continuation chunk of an AVI that stands alone is taken for a file, and has no name to
    give it: [riffName] knows no extension for the forms that only follow another. *)
Theorem continuation_has_no_extension : carve (bytesOf "RIFF" ++ [4; 0; 0; 0] ++ bytesOf "AVIX") = Ok ([Find 0 12 ""], 0).
Proof. vm_compute. reflexivity. Qed.
End Carve.
