(* ===== verification/Setup.v ===== *)
(** Sessions, channels and tree connects as they come and go: the handlers of
    SMB2_SESSION_SETUP, SMB2_LOGOFF, SMB2_TREE_CONNECT and SMB2_TREE_DISCONNECT in
    [conn.go], with [session.go], [channel.go], [tree.go] and [closeConnection] of
    [server.go].

    Requests of different connections, the reaper and the loss of a connection interleave.
    A thread here is what one of them has left to do, as a list of instructions, each of
    which is what the code does under one hold of a lock, with what it does outside any;
    an instruction may put further ones in front.  Sessions, connections, tree connects and
    opens are known by identity, and the tables of all of them are one map each, with the
    owner in the key.  What a client proves to the NTLM server is in [Ntlm]: here an
    authentication is the login it comes to, or [None].  What is drawn at random is an
    argument. *)
From S2P Require Import Prelude Bytes Smb2Const Messages Session Sharing Shares.

Module Setup.
Abbreviation connId := nat.
Abbreviation sessId := nat.
Abbreviation treeId := nat.
Abbreviation openId := nat.
Abbreviation shareId := nat.

(** ** The state *)
(** What [Session] of the NTLM server says of who authenticated. *)
Record login := Login { l_User : string; l_Domain : string; l_RID : Z; l_Guest : bool; l_Anonymous : bool; l_Key : list Z }.
Record conn := Conn { base : Session.connection; shouldSign : bool; clientCapabilities : Z; host : string; ntlm : option login; created : Z }.
Record sess := Sess { core : Session.session; connection : connId; workgroup : string; userRID : Z; idleTime : Z }.
(** [Claimed] names the thread that is to put the tree connect into its table; no code looks
    at the stage. *)
Inductive stage := Claimed (thread : nat) | Placed | Closed.
#[export] Instance stage_eq_dec : EqDecision stage.
Proof. solve_decision. Defined.
Record tree := Tree { t_share : shareId; maximalAccess : Z; t_stage : stage }.
Record opn := Open { o_tree : treeId; durableFileID : Z; isDurable : bool }.
(** What somebody authenticated over a connection for: to set the session up, or to have the
    connection join it, when it was of [user], or was refused to. *)
Inductive how := SetUp | Joined (user : string) | Refused.
Record proof := Proof_ { p_conn : connId; p_sess : sessId; p_login : login; p_how : how }.
(** [replies], [served] and [proofs] are what happened so far: the answers with their status,
    the requests that were served on a session, and who authenticated. *)
Record world := World {
  conns : gmap connId conn; sessions : gmap sessId sess; trees : gmap treeId tree; opens : gmap openId opn; sessionTable : gmap (connId * Z) sessId;
  treeConnectTable : gmap (sessId * Z) treeId; openTable : gmap (sessId * Z) openId; globalSessionTable : gmap Z sessId; globalOpenTable : gmap Z openId;
  globalClientTable : gmap (list Z) Z; theShares : Shares.shares; connectionList : gmap string connId; connectionCount : gmap string Z;
  watches : gset (connId * openId); ended : gset openId; SOpens : Z; PwErrors : Z; replies : list (connId * Z); served : list (connId * sessId * Z);
  proofs : list proof;
}.
Definition upd_conns (f : gmap connId conn -> gmap connId conn) (w : world) : world := World (f (conns w)) (sessions w) (trees w) (opens w) (sessionTable w) (treeConnectTable w) (openTable w) (globalSessionTable w) (globalOpenTable w) (globalClientTable w) (theShares w) (connectionList w) (connectionCount w) (watches w) (ended w) (SOpens w) (PwErrors w) (replies w) (served w) (proofs w).
Definition upd_sessions (f : gmap sessId sess -> gmap sessId sess) (w : world) : world := World (conns w) (f (sessions w)) (trees w) (opens w) (sessionTable w) (treeConnectTable w) (openTable w) (globalSessionTable w) (globalOpenTable w) (globalClientTable w) (theShares w) (connectionList w) (connectionCount w) (watches w) (ended w) (SOpens w) (PwErrors w) (replies w) (served w) (proofs w).
Definition upd_trees (f : gmap treeId tree -> gmap treeId tree) (w : world) : world := World (conns w) (sessions w) (f (trees w)) (opens w) (sessionTable w) (treeConnectTable w) (openTable w) (globalSessionTable w) (globalOpenTable w) (globalClientTable w) (theShares w) (connectionList w) (connectionCount w) (watches w) (ended w) (SOpens w) (PwErrors w) (replies w) (served w) (proofs w).
Definition upd_sessionTable (f : gmap (connId * Z) sessId -> gmap (connId * Z) sessId) (w : world) : world := World (conns w) (sessions w) (trees w) (opens w) (f (sessionTable w)) (treeConnectTable w) (openTable w) (globalSessionTable w) (globalOpenTable w) (globalClientTable w) (theShares w) (connectionList w) (connectionCount w) (watches w) (ended w) (SOpens w) (PwErrors w) (replies w) (served w) (proofs w).
Definition upd_treeConnectTable (f : gmap (sessId * Z) treeId -> gmap (sessId * Z) treeId) (w : world) : world := World (conns w) (sessions w) (trees w) (opens w) (sessionTable w) (f (treeConnectTable w)) (openTable w) (globalSessionTable w) (globalOpenTable w) (globalClientTable w) (theShares w) (connectionList w) (connectionCount w) (watches w) (ended w) (SOpens w) (PwErrors w) (replies w) (served w) (proofs w).
Definition upd_openTable (f : gmap (sessId * Z) openId -> gmap (sessId * Z) openId) (w : world) : world := World (conns w) (sessions w) (trees w) (opens w) (sessionTable w) (treeConnectTable w) (f (openTable w)) (globalSessionTable w) (globalOpenTable w) (globalClientTable w) (theShares w) (connectionList w) (connectionCount w) (watches w) (ended w) (SOpens w) (PwErrors w) (replies w) (served w) (proofs w).
Definition upd_globalSessionTable (f : gmap Z sessId -> gmap Z sessId) (w : world) : world := World (conns w) (sessions w) (trees w) (opens w) (sessionTable w) (treeConnectTable w) (openTable w) (f (globalSessionTable w)) (globalOpenTable w) (globalClientTable w) (theShares w) (connectionList w) (connectionCount w) (watches w) (ended w) (SOpens w) (PwErrors w) (replies w) (served w) (proofs w).
Definition upd_globalOpenTable (f : gmap Z openId -> gmap Z openId) (w : world) : world := World (conns w) (sessions w) (trees w) (opens w) (sessionTable w) (treeConnectTable w) (openTable w) (globalSessionTable w) (f (globalOpenTable w)) (globalClientTable w) (theShares w) (connectionList w) (connectionCount w) (watches w) (ended w) (SOpens w) (PwErrors w) (replies w) (served w) (proofs w).
Definition upd_globalClientTable (f : gmap (list Z) Z -> gmap (list Z) Z) (w : world) : world := World (conns w) (sessions w) (trees w) (opens w) (sessionTable w) (treeConnectTable w) (openTable w) (globalSessionTable w) (globalOpenTable w) (f (globalClientTable w)) (theShares w) (connectionList w) (connectionCount w) (watches w) (ended w) (SOpens w) (PwErrors w) (replies w) (served w) (proofs w).
Definition upd_theShares (f : Shares.shares -> Shares.shares) (w : world) : world := World (conns w) (sessions w) (trees w) (opens w) (sessionTable w) (treeConnectTable w) (openTable w) (globalSessionTable w) (globalOpenTable w) (globalClientTable w) (f (theShares w)) (connectionList w) (connectionCount w) (watches w) (ended w) (SOpens w) (PwErrors w) (replies w) (served w) (proofs w).
Definition upd_connectionList (f : gmap string connId -> gmap string connId) (w : world) : world := World (conns w) (sessions w) (trees w) (opens w) (sessionTable w) (treeConnectTable w) (openTable w) (globalSessionTable w) (globalOpenTable w) (globalClientTable w) (theShares w) (f (connectionList w)) (connectionCount w) (watches w) (ended w) (SOpens w) (PwErrors w) (replies w) (served w) (proofs w).
Definition upd_connectionCount (f : gmap string Z -> gmap string Z) (w : world) : world := World (conns w) (sessions w) (trees w) (opens w) (sessionTable w) (treeConnectTable w) (openTable w) (globalSessionTable w) (globalOpenTable w) (globalClientTable w) (theShares w) (connectionList w) (f (connectionCount w)) (watches w) (ended w) (SOpens w) (PwErrors w) (replies w) (served w) (proofs w).
Definition upd_watches (f : gset (connId * openId) -> gset (connId * openId)) (w : world) : world := World (conns w) (sessions w) (trees w) (opens w) (sessionTable w) (treeConnectTable w) (openTable w) (globalSessionTable w) (globalOpenTable w) (globalClientTable w) (theShares w) (connectionList w) (connectionCount w) (f (watches w)) (ended w) (SOpens w) (PwErrors w) (replies w) (served w) (proofs w).
Definition upd_ended (f : gset openId -> gset openId) (w : world) : world := World (conns w) (sessions w) (trees w) (opens w) (sessionTable w) (treeConnectTable w) (openTable w) (globalSessionTable w) (globalOpenTable w) (globalClientTable w) (theShares w) (connectionList w) (connectionCount w) (watches w) (f (ended w)) (SOpens w) (PwErrors w) (replies w) (served w) (proofs w).
Definition count_ (sopens pw : Z) (w : world) : world := World (conns w) (sessions w) (trees w) (opens w) (sessionTable w) (treeConnectTable w) (openTable w) (globalSessionTable w) (globalOpenTable w) (globalClientTable w) (theShares w) (connectionList w) (connectionCount w) (watches w) (ended w) (SOpens w + sopens) (PwErrors w + pw) (replies w) (served w) (proofs w).
Definition reply (c : connId) (st : Z) (w : world) : world := World (conns w) (sessions w) (trees w) (opens w) (sessionTable w) (treeConnectTable w) (openTable w) (globalSessionTable w) (globalOpenTable w) (globalClientTable w) (theShares w) (connectionList w) (connectionCount w) (watches w) (ended w) (SOpens w) (PwErrors w) (replies w ++ [(c, st)]) (served w) (proofs w).
Definition serve (c : connId) (s : sessId) (command : Z) (w : world) : world := World (conns w) (sessions w) (trees w) (opens w) (sessionTable w) (treeConnectTable w) (openTable w) (globalSessionTable w) (globalOpenTable w) (globalClientTable w) (theShares w) (connectionList w) (connectionCount w) (watches w) (ended w) (SOpens w) (PwErrors w) (replies w) ((c, s, command) :: served w) (proofs w).
Definition prove (p : proof) (w : world) : world := World (conns w) (sessions w) (trees w) (opens w) (sessionTable w) (treeConnectTable w) (openTable w) (globalSessionTable w) (globalOpenTable w) (globalClientTable w) (theShares w) (connectionList w) (connectionCount w) (watches w) (ended w) (SOpens w) (PwErrors w) (replies w) (served w) (p :: proofs w).
Definition upd_core (f : Session.session -> Session.session) (ss : sess) : sess := Sess (f (core ss)) (connection ss) (workgroup ss) (userRID ss) (idleTime ss).
Definition upd_base (f : Session.connection -> Session.connection) (c : conn) : conn := Conn (f (base c)) (shouldSign c) (clientCapabilities c) (host c) (ntlm c) (created c).
Definition set_login (l : login) (c : conn) : conn := Conn (base c) (shouldSign c) (clientCapabilities c) (host c) (Some l) (created c).
Definition set_idle (t : Z) (ss : sess) : sess := Sess (core ss) (connection ss) (workgroup ss) (userRID ss) t.
Definition set_state (st : Session.sessionState) (ss : Session.session) : Session.session :=
  Session.MkSession (Session.sessionID ss) st (Session.isAnonymous ss) (Session.isGuest ss) (Session.sessionKey ss) (Session.signingRequired ss) (Session.userName ss)
    (Session.encryptData ss) (Session.signingKey ss) (Session.encryptionKey ss) (Session.decryptionKey ss) (Session.ss_preauthHash ss) (Session.channelList ss).
Definition set_hash (h : list Z) (ss : Session.session) : Session.session :=
  Session.MkSession (Session.sessionID ss) (Session.state ss) (Session.isAnonymous ss) (Session.isGuest ss) (Session.sessionKey ss) (Session.signingRequired ss) (Session.userName ss)
    (Session.encryptData ss) (Session.signingKey ss) (Session.encryptionKey ss) (Session.decryptionKey ss) h (Session.channelList ss).
Definition set_protection (sign encrypt : bool) (ss : Session.session) : Session.session :=
  Session.MkSession (Session.sessionID ss) (Session.state ss) (Session.isAnonymous ss) (Session.isGuest ss) (Session.sessionKey ss) sign (Session.userName ss)
    encrypt (Session.signingKey ss) (Session.encryptionKey ss) (Session.decryptionKey ss) (Session.ss_preauthHash ss) (Session.channelList ss).

Section setup.
(** [sameName] is [strings.EqualFold]; [accounts] is of the store; the rest are settings of the
    server. *)
Context (lib : Session.crypto) (sameName : string -> string -> bool) (toLower : string -> string) (accounts : Z -> Shares.lookup) (encrypts compresses multiChannel : bool).
(** A session setup: what the message says, with what the NTLM server makes of its token, the
    number drawn for a session and the response. *)
Record request := Req {
  r_sid : Z; r_msg : list Z; r_signed : bool; r_mode : Z; r_previous : Z; r_binding : bool; r_authenticate : bool;
  r_challenged : bool; r_auth : option login; r_new : Z; r_now : Z; r_resp : list Z;
}.

(** ** Looking sessions up *)
Definition windsDownSession (command : Z) : bool := (command =? SMB2_LOGOFF) || (command =? SMB2_CLOSE) || (command =? SMB2_LOCK).
Definition stateNow (s : sessId) (w : world) : Session.sessionState :=
  match sessions w !! s with Some ss => Session.state (core ss) | None => Session.sessionInProgress end.
Definition sessionFor (c : connId) (sid command : Z) (w : world) : option sessId * Z :=
  match sessionTable w !! (c, sid) with
  | None => (None, STATUS_USER_SESSION_DELETED)
  | Some s =>
      if windsDownSession command then (Some s, STATUS_OK)
      else match stateNow s w with
           | Session.sessionInProgress => (Some s, STATUS_INVALID_PARAMETER)
           | Session.sessionExpired => (Some s, STATUS_NETWORK_SESSION_EXPIRED)
           | Session.sessionValid => (Some s, STATUS_OK)
           end
  end.

(** ** Setting a session up *)
Definition newSessionState (sid : Z) (c : connId) (now : Z) : sess :=
  Sess (Session.MkSession sid Session.sessionInProgress false false [] false "" false [] [] [] [] ∅) c "" 0 now.
Definition rollHash (c : Session.connection) (h msg : list Z) : list Z :=
  if Session.negotiateDialect c =? SMB_DIALECT_311 then (if Session.preauthIntegrityHashID c =? SHA_512 then Session.sha512 lib (h ++ msg) else h) else h.
Definition startHash (c : Session.connection) (msg : list Z) (ss : Session.session) : Session.session :=
  if Session.negotiateDialect c =? SMB_DIALECT_311 then set_hash (rollHash c (Session.preauthIntegrityHashValue c) msg) ss else ss.
(** [c] is the connection of the session, whose NTLM server says who it is. *)
Definition finalize (c : conn) (l : login) (r : request) (ss : sess) : sess :=
  let old := core ss in
  let user := if l_Anonymous l then Shares.AnonymousAccount else l_User l in
  let wg := if l_Anonymous l then Shares.AnonymousWorkgroup else l_Domain l in
  let mayProtect := negb (l_Anonymous l) && negb (l_Guest l) in
  let ks := Session.MkSession (Session.sessionID old) (Session.state old) (l_Anonymous l) (l_Guest l) (l_Key l)
    (has (r_mode r) NEGOTIATE_SIGNING_REQUIRED && mayProtect && shouldSign c) user (encrypts && mayProtect)
    (Session.signingKey old) (Session.encryptionKey old) (Session.decryptionKey old) (rollHash (base c) (Session.ss_preauthHash old) (r_msg r)) (Session.channelList old) in
  let ks := Session.deriveKeys lib (Session.negotiateDialect (base c)) ks in
  let ks := if Is3X (Session.negotiateDialect (base c)) then Session.bindChannel (base c) (Session.signingKey ks) ks else ks in
  Sess ks (connection ss) wg (l_RID l) (idleTime ss).
(** What the handler settles after it: [c] is the connection the request came over. *)
Definition protection (c : conn) (ks : Session.session) : Session.session :=
  if Session.isAnonymous ks || Session.isGuest ks then ks
  else if Is3X (Session.negotiateDialect (base c)) && encrypts && negb (Session.cipherID (base c) =? 0) then set_protection false true ks
  else set_protection true false ks.
Definition replacePrevious (c0 : connId) (r : request) (s : sessId) (w : world) : world :=
  if r_previous r =? 0 then w
  else
    match sessionTable w !! (c0, r_previous r) with
    | Some p =>
        match sessions w !! p, sessions w !! s with
        | Some ps, Some ss =>
            if (userRID ss =? userRID ps) && negb (Session.sessionID (core ss) =? r_previous r)
            then upd_globalSessionTable (delete (r_previous r)) (upd_sessionTable (delete (c0, r_previous r)) w) else w
        | _, _ => w
        end
    | None => w
    end.

(** ** Joining a session as a channel *)
(** [prepareBinding]: the session by its number, whether it is set up, whether it is here. *)
Definition bindFind (c : connId) (r : request) (w : world) : option sessId * Z :=
  match globalSessionTable w !! r_sid r with
  | None => (None, STATUS_USER_SESSION_DELETED)
  | Some s =>
      match sessions w !! s, conns w !! c with
      | Some ss, Some me =>
          match conns w !! connection ss with
          | Some its =>
              if negb (Session.negotiateDialect (base me) =? Session.negotiateDialect (base its)) then (None, STATUS_INVALID_PARAMETER)
              else if negb (r_signed r) then (None, STATUS_INVALID_PARAMETER)
              else if negb (bool_decide (Session.clientGuid (base me) = Session.clientGuid (base its))) then (None, STATUS_USER_SESSION_DELETED)
              else (Some s, STATUS_OK)
          | None => (None, STATUS_USER_SESSION_DELETED)
          end
      | _, _ => (None, STATUS_USER_SESSION_DELETED)
      end
  end.
Definition bindState (s : sessId) (w : world) : Z :=
  match sessions w !! s with
  | None => STATUS_USER_SESSION_DELETED
  | Some ss =>
      match Session.state (core ss) with
      | Session.sessionInProgress => STATUS_REQUEST_NOT_ACCEPTED
      | Session.sessionExpired => STATUS_NETWORK_SESSION_EXPIRED
      | Session.sessionValid => if Session.isAnonymous (core ss) || Session.isGuest (core ss) then STATUS_NOT_SUPPORTED else STATUS_OK
      end
  end.
Definition bindBound (c : connId) (sid : Z) (w : world) : bool := bool_decide (is_Some (sessionTable w !! (c, sid))).
Definition startPreauth (sid : Z) (c : Session.connection) : Session.connection :=
  if Session.negotiateDialect c =? SMB_DIALECT_311 then
    match Session.preauthSessionTable c !! sid with
    | Some _ => c
    | None => Session.set_preauth (<[sid := Session.preauthIntegrityHashValue c]> (Session.preauthSessionTable c)) c
    end
  else c.
Definition updatePreauthHash (sid : Z) (msg : list Z) (c : Session.connection) : Session.connection :=
  if negb (Session.negotiateDialect c =? SMB_DIALECT_311) then c
  else match Session.preauthSessionTable c !! sid with
       | None => c
       | Some h => Session.set_preauth (<[sid := rollHash c h msg]> (Session.preauthSessionTable c)) c
       end.
Definition dropPreauthSession (sid : Z) (c : Session.connection) : Session.connection := Session.set_preauth (delete sid (Session.preauthSessionTable c)) c.
Definition takePreauthHash (sid : Z) (c : Session.connection) : list Z * Session.connection :=
  (default [] (Session.preauthSessionTable c !! sid), dropPreauthSession sid c).
Definition channelKey (c : Session.connection) (l : login) (hash : list Z) : list Z :=
  let d := Session.negotiateDialect c in
  if (d =? SMB_DIALECT_30) || (d =? SMB_DIALECT_302) then Session.Kdf lib (l_Key l) (Session.text "SMB2AESCMAC") (Session.text "SmbSign")
  else if d =? SMB_DIALECT_311 then Session.Kdf lib (l_Key l) (Session.text "SMBSigningKey") hash
  else [].
(** Whom to send to: the channel the client waits on, that of the open, any other. *)
Definition selectConnection (own : conn) (preferred : option conn) (ss : Session.session) : connId :=
  if negb (Is3X (Session.negotiateDialect (base own))) then Session.cid (base own)
  else match preferred with
       | Some p => if Session.isChannel ss (base p) then Session.cid (base p)
                   else if Session.isChannel ss (base own) then Session.cid (base own)
                   else match map_to_list (Session.channelList ss) with (_, ch) :: _ => Session.ch_connection ch | [] => Session.cid (base own) end
       | None => if Session.isChannel ss (base own) then Session.cid (base own)
                 else match map_to_list (Session.channelList ss) with (_, ch) :: _ => Session.ch_connection ch | [] => Session.cid (base own) end
       end.


(** ** Taking a session down *)
Definition opensOf (s : sessId) (w : world) : list (Z * openId) :=
  omap (fun e : (sessId * Z) * openId => if Nat.eqb e.1.1 s then Some (e.1.2, e.2) else None) (map_to_list (openTable w)).
Definition treesOf (s : sessId) (w : world) : list Z :=
  omap (fun e : (sessId * Z) * treeId => if Nat.eqb e.1.1 s then Some e.1.2 else None) (map_to_list (treeConnectTable w)).
Definition sessionsOf (c : connId) (w : world) : list (Z * sessId) :=
  omap (fun e : (connId * Z) * sessId => if Nat.eqb e.1.1 c then Some (e.1.2, e.2) else None) (map_to_list (sessionTable w)).
Definition unlistOpens (l : list openId) (w : world) : world :=
  upd_globalOpenTable (fun m => foldr (fun o m => match opens w !! o with Some op => delete (durableFileID op) m | None => m end) m l) w.
Definition onTree (t : treeId) (w : world) (e : Z * openId) : bool := match opens w !! e.2 with Some op => Nat.eqb (o_tree op) t | None => false end.
Definition closeTree (t : treeId) (w : world) : world :=
  match trees w !! t with
  | Some tc => upd_trees (<[t := Tree (t_share tc) (maximalAccess tc) Closed]>) (upd_theShares (Shares.at_ (t_share tc) Shares.releaseUse) w)
  | None => w
  end.
(** What [closeTreeConnect] does under the lock of the session; the opens to end come back. *)
Definition closeTreeConnect (s : sessId) (tid : Z) (w : world) : option (world * list openId) :=
  match treeConnectTable w !! (s, tid) with
  | None => None
  | Some t =>
      let closed := filter (fun e => onTree t w e = true) (opensOf s w) in
      let w := upd_openTable (fun m => foldr (fun (e : Z * openId) m => delete (s, e.1) m) m closed) (unlistOpens (map snd closed) w) in
      Some (upd_treeConnectTable (delete (s, tid)) (closeTree t w), map snd closed)
  end.
(** And what it does after: the watches answered are those on the connection of the session. *)
Definition endOpens (s : sessId) (l : list openId) (w : world) : world :=
  let w := upd_ended (fun e => list_to_set l ∪ e) w in
  match sessions w !! s with
  | Some ss => upd_watches (filter (fun x : connId * openId => ~ (x.1 = connection ss /\ x.2 ∈ l))) w
  | None => w
  end.
Definition orphanDurableOpens (s : sessId) (w : world) : world :=
  upd_openTable (fun m => foldr (fun (e : Z * openId) m => match opens w !! e.2 with Some op => if isDurable op then delete (s, e.1) m else m | None => m end) m (opensOf s w)) w.
(** The list of connections goes by the address of the client. *)
Definition nameOf (c : connId) (w : world) : string := match conns w !! c with Some me => Session.clientName (base me) | None => "" end.
Definition hostOf (c : connId) (w : world) : string := match conns w !! c with Some me => host me | None => "" end.
Definition delist (c : connId) (w : world) : world :=
  match connectionList w !! nameOf c w with
  | Some _ => let h := hostOf c w in
      upd_connectionCount (fun m => let n := default 0 (m !! h) in if n <=? 1 then delete h m else <[h := n - 1]> m) (upd_connectionList (delete (nameOf c w)) w)
  | None => w
  end.
(** [acceptConnections] counts the connection, and [newConnection] lists it. *)
Definition admitHost (c : connId) (limit : Z) (w : world) : option world :=
  let n := default 0 (connectionCount w !! hostOf c w) in
  if n <? limit then Some (upd_connectionCount (<[hostOf c w := n + 1]>) w) else None.
Definition newConnection (c : connId) (w : world) : world := upd_connectionList (<[nameOf c w := c]>) w.

(** ** The handlers, an instruction at a time *)
(** What a teardown is part of: a logoff is answered by whether there was a session. *)
Inductive purpose := Silent | Fails (c : connId) (st : Z) | Logoff (c : connId).
Inductive instr :=
| ISetup (c : connId) (r : request) | INewGlobal (c : connId) (s : sessId) (r : request) | IChallenge (c : connId) (s : sessId) (r : request)
| IReactivate (c : connId) (s : sessId) (r : request) | IAuth (c : connId) (s : sessId) (r : request) | IPwError (c : connId)
| IFinalize (c : connId) (s : sessId) (r : request) | IReplace (c : connId) (s : sessId) (r : request) | IActivate (c : connId) (s : sessId) (r : request)
| IClient (c : connId) (s : sessId) | IClientPut (c : connId) (s : sessId)
| IBindState (c : connId) (s : sessId) (r : request) | IBindBound (c : connId) (s : sessId) (r : request) | IBindAuth (c : connId) (s : sessId) (r : request)
| IJoin (c : connId) (s : sessId) (r : request) (l : login) | IAddChannel (c : connId) (s : sessId) (r : request) (l : login) | IChannelKey (c : connId) (s : sessId) (r : request) (l : login)
| ITake (c : connId) (sid : Z) (p : purpose) | ICancelOpens (s : sessId) | IListTrees (s : sessId) | ICloseTree (s : sessId) (tid : Z) | IEndOpens (s : sessId) (l : list openId)
| IChannels (c : connId) (sid : Z) (s : sessId) | IUntable (c : connId) (sid : Z) | IGlobal (sid : Z)
| ILogoff (c : connId) (sid : Z) | IOrphan (s : sessId)
| ILost (c : connId) | ILostSessions (c : connId) | IUnbind (c : connId) (s : sessId) | IIfEmpty (c : connId) (s : sessId)
| ITree (c : connId) (sid : Z) (path : string) (signed : bool) (stored : option Shares.registration) (a : Shares.restorable) (ready : bool) (tid now : Z)
| IWeigh (c : connId) (s : sessId) (path : string) (stored : option Shares.registration) (a : Shares.restorable) (ready : bool) (tid : Z)
| IPlace (c : connId) (s : sessId) (t : treeId) (tid : Z) | ITreeOff (c : connId) (sid tid now : Z)
| IServe (c : connId) (sid command : Z) | IReply (c : connId) (st : Z).
Definition teardown (c : connId) (sid : Z) (p : purpose) : list instr := [ITake c sid p].
Definition finish (p : purpose) (found : bool) : list instr :=
  match p with
  | Silent => []
  | Fails c st => [IReply c st]
  | Logoff c => [IReply c (if found then STATUS_OK else STATUS_USER_SESSION_DELETED)]
  end.
Definition sidOf (s : sessId) (w : world) : Z := match sessions w !! s with Some ss => Session.sessionID (core ss) | None => 0 end.
Definition upd_sess (s : sessId) (f : sess -> sess) : world -> world := upd_sessions (alter f s).
Definition upd_conn (c : connId) (f : conn -> conn) : world -> world := upd_conns (alter f c).
Definition identityOf (ss : sess) : Shares.identity :=
  Shares.Identity (workgroup ss) (Session.userName (core ss)) (Session.isAnonymous (core ss)) (Session.isGuest (core ss)).
Definition sessionSetup (c : connId) (r : request) (w : world) : world * list instr :=
  match conns w !! c with
  | None => (w, [])
  | Some me =>
      let is3x := Is3X (Session.negotiateDialect (base me)) in
      if is3x && encrypts && negb (has (clientCapabilities me) GLOBAL_CAP_ENCRYPTION) then (w, [IReply c STATUS_ACCESS_DENIED])
      else if r_binding r then
        if negb is3x || negb multiChannel then (w, [IReply c STATUS_REQUEST_NOT_ACCEPTED])
        else match bindFind c r w with
             | (Some s, _) => (w, [IBindState c s r])
             | (None, st) => (w, [IReply c st])
             end
      else if r_sid r =? 0 then
        let s := fresh (dom (sessions w)) in
        (upd_sessionTable (<[(c, r_new r) := s]>) (upd_sessions (<[s := newSessionState (r_new r) c (r_now r)]>) w), [INewGlobal c s r])
      else match sessionTable w !! (c, r_sid r) with
           | Some s => (w, [IReactivate c s r])
           | None => (w, [IReply c STATUS_USER_SESSION_DELETED])
           end
  end.
Definition registerGlobally (c : connId) (s : sessId) (r : request) (w : world) : world * list instr :=
  let w := count_ 1 0 (upd_globalSessionTable (<[r_new r := s]>) w) in
  (match conns w !! c with Some me => upd_sess s (upd_core (startHash (base me) (r_msg r))) w | None => w end, [IChallenge c s r]).
Definition challenge (c : connId) (s : sessId) (r : request) (w : world) : world * list instr :=
  if r_challenged r then
    (match conns w !! c with
     | Some me => upd_sess s (upd_core (fun ss => set_hash (rollHash (base me) (Session.ss_preauthHash ss) (r_resp r)) ss)) w
     | None => w
     end, [IReply c STATUS_MORE_PROCESSING_REQUIRED])
  else (w, teardown c (sidOf s w) Silent).
Definition reactivate (c : connId) (s : sessId) (r : request) (w : world) : world * list instr :=
  (upd_sess s (fun ss => match Session.state (core ss) with Session.sessionExpired => upd_core (set_state Session.sessionInProgress) ss | _ => ss end) w, [IAuth c s r]).
Definition authenticate (c : connId) (s : sessId) (r : request) (w : world) : world * list instr :=
  match r_auth r with
  | None => (w, teardown c (sidOf s w) Silent ++ [IPwError c])
  | Some l => (prove (Proof_ c s l SetUp) (upd_conn c (set_login l) w), [IFinalize c s r])
  end.
Definition pwError (c : connId) (w : world) : world * list instr := (count_ 0 1 w, [IReply c STATUS_NO_SUCH_USER]).
Definition finalizeStep (c : connId) (s : sessId) (r : request) (w : world) : world * list instr :=
  match sessions w !! s with
  | Some ss =>
      match conns w !! connection ss with
      | Some its => match ntlm its with Some l => (upd_sess s (fun ss => finalize its l r ss) w, [IReplace c s r]) | None => (w, []) end
      | None => (w, [])
      end
  | None => (w, [])
  end.
Definition replaceStep (c : connId) (s : sessId) (r : request) (w : world) : world * list instr := (match sessions w !! s with Some ss => replacePrevious (connection ss) r s w | None => w end, [IActivate c s r]).
Definition activateStep (c : connId) (s : sessId) (r : request) (w : world) : world * list instr :=
  (match conns w !! c with
   | Some me => upd_sess s (fun ss => set_idle (r_now r) (upd_core (fun ks => set_state Session.sessionValid (protection me ks)) ss)) w
   | None => w
   end, [IClient c s]).
Definition clientDialect (c : connId) (s : sessId) (w : world) : world * list instr :=
  match conns w !! c with
  | None => (w, [])
  | Some me =>
      if Is3X (Session.negotiateDialect (base me)) then
        match globalClientTable w !! Session.clientGuid (base me) with
        | None => (w, [IClientPut c s])
        | Some d => if d =? Session.negotiateDialect (base me) then (w, [IReply c STATUS_OK]) else (w, teardown c (sidOf s w) (Fails c STATUS_USER_SESSION_DELETED))
        end
      else (w, [IReply c STATUS_OK])
  end.
Definition clientPut (c : connId) (s : sessId) (w : world) : world * list instr :=
  (match conns w !! c with Some me => upd_globalClientTable (<[Session.clientGuid (base me) := Session.negotiateDialect (base me)]>) w | None => w end, [IReply c STATUS_OK]).
Definition bindStateStep (c : connId) (s : sessId) (r : request) (w : world) : world * list instr := (w, if bindState s w =? STATUS_OK then [IBindBound c s r] else [IReply c (bindState s w)]).
Definition bindBoundStep (c : connId) (s : sessId) (r : request) (w : world) : world * list instr :=
  if bindBound c (r_sid r) w then (w, [IReply c STATUS_REQUEST_NOT_ACCEPTED])
  else (upd_conn c (upd_base (fun b => updatePreauthHash (r_sid r) (r_msg r) (startPreauth (r_sid r) b))) w, [IBindAuth c s r]).
Definition bindSession (c : connId) (s : sessId) (r : request) (w : world) : world * list instr :=
  let over := upd_conn c (upd_base (dropPreauthSession (r_sid r))) in
  if negb (r_authenticate r) then (if r_challenged r then (w, [IReply c STATUS_MORE_PROCESSING_REQUIRED]) else (over w, []))
  else
    match r_auth r, sessions w !! s with
    | None, _ => (over w, [IPwError c])
    | Some l, Some ss =>
        let w := upd_conn c (set_login l) w in
        let user := Session.userName (core ss) in
        if sameName (l_User l) user then (prove (Proof_ c s l (Joined user)) w, [IJoin c s r l]) else (over (prove (Proof_ c s l Refused) w), [IReply c STATUS_NOT_SUPPORTED])
    | _, None => (w, [])
    end.
Definition join (c : connId) (s : sessId) (r : request) (l : login) (w : world) : world * list instr := (upd_sessionTable (<[(c, sidOf s w) := s]>) w, [IAddChannel c s r l]).
Definition addChannelStep (c : connId) (s : sessId) (r : request) (l : login) (w : world) : world * list instr := (match conns w !! c with Some me => upd_sess s (upd_core (Session.addChannel (base me))) w | None => w end, [IChannelKey c s r l]).
Definition channelKeyStep (c : connId) (s : sessId) (r : request) (l : login) (w : world) : world * list instr :=
  (match conns w !! c with
   | Some me =>
       let '(h, b) := takePreauthHash (r_sid r) (base me) in
       upd_sess s (upd_core (Session.bindChannel (base me) (channelKey (base me) l h))) (upd_conn c (upd_base (fun _ => b)) w)
   | None => w
   end, [IReply c STATUS_OK]).
Definition deregisterSession (c : connId) (sid : Z) (p : purpose) (w : world) : world * list instr :=
  match sessionTable w !! (c, sid) with
  | None => (w, finish p false)
  | Some s => (upd_sessionTable (delete (c, sid)) w, [ICancelOpens s; IListTrees s; IChannels c sid s; IGlobal sid] ++ finish p true)
  end.
Definition cancelOpens (s : sessId) (w : world) : world * list instr := (unlistOpens (map snd (opensOf s w)) w, []).
Definition listTrees (s : sessId) (w : world) : world * list instr := (w, map (ICloseTree s) (treesOf s w)).
Definition closeTreeStep (s : sessId) (tid : Z) (w : world) : world * list instr := match closeTreeConnect s tid w with Some (w, l) => (w, [IEndOpens s l]) | None => (w, []) end.
Definition endOpensStep (s : sessId) (l : list openId) (w : world) : world * list instr := (endOpens s l w, []).
Definition clearChannels (c : connId) (sid : Z) (s : sessId) (w : world) : world * list instr :=
  (upd_sess s (upd_core (Session.set_channels ∅)) w,
   map (fun c => IUntable c sid) (match sessions w !! s with Some ss => map (fun e => Session.ch_connection e.2) (map_to_list (Session.channelList (core ss))) | None => [] end ++ [c])).
Definition untable (c : connId) (sid : Z) (w : world) : world * list instr := (upd_sessionTable (delete (c, sid)) w, []).
Definition unlistSession (sid : Z) (w : world) : world * list instr := (count_ (-1) 0 (upd_globalSessionTable (delete sid) w), []).
Definition logoff (c : connId) (sid : Z) (w : world) : world * list instr :=
  match sessionFor c sid SMB2_LOGOFF w with
  | (Some s, st) => if st =? STATUS_OK then (w, IOrphan s :: teardown c (sidOf s w) (Logoff c)) else (w, [IReply c st])
  | (None, st) => (w, [IReply c st])
  end.
Definition orphanStep (s : sessId) (w : world) : world * list instr := (orphanDurableOpens s w, []).
Definition closeConnection (c : connId) (w : world) : world * list instr := (delist c w, [ILostSessions c]).
Definition lostSessions (c : connId) (w : world) : world * list instr := let l := map snd (sessionsOf c w) in (w, map (IUnbind c) l ++ map (IIfEmpty c) l).
Definition unbindStep (c : connId) (s : sessId) (w : world) : world * list instr := (match conns w !! c with Some me => upd_sess s (upd_core (Session.unbindChannel (base me))) w | None => w end, []).
Definition ifEmpty (c : connId) (s : sessId) (w : world) : world * list instr :=
  match sessions w !! s with
  | Some ss => if bool_decide (Session.channelList (core ss) = ∅) then (w, IOrphan s :: teardown c (sidOf s w) Silent) else (w, [])
  | None => (w, [])
  end.
Definition treeConnect (c : connId) (sid : Z) (path : string) (signed : bool) (stored : option Shares.registration) (a : Shares.restorable) (ready : bool) (tid now : Z) (w : world) : world * list instr :=
  match sessionFor c sid SMB2_TREE_CONNECT w, conns w !! c with
  | (Some s, st), Some me =>
      match sessions w !! s with
      | Some ss =>
          if negb (st =? STATUS_OK) then (w, [IReply c st])
          else if (Session.negotiateDialect (base me) =? SMB_DIALECT_311) && negb (Session.isAnonymous (core ss)) && negb (Session.isGuest (core ss)) && negb signed then (w, [])
          else (upd_sess s (set_idle now) (serve c s SMB2_TREE_CONNECT w), [IWeigh c s path stored a ready tid])
      | None => (w, [])
      end
  | (None, st), _ => (w, [IReply c st])
  | _, None => (w, [])
  end.
Definition weighTree (k : nat) (c : connId) (s : sessId) (path : string) (stored : option Shares.registration) (a : Shares.restorable) (ready : bool) (tid : Z) (w : world) : world * list instr :=
  match conns w !! c, sessions w !! s with
  | Some me, Some ss =>
      let '(sh, r) := Shares.newTreeConnect accounts encrypts compresses toLower (Is3X (Session.negotiateDialect (base me))) (has (clientCapabilities me) GLOBAL_CAP_ENCRYPTION)
                        (identityOf ss) path stored a ready (theShares w) in
      let w := upd_theShares (fun _ => sh) w in
      match r with
      | Ok (i, access, _) => let t := fresh (dom (trees w)) in (upd_trees (<[t := Tree i access (Claimed k)]>) w, [IPlace c s t tid])
      | Err e => (w, [IReply c (Shares.treeStatus e)])
      | _ => (w, [])
      end
  | _, _ => (w, [])
  end.
Definition placeTree (c : connId) (s : sessId) (t : treeId) (tid : Z) (w : world) : world * list instr :=
  (upd_treeConnectTable (<[(s, tid) := t]>) (upd_trees (alter (fun tc => Tree (t_share tc) (maximalAccess tc) Placed) t) w), [IReply c STATUS_OK]).
Definition treeDisconnect (c : connId) (sid tid now : Z) (w : world) : world * list instr :=
  match sessionFor c sid SMB2_TREE_DISCONNECT w with
  | (Some s, st) =>
      if negb (st =? STATUS_OK) then (w, [IReply c st])
      else
        let w := upd_sess s (set_idle now) (serve c s SMB2_TREE_DISCONNECT w) in
        match closeTreeConnect s tid w with
        | Some (w, l) => (w, [IEndOpens s l; IReply c STATUS_OK])
        | None => (w, [IReply c STATUS_NETWORK_NAME_DELETED])
        end
  | (None, st) => (w, [IReply c st])
  end.
Definition serveRequest (c : connId) (sid command : Z) (w : world) : world * list instr :=
  match sessionFor c sid command w with
  | (Some s, st) => if st =? STATUS_OK then (serve c s command w, [IReply c STATUS_OK]) else (w, [IReply c st])
  | (None, st) => (w, [IReply c st])
  end.
Definition sendReply (c : connId) (st : Z) (w : world) : world * list instr := (reply c st w, []).
(** [k] is the thread. *)
Definition exec (k : nat) (i : instr) (w : world) : world * list instr :=
  match i with
  | ISetup c r => sessionSetup c r w
  | INewGlobal c s r => registerGlobally c s r w
  | IChallenge c s r => challenge c s r w
  | IReactivate c s r => reactivate c s r w
  | IAuth c s r => authenticate c s r w
  | IPwError c => pwError c w
  | IFinalize c s r => finalizeStep c s r w
  | IReplace c s r => replaceStep c s r w
  | IActivate c s r => activateStep c s r w
  | IClient c s => clientDialect c s w
  | IClientPut c s => clientPut c s w
  | IBindState c s r => bindStateStep c s r w
  | IBindBound c s r => bindBoundStep c s r w
  | IBindAuth c s r => bindSession c s r w
  | IJoin c s r l => join c s r l w
  | IAddChannel c s r l => addChannelStep c s r l w
  | IChannelKey c s r l => channelKeyStep c s r l w
  | ITake c sid p => deregisterSession c sid p w
  | ICancelOpens s => cancelOpens s w
  | IListTrees s => listTrees s w
  | ICloseTree s tid => closeTreeStep s tid w
  | IEndOpens s l => endOpensStep s l w
  | IChannels c sid s => clearChannels c sid s w
  | IUntable c sid => untable c sid w
  | IGlobal sid => unlistSession sid w
  | ILogoff c sid => logoff c sid w
  | IOrphan s => orphanStep s w
  | ILost c => closeConnection c w
  | ILostSessions c => lostSessions c w
  | IUnbind c s => unbindStep c s w
  | IIfEmpty c s => ifEmpty c s w
  | ITree c sid path signed stored a ready tid now => treeConnect c sid path signed stored a ready tid now w
  | IWeigh c s path stored a ready tid => weighTree k c s path stored a ready tid w
  | IPlace c s t tid => placeTree c s t tid w
  | ITreeOff c sid tid now => treeDisconnect c sid tid now w
  | IServe c sid command => serveRequest c sid command w
  | IReply c st => sendReply c st w
  end.
Ltac opened H := cbn [exec] in H; unfold sessionSetup, registerGlobally, challenge, reactivate, authenticate, pwError, finalizeStep, replaceStep, activateStep, clientDialect, clientPut, bindStateStep, bindBoundStep, bindSession, join, addChannelStep, channelKeyStep, deregisterSession, cancelOpens, listTrees, closeTreeStep, endOpensStep, clearChannels, untable, unlistSession, logoff, orphanStep, closeConnection, lostSessions, unbindStep, ifEmpty, treeConnect, weighTree, placeTree, treeDisconnect, serveRequest, sendReply in H.

(** ** Threads *)
Definition starts (i : instr) : bool :=
  match i with ISetup _ _ | ILogoff _ _ | ILost _ | ITree _ _ _ _ _ _ _ _ _ | ITreeOff _ _ _ _ | IServe _ _ _ => true | _ => false end.
Record system := System { state : world; threads : gmap nat (list instr) }.
Inductive event := Start (k : nat) (i : instr) | Run (k : nat).
Definition step (e : event) (sy : system) : system :=
  match e with
  | Start k i =>
      if starts i && match threads sy !! k with Some _ => false | None => true end then System (state sy) (<[k := [i]]> (threads sy)) else sy
  | Run k =>
      match threads sy !! k with
      | Some (i :: l) => let '(w, new) := exec k i (state sy) in System w (<[k := new ++ l]> (threads sy))
      | _ => sy
      end
  end.
Definition run (es : list event) (sy : system) : system := foldl (fun sy e => step e sy) sy es.
(** One thread alone. *)
Fixpoint runAlone (fuel : nat) (k : nat) (l : list instr) (w : world) : option world :=
  match fuel, l with
  | _, [] => Some w
  | O, _ => None
  | S fuel, i :: l => let '(w, new) := exec k i w in runAlone fuel k (new ++ l) w
  end.


(** ** Connections nobody uses *)
Definition staleThreshold : Z := 10 * 60.
Definition connectionScavengeTimeout : Z := 45.
Definition isStale (now : Z) (c : connId) (working : bool) (w : world) : bool :=
  if working then false
  else match sessionsOf c w with
       | [] => match conns w !! c with Some me => now - created me >? staleThreshold | None => false end
       | l => forallb (fun e => match sessions w !! e.2 with Some ss => now - idleTime ss >? staleThreshold | None => true end) l
       end.
Definition isUnauthenticated (c : connId) (w : world) : bool :=
  forallb (fun e => match stateNow e.2 w with Session.sessionInProgress => true | _ => false end) (sessionsOf c w).
Definition scavengeable (now : Z) (c : connId) (w : world) : bool :=
  match conns w !! c with Some me => negb (now - created me <=? connectionScavengeTimeout) && isUnauthenticated c w | None => false end.

(** ** Who is served

    A connection is let to a session it was set up over, or joined with a login of the user
    the session had. *)
Definition allowed (w : world) (c : connId) (s : sessId) : Prop :=
  exists ss, sessions w !! s = Some ss /\ (connection ss = c \/ exists l u, Proof_ c s l (Joined u) ∈ proofs w /\ sameName (l_User l) u = true).
Definition authenticated (w : world) (s : sessId) : Prop := exists c l, Proof_ c s l SetUp ∈ proofs w.
Definition actingName (l : login) : string := if l_Anonymous l then Shares.AnonymousAccount else l_User l.
Definition loggedIn (w : world) (c : connId) (l : login) : Prop := exists s h, Proof_ c s l h ∈ proofs w.
(** The session acts under the name of somebody who authenticated over its connection. *)
Definition actsAs (w : world) (ss : sess) : Prop := exists l, loggedIn w (connection ss) l /\ Session.userName (core ss) = actingName l.
Record trusted (w : world) : Prop := {
  tr_table : forall c sid s, sessionTable w !! (c, sid) = Some s -> allowed w c s;
  tr_valid : forall s ss, sessions w !! s = Some ss -> Session.state (core ss) <> Session.sessionInProgress -> authenticated w s /\ actsAs w ss;
  tr_login : forall c me l, conns w !! c = Some me -> ntlm me = Some l -> loggedIn w c l;
  tr_served : forall c s command, (c, s, command) ∈ served w -> allowed w c s /\ (windsDownSession command = false -> authenticated w s);
}.
Definition instr_ok (w : world) (i : instr) : Prop :=
  match i with
  | IFinalize c s r => authenticated w s
  | IReplace c s r | IActivate c s r => authenticated w s /\ exists ss, sessions w !! s = Some ss /\ actsAs w ss
  | IJoin c s r l => allowed w c s
  | _ => True
  end.
(** What every instruction keeps. *)
Definition ext (w w' : world) : Prop :=
  (forall p, p ∈ proofs w -> p ∈ proofs w') /\
  (forall s ss, sessions w !! s = Some ss -> exists ss', sessions w' !! s = Some ss' /\ connection ss' = connection ss /\ (actsAs w ss -> actsAs w' ss')).
Definition sameSession (ss ss' : sess) : Prop :=
  connection ss' = connection ss /\ Session.userName (core ss') = Session.userName (core ss) /\
  (Session.state (core ss') = Session.state (core ss) \/ Session.state (core ss') = Session.sessionInProgress).
(** And most instructions change nothing that matters here. *)
Record calm (w w' : world) : Prop := {
  calm_proofs : proofs w' = proofs w;
  calm_served : served w' = served w;
  calm_table : forall k s, sessionTable w' !! k = Some s -> sessionTable w !! k = Some s;
  calm_conns : forall c me', conns w' !! c = Some me' -> exists me, conns w !! c = Some me /\ ntlm me' = ntlm me;
  calm_sessions : forall s, match sessions w !! s, sessions w' !! s with Some ss, Some ss' => sameSession ss ss' | None, None => True | _, _ => False end;
}.
Lemma sameSession_refl ss : sameSession ss ss.
Proof. by split_and!; [| |left]. Qed.
Lemma loggedIn_mono w w' c l : ext w w' -> loggedIn w c l -> loggedIn w' c l.
Proof. intros [Hp _] (s & h & H). exists s, h. by apply Hp. Qed.
Lemma authenticated_mono w w' s : ext w w' -> authenticated w s -> authenticated w' s.
Proof. intros [Hp _] (c & l & H). exists c, l. by apply Hp. Qed.
Lemma allowed_mono w w' c s : ext w w' -> allowed w c s -> allowed w' c s.
Proof.
  intros [Hp Hs] (ss & H & Hor). destruct (Hs _ _ H) as (ss' & H' & Hc & _). exists ss'. split; [done|].
  destruct Hor as [Hor|(l & u & Hin & Hn)]; [left; congruence|right; exists l, u; split; [by apply Hp|done]].
Qed.
Lemma actsAs_same w w' ss ss' : (forall p, p ∈ proofs w -> p ∈ proofs w') -> sameSession ss ss' -> actsAs w ss -> actsAs w' ss'.
Proof. intros Hp (Hc & Hu & _) (l & (s & h & H) & Hn). exists l. rewrite Hc, Hu. split; [|done]. exists s, h. by apply Hp. Qed.
Lemma instr_ok_mono w w' i : ext w w' -> instr_ok w i -> instr_ok w' i.
Proof.
  intros He.
  assert (forall s, (authenticated w s /\ exists ss, sessions w !! s = Some ss /\ actsAs w ss) -> authenticated w' s /\ exists ss, sessions w' !! s = Some ss /\ actsAs w' ss) as H.
  { intros s [H1 (ss & Hs & Ha)]. split; [by eapply authenticated_mono|]. destruct He as [_ He]. destruct (He _ _ Hs) as (ss' & Hs' & _ & Ha'). eauto. }
  destruct i; try done; simpl; [by apply authenticated_mono|apply H|apply H|by apply allowed_mono].
Qed.
Lemma calm_ext w w' : calm w w' -> ext w w'.
Proof.
  intros H. split; [by rewrite (calm_proofs _ _ H)|]. intros s ss Hs. pose proof (calm_sessions _ _ H s) as Hc. rewrite Hs in Hc.
  destruct (sessions w' !! s) as [ss'|]; [|done]. exists ss'. split; [done|]. split; [apply Hc|]. apply actsAs_same; [by rewrite (calm_proofs _ _ H)|done].
Qed.
Lemma ext_valid w w' s ss : ext w w' -> trusted w -> sessions w !! s = Some ss -> Session.state (core ss) <> Session.sessionInProgress ->
  authenticated w' s /\ exists ss', sessions w' !! s = Some ss' /\ actsAs w' ss'.
Proof.
  intros He Ht Hs Hv. destruct (tr_valid _ Ht _ _ Hs Hv) as [Ha Hn]. split; [by eapply authenticated_mono|]. destruct He as [_ He]. destruct (He _ _ Hs) as (ss' & Hs' & _ & H). eauto.
Qed.
Lemma calm_trusted w w' : calm w w' -> trusted w -> trusted w'.
Proof.
  intros Hc Ht. pose proof (calm_ext _ _ Hc) as He. constructor.
  - intros c sid s H. apply (calm_table _ _ Hc), (tr_table _ Ht) in H. by eapply allowed_mono.
  - intros s ss' Hs' Hv. pose proof (calm_sessions _ _ Hc s) as H. rewrite Hs' in H. destruct (sessions w !! s) as [ss|] eqn:Hs; [|done].
    assert (Session.state (core ss) <> Session.sessionInProgress) as Hv' by (destruct H as (_ & _ & [E|E]); congruence).
    destruct (ext_valid _ _ _ _ He Ht Hs Hv') as [Ha (ss2 & E & Hn)]. split; [done|]. congruence.
  - intros c me' l Hm Hl. destruct (calm_conns _ _ Hc _ _ Hm) as (me & Hm0 & E). eapply loggedIn_mono; [done|]. apply (tr_login _ Ht _ _ _ Hm0). congruence.
  - intros c s command H. rewrite (calm_served _ _ Hc) in H. destruct (tr_served _ Ht _ _ _ H) as [H1 H2]. split; [by eapply allowed_mono|]. intros Hw. eapply authenticated_mono; [done|by apply H2].
Qed.
Lemma calm_refl w : calm w w.
Proof. constructor; try done; [by eauto|]. intros s. destruct (sessions w !! s); [apply sameSession_refl|done]. Qed.
Lemma calm_trans w1 w2 w3 : calm w1 w2 -> calm w2 w3 -> calm w1 w3.
Proof.
  intros H1 H2. constructor.
  - by rewrite (calm_proofs _ _ H2), (calm_proofs _ _ H1).
  - by rewrite (calm_served _ _ H2), (calm_served _ _ H1).
  - intros k s H. by apply (calm_table _ _ H1), (calm_table _ _ H2).
  - intros c me H. destruct (calm_conns _ _ H2 _ _ H) as (m2 & Hm2 & E2). destruct (calm_conns _ _ H1 _ _ Hm2) as (m1 & Hm1 & E1). exists m1. split; congruence.
  - intros s. pose proof (calm_sessions _ _ H1 s) as A. pose proof (calm_sessions _ _ H2 s) as B.
    destruct (sessions w1 !! s) as [a|], (sessions w2 !! s) as [b|], (sessions w3 !! s) as [c|]; try done.
    destruct A as (A1 & A2 & A3), B as (B1 & B2 & B3). split_and!; [congruence|congruence|]. destruct B3 as [B3|B3]; [rewrite B3; tauto|by right].
Qed.
Lemma calm_sess s f w : (forall ss, sameSession ss (f ss)) -> calm w (upd_sess s f w).
Proof.
  intros Hf. constructor; cbn; try done; [by eauto|]. intros x. destruct (decide (x = s)) as [->|].
  - rewrite lookup_alter_eq. destruct (sessions w !! s); simpl; [apply Hf|done].
  - rewrite lookup_alter_ne by done. destruct (sessions w !! x); [apply sameSession_refl|done].
Qed.
Lemma calm_conn c f w : (forall me, ntlm (f me) = ntlm me) -> calm w (upd_conn c f w).
Proof.
  intros Hf. constructor; cbn; try done.
  - intros x me'. destruct (decide (x = c)) as [->|]; [|rewrite lookup_alter_ne by done; eauto]. rewrite lookup_alter_eq. destruct (conns w !! c) as [me|]; [|done]. intros [= <-]. eauto.
  - intros s. destruct (sessions w !! s); [apply sameSession_refl|done].
Qed.
(** What does not touch the sessions, the connections and what was served is calm as long as
    the table of sessions does not grow. *)
Lemma calm_other w w' : proofs w' = proofs w -> served w' = served w -> sessionTable w' ⊆ sessionTable w -> conns w' = conns w -> sessions w' = sessions w -> calm w w'.
Proof.
  intros H1 H2 H3 H4 H5. constructor; [done|done| | |].
  - intros k s H. by eapply lookup_weaken.
  - intros c me H. rewrite H4 in H. eauto.
  - intros s. rewrite H5. destruct (sessions w !! s); [apply sameSession_refl|done].
Qed.
Ltac quiet := match goal with |- calm ?w ?w => apply calm_refl | |- calm _ _ => apply calm_other; try done; cbn end.
Lemma replacePrevious_calm c r s w : calm w (replacePrevious c r s w).
Proof.
  unfold replacePrevious. destruct (r_previous r =? 0); [quiet|]. destruct (sessionTable w !! (c, r_previous r)) as [p|]; [|quiet].
  destruct (sessions w !! p) as [ps|]; [|quiet]. destruct (sessions w !! s) as [ss|]; [|quiet]. destruct (_ && _); quiet. apply delete_subseteq.
Qed.
Lemma closeTree_calm t w : calm w (closeTree t w).
Proof. unfold closeTree. destruct (trees w !! t); quiet. Qed.
Lemma closeTreeConnect_calm s tid w w' l : closeTreeConnect s tid w = Some (w', l) -> calm w w'.
Proof.
  unfold closeTreeConnect. destruct (treeConnectTable w !! (s, tid)) as [t|]; [|done]. cbv zeta. intros [= <- _].
  unfold closeTree. cbn. destruct (trees w !! t); quiet.
Qed.
Lemma endOpens_calm s l w : calm w (endOpens s l w).
Proof. unfold endOpens. cbn. destruct (sessions w !! s); quiet. Qed.
Lemma delist_calm c w : calm w (delist c w).
Proof. unfold delist. destruct (connectionList w !! _); quiet. Qed.
Lemma sessionFor_Some c sid command w s st : sessionFor c sid command w = (Some s, st) -> sessionTable w !! (c, sid) = Some s /\
  (st = STATUS_OK -> windsDownSession command = true \/ stateNow s w = Session.sessionValid).
Proof.
  unfold sessionFor. destruct (sessionTable w !! (c, sid)) as [s'|]; [|done]. destruct (windsDownSession command); [intros [= -> <-]; auto|].
  destruct (stateNow s' w) eqn:E; intros [= -> <-]; (split; [done|]); intros H; first [discriminate H|by right].
Qed.
Definition good (w w' : world) (new : list instr) : Prop := ext w w' /\ trusted w' /\ Forall (instr_ok w') new.
Lemma calm_good w w' new : trusted w -> calm w w' -> Forall (instr_ok w') new -> good w w' new.
Proof. intros Ht Hc H. split; [by apply calm_ext|]. split; [by eapply calm_trusted|done]. Qed.
Lemma prove_ext p w : ext w (prove p w).
Proof.
  assert (forall q, q ∈ proofs w -> q ∈ proofs (prove p w)) as Hp by (intros q; apply list_elem_of_further).
  split; [done|]. intros s ss Hs. exists ss. split; [done|]. split; [done|]. apply actsAs_same; [done|apply sameSession_refl].
Qed.
Lemma ext_trans w1 w2 w3 : ext w1 w2 -> ext w2 w3 -> ext w1 w3.
Proof.
  intros [A1 A2] [B1 B2]. split; [by auto|]. intros s ss H. destruct (A2 _ _ H) as (s2 & H2 & E2 & F2). destruct (B2 _ _ H2) as (s3 & H3 & E3 & F3).
  exists s3. split; [done|]. split; [congruence|auto].
Qed.
Lemma prove_trusted p w : trusted w -> trusted (prove p w).
Proof.
  intros Ht. pose proof (prove_ext p w) as He. constructor; cbn.
  - intros c sid s H. apply (tr_table _ Ht) in H. by eapply allowed_mono.
  - intros s ss Hs Hv. destruct (ext_valid _ _ _ _ He Ht Hs Hv) as [Ha (ss2 & E & Hn)]. split; [done|]. cbn in E. congruence.
  - intros c me l H1 H2. eapply loggedIn_mono; [done|]. by eapply tr_login.
  - intros c s command H. destruct (tr_served _ Ht _ _ _ H) as [H1 H2]. split; [by eapply allowed_mono|]. intros Hw. eapply authenticated_mono; [done|by apply H2].
Qed.
(** Somebody authenticated: the proof is there before the connection remembers the login. *)
Lemma login_good c s l h w : trusted w -> let w' := prove (Proof_ c s l h) (upd_conn c (set_login l) w) in ext w w' /\ trusted w'.
Proof.
  intros Ht. cbv zeta. assert (ext w (prove (Proof_ c s l h) (upd_conn c (set_login l) w))) as He.
  { destruct (prove_ext (Proof_ c s l h) w) as [H1 H2]. split; [exact H1|exact H2]. }
  split; [done|]. constructor; cbn.
  - intros c0 sid s0 H. apply (tr_table _ Ht) in H. by eapply allowed_mono.
  - intros s0 ss Hs Hv. destruct (ext_valid _ _ _ _ He Ht Hs Hv) as [Ha (ss2 & E & Hn)]. split; [done|]. cbn in E. congruence.
  - intros c0 me l0. destruct (decide (c0 = c)) as [->|].
    + rewrite lookup_alter_eq. destruct (conns w !! c) as [m|]; [|done]. intros [= <-] [= <-]. exists s, h. apply list_elem_of_here.
    + rewrite lookup_alter_ne by done. intros H1 H2. eapply loggedIn_mono; [done|]. by eapply tr_login.
  - intros c0 s0 command H. destruct (tr_served _ Ht _ _ _ H) as [H1 H2]. split; [by eapply allowed_mono|]. intros Hw. eapply authenticated_mono; [done|by apply H2].
Qed.
Lemma serve_good c s command w : trusted w -> allowed w c s /\ (windsDownSession command = false -> authenticated w s) ->
  ext w (serve c s command w) /\ trusted (serve c s command w).
Proof.
  intros Ht H. assert (ext w (serve c s command w)) as He by (split; [done|]; intros x ss Hs; by exists ss). split; [done|].
  destruct Ht as [T1 T2 T3 T4]. constructor; cbn; [exact T1|exact T2|exact T3|].
  intros c0 s0 cm [[= -> -> ->]|Hin]%elem_of_cons; [by apply H|by eapply T4].
Qed.
Lemma served_ok c sid command w s st : trusted w -> sessionFor c sid command w = (Some s, st) -> st = STATUS_OK -> allowed w c s /\ (windsDownSession command = false -> authenticated w s).
Proof.
  intros Ht Hs He. apply sessionFor_Some in Hs as [Hl Hv]. pose proof (tr_table _ Ht _ _ _ Hl) as Ha. split; [done|]. intros Hw.
  destruct Ha as (ss & Hss & _). destruct (Hv He) as [?|E]; [congruence|]. unfold stateNow in E. rewrite Hss in E. by apply (tr_valid _ Ht _ _ Hss); rewrite E.
Qed.
Lemma teardown_ok w c sid p : Forall (instr_ok w) (teardown c sid p).
Proof. by repeat constructor. Qed.
Lemma ok_trivial w (l : list instr) : (forall i, i ∈ l -> forall w, instr_ok w i) -> Forall (instr_ok w) l.
Proof. intros H. apply Forall_forall. intros i Hi. by apply H. Qed.
Lemma newSession_good c r w : trusted w ->
  let s := fresh (dom (sessions w)) in
  let w' := upd_sessionTable (<[(c, r_new r) := s]>) (upd_sessions (<[s := newSessionState (r_new r) c (r_now r)]>) w) in
  good w w' [INewGlobal c s r].
Proof.
  intros Ht s w'. assert (sessions w !! s = None) as Hn by (apply not_elem_of_dom, is_fresh).
  assert (ext w w') as He.
  { split; [done|]. intros x ss Hx. exists ss. cbn. rewrite lookup_insert_ne by congruence. done. }
  split; [done|]. split; [|by repeat constructor]. constructor; cbn.
  - intros c0 sid s0. destruct (decide ((c0, sid) = (c, r_new r))) as [[= -> ->]|Hne].
    + rewrite lookup_insert_eq. intros [= <-]. eexists. cbn. rewrite lookup_insert_eq. split; [done|by left].
    + rewrite lookup_insert_ne by congruence. intros H. eapply allowed_mono; [done|]. by eapply tr_table.
  - intros x ss. destruct (decide (x = s)) as [->|]; [rewrite lookup_insert_eq; by intros [= <-]|]. rewrite lookup_insert_ne by done. intros Hx Hv.
    destruct (ext_valid _ _ _ _ He Ht Hx Hv) as [Ha (ss2 & E & Hn2)]. split; [done|]. cbn in E. rewrite lookup_insert_ne in E by done. congruence.
  - intros c0 me l H1 H2. eapply loggedIn_mono; [done|]. by eapply tr_login.
  - intros c0 s0 command H. destruct (tr_served _ Ht _ _ _ H) as [H1 H2]. split; [by eapply allowed_mono|]. intros Hw. eapply authenticated_mono; [done|by apply H2].
Qed.
Lemma finalize_same c l r ss : connection (finalize c l r ss) = connection ss /\ Session.state (core (finalize c l r ss)) = Session.state (core ss) /\
  Session.userName (core (finalize c l r ss)) = actingName l /\ Session.isAnonymous (core (finalize c l r ss)) = l_Anonymous l /\ Session.isGuest (core (finalize c l r ss)) = l_Guest l.
Proof. unfold finalize, Session.deriveKeys, actingName. cbn. destruct (Is3X _), (_ || _); try done; cbn; by destruct (_ =? _). Qed.
Lemma finalize_good c s r w ss its l : trusted w -> authenticated w s -> sessions w !! s = Some ss -> conns w !! connection ss = Some its -> ntlm its = Some l ->
  good w (upd_sess s (fun ss => finalize its l r ss) w) [IReplace c s r].
Proof.
  intros Ht Ha Hs Hc Hl. set (w' := upd_sess s (fun ss => finalize its l r ss) w).
  assert (forall x, x <> s -> sessions w' !! x = sessions w !! x) as Hne by (intros x Hx; cbn; by rewrite lookup_alter_ne).
  assert (sessions w' !! s = Some (finalize its l r ss)) as Hs' by (cbn; by rewrite lookup_alter_eq, Hs).
  destruct (finalize_same its l r ss) as (F1 & F2 & F3 & _).
  assert (actsAs w' (finalize its l r ss)) as Hact by (exists l; rewrite F1; split; [exact (tr_login _ Ht _ _ _ Hc Hl)|done]).
  assert (ext w w') as He.
  { split; [done|]. intros x sx Hx. destruct (decide (x = s)) as [->|Hd].
    - rewrite Hs in Hx. injection Hx as <-. by exists (finalize its l r ss).
    - exists sx. by rewrite Hne. }
  split; [done|]. split.
  - constructor.
    + intros c0 sid x H. eapply allowed_mono; [done|]. by eapply tr_table.
    + intros x sx Hx Hv. destruct (decide (x = s)) as [->|Hd].
      * split; [by eapply authenticated_mono|]. rewrite Hs' in Hx. by injection Hx as <-.
      * rewrite Hne in Hx by done. by apply (tr_valid _ Ht).
    + intros c0 me l0 H1 H2. by eapply (tr_login _ Ht).
    + intros c0 x command H. destruct (tr_served _ Ht _ _ _ H) as [H1 H2]. split; [by eapply allowed_mono|]. intros Hw. eapply authenticated_mono; [done|by apply H2].
  - constructor; [|done]. split; [by eapply authenticated_mono|eauto].
Qed.
Lemma protection_same c ks : Session.userName (protection c ks) = Session.userName ks /\ Session.state (protection c ks) = Session.state ks.
Proof. unfold protection. destruct (_ || _); [done|]. by destruct (_ && _). Qed.
Lemma activate_good c s r w me : trusted w -> instr_ok w (IActivate c s r) ->
  good w (upd_sess s (fun ss => set_idle (r_now r) (upd_core (fun ks => set_state Session.sessionValid (protection me ks)) ss)) w) [IClient c s].
Proof.
  intros Ht [Ha (ss & Hs & Hact)]. set (w' := upd_sess s _ w).
  assert (forall x, x <> s -> sessions w' !! x = sessions w !! x) as Hne by (intros x Hx; cbn; by rewrite lookup_alter_ne).
  set (ss' := set_idle (r_now r) (upd_core (fun ks => set_state Session.sessionValid (protection me ks)) ss)).
  assert (sessions w' !! s = Some ss') as Hs' by (cbn; by rewrite lookup_alter_eq, Hs).
  assert (actsAs w' ss') as Hact'.
  { destruct Hact as (l & Hl & Hn). exists l. split; [exact Hl|]. cbn. by rewrite (proj1 (protection_same me (core ss))). }
  assert (ext w w') as He.
  { split; [done|]. intros x sx Hx. destruct (decide (x = s)) as [->|Hd].
    - rewrite Hs in Hx. injection Hx as <-. by exists ss'.
    - exists sx. by rewrite Hne. }
  split; [done|]. split; [|by repeat constructor]. constructor.
  - intros c0 sid x H. eapply allowed_mono; [done|]. by eapply tr_table.
  - intros x sx Hx Hv. destruct (decide (x = s)) as [->|Hd].
    + split; [by eapply authenticated_mono|]. rewrite Hs' in Hx. by injection Hx as <-.
    + rewrite Hne in Hx by done. by apply (tr_valid _ Ht).
  - intros c0 m l0 H1 H2. by eapply (tr_login _ Ht).
  - intros c0 x command H. destruct (tr_served _ Ht _ _ _ H) as [H1 H2]. split; [by eapply allowed_mono|]. intros Hw. eapply authenticated_mono; [done|by apply H2].
Qed.
Lemma join_good c s r l w : trusted w -> allowed w c s -> good w (upd_sessionTable (<[(c, sidOf s w) := s]>) w) [IAddChannel c s r l].
Proof.
  intros Ht Ha. set (w' := upd_sessionTable _ w). assert (ext w w') as He by (split; [done|]; intros x ss Hx; by exists ss).
  split; [done|]. split; [|by repeat constructor]. destruct Ht as [T1 T2 T3 T4]. constructor; cbn; [|exact T2|exact T3|exact T4].
  intros c0 sid x. destruct (decide ((c0, sid) = (c, sidOf s w))) as [[= -> ->]|Hne].
  - rewrite lookup_insert_eq. by intros [= <-].
  - rewrite lookup_insert_ne by congruence. apply T1.
Qed.
Ltac byCalm := apply calm_good; [done| |by repeat constructor].
Ltac plain He := injection He as <- <-; byCalm; quiet.
Lemma calm_count n p w : calm w (count_ n p w).
Proof. quiet. Qed.
Lemma sess_calm c s (f : conn -> Session.session -> Session.session) w :
  (forall me ks, Session.userName (f me ks) = Session.userName ks /\ Session.state (f me ks) = Session.state ks) ->
  calm w (match conns w !! c with Some me => upd_sess s (upd_core (f me)) w | None => w end).
Proof.
  intros H. destruct (conns w !! c) as [me|]; [|apply calm_refl]. apply calm_sess. intros ss. destruct (H me (core ss)) as [H1 H2]. split_and!; [done|exact H1|left; exact H2].
Qed.
Lemma bindAuth_good k c s r w w' new : trusted w -> exec k (IBindAuth c s r) w = (w', new) -> good w w' new.
Proof.
  intros Ht He. opened He. assert (forall w, calm w (upd_conn c (upd_base (dropPreauthSession (r_sid r))) w)) as Hover by (intros; by apply calm_conn).
  destruct (negb (r_authenticate r)). { destruct (r_challenged r); injection He as <- <-; byCalm; [quiet|apply Hover]. }
  destruct (r_auth r) as [l|]; [|injection He as <- <-; byCalm; apply Hover]. destruct (sessions w !! s) as [ss|] eqn:Hs; [|plain He].
  destruct (sameName _ _) eqn:En.
  - injection He as <- <-. destruct (login_good c s l (Joined (Session.userName (core ss))) w Ht) as [He Ht']. split; [done|]. split; [done|].
    constructor; [|done]. exists ss. split; [done|]. right. exists l, (Session.userName (core ss)). split; [apply list_elem_of_here|done].
  - injection He as <- <-. destruct (login_good c s l Refused w Ht) as [He Ht']. pose proof (Hover (prove (Proof_ c s l Refused) (upd_conn c (set_login l) w))) as Hc.
    split; [by eapply ext_trans, calm_ext|]. split; [by eapply calm_trusted|by repeat constructor].
Qed.
Lemma served_good c s command w w1 w' new : trusted w -> allowed w c s /\ (windsDownSession command = false -> authenticated w s) ->
  w1 = serve c s command w -> calm w1 w' -> (forall w, Forall (instr_ok w) new) -> good w w' new.
Proof.
  intros Ht H -> Hc Hn. destruct (serve_good c s command w Ht H) as [He Ht']. split; [by eapply ext_trans, calm_ext|]. split; [by eapply calm_trusted|apply Hn].
Qed.
Lemma tree_good k c sid path signed stored a ready tid now w w' new : trusted w -> exec k (ITree c sid path signed stored a ready tid now) w = (w', new) -> good w w' new.
Proof.
  intros Ht He. opened He. destruct (sessionFor c sid SMB2_TREE_CONNECT w) as [[s|] st] eqn:Ef; [|plain He].
  destruct (conns w !! c) as [me|]; [|plain He]. destruct (sessions w !! s) as [ss|]; [|plain He]. destruct (Z.eqb_spec st STATUS_OK) as [Hst|Hst]; cbn [negb] in He; [|plain He].
  destruct (_ && _ && _ && _); [plain He|]. injection He as <- <-. eapply (served_good c s SMB2_TREE_CONNECT w _ _ _ Ht); [by eapply served_ok|reflexivity| |intros; by repeat constructor].
  apply calm_sess. intros x. by split_and!; [| |left].
Qed.
Lemma treeOff_good k c sid tid now w w' new : trusted w -> exec k (ITreeOff c sid tid now) w = (w', new) -> good w w' new.
Proof.
  intros Ht He. opened He. destruct (sessionFor c sid SMB2_TREE_DISCONNECT w) as [[s|] st] eqn:Ef; [|plain He].
  destruct (Z.eqb_spec st STATUS_OK) as [Hst|Hst]; cbn [negb] in He; [|plain He]. cbv zeta in He.
  assert (calm (serve c s SMB2_TREE_DISCONNECT w) (upd_sess s (set_idle now) (serve c s SMB2_TREE_DISCONNECT w))) as Hc by (apply calm_sess; intros x; by split_and!; [| |left]).
  assert (allowed w c s /\ (windsDownSession SMB2_TREE_DISCONNECT = false -> authenticated w s)) as Hok by (by eapply served_ok).
  destruct (closeTreeConnect _ _ _) as [[w1 l]|] eqn:Et; injection He as <- <-; eapply (served_good c s SMB2_TREE_DISCONNECT w _ _ _ Ht Hok eq_refl); try (intros; by repeat constructor); [|done].
  eapply calm_trans; [exact Hc|]. by eapply closeTreeConnect_calm.
Qed.
Lemma trivial_map {A} w (f : A -> instr) (l : list A) : (forall a w, instr_ok w (f a)) -> Forall (instr_ok w) (map f l).
Proof. intros H. induction l; constructor; auto. Qed.
Lemma exec_good k i w w' new : trusted w -> instr_ok w i -> exec k i w = (w', new) -> good w w' new.
Proof.
  intros Ht Hi He. destruct i; try (by eapply bindAuth_good); try (by eapply tree_good); try (by eapply treeOff_good); opened He; try (plain He; fail).
  - destruct (conns w !! c) as [me|]; [|plain He].
    destruct (_ && _ && _); [plain He|]. destruct (r_binding r).
    + destruct (_ || _); [plain He|]. destruct (bindFind c r w) as [[s|] st]; plain He.
    + destruct (r_sid r =? 0); [injection He as <- <-; by apply newSession_good|]. destruct (sessionTable w !! _); plain He.
  - injection He as <- <-. byCalm. eapply calm_trans; [|apply (sess_calm c s (fun me => startHash (base me) (r_msg r)) (count_ 1 0 (upd_globalSessionTable (<[r_new r:=s]>) w)))]; [quiet|].
    intros me ks. unfold startHash. by destruct (_ =? _).
  - destruct (r_challenged r); [|plain He]. injection He as <- <-. byCalm. apply (sess_calm c s (fun me ss => set_hash (rollHash (base me) (Session.ss_preauthHash ss) (r_resp r)) ss) w). done.
  - injection He as <- <-. byCalm. apply calm_sess. intros ss. destruct (Session.state (core ss)) eqn:E; try apply sameSession_refl. by split_and!; [| |right].
  - destruct (r_auth r) as [l|]; [|plain He]. injection He as <- <-. destruct (login_good c s l SetUp w Ht) as [He Ht']. split; [done|]. split; [done|].
    constructor; [|done]. exists c, l. apply list_elem_of_here.
  - destruct (sessions w !! s) as [ss|] eqn:Hs; [|plain He]. destruct (conns w !! connection ss) as [its|] eqn:Hc; [|plain He]. destruct (ntlm its) as [l|] eqn:Hl; [|plain He].
    injection He as <- <-. by eapply finalize_good.
  - injection He as <- <-. assert (calm w (match sessions w !! s with Some ss => replacePrevious (connection ss) r s w | None => w end)) as Hc by (destruct (sessions w !! s); [apply replacePrevious_calm|quiet]).
    apply calm_good; [done|done|]. constructor; [|done]. eapply (instr_ok_mono w _ (IReplace c s r)); [by apply calm_ext|done].
  - destruct (conns w !! c) as [me|]; injection He as <- <-; [by apply activate_good|byCalm; quiet].
  - destruct (conns w !! c) as [me|]; [|plain He]. destruct (Is3X _); [|plain He]. destruct (globalClientTable w !! _) as [d|]; [|plain He]. destruct (d =? _); plain He.
  - destruct (conns w !! c); plain He.
  - injection He as <- <-. destruct (bindState s w =? STATUS_OK); byCalm; quiet.
  - destruct (bindBound c (r_sid r) w); [plain He|]. injection He as <- <-. byCalm. by apply calm_conn.
  - injection He as <- <-. by apply join_good.
  - injection He as <- <-. byCalm. apply (sess_calm c s (fun me => Session.addChannel (base me)) w). intros me ks. unfold Session.addChannel. by destruct (Session.isChannel _ _).
  - destruct (conns w !! c) as [me|]; [|plain He]. unfold takePreauthHash in He. injection He as <- <-. byCalm.
    eapply calm_trans; [by apply (calm_conn c (upd_base (fun _ => dropPreauthSession (r_sid r) (base me))))|]. apply calm_sess. intros ss. by split_and!; [| |left].
  - destruct (sessionTable w !! _) as [s|]; [|injection He as <- <-; apply calm_good; [done|quiet|by destruct p; repeat constructor]]. injection He as <- <-. apply calm_good; [done| |by destruct p; repeat constructor]. apply calm_other; try done. apply delete_subseteq.
  - injection He as <- <-. apply calm_good; [done|quiet|by apply trivial_map].
  - destruct (closeTreeConnect s tid w) as [[w1 l]|] eqn:Et; [|plain He]. injection He as <- <-. byCalm. by eapply closeTreeConnect_calm.
  - injection He as <- <-. byCalm. apply endOpens_calm.
  - injection He as <- <-. apply calm_good; [done| |by apply trivial_map]. apply calm_sess. intros ss. by split_and!; [| |left].
  - injection He as <- <-. byCalm. quiet. apply delete_subseteq.
  - destruct (sessionFor c sid SMB2_LOGOFF w) as [[s|] st]; [|plain He]. destruct (st =? STATUS_OK); plain He.
  - injection He as <- <-. byCalm. apply delist_calm.
  - injection He as <- <-. apply calm_good; [done|quiet|]. apply Forall_app; split; by apply trivial_map.
  - injection He as <- <-. byCalm. apply (sess_calm c s (fun me => Session.unbindChannel (base me)) w). intros me ks. unfold Session.unbindChannel. by destruct (Session.isChannel _ _).
  - destruct (sessions w !! s) as [ss|]; [|plain He]. destruct (bool_decide _); plain He.
  - destruct (conns w !! c) as [me|]; [|plain He]. destruct (sessions w !! s) as [ss|]; [|plain He]. destruct (Shares.newTreeConnect _ _ _ _ _ _ _ _ _ _ _ _) as [sh [[[i access] cl]|e| |]]; plain He.
  - destruct (sessionFor c sid command w) as [[s|] st] eqn:Ef; [|plain He]. destruct (Z.eqb_spec st STATUS_OK) as [Hst|Hst]; [|plain He]. injection He as <- <-.
    eapply (served_good c s command w _ _ _ Ht); [by eapply served_ok|reflexivity|apply calm_refl|intros; by repeat constructor].
Qed.

(** *** Reachable systems *)
Definition starting (sy : system) : Prop :=
  threads sy = ∅ /\ sessions (state sy) = ∅ /\ sessionTable (state sy) = ∅ /\ served (state sy) = [] /\ (forall c me, conns (state sy) !! c = Some me -> ntlm me = None).
Record secure (sy : system) : Prop := {
  sec_state : trusted (state sy);
  sec_threads : forall k l, threads sy !! k = Some l -> Forall (instr_ok (state sy)) l;
}.
Lemma starting_secure sy : starting sy -> secure sy.
Proof.
  intros (H1 & H2 & H3 & H4 & H5). constructor; [|by rewrite H1]. constructor; [by rewrite H3|by rewrite H2| |rewrite H4; intros c s cm H; by apply elem_of_nil in H].
  intros c me l Hm Hl. apply H5 in Hm. congruence.
Qed.
Lemma starts_ok w i : starts i = true -> instr_ok w i.
Proof. by destruct i. Qed.
Lemma step_secure e sy : secure sy -> secure (step e sy).
Proof.
  intros [Ht Hk]. destruct e as [k i|k]; simpl.
  - destruct (starts i) eqn:Es; simpl; [|done]. destruct (threads sy !! k) eqn:Ek; [done|]. split; [done|]. cbn. intros x l.
    destruct (decide (x = k)) as [->|]; [rewrite lookup_insert_eq; intros [= <-]; constructor; [by apply starts_ok|done]|rewrite lookup_insert_ne by done; apply Hk].
  - destruct (threads sy !! k) as [[|i l]|] eqn:Ek; [done| |done]. destruct (exec k i (state sy)) as [w new] eqn:He.
    pose proof (Hk _ _ Ek) as Hl. apply Forall_cons in Hl as [Hi Hl]. destruct (exec_good _ _ _ _ _ Ht Hi He) as (Hext & Ht' & Hn). split; [done|]. cbn. intros x m.
    assert (forall m, Forall (instr_ok (state sy)) m -> Forall (instr_ok w) m) as Hmono by (intros m' Hm'; eapply Forall_impl; [exact Hm'|]; intros j; by apply instr_ok_mono).
    destruct (decide (x = k)) as [->|]; [rewrite lookup_insert_eq; intros [= <-]; apply Forall_app; auto|rewrite lookup_insert_ne by done; intros H; apply Hmono; by eapply Hk].
Qed.
Lemma run_secure es sy : secure sy -> secure (run es sy).
Proof. unfold run. revert sy. induction es as [|e es IH]; intros sy H; [done|]. apply IH. by apply step_secure. Qed.

(** C15: Nobody is served on a session without having come to it, nor, but to wind it down,
    without having authenticated.  However setups, bindings, logoffs, tree connects and lost
    connections interleave, every request served on a session came over the connection the
    session was set up on, or over one that joined it with a login of the name the session
    had; and unless it is a logoff, a close or a lock, which are served on a session whose
    authentication is still under way as well, somebody authenticated to set the session up.
    A session that is set up acts under the name of a login of its connection. *)
Theorem served_to_the_authenticated (sy : system) (es : list event) : starting sy ->
  let w := state (run es sy) in
  (forall c s command, (c, s, command) ∈ served w -> allowed w c s /\ (command <> SMB2_LOGOFF -> command <> SMB2_CLOSE -> command <> SMB2_LOCK -> authenticated w s)) /\
  (forall s ss, sessions w !! s = Some ss -> Session.state (core ss) = Session.sessionValid -> actsAs w ss).
Proof.
  intros H w. destruct (sec_state _ (run_secure es sy (starting_secure sy H))) as [T1 T2 T3 T4]. fold w in T1, T2, T3, T4. split.
  - intros c s command Hc. destruct (T4 c s command Hc) as [Ha Hs]. split; [done|]. intros N1 N2 N3. apply Hs. unfold windsDownSession. by rewrite !(proj2 (Z.eqb_neq _ _)).
  - intros s ss Hs Hv. apply (T2 s ss Hs). by rewrite Hv.
Qed.

(** ** The uses of a share *)
Definition isOpen (i : shareId) (tr : tree) : Prop := t_share tr = i /\ t_stage tr <> Closed.
#[export] Instance isOpen_dec i tr : Decision (isOpen i tr).
Proof. unfold isOpen. apply _. Defined.
Definition open1 (i : shareId) (o : option tree) : nat := match o with Some tr => if decide (isOpen i tr) then 1%nat else 0%nat | None => 0%nat end.
(** The tree connects to a share that were made and not closed. *)
Definition openOnes (i : shareId) (m : gmap treeId tree) : gmap treeId tree := filter (fun x : treeId * tree => isOpen i x.2) m.
Definition openTrees (i : shareId) (m : gmap treeId tree) : nat := size (openOnes i m).
Lemma openTrees_delete i t m : (openTrees i (delete t m) + open1 i (m !! t) = openTrees i m)%nat.
Proof.
  unfold openTrees, openOnes. rewrite map_filter_delete. fold (openOnes i m). destruct (m !! t) as [x|] eqn:Ex; simpl.
  - destruct (decide (isOpen i x)) as [Ho|Ho].
    + assert (openOnes i m !! t = Some x) as Hl by (by apply map_lookup_filter_Some).
      rewrite map_size_delete, Hl. simpl. assert (size (openOnes i m) <> 0%nat) by (apply (map_size_ne_0_lookup_2 _ t); by eexists). lia.
    + rewrite map_size_delete. assert (openOnes i m !! t = None) as -> by (apply map_lookup_filter_None; right; intros y Hy; assert (y = x) as -> by congruence; done). simpl. lia.
  - rewrite map_size_delete. assert (openOnes i m !! t = None) as -> by (apply map_lookup_filter_None; by left). simpl. lia.
Qed.
Lemma openTrees_insert i t tr m : (openTrees i (<[t := tr]> m) + open1 i (m !! t) = openTrees i m + open1 i (Some tr))%nat.
Proof.
  pose proof (openTrees_delete i t m). pose proof (openTrees_delete i t (<[t := tr]> m)) as H2. rewrite delete_insert_eq, lookup_insert_eq in H2. lia.
Qed.
Definition solo (i : instr) : bool := match i with ITree _ _ _ _ _ _ _ _ _ | IWeigh _ _ _ _ _ _ _ | IPlace _ _ _ _ => true | _ => false end.
Record counted (w : world) : Prop := {
  cb_uses : forall i sh, Shares.heap (theShares w) !! i = Some sh -> Shares.shareType sh = SHARE_TYPE_DISK ->
              Shares.currentUses sh = Z.of_nat (openTrees i (trees w)) /\ Shares.currentUses sh <= Shares.maxShareUses;
  cb_trees : forall t tr, trees w !! t = Some tr -> is_Some (Shares.heap (theShares w) !! t_share tr);
  cb_table : forall k t, treeConnectTable w !! k = Some t -> exists tr, trees w !! t = Some tr /\ t_stage tr = Placed;
  cb_once : forall k k' t, treeConnectTable w !! k = Some t -> treeConnectTable w !! k' = Some t -> k = k';
}.
Definition claims (w : world) (k : nat) (l : list instr) : Prop :=
  (forall i, i ∈ l -> solo i = true -> l = [i]) /\
  (forall c s t tid, IPlace c s t tid ∈ l -> exists tr, trees w !! t = Some tr /\ t_stage tr = Claimed k).
(** The trees that others have claimed stay claimed. *)
Definition keepsClaims (k : nat) (w w' : world) : Prop :=
  forall t tr k', trees w !! t = Some tr -> t_stage tr = Claimed k' -> k' <> k -> trees w' !! t = Some tr.
Definition still (w w' : world) : Prop := trees w' = trees w /\ theShares w' = theShares w /\ treeConnectTable w' = treeConnectTable w.
Lemma still_counted w w' : still w w' -> counted w -> counted w'.
Proof. intros (H1 & H2 & H3) [A B C D]. constructor; rewrite ?H1, ?H2, ?H3; assumption. Qed.
Definition counting (i : instr) : bool := match i with IWeigh _ _ _ _ _ _ _ | IPlace _ _ _ _ | ICloseTree _ _ | ITreeOff _ _ _ _ => true | _ => false end.
Lemma exec_still k i w w' new : counting i = false -> exec k i w = (w', new) -> still w w'.
Proof.
  intros Hc He. destruct i; try discriminate Hc; opened He;
    repeat match goal with
    | H : (match ?x with _ => _ end) = (_, _) |- _ => destruct x
    | H : (let _ := ?x in _) = _ |- _ => cbv zeta in H
    end; injection He as <- _;
    unfold still, replacePrevious, endOpens, delist, orphanDurableOpens, unlistOpens, upd_sess, upd_conn; cbn;
    repeat match goal with |- context [match ?x with _ => _ end] => destruct x end; done.
Qed.
Lemma closeTreeConnect_counted k s tid w w' l : counted w -> closeTreeConnect s tid w = Some (w', l) -> counted w' /\ keepsClaims k w w'.
Proof.
  intros [A B C D] H. unfold closeTreeConnect in H. destruct (treeConnectTable w !! (s, tid)) as [t|] eqn:Et; [|done]. destruct (C _ _ Et) as (tr & Ht & Hst). cbv zeta in H.
  unfold closeTree in H. cbn in H. rewrite Ht in H. injection H as <- _. cbn. set (tr' := Tree (t_share tr) (maximalAccess tr) Closed). split.
  - constructor; cbn.
    + intros i sh. pose proof (openTrees_insert i t tr' (trees w)) as Hn. rewrite Ht in Hn. unfold open1 in Hn.
      rewrite (decide_False (P:=isOpen i tr')) in Hn by (intros [_ ?]; done). destruct (decide (i = t_share tr)) as [->|Hne].
      * rewrite (decide_True (P:=isOpen (t_share tr) tr)) in Hn by (split; [done|congruence]). rewrite lookup_alter_eq. destruct (Shares.heap (theShares w) !! t_share tr) as [sh0|] eqn:Hs; [|done].
        intros [= <-] Hd. cbn in Hd |- *. destruct (A _ _ Hs Hd). lia.
      * rewrite (decide_False (P:=isOpen i tr)) in Hn by (intros [? _]; congruence). rewrite lookup_alter_ne by done. intros Hs Hd. destruct (A _ _ Hs Hd). lia.
    + assert (forall i, is_Some (Shares.heap (theShares w) !! i) -> is_Some (alter Shares.releaseUse (t_share tr) (Shares.heap (theShares w)) !! i)) as Hh by (intros i [sh Hs]; destruct (decide (i = t_share tr)) as [->|]; [rewrite lookup_alter_eq, Hs|rewrite lookup_alter_ne, Hs by done]; by eexists).
      intros x trx. destruct (decide (x = t)) as [->|]; [rewrite lookup_insert_eq; intros [= <-]; apply Hh; exact (B _ _ Ht)|rewrite lookup_insert_ne by done; intros Hx; apply Hh; by eapply B].
    + intros key x [Hne Hx]%lookup_delete_Some. destruct (C _ _ Hx) as (trx & Hxx & Hsx). exists trx. rewrite lookup_insert_ne; [done|]. intros <-. by apply Hne, (D _ _ t).
    + intros k1 k2 x [_ H1]%lookup_delete_Some [_ H2]%lookup_delete_Some. by eapply D.
  - intros x trx k' Hx Hsx _. cbn. rewrite lookup_insert_ne; [done|]. intros <-. congruence.
Qed.
Lemma exec_solo k i w w' new j : exec k i w = (w', new) -> j ∈ new -> solo j = true ->
  new = [j] /\ solo i = true /\ (forall c s t tid, j = IPlace c s t tid -> exists path stored a ready, i = IWeigh c s path stored a ready tid).
Proof.
  intros He Hj Hs.
  assert (forall A (f : A -> instr) (l : list A), (forall a, solo (f a) = false) -> j ∈ map f l -> False) as Hmap.
  { intros A f l Hf Hin. apply list_elem_of_fmap in Hin as (a & -> & _). by rewrite Hf in Hs. }
  destruct i; opened He;
    repeat match goal with
    | H : (match ?x with _ => _ end) = (_, _) |- _ => destruct x
    | H : (let _ := ?x in _) = _ |- _ => cbv zeta in H
    end; injection He as _ <-; unfold teardown in Hj;
    repeat match goal with
    | H : j ∈ (if ?x then _ else _) |- _ => destruct x
    | H : j ∈ map _ _ |- _ => exfalso; by eapply Hmap in H
    | H : j ∈ _ ++ _ |- _ => apply elem_of_app in H as [H|H]
    | H : j ∈ [] |- _ => by apply elem_of_nil in H
    | H : j ∈ finish ?p _ |- _ => destruct p; simpl in H
    | H : j ∈ _ :: _ |- _ => apply elem_of_cons in H as [->|H]
    end; try discriminate Hs.
  all: split; [done|split; [done|]]; intros ? ? ? ? Heq; try discriminate Heq; injection Heq as <- <- <- <-; by eexists _, _, _, _.
Qed.
Lemma openTrees_none i m : (forall t tr, m !! t = Some tr -> t_share tr <> i) -> openTrees i m = 0%nat.
Proof.
  intros H. unfold openTrees. assert (openOnes i m = ∅) as ->; [|apply map_size_empty]. apply map_empty. intros t. apply map_lookup_filter_None. right. intros tr Ht [E _]. by eapply H.
Qed.
Lemma weigh_counted k c s path stored a ready tid w w' new : counted w -> exec k (IWeigh c s path stored a ready tid) w = (w', new) ->
  counted w' /\ keepsClaims k w w' /\ (forall c s t tid, IPlace c s t tid ∈ new -> exists tr, trees w' !! t = Some tr /\ t_stage tr = Claimed k).
Proof.
  intros Hc He. pose proof Hc as [A B C D]. opened He.
  assert (forall new : list instr, (forall i, i ∈ new -> solo i = false) -> counted w /\ keepsClaims k w w /\ (forall c s t tid, IPlace c s t tid ∈ new -> exists tr, trees w !! t = Some tr /\ t_stage tr = Claimed k)) as Hsame.
  { intros n Hn. split; [done|]. split; [by intros t tr k' Ht|]. intros c0 s0 t0 tid0 Hin. by apply Hn in Hin. }
  destruct (conns w !! c) as [me|]; [|injection He as <- <-; apply Hsame; by intros i ?%elem_of_nil].
  destruct (sessions w !! s) as [ss|]; [|injection He as <- <-; apply Hsame; by intros i ?%elem_of_nil].
  destruct (Shares.newTreeConnect _ _ _ _ _ _ _ _ _ _ _ (theShares w)) as [sh r] eqn:En. apply Shares.newTreeConnect_uses in En as (U1 & U2 & U3).
  assert (forall j, (forall s0, Shares.heap (theShares w) !! j = Some s0 -> Shares.shareType s0 = SHARE_TYPE_DISK) -> Shares.usesAt j (theShares w) = Z.of_nat (openTrees j (trees w)) /\ (Shares.usesAt j (theShares w) <= Shares.maxShareUses)) as Hu.
  { intros j Hd. unfold Shares.usesAt. destruct (Shares.heap (theShares w) !! j) as [s0|] eqn:Hj; [apply (A _ _ Hj), (Hd _ eq_refl)|].
    rewrite openTrees_none; [done|]. intros t tr Ht <-. destruct (B _ _ Ht) as [? ?]. congruence. }
  assert (forall w1, trees w1 = trees w -> theShares w1 = sh -> treeConnectTable w1 = treeConnectTable w -> (forall j, Shares.onShare j r = 0) -> counted w1 /\ keepsClaims k w w1) as Hno.
  { intros w1 E1 E2 E3 H0. split; [|by intros t tr k' Ht; rewrite E1]. constructor; rewrite ?E1, ?E2, ?E3; [| |exact C|exact D].
    - intros j sh' Hj Hd. destruct (U1 _ _ Hj Hd) as (V1 & _ & V3). rewrite H0 in V1. destruct (Hu j V3). lia.
    - intros t tr Ht. apply U2. by eapply B. }
  destruct r as [[[i access] cl]|e| |]; cbv zeta in He; injection He as <- <-.
  2-4: match goal with |- counted ?x /\ _ => destruct (Hno x eq_refl eq_refl eq_refl) as [H1 H2] end; [done|]; split; [done|]; split; [done|]; intros ? ? ? ? Hin; by repeat (apply elem_of_cons in Hin as [Hin|Hin] || apply elem_of_nil in Hin).
  set (t := fresh (dom (trees w))). assert (trees w !! t = None) as Hn by (apply not_elem_of_dom, is_fresh). split; [|split].
  - constructor; cbn.
    + intros j sh' Hj Hd. pose proof (openTrees_insert j t (Tree i access (Claimed k)) (trees w)) as Hi. rewrite Hn in Hi. cbn in Hi. destruct (U1 _ _ Hj Hd) as (V1 & V2 & V3). destruct (Hu j V3) as [Hu1 Hu2].
      cbn in V1, V2. destruct (decide (i = j)) as [->|Hne].
      * rewrite (decide_True (P:=isOpen j _)) in Hi by done. specialize (V2 eq_refl). lia.
      * rewrite (decide_False (P:=isOpen j _)) in Hi by (intros [? _]; done). lia.
    + intros x tr. destruct (decide (x = t)) as [->|]; [rewrite lookup_insert_eq; intros [= <-]; by eapply U3|rewrite lookup_insert_ne by done; intros Hx; apply U2; by eapply B].
    + intros key x Hx. destruct (C _ _ Hx) as (tr & Htr & Hst). exists tr. by rewrite lookup_insert_ne by congruence.
    + exact D.
  - intros x tr k' Hx _ _. cbn. by rewrite lookup_insert_ne by congruence.
  - intros c0 s0 t0 tid0 [[= -> -> -> ->]| ?%elem_of_nil]%elem_of_cons; [|done]. eexists. cbn. by rewrite lookup_insert_eq.
Qed.
Lemma place_counted k c s t tid w tr : counted w -> trees w !! t = Some tr -> t_stage tr = Claimed k ->
  let w' := fst (exec k (IPlace c s t tid) w) in counted w' /\ keepsClaims k w w'.
Proof.
  intros [A B C D] Ht Hk w'. set (tr' := Tree (t_share tr) (maximalAccess tr) Placed).
  assert (trees w' = <[t := tr']> (trees w)) as Ew.
  { apply map_eq. intros x. cbn. destruct (decide (x = t)) as [->|]; [by rewrite lookup_alter_eq, lookup_insert_eq, Ht|by rewrite lookup_alter_ne, lookup_insert_ne]. }
  assert (theShares w' = theShares w) as Es by done. assert (treeConnectTable w' = <[(s, tid) := t]> (treeConnectTable w)) as Et by done. clearbody w'. split.
  - constructor; rewrite ?Ew, ?Es, ?Et.
    + intros i sh Hs Hd. pose proof (openTrees_insert i t tr' (trees w)) as Hi. rewrite Ht in Hi. cbn in Hi. destruct (A _ _ Hs Hd).
      assert (isOpen i tr <-> isOpen i tr') as Hiff by (unfold isOpen; rewrite Hk; cbn; split; intros [? _]; by split). rewrite (decide_ext _ _ _ _ Hiff) in Hi. lia.
    + intros x trx. destruct (decide (x = t)) as [->|]; [rewrite lookup_insert_eq; intros [= <-]; exact (B _ _ Ht)|rewrite lookup_insert_ne by done; apply B].
    + intros key x. destruct (decide (key = (s, tid))) as [->|Hne]; [rewrite lookup_insert_eq; intros [= <-]; exists tr'; by rewrite lookup_insert_eq|]. rewrite lookup_insert_ne by congruence. intros Hx.
      destruct (C _ _ Hx) as (trx & Hxx & Hsx). exists trx. by rewrite lookup_insert_ne by congruence.
    + assert (forall key, treeConnectTable w !! key <> Some t) as Hno by (intros key Hx; destruct (C _ _ Hx) as (trx & Hxx & Hsx); congruence).
      intros k1 k2 x. destruct (decide (k1 = (s, tid))) as [->|], (decide (k2 = (s, tid))) as [->|]; rewrite ?lookup_insert_eq; rewrite ?lookup_insert_ne by congruence; [done| | |by apply D].
      * intros [= <-] H2. by apply Hno in H2.
      * intros H1 [= <-]. by apply Hno in H1.
  - intros x trx k' Hx Hsx Hne. rewrite Ew, lookup_insert_ne; [done|]. intros <-. congruence.
Qed.
Record fair (sy : system) : Prop := {
  fair_state : counted (state sy);
  fair_threads : forall k l, threads sy !! k = Some l -> claims (state sy) k l;
}.
Lemma exec_counted k i w w' new : counted w -> claims w k [i] -> exec k i w = (w', new) ->
  counted w' /\ keepsClaims k w w' /\ (forall c s t tid, IPlace c s t tid ∈ new -> exists tr, trees w' !! t = Some tr /\ t_stage tr = Claimed k).
Proof.
  intros Hc Hi He. assert (forall c s t tid, IPlace c s t tid ∈ new -> exists path stored a ready, i = IWeigh c s path stored a ready tid) as Hp.
  { intros c s t tid Hin. destruct (exec_solo _ _ _ _ _ _ He Hin eq_refl) as (_ & _ & H). by eapply H. }
  destruct (counting i) eqn:Ec.
  - destruct i; try discriminate Ec.
    + assert (counted w' /\ keepsClaims k w w') as [H1 H2]; [|split; [done|split; [done|]]; intros c0 s0 t0 tid0 Hin; by destruct (Hp _ _ _ _ Hin) as (? & ? & ? & ? & ?)].
      opened He. destruct (closeTreeConnect s tid w) as [[w1 l]|] eqn:Et; injection He as <- <-; [by eapply closeTreeConnect_counted|split; [done|by intros ? ? ? ?]].
    + by eapply weigh_counted.
    + destruct (proj2 Hi c s t tid) as (tr & Ht & Hk); [apply list_elem_of_here|]. pose proof (place_counted k c s t tid w tr Hc Ht Hk) as [H1 H2]. rewrite He in H1, H2. split; [done|]. split; [done|].
      intros c0 s0 t0 tid0 Hin. by destruct (Hp _ _ _ _ Hin) as (? & ? & ? & ? & ?).
    + assert (counted w' /\ keepsClaims k w w') as [H1 H2]; [|split; [done|split; [done|]]; intros c0 s0 t0 tid0 Hin; by destruct (Hp _ _ _ _ Hin) as (? & ? & ? & ? & ?)].
      opened He. destruct (sessionFor _ _ _ _) as [[s|] st]; [|injection He as <- <-; split; [done|by intros ? ? ? ?]].
      destruct (negb _); [injection He as <- <-; split; [done|by intros ? ? ? ?]|]. cbv zeta in He. set (w1 := upd_sess s (set_idle now) (serve c s SMB2_TREE_DISCONNECT w)) in He.
      assert (counted w1) as Hc1 by (by apply (still_counted w)). destruct (closeTreeConnect s tid w1) as [[w2 l]|] eqn:Et; injection He as <- <-.
      * by eapply (closeTreeConnect_counted k) in Et.
      * split; [done|by intros ? ? ? ?].
  - pose proof (exec_still _ _ _ _ _ Ec He) as Hs. split; [by eapply still_counted|]. split; [intros t tr k' Ht _ _; by rewrite (proj1 Hs)|].
    intros c0 s0 t0 tid0 Hin. destruct (Hp _ _ _ _ Hin) as (? & ? & ? & ? & ->). discriminate Ec.
Qed.
Lemma step_fair e sy : fair sy -> fair (step e sy).
Proof.
  intros [Hc Hk]. destruct e as [k i|k]; simpl.
  - destruct (starts i) eqn:Es; simpl; [|done]. destruct (threads sy !! k) eqn:Ek; [done|]. split; [done|]. cbn. intros x l.
    destruct (decide (x = k)) as [->|]; [rewrite lookup_insert_eq; intros [= <-]|rewrite lookup_insert_ne by done; apply Hk]. split.
    + by intros j [->| ?%elem_of_nil]%elem_of_cons.
    + intros c s t tid [<-| ?%elem_of_nil]%elem_of_cons; [discriminate Es|done].
  - destruct (threads sy !! k) as [[|i l]|] eqn:Ek; [done| |done]. destruct (exec k i (state sy)) as [w new] eqn:He. pose proof (Hk _ _ Ek) as [Hs Hp].
    assert (claims (state sy) k [i]) as Hi1.
    { split; [by intros j [->| ?%elem_of_nil]%elem_of_cons|]. intros c s t tid [<-| ?%elem_of_nil]%elem_of_cons; [|done]. apply (Hp c s t tid), list_elem_of_here. }
    destruct (exec_counted _ _ _ _ _ Hc Hi1 He) as (Hc' & Hkeep & Hnew). split; [done|]. cbn.
    assert (forall j, j ∈ l -> solo j = false) as Hl.
    { intros j Hj. destruct (solo j) eqn:Ej; [|done]. pose proof (Hs j (list_elem_of_further _ _ _ Hj) Ej) as [= -> ->]. by apply elem_of_nil in Hj. }
    intros x m. destruct (decide (x = k)) as [->|Hne].
    + rewrite lookup_insert_eq. intros [= <-]. split.
      * intros j [Hj|Hj]%elem_of_app Ej; [|by rewrite (Hl _ Hj) in Ej]. destruct (exec_solo _ _ _ _ _ _ He Hj Ej) as (-> & Ei & _).
        pose proof (Hs i (list_elem_of_here _ _) Ei) as [= ->]. done.
      * intros c s t tid [Hj|Hj]%elem_of_app; [by eapply Hnew|]. by apply Hl in Hj.
    + rewrite lookup_insert_ne by done. intros Hm. destruct (Hk _ _ Hm) as [Hs' Hp']. split; [done|]. intros c s t tid Hin. destruct (Hp' _ _ _ _ Hin) as (tr & Ht & Est). exists tr. split; [|done]. by eapply Hkeep.
Qed.
(** C16: The uses of a share are its tree connects.  However tree connects, disconnects,
    logoffs and lost connections interleave, the count of uses of every share on disk is the
    number of tree connects to it that were made and not closed, and never more than the
    limit; a tree connect is closed once, whoever closes it. *)
Theorem uses_are_trees (sy : system) (es : list event) : fair sy ->
  let w := state (run es sy) in
  forall i sh, Shares.heap (theShares w) !! i = Some sh -> Shares.shareType sh = SHARE_TYPE_DISK ->
    Shares.currentUses sh = Z.of_nat (openTrees i (trees w)) /\ 0 <= Shares.currentUses sh <= Shares.maxShareUses.
Proof.
  intros H w i sh Hs Hd. assert (fair (run es sy)) as [Hc _].
  { clear w Hs. unfold run. revert sy H. induction es as [|e es IH]; intros sy H; [done|]. apply IH. by apply step_fair. }
  destruct (cb_uses _ Hc _ _ Hs Hd) as [H1 H2]. fold w in H1, H2. lia.
Qed.

(** ** A teardown left to itself *)
Inductive alone (k : nat) : list instr -> world -> world -> Prop :=
| alone_nil w : alone k [] w w
| alone_cons i l w w1 new w2 : exec k i w = (w1, new) -> alone k (new ++ l) w1 w2 -> alone k (i :: l) w w2.
Lemma alone_runs k l w w' : alone k l w w' -> exists fuel, runAlone fuel k l w = Some w'.
Proof. induction 1 as [w|i l w w1 new w2 He _ [n IH]]; [by exists 0%nat|]. exists (S n). cbn [runAlone]. by rewrite He. Qed.
Lemma alone_app k l1 l2 w w1 w2 : alone k l1 w w1 -> alone k l2 w1 w2 -> alone k (l1 ++ l2) w w2.
Proof. induction 1 as [w|i l w wa new wb He _ IH]; [done|]. intros H. eapply alone_cons; [done|]. rewrite app_assoc. by apply IH. Qed.
Lemma elem_of_opensOf fid o s w : (fid, o) ∈ opensOf s w <-> openTable w !! (s, fid) = Some o.
Proof.
  unfold opensOf. rewrite list_elem_of_omap. split.
  - intros ([[s' f] o'] & Hin & Heq). simpl in Heq. destruct (Nat.eqb_spec s' s) as [->|]; [|done]. injection Heq as -> ->. by apply elem_of_map_to_list in Hin.
  - intros H. exists ((s, fid), o). split; [by apply elem_of_map_to_list|]. simpl. by rewrite Nat.eqb_refl.
Qed.
Lemma elem_of_treesOf tid s w : tid ∈ treesOf s w <-> is_Some (treeConnectTable w !! (s, tid)).
Proof.
  unfold treesOf. rewrite list_elem_of_omap. split.
  - intros ([[s' f] t] & Hin & Heq). simpl in Heq. destruct (Nat.eqb_spec s' s) as [->|]; [|done]. injection Heq as ->. apply elem_of_map_to_list in Hin. by exists t.
  - intros [t H]. exists ((s, tid), t). split; [by apply elem_of_map_to_list|]. simpl. by rewrite Nat.eqb_refl.
Qed.
Lemma drop_opens_lookup (s : sessId) (l : list (Z * openId)) (m : gmap (sessId * Z) openId) (key : sessId * Z) (o : openId) :
  foldr (fun (e : Z * openId) m => delete (s, e.1) m) m l !! key = Some o <-> m !! key = Some o /\ forall e : Z * openId, e ∈ l -> key <> (s, e.1).
Proof.
  induction l as [|e l IH]; simpl; [by split; [intros H; split; [done|intros e ?%elem_of_nil]|intros [H _]]|]. rewrite lookup_delete_Some, IH. split.
  - intros (H1 & H2 & H3). split; [done|]. intros e' [->|Hin]%elem_of_cons; [congruence|by apply H3].
  - intros [H1 H2]. split; [intros E; by apply (H2 e); [apply list_elem_of_here|]|]. split; [done|]. intros e' He'. apply H2. by apply list_elem_of_further.
Qed.
(** What a teardown of a session leaves as it is, and what it takes away. *)
Record closing (s : sessId) (w w' : world) : Prop := {
  cl_sessionTable : sessionTable w' = sessionTable w;
  cl_sessions : sessions w' = sessions w;
  cl_opens : opens w' = opens w;
  cl_global : globalSessionTable w' = globalSessionTable w;
  cl_SOpens : SOpens w' = SOpens w;
  cl_trees : forall (key : sessId * Z) (t : treeId), treeConnectTable w' !! key = Some t -> treeConnectTable w !! key = Some t;
  cl_otherTrees : forall s' tid, s' <> s -> treeConnectTable w' !! (s', tid) = treeConnectTable w !! (s', tid);
  cl_openTable : forall (key : sessId * Z) (o : openId), openTable w' !! key = Some o -> openTable w !! key = Some o;
  cl_otherOpens : forall s' fid, s' <> s -> openTable w' !! (s', fid) = openTable w !! (s', fid);
  cl_globalOpens : globalOpenTable w' ⊆ globalOpenTable w;
}.
Lemma closing_refl s w : closing s w w.
Proof. by constructor. Qed.
Lemma closing_trans s w1 w2 w3 : closing s w1 w2 -> closing s w2 w3 -> closing s w1 w3.
Proof.
  intros H1 H2. constructor; try (by destruct H1, H2; congruence).
  - intros key t H. by apply (cl_trees _ _ _ H1), (cl_trees _ _ _ H2).
  - intros s' tid Hne. by rewrite (cl_otherTrees _ _ _ H2), (cl_otherTrees _ _ _ H1).
  - intros key o H. by apply (cl_openTable _ _ _ H1), (cl_openTable _ _ _ H2).
  - intros s' fid Hne. by rewrite (cl_otherOpens _ _ _ H2), (cl_otherOpens _ _ _ H1).
  - etrans; [apply (cl_globalOpens _ _ _ H2)|apply (cl_globalOpens _ _ _ H1)].
Qed.
Lemma unlist_shrinks l w (m : gmap Z openId) : foldr (fun o m => match opens w !! o with Some op => delete (durableFileID op) m | None => m end) m l ⊆ m.
Proof. induction l as [|o l IH]; [done|]. simpl. destruct (opens w !! o); [|done]. etrans; [apply delete_subseteq|done]. Qed.
Lemma unlist_gone l w (m : gmap Z openId) o op : o ∈ l -> opens w !! o = Some op -> foldr (fun o m => match opens w !! o with Some op => delete (durableFileID op) m | None => m end) m l !! durableFileID op = None.
Proof.
  intros Hin Ho. induction l as [|x l IH]; [by apply elem_of_nil in Hin|]. simpl. apply elem_of_cons in Hin as [<-|Hin]; [rewrite Ho; apply lookup_delete_eq|].
  specialize (IH Hin). destruct (opens w !! x); [|done]. apply lookup_delete_None. by right.
Qed.
Lemma closeTreeConnect_closing s tid t w : treeConnectTable w !! (s, tid) = Some t -> exists w' l, closeTreeConnect s tid w = Some (w', l) /\ closing s w w' /\
  treeConnectTable w' !! (s, tid) = None /\ (forall fid o, openTable w' !! (s, fid) = Some o -> onTree t w (fid, o) = false).
Proof.
  intros Ht. unfold closeTreeConnect. rewrite Ht. cbv zeta. eexists _, _. split; [reflexivity|]. unfold closeTree. cbn.
  set (closed := filter _ (opensOf s w)).
  assert (forall (fid : Z) (o : openId), foldr (fun (e : Z * openId) m => delete (s, e.1) m) (openTable w) closed !! (s, fid) = Some o -> onTree t w (fid, o) = false) as Hgone.
  { intros fid o [Hl Hn]%drop_opens_lookup. destruct (onTree t w (fid, o)) eqn:E; [|done]. exfalso. apply (Hn (fid, o)); [|done]. apply list_elem_of_filter. split; [done|]. by apply elem_of_opensOf. }
  assert (forall (key : sessId * Z) (o : openId), foldr (fun (e : Z * openId) m => delete (s, e.1) m) (openTable w) closed !! key = Some o -> openTable w !! key = Some o) as Hle by (intros key o [H _]%drop_opens_lookup; done).
  assert (forall (s' : sessId) (fid : Z), s' <> s -> foldr (fun (e : Z * openId) m => delete (s, e.1) m) (openTable w) closed !! (s', fid) = openTable w !! (s', fid)) as Hother.
  { intros s' fid Hne. apply option_eq. intros o. rewrite drop_opens_lookup. split; [by intros [H _]|]. intros H. split; [done|]. intros e _. congruence. }
  destruct (trees w !! t); cbn; (split; [|split; [apply lookup_delete_eq|exact Hgone]]); constructor; cbn; try done; try (by intros key x [_ H]%lookup_delete_Some); try (intros s' x Hne; rewrite lookup_delete_ne by congruence; done); apply unlist_shrinks.
Qed.
Lemma endOpens_closing s s' l w : closing s' w (endOpens s l w).
Proof. unfold endOpens. cbn. destruct (sessions w !! s); by constructor. Qed.
Lemma closeTrees_alone k s tids : forall w, exists w', alone k (map (ICloseTree s) tids) w w' /\ closing s w w' /\
  forall tid t, tid ∈ tids -> treeConnectTable w !! (s, tid) = Some t ->
    treeConnectTable w' !! (s, tid) = None /\ (forall fid o, openTable w' !! (s, fid) = Some o -> onTree t w (fid, o) = false).
Proof.
  induction tids as [|tid tids IH]; intros w. { exists w. split; [constructor|]. split; [apply closing_refl|]. by intros tid t ?%elem_of_nil. }
  assert (forall w1 w2, opens w1 = opens w2 -> forall t e, onTree t w1 e = onTree t w2 e) as Hon by (intros w1 w2 E t e; unfold onTree; by rewrite E).
  destruct (treeConnectTable w !! (s, tid)) as [t|] eqn:Et.
  - destruct (closeTreeConnect_closing s tid t w Et) as (w1 & l & Hc & Hcl & Hn & Hg). pose proof (endOpens_closing s s l w1) as He. destruct (IH (endOpens s l w1)) as (w2 & Ha & Hc2 & Hall).
    exists w2. split; [|split; [by eapply closing_trans, closing_trans|]].
    + eapply alone_cons; [cbn [exec]; unfold deregisterSession, closeTreeStep; rewrite Hc; reflexivity|]. eapply alone_cons; [reflexivity|]. exact Ha.
    + intros x tx [->|Hx]%elem_of_cons Hlx.
      * assert (tx = t) as -> by congruence. split.
        -- destruct (treeConnectTable w2 !! (s, tid)) as [t2|] eqn:E2; [|done]. apply (cl_trees _ _ _ Hc2), (cl_trees _ _ _ He) in E2. congruence.
        -- intros fid o Ho. apply (cl_openTable _ _ _ Hc2), (cl_openTable _ _ _ He) in Ho. by apply Hg.
      * destruct (treeConnectTable w1 !! (s, x)) as [ty|] eqn:E1.
        -- assert (ty = tx) as -> by (apply (cl_trees _ _ _ Hcl) in E1; congruence). destruct (Hall x tx Hx) as [H1 H2]; [unfold endOpens; cbn; by destruct (sessions w1 !! s)|]. split; [done|].
           intros fid o Ho. rewrite <- (H2 fid o Ho). apply Hon. rewrite (cl_opens _ _ _ He). by rewrite (cl_opens _ _ _ Hcl).
        -- assert (x = tid) as ->.
           { unfold closeTreeConnect in Hc. rewrite Et in Hc. cbv zeta in Hc. injection Hc as <- _. cbn in E1. apply lookup_delete_None in E1 as [E1|E1]; [by injection E1|]. unfold closeTree in E1. cbn in E1. destruct (trees w !! t); cbn in E1; congruence. }
           assert (tx = t) as -> by congruence. split; [|intros fid o Ho; apply (cl_openTable _ _ _ Hc2), (cl_openTable _ _ _ He) in Ho; by apply Hg].
           destruct (treeConnectTable w2 !! (s, tid)) as [t2|] eqn:E2; [|done]. apply (cl_trees _ _ _ Hc2), (cl_trees _ _ _ He) in E2. congruence.
  - destruct (IH w) as (w2 & Ha & Hc2 & Hall). exists w2. split; [|split; [done|]].
    + eapply alone_cons; [cbn [exec]; unfold deregisterSession, closeTreeStep; unfold closeTreeConnect; rewrite Et; reflexivity|]. exact Ha.
    + intros x tx [->|Hx]%elem_of_cons Hlx; [congruence|by apply Hall].
Qed.
Lemma unlistOpens_closing s l w : closing s w (unlistOpens l w).
Proof. constructor; try done. apply unlist_shrinks. Qed.
(** The tables of connections are cleared one by one. *)
Record untabled (w w' : world) : Prop := {
  un_sessions : sessions w' = sessions w;
  un_trees : treeConnectTable w' = treeConnectTable w;
  un_openTable : openTable w' = openTable w;
  un_globalOpens : globalOpenTable w' = globalOpenTable w;
  un_SOpens : SOpens w' = SOpens w;
  un_table : forall key s, sessionTable w' !! key = Some s -> sessionTable w !! key = Some s;
}.
Lemma untable_alone k sid l : forall w, exists w', alone k (map (fun c => IUntable c sid) l) w w' /\ untabled w w' /\ forall c, c ∈ l -> sessionTable w' !! (c, sid) = None.
Proof.
  induction l as [|c l IH]; intros w. { exists w. split; [constructor|]. split; [by constructor|]. by intros c ?%elem_of_nil. }
  destruct (IH (upd_sessionTable (delete (c, sid)) w)) as (w' & Ha & [U1 U2 U3 U4 U5 U6] & Hn). exists w'. split; [by eapply alone_cons|]. split.
  - constructor; try done. intros key s H. apply U6 in H. cbn in H. by apply lookup_delete_Some in H as [_ ?].
  - intros x [->|Hx]%elem_of_cons; [|by apply Hn]. destruct (sessionTable w' !! (c, sid)) as [s|] eqn:E; [|done]. apply U6 in E. cbn in E. by rewrite lookup_delete_eq in E.
Qed.
Lemma finish_alone k p b w : exists w', alone k (finish p b) w w' /\ untabled w w' /\ globalSessionTable w' = globalSessionTable w.
Proof. destruct p; simpl; (eexists; split; [repeat (constructor || (eapply alone_cons; [reflexivity|]))|by split]). Qed.
(** C17: A teardown left to itself leaves nothing of the session behind.  It always ends, with
    the tree connects of the session gone and the opens made on them, the opens off the list
    of the server, the session in the table of none of the connections it was a channel of,
    and one open session counted less; the sessions of others keep what they had. *)
Theorem teardown_leaves_nothing (k : nat) (c : connId) (sid : Z) (s : sessId) (p : purpose) (w : world) : sessionTable w !! (c, sid) = Some s ->
  exists fuel w', runAlone fuel k (teardown c sid p) w = Some w' /\
    (forall tid, treeConnectTable w' !! (s, tid) = None) /\
    (forall fid o tid t, openTable w' !! (s, fid) = Some o -> treeConnectTable w !! (s, tid) = Some t -> onTree t w (fid, o) = false) /\
    (forall fid o op, openTable w !! (s, fid) = Some o -> opens w !! o = Some op -> globalOpenTable w' !! durableFileID op = None) /\
    globalSessionTable w' !! sid = None /\ SOpens w' = SOpens w - 1 /\
    (forall c' ss nm ch, c' = c \/ sessions w !! s = Some ss /\ Session.channelList (core ss) !! nm = Some ch /\ Session.ch_connection ch = c' -> sessionTable w' !! (c', sid) = None) /\
    (forall s', s' <> s -> (forall tid, treeConnectTable w' !! (s', tid) = treeConnectTable w !! (s', tid)) /\ (forall fid, openTable w' !! (s', fid) = openTable w !! (s', fid))).
Proof.
  intros Hs. set (w0 := upd_sessionTable (delete (c, sid)) w). set (w1 := unlistOpens (map snd (opensOf s w0)) w0).
  assert (closing s w0 w1) as C1 by apply unlistOpens_closing.
  destruct (closeTrees_alone k s (treesOf s w1) w1) as (w2 & A2 & C2 & Hall). pose proof (closing_trans _ _ _ _ C1 C2) as C.
  set (w3 := upd_sess s (upd_core (Session.set_channels ∅)) w2). set (l := match sessions w2 !! s with Some ss => map (fun e => Session.ch_connection e.2) (map_to_list (Session.channelList (core ss))) | None => [] end ++ [c]).
  destruct (untable_alone k sid l w3) as (w4 & A4 & [U1 U2 U3 U4 U5 U6] & Hn). set (w5 := count_ (-1) 0 (upd_globalSessionTable (delete sid) w4)).
  destruct (finish_alone k p true w5) as (w6 & A6 & [V1 V2 V3 V4 V5 V6] & V7).
  assert (alone k (teardown c sid p) w w6) as Ha.
  { eapply alone_cons; [cbn [exec]; unfold deregisterSession, closeTreeStep; rewrite Hs; reflexivity|]. fold w0. eapply alone_cons; [reflexivity|]. fold w1. eapply alone_cons; [reflexivity|].
    cbn [app]. eapply alone_app; [exact A2|]. eapply alone_cons; [reflexivity|]. fold w3 l. eapply alone_app; [exact A4|].
    eapply alone_cons; [reflexivity|]. fold w5. rewrite app_nil_l. change (alone k (finish p true ++ []) w5 w6). rewrite app_nil_r. exact A6. }
  destruct (alone_runs _ _ _ _ Ha) as [fuel Hrun]. exists fuel, w6. split; [done|].
  assert (treeConnectTable w6 = treeConnectTable w2) as Et by (rewrite V2; exact U2). assert (openTable w6 = openTable w2) as Eo by (rewrite V3; exact U3). assert (globalOpenTable w6 = globalOpenTable w2) as Eg by (rewrite V4; exact U4).
  split_and!.
  - intros tid. rewrite Et. destruct (treeConnectTable w2 !! (s, tid)) as [t|] eqn:E; [|done]. pose proof (cl_trees _ _ _ C2 _ _ E) as E1.
    destruct (Hall tid t) as [H _]; [|done|congruence]. apply elem_of_treesOf. by exists t.
  - intros fid o tid t Ho Ht. rewrite Eo in Ho. assert (treeConnectTable w1 !! (s, tid) = Some t) as Ht1 by exact Ht.
    destruct (Hall tid t) as [_ H]; [apply elem_of_treesOf; by exists t|done|]. exact (H fid o Ho).
  - intros fid o op Ho Hop. rewrite Eg. apply (lookup_weaken_None _ (globalOpenTable w1)); [|apply (cl_globalOpens _ _ _ C2)].
    apply (unlist_gone _ _ _ o); [|exact Hop]. apply list_elem_of_fmap. exists (fid, o). split; [done|]. by apply elem_of_opensOf.
  - rewrite V7. apply lookup_delete_eq.
  - rewrite V5. unfold w5. cbn. rewrite U5. unfold w3. cbn. rewrite (cl_SOpens _ _ _ C). unfold w0. cbn. lia.
  - intros c' ss nm ch Hor. destruct (sessionTable w6 !! (c', sid)) as [x|] eqn:E; [|done]. apply V6 in E. assert (sessionTable w4 !! (c', sid) = None) as E4; [|unfold w5 in E; cbn in E; congruence].
    apply Hn. apply elem_of_app. destruct Hor as [->|(Hss & Hch & <-)]; [right; apply list_elem_of_here|left].
    rewrite (cl_sessions _ _ _ C). unfold w0. cbn. rewrite Hss. apply list_elem_of_fmap. exists (nm, ch). split; [done|]. by apply elem_of_map_to_list.
  - intros s' Hne. split; [intros tid; rewrite Et; by rewrite (cl_otherTrees _ _ _ C)|intros fid; rewrite Eo; by rewrite (cl_otherOpens _ _ _ C)].
Qed.

(** ** Handlers end

    Each instruction puts only lower ones in front, and passes the duty to answer on. *)
Definition level (i : instr) : nat :=
  match i with
  | ISetup _ _ => 10 | IReactivate _ _ _ => 9 | IAuth _ _ _ => 8 | IFinalize _ _ _ => 7 | IReplace _ _ _ => 6 | IActivate _ _ _ => 5 | IClient _ _ => 4 | IClientPut _ _ => 1
  | INewGlobal _ _ _ => 5 | IChallenge _ _ _ => 4 | IPwError _ => 1
  | IBindState _ _ _ => 6 | IBindBound _ _ _ => 5 | IBindAuth _ _ _ => 4 | IJoin _ _ _ _ => 3 | IAddChannel _ _ _ _ => 2 | IChannelKey _ _ _ _ => 1
  | ITake _ _ _ => 3 | IListTrees _ => 2 | ICloseTree _ _ => 1 | IChannels _ _ _ => 1 | ICancelOpens _ | IEndOpens _ _ | IUntable _ _ | IGlobal _ | IOrphan _ | IUnbind _ _ | IReply _ _ => 0
  | ILogoff _ _ => 4 | ILost _ => 6 | ILostSessions _ => 5 | IIfEmpty _ _ => 4
  | ITree _ _ _ _ _ _ _ _ _ => 3 | IWeigh _ _ _ _ _ _ _ => 2 | IPlace _ _ _ _ => 1 | ITreeOff _ _ _ _ => 1 | IServe _ _ _ => 1
  end%nat.
Definition owedBy (p : purpose) : list connId := match p with Silent => [] | Fails c _ | Logoff c => [c] end.
(** Whom the instruction is to answer, if the handler comes to that. *)
Definition owes (i : instr) : list connId :=
  match i with
  | ISetup c _ | INewGlobal c _ _ | IChallenge c _ _ | IReactivate c _ _ | IAuth c _ _ | IPwError c | IFinalize c _ _ | IReplace c _ _ | IActivate c _ _ | IClient c _ | IClientPut c _
  | IBindState c _ _ | IBindBound c _ _ | IBindAuth c _ _ | IJoin c _ _ _ | IAddChannel c _ _ _ | IChannelKey c _ _ _
  | ILogoff c _ | ITree c _ _ _ _ _ _ _ _ | IWeigh c _ _ _ _ _ _ | IPlace c _ _ _ | ITreeOff c _ _ _ | IServe c _ _ | IReply c _ => [c]
  | ITake _ _ p => owedBy p
  | _ => []
  end.
Lemma map_owes_nil {A} (f : A -> instr) (l : list A) : (forall a, owes (f a) = []) -> flat_map owes (map f l) = [].
Proof. intros H. induction l as [|a l IH]; [done|]. simpl. by rewrite H. Qed.
Lemma finish_owes p b : flat_map owes (finish p b) = owedBy p.
Proof. by destruct p. Qed.
Lemma exec_lower k i w w' new : exec k i w = (w', new) -> forall j, j ∈ new -> (level j < level i)%nat.
Proof.
  intros He j Hj.
  assert (forall A (f : A -> instr) (l : list A), (forall a, (level (f a) < level i)%nat) -> j ∈ map f l -> (level j < level i)%nat) as Hmap.
  { intros A f l Hf Hin. apply list_elem_of_fmap in Hin as (a & -> & _). apply Hf. }
  destruct i; opened He;
    repeat match goal with
    | H : (match ?x with _ => _ end) = (_, _) |- _ => destruct x
    | H : (let _ := ?x in _) = _ |- _ => cbv zeta in H
    end; injection He as _ <-; unfold teardown in Hj;
    repeat match goal with
    | H : j ∈ (if ?x then _ else _) |- _ => destruct x
    | H : j ∈ map _ _ |- _ => eapply Hmap in H; [exact H|intros; simpl; lia]
    | H : j ∈ _ ++ _ |- _ => apply elem_of_app in H as [H|H]
    | H : j ∈ [] |- _ => by apply elem_of_nil in H
    | H : j ∈ finish ?p _ |- _ => destruct p; simpl in H
    | H : j ∈ _ :: _ |- _ => apply elem_of_cons in H as [->|H]
    end; simpl; lia.
Qed.
Lemma closeTreeConnect_replies s tid w w' l : closeTreeConnect s tid w = Some (w', l) -> replies w' = replies w.
Proof. unfold closeTreeConnect. destruct (treeConnectTable w !! (s, tid)) as [t|]; [|done]. cbv zeta. intros [= <- _]. unfold closeTree. cbn. by destruct (trees w !! t). Qed.
Lemma exec_owes k i w w' new : exec k i w = (w', new) ->
  (replies w' = replies w /\ (flat_map owes new = owes i \/ flat_map owes new = [])) \/ exists c st, i = IReply c st /\ new = [] /\ replies w' = replies w ++ [(c, st)].
Proof.
  intros He. destruct i; try (right; injection He as <- <-; by eexists _, _); left; opened He;
    repeat match goal with
    | H : (match ?x with _ => _ end) = (_, _) |- _ => destruct x eqn:?
    | H : (let _ := ?x in _) = _ |- _ => cbv zeta in H
    end; injection He as <- <-;
    unfold replacePrevious, endOpens, delist, orphanDurableOpens, unlistOpens, upd_sess, upd_conn; cbn;
    rewrite ?flat_map_app, ?finish_owes, ?map_owes_nil by done; cbn; rewrite ?app_nil_r;
    repeat match goal with |- context [match ?x with _ => _ end] => destruct x end; cbn; auto.
  all: match goal with H : closeTreeConnect _ _ _ = Some _ |- _ => apply closeTreeConnect_replies in H; cbn in H; rewrite H; auto end.
Qed.
(** Every handler ends, and answers once at most.  Whatever the state it finds, a request
    of any kind, a lost connection included, left to itself comes to its end in a bounded
    number of steps; if it is answered at all, it is answered once, over the connection it
    came from. *)
Lemma handlers_end (k : nat) (i : instr) (w : world) : exists fuel w', runAlone fuel k [i] w = Some w' /\
  (replies w' = replies w \/ exists c st, owes i = [c] /\ replies w' = replies w ++ [(c, st)]).
Proof.
  assert (forall n l w, (forall j, j ∈ l -> (level j < n)%nat) -> (length (flat_map owes l) <= 1)%nat -> exists w', alone k l w w' /\
    (replies w' = replies w \/ exists c st, flat_map owes l = [c] /\ replies w' = replies w ++ [(c, st)])) as H.
  { induction n as [|n IHn].
    - intros [|j l] w0 Hl _; [|by specialize (Hl j (list_elem_of_here _ _)); lia]. exists w0. split; [constructor|by left].
    - induction l as [|j l IHl]; intros w0 Hl Hlen. { exists w0. split; [constructor|by left]. }
      destruct (exec k j w0) as [w1 new] eqn:He. cbn in Hlen. rewrite length_app in Hlen.
      pose proof (Hl j (list_elem_of_here _ _)) as Hj. pose proof (exec_lower _ _ _ _ _ He) as Hlow. pose proof (exec_owes _ _ _ _ _ He) as Ho.
      assert (length (flat_map owes new) <= length (owes j))%nat as Hnew by (destruct Ho as [[_ [-> | ->]]|(c & st & -> & -> & _)]; simpl; lia).
      destruct (IHn new w1) as (w2 & A2 & R2); [intros x Hx; specialize (Hlow x Hx); lia|lia|].
      destruct (IHl w2) as (w3 & A3 & R3); [intros x Hx; apply Hl; by apply list_elem_of_further|lia|].
      exists w3. split; [eapply alone_cons; [exact He|by eapply alone_app]|]. cbn.
      destruct Ho as [[E1 Ho]|(c & st & -> & -> & E1)].
      + rewrite E1 in R2. destruct R2 as [R2|(c & st & Hc & R2)].
        * rewrite R2 in R3. destruct R3 as [R3|(c & st & Hc & R3)]; [by left|right]. exists c, st. split; [|done]. rewrite Hc in Hlen |- *. simpl in Hlen. by destruct (owes j); [|simpl in Hlen; lia].
        * right. exists c, st. destruct Ho as [Ho|Ho]; [|congruence]. rewrite <- Ho, Hc. rewrite Hc in Hnew. rewrite <- Ho, Hc in Hlen. simpl in Hlen. destruct (flat_map owes l) eqn:El; [|simpl in Hlen; lia].
          split; [done|]. destruct R3 as [R3|(c' & st' & ? & _)]; [congruence|done].
      + right. exists c, st. simpl in Hlen. destruct (flat_map owes l) eqn:El; [|simpl in Hlen; lia]. split; [done|]. destruct R2 as [R2|(c' & st' & ? & _)]; [|done]. destruct R3 as [R3|(c' & st' & ? & _)]; [congruence|done]. }
  destruct (H (S (level i)) [i] w) as (w' & Ha & Hr); [intros j [->|?%elem_of_nil]%elem_of_cons; [lia|done]|destruct i; simpl; try lia; destruct p; simpl; lia|].
  destruct (alone_runs _ _ _ _ Ha) as [fuel Hf]. exists fuel, w'. split; [done|]. destruct Hr as [Hr|(c & st & Hc & Hr)]; [by left|right]. exists c, st. split; [|done]. cbn in Hc. by rewrite app_nil_r in Hc.
Qed.
End setup.

(** ** Runs *)
Definition aConn (c : connId) (name : string) : conn :=
  Conn (Session.Connection c name SMB_DIALECT_30 AES_CMAC 0 (replicate 16 0) 0 [] ∅) true 0 "10.0.0.7" None 0.
Definition grantedShares : Shares.shares :=
  match Shares.UpdateAccessRights Shares.theAccount "papers" Shares.full Shares.someShares with Ok w => w | _ => Shares.someShares end.
Definition world0 : world :=
  World {[ 0%nat := aConn 0 "10.0.0.7:50001"; 1%nat := aConn 1 "10.0.0.7:50002" ]} ∅ ∅ {[ 0%nat := Open 0 7 false ]}
    ∅ ∅ ∅ ∅ ∅ ∅ grantedShares ∅ ∅ ∅ ∅ 0 0 [] [] [].
Definition system0 : system := System world0 ∅.
Definition annaLogin : login := Login "anna" (Shares.acc_Workgroup Shares.anna) 1001 false false (replicate 16 0).
Definition carolLogin : login := Login "carol" (Shares.acc_Workgroup Shares.anna) 1002 false false (replicate 16 0).
(** The two legs of a setup, and those of a binding. *)
Definition first (sid : Z) : request := Req 0 [] false 0 0 false false true None sid 0 [].
Definition second (sid previous : Z) (l : option login) : request := Req sid [] false 0 previous false true true l 0 0 [].
Definition binding (sid : Z) (l : login) : request := Req sid [] true 0 0 true true true (Some l) 0 0 [].
Abbreviation play := (run Session.toyLib String.eqb (fun s => s) Shares.theAccount false false true).
(** A handler from start to end. *)
Definition whole (k : nat) (i : instr) : list event := Start k i :: replicate 20 (Run k).
Definition setUp (k : nat) (c : connId) (sid previous : Z) (l : login) : list event := whole k (ISetup c (first sid)) ++ whole (S k) (ISetup c (second sid previous (Some l))).
Definition joins (k : nat) (c : connId) (sid : Z) : list event := whole k (ISetup c (binding sid annaLogin)).
Definition papers (c : connId) (sid tid : Z) : instr := ITree c sid "\\here\papers" true None Shares.Unparsed true tid 0.
Definition uses (w : world) : option Z := Shares.currentUses <$> Shares.heap (theShares w) !! 0%nat.
Definition doneWith (sy : system) : Prop := forallb (fun e : nat * list instr => match e.2 with [] => true | _ => false end) (map_to_list (threads sy)) = true.
Example a_session_serves :
  let w := state (play (setUp 0 0 5 0 annaLogin ++ joins 2 1 5 ++ whole 3 (papers 1 5 9) ++ whole 4 (IServe 1 5 SMB2_READ)) system0) in
  replies w = [(0%nat, STATUS_MORE_PROCESSING_REQUIRED); (0%nat, STATUS_OK); (1%nat, STATUS_OK); (1%nat, STATUS_OK); (1%nat, STATUS_OK)] /\
  served w = [(1%nat, 0%nat, SMB2_READ); (1%nat, 0%nat, SMB2_TREE_CONNECT)] /\ uses w = Some 1 /\ SOpens w = 1.
Proof. vm_compute. by split_and!. Qed.
Lemma starting0 : starting system0.
Proof.
  split_and!; try done. intros c me. cbn. destruct (decide (c = 0%nat)) as [->|]; [rewrite lookup_insert_eq; by intros [= <-]|]. rewrite lookup_insert_ne by done.
  intros H. by apply lookup_singleton_Some in H as [_ <-].
Qed.
Definition joinedRun : list event := setUp 0 0 5 0 annaLogin ++ joins 2 1 5 ++ whole 3 (papers 1 5 9) ++ whole 4 (IServe 1 5 SMB2_READ).
Lemma served_to_the_authenticated_witness :
  (1%nat, 0%nat, SMB2_READ) ∈ served (state (play joinedRun system0)) /\
  authenticated (state (play joinedRun system0)) 0 /\ allowed String.eqb (state (play joinedRun system0)) 1 0.
Proof.
  assert ((1%nat, 0%nat, SMB2_READ) ∈ served (state (play joinedRun system0))) as H by (vm_compute; apply list_elem_of_here). split; [exact H|].
  pose proof (served_to_the_authenticated Session.toyLib String.eqb (fun s => s) Shares.theAccount false false true system0 joinedRun starting0) as P.
  cbv zeta in P. destruct P as [P _]. destruct (P 1%nat 0%nat SMB2_READ H) as [P1 P2]. split; [apply P2; discriminate|exact P1].
Defined.
Lemma fair0 : fair system0.
Proof.
  split; [|by intros k l H]. constructor; [|done..]. intros i sh. change (Shares.heap (theShares (state system0))) with (Shares.heap grantedShares). intros H _.
  destruct (decide (i = 0%nat)) as [->|Hne].
  - replace sh with (default Shares.aShare (Shares.heap grantedShares !! 0%nat)) by (by rewrite H). split; [vm_compute; reflexivity|by vm_compute].
  - exfalso. assert (i ∈ dom (Shares.heap grantedShares)) as Hd by (apply elem_of_dom; by exists sh).
    assert (dom (Shares.heap grantedShares) = ({[ 0%nat ]} : gset nat)) as E by (vm_compute; reflexivity). rewrite E in Hd. set_solver.
Qed.
Definition treeRun : list event := setUp 0 0 5 0 annaLogin ++ whole 3 (papers 0 5 9) ++ whole 4 (papers 0 5 10) ++ whole 5 (ITreeOff 0 5 9 0).
Lemma uses_are_trees_witness :
  exists sh, Shares.heap (theShares (state (play treeRun system0))) !! 0%nat = Some sh /\
    Shares.currentUses sh = Z.of_nat (openTrees 0 (trees (state (play treeRun system0)))) /\ 0 <= Shares.currentUses sh <= Shares.maxShareUses.
Proof.
  pose proof (uses_are_trees Session.toyLib String.eqb (fun s => s) Shares.theAccount false false true system0 treeRun fair0) as P. cbv zeta in P.
  assert (exists sh, Shares.heap (theShares (state (play treeRun system0))) !! 0%nat = Some sh /\ Shares.shareType sh = SHARE_TYPE_DISK) as (sh & H1 & H2) by (eexists; split; vm_compute; reflexivity).
  exists sh. split; [exact H1|]. exact (P 0%nat sh H1 H2).
Defined.
Lemma teardown_leaves_nothing_witness :
  let w := state (play (setUp 0 0 5 0 annaLogin ++ joins 2 1 5 ++ whole 3 (papers 1 5 9)) system0) in
  exists fuel w', runAlone Session.toyLib String.eqb (fun s => s) Shares.theAccount false false true fuel 9 (teardown 0 5 Silent) w = Some w' /\
    (forall tid, treeConnectTable w' !! (0%nat, tid) = None) /\ globalSessionTable w' !! 5 = None /\ SOpens w' = SOpens w - 1 /\ sessionTable w' !! (1%nat, 5) = None.
Proof.
  intros w. assert (sessionTable w !! (0%nat, 5) = Some 0%nat) as H by (vm_compute; reflexivity).
  destruct (teardown_leaves_nothing Session.toyLib String.eqb (fun s => s) Shares.theAccount false false true 9 0 5 0 Silent w H) as (fuel & w' & Hr & Ht & _ & _ & Hg & Hs & Hc & _).
  exists fuel, w'. split; [exact Hr|]. split; [exact Ht|]. split; [exact Hg|]. split; [exact Hs|].
  refine (Hc 1%nat (default (newSessionState 5 0 0) (sessions w !! 0%nat)) "10.0.0.7:50002" (Session.Channel (channelKey Session.toyLib (base (aConn 1 "10.0.0.7:50002")) annaLogin []) 1) (or_intror (conj _ (conj _ eq_refl)))); vm_compute; reflexivity.
Defined.

(** *** What goes wrong *)
(** A connection that is joining a session while it is logged off: the session goes on over
    it, set up as before and on no list of the server. *)
Theorem binding_outlives_logoff :
  let sy := play (setUp 0 0 5 0 annaLogin ++ [Start 2 (ISetup 1 (binding 5 annaLogin)); Run 2; Run 2; Run 2; Run 2] ++ whole 3 (ILogoff 0 5) ++ replicate 20 (Run 2) ++ whole 4 (papers 1 5 9)) system0 in
  let w := state sy in
  doneWith sy /\ globalSessionTable w !! 5 = None /\ SOpens w = 0 /\ stateNow 0 w = Session.sessionValid /\
  served w = [(1%nat, 0%nat, SMB2_TREE_CONNECT)] /\ uses w = Some 1.
Proof. vm_compute. by split_and!. Qed.
(** Two logoffs over two channels: both find the session, and both count it as closed. *)
Theorem two_logoffs_count_twice :
  let sy := play (setUp 0 0 5 0 annaLogin ++ joins 2 1 5 ++ [Start 3 (ILogoff 0 5); Run 3; Run 3; Run 3; Start 4 (ILogoff 1 5); Run 4; Run 4; Run 4] ++ replicate 20 (Run 3) ++ replicate 20 (Run 4)) system0 in
  doneWith sy /\ SOpens (state sy) = -1.
Proof. vm_compute. by split_and!. Qed.
(** A tree connect that was weighed before a logoff and placed after it is never closed: the
    share has a use that nothing gives back. *)
Theorem tree_connect_outlives_session :
  let sy := play (setUp 0 0 5 0 annaLogin ++ joins 2 1 5 ++ [Start 3 (papers 1 5 9); Run 3; Run 3] ++ whole 4 (ILogoff 0 5) ++ replicate 20 (Run 3) ++ whole 5 (ILost 0) ++ whole 6 (ILost 1)) system0 in
  let w := state sy in
  doneWith sy /\ sessionTable w = ∅ /\ globalSessionTable w = ∅ /\ uses w = Some 1.
Proof. vm_compute. by split_and!. Qed.
(** A client that names its previous session: over the same connection the session is taken
    off the tables with its tree connect left as it was, and over another it is not found. *)
Theorem previous_session_is_not_closed :
  let before := setUp 0 0 5 0 annaLogin ++ whole 2 (papers 0 5 9) in
  let here := state (play (before ++ setUp 3 0 6 5 annaLogin) system0) in
  let there := state (play (before ++ setUp 3 1 6 5 annaLogin) system0) in
  (sessionTable here !! (0%nat, 5) = None /\ globalSessionTable here !! 5 = None /\ uses here = Some 1 /\ SOpens here = 2) /\
  (sessionTable there !! (0%nat, 5) = Some 0%nat /\ stateNow 0 there = Session.sessionValid /\ uses there = Some 1).
Proof. vm_compute. by split_and!. Qed.
(** A watch asked for over another channel than the first is left unanswered when its tree
    connect goes. *)
Theorem watch_of_another_channel_waits :
  let w := state (play (setUp 0 0 5 0 annaLogin ++ joins 2 1 5 ++ whole 3 (papers 1 5 9)) system0) in
  let w := upd_watches (fun _ => {[ (0%nat, 0%nat); (1%nat, 0%nat) ]}) (upd_openTable (fun _ => {[ (0%nat, 3) := 0%nat ]}) w) in
  exists w' l, closeTreeConnect 0 9 w = Some (w', l) /\ l = [0%nat] /\ watches (endOpens 0 l w') = {[ (1%nat, 0%nat) ]}.
Proof. cbv zeta. eexists _, _. split; [vm_compute; reflexivity|]. split; vm_compute; reflexivity. Qed.
(** A client that sets out to authenticate once more loses its session: the token that opens
    the exchange is taken for the one that ends it. *)
Theorem reauthentication_ends_the_session :
  let w := state (play (setUp 0 0 5 0 annaLogin ++ whole 2 (papers 0 5 9) ++ whole 3 (ISetup 0 (second 5 0 None))) system0) in
  sessionTable w !! (0%nat, 5) = None /\ last (replies w) = Some (0%nat, STATUS_NO_SUCH_USER) /\ uses w = Some 0.
Proof. vm_compute. by split_and!. Qed.
(** An authentication over another channel than the first makes the session that of whoever
    logged in last over the first. *)
Theorem channel_login_takes_anothers_name :
  let w := state (play (setUp 0 0 5 0 annaLogin ++ joins 2 1 5 ++ setUp 3 0 6 0 carolLogin ++ whole 5 (ISetup 1 (second 5 0 (Some annaLogin)))) system0) in
  (Session.userName ∘ core <$> sessions w !! 0%nat) = Some "carol" /\ last (replies w) = Some (1%nat, STATUS_OK).
Proof. vm_compute. by split_and!. Qed.
(** A connection is closed by whoever notices, and again by its reading loop: the second time
    takes the next connection from the same address off the list. *)
Theorem closing_twice_delists_another :
  let w := upd_conns (<[ 2%nat := aConn 2 "10.0.0.7:50001" ]>) world0 in
  exists w1 w2, admitHost 0 8 w = Some w1 /\ admitHost 2 8 (delist 0 (newConnection 0 w1)) = Some w2 /\
    connectionList (newConnection 2 w2) = {[ "10.0.0.7:50001" := 2%nat ]} /\
    let w3 := delist 0 (newConnection 2 w2) in connectionList w3 = ∅ /\ connectionCount w3 = ∅.
Proof. cbv zeta. eexists _, _. split; [vm_compute; reflexivity|]. split; [vm_compute; reflexivity|]. split; [vm_compute; reflexivity|]. split; vm_compute; reflexivity. Qed.
End Setup.
